(* ===== verification/_CoqProject ===== *)
-Q . S2P
Prelude.v
SgxStatus.v
SgxTypes.v
Trts.v
TrtsEnclave.v
AlignAlloc.v
AlignBits.v
AlignSpecs.v
Tse.v
Tcrypto.v
TcryptoHandles.v
TcryptoSpec.v
ToyMachine.v
TcryptoSizes.v
Tseal.v
TsealProofs.v
TsealRaw.v
Tdh.v
TdhTarget.v
TdhSpec.v
TdhRun.v
TdhSession.v
Leb128.v
Opaque.v
Serialize.v
SyncMutex.v
SyncMutexProofs.v
RwLock.v
RwLockProofs.v
Parker.v
Once.v
OnceProofs.v
Barrier.v
Time.v
Rand.v
RandSpecs.v
Ocall.v
OcallProofs.v
OcallNet.v
OcallIo.v
OcallRun.v
OcallSecret.v
IoError.v
IoBase.v
IoStream.v
IoReaders.v
IoReaderSpecs.v
BufReader.v
BufReaderSpecs.v
IoSeek.v
BufWriter.v
BufWriterSpecs.v
LineWriterSpecs.v
IoCopy.v
IoText.v
IoFd.v
Path.v
PathSpecs.v
PathOps.v
PathCompare.v
PathOpsSpecs.v
HashGroup.v
HashGroupLaws.v
HashRaw.v
HashMap.v
HashSet.v
HashProbe.v
HashInv.v
HashGrow.v
HashRehash.v
HashIter.v
HashMapSpecs.v
HashSetSpecs.v
NetIp.v
NetSock.v
NetParser.v
NetText.v
NetIpSpecs.v
NetAddrSpecs.v
NetLookup.v
