(* ===== verification/Prelude.v ===== *)
(** * The trusted core of the Teaclave SGX SDK

    The SDK lets Rust code run inside an SGX enclave.  This library models the
    parts of it on which an enclave's secrets depend, and proves what they
    promise.  Paths below are relative to src/.

    ** The program's parts and how they interact

    - sgx_types: the status enumerations (src/error.rs) and the C structures
      (src/types.rs) that all other crates exchange.
    - sgx_trts: range checks "inside the enclave / outside the enclave"
      (src/trts.rs), the constant-time comparison (src/memeq.rs), the random
      source; the layout of the enclave and the features of the processor
      (src/enclave.rs, src/cpu_feature.rs).
    - sgx_alloc: memory for secrets that keeps them from the bytes of a cache line
      that can leak (src/alignalloc.rs, src/alignbox.rs).
    - sgx_tse: local reports and derived keys (src/se.rs).
    - sgx_tcrypto: Rust wrappers and handle objects over Intel's C crypto
      library (src/crypto.rs).
    - sgx_tseal: encryption of data at rest under a key only this enclave can
      derive (src/internal.rs; typed interfaces in src/seal.rs and src/aad.rs).
      It calls sgx_trts, sgx_tse and sgx_tcrypto.
    - sgx_tdh: local attestation with key exchange between two enclaves of one
      machine (src/dh.rs, src/ecp.rs).  It calls the same three crates.
    - sgx_serialize: binary encoding of Rust values (src/serialize.rs,
      src/opaque.rs, src/leb128.rs).
    - sgx_libc: the system calls of the enclave, each an OCALL to the untrusted
      host (src/linux/x86_64/ocall.rs).
    - sgx_tstd: the port of the standard library; of it the mutex, the condition
      variable and the reader-writer lock (src/sys/mutex.rs, condvar.rs,
      rwlock.rs), thread parking (src/sys_common/thread_parker), [Once] and
      [Barrier] (src/sync), and the input and output of src/io: errors, the traits with
      their provided methods, readers and writers over memory, buffered readers
      and writers, [copy], text; file descriptors (src/sys/fd.rs), where it
      calls sgx_libc; paths (src/path.rs, src/sys/path.rs); the hash table that the
      collections use (hashbrown/src: raw, map.rs, set.rs); network addresses
      (src/net, src/sys_common/net.rs); and time (src/time.rs, src/sys/time.rs).
    - sgx_rand: random numbers: ranges, shuffling and sampling, the XorShift and
      ChaCha generators, reseeding (src/lib.rs, chacha.rs, reseeding.rs,
      distributions/range.rs).

    ** How the code is translated

    Pure code is functions on integers ([Z], with the width written out where a
    value can leave it: [wrap w], [swrap w]), bytes and lists.  Code that calls
    the platform threads a world [W] through the state monad of this file ([ST],
    with errors [STE]); a [Result] is [result], code that can panic returns
    [panics].  Arithmetic has the release build's wrap-around.  An object the
    code changes is returned with the result, on the error paths too.  Buffers
    whose address the code checks carry it.

    Code that is not Rust code of the repository is a type class, with what its
    documentation says in a second class of laws:
    - [Enclave] / [EnclaveLaws] (Trts.v): Intel's two range primitives.
    - [Platform] / [PlatformLaws] (Tse.v): EREPORT, EGETKEY and the random
      source; [Machine] / [MachineLaws] are the key derivations and the report
      MAC of the processor that all its enclaves share.
    - [Tcrypto] / [TcryptoLaws] (Tcrypto.v, TcryptoSpec.v): the C crypto
      library; [CryptoMath] / [CryptoMathLaws] is the mathematics it computes.
      No unforgeability is assumed: theorems on attacks end in "the MAC
      verifies under this key".
    - [HashContexts] (TcryptoHandles.v): which contexts the C library has open.
    - [TsealFfi] / [TsealFfiLaws] (Tseal.v, TsealRaw.v): the two C length
      helpers of sealing.
    - [SpecLayout] / [SpecLayoutLaws] (Tdh.v): the memory layout of
      [SgxLAv2ProtoSpec], which the source leaves to the compiler.
    - [Host] / [HostLaws] (Ocall.v, OcallProofs.v): the untrusted host with the
      marshalling code of edger8r, the OCALL stack allocator and [strlen].  The
      laws say only that the host is outside: it writes its own memory and the
      [out] parameters, and sees its own memory and the [in] parameters.
      [HostFills] (OcallProofs.v): the marshalling code overwrites the [out]
      parameters of a call that succeeded.  [HostFile] (IoFd.v) is a host that
      answers [read] as POSIX says and does not move in the file when it is asked
      for its size or position, which it may invent.
    - [Allocator] (OcallNet.v): the enclave's heap.
    - [Symbols] (TrtsEnclave.v): the C symbols of the enclave's image.
    - [Malloc] / [MallocLaws] (AlignAlloc.v, AlignSpecs.v): the C library's [malloc].
    - [Threads] (Once.v): where the stacks of the threads are.
    - [Clock] (Time.v): the clocks of the host.
    - [Rng] / [RngLaws] (Rand.v, RandSpecs.v): any generator, the trait of
      sgx_rand; [Reseeder] (Rand.v): the trait of a source of seeds.
    ToyMachine.v implements the platform and the crypto library, so that the laws
    are consistent, and the witnesses of the theorems run on it; OcallProofs.v does
    the same for the host, and the instances of the other classes are beside
    their theorems.  The client components are
    proved against the laws, and nothing in their proofs looks into an instance.

    The traits of src/io are classes too ([Read], [Write], [BufRead], [Seek]), and
    what a reader or writer promises is [Stream] (with [VecStream] for vectored reads,
    IoStream.v), [BufStream] (BufReaderSpecs.v) and [Sink] (IoStream.v): a stream still has the bytes [rest]
    and delivers them in order, in pieces of any size; a sink has [accepted] bytes
    and handed on the [committed] part of them; both may be interrupted [stalls]
    times and fail with the errors [errs].  Adaptors are proved to turn one
    promise into another, so they compose: a [BufReader] over a file, copied into
    a [LineWriter], is covered by the same theorems.

    ** The files

    - Prelude.v (this file): bytes, machine integers, byte-list lemmas, the
      state-and-error monad with its weakest precondition [wp] and tactics.
    - SgxStatus.v, SgxTypes.v: sgx_types.
    - Trts.v, TrtsEnclave.v, Tse.v: sgx_trts and sgx_tse.
    - AlignAlloc.v: sgx_alloc; AlignBits.v, AlignSpecs.v: its theorems.
    - Tcrypto.v: the wrappers and handles of crypto.rs; TcryptoHandles.v: the
      life cycle of the handle objects; TcryptoSpec.v: the laws and the
      wrappers' specifications; TcryptoSizes.v: lengths.
    - ToyMachine.v: the concrete machine.
    - Tseal.v: sealing; TsealProofs.v, TsealRaw.v: its theorems.
    - Tdh.v: key exchange, modules [Msg3], [ProtoSpec], [Responder],
      [Initiator]; TdhTarget.v, TdhSpec.v, TdhRun.v, TdhSession.v:
      its theorems.
    - Leb128.v, Opaque.v, Serialize.v: sgx_serialize.
    - SyncMutex.v, SyncMutexProofs.v: mutex and condition variable; RwLock.v,
      RwLockProofs.v: the reader-writer lock; Parker.v: thread parking; Once.v,
      OnceProofs.v, Barrier.v: src/sync/once.rs and barrier.rs.
    - Ocall.v: memory inside and outside the enclave and every wrapper of
      ocall.rs (module [Libc]); OcallNet.v: the address lookup; OcallProofs.v: the
      laws of the host and the calculus [touches], and a host;
      OcallRun.v, OcallSecret.v, OcallIo.v: the theorems.
    - IoError.v: io/error.rs; IoBase.v: io/mod.rs and readbuf.rs; IoReaders.v:
      slices, cursor.rs, util.rs, [Chain], [Take]; BufReader.v, BufWriter.v:
      io/buffered; IoCopy.v: io/copy.rs and [&mut [u8]] as a writer; IoText.v:
      strings and lines, and the buffered reader as a whole; IoFd.v: sys/fd.rs, and of
      fs.rs reading a file to its end.
    - IoStream.v: the two promises and the provided methods;
      IoReaderSpecs.v, BufReaderSpecs.v, BufWriterSpecs.v, LineWriterSpecs.v: who
      keeps them; IoSeek.v: readers with a position.
    - Path.v, PathOps.v: path.rs; PathSpecs.v: the component iterator;
      PathCompare.v: equality, order and hashing; PathOpsSpecs.v: the methods.
    - HashGroup.v: control bytes, bit masks and the two implementations of a group
      ([Group]); HashRaw.v: raw/mod.rs; HashMap.v: map.rs; HashSet.v: set.rs.
    - HashGroupLaws.v: the groups keep what the table relies on ([GroupLaws]);
      HashProbe.v: probe sequences and searches, control bytes;
      HashInv.v: the invariant ([Inv], [Table]); HashGrow.v, HashRehash.v: growing
      and rehashing; HashIter.v: the operations of the
      table; HashMapSpecs.v: the map as a finite map; HashSetSpecs.v: sets.
    - NetIp.v: net/ip.rs; NetSock.v: net/addr.rs; NetParser.v: net/parser.rs;
      NetLookup.v: C addresses and the resolution of names; NetText.v, NetIpSpecs.v,
      NetAddrSpecs.v: the theorems.
    - Time.v: src/sys/time.rs and src/time.rs.
    - Rand.v: sgx_rand; RandSpecs.v: its theorems.

    ** What the theorems show

    - Local attestation (TdhRun.v): two honest enclaves complete the exchange
      with the same key and each other's identity ([honest_exchange_agrees]);
      a success of [proc_msg2] or [proc_msg3] authenticates the peer, whatever
      the message was ([responder_authenticates], [initiator_authenticates]).
      TdhSession.v: the session objects are the state machines they should be
      and keep no key material, for any behaviour of the platform.  TdhTarget.v:
      the raw-pointer copies of [make_target_info] stay in bounds for any table
      and build the right target.  Msg3 as a raw buffer.
    - Sealing (TsealProofs.v, TsealRaw.v): sealing succeeds with
      the enclave's own key and a full random key id; unsealing inverts it; what
      unseals is authentic; argument checks; export and import of raw blobs,
      import of hostile blobs included; sizes saturate and never overflow.
    - Crypto wrappers: the handle objects never pass a dead handle to C and
      leak none; lengths reach C unchanged, except for HMAC's cast to [i32].
    - Runtime: range checks are exact; the constant-time comparison decides
      equality; status codes and their texts are in bijection.
    - Aligned allocation: the named bytes of an object are kept from the places that
      leak ([align_box_protects]) by the least possible padding
      ([padding_is_least]), and memory is returned ([align_dealloc_returns_block]),
      but for a bitmap; the header of small objects falls outside their block
      ([small_object_overruns_block]).
    - Serialization: every supported type round trips through the opaque
      format, in any container; the exact set of [i128] values that do not.
    - Locks: mutual exclusion, first-come order and absence of lost wake-ups of
      the mutex, of the condition variable and of the reader-writer lock, for
      any number of threads; and two ways in which the reader-writer lock fails
      (a freed list node is read, the reader count wraps).
    - Parking is a binary token without lost wake-ups ([parker_refines_token],
      [parker_wakes]).  [Once]: the queue of waiters that lie on their threads'
      stacks is memory safe ([once_safe]), the initialization completes at most once
      ([once_once]) and no waiter is forgotten ([once_waiter_leaves]).  [Barrier]:
      one leader for each full party, and nobody leaves before it is full
      ([barrier_rendezvous]).
    - System calls, but for the address lookup: whatever the host answers, a sequence
      of calls writes no byte of the enclave but the buffers it was handed
      ([libc_calls_confined]), and shows the host no byte but those it is asked to
      pass out, and those that [environ] reads where the host's pointers lead
      ([libc_calls_confidential]), which a host can use ([environ_leaks]); the
      vectored calls move the right bytes; one error path of the lookup frees a block
      twice ([getaddrinfo_error_double_free]).
    - Input and output: buffered readers and writers and line writers refine what
      they wrap, with no byte lost, duplicated or reordered on any path; [copy]
      moves exactly the stream; [read_until] and [lines] cut it where they should;
      seeking through a buffer goes where it says;
      strings stay valid UTF-8 whatever a reader does, unless it replaces the buffer
      it is lent ([replaced_buffer_overflows]).  A file over a host whose [read] is
      honest is a stream ([file_stream]), and the size the host claims matters only
      if no vector can hold as much, when [read_to_end] panics; over a lying one [read_to_end] leaves its
      vector's memory ([lying_read_overflows]).
    - Paths: the component iterator is a double-ended queue of the components,
      comparison and hashing agree with them, and [strip_prefix], [join], [push],
      [pop] and [absolute] do what they say of them.
    - Hash table: any sequence of operations on a map behaves as a finite map
      ([hashmap_refines_map]), for any hash function, with no panic, no access out
      of the table and no endless search; a capacity is kept
      ([hashmap_capacity]); sizes are refused
      exactly when they overflow ([with_capacity_outcomes]); sets
      have the operations of finite sets ([hashset_algebra]).
    - Network addresses: what is printed parses back ([net_addr_roundtrip]), IPv4
      addresses and their texts are in bijection ([ipv4_from_str_iff]), printing never
      overruns its buffers ([addr_display_pads]), the predicates are the documented
      networks ([ipv4_classes]), and a literal address is never looked up.
    - Time: adding and subtracting durations is exact and inverts, or is refused
      ([time_add_sub_exact]).
    - Random numbers: over a uniform generator an integer range is uniform
      ([range_uniform]) and every permutation results from as
      many words as every other in a shuffle ([shuffle_uniform]); ChaCha delivers the
      words of the cipher's blocks in the order of the counter ([chacha_stream]).

    ** Threads and the host

    In SyncMutex.v and RwLock.v a section between [lock] and [unlock] of the
    spinlock is one atomic step, since all accesses to the fields are inside
    such sections (the accesses of rwlock.rs that are not are separate steps).
    Waiting for an event and setting one are OCALLs.  [step true] allows the
    untrusted host to end any wait at any time; no step is ever forced, so it may
    also sit on a wake-up for ever.  Safety holds for it.  [step false] is the
    honest host, in which a wait ends by its event or by a timeout; the progress
    theorems give the run of honest steps that leads to the goal, from any state
    that a dishonest host can have produced.  Parker.v, Once.v and Barrier.v are
    one level up: a step is one access to an atomic variable, one operation of the
    mutex or condition variable, one park; the atomics are sequentially consistent.

    ** Fuel and bounds

    Recursion is structural except for the two leb128 write loops, which shift
    the value by seven bits per round: [rounds] = 19 covers 128 bits, running out
    of it would be a panic, and the round-trip theorems show that there is none.
    The read loops recurse on the bytes.  The loops of src/io go on for as long
    as the reader or writer does not end, so they take fuel, and [NoFuel] is an
    outcome of its own; the theorems about them exclude it, given [enough] (the
    bytes left and the interruptions left, one round each), for writers [need]
    (the fuel of one call), and for [copy] their sum.  [strings_stay_valid] is
    about readers that need not end, and about every other outcome.  The two loops over lists in
    the host's memory ([environ], [getaddrinfo]) also take fuel, since the host can
    make them endless; the theorems hold for any amount.  The loops over the
    components of a path have one round for each byte; those of the hash table one
    for each group ([probe_fuel]) or bucket, and [Unended] beyond, which the
    theorems exclude; the recursive functions of AlignAlloc.v have a [depth] of which
    they use at most 64; drawing until a number is in its zone takes fuel, with
    [Endless] beyond, and the theorems exclude it for a generator that ever delivers
    a number of the zone.  The lock theorems bound the number of steps
    of a run by the width of the counter ([usize] [refcount]: 2^64, [u32]
    [reader_count]: 2^32).  Lengths are those of Rust vectors.

    ** Not modelled

    Erasure of local copies of secrets and the timing of the comparison, which
    no result shows; the errno values that the OCALL wrappers of mutex.rs store;
    the C libraries; RSA and the ECC private-key helpers of crypto.rs; the rest
    of sgx_trts (exception handlers, C strings) and of sgx_tstd (directories,
    sockets, threads, formatting: mostly OCALLs and code taken over
    from Rust's standard library); the values of memory that is not initialised
    (zeros stand for them); a failed allocation where Rust ends the enclave
    ([Vec] and boxes; that of the hash table, which is reported, is modelled); the derive macros of sgx_serialize; the system allocators; untrusted crates;
    ISAAC and the floating-point distributions of sgx_rand; vendored crates and samples.

    ** Next

    RSA handles, the channels of src/sync/mpsc, the
    code that the derive macros generate. *)
From Stdlib Require Import ZArith Lia Strings.Byte.
From stdpp Require Import base numbers list option tactics.

#[global] Open Scope Z_scope.

(** * Bytes *)

(** A Rust [u8], as the 256-constructor type of the Standard Library. *)
Abbreviation byte := Byte.byte.

#[export] Instance byte_eq_dec : EqDecision byte := Byte.byte_eq_dec.

#[export] Instance byte_inhabited : Inhabited byte := populate Byte.x00.

(** [b as u64]: the value of a byte. *)
Definition byte_val (b : byte) : Z := Z.of_N (Byte.to_N b).

(** [z as u8]: truncation to eight bits. *)
Definition byte_of (z : Z) : byte :=
  default Byte.x00 (Byte.of_N (Z.to_N (z `mod` 256))).

Lemma byte_val_range b : 0 <= byte_val b < 256.
Proof. unfold byte_val. pose proof (Byte.to_N_bounded b). lia. Qed.

Lemma byte_of_val b : byte_of (byte_val b) = b.
Proof.
  unfold byte_of. rewrite Z.mod_small by apply byte_val_range.
  unfold byte_val. rewrite N2Z.id, Byte.of_to_N. done.
Qed.

Lemma byte_val_of z : byte_val (byte_of z) = z `mod` 256.
Proof.
  pose proof (Z.mod_pos_bound z 256 ltac:(lia)).
  unfold byte_of. destruct (Byte.of_N _) as [b|] eqn:E; simpl.
  - apply Byte.to_of_N in E. unfold byte_val. lia.
  - apply Byte.of_N_None_iff in E. lia.
Qed.

Lemma byte_val_inj a b : byte_val a = byte_val b -> a = b.
Proof. intros E. by rewrite <- (byte_of_val a), <- (byte_of_val b), E. Qed.

#[export] Instance byte_val_Inj : Inj (=) (=) byte_val.
Proof. intros a b. apply byte_val_inj. Qed.

(** [vec![0; n]] *)
Definition zeros (n : nat) : list byte := replicate n Byte.x00.

Lemma length_zeros n : length (zeros n) = n.
Proof. apply length_replicate. Qed.

(** * Machine integers

    An integer of width [w] is a [Z]; the width is written out where the code
    wraps, truncates or compares against a maximum. *)
Definition umax (w : Z) : Z := 2 ^ w - 1.

Definition u16_max : Z := 65535.
Definition u32_max : Z := 4294967295.
Definition u64_max : Z := 18446744073709551615.

(** The size of an address on x86_64. *)
Definition usize_max : Z := u64_max.

(** [z as uW] *)
Definition wrap (w z : Z) : Z := z `mod` 2 ^ w.

(** [z as iW] *)
Definition swrap (w z : Z) : Z :=
  (z + 2 ^ (w - 1)) `mod` 2 ^ w - 2 ^ (w - 1).

(** [!z] at width [w] *)
Definition unot (w z : Z) : Z := umax w - z.

Lemma wrap_range w z : 0 <= w -> 0 <= wrap w z < 2 ^ w.
Proof. intros. apply Z.mod_pos_bound, Z.pow_pos_nonneg; lia. Qed.

Lemma wrap_small w z : 0 <= z < 2 ^ w -> wrap w z = z.
Proof. apply Z.mod_small. Qed.

Lemma wrap_idemp w z : wrap w (wrap w z) = wrap w z.
Proof. apply Zmod_mod. Qed.

Lemma swrap_small w z : 0 < w -> - 2 ^ (w - 1) <= z < 2 ^ (w - 1) -> swrap w z = z.
Proof.
  intros Hw Hz. unfold swrap.
  assert (2 ^ w = 2 * 2 ^ (w - 1)) as E.
  { replace w with (Z.succ (w - 1)) at 1 by lia. rewrite Z.pow_succ_r; lia. }
  rewrite Z.mod_small; lia.
Qed.

(** Length of a buffer, as the code's [usize]. *)
Definition zlen {A} (l : list A) : Z := Z.of_nat (length l).

Lemma zlen_nonneg {A} (l : list A) : 0 <= zlen l.
Proof. unfold zlen. lia. Qed.

Lemma zlen_nil_iff {A} (l : list A) : zlen l = 0 <-> l = [].
Proof. unfold zlen. destruct l; simpl; split; intros; [done|done|lia|done]. Qed.

Lemma zlen_app {A} (k l : list A) : zlen (k ++ l) = zlen k + zlen l.
Proof. unfold zlen. rewrite length_app. lia. Qed.

(** * Little-endian views of integers *)
Fixpoint le_bytes (n : nat) (z : Z) : list byte :=
  match n with
  | O => []
  | S n' => byte_of z :: le_bytes n' (z / 256)
  end.

Fixpoint le_val (bs : list byte) : Z :=
  match bs with
  | [] => 0
  | b :: bs' => byte_val b + 256 * le_val bs'
  end.

Lemma length_le_bytes n z : length (le_bytes n z) = n.
Proof. revert z. induction n as [|n IH]; intros z; simpl; [done|]. by rewrite IH. Qed.

Lemma le_val_bytes n z : le_val (le_bytes n z) = z `mod` 256 ^ Z.of_nat n.
Proof.
  revert z. induction n as [|n IH]; intros z.
  - simpl. by rewrite Z.mod_1_r.
  - cbn [le_bytes le_val]. rewrite IH, byte_val_of.
    replace (Z.of_nat (S n)) with (Z.succ (Z.of_nat n)) by lia.
    rewrite Z.pow_succ_r by lia. rewrite Z.rem_mul_r; lia.
Qed.

Lemma le_val_range bs : 0 <= le_val bs < 256 ^ zlen bs.
Proof.
  induction bs as [|b bs IH]; cbn [le_val]; [done|].
  pose proof (byte_val_range b). unfold zlen in *. simpl length.
  replace (Z.of_nat (S (length bs))) with (Z.succ (Z.of_nat (length bs))) by lia.
  rewrite Z.pow_succ_r by lia. lia.
Qed.

Lemma le_bytes_val bs : le_bytes (length bs) (le_val bs) = bs.
Proof.
  induction bs as [|b bs IH]; [done|]. cbn [length le_bytes le_val].
  pose proof (byte_val_range b). f_equal.
  - apply byte_val_inj. rewrite byte_val_of.
    rewrite (Z.mul_comm 256), Z_mod_plus_full. apply Z.mod_small; lia.
  - rewrite (Z.mul_comm 256), Z.div_add, Z.div_small by lia. exact IH.
Qed.

Arguments le_bytes : simpl never.
Arguments le_val : simpl never.
Arguments zeros : simpl never.

(** * Fallible and panicking computations *)

(** Rust's [Result]. *)
Inductive result (E A : Type) : Type :=
| Ok (a : A)
| Err (e : E).
Arguments Ok {E A} a.
Arguments Err {E A} e.

Definition is_Ok {E A} (r : result E A) : bool :=
  match r with Ok _ => true | Err _ => false end.

(** [Result::map] and [Result::map_err] *)
Definition result_map {E A B} (f : A -> B) (r : result E A) : result E B :=
  match r with Ok a => Ok (f a) | Err e => Err e end.

Definition map_err {E F A} (f : E -> F) (r : result E A) : result F A :=
  match r with Ok a => Ok a | Err e => Err (f e) end.

(** A call that may panic: slice indexing, [copy_from_slice], arithmetic in a
    debug build. *)
Inductive panics (A : Type) : Type :=
| Done (a : A)
| Panic.
Arguments Done {A} a.
Arguments Panic {A}.

Definition panics_bind {A B} (m : panics A) (k : A -> panics B) : panics B :=
  match m with Done a => k a | Panic => Panic end.

(** * State passing

    [ST S A] is code that reads and writes a state [S]; [STE S E A] is such
    code that returns a [Result].  [let*] sequences the first, [let?] is the
    [?] operator on the second: an error ends the function at once, and the
    state reached so far stays. *)
Definition ST (S A : Type) : Type := S -> A * S.
Definition STE (S E A : Type) : Type := ST S (result E A).

Definition st_ret {S A} (a : A) : ST S A := fun s => (a, s).
Definition st_bind {S A B} (m : ST S A) (k : A -> ST S B) : ST S B :=
  fun s => let '(a, s') := m s in k a s'.
Definition ste_ok {S E A} (a : A) : STE S E A := st_ret (Ok a).
Definition ste_err {S E A} (e : E) : STE S E A := st_ret (Err e).
Definition ste_bind {S E A B} (m : STE S E A) (k : A -> STE S E B) : STE S E B :=
  st_bind m (fun r => match r with Ok a => k a | Err e => ste_err e end).

(** A step whose error ends the function with a value built from the error: a
    function that also returns the memory it has changed so far. *)
Definition st_try {S E A B} (m : STE S E A) (on_err : E -> B) (k : A -> ST S B) : ST S B :=
  st_bind m (fun r => match r with Ok a => k a | Err e => st_ret (on_err e) end).

(** [return Err(e)] when the condition holds. *)
Definition ste_guard {S E} (bad : bool) (e : E) : STE S E unit :=
  if bad then ste_err e else ste_ok tt.

Definition st_get {S} : ST S S := fun s => (s, s).
Definition st_put {S} (s : S) : ST S unit := fun _ => (tt, s).

Declare Scope rust_scope.
Delimit Scope rust_scope with rust.
Notation "'let*' x := m 'in' k" := (st_bind m (fun x => k))
  (at level 10, x pattern, k at level 200) : rust_scope.
Notation "'let?' x := m 'in' k" := (ste_bind m (fun x => k))
  (at level 10, x pattern, k at level 200) : rust_scope.
Notation "'let!' x := m 'or' f 'in' k" := (st_try m f (fun x => k))
  (at level 10, x pattern, f at level 0, k at level 200) : rust_scope.
#[global] Open Scope rust_scope.

(** [always P m]: whatever the state it runs from, the value [m] returns
    satisfies [P]. *)
Definition always {S A} (P : A -> Prop) (m : ST S A) : Prop := forall s, P (m s).1.

Lemma always_ret {S A} (P : A -> Prop) (a : A) : P a -> always P (@st_ret S A a).
Proof. intros HP s. done. Qed.

Lemma always_bind {S A B} (P : B -> Prop) (m : ST S A) (k : A -> ST S B) :
  (forall a, always P (k a)) -> always P (st_bind m k).
Proof. intros Hk s. unfold st_bind. destruct (m s). apply Hk. Qed.

Lemma always_bind_via {S A B} (R : A -> Prop) (P : B -> Prop) (m : ST S A) (k : A -> ST S B) :
  always R m -> (forall a, R a -> always P (k a)) -> always P (st_bind m k).
Proof.
  intros Hm Hk s. unfold st_bind. specialize (Hm s). destruct (m s). by apply Hk.
Qed.

Lemma always_try {S E A B} (P : B -> Prop) (m : STE S E A) (f : E -> B) (k : A -> ST S B) :
  (forall e, P (f e)) -> (forall a, always P (k a)) -> always P (st_try m f k).
Proof. intros Hf Hk. apply always_bind. intros [a|e]; [apply Hk|by apply always_ret]. Qed.

(** [wp m Q s]: run from [s], [m] ends in a value and a state that satisfy
    [Q].  Computations are functions, so this is total correctness. *)
Definition wp {S A} (m : ST S A) (Q : A -> S -> Prop) (s : S) : Prop :=
  Q (m s).1 (m s).2.

Lemma wp_run {S A} (m : ST S A) Q s a s' : m s = (a, s') -> Q a s' -> wp m Q s.
Proof. unfold wp. by intros ->. Qed.

Lemma wp_inv {S A} (m : ST S A) Q s a s' : wp m Q s -> m s = (a, s') -> Q a s'.
Proof. unfold wp. intros H E. by rewrite E in H. Qed.

(** From a call that returned [Ok]. *)
Lemma wp_ok_inv {S E A} (m : STE S E A) Q s a s' :
  m s = (Ok a, s') ->
  wp m (fun r s' => match r with Ok a => Q a s' | Err _ => True end) s -> Q a s'.
Proof. unfold wp. by intros ->. Qed.

Lemma wp_ret {S A} (a : A) Q (s : S) : Q a s -> wp (st_ret a) Q s.
Proof. done. Qed.

Lemma wp_bind {S A B} (m : ST S A) (k : A -> ST S B) Q s :
  wp m (fun a => wp (k a) Q) s -> wp (st_bind m k) Q s.
Proof. unfold wp, st_bind. by destruct (m s). Qed.

Lemma wp_ste_bind {S E A B} (m : STE S E A) (k : A -> STE S E B) Q s :
  wp m (fun r => match r with Ok a => wp (k a) Q | Err e => Q (Err e) end) s ->
  wp (ste_bind m k) Q s.
Proof. intros. apply wp_bind. unfold wp in *. by destruct (m s) as [[] ?]. Qed.

Lemma wp_try {S E A B} (m : STE S E A) (f : E -> B) (k : A -> ST S B) Q s :
  wp m (fun r => match r with Ok a => wp (k a) Q | Err e => Q (f e) end) s ->
  wp (st_try m f k) Q s.
Proof. intros. apply wp_bind. unfold wp in *. by destruct (m s) as [[] ?]. Qed.

Lemma wp_mono {S A} (m : ST S A) (P Q : A -> S -> Prop) s :
  wp m P s -> (forall a s', P a s' -> Q a s') -> wp m Q s.
Proof. unfold wp. auto. Qed.

(** * Automation *)
Create HintDb sgx.
Create Rewrite HintDb sgx.
#[export] Hint Resolve byte_val_range zlen_nonneg le_val_range : sgx.
#[export] Hint Rewrite length_zeros length_le_bytes @length_app @length_take
  @length_drop @zlen_app : sgx.

(** Unfold the combinators of this file in the goal and the context. *)
Ltac run_st :=
  unfold ste_bind, ste_guard, ste_err, ste_ok, st_bind, st_ret, st_get, st_put in *.

(** Run the computation of a [wp] goal as a whole; [E] says what it gave. *)
Tactic Notation "wp_call" "as" simple_intropattern(pat) "eqn" ident(E) :=
  match goal with
  | |- wp ?m _ ?s => destruct (m s) as pat eqn:E; eapply wp_run; [exact E|]
  end.

(** Split on the integer comparisons of the goal. *)
Ltac zcases :=
  rewrite ?Z.gtb_ltb, ?Z.geb_leb;
  repeat match goal with
  | |- context [?x <? ?y] => destruct (Z.ltb_spec x y)
  | |- context [?x <=? ?y] => destruct (Z.leb_spec x y)
  | |- context [?x =? ?y] => destruct (Z.eqb_spec x y)
  end; simpl; try lia.
