(* ===== verification/SgxStatus.v ===== *)
(** SgxStatus: the status enumerations of sgx_types/src/error.rs.

    Each [impl_enum!] of the source becomes an inductive type with the
    source's constructors, the discriminants of [from_key], the decoder
    [from_repr] that the macro (sgx_types/src/macros.rs) expands to, and the
    two text tables [as_str] and [__description].  The class [ReprEnum]
    gathers what the macro promises for every enumeration it defines. *)
From Stdlib Require Import ZArith String.
From stdpp Require Import base numbers list option strings finite.
From S2P Require Import Prelude.
Local Open Scope string_scope.
Local Open Scope Z_scope.

(** * The [impl_enum!] interface *)

(** What [impl_enum!] generates for an enumeration [T] of repr [u32]: the
    default value (the first constructor), [from_repr] and [from_key]. *)
Class ReprEnum (T : Type) := {
  enum_default : T;
  from_repr : Z -> option T;
  from_key : T -> Z
}.

(** The discriminants fit the repr, and decoding is the inverse of encoding. *)
Class ReprEnumLaws (T : Type) `{ReprEnum T} : Prop := {
  from_key_range x : 0 <= from_key x <= u32_max;
  from_repr_iff v x : from_repr v = Some x <-> from_key x = v
}.


(** * [sgx_status_t] *)
Inductive sgx_status_t : Type :=
| SGX_SUCCESS
| SGX_ERROR_UNEXPECTED
| SGX_ERROR_INVALID_PARAMETER
| SGX_ERROR_OUT_OF_MEMORY
| SGX_ERROR_ENCLAVE_LOST
| SGX_ERROR_INVALID_STATE
| SGX_ERROR_FEATURE_NOT_SUPPORTED
| SGX_PTHREAD_EXIT
| SGX_ERROR_MEMORY_MAP_FAILURE
| SGX_ERROR_INVALID_FUNCTION
| SGX_ERROR_OUT_OF_TCS
| SGX_ERROR_ENCLAVE_CRASHED
| SGX_ERROR_ECALL_NOT_ALLOWED
| SGX_ERROR_OCALL_NOT_ALLOWED
| SGX_ERROR_STACK_OVERRUN
| SGX_ERROR_UNDEFINED_SYMBOL
| SGX_ERROR_INVALID_ENCLAVE
| SGX_ERROR_INVALID_ENCLAVE_ID
| SGX_ERROR_INVALID_SIGNATURE
| SGX_ERROR_NDEBUG_ENCLAVE
| SGX_ERROR_OUT_OF_EPC
| SGX_ERROR_NO_DEVICE
| SGX_ERROR_MEMORY_MAP_CONFLICT
| SGX_ERROR_INVALID_METADATA
| SGX_ERROR_DEVICE_BUSY
| SGX_ERROR_INVALID_VERSION
| SGX_ERROR_MODE_INCOMPATIBLE
| SGX_ERROR_ENCLAVE_FILE_ACCESS
| SGX_ERROR_INVALID_MISC
| SGX_ERROR_INVALID_LAUNCH_TOKEN
| SGX_ERROR_MAC_MISMATCH
| SGX_ERROR_INVALID_ATTRIBUTE
| SGX_ERROR_INVALID_CPUSVN
| SGX_ERROR_INVALID_ISVSVN
| SGX_ERROR_INVALID_KEYNAME
| SGX_ERROR_SERVICE_UNAVAILABLE
| SGX_ERROR_SERVICE_TIMEOUT
| SGX_ERROR_AE_INVALID_EPIDBLOB
| SGX_ERROR_SERVICE_INVALID_PRIVILEGE
| SGX_ERROR_EPID_MEMBER_REVOKED
| SGX_ERROR_UPDATE_NEEDED
| SGX_ERROR_NETWORK_FAILURE
| SGX_ERROR_AE_SESSION_INVALID
| SGX_ERROR_BUSY
| SGX_ERROR_MC_NOT_FOUND
| SGX_ERROR_MC_NO_ACCESS_RIGHT
| SGX_ERROR_MC_USED_UP
| SGX_ERROR_MC_OVER_QUOTA
| SGX_ERROR_KDF_MISMATCH
| SGX_ERROR_UNRECOGNIZED_PLATFORM
| SGX_ERROR_UNSUPPORTED_CONFIG
| SGX_ERROR_NO_PRIVILEGE
| SGX_ERROR_PCL_ENCRYPTED
| SGX_ERROR_PCL_NOT_ENCRYPTED
| SGX_ERROR_PCL_MAC_MISMATCH
| SGX_ERROR_PCL_SHA_MISMATCH
| SGX_ERROR_PCL_GUID_MISMATCH
| SGX_ERROR_FILE_BAD_STATUS
| SGX_ERROR_FILE_NO_KEY_ID
| SGX_ERROR_FILE_NAME_MISMATCH
| SGX_ERROR_FILE_NOT_SGX_FILE
| SGX_ERROR_FILE_CANT_OPEN_RECOVERY_FILE
| SGX_ERROR_FILE_CANT_WRITE_RECOVERY_FILE
| SGX_ERROR_FILE_RECOVERY_NEEDED
| SGX_ERROR_FILE_FLUSH_FAILED
| SGX_ERROR_FILE_CLOSE_FAILED
| SGX_ERROR_UNSUPPORTED_ATT_KEY_ID
| SGX_ERROR_ATT_KEY_CERTIFICATION_FAILURE
| SGX_ERROR_ATT_KEY_UNINITIALIZED
| SGX_ERROR_INVALID_ATT_KEY_CERT_DATA
| SGX_ERROR_PLATFORM_CERT_UNAVAILABLE
| SGX_INTERNAL_ERROR_ENCLAVE_CREATE_INTERRUPTED
| SGX_ERROR_WASM_BUFFER_TOO_SHORT
| SGX_ERROR_WASM_INTERPRETER_ERROR
| SGX_ERROR_WASM_LOAD_MODULE_ERROR
| SGX_ERROR_WASM_TRY_LOAD_ERROR
| SGX_ERROR_WASM_REGISTER_ERROR
| SGX_ERROR_FAAS_BUFFER_TOO_SHORT
| SGX_ERROR_FAAS_INTERNAL_ERROR.

#[export] Instance sgx_status_t_eq_dec : EqDecision sgx_status_t.
Proof. solve_decision. Defined.

(** [from_key]: the discriminant of a value. *)
Definition status_from_key (x : sgx_status_t) : Z :=
  match x with
  | SGX_SUCCESS => 0x00000000
  | SGX_ERROR_UNEXPECTED => 0x00000001
  | SGX_ERROR_INVALID_PARAMETER => 0x00000002
  | SGX_ERROR_OUT_OF_MEMORY => 0x00000003
  | SGX_ERROR_ENCLAVE_LOST => 0x00000004
  | SGX_ERROR_INVALID_STATE => 0x00000005
  | SGX_ERROR_FEATURE_NOT_SUPPORTED => 0x00000008
  | SGX_PTHREAD_EXIT => 0x00000009
  | SGX_ERROR_MEMORY_MAP_FAILURE => 0x0000000A
  | SGX_ERROR_INVALID_FUNCTION => 0x00001001
  | SGX_ERROR_OUT_OF_TCS => 0x00001003
  | SGX_ERROR_ENCLAVE_CRASHED => 0x00001006
  | SGX_ERROR_ECALL_NOT_ALLOWED => 0x00001007
  | SGX_ERROR_OCALL_NOT_ALLOWED => 0x00001008
  | SGX_ERROR_STACK_OVERRUN => 0x00001009
  | SGX_ERROR_UNDEFINED_SYMBOL => 0x00002000
  | SGX_ERROR_INVALID_ENCLAVE => 0x00002001
  | SGX_ERROR_INVALID_ENCLAVE_ID => 0x00002002
  | SGX_ERROR_INVALID_SIGNATURE => 0x00002003
  | SGX_ERROR_NDEBUG_ENCLAVE => 0x00002004
  | SGX_ERROR_OUT_OF_EPC => 0x00002005
  | SGX_ERROR_NO_DEVICE => 0x00002006
  | SGX_ERROR_MEMORY_MAP_CONFLICT => 0x00002007
  | SGX_ERROR_INVALID_METADATA => 0x00002009
  | SGX_ERROR_DEVICE_BUSY => 0x0000200C
  | SGX_ERROR_INVALID_VERSION => 0x0000200D
  | SGX_ERROR_MODE_INCOMPATIBLE => 0x0000200E
  | SGX_ERROR_ENCLAVE_FILE_ACCESS => 0x0000200F
  | SGX_ERROR_INVALID_MISC => 0x00002010
  | SGX_ERROR_INVALID_LAUNCH_TOKEN => 0x00002011
  | SGX_ERROR_MAC_MISMATCH => 0x00003001
  | SGX_ERROR_INVALID_ATTRIBUTE => 0x00003002
  | SGX_ERROR_INVALID_CPUSVN => 0x00003003
  | SGX_ERROR_INVALID_ISVSVN => 0x00003004
  | SGX_ERROR_INVALID_KEYNAME => 0x00003005
  | SGX_ERROR_SERVICE_UNAVAILABLE => 0x00004001
  | SGX_ERROR_SERVICE_TIMEOUT => 0x00004002
  | SGX_ERROR_AE_INVALID_EPIDBLOB => 0x00004003
  | SGX_ERROR_SERVICE_INVALID_PRIVILEGE => 0x00004004
  | SGX_ERROR_EPID_MEMBER_REVOKED => 0x00004005
  | SGX_ERROR_UPDATE_NEEDED => 0x00004006
  | SGX_ERROR_NETWORK_FAILURE => 0x00004007
  | SGX_ERROR_AE_SESSION_INVALID => 0x00004008
  | SGX_ERROR_BUSY => 0x0000400A
  | SGX_ERROR_MC_NOT_FOUND => 0x0000400C
  | SGX_ERROR_MC_NO_ACCESS_RIGHT => 0x0000400D
  | SGX_ERROR_MC_USED_UP => 0x0000400E
  | SGX_ERROR_MC_OVER_QUOTA => 0x0000400F
  | SGX_ERROR_KDF_MISMATCH => 0x00004011
  | SGX_ERROR_UNRECOGNIZED_PLATFORM => 0x00004012
  | SGX_ERROR_UNSUPPORTED_CONFIG => 0x00004013
  | SGX_ERROR_NO_PRIVILEGE => 0x00005002
  | SGX_ERROR_PCL_ENCRYPTED => 0x00006001
  | SGX_ERROR_PCL_NOT_ENCRYPTED => 0x00006002
  | SGX_ERROR_PCL_MAC_MISMATCH => 0x00006003
  | SGX_ERROR_PCL_SHA_MISMATCH => 0x00006004
  | SGX_ERROR_PCL_GUID_MISMATCH => 0x00006005
  | SGX_ERROR_FILE_BAD_STATUS => 0x00007001
  | SGX_ERROR_FILE_NO_KEY_ID => 0x00007002
  | SGX_ERROR_FILE_NAME_MISMATCH => 0x00007003
  | SGX_ERROR_FILE_NOT_SGX_FILE => 0x00007004
  | SGX_ERROR_FILE_CANT_OPEN_RECOVERY_FILE => 0x00007005
  | SGX_ERROR_FILE_CANT_WRITE_RECOVERY_FILE => 0x00007006
  | SGX_ERROR_FILE_RECOVERY_NEEDED => 0x00007007
  | SGX_ERROR_FILE_FLUSH_FAILED => 0x00007008
  | SGX_ERROR_FILE_CLOSE_FAILED => 0x00007009
  | SGX_ERROR_UNSUPPORTED_ATT_KEY_ID => 0x00008001
  | SGX_ERROR_ATT_KEY_CERTIFICATION_FAILURE => 0x00008002
  | SGX_ERROR_ATT_KEY_UNINITIALIZED => 0x00008003
  | SGX_ERROR_INVALID_ATT_KEY_CERT_DATA => 0x00008004
  | SGX_ERROR_PLATFORM_CERT_UNAVAILABLE => 0x00008005
  | SGX_INTERNAL_ERROR_ENCLAVE_CREATE_INTERRUPTED => 0x0000F001
  | SGX_ERROR_WASM_BUFFER_TOO_SHORT => 0x0F00F001
  | SGX_ERROR_WASM_INTERPRETER_ERROR => 0x0F00F002
  | SGX_ERROR_WASM_LOAD_MODULE_ERROR => 0x0F00F003
  | SGX_ERROR_WASM_TRY_LOAD_ERROR => 0x0F00F004
  | SGX_ERROR_WASM_REGISTER_ERROR => 0x0F00F005
  | SGX_ERROR_FAAS_BUFFER_TOO_SHORT => 0x0F00E001
  | SGX_ERROR_FAAS_INTERNAL_ERROR => 0x0F00E002
  end.

(** [from_repr]: the value a discriminant stands for. *)
Definition status_from_repr (v : Z) : option sgx_status_t :=
  if v =? 0x00000000 then Some SGX_SUCCESS
  else if v =? 0x00000001 then Some SGX_ERROR_UNEXPECTED
  else if v =? 0x00000002 then Some SGX_ERROR_INVALID_PARAMETER
  else if v =? 0x00000003 then Some SGX_ERROR_OUT_OF_MEMORY
  else if v =? 0x00000004 then Some SGX_ERROR_ENCLAVE_LOST
  else if v =? 0x00000005 then Some SGX_ERROR_INVALID_STATE
  else if v =? 0x00000008 then Some SGX_ERROR_FEATURE_NOT_SUPPORTED
  else if v =? 0x00000009 then Some SGX_PTHREAD_EXIT
  else if v =? 0x0000000A then Some SGX_ERROR_MEMORY_MAP_FAILURE
  else if v =? 0x00001001 then Some SGX_ERROR_INVALID_FUNCTION
  else if v =? 0x00001003 then Some SGX_ERROR_OUT_OF_TCS
  else if v =? 0x00001006 then Some SGX_ERROR_ENCLAVE_CRASHED
  else if v =? 0x00001007 then Some SGX_ERROR_ECALL_NOT_ALLOWED
  else if v =? 0x00001008 then Some SGX_ERROR_OCALL_NOT_ALLOWED
  else if v =? 0x00001009 then Some SGX_ERROR_STACK_OVERRUN
  else if v =? 0x00002000 then Some SGX_ERROR_UNDEFINED_SYMBOL
  else if v =? 0x00002001 then Some SGX_ERROR_INVALID_ENCLAVE
  else if v =? 0x00002002 then Some SGX_ERROR_INVALID_ENCLAVE_ID
  else if v =? 0x00002003 then Some SGX_ERROR_INVALID_SIGNATURE
  else if v =? 0x00002004 then Some SGX_ERROR_NDEBUG_ENCLAVE
  else if v =? 0x00002005 then Some SGX_ERROR_OUT_OF_EPC
  else if v =? 0x00002006 then Some SGX_ERROR_NO_DEVICE
  else if v =? 0x00002007 then Some SGX_ERROR_MEMORY_MAP_CONFLICT
  else if v =? 0x00002009 then Some SGX_ERROR_INVALID_METADATA
  else if v =? 0x0000200C then Some SGX_ERROR_DEVICE_BUSY
  else if v =? 0x0000200D then Some SGX_ERROR_INVALID_VERSION
  else if v =? 0x0000200E then Some SGX_ERROR_MODE_INCOMPATIBLE
  else if v =? 0x0000200F then Some SGX_ERROR_ENCLAVE_FILE_ACCESS
  else if v =? 0x00002010 then Some SGX_ERROR_INVALID_MISC
  else if v =? 0x00002011 then Some SGX_ERROR_INVALID_LAUNCH_TOKEN
  else if v =? 0x00003001 then Some SGX_ERROR_MAC_MISMATCH
  else if v =? 0x00003002 then Some SGX_ERROR_INVALID_ATTRIBUTE
  else if v =? 0x00003003 then Some SGX_ERROR_INVALID_CPUSVN
  else if v =? 0x00003004 then Some SGX_ERROR_INVALID_ISVSVN
  else if v =? 0x00003005 then Some SGX_ERROR_INVALID_KEYNAME
  else if v =? 0x00004001 then Some SGX_ERROR_SERVICE_UNAVAILABLE
  else if v =? 0x00004002 then Some SGX_ERROR_SERVICE_TIMEOUT
  else if v =? 0x00004003 then Some SGX_ERROR_AE_INVALID_EPIDBLOB
  else if v =? 0x00004004 then Some SGX_ERROR_SERVICE_INVALID_PRIVILEGE
  else if v =? 0x00004005 then Some SGX_ERROR_EPID_MEMBER_REVOKED
  else if v =? 0x00004006 then Some SGX_ERROR_UPDATE_NEEDED
  else if v =? 0x00004007 then Some SGX_ERROR_NETWORK_FAILURE
  else if v =? 0x00004008 then Some SGX_ERROR_AE_SESSION_INVALID
  else if v =? 0x0000400A then Some SGX_ERROR_BUSY
  else if v =? 0x0000400C then Some SGX_ERROR_MC_NOT_FOUND
  else if v =? 0x0000400D then Some SGX_ERROR_MC_NO_ACCESS_RIGHT
  else if v =? 0x0000400E then Some SGX_ERROR_MC_USED_UP
  else if v =? 0x0000400F then Some SGX_ERROR_MC_OVER_QUOTA
  else if v =? 0x00004011 then Some SGX_ERROR_KDF_MISMATCH
  else if v =? 0x00004012 then Some SGX_ERROR_UNRECOGNIZED_PLATFORM
  else if v =? 0x00004013 then Some SGX_ERROR_UNSUPPORTED_CONFIG
  else if v =? 0x00005002 then Some SGX_ERROR_NO_PRIVILEGE
  else if v =? 0x00006001 then Some SGX_ERROR_PCL_ENCRYPTED
  else if v =? 0x00006002 then Some SGX_ERROR_PCL_NOT_ENCRYPTED
  else if v =? 0x00006003 then Some SGX_ERROR_PCL_MAC_MISMATCH
  else if v =? 0x00006004 then Some SGX_ERROR_PCL_SHA_MISMATCH
  else if v =? 0x00006005 then Some SGX_ERROR_PCL_GUID_MISMATCH
  else if v =? 0x00007001 then Some SGX_ERROR_FILE_BAD_STATUS
  else if v =? 0x00007002 then Some SGX_ERROR_FILE_NO_KEY_ID
  else if v =? 0x00007003 then Some SGX_ERROR_FILE_NAME_MISMATCH
  else if v =? 0x00007004 then Some SGX_ERROR_FILE_NOT_SGX_FILE
  else if v =? 0x00007005 then Some SGX_ERROR_FILE_CANT_OPEN_RECOVERY_FILE
  else if v =? 0x00007006 then Some SGX_ERROR_FILE_CANT_WRITE_RECOVERY_FILE
  else if v =? 0x00007007 then Some SGX_ERROR_FILE_RECOVERY_NEEDED
  else if v =? 0x00007008 then Some SGX_ERROR_FILE_FLUSH_FAILED
  else if v =? 0x00007009 then Some SGX_ERROR_FILE_CLOSE_FAILED
  else if v =? 0x00008001 then Some SGX_ERROR_UNSUPPORTED_ATT_KEY_ID
  else if v =? 0x00008002 then Some SGX_ERROR_ATT_KEY_CERTIFICATION_FAILURE
  else if v =? 0x00008003 then Some SGX_ERROR_ATT_KEY_UNINITIALIZED
  else if v =? 0x00008004 then Some SGX_ERROR_INVALID_ATT_KEY_CERT_DATA
  else if v =? 0x00008005 then Some SGX_ERROR_PLATFORM_CERT_UNAVAILABLE
  else if v =? 0x0000F001 then Some SGX_INTERNAL_ERROR_ENCLAVE_CREATE_INTERRUPTED
  else if v =? 0x0F00F001 then Some SGX_ERROR_WASM_BUFFER_TOO_SHORT
  else if v =? 0x0F00F002 then Some SGX_ERROR_WASM_INTERPRETER_ERROR
  else if v =? 0x0F00F003 then Some SGX_ERROR_WASM_LOAD_MODULE_ERROR
  else if v =? 0x0F00F004 then Some SGX_ERROR_WASM_TRY_LOAD_ERROR
  else if v =? 0x0F00F005 then Some SGX_ERROR_WASM_REGISTER_ERROR
  else if v =? 0x0F00E001 then Some SGX_ERROR_FAAS_BUFFER_TOO_SHORT
  else if v =? 0x0F00E002 then Some SGX_ERROR_FAAS_INTERNAL_ERROR
  else None.

#[export] Instance status_repr : ReprEnum sgx_status_t :=
  {| enum_default := SGX_SUCCESS; from_repr := status_from_repr; from_key := status_from_key |}.

Definition status_as_str (x : sgx_status_t) : string :=
  match x with
  | SGX_SUCCESS => "SGX_SUCCESS."
  | SGX_ERROR_UNEXPECTED => "SGX_ERROR_UNEXPECTED"
  | SGX_ERROR_INVALID_PARAMETER => "SGX_ERROR_INVALID_PARAMETER"
  | SGX_ERROR_OUT_OF_MEMORY => "SGX_ERROR_OUT_OF_MEMORY"
  | SGX_ERROR_ENCLAVE_LOST => "SGX_ERROR_ENCLAVE_LOST"
  | SGX_ERROR_INVALID_STATE => "SGX_ERROR_INVALID_STATE"
  | SGX_ERROR_FEATURE_NOT_SUPPORTED => "SGX_ERROR_FEATURE_NOT_SUPPORTED"
  | SGX_PTHREAD_EXIT => "SGX_PTHREAD_EXIT"
  | SGX_ERROR_MEMORY_MAP_FAILURE => "SGX_ERROR_MEMORY_MAP_FAILURE"
  | SGX_ERROR_INVALID_FUNCTION => "SGX_ERROR_INVALID_FUNCTION"
  | SGX_ERROR_OUT_OF_TCS => "SGX_ERROR_OUT_OF_TCS"
  | SGX_ERROR_ENCLAVE_CRASHED => "SGX_ERROR_ENCLAVE_CRASHED"
  | SGX_ERROR_ECALL_NOT_ALLOWED => "SGX_ERROR_ECALL_NOT_ALLOWED"
  | SGX_ERROR_OCALL_NOT_ALLOWED => "SGX_ERROR_OCALL_NOT_ALLOWED"
  | SGX_ERROR_STACK_OVERRUN => "SGX_ERROR_STACK_OVERRUN"
  | SGX_ERROR_UNDEFINED_SYMBOL => "SGX_ERROR_UNDEFINED_SYMBOL"
  | SGX_ERROR_INVALID_ENCLAVE => "SGX_ERROR_INVALID_ENCLAVE"
  | SGX_ERROR_INVALID_ENCLAVE_ID => "SGX_ERROR_INVALID_ENCLAVE_ID"
  | SGX_ERROR_INVALID_SIGNATURE => "SGX_ERROR_INVALID_SIGNATURE"
  | SGX_ERROR_NDEBUG_ENCLAVE => "SGX_ERROR_NDEBUG_ENCLAVE"
  | SGX_ERROR_OUT_OF_EPC => "SGX_ERROR_OUT_OF_EPC"
  | SGX_ERROR_NO_DEVICE => "SGX_ERROR_NO_DEVICE"
  | SGX_ERROR_MEMORY_MAP_CONFLICT => "SGX_ERROR_MEMORY_MAP_CONFLICT"
  | SGX_ERROR_INVALID_METADATA => "SGX_ERROR_INVALID_METADATA"
  | SGX_ERROR_DEVICE_BUSY => "SGX_ERROR_DEVICE_BUSY"
  | SGX_ERROR_INVALID_VERSION => "SGX_ERROR_INVALID_VERSION"
  | SGX_ERROR_MODE_INCOMPATIBLE => "SGX_ERROR_MODE_INCOMPATIBLE"
  | SGX_ERROR_ENCLAVE_FILE_ACCESS => "SGX_ERROR_ENCLAVE_FILE_ACCESS"
  | SGX_ERROR_INVALID_MISC => "SGX_ERROR_INVALID_MISC"
  | SGX_ERROR_INVALID_LAUNCH_TOKEN => "SGX_ERROR_INVALID_LAUNCH_TOKEN"
  | SGX_ERROR_MAC_MISMATCH => "SGX_ERROR_MAC_MISMATCH"
  | SGX_ERROR_INVALID_ATTRIBUTE => "SGX_ERROR_INVALID_ATTRIBUTE"
  | SGX_ERROR_INVALID_CPUSVN => "SGX_ERROR_INVALID_CPUSVN"
  | SGX_ERROR_INVALID_ISVSVN => "SGX_ERROR_INVALID_ISVSVN"
  | SGX_ERROR_INVALID_KEYNAME => "SGX_ERROR_INVALID_KEYNAME"
  | SGX_ERROR_SERVICE_UNAVAILABLE => "SGX_ERROR_SERVICE_UNAVAILABLE"
  | SGX_ERROR_SERVICE_TIMEOUT => "SGX_ERROR_SERVICE_TIMEOUT"
  | SGX_ERROR_AE_INVALID_EPIDBLOB => "SGX_ERROR_AE_INVALID_EPIDBLOB"
  | SGX_ERROR_SERVICE_INVALID_PRIVILEGE => "SGX_ERROR_SERVICE_INVALID_PRIVILEGE"
  | SGX_ERROR_EPID_MEMBER_REVOKED => "SGX_ERROR_EPID_MEMBER_REVOKED"
  | SGX_ERROR_UPDATE_NEEDED => "SGX_ERROR_UPDATE_NEEDED"
  | SGX_ERROR_NETWORK_FAILURE => "SGX_ERROR_NETWORK_FAILURE"
  | SGX_ERROR_AE_SESSION_INVALID => "SGX_ERROR_AE_SESSION_INVALID"
  | SGX_ERROR_BUSY => "SGX_ERROR_BUSY"
  | SGX_ERROR_MC_NOT_FOUND => "SGX_ERROR_MC_NOT_FOUND"
  | SGX_ERROR_MC_NO_ACCESS_RIGHT => "SGX_ERROR_MC_NO_ACCESS_RIGHT"
  | SGX_ERROR_MC_USED_UP => "SGX_ERROR_MC_USED_UP"
  | SGX_ERROR_MC_OVER_QUOTA => "SGX_ERROR_MC_OVER_QUOTA"
  | SGX_ERROR_KDF_MISMATCH => "SGX_ERROR_KDF_MISMATCH"
  | SGX_ERROR_UNRECOGNIZED_PLATFORM => "SGX_ERROR_UNRECOGNIZED_PLATFORM"
  | SGX_ERROR_UNSUPPORTED_CONFIG => "SGX_ERROR_UNSUPPORTED_CONFIG"
  | SGX_ERROR_NO_PRIVILEGE => "SGX_ERROR_NO_PRIVILEGE"
  | SGX_ERROR_PCL_ENCRYPTED => "SGX_ERROR_PCL_ENCRYPTED"
  | SGX_ERROR_PCL_NOT_ENCRYPTED => "SGX_ERROR_PCL_NOT_ENCRYPTED"
  | SGX_ERROR_PCL_MAC_MISMATCH => "SGX_ERROR_PCL_MAC_MISMATCH"
  | SGX_ERROR_PCL_SHA_MISMATCH => "SGX_ERROR_PCL_SHA_MISMATCH"
  | SGX_ERROR_PCL_GUID_MISMATCH => "SGX_ERROR_PCL_GUID_MISMATCH"
  | SGX_ERROR_FILE_BAD_STATUS => "SGX_ERROR_FILE_BAD_STATUS"
  | SGX_ERROR_FILE_NO_KEY_ID => "SGX_ERROR_FILE_NO_KEY_ID"
  | SGX_ERROR_FILE_NAME_MISMATCH => "SGX_ERROR_FILE_NAME_MISMATCH"
  | SGX_ERROR_FILE_NOT_SGX_FILE => "SGX_ERROR_FILE_NOT_SGX_FILE"
  | SGX_ERROR_FILE_CANT_OPEN_RECOVERY_FILE => "SGX_ERROR_FILE_CANT_OPEN_RECOVERY_FILE"
  | SGX_ERROR_FILE_CANT_WRITE_RECOVERY_FILE => "SGX_ERROR_FILE_CANT_WRITE_RECOVERY_FILE"
  | SGX_ERROR_FILE_RECOVERY_NEEDED => "SGX_ERROR_FILE_RECOVERY_NEEDED"
  | SGX_ERROR_FILE_FLUSH_FAILED => "SGX_ERROR_FILE_FLUSH_FAILED"
  | SGX_ERROR_FILE_CLOSE_FAILED => "SGX_ERROR_FILE_CLOSE_FAILED"
  | SGX_ERROR_UNSUPPORTED_ATT_KEY_ID => "SGX_ERROR_UNSUPPORTED_ATT_KEY_ID"
  | SGX_ERROR_ATT_KEY_CERTIFICATION_FAILURE => "SGX_ERROR_ATT_KEY_CERTIFICATION_FAILURE"
  | SGX_ERROR_ATT_KEY_UNINITIALIZED => "SGX_ERROR_ATT_KEY_UNINITIALIZED"
  | SGX_ERROR_INVALID_ATT_KEY_CERT_DATA => "SGX_ERROR_INVALID_ATT_KEY_CERT_DATA"
  | SGX_ERROR_PLATFORM_CERT_UNAVAILABLE => "SGX_ERROR_PLATFORM_CERT_UNAVAILABLE"
  | SGX_INTERNAL_ERROR_ENCLAVE_CREATE_INTERRUPTED => "SGX_INTERNAL_ERROR_ENCLAVE_CREATE_INTERRUPTED"
  | SGX_ERROR_WASM_BUFFER_TOO_SHORT => "SGX_ERROR_WASM_BUFFER_TOO_SHORT"
  | SGX_ERROR_WASM_INTERPRETER_ERROR => "SGX_ERROR_WASM_INTERPRETER_ERROR"
  | SGX_ERROR_WASM_LOAD_MODULE_ERROR => "SGX_ERROR_WASM_LOAD_MODULE_ERROR"
  | SGX_ERROR_WASM_TRY_LOAD_ERROR => "SGX_ERROR_WASM_TRY_LOAD_ERROR"
  | SGX_ERROR_WASM_REGISTER_ERROR => "SGX_ERROR_WASM_REGISTER_ERROR"
  | SGX_ERROR_FAAS_BUFFER_TOO_SHORT => "SGX_ERROR_FAAS_BUFFER_TOO_SHORT"
  | SGX_ERROR_FAAS_INTERNAL_ERROR => "SGX_ERROR_FAAS_INTERNAL_ERROR"
  end.

Definition status_description (x : sgx_status_t) : string :=
  match x with
  | SGX_SUCCESS => "Success."
  | SGX_ERROR_UNEXPECTED => "Unexpected error occurred."
  | SGX_ERROR_INVALID_PARAMETER => "The parameter is incorrect."
  | SGX_ERROR_OUT_OF_MEMORY => "Not enough memory is available to complete this operation."
  | SGX_ERROR_ENCLAVE_LOST => "Enclave lost after power transition or used in child process created."
  | SGX_ERROR_INVALID_STATE => "SGX API is invoked in incorrect order or state."
  | SGX_ERROR_FEATURE_NOT_SUPPORTED => "Feature is not supported on this platform."
  | SGX_PTHREAD_EXIT => "Enclave is exited with pthread_exit."
  | SGX_ERROR_MEMORY_MAP_FAILURE => "Failed to reserve memory for the enclave."
  | SGX_ERROR_INVALID_FUNCTION => "The ecall/ocall index is invalid."
  | SGX_ERROR_OUT_OF_TCS => "The enclave is out of TCS."
  | SGX_ERROR_ENCLAVE_CRASHED => "The enclave is crashed."
  | SGX_ERROR_ECALL_NOT_ALLOWED => "The ECALL is not allowed at this time."
  | SGX_ERROR_OCALL_NOT_ALLOWED => "The OCALL is not allowed at this time."
  | SGX_ERROR_STACK_OVERRUN => "The enclave is running out of stack."
  | SGX_ERROR_UNDEFINED_SYMBOL => "The enclave image has undefined symbol."
  | SGX_ERROR_INVALID_ENCLAVE => "The enclave image is not correct."
  | SGX_ERROR_INVALID_ENCLAVE_ID => "The enclave id is invalid."
  | SGX_ERROR_INVALID_SIGNATURE => "The signature is invalid."
  | SGX_ERROR_NDEBUG_ENCLAVE => "The enclave can not be created as debuggable enclave."
  | SGX_ERROR_OUT_OF_EPC => "Not enough EPC is available to load the enclave."
  | SGX_ERROR_NO_DEVICE => "Can't open SGX device."
  | SGX_ERROR_MEMORY_MAP_CONFLICT => "Page mapping failed in driver."
  | SGX_ERROR_INVALID_METADATA => "The metadata is incorrect."
  | SGX_ERROR_DEVICE_BUSY => "Device is busy, mostly EINIT failed."
  | SGX_ERROR_INVALID_VERSION => "Enclave version was invalid."
  | SGX_ERROR_MODE_INCOMPATIBLE => "The target enclave mode is incompatible with the mode of current uRTS."
  | SGX_ERROR_ENCLAVE_FILE_ACCESS => "Can't open enclave file."
  | SGX_ERROR_INVALID_MISC => "The MiscSelct/MiscMask settings are not correct."
  | SGX_ERROR_INVALID_LAUNCH_TOKEN => "The launch token is not correct."
  | SGX_ERROR_MAC_MISMATCH => "Indicates verification error for reports, sealed datas, etc."
  | SGX_ERROR_INVALID_ATTRIBUTE => "The enclave is not authorized."
  | SGX_ERROR_INVALID_CPUSVN => "The cpu svn is beyond platform's cpu svn value."
  | SGX_ERROR_INVALID_ISVSVN => "The isv svn is greater than the enclave's isv svn."
  | SGX_ERROR_INVALID_KEYNAME => "The key name is an unsupported value."
  | SGX_ERROR_SERVICE_UNAVAILABLE => "Indicates aesm didn't response or the requested service is not supported."
  | SGX_ERROR_SERVICE_TIMEOUT => "The request to aesm time out."
  | SGX_ERROR_AE_INVALID_EPIDBLOB => "Indicates epid blob verification error."
  | SGX_ERROR_SERVICE_INVALID_PRIVILEGE => "Enclave has no privilege to get launch token."
  | SGX_ERROR_EPID_MEMBER_REVOKED => "The EPID group membership is revoked."
  | SGX_ERROR_UPDATE_NEEDED => "SGX needs to be updated."
  | SGX_ERROR_NETWORK_FAILURE => "Network connecting or proxy setting issue is encountered."
  | SGX_ERROR_AE_SESSION_INVALID => "Session is invalid or ended by server."
  | SGX_ERROR_BUSY => "The requested service is temporarily not availabe."
  | SGX_ERROR_MC_NOT_FOUND => "The Monotonic Counter doesn't exist or has been invalided."
  | SGX_ERROR_MC_NO_ACCESS_RIGHT => "Caller doesn't have the access right to specified VMC."
  | SGX_ERROR_MC_USED_UP => "Monotonic counters are used out."
  | SGX_ERROR_MC_OVER_QUOTA => "Monotonic counters exceeds quota limitation."
  | SGX_ERROR_KDF_MISMATCH => "Key derivation function doesn't match during key exchange."
  | SGX_ERROR_UNRECOGNIZED_PLATFORM => "EPID Provisioning failed due to platform not recognized by backend server."
  | SGX_ERROR_UNSUPPORTED_CONFIG => "The config for trigging EPID Provisiong or PSE Provisiong&LTP is invalid."
  | SGX_ERROR_NO_PRIVILEGE => "Not enough privilege to perform the operation."
  | SGX_ERROR_PCL_ENCRYPTED => "Trying to encrypt an already encrypted enclave."
  | SGX_ERROR_PCL_NOT_ENCRYPTED => "Trying to load a plain enclave using sgx_create_encrypted_enclave."
  | SGX_ERROR_PCL_MAC_MISMATCH => "Section mac result does not match build time mac."
  | SGX_ERROR_PCL_SHA_MISMATCH => "Unsealed key MAC does not match MAC of key hardcoded in enclave binary."
  | SGX_ERROR_PCL_GUID_MISMATCH => "GUID in sealed blob does not match GUID hardcoded in enclave binary."
  | SGX_ERROR_FILE_BAD_STATUS => "The file is in bad status."
  | SGX_ERROR_FILE_NO_KEY_ID => "The Key ID field is all zeros, can't regenerate the encryption key."
  | SGX_ERROR_FILE_NAME_MISMATCH => "The current file name is different then the original file name."
  | SGX_ERROR_FILE_NOT_SGX_FILE => "The file is not an SGX file."
  | SGX_ERROR_FILE_CANT_OPEN_RECOVERY_FILE => "A recovery file can't be opened, so flush operation can't continue."
  | SGX_ERROR_FILE_CANT_WRITE_RECOVERY_FILE => "A recovery file can't be written, so flush operation can't continue."
  | SGX_ERROR_FILE_RECOVERY_NEEDED => "When openeing the file, recovery is needed, but the recovery process failed."
  | SGX_ERROR_FILE_FLUSH_FAILED => "fflush operation failed."
  | SGX_ERROR_FILE_CLOSE_FAILED => "fclose operation failed."
  | SGX_ERROR_UNSUPPORTED_ATT_KEY_ID => "platform quoting infrastructure does not support the key."
  | SGX_ERROR_ATT_KEY_CERTIFICATION_FAILURE => "Failed to generate and certify the attestation key."
  | SGX_ERROR_ATT_KEY_UNINITIALIZED => "The platform quoting infrastructure does not have the attestation key available to generate quote."
  | SGX_ERROR_INVALID_ATT_KEY_CERT_DATA => "The data returned by the platform library is invalid."
  | SGX_ERROR_PLATFORM_CERT_UNAVAILABLE => "The PCK Cert for the platform is not available."
  | SGX_INTERNAL_ERROR_ENCLAVE_CREATE_INTERRUPTED => "The ioctl for enclave_create unexpectedly failed with EINTR."
  | SGX_ERROR_WASM_BUFFER_TOO_SHORT => "sgx wasm output buffer too small."
  | SGX_ERROR_WASM_INTERPRETER_ERROR => "sgx wasm interpreter error."
  | SGX_ERROR_WASM_LOAD_MODULE_ERROR => "sgxwasm loadmodule error."
  | SGX_ERROR_WASM_TRY_LOAD_ERROR => "sgxwasm tryload error."
  | SGX_ERROR_WASM_REGISTER_ERROR => "sgxwasm register error."
  | SGX_ERROR_FAAS_BUFFER_TOO_SHORT => "faas output buffer too short."
  | SGX_ERROR_FAAS_INTERNAL_ERROR => "faas exec internal error."
  end.

(** * [sgx_pce_error_t] *)
Inductive sgx_pce_error_t : Type :=
| SGX_PCE_SUCCESS
| SGX_PCE_UNEXPECTED
| SGX_PCE_INVALID_PARAMETER
| SGX_PCE_OUT_OF_EPC
| SGX_PCE_INTERFACE_UNAVAILABLE
| SGX_PCE_INVALID_REPORT
| SGX_PCE_CRYPTO_ERROR
| SGX_PCE_INVALID_PRIVILEGE
| SGX_PCE_INVALID_TCB.

#[export] Instance sgx_pce_error_t_eq_dec : EqDecision sgx_pce_error_t.
Proof. solve_decision. Defined.

(** [from_key]: the discriminant of a value. *)
Definition pce_error_from_key (x : sgx_pce_error_t) : Z :=
  match x with
  | SGX_PCE_SUCCESS => 0x0000F000
  | SGX_PCE_UNEXPECTED => 0x0000F001
  | SGX_PCE_INVALID_PARAMETER => 0x0000F002
  | SGX_PCE_OUT_OF_EPC => 0x0000F003
  | SGX_PCE_INTERFACE_UNAVAILABLE => 0x0000F004
  | SGX_PCE_INVALID_REPORT => 0x0000F005
  | SGX_PCE_CRYPTO_ERROR => 0x0000F006
  | SGX_PCE_INVALID_PRIVILEGE => 0x0000F007
  | SGX_PCE_INVALID_TCB => 0x0000F008
  end.

(** [from_repr]: the value a discriminant stands for. *)
Definition pce_error_from_repr (v : Z) : option sgx_pce_error_t :=
  if v =? 0x0000F000 then Some SGX_PCE_SUCCESS
  else if v =? 0x0000F001 then Some SGX_PCE_UNEXPECTED
  else if v =? 0x0000F002 then Some SGX_PCE_INVALID_PARAMETER
  else if v =? 0x0000F003 then Some SGX_PCE_OUT_OF_EPC
  else if v =? 0x0000F004 then Some SGX_PCE_INTERFACE_UNAVAILABLE
  else if v =? 0x0000F005 then Some SGX_PCE_INVALID_REPORT
  else if v =? 0x0000F006 then Some SGX_PCE_CRYPTO_ERROR
  else if v =? 0x0000F007 then Some SGX_PCE_INVALID_PRIVILEGE
  else if v =? 0x0000F008 then Some SGX_PCE_INVALID_TCB
  else None.

#[export] Instance pce_error_repr : ReprEnum sgx_pce_error_t :=
  {| enum_default := SGX_PCE_SUCCESS; from_repr := pce_error_from_repr; from_key := pce_error_from_key |}.

Definition pce_error_as_str (x : sgx_pce_error_t) : string :=
  match x with
  | SGX_PCE_SUCCESS => "SGX_PCE_SUCCESS."
  | SGX_PCE_UNEXPECTED => "SGX_PCE_UNEXPECTED"
  | SGX_PCE_INVALID_PARAMETER => "SGX_PCE_INVALID_PARAMETER"
  | SGX_PCE_OUT_OF_EPC => "SGX_PCE_OUT_OF_EPC"
  | SGX_PCE_INTERFACE_UNAVAILABLE => "SGX_PCE_INTERFACE_UNAVAILABLE"
  | SGX_PCE_INVALID_REPORT => "SGX_PCE_INVALID_REPORT"
  | SGX_PCE_CRYPTO_ERROR => "SGX_PCE_CRYPTO_ERROR"
  | SGX_PCE_INVALID_PRIVILEGE => "SGX_PCE_INVALID_PRIVILEGE"
  | SGX_PCE_INVALID_TCB => "SGX_PCE_INVALID_TCB"
  end.

Definition pce_error_description (x : sgx_pce_error_t) : string :=
  match x with
  | SGX_PCE_SUCCESS => "Success."
  | SGX_PCE_UNEXPECTED => "Unexpected error."
  | SGX_PCE_INVALID_PARAMETER => "The parameter is incorrect."
  | SGX_PCE_OUT_OF_EPC => "Not enough memory is available to complete this operation."
  | SGX_PCE_INTERFACE_UNAVAILABLE => "SGX API is unavailable."
  | SGX_PCE_INVALID_REPORT => "The report cannot be verified."
  | SGX_PCE_CRYPTO_ERROR => "Cannot decrypt or verify ciphertext."
  | SGX_PCE_INVALID_PRIVILEGE => "Not enough privilege to perform the operation."
  | SGX_PCE_INVALID_TCB => "PCE could not sign at the requested TCB."
  end.

(** * [sgx_quote3_error_t] *)
Inductive sgx_quote3_error_t : Type :=
| SGX_QL_SUCCESS
| SGX_QL_ERROR_UNEXPECTED
| SGX_QL_ERROR_INVALID_PARAMETER
| SGX_QL_ERROR_OUT_OF_MEMORY
| SGX_QL_ERROR_ECDSA_ID_MISMATCH
| SGX_QL_PATHNAME_BUFFER_OVERFLOW_ERROR
| SGX_QL_FILE_ACCESS_ERROR
| SGX_QL_ERROR_STORED_KEY
| SGX_QL_ERROR_PUB_KEY_ID_MISMATCH
| SGX_QL_ERROR_INVALID_PCE_SIG_SCHEME
| SGX_QL_ATT_KEY_BLOB_ERROR
| SGX_QL_UNSUPPORTED_ATT_KEY_ID
| SGX_QL_UNSUPPORTED_LOADING_POLICY
| SGX_QL_INTERFACE_UNAVAILABLE
| SGX_QL_PLATFORM_LIB_UNAVAILABLE
| SGX_QL_ATT_KEY_NOT_INITIALIZED
| SGX_QL_ATT_KEY_CERT_DATA_INVALID
| SGX_QL_NO_PLATFORM_CERT_DATA
| SGX_QL_OUT_OF_EPC
| SGX_QL_ERROR_REPORT
| SGX_QL_ENCLAVE_LOST
| SGX_QL_INVALID_REPORT
| SGX_QL_ENCLAVE_LOAD_ERROR
| SGX_QL_UNABLE_TO_GENERATE_QE_REPORT
| SGX_QL_KEY_CERTIFCATION_ERROR
| SGX_QL_NETWORK_ERROR
| SGX_QL_MESSAGE_ERROR
| SGX_QL_NO_QUOTE_COLLATERAL_DATA
| SGX_QL_QUOTE_CERTIFICATION_DATA_UNSUPPORTED
| SGX_QL_QUOTE_FORMAT_UNSUPPORTED
| SGX_QL_UNABLE_TO_GENERATE_REPORT
| SGX_QL_QE_REPORT_INVALID_SIGNATURE
| SGX_QL_QE_REPORT_UNSUPPORTED_FORMAT
| SGX_QL_PCK_CERT_UNSUPPORTED_FORMAT
| SGX_QL_PCK_CERT_CHAIN_ERROR
| SGX_QL_TCBINFO_UNSUPPORTED_FORMAT
| SGX_QL_TCBINFO_MISMATCH
| SGX_QL_QEIDENTITY_UNSUPPORTED_FORMAT
| SGX_QL_QEIDENTITY_MISMATCH
| SGX_QL_TCB_OUT_OF_DATE
| SGX_QL_TCB_OUT_OF_DATE_CONFIGURATION_NEEDED
| SGX_QL_SGX_ENCLAVE_IDENTITY_OUT_OF_DATE
| SGX_QL_SGX_ENCLAVE_REPORT_ISVSVN_OUT_OF_DATE
| SGX_QL_QE_IDENTITY_OUT_OF_DATE
| SGX_QL_SGX_TCB_INFO_EXPIRED
| SGX_QL_SGX_PCK_CERT_CHAIN_EXPIRED
| SGX_QL_SGX_CRL_EXPIRED
| SGX_QL_SGX_SIGNING_CERT_CHAIN_EXPIRED
| SGX_QL_SGX_ENCLAVE_IDENTITY_EXPIRED
| SGX_QL_PCK_REVOKED
| SGX_QL_TCB_REVOKED
| SGX_QL_TCB_CONFIGURATION_NEEDED
| SGX_QL_UNABLE_TO_GET_COLLATERAL
| SGX_QL_ERROR_INVALID_PRIVILEGE
| SGX_QL_NO_QVE_IDENTITY_DATA
| SGX_QL_CRL_UNSUPPORTED_FORMAT
| SGX_QL_QEIDENTITY_CHAIN_ERROR
| SGX_QL_TCBINFO_CHAIN_ERROR
| SGX_QL_ERROR_QVL_QVE_MISMATCH
| SGX_QL_TCB_SW_HARDENING_NEEDED
| SGX_QL_TCB_CONFIGURATION_AND_SW_HARDENING_NEEDED
| SGX_QL_UNSUPPORTED_MODE
| SGX_QL_NO_DEVICE
| SGX_QL_SERVICE_UNAVAILABLE
| SGX_QL_NETWORK_FAILURE
| SGX_QL_SERVICE_TIMEOUT
| SGX_QL_ERROR_BUSY
| SGX_QL_UNKNOWN_MESSAGE_RESPONSE
| SGX_QL_PERSISTENT_STORAGE_ERROR
| SGX_QL_ERROR_MESSAGE_PARSING_ERROR
| SGX_QL_PLATFORM_UNKNOWN
| SGX_QL_UNKNOWN_API_VERSION
| SGX_QL_CERTS_UNAVAILABLE
| SGX_QL_QVEIDENTITY_MISMATCH
| SGX_QL_QVE_OUT_OF_DATE
| SGX_QL_PSW_NOT_AVAILABLE
| SGX_QL_COLLATERAL_VERSION_NOT_SUPPORTED
| SGX_QL_TDX_MODULE_MISMATCH
| SGX_QL_ERROR_MAX.

#[export] Instance sgx_quote3_error_t_eq_dec : EqDecision sgx_quote3_error_t.
Proof. solve_decision. Defined.

(** [from_key]: the discriminant of a value. *)
Definition quote3_error_from_key (x : sgx_quote3_error_t) : Z :=
  match x with
  | SGX_QL_SUCCESS => 0x00000000
  | SGX_QL_ERROR_UNEXPECTED => 0x0000E001
  | SGX_QL_ERROR_INVALID_PARAMETER => 0x0000E002
  | SGX_QL_ERROR_OUT_OF_MEMORY => 0x0000E003
  | SGX_QL_ERROR_ECDSA_ID_MISMATCH => 0x0000E004
  | SGX_QL_PATHNAME_BUFFER_OVERFLOW_ERROR => 0x0000E005
  | SGX_QL_FILE_ACCESS_ERROR => 0x0000E006
  | SGX_QL_ERROR_STORED_KEY => 0x0000E007
  | SGX_QL_ERROR_PUB_KEY_ID_MISMATCH => 0x0000E008
  | SGX_QL_ERROR_INVALID_PCE_SIG_SCHEME => 0x0000E009
  | SGX_QL_ATT_KEY_BLOB_ERROR => 0x0000E00A
  | SGX_QL_UNSUPPORTED_ATT_KEY_ID => 0x0000E00B
  | SGX_QL_UNSUPPORTED_LOADING_POLICY => 0x0000E00C
  | SGX_QL_INTERFACE_UNAVAILABLE => 0x0000E00D
  | SGX_QL_PLATFORM_LIB_UNAVAILABLE => 0x0000E00E
  | SGX_QL_ATT_KEY_NOT_INITIALIZED => 0x0000E00F
  | SGX_QL_ATT_KEY_CERT_DATA_INVALID => 0x0000E010
  | SGX_QL_NO_PLATFORM_CERT_DATA => 0x0000E011
  | SGX_QL_OUT_OF_EPC => 0x0000E012
  | SGX_QL_ERROR_REPORT => 0x0000E013
  | SGX_QL_ENCLAVE_LOST => 0x0000E014
  | SGX_QL_INVALID_REPORT => 0x0000E015
  | SGX_QL_ENCLAVE_LOAD_ERROR => 0x0000E016
  | SGX_QL_UNABLE_TO_GENERATE_QE_REPORT => 0x0000E017
  | SGX_QL_KEY_CERTIFCATION_ERROR => 0x0000E018
  | SGX_QL_NETWORK_ERROR => 0x0000E019
  | SGX_QL_MESSAGE_ERROR => 0x0000E01A
  | SGX_QL_NO_QUOTE_COLLATERAL_DATA => 0x0000E01B
  | SGX_QL_QUOTE_CERTIFICATION_DATA_UNSUPPORTED => 0x0000E01C
  | SGX_QL_QUOTE_FORMAT_UNSUPPORTED => 0x0000E01D
  | SGX_QL_UNABLE_TO_GENERATE_REPORT => 0x0000E01E
  | SGX_QL_QE_REPORT_INVALID_SIGNATURE => 0x0000E01F
  | SGX_QL_QE_REPORT_UNSUPPORTED_FORMAT => 0x0000E020
  | SGX_QL_PCK_CERT_UNSUPPORTED_FORMAT => 0x0000E021
  | SGX_QL_PCK_CERT_CHAIN_ERROR => 0x0000E022
  | SGX_QL_TCBINFO_UNSUPPORTED_FORMAT => 0x0000E023
  | SGX_QL_TCBINFO_MISMATCH => 0x0000E024
  | SGX_QL_QEIDENTITY_UNSUPPORTED_FORMAT => 0x0000E025
  | SGX_QL_QEIDENTITY_MISMATCH => 0x0000E026
  | SGX_QL_TCB_OUT_OF_DATE => 0x0000E027
  | SGX_QL_TCB_OUT_OF_DATE_CONFIGURATION_NEEDED => 0x0000E028
  | SGX_QL_SGX_ENCLAVE_IDENTITY_OUT_OF_DATE => 0x0000E029
  | SGX_QL_SGX_ENCLAVE_REPORT_ISVSVN_OUT_OF_DATE => 0x0000E02A
  | SGX_QL_QE_IDENTITY_OUT_OF_DATE => 0x0000E02B
  | SGX_QL_SGX_TCB_INFO_EXPIRED => 0x0000E02C
  | SGX_QL_SGX_PCK_CERT_CHAIN_EXPIRED => 0x0000E02D
  | SGX_QL_SGX_CRL_EXPIRED => 0x0000E02E
  | SGX_QL_SGX_SIGNING_CERT_CHAIN_EXPIRED => 0x0000E02F
  | SGX_QL_SGX_ENCLAVE_IDENTITY_EXPIRED => 0x0000E030
  | SGX_QL_PCK_REVOKED => 0x0000E031
  | SGX_QL_TCB_REVOKED => 0x0000E032
  | SGX_QL_TCB_CONFIGURATION_NEEDED => 0x0000E033
  | SGX_QL_UNABLE_TO_GET_COLLATERAL => 0x0000E034
  | SGX_QL_ERROR_INVALID_PRIVILEGE => 0x0000E035
  | SGX_QL_NO_QVE_IDENTITY_DATA => 0x0000E037
  | SGX_QL_CRL_UNSUPPORTED_FORMAT => 0x0000E038
  | SGX_QL_QEIDENTITY_CHAIN_ERROR => 0x0000E039
  | SGX_QL_TCBINFO_CHAIN_ERROR => 0x0000E03A
  | SGX_QL_ERROR_QVL_QVE_MISMATCH => 0x0000E03B
  | SGX_QL_TCB_SW_HARDENING_NEEDED => 0x0000E03C
  | SGX_QL_TCB_CONFIGURATION_AND_SW_HARDENING_NEEDED => 0x0000E03D
  | SGX_QL_UNSUPPORTED_MODE => 0x0000E03E
  | SGX_QL_NO_DEVICE => 0x0000E03F
  | SGX_QL_SERVICE_UNAVAILABLE => 0x0000E040
  | SGX_QL_NETWORK_FAILURE => 0x0000E041
  | SGX_QL_SERVICE_TIMEOUT => 0x0000E042
  | SGX_QL_ERROR_BUSY => 0x0000E043
  | SGX_QL_UNKNOWN_MESSAGE_RESPONSE => 0x0000E044
  | SGX_QL_PERSISTENT_STORAGE_ERROR => 0x0000E045
  | SGX_QL_ERROR_MESSAGE_PARSING_ERROR => 0x0000E046
  | SGX_QL_PLATFORM_UNKNOWN => 0x0000E047
  | SGX_QL_UNKNOWN_API_VERSION => 0x0000E048
  | SGX_QL_CERTS_UNAVAILABLE => 0x0000E049
  | SGX_QL_QVEIDENTITY_MISMATCH => 0x0000E050
  | SGX_QL_QVE_OUT_OF_DATE => 0x0000E051
  | SGX_QL_PSW_NOT_AVAILABLE => 0x0000E052
  | SGX_QL_COLLATERAL_VERSION_NOT_SUPPORTED => 0x0000E053
  | SGX_QL_TDX_MODULE_MISMATCH => 0x0000E060
  | SGX_QL_ERROR_MAX => 0x0000E0FF
  end.

(** [from_repr]: the value a discriminant stands for. *)
Definition quote3_error_from_repr (v : Z) : option sgx_quote3_error_t :=
  if v =? 0x00000000 then Some SGX_QL_SUCCESS
  else if v =? 0x0000E001 then Some SGX_QL_ERROR_UNEXPECTED
  else if v =? 0x0000E002 then Some SGX_QL_ERROR_INVALID_PARAMETER
  else if v =? 0x0000E003 then Some SGX_QL_ERROR_OUT_OF_MEMORY
  else if v =? 0x0000E004 then Some SGX_QL_ERROR_ECDSA_ID_MISMATCH
  else if v =? 0x0000E005 then Some SGX_QL_PATHNAME_BUFFER_OVERFLOW_ERROR
  else if v =? 0x0000E006 then Some SGX_QL_FILE_ACCESS_ERROR
  else if v =? 0x0000E007 then Some SGX_QL_ERROR_STORED_KEY
  else if v =? 0x0000E008 then Some SGX_QL_ERROR_PUB_KEY_ID_MISMATCH
  else if v =? 0x0000E009 then Some SGX_QL_ERROR_INVALID_PCE_SIG_SCHEME
  else if v =? 0x0000E00A then Some SGX_QL_ATT_KEY_BLOB_ERROR
  else if v =? 0x0000E00B then Some SGX_QL_UNSUPPORTED_ATT_KEY_ID
  else if v =? 0x0000E00C then Some SGX_QL_UNSUPPORTED_LOADING_POLICY
  else if v =? 0x0000E00D then Some SGX_QL_INTERFACE_UNAVAILABLE
  else if v =? 0x0000E00E then Some SGX_QL_PLATFORM_LIB_UNAVAILABLE
  else if v =? 0x0000E00F then Some SGX_QL_ATT_KEY_NOT_INITIALIZED
  else if v =? 0x0000E010 then Some SGX_QL_ATT_KEY_CERT_DATA_INVALID
  else if v =? 0x0000E011 then Some SGX_QL_NO_PLATFORM_CERT_DATA
  else if v =? 0x0000E012 then Some SGX_QL_OUT_OF_EPC
  else if v =? 0x0000E013 then Some SGX_QL_ERROR_REPORT
  else if v =? 0x0000E014 then Some SGX_QL_ENCLAVE_LOST
  else if v =? 0x0000E015 then Some SGX_QL_INVALID_REPORT
  else if v =? 0x0000E016 then Some SGX_QL_ENCLAVE_LOAD_ERROR
  else if v =? 0x0000E017 then Some SGX_QL_UNABLE_TO_GENERATE_QE_REPORT
  else if v =? 0x0000E018 then Some SGX_QL_KEY_CERTIFCATION_ERROR
  else if v =? 0x0000E019 then Some SGX_QL_NETWORK_ERROR
  else if v =? 0x0000E01A then Some SGX_QL_MESSAGE_ERROR
  else if v =? 0x0000E01B then Some SGX_QL_NO_QUOTE_COLLATERAL_DATA
  else if v =? 0x0000E01C then Some SGX_QL_QUOTE_CERTIFICATION_DATA_UNSUPPORTED
  else if v =? 0x0000E01D then Some SGX_QL_QUOTE_FORMAT_UNSUPPORTED
  else if v =? 0x0000E01E then Some SGX_QL_UNABLE_TO_GENERATE_REPORT
  else if v =? 0x0000E01F then Some SGX_QL_QE_REPORT_INVALID_SIGNATURE
  else if v =? 0x0000E020 then Some SGX_QL_QE_REPORT_UNSUPPORTED_FORMAT
  else if v =? 0x0000E021 then Some SGX_QL_PCK_CERT_UNSUPPORTED_FORMAT
  else if v =? 0x0000E022 then Some SGX_QL_PCK_CERT_CHAIN_ERROR
  else if v =? 0x0000E023 then Some SGX_QL_TCBINFO_UNSUPPORTED_FORMAT
  else if v =? 0x0000E024 then Some SGX_QL_TCBINFO_MISMATCH
  else if v =? 0x0000E025 then Some SGX_QL_QEIDENTITY_UNSUPPORTED_FORMAT
  else if v =? 0x0000E026 then Some SGX_QL_QEIDENTITY_MISMATCH
  else if v =? 0x0000E027 then Some SGX_QL_TCB_OUT_OF_DATE
  else if v =? 0x0000E028 then Some SGX_QL_TCB_OUT_OF_DATE_CONFIGURATION_NEEDED
  else if v =? 0x0000E029 then Some SGX_QL_SGX_ENCLAVE_IDENTITY_OUT_OF_DATE
  else if v =? 0x0000E02A then Some SGX_QL_SGX_ENCLAVE_REPORT_ISVSVN_OUT_OF_DATE
  else if v =? 0x0000E02B then Some SGX_QL_QE_IDENTITY_OUT_OF_DATE
  else if v =? 0x0000E02C then Some SGX_QL_SGX_TCB_INFO_EXPIRED
  else if v =? 0x0000E02D then Some SGX_QL_SGX_PCK_CERT_CHAIN_EXPIRED
  else if v =? 0x0000E02E then Some SGX_QL_SGX_CRL_EXPIRED
  else if v =? 0x0000E02F then Some SGX_QL_SGX_SIGNING_CERT_CHAIN_EXPIRED
  else if v =? 0x0000E030 then Some SGX_QL_SGX_ENCLAVE_IDENTITY_EXPIRED
  else if v =? 0x0000E031 then Some SGX_QL_PCK_REVOKED
  else if v =? 0x0000E032 then Some SGX_QL_TCB_REVOKED
  else if v =? 0x0000E033 then Some SGX_QL_TCB_CONFIGURATION_NEEDED
  else if v =? 0x0000E034 then Some SGX_QL_UNABLE_TO_GET_COLLATERAL
  else if v =? 0x0000E035 then Some SGX_QL_ERROR_INVALID_PRIVILEGE
  else if v =? 0x0000E037 then Some SGX_QL_NO_QVE_IDENTITY_DATA
  else if v =? 0x0000E038 then Some SGX_QL_CRL_UNSUPPORTED_FORMAT
  else if v =? 0x0000E039 then Some SGX_QL_QEIDENTITY_CHAIN_ERROR
  else if v =? 0x0000E03A then Some SGX_QL_TCBINFO_CHAIN_ERROR
  else if v =? 0x0000E03B then Some SGX_QL_ERROR_QVL_QVE_MISMATCH
  else if v =? 0x0000E03C then Some SGX_QL_TCB_SW_HARDENING_NEEDED
  else if v =? 0x0000E03D then Some SGX_QL_TCB_CONFIGURATION_AND_SW_HARDENING_NEEDED
  else if v =? 0x0000E03E then Some SGX_QL_UNSUPPORTED_MODE
  else if v =? 0x0000E03F then Some SGX_QL_NO_DEVICE
  else if v =? 0x0000E040 then Some SGX_QL_SERVICE_UNAVAILABLE
  else if v =? 0x0000E041 then Some SGX_QL_NETWORK_FAILURE
  else if v =? 0x0000E042 then Some SGX_QL_SERVICE_TIMEOUT
  else if v =? 0x0000E043 then Some SGX_QL_ERROR_BUSY
  else if v =? 0x0000E044 then Some SGX_QL_UNKNOWN_MESSAGE_RESPONSE
  else if v =? 0x0000E045 then Some SGX_QL_PERSISTENT_STORAGE_ERROR
  else if v =? 0x0000E046 then Some SGX_QL_ERROR_MESSAGE_PARSING_ERROR
  else if v =? 0x0000E047 then Some SGX_QL_PLATFORM_UNKNOWN
  else if v =? 0x0000E048 then Some SGX_QL_UNKNOWN_API_VERSION
  else if v =? 0x0000E049 then Some SGX_QL_CERTS_UNAVAILABLE
  else if v =? 0x0000E050 then Some SGX_QL_QVEIDENTITY_MISMATCH
  else if v =? 0x0000E051 then Some SGX_QL_QVE_OUT_OF_DATE
  else if v =? 0x0000E052 then Some SGX_QL_PSW_NOT_AVAILABLE
  else if v =? 0x0000E053 then Some SGX_QL_COLLATERAL_VERSION_NOT_SUPPORTED
  else if v =? 0x0000E060 then Some SGX_QL_TDX_MODULE_MISMATCH
  else if v =? 0x0000E0FF then Some SGX_QL_ERROR_MAX
  else None.

#[export] Instance quote3_error_repr : ReprEnum sgx_quote3_error_t :=
  {| enum_default := SGX_QL_SUCCESS; from_repr := quote3_error_from_repr; from_key := quote3_error_from_key |}.

Definition quote3_error_as_str (x : sgx_quote3_error_t) : string :=
  match x with
  | SGX_QL_SUCCESS => "SGX_QL_SUCCESS"
  | SGX_QL_ERROR_UNEXPECTED => "SGX_QL_ERROR_UNEXPECTED"
  | SGX_QL_ERROR_INVALID_PARAMETER => "SGX_QL_ERROR_INVALID_PARAMETER"
  | SGX_QL_ERROR_OUT_OF_MEMORY => "SGX_QL_ERROR_OUT_OF_MEMORY"
  | SGX_QL_ERROR_ECDSA_ID_MISMATCH => "SGX_QL_ERROR_ECDSA_ID_MISMATCH"
  | SGX_QL_PATHNAME_BUFFER_OVERFLOW_ERROR => "SGX_QL_PATHNAME_BUFFER_OVERFLOW_ERROR"
  | SGX_QL_FILE_ACCESS_ERROR => "SGX_QL_FILE_ACCESS_ERROR"
  | SGX_QL_ERROR_STORED_KEY => "SGX_QL_ERROR_STORED_KEY"
  | SGX_QL_ERROR_PUB_KEY_ID_MISMATCH => "SGX_QL_ERROR_PUB_KEY_ID_MISMATCH"
  | SGX_QL_ERROR_INVALID_PCE_SIG_SCHEME => "SGX_QL_ERROR_INVALID_PCE_SIG_SCHEME"
  | SGX_QL_ATT_KEY_BLOB_ERROR => "SGX_QL_ATT_KEY_BLOB_ERROR"
  | SGX_QL_UNSUPPORTED_ATT_KEY_ID => "SGX_QL_UNSUPPORTED_ATT_KEY_ID"
  | SGX_QL_UNSUPPORTED_LOADING_POLICY => "SGX_QL_UNSUPPORTED_LOADING_POLICY"
  | SGX_QL_INTERFACE_UNAVAILABLE => "SGX_QL_INTERFACE_UNAVAILABLE"
  | SGX_QL_PLATFORM_LIB_UNAVAILABLE => "SGX_QL_PLATFORM_LIB_UNAVAILABLE"
  | SGX_QL_ATT_KEY_NOT_INITIALIZED => "SGX_QL_ATT_KEY_NOT_INITIALIZED"
  | SGX_QL_ATT_KEY_CERT_DATA_INVALID => "SGX_QL_ATT_KEY_CERT_DATA_INVALID"
  | SGX_QL_NO_PLATFORM_CERT_DATA => "SGX_QL_NO_PLATFORM_CERT_DATA"
  | SGX_QL_OUT_OF_EPC => "SGX_QL_OUT_OF_EPC"
  | SGX_QL_ERROR_REPORT => "SGX_QL_ERROR_REPORT"
  | SGX_QL_ENCLAVE_LOST => "SGX_QL_ENCLAVE_LOST"
  | SGX_QL_INVALID_REPORT => "SGX_QL_INVALID_REPORT"
  | SGX_QL_ENCLAVE_LOAD_ERROR => "SGX_QL_ENCLAVE_LOAD_ERROR"
  | SGX_QL_UNABLE_TO_GENERATE_QE_REPORT => "SGX_QL_UNABLE_TO_GENERATE_QE_REPORT"
  | SGX_QL_KEY_CERTIFCATION_ERROR => "SGX_QL_KEY_CERTIFCATION_ERROR"
  | SGX_QL_NETWORK_ERROR => "SGX_QL_NETWORK_ERROR"
  | SGX_QL_MESSAGE_ERROR => "SGX_QL_MESSAGE_ERROR"
  | SGX_QL_NO_QUOTE_COLLATERAL_DATA => "SGX_QL_NO_QUOTE_COLLATERAL_DATA"
  | SGX_QL_QUOTE_CERTIFICATION_DATA_UNSUPPORTED => "SGX_QL_QUOTE_CERTIFICATION_DATA_UNSUPPORTED"
  | SGX_QL_QUOTE_FORMAT_UNSUPPORTED => "SGX_QL_QUOTE_FORMAT_UNSUPPORTED"
  | SGX_QL_UNABLE_TO_GENERATE_REPORT => "SGX_QL_UNABLE_TO_GENERATE_REPORT"
  | SGX_QL_QE_REPORT_INVALID_SIGNATURE => "SGX_QL_QE_REPORT_INVALID_SIGNATURE"
  | SGX_QL_QE_REPORT_UNSUPPORTED_FORMAT => "SGX_QL_QE_REPORT_UNSUPPORTED_FORMAT"
  | SGX_QL_PCK_CERT_UNSUPPORTED_FORMAT => "SGX_QL_PCK_CERT_UNSUPPORTED_FORMAT"
  | SGX_QL_PCK_CERT_CHAIN_ERROR => "SGX_QL_PCK_CERT_CHAIN_ERROR"
  | SGX_QL_TCBINFO_UNSUPPORTED_FORMAT => "SGX_QL_TCBINFO_UNSUPPORTED_FORMAT"
  | SGX_QL_TCBINFO_MISMATCH => "SGX_QL_TCBINFO_MISMATCH"
  | SGX_QL_QEIDENTITY_UNSUPPORTED_FORMAT => "SGX_QL_QEIDENTITY_UNSUPPORTED_FORMAT"
  | SGX_QL_QEIDENTITY_MISMATCH => "SGX_QL_QEIDENTITY_MISMATCH"
  | SGX_QL_TCB_OUT_OF_DATE => "SGX_QL_TCB_OUT_OF_DATE"
  | SGX_QL_TCB_OUT_OF_DATE_CONFIGURATION_NEEDED => "SGX_QL_TCB_OUT_OF_DATE_CONFIGURATION_NEEDED"
  | SGX_QL_SGX_ENCLAVE_IDENTITY_OUT_OF_DATE => "SGX_QL_SGX_ENCLAVE_IDENTITY_OUT_OF_DATE"
  | SGX_QL_SGX_ENCLAVE_REPORT_ISVSVN_OUT_OF_DATE => "SGX_QL_SGX_ENCLAVE_REPORT_ISVSVN_OUT_OF_DATE"
  | SGX_QL_QE_IDENTITY_OUT_OF_DATE => "SGX_QL_QE_IDENTITY_OUT_OF_DATE"
  | SGX_QL_SGX_TCB_INFO_EXPIRED => "SGX_QL_SGX_TCB_INFO_EXPIRED"
  | SGX_QL_SGX_PCK_CERT_CHAIN_EXPIRED => "SGX_QL_SGX_PCK_CERT_CHAIN_EXPIRED"
  | SGX_QL_SGX_CRL_EXPIRED => "SGX_QL_SGX_CRL_EXPIRED"
  | SGX_QL_SGX_SIGNING_CERT_CHAIN_EXPIRED => "SGX_QL_SGX_SIGNING_CERT_CHAIN_EXPIRED"
  | SGX_QL_SGX_ENCLAVE_IDENTITY_EXPIRED => "SGX_QL_SGX_ENCLAVE_IDENTITY_EXPIRED"
  | SGX_QL_PCK_REVOKED => "SGX_QL_PCK_REVOKED"
  | SGX_QL_TCB_REVOKED => "SGX_QL_TCB_REVOKED"
  | SGX_QL_TCB_CONFIGURATION_NEEDED => "SGX_QL_TCB_CONFIGURATION_NEEDED"
  | SGX_QL_UNABLE_TO_GET_COLLATERAL => "SGX_QL_UNABLE_TO_GET_COLLATERAL"
  | SGX_QL_ERROR_INVALID_PRIVILEGE => "SGX_QL_ERROR_INVALID_PRIVILEGE"
  | SGX_QL_NO_QVE_IDENTITY_DATA => "SGX_QL_NO_QVE_IDENTITY_DATA"
  | SGX_QL_CRL_UNSUPPORTED_FORMAT => "SGX_QL_CRL_UNSUPPORTED_FORMAT"
  | SGX_QL_QEIDENTITY_CHAIN_ERROR => "SGX_QL_QEIDENTITY_CHAIN_ERROR"
  | SGX_QL_TCBINFO_CHAIN_ERROR => "SGX_QL_TCBINFO_CHAIN_ERROR"
  | SGX_QL_ERROR_QVL_QVE_MISMATCH => "SGX_QL_ERROR_QVL_QVE_MISMATCH"
  | SGX_QL_TCB_SW_HARDENING_NEEDED => "SGX_QL_TCB_SW_HARDENING_NEEDED"
  | SGX_QL_TCB_CONFIGURATION_AND_SW_HARDENING_NEEDED => "SGX_QL_TCB_CONFIGURATION_AND_SW_HARDENING_NEEDED"
  | SGX_QL_UNSUPPORTED_MODE => "SGX_QL_UNSUPPORTED_MODE"
  | SGX_QL_NO_DEVICE => "SGX_QL_NO_DEVICE"
  | SGX_QL_SERVICE_UNAVAILABLE => "SGX_QL_SERVICE_UNAVAILABLE"
  | SGX_QL_NETWORK_FAILURE => "SGX_QL_NETWORK_FAILURE"
  | SGX_QL_SERVICE_TIMEOUT => "SGX_QL_SERVICE_TIMEOUT"
  | SGX_QL_ERROR_BUSY => "SGX_QL_ERROR_BUSY"
  | SGX_QL_UNKNOWN_MESSAGE_RESPONSE => "SGX_QL_UNKNOWN_MESSAGE_RESPONSE"
  | SGX_QL_PERSISTENT_STORAGE_ERROR => "SGX_QL_PERSISTENT_STORAGE_ERROR"
  | SGX_QL_ERROR_MESSAGE_PARSING_ERROR => "SGX_QL_ERROR_MESSAGE_PARSING_ERROR"
  | SGX_QL_PLATFORM_UNKNOWN => "SGX_QL_PLATFORM_UNKNOWN"
  | SGX_QL_UNKNOWN_API_VERSION => "SGX_QL_UNKNOWN_API_VERSION"
  | SGX_QL_CERTS_UNAVAILABLE => "SGX_QL_CERTS_UNAVAILABLE"
  | SGX_QL_QVEIDENTITY_MISMATCH => "SGX_QL_QVEIDENTITY_MISMATCH"
  | SGX_QL_QVE_OUT_OF_DATE => "SGX_QL_QVE_OUT_OF_DATE"
  | SGX_QL_PSW_NOT_AVAILABLE => "SGX_QL_PSW_NOT_AVAILABLE"
  | SGX_QL_COLLATERAL_VERSION_NOT_SUPPORTED => "SGX_QL_COLLATERAL_VERSION_NOT_SUPPORTED"
  | SGX_QL_TDX_MODULE_MISMATCH => "SGX_QL_TDX_MODULE_MISMATCH"
  | SGX_QL_ERROR_MAX => "SGX_QL_ERROR_MAX"
  end.

Definition quote3_error_description (x : sgx_quote3_error_t) : string :=
  match x with
  | SGX_QL_SUCCESS => "Success."
  | SGX_QL_ERROR_UNEXPECTED => "Unexpected error."
  | SGX_QL_ERROR_INVALID_PARAMETER => "The parameter is incorrect"
  | SGX_QL_ERROR_OUT_OF_MEMORY => "Not enough memory is available to complete this operation."
  | SGX_QL_ERROR_ECDSA_ID_MISMATCH => "Expected ECDSA_ID does not match the value stored in the ECDSA Blob."
  | SGX_QL_PATHNAME_BUFFER_OVERFLOW_ERROR => "The ECDSA blob pathname is too large."
  | SGX_QL_FILE_ACCESS_ERROR => "Error accessing ECDSA blob."
  | SGX_QL_ERROR_STORED_KEY => "Cached ECDSA key is invalid."
  | SGX_QL_ERROR_PUB_KEY_ID_MISMATCH => "Cached ECDSA key does not match requested key."
  | SGX_QL_ERROR_INVALID_PCE_SIG_SCHEME => "PCE use the incorrect signature scheme."
  | SGX_QL_ATT_KEY_BLOB_ERROR => "There is a problem with the attestation key blob."
  | SGX_QL_UNSUPPORTED_ATT_KEY_ID => "Unsupported attestation key ID."
  | SGX_QL_UNSUPPORTED_LOADING_POLICY => "Unsupported enclave loading policy."
  | SGX_QL_INTERFACE_UNAVAILABLE => "Unable to load the QE enclave."
  | SGX_QL_PLATFORM_LIB_UNAVAILABLE => "Unable to find the platform library with the dependent APIs."
  | SGX_QL_ATT_KEY_NOT_INITIALIZED => "The attestation key doesn't exist or has not been certified."
  | SGX_QL_ATT_KEY_CERT_DATA_INVALID => "The certification data retrieved from the platform library is invalid."
  | SGX_QL_NO_PLATFORM_CERT_DATA => "The platform library doesn't have any platfrom cert data."
  | SGX_QL_OUT_OF_EPC => "Not enough memory in the EPC to load the enclave."
  | SGX_QL_ERROR_REPORT => "There was a problem verifying an SGX REPORT."
  | SGX_QL_ENCLAVE_LOST => "Interfacing to the enclave failed due to a power transition."
  | SGX_QL_INVALID_REPORT => "Error verifying the application enclave's report."
  | SGX_QL_ENCLAVE_LOAD_ERROR => "Unable to load the enclaves."
  | SGX_QL_UNABLE_TO_GENERATE_QE_REPORT => "The QE was unable to generate its own report targeting the application enclave."
  | SGX_QL_KEY_CERTIFCATION_ERROR => "Caused when the provider library returns an invalid TCB."
  | SGX_QL_NETWORK_ERROR => "Network error when retrieving PCK certs."
  | SGX_QL_MESSAGE_ERROR => "Message error when retrieving PCK certs."
  | SGX_QL_NO_QUOTE_COLLATERAL_DATA => "The platform does not have the quote verification collateral data available."
  | SGX_QL_QUOTE_CERTIFICATION_DATA_UNSUPPORTED => ""
  | SGX_QL_QUOTE_FORMAT_UNSUPPORTED => ""
  | SGX_QL_UNABLE_TO_GENERATE_REPORT => ""
  | SGX_QL_QE_REPORT_INVALID_SIGNATURE => ""
  | SGX_QL_QE_REPORT_UNSUPPORTED_FORMAT => ""
  | SGX_QL_PCK_CERT_UNSUPPORTED_FORMAT => ""
  | SGX_QL_PCK_CERT_CHAIN_ERROR => ""
  | SGX_QL_TCBINFO_UNSUPPORTED_FORMAT => ""
  | SGX_QL_TCBINFO_MISMATCH => ""
  | SGX_QL_QEIDENTITY_UNSUPPORTED_FORMAT => ""
  | SGX_QL_QEIDENTITY_MISMATCH => ""
  | SGX_QL_TCB_OUT_OF_DATE => ""
  | SGX_QL_TCB_OUT_OF_DATE_CONFIGURATION_NEEDED => ""
  | SGX_QL_SGX_ENCLAVE_IDENTITY_OUT_OF_DATE => ""
  | SGX_QL_SGX_ENCLAVE_REPORT_ISVSVN_OUT_OF_DATE => ""
  | SGX_QL_QE_IDENTITY_OUT_OF_DATE => ""
  | SGX_QL_SGX_TCB_INFO_EXPIRED => ""
  | SGX_QL_SGX_PCK_CERT_CHAIN_EXPIRED => ""
  | SGX_QL_SGX_CRL_EXPIRED => ""
  | SGX_QL_SGX_SIGNING_CERT_CHAIN_EXPIRED => ""
  | SGX_QL_SGX_ENCLAVE_IDENTITY_EXPIRED => ""
  | SGX_QL_PCK_REVOKED => ""
  | SGX_QL_TCB_REVOKED => ""
  | SGX_QL_TCB_CONFIGURATION_NEEDED => ""
  | SGX_QL_UNABLE_TO_GET_COLLATERAL => ""
  | SGX_QL_ERROR_INVALID_PRIVILEGE => "No enough privilege to perform the operation."
  | SGX_QL_NO_QVE_IDENTITY_DATA => "The platform does not have the QVE identity data available."
  | SGX_QL_CRL_UNSUPPORTED_FORMAT => ""
  | SGX_QL_QEIDENTITY_CHAIN_ERROR => ""
  | SGX_QL_TCBINFO_CHAIN_ERROR => ""
  | SGX_QL_ERROR_QVL_QVE_MISMATCH => "QvE returned supplemental data version mismatched between QVL and QvE."
  | SGX_QL_TCB_SW_HARDENING_NEEDED => "TCB up to date but SW Hardening needed."
  | SGX_QL_TCB_CONFIGURATION_AND_SW_HARDENING_NEEDED => "TCB up to date but Configuration and SW Hardening needed."
  | SGX_QL_UNSUPPORTED_MODE => ""
  | SGX_QL_NO_DEVICE => ""
  | SGX_QL_SERVICE_UNAVAILABLE => ""
  | SGX_QL_NETWORK_FAILURE => ""
  | SGX_QL_SERVICE_TIMEOUT => ""
  | SGX_QL_ERROR_BUSY => ""
  | SGX_QL_UNKNOWN_MESSAGE_RESPONSE => "Unexpected error from the cache service."
  | SGX_QL_PERSISTENT_STORAGE_ERROR => "Error storing the retrieved cached data in persistent memory."
  | SGX_QL_ERROR_MESSAGE_PARSING_ERROR => "Message parsing error."
  | SGX_QL_PLATFORM_UNKNOWN => "Platform was not found in the cache"
  | SGX_QL_UNKNOWN_API_VERSION => "The current PCS API version configured is unknown."
  | SGX_QL_CERTS_UNAVAILABLE => "Certificates are not available for this platform"
  | SGX_QL_QVEIDENTITY_MISMATCH => "QvE Identity is NOT match to Intel signed QvE identity."
  | SGX_QL_QVE_OUT_OF_DATE => "QvE ISVSVN is smaller then the ISVSVN threshold."
  | SGX_QL_PSW_NOT_AVAILABLE => "SGX PSW library cannot be loaded, could be due to file I/O error."
  | SGX_QL_COLLATERAL_VERSION_NOT_SUPPORTED => "SGX quote verification collateral version not supported by QVL/QvE"
  | SGX_QL_TDX_MODULE_MISMATCH => "TDX SEAM module identity is NOT match to Intel signed TDX SEAM module"
  | SGX_QL_ERROR_MAX => "Indicate max error to allow better translation."
  end.

(** * [sgx_qcnl_error_t] *)
Inductive sgx_qcnl_error_t : Type :=
| SGX_QCNL_SUCCESS
| SGX_QCNL_UNEXPECTED_ERROR
| SGX_QCNL_INVALID_PARAMETER
| SGX_QCNL_NETWORK_ERROR
| SGX_QCNL_NETWORK_PROXY_FAIL
| SGX_QCNL_NETWORK_HOST_FAIL
| SGX_QCNL_NETWORK_COULDNT_CONNECT
| SGX_QCNL_NETWORK_HTTP2_ERROR
| SGX_QCNL_NETWORK_WRITE_ERROR
| SGX_QCNL_NETWORK_OPERATION_TIMEDOUT
| SGX_QCNL_NETWORK_HTTPS_ERROR
| SGX_QCNL_NETWORK_UNKNOWN_OPTION
| SGX_QCNL_NETWORK_INIT_ERROR
| SGX_QCNL_MSG_ERROR
| SGX_QCNL_OUT_OF_MEMORY
| SGX_QCNL_ERROR_STATUS_NO_CACHE_DATA
| SGX_QCNL_ERROR_STATUS_PLATFORM_UNKNOWN
| SGX_QCNL_ERROR_STATUS_UNEXPECTED
| SGX_QCNL_ERROR_STATUS_CERTS_UNAVAILABLE
| SGX_QCNL_ERROR_STATUS_SERVICE_UNAVAILABLE
| SGX_QCNL_INVALID_CONFIG.

#[export] Instance sgx_qcnl_error_t_eq_dec : EqDecision sgx_qcnl_error_t.
Proof. solve_decision. Defined.

(** [from_key]: the discriminant of a value. *)
Definition qcnl_error_from_key (x : sgx_qcnl_error_t) : Z :=
  match x with
  | SGX_QCNL_SUCCESS => 0x00000000
  | SGX_QCNL_UNEXPECTED_ERROR => 0x0000B001
  | SGX_QCNL_INVALID_PARAMETER => 0x0000B002
  | SGX_QCNL_NETWORK_ERROR => 0x0000B003
  | SGX_QCNL_NETWORK_PROXY_FAIL => 0x0000B004
  | SGX_QCNL_NETWORK_HOST_FAIL => 0x0000B005
  | SGX_QCNL_NETWORK_COULDNT_CONNECT => 0x0000B006
  | SGX_QCNL_NETWORK_HTTP2_ERROR => 0x0000B007
  | SGX_QCNL_NETWORK_WRITE_ERROR => 0x0000B008
  | SGX_QCNL_NETWORK_OPERATION_TIMEDOUT => 0x0000B009
  | SGX_QCNL_NETWORK_HTTPS_ERROR => 0x0000B00A
  | SGX_QCNL_NETWORK_UNKNOWN_OPTION => 0x0000B00B
  | SGX_QCNL_NETWORK_INIT_ERROR => 0x0000B00C
  | SGX_QCNL_MSG_ERROR => 0x0000B00D
  | SGX_QCNL_OUT_OF_MEMORY => 0x0000B00E
  | SGX_QCNL_ERROR_STATUS_NO_CACHE_DATA => 0x0000B00F
  | SGX_QCNL_ERROR_STATUS_PLATFORM_UNKNOWN => 0x0000B010
  | SGX_QCNL_ERROR_STATUS_UNEXPECTED => 0x0000B011
  | SGX_QCNL_ERROR_STATUS_CERTS_UNAVAILABLE => 0x0000B012
  | SGX_QCNL_ERROR_STATUS_SERVICE_UNAVAILABLE => 0x0000B013
  | SGX_QCNL_INVALID_CONFIG => 0x0000B030
  end.

(** [from_repr]: the value a discriminant stands for. *)
Definition qcnl_error_from_repr (v : Z) : option sgx_qcnl_error_t :=
  if v =? 0x00000000 then Some SGX_QCNL_SUCCESS
  else if v =? 0x0000B001 then Some SGX_QCNL_UNEXPECTED_ERROR
  else if v =? 0x0000B002 then Some SGX_QCNL_INVALID_PARAMETER
  else if v =? 0x0000B003 then Some SGX_QCNL_NETWORK_ERROR
  else if v =? 0x0000B004 then Some SGX_QCNL_NETWORK_PROXY_FAIL
  else if v =? 0x0000B005 then Some SGX_QCNL_NETWORK_HOST_FAIL
  else if v =? 0x0000B006 then Some SGX_QCNL_NETWORK_COULDNT_CONNECT
  else if v =? 0x0000B007 then Some SGX_QCNL_NETWORK_HTTP2_ERROR
  else if v =? 0x0000B008 then Some SGX_QCNL_NETWORK_WRITE_ERROR
  else if v =? 0x0000B009 then Some SGX_QCNL_NETWORK_OPERATION_TIMEDOUT
  else if v =? 0x0000B00A then Some SGX_QCNL_NETWORK_HTTPS_ERROR
  else if v =? 0x0000B00B then Some SGX_QCNL_NETWORK_UNKNOWN_OPTION
  else if v =? 0x0000B00C then Some SGX_QCNL_NETWORK_INIT_ERROR
  else if v =? 0x0000B00D then Some SGX_QCNL_MSG_ERROR
  else if v =? 0x0000B00E then Some SGX_QCNL_OUT_OF_MEMORY
  else if v =? 0x0000B00F then Some SGX_QCNL_ERROR_STATUS_NO_CACHE_DATA
  else if v =? 0x0000B010 then Some SGX_QCNL_ERROR_STATUS_PLATFORM_UNKNOWN
  else if v =? 0x0000B011 then Some SGX_QCNL_ERROR_STATUS_UNEXPECTED
  else if v =? 0x0000B012 then Some SGX_QCNL_ERROR_STATUS_CERTS_UNAVAILABLE
  else if v =? 0x0000B013 then Some SGX_QCNL_ERROR_STATUS_SERVICE_UNAVAILABLE
  else if v =? 0x0000B030 then Some SGX_QCNL_INVALID_CONFIG
  else None.

#[export] Instance qcnl_error_repr : ReprEnum sgx_qcnl_error_t :=
  {| enum_default := SGX_QCNL_SUCCESS; from_repr := qcnl_error_from_repr; from_key := qcnl_error_from_key |}.

Definition qcnl_error_as_str (x : sgx_qcnl_error_t) : string :=
  match x with
  | SGX_QCNL_SUCCESS => "SGX_QCNL_SUCCESS."
  | SGX_QCNL_UNEXPECTED_ERROR => "SGX_QCNL_UNEXPECTED_ERROR"
  | SGX_QCNL_INVALID_PARAMETER => "SGX_QCNL_INVALID_PARAMETER"
  | SGX_QCNL_NETWORK_ERROR => "SGX_QCNL_NETWORK_ERROR"
  | SGX_QCNL_NETWORK_PROXY_FAIL => "SGX_QCNL_NETWORK_PROXY_FAIL"
  | SGX_QCNL_NETWORK_HOST_FAIL => "SGX_QCNL_NETWORK_HOST_FAIL"
  | SGX_QCNL_NETWORK_COULDNT_CONNECT => "SGX_QCNL_NETWORK_COULDNT_CONNECT"
  | SGX_QCNL_NETWORK_HTTP2_ERROR => "SGX_QCNL_NETWORK_HTTP2_ERROR"
  | SGX_QCNL_NETWORK_WRITE_ERROR => "SGX_QCNL_NETWORK_WRITE_ERROR"
  | SGX_QCNL_NETWORK_OPERATION_TIMEDOUT => "SGX_QCNL_NETWORK_OPERATION_TIMEDOUT"
  | SGX_QCNL_NETWORK_HTTPS_ERROR => "SGX_QCNL_NETWORK_HTTPS_ERROR"
  | SGX_QCNL_NETWORK_UNKNOWN_OPTION => "SGX_QCNL_NETWORK_UNKNOWN_OPTION"
  | SGX_QCNL_NETWORK_INIT_ERROR => "SGX_QCNL_NETWORK_INIT_ERROR"
  | SGX_QCNL_MSG_ERROR => "SGX_QCNL_MSG_ERROR"
  | SGX_QCNL_OUT_OF_MEMORY => "SGX_QCNL_OUT_OF_MEMORY"
  | SGX_QCNL_ERROR_STATUS_NO_CACHE_DATA => "SGX_QCNL_ERROR_STATUS_NO_CACHE_DATA"
  | SGX_QCNL_ERROR_STATUS_PLATFORM_UNKNOWN => "SGX_QCNL_ERROR_STATUS_PLATFORM_UNKNOWN"
  | SGX_QCNL_ERROR_STATUS_UNEXPECTED => "SGX_QCNL_ERROR_STATUS_UNEXPECTED"
  | SGX_QCNL_ERROR_STATUS_CERTS_UNAVAILABLE => "SGX_QCNL_ERROR_STATUS_CERTS_UNAVAILABLE"
  | SGX_QCNL_ERROR_STATUS_SERVICE_UNAVAILABLE => "SGX_QCNL_ERROR_STATUS_SERVICE_UNAVAILABLE"
  | SGX_QCNL_INVALID_CONFIG => "SGX_QCNL_INVALID_CONFIG"
  end.

Definition qcnl_error_description (x : sgx_qcnl_error_t) : string :=
  match x with
  | SGX_QCNL_SUCCESS => "Success."
  | SGX_QCNL_UNEXPECTED_ERROR => "Unexpected error."
  | SGX_QCNL_INVALID_PARAMETER => "The parameter is incorrect."
  | SGX_QCNL_NETWORK_ERROR => "Network error."
  | SGX_QCNL_NETWORK_PROXY_FAIL => "Network error : Couldn't resolve proxy."
  | SGX_QCNL_NETWORK_HOST_FAIL => "Network error : Couldn't resolve host."
  | SGX_QCNL_NETWORK_COULDNT_CONNECT => "Network error : Failed to connect() to host or proxy."
  | SGX_QCNL_NETWORK_HTTP2_ERROR => "Network error : A problem was detected in the HTTP2 framing layer."
  | SGX_QCNL_NETWORK_WRITE_ERROR => "Network error : an error was returned to libcurl from a write callback."
  | SGX_QCNL_NETWORK_OPERATION_TIMEDOUT => "Network error : Operation timeout."
  | SGX_QCNL_NETWORK_HTTPS_ERROR => "Network error : A problem occurred somewhere in the SSL/TLS handshake."
  | SGX_QCNL_NETWORK_UNKNOWN_OPTION => "Network error : An option passed to libcurl is not recognized/known."
  | SGX_QCNL_NETWORK_INIT_ERROR => "Failed to initialize CURL library."
  | SGX_QCNL_MSG_ERROR => "HTTP message error."
  | SGX_QCNL_OUT_OF_MEMORY => "Out of memory error."
  | SGX_QCNL_ERROR_STATUS_NO_CACHE_DATA => "No cache data."
  | SGX_QCNL_ERROR_STATUS_PLATFORM_UNKNOWN => "Platform unknown."
  | SGX_QCNL_ERROR_STATUS_UNEXPECTED => "Unexpected cache error"
  | SGX_QCNL_ERROR_STATUS_CERTS_UNAVAILABLE => "Certs not available"
  | SGX_QCNL_ERROR_STATUS_SERVICE_UNAVAILABLE => "Service is currently not available"
  | SGX_QCNL_INVALID_CONFIG => "Error in configuration file"
  end.

(** * [sgx_ql_qv_result_t] *)
Inductive sgx_ql_qv_result_t : Type :=
| SGX_QL_QV_RESULT_OK
| SGX_QL_QV_RESULT_CONFIG_NEEDED
| SGX_QL_QV_RESULT_OUT_OF_DATE
| SGX_QL_QV_RESULT_OUT_OF_DATE_CONFIG_NEEDED
| SGX_QL_QV_RESULT_INVALID_SIGNATURE
| SGX_QL_QV_RESULT_REVOKED
| SGX_QL_QV_RESULT_UNSPECIFIED
| SGX_QL_QV_RESULT_SW_HARDENING_NEEDED
| SGX_QL_QV_RESULT_CONFIG_AND_SW_HARDENING_NEEDED
| SGX_QL_QV_RESULT_MAX.

#[export] Instance sgx_ql_qv_result_t_eq_dec : EqDecision sgx_ql_qv_result_t.
Proof. solve_decision. Defined.

(** [from_key]: the discriminant of a value. *)
Definition qv_result_from_key (x : sgx_ql_qv_result_t) : Z :=
  match x with
  | SGX_QL_QV_RESULT_OK => 0x00000000
  | SGX_QL_QV_RESULT_CONFIG_NEEDED => 0x0000A001
  | SGX_QL_QV_RESULT_OUT_OF_DATE => 0x0000A002
  | SGX_QL_QV_RESULT_OUT_OF_DATE_CONFIG_NEEDED => 0x0000A003
  | SGX_QL_QV_RESULT_INVALID_SIGNATURE => 0x0000A004
  | SGX_QL_QV_RESULT_REVOKED => 0x0000A005
  | SGX_QL_QV_RESULT_UNSPECIFIED => 0x0000A006
  | SGX_QL_QV_RESULT_SW_HARDENING_NEEDED => 0x0000A007
  | SGX_QL_QV_RESULT_CONFIG_AND_SW_HARDENING_NEEDED => 0x0000A008
  | SGX_QL_QV_RESULT_MAX => 0x0000A0FF
  end.

(** [from_repr]: the value a discriminant stands for. *)
Definition qv_result_from_repr (v : Z) : option sgx_ql_qv_result_t :=
  if v =? 0x00000000 then Some SGX_QL_QV_RESULT_OK
  else if v =? 0x0000A001 then Some SGX_QL_QV_RESULT_CONFIG_NEEDED
  else if v =? 0x0000A002 then Some SGX_QL_QV_RESULT_OUT_OF_DATE
  else if v =? 0x0000A003 then Some SGX_QL_QV_RESULT_OUT_OF_DATE_CONFIG_NEEDED
  else if v =? 0x0000A004 then Some SGX_QL_QV_RESULT_INVALID_SIGNATURE
  else if v =? 0x0000A005 then Some SGX_QL_QV_RESULT_REVOKED
  else if v =? 0x0000A006 then Some SGX_QL_QV_RESULT_UNSPECIFIED
  else if v =? 0x0000A007 then Some SGX_QL_QV_RESULT_SW_HARDENING_NEEDED
  else if v =? 0x0000A008 then Some SGX_QL_QV_RESULT_CONFIG_AND_SW_HARDENING_NEEDED
  else if v =? 0x0000A0FF then Some SGX_QL_QV_RESULT_MAX
  else None.

#[export] Instance qv_result_repr : ReprEnum sgx_ql_qv_result_t :=
  {| enum_default := SGX_QL_QV_RESULT_OK; from_repr := qv_result_from_repr; from_key := qv_result_from_key |}.

Definition qv_result_as_str (x : sgx_ql_qv_result_t) : string :=
  match x with
  | SGX_QL_QV_RESULT_OK => "SGX_QL_QV_RESULT_OK"
  | SGX_QL_QV_RESULT_CONFIG_NEEDED => "SGX_QL_QV_RESULT_CONFIG_NEEDED"
  | SGX_QL_QV_RESULT_OUT_OF_DATE => "SGX_QL_QV_RESULT_OUT_OF_DATE"
  | SGX_QL_QV_RESULT_OUT_OF_DATE_CONFIG_NEEDED => "SGX_QL_QV_RESULT_OUT_OF_DATE_CONFIG_NEEDED"
  | SGX_QL_QV_RESULT_INVALID_SIGNATURE => "SGX_QL_QV_RESULT_INVALID_SIGNATURE"
  | SGX_QL_QV_RESULT_REVOKED => "SGX_QL_QV_RESULT_REVOKED"
  | SGX_QL_QV_RESULT_UNSPECIFIED => "SGX_QL_QV_RESULT_UNSPECIFIED"
  | SGX_QL_QV_RESULT_SW_HARDENING_NEEDED => "SGX_QL_QV_RESULT_SW_HARDENING_NEEDED"
  | SGX_QL_QV_RESULT_CONFIG_AND_SW_HARDENING_NEEDED => "SGX_QL_QV_RESULT_CONFIG_AND_SW_HARDENING_NEEDED"
  | SGX_QL_QV_RESULT_MAX => "SGX_QL_QV_RESULT_MAX"
  end.

Definition qv_result_description (x : sgx_ql_qv_result_t) : string :=
  match x with
  | SGX_QL_QV_RESULT_OK => "The Quote verification passed and is at the latest TCB level."
  | SGX_QL_QV_RESULT_CONFIG_NEEDED => "The Quote verification passed and the platform is patched to the latest TCB level but additional configuration of the SGX platform may be needed."
  | SGX_QL_QV_RESULT_OUT_OF_DATE => "The Quote is good but TCB level of the platform is out of date, The platform needs patching to be at the latest TCB level."
  | SGX_QL_QV_RESULT_OUT_OF_DATE_CONFIG_NEEDED => "The Quote is good but the TCB level of the platform is out of date and additional configuration of the SGX Platform at its current patching level may be needed. The platform needs patching to be at the latest TCB level."
  | SGX_QL_QV_RESULT_INVALID_SIGNATURE => "The signature over the application report is invalid."
  | SGX_QL_QV_RESULT_REVOKED => "The attestation key or platform has been revoked."
  | SGX_QL_QV_RESULT_UNSPECIFIED => "The Quote verification failed due to an error in one of the input."
  | SGX_QL_QV_RESULT_SW_HARDENING_NEEDED => "The TCB level of the platform is up to date, but SGX SW Hardening is needed."
  | SGX_QL_QV_RESULT_CONFIG_AND_SW_HARDENING_NEEDED => "The TCB level of the platform is up to date, but additional configuration of the platform at its current patching level may be needed. Moreove, SGX SW Hardening is also needed."
  | SGX_QL_QV_RESULT_MAX => "Indicate max result to allow better translation."
  end.

(** * Lemmas *)

(** Settle [from_repr v = Some x <-> from_key x = v] by trying every
    discriminant in turn. *)
Ltac solve_repr_iff :=
  split;
  [ intros Hr;
    repeat match type of Hr with
           | (if ?v =? ?k then _ else _) = _ =>
               destruct (Z.eqb_spec v k) as [->|_]; [by simplify_eq/=|]
           end;
    done
  | intros <-; match goal with |- _ = Some ?x => by destruct x end ].

#[export] Instance status_repr_laws : ReprEnumLaws sgx_status_t.
Proof.
  split; simpl.
  - intros x. destruct x; vm_compute; by split.
  - intros v x. unfold status_from_repr. solve_repr_iff.
Qed.

#[export] Instance pce_error_repr_laws : ReprEnumLaws sgx_pce_error_t.
Proof.
  split; simpl.
  - intros x. destruct x; vm_compute; by split.
  - intros v x. unfold pce_error_from_repr. solve_repr_iff.
Qed.

#[export] Instance quote3_error_repr_laws : ReprEnumLaws sgx_quote3_error_t.
Proof.
  split; simpl.
  - intros x. destruct x; vm_compute; by split.
  - intros v x. unfold quote3_error_from_repr. solve_repr_iff.
Qed.

#[export] Instance qcnl_error_repr_laws : ReprEnumLaws sgx_qcnl_error_t.
Proof.
  split; simpl.
  - intros x. destruct x; vm_compute; by split.
  - intros v x. unfold qcnl_error_from_repr. solve_repr_iff.
Qed.

#[export] Instance qv_result_repr_laws : ReprEnumLaws sgx_ql_qv_result_t.
Proof.
  split; simpl.
  - intros x. destruct x; vm_compute; by split.
  - intros v x. unfold qv_result_from_repr. solve_repr_iff.
Qed.

#[export] Instance sgx_status_t_finite : Finite sgx_status_t.
Proof.
  refine {| enum := [SGX_SUCCESS; SGX_ERROR_UNEXPECTED; SGX_ERROR_INVALID_PARAMETER; SGX_ERROR_OUT_OF_MEMORY; SGX_ERROR_ENCLAVE_LOST; SGX_ERROR_INVALID_STATE; SGX_ERROR_FEATURE_NOT_SUPPORTED; SGX_PTHREAD_EXIT; SGX_ERROR_MEMORY_MAP_FAILURE; SGX_ERROR_INVALID_FUNCTION; SGX_ERROR_OUT_OF_TCS; SGX_ERROR_ENCLAVE_CRASHED; SGX_ERROR_ECALL_NOT_ALLOWED; SGX_ERROR_OCALL_NOT_ALLOWED; SGX_ERROR_STACK_OVERRUN; SGX_ERROR_UNDEFINED_SYMBOL; SGX_ERROR_INVALID_ENCLAVE; SGX_ERROR_INVALID_ENCLAVE_ID; SGX_ERROR_INVALID_SIGNATURE; SGX_ERROR_NDEBUG_ENCLAVE; SGX_ERROR_OUT_OF_EPC; SGX_ERROR_NO_DEVICE; SGX_ERROR_MEMORY_MAP_CONFLICT; SGX_ERROR_INVALID_METADATA; SGX_ERROR_DEVICE_BUSY; SGX_ERROR_INVALID_VERSION; SGX_ERROR_MODE_INCOMPATIBLE; SGX_ERROR_ENCLAVE_FILE_ACCESS; SGX_ERROR_INVALID_MISC; SGX_ERROR_INVALID_LAUNCH_TOKEN; SGX_ERROR_MAC_MISMATCH; SGX_ERROR_INVALID_ATTRIBUTE; SGX_ERROR_INVALID_CPUSVN; SGX_ERROR_INVALID_ISVSVN; SGX_ERROR_INVALID_KEYNAME; SGX_ERROR_SERVICE_UNAVAILABLE; SGX_ERROR_SERVICE_TIMEOUT; SGX_ERROR_AE_INVALID_EPIDBLOB; SGX_ERROR_SERVICE_INVALID_PRIVILEGE; SGX_ERROR_EPID_MEMBER_REVOKED; SGX_ERROR_UPDATE_NEEDED; SGX_ERROR_NETWORK_FAILURE; SGX_ERROR_AE_SESSION_INVALID; SGX_ERROR_BUSY; SGX_ERROR_MC_NOT_FOUND; SGX_ERROR_MC_NO_ACCESS_RIGHT; SGX_ERROR_MC_USED_UP; SGX_ERROR_MC_OVER_QUOTA; SGX_ERROR_KDF_MISMATCH; SGX_ERROR_UNRECOGNIZED_PLATFORM; SGX_ERROR_UNSUPPORTED_CONFIG; SGX_ERROR_NO_PRIVILEGE; SGX_ERROR_PCL_ENCRYPTED; SGX_ERROR_PCL_NOT_ENCRYPTED; SGX_ERROR_PCL_MAC_MISMATCH; SGX_ERROR_PCL_SHA_MISMATCH; SGX_ERROR_PCL_GUID_MISMATCH; SGX_ERROR_FILE_BAD_STATUS; SGX_ERROR_FILE_NO_KEY_ID; SGX_ERROR_FILE_NAME_MISMATCH; SGX_ERROR_FILE_NOT_SGX_FILE; SGX_ERROR_FILE_CANT_OPEN_RECOVERY_FILE; SGX_ERROR_FILE_CANT_WRITE_RECOVERY_FILE; SGX_ERROR_FILE_RECOVERY_NEEDED; SGX_ERROR_FILE_FLUSH_FAILED; SGX_ERROR_FILE_CLOSE_FAILED; SGX_ERROR_UNSUPPORTED_ATT_KEY_ID; SGX_ERROR_ATT_KEY_CERTIFICATION_FAILURE; SGX_ERROR_ATT_KEY_UNINITIALIZED; SGX_ERROR_INVALID_ATT_KEY_CERT_DATA; SGX_ERROR_PLATFORM_CERT_UNAVAILABLE; SGX_INTERNAL_ERROR_ENCLAVE_CREATE_INTERRUPTED; SGX_ERROR_WASM_BUFFER_TOO_SHORT; SGX_ERROR_WASM_INTERPRETER_ERROR; SGX_ERROR_WASM_LOAD_MODULE_ERROR; SGX_ERROR_WASM_TRY_LOAD_ERROR; SGX_ERROR_WASM_REGISTER_ERROR; SGX_ERROR_FAAS_BUFFER_TOO_SHORT; SGX_ERROR_FAAS_INTERNAL_ERROR] |}.
  - apply (bool_decide_unpack _). by vm_compute.
  - intros x. apply (bool_decide_unpack _). by destruct x; vm_compute.
Defined.

#[export] Instance sgx_pce_error_t_finite : Finite sgx_pce_error_t.
Proof.
  refine {| enum := [SGX_PCE_SUCCESS; SGX_PCE_UNEXPECTED; SGX_PCE_INVALID_PARAMETER; SGX_PCE_OUT_OF_EPC; SGX_PCE_INTERFACE_UNAVAILABLE; SGX_PCE_INVALID_REPORT; SGX_PCE_CRYPTO_ERROR; SGX_PCE_INVALID_PRIVILEGE; SGX_PCE_INVALID_TCB] |}.
  - apply (bool_decide_unpack _). by vm_compute.
  - intros x. apply (bool_decide_unpack _). by destruct x; vm_compute.
Defined.

#[export] Instance sgx_quote3_error_t_finite : Finite sgx_quote3_error_t.
Proof.
  refine {| enum := [SGX_QL_SUCCESS; SGX_QL_ERROR_UNEXPECTED; SGX_QL_ERROR_INVALID_PARAMETER; SGX_QL_ERROR_OUT_OF_MEMORY; SGX_QL_ERROR_ECDSA_ID_MISMATCH; SGX_QL_PATHNAME_BUFFER_OVERFLOW_ERROR; SGX_QL_FILE_ACCESS_ERROR; SGX_QL_ERROR_STORED_KEY; SGX_QL_ERROR_PUB_KEY_ID_MISMATCH; SGX_QL_ERROR_INVALID_PCE_SIG_SCHEME; SGX_QL_ATT_KEY_BLOB_ERROR; SGX_QL_UNSUPPORTED_ATT_KEY_ID; SGX_QL_UNSUPPORTED_LOADING_POLICY; SGX_QL_INTERFACE_UNAVAILABLE; SGX_QL_PLATFORM_LIB_UNAVAILABLE; SGX_QL_ATT_KEY_NOT_INITIALIZED; SGX_QL_ATT_KEY_CERT_DATA_INVALID; SGX_QL_NO_PLATFORM_CERT_DATA; SGX_QL_OUT_OF_EPC; SGX_QL_ERROR_REPORT; SGX_QL_ENCLAVE_LOST; SGX_QL_INVALID_REPORT; SGX_QL_ENCLAVE_LOAD_ERROR; SGX_QL_UNABLE_TO_GENERATE_QE_REPORT; SGX_QL_KEY_CERTIFCATION_ERROR; SGX_QL_NETWORK_ERROR; SGX_QL_MESSAGE_ERROR; SGX_QL_NO_QUOTE_COLLATERAL_DATA; SGX_QL_QUOTE_CERTIFICATION_DATA_UNSUPPORTED; SGX_QL_QUOTE_FORMAT_UNSUPPORTED; SGX_QL_UNABLE_TO_GENERATE_REPORT; SGX_QL_QE_REPORT_INVALID_SIGNATURE; SGX_QL_QE_REPORT_UNSUPPORTED_FORMAT; SGX_QL_PCK_CERT_UNSUPPORTED_FORMAT; SGX_QL_PCK_CERT_CHAIN_ERROR; SGX_QL_TCBINFO_UNSUPPORTED_FORMAT; SGX_QL_TCBINFO_MISMATCH; SGX_QL_QEIDENTITY_UNSUPPORTED_FORMAT; SGX_QL_QEIDENTITY_MISMATCH; SGX_QL_TCB_OUT_OF_DATE; SGX_QL_TCB_OUT_OF_DATE_CONFIGURATION_NEEDED; SGX_QL_SGX_ENCLAVE_IDENTITY_OUT_OF_DATE; SGX_QL_SGX_ENCLAVE_REPORT_ISVSVN_OUT_OF_DATE; SGX_QL_QE_IDENTITY_OUT_OF_DATE; SGX_QL_SGX_TCB_INFO_EXPIRED; SGX_QL_SGX_PCK_CERT_CHAIN_EXPIRED; SGX_QL_SGX_CRL_EXPIRED; SGX_QL_SGX_SIGNING_CERT_CHAIN_EXPIRED; SGX_QL_SGX_ENCLAVE_IDENTITY_EXPIRED; SGX_QL_PCK_REVOKED; SGX_QL_TCB_REVOKED; SGX_QL_TCB_CONFIGURATION_NEEDED; SGX_QL_UNABLE_TO_GET_COLLATERAL; SGX_QL_ERROR_INVALID_PRIVILEGE; SGX_QL_NO_QVE_IDENTITY_DATA; SGX_QL_CRL_UNSUPPORTED_FORMAT; SGX_QL_QEIDENTITY_CHAIN_ERROR; SGX_QL_TCBINFO_CHAIN_ERROR; SGX_QL_ERROR_QVL_QVE_MISMATCH; SGX_QL_TCB_SW_HARDENING_NEEDED; SGX_QL_TCB_CONFIGURATION_AND_SW_HARDENING_NEEDED; SGX_QL_UNSUPPORTED_MODE; SGX_QL_NO_DEVICE; SGX_QL_SERVICE_UNAVAILABLE; SGX_QL_NETWORK_FAILURE; SGX_QL_SERVICE_TIMEOUT; SGX_QL_ERROR_BUSY; SGX_QL_UNKNOWN_MESSAGE_RESPONSE; SGX_QL_PERSISTENT_STORAGE_ERROR; SGX_QL_ERROR_MESSAGE_PARSING_ERROR; SGX_QL_PLATFORM_UNKNOWN; SGX_QL_UNKNOWN_API_VERSION; SGX_QL_CERTS_UNAVAILABLE; SGX_QL_QVEIDENTITY_MISMATCH; SGX_QL_QVE_OUT_OF_DATE; SGX_QL_PSW_NOT_AVAILABLE; SGX_QL_COLLATERAL_VERSION_NOT_SUPPORTED; SGX_QL_TDX_MODULE_MISMATCH; SGX_QL_ERROR_MAX] |}.
  - apply (bool_decide_unpack _). by vm_compute.
  - intros x. apply (bool_decide_unpack _). by destruct x; vm_compute.
Defined.

#[export] Instance sgx_qcnl_error_t_finite : Finite sgx_qcnl_error_t.
Proof.
  refine {| enum := [SGX_QCNL_SUCCESS; SGX_QCNL_UNEXPECTED_ERROR; SGX_QCNL_INVALID_PARAMETER; SGX_QCNL_NETWORK_ERROR; SGX_QCNL_NETWORK_PROXY_FAIL; SGX_QCNL_NETWORK_HOST_FAIL; SGX_QCNL_NETWORK_COULDNT_CONNECT; SGX_QCNL_NETWORK_HTTP2_ERROR; SGX_QCNL_NETWORK_WRITE_ERROR; SGX_QCNL_NETWORK_OPERATION_TIMEDOUT; SGX_QCNL_NETWORK_HTTPS_ERROR; SGX_QCNL_NETWORK_UNKNOWN_OPTION; SGX_QCNL_NETWORK_INIT_ERROR; SGX_QCNL_MSG_ERROR; SGX_QCNL_OUT_OF_MEMORY; SGX_QCNL_ERROR_STATUS_NO_CACHE_DATA; SGX_QCNL_ERROR_STATUS_PLATFORM_UNKNOWN; SGX_QCNL_ERROR_STATUS_UNEXPECTED; SGX_QCNL_ERROR_STATUS_CERTS_UNAVAILABLE; SGX_QCNL_ERROR_STATUS_SERVICE_UNAVAILABLE; SGX_QCNL_INVALID_CONFIG] |}.
  - apply (bool_decide_unpack _). by vm_compute.
  - intros x. apply (bool_decide_unpack _). by destruct x; vm_compute.
Defined.

#[export] Instance sgx_ql_qv_result_t_finite : Finite sgx_ql_qv_result_t.
Proof.
  refine {| enum := [SGX_QL_QV_RESULT_OK; SGX_QL_QV_RESULT_CONFIG_NEEDED; SGX_QL_QV_RESULT_OUT_OF_DATE; SGX_QL_QV_RESULT_OUT_OF_DATE_CONFIG_NEEDED; SGX_QL_QV_RESULT_INVALID_SIGNATURE; SGX_QL_QV_RESULT_REVOKED; SGX_QL_QV_RESULT_UNSPECIFIED; SGX_QL_QV_RESULT_SW_HARDENING_NEEDED; SGX_QL_QV_RESULT_CONFIG_AND_SW_HARDENING_NEEDED; SGX_QL_QV_RESULT_MAX] |}.
  - apply (bool_decide_unpack _). by vm_compute.
  - intros x. apply (bool_decide_unpack _). by destruct x; vm_compute.
Defined.

(** A table over a finite enumeration with no repeated entry is injective. *)
Lemma table_inj {A B} `{Finite A} `{EqDecision B} (f : A -> B) :
  bool_decide (NoDup (f <$> enum A)) = true -> forall x y, f x = f y -> x = y.
Proof.
  intros ND%bool_decide_eq_true x y E.
  pose proof (elem_of_enum x) as [i Hi]%list_elem_of_lookup.
  pose proof (elem_of_enum y) as [j Hj]%list_elem_of_lookup.
  assert (i = j) as ->; [|by simplify_eq].
  apply (NoDup_lookup _ _ _ (f x) ND).
  - by rewrite list_lookup_fmap, Hi.
  - by rewrite list_lookup_fmap, Hj, E.
Qed.

(** The text [as_str] prints identifies the status: in each of the five
    enumerations two different values never print the same. *)
Theorem status_as_str_injective :
  (forall x y, status_as_str x = status_as_str y -> x = y) /\
  (forall x y, pce_error_as_str x = pce_error_as_str y -> x = y) /\
  (forall x y, quote3_error_as_str x = quote3_error_as_str y -> x = y) /\
  (forall x y, qcnl_error_as_str x = qcnl_error_as_str y -> x = y) /\
  (forall x y, qv_result_as_str x = qv_result_as_str y -> x = y).
Proof. split_and!; apply table_inj; by vm_compute. Qed.

(** Every status enumeration round-trips through its [u32] discriminant:
    [from_repr v] is [Some x] exactly when [v] is the discriminant of [x], so
    no two values share a code and no unknown code is decoded. *)
Theorem status_codes_roundtrip :
  ReprEnumLaws sgx_status_t /\ ReprEnumLaws sgx_pce_error_t /\
  ReprEnumLaws sgx_quote3_error_t /\ ReprEnumLaws sgx_qcnl_error_t /\
  ReprEnumLaws sgx_ql_qv_result_t.
Proof. split_and!; apply _. Qed.
