(* ===== verification/SgxTypes.v ===== *)
(** SgxTypes: the C structures of sgx_types/src/types.rs that the trusted
    libraries exchange, with their byte views.

    A structure is a record with the source's fields; a one-field wrapper
    around an array ([sgx_cpu_svn_t], [sgx_measurement_t], [sgx_key_id_t],
    [sgx_report_data_t], the [sgx_align_*] types, whose padding is never read)
    is the array.  Arrays are byte lists; the predicates [*_ok] state the
    lengths and integer ranges the Rust types guarantee.  [as_bytes] is the
    memory image of the structure ([repr(C)], little endian; none of these
    structures has padding), and the [*_of_bytes] functions are the
    reinterpretation of such an image. *)
From Stdlib Require Import ZArith Lia Strings.Byte.
From stdpp Require Import base numbers list option tactics.
From S2P Require Import Prelude SgxStatus.

(** [SgxResult<T>] and [SgxError] of sgx_types/src/error.rs. *)
Abbreviation SgxResult := (result sgx_status_t).
Abbreviation SgxError := (result sgx_status_t unit).

(** * [ContiguousMemory]

    The marker trait of sgx_types/src/marker.rs: a value that may be passed by
    address to a byte-oriented C function.  Its size does not depend on the
    value. *)
Class ContiguousMemory (T : Type) := {
  size_of : Z;
  as_bytes : T -> list byte;
  mem_ok : T -> Prop
}.
Arguments size_of T {_}.

Class ContiguousMemoryLaws (T : Type) `{ContiguousMemory T} : Prop := {
  as_bytes_length x : mem_ok x -> zlen (as_bytes x) = size_of T
}.

(** Cut the next [n] bytes off an image. *)
Definition cut (n : nat) (bs : list byte) : list byte * list byte :=
  (take n bs, drop n bs).

(** The bytes [off .. off+n] of an image. *)
Definition slice (off n : nat) (bs : list byte) : list byte :=
  take n (drop off bs).

(** [ptr::copy_nonoverlapping] of [bs] to offset [off] of a region. *)
Definition write_at (off : nat) (bs mem : list byte) : list byte :=
  take off mem ++ bs ++ drop (off + length bs) mem.

Arguments write_at : simpl never.
Arguments slice : simpl never.

(** * Constants *)
Definition SGX_FLAGS_INITTED : Z := 0x1.
Definition SGX_FLAGS_DEBUG : Z := 0x2.
Definition SGX_FLAGS_MODE64BIT : Z := 0x4.
Definition SGX_FLAGS_PROVISION_KEY : Z := 0x10.
Definition SGX_FLAGS_EINITTOKEN_KEY : Z := 0x20.
Definition SGX_FLAGS_KSS : Z := 0x80.
Definition FLAGS_NON_SECURITY_BITS : Z :=
  Z.lor (Z.lor (Z.lor 0x00FFFFFFFFFFFFC0 SGX_FLAGS_MODE64BIT)
    SGX_FLAGS_PROVISION_KEY) SGX_FLAGS_EINITTOKEN_KEY.
Definition TSEAL_DEFAULT_FLAGSMASK : Z := unot 64 FLAGS_NON_SECURITY_BITS.
Definition MISC_NON_SECURITY_BITS : Z := 0x0FFFFFFF.
Definition TSEAL_DEFAULT_MISCMASK : Z := unot 32 MISC_NON_SECURITY_BITS.
Definition SGX_KEYSELECT_SEAL : Z := 0x4.
Definition SGX_KEYPOLICY_MRENCLAVE : Z := 0x1.
Definition SGX_KEYPOLICY_MRSIGNER : Z := 0x2.
Definition SGX_KEYPOLICY_NOISVPRODID : Z := 0x4.
Definition SGX_KEYPOLICY_CONFIGID : Z := 0x8.
Definition SGX_KEYPOLICY_ISVFAMILYID : Z := 0x10.
Definition SGX_KEYPOLICY_ISVEXTPRODID : Z := 0x20.
Definition SGX_SHA256_HASH_SIZE : nat := 32.
Definition SGX_AESGCM_IV_SIZE : Z := 12.
Definition SGX_SEAL_IV_SIZE : nat := 12.
Definition SGX_SEAL_TAG_SIZE : nat := 16.
Definition SGX_DH_MAC_SIZE : nat := 16.

(** * Attributes, key requests *)
Record sgx_attributes_t := {
  attr_flags : Z;
  attr_xfrm : Z
}.

Record sgx_key_request_t := {
  kr_key_name : Z;
  kr_key_policy : Z;
  kr_isv_svn : Z;
  kr_reserved1 : Z;
  kr_cpu_svn : list byte;
  kr_attribute_mask : sgx_attributes_t;
  kr_key_id : list byte;
  kr_misc_mask : Z;
  kr_config_svn : Z;
  kr_reserved2 : list byte
}.

(** * Targets and reports *)
Record sgx_target_info_t := {
  ti_mr_enclave : list byte;
  ti_attributes : sgx_attributes_t;
  ti_reserved1 : list byte;
  ti_config_svn : Z;
  ti_misc_select : Z;
  ti_reserved2 : list byte;
  ti_config_id : list byte;
  ti_reserved3 : list byte
}.

Record sgx_report_body_t := {
  rb_cpu_svn : list byte;
  rb_misc_select : Z;
  rb_reserved1 : list byte;
  rb_isv_ext_prod_id : list byte;
  rb_attributes : sgx_attributes_t;
  rb_mr_enclave : list byte;
  rb_reserved2 : list byte;
  rb_mr_signer : list byte;
  rb_reserved3 : list byte;
  rb_config_id : list byte;
  rb_isv_prod_id : Z;
  rb_isv_svn : Z;
  rb_config_svn : Z;
  rb_reserved4 : list byte;
  rb_isv_family_id : list byte;
  rb_report_data : list byte
}.

Record sgx_report_t := {
  rp_body : sgx_report_body_t;
  rp_key_id : list byte;
  rp_mac : list byte
}.

(** * Elliptic-curve keys *)
Record sgx_ec256_public_t := {
  gx : list byte;
  gy : list byte
}.

(** * Local attestation messages *)
Record sgx_dh_msg1_t := {
  m1_g_a : sgx_ec256_public_t;
  m1_target : sgx_target_info_t
}.

Record sgx_dh_msg2_t := {
  m2_g_b : sgx_ec256_public_t;
  m2_report : sgx_report_t;
  m2_cmac : list byte
}.

Record sgx_dh_session_enclave_identity_t := {
  id_cpu_svn : list byte;
  id_misc_select : Z;
  id_reserved_1 : list byte;
  id_attributes : sgx_attributes_t;
  id_mr_enclave : list byte;
  id_reserved_2 : list byte;
  id_mr_signer : list byte;
  id_reserved_3 : list byte;
  id_isv_prod_id : Z;
  id_isv_svn : Z
}.

(** * Default values: all zero *)
Definition attributes_default : sgx_attributes_t :=
  {| attr_flags := 0; attr_xfrm := 0 |}.

Definition key_request_default : sgx_key_request_t := {|
  kr_key_name := 0; kr_key_policy := 0; kr_isv_svn := 0; kr_reserved1 := 0;
  kr_cpu_svn := zeros 16; kr_attribute_mask := attributes_default;
  kr_key_id := zeros 32; kr_misc_mask := 0; kr_config_svn := 0;
  kr_reserved2 := zeros 434 |}.

Definition target_info_default : sgx_target_info_t := {|
  ti_mr_enclave := zeros 32; ti_attributes := attributes_default;
  ti_reserved1 := zeros 2; ti_config_svn := 0; ti_misc_select := 0;
  ti_reserved2 := zeros 8; ti_config_id := zeros 64;
  ti_reserved3 := zeros 384 |}.

Definition report_data_default : list byte := zeros 64.

Definition report_body_default : sgx_report_body_t := {|
  rb_cpu_svn := zeros 16; rb_misc_select := 0; rb_reserved1 := zeros 12;
  rb_isv_ext_prod_id := zeros 16; rb_attributes := attributes_default;
  rb_mr_enclave := zeros 32; rb_reserved2 := zeros 32;
  rb_mr_signer := zeros 32; rb_reserved3 := zeros 32;
  rb_config_id := zeros 64; rb_isv_prod_id := 0; rb_isv_svn := 0;
  rb_config_svn := 0; rb_reserved4 := zeros 42;
  rb_isv_family_id := zeros 16; rb_report_data := report_data_default |}.

Definition report_default : sgx_report_t := {|
  rp_body := report_body_default; rp_key_id := zeros 32; rp_mac := zeros 16 |}.

Definition ec256_public_default : sgx_ec256_public_t :=
  {| gx := zeros 32; gy := zeros 32 |}.

(** * Memory images *)
Definition attributes_bytes (a : sgx_attributes_t) : list byte :=
  le_bytes 8 (attr_flags a) ++ le_bytes 8 (attr_xfrm a).

Definition key_request_bytes (k : sgx_key_request_t) : list byte :=
  le_bytes 2 (kr_key_name k) ++ le_bytes 2 (kr_key_policy k) ++
  le_bytes 2 (kr_isv_svn k) ++ le_bytes 2 (kr_reserved1 k) ++
  kr_cpu_svn k ++ attributes_bytes (kr_attribute_mask k) ++ kr_key_id k ++
  le_bytes 4 (kr_misc_mask k) ++ le_bytes 2 (kr_config_svn k) ++
  kr_reserved2 k.

Definition target_info_bytes (t : sgx_target_info_t) : list byte :=
  ti_mr_enclave t ++ attributes_bytes (ti_attributes t) ++ ti_reserved1 t ++
  le_bytes 2 (ti_config_svn t) ++ le_bytes 4 (ti_misc_select t) ++
  ti_reserved2 t ++ ti_config_id t ++ ti_reserved3 t.

Definition report_body_bytes (b : sgx_report_body_t) : list byte :=
  rb_cpu_svn b ++ le_bytes 4 (rb_misc_select b) ++ rb_reserved1 b ++
  rb_isv_ext_prod_id b ++ attributes_bytes (rb_attributes b) ++
  rb_mr_enclave b ++ rb_reserved2 b ++ rb_mr_signer b ++ rb_reserved3 b ++
  rb_config_id b ++ le_bytes 2 (rb_isv_prod_id b) ++
  le_bytes 2 (rb_isv_svn b) ++ le_bytes 2 (rb_config_svn b) ++
  rb_reserved4 b ++ rb_isv_family_id b ++ rb_report_data b.

Definition report_bytes (r : sgx_report_t) : list byte :=
  report_body_bytes (rp_body r) ++ rp_key_id r ++ rp_mac r.

Definition ec256_public_bytes (p : sgx_ec256_public_t) : list byte :=
  gx p ++ gy p.

(** * Reading an image back *)
Definition attributes_of_bytes (bs : list byte) : sgx_attributes_t :=
  let '(f, bs) := cut 8 bs in
  let '(x, bs) := cut 8 bs in
  {| attr_flags := le_val f; attr_xfrm := le_val x |}.

Definition key_request_of_bytes (bs : list byte) : sgx_key_request_t :=
  let '(kn, bs) := cut 2 bs in let '(kp, bs) := cut 2 bs in
  let '(sv, bs) := cut 2 bs in let '(r1, bs) := cut 2 bs in
  let '(cs, bs) := cut 16 bs in let '(am, bs) := cut 16 bs in
  let '(ki, bs) := cut 32 bs in let '(mm, bs) := cut 4 bs in
  let '(cv, bs) := cut 2 bs in let '(r2, bs) := cut 434 bs in
  {| kr_key_name := le_val kn; kr_key_policy := le_val kp;
     kr_isv_svn := le_val sv; kr_reserved1 := le_val r1; kr_cpu_svn := cs;
     kr_attribute_mask := attributes_of_bytes am; kr_key_id := ki;
     kr_misc_mask := le_val mm; kr_config_svn := le_val cv;
     kr_reserved2 := r2 |}.

Definition target_info_of_bytes (bs : list byte) : sgx_target_info_t :=
  let '(me, bs) := cut 32 bs in let '(at_, bs) := cut 16 bs in
  let '(r1, bs) := cut 2 bs in let '(cv, bs) := cut 2 bs in
  let '(ms, bs) := cut 4 bs in let '(r2, bs) := cut 8 bs in
  let '(ci, bs) := cut 64 bs in let '(r3, bs) := cut 384 bs in
  {| ti_mr_enclave := me; ti_attributes := attributes_of_bytes at_;
     ti_reserved1 := r1; ti_config_svn := le_val cv;
     ti_misc_select := le_val ms; ti_reserved2 := r2; ti_config_id := ci;
     ti_reserved3 := r3 |}.

Definition report_body_of_bytes (bs : list byte) : sgx_report_body_t :=
  let '(cs, bs) := cut 16 bs in let '(ms, bs) := cut 4 bs in
  let '(r1, bs) := cut 12 bs in let '(ep, bs) := cut 16 bs in
  let '(at_, bs) := cut 16 bs in let '(me, bs) := cut 32 bs in
  let '(r2, bs) := cut 32 bs in let '(sg, bs) := cut 32 bs in
  let '(r3, bs) := cut 32 bs in let '(ci, bs) := cut 64 bs in
  let '(pi, bs) := cut 2 bs in let '(sv, bs) := cut 2 bs in
  let '(cv, bs) := cut 2 bs in let '(r4, bs) := cut 42 bs in
  let '(fi, bs) := cut 16 bs in let '(rd, bs) := cut 64 bs in
  {| rb_cpu_svn := cs; rb_misc_select := le_val ms; rb_reserved1 := r1;
     rb_isv_ext_prod_id := ep; rb_attributes := attributes_of_bytes at_;
     rb_mr_enclave := me; rb_reserved2 := r2; rb_mr_signer := sg;
     rb_reserved3 := r3; rb_config_id := ci; rb_isv_prod_id := le_val pi;
     rb_isv_svn := le_val sv; rb_config_svn := le_val cv; rb_reserved4 := r4;
     rb_isv_family_id := fi; rb_report_data := rd |}.

Definition report_of_bytes (bs : list byte) : sgx_report_t :=
  let '(b, bs) := cut 384 bs in
  let '(k, bs) := cut 32 bs in
  let '(m, bs) := cut 16 bs in
  {| rp_body := report_body_of_bytes b; rp_key_id := k; rp_mac := m |}.

(** * What the Rust types guarantee *)
Definition attributes_ok (a : sgx_attributes_t) : Prop :=
  0 <= attr_flags a <= u64_max /\ 0 <= attr_xfrm a <= u64_max.

Definition key_request_ok (k : sgx_key_request_t) : Prop :=
  0 <= kr_key_name k <= u16_max /\ 0 <= kr_key_policy k <= u16_max /\
  0 <= kr_isv_svn k <= u16_max /\ 0 <= kr_reserved1 k <= u16_max /\
  length (kr_cpu_svn k) = 16%nat /\ attributes_ok (kr_attribute_mask k) /\
  length (kr_key_id k) = 32%nat /\ 0 <= kr_misc_mask k <= u32_max /\
  0 <= kr_config_svn k <= u16_max /\ length (kr_reserved2 k) = 434%nat.

Definition target_info_ok (t : sgx_target_info_t) : Prop :=
  length (ti_mr_enclave t) = 32%nat /\ attributes_ok (ti_attributes t) /\
  length (ti_reserved1 t) = 2%nat /\ 0 <= ti_config_svn t <= u16_max /\
  0 <= ti_misc_select t <= u32_max /\ length (ti_reserved2 t) = 8%nat /\
  length (ti_config_id t) = 64%nat /\ length (ti_reserved3 t) = 384%nat.

Definition report_body_ok (b : sgx_report_body_t) : Prop :=
  length (rb_cpu_svn b) = 16%nat /\ 0 <= rb_misc_select b <= u32_max /\
  length (rb_reserved1 b) = 12%nat /\ length (rb_isv_ext_prod_id b) = 16%nat /\
  attributes_ok (rb_attributes b) /\ length (rb_mr_enclave b) = 32%nat /\
  length (rb_reserved2 b) = 32%nat /\ length (rb_mr_signer b) = 32%nat /\
  length (rb_reserved3 b) = 32%nat /\ length (rb_config_id b) = 64%nat /\
  0 <= rb_isv_prod_id b <= u16_max /\ 0 <= rb_isv_svn b <= u16_max /\
  0 <= rb_config_svn b <= u16_max /\ length (rb_reserved4 b) = 42%nat /\
  length (rb_isv_family_id b) = 16%nat /\ length (rb_report_data b) = 64%nat.

Definition report_ok (r : sgx_report_t) : Prop :=
  report_body_ok (rp_body r) /\ length (rp_key_id r) = 32%nat /\
  length (rp_mac r) = 16%nat.

Definition ec256_public_ok (p : sgx_ec256_public_t) : Prop :=
  length (gx p) = 32%nat /\ length (gy p) = 32%nat.

#[export] Instance key_request_mem : ContiguousMemory sgx_key_request_t :=
  {| size_of := 512; as_bytes := key_request_bytes; mem_ok := key_request_ok |}.

#[export] Instance target_info_mem : ContiguousMemory sgx_target_info_t :=
  {| size_of := 512; as_bytes := target_info_bytes; mem_ok := target_info_ok |}.

#[export] Instance report_mem : ContiguousMemory sgx_report_t :=
  {| size_of := 432; as_bytes := report_bytes; mem_ok := report_ok |}.

#[export] Instance ec256_public_mem : ContiguousMemory sgx_ec256_public_t :=
  {| size_of := 64; as_bytes := ec256_public_bytes; mem_ok := ec256_public_ok |}.

(** * Lemmas *)
Lemma cut_app n a r : length a = n -> cut n (a ++ r) = (a, r).
Proof. intros <-. unfold cut. by rewrite take_app_length, drop_app_length. Qed.

Lemma cut_all n a : length a = n -> cut n a = (a, []).
Proof. intros H. rewrite <- (app_nil_r a) at 1. by apply cut_app. Qed.

Lemma le_val_bytes_small n z :
  0 <= z < 256 ^ Z.of_nat n -> le_val (le_bytes n z) = z.
Proof. intros. rewrite le_val_bytes. by apply Z.mod_small. Qed.

Lemma length_attributes_bytes a : length (attributes_bytes a) = 16%nat.
Proof. done. Qed.

Lemma attributes_of_to_bytes a :
  attributes_ok a -> attributes_of_bytes (attributes_bytes a) = a.
Proof.
  intros [? ?]. unfold attributes_of_bytes, attributes_bytes.
  rewrite cut_app, cut_all by done. unfold u64_max in *.
  destruct a; simpl in *. f_equal; apply le_val_bytes_small; lia.
Qed.

#[export] Hint Rewrite length_attributes_bytes : sgx.

(** Lengths of images: unfold, collect the field lengths, add them up. *)
Ltac image_length :=
  unfold zlen in *; autorewrite with sgx; destruct_and?; lia.

#[export] Instance key_request_mem_laws : ContiguousMemoryLaws sgx_key_request_t.
Proof.
  split. intros k H. unfold as_bytes, mem_ok, size_of in *. simpl in *.
  unfold key_request_bytes, key_request_ok in *. image_length.
Qed.

#[export] Instance target_info_mem_laws : ContiguousMemoryLaws sgx_target_info_t.
Proof.
  split. intros k H. unfold as_bytes, mem_ok, size_of in *. simpl in *.
  unfold target_info_bytes, target_info_ok in *. image_length.
Qed.

#[export] Instance report_mem_laws : ContiguousMemoryLaws sgx_report_t.
Proof.
  split. intros k H. unfold as_bytes, mem_ok, size_of in *. simpl in *.
  unfold report_bytes, report_ok, report_body_bytes, report_body_ok in *.
  image_length.
Qed.

#[export] Instance ec256_public_mem_laws : ContiguousMemoryLaws sgx_ec256_public_t.
Proof.
  split. intros k H. unfold as_bytes, mem_ok, size_of in *. simpl in *.
  unfold ec256_public_bytes, ec256_public_ok in *. image_length.
Qed.

(** Read an image field by field: each [cut] meets the field it was written
    from. *)
Ltac read_image :=
  repeat (rewrite cut_app by (autorewrite with sgx; done));
  rewrite cut_all by (autorewrite with sgx; done).

Lemma key_request_of_to_bytes k :
  key_request_ok k -> key_request_of_bytes (key_request_bytes k) = k.
Proof.
  intros H. unfold key_request_ok in H. destruct_and!.
  unfold key_request_of_bytes, key_request_bytes. read_image.
  rewrite attributes_of_to_bytes by done. unfold u16_max, u32_max in *.
  rewrite !le_val_bytes_small by (simpl; lia). by destruct k.
Qed.

Lemma target_info_of_to_bytes t :
  target_info_ok t -> target_info_of_bytes (target_info_bytes t) = t.
Proof.
  intros H. unfold target_info_ok in H. destruct_and!.
  unfold target_info_of_bytes, target_info_bytes. read_image.
  rewrite attributes_of_to_bytes by done. unfold u16_max, u32_max in *.
  rewrite !le_val_bytes_small by (simpl; lia). by destruct t.
Qed.

(** A slice of a concatenation, field by field. *)
Lemma slice_skip off n a r :
  (length a <= off)%nat -> slice off n (a ++ r) = slice (off - length a) n r.
Proof.
  intros H. unfold slice. rewrite drop_app_ge by done. done.
Qed.

Lemma slice_skip_by k off n a r :
  length a = k -> (k <= off)%nat -> slice off n (a ++ r) = slice (off - k) n r.
Proof. intros <-. apply slice_skip. Qed.

Lemma slice_here n a r : length a = n -> slice 0 n (a ++ r) = a.
Proof. intros <-. unfold slice. by rewrite drop_0, take_app_length. Qed.

Lemma length_slice off n bs :
  (off + n <= length bs)%nat -> length (slice off n bs) = n.
Proof. intros. unfold slice. rewrite length_take, length_drop. lia. Qed.

Lemma length_report_body_bytes b :
  report_body_ok b -> length (report_body_bytes b) = 384%nat.
Proof. intros Hb. unfold report_body_bytes, report_body_ok in *. image_length. Qed.

Lemma report_body_of_to_bytes b :
  report_body_ok b -> report_body_of_bytes (report_body_bytes b) = b.
Proof.
  intros H. unfold report_body_ok in H. destruct_and!.
  unfold report_body_of_bytes, report_body_bytes. read_image.
  rewrite attributes_of_to_bytes by done. unfold u16_max, u32_max in *.
  rewrite !le_val_bytes_small by (simpl; lia). by destruct b.
Qed.

Lemma report_of_to_bytes r : report_ok r -> report_of_bytes (report_bytes r) = r.
Proof.
  intros (Hb & Hk & Hm). unfold report_of_bytes, report_bytes.
  rewrite cut_app by by apply length_report_body_bytes.
  rewrite cut_app, cut_all by done. rewrite report_body_of_to_bytes by done. by destruct r.
Qed.

(** * Regions *)
Lemma slice_lookup o n (l : list byte) i :
  slice o n l !! i = if decide (i < n)%nat then l !! (o + i)%nat else None.
Proof.
  unfold slice. case_decide.
  - rewrite lookup_take_lt by done. apply lookup_drop.
  - apply lookup_take_ge. lia.
Qed.

Lemma write_at_lookup off bs (mem : list byte) i :
  (off + length bs <= length mem)%nat ->
  write_at off bs mem !! i =
  if decide (off <= i < off + length bs)%nat then bs !! (i - off)%nat else mem !! i.
Proof.
  intros Hl. unfold write_at. destruct (decide (i < off)%nat) as [Hi|Hi].
  { rewrite decide_False by lia. rewrite lookup_app_l by (rewrite length_take; lia).
    by rewrite lookup_take_lt. }
  rewrite lookup_app_r by (rewrite length_take; lia).
  rewrite length_take, Nat.min_l by lia. case_decide.
  - by rewrite lookup_app_l by lia.
  - rewrite lookup_app_r by lia. rewrite lookup_drop. f_equal. lia.
Qed.

Lemma length_write_at off bs (mem : list byte) :
  (off + length bs <= length mem)%nat -> length (write_at off bs mem) = length mem.
Proof.
  intros. unfold write_at. rewrite !length_app, length_take, length_drop. lia.
Qed.

Lemma slice_write_same off bs (mem : list byte) n :
  (off + length bs <= length mem)%nat -> n = length bs ->
  slice off n (write_at off bs mem) = bs.
Proof.
  intros Hl ->. apply list_eq. intros i. rewrite slice_lookup, write_at_lookup by done.
  repeat case_decide; try lia.
  - f_equal. lia.
  - by rewrite lookup_ge_None_2 by lia.
Qed.

Lemma slice_write_other o n off bs (mem : list byte) :
  (off + length bs <= length mem)%nat -> (o + n <= off \/ off + length bs <= o)%nat ->
  slice o n (write_at off bs mem) = slice o n mem.
Proof.
  intros Hl Hd. apply list_eq. intros i. rewrite !slice_lookup.
  case_decide; [|done]. rewrite write_at_lookup by done. rewrite decide_False by lia. done.
Qed.

