(* ===== verification/Trts.v ===== *)
(** Trts: the trusted runtime's services for the other libraries.

    Module [Bounds] models the enclave range checks of sgx_trts/src/trts.rs;
    the C functions behind them are the parameters of class [Enclave], whose
    documented behaviour is class [EnclaveLaws].  Module [Memeq] models the
    constant-time comparison of sgx_trts/src/memeq.rs.  [rsgx_read_rand] is
    the random source. *)
From Stdlib Require Import ZArith Lia Strings.Byte.
From stdpp Require Import base numbers list option tactics.
From S2P Require Import Prelude SgxStatus SgxTypes.

(** A C function's status turned into a [Result]. *)
Definition status_result {A} (ret : sgx_status_t) (a : A) : SgxResult A :=
  if decide (ret = SGX_SUCCESS) then Ok a else Err ret.

Lemma status_result_ok {A} ret (a b : A) :
  status_result ret a = Ok b <-> ret = SGX_SUCCESS /\ a = b.
Proof. unfold status_result. case_decide; naive_solver. Qed.

Lemma status_result_err {A} ret (a : A) e :
  status_result ret a = Err e <-> ret <> SGX_SUCCESS /\ ret = e.
Proof. unfold status_result. case_decide; naive_solver. Qed.

(** * Range checks *)
Module Bounds.

(** The C functions of libsgx_trts: an [int] that is not 0 when the range lies
    inside (outside) the enclave. *)
Class Enclave := {
  sgx_is_within_enclave : Z -> Z -> Z;
  sgx_is_outside_enclave : Z -> Z -> Z
}.

(** Their documented behaviour: an enclave occupies one address range, and a
    buffer is inside it, or outside, when all its bytes are; a buffer that
    wraps around the address space is neither. *)
Class EnclaveLaws `{Enclave} (base esize : Z) : Prop := {
  enclave_range : 0 <= base /\ 0 < esize /\ base + esize <= usize_max + 1;
  within_spec addr size : 0 <= addr <= usize_max -> 0 < size <= usize_max ->
    sgx_is_within_enclave addr size <> 0 <->
    base <= addr /\ addr + size <= base + esize;
  outside_spec addr size : 0 <= addr <= usize_max -> 0 < size <= usize_max ->
    sgx_is_outside_enclave addr size <> 0 <->
    addr + size <= usize_max + 1 /\
    (addr + size <= base \/ base + esize <= addr)
}.

Section ops.
Context `{Enclave}.

Definition rsgx_raw_is_within_enclave (addr size : Z) : bool :=
  negb (sgx_is_within_enclave addr size =? 0).

Definition rsgx_raw_is_outside_enclave (addr size : Z) : bool :=
  negb (sgx_is_outside_enclave addr size =? 0).

(** [data] is a reference: its address and the size of its type. *)
Definition rsgx_data_is_within_enclave (addr size : Z) : bool :=
  rsgx_raw_is_within_enclave addr size.

Definition rsgx_data_is_outside_enclave (addr size : Z) : bool :=
  rsgx_raw_is_outside_enclave addr size.

(** [data] is a slice: the address of its first element, its elements of
    [size_of::<T>()] bytes each. *)
Definition rsgx_slice_is_within_enclave {A} (elem addr : Z) (data : list A) : bool :=
  rsgx_raw_is_within_enclave addr (elem * zlen data).

Definition rsgx_slice_is_outside_enclave {A} (elem addr : Z) (data : list A) : bool :=
  rsgx_raw_is_outside_enclave addr (elem * zlen data).

End ops.

(** The range checks mean what they say: for a non-empty buffer,
    [rsgx_raw_is_within_enclave] holds exactly when all its bytes are in the
    enclave and [rsgx_raw_is_outside_enclave] exactly when none is and the
    buffer does not wrap around; a buffer across the border passes neither,
    and no buffer passes both. *)
Theorem range_checks_exact `{Enclave} base esize `{!EnclaveLaws base esize} addr size :
  0 <= addr <= usize_max -> 0 < size <= usize_max ->
  (rsgx_raw_is_within_enclave addr size = true <->
     forall x, addr <= x < addr + size -> base <= x < base + esize) /\
  (rsgx_raw_is_outside_enclave addr size = true <->
     addr + size <= usize_max + 1 /\
     forall x, addr <= x < addr + size -> ~ (base <= x < base + esize)).
Proof.
  intros Ha Hs. unfold rsgx_raw_is_within_enclave, rsgx_raw_is_outside_enclave.
  rewrite !negb_true_iff, !Z.eqb_neq, within_spec, outside_spec by done.
  pose proof enclave_range as Hr. split; split.
  - intros Hw x Hx. lia.
  - intros Hx. pose proof (Hx addr ltac:(lia)). pose proof (Hx (addr + size - 1) ltac:(lia)). lia.
  - intros [Hw Ho]. split; [done|]. intros x Hx. lia.
  - intros [Hw Hx]. split; [done|].
    destruct (decide (addr + size <= base)); [by left|]. right.
    destruct (decide (base + esize <= addr)); [done|]. exfalso.
    apply (Hx (Z.max addr base)); lia.
Qed.

End Bounds.

(** * Constant-time comparison *)
Module Memeq.

(** The loop of [consttime_memequal]: from the last byte to the first, the
    differences accumulate in [res : i32]. *)
Fixpoint memequal_loop (p1 p2 : list byte) (len : nat) (res : Z) : Z :=
  match len with
  | O => res
  | S len =>
      memequal_loop p1 p2 len
        (Z.lor res (Z.lxor (byte_val (p1 !!! len)) (byte_val (p2 !!! len))))
  end.

(** [1 & ((res - 1) >> 8)] on [i32]. *)
Definition consttime_memequal (b1 b2 : list byte) (l : nat) : Z :=
  let res := memequal_loop (take l b1) (take l b2) l 0 in
  Z.land 1 (Z.shiftr (swrap 32 (res - 1)) 8).

(** [impl ConsttimeMemEq<[T]> for [T]]: the two slices with their addresses. *)
Definition consttime_memeq_slice {T} `{ContiguousMemory T}
    (a1 a2 : Z) (self other : list T) : bool :=
  if negb (zlen self =? zlen other) then false
  else if a1 =? a2 then true
  else
    let size := Z.to_nat (size_of T * zlen self) in
    negb (consttime_memequal (mjoin (as_bytes <$> self))
            (mjoin (as_bytes <$> other)) size =? 0).

(** [impl ConsttimeMemEq<T> for T] *)
Definition consttime_memeq {T} `{ContiguousMemory T} (self other : T) : bool :=
  let size := Z.to_nat (size_of T) in
  if (size =? 0)%nat then true
  else negb (consttime_memequal (as_bytes self) (as_bytes other) size =? 0).

Definition consttime_memne {T} `{ContiguousMemory T} (self other : T) : bool :=
  negb (consttime_memeq self other).

(** A byte array [[u8; n]]. *)
Definition array_mem (n : nat) : ContiguousMemory (list byte) :=
  {| size_of := Z.of_nat n; as_bytes := id; mem_ok := fun l => length l = n |}.

Lemma array_mem_laws n : @ContiguousMemoryLaws (list byte) (array_mem n).
Proof. split. intros l H. unfold zlen. simpl in *. unfold id. lia. Qed.

Lemma below_256_log2 x : 0 <= x -> Z.log2 x < 8 -> 0 <= x < 256.
Proof.
  intros Hx Hl. split; [done|]. destruct (decide (x = 0)) as [->|]; [lia|].
  apply (Z.log2_lt_pow2 _ 8); lia.
Qed.

Lemma log2_below_256 x : 0 <= x < 256 -> Z.log2 x < 8.
Proof.
  intros Hx. destruct (decide (x = 0)) as [->|]; [done|].
  apply Z.log2_lt_pow2; simpl; lia.
Qed.

(** Every step ors in a value below 256, so the accumulator stays there. *)
Lemma lor_byte_range a b : 0 <= a < 256 -> 0 <= b < 256 -> 0 <= Z.lor a b < 256.
Proof.
  intros Ha Hb. apply below_256_log2; [apply Z.lor_nonneg; lia|].
  rewrite Z.log2_lor by lia.
  pose proof (log2_below_256 a Ha). pose proof (log2_below_256 b Hb). lia.
Qed.

Lemma lxor_byte_range x y : 0 <= Z.lxor (byte_val x) (byte_val y) < 256.
Proof.
  pose proof (byte_val_range x) as Hx. pose proof (byte_val_range y) as Hy.
  apply below_256_log2; [apply Z.lxor_nonneg; lia|].
  pose proof (Z.log2_lxor (byte_val x) (byte_val y) ltac:(lia) ltac:(lia)).
  pose proof (log2_below_256 _ Hx). pose proof (log2_below_256 _ Hy). lia.
Qed.

Lemma memequal_loop_range p1 p2 len res :
  0 <= res < 256 -> 0 <= memequal_loop p1 p2 len res < 256.
Proof.
  revert res. induction len as [|len IH]; intros res Hr; simpl; [done|].
  apply IH, lor_byte_range; [done|apply lxor_byte_range].
Qed.

(** The accumulator is zero exactly when no byte differs. *)
Lemma memequal_loop_zero p1 p2 len res :
  memequal_loop p1 p2 len res = 0 <->
  res = 0 /\ forall i, (i < len)%nat -> p1 !!! i = p2 !!! i.
Proof.
  revert res. induction len as [|len IH]; intros res; simpl.
  { split; [|by intros [? _]]. intros ->. split; [done|lia]. }
  rewrite IH, Z.lor_eq_0_iff, Z.lxor_eq_0_iff. split.
  - intros [[? E] Hi]. split; [done|]. intros i Hlt.
    destruct (decide (i = len)) as [->|]; [by apply byte_val_inj|apply Hi; lia].
  - intros [? Hi]. rewrite (Hi len) by lia. naive_solver.
Qed.

Lemma take_lookup_total_eq (b1 b2 : list byte) l :
  (l <= length b1)%nat -> (l <= length b2)%nat ->
  (forall i, (i < l)%nat -> take l b1 !!! i = take l b2 !!! i) <->
  take l b1 = take l b2.
Proof.
  intros H1 H2. split; [|by intros ->]. intros Hi. apply list_eq_same_length with l.
  - by rewrite length_take_le.
  - by rewrite length_take_le.
  - intros i x y Hlt Hx Hy. specialize (Hi i ltac:(done)).
    by rewrite !list_lookup_total_alt, Hx, Hy in Hi.
Qed.

(** The final arithmetic maps 0 to 1 and 1..255 to 0. *)
Lemma memequal_map res : 0 <= res < 256 ->
  Z.land 1 (Z.shiftr (swrap 32 (res - 1)) 8) = if res =? 0 then 1 else 0.
Proof.
  intros Hr. rewrite swrap_small by (simpl; lia).
  destruct (Z.eqb_spec res 0) as [->|]; [done|].
  rewrite Z.shiftr_div_pow2 by lia.
  by rewrite (Z.div_small (res - 1)) by (simpl; lia).
Qed.

Lemma consttime_memequal_spec b1 b2 l :
  (l <= length b1)%nat -> (l <= length b2)%nat ->
  consttime_memequal b1 b2 l = if decide (take l b1 = take l b2) then 1 else 0.
Proof.
  intros H1 H2. unfold consttime_memequal.
  pose proof (memequal_loop_range (take l b1) (take l b2) l 0 ltac:(lia)).
  rewrite memequal_map by done.
  pose proof (memequal_loop_zero (take l b1) (take l b2) l 0) as Hz.
  rewrite take_lookup_total_eq in Hz by done.
  destruct (Z.eqb_spec (memequal_loop (take l b1) (take l b2) l 0) 0); case_decide; naive_solver.
Qed.

Lemma consttime_memeq_iff {T} `{ContiguousMemoryLaws T} (x y : T) :
  mem_ok x -> mem_ok y -> 0 <= size_of T ->
  consttime_memeq x y = true <-> as_bytes x = as_bytes y.
Proof.
  intros Hx Hy Hs. apply as_bytes_length in Hx, Hy. unfold zlen in Hx, Hy.
  unfold consttime_memeq.
  destruct (Nat.eqb_spec (Z.to_nat (size_of T)) 0) as [E|E].
  { split; [|done]. intros _. by rewrite (nil_length_inv (as_bytes x)),
      (nil_length_inv (as_bytes y)) by lia. }
  rewrite consttime_memequal_spec by lia. rewrite !take_ge by lia.
  case_decide; naive_solver.
Qed.

Lemma consttime_memeq_array n (x y : list byte) :
  length x = n -> length y = n ->
  @consttime_memeq _ (array_mem n) x y = bool_decide (x = y).
Proof.
  intros Hx Hy. pose proof (array_mem_laws n).
  pose proof (@consttime_memeq_iff _ (array_mem n) _ x y Hx Hy ltac:(simpl; lia)) as E.
  simpl in E. unfold id in E. apply Bool.eq_iff_eq_true. rewrite E.
  by rewrite bool_decide_eq_true.
Qed.

(** Constant-time comparison decides byte equality: on two well-formed
    values of a contiguous type, [consttime_memeq] is [true] exactly when
    their memory images are equal, and [consttime_memne] is its negation. *)
Theorem consttime_memeq_spec {T} `{ContiguousMemoryLaws T} (x y : T) :
  mem_ok x -> mem_ok y -> 0 <= size_of T ->
  (consttime_memeq x y = true <-> as_bytes x = as_bytes y) /\
  (consttime_memne x y = true <-> as_bytes x <> as_bytes y).
Proof.
  intros Hx Hy Hs. pose proof (consttime_memeq_iff x y Hx Hy Hs) as E. split; [done|].
  unfold consttime_memne. rewrite negb_true_iff, <- not_true_iff_false. by rewrite E.
Qed.

(** Two MACs that differ in the last byte. *)
Lemma consttime_memeq_spec_witness :
  let x := zeros 16 in let y := zeros 15 ++ [Byte.x01] in
  (@consttime_memeq _ (array_mem 16) x y = true <-> x = y) /\
  (@consttime_memne _ (array_mem 16) x y = true <-> x <> y).
Proof.
  exact (@consttime_memeq_spec (list byte) (array_mem 16) (array_mem_laws 16)
    (zeros 16) (zeros 15 ++ [Byte.x01]) eq_refl eq_refl ltac:(done)).
Defined.

End Memeq.
