(* ===== verification/TrtsEnclave.v ===== *)
(** TrtsEnclave: what an enclave knows of itself, sgx_trts/src/enclave.rs, and the
    features of its processor, sgx_trts/src/cpu_feature.rs.

    The C symbols that the linker provides are the class [Symbols].  The layout
    table is as in memory: an entry is the 32 bytes of the union [layout_t], read as
    an entry or as a group.  [traversal_layout] recurses on a proper sub-slice; its
    fuel is one more than the length of the table, which is enough
    ([traversal_layout_fuel]).  The counters are [u32]s that wrap. *)
From Stdlib Require Import ZArith Lia Strings.Byte.
From stdpp Require Import base numbers list option tactics.
From S2P Require Import Prelude.

(** * The layout table *)
Definition layout_t : Type := list byte.

(** A field of the union: [n] bytes at offset [i] *)
Definition layout_field (i n : nat) (l : layout_t) : Z := le_val (take n (drop i l)).
Definition entry_id (l : layout_t) : Z := layout_field 0 2 l.
Definition entry_attributes (l : layout_t) : Z := layout_field 2 2 l.
Definition entry_content_offset (l : layout_t) : Z := layout_field 20 4 l.
Definition entry_si_flags (l : layout_t) : Z := layout_field 24 8 l.
Definition group_id (l : layout_t) : Z := layout_field 0 2 l.
Definition group_entry_count (l : layout_t) : Z := layout_field 2 2 l.
Definition group_load_times (l : layout_t) : Z := layout_field 4 4 l.

Definition GROUP_FLAG : Z := 2 ^ 12.
Definition is_group_id (gid : Z) : bool := negb (Z.land gid GROUP_FLAG =? 0).
Definition LAYOUT_ID_TCS_DYN : Z := 14.
Definition PAGE_ATTR_EADD : Z := 1.
Definition PAGE_ATTR_EREMOVE : Z := 4.
Definition PAGE_ATTR_POST_ADD : Z := 8.
Definition SI_FLAGS_TCS : Z := 256.
Definition LAYOUT_ENTRY_NUM : nat := 42.

(** The three counters *)
Record tcs_num := { static_num : Z; eremove_num : Z; dyn_num : Z }.
Definition no_tcs : tcs_num := {| static_num := 0; eremove_num := 0; dyn_num := 0 |}.

(** What one entry adds *)
Definition is_eadd_tcs (l : layout_t) : bool :=
  negb (Z.land (entry_attributes l) PAGE_ATTR_EADD =? 0)
  && (negb (entry_content_offset l =? 0) && (entry_si_flags l =? SI_FLAGS_TCS)).
Definition is_eremove (l : layout_t) : bool := negb (Z.land (entry_attributes l) PAGE_ATTR_EREMOVE =? 0).
Definition is_dyn_tcs (l : layout_t) : bool :=
  negb (Z.land (entry_attributes l) PAGE_ATTR_POST_ADD =? 0) && (entry_id l =? LAYOUT_ID_TCS_DYN).
Definition count_entry (l : layout_t) (c : tcs_num) : tcs_num :=
  let c :=
    if is_eadd_tcs l then
      if negb (is_eremove l) then
        {| static_num := wrap 32 (static_num c + 1); eremove_num := eremove_num c; dyn_num := dyn_num c |}
      else
        {| static_num := static_num c; eremove_num := wrap 32 (eremove_num c + 1); dyn_num := dyn_num c |}
    else c in
  if is_dyn_tcs l then
    {| static_num := static_num c; eremove_num := eremove_num c; dyn_num := wrap 32 (dyn_num c + 1) |}
  else c.

(** [for _ in 0..n] *)
Fixpoint times {A} (n : nat) (body : A -> panics A) (a : A) : panics A :=
  match n with
  | O => Done a
  | S n => panics_bind (body a) (times n body)
  end.

(** The loop of [traversal_layout]: [before] is what it has passed of the table.  The
    entries of a group are the last [entry_count] of them; the slice panics when
    there are not so many. *)
Fixpoint traversal_loop (traversal : list layout_t -> tcs_num -> panics tcs_num)
    (before rest : list layout_t) (c : tcs_num) : panics tcs_num :=
  match rest with
  | [] => Done c
  | layout :: rest =>
      panics_bind
        (if negb (is_group_id (group_id layout)) then Done (count_entry layout c)
         else
           times (Z.to_nat (group_load_times layout)) (fun c =>
             let count := Z.to_nat (group_entry_count layout) in
             if (count <=? length before)%nat then
               traversal (drop (length before - count) before) c
             else Panic) c)
        (traversal_loop traversal (before ++ [layout]) rest)
  end.
Fixpoint traversal_layout (fuel : nat) (layout_table : list layout_t) (c : tcs_num) : panics tcs_num :=
  match fuel with
  | O => Panic
  | S fuel => traversal_loop (traversal_layout fuel) [] layout_table c
  end.

(** * Global data *)

(** The templates of a thread's data and TCS are kept as bytes.  The table has
    [LAYOUT_ENTRY_NUM] slots, of which [layout_entry_num] are in use. *)
Record global_data_t := {
  sdk_version : Z;
  enclave_size : Z;
  heap_offset : Z;
  heap_size : Z;
  rsrv_offset : Z;
  rsrv_size : Z;
  rsrv_executable : Z;
  thread_policy : Z;
  tcs_max_num : Z;
  tcs_num_all : Z;
  td_template : list byte;
  tcs_template : list byte;
  layout_entry_num : Z;
  reserved : Z;
  layout_table : list layout_t;
  enclave_image_address : Z;
  elrange_start_address : Z;
  elrange_size : Z
}.

(** [g_global_data], [EDMM_supported] and the C functions of the runtime *)
Class Symbols := {
  g_global_data : global_data_t;
  EDMM_supported : Z;
  g_cpu_feature_indicator : Z;
  get_enclave_base : Z;
  get_heap_base : Z;
  get_heap_size : Z;
  get_rsrv_base : Z;
  get_rsrv_size : Z
}.

Inductive SgxThreadPolicy := Bound | Unbound.

Section symbols.
Context `{Symbols}.

Definition rsgx_get_thread_policy : SgxThreadPolicy :=
  if negb (thread_policy g_global_data =? 0) then Unbound else Bound.
Definition rsgx_is_supported_EDMM : bool := negb (EDMM_supported =? 0).
Definition rsgx_get_tcs_max_num : Z :=
  if negb (EDMM_supported =? 0) then wrap 32 (tcs_max_num g_global_data)
  else wrap 32 (tcs_num_all g_global_data).

Definition rsgx_get_tcs_num : panics (Z * Z * Z) :=
  let n := Z.to_nat (layout_entry_num g_global_data) in
  if (n <=? length (layout_table g_global_data))%nat then
    let table := take n (layout_table g_global_data) in
    panics_bind (traversal_layout (S (length table)) table no_tcs) (fun c =>
    Done (static_num c, eremove_num c, dyn_num c))
  else Panic.

Record SgxGlobalData := {
  gd_enclave_base : Z; gd_enclave_size : Z;
  gd_heap_base : Z; gd_heap_offset : Z; gd_heap_size : Z;
  gd_rsrv_base : Z; gd_rsrv_offset : Z; gd_rsrv_size : Z;
  gd_thread_policy : SgxThreadPolicy;
  gd_static_tcs_num : Z; gd_eremove_tcs_num : Z; gd_dyn_tcs_num : Z; gd_max_tcs_num : Z;
  gd_elrange_base : Z; gd_elrange_size : Z
}.
Definition SgxGlobalData_new : panics SgxGlobalData :=
  panics_bind rsgx_get_tcs_num (fun '(static_num, eremove_num, dyn_num) =>
  Done {|
    gd_enclave_base := get_enclave_base; gd_enclave_size := enclave_size g_global_data;
    gd_heap_base := get_heap_base; gd_heap_offset := heap_offset g_global_data;
    gd_heap_size := get_heap_size;
    gd_rsrv_base := get_rsrv_base; gd_rsrv_offset := rsrv_offset g_global_data;
    gd_rsrv_size := get_rsrv_size;
    gd_thread_policy := rsgx_get_thread_policy;
    gd_static_tcs_num := static_num; gd_eremove_tcs_num := eremove_num;
    gd_dyn_tcs_num := dyn_num; gd_max_tcs_num := rsgx_get_tcs_max_num;
    gd_elrange_base := elrange_start_address g_global_data;
    gd_elrange_size := elrange_size g_global_data |}).

(** * Processor features: [Feature] as its discriminant *)
Definition feature_end : Z := 57.
Definition get_feature_bit (id : Z) : Z :=
  if (0 <? id) && (id <? feature_end) then Z.shiftl 1 (id - 1) else 0.
Definition check_for (fid : Z) : bool :=
  negb (Z.land (get_feature_bit fid) g_cpu_feature_indicator =? 0).
End symbols.

(** A feature is supported exactly when its bit of the indicator is set; each has a
    bit of its own within the 64. *)
Theorem check_for_bit `{Symbols} fid :
  check_for fid = (0 <? fid) && (fid <? feature_end) && Z.testbit g_cpu_feature_indicator (fid - 1).
Proof.
  unfold check_for, get_feature_bit, feature_end.
  destruct ((0 <? fid) && (fid <? 57)) eqn:E; [|by rewrite Z.land_0_l].
  apply andb_true_iff in E as [? ?]. rewrite Z.shiftl_1_l, andb_true_l.
  destruct (Z.testbit g_cpu_feature_indicator (fid - 1)) eqn:Eb.
  - apply negb_true_iff, Z.eqb_neq. intros E0.
    apply (f_equal (fun z => Z.testbit z (fid - 1))) in E0.
    rewrite Z.land_spec, Z.bits_0, Eb, Z.pow2_bits_true in E0 by lia. done.
  - apply negb_false_iff, Z.eqb_eq. apply Z.bits_inj'. intros n Hn.
    rewrite Z.land_spec, Z.bits_0, Z.pow2_bits_eqb by lia.
    destruct (Z.eqb_spec (fid - 1) n) as [<-|]; [|done]. by rewrite Eb.
Qed.

(** * What the traversal counts *)

(** The table as the loader reads it: a group stands for [load_times] copies of the
    entries before it *)
Fixpoint expand (before rest : list layout_t) : list layout_t :=
  match rest with
  | [] => []
  | l :: rest =>
      (if is_group_id (group_id l) then
         mjoin (replicate (Z.to_nat (group_load_times l))
           (drop (length before - Z.to_nat (group_entry_count l)) before))
       else [l]) ++ expand (before ++ [l]) rest
  end.

(** Every group has the entries it repeats before it, and they are no groups. *)
Fixpoint groups_ok (before rest : list layout_t) : bool :=
  match rest with
  | [] => true
  | l :: rest =>
      (if is_group_id (group_id l) then
         (Z.to_nat (group_entry_count l) <=? length before)%nat
         && forallb (fun e => negb (is_group_id (group_id e)))
              (drop (length before - Z.to_nat (group_entry_count l)) before)
       else true)
      && groups_ok (before ++ [l]) rest
  end.

Definition count_all (ls : list layout_t) (c : tcs_num) : tcs_num := foldl (fun c l => count_entry l c) c ls.

Lemma count_all_app k l c : count_all (k ++ l) c = count_all l (count_all k c).
Proof. apply foldl_app. Qed.

(** Entries without groups are counted one by one. *)
Lemma traversal_entries f before ls c :
  forallb (fun e => negb (is_group_id (group_id e))) ls = true ->
  traversal_loop f before ls c = Done (count_all ls c).
Proof.
  revert before c. induction ls as [|l ls IH]; intros before c Hl; [done|].
  simpl in Hl. apply andb_true_iff in Hl as [Hl Hls]. cbn [traversal_loop].
  rewrite Hl. cbn [panics_bind]. by rewrite IH.
Qed.

Lemma times_run {A} n (body : A -> panics A) (g : A -> A) a :
  (forall x, body x = Done (g x)) -> times n body a = Done (Nat.iter n g a).
Proof.
  intros Hb. revert a. induction n as [|n IH]; intros a; [done|].
  cbn [times]. rewrite Hb. cbn [panics_bind]. rewrite IH. by rewrite Nat.iter_succ_r.
Qed.

Lemma count_all_copies n ls c : Nat.iter n (count_all ls) c = count_all (mjoin (replicate n ls)) c.
Proof.
  revert c. induction n as [|n IH]; intros c; [done|].
  rewrite Nat.iter_succ_r, IH. cbn [replicate mjoin list_join]. by rewrite count_all_app.
Qed.

Lemma times_ext {A} n (f g : A -> panics A) a : (forall x, f x = g x) -> times n f a = times n g a.
Proof.
  intros E. revert a. induction n as [|n IH]; intros a; [done|]. cbn [times]. rewrite E.
  destruct (g a); cbn [panics_bind]; [apply IH|done].
Qed.

Lemma traversal_loop_ext f g before rest c :
  (forall t x, (length t < length before + length rest)%nat -> f t x = g t x) ->
  traversal_loop f before rest c = traversal_loop g before rest c.
Proof.
  revert before c. induction rest as [|l rest IH]; intros before c E; [done|]. cbn [traversal_loop].
  assert (forall x : tcs_num, traversal_loop f (before ++ [l]) rest x = traversal_loop g (before ++ [l]) rest x) as E'.
  { intros x. apply IH. intros t y Ht. apply E. rewrite length_app in Ht. simpl in *. lia. }
  destruct (negb _); [apply E'|].
  match goal with |- panics_bind (times ?n ?F c) _ = panics_bind (times _ ?G c) _ =>
    rewrite (times_ext n F G c) end.
  - destruct (times _ _ _); cbn [panics_bind]; [apply E'|done].
  - intros x. cbn beta. destruct (_ <=? _)%nat; [|done]. apply E. rewrite length_drop. simpl. lia.
Qed.

(** The fuel is enough, whatever the table: any amount above the length of the
    table gives the same outcome, nested groups included. *)
Lemma traversal_layout_fuel f1 f2 t c : (length t < f1)%nat -> (length t < f2)%nat ->
  traversal_layout f1 t c = traversal_layout f2 t c.
Proof.
  revert f2 t c. induction f1 as [|f1 IH]; intros f2 t c H1 H2; [lia|].
  destruct f2 as [|f2]; [lia|]. cbn [traversal_layout]. apply traversal_loop_ext.
  intros t' x Ht. simpl in Ht. apply IH; lia.
Qed.

Lemma traversal_loop_spec fuel before rest c : groups_ok before rest = true ->
  traversal_loop (traversal_layout (S fuel)) before rest c = Done (count_all (expand before rest) c).
Proof.
  revert before c. induction rest as [|l rest IH]; intros before c Hok; [done|].
  cbn [groups_ok expand traversal_loop] in *. apply andb_true_iff in Hok as [Hl Hok].
  rewrite count_all_app. destruct (is_group_id (group_id l)); cbn [negb].
  - apply andb_true_iff in Hl as [Hc Hg].
    erewrite times_run; [cbn [panics_bind]; by rewrite IH, count_all_copies|].
    intros x. cbn beta. rewrite Hc. cbn [traversal_layout]. by apply traversal_entries.
  - cbn [panics_bind]. by rewrite IH.
Qed.

(** How many entries of a kind there are *)
Definition tally (p : layout_t -> bool) (ls : list layout_t) : Z :=
  zlen (base.filter (fun l => p l = true) ls).

Lemma tally_cons p l ls : tally p (l :: ls) = (if p l then 1 else 0) + tally p ls.
Proof. unfold tally, zlen. rewrite filter_cons. destruct (p l); simpl; lia. Qed.

Lemma count_all_tally ls c :
  0 <= static_num c < 2 ^ 32 -> 0 <= eremove_num c < 2 ^ 32 -> 0 <= dyn_num c < 2 ^ 32 ->
  count_all ls c =
    {| static_num := wrap 32 (static_num c + tally (fun l => is_eadd_tcs l && negb (is_eremove l)) ls);
       eremove_num := wrap 32 (eremove_num c + tally (fun l => is_eadd_tcs l && is_eremove l) ls);
       dyn_num := wrap 32 (dyn_num c + tally is_dyn_tcs ls) |}.
Proof.
  revert c. induction ls as [|l ls IH]; intros c Hs He Hd.
  { destruct c. unfold tally. cbn in *. by rewrite !Z.add_0_r, !wrap_small by lia. }
  change (count_all (l :: ls) c) with (count_all ls (count_entry l c)).
  pose proof (wrap_range 32) as Hw. rewrite IH.
  2-4: unfold count_entry; destruct (is_eadd_tcs l), (is_eremove l), (is_dyn_tcs l); cbn; auto with lia.
  rewrite !tally_cons. unfold count_entry, wrap.
  destruct (is_eadd_tcs l), (is_eremove l), (is_dyn_tcs l); cbn [andb negb static_num eremove_num dyn_num];
    f_equal; rewrite ?Zplus_mod_idemp_l; f_equal; lia.
Qed.

(** The numbers of thread control structures that the code reports are those of the
    table as the loader expands it (groups that repeat earlier entries included),
    modulo 2^32: the loaded ones that stay, those that are removed after start, and
    those that are added later; and the traversal does not panic. *)
Theorem rsgx_get_tcs_num_spec `{Symbols} :
  (Z.to_nat (layout_entry_num g_global_data) <= length (layout_table g_global_data))%nat ->
  let table := take (Z.to_nat (layout_entry_num g_global_data)) (layout_table g_global_data) in
  groups_ok [] table = true ->
  rsgx_get_tcs_num =
    Done (wrap 32 (tally (fun l => is_eadd_tcs l && negb (is_eremove l)) (expand [] table)),
          wrap 32 (tally (fun l => is_eadd_tcs l && is_eremove l) (expand [] table)),
          wrap 32 (tally is_dyn_tcs (expand [] table))).
Proof.
  intros Hn table Hok. unfold rsgx_get_tcs_num. rewrite (proj2 (Nat.leb_le _ _)) by done.
  fold table. cbn [traversal_layout].
  assert (exists f, length table = f /\ (f = O -> table = [])) as (f & Hf & Hnil).
  { exists (length table). split; [done|]. apply nil_length_inv. }
  rewrite Hf. destruct f as [|f].
  - by rewrite Hnil.
  - rewrite traversal_loop_spec by done. cbn [panics_bind].
    rewrite count_all_tally by (cbn; lia). done.
Qed.

(** A table with one thread and a group that repeats it three times *)
Example thread_group_counts :
  let tcs := le_bytes 2 4 ++ le_bytes 2 PAGE_ATTR_EADD ++ le_bytes 4 1 ++ le_bytes 8 0
             ++ le_bytes 4 72 ++ le_bytes 4 1 ++ le_bytes 8 SI_FLAGS_TCS in
  let dyn := le_bytes 2 LAYOUT_ID_TCS_DYN ++ le_bytes 2 PAGE_ATTR_POST_ADD ++ zeros 28 in
  let group := le_bytes 2 (Z.lor GROUP_FLAG 9) ++ le_bytes 2 2 ++ le_bytes 4 3 ++ zeros 24 in
  groups_ok [] [tcs; dyn; group] = true /\
  traversal_layout 4 [tcs; dyn; group] no_tcs = Done {| static_num := 4; eremove_num := 0; dyn_num := 4 |}.
Proof. vm_compute. done. Qed.
