(* ===== verification/AlignAlloc.v ===== *)
(** AlignAlloc: memory for secrets, sgx_alloc/src/alignalloc.rs and alignbox.rs.

    The first bytes of a cache line can leak (INTEL-SA-00219), so the allocator
    places an object such that the bytes its caller names ([AlignReq]) are not
    there.  It computes a padding from a bitmap of the named bytes modulo 64, asks
    [malloc] for a larger block, and keeps the address of the block in the eight
    bytes before the object.

    The heap is a list of live blocks (address and size), the contents of memory and
    a flag that an access left every live block, or that an address was freed that
    is no block.  Where [malloc] puts a block is the parameter [Malloc].  A panic
    ends the enclave.  [i64] values are signed, [u64] and [usize] values not. *)
From Stdlib Require Import ZArith Lia Strings.Byte.
From stdpp Require Import base numbers list option tactics.
From S2P Require Import Prelude.

(** * The heap *)
Record heap := { h_live : list (Z * Z); h_mem : Z -> byte; h_fault : bool }.

Definition inside (a n : Z) (b : Z * Z) : bool := (b.1 <=? a) && (a + n <=? b.1 + b.2).

Definition in_block (h : heap) (a n : Z) : bool := existsb (inside a n) (h_live h).

Definition put (m : Z -> byte) (a : Z) (bs : list byte) : Z -> byte := fun x =>
  if (a <=? x) && (x <? a + zlen bs) then bs !!! Z.to_nat (x - a) else m x.

Definition get (m : Z -> byte) (a : Z) (n : nat) : list byte := (fun i => m (a + Z.of_nat i)) <$> seq 0 n.

(** Where the C library puts a block of [n] bytes; 0 is its failure. *)
Class Malloc := { pick : heap -> Z -> Z }.

(** A program on the heap; a panic ends it. *)
Definition M (A : Type) : Type := heap -> panics (A * heap).
#[export] Instance m_ret : MRet M := fun _ a h => Done (a, h).
#[export] Instance m_bind : MBind M := fun _ _ k m h =>
  match m h with Done (a, h') => k a h' | Panic => Panic end.

Definition lift {A} (p : panics A) : M A := fun h => match p with Done a => Done (a, h) | Panic => Panic end.

Definition store (a : Z) (bs : list byte) : M unit := fun h => Done (tt,
  {| h_live := h_live h; h_mem := put (h_mem h) a bs;
     h_fault := h_fault h || negb (in_block h a (zlen bs)) |}).

(** A store through a pointer into the block at [base] *)
Definition in_block_at (h : heap) (base a n : Z) : bool :=
  existsb (fun b => (b.1 =? base) && inside a n b) (h_live h).

Definition store_at (base a : Z) (bs : list byte) : M unit := fun h => Done (tt,
  {| h_live := h_live h; h_mem := put (h_mem h) a bs;
     h_fault := h_fault h || negb (in_block_at h base a (zlen bs)) |}).

Definition load (a : Z) (n : nat) : M (list byte) := fun h => Done (get (h_mem h) a n,
  {| h_live := h_live h; h_mem := h_mem h; h_fault := h_fault h || negb (in_block h a (Z.of_nat n)) |}).

Definition malloc `{Malloc} (n : Z) : M Z := fun h =>
  let a := pick h n in
  if a =? 0 then Done (0, h)
  else Done (a, {| h_live := (a, n) :: h_live h; h_mem := h_mem h; h_fault := h_fault h |}).

Definition free (a : Z) : M unit := fun h =>
  if a =? 0 then Done (tt, h)
  else Done (tt, {| h_live := filter (fun b => b.1 <> a) (h_live h); h_mem := h_mem h;
                    h_fault := h_fault h || negb (existsb (fun b => b.1 =? a) (h_live h)) |}).

(** * Layouts *)
Record Layout := { l_size : Z; l_align : Z }.
Record AlignReq := { r_offset : Z; r_len : Z }.
Inductive AlignLayoutErr := LayoutErr.
Inductive AlighAllocErr := AllocErr.

Definition is_power_of_two (n : Z) : bool := bool_decide (n = 2 ^ Z.log2 n).

(** [Layout::from_size_align] *)
Definition from_size_align (size align : Z) : option Layout :=
  if negb (is_power_of_two align) then None
  else if size >? usize_max - (align - 1) then None
  else Some {| l_size := size; l_align := align |}.

Definition check_layout (layout : Layout) : bool :=
  negb ((l_size layout =? 0) || negb (is_power_of_two (l_align layout))
        || (l_size layout >? usize_max - (l_align layout - 1))).

(** * The bitmap *)

(** [(0 - c as isize) as usize] *)
Definition usize_neg (c : Z) : Z := wrap 64 (swrap 64 (0 - swrap 64 c)).

(** [__rol] *)
Definition rol_masked (v c m : Z) : Z :=
  Z.lor (wrap 64 (Z.shiftl v (Z.land c m))) (Z.shiftr v (Z.land (usize_neg c) m)).

Definition rol (v c : Z) : Z := swrap 64 (rol_masked (wrap 64 v) c (8 * 8 - 1)).

Definition ror (v c : Z) : Z := rol v (usize_neg c).

(** The recursive functions have a bound on their depth, beyond which the stack
    ends; the theorems show that none comes near it. *)
Fixpoint gen_alignmask (depth : nat) (al a m : Z) : panics Z :=
  match depth with
  | O => Panic
  | S depth =>
      if a >? al then gen_alignmask depth al (Z.shiftr a 1) (Z.lor m (Z.shiftr m (Z.shiftr a 1)))
      else Done (swrap 64 m)
  end.

Fixpoint count_lzb (depth : nat) (bmp : Z) : panics Z :=
  match depth with
  | O => Panic
  | S depth =>
      if bmp =? 0 then Done (-1)
      else if bmp <? 0 then Done 0
      else panics_bind (count_lzb depth (swrap 64 (Z.shiftl bmp 1))) (fun n => Done (n + 1))
  end.

Definition depth : nat := 100.

(** The paddings that would bring a byte of [bmp] to a place that leaks *)
Definition taken (bmp : Z) : Z :=
  Z.lor (ror (Z.lor (Z.lor (Z.lor bmp (ror bmp 1)) (ror bmp 2)) (ror bmp 3)) 5) (ror bmp 1).

Definition calc_lspc (al bmp : Z) : panics Z :=
  if negb (is_power_of_two al) then Done (-2)
  else panics_bind (gen_alignmask depth al (8 * 8) (Z.shiftl 1 (8 * 8 - 1)))
    (fun mask => count_lzb depth (Z.land (Z.lnot (taken bmp)) mask)).

(** [__calc_algn] *)
Fixpoint halve_align (depth : nat) (size a : Z) : panics Z :=
  match depth with
  | O => Panic
  | S depth => if (a >? 8) && (size <=? a / 2) then halve_align depth size (a / 2) else Done a
  end.

Definition calc_algn (al size : Z) : panics Z :=
  if al >? 64 then Done al else halve_align depth size (8 * 8).

Fixpoint bitmap_loop (align_req : list AlignReq) (bmp : Z) : Z :=
  match align_req with
  | [] => bmp
  | req :: align_req =>
      if r_len req >? 63 then -1
      else bitmap_loop align_req
        (Z.lor bmp (rol (swrap 64 (swrap 64 (Z.shiftl 1 (r_len req)) - 1)) (r_offset req)))
  end.
Definition make_bitmap (align_req : list AlignReq) : Z := bitmap_loop align_req 0.

(** * Checking the requests *)
Definition check_overflow (buf len : Z) : bool := usize_max <? buf + len.

(** The loop over the bytes of one request; [None]: a byte is marked already. *)
Fixpoint mark (count : nat) (offset : Z) (bmp : list Z) : panics (option (list Z)) :=
  match count with
  | O => Done (Some bmp)
  | S count =>
      match bmp !! Z.to_nat (offset / 8) with
      | None => Panic
      | Some b =>
          if negb (Z.land b (Z.shiftl 1 (offset `mod` 8)) =? 0) then Done None
          else mark count (offset + 1)
                 (<[Z.to_nat (offset / 8) := Z.lor b (Z.shiftl 1 (offset `mod` 8))]> bmp)
      end
  end.

Fixpoint check_reqs (size : Z) (align_req : list AlignReq) (bmp : list Z) : panics bool :=
  match align_req with
  | [] => Done true
  | req :: align_req =>
      if check_overflow (r_offset req) (r_len req) || (wrap 64 (r_offset req + r_len req) >? size)
      then Done false
      else panics_bind (mark (Z.to_nat (r_len req)) (r_offset req) bmp) (fun o =>
        match o with None => Done false | Some bmp => check_reqs size align_req bmp end)
  end.

Section platform.
Context `{Malloc}.

Definition check_align_req (size : Z) (align_req : list AlignReq) : M bool :=
  if bool_decide (align_req = []) then mret false
  else
    let len := wrap 64 (size + 7) / 8 in
    ptr ← malloc len;
    if ptr =? 0 then mret false
    else
      _ ← store_at ptr ptr (zeros (Z.to_nat len));
      ok ← lift (check_reqs size align_req (replicate (Z.to_nat len) 0));
      if (ok : bool) then mret true
      else (_ ← free ptr; mret false).

Definition padding_needed_for (layout : Layout) (align_req : list AlignReq) : M (result AlignLayoutErr Z) :=
  if negb (check_layout layout) then mret (Err LayoutErr)
  else
    ok ← check_align_req (l_size layout) align_req;
    if negb ok then mret (Err LayoutErr)
    else
      offset ← lift (calc_lspc (l_align layout) (make_bitmap align_req));
      mret (if offset <? 0 then Err LayoutErr else Ok offset).

Definition align_needed_for (layout : Layout) (offset : Z) : panics Z :=
  calc_algn (l_align layout) (wrap 64 (l_size layout + offset)).

Definition pad_align_to (layout : Layout) (align_req : list AlignReq) : M (result AlignLayoutErr Layout) :=
  r ← padding_needed_for layout align_req;
  match r with
  | Err e => mret (Err e)
  | Ok pad =>
      align ← lift (align_needed_for layout pad);
      mret (match from_size_align (wrap 64 (pad + align + l_size layout)) align with
            | Some l => Ok l
            | None => Err LayoutErr
            end)
  end.

(** * Blocks *)
Definition make_aligned_ptr (raw align offset : Z) : Z :=
  wrap 64 (Z.land (wrap 64 (raw + align - 1)) (unot 64 (align - 1)) + offset).

Definition alloc_with_pad_align_in (zeroed : bool) (layout align_layout : Layout) : M Z :=
  if negb (check_layout layout) then mret 0
  else if negb (check_layout align_layout) then mret 0
  else if l_size align_layout <? wrap 64 (l_size layout + l_align align_layout) then mret 0
  else
    let pad := wrap 64 (l_size align_layout - l_align align_layout - l_size layout) in
    raw ← malloc (wrap 64 (l_size align_layout + 8));
    if raw =? 0 then mret raw
    else
      _ ← (if zeroed then store_at raw raw (zeros (Z.to_nat (l_size align_layout))) else mret tt);
      let ptr := make_aligned_ptr raw (l_align align_layout) pad in
      _ ← store_at raw (ptr - 8) (le_bytes 8 raw);
      mret ptr.

Definition alloc_with_pad_align : Layout -> Layout -> M Z := alloc_with_pad_align_in false.
Definition alloc_with_pad_align_zeroed : Layout -> Layout -> M Z := alloc_with_pad_align_in true.

Definition whole (layout : Layout) : list AlignReq := [{| r_offset := 0; r_len := l_size layout |}].

Definition alloc_with_req_in (zeroed : bool) (layout : Layout) (align_req : list AlignReq) : M Z :=
  if negb (check_layout layout) then mret 0
  else
    r ← (if bool_decide (align_req = []) then pad_align_to layout (whole layout)
         else pad_align_to layout align_req);
    match r with
    | Ok align_layout => alloc_with_pad_align_in zeroed layout align_layout
    | Err _ => mret 0
    end.

Definition alloc_with_req : Layout -> list AlignReq -> M Z := alloc_with_req_in false.
Definition alloc_with_req_zeroed : Layout -> list AlignReq -> M Z := alloc_with_req_in true.
Definition alloc (layout : Layout) : M Z := alloc_with_req layout (whole layout).
Definition alloc_zeroed (layout : Layout) : M Z := alloc_with_req_zeroed layout (whole layout).

Definition dealloc (ptr : Z) : M unit :=
  raw ← load (ptr - 8) 8;
  free (le_val raw).

(** [NonNull::new(p).ok_or(AlighAllocErr)] *)
Definition non_null (p : Z) : result AlighAllocErr Z := if p =? 0 then Err AllocErr else Ok p.
End platform.

(** * AlignBox *)
Module Box.
Section box.
Context `{Malloc}.

(** [size_of::<T>()], [align_of::<T>()] and [T::clone], on the bytes of a value *)
Context (size_of align_of : Z) (clone_value : list byte -> list byte).

Record AlignBox := { b_ptr : Z; align_layout : Layout; origin_layout : Layout }.

(** [handle_alloc_error] ends the enclave. *)
Definition or_abort (m : M Z) : M Z :=
  p ← m;
  match non_null p with Ok p => mret p | Err _ => lift Panic end.

Definition allocate_in (zeroed : bool) (align : Z) (align_req : list AlignReq) : M (option AlignBox) :=
  if size_of =? 0 then mret None
  else match from_size_align size_of align with
  | None => mret None
  | Some layout =>
      r ← pad_align_to layout align_req;
      match r with
      | Err _ => mret None
      | Ok al =>
          ptr ← or_abort (if zeroed then alloc_with_req_zeroed layout align_req else alloc_with_req layout align_req);
          mret (Some {| b_ptr := ptr; align_layout := al; origin_layout := layout |})
      end
  end.

Definition all_bytes : list AlignReq := [{| r_offset := 0; r_len := size_of |}].
Definition new_in : M (option AlignBox) := allocate_in true align_of all_bytes.
Definition new_with_align_in (align : Z) : M (option AlignBox) := allocate_in true align all_bytes.
Definition new_with_req_in (align : Z) (align_req : list AlignReq) : M (option AlignBox) :=
  if bool_decide (align_req = []) then new_in else allocate_in true align align_req.

(** [heap_init_with_req]: [initialize] writes the value in place. *)
Definition heap_init_with_req (initialize : list byte -> list byte) (align : Z) (align_req : list AlignReq) :
  M (option AlignBox) :=
  t ← new_with_req_in align align_req;
  match t with
  | None => mret None
  | Some b =>
      v ← load (b_ptr b) (Z.to_nat size_of);
      _ ← store (b_ptr b) (initialize v);
      mret (Some b)
  end.

Definition clone (self : AlignBox) : M AlignBox :=
  ptr ← or_abort (alloc_with_pad_align_zeroed (origin_layout self) (align_layout self));
  v ← load (b_ptr self) (Z.to_nat size_of);
  _ ← store ptr (take (Z.to_nat (l_size (origin_layout self))) (clone_value v));
  mret {| b_ptr := ptr; align_layout := align_layout self; origin_layout := origin_layout self |}.

Definition dealloc_buffer (self : AlignBox) : M unit :=
  if size_of =? 0 then mret tt else dealloc (b_ptr self).

Definition clone_from (self source : AlignBox) : M AlignBox :=
  ptr ← (if negb (l_size (align_layout source) =? l_size (align_layout self)) then
           ptr ← or_abort (alloc_with_pad_align_zeroed (origin_layout source) (align_layout source));
           v ← load (b_ptr source) (Z.to_nat size_of);
           _ ← store ptr (take (Z.to_nat (l_size (origin_layout source))) (clone_value v));
           _ ← dealloc_buffer self;
           mret ptr
         else
           v ← load (b_ptr source) (Z.to_nat size_of);
           _ ← store (b_ptr self) (clone_value v);
           mret (b_ptr self));
  mret {| b_ptr := ptr; align_layout := align_layout source; origin_layout := origin_layout source |}.

Definition drop (self : AlignBox) : M unit := dealloc_buffer self.
End box.
End Box.
