(* ===== verification/AlignBits.v ===== *)
(** AlignBits: the bit arithmetic of alignalloc.rs.

    Bit [63 - p] of the word that [count_lzb] searches says whether the padding [p] is
    good ([calc_lspc_spec]): it suits the alignment and keeps every requested byte from
    the bytes 0 and 4 to 7 of a cache line.  [check_reqs] decides whether the requests
    are apart and inside the object ([check_reqs_spec]). *)
From Stdlib Require Import ZArith Lia Strings.Byte.
From stdpp Require Import base numbers list option tactics.
From S2P Require Import Prelude AlignAlloc.

(** * Bits of machine words *)
Create HintDb word_bits.

Lemma wrap_testbit z i : 0 <= i < 64 -> Z.testbit (wrap 64 z) i = Z.testbit z i.
Proof. intros. unfold wrap. by rewrite Z.mod_pow2_bits_low by lia. Qed.

Lemma wrap_testbit_high z i : 64 <= i -> Z.testbit (wrap 64 z) i = false.
Proof. intros. unfold wrap. by rewrite Z.mod_pow2_bits_high by lia. Qed.

Lemma wrap_swrap z : wrap 64 (swrap 64 z) = wrap 64 z.
Proof.
  unfold wrap, swrap. change (64 - 1) with 63. rewrite Zminus_mod_idemp_l. f_equal. lia.
Qed.

Lemma wrap_swrap_pred z : wrap 64 (swrap 64 z - 1) = wrap 64 (z - 1).
Proof.
  unfold wrap, swrap. change (64 - 1) with 63.
  replace ((z + 2 ^ 63) `mod` 2 ^ 64 - 2 ^ 63 - 1) with ((z + 2 ^ 63) `mod` 2 ^ 64 - (2 ^ 63 + 1)) by lia.
  rewrite Zminus_mod_idemp_l. f_equal. lia.
Qed.

Lemma swrap_testbit z i : 0 <= i < 64 -> Z.testbit (swrap 64 z) i = Z.testbit z i.
Proof. intros. by rewrite <- wrap_testbit, wrap_swrap, wrap_testbit. Qed.

Lemma land_63 c : Z.land c (8 * 8 - 1) = c `mod` 64.
Proof. change (8 * 8 - 1) with (Z.ones 6). by rewrite Z.land_ones by lia. Qed.

Lemma usize_neg_eq c : usize_neg c = wrap 64 (- c).
Proof.
  unfold usize_neg. rewrite wrap_swrap. unfold wrap, swrap.
  rewrite <- (Zminus_mod_idemp_r 0). change (64 - 1) with 63. rewrite Zminus_mod_idemp_l, Zminus_mod_idemp_r.
  f_equal. lia.
Qed.

Lemma usize_neg_mod c : usize_neg c `mod` 64 = (- c) `mod` 64.
Proof. rewrite usize_neg_eq. unfold wrap. symmetry. apply Znumtheory.Zmod_div_mod; [lia..|]. by exists (2 ^ 58). Qed.

Lemma rol_testbit v c i : 0 <= i < 64 -> Z.testbit (rol v c) i = Z.testbit v ((i - c) `mod` 64).
Proof.
  intros Hi. unfold rol, rol_masked. rewrite swrap_testbit, !land_63, usize_neg_mod by done.
  rewrite Z.lor_spec, wrap_testbit, Z.shiftl_spec, Z.shiftr_spec by lia.
  pose proof (Z.mod_pos_bound c 64 ltac:(lia)) as Hc.
  destruct (decide (c `mod` 64 = 0)) as [E|E].
  - rewrite (Z.mod_opp_l_z c 64) by lia. rewrite E, Z.sub_0_r, Z.add_0_r, orb_diag, wrap_testbit by lia.
    f_equal. rewrite Zminus_mod, E, Z.sub_0_r, Zmod_mod, Z.mod_small; lia.
  - rewrite (Z.mod_opp_l_nz c 64) by lia.
    assert ((i - c) `mod` 64 = (if i <? c `mod` 64 then i - c `mod` 64 + 64 else i - c `mod` 64)) as ->.
    { rewrite <- Zminus_mod_idemp_r. destruct (Z.ltb_spec i (c `mod` 64)).
      - rewrite <- (Z_mod_plus_full _ 1 64), Z.mod_small; lia.
      - rewrite Z.mod_small; lia. }
    destruct (Z.ltb_spec i (c `mod` 64)).
    + rewrite (Z.testbit_neg_r (wrap 64 v)), wrap_testbit by lia. cbn. f_equal. lia.
    + rewrite wrap_testbit, wrap_testbit_high by lia. by rewrite orb_false_r.
Qed.

Lemma ror_testbit v c i : 0 <= i < 64 -> Z.testbit (ror v c) i = Z.testbit v ((i + c) `mod` 64).
Proof.
  intros Hi. unfold ror. rewrite rol_testbit by done. f_equal.
  rewrite <- Zminus_mod_idemp_r, usize_neg_mod, Zminus_mod_idemp_r. f_equal. lia.
Qed.

(** ** Signed words: all bits from 63 on are the sign. *)
Definition signed (z : Z) : Prop := forall i, 63 <= i -> Z.testbit z i = Z.testbit z 63.

Lemma signed_range z : - 2 ^ 63 <= z < 2 ^ 63 -> signed z.
Proof.
  intros Hz i Hi.
  assert (forall n j, 0 <= n < 2 ^ 63 -> 63 <= j -> Z.testbit n j = false) as Hn.
  { intros n j Hr Hj. rewrite <- (Z.mod_small n (2 ^ 63)) by done. apply Z.mod_pow2_bits_high. lia. }
  destruct (decide (0 <= z)) as [Hp|Hp]; [by rewrite !Hn by lia|].
  rewrite <- (Z.lnot_involutive z), !(Z.lnot_spec (Z.lnot z)) by lia.
  unfold Z.lnot. by rewrite !Hn by lia.
Qed.

Lemma signed_swrap z : signed (swrap 64 z).
Proof.
  apply signed_range. unfold swrap. change (64 - 1) with 63.
  pose proof (Z.mod_pos_bound (z + 2 ^ 63) (2 ^ 64) ltac:(lia)). lia.
Qed.

Lemma signed_lor a b : signed a -> signed b -> signed (Z.lor a b).
Proof. intros Ha Hb i Hi. by rewrite !Z.lor_spec, Ha, Hb. Qed.
Lemma signed_land a b : signed a -> signed b -> signed (Z.land a b).
Proof. intros Ha Hb i Hi. by rewrite !Z.land_spec, Ha, Hb. Qed.
Lemma signed_lnot a : signed a -> signed (Z.lnot a).
Proof. intros Ha i Hi. by rewrite !Z.lnot_spec, Ha by lia. Qed.
#[export] Hint Resolve signed_swrap signed_lor signed_land signed_lnot : word_bits.

Lemma signed_neg z : signed z -> (z <? 0) = Z.testbit z 63.
Proof.
  intros Hz. destruct (Z.testbit z 63) eqn:E.
  - apply Z.ltb_lt, Z.bits_iff_neg_ex. exists 63. intros m Hm. rewrite Hz; [done|lia].
  - apply Z.ltb_ge, Z.bits_iff_nonneg_ex. exists 63. intros m Hm. rewrite Hz; [done|lia].
Qed.

Lemma signed_zero z : signed z -> (forall i, 0 <= i < 64 -> Z.testbit z i = false) -> z = 0.
Proof.
  intros Hz Hb. apply Z.bits_inj'. intros i Hi. rewrite Z.bits_0.
  destruct (decide (i < 64)); [apply Hb; lia|]. rewrite Hz by lia. apply Hb. lia.
Qed.

Lemma shl1_testbit x i : 0 < i < 64 -> Z.testbit (swrap 64 (Z.shiftl x 1)) i = Z.testbit x (i - 1).
Proof. intros. by rewrite swrap_testbit, Z.shiftl_spec by lia. Qed.

(** * The functions on bitmaps *)

(** [count_lzb]: the number of leading zeros of a word that is not zero *)
Lemma count_lzb_spec d x : signed x ->
  (exists j, 64 - Z.of_nat d <= j < 64 /\ 0 <= j /\ Z.testbit x j = true) ->
  exists n, count_lzb d x = Done n /\ 0 <= n < 64 /\ Z.testbit x (63 - n) = true /\
    forall m, 0 <= m < n -> Z.testbit x (63 - m) = false.
Proof.
  revert x. induction d as [|d IH]; intros x Hx (j & Hj & Hj0 & Hb); [lia|].
  assert (x <> 0) as H0 by (intros ->; by rewrite Z.bits_0 in Hb).
  cbn. rewrite (proj2 (Z.eqb_neq _ _) H0), (signed_neg x Hx).
  destruct (Z.testbit x 63) eqn:E63.
  { exists 0. split_and!; try done. lia. }
  assert (j <> 63) by congruence.
  destruct (IH (swrap 64 (Z.shiftl x 1))) as (n & -> & Hn & Hbn & Hmin); [auto with word_bits| |].
  { exists (j + 1). split_and!; try lia. rewrite shl1_testbit by lia. by rewrite Z.add_simpl_r. }
  assert (n <> 63).
  { intros ->. rewrite swrap_testbit, Z.shiftl_spec in Hbn by lia. by rewrite Z.testbit_neg_r in Hbn by lia. }
  exists (n + 1). split_and!; [done|lia|lia| |].
  - rewrite shl1_testbit in Hbn by lia. by replace (63 - (n + 1)) with (63 - n - 1) by lia.
  - intros m Hm. destruct (decide (m = 0)) as [->|]; [done|].
    specialize (Hmin (m - 1)). rewrite shl1_testbit in Hmin by lia.
    replace (63 - m) with (63 - (m - 1) - 1) by lia. apply Hmin. lia.
Qed.

(** [gen_alignmask]: the multiples of the alignment *)
Lemma power_of_two_exp n : is_power_of_two n = true -> exists k, 0 <= k /\ n = 2 ^ k.
Proof. intros ->%bool_decide_eq_true. exists (Z.log2 n). split; [apply Z.log2_nonneg|done]. Qed.

Definition multiples (al m : Z) : bool :=
  forallb (fun p => Bool.eqb (Z.testbit m (63 - Z.of_nat p)) (Z.of_nat p `mod` al =? 0)) (seq 0 64).

Lemma multiples_spec al m p : multiples al m = true -> 0 <= p < 64 ->
  Z.testbit m (63 - p) = (p `mod` al =? 0).
Proof.
  unfold multiples. rewrite forallb_forall. intros Hm Hp. specialize (Hm (Z.to_nat p)).
  rewrite Z2Nat.id in Hm by lia. apply eqb_prop, Hm, in_seq. lia.
Qed.

Lemma gen_alignmask_S d al a m : gen_alignmask (S d) al a m =
  if a >? al then gen_alignmask d al (Z.shiftr a 1) (Z.lor m (Z.shiftr m (Z.shiftr a 1))) else Done (swrap 64 m).
Proof. reflexivity. Qed.

Lemma gen_alignmask_spec al : is_power_of_two al = true ->
  exists m, gen_alignmask depth al (8 * 8) (Z.shiftl 1 (8 * 8 - 1)) = Done m /\ signed m /\
    forall p, 0 <= p < 64 -> Z.testbit m (63 - p) = (p `mod` al =? 0).
Proof.
  intros (k & Hk & ->)%power_of_two_exp.
  destruct (decide (k < 6)) as [Hs|Hl].
  - assert (k = 0 \/ k = 1 \/ k = 2 \/ k = 3 \/ k = 4 \/ k = 5) as Hc by lia.
    repeat destruct Hc as [->|Hc]; try subst k;
      (eexists; split; [vm_compute; reflexivity|]; split; [by apply signed_range|];
       intros p Hp; apply multiples_spec; [by vm_compute|done]).
  - assert (64 <= 2 ^ k) by (change 64 with (2 ^ 6); apply Z.pow_le_mono_r; lia).
    exists (swrap 64 (Z.shiftl 1 (8 * 8 - 1))). split; [|split; [apply signed_swrap|]].
    + change depth with (S 99). rewrite gen_alignmask_S. destruct (Z.gtb_spec (8 * 8) (2 ^ k)); [lia|reflexivity].
    + intros p Hp. rewrite (Z.mod_small p) by lia.
      assert (multiples 64 (swrap 64 (Z.shiftl 1 (8 * 8 - 1))) = true) as Hm by by vm_compute.
      rewrite (multiples_spec _ _ _ Hm Hp). by rewrite Z.mod_small by lia.
Qed.

(** [taken]: the places of a cache line that leak *)
Definition exposed : list Z := [0; 4; 5; 6; 7].

Lemma taken_testbit bmp p : 0 <= p < 64 ->
  Z.testbit (taken bmp) (63 - p) = existsb (fun d => Z.testbit bmp ((d - p) `mod` 64)) exposed.
Proof.
  intros Hp. unfold taken, exposed. cbn [existsb].
  pose proof (fun x => Z.mod_pos_bound x 64 ltac:(lia)) as Hm.
  rewrite Z.lor_spec, !ror_testbit, !Z.lor_spec, !ror_testbit by (done || lia).
  rewrite !Zplus_mod_idemp_l.
  assert (forall a b, a = b \/ a = b + 64 -> a `mod` 64 = b `mod` 64) as He.
  { intros a b [->| ->]; [done|]. by rewrite <- (Z_mod_plus_full b 1 64). }
  rewrite (He (63 - p + 5) (4 - p)), (He (63 - p + 5 + 1) (5 - p)), (He (63 - p + 5 + 2) (6 - p)),
    (He (63 - p + 5 + 3) (7 - p)), (He (63 - p + 1) (0 - p)) by lia.
  by destruct (Z.testbit bmp _), (Z.testbit bmp _), (Z.testbit bmp _), (Z.testbit bmp _), (Z.testbit bmp _).
Qed.

Lemma signed_taken bmp : signed (taken bmp).
Proof. unfold taken, ror, rol. auto with word_bits. Qed.

(** [make_bitmap]: the requested bytes modulo 64 *)
Definition covers (i : Z) (r : AlignReq) : bool := (i - r_offset r) `mod` 64 <? r_len r.

Lemma bitmap_loop_testbit reqs b i : 0 <= i < 64 -> Forall (fun r => 0 <= r_len r) reqs ->
  Z.testbit (bitmap_loop reqs b) i = Z.testbit b i || existsb (covers i) reqs.
Proof.
  intros Hi Hr. revert b. induction Hr as [|r reqs Hl Hr IH]; intros b; cbn [bitmap_loop existsb].
  { by rewrite orb_false_r. }
  pose proof (Z.mod_pos_bound (i - r_offset r) 64 ltac:(lia)) as Hm. unfold covers at 1.
  destruct (r_len r >? 63) eqn:El.
  - apply Z.gtb_gt in El. rewrite Z.bits_m1 by lia. rewrite (proj2 (Z.ltb_lt _ _)) by lia.
    by rewrite orb_true_r.
  - rewrite Z.gtb_ltb, Z.ltb_ge in El. rewrite IH, Z.lor_spec, rol_testbit, orb_assoc by done. f_equal. f_equal.
    rewrite swrap_testbit by lia.
    transitivity (Z.testbit (Z.ones (r_len r)) ((i - r_offset r) `mod` 64)).
    + rewrite <- (wrap_testbit (_ - 1)), <- (wrap_testbit (Z.ones _)) by lia. f_equal.
      rewrite wrap_swrap_pred, Z.ones_equiv, Z.shiftl_mul_pow2 by lia. f_equal. lia.
    + destruct (Z.ltb_spec ((i - r_offset r) `mod` 64) (r_len r)).
      * apply Z.ones_spec_low. lia.
      * apply Z.ones_spec_high. lia.
Qed.

(** * Paddings *)

(** Byte [x] of the object is one of the requested ones. *)
Definition requested (reqs : list AlignReq) (x : Z) : Prop :=
  exists r, r ∈ reqs /\ r_offset r <= x < r_offset r + r_len r.

(** No requested byte of an object [p] bytes behind the start of a cache line is in
    an exposed place. *)
Definition keeps_off (reqs : list AlignReq) (p : Z) : Prop :=
  forall x, requested reqs x -> (p + x) `mod` 64 ∉ exposed.

Lemma covers_requested reqs i : 0 <= i < 64 -> existsb (covers i) reqs = true <->
  exists x, requested reqs x /\ x `mod` 64 = i.
Proof.
  intros Hi. rewrite existsb_exists. split.
  - intros (r & Hr & Hc%Z.ltb_lt). exists (r_offset r + (i - r_offset r) `mod` 64). split.
    + exists r. split; [by apply list_elem_of_In|].
      pose proof (Z.mod_pos_bound (i - r_offset r) 64 ltac:(lia)). lia.
    + rewrite Zplus_mod_idemp_r, Z.mod_small; lia.
  - intros (x & (r & Hr & Hx) & E). exists r. split; [by apply list_elem_of_In|].
    apply Z.ltb_lt. rewrite <- E, Zminus_mod_idemp_l.
    pose proof (Z.mod_le (x - r_offset r) 64). lia.
Qed.

Lemma keeps_off_bits reqs p : Forall (fun r => 0 <= r_len r) reqs ->
  keeps_off reqs p <-> existsb (fun d => Z.testbit (make_bitmap reqs) ((d - p) `mod` 64)) exposed = false.
Proof.
  intros Hl. rewrite <- not_true_iff_false, existsb_exists. unfold make_bitmap.
  assert (forall i, 0 <= i < 64 -> Z.testbit (bitmap_loop reqs 0) i = true <-> exists x, requested reqs x /\ x `mod` 64 = i) as Hb.
  { intros i Hi. rewrite bitmap_loop_testbit, Z.bits_0 by done. by apply covers_requested. }
  split.
  - intros Hk (d & Hd & Ht). apply Hb in Ht as (x & Hx & E); [|apply Z.mod_pos_bound; lia].
    apply (Hk x Hx). apply list_elem_of_In. replace ((p + x) `mod` 64) with d; [done|].
    rewrite <- Zplus_mod_idemp_r, E, Zplus_mod_idemp_r. replace (p + (d - p)) with d by lia.
    rewrite Z.mod_small; [done|]. unfold exposed in Hd. cbn in Hd. lia.
  - intros Hk x Hx Hd. apply Hk. exists ((p + x) `mod` 64). split; [by apply list_elem_of_In|].
    apply Hb; [apply Z.mod_pos_bound; lia|]. exists x. split; [done|].
    rewrite Zminus_mod_idemp_l. f_equal. lia.
Qed.

Definition good (al : Z) (reqs : list AlignReq) (p : Z) : Prop := p `mod` al = 0 /\ keeps_off reqs p.

(** [calc_lspc] finds the least good padding, if there is one. *)
Lemma calc_lspc_spec al reqs : is_power_of_two al = true -> Forall (fun r => 0 <= r_len r) reqs ->
  (calc_lspc al (make_bitmap reqs) = Done (-1) /\ forall p, 0 <= p < 64 -> ~ good al reqs p) \/
  (exists n, calc_lspc al (make_bitmap reqs) = Done n /\ 0 <= n < 64 /\ good al reqs n /\
     forall p, 0 <= p < n -> ~ good al reqs p).
Proof.
  intros Hal Hl. unfold calc_lspc. rewrite Hal. cbn [negb].
  destruct (gen_alignmask_spec al Hal) as (m & -> & Hms & Hm). cbn [panics_bind].
  set (x := Z.land (Z.lnot (taken (make_bitmap reqs))) m).
  assert (signed x) as Hx by (unfold x; auto using signed_taken with word_bits).
  assert (forall p, 0 <= p < 64 -> Z.testbit x (63 - p) = true <-> good al reqs p) as Hb.
  { intros p Hp. unfold x, good. rewrite Z.land_spec, Z.lnot_spec, Hm, taken_testbit by lia.
    rewrite andb_true_iff, negb_true_iff, Z.eqb_eq, keeps_off_bits by done. tauto. }
  destruct (decide (x = 0)) as [E|E].
  - left. split; [by rewrite E|]. intros p Hp Hg%Hb; [|done]. by rewrite E, Z.bits_0 in Hg.
  - right. destruct (count_lzb_spec depth x Hx) as (n & -> & Hn & Hbn & Hmin).
    + destruct (existsb (fun i => Z.testbit x (Z.of_nat i)) (seq 0 64)) eqn:Ee.
      * apply existsb_exists in Ee as (j & Hj%in_seq & Ht). exists (Z.of_nat j). split_and!; [|lia..|done]. unfold depth. lia.
      * destruct E. apply signed_zero; [done|]. intros i Hi. apply not_true_iff_false. intros Ht.
        apply not_true_iff_false in Ee. apply Ee, existsb_exists. exists (Z.to_nat i).
        rewrite Z2Nat.id by lia. split; [apply in_seq; lia|done].
    + exists n. split_and!; [done|lia|lia|by apply Hb|].
      intros p Hp Hg%Hb; [|lia]. by rewrite Hmin in Hg.
Qed.

(** * The alignment of the block *)
Lemma halve_align_spec d size : (4 <= d)%nat ->
  exists a, halve_align d size (8 * 8) = Done a /\ (a = 8 \/ a = 16 \/ a = 32 \/ a = 64) /\
    (a = 64 \/ size <= a) /\ (a = 8 \/ a < 2 * size).
Proof.
  intros Hd. destruct d as [|[|[|[|d]]]]; [lia..|]. cbn [halve_align].
  change (8 * 8) with 64. change (64 `div` 2) with 32. change (32 `div` 2) with 16. change (16 `div` 2) with 8.
  change (8 >? 8) with false. cbn [andb].
  destruct (Z.leb_spec size 32); [|exists 64; split; [done|lia]].
  destruct (Z.leb_spec size 16); [|exists 32; split; [done|lia]].
  destruct (Z.leb_spec size 8); [exists 8|exists 16]; (split; [done|lia]).
Qed.

Lemma calc_algn_spec al size : is_power_of_two al = true ->
  exists a, calc_algn al size = Done a /\ is_power_of_two a = true /\ 8 <= a /\
    (64 < al -> a = al) /\ (al <= 64 -> (a = 8 \/ a = 16 \/ a = 32 \/ a = 64) /\ (a = 64 \/ size <= a) /\ (a = 8 \/ a < 2 * size)).
Proof.
  intros Hal. unfold calc_algn. destruct (Z.gtb_spec al 64) as [Hg|Hg].
  - exists al. split_and!; try done; lia.
  - destruct (halve_align_spec depth size) as (a & -> & Ha & Hs); [unfold depth; lia|].
    exists a. split_and!; try done; try lia. by destruct Ha as [->|[->|[->| ->]]].
Qed.

(** * The check of the requests *)
Definition marked (bmp : list Z) (x : Z) : bool := Z.testbit (bmp !!! Z.to_nat (x / 8)) (x `mod` 8).

Lemma land_bit b j : 0 <= j -> (Z.land b (Z.shiftl 1 j) =? 0) = negb (Z.testbit b j).
Proof.
  intros Hj. rewrite Z.shiftl_1_l. destruct (Z.testbit b j) eqn:E; cbn.
  - apply Z.eqb_neq. intros H0. assert (Z.testbit (Z.land b (2 ^ j)) j = true) as Ht; [|by rewrite H0, Z.bits_0 in Ht].
    by rewrite Z.land_spec, E, Z.pow2_bits_true.
  - apply Z.eqb_eq, Z.bits_inj'. intros i Hi. rewrite Z.bits_0, Z.land_spec.
    destruct (decide (i = j)) as [->|]; [by rewrite E|]. by rewrite Z.pow2_bits_false, andb_false_r by lia.
Qed.

Lemma marked_insert bmp o x : 0 <= o < 8 * zlen bmp -> 0 <= x ->
  marked (<[Z.to_nat (o / 8) := Z.lor (bmp !!! Z.to_nat (o / 8)) (Z.shiftl 1 (o `mod` 8))]> bmp) x
  = marked bmp x || (x =? o).
Proof.
  intros Ho Hx. unfold marked, zlen in *.
  pose proof (Z.mod_pos_bound o 8 ltac:(lia)). pose proof (Z.mod_pos_bound x 8 ltac:(lia)).
  pose proof (Z.div_mod o 8). pose proof (Z.div_mod x 8).
  assert (0 <= o / 8) by (apply Z.div_pos; lia). assert (0 <= x / 8) by (apply Z.div_pos; lia).
  destruct (decide (x / 8 = o / 8)) as [E|E].
  - rewrite E, list_lookup_total_insert_eq by lia. rewrite Z.lor_spec, Z.shiftl_1_l. f_equal.
    rewrite Z.pow2_bits_eqb by lia. destruct (Z.eqb_spec (o `mod` 8) (x `mod` 8)), (Z.eqb_spec x o); lia || done.
  - rewrite list_lookup_total_insert_ne by lia. destruct (Z.eqb_spec x o); [by subst|]. by rewrite orb_false_r.
Qed.

Lemma mark_spec count o bmp : 0 <= o -> o + Z.of_nat count <= 8 * zlen bmp ->
  (mark count o bmp = Done None /\ exists x, o <= x < o + Z.of_nat count /\ marked bmp x = true) \/
  (exists bmp', mark count o bmp = Done (Some bmp') /\ length bmp' = length bmp /\
     (forall x, o <= x < o + Z.of_nat count -> marked bmp x = false) /\
     forall x, 0 <= x -> marked bmp' x = marked bmp x || ((o <=? x) && (x <? o + Z.of_nat count))).
Proof.
  revert o bmp. induction count as [|count IH]; intros o bmp Ho Hl; cbn [mark].
  { right. exists bmp. split_and!; [done..|lia|]. intros x Hx.
    destruct (Z.leb_spec o x), (Z.ltb_spec x (o + Z.of_nat 0)); try lia; by rewrite orb_false_r. }
  pose proof (Z.mod_pos_bound o 8 ltac:(lia)). pose proof (Z.div_mod o 8).
  assert (0 <= o / 8) by (apply Z.div_pos; lia).
  destruct (lookup_lt_is_Some_2 bmp (Z.to_nat (o / 8))) as [b Hb]; [unfold zlen in *; lia|].
  rewrite Hb. pose proof (list_lookup_total_correct _ _ _ Hb) as Eb.
  rewrite land_bit, negb_involutive by lia. destruct (Z.testbit b (o `mod` 8)) eqn:Et.
  { left. split; [done|]. exists o. split; [lia|]. unfold marked. by rewrite Eb. }
  rewrite <- Eb. set (bmp1 := <[_ := _]> bmp).
  assert (zlen bmp1 = zlen bmp) as Hz by (unfold zlen, bmp1; by rewrite length_insert).
  assert (forall x, 0 <= x -> marked bmp1 x = marked bmp x || (x =? o)) as Hmk by (intros; apply marked_insert; lia).
  destruct (IH (o + 1) bmp1) as [(-> & x & Hx & Hm)|(bmp' & -> & Hlen & Hno & Hm)]; [lia|lia| |].
  - left. split; [done|]. exists x. split; [lia|]. rewrite Hmk in Hm by lia.
    by destruct (Z.eqb_spec x o); [lia|rewrite orb_false_r in Hm].
  - right. exists bmp'. split_and!; [done|unfold bmp1 in Hlen; by rewrite length_insert in Hlen| |].
    + intros x Hx. destruct (decide (x = o)) as [->|]; [by unfold marked; rewrite Eb|].
      specialize (Hno x ltac:(lia)). rewrite Hmk in Hno by lia. by apply orb_false_iff in Hno as [? _].
    + intros x Hx. rewrite Hm, Hmk by done. rewrite <- orb_assoc. f_equal.
      destruct (Z.eqb_spec x o), (Z.leb_spec (o + 1) x), (Z.leb_spec o x), (Z.ltb_spec x (o + 1 + Z.of_nat count)),
        (Z.ltb_spec x (o + Z.of_nat (S count))); lia || done.
Qed.

Definition req_wf (r : AlignReq) : Prop := 0 <= r_offset r < 2 ^ 64 /\ 0 <= r_len r < 2 ^ 64.

(** The bytes of the requests are apart and inside the object. *)
Definition disjoint_in (size : Z) (reqs : list AlignReq) : Prop :=
  Forall (fun r => r_offset r + r_len r <= size) reqs /\
  forall i j ri rj x, reqs !! i = Some ri -> reqs !! j = Some rj ->
    r_offset ri <= x < r_offset ri + r_len ri -> r_offset rj <= x < r_offset rj + r_len rj -> i = j.

Lemma check_reqs_spec size reqs bmp : 0 <= size < 2 ^ 63 -> Forall req_wf reqs -> size <= 8 * zlen bmp ->
  exists b, check_reqs size reqs bmp = Done b /\
    (b = true <-> disjoint_in size reqs /\ forall x, requested reqs x -> marked bmp x = false).
Proof.
  intros Hs Hw. revert bmp. induction Hw as [|r reqs [Ho Hl] Hw IH]; intros bmp Hb; cbn [check_reqs].
  { exists true. split; [done|]. split; [|done]. intros _. split; [split; [done|by intros []]|].
    by intros x (r & [] %elem_of_nil & _). }
  unfold check_overflow. destruct (Z.ltb_spec usize_max (r_offset r + r_len r)) as [Hov|Hov]; cbn [orb].
  { exists false. split; [done|]. split; [done|]. intros [[Hf _] _]. apply Forall_cons_1 in Hf as [Hf _]. unfold usize_max, u64_max in *. lia. }
  rewrite wrap_small by (unfold usize_max, u64_max in *; lia).
  destruct (Z.gtb_spec (r_offset r + r_len r) size) as [Hg|Hg].
  { exists false. split; [done|]. split; [done|]. intros [[Hf _] _]. apply Forall_cons_1 in Hf as [Hf _]. lia. }
  destruct (mark_spec (Z.to_nat (r_len r)) (r_offset r) bmp) as [(-> & x & Hx & Hm)|(bmp' & -> & Hlen & Hno & Hm)]; [lia|lia| |];
    rewrite Z2Nat.id in * by lia; cbn [panics_bind].
  { exists false. split; [done|]. split; [done|]. intros [_ Hu]. rewrite Hu in Hm; [done|].
    exists r. split; [by left|done]. }
  destruct (IH bmp') as (b & -> & Hiff); [unfold zlen in *; lia|]. exists b. split; [done|]. rewrite Hiff. clear Hiff IH.
  assert (forall x, requested reqs x -> 0 <= x) as Hpos.
  { intros x (r' & Hr' & Hx). rewrite list.Forall_forall in Hw. specialize (Hw r' Hr'). destruct Hw. lia. }
  split.
  - intros [[Hf Hd] Hu]. split; [split|].
    + by constructor.
    + assert (forall k rk x, reqs !! k = Some rk -> r_offset rk <= x < r_offset rk + r_len rk ->
        r_offset r <= x < r_offset r + r_len r -> False) as Hne.
      { intros k rk x Hk Hx Hx'. assert (requested reqs x) as Hreq by (exists rk; split; [by eapply list_elem_of_lookup_2|done]).
        specialize (Hu x Hreq). rewrite Hm in Hu by lia. apply orb_false_iff in Hu as [_ Hu].
        destruct (Z.leb_spec (r_offset r) x), (Z.ltb_spec x (r_offset r + r_len r)); done || lia. }
      intros [|i] [|j] ri rj x Hi Hj Hxi Hxj; cbn in *; simplify_eq; [done|by destruct (Hne j rj x)|by destruct (Hne i ri x)|].
      f_equal. by eapply Hd.
    + intros x (r' & [->|Hr']%elem_of_cons & Hx); [by apply Hno|].
      assert (requested reqs x) as Hreq by (by exists r'). specialize (Hu x Hreq). rewrite Hm in Hu by eauto.
      by apply orb_false_iff in Hu as [? _].
  - intros [[Hf Hd] Hu]. split; [split|].
    + by apply Forall_cons_1 in Hf as [_ ?].
    + intros i j ri rj x Hi Hj Hxi Hxj. specialize (Hd (S i) (S j) ri rj x Hi Hj Hxi Hxj). lia.
    + intros x (r' & Hr' & Hx). rewrite Hm by (apply Hpos; by exists r').
      rewrite Hu by (exists r'; split; [by right|done]).
      destruct (Z.leb_spec (r_offset r) x), (Z.ltb_spec x (r_offset r + r_len r)); try done.
      apply list_elem_of_lookup in Hr' as [j Hj]. by specialize (Hd 0%nat (S j) r r' x eq_refl Hj ltac:(lia) Hx).
Qed.

