(* ===== verification/AlignSpecs.v ===== *)
(** AlignSpecs: where the allocator of AlignAlloc.v puts an object.

    [MallocLaws] is what the C library promises.  [padding_is_least] is about the
    padding, [align_alloc_protects] and [align_box_protects] about the places of the
    named bytes, [align_alloc_block] and [align_dealloc_returns_block] about memory.
    Three ways in which the code falls short: [small_object_overruns_block],
    [short_secret_in_dword0], and the bitmap that [align_dealloc_returns_block] leaves. *)
From Stdlib Require Import ZArith Lia Strings.Byte.
From stdpp Require Import base numbers list option tactics.
From S2P Require Import Prelude AlignAlloc AlignBits.

(** * The heap *)

(** Two blocks have no address in common; an empty one has an address too. *)
Definition apart (b c : Z * Z) : Prop := b.1 + Z.max b.2 1 <= c.1 \/ c.1 + Z.max c.2 1 <= b.1.

(** What [malloc] promises *)
Class MallocLaws `{Malloc} : Prop := {
  pick_aligned h n : pick h n `mod` 16 = 0;
  pick_range h n : 0 <= n -> pick h n <> 0 -> 0 < pick h n /\ pick h n + n <= 2 ^ 64;
  pick_apart h n b : 0 <= n -> pick h n <> 0 -> b ∈ h_live h -> apart (pick h n, n) b
}.

(** Memory of the blocks that were live is as it was. *)
Definition keeps (live : list (Z * Z)) (m m' : Z -> byte) : Prop :=
  forall b x, b ∈ live -> b.1 <= x < b.1 + b.2 -> m' x = m x.

Lemma keeps_refl live m : keeps live m m.
Proof. done. Qed.
Lemma keeps_trans live m1 m2 m3 : keeps live m1 m2 -> keeps live m2 m3 -> keeps live m1 m3.
Proof. intros H12 H23 b x Hb Hx. by rewrite (H23 b x), (H12 b x). Qed.
Lemma keeps_put live m a bs b : (forall c, c ∈ live -> apart b c) ->
  b.1 <= a -> a + zlen bs <= b.1 + b.2 -> keeps live m (put m a bs).
Proof.
  intros Hap Ha Hl c x Hc Hx. specialize (Hap c Hc). unfold apart, put in *.
  destruct (Z.leb_spec a x), (Z.ltb_spec x (a + zlen bs)); [|done..]. lia.
Qed.

(** Writing the whole, or a part, of the block at [a] *)
Lemma store_at_run base n a bs h : (base, n) ∈ h_live h -> base <= a -> a + zlen bs <= base + n ->
  store_at base a bs h = Done (tt, {| h_live := h_live h; h_mem := put (h_mem h) a bs; h_fault := h_fault h |}).
Proof.
  intros Hb Ha Hl. unfold store_at. do 3 f_equal.
  replace (in_block_at h base a (zlen bs)) with true; [by rewrite orb_false_r|]. symmetry.
  apply existsb_exists. exists (base, n). split; [by apply list_elem_of_In|]. unfold inside. cbn.
  rewrite Z.eqb_refl, (proj2 (Z.leb_le _ _) Ha), (proj2 (Z.leb_le _ _) Hl). done.
Qed.

Lemma length_zeros_z n : 0 <= n -> zlen (zeros (Z.to_nat n)) = n.
Proof. intros. unfold zlen. rewrite length_zeros. lia. Qed.

Section specs.
Context `{MallocLaws}.

Lemma malloc_fail h n : pick h n = 0 -> malloc n h = Done (0, h).
Proof. intros E. unfold malloc. by rewrite E. Qed.
Lemma malloc_ok h n : pick h n <> 0 ->
  malloc n h = Done (pick h n, {| h_live := (pick h n, n) :: h_live h; h_mem := h_mem h; h_fault := h_fault h |}).
Proof. intros E. unfold malloc. by rewrite (proj2 (Z.eqb_neq _ _) E). Qed.

(** Freeing the newest block *)
Lemma free_run h b n live : h_live h = (b, n) :: live -> b <> 0 -> (forall c, c ∈ live -> c.1 <> b) ->
  free b h = Done (tt, {| h_live := live; h_mem := h_mem h; h_fault := h_fault h |}).
Proof.
  intros El Hb0 Hne. unfold free. rewrite (proj2 (Z.eqb_neq _ _) Hb0), El. cbn [existsb fst].
  rewrite Z.eqb_refl. cbn [orb negb]. rewrite orb_false_r. do 3 f_equal.
  rewrite list.filter_cons_False by (cbn; congruence).
  clear El. induction live as [|c live IH]; [done|].
  rewrite list.filter_cons_True by (apply Hne; by left). f_equal. apply IH. intros d Hd. apply Hne. by right.
Qed.

Lemma apart_ne h n c : 0 <= n -> pick h n <> 0 -> c ∈ h_live h -> c.1 <> pick h n.
Proof. intros Hn Hp Hc E. pose proof (pick_apart h n c Hn Hp Hc) as Ha. unfold apart in Ha. cbn in Ha. lia. Qed.

(** [check_align_req] decides whether the requests are apart and inside the object, if there is
    memory for its bitmap; the bitmap stays behind when they are. *)
Lemma check_align_req_run size reqs h : 0 < size < 2 ^ 63 -> Forall req_wf reqs ->
  let len := (size + 7) / 8 in
  exists ok h', check_align_req size reqs h = Done (ok, h') /\ h_fault h' = h_fault h /\
    keeps (h_live h) (h_mem h) (h_mem h') /\
    (ok = true -> reqs <> [] /\ disjoint_in size reqs /\ pick h len <> 0 /\ h_live h' = (pick h len, len) :: h_live h) /\
    (ok = false -> h_live h' = h_live h /\ (reqs = [] \/ ~ disjoint_in size reqs \/ pick h len = 0)).
Proof.
  intros Hs Hw len. unfold check_align_req. case_bool_decide as E0.
  { exists false, h. split_and!; auto using keeps_refl; done. }
  rewrite (wrap_small 64 (size + 7)) by lia. fold len.
  assert (0 <= len /\ size <= 8 * len) as [Hlen Hl8].
  { unfold len. pose proof (Z.div_mod (size + 7) 8). pose proof (Z.mod_pos_bound (size + 7) 8). split; [apply Z.div_pos|]; lia. }
  unfold mbind, m_bind. destruct (decide (pick h len = 0)) as [Ep|Ep].
  { rewrite malloc_fail by done. exists false, h. split_and!; auto using keeps_refl; done. }
  rewrite malloc_ok by done. rewrite (proj2 (Z.eqb_neq _ _) Ep).
  rewrite (store_at_run _ len) by (cbn; rewrite ?length_zeros_z by done; (by left) || lia). cbn [h_live h_mem h_fault].
  assert (keeps (h_live h) (h_mem h) (put (h_mem h) (pick h len) (zeros (Z.to_nat len)))) as Hk.
  { apply (keeps_put _ _ _ _ (pick h len, len)); cbn; [|lia|rewrite length_zeros_z; lia].
    intros c Hc. by apply pick_apart. }
  destruct (check_reqs_spec size reqs (replicate (Z.to_nat len) 0)) as (b & -> & Hb);
    [lia|done|unfold zlen; rewrite length_replicate; lia|]. cbn [lift].
  assert (disjoint_in size reqs -> forall x, requested reqs x -> marked (replicate (Z.to_nat len) 0) x = false) as Hm.
  { intros [Hf _] x (r & Hr & Hx). rewrite list.Forall_forall in Hf, Hw. specialize (Hf r Hr). destruct (Hw r Hr).
    pose proof (Z.div_mod x 8). pose proof (Z.mod_pos_bound x 8). assert (0 <= x / 8) by (apply Z.div_pos; lia).
    unfold marked. by rewrite lookup_total_replicate_2, Z.bits_0 by lia. }
  destruct b.
  - eexists true, _. split; [done|]. cbn. split_and!; try done. intros _. split_and!; try done. by apply Hb.
  - erewrite (free_run _ (pick h len) len (h_live h)); [|done..|by intros; apply (apart_ne h len)].
    eexists false, _. split; [done|]. cbn. split_and!; try done. intros _. split; [done|]. right. left.
    intros Hd. discriminate (proj2 Hb (conj Hd (Hm Hd))).
Qed.

Lemma check_layout_true l : check_layout l = true -> l_size l <> 0 /\ is_power_of_two (l_align l) = true.
Proof.
  unfold check_layout. rewrite negb_true_iff, !orb_false_iff, Z.eqb_neq, negb_false_iff. tauto.
Qed.

(** What [pad_align_to] gives: a padding, an alignment, and the size of both with the object *)
Record pad_spec (layout : Layout) (reqs : list AlignReq) (pad a : Z) : Prop := {
  pad_range : 0 <= pad < 64;
  pad_good : good (l_align layout) reqs pad;
  pad_eq : calc_lspc (l_align layout) (make_bitmap reqs) = Done pad;
  pad_inside : Forall (fun r => r_offset r + r_len r <= l_size layout) reqs;
  pad_power : is_power_of_two (l_align layout) = true;
  pad_align : calc_algn (l_align layout) (l_size layout + pad) = Done a;
  pad_pow : is_power_of_two a = true;
  pad_large : 8 <= a;
  pad_big : 64 < l_align layout -> a = l_align layout;
  pad_small : l_align layout <= 64 -> (a = 8 \/ a = 16 \/ a = 32 \/ a = 64) /\
    (a = 64 \/ l_size layout + pad <= a) /\ (a = 8 \/ a < 2 * (l_size layout + pad))
}.

(** Layouts of Rust values: no larger than 2^62 bytes *)
Definition layout_wf (l : Layout) : Prop := 0 < l_size l < 2 ^ 62 /\ 0 < l_align l <= 2 ^ 62.

Lemma req_wf_len reqs : Forall req_wf reqs -> Forall (fun r => 0 <= r_len r) reqs.
Proof. apply Forall_impl. intros r [_ ?]. lia. Qed.

Lemma padding_run layout reqs h : layout_wf layout -> Forall req_wf reqs -> exists r h',
  padding_needed_for layout reqs h = Done (r, h') /\ h_fault h' = h_fault h /\
  keeps (h_live h) (h_mem h) (h_mem h') /\
  match r with
  | Ok pad => is_power_of_two (l_align layout) = true /\ disjoint_in (l_size layout) reqs /\
      calc_lspc (l_align layout) (make_bitmap reqs) = Done pad /\
      0 <= pad < 64 /\ good (l_align layout) reqs pad /\ (forall p, 0 <= p < pad -> ~ good (l_align layout) reqs p) /\
      h_live h' = (pick h ((l_size layout + 7) / 8), (l_size layout + 7) / 8) :: h_live h
  | Err _ => is_power_of_two (l_align layout) = false \/ reqs = [] \/ ~ disjoint_in (l_size layout) reqs \/
      pick h ((l_size layout + 7) / 8) = 0 \/ forall p, 0 <= p < 64 -> ~ good (l_align layout) reqs p
  end.
Proof.
  intros [Hsz Hal] Hw. unfold padding_needed_for. destruct (check_layout layout) eqn:Ec; cbn [negb].
  2:{ exists (Err LayoutErr), h. split_and!; auto using keeps_refl. left. unfold check_layout in Ec.
      rewrite negb_false_iff, !orb_true_iff, negb_true_iff, Z.eqb_eq in Ec. destruct Ec as [[?|?]|Hg]; [lia|done|].
      rewrite Z.gtb_gt in Hg. unfold usize_max, u64_max in Hg. lia. }
  apply check_layout_true in Ec as [_ Hp].
  destruct (check_align_req_run (l_size layout) reqs h) as (ok & h' & E & Hf & Hk & Ht & He); [lia|done|].
  unfold mbind, m_bind. rewrite E. destruct ok; cbn [negb].
  2:{ exists (Err LayoutErr), h'. split_and!; try done. destruct (He eq_refl) as [_ [?|[?|?]]]; tauto. }
  destruct (Ht eq_refl) as (_ & Hd & _ & Hl).
  destruct (calc_lspc_spec (l_align layout) reqs Hp (req_wf_len _ Hw)) as [[-> Hno]|(n & En & Hn & Hg & Hmin)]; cbn [lift].
  - eexists (Err LayoutErr), h'. split; [done|]. split_and!; auto.
  - eexists (Ok n), h'. rewrite En. cbn [lift]. rewrite (proj2 (Z.ltb_ge _ _)) by lia. split; [done|]. split_and!; try done; tauto.
Qed.

Lemma pad_align_to_run layout reqs h : layout_wf layout -> Forall req_wf reqs -> exists r h',
  pad_align_to layout reqs h = Done (r, h') /\ h_fault h' = h_fault h /\
  keeps (h_live h) (h_mem h) (h_mem h') /\
  match r with
  | Ok l => exists pad, l_size l = pad + l_align l + l_size layout /\ pad_spec layout reqs pad (l_align l) /\
      h_live h' = (pick h ((l_size layout + 7) / 8), (l_size layout + 7) / 8) :: h_live h
  | Err _ => True
  end.
Proof.
  intros [Hsz Hal] Hw. destruct (padding_run layout reqs h) as (r & h' & E & Hf & Hk & Hr); [done..|].
  unfold pad_align_to, mbind, m_bind. rewrite E. destruct r as [pad|e].
  2:{ by eexists (Err e), h'. }
  destruct Hr as (Hp & Hd & Ec & Hpad & Hg & _ & Hl). unfold align_needed_for. rewrite (wrap_small 64) by lia.
  destruct (calc_algn_spec (l_align layout) (l_size layout + pad) Hp) as (a & Ea & Hpa & Ha8 & Hbig & Hsmall).
  rewrite Ea. cbn [lift].
  assert (a <= 2 ^ 62) by (destruct (decide (l_align layout <= 64)) as [Hc|Hc]; [specialize (Hsmall Hc)|specialize (Hbig ltac:(lia))]; lia).
  rewrite (wrap_small 64) by lia. unfold from_size_align. rewrite Hpa. cbn [negb].
  destruct (Z.gtb_spec (pad + a + l_size layout) (usize_max - (a - 1))) as [Hov|_]; [unfold usize_max, u64_max in Hov; lia|].
  eexists (Ok _), h'. split; [done|]. split_and!; try done. exists pad. cbn. split_and!; try done. split; try done. apply Hd.
Qed.

(** * The block *)
Definition up (raw a : Z) : Z := (raw + a - 1) / a * a.

Lemma up_spec raw a : 0 < a -> 0 <= raw -> raw <= up raw a < raw + a /\ up raw a `mod` a = 0.
Proof.
  intros Ha Hr. unfold up. pose proof (Z.div_mod (raw + a - 1) a). pose proof (Z.mod_pos_bound (raw + a - 1) a).
  split; [nia|]. apply Z.mod_mul. lia.
Qed.

Lemma land_align x a : is_power_of_two a = true -> 0 < a <= 2 ^ 62 -> 0 <= x < 2 ^ 64 ->
  Z.land x (unot 64 (a - 1)) = x / a * a.
Proof.
  intros (k & Hk & ->)%power_of_two_exp Ha Hx. assert (k < 64) as Hk64.
  { apply (Z.pow_lt_mono_r_iff 2); lia. }
  unfold unot, umax. replace (2 ^ k - 1) with (Z.ones k) by (rewrite Z.ones_equiv; lia).
  replace (2 ^ 64 - 1) with (Z.ones 64) by done.
  rewrite Z.sub_nocarry_ldiff.
  - rewrite Z.ldiff_land, Z.land_assoc, Z.land_ones, Z.mod_small, <- Z.ldiff_land by lia.
    by rewrite Z.ldiff_ones_r, Z.shiftl_mul_pow2, Z.shiftr_div_pow2 by lia.
  - apply Z.bits_inj'. intros i Hi. rewrite Z.bits_0, Z.ldiff_spec.
    destruct (decide (i < 64)); [by rewrite (Z.ones_spec_low 64 i), andb_false_r by lia|].
    by rewrite (Z.ones_spec_high k i) by lia.
Qed.

Lemma make_aligned_ptr_eq raw a pad : is_power_of_two a = true -> 0 < a <= 2 ^ 62 -> 0 <= raw -> 0 <= pad ->
  raw + a + pad < 2 ^ 64 -> make_aligned_ptr raw a pad = up raw a + pad.
Proof.
  intros Hp Ha Hr Hpad Hb. unfold make_aligned_ptr. destruct (up_spec raw a) as [Hu _]; [lia..|].
  rewrite (wrap_small 64 (raw + a - 1)), land_align by (done || lia). fold (up raw a). rewrite wrap_small; lia.
Qed.

(** The size of the block for an object with padding [pad] and alignment [a] *)
Definition block_size (layout : Layout) (pad a : Z) : Z := pad + a + l_size layout + 8.

Lemma pad_spec_bound layout reqs pad a : layout_wf layout -> pad_spec layout reqs pad a -> 0 < a <= 2 ^ 62.
Proof.
  intros [? ?] []. destruct (decide (l_align layout <= 64)) as [Hc|Hc]; [specialize (pad_small0 Hc)|specialize (pad_big0 ltac:(lia))]; lia.
Qed.

(** The header is written into the block unless the object is too close to its start. *)
Lemma header_in_block h n p : 0 <= n -> pick h n <> 0 -> p <= pick h n + n ->
  in_block_at {| h_live := (pick h n, n) :: h_live h; h_mem := h_mem h; h_fault := h_fault h |} (pick h n) (p - 8) 8
  = negb (p - 8 <? pick h n).
Proof.
  intros Hn Hp Hb. unfold in_block_at, inside. cbn [h_live existsb fst snd].
  rewrite Z.eqb_refl. cbn [andb].
  assert (existsb (fun b => (b.1 =? pick h n) && ((b.1 <=? p - 8) && (p - 8 + 8 <=? b.1 + b.2))) (h_live h) = false) as ->.
  { apply not_true_iff_false. intros (c & Hc%list_elem_of_In & E)%existsb_exists.
    apply andb_true_iff in E as [E%Z.eqb_eq _]. by apply (apart_ne h n) in Hc. }
  rewrite orb_false_r, Z.ltb_antisym, negb_involutive.
  destruct (Z.leb_spec (pick h n) (p - 8)), (Z.leb_spec (p - 8 + 8) (pick h n + n)); lia || done.
Qed.

Lemma alloc_in_run zeroed layout reqs l pad h : layout_wf layout -> l_size l = pad + l_align l + l_size layout ->
  pad_spec layout reqs pad (l_align l) ->
  let n := block_size layout pad (l_align l) in let raw := pick h n in let ptr := up raw (l_align l) + pad in
  alloc_with_pad_align_in zeroed layout l h =
    if raw =? 0 then Done (0, h)
    else Done (ptr, {| h_live := (raw, n) :: h_live h;
      h_mem := put (if zeroed then put (h_mem h) raw (zeros (Z.to_nat (l_size l))) else h_mem h) (ptr - 8) (le_bytes 8 raw);
      h_fault := h_fault h || (ptr - 8 <? raw) |}).
Proof.
  intros Hwf El Hs n raw ptr. pose proof (pad_spec_bound _ _ _ _ Hwf Hs) as Ha. destruct Hwf as [Hsz Hal].
  pose proof (pad_range _ _ _ _ Hs) as Hpr. pose proof (pad_pow _ _ _ _ Hs) as Hpw.
  assert (forall la, is_power_of_two (l_align la) = true -> 0 < l_size la < 2 ^ 64 - 2 ^ 62 -> l_align la <= 2 ^ 62 -> check_layout la = true) as Hcl.
  { intros la Hp1 Hs1 Ha1. unfold check_layout. rewrite Hp1, (proj2 (Z.eqb_neq _ _)) by lia. cbn.
    destruct (Z.gtb_spec (l_size la) (usize_max - (l_align la - 1))) as [Hg|]; [unfold usize_max, u64_max in Hg; lia|done]. }
  unfold alloc_with_pad_align_in. rewrite (Hcl layout), (Hcl l) by (lia || done || apply (pad_power _ _ _ _ Hs)). cbn [negb].
  rewrite (wrap_small 64 (l_size layout + _)), (proj2 (Z.ltb_ge _ _)) by lia.
  rewrite (wrap_small 64 (l_size l - _ - _)), (wrap_small 64 (l_size l + 8)) by lia.
  replace (l_size l - l_align l - l_size layout) with pad by lia.
  replace (l_size l + 8) with n by (unfold n, block_size; lia).
  unfold mbind, m_bind. cbv beta zeta. destruct (Z.eqb_spec raw 0) as [E|E].
  { by rewrite malloc_fail by done. }
  rewrite malloc_ok by done. fold raw. rewrite (proj2 (Z.eqb_neq _ _) E).
  assert (0 <= n) as Hn by (unfold n, block_size; lia).
  destruct (pick_range h n Hn E) as [Hr0 Hr1]. fold raw in Hr0, Hr1.
  assert (raw + l_align l + pad < 2 ^ 64) by (unfold n, block_size in *; lia).
  rewrite make_aligned_ptr_eq by (done || lia). fold ptr.
  destruct (up_spec raw (l_align l)) as [Hu _]; [lia..|].
  assert (ptr <= raw + n) as Hpn by (unfold ptr, n, block_size; lia).
  pose proof (header_in_block h n ptr Hn E Hpn) as Hh. fold raw in Hh.
  destruct zeroed.
  - rewrite (store_at_run raw n) by (cbn; rewrite ?length_zeros_z; (by left) || unfold n, block_size in *; lia).
    cbn [h_live h_mem h_fault]. unfold store_at, mret, m_ret. cbn [h_live h_mem h_fault].
    unfold in_block_at in *. cbn [h_live] in *. change (zlen (le_bytes 8 raw)) with 8. rewrite Hh. by rewrite negb_involutive.
  - unfold mret, m_ret, store_at. cbn [h_live h_mem h_fault]. change (zlen (le_bytes 8 raw)) with 8.
    unfold in_block_at in *. cbn [h_live] in *. rewrite Hh. by rewrite negb_involutive.
Qed.

(** The requests that count *)
Definition effective (layout : Layout) (reqs : list AlignReq) : list AlignReq :=
  if bool_decide (reqs = []) then whole layout else reqs.

(** A successful allocation *)
Lemma alloc_with_req_run zeroed layout reqs h ptr h' : layout_wf layout -> Forall req_wf reqs ->
  alloc_with_req_in zeroed layout reqs h = Done (ptr, h') -> ptr <> 0 ->
  exists pad a h1, let len := (l_size layout + 7) / 8 in let n := block_size layout pad a in let raw := pick h1 n in
    pad_spec layout (effective layout reqs) pad a /\
    h_live h1 = (pick h len, len) :: h_live h /\ h_fault h1 = h_fault h /\ keeps (h_live h) (h_mem h) (h_mem h1) /\
    raw <> 0 /\ ptr = up raw a + pad /\ h_live h' = (raw, n) :: h_live h1 /\
    h_mem h' = put (if zeroed then put (h_mem h1) raw (zeros (Z.to_nat (pad + a + l_size layout))) else h_mem h1)
                   (ptr - 8) (le_bytes 8 raw) /\
    h_fault h' = h_fault h || (ptr - 8 <? raw).
Proof.
  intros Hwf Hw E Hptr. unfold alloc_with_req_in in E. destruct (check_layout layout); [|change (Done (0, h) = Done (ptr, h')) in E; congruence].
  cbn [negb] in E.
  assert (Forall req_wf (effective layout reqs)) as Hw'.
  { unfold effective. case_bool_decide; [|done]. constructor; [|done]. destruct Hwf as [[? ?] _]. split; cbn; lia. }
  assert ((if bool_decide (reqs = []) then pad_align_to layout (whole layout) else pad_align_to layout reqs)
    = pad_align_to layout (effective layout reqs)) as Eif by (unfold effective; by case_bool_decide).
  rewrite Eif in E.
  destruct (pad_align_to_run layout (effective layout reqs) h Hwf Hw') as (r & h1 & Er & Hf & Hk & Hr).
  unfold mbind, m_bind in E. rewrite Er in E. destruct r as [l|e]; [|change (Done (0, h1) = Done (ptr, h')) in E; congruence].
  destruct Hr as (pad & El & Hs & Hl). rewrite (alloc_in_run zeroed layout _ l pad h1 Hwf El Hs) in E.
  destruct (Z.eqb_spec (pick h1 (block_size layout pad (l_align l))) 0); [by simplify_eq|].
  exists pad, (l_align l), h1. simplify_eq. cbn. rewrite <- El, Hf. split_and!; done.
Qed.

(** * The theorems *)

Lemma power_divides a b : is_power_of_two a = true -> is_power_of_two b = true -> a <= b -> (a | b).
Proof.
  intros (j & Hj & ->)%power_of_two_exp (k & Hk & ->)%power_of_two_exp Hle.
  assert (j <= k) by (apply (Z.pow_le_mono_r_iff 2); lia).
  exists (2 ^ (k - j)). rewrite <- Z.pow_add_r by lia. f_equal. lia.
Qed.

Lemma mod_divide a b c : 0 < a -> (a | b) -> 0 < b -> c `mod` b = 0 -> c `mod` a = 0.
Proof.
  intros Ha Hd Hb E. apply Z.mod_divide; [lia|]. etransitivity; [exact Hd|]. apply Z.mod_divide; [lia|done].
Qed.

(** Where a byte of the object lies in its cache line *)
Lemma placed layout reqs pad a u x : layout_wf layout -> pad_spec layout reqs pad a -> Forall req_wf reqs ->
  0 <= u -> u `mod` a = 0 -> requested reqs x -> (u + pad + x) `mod` 64 ∉ exposed.
Proof.
  intros Hwf Hs Hw Hu Ha Hx. pose proof (pad_spec_bound _ _ _ _ Hwf Hs) as Hb.
  destruct Hs as [Hpr [Hmul Hk] _ Hin Hpal _ Hpw H8 Hbig Hsm].
  assert (0 <= x < l_size layout) as Hxs.
  { destruct Hx as (r & Hr & Hx). rewrite list.Forall_forall in Hin, Hw. specialize (Hin r Hr). destruct (Hw r Hr). lia. }
  destruct (decide (64 <= a)) as [Hge|Hlt].
  - assert (u `mod` 64 = 0) as E by (apply (mod_divide 64 a); [lia|by apply power_divides|lia|done]).
    replace ((u + pad + x) `mod` 64) with ((pad + x) `mod` 64); [by apply Hk|].
    by rewrite <- (Z.add_assoc u), <- (Zplus_mod_idemp_l u), E.
  - assert (l_align layout <= 64) as Hal by (destruct (decide (l_align layout <= 64)); [done|specialize (Hbig ltac:(lia)); lia]).
    destruct (Hsm Hal) as (Hc & Hsz & _). assert (l_size layout + pad <= a) by lia.
    pose proof (Z.mod_pos_bound u 64 ltac:(lia)) as Hm.
    assert ((u `mod` 64) `mod` a = 0) as Ema.
    { rewrite <- (Znumtheory.Zmod_div_mod a 64 u); [done|lia|lia|apply power_divides; [done|done|lia]]. }
    replace ((u + pad + x) `mod` 64) with ((u `mod` 64 + (pad + x)) `mod` 64) by (rewrite Zplus_mod_idemp_l; f_equal; lia).
    pose proof (Z.div_mod (u `mod` 64) a ltac:(lia)) as Hdm. rewrite Ema in Hdm.
    destruct (decide (u `mod` 64 = 0)) as [->|Hne]; [by apply Hk|].
    rewrite Z.mod_small by (destruct Hc as [->|[->|[->| ->]]]; lia).
    unfold exposed. rewrite !not_elem_of_cons. destruct Hc as [->|[->|[->| ->]]]; split_and!; try lia; by intros ?%elem_of_nil.
Qed.

(** What the advisory asks of the byte [x] of an object at [ptr]: not in an exposed
    place, and not in the first eight bytes if it is part of four or more *)
Definition protected (ptr : Z) (r : AlignReq) (x : Z) : Prop :=
  (ptr + x) `mod` 64 ∉ exposed /\ (4 <= r_len r -> 8 <= (ptr + x) `mod` 64).

(** A run of four bytes that starts in the first eight has one in an exposed place. *)
Lemma run_protected ptr r x : r_offset r <= x < r_offset r + r_len r ->
  (forall y, r_offset r <= y < r_offset r + r_len r -> (ptr + y) `mod` 64 ∉ exposed) -> protected ptr r x.
Proof.
  intros Hx Hp. split; [by apply Hp|]. intros H4. set (q := (ptr + x) `mod` 64).
  pose proof (Hp x Hx) as Hq. fold q in Hq. pose proof (Z.mod_pos_bound (ptr + x) 64 ltac:(lia)) as Hb. fold q in Hb.
  unfold exposed in Hq. rewrite !not_elem_of_cons in Hq.
  destruct (decide (8 <= q)) as [|H8]; [done|]. exfalso.
  assert (forall y, 0 <= q + (y - x) < 64 -> (ptr + y) `mod` 64 = q + (y - x)) as Hs.
  { intros y Hy. replace (ptr + y) with (ptr + x + (y - x)) by lia.
    rewrite <- Zplus_mod_idemp_l. fold q. by rewrite Z.mod_small. }
  destruct (decide (r_offset r <= x - q)) as [Hlo|Hlo].
  - apply (Hp (x - q)); [lia|]. rewrite Hs by lia. replace (q + (x - q - x)) with 0 by lia. by left.
  - apply (Hp (x + (4 - q))); [lia|]. rewrite Hs by lia. replace (q + (x + (4 - q) - x)) with 4 by lia. right. by left.
Qed.

Lemma spec_protects layout reqs pad a h r x : layout_wf layout -> Forall req_wf reqs -> pad_spec layout reqs pad a ->
  pick h (block_size layout pad a) <> 0 -> r ∈ reqs -> r_offset r <= x < r_offset r + r_len r ->
  protected (up (pick h (block_size layout pad a)) a + pad) r x.
Proof.
  intros Hwf Hw Hs Hraw Hr Hx. pose proof (pad_spec_bound _ _ _ _ Hwf Hs) as Ha.
  pose proof (pad_range _ _ _ _ Hs) as Hpr.
  destruct (pick_range h (block_size layout pad a)) as [Hr0 _]; [destruct Hwf; unfold block_size; lia|done|].
  destruct (up_spec (pick h (block_size layout pad a)) a) as [Hu Hua]; [lia..|].
  apply run_protected; [done|]. intros y Hy. apply (placed layout reqs pad a _ y); try done; [lia|by exists r].
Qed.

Lemma effective_wf layout reqs : layout_wf layout -> Forall req_wf reqs -> Forall req_wf (effective layout reqs).
Proof.
  intros [[? ?] _] Hw. unfold effective. case_bool_decide; [|done]. constructor; [|done]. split; cbn; lia.
Qed.

(** The bytes that a caller names, or all bytes if it names none, stay away from the
    bytes 0 and 4 to 7 of a cache line; and so, if they come in runs of at least
    four bytes, from the first eight bytes altogether. *)
Theorem align_alloc_protects zeroed layout reqs h ptr h' : layout_wf layout -> Forall req_wf reqs ->
  alloc_with_req_in zeroed layout reqs h = Done (ptr, h') -> ptr <> 0 ->
  forall r x, r ∈ effective layout reqs -> r_offset r <= x < r_offset r + r_len r -> protected ptr r x.
Proof.
  intros Hwf Hw E Hptr r x Hr Hx.
  destruct (alloc_with_req_run _ _ _ _ _ _ Hwf Hw E Hptr) as (pad & a & h1 & Hs & _ & _ & _ & Hraw & -> & _).
  by apply (spec_protects layout (effective layout reqs)); try apply effective_wf.
Qed.

Lemma put_outside m a bs x : x < a \/ a + zlen bs <= x -> put m a bs x = m x.
Proof. intros Hx. unfold put. destruct (Z.leb_spec a x), (Z.ltb_spec x (a + zlen bs)); done || lia. Qed.

Lemma put_zeros m a n x : a <= x < a + n -> put m a (zeros (Z.to_nat n)) x = Byte.x00.
Proof.
  intros Hx. unfold put. rewrite length_zeros_z by lia.
  rewrite (proj2 (Z.leb_le _ _)), (proj2 (Z.ltb_lt _ _)) by lia. cbn. apply lookup_total_replicate_2. lia.
Qed.

Lemma get_ext m m' a n : (forall x, a <= x < a + Z.of_nat n -> m x = m' x) -> get m a n = get m' a n.
Proof.
  intros Hm. unfold get. apply list_fmap_ext. intros i x Hx%lookup_seq. apply Hm. lia.
Qed.

Lemma get_put m a bs : get (put m a bs) a (length bs) = bs.
Proof.
  apply list_eq. intros i. unfold get. rewrite list_lookup_fmap.
  destruct (decide (i < length bs)%nat) as [Hi|Hi].
  - rewrite lookup_seq_lt by done. cbn. unfold put, zlen.
    rewrite (proj2 (Z.leb_le _ _)), (proj2 (Z.ltb_lt _ _)) by lia. cbn.
    replace (Z.to_nat (a + Z.of_nat i - a)) with i by lia. symmetry. by apply list_lookup_lookup_total_lt.
  - rewrite lookup_ge_None_2 by (rewrite length_seq; lia). symmetry. apply lookup_ge_None_2. lia.
Qed.

(** What both [align_alloc_block] and [align_dealloc_returns_block] use *)
Lemma align_alloc_facts zeroed layout reqs h ptr h' : layout_wf layout -> Forall req_wf reqs ->
  alloc_with_req_in zeroed layout reqs h = Done (ptr, h') -> ptr <> 0 ->
  exists raw n b, h_live h' = (raw, n) :: (b, (l_size layout + 7) / 8) :: h_live h /\
    raw <= ptr /\ ptr + l_size layout <= raw + n /\
    h_fault h' = h_fault h || (ptr - 8 <? raw) /\
    (raw + 8 <= ptr -> keeps (h_live h) (h_mem h) (h_mem h')) /\
    get (h_mem h') (ptr - 8) 8 = le_bytes 8 raw /\
    (forall c, c ∈ (b, (l_size layout + 7) / 8) :: h_live h -> apart (raw, n) c) /\
    0 < raw < 2 ^ 64.
Proof.
  intros Hwf Hw E Hptr.
  destruct (alloc_with_req_run _ _ _ _ _ _ Hwf Hw E Hptr) as (pad & a & h1 & Hs & Hl1 & Hf1 & Hk1 & Hraw & Ep & Hl & Hm & Hf).
  pose proof (pad_spec_bound _ _ _ _ Hwf Hs) as Ha. pose proof (pad_range _ _ _ _ Hs) as Hpr. destruct Hwf as [Hsz Hal].
  set (n := block_size layout pad a) in *. set (raw := pick h1 n) in *.
  assert (0 <= n) as Hn by (unfold n, block_size; lia).
  destruct (pick_range h1 n Hn Hraw) as [Hr0 Hr1]. fold raw in Hr0, Hr1. destruct (up_spec raw a) as [Hu Hua]; [lia..|].
  exists raw, n, (pick h ((l_size layout + 7) / 8)). rewrite Hl, Hl1.
  assert (forall c, c ∈ h_live h1 -> apart (raw, n) c) as Hap by (intros c Hc; by apply pick_apart).
  rewrite Hl1 in Hap. split_and!; try done; try (unfold n, block_size in *; lia).
  - intros H8. eapply keeps_trans; [exact Hk1|]. rewrite Hm.
    assert (forall c, c ∈ h_live h -> apart (raw, n) c) as Hap' by (intros c Hc; apply Hap; by right).
    eapply keeps_trans; [|apply (keeps_put _ _ _ _ (raw, n)); [done|cbn; lia|change (zlen (le_bytes 8 raw)) with 8; cbn; unfold n, block_size; lia]].
    destruct zeroed; [|done]. apply (keeps_put _ _ _ _ (raw, n)); [done|cbn; lia|].
    rewrite length_zeros_z by lia. cbn. unfold n, block_size. lia.
  - rewrite Hm. apply (get_put _ _ (le_bytes 8 raw)).
Qed.

(** The block that [malloc] gives holds the whole object, aligned as its type wants
    if the size of the type is at least its alignment, and zeroed if asked for.
    The header, eight bytes before the object, is in the block exactly if the object
    is eight bytes behind its start; if so, the other blocks keep their contents. *)
Theorem align_alloc_block zeroed layout reqs h ptr h' : layout_wf layout -> Forall req_wf reqs ->
  alloc_with_req_in zeroed layout reqs h = Done (ptr, h') -> ptr <> 0 ->
  exists raw n b, h_live h' = (raw, n) :: (b, (l_size layout + 7) / 8) :: h_live h /\
    raw <= ptr /\ ptr + l_size layout <= raw + n /\
    (l_align layout <= Z.max 8 (l_size layout) -> ptr `mod` l_align layout = 0) /\
    (zeroed = true -> forall x, ptr <= x < ptr + l_size layout -> h_mem h' x = Byte.x00) /\
    h_fault h' = h_fault h || (ptr - 8 <? raw) /\
    (raw + 8 <= ptr -> keeps (h_live h) (h_mem h) (h_mem h')).
Proof.
  intros Hwf Hw E Hptr.
  destruct (align_alloc_facts _ _ _ _ _ _ Hwf Hw E Hptr) as (raw & n & b & Hl & Hge & Hend & Hf & Hk & _).
  exists raw, n, b. split_and!; try done; clear raw n b Hl Hge Hend Hf Hk.
  all: destruct (alloc_with_req_run _ _ _ _ _ _ Hwf Hw E Hptr) as (pad & a & h1 & Hs & _ & _ & _ & Hraw & Ep & _ & Hm & _);
    pose proof (pad_spec_bound _ _ _ _ Hwf Hs) as Ha; pose proof (pad_range _ _ _ _ Hs) as Hpr; destruct Hwf as [Hsz Hal];
    destruct (pick_range h1 (block_size layout pad a)) as [Hr0 _]; [unfold block_size; lia|done|];
    destruct (up_spec (pick h1 (block_size layout pad a)) a) as [Hu Hua]; [lia..|].
  - intros Hsa. destruct Hs as [_ [Hmul _] _ _ Hpp _ Hpw H8 Hbig Hsm]. assert (l_align layout <= a) as Hle.
    { destruct (decide (l_align layout <= 64)) as [Hc|Hc]; [specialize (Hsm Hc)|specialize (Hbig ltac:(lia))]; lia. }
    rewrite Ep, Z.add_mod, Hmul by lia.
    rewrite (mod_divide _ a (up _ a)); [done|lia|by apply power_divides|lia|done].
  - intros -> x Hx. rewrite Hm, put_outside by (rewrite Ep in Hx |- *; unfold zlen; rewrite length_le_bytes; lia).
    apply put_zeros. unfold block_size in *. lia.
Qed.

(** C24. What was allocated without a fault is freed again, whatever the owner wrote into
    the object meanwhile; no other block is touched.  But one block more than before
    is left: the bitmap of [check_align_req]. *)
Theorem align_dealloc_returns_block zeroed layout reqs h ptr h1 h2 : layout_wf layout -> Forall req_wf reqs ->
  alloc_with_req_in zeroed layout reqs h = Done (ptr, h1) -> ptr <> 0 -> h_fault h1 = false ->
  h_live h2 = h_live h1 -> h_fault h2 = false ->
  (forall x, x < ptr \/ ptr + l_size layout <= x -> h_mem h2 x = h_mem h1 x) ->
  exists bitmap h3, dealloc ptr h2 = Done (tt, h3) /\ h_fault h3 = false /\
    h_live h3 = (bitmap, (l_size layout + 7) / 8) :: h_live h /\ keeps (h_live h) (h_mem h) (h_mem h3).
Proof.
  intros Hwf Hw E Hptr Hf1 Hl2 Hf2 Hm2.
  destruct (align_alloc_facts _ _ _ _ _ _ Hwf Hw E Hptr) as (raw & n & b & Hl1 & Hge & Hend & Hf & Hk & Hhd & Hap & Hr).
  assert (raw + 8 <= ptr) as H8.
  { rewrite Hf, orb_false_iff, Z.ltb_ge in Hf1. lia. }
  assert (le_val (get (h_mem h2) (ptr - 8) 8) = raw) as Hraw.
  { rewrite (get_ext _ (h_mem h1)) by (intros; apply Hm2; lia). rewrite Hhd, le_val_bytes. apply Z.mod_small. lia. }
  unfold dealloc, mbind, m_bind, load. rewrite Hraw.
  replace (in_block h2 (ptr - 8) (Z.of_nat 8)) with true.
  2:{ symmetry. apply existsb_exists. exists (raw, n). rewrite Hl2, Hl1. split; [by left|]. unfold inside. cbn.
      rewrite (proj2 (Z.leb_le _ _)), (proj2 (Z.leb_le _ _)) by (destruct Hwf; lia). done. }
  erewrite (free_run _ raw n ((b, (l_size layout + 7) / 8) :: h_live h)); cbn; [|by rewrite Hl2, Hl1|lia|].
  2:{ intros c Hc Ec. specialize (Hap c Hc). unfold apart in Hap. cbn in Hap. lia. }
  exists b. eexists. split; [done|]. cbn. rewrite Hf2. split_and!; try done.
  eapply keeps_trans; [by apply Hk|]. intros c x Hc Hx. apply Hm2.
  specialize (Hap c ltac:(by right)). unfold apart in Hap. cbn in Hap. lia.
Qed.

(** C25. The padding is the least one that suits the alignment and keeps the requested
    bytes from the exposed places; an error means that the layout is no layout, that
    the requests overlap or leave the object, that there is no memory for the bitmap,
    or that no padding whatever would do. *)
Theorem padding_is_least layout reqs h : layout_wf layout -> Forall req_wf reqs ->
  exists r h', padding_needed_for layout reqs h = Done (r, h') /\
  match r with
  | Ok pad => good (l_align layout) reqs pad /\ 0 <= pad < 64 /\ forall p, 0 <= p < pad -> ~ good (l_align layout) reqs p
  | Err _ => is_power_of_two (l_align layout) = false \/ reqs = [] \/ ~ disjoint_in (l_size layout) reqs \/
      pick h ((l_size layout + 7) / 8) = 0 \/ forall p, 0 <= p -> ~ good (l_align layout) reqs p
  end.
Proof.
  intros Hwf Hw. destruct (padding_run layout reqs h Hwf Hw) as (r & h' & E & _ & _ & Hr).
  exists r, h'. split; [done|]. destruct r as [pad|e]; [tauto|].
  destruct (is_power_of_two (l_align layout)) eqn:Hp; [|by left]. right.
  destruct Hr as [?|[?|[?|[?|Hno]]]]; [done|tauto..|]. do 3 right. intros p Hpos [Hmul Hk].
  pose proof (Z.mod_pos_bound p 64 ltac:(lia)) as Hb. destruct Hwf as [_ Hal].
  apply (Hno (p `mod` 64) Hb). split.
  - destruct (decide (l_align layout <= 64)) as [Hle|Hgt].
    + rewrite <- (Znumtheory.Zmod_div_mod (l_align layout) 64 p); [done|lia|lia|by apply power_divides].
    + rewrite (mod_divide 64 (l_align layout) p); [done|lia|apply power_divides; [done|done|lia]|lia|done].
  - intros x Hx. rewrite Zplus_mod_idemp_l. by apply Hk.
Qed.

(** * AlignBox *)
Section box.
Context (size_of : Z) (clone_value : list byte -> list byte).

Lemma or_abort_run m h p h' : Box.or_abort m h = Done (p, h') -> m h = Done (p, h') /\ p <> 0.
Proof.
  unfold Box.or_abort, mbind, m_bind, non_null. destruct (m h) as [[q h1]|]; [|done].
  destruct (Z.eqb_spec q 0); [done|]. intros E. by injection E as <- <-.
Qed.

Lemma allocate_in_run zeroed align reqs h b h' : 0 < size_of < 2 ^ 62 -> 0 < align <= 2 ^ 62 -> Forall req_wf reqs ->
  Box.allocate_in size_of zeroed align reqs h = Done (Some b, h') ->
  let layout := {| l_size := size_of; l_align := align |} in
  exists pad h1, Box.origin_layout b = layout /\ l_size (Box.align_layout b) = pad + l_align (Box.align_layout b) + size_of /\
    pad_spec layout reqs pad (l_align (Box.align_layout b)) /\
    h_live h1 = (pick h ((size_of + 7) / 8), (size_of + 7) / 8) :: h_live h /\ h_fault h1 = h_fault h /\
    keeps (h_live h) (h_mem h) (h_mem h1) /\
    alloc_with_req_in zeroed layout reqs h1 = Done (Box.b_ptr b, h') /\ Box.b_ptr b <> 0.
Proof.
  intros Hsz Hal Hw E layout. unfold Box.allocate_in in E.
  rewrite (proj2 (Z.eqb_neq _ _)) in E by lia. destruct (from_size_align size_of align) as [l|] eqn:El; [|done].
  assert (l = layout) as ->.
  { unfold from_size_align in El. destruct (negb _); [done|]. destruct (_ >? _); [done|]. by injection El as <-. }
  destruct (pad_align_to_run layout reqs h) as (r & h1 & Er & Hf & Hk & Hr); [done..|].
  unfold mbind, m_bind in E. rewrite Er in E. destruct r as [al|e]; [|done].
  destruct Hr as (pad & Es & Hs & Hl).
  destruct (Box.or_abort _ h1) as [[p h2]|] eqn:Ea; [|done]. injection E as <- <-.
  apply or_abort_run in Ea as [Ea Hp]. exists pad, h1. cbn. split_and!; try done. by destruct zeroed.
Qed.

Lemma box_reqs zeroed align reqs h b h' : Box.allocate_in size_of zeroed align reqs h = Done (Some b, h') -> reqs <> [].
Proof.
  intros E ->. unfold Box.allocate_in in E. destruct (size_of =? 0); [done|].
  destruct (from_size_align _ _) as [l|]; [|done].
  unfold mbind, m_bind, pad_align_to, padding_needed_for, check_align_req in E.
  destruct (check_layout l); cbn in E; done.
Qed.

(** C23. The named bytes of a boxed value are protected, in the box and in its clones. *)
Theorem align_box_protects zeroed align reqs h b h' : 0 < size_of < 2 ^ 62 -> 0 < align <= 2 ^ 62 -> Forall req_wf reqs ->
  Box.allocate_in size_of zeroed align reqs h = Done (Some b, h') ->
  (forall r x, r ∈ reqs -> r_offset r <= x < r_offset r + r_len r -> protected (Box.b_ptr b) r x) /\
  (forall h1 b' h2, Box.clone size_of clone_value b h1 = Done (b', h2) ->
     forall r x, r ∈ reqs -> r_offset r <= x < r_offset r + r_len r -> protected (Box.b_ptr b') r x).
Proof.
  intros Hsz Hal Hw E. pose proof (box_reqs _ _ _ _ _ _ E) as Hne.
  set (layout := {| l_size := size_of; l_align := align |}). assert (layout_wf layout) as Hwf by done.
  destruct (allocate_in_run _ _ _ _ _ _ Hsz Hal Hw E) as (pad & h1 & Eo & Es & Hs & _ & _ & _ & Ea & Hp).
  split.
  - intros r x Hr Hx.
    destruct (alloc_with_req_run _ _ _ _ _ _ Hwf Hw Ea Hp) as (pad' & a & h2 & Hs' & _ & _ & _ & Hraw & -> & _).
    unfold effective in Hs'. rewrite bool_decide_false in Hs' by done. by apply (spec_protects layout reqs).
  - intros h2 b' h3 Ec r x Hr Hx. unfold Box.clone, mbind, m_bind in Ec.
    destruct (Box.or_abort _ h2) as [[p h4]|] eqn:Eab; [|done]. cbn in Ec. injection Ec as <- _. cbn.
    apply or_abort_run in Eab as [Eab Hp']. unfold alloc_with_pad_align_zeroed in Eab. rewrite Eo in Eab. fold layout in Eab.
    rewrite (alloc_in_run true layout reqs _ pad h2 Hwf Es Hs) in Eab.
    destruct (Z.eqb_spec (pick h2 (block_size layout pad (l_align (Box.align_layout b)))) 0); [by injection Eab as <-|].
    injection Eab as <- _. by apply (spec_protects layout reqs).
Qed.
End box.

(** The header of an object of one to three bytes is always written in front of the
    block: over whatever the C library keeps there. *)
Theorem small_object_overruns_block zeroed size h ptr h' : 1 <= size <= 3 ->
  alloc_with_req_in zeroed {| l_size := size; l_align := 1 |} [] h = Done (ptr, h') -> ptr <> 0 ->
  h_fault h' = true.
Proof.
  intros Hsz E Hptr. assert (layout_wf {| l_size := size; l_align := 1 |}) as Hwf by (split; cbn; lia).
  destruct (alloc_with_req_run _ _ _ _ _ _ Hwf (List.Forall_nil _) E Hptr)
    as (pad & a & h1 & Hs & _ & _ & _ & Hraw & Ep & _ & _ & ->).
  apply orb_true_intro. right. apply Z.ltb_lt. rewrite Ep.
  assert (pad = 1 /\ a = 8) as [-> ->].
  { destruct Hs as [_ _ Hpe _ _ Hae _ _ _ _]. cbn in Hpe, Hae.
    assert (size = 1 \/ size = 2 \/ size = 3) as [->|[->| ->]] by lia; vm_compute in Hpe; injection Hpe as <-;
      vm_compute in Hae; by injection Hae as <-. }
  set (raw := pick _ _) in *. pose proof (pick_aligned h1 (block_size {| l_size := size; l_align := 1 |} 1 8)) as Hal. fold raw in Hal.
  unfold up. pose proof (Z.div_mod raw 16 ltac:(lia)). rewrite Hal in *.
  replace (raw + 8 - 1) with (7 + raw / 16 * 2 * 8) by lia. rewrite Z.div_add, Z.div_small by lia. lia.
Qed.
(** A named run of fewer than four bytes may be put into the first four bytes of a
    cache line, which the advisory also asks to avoid. *)
Theorem short_secret_in_dword0 zeroed h ptr h' :
  alloc_with_req_in zeroed {| l_size := 64; l_align := 1 |} [{| r_offset := 0; r_len := 3 |}] h = Done (ptr, h') ->
  ptr <> 0 -> ptr `mod` 64 = 1.
Proof.
  intros E Hptr. assert (layout_wf {| l_size := 64; l_align := 1 |}) as Hwf by (split; cbn; lia).
  assert (Forall req_wf [{| r_offset := 0; r_len := 3 |}]) as Hw by (constructor; [split; cbn; lia|done]).
  destruct (alloc_with_req_run _ _ _ _ _ _ Hwf Hw E Hptr) as (pad & a & h1 & Hs & _ & _ & _ & Hraw & -> & _).
  assert (pad = 1 /\ a = 64) as [-> ->].
  { destruct Hs as [_ _ Hpe _ _ Hae _ _ _ _]. vm_compute in Hpe. injection Hpe as <-. vm_compute in Hae. by injection Hae as <-. }
  unfold up. by rewrite Z.add_comm, Z.mod_add by lia.
Qed.
End specs.

(** * An allocator: blocks one behind the other *)
Definition behind (live : list (Z * Z)) : Z := foldr (fun b => Z.max (b.1 + Z.max b.2 1)) 4096 live.
Definition bump_pick (h : heap) (n : Z) : Z :=
  let a := (behind (h_live h) + 15) / 16 * 16 in if a + n <=? 2 ^ 64 then a else 0.
#[export] Instance bump : Malloc := {| pick := bump_pick |}.

Lemma behind_ge live b : b ∈ live -> b.1 + Z.max b.2 1 <= behind live.
Proof. unfold behind. induction 1; cbn; lia. Qed.
Lemma behind_pos live : 4096 <= behind live.
Proof. unfold behind. induction live; cbn; lia. Qed.

#[export] Instance bump_laws : MallocLaws.
Proof.
  assert (forall z, z <= (z + 15) / 16 * 16) as Hup.
  { intros z. pose proof (Z.div_mod (z + 15) 16). pose proof (Z.mod_pos_bound (z + 15) 16). lia. }
  split; cbn; unfold bump_pick; intros h n.
  - destruct (_ <=? _); [apply Z.mod_mul; lia|done].
  - intros Hn. destruct (Z.leb_spec ((behind (h_live h) + 15) / 16 * 16 + n) (2 ^ 64)); [|done].
    pose proof (Hup (behind (h_live h))). pose proof (behind_pos (h_live h)). lia.
  - intros b Hn. destruct (_ <=? _); [|done]. intros _ Hb. right. cbn.
    pose proof (Hup (behind (h_live h))). pose proof (behind_ge _ _ Hb). lia.
Qed.

Definition heap0 : heap := {| h_live := []; h_mem := fun _ => Byte.x01; h_fault := false |}.

(** A key of sixteen bytes; an object of one byte *)
Definition key_layout : Layout := {| l_size := 16; l_align := 1 |}.
Lemma key_wf : layout_wf key_layout. Proof. split; cbn; lia. Qed.

Definition ran {A} (p : panics (A * heap)) (d : A) : A * heap := match p with Done r => r | Panic => (d, heap0) end.
Definition key_run : Z * heap := ran (alloc_with_req_in true key_layout [] heap0) 0.
Lemma key_ran : alloc_with_req_in true key_layout [] heap0 = Done (key_run.1, key_run.2).
Proof. unfold key_run. destruct (alloc_with_req_in true key_layout [] heap0) as [[p h]|] eqn:E; [done|by vm_compute in E]. Qed.

(** A key in a box, and a clone of it *)
Definition key_req : AlignReq := {| r_offset := 0; r_len := 16 |}.
Definition box_run : option Box.AlignBox * heap := ran (Box.allocate_in 16 true 1 [key_req] heap0) None.
Definition key_box : Box.AlignBox := default {| Box.b_ptr := 0; Box.align_layout := key_layout; Box.origin_layout := key_layout |} box_run.1.
Lemma box_ran : Box.allocate_in 16 true 1 [key_req] heap0 = Done (Some key_box, box_run.2).
Proof.
  unfold key_box, box_run. destruct (Box.allocate_in 16 true 1 [key_req] heap0) as [[[b|] h]|] eqn:E;
    [reflexivity|vm_compute in E; discriminate E..].
Qed.
Definition clone_run : Box.AlignBox * heap := ran (Box.clone 16 id key_box box_run.2) key_box.
Lemma clone_ran : Box.clone 16 id key_box box_run.2 = Done (clone_run.1, clone_run.2).
Proof.
  unfold clone_run. destruct (Box.clone 16 id key_box box_run.2) as [[b h]|] eqn:E; [reflexivity|vm_compute in E; discriminate E].
Qed.

Lemma align_box_protects_witness :
  protected (Box.b_ptr key_box) key_req 3 /\ protected (Box.b_ptr clone_run.1) key_req 3.
Proof.
  assert (key_req ∈ [key_req]) as Hin by (by left).
  assert (r_offset key_req <= 3 < r_offset key_req + r_len key_req) as Hx by (cbn; lia).
  destruct (align_box_protects 16 id true 1 [key_req] heap0 key_box box_run.2) as [Hb Hc];
    [lia|lia|constructor; [split; cbn; lia|constructor]|exact box_ran|].
  split; [exact (Hb key_req 3 Hin Hx)|exact (Hc box_run.2 clone_run.1 clone_run.2 clone_ran key_req 3 Hin Hx)].
Defined.

Lemma align_alloc_block_witness : exists raw n b,
  h_live key_run.2 = [(raw, n); (b, 2)] /\ h_fault key_run.2 = (key_run.1 - 8 <? raw).
Proof.
  destruct (align_alloc_block true key_layout [] heap0 key_run.1 key_run.2 key_wf (List.Forall_nil _) key_ran
    ltac:(by vm_compute)) as (raw & n & b & Hl & _ & _ & _ & _ & Hf & _).
  exists raw, n, b. cbn [heap0 h_fault orb] in Hf. split; [exact Hl|exact Hf].
Defined.

Lemma align_dealloc_returns_block_witness : exists bitmap h3,
  dealloc key_run.1 key_run.2 = Done (tt, h3) /\ h_live h3 = [(bitmap, 2)].
Proof.
  destruct (align_dealloc_returns_block true key_layout [] heap0 key_run.1 key_run.2 key_run.2 key_wf (List.Forall_nil _) key_ran
    ltac:(by vm_compute) ltac:(by vm_compute) eq_refl ltac:(by vm_compute) (fun x _ => eq_refl)) as (b & h3 & E & _ & Hl & _).
  exists b, h3. split; [exact E|exact Hl].
Defined.

Lemma padding_is_least_witness : exists r h', padding_needed_for key_layout (whole key_layout) heap0 = Done (r, h') /\ r <> Err LayoutErr.
Proof.
  destruct (padding_is_least key_layout (whole key_layout) heap0 key_wf) as (r & h' & E & Hr).
  { constructor; [split; cbn; lia|constructor]. }
  exists r, h'. split; [exact E|]. intros ->. vm_compute in E. discriminate E.
Defined.

Lemma small_object_overruns_block_witness : exists ptr h',
  alloc_with_req_in false {| l_size := 1; l_align := 1 |} [] heap0 = Done (ptr, h') /\ h_fault h' = true.
Proof.
  destruct (alloc_with_req_in false {| l_size := 1; l_align := 1 |} [] heap0) as [[p h]|] eqn:E; [|by vm_compute in E].
  exists p, h. split; [reflexivity|]. apply (small_object_overruns_block false 1 heap0 p h); [lia|exact E|].
  intros ->. vm_compute in E. discriminate E.
Defined.

Lemma short_secret_in_dword0_witness : exists ptr h',
  alloc_with_req_in false {| l_size := 64; l_align := 1 |} [{| r_offset := 0; r_len := 3 |}] heap0 = Done (ptr, h') /\ ptr `mod` 64 = 1.
Proof.
  destruct (alloc_with_req_in false {| l_size := 64; l_align := 1 |} [{| r_offset := 0; r_len := 3 |}] heap0)
    as [[p h]|] eqn:E; [|by vm_compute in E].
  exists p, h. split; [reflexivity|]. apply (short_secret_in_dword0 false heap0 p h); [exact E|].
  intros ->. vm_compute in E. discriminate E.
Defined.
