(* ===== verification/Tse.v ===== *)
(** Tse: the wrappers of sgx_tse/src/se.rs and [rsgx_read_rand] of
    sgx_trts/src/trts.rs.

    The C functions behind them (the EREPORT and EGETKEY instructions, the
    random source) are the parameter [Platform W]; an enclave has one.  What
    the documentation says of reports and keys is class [PlatformLaws]: the
    key for a request is a function of the request, a report carries the
    identity of the enclave that created it and a MAC under the key of its
    target, and verification checks that MAC under the verifier's own key. *)
From Stdlib Require Import ZArith Lia Strings.Byte.
From stdpp Require Import base numbers list option tactics.
From S2P Require Import Prelude SgxStatus SgxTypes Trts.

Class Platform (W : Type) := {
  sgx_read_rand : list byte -> Z -> ST W (sgx_status_t * list byte);
  sgx_create_report : sgx_target_info_t -> list byte -> sgx_report_t ->
    ST W (sgx_status_t * sgx_report_t);
  sgx_verify_report : sgx_report_t -> ST W sgx_status_t;
  sgx_verify_report2 : list byte -> ST W sgx_status_t;
  sgx_get_key : sgx_key_request_t -> list byte -> ST W (sgx_status_t * list byte);
  sgx_self_report : W -> sgx_report_t
}.

Section wrappers.
Context `{Platform W}.

(** Result, new contents of [rand]. *)
Definition rsgx_read_rand (rand : list byte) : ST W (SgxError * list byte) :=
  let* (ret, rand') := sgx_read_rand rand (zlen rand) in
  st_ret (status_result ret tt, rand').

Definition rsgx_create_report (target_info : sgx_target_info_t)
    (report_data : list byte) : STE W sgx_status_t sgx_report_t :=
  let* (ret, report) := sgx_create_report target_info report_data report_default in
  st_ret (status_result ret report).

Definition rsgx_verify_report (report : sgx_report_t) : STE W sgx_status_t unit :=
  let* ret := sgx_verify_report report in
  st_ret (status_result ret tt).

(** The argument is the memory image of a [sgx_report2_mac_struct_t]. *)
Definition rsgx_verify_report2 (report_mac_struct : list byte) : STE W sgx_status_t unit :=
  let* ret := sgx_verify_report2 report_mac_struct in
  st_ret (status_result ret tt).

Definition rsgx_get_key (key_request : sgx_key_request_t) : STE W sgx_status_t (list byte) :=
  let* (ret, key) := sgx_get_key key_request (zeros 16) in
  st_ret (status_result ret key).

(** [sgx_align_key_128bit_t] wraps the same key. *)
Definition rsgx_get_align_key (key_request : sgx_key_request_t)
    : STE W sgx_status_t (list byte) :=
  let* (ret, key) := sgx_get_key key_request (zeros 16) in
  st_ret (status_result ret key).

Definition rsgx_self_report : ST W sgx_report_t := fun w => (sgx_self_report w, w).

End wrappers.

(** * Identities *)

(** A report body with other report data. *)
Definition set_report_data (b : sgx_report_body_t) (d : list byte) : sgx_report_body_t := {|
  rb_cpu_svn := rb_cpu_svn b; rb_misc_select := rb_misc_select b;
  rb_reserved1 := rb_reserved1 b; rb_isv_ext_prod_id := rb_isv_ext_prod_id b;
  rb_attributes := rb_attributes b; rb_mr_enclave := rb_mr_enclave b;
  rb_reserved2 := rb_reserved2 b; rb_mr_signer := rb_mr_signer b;
  rb_reserved3 := rb_reserved3 b; rb_config_id := rb_config_id b;
  rb_isv_prod_id := rb_isv_prod_id b; rb_isv_svn := rb_isv_svn b;
  rb_config_svn := rb_config_svn b; rb_reserved4 := rb_reserved4 b;
  rb_isv_family_id := rb_isv_family_id b; rb_report_data := d |}.

(** The target that names the enclave with this report body: its measurement,
    attributes, CET attributes (the byte after [misc_select]), configuration
    and [misc_select]. *)
Definition target_of_body (b : sgx_report_body_t) : sgx_target_info_t := {|
  ti_mr_enclave := rb_mr_enclave b;
  ti_attributes := rb_attributes b;
  ti_reserved1 := take 1 (rb_reserved1 b) ++ [Byte.x00];
  ti_config_svn := rb_config_svn b;
  ti_misc_select := rb_misc_select b;
  ti_reserved2 := zeros 8;
  ti_config_id := rb_config_id b;
  ti_reserved3 := zeros 384 |}.

Lemma set_report_data_same b d : rb_report_data (set_report_data b d) = d.
Proof. done. Qed.

Lemma set_report_data_twice b d d' :
  set_report_data (set_report_data b d) d' = set_report_data b d'.
Proof. done. Qed.

Lemma set_report_data_id b : set_report_data b (rb_report_data b) = b.
Proof. by destruct b. Qed.

Lemma target_of_set_report_data b d :
  target_of_body (set_report_data b d) = target_of_body b.
Proof. done. Qed.

Lemma set_report_data_ok b d :
  report_body_ok b -> length d = 64%nat -> report_body_ok (set_report_data b d).
Proof. unfold report_body_ok. simpl. naive_solver. Qed.

(** * What the documentation says *)

(** The machine's secrets: the MAC a report gets for a target, the key the
    enclave with some identity gets for a request, and whether the request is
    one that this enclave may make. *)
Class Machine := {
  report_mac : sgx_target_info_t -> sgx_report_body_t -> list byte -> list byte;
  derived_key : sgx_report_body_t -> sgx_key_request_t -> list byte;
  key_available : sgx_report_body_t -> sgx_key_request_t -> Prop
}.

Class MachineLaws `{Machine} : Prop := {
  report_mac_length ti b k : length (report_mac ti b k) = 16%nat;
  derived_key_length b k : length (derived_key b k) = 16%nat
}.

(** An enclave whose reports have body [self] (up to the report data);
    [view] is the part of the world these functions do not touch, [ready] that
    the services have what they need to answer. *)
Class PlatformLaws {W V} `{Machine} (P : Platform W) (self : sgx_report_body_t)
    (view : W -> V) (ready : W -> Prop) : Prop := {
  self_ok : report_body_ok self;
  create_report_spec ti d r0 w ret r w' :
    sgx_create_report ti d r0 w = ((ret, r), w') -> length d = 64%nat -> view w' = view w /\
    (ret = SGX_SUCCESS ->
       rp_body r = set_report_data self d /\ length (rp_key_id r) = 32%nat /\
       rp_mac r = report_mac ti (rp_body r) (rp_key_id r)) /\
    (ready w -> ret = SGX_SUCCESS /\ ready w');
  verify_report_spec r w ret w' :
    sgx_verify_report r w = (ret, w') ->
    let genuine := rp_mac r = report_mac (target_of_body self) (rp_body r) (rp_key_id r) in
    view w' = view w /\ (ret = SGX_SUCCESS -> genuine) /\
    (ready w -> ready w' /\ (genuine -> ret = SGX_SUCCESS));
  get_key_spec kr k0 w ret k w' :
    sgx_get_key kr k0 w = ((ret, k), w') -> view w' = view w /\
    (ret = SGX_SUCCESS -> k = derived_key self kr /\ key_available self kr) /\
    (ready w -> ready w' /\ (key_available self kr -> ret = SGX_SUCCESS));
  read_rand_spec b n w ret b' w' :
    sgx_read_rand b n w = ((ret, b'), w') ->
    view w' = view w /\ length b' = length b /\
    (ready w -> ready w' /\ ret = SGX_SUCCESS);
  self_report_spec w : exists d, rp_body (sgx_self_report w) = set_report_data self d
}.

Section specs.
Context {W V : Type} `{Machine} (P : Platform W) (self : sgx_report_body_t)
  (view : W -> V) (ready : W -> Prop) `{!PlatformLaws P self view ready}.

Lemma wp_get_align_key kr Q w :
  (forall w', view w' = view w -> key_available self kr -> (ready w -> ready w') ->
    Q (Ok (derived_key self kr)) w') ->
  (forall e w', view w' = view w -> ~ (ready w /\ key_available self kr) -> Q (Err e) w') ->
  wp (rsgx_get_align_key kr) Q w.
Proof.
  intros Hok Herr. apply wp_bind. wp_call as [[ret k] w1] eqn E.
  apply get_key_spec in E as (Ev & Ek & Er). apply wp_ret. unfold status_result.
  case_decide as Hd; [destruct (Ek Hd) as [-> ?]; apply Hok|apply Herr]; naive_solver.
Qed.

Lemma wp_read_rand b Q w :
  (forall r b' w', view w' = view w -> length b' = length b -> (ready w -> ready w' /\ r = Ok tt) -> Q (r, b') w') ->
  wp (rsgx_read_rand b) Q w.
Proof.
  intros HQ. apply wp_bind. wp_call as [[ret b'] w1] eqn E.
  apply read_rand_spec in E as (Ev & El & Er). apply wp_ret, HQ; [done..|].
  intros Hr. destruct (Er Hr) as [? ->]. done.
Qed.

Lemma wp_create_report ti d Q w :
  length d = 64%nat ->
  (forall r w', view w' = view w -> rp_body r = set_report_data self d -> length (rp_key_id r) = 32%nat ->
    rp_mac r = report_mac ti (rp_body r) (rp_key_id r) ->
    (ready w -> ready w') -> Q (Ok r) w') ->
  (forall e w', view w' = view w -> ~ ready w -> Q (Err e) w') ->
  wp (rsgx_create_report ti d) Q w.
Proof.
  intros Hl Hok Herr. apply wp_bind. wp_call as [[ret r] w1] eqn E.
  apply create_report_spec in E as (Ev & Es & Er); [|done]. apply wp_ret. unfold status_result.
  case_decide as Hd; [apply Hok|apply Herr]; naive_solver.
Qed.

Lemma wp_verify_report r Q w :
  let genuine := rp_mac r = report_mac (target_of_body self) (rp_body r) (rp_key_id r) in
  (forall w', view w' = view w -> genuine -> (ready w -> ready w') -> Q (Ok tt) w') ->
  (forall e w', view w' = view w -> ~ (ready w /\ genuine) -> Q (Err e) w') ->
  wp (rsgx_verify_report r) Q w.
Proof.
  intros genuine Hok Herr. apply wp_bind. wp_call as [ret w1] eqn E.
  apply verify_report_spec in E as (Ev & Es & Er). apply wp_ret. unfold status_result.
  case_decide as Hd; [apply Hok|apply Herr]; naive_solver.
Qed.

End specs.
