(* ===== verification/Tcrypto.v ===== *)
(** Tcrypto: the safe wrappers of sgx_tcrypto/src/crypto.rs.

    The C library libsgx_tcrypto is the parameter [Tcrypto W]: its functions
    read and change a world [W] (the C heap with the contexts behind the state
    handles, the random source) and return a status with their out-parameters.
    A pointer with its length is the bytes it points to and the length passed;
    a pointer that may be null is an option; a state handle is an address, 0
    for null.  The wrappers below translate the Rust code around the calls:
    size checks, casts, the [initflag] protocol of the handle objects, and the
    mapping of statuses to results.  The Rust source repeats one body per
    algorithm; here the body is written once ([hash_*], [mac_*], [handle_*])
    and named per algorithm. *)
From Stdlib Require Import ZArith Lia Strings.Byte.
From stdpp Require Import base numbers list option tactics gmap.
From S2P Require Import Prelude SgxStatus SgxTypes Trts.

(** * The C library *)

(** An incremental hash ([sgx_sha256_*], [sgx_sha384_*], [sgx_sha1_*]). *)
Record HashFfi (W : Type) := {
  ffi_hash_msg : list byte -> Z -> list byte -> ST W (sgx_status_t * list byte);
  ffi_hash_init : Z -> ST W (sgx_status_t * Z);
  ffi_hash_update : list byte -> Z -> Z -> ST W sgx_status_t;
  ffi_hash_get : Z -> list byte -> ST W (sgx_status_t * list byte);
  ffi_hash_close : Z -> ST W sgx_status_t
}.
Arguments ffi_hash_msg {W}. Arguments ffi_hash_init {W}.
Arguments ffi_hash_update {W}. Arguments ffi_hash_get {W}.
Arguments ffi_hash_close {W}.

(** A keyed MAC ([sgx_cmac128_*], [sgx_hmac256_*]); the HMAC functions take
    their lengths as C [int]. *)
Record MacFfi (W : Type) := {
  ffi_mac_msg : list byte -> list byte -> Z -> list byte ->
    ST W (sgx_status_t * list byte);
  ffi_mac_init : list byte -> Z -> ST W (sgx_status_t * Z);
  ffi_mac_update : list byte -> Z -> Z -> ST W sgx_status_t;
  ffi_mac_final : Z -> list byte -> ST W (sgx_status_t * list byte);
  ffi_mac_close : Z -> ST W sgx_status_t
}.
Arguments ffi_mac_msg {W}. Arguments ffi_mac_init {W}.
Arguments ffi_mac_update {W}. Arguments ffi_mac_final {W}.
Arguments ffi_mac_close {W}.

(** The 256-bit curve ([sgx_ecc256_*], [sgx_ecdsa_*]); a signature is its
    memory image. *)
Record EccFfi (W : Type) := {
  ffi_ecc_open : Z -> ST W (sgx_status_t * Z);
  ffi_ecc_close : Z -> ST W sgx_status_t;
  ffi_ecc_create_key_pair : list byte -> sgx_ec256_public_t -> Z ->
    ST W (sgx_status_t * (list byte * sgx_ec256_public_t));
  ffi_ecc_check_point : sgx_ec256_public_t -> Z -> Z -> ST W (sgx_status_t * Z);
  ffi_ecc_compute_shared_dhkey : list byte -> sgx_ec256_public_t -> list byte ->
    Z -> ST W (sgx_status_t * list byte);
  ffi_ecdsa_sign : list byte -> Z -> list byte -> list byte -> Z ->
    ST W (sgx_status_t * list byte);
  ffi_ecdsa_verify : list byte -> Z -> sgx_ec256_public_t -> list byte -> Z ->
    Z -> ST W (sgx_status_t * Z);
  ffi_ecdsa_verify_hash : list byte -> sgx_ec256_public_t -> list byte -> Z ->
    Z -> ST W (sgx_status_t * Z)
}.
Arguments ffi_ecc_open {W}. Arguments ffi_ecc_close {W}.
Arguments ffi_ecc_create_key_pair {W}. Arguments ffi_ecc_check_point {W}.
Arguments ffi_ecc_compute_shared_dhkey {W}. Arguments ffi_ecdsa_sign {W}.
Arguments ffi_ecdsa_verify {W}. Arguments ffi_ecdsa_verify_hash {W}.

(** AES-GCM in one call: key, source, destination, iv, additional data, tag. *)
Record GcmFfi (W : Type) := {
  ffi_gcm_encrypt : list byte -> option (list byte) -> Z -> option (list byte) ->
    list byte -> Z -> option (list byte) -> Z -> list byte ->
    ST W (sgx_status_t * option (list byte) * list byte);
  ffi_gcm_decrypt : list byte -> option (list byte) -> Z -> option (list byte) ->
    list byte -> Z -> option (list byte) -> Z -> list byte ->
    ST W (sgx_status_t * option (list byte))
}.
Arguments ffi_gcm_encrypt {W}. Arguments ffi_gcm_decrypt {W}.

(** AES in counter mode: the counter block is updated in place. *)
Record CtrFfi (W : Type) := {
  ffi_ctr_encrypt : list byte -> list byte -> Z -> list byte -> Z -> list byte ->
    ST W (sgx_status_t * list byte * list byte);
  ffi_ctr_decrypt : list byte -> list byte -> Z -> list byte -> Z -> list byte ->
    ST W (sgx_status_t * list byte * list byte)
}.
Arguments ffi_ctr_encrypt {W}. Arguments ffi_ctr_decrypt {W}.

(** Incremental AES-GCM encryption ([sgx_aes_gcm128_enc_*]). *)
Record AesFfi (W : Type) := {
  ffi_aes_init : list byte -> list byte -> Z -> option (list byte) -> Z -> Z ->
    ST W (sgx_status_t * Z);
  ffi_aes_update : list byte -> Z -> list byte -> Z ->
    ST W (sgx_status_t * list byte);
  ffi_aes_get_mac : list byte -> Z -> ST W (sgx_status_t * list byte);
  ffi_aes_close : Z -> ST W sgx_status_t
}.
Arguments ffi_aes_init {W}. Arguments ffi_aes_update {W}.
Arguments ffi_aes_get_mac {W}. Arguments ffi_aes_close {W}.

Class Tcrypto (W : Type) := {
  sha256_ffi : HashFfi W;
  sha384_ffi : HashFfi W;
  sha1_ffi : HashFfi W;
  cmac_ffi : MacFfi W;
  hmac_ffi : MacFfi W;
  ecc_ffi : EccFfi W;
  gcm_ffi : GcmFfi W;
  ctr_ffi : CtrFfi W;
  aes_ffi : AesFfi W
}.

(** * Argument checks *)

Abbreviation STS W := (STE W sgx_status_t).

(** [if size == 0 || size > u32::MAX { return Err(INVALID_PARAMETER) }] *)
Definition size_rejected (size : Z) : bool := (size =? 0) || (size >? u32_max).

(** [mem::size_of_val] of a slice, and its bytes. *)
Definition size_of_val {T} `{ContiguousMemory T} (src : list T) : Z :=
  size_of T * zlen src.

Definition slice_bytes {T} `{ContiguousMemory T} (src : list T) : list byte :=
  mjoin (as_bytes <$> src).

#[export] Instance u8_mem : ContiguousMemory byte :=
  {| size_of := 1; as_bytes := fun b => [b]; mem_ok := fun _ => True |}.

(** A [u32] passed by address. *)
Definition u32_mem : ContiguousMemory Z :=
  {| size_of := 4; as_bytes := le_bytes 4; mem_ok := fun z => 0 <= z <= u32_max |}.

(** * Handle objects

    [SgxShaHandle], [SgxCmacHandle], [SgxEccHandle], ... : the C handle in a
    [RefCell] and the flag that says whether it is open. *)
Record SgxHandle := {
  h_ptr : Z;
  h_initflag : bool
}.

Section handles.
Context {W : Type}.

Definition handle_new : SgxHandle := {| h_ptr := 0; h_initflag := false |}.

(** [init] / [open]: nothing when already open; the C function writes the
    handle through the borrowed cell whatever it returns. *)
Definition handle_init (f : Z -> ST W (sgx_status_t * Z)) (h : SgxHandle)
    : ST W (SgxError * SgxHandle) :=
  if h_initflag h then st_ret (Ok tt, h)
  else
    let* (ret, p) := f (h_ptr h) in
    st_ret (if decide (ret = SGX_SUCCESS)
            then (Ok tt, {| h_ptr := p; h_initflag := true |})
            else (Err ret, {| h_ptr := p; h_initflag := false |})).

(** A method that needs the handle open. *)
Definition handle_use {A} (f : Z -> ST W (sgx_status_t * A)) (h : SgxHandle)
    : STS W A :=
  if negb (h_initflag h) then ste_err SGX_ERROR_INVALID_STATE
  else
    let* (ret, a) := f (h_ptr h) in
    st_ret (status_result ret a).

(** [close]: only a success of the C function clears the object. *)
Definition handle_close (f : Z -> ST W sgx_status_t) (h : SgxHandle)
    : ST W (SgxError * SgxHandle) :=
  if negb (h_initflag h) then st_ret (Ok tt, h)
  else
    let* ret := (if h_ptr h =? 0 then st_ret SGX_SUCCESS else f (h_ptr h)) in
    st_ret (if decide (ret = SGX_SUCCESS)
            then (Ok tt, {| h_ptr := 0; h_initflag := false |})
            else (Err ret, h)).

(** [Drop]: [let _ = self.close()]. *)
Definition handle_drop (f : Z -> ST W sgx_status_t) (h : SgxHandle) : ST W unit :=
  let* _ := handle_close f h in st_ret tt.

(** A status-only C function seen as one with no out-parameter. *)
Definition no_out (m : ST W sgx_status_t) : ST W (sgx_status_t * unit) :=
  let* ret := m in st_ret (ret, tt).

End handles.

(** * Hashes *)
Section hash.
Context {W : Type} (F : HashFfi W) (hlen : nat).

Definition hash_sized_msg (bs : list byte) (size : Z) : STS W (list byte) :=
  if size_rejected size then ste_err SGX_ERROR_INVALID_PARAMETER
  else
    let* (ret, hash) := ffi_hash_msg F bs (wrap 32 size) (zeros hlen) in
    st_ret (status_result ret hash).

Definition hash_msg {T} `{ContiguousMemory T} (src : T) : STS W (list byte) :=
  hash_sized_msg (as_bytes src) (size_of T).

Definition hash_slice {T} `{ContiguousMemory T} (src : list T) : STS W (list byte) :=
  hash_sized_msg (slice_bytes src) (size_of_val src).

Definition hash_update (bs : list byte) (size handle : Z) : ST W sgx_status_t :=
  if size_rejected size then st_ret SGX_ERROR_INVALID_PARAMETER
  else ffi_hash_update F bs (wrap 32 size) handle.

Definition hash_handle_init (h : SgxHandle) : ST W (SgxError * SgxHandle) :=
  handle_init (ffi_hash_init F) h.

Definition hash_handle_update_msg {T} `{ContiguousMemory T} (src : T)
    (h : SgxHandle) : STS W unit :=
  handle_use (fun p => no_out (hash_update (as_bytes src) (size_of T) p)) h.

Definition hash_handle_update_slice {T} `{ContiguousMemory T} (src : list T)
    (h : SgxHandle) : STS W unit :=
  handle_use (fun p => no_out (hash_update (slice_bytes src) (size_of_val src) p)) h.

Definition hash_handle_get_hash (h : SgxHandle) : STS W (list byte) :=
  handle_use (fun p => ffi_hash_get F p (zeros hlen)) h.

Definition hash_handle_close (h : SgxHandle) : ST W (SgxError * SgxHandle) :=
  handle_close (ffi_hash_close F) h.

Definition hash_handle_drop (h : SgxHandle) : ST W unit :=
  handle_drop (ffi_hash_close F) h.

End hash.

(** * MACs

    [cast] is the integer type the length is passed as: [u32] for CMAC, [i32]
    for HMAC; the size check is against [u32::MAX] in both. *)
Section mac.
Context {W : Type} (F : MacFfi W) (cast : Z -> Z) (mlen : nat).

Definition mac_sized_msg (key bs : list byte) (size : Z) : STS W (list byte) :=
  if size_rejected size then ste_err SGX_ERROR_INVALID_PARAMETER
  else
    let* (ret, mac) := ffi_mac_msg F key bs (cast size) (zeros mlen) in
    st_ret (status_result ret mac).

Definition mac_msg {T} `{ContiguousMemory T} (key : list byte) (src : T)
    : STS W (list byte) :=
  mac_sized_msg key (as_bytes src) (size_of T).

Definition mac_slice {T} `{ContiguousMemory T} (key : list byte) (src : list T)
    : STS W (list byte) :=
  mac_sized_msg key (slice_bytes src) (size_of_val src).

Definition mac_update (bs : list byte) (size handle : Z) : ST W sgx_status_t :=
  if size_rejected size then st_ret SGX_ERROR_INVALID_PARAMETER
  else ffi_mac_update F bs (cast size) handle.

Definition mac_handle_init (key : list byte) (h : SgxHandle)
    : ST W (SgxError * SgxHandle) :=
  handle_init (ffi_mac_init F key) h.

Definition mac_handle_update_msg {T} `{ContiguousMemory T} (src : T)
    (h : SgxHandle) : STS W unit :=
  handle_use (fun p => no_out (mac_update (as_bytes src) (size_of T) p)) h.

Definition mac_handle_update_slice {T} `{ContiguousMemory T} (src : list T)
    (h : SgxHandle) : STS W unit :=
  handle_use (fun p => no_out (mac_update (slice_bytes src) (size_of_val src) p)) h.

Definition mac_handle_get_hash (h : SgxHandle) : STS W (list byte) :=
  handle_use (fun p => ffi_mac_final F p (zeros mlen)) h.

Definition mac_handle_close (h : SgxHandle) : ST W (SgxError * SgxHandle) :=
  handle_close (ffi_mac_close F) h.

Definition mac_handle_drop (h : SgxHandle) : ST W unit :=
  handle_drop (ffi_mac_close F) h.

End mac.

(** * The algorithms by name *)
Section algorithms.
Context `{Tcrypto W}.

Definition rsgx_sha256_msg {T} `{ContiguousMemory T} (src : T) :=
  hash_msg sha256_ffi 32 src.
Definition rsgx_sha256_slice {T} `{ContiguousMemory T} (src : list T) :=
  hash_slice sha256_ffi 32 src.
Definition rsgx_sha384_msg {T} `{ContiguousMemory T} (src : T) :=
  hash_msg sha384_ffi 48 src.
Definition rsgx_sha384_slice {T} `{ContiguousMemory T} (src : list T) :=
  hash_slice sha384_ffi 48 src.
Definition rsgx_sha1_msg {T} `{ContiguousMemory T} (src : T) :=
  hash_msg sha1_ffi 20 src.
Definition rsgx_sha1_slice {T} `{ContiguousMemory T} (src : list T) :=
  hash_slice sha1_ffi 20 src.

(** [sgx_align_mac_128bit_t] wraps the same tag, so the [align] variants are
    the same functions. *)
Definition rsgx_rijndael128_cmac_msg {T} `{ContiguousMemory T} (key : list byte) (src : T) :=
  mac_msg cmac_ffi (wrap 32) 16 key src.
Definition rsgx_rijndael128_align_cmac_msg {T} `{ContiguousMemory T} (key : list byte) (src : T) :=
  mac_msg cmac_ffi (wrap 32) 16 key src.
Definition rsgx_rijndael128_cmac_slice {T} `{ContiguousMemory T} (key : list byte) (src : list T) :=
  mac_slice cmac_ffi (wrap 32) 16 key src.
Definition rsgx_rijndael128_align_cmac_slice {T} `{ContiguousMemory T} (key : list byte) (src : list T) :=
  mac_slice cmac_ffi (wrap 32) 16 key src.
Definition rsgx_hmac_sha256_msg {T} `{ContiguousMemory T} (key : list byte) (src : T) :=
  mac_msg hmac_ffi (swrap 32) 32 key src.
Definition rsgx_align_hmac_sha256_msg {T} `{ContiguousMemory T} (key : list byte) (src : T) :=
  mac_msg hmac_ffi (swrap 32) 32 key src.
Definition rsgx_hmac_sha256_slice {T} `{ContiguousMemory T} (key : list byte) (src : list T) :=
  mac_slice hmac_ffi (swrap 32) 32 key src.
Definition rsgx_align_hmac_sha256_slice {T} `{ContiguousMemory T} (key : list byte) (src : list T) :=
  mac_slice hmac_ffi (swrap 32) 32 key src.

(** ** The handle objects by name *)

(** [SgxShaHandle] *)
Definition sha256_handle_init (h : SgxHandle) := hash_handle_init sha256_ffi h.
Definition sha256_handle_update_msg {T} `{ContiguousMemory T} (src : T) (h : SgxHandle) :=
  hash_handle_update_msg sha256_ffi src h.
Definition sha256_handle_update_slice {T} `{ContiguousMemory T} (src : list T)
    (h : SgxHandle) := hash_handle_update_slice sha256_ffi src h.
Definition sha256_handle_get_hash (h : SgxHandle) := hash_handle_get_hash sha256_ffi 32 h.
Definition sha256_handle_close (h : SgxHandle) := hash_handle_close sha256_ffi h.
Definition sha256_handle_drop (h : SgxHandle) := hash_handle_drop sha256_ffi h.

(** [SgxSha384Handle] *)
Definition sha384_handle_init (h : SgxHandle) := hash_handle_init sha384_ffi h.
Definition sha384_handle_update_msg {T} `{ContiguousMemory T} (src : T) (h : SgxHandle) :=
  hash_handle_update_msg sha384_ffi src h.
Definition sha384_handle_update_slice {T} `{ContiguousMemory T} (src : list T)
    (h : SgxHandle) := hash_handle_update_slice sha384_ffi src h.
Definition sha384_handle_get_hash (h : SgxHandle) := hash_handle_get_hash sha384_ffi 48 h.
Definition sha384_handle_close (h : SgxHandle) := hash_handle_close sha384_ffi h.
Definition sha384_handle_drop (h : SgxHandle) := hash_handle_drop sha384_ffi h.

(** [SgxSha1Handle] *)
Definition sha1_handle_init (h : SgxHandle) := hash_handle_init sha1_ffi h.
Definition sha1_handle_update_msg {T} `{ContiguousMemory T} (src : T) (h : SgxHandle) :=
  hash_handle_update_msg sha1_ffi src h.
Definition sha1_handle_update_slice {T} `{ContiguousMemory T} (src : list T)
    (h : SgxHandle) := hash_handle_update_slice sha1_ffi src h.
Definition sha1_handle_get_hash (h : SgxHandle) := hash_handle_get_hash sha1_ffi 20 h.
Definition sha1_handle_close (h : SgxHandle) := hash_handle_close sha1_ffi h.
Definition sha1_handle_drop (h : SgxHandle) := hash_handle_drop sha1_ffi h.

(** [SgxCmacHandle]; [get_align_hash] wraps the same tag. *)
Definition cmac_handle_init (key : list byte) (h : SgxHandle) := mac_handle_init cmac_ffi key h.
Definition cmac_handle_update_msg {T} `{ContiguousMemory T} (src : T) (h : SgxHandle) :=
  mac_handle_update_msg cmac_ffi (wrap 32) src h.
Definition cmac_handle_update_slice {T} `{ContiguousMemory T} (src : list T)
    (h : SgxHandle) := mac_handle_update_slice cmac_ffi (wrap 32) src h.
Definition cmac_handle_get_hash (h : SgxHandle) := mac_handle_get_hash cmac_ffi 16 h.
Definition cmac_handle_get_align_hash (h : SgxHandle) := mac_handle_get_hash cmac_ffi 16 h.
Definition cmac_handle_close (h : SgxHandle) := mac_handle_close cmac_ffi h.
Definition cmac_handle_drop (h : SgxHandle) := mac_handle_drop cmac_ffi h.

(** [SgxHmacHandle]; [get_align_hash] wraps the same tag. *)
Definition hmac_handle_init (key : list byte) (h : SgxHandle) := mac_handle_init hmac_ffi key h.
Definition hmac_handle_update_msg {T} `{ContiguousMemory T} (src : T) (h : SgxHandle) :=
  mac_handle_update_msg hmac_ffi (swrap 32) src h.
Definition hmac_handle_update_slice {T} `{ContiguousMemory T} (src : list T)
    (h : SgxHandle) := mac_handle_update_slice hmac_ffi (swrap 32) src h.
Definition hmac_handle_get_hash (h : SgxHandle) := mac_handle_get_hash hmac_ffi 32 h.
Definition hmac_handle_get_align_hash (h : SgxHandle) := mac_handle_get_hash hmac_ffi 32 h.
Definition hmac_handle_close (h : SgxHandle) := mac_handle_close hmac_ffi h.
Definition hmac_handle_drop (h : SgxHandle) := mac_handle_drop hmac_ffi h.

End algorithms.

(** * Authenticated encryption *)
Section gcm.
Context `{Tcrypto W}.

(** A slice passed as a pointer that is null when the slice is empty. *)
Definition null_if_empty (l : list byte) : option (list byte) :=
  if zlen l =? 0 then None else Some l.

(** Result, new [dst], new [mac]. *)
Definition rsgx_rijndael128GCM_encrypt (key src iv aad dst mac : list byte)
    : ST W (SgxError * list byte * list byte) :=
  let bad := st_ret (Err SGX_ERROR_INVALID_PARAMETER, dst, mac) in
  if zlen src >? u32_max then bad
  else if negb (zlen iv =? SGX_AESGCM_IV_SIZE) then bad
  else if zlen aad >? u32_max then bad
  else if zlen dst >? u32_max then bad
  else if zlen dst <? zlen src then bad
  else
    let p_aad := null_if_empty aad in
    let '(p_src, p_dst) :=
      if negb (zlen src =? 0) then (Some src, Some dst) else (None, None) in
    let* (ret, dst', mac') :=
      ffi_gcm_encrypt gcm_ffi key p_src (wrap 32 (zlen src)) p_dst
        iv (wrap 32 (zlen iv)) p_aad (wrap 32 (zlen aad)) mac in
    st_ret (status_result ret tt, default dst dst', mac').

(** Result, new [dst]. *)
Definition rsgx_rijndael128GCM_decrypt (key src iv aad mac dst : list byte)
    : ST W (SgxError * list byte) :=
  let bad := st_ret (Err SGX_ERROR_INVALID_PARAMETER, dst) in
  if zlen src >? u32_max then bad
  else if negb (zlen iv =? SGX_AESGCM_IV_SIZE) then bad
  else if zlen aad >? u32_max then bad
  else if zlen dst >? u32_max then bad
  else if zlen dst <? zlen src then bad
  else
    let p_aad := null_if_empty aad in
    let '(p_src, p_dst) :=
      if negb (zlen src =? 0) then (Some src, Some dst) else (None, None) in
    let* (ret, dst') :=
      ffi_gcm_decrypt gcm_ffi key p_src (wrap 32 (zlen src)) p_dst
        iv (wrap 32 (zlen iv)) p_aad (wrap 32 (zlen aad)) mac in
    st_ret (status_result ret tt, default dst dst').

(** Result, new counter block, new [dst]. *)
Definition aes_ctr_call
    (f : list byte -> list byte -> Z -> list byte -> Z -> list byte ->
         ST W (sgx_status_t * list byte * list byte))
    (key src ctr : list byte) (ctr_inc_bits : Z) (dst : list byte)
    : ST W (SgxError * list byte * list byte) :=
  let bad := st_ret (Err SGX_ERROR_INVALID_PARAMETER, ctr, dst) in
  if zlen src >? u32_max then bad
  else if zlen src <? 1 then bad
  else if zlen dst >? u32_max then bad
  else if zlen dst <? zlen src then bad
  else
    let* (ret, ctr', dst') := f key src (wrap 32 (zlen src)) ctr ctr_inc_bits dst in
    st_ret (status_result ret tt, ctr', dst').

Definition rsgx_aes_ctr_encrypt := aes_ctr_call (ffi_ctr_encrypt ctr_ffi).
Definition rsgx_aes_ctr_decrypt := aes_ctr_call (ffi_ctr_decrypt ctr_ffi).

(** ** [SgxAesHandle]: incremental encryption *)
Definition rsgx_aes_gcm128_enc_init (key iv aad : list byte) (handle : Z)
    : ST W (sgx_status_t * Z) :=
  if negb (zlen iv =? SGX_AESGCM_IV_SIZE) then st_ret (SGX_ERROR_INVALID_PARAMETER, handle)
  else if zlen aad >? u32_max then st_ret (SGX_ERROR_INVALID_PARAMETER, handle)
  else ffi_aes_init aes_ffi key iv (wrap 32 (zlen iv)) (null_if_empty aad)
         (wrap 32 (zlen aad)) handle.

Definition rsgx_aes_gcm128_enc_update (src dst : list byte) (handle : Z)
    : ST W (sgx_status_t * list byte) :=
  let bad := st_ret (SGX_ERROR_INVALID_PARAMETER, dst) in
  if zlen src >? u32_max then bad
  else if zlen src =? 0 then bad
  else if zlen dst >? u32_max then bad
  else if (zlen dst =? 0) || (zlen dst <? zlen src) then bad
  else ffi_aes_update aes_ffi src (wrap 32 (zlen src)) dst handle.

Definition aes_handle_init (key iv aad : list byte) (h : SgxHandle)
    : ST W (SgxError * SgxHandle) :=
  handle_init (rsgx_aes_gcm128_enc_init key iv aad) h.

(** Result, new [dst]. *)
Definition aes_handle_update (src dst : list byte) (h : SgxHandle)
    : ST W (SgxError * list byte) :=
  if negb (h_initflag h) then st_ret (Err SGX_ERROR_INVALID_STATE, dst)
  else
    let* (ret, dst') := rsgx_aes_gcm128_enc_update src dst (h_ptr h) in
    st_ret (status_result ret tt, dst').

Definition aes_handle_get_mac (h : SgxHandle) : STS W (list byte) :=
  handle_use (fun p => ffi_aes_get_mac aes_ffi (zeros 16) p) h.

Definition aes_handle_get_align_mac (h : SgxHandle) : STS W (list byte) :=
  handle_use (fun p => ffi_aes_get_mac aes_ffi (zeros 16) p) h.

Definition aes_handle_drop (h : SgxHandle) : ST W unit :=
  handle_drop (ffi_aes_close aes_ffi) h.

Definition aes_handle_close (h : SgxHandle) : ST W (SgxError * SgxHandle) :=
  handle_close (ffi_aes_close aes_ffi) h.

End gcm.

(** * Elliptic curves *)
Inductive sgx_generic_ecresult_t : Type :=
| SGX_EC_VALID | SGX_EC_COMPOSITE_BASE | SGX_EC_COMPLICATED_BASE
| SGX_EC_IS_ZERO_DISCRIMINANT | SGX_EC_COMPOSITE_ORDER | SGX_EC_INVALID_ORDER
| SGX_EC_IS_WEAK_MOV | SGX_EC_IS_WEAK_SSA | SGX_EC_IS_SUPER_SINGULAR
| SGX_EC_INVALID_PRIVATE_KEY | SGX_EC_INVALID_PUBLIC_KEY
| SGX_EC_INVALID_KEY_PAIR | SGX_EC_POINT_OUT_OF_GROUP
| SGX_EC_POINT_IS_AT_INFINITY | SGX_EC_POINT_IS_NOT_VALID
| SGX_EC_POINT_IS_EQUAL | SGX_EC_POINT_IS_NOT_EQUAL | SGX_EC_INVALID_SIGNATURE.

#[export] Instance sgx_generic_ecresult_t_eq_dec : EqDecision sgx_generic_ecresult_t.
Proof. solve_decision. Defined.

(** The values in the order of their discriminants 0, 1, ..., 0x11. *)
Definition ecresults : list sgx_generic_ecresult_t :=
  [SGX_EC_VALID; SGX_EC_COMPOSITE_BASE; SGX_EC_COMPLICATED_BASE;
   SGX_EC_IS_ZERO_DISCRIMINANT; SGX_EC_COMPOSITE_ORDER; SGX_EC_INVALID_ORDER;
   SGX_EC_IS_WEAK_MOV; SGX_EC_IS_WEAK_SSA; SGX_EC_IS_SUPER_SINGULAR;
   SGX_EC_INVALID_PRIVATE_KEY; SGX_EC_INVALID_PUBLIC_KEY;
   SGX_EC_INVALID_KEY_PAIR; SGX_EC_POINT_OUT_OF_GROUP;
   SGX_EC_POINT_IS_AT_INFINITY; SGX_EC_POINT_IS_NOT_VALID;
   SGX_EC_POINT_IS_EQUAL; SGX_EC_POINT_IS_NOT_EQUAL; SGX_EC_INVALID_SIGNATURE].

Definition ecresult_from_repr (v : Z) : option sgx_generic_ecresult_t :=
  if v <? 0 then None else ecresults !! Z.to_nat v.

Section ecc.
Context `{Tcrypto W}.

Definition ecc_open (h : SgxHandle) : ST W (SgxError * SgxHandle) :=
  handle_init (ffi_ecc_open ecc_ffi) h.

Definition ecc_create_key_pair (h : SgxHandle)
    : STS W (list byte * sgx_ec256_public_t) :=
  handle_use (ffi_ecc_create_key_pair ecc_ffi (zeros 32) ec256_public_default) h.

(** [sgx_align_ec256_private_t] wraps the same key. *)
Definition ecc_create_align_key_pair (h : SgxHandle)
    : STS W (list byte * sgx_ec256_public_t) :=
  handle_use (ffi_ecc_create_key_pair ecc_ffi (zeros 32) ec256_public_default) h.

Definition ecc_check_point (point : sgx_ec256_public_t) (h : SgxHandle) : STS W bool :=
  let? valid := handle_use (fun p => ffi_ecc_check_point ecc_ffi point p 0) h in
  ste_ok (valid >? 0).

Definition ecc_compute_shared_dhkey (private_b : list byte)
    (public_ga : sgx_ec256_public_t) (h : SgxHandle) : STS W (list byte) :=
  handle_use (ffi_ecc_compute_shared_dhkey ecc_ffi private_b public_ga (zeros 32)) h.

Definition ecc_compute_align_shared_dhkey (private_b : list byte)
    (public_ga : sgx_ec256_public_t) (h : SgxHandle) : STS W (list byte) :=
  handle_use (ffi_ecc_compute_shared_dhkey ecc_ffi private_b public_ga (zeros 32)) h.

Definition rsgx_ecdsa_sign (bs : list byte) (size : Z) (private sig : list byte)
    (handle : Z) : ST W (sgx_status_t * list byte) :=
  if size_rejected size then st_ret (SGX_ERROR_INVALID_PARAMETER, sig)
  else ffi_ecdsa_sign ecc_ffi bs (wrap 32 size) private sig handle.

Definition ecc_ecdsa_sign_msg {T} `{ContiguousMemory T} (data : T)
    (private : list byte) (h : SgxHandle) : STS W (list byte) :=
  handle_use (rsgx_ecdsa_sign (as_bytes data) (size_of T) private (zeros 64)) h.

Definition ecc_ecdsa_sign_slice {T} `{ContiguousMemory T} (data : list T)
    (private : list byte) (h : SgxHandle) : STS W (list byte) :=
  handle_use (rsgx_ecdsa_sign (slice_bytes data) (size_of_val data) private (zeros 64)) h.

(** The verdict the C function left in [verify], decoded; anything but a
    success is an invalid signature. *)
Definition ecdsa_verdict (ret : sgx_status_t) (verify : Z) : sgx_generic_ecresult_t :=
  if decide (ret = SGX_SUCCESS)
  then default SGX_EC_INVALID_SIGNATURE (ecresult_from_repr verify)
  else SGX_EC_INVALID_SIGNATURE.

(** [result] keeps its old value when the size is refused. *)
Definition rsgx_ecdsa_verify (bs : list byte) (size : Z)
    (public : sgx_ec256_public_t) (sig : list byte)
    (result : sgx_generic_ecresult_t) (handle : Z)
    : ST W (sgx_status_t * sgx_generic_ecresult_t) :=
  if size_rejected size then st_ret (SGX_ERROR_INVALID_PARAMETER, result)
  else
    let* (ret, verify) :=
      ffi_ecdsa_verify ecc_ffi bs (wrap 32 size) public sig 0 handle in
    st_ret (ret, ecdsa_verdict ret verify).

Definition rsgx_ecdsa_verify_hash (hash : list byte) (public : sgx_ec256_public_t)
    (sig : list byte) (handle : Z) : ST W (sgx_status_t * sgx_generic_ecresult_t) :=
  let* (ret, verify) := ffi_ecdsa_verify_hash ecc_ffi hash public sig 0 handle in
  st_ret (ret, ecdsa_verdict ret verify).

Definition ecc_ecdsa_verify_msg {T} `{ContiguousMemory T} (data : T)
    (public : sgx_ec256_public_t) (sig : list byte) (h : SgxHandle) : STS W bool :=
  let? result := handle_use
    (rsgx_ecdsa_verify (as_bytes data) (size_of T) public sig SGX_EC_VALID) h in
  ste_ok (bool_decide (result = SGX_EC_VALID)).

Definition ecc_ecdsa_verify_slice {T} `{ContiguousMemory T} (data : list T)
    (public : sgx_ec256_public_t) (sig : list byte) (h : SgxHandle) : STS W bool :=
  let? result := handle_use
    (rsgx_ecdsa_verify (slice_bytes data) (size_of_val data) public sig SGX_EC_VALID) h in
  ste_ok (bool_decide (result = SGX_EC_VALID)).

Definition ecc_ecdsa_verify_hash (hash : list byte) (public : sgx_ec256_public_t)
    (sig : list byte) (h : SgxHandle) : STS W bool :=
  let? result := handle_use (rsgx_ecdsa_verify_hash hash public sig) h in
  ste_ok (bool_decide (result = SGX_EC_VALID)).

Definition ecc_close (h : SgxHandle) : ST W (SgxError * SgxHandle) :=
  handle_close (ffi_ecc_close ecc_ffi) h.

Definition ecc_drop (h : SgxHandle) : ST W unit :=
  handle_drop (ffi_ecc_close ecc_ffi) h.

End ecc.
