(* ===== verification/TcryptoHandles.v ===== *)
(** TcryptoHandles: the protocol of the handle objects of sgx_tcrypto.

    A program holds any number of [SgxShaHandle] objects and calls their
    methods in any order.  The C library's contexts are the addresses that are
    [live] in its world.  The theorems show that the objects never hand the C
    library a handle that is not live (no null, no use after close), and that
    the live contexts are exactly those of the open objects (no leak). *)
From Stdlib Require Import ZArith Lia Strings.Byte.
From stdpp Require Import base numbers list option tactics gmap.
From S2P Require Import Prelude SgxStatus SgxTypes Trts Tcrypto.

(** * Monitoring the C library

    The same functions, with a flag beside the world that a call on a handle
    that is not live clears. *)
Section monitor.
Context {W : Type} (live : W -> gset Z) (F : HashFfi W).

Definition watch {A} (p : Z) (m : ST W A) : ST (W * bool) A := fun '(w, ok) =>
  let '(a, w') := m w in (a, (w', andb ok (bool_decide (p ∈ live w)))).

Definition blind {A} (m : ST W A) : ST (W * bool) A := fun '(w, ok) =>
  let '(a, w') := m w in (a, (w', ok)).

Definition monitored : HashFfi (W * bool) := {|
  ffi_hash_msg bs n out := blind (ffi_hash_msg F bs n out);
  ffi_hash_init p := blind (ffi_hash_init F p);
  ffi_hash_update bs n p := watch p (ffi_hash_update F bs n p);
  ffi_hash_get p out := watch p (ffi_hash_get F p out);
  ffi_hash_close p := watch p (ffi_hash_close F p)
|}.

End monitor.

(** * The library's contract

    What the Intel documentation says of the context functions: a successful
    [init] opens a new context, [update] and [get_hash] keep the open ones,
    [close] of an open context succeeds and closes that one. *)
Class HashContexts {W} (live : W -> gset Z) (F : HashFfi W) : Prop := {
  contexts_nonnull w : (0 ∉ live w);
  init_opens p w ret q w' : ffi_hash_init F p w = ((ret, q), w') ->
    if decide (ret = SGX_SUCCESS)
    then (q ∉ live w) /\ live w' = {[q]} ∪ live w else live w' = live w;
  update_keeps bs n p w ret w' : p ∈ live w ->
    ffi_hash_update F bs n p w = (ret, w') -> live w' = live w;
  get_keeps p out w r w' : p ∈ live w ->
    ffi_hash_get F p out w = (r, w') -> live w' = live w;
  close_closes p w ret w' : p ∈ live w ->
    ffi_hash_close F p w = (ret, w') ->
    ret = SGX_SUCCESS /\ live w' = live w ∖ {[p]}
}.

(** * Programs over handle objects *)
Inductive handle_op : Type :=
| OpNew
| OpInit
| OpUpdate (src : list byte)
| OpGetHash
| OpClose
| OpDrop.

(** The objects, by name, and the world. *)
Abbreviation objects := (gmap nat SgxHandle).

Section exec.
Context {W : Type} (F : HashFfi W) (hlen : nat).

(** One call on object [i]; a call on an object that does not exist, or the
    construction of one that does, is not a program step and does nothing. *)
Definition exec_op (i : nat) (op : handle_op) (s : objects * W) : objects * W :=
  let '(objs, w) := s in
  match op, objs !! i with
  | OpNew, None => (<[i := handle_new]> objs, w)
  | OpInit, Some h =>
      let '((_, h'), w') := hash_handle_init F h w in (<[i := h']> objs, w')
  | OpUpdate src, Some h =>
      let '(_, w') := hash_handle_update_slice F src h w in (objs, w')
  | OpGetHash, Some h =>
      let '(_, w') := hash_handle_get_hash F hlen h w in (objs, w')
  | OpClose, Some h =>
      let '((_, h'), w') := hash_handle_close F h w in (<[i := h']> objs, w')
  | OpDrop, Some h =>
      let '(_, w') := hash_handle_drop F h w in (delete i objs, w')
  | _, _ => (objs, w)
  end.

Fixpoint exec_ops (ops : list (nat * handle_op)) (s : objects * W) : objects * W :=
  match ops with
  | [] => s
  | (i, op) :: ops => exec_ops ops (exec_op i op s)
  end.

End exec.

(** * The invariant *)

(** The contexts of the open objects, and that no two objects share one. *)
Definition open_at (objs : objects) (i : nat) (p : Z) : Prop :=
  exists h, objs !! i = Some h /\ h_initflag h = true /\ h_ptr h = p.

Record handles_inv {W} (live : W -> gset Z) (s : objects * (W * bool)) : Prop := {
  inv_no_bad_call : s.2.2 = true;
  inv_live_iff p : p ∈ live s.2.1 <-> exists i, open_at s.1 i p;
  inv_distinct i j p : open_at s.1 i p -> open_at s.1 j p -> i = j
}.

Section proofs.
Context {W : Type} {live : W -> gset Z} {F : HashFfi W} `{!HashContexts live F}.
Context (hlen : nat).

Lemma open_at_insert objs i h j p :
  open_at (<[i := h]> objs) j p <->
  if decide (i = j) then h_initflag h = true /\ h_ptr h = p else open_at objs j p.
Proof.
  unfold open_at. destruct (decide (i = j)) as [->|].
  - setoid_rewrite lookup_insert_eq. naive_solver.
  - setoid_rewrite lookup_insert_ne; [|done]. done.
Qed.

Lemma open_at_delete objs i j p :
  open_at (delete i objs) j p <-> i <> j /\ open_at objs j p.
Proof.
  unfold open_at. destruct (decide (i = j)) as [->|].
  - setoid_rewrite lookup_delete_eq. naive_solver.
  - setoid_rewrite lookup_delete_ne; [|done]. naive_solver.
Qed.

(** Replacing or deleting an object that was not open, by one that is not. *)
Lemma inv_closed_insert objs w b i h :
  handles_inv live (objs, (w, b)) -> h_initflag h = false ->
  (forall p, ~ open_at objs i p) -> handles_inv live (<[i := h]> objs, (w, b)).
Proof.
  intros [I1 I2 I3] Hh Hc. split; simpl in *.
  - done.
  - intros p. rewrite I2. setoid_rewrite open_at_insert. split.
    + intros [j Hj]. exists j. destruct (decide (i = j)) as [->|]; [by destruct (Hc p)|done].
    + intros [j Hj]. exists j. destruct (decide (i = j)) as [->|]; [destruct Hj; congruence|done].
  - intros j k p. rewrite !open_at_insert.
    destruct (decide (i = j)), (decide (i = k)); naive_solver congruence.
Qed.

Lemma inv_delete_closed objs w b i :
  handles_inv live (objs, (w, b)) -> (forall p, ~ open_at objs i p) ->
  handles_inv live (delete i objs, (w, b)).
Proof.
  intros [I1 I2 I3] Hc. split; simpl in *; [done| |].
  - intros p. rewrite I2. setoid_rewrite open_at_delete.
    split; [intros [j Hj]; exists j; split; [|done]|naive_solver].
    intros ->. by destruct (Hc p).
  - intros j k p. rewrite !open_at_delete. naive_solver.
Qed.

(** The world changes, the live contexts do not. *)
Lemma inv_world objs w b w' b' :
  handles_inv live (objs, (w, b)) -> live w' = live w -> b' = b ->
  handles_inv live (objs, (w', b')).
Proof. intros [I1 I2 I3] E ->. split; simpl in *; [done| |done]. by rewrite E. Qed.

(** An open object's handle is live. *)
Lemma inv_open_live objs w b i h :
  handles_inv live (objs, (w, b)) -> objs !! i = Some h ->
  h_initflag h = true -> h_ptr h ∈ live w.
Proof. intros [_ I2 _] Hi Hf. apply I2. exists i, h. done. Qed.

Lemma not_open_at objs i h p :
  objs !! i = Some h -> h_initflag h = false -> ~ open_at objs i p.
Proof. intros Hi Hf (h' & ? & ? & ?). simplify_eq. congruence. Qed.

(** A fresh context for an object that was not open. *)
Lemma inv_open_insert objs w b i q w' :
  handles_inv live (objs, (w, b)) -> (forall p, ~ open_at objs i p) ->
  q ∉ live w -> live w' = {[q]} ∪ live w ->
  handles_inv live
    (<[i := {| h_ptr := q; h_initflag := true |}]> objs, (w', b)).
Proof.
  intros [I1 I2 I3] Hc Hq E. split; simpl in *; [done| |].
  - intros p. rewrite E, elem_of_union, elem_of_singleton, I2.
    setoid_rewrite open_at_insert. simpl. split.
    + intros [->|[j Hj]]; [exists i; by rewrite decide_True|].
      exists j. destruct (decide (i = j)) as [->|]; [by destruct (Hc p)|done].
    + intros [j Hj]. destruct (decide (i = j)); naive_solver.
  - assert (forall j, ~ open_at objs j q) as Hn.
    { intros j Hj. apply Hq, I2. by exists j. }
    intros j k p. rewrite !open_at_insert. simpl.
    destruct (decide (i = j)), (decide (i = k)); naive_solver.
Qed.

(** An open object is closed in the library and forgotten or cleared. *)
Lemma inv_close_at objs w b i p w' :
  handles_inv live (objs, (w, b)) -> open_at objs i p ->
  live w' = live w ∖ {[p]} ->
  handles_inv live (delete i objs, (w', b)).
Proof.
  intros [I1 I2 I3] Hi E. split; simpl in *; [done| |].
  - intros p'. rewrite E, elem_of_difference, elem_of_singleton, I2.
    setoid_rewrite open_at_delete. split.
    + intros [[j Hj] Hne]. exists j. split; [|done]. intros ->.
      destruct Hi as (h & ? & ? & ?), Hj as (h' & ? & ? & ?). naive_solver.
    + intros [j [Hne Hj]]. split; [by exists j|]. intros ->. by eapply Hne, I3.
  - intros j k p'. rewrite !open_at_delete. naive_solver.
Qed.

(** [handle_use] on an object of the program, with a watched function that
    keeps the live contexts, keeps the invariant. *)
Lemma inv_use {A} (f : Z -> ST (W * bool) (sgx_status_t * A)) objs i h wb r wb' :
  handles_inv live (objs, wb) -> objs !! i = Some h ->
  (forall p x wb1, p ∈ live wb.1 -> f p wb = (x, wb1) ->
     live wb1.1 = live wb.1 /\ wb1.2 = wb.2) ->
  handle_use f h wb = (r, wb') -> handles_inv live (objs, wb').
Proof.
  intros I Hi Hf. unfold handle_use. destruct (h_initflag h) eqn:Ef; simpl.
  - run_st. destruct (f (h_ptr h) wb) as [[ret a] wb1] eqn:E. intros. simplify_eq.
    destruct wb as [w b], wb' as [w' b'].
    apply Hf in E as [??]; [|by eapply inv_open_live]. by eapply inv_world.
  - run_st. intros. by simplify_eq.
Qed.

Lemma inv_init objs i h w b r h' wb' :
  handles_inv live (objs, (w, b)) -> objs !! i = Some h ->
  hash_handle_init (monitored live F) h (w, b) = ((r, h'), wb') ->
  handles_inv live (<[i := h']> objs, wb').
Proof.
  intros I Hi. unfold hash_handle_init, handle_init. destruct (h_initflag h) eqn:Ef.
  { run_st. intros. simplify_eq. by rewrite insert_id. }
  pose proof (fun p => not_open_at objs i h p Hi Ef) as Hc.
  run_st. simpl. destruct (ffi_hash_init F (h_ptr h) w) as [[ret q] w'] eqn:E.
  apply init_opens in E. case_decide; intros; simplify_eq/=.
  - destruct E. by eapply inv_open_insert.
  - apply inv_closed_insert; [by eapply inv_world|done|done].
Qed.

Lemma inv_close objs i h w b r h' wb' :
  handles_inv live (objs, (w, b)) -> objs !! i = Some h ->
  hash_handle_close (monitored live F) h (w, b) = ((r, h'), wb') ->
  handles_inv live (<[i := h']> objs, wb') /\
  handles_inv live (delete i objs, wb').
Proof.
  intros I Hi. unfold hash_handle_close, handle_close.
  destruct (h_initflag h) eqn:Ef; simpl.
  - pose proof (inv_open_live _ _ _ _ _ I Hi Ef) as Hl.
    destruct (Z.eqb_spec (h_ptr h) 0) as [E0|_].
    { rewrite E0 in Hl. by apply contexts_nonnull in Hl. }
    run_st. simpl. destruct (ffi_hash_close F (h_ptr h) w) as [ret w'] eqn:E.
    apply close_closes in E as [-> E]; [|done].
    rewrite decide_True by done. rewrite bool_decide_true by done.
    intros. simplify_eq. rewrite andb_true_r.
    assert (handles_inv live (delete i objs, (w', b))) as I'.
    { eapply inv_close_at; [done|by exists h|done]. }
    split; [|done]. rewrite <- insert_delete_eq.
    apply inv_closed_insert; [done|done|]. intros p. rewrite open_at_delete. naive_solver.
  - pose proof (fun p => not_open_at objs i h p Hi Ef) as Hc.
    run_st. intros. simplify_eq. split; [by rewrite insert_id|by apply inv_delete_closed].
Qed.

Lemma exec_op_inv i op objs wb :
  handles_inv live (objs, wb) ->
  handles_inv live (exec_op (monitored live F) hlen i op (objs, wb)).
Proof.
  intros I. destruct wb as [w b]. unfold exec_op.
  destruct op, (objs !! i) as [h|] eqn:Hi; try done.
  - apply inv_closed_insert; [done|done|]. intros p (h & ? & _). congruence.
  - destruct (hash_handle_init _ h _) as [[r h'] wb'] eqn:E. by eapply inv_init.
  - unfold hash_handle_update_slice. case_match eqn:E. eapply inv_use; [done..| |exact E].
    intros q1 x wb1 Hq. unfold no_out, hash_update.
    destruct (size_rejected _); run_st; simpl.
    + intros. by simplify_eq.
    + destruct (ffi_hash_update F _ _ q1 w) as [s1 w1] eqn:Eu.
      intros. simplify_eq/=. apply update_keeps in Eu; [|done].
      rewrite bool_decide_true by done. by rewrite andb_true_r.
  - unfold hash_handle_get_hash. case_match eqn:E. eapply inv_use; [done..| |exact E].
    intros q1 x wb1 Hq. simpl. destruct (ffi_hash_get F q1 _ w) as [s1 w1] eqn:Eu.
    intros. simplify_eq/=. apply get_keeps in Eu; [|done]. rewrite bool_decide_true by done. by rewrite andb_true_r.
  - destruct (hash_handle_close _ h _) as [[r h'] wb'] eqn:E. by eapply inv_close.
  - unfold hash_handle_drop, handle_drop. run_st.
    destruct (handle_close _ h _) as [[r h'] wb'] eqn:E.
    eapply inv_close in E; [|done..]. by destruct E.
Qed.

Lemma exec_ops_inv ops s :
  handles_inv live s -> handles_inv live (exec_ops (monitored live F) hlen ops s).
Proof.
  revert s. induction ops as [|[i op] ops IH]; intros [objs wb] I; simpl; [done|].
  apply IH. by apply exec_op_inv.
Qed.

Lemma handles_inv_start w : live w = ∅ -> handles_inv live (∅, (w, true)).
Proof.
  intros E. split; simpl; [done| |].
  - intros p. rewrite E. split; [set_solver|]. intros (i & h & Hh & _). done.
  - intros i j p (h & Hh & _). done.
Qed.

End proofs.

(** Handle safety.  Start with no hash context open and run any sequence
    of constructor, [init], [update_slice], [get_hash], [close] and drop calls
    on any number of hash-handle objects, interleaved in any order: the C
    library is never called with a handle that is null, closed or otherwise
    not live, and at the end its live contexts are exactly those of the
    objects that are still open, one each. *)
Theorem hash_handles_safe {W} (live : W -> gset Z) (F : HashFfi W)
    `{!HashContexts live F} hlen ops w :
  live w = ∅ ->
  let '(objs, (w', no_bad_call)) :=
    exec_ops (monitored live F) hlen ops (∅, (w, true)) in
  no_bad_call = true /\
  (forall p, p ∈ live w' <-> exists i, open_at objs i p) /\
  (forall i j p, open_at objs i p -> open_at objs j p -> i = j).
Proof.
  intros E. pose proof (exec_ops_inv hlen ops _ (handles_inv_start w E)) as I.
  destruct (exec_ops _ _ _ _) as [objs [w' b]]. by destruct I.
Qed.

(** * A concrete library

    The world is the set of the contexts in use; [init] picks an address that
    is neither null nor in use.  It satisfies the contract, so the theorem
    applies to it. *)
Definition toy_hash : HashFfi (gset Z) := {|
  ffi_hash_msg bs n out := st_ret (SGX_SUCCESS, le_bytes 32 (zlen bs));
  ffi_hash_init p := fun l =>
    let q := fresh ({[0]} ∪ l) in ((SGX_SUCCESS, q), {[q]} ∪ l);
  ffi_hash_update bs n p := st_ret SGX_SUCCESS;
  ffi_hash_get p out := st_ret (SGX_SUCCESS, out);
  ffi_hash_close p := fun l => (SGX_SUCCESS, l ∖ {[p]})
|}.

Definition toy_live (l : gset Z) : gset Z := l ∖ {[0]}.

#[export] Instance toy_contexts : HashContexts toy_live toy_hash.
Proof.
  split; unfold toy_live; simpl; run_st.
  - set_solver.
  - intros p l ret q l' E. simplify_eq. rewrite decide_True by done.
    pose proof (is_fresh ({[0]} ∪ l)) as Hf. split; [set_solver|].
    apply set_eq. set_solver.
  - naive_solver.
  - naive_solver.
  - intros p l ret l' Hp E. simplify_eq. split; [done|]. set_solver.
Qed.

(** Two objects are opened, the first is used, closed twice and dropped. *)
Definition toy_program : list (nat * handle_op) :=
  [(0%nat, OpNew); (1%nat, OpNew); (0%nat, OpGetHash); (0%nat, OpInit);
   (1%nat, OpInit); (0%nat, OpUpdate [Byte.x01]); (0%nat, OpClose);
   (0%nat, OpClose); (0%nat, OpDrop)].

Lemma hash_handles_safe_witness :
  let '(objs, (w', no_bad_call)) :=
    exec_ops (monitored toy_live toy_hash) 32 toy_program (∅, (∅, true)) in
  no_bad_call = true /\
  (forall p, p ∈ toy_live w' <-> exists i, open_at objs i p) /\
  (forall i j p, open_at objs i p -> open_at objs j p -> i = j).
Proof.
  exact (hash_handles_safe toy_live toy_hash 32 toy_program ∅ ltac:(done)).
Defined.
