(* ===== verification/TcryptoSpec.v ===== *)
(** TcryptoSpec: what the C library promises, and what the wrappers make of it.

    [CryptoMath] is the mathematics (SHA-256, AES-CMAC, AES-GCM, ECDH on
    P-256) as functions; [TcryptoLaws] says that the C functions compute it.
    The library's open contexts are a map from handles to what they have
    absorbed.  Each law has two halves: what a success means, and that the
    call does succeed, and keeps the world [ready], when the world is [ready]
    (memory and entropy are available) and its arguments are valid.  The
    [*_spec] lemmas lift the laws to the wrappers, and [with_handle_spec] to a
    handle object that lives in a scope: it is closed on every exit path. *)
From Stdlib Require Import ZArith Lia Strings.Byte.
From stdpp Require Import base numbers list option tactics gmap.
From S2P Require Import Prelude SgxStatus SgxTypes Trts Tcrypto.

(** * The mathematics *)
Class CryptoMath := {
  sha256 : list byte -> list byte;
  cmac : list byte -> list byte -> list byte;
  pub_of : list byte -> sgx_ec256_public_t;
  ecdh : list byte -> sgx_ec256_public_t -> list byte;
  point_valid : sgx_ec256_public_t -> Prop;
  gcm_seal : list byte -> list byte -> list byte -> list byte -> list byte * list byte;
  gcm_open : list byte -> list byte -> list byte -> list byte -> list byte ->
    option (list byte)
}.

Class CryptoMathLaws `{CryptoMath} : Prop := {
  sha256_length m : length (sha256 m) = 32%nat;
  cmac_length k m : length (cmac k m) = 16%nat;
  pub_of_valid a : point_valid (pub_of a) /\ ec256_public_ok (pub_of a);
  ecdh_length a p : length (ecdh a p) = 32%nat;
  ecdh_comm a b : ecdh a (pub_of b) = ecdh b (pub_of a);
  gcm_seal_length k iv aad p :
    length (gcm_seal k iv aad p).1 = length p /\ length (gcm_seal k iv aad p).2 = 16%nat;
  gcm_open_seal k iv aad p :
    gcm_open k iv aad (gcm_seal k iv aad p).1 (gcm_seal k iv aad p).2 = Some p;
  gcm_open_length k iv aad c t p : gcm_open k iv aad c t = Some p -> length p = length c
}.

(** An open context of the library. *)
Inductive context : Type :=
| ShaContext (absorbed : list byte)
| CmacContext (key absorbed : list byte)
| EccContext.

(** * The C functions *)
Class TcryptoLaws {W} `{CryptoMath} (T : Tcrypto W)
    (contexts : W -> gmap Z context) (ready : W -> Prop) : Prop := {
  sha_init_law p w ret q w' :
    ffi_hash_init sha256_ffi p w = ((ret, q), w') ->
    contexts w' = (if decide (ret = SGX_SUCCESS)
                   then <[q := ShaContext []]> (contexts w) else contexts w) /\
    (ret = SGX_SUCCESS -> contexts w !! q = None /\ q <> 0) /\
    (ready w -> ret = SGX_SUCCESS /\ ready w');
  sha_update_law bs p d w ret w' :
    ffi_hash_update sha256_ffi bs (zlen bs) p w = (ret, w') ->
    contexts w !! p = Some (ShaContext d) ->
    (exists d', contexts w' = <[p := ShaContext d']> (contexts w) /\
                (ret = SGX_SUCCESS -> d' = d ++ bs)) /\
    (ready w -> ret = SGX_SUCCESS /\ ready w');
  sha_get_law p d h0 w ret h w' :
    ffi_hash_get sha256_ffi p h0 w = ((ret, h), w') ->
    contexts w !! p = Some (ShaContext d) ->
    contexts w' = contexts w /\ (ret = SGX_SUCCESS -> h = sha256 d) /\
    (ready w -> ret = SGX_SUCCESS /\ ready w');
  sha_close_law p c w ret w' :
    ffi_hash_close sha256_ffi p w = (ret, w') -> contexts w !! p = Some c ->
    contexts w' = delete p (contexts w) /\ (ready w -> ready w');
  cmac_msg_law k bs m0 w ret m w' :
    ffi_mac_msg cmac_ffi k bs (zlen bs) m0 w = ((ret, m), w') ->
    contexts w' = contexts w /\ (ret = SGX_SUCCESS -> m = cmac k bs) /\
    (ready w -> ret = SGX_SUCCESS /\ ready w');
  cmac_init_law k p w ret q w' :
    ffi_mac_init cmac_ffi k p w = ((ret, q), w') ->
    contexts w' = (if decide (ret = SGX_SUCCESS)
                   then <[q := CmacContext k []]> (contexts w) else contexts w) /\
    (ret = SGX_SUCCESS -> contexts w !! q = None /\ q <> 0) /\
    (ready w -> ret = SGX_SUCCESS /\ ready w');
  cmac_update_law bs p k d w ret w' :
    ffi_mac_update cmac_ffi bs (zlen bs) p w = (ret, w') ->
    contexts w !! p = Some (CmacContext k d) ->
    (exists d', contexts w' = <[p := CmacContext k d']> (contexts w) /\
                (ret = SGX_SUCCESS -> d' = d ++ bs)) /\
    (ready w -> ret = SGX_SUCCESS /\ ready w');
  cmac_final_law p k d m0 w ret m w' :
    ffi_mac_final cmac_ffi p m0 w = ((ret, m), w') ->
    contexts w !! p = Some (CmacContext k d) ->
    contexts w' = contexts w /\ (ret = SGX_SUCCESS -> m = cmac k d) /\
    (ready w -> ret = SGX_SUCCESS /\ ready w');
  cmac_close_law p c w ret w' :
    ffi_mac_close cmac_ffi p w = (ret, w') -> contexts w !! p = Some c ->
    contexts w' = delete p (contexts w) /\ (ready w -> ready w');
  ecc_open_law p w ret q w' :
    ffi_ecc_open ecc_ffi p w = ((ret, q), w') ->
    contexts w' = (if decide (ret = SGX_SUCCESS)
                   then <[q := EccContext]> (contexts w) else contexts w) /\
    (ret = SGX_SUCCESS -> contexts w !! q = None /\ q <> 0) /\
    (ready w -> ret = SGX_SUCCESS /\ ready w');
  ecc_key_pair_law a0 g0 p w ret a g w' :
    ffi_ecc_create_key_pair ecc_ffi a0 g0 p w = ((ret, (a, g)), w') ->
    contexts w !! p = Some EccContext ->
    contexts w' = contexts w /\ (ret = SGX_SUCCESS -> g = pub_of a) /\
    (ready w -> ret = SGX_SUCCESS /\ ready w');
  ecc_shared_law a g s0 p w ret s w' :
    ffi_ecc_compute_shared_dhkey ecc_ffi a g s0 p w = ((ret, s), w') ->
    contexts w !! p = Some EccContext ->
    contexts w' = contexts w /\ (ret = SGX_SUCCESS -> s = ecdh a g) /\
    (ready w -> ready w' /\ (point_valid g -> ret = SGX_SUCCESS));
  ecc_close_law p c w ret w' :
    ffi_ecc_close ecc_ffi p w = (ret, w') -> contexts w !! p = Some c ->
    contexts w' = delete p (contexts w) /\ (ready w -> ready w');
  gcm_encrypt_law k src dst iv aad t0 w ret d' t w' :
    ffi_gcm_encrypt gcm_ffi k (null_if_empty src) (zlen src) dst iv 12
      (null_if_empty aad) (zlen aad) t0 w = ((ret, d', t), w') ->
    length (default [] dst) = length src ->
    contexts w' = contexts w /\
    (ret = SGX_SUCCESS ->
       default [] d' = (gcm_seal k iv aad src).1 /\ t = (gcm_seal k iv aad src).2) /\
    (ready w -> ret = SGX_SUCCESS /\ ready w');
  gcm_decrypt_law k src dst iv aad t w ret d' w' :
    ffi_gcm_decrypt gcm_ffi k (null_if_empty src) (zlen src) dst iv 12
      (null_if_empty aad) (zlen aad) t w = ((ret, d'), w') ->
    length (default [] dst) = length src ->
    contexts w' = contexts w /\
    (ret = SGX_SUCCESS -> gcm_open k iv aad src t = Some (default [] d')) /\
    (ready w -> ready w' /\ (forall p, gcm_open k iv aad src t = Some p -> ret = SGX_SUCCESS))
}.

(** * A handle object in a scope

    [let h = X::new(); h.init()?; ...] to the end of a block: the object is
    dropped on every way out. *)
Definition with_handle {W A} (open : SgxHandle -> ST W (SgxError * SgxHandle))
    (drop : SgxHandle -> ST W unit) (on_err : sgx_status_t -> A)
    (body : SgxHandle -> ST W A) : ST W A :=
  let* (r, h) := open handle_new in
  let* res := (match r with Ok _ => body h | Err e => st_ret (on_err e) end) in
  let* _ := drop h in st_ret res.

Lemma always_with_handle {W A} (P : A -> Prop) open drop (on_err : sgx_status_t -> A)
    (body : SgxHandle -> ST W A) :
  (forall e, P (on_err e)) -> (forall h, always P (body h)) ->
  always P (with_handle open drop on_err body).
Proof.
  intros He Hb. apply always_bind. intros [r h].
  apply (always_bind_via P); [destruct r; [apply Hb|by apply always_ret]|].
  intros a Ha. apply always_bind. intros _. by apply always_ret.
Qed.

Section scoped.
Context `{Tcrypto W}.

Definition with_sha {A} (on_err : sgx_status_t -> A) : (SgxHandle -> ST W A) -> ST W A :=
  with_handle (hash_handle_init sha256_ffi) (hash_handle_drop sha256_ffi) on_err.

Definition with_cmac {A} (key : list byte) (on_err : sgx_status_t -> A)
    : (SgxHandle -> ST W A) -> ST W A :=
  with_handle (mac_handle_init cmac_ffi key) (mac_handle_drop cmac_ffi) on_err.

Definition with_ecc {A} (on_err : sgx_status_t -> A) : (SgxHandle -> ST W A) -> ST W A :=
  with_handle ecc_open ecc_drop on_err.

End scoped.

(** An open handle object. *)
Definition opened (p : Z) : SgxHandle := {| h_ptr := p; h_initflag := true |}.

Lemma size_accepted n : 0 < n <= u32_max -> size_rejected n = false /\ wrap 32 n = n.
Proof.
  intros Hn. unfold size_rejected. split; [|apply wrap_small; unfold u32_max in *; lia].
  apply orb_false_intro; [apply Z.eqb_neq|rewrite Z.gtb_ltb; apply Z.ltb_ge]; lia.
Qed.

Section specs.
Context {W : Type} `{CryptoMath} (T : Tcrypto W) (contexts : W -> gmap Z context)
  (ready : W -> Prop) `{!TcryptoLaws T contexts ready}.

(** The shape of every scope: [init] opens one fresh context or none, the body
    may change only its own context, the drop closes it. *)
Lemma with_handle_spec {A} (ffi_open : Z -> ST W (sgx_status_t * Z))
    (ffi_close : Z -> ST W sgx_status_t) c0 (on_err : sgx_status_t -> A) body Q w :
  (forall p w0 ret q w',
    ffi_open p w0 = ((ret, q), w') ->
    contexts w' = (if decide (ret = SGX_SUCCESS)
                   then <[q := c0]> (contexts w0) else contexts w0) /\
    (ret = SGX_SUCCESS -> contexts w0 !! q = None /\ q <> 0) /\
    (ready w0 -> ret = SGX_SUCCESS /\ ready w')) ->
  (forall p c w0 ret w',
    ffi_close p w0 = (ret, w') -> contexts w0 !! p = Some c ->
    contexts w' = delete p (contexts w0) /\ (ready w0 -> ready w')) ->
  (forall p w1, p <> 0 -> contexts w !! p = None ->
    contexts w1 = <[p := c0]> (contexts w) -> (ready w -> ready w1) ->
    wp (body (opened p)) (fun r w2 =>
      (exists c, contexts w2 = <[p := c]> (contexts w)) /\
      forall w3, contexts w3 = contexts w -> (ready w2 -> ready w3) -> Q r w3) w1) ->
  (forall e w1, contexts w1 = contexts w -> ~ ready w -> Q (on_err e) w1) ->
  wp (with_handle (handle_init ffi_open) (handle_drop ffi_close) on_err body) Q w.
Proof.
  intros Ho Hc Hbody Herr. unfold with_handle. apply wp_bind.
  unfold handle_init, handle_new at 1. simpl. apply wp_bind.
  destruct (ffi_open 0 w) as [[ret q] w1] eqn:Eo. eapply wp_run; [done|].
  apply Ho in Eo as (E1 & Ef & Er). case_decide as Hs; apply wp_ret.
  - destruct (Ef Hs) as [Hq Hq0]. apply wp_bind. eapply wp_mono.
    { apply Hbody; naive_solver. }
    intros r w2 ([c E2] & HQ). apply wp_bind. unfold handle_drop, handle_close. simpl.
    destruct (Z.eqb_spec q 0) as [|_]; [done|]. do 2 apply wp_bind.
    destruct (ffi_close q w2) as [ret' w3] eqn:Ec. eapply wp_run; [done|].
    eapply Hc in Ec as [E3 Er3]; [|by rewrite E2, lookup_insert_eq].
    apply wp_ret, wp_ret, (HQ w3); [|done]. by rewrite E3, E2, delete_insert_id.
  - apply Herr; [done|]. naive_solver.
Qed.

(** ** The three scopes *)
Lemma wp_with_sha {A} (on_err : sgx_status_t -> A) body Q w :
  (forall p w1, contexts w !! p = None ->
    contexts w1 = <[p := ShaContext []]> (contexts w) -> (ready w -> ready w1) ->
    wp (body (opened p)) (fun r w2 =>
      (exists c, contexts w2 = <[p := c]> (contexts w)) /\
      forall w3, contexts w3 = contexts w -> (ready w2 -> ready w3) -> Q r w3) w1) ->
  (forall e w1, contexts w1 = contexts w -> ~ ready w -> Q (on_err e) w1) ->
  wp (with_sha on_err body) Q w.
Proof.
  intros Hb He. eapply with_handle_spec;
    [intros *; apply sha_init_law|intros *; apply sha_close_law|eauto|done].
Qed.

Lemma wp_with_cmac {A} key (on_err : sgx_status_t -> A) body Q w :
  (forall p w1, contexts w !! p = None ->
    contexts w1 = <[p := CmacContext key []]> (contexts w) -> (ready w -> ready w1) ->
    wp (body (opened p)) (fun r w2 =>
      (exists c, contexts w2 = <[p := c]> (contexts w)) /\
      forall w3, contexts w3 = contexts w -> (ready w2 -> ready w3) -> Q r w3) w1) ->
  (forall e w1, contexts w1 = contexts w -> ~ ready w -> Q (on_err e) w1) ->
  wp (with_cmac key on_err body) Q w.
Proof.
  intros Hb He. eapply with_handle_spec;
    [intros *; apply cmac_init_law|intros *; apply cmac_close_law|eauto|done].
Qed.

Lemma wp_with_ecc {A} (on_err : sgx_status_t -> A) body Q w :
  (forall p w1, contexts w !! p = None ->
    contexts w1 = <[p := EccContext]> (contexts w) -> (ready w -> ready w1) ->
    wp (body (opened p)) (fun r w2 =>
      (exists c, contexts w2 = <[p := c]> (contexts w)) /\
      forall w3, contexts w3 = contexts w -> (ready w2 -> ready w3) -> Q r w3) w1) ->
  (forall e w1, contexts w1 = contexts w -> ~ ready w -> Q (on_err e) w1) ->
  wp (with_ecc on_err body) Q w.
Proof.
  intros Hb He. eapply with_handle_spec;
    [intros *; apply ecc_open_law|intros *; apply ecc_close_law|eauto|done].
Qed.

(** ** Operations on an open handle: a goal for success, a goal for failure *)
Lemma wp_sha_update bs n p d Q w :
  n = zlen bs -> 0 < n <= u32_max -> contexts w !! p = Some (ShaContext d) ->
  (forall w', contexts w' = <[p := ShaContext (d ++ bs)]> (contexts w) ->
    (ready w -> ready w') -> Q (Ok tt) w') ->
  (forall e d' w', contexts w' = <[p := ShaContext d']> (contexts w) ->
    ~ ready w -> Q (Err e) w') ->
  wp (handle_use (fun q => no_out (hash_update sha256_ffi bs n q)) (opened p)) Q w.
Proof.
  intros -> Hs Hp Hok Herr. unfold handle_use, no_out, hash_update.
  destruct (size_accepted _ Hs) as [-> ->]. simpl. do 2 apply wp_bind.
  wp_call as [ret w1] eqn E.
  eapply sha_update_law in E as [(d' & E & Ed) Er]; [|done]. do 2 apply wp_ret.
  unfold status_result. case_decide as Hd; [apply Hok|eapply Herr]; naive_solver.
Qed.

Lemma wp_sha_get_hash p d Q w :
  contexts w !! p = Some (ShaContext d) ->
  (forall w', contexts w' = contexts w -> (ready w -> ready w') -> Q (Ok (sha256 d)) w') ->
  (forall e w', contexts w' = contexts w -> ~ ready w -> Q (Err e) w') ->
  wp (hash_handle_get_hash sha256_ffi 32 (opened p)) Q w.
Proof.
  intros Hp Hok Herr. unfold hash_handle_get_hash, handle_use. simpl. apply wp_bind.
  wp_call as [[ret h] w1] eqn E.
  eapply sha_get_law in E as (E & Eh & Er); [|done]. apply wp_ret.
  unfold status_result. case_decide as Hd; [rewrite Eh by done; apply Hok|eapply Herr];
    naive_solver.
Qed.

Lemma wp_cmac_update bs n p k d Q w :
  n = zlen bs -> 0 < n <= u32_max -> contexts w !! p = Some (CmacContext k d) ->
  (forall w', contexts w' = <[p := CmacContext k (d ++ bs)]> (contexts w) ->
    (ready w -> ready w') -> Q (Ok tt) w') ->
  (forall e d' w', contexts w' = <[p := CmacContext k d']> (contexts w) ->
    ~ ready w -> Q (Err e) w') ->
  wp (handle_use (fun q => no_out (mac_update cmac_ffi (wrap 32) bs n q)) (opened p)) Q w.
Proof.
  intros -> Hs Hp Hok Herr. unfold handle_use, no_out, mac_update.
  destruct (size_accepted _ Hs) as [-> ->]. simpl. do 2 apply wp_bind.
  wp_call as [ret w1] eqn E.
  eapply cmac_update_law in E as [(d' & E & Ed) Er]; [|done]. do 2 apply wp_ret.
  unfold status_result. case_decide as Hd; [apply Hok|eapply Herr]; naive_solver.
Qed.

Lemma wp_cmac_get_hash p k d Q w :
  contexts w !! p = Some (CmacContext k d) ->
  (forall w', contexts w' = contexts w -> (ready w -> ready w') -> Q (Ok (cmac k d)) w') ->
  (forall e w', contexts w' = contexts w -> ~ ready w -> Q (Err e) w') ->
  wp (mac_handle_get_hash cmac_ffi 16 (opened p)) Q w.
Proof.
  intros Hp Hok Herr. unfold mac_handle_get_hash, handle_use. simpl. apply wp_bind.
  wp_call as [[ret h] w1] eqn E.
  eapply cmac_final_law in E as (E & Eh & Er); [|done]. apply wp_ret.
  unfold status_result. case_decide as Hd; [rewrite Eh by done; apply Hok|eapply Herr];
    naive_solver.
Qed.

Lemma wp_cmac_sized_msg key bs n Q w :
  n = zlen bs -> 0 < n <= u32_max ->
  (forall w', contexts w' = contexts w -> (ready w -> ready w') -> Q (Ok (cmac key bs)) w') ->
  (forall e w', contexts w' = contexts w -> ~ ready w -> Q (Err e) w') ->
  wp (mac_sized_msg cmac_ffi (wrap 32) 16 key bs n) Q w.
Proof.
  intros -> Hs Hok Herr. unfold mac_sized_msg.
  destruct (size_accepted _ Hs) as [-> ->]. apply wp_bind.
  wp_call as [[ret m] w1] eqn E.
  eapply cmac_msg_law in E as (E & Em & Er). apply wp_ret.
  unfold status_result. case_decide as Hd; [rewrite Em by done; apply Hok|eapply Herr];
    naive_solver.
Qed.

Lemma wp_ecc_create_key_pair p Q w :
  contexts w !! p = Some EccContext ->
  (forall a w', contexts w' = contexts w -> (ready w -> ready w') -> Q (Ok (a, pub_of a)) w') ->
  (forall e w', contexts w' = contexts w -> ~ ready w -> Q (Err e) w') ->
  wp (ecc_create_align_key_pair (opened p)) Q w.
Proof.
  intros Hp Hok Herr. unfold ecc_create_align_key_pair, handle_use. simpl. apply wp_bind.
  wp_call as [[ret [a g]] w1] eqn E. eapply ecc_key_pair_law in E as (E & Eg & Er); [|done].
  apply wp_ret. unfold status_result.
  case_decide as Hd; [rewrite Eg by done; apply Hok|eapply Herr]; naive_solver.
Qed.

Lemma wp_ecc_shared a g p Q w :
  contexts w !! p = Some EccContext ->
  (forall w', contexts w' = contexts w -> (ready w -> ready w') -> Q (Ok (ecdh a g)) w') ->
  (forall e w', contexts w' = contexts w -> ~ (ready w /\ point_valid g) -> Q (Err e) w') ->
  wp (ecc_compute_align_shared_dhkey a g (opened p)) Q w.
Proof.
  intros Hp Hok Herr. unfold ecc_compute_align_shared_dhkey, handle_use. simpl. apply wp_bind.
  wp_call as [[ret s] w1] eqn E. eapply ecc_shared_law in E as (E & Es & Er); [|done].
  apply wp_ret. unfold status_result.
  case_decide as Hd; [rewrite Es by done; apply Hok|eapply Herr]; naive_solver.
Qed.

(** ** Authenticated encryption, into a buffer of the source's length *)
Definition gcm_args_ok (src iv aad : list byte) : Prop :=
  zlen src <= u32_max /\ length iv = 12%nat /\ zlen aad <= u32_max.

Lemma gcm_args_accepted (src iv aad dst : list byte) :
  gcm_args_ok src iv aad -> length dst = length src ->
  (zlen src >? u32_max) = false /\ negb (zlen iv =? SGX_AESGCM_IV_SIZE) = false /\
  (zlen aad >? u32_max) = false /\ (zlen dst >? u32_max) = false /\
  (zlen dst <? zlen src) = false /\
  wrap 32 (zlen src) = zlen src /\ wrap 32 (zlen iv) = 12 /\
  wrap 32 (zlen aad) = zlen aad.
Proof.
  intros (Hs & Hi & Ha) Hd. unfold zlen in *. rewrite Hi, Hd.
  rewrite !Z.gtb_ltb, !Z.ltb_ge. unfold u32_max in *.
  rewrite !wrap_small by lia. repeat split; lia.
Qed.

Lemma wp_gcm_encrypt `{!CryptoMathLaws} key src iv aad dst mac0 Q w :
  gcm_args_ok src iv aad -> length dst = length src ->
  (forall w', contexts w' = contexts w -> (ready w -> ready w') ->
    Q (Ok tt, (gcm_seal key iv aad src).1, (gcm_seal key iv aad src).2) w') ->
  (forall e d t w', contexts w' = contexts w -> ~ ready w -> Q (Err e, d, t) w') ->
  wp (rsgx_rijndael128GCM_encrypt key src iv aad dst mac0) Q w.
Proof.
  intros Ha Hd Hok Herr. unfold rsgx_rijndael128GCM_encrypt.
  pose proof (gcm_args_accepted _ _ _ _ Ha Hd) as (-> & -> & -> & -> & -> & -> & -> & ->).
  assert ((if negb (zlen src =? 0) then (Some src, Some dst) else (None, None)) =
    (null_if_empty src, if negb (zlen src =? 0) then Some dst else None)) as ->.
  { unfold null_if_empty. by destruct (zlen src =? 0). }
  apply wp_bind. wp_call as [[[ret d'] t] w1] eqn E.
  pose proof (gcm_seal_length key iv aad src) as [Hc _].
  apply gcm_encrypt_law in E as (E & Es & Er).
  - apply wp_ret. unfold status_result. case_decide as Hs; [|eapply Herr; naive_solver].
    destruct (Es Hs) as [Ed ->]. replace (default dst d') with (gcm_seal key iv aad src).1.
    { apply Hok; naive_solver. }
    destruct d'; simpl in *; [done|]. rewrite <- Ed in Hc |- *.
    symmetry. apply nil_length_inv. by rewrite Hd, <- Hc.
  - destruct (Z.eqb_spec (zlen src) 0) as [Hz|]; simpl; [|done].
    apply zlen_nil_iff in Hz. by subst.
Qed.

Lemma wp_gcm_decrypt `{!CryptoMathLaws} key src iv aad mac dst Q w :
  gcm_args_ok src iv aad -> length dst = length src ->
  (forall p w', gcm_open key iv aad src mac = Some p ->
    contexts w' = contexts w -> (ready w -> ready w') -> Q (Ok tt, p) w') ->
  (forall e d w', contexts w' = contexts w ->
    ~ (ready w /\ is_Some (gcm_open key iv aad src mac)) -> Q (Err e, d) w') ->
  wp (rsgx_rijndael128GCM_decrypt key src iv aad mac dst) Q w.
Proof.
  intros Ha Hd Hok Herr. unfold rsgx_rijndael128GCM_decrypt.
  pose proof (gcm_args_accepted _ _ _ _ Ha Hd) as (-> & -> & -> & -> & -> & -> & -> & ->).
  assert ((if negb (zlen src =? 0) then (Some src, Some dst) else (None, None)) =
    (null_if_empty src, if negb (zlen src =? 0) then Some dst else None)) as ->.
  { unfold null_if_empty. by destruct (zlen src =? 0). }
  apply wp_bind. wp_call as [[ret d'] w1] eqn E.
  apply gcm_decrypt_law in E as (E & Es & Er).
  - apply wp_ret. unfold status_result. case_decide as Hs.
    2: { apply Herr; [done|]. intros [Hr [p Hp]]. apply Hs, (proj2 (Er Hr) p Hp). }
    pose proof (Es Hs) as Eo. apply gcm_open_length in Eo as Hl.
    replace (default dst d') with (default [] d'); [apply Hok; try done; tauto|].
    destruct d'; simpl in *; [done|]. symmetry. apply nil_length_inv. by rewrite Hd.
  - destruct (Z.eqb_spec (zlen src) 0) as [Hz|]; simpl; [|done].
    apply zlen_nil_iff in Hz. by subst.
Qed.

End specs.
