(* ===== verification/ToyMachine.v ===== *)
(** ToyMachine: a concrete platform and crypto library.

    It satisfies every law the components' theorems assume, so those laws are
    consistent, and the theorems can be run on it.  Its "cryptography" is
    arithmetic on the little-endian values of the byte strings; its world is
    a counter (the random source) and the map of open contexts. *)
From Stdlib Require Import ZArith Lia Strings.Byte.
From stdpp Require Import base numbers list option tactics gmap.
From S2P Require Import Prelude SgxStatus SgxTypes Trts Tse Tcrypto TcryptoSpec.
Import Trts.Bounds.

(** * The mathematics *)
Definition toy_mac (k m : list byte) : list byte := le_bytes 16 (le_val k + 3 * le_val m + 1).

Definition toy_pub (a : list byte) : sgx_ec256_public_t :=
  {| gx := le_bytes 32 (le_val a); gy := zeros 32 |}.

#[export] Instance toy_math : CryptoMath := {|
  sha256 m := le_bytes 32 (le_val m + 7);
  cmac := toy_mac;
  pub_of := toy_pub;
  ecdh a p := le_bytes 32 (le_val (gx (toy_pub a)) * le_val (gx p));
  point_valid _ := True;
  gcm_seal k iv aad p := (p, toy_mac k (aad ++ p));
  gcm_open k iv aad c t := if decide (t = toy_mac k (aad ++ c)) then Some c else None
|}.

#[export] Instance toy_math_laws : CryptoMathLaws.
Proof.
  split; simpl.
  - done.
  - done.
  - done.
  - done.
  - intros a b. by rewrite Z.mul_comm.
  - done.
  - intros. by rewrite decide_True.
  - intros. case_decide; naive_solver.
Qed.

(** * The world *)
Record toy_world := { tw_seed : Z; tw_contexts : gmap Z context }.

Definition toy_open (c : context) : ST toy_world (sgx_status_t * Z) := fun w =>
  let q := fresh ({[0]} ∪ dom (tw_contexts w)) in
  ((SGX_SUCCESS, q), {| tw_seed := tw_seed w; tw_contexts := <[q := c]> (tw_contexts w) |}).

Definition toy_absorb (bs : list byte) (p : Z) : ST toy_world sgx_status_t := fun w =>
  match tw_contexts w !! p with
  | Some (ShaContext d) =>
      (SGX_SUCCESS, {| tw_seed := tw_seed w;
        tw_contexts := <[p := ShaContext (d ++ bs)]> (tw_contexts w) |})
  | Some (CmacContext k d) =>
      (SGX_SUCCESS, {| tw_seed := tw_seed w;
        tw_contexts := <[p := CmacContext k (d ++ bs)]> (tw_contexts w) |})
  | _ => (SGX_ERROR_INVALID_PARAMETER, w)
  end.

Definition toy_finish (p : Z) (out : list byte) : ST toy_world (sgx_status_t * list byte) :=
  fun w => match tw_contexts w !! p with
  | Some (ShaContext d) => ((SGX_SUCCESS, sha256 d), w)
  | Some (CmacContext k d) => ((SGX_SUCCESS, cmac k d), w)
  | _ => ((SGX_ERROR_INVALID_PARAMETER, out), w)
  end.

Definition toy_close (p : Z) : ST toy_world sgx_status_t := fun w =>
  (SGX_SUCCESS, {| tw_seed := tw_seed w; tw_contexts := delete p (tw_contexts w) |}).

Definition toy_tick (w : toy_world) : toy_world :=
  {| tw_seed := tw_seed w + 1; tw_contexts := tw_contexts w |}.

Definition toy_hash_ffi : HashFfi toy_world := {|
  ffi_hash_msg bs n out := st_ret (SGX_SUCCESS, sha256 bs);
  ffi_hash_init p := toy_open (ShaContext []);
  ffi_hash_update bs n p := toy_absorb bs p;
  ffi_hash_get p out := toy_finish p out;
  ffi_hash_close p := toy_close p
|}.

Definition toy_mac_ffi : MacFfi toy_world := {|
  ffi_mac_msg k bs n out := st_ret (SGX_SUCCESS, cmac k bs);
  ffi_mac_init k p := toy_open (CmacContext k []);
  ffi_mac_update bs n p := toy_absorb bs p;
  ffi_mac_final p out := toy_finish p out;
  ffi_mac_close p := toy_close p
|}.

#[export] Instance toy_tcrypto : Tcrypto toy_world := {|
  sha256_ffi := toy_hash_ffi;
  sha384_ffi := toy_hash_ffi;
  sha1_ffi := toy_hash_ffi;
  cmac_ffi := toy_mac_ffi;
  hmac_ffi := toy_mac_ffi;
  ecc_ffi := {|
    ffi_ecc_open p := toy_open EccContext;
    ffi_ecc_close p := toy_close p;
    ffi_ecc_create_key_pair a g p := fun w =>
      let a := le_bytes 32 (tw_seed w) in ((SGX_SUCCESS, (a, pub_of a)), toy_tick w);
    ffi_ecc_check_point g p v := st_ret (SGX_SUCCESS, 1);
    ffi_ecc_compute_shared_dhkey a g s p := st_ret (SGX_SUCCESS, ecdh a g);
    ffi_ecdsa_sign bs n a s p := st_ret (SGX_SUCCESS, s);
    ffi_ecdsa_verify bs n g s v p := st_ret (SGX_SUCCESS, 0);
    ffi_ecdsa_verify_hash h g s v p := st_ret (SGX_SUCCESS, 0) |};
  gcm_ffi := {|
    ffi_gcm_encrypt k src n dst iv m aad l t :=
      let src := default [] src in
      st_ret (SGX_SUCCESS, Some src, toy_mac k (default [] aad ++ src));
    ffi_gcm_decrypt k src n dst iv m aad l t :=
      let src := default [] src in
      if decide (t = toy_mac k (default [] aad ++ src))
      then st_ret (SGX_SUCCESS, Some src) else st_ret (SGX_ERROR_MAC_MISMATCH, dst) |};
  ctr_ffi := {|
    ffi_ctr_encrypt k src n ctr b dst := st_ret (SGX_SUCCESS, ctr, src);
    ffi_ctr_decrypt k src n ctr b dst := st_ret (SGX_SUCCESS, ctr, src) |};
  aes_ffi := {|
    ffi_aes_init k iv n aad m p := toy_open EccContext;
    ffi_aes_update src n dst p := st_ret (SGX_SUCCESS, src);
    ffi_aes_get_mac t p := st_ret (SGX_SUCCESS, t);
    ffi_aes_close p := toy_close p |}
|}.

Definition toy_ready (w : toy_world) : Prop := True.

Lemma default_null_if_empty l : default [] (null_if_empty l) = l.
Proof. unfold null_if_empty. destruct l; done. Qed.

Lemma toy_open_law c w ret q w' :
  toy_open c w = ((ret, q), w') ->
  tw_contexts w' = (if decide (ret = SGX_SUCCESS)
                    then <[q := c]> (tw_contexts w) else tw_contexts w) /\
  (ret = SGX_SUCCESS -> tw_contexts w !! q = None /\ q <> 0) /\
  (toy_ready w -> ret = SGX_SUCCESS /\ toy_ready w').
Proof.
  unfold toy_open. intros E. simplify_eq/=.
  pose proof (is_fresh ({[0]} ∪ dom (tw_contexts w))) as Hf.
  rewrite not_elem_of_union, not_elem_of_singleton, not_elem_of_dom in Hf. naive_solver.
Qed.

#[export] Instance toy_tcrypto_laws : TcryptoLaws toy_tcrypto tw_contexts toy_ready.
Proof.
  split; intros *; cbn -[toy_open toy_mac]; try apply toy_open_law;
    unfold toy_absorb, toy_finish, toy_close, st_ret; rewrite ?default_null_if_empty.
  1, 6: intros E Hp; rewrite Hp in E; simplify_eq/=; split; [by eexists|done].
  all: intros; try match goal with H : _ !! _ = Some _ |- _ => rewrite H in * end;
    try case_decide; simplify_eq/=; rewrite ?default_null_if_empty; naive_solver.
Qed.

(** * The platform *)
#[export] Instance toy_machine : Machine := {|
  report_mac ti b kid := le_bytes 16
    (le_val (target_info_bytes ti) + 5 * le_val (report_body_bytes b) + le_val kid);
  derived_key b kr := le_bytes 16 (le_val (key_request_bytes kr) + 11);
  key_available b kr := True
|}.

#[export] Instance toy_machine_laws : MachineLaws.
Proof. done. Qed.

Definition toy_platform (self : sgx_report_body_t) : Platform toy_world := {|
  sgx_read_rand b n := fun w =>
    ((SGX_SUCCESS, le_bytes (length b) (tw_seed w)), toy_tick w);
  sgx_create_report ti d r0 := st_ret (SGX_SUCCESS,
    let b := set_report_data self d in
    {| rp_body := b; rp_key_id := zeros 32; rp_mac := report_mac ti b (zeros 32) |});
  sgx_verify_report r :=
    if decide (rp_mac r = report_mac (target_of_body self) (rp_body r) (rp_key_id r))
    then st_ret SGX_SUCCESS else st_ret SGX_ERROR_MAC_MISMATCH;
  sgx_verify_report2 bs := st_ret SGX_SUCCESS;
  sgx_get_key kr k := st_ret (SGX_SUCCESS, derived_key self kr);
  sgx_self_report w := {| rp_body := self; rp_key_id := zeros 32; rp_mac := zeros 16 |}
|}.

Lemma toy_platform_laws self :
  report_body_ok self -> PlatformLaws (toy_platform self) self tw_contexts toy_ready.
Proof.
  intros Hs. split; try done; intros *; simpl; unfold st_ret.
  - intros E Hd. simplify_eq. simpl. auto.
  - case_decide; intros; simplify_eq; naive_solver.
  - intros. simplify_eq. naive_solver.
  - intros. simplify_eq. rewrite length_le_bytes. naive_solver.
  - exists (rb_report_data self). by rewrite set_report_data_id.
Qed.

(** * An enclave at a fixed place *)
Definition toy_base : Z := 0x10000.
Definition toy_size : Z := 0x100000.

#[export] Instance toy_enclave : Enclave := {|
  sgx_is_within_enclave a n :=
    if (toy_base <=? a) && (a + n <=? toy_base + toy_size) then 1 else 0;
  sgx_is_outside_enclave a n :=
    if (a + n <=? usize_max + 1) && ((a + n <=? toy_base) || (toy_base + toy_size <=? a))
    then 1 else 0
|}.

#[export] Instance toy_enclave_laws : EnclaveLaws toy_base toy_size.
Proof.
  split; unfold toy_base, toy_size, usize_max, u64_max; [lia|..]; intros; simpl;
    unfold toy_base, toy_size, usize_max, u64_max; zcases.
Qed.

(** A page that starts inside the enclave and ends outside is neither. *)
Lemma range_checks_exact_witness :
  (rsgx_raw_is_outside_enclave 0x10FFF8 16 = true <->
     0x10FFF8 + 16 <= usize_max + 1 /\
     forall x, 0x10FFF8 <= x < 0x10FFF8 + 16 -> ~ (toy_base <= x < toy_base + toy_size)).
Proof.
  apply (range_checks_exact toy_base toy_size 0x10FFF8 16); unfold usize_max, u64_max; lia.
Defined.
