(* ===== verification/TcryptoSizes.v ===== *)
(** TcryptoSizes: lengths on their way from Rust to C.

    The wrappers check a [usize] against [u32::MAX] and then cast it.  The
    hash, CMAC and GCM wrappers cast to [u32]: what the C library gets is the
    true length.  The HMAC wrappers cast to [i32] behind the same check. *)
From Stdlib Require Import ZArith Lia Strings.Byte.
From stdpp Require Import base numbers list option tactics gmap.
From S2P Require Import Prelude SgxStatus SgxTypes Trts Tcrypto ToyMachine TcryptoSpec.

Lemma size_rejected_iff n : 0 <= n -> size_rejected n = true <-> n = 0 \/ u32_max < n.
Proof.
  intros Hn. unfold size_rejected. rewrite orb_true_iff, Z.eqb_eq, Z.gtb_ltb, Z.ltb_lt. lia.
Qed.

(** Lengths are passed exactly: the hash and CMAC wrappers, one-shot and
    incremental, return INVALID_PARAMETER and do not call the library for a
    length of zero or above [u32::MAX], and call it with the true length for
    every other. *)
Theorem lengths_passed_exactly {W} (F : HashFfi W) (M : MacFfi W) hlen mlen key bs n p w :
  0 <= n ->
  let in_range := 0 < n <= u32_max in
  (in_range ->
     hash_sized_msg F hlen bs n w =
       (let* (ret, h) := ffi_hash_msg F bs n (zeros hlen) in st_ret (status_result ret h)) w /\
     hash_update F bs n p w = ffi_hash_update F bs n p w /\
     mac_sized_msg M (wrap 32) mlen key bs n w =
       (let* (ret, t) := ffi_mac_msg M key bs n (zeros mlen) in st_ret (status_result ret t)) w /\
     mac_update M (wrap 32) bs n p w = ffi_mac_update M bs n p w) /\
  (~ in_range ->
     hash_sized_msg F hlen bs n w = (Err SGX_ERROR_INVALID_PARAMETER, w) /\
     hash_update F bs n p w = (SGX_ERROR_INVALID_PARAMETER, w) /\
     mac_sized_msg M (wrap 32) mlen key bs n w = (Err SGX_ERROR_INVALID_PARAMETER, w) /\
     mac_update M (wrap 32) bs n p w = (SGX_ERROR_INVALID_PARAMETER, w)).
Proof.
  intros Hn in_range. unfold hash_sized_msg, hash_update, mac_sized_msg, mac_update. split; intros H.
  - destruct (size_accepted n H) as [-> ->]. done.
  - assert (size_rejected n = true) as ->; [|done]. apply size_rejected_iff; [done|].
    subst in_range. lia.
Qed.

Lemma lengths_passed_exactly_witness :
  hash_sized_msg toy_hash_ffi 32 [] 0 {| tw_seed := 0; tw_contexts := ∅ |} =
  (Err SGX_ERROR_INVALID_PARAMETER, {| tw_seed := 0; tw_contexts := ∅ |}).
Proof.
  apply (lengths_passed_exactly toy_hash_ffi toy_mac_ffi 32 16 [] [] 0 0
    {| tw_seed := 0; tw_contexts := ∅ |}); lia.
Defined.

(** A large HMAC input gets a negative length: the HMAC wrappers accept every
    size up to [u32::MAX], and for a size of 2^31 or more the [i32] they pass
    to the library is negative. *)
Theorem hmac_large_length_negative {W} (M : MacFfi W) key bs n p w :
  2 ^ 31 <= n <= u32_max ->
  n - 2 ^ 32 < 0 /\
  mac_sized_msg M (swrap 32) 32 key bs n w =
    (let* (ret, t) := ffi_mac_msg M key bs (n - 2 ^ 32) (zeros 32) in
     st_ret (status_result ret t)) w /\
  mac_update M (swrap 32) bs n p w = ffi_mac_update M bs (n - 2 ^ 32) p w.
Proof.
  intros Hn. unfold u32_max in Hn. assert (swrap 32 n = n - 2 ^ 32) as E.
  { unfold swrap. change (2 ^ (32 - 1)) with (2 ^ 31).
    replace (n + 2 ^ 31) with ((n - 2 ^ 31) + 1 * 2 ^ 32) by lia.
    rewrite Z_mod_plus_full, Z.mod_small by lia. lia. }
  unfold mac_sized_msg, mac_update.
  destruct (size_accepted n ltac:(unfold u32_max; lia)) as [-> _]. rewrite E.
  split; [lia|done].
Qed.

Lemma hmac_large_length_negative_witness :
  mac_update toy_mac_ffi (swrap 32) [] (2 ^ 31) 7 {| tw_seed := 0; tw_contexts := ∅ |} =
  ffi_mac_update toy_mac_ffi [] (- 2 ^ 31) 7 {| tw_seed := 0; tw_contexts := ∅ |}.
Proof.
  apply (hmac_large_length_negative toy_mac_ffi [] [] (2 ^ 31) 7
    {| tw_seed := 0; tw_contexts := ∅ |}). unfold u32_max. lia.
Defined.
