(* ===== verification/Tseal.v ===== *)
(** Tseal: sealing, sgx_tseal/src/internal.rs, seal.rs and aad.rs.

    A buffer is its address and its bytes; the address matters for the range
    checks only.  Local copies of the key, the report and the key id that the
    code overwrites before it returns are not observable and not modelled.
    Arithmetic on [u32] is written with its wrap-around where nothing before
    it excludes one.  Module [Internal] is internal.rs; [SealedData] and
    [MacAadata] are the typed interfaces of seal.rs and aad.rs. *)
From Stdlib Require Import ZArith Lia Strings.Byte.
From stdpp Require Import base numbers list option tactics gmap.
From S2P Require Import Prelude SgxStatus SgxTypes Trts Tse Tcrypto.
Import Trts.Bounds.

Definition KEY_POLICY_KSS : Z :=
  Z.lor (Z.lor SGX_KEYPOLICY_CONFIGID SGX_KEYPOLICY_ISVFAMILYID)
    SGX_KEYPOLICY_ISVEXTPRODID.

Record SgxInternalUnsealedData := {
  ud_payload_size : Z;
  ud_decrypt : list byte;
  ud_additional : list byte
}.

Record SgxPayload := {
  pl_payload_size : Z;
  pl_reserved : list byte;
  pl_payload_tag : list byte;
  pl_encrypt : list byte;
  pl_additional : list byte
}.

Record SgxInternalSealedData := {
  sd_key_request : sgx_key_request_t;
  sd_payload_data : SgxPayload
}.

(** [mem::size_of::<sgx_sealed_data_t>()] and [size_of::<SgxInternalSealedData>()]. *)
Definition sgx_sealed_data_size : Z := 560.
Definition internal_sealed_data_size : Z := 576.

(** The C helpers of libsgx_tseal; a pointer to a raw structure is its image. *)
Class TsealFfi := {
  sgx_calc_sealed_data_size : Z -> Z -> Z;
  sgx_get_add_mac_txt_len : list byte -> Z;
  sgx_get_encrypt_txt_len : list byte -> Z
}.

(** ** The fields of the raw structure that the code reads *)
Definition raw_key_request (mem : list byte) : sgx_key_request_t :=
  key_request_of_bytes (slice 0 512 mem).
Definition raw_plain_text_offset (mem : list byte) : Z := le_val (slice 512 4 mem).
Definition raw_payload_size (mem : list byte) : Z := le_val (slice 528 4 mem).
Definition raw_payload_tag (mem : list byte) : list byte := slice 544 16 mem.

(** * internal.rs *)
Module Internal.

Definition default_data : SgxInternalSealedData := {|
  sd_key_request := key_request_default;
  sd_payload_data := {|
    pl_payload_size := 0; pl_reserved := zeros 12; pl_payload_tag := zeros 16;
    pl_encrypt := []; pl_additional := [] |} |}.

Definition new : SgxInternalSealedData := default_data.

Definition get_payload_size (self : SgxInternalSealedData) : Z :=
  pl_payload_size (sd_payload_data self).
Definition get_payload_tag (self : SgxInternalSealedData) : list byte :=
  pl_payload_tag (sd_payload_data self).
Definition get_key_request (self : SgxInternalSealedData) : sgx_key_request_t :=
  sd_key_request self.
Definition get_encrypt_txt (self : SgxInternalSealedData) : list byte :=
  pl_encrypt (sd_payload_data self).
Definition get_additional_txt (self : SgxInternalSealedData) : list byte :=
  pl_additional (sd_payload_data self).

Definition calc_raw_sealed_data_size (add_mac_txt_size encrypt_txt_size : Z) : Z :=
  let max := u32_max in
  let sealed_data_size := sgx_sealed_data_size in
  if add_mac_txt_size >? max - encrypt_txt_size then max
  else
    let payload_size := add_mac_txt_size + encrypt_txt_size in
    if payload_size >? max - sealed_data_size then max
    else sealed_data_size + payload_size.

(** The length of one of the texts, [u32::MAX] when it cannot be right. *)
Definition txt_len (data_size payload_size : Z) : Z :=
  if (data_size >? payload_size) || (data_size >=? u32_max) then u32_max
  else wrap 32 data_size.

Definition get_add_mac_txt_len (self : SgxInternalSealedData) : Z :=
  txt_len (zlen (get_additional_txt self)) (get_payload_size self).

Definition get_encrypt_txt_len (self : SgxInternalSealedData) : Z :=
  txt_len (zlen (get_encrypt_txt self)) (get_payload_size self).

Section raw.
Context `{Enclave} `{TsealFfi}.

(** [p] is the address of the region [mem]; the result is the pointer
    returned, if any, and the region afterwards. *)
Definition to_raw_sealed_data_t (self : SgxInternalSealedData) (p len : Z)
    (mem : list byte) : option Z * list byte :=
  let none := (None, mem) in
  if p =? 0 then none
  else if negb (rsgx_raw_is_within_enclave p len) && negb (rsgx_raw_is_outside_enclave p len)
  then none
  else
    let additional_len := get_add_mac_txt_len self in
    let encrypt_len := get_encrypt_txt_len self in
    if (additional_len =? u32_max) || (encrypt_len =? u32_max) then none
    else if negb (wrap 32 (additional_len + encrypt_len) =? get_payload_size self) then none
    else
      let sealed_data_size := sgx_calc_sealed_data_size additional_len encrypt_len in
      if sealed_data_size =? u32_max then none
      else if len <? sealed_data_size then none
      else
        let mem := if encrypt_len >? 0
          then write_at 560 (get_encrypt_txt self) mem else mem in
        let mem := if additional_len >? 0
          then write_at (560 + Z.to_nat encrypt_len) (get_additional_txt self) mem
          else mem in
        let mem := write_at 0 (key_request_bytes (sd_key_request self)) mem in
        let mem := write_at 512 (le_bytes 4 encrypt_len) mem in
        let mem := write_at 528 (le_bytes 4 (get_payload_size self)) mem in
        let mem := write_at 544 (get_payload_tag self) mem in
        (Some p, mem).

Definition from_raw_sealed_data_t (p len : Z) (mem : list byte)
    : option SgxInternalSealedData :=
  if p =? 0 then None
  else if negb (rsgx_raw_is_within_enclave p len) && negb (rsgx_raw_is_outside_enclave p len)
  then None
  else if len <? sgx_sealed_data_size then None
  else if raw_plain_text_offset mem >? raw_payload_size mem then None
  else
    let additional_len := sgx_get_add_mac_txt_len mem in
    let encrypt_len := sgx_get_encrypt_txt_len mem in
    if (additional_len =? u32_max) || (encrypt_len =? u32_max) then None
    else if negb (wrap 32 (additional_len + encrypt_len) =? raw_payload_size mem) then None
    else
      let sealed_data_size := sgx_calc_sealed_data_size additional_len encrypt_len in
      if sealed_data_size =? u32_max then None
      else if len <? sealed_data_size then None
      else
        let encrypt := if encrypt_len >? 0
          then slice 560 (Z.to_nat encrypt_len) mem else [] in
        let additional := if additional_len >? 0
          then slice (560 + Z.to_nat encrypt_len) (Z.to_nat additional_len) mem else [] in
        Some {|
          sd_key_request := raw_key_request mem;
          sd_payload_data := {|
            pl_payload_size := raw_payload_size mem;
            pl_reserved := zeros 12;
            pl_payload_tag := raw_payload_tag mem;
            pl_encrypt := encrypt;
            pl_additional := additional |} |}.

End raw.

(** ** Sealing *)
Section seal.
Context {W : Type} `{EN : Enclave} `{PL : Platform W} `{TC : Tcrypto W}.

Definition seal_key_error (ret : sgx_status_t) : sgx_status_t :=
  if decide (ret <> SGX_ERROR_OUT_OF_MEMORY) then SGX_ERROR_UNEXPECTED else ret.

Definition seal_data_iv (additional_text encrypt_text payload_iv : list byte)
    (key_request : sgx_key_request_t) : STS W SgxInternalSealedData :=
  let* key := rsgx_get_align_key key_request in
  let? seal_key := st_ret (map_err seal_key_error key) in
  let* (error, encrypt, payload_tag) :=
    rsgx_rijndael128GCM_encrypt seal_key encrypt_text payload_iv additional_text
      (zeros (length encrypt_text)) (zeros 16) in
  match error with
  | Err e => ste_err e
  | Ok _ =>
      ste_ok {|
        sd_key_request := key_request_default;
        sd_payload_data := {|
          pl_payload_size := wrap 32 (zlen encrypt_text + zlen additional_text);
          pl_reserved := zeros 12;
          pl_payload_tag := payload_tag;
          pl_encrypt := encrypt;
          pl_additional :=
            if negb (zlen additional_text =? 0) then additional_text else [] |} |}
  end.

Definition unseal_key_error (ret : sgx_status_t) : sgx_status_t :=
  if decide (ret = SGX_ERROR_INVALID_CPUSVN \/ ret = SGX_ERROR_INVALID_ISVSVN \/
             ret = SGX_ERROR_OUT_OF_MEMORY)
  then ret else SGX_ERROR_MAC_MISMATCH.

Definition unseal_data_helper (self : SgxInternalSealedData)
    : STS W SgxInternalUnsealedData :=
  let* key := rsgx_get_align_key (get_key_request self) in
  let? seal_key := st_ret (map_err unseal_key_error key) in
  let* (error, decrypt) :=
    rsgx_rijndael128GCM_decrypt seal_key (get_encrypt_txt self) (zeros SGX_SEAL_IV_SIZE)
      (get_additional_txt self) (get_payload_tag self)
      (zeros (length (get_encrypt_txt self))) in
  match error with
  | Err e => ste_err e
  | Ok _ =>
      ste_ok {|
        ud_payload_size := get_payload_size self;
        ud_decrypt := decrypt;
        ud_additional :=
          if zlen (get_additional_txt self) >? 0 then get_additional_txt self else [] |}
  end.

(** The key-policy check: a bit outside the known ones, or neither of
    MRENCLAVE and MRSIGNER. *)
Definition bad_key_policy (key_policy : Z) : bool :=
  negb (Z.land key_policy (unot 16 (Z.lor (Z.lor (Z.lor SGX_KEYPOLICY_MRENCLAVE
    SGX_KEYPOLICY_MRSIGNER) KEY_POLICY_KSS) SGX_KEYPOLICY_NOISVPRODID)) =? 0)
  || (Z.land key_policy (Z.lor SGX_KEYPOLICY_MRENCLAVE SGX_KEYPOLICY_MRSIGNER) =? 0).

Definition bad_attribute_mask (attribute_mask : sgx_attributes_t) : bool :=
  (Z.land (attr_flags attribute_mask) SGX_FLAGS_INITTED =? 0)
  || (Z.land (attr_flags attribute_mask) SGX_FLAGS_DEBUG =? 0).

(** The key request: a fresh key id, the enclave's own versions. *)
Definition seal_key_request (key_policy : Z) (attribute_mask : sgx_attributes_t)
    (misc_mask : Z) (report : sgx_report_t) (key_id : list byte) : sgx_key_request_t := {|
  kr_key_name := SGX_KEYSELECT_SEAL;
  kr_key_policy := key_policy;
  kr_isv_svn := rb_isv_svn (rp_body report);
  kr_reserved1 := 0;
  kr_cpu_svn := rb_cpu_svn (rp_body report);
  kr_attribute_mask := attribute_mask;
  kr_key_id := key_id;
  kr_misc_mask := misc_mask;
  kr_config_svn := rb_config_svn (rp_body report);
  kr_reserved2 := zeros 434 |}.

Definition with_key_request (key_request : sgx_key_request_t)
    (sealed_data : SgxInternalSealedData) : SgxInternalSealedData :=
  {| sd_key_request := key_request; sd_payload_data := sd_payload_data sealed_data |}.

(** The common tail of [seal_data_ex] and [mac_aadata_ex]. *)
Definition seal_with_fresh_key (key_policy : Z) (attribute_mask : sgx_attributes_t)
    (misc_mask : Z) (additional_text encrypt_text : list byte)
    : STS W SgxInternalSealedData :=
  let* report := rsgx_self_report in
  let* (error, key_id) := rsgx_read_rand (zeros 32) in
  match error with
  | Err e => ste_err e
  | Ok _ =>
      let key_request := seal_key_request key_policy attribute_mask misc_mask report key_id in
      let* result := seal_data_iv additional_text encrypt_text (zeros SGX_SEAL_IV_SIZE)
                       key_request in
      st_ret (result_map (with_key_request key_request) result)
  end.

Definition seal_data_ex (key_policy : Z) (attribute_mask : sgx_attributes_t)
    (misc_mask : Z) (additional_addr : Z) (additional_text : list byte)
    (encrypt_addr : Z) (encrypt_text : list byte) : STS W SgxInternalSealedData :=
  let invalid := ste_err SGX_ERROR_INVALID_PARAMETER in
  let additional_len := zlen additional_text in
  let encrypt_len := zlen encrypt_text in
  if (additional_len >=? u32_max) || (encrypt_len >=? u32_max) then invalid
  else if calc_raw_sealed_data_size (wrap 32 additional_len) (wrap 32 encrypt_len) =? u32_max
  then invalid
  else if encrypt_len =? 0 then invalid
  else if bad_key_policy key_policy then invalid
  else if bad_attribute_mask attribute_mask then invalid
  else if negb (rsgx_slice_is_within_enclave 1 encrypt_addr encrypt_text) then invalid
  else if (additional_len >? 0)
    && negb (rsgx_slice_is_within_enclave 1 additional_addr additional_text)
    && negb (rsgx_slice_is_outside_enclave 1 additional_addr additional_text) then invalid
  else seal_with_fresh_key key_policy attribute_mask misc_mask additional_text encrypt_text.

(** The default policy: MRSIGNER, with the KSS identities when the enclave
    uses them. *)
Definition default_key_policy (report : sgx_report_t) : Z :=
  if negb (Z.land (attr_flags (rb_attributes (rp_body report))) SGX_FLAGS_KSS =? 0)
  then Z.lor SGX_KEYPOLICY_MRSIGNER KEY_POLICY_KSS else SGX_KEYPOLICY_MRSIGNER.

Definition default_attribute_mask : sgx_attributes_t :=
  {| attr_flags := TSEAL_DEFAULT_FLAGSMASK; attr_xfrm := 0 |}.

Definition seal_data (additional_addr : Z) (additional_text : list byte)
    (encrypt_addr : Z) (encrypt_text : list byte) : STS W SgxInternalSealedData :=
  let* report := rsgx_self_report in
  seal_data_ex (default_key_policy report) default_attribute_mask TSEAL_DEFAULT_MISCMASK
    additional_addr additional_text encrypt_addr encrypt_text.

(** [self] lives at [self_addr], its two boxes at the other addresses. *)
Definition unseal_data (self_addr encrypt_addr additional_addr : Z)
    (self : SgxInternalSealedData) : STS W SgxInternalUnsealedData :=
  let mismatch := ste_err SGX_ERROR_MAC_MISMATCH in
  let invalid := ste_err SGX_ERROR_INVALID_PARAMETER in
  let additional_len := get_add_mac_txt_len self in
  let encrypt_len := get_encrypt_txt_len self in
  if (additional_len =? u32_max) || (encrypt_len =? u32_max) then mismatch
  else if calc_raw_sealed_data_size additional_len encrypt_len =? u32_max then mismatch
  else if encrypt_len <? 1 then mismatch
  else if negb (wrap 32 (additional_len + encrypt_len) =? get_payload_size self) then mismatch
  else if negb (rsgx_raw_is_within_enclave self_addr internal_sealed_data_size) then invalid
  else if negb (rsgx_slice_is_within_enclave 1 encrypt_addr (get_encrypt_txt self)) then invalid
  else if (additional_len >? 0)
    && negb (rsgx_slice_is_within_enclave 1 additional_addr (get_additional_txt self))
  then invalid
  else unseal_data_helper self.

(** ** Authenticated, unencrypted data *)
Definition mac_aadata_ex (key_policy : Z) (attribute_mask : sgx_attributes_t)
    (misc_mask : Z) (additional_addr : Z) (additional_text : list byte)
    : STS W SgxInternalSealedData :=
  let invalid := ste_err SGX_ERROR_INVALID_PARAMETER in
  let additional_len := zlen additional_text in
  if additional_len >=? u32_max then invalid
  else if calc_raw_sealed_data_size (wrap 32 additional_len) 0 =? u32_max then invalid
  else if additional_len =? 0 then invalid
  else if bad_key_policy key_policy then invalid
  else if bad_attribute_mask attribute_mask then invalid
  else if negb (rsgx_slice_is_within_enclave 1 additional_addr additional_text)
    && negb (rsgx_slice_is_outside_enclave 1 additional_addr additional_text) then invalid
  else seal_with_fresh_key key_policy attribute_mask misc_mask additional_text [].

Definition mac_aadata (additional_addr : Z) (additional_text : list byte)
    : STS W SgxInternalSealedData :=
  let* report := rsgx_self_report in
  mac_aadata_ex (default_key_policy report) default_attribute_mask TSEAL_DEFAULT_MISCMASK
    additional_addr additional_text.

Definition unmac_aadata (self_addr additional_addr : Z) (self : SgxInternalSealedData)
    : STS W SgxInternalUnsealedData :=
  let mismatch := ste_err SGX_ERROR_MAC_MISMATCH in
  let invalid := ste_err SGX_ERROR_INVALID_PARAMETER in
  let additional_len := get_add_mac_txt_len self in
  let encrypt_len := get_encrypt_txt_len self in
  if (additional_len =? u32_max) || (encrypt_len =? u32_max) then mismatch
  else if additional_len <? 1 then mismatch
  else if negb (encrypt_len =? 0) then mismatch
  else if calc_raw_sealed_data_size additional_len encrypt_len =? u32_max then mismatch
  else if negb (wrap 32 (additional_len + encrypt_len) =? get_payload_size self) then mismatch
  else if negb (rsgx_raw_is_within_enclave self_addr internal_sealed_data_size) then invalid
  else if negb (rsgx_slice_is_within_enclave 1 additional_addr (get_additional_txt self))
  then invalid
  else unseal_data_helper self.

End seal.
End Internal.

(** * The typed interfaces *)

(** Reading a value back from its bytes: [Box::from_raw(ptr as *mut T)]. *)
Class FromMemory (T : Type) `{ContiguousMemory T} := from_memory : list byte -> T.

Class FromMemoryLaws (T : Type) `{FromMemory T} : Prop :=
  from_memory_bytes x : mem_ok x -> from_memory (as_bytes x) = x.

(** A boxed slice of [n] values of [size] bytes each. *)
Fixpoint read_slice {T} `{FromMemory T} (n size : nat) (bs : list byte) : list T :=
  match n with
  | O => []
  | S n => from_memory (take size bs) :: read_slice n size (drop size bs)
  end.

Record SgxUnsealedData (T : Type) := {
  us_payload_size : Z;
  us_decrypt : T;
  us_additional : list byte
}.
Arguments us_payload_size {T}. Arguments us_decrypt {T}. Arguments us_additional {T}.
Arguments Build_SgxUnsealedData {T}.

(** [SgxSealedData<T>] and [SgxMacAadata<T>] are the internal structure and a
    type marker. *)
Module SealedData.
Section typed.
Context {W : Type} `{EN : Enclave} `{PL : Platform W} `{TC : Tcrypto W} {T : Type} `{FromMemory T}.

Definition seal_data (additional_addr : Z) (additional_text : list byte)
    (encrypt_addr : Z) (encrypt_text : T) : STS W SgxInternalSealedData :=
  if size_of T =? 0 then ste_err SGX_ERROR_INVALID_PARAMETER
  else Internal.seal_data additional_addr additional_text encrypt_addr (as_bytes encrypt_text).

Definition seal_data_ex (key_policy : Z) (attribute_mask : sgx_attributes_t)
    (misc_mask : Z) (additional_addr : Z) (additional_text : list byte)
    (encrypt_addr : Z) (encrypt_text : T) : STS W SgxInternalSealedData :=
  if size_of T =? 0 then ste_err SGX_ERROR_INVALID_PARAMETER
  else Internal.seal_data_ex key_policy attribute_mask misc_mask
         additional_addr additional_text encrypt_addr (as_bytes encrypt_text).

Definition unseal_data (self_addr encrypt_addr additional_addr : Z)
    (self : SgxInternalSealedData) : STS W (SgxUnsealedData T) :=
  if size_of T =? 0 then ste_err SGX_ERROR_INVALID_PARAMETER
  else if negb (size_of T =? Internal.get_encrypt_txt_len self)
  then ste_err SGX_ERROR_MAC_MISMATCH
  else
    let* r := Internal.unseal_data self_addr encrypt_addr additional_addr self in
    st_ret (result_map (fun x =>
      Build_SgxUnsealedData (ud_payload_size x) (from_memory (ud_decrypt x))
        (ud_additional x)) r).

Definition from_raw_sealed_data_t `{TsealFfi} (p len : Z) (mem : list byte)
    : option SgxInternalSealedData :=
  if size_of T =? 0 then None else Internal.from_raw_sealed_data_t p len mem.

Definition to_raw_sealed_data_t `{TsealFfi} (self : SgxInternalSealedData) (p len : Z)
    (mem : list byte) : option Z * list byte :=
  Internal.to_raw_sealed_data_t self p len mem.

(** ** [SgxSealedData<[T]>] *)
Definition seal_slice (additional_addr : Z) (additional_text : list byte)
    (encrypt_addr : Z) (encrypt_text : list T) : STS W SgxInternalSealedData :=
  if (size_of T =? 0) || (size_of_val encrypt_text =? 0)
  then ste_err SGX_ERROR_INVALID_PARAMETER
  else Internal.seal_data additional_addr additional_text encrypt_addr
         (slice_bytes encrypt_text).

Definition seal_slice_ex (key_policy : Z) (attribute_mask : sgx_attributes_t)
    (misc_mask : Z) (additional_addr : Z) (additional_text : list byte)
    (encrypt_addr : Z) (encrypt_text : list T) : STS W SgxInternalSealedData :=
  if (size_of T =? 0) || (size_of_val encrypt_text =? 0)
  then ste_err SGX_ERROR_INVALID_PARAMETER
  else Internal.seal_data_ex key_policy attribute_mask misc_mask
         additional_addr additional_text encrypt_addr (slice_bytes encrypt_text).

Definition unseal_slice (self_addr encrypt_addr additional_addr : Z)
    (self : SgxInternalSealedData) : STS W (SgxUnsealedData (list T)) :=
  let size := size_of T in
  let encrypt_len := Internal.get_encrypt_txt_len self in
  if size =? 0 then ste_err SGX_ERROR_INVALID_PARAMETER
  else if size >? encrypt_len then ste_err SGX_ERROR_MAC_MISMATCH
  else if negb (encrypt_len `mod` size =? 0) then ste_err SGX_ERROR_MAC_MISMATCH
  else
    let* r := Internal.unseal_data self_addr encrypt_addr additional_addr self in
    st_ret (result_map (fun x =>
      Build_SgxUnsealedData (ud_payload_size x)
        (read_slice (Z.to_nat (encrypt_len / size)) (Z.to_nat size) (ud_decrypt x))
        (ud_additional x)) r).

End typed.
End SealedData.

Module MacAadata.
Section typed.
Context {W : Type} `{EN : Enclave} `{PL : Platform W} `{TC : Tcrypto W} {T : Type} `{FromMemory T}.

Definition mac_aadata (additional_addr : Z) (additional_text : T)
    : STS W SgxInternalSealedData :=
  if size_of T =? 0 then ste_err SGX_ERROR_INVALID_PARAMETER
  else Internal.mac_aadata additional_addr (as_bytes additional_text).

Definition mac_aadata_ex (key_policy : Z) (attribute_mask : sgx_attributes_t)
    (misc_mask : Z) (additional_addr : Z) (additional_text : T)
    : STS W SgxInternalSealedData :=
  if size_of T =? 0 then ste_err SGX_ERROR_INVALID_PARAMETER
  else Internal.mac_aadata_ex key_policy attribute_mask misc_mask
         additional_addr (as_bytes additional_text).

Definition unmac_aadata (self_addr additional_addr : Z)
    (self : SgxInternalSealedData) : STS W T :=
  if size_of T =? 0 then ste_err SGX_ERROR_INVALID_PARAMETER
  else if negb (size_of T =? Internal.get_add_mac_txt_len self)
  then ste_err SGX_ERROR_MAC_MISMATCH
  else
    let* r := Internal.unmac_aadata self_addr additional_addr self in
    st_ret (result_map (fun x => from_memory (ud_additional x)) r).

Definition from_raw_sealed_data_t `{TsealFfi} (p len : Z) (mem : list byte)
    : option SgxInternalSealedData :=
  if size_of T =? 0 then None else Internal.from_raw_sealed_data_t p len mem.

Definition to_raw_sealed_data_t `{TsealFfi} (self : SgxInternalSealedData) (p len : Z)
    (mem : list byte) : option Z * list byte :=
  Internal.to_raw_sealed_data_t self p len mem.

(** ** [SgxMacAadata<[T]>] *)
Definition mac_slice (additional_addr : Z) (additional_text : list T)
    : STS W SgxInternalSealedData :=
  if (size_of T =? 0) || (size_of_val additional_text =? 0)
  then ste_err SGX_ERROR_INVALID_PARAMETER
  else Internal.mac_aadata additional_addr (slice_bytes additional_text).

Definition mac_slice_ex (key_policy : Z) (attribute_mask : sgx_attributes_t)
    (misc_mask : Z) (additional_addr : Z) (additional_text : list T)
    : STS W SgxInternalSealedData :=
  if (size_of T =? 0) || (size_of_val additional_text =? 0)
  then ste_err SGX_ERROR_INVALID_PARAMETER
  else Internal.mac_aadata_ex key_policy attribute_mask misc_mask
         additional_addr (slice_bytes additional_text).

Definition unmac_slice (self_addr additional_addr : Z)
    (self : SgxInternalSealedData) : STS W (list T) :=
  let size := size_of T in
  let aad_len := Internal.get_add_mac_txt_len self in
  if size =? 0 then ste_err SGX_ERROR_INVALID_PARAMETER
  else if size >? aad_len then ste_err SGX_ERROR_MAC_MISMATCH
  else if negb (aad_len `mod` size =? 0) then ste_err SGX_ERROR_MAC_MISMATCH
  else
    let* r := Internal.unmac_aadata self_addr additional_addr self in
    st_ret (result_map (fun x =>
      read_slice (Z.to_nat (aad_len / size)) (Z.to_nat size) (ud_additional x)) r).

End typed.
End MacAadata.
