(* ===== verification/TsealProofs.v ===== *)
(** TsealProofs: the theorems on sealing.

    Sizes and argument checks first, then what a successful seal produces, the
    seal/unseal and MAC/unMAC round trips and authenticity, each against the
    laws of the platform and the crypto library. *)
From Stdlib Require Import ZArith Lia Strings.Byte.
From stdpp Require Import base numbers list option tactics gmap.
From S2P Require Import Prelude SgxStatus SgxTypes Trts Tse Tcrypto TcryptoSpec ToyMachine Tseal.
Import Trts.Bounds Tseal.Internal.

(** * Sizes *)

(** The size of a raw sealed blob saturates: for [u32] arguments
    [calc_raw_sealed_data_size] is 560 plus both texts, or [u32::MAX] when that
    is not below it; the additions inside never overflow. *)
Theorem calc_raw_sealed_data_size_saturates a e :
  0 <= a <= u32_max -> 0 <= e <= u32_max ->
  calc_raw_sealed_data_size a e = Z.min u32_max (sgx_sealed_data_size + a + e).
Proof.
  intros Ha He. unfold calc_raw_sealed_data_size, sgx_sealed_data_size, u32_max in *.
  zcases.
Qed.

Lemma calc_raw_sealed_data_size_saturates_witness :
  calc_raw_sealed_data_size 4294967290 5 = u32_max /\
  calc_raw_sealed_data_size 4294967290 5 =
    Z.min u32_max (sgx_sealed_data_size + 4294967290 + 5).
Proof.
  split; [reflexivity|].
  apply (calc_raw_sealed_data_size_saturates 4294967290 5); unfold u32_max; lia.
Defined.

Lemma calc_size_max a e :
  0 <= a -> 0 <= e -> (calc_raw_sealed_data_size a e =? u32_max) = (u32_max <=? 560 + a + e).
Proof.
  intros Ha He. unfold calc_raw_sealed_data_size, sgx_sealed_data_size, u32_max in *.
  zcases.
Qed.

Lemma txt_len_small n ps : 0 <= n <= ps -> n < u32_max -> txt_len n ps = n.
Proof.
  intros Hn Hm. unfold txt_len. rewrite Z.gtb_ltb, Z.geb_leb.
  destruct (Z.ltb_spec ps n), (Z.leb_spec u32_max n); try lia. simpl.
  apply wrap_small. unfold u32_max in *. lia.
Qed.

(** * The argument checks *)

(** Which key policies are accepted: no bit above the six known ones, and at
    least one of MRENCLAVE (bit 0) and MRSIGNER (bit 1). *)
Definition key_policy_ok (key_policy : Z) : Prop :=
  0 <= key_policy < 64 /\ (Z.testbit key_policy 0 = true \/ Z.testbit key_policy 1 = true).

Definition attribute_mask_ok (m : sgx_attributes_t) : Prop :=
  Z.testbit (attr_flags m) 0 = true /\ Z.testbit (attr_flags m) 1 = true.

Lemma land_pow2_zero z i : 0 <= i -> (Z.land z (2 ^ i) =? 0) = negb (Z.testbit z i).
Proof.
  intros Hi. rewrite Z.land_comm. destruct (Z.testbit z i) eqn:E; simpl.
  - apply Z.eqb_neq. intros E0. assert (Z.testbit (Z.land (2 ^ i) z) i = false) as F.
    { rewrite E0. apply Z.bits_0. }
    by rewrite Z.land_spec, Z.pow2_bits_true, E in F.
  - apply Z.eqb_eq, Z.bits_inj_0. intros n. rewrite Z.land_spec, Z.pow2_bits_eqb by done.
    destruct (Z.eqb_spec i n) as [->|]; [by rewrite E|done].
Qed.

Lemma bad_key_policy_spec kp :
  0 <= kp <= u16_max -> bad_key_policy kp = false <-> key_policy_ok kp.
Proof.
  intros Hk. unfold bad_key_policy, key_policy_ok.
  change (unot 16 _) with (Z.ones 10 * 2 ^ 6). change (Z.lor SGX_KEYPOLICY_MRENCLAVE _) with 3.
  rewrite orb_false_iff, negb_false_iff, Z.eqb_eq, Z.eqb_neq.
  assert (Z.land kp 3 = 0 <-> Z.testbit kp 0 = false /\ Z.testbit kp 1 = false) as E3.
  { rewrite <- (negb_true_iff (Z.testbit kp 0)), <- (negb_true_iff (Z.testbit kp 1)).
    rewrite <- !land_pow2_zero, !Z.eqb_eq by done. change 3 with (Z.lor (2 ^ 0) (2 ^ 1)).
    rewrite Z.land_lor_distr_r, Z.lor_eq_0_iff. done. }
  assert (Z.land kp (Z.ones 10 * 2 ^ 6) = 0 <-> kp < 64) as E6.
  { rewrite <- Z.shiftl_mul_pow2 by done.
    assert (Z.land kp (Z.shiftl (Z.ones 10) 6) = Z.shiftl (Z.shiftr kp 6) 6) as ->.
    { apply Z.bits_inj'. intros n Hn. rewrite Z.land_spec.
      destruct (Z.ltb_spec n 6) as [|Hn6].
      { by rewrite !Z.shiftl_spec_low, andb_false_r by done. }
      rewrite !Z.shiftl_spec_high, Z.shiftr_spec by lia.
      replace (n - 6 + 6) with n by lia.
      destruct (Z.ltb_spec n 16) as [|Hn16].
      { rewrite Z.ones_spec_low by lia. apply andb_true_r. }
      rewrite (Z.bits_above_log2 kp n); [done|lia|].
      destruct (decide (kp = 0)) as [->|]; [simpl; lia|].
      apply Z.log2_lt_pow2; [lia|]. apply Z.lt_le_trans with (2 ^ 16); [unfold u16_max in *; lia|].
      apply Z.pow_le_mono_r; lia. }
    rewrite Z.shiftl_eq_0_iff, Z.shiftr_div_pow2 by done. split; intros E.
    - apply Z.div_small_iff in E; [|done]. simpl in E. lia.
    - apply Z.div_small. simpl. lia. }
  rewrite E3, E6. destruct (Z.testbit kp 0), (Z.testbit kp 1); naive_solver lia.
Qed.

Lemma bad_attribute_mask_spec m : bad_attribute_mask m = false <-> attribute_mask_ok m.
Proof.
  unfold bad_attribute_mask, attribute_mask_ok, SGX_FLAGS_INITTED, SGX_FLAGS_DEBUG.
  change 0x1 with (2 ^ 0). change 0x2 with (2 ^ 1). rewrite !land_pow2_zero by done.
  by rewrite orb_false_iff, !negb_false_iff.
Qed.

Section checks.
Context `{Enclave}.

(** Arguments that [seal_data_ex] accepts. *)
Definition seal_args_ok (key_policy : Z) (m : sgx_attributes_t)
    (additional_addr : Z) (additional_text : list byte)
    (encrypt_addr : Z) (encrypt_text : list byte) : Prop :=
  0 < zlen encrypt_text /\
  sgx_sealed_data_size + zlen additional_text + zlen encrypt_text < u32_max /\
  key_policy_ok key_policy /\ attribute_mask_ok m /\
  rsgx_slice_is_within_enclave 1 encrypt_addr encrypt_text = true /\
  (additional_text = [] \/
   rsgx_slice_is_within_enclave 1 additional_addr additional_text = true \/
   rsgx_slice_is_outside_enclave 1 additional_addr additional_text = true).

(** Arguments that [mac_aadata_ex] accepts. *)
Definition mac_args_ok (key_policy : Z) (m : sgx_attributes_t)
    (additional_addr : Z) (additional_text : list byte) : Prop :=
  0 < zlen additional_text /\ sgx_sealed_data_size + zlen additional_text < u32_max /\
  key_policy_ok key_policy /\ attribute_mask_ok m /\
  (rsgx_slice_is_within_enclave 1 additional_addr additional_text = true \/
   rsgx_slice_is_outside_enclave 1 additional_addr additional_text = true).

#[export] Instance seal_args_ok_dec kp m aa aad ea enc :
  Decision (seal_args_ok kp m aa aad ea enc).
Proof. unfold seal_args_ok, key_policy_ok, attribute_mask_ok. apply _. Defined.

#[export] Instance mac_args_ok_dec kp m aa aad : Decision (mac_args_ok kp m aa aad).
Proof. unfold mac_args_ok, key_policy_ok, attribute_mask_ok. apply _. Defined.

End checks.

(** The first size check never sees a wrapped length: a length that is too
    long for [u32] was refused before. *)
Lemma size_checks_spec n m :
  0 <= n -> 0 <= m ->
  (n >=? u32_max) || (m >=? u32_max) = false ->
  (calc_raw_sealed_data_size (wrap 32 n) (wrap 32 m) =? u32_max) =
  (u32_max <=? 560 + n + m).
Proof.
  intros Hn Hm Hr. apply orb_false_iff in Hr as [H1 H2].
  rewrite Z.geb_leb in H1, H2. apply Z.leb_gt in H1, H2. unfold u32_max in H1, H2.
  rewrite !wrap_small by lia. by apply calc_size_max.
Qed.

(** An [if] that ends in an error, once its test is known. *)
Lemma if_false {A} (b : bool) (x y : A) : b = false -> (if b then x else y) = y.
Proof. by intros ->. Qed.

Section dispatch.
Context {W : Type} `{Enclave} (P : Platform W) (T : Tcrypto W).

Lemma seal_data_ex_accepts kp m mm aa aad ea enc :
  0 <= kp <= u16_max -> seal_args_ok kp m aa aad ea enc ->
  seal_data_ex kp m mm aa aad ea enc = seal_with_fresh_key kp m mm aad enc.
Proof.
  intros Hk (He & Hs & Hp & Hm & Hw & Ha). unfold sgx_sealed_data_size in *.
  pose proof (zlen_nonneg aad). unfold seal_data_ex.
  assert ((zlen aad >=? u32_max) || (zlen enc >=? u32_max) = false) as E1 by zcases.
  rewrite E1, size_checks_spec by (done || lia).
  apply bad_key_policy_spec in Hp; [|done]. apply bad_attribute_mask_spec in Hm.
  rewrite Hp, Hm, Hw. rewrite !if_false; [done| |done|zcases|zcases].
  destruct Ha as [->|[->| ->]]; [done|by rewrite andb_false_r|by rewrite !andb_false_r].
Qed.

Lemma seal_data_ex_refuses kp m mm aa aad ea enc :
  0 <= kp <= u16_max -> ~ seal_args_ok kp m aa aad ea enc ->
  seal_data_ex kp m mm aa aad ea enc = ste_err SGX_ERROR_INVALID_PARAMETER.
Proof.
  intros Hk Hn. unfold seal_data_ex.
  pose proof (zlen_nonneg aad). pose proof (zlen_nonneg enc).
  destruct (_ || _) eqn:E1; [done|]. rewrite size_checks_spec by done.
  destruct (Z.leb_spec u32_max (560 + zlen aad + zlen enc)); [done|].
  destruct (Z.eqb_spec (zlen enc) 0); [done|].
  destruct (bad_key_policy kp) eqn:E2; [done|]. destruct (bad_attribute_mask m) eqn:E3; [done|].
  destruct (rsgx_slice_is_within_enclave 1 ea enc) eqn:E4; [|done]. simpl.
  destruct (_ && _ && _) eqn:E5; [done|]. exfalso. apply Hn.
  apply bad_key_policy_spec in E2; [|done]. apply bad_attribute_mask_spec in E3.
  unfold seal_args_ok, sgx_sealed_data_size. repeat (split; [done || lia|]).
  destruct (rsgx_slice_is_within_enclave 1 aa aad); [auto|].
  destruct (rsgx_slice_is_outside_enclave 1 aa aad); [auto|]. left.
  simpl in E5. rewrite !andb_true_r in E5. apply zlen_nil_iff.
  rewrite Z.gtb_ltb in E5. apply Z.ltb_ge in E5. lia.
Qed.

Lemma mac_aadata_ex_accepts kp m mm aa aad :
  0 <= kp <= u16_max -> mac_args_ok kp m aa aad ->
  mac_aadata_ex kp m mm aa aad = seal_with_fresh_key kp m mm aad [].
Proof.
  intros Hk (He & Hs & Hp & Hm & Ha). unfold sgx_sealed_data_size in *. unfold mac_aadata_ex.
  apply bad_key_policy_spec in Hp; [|done]. apply bad_attribute_mask_spec in Hm.
  rewrite wrap_small by (unfold u32_max in *; lia). rewrite calc_size_max by lia.
  rewrite Hp, Hm. rewrite !if_false; [done| |zcases..].
  destruct Ha as [->| ->]; [done|by rewrite andb_false_r].
Qed.

Lemma mac_aadata_ex_refuses kp m mm aa aad :
  0 <= kp <= u16_max -> ~ mac_args_ok kp m aa aad ->
  mac_aadata_ex kp m mm aa aad = ste_err SGX_ERROR_INVALID_PARAMETER.
Proof.
  intros Hk Hn. unfold mac_aadata_ex. pose proof (zlen_nonneg aad).
  rewrite Z.geb_leb. destruct (Z.leb_spec u32_max (zlen aad)); [done|].
  rewrite wrap_small by (unfold u32_max in *; lia). rewrite calc_size_max by lia.
  destruct (Z.leb_spec u32_max (560 + zlen aad + 0)); [done|].
  destruct (Z.eqb_spec (zlen aad) 0); [done|].
  destruct (bad_key_policy kp) eqn:E2; [done|]. destruct (bad_attribute_mask m) eqn:E3; [done|].
  destruct (_ && _) eqn:E5; [done|]. exfalso. apply Hn.
  apply bad_key_policy_spec in E2; [|done]. apply bad_attribute_mask_spec in E3.
  unfold mac_args_ok, sgx_sealed_data_size. repeat (split; [done || lia|]).
  destruct (rsgx_slice_is_within_enclave 1 aa aad); [auto|].
  destruct (rsgx_slice_is_outside_enclave 1 aa aad); [auto|done].
Qed.

End dispatch.

(** The default policy and mask always pass. *)
Lemma default_args_ok report :
  0 <= default_key_policy report <= u16_max /\
  key_policy_ok (default_key_policy report) /\ attribute_mask_ok default_attribute_mask.
Proof.
  assert (default_key_policy report = 2 \/ default_key_policy report = 0x3a) as [-> | ->].
  { unfold default_key_policy. case_match; auto. }
  all: unfold key_policy_ok, u16_max; simpl; repeat split; auto; lia.
Qed.

(** * Sealing against the laws *)

(** The sealing key (EGETKEY's key name 4) of the enclave with report body
    [self], at its own version numbers. *)
Definition own_key_request (self : sgx_report_body_t) (key_policy : Z)
    (m : sgx_attributes_t) (misc_mask : Z) (key_id : list byte) : sgx_key_request_t := {|
  kr_key_name := 4; kr_key_policy := key_policy; kr_isv_svn := rb_isv_svn self;
  kr_reserved1 := 0; kr_cpu_svn := rb_cpu_svn self; kr_attribute_mask := m;
  kr_key_id := key_id; kr_misc_mask := misc_mask; kr_config_svn := rb_config_svn self;
  kr_reserved2 := zeros 434 |}.

(** What a successful seal produces: a request for the enclave's own sealing
    key under a 32-byte key id, and the AES-GCM encryption of the text under
    that key with the additional text authenticated beside it. *)
Record sealed_for `{CryptoMath} `{Machine} (self : sgx_report_body_t) (kp : Z)
    (m : sgx_attributes_t) (mm : Z) (aad enc : list byte)
    (sd : SgxInternalSealedData) : Prop := {
  sf_request : exists kid, length kid = 32%nat /\
    sd_key_request sd = own_key_request self kp m mm kid;
  sf_available : key_available self (sd_key_request sd);
  sf_payload :
    let sealed := gcm_seal (derived_key self (sd_key_request sd)) (zeros 12) aad enc in
    sd_payload_data sd = {|
      pl_payload_size := zlen enc + zlen aad; pl_reserved := zeros 12;
      pl_payload_tag := sealed.2; pl_encrypt := sealed.1; pl_additional := aad |}
}.

(** The key id is what the random source gave. *)
Lemma seal_key_id_random {W} (P : Platform W) (T : Tcrypto W) kp m mm aad enc w sd w' :
  seal_with_fresh_key kp m mm aad enc w = (Ok sd, w') ->
  kr_key_id (sd_key_request sd) = (sgx_read_rand (zeros 32) 32 w).1.2.
Proof.
  unfold seal_with_fresh_key, rsgx_self_report, rsgx_read_rand, st_bind, st_ret.
  change (zlen (zeros 32)) with 32.
  destruct (sgx_read_rand (zeros 32) 32 w) as [[ret kid] w1] eqn:E; simpl.
  destruct (status_result ret tt); [|done].
  destruct (seal_data_iv _ _ _ _ w1) as [[sd'|] w2]; intros; simplify_eq/=. done.
Qed.

Section laws.
Context `{CryptoMath} `{!CryptoMathLaws} `{Machine} {W : Type}.
Context (P : Platform W) (T : Tcrypto W) (self : sgx_report_body_t)
  (contexts : W -> gmap Z context) (ready : W -> Prop).
Context `{!PlatformLaws P self contexts ready} `{!TcryptoLaws T contexts ready}.

Lemma wp_seal_data_iv aad enc kr Q w :
  zlen enc + zlen aad < u32_max ->
  (forall w', contexts w' = contexts w -> key_available self kr -> (ready w -> ready w') ->
    let sealed := gcm_seal (derived_key self kr) (zeros 12) aad enc in
    Q (Ok {| sd_key_request := key_request_default;
      sd_payload_data := {|
        pl_payload_size := zlen enc + zlen aad; pl_reserved := zeros 12;
        pl_payload_tag := sealed.2; pl_encrypt := sealed.1; pl_additional := aad |} |}) w') ->
  (forall e w', contexts w' = contexts w -> ~ (ready w /\ key_available self kr) ->
    Q (Err e) w') ->
  wp (seal_data_iv aad enc (zeros 12) kr) Q w.
Proof.
  intros Hs Hok Herr. pose proof (zlen_nonneg aad). pose proof (zlen_nonneg enc).
  apply wp_bind. eapply wp_get_align_key; [done| |].
  - intros w1 Ev Hav Hr1. apply wp_ste_bind, wp_ret. simpl. apply wp_bind.
    apply (wp_gcm_encrypt T contexts ready).
    { unfold gcm_args_ok. rewrite length_zeros. lia. }
    { apply length_zeros. }
    + intros w2 E2 Hr2. apply wp_ret.
      replace (if negb (zlen aad =? 0) then aad else []) with aad.
      2: { destruct (Z.eqb_spec (zlen aad) 0) as [E|]; [by apply zlen_nil_iff in E|done]. }
      rewrite wrap_small by (unfold u32_max in *; lia).
      apply Hok; [congruence|done|tauto].
    + intros e d t w2 E2 Hr2. apply wp_ret, Herr; [congruence|tauto].
  - intros e w1 Ev Hn. apply wp_ste_bind, wp_ret, Herr; [done|tauto].
Qed.

Lemma wp_seal_with_fresh_key kp m mm aad enc Q w :
  zlen enc + zlen aad < u32_max ->
  (forall sd w', contexts w' = contexts w -> sealed_for self kp m mm aad enc sd ->
    (ready w -> ready w') -> Q (Ok sd) w') ->
  (forall e w', contexts w' = contexts w ->
    ~ (ready w /\ forall kid, length kid = 32%nat ->
         key_available self (own_key_request self kp m mm kid)) -> Q (Err e) w') ->
  wp (seal_with_fresh_key kp m mm aad enc) Q w.
Proof.
  intros Hs Hok Herr. unfold seal_with_fresh_key. apply wp_bind.
  wp_call as [rep w0] eqn Er. injection Er as <- <-.
  destruct (self_report_spec w) as [d Hd]. apply wp_bind.
  eapply wp_read_rand; [done|]. intros [] kid w1 E1 Hl Hr1.
  2: { apply wp_ret, Herr; [done|]. naive_solver. }
  rewrite length_zeros in Hl.
  assert (seal_key_request kp m mm (sgx_self_report w) kid =
          own_key_request self kp m mm kid) as ->.
  { unfold own_key_request, seal_key_request. by rewrite Hd. }
  apply wp_bind, wp_seal_data_iv; [done| |].
  - intros w2 E2 Hav Hr2. apply wp_ret, Hok; [congruence| |tauto].
    split; simpl; [by exists kid|done|done].
  - intros e w2 E2 Hn. apply wp_ret, Herr; [congruence|]. intros [Hr Ha].
    apply Hn. split; [tauto|by apply Ha].
Qed.

(** ** Unsealing *)
Lemma wp_unseal_data_helper sd Q w :
  zlen (get_encrypt_txt sd) <= u32_max -> zlen (get_additional_txt sd) <= u32_max ->
  (forall p w', contexts w' = contexts w -> (ready w -> ready w') ->
    gcm_open (derived_key self (sd_key_request sd)) (zeros 12) (get_additional_txt sd)
      (get_encrypt_txt sd) (get_payload_tag sd) = Some p ->
    Q (Ok {| ud_payload_size := get_payload_size sd; ud_decrypt := p;
             ud_additional := get_additional_txt sd |}) w') ->
  (forall e w', contexts w' = contexts w ->
    ~ (ready w /\ key_available self (sd_key_request sd) /\
       is_Some (gcm_open (derived_key self (sd_key_request sd)) (zeros 12)
         (get_additional_txt sd) (get_encrypt_txt sd) (get_payload_tag sd))) ->
    Q (Err e) w') ->
  wp (unseal_data_helper sd) Q w.
Proof.
  intros He Ha Hok Herr. apply wp_bind. eapply wp_get_align_key; [done| |].
  - intros w1 Ev Hav Hr1. apply wp_ste_bind, wp_ret. simpl. apply wp_bind.
    apply (wp_gcm_decrypt T contexts ready).
    { unfold gcm_args_ok. by rewrite length_zeros. }
    { apply length_zeros. }
    + intros p w2 Ho E2 Hr2. apply wp_ret.
      replace (if zlen (get_additional_txt sd) >? 0 then get_additional_txt sd else [])
        with (get_additional_txt sd).
      2: { destruct (get_additional_txt sd); done. }
      apply Hok; [congruence|tauto|done].
    + intros e d w2 E2 Hn. apply wp_ret, Herr; [congruence|]. tauto.
  - intros e w1 Ev Hn. apply wp_ste_bind, wp_ret, Herr; [done|]. tauto.
Qed.

(** The object and its boxes lie inside the enclave.  An empty box owns no memory
    and its address is arbitrary. *)
Definition held_inside `{Enclave} (self_addr encrypt_addr additional_addr : Z)
    (sd : SgxInternalSealedData) : Prop :=
  rsgx_raw_is_within_enclave self_addr internal_sealed_data_size = true /\
  (0 < zlen (get_encrypt_txt sd) ->
   rsgx_slice_is_within_enclave 1 encrypt_addr (get_encrypt_txt sd) = true) /\
  (0 < zlen (get_additional_txt sd) ->
   rsgx_slice_is_within_enclave 1 additional_addr (get_additional_txt sd) = true).

(** The invariant of a sealed object: the payload size is that of its texts,
    and the raw form fits in [u32]. *)
Definition sizes_ok (sd : SgxInternalSealedData) : Prop :=
  get_payload_size sd = zlen (get_additional_txt sd) + zlen (get_encrypt_txt sd) /\
  sgx_sealed_data_size + get_payload_size sd < u32_max.

Lemma txt_lens_ok sd : sizes_ok sd ->
  get_add_mac_txt_len sd = zlen (get_additional_txt sd) /\
  get_encrypt_txt_len sd = zlen (get_encrypt_txt sd).
Proof.
  intros [Hp Hs]. unfold get_add_mac_txt_len, get_encrypt_txt_len, sgx_sealed_data_size in *.
  pose proof (zlen_nonneg (get_additional_txt sd)).
  pose proof (zlen_nonneg (get_encrypt_txt sd)). split; apply txt_len_small; lia.
Qed.

Lemma unseal_data_accepts `{Enclave} sa ea aa sd :
  sizes_ok sd -> 0 < zlen (get_encrypt_txt sd) -> held_inside sa ea aa sd ->
  unseal_data sa ea aa sd = unseal_data_helper sd.
Proof.
  intros Hz He (Hi1 & Hi2 & Hi3). destruct (txt_lens_ok sd Hz) as [El1 El2].
  destruct Hz as [Hp Hs]. unfold sgx_sealed_data_size in *.
  pose proof (zlen_nonneg (get_additional_txt sd)).
  unfold unseal_data. rewrite El1, El2, Hi1, Hi2, calc_size_max by lia.
  rewrite Hp, wrap_small by (unfold u32_max in *; lia).
  rewrite !if_false; [done| |zcases..].
  destruct (Z.gtb_spec (zlen (get_additional_txt sd)) 0); [by rewrite Hi3|done].
Qed.

Lemma unmac_aadata_accepts `{Enclave} sa ea aa sd :
  sizes_ok sd -> zlen (get_encrypt_txt sd) = 0 -> 0 < zlen (get_additional_txt sd) ->
  held_inside sa ea aa sd -> unmac_aadata sa aa sd = unseal_data_helper sd.
Proof.
  intros Hz He Ha (Hi1 & _ & Hi3). destruct (txt_lens_ok sd Hz) as [El1 El2].
  destruct Hz as [Hp Hs]. unfold sgx_sealed_data_size in *.
  unfold unmac_aadata. rewrite El1, El2, Hi1, (Hi3 Ha), calc_size_max by lia.
  rewrite Hp, wrap_small by (unfold u32_max in *; lia).
  rewrite !if_false; [done|zcases..].
Qed.

(** An object made by a successful seal satisfies the invariant. *)
Lemma sealed_for_sizes kp m mm aad enc sd :
  sealed_for self kp m mm aad enc sd ->
  sgx_sealed_data_size + zlen aad + zlen enc < u32_max ->
  sizes_ok sd /\ get_additional_txt sd = aad /\ zlen (get_encrypt_txt sd) = zlen enc /\
  get_payload_size sd = zlen enc + zlen aad.
Proof.
  intros [_ _ Hp] Hs. unfold sizes_ok, get_payload_size, get_additional_txt, get_encrypt_txt.
  assert (forall k, zlen (gcm_seal k (zeros 12) aad enc).1 = zlen enc) as El.
  { intros k. unfold zlen. by rewrite (proj1 (gcm_seal_length _ _ _ _)). }
  rewrite Hp. simpl. rewrite El. repeat split; lia.
Qed.

(** On a ready machine, in any world after the seal, the enclave's own sealed
    object opens to the text it was made from. *)
Lemma unseal_helper_opens kp m mm aad enc sd w :
  sealed_for self kp m mm aad enc sd ->
  sgx_sealed_data_size + zlen aad + zlen enc < u32_max -> ready w ->
  wp (unseal_data_helper sd) (fun r w' =>
    r = Ok {| ud_payload_size := zlen enc + zlen aad; ud_decrypt := enc;
              ud_additional := aad |} /\
    contexts w' = contexts w /\ ready w') w.
Proof.
  intros Hf Hs Hr. destruct (sealed_for_sizes _ _ _ _ _ _ Hf Hs) as ([_ _] & Ea & Ez & Ep).
  unfold sgx_sealed_data_size in *.
  pose proof (zlen_nonneg aad). pose proof (zlen_nonneg enc).
  assert (gcm_open (derived_key self (sd_key_request sd)) (zeros 12) (get_additional_txt sd)
    (get_encrypt_txt sd) (get_payload_tag sd) = Some enc) as Eo.
  { destruct Hf as [_ _ Hp]. unfold get_additional_txt, get_encrypt_txt, get_payload_tag.
    rewrite Hp. simpl. apply gcm_open_seal. }
  apply wp_unseal_data_helper; rewrite ?Ea, ?Ez; try lia.
  - intros p w' E Hr' Ho. rewrite Ea in Eo. rewrite Eo in Ho. injection Ho as <-.
    rewrite Ep. auto.
  - intros e w' E Hn. rewrite Ea in Eo. rewrite Eo in Hn. destruct Hn.
    split_and!; [done|apply Hf|done].
Qed.

(** A successful call, seen from its caller. *)
Lemma seal_data_ex_ok `{Enclave} kp m mm aa aad ea enc w sd w1 :
  0 <= kp <= u16_max -> seal_data_ex kp m mm aa aad ea enc w = (Ok sd, w1) ->
  seal_args_ok kp m aa aad ea enc /\ sealed_for self kp m mm aad enc sd.
Proof.
  intros Hk E. destruct (decide (seal_args_ok kp m aa aad ea enc)) as [Ha|Hn].
  2: { by rewrite seal_data_ex_refuses in E. }
  split; [done|]. rewrite seal_data_ex_accepts in E by done.
  unfold seal_args_ok, sgx_sealed_data_size in Ha.
  apply (wp_ok_inv _ (fun sd _ => sealed_for self kp m mm aad enc sd) _ _ _ E).
  apply wp_seal_with_fresh_key; [lia|done..].
Qed.

Lemma mac_aadata_ex_ok `{Enclave} kp m mm aa aad w sd w1 :
  0 <= kp <= u16_max -> mac_aadata_ex kp m mm aa aad w = (Ok sd, w1) ->
  mac_args_ok kp m aa aad /\ sealed_for self kp m mm aad [] sd.
Proof.
  intros Hk E. destruct (decide (mac_args_ok kp m aa aad)) as [Ha|Hn].
  2: { by rewrite mac_aadata_ex_refuses in E. }
  split; [done|]. rewrite mac_aadata_ex_accepts in E by done.
  unfold mac_args_ok, sgx_sealed_data_size in Ha.
  apply (wp_ok_inv _ (fun sd _ => sealed_for self kp m mm aad [] sd) _ _ _ E).
  apply wp_seal_with_fresh_key; [unfold zlen at 1; simpl; lia|done..].
Qed.

(** The default entry point is the extended one with the default policy. *)
Lemma seal_data_ok `{Enclave} aa aad ea enc w sd w1 :
  seal_data aa aad ea enc w = (Ok sd, w1) ->
  exists kp, 0 <= kp <= u16_max /\
    seal_args_ok kp default_attribute_mask aa aad ea enc /\
    sealed_for self kp default_attribute_mask TSEAL_DEFAULT_MISCMASK aad enc sd.
Proof.
  unfold seal_data, rsgx_self_report, st_bind. intros E.
  exists (default_key_policy (sgx_self_report w)).
  pose proof (default_args_ok (sgx_self_report w)) as [Hk _]. split; [done|].
  by eapply seal_data_ex_ok.
Qed.

End laws.

(** C28. [seal_data_ex] on every argument list: with acceptable arguments it
    goes on to seal, and with any other (empty or oversized text, unknown or
    missing key-policy bits, a mask without INITTED or DEBUG, text that is not
    inside the enclave, additional data that straddles its border) it returns
    INVALID_PARAMETER and calls nothing.  [mac_aadata_ex] likewise. *)
Theorem seal_argument_checks {W} `{Enclave} (P : Platform W) (T : Tcrypto W)
    kp m mm aa aad ea enc :
  0 <= kp <= u16_max ->
  (seal_args_ok kp m aa aad ea enc ->
     seal_data_ex kp m mm aa aad ea enc = seal_with_fresh_key kp m mm aad enc) /\
  (~ seal_args_ok kp m aa aad ea enc -> forall w,
     seal_data_ex kp m mm aa aad ea enc w = (Err SGX_ERROR_INVALID_PARAMETER, w)) /\
  (mac_args_ok kp m aa aad ->
     mac_aadata_ex kp m mm aa aad = seal_with_fresh_key kp m mm aad []) /\
  (~ mac_args_ok kp m aa aad -> forall w,
     mac_aadata_ex kp m mm aa aad w = (Err SGX_ERROR_INVALID_PARAMETER, w)).
Proof.
  intros Hk. repeat split; intros.
  - by apply seal_data_ex_accepts.
  - by rewrite seal_data_ex_refuses.
  - by apply mac_aadata_ex_accepts.
  - by rewrite mac_aadata_ex_refuses.
Qed.

Lemma seal_argument_checks_witness :
  seal_data_ex (PL := toy_platform report_body_default) 0x40 default_attribute_mask 0
    0 [] toy_base [Byte.x41] {| tw_seed := 0; tw_contexts := ∅ |} =
  (Err SGX_ERROR_INVALID_PARAMETER, {| tw_seed := 0; tw_contexts := ∅ |}).
Proof.
  apply (seal_argument_checks (toy_platform report_body_default) toy_tcrypto 0x40
    default_attribute_mask 0 0 [] toy_base [Byte.x41]).
  - unfold u16_max. lia.
  - intros (_ & _ & [Hp _] & _). lia.
Defined.

(** C6. Sealing does what it should: with acceptable arguments, on a ready
    machine that grants the enclave its sealing keys, [seal_data_ex] succeeds;
    its result holds a request for the enclave's own key (the caller's policy
    and masks, the enclave's own ISV SVN, CPU SVN and config SVN, as key id the
    32 bytes that the random source gave), the AES-GCM encryption of the text with the additional
    text authenticated, and sizes that add up; no context is left open. *)
Theorem seal_data_ex_seals `{CryptoMath} `{!CryptoMathLaws} `{Machine} {W} `{Enclave}
    (P : Platform W) (T : Tcrypto W) self (contexts : W -> gmap Z context) ready
    `{!PlatformLaws P self contexts ready} `{!TcryptoLaws T contexts ready}
    kp m mm aa aad ea enc w :
  0 <= kp <= u16_max -> seal_args_ok kp m aa aad ea enc -> ready w ->
  (forall kid, length kid = 32%nat -> key_available self (own_key_request self kp m mm kid)) ->
  let '(r, w') := seal_data_ex kp m mm aa aad ea enc w in
  contexts w' = contexts w /\ ready w' /\
  exists sd, r = Ok sd /\ sealed_for self kp m mm aad enc sd /\ sizes_ok sd /\
    kr_key_id (sd_key_request sd) = (sgx_read_rand (zeros 32) 32 w).1.2.
Proof.
  intros Hk Ha Hr Hav. rewrite seal_data_ex_accepts by done.
  enough (wp (seal_with_fresh_key kp m mm aad enc) (fun r w' =>
    contexts w' = contexts w /\ ready w' /\
    exists sd, r = Ok sd /\ sealed_for self kp m mm aad enc sd /\ sizes_ok sd) w) as Hwp.
  { unfold wp in Hwp. destruct (seal_with_fresh_key _ _ _ _ _ _) as [r w'] eqn:E. simpl in Hwp.
    destruct Hwp as (? & ? & sd & -> & ? & ?). apply seal_key_id_random in E. eauto 10. }
  destruct Ha as (_ & Hs & _).
  apply (wp_seal_with_fresh_key P T self contexts ready);
    [unfold sgx_sealed_data_size in Hs; lia|..].
  - intros sd w' E Hf Hr'. split_and!; [done|tauto|]. exists sd.
    split_and!; [done|done|]. by eapply sealed_for_sizes.
  - intros e w' E Hn. destruct Hn. done.
Qed.

Lemma seal_data_ex_seals_witness :
  let w := {| tw_seed := 77; tw_contexts := ∅ |} in
  let '(r, w') := seal_data_ex (PL := toy_platform report_body_default) 1
    default_attribute_mask 0 0 [] toy_base [Byte.x41] w in
  tw_contexts w' = tw_contexts w /\ toy_ready w' /\
  exists sd, r = Ok sd /\
    sealed_for report_body_default 1 default_attribute_mask 0 [] [Byte.x41] sd /\
    sizes_ok sd /\
    kr_key_id (sd_key_request sd) =
      (sgx_read_rand (Platform := toy_platform report_body_default) (zeros 32) 32 w).1.2.
Proof.
  assert (report_body_ok report_body_default) as Hb by (repeat split; done).
  pose proof (toy_platform_laws _ Hb).
  apply (seal_data_ex_seals (toy_platform report_body_default) toy_tcrypto
    report_body_default tw_contexts toy_ready); try done.
  repeat split; try done; auto.
Defined.

(** C4. Unsealing inverts sealing: an object that [seal_data_ex] returned,
    held inside the enclave, is unsealed by the same enclave in any later
    world where the machine answers (a reboot included); the result is exactly
    the text, the additional text and their total size.  There may be no
    additional text; its empty box then may have any address. *)
Theorem unseal_inverts_seal `{CryptoMath} `{!CryptoMathLaws} `{Machine} {W} `{Enclave}
    (P : Platform W) (T : Tcrypto W) self (contexts : W -> gmap Z context) ready
    `{!PlatformLaws P self contexts ready} `{!TcryptoLaws T contexts ready}
    kp m mm aa aad ea enc w sd w1 sa ea' aa' w2 :
  0 <= kp <= u16_max -> seal_data_ex kp m mm aa aad ea enc w = (Ok sd, w1) ->
  held_inside sa ea' aa' sd -> ready w2 ->
  let '(r, w3) := unseal_data sa ea' aa' sd w2 in
  r = Ok {| ud_payload_size := zlen enc + zlen aad; ud_decrypt := enc;
            ud_additional := aad |} /\
  contexts w3 = contexts w2 /\ ready w3.
Proof.
  intros Hk E Hh Hr. eapply seal_data_ex_ok in E as [(He & Hs & _) Hf]; [|done..].
  destruct (sealed_for_sizes _ _ _ _ _ _ _ Hf Hs) as (Hz & _ & Hl & _).
  rewrite unseal_data_accepts by (done || lia).
  pose proof (unseal_helper_opens P T self contexts ready _ _ _ _ _ _ w2 Hf Hs Hr) as Ho.
  unfold wp in Ho. by destruct (unseal_data_helper sd w2).
Qed.

(** A text of one byte with two bytes of additional data, on the concrete
    machine: sealed at address 0x10000, unsealed from boxes at 0x20000. *)
Definition toy_sealed : SgxInternalSealedData :=
  match seal_data_ex (PL := toy_platform report_body_default) 1 default_attribute_mask 0
    toy_base [Byte.x01; Byte.x02] toy_base [Byte.x41] {| tw_seed := 77; tw_contexts := ∅ |}
  with (Ok sd, _) => sd | _ => new end.

(** The same text alone; the empty box is at address 1. *)
Definition toy_sealed_alone : SgxInternalSealedData :=
  match seal_data_ex (PL := toy_platform report_body_default) 1 default_attribute_mask 0
    1 [] toy_base [Byte.x41] {| tw_seed := 77; tw_contexts := ∅ |}
  with (Ok sd, _) => sd | _ => new end.

Lemma unseal_inverts_seal_witness :
  (let '(r, w3) := unseal_data (PL := toy_platform report_body_default)
    0x20000 0x20000 0x20000 toy_sealed {| tw_seed := 99; tw_contexts := ∅ |} in
  r = Ok {| ud_payload_size := 3; ud_decrypt := [Byte.x41];
            ud_additional := [Byte.x01; Byte.x02] |} /\
  tw_contexts w3 = ∅ /\ toy_ready w3) /\
  (let '(r, w3) := unseal_data (PL := toy_platform report_body_default)
    0x20000 0x20000 1 toy_sealed_alone {| tw_seed := 99; tw_contexts := ∅ |} in
  r = Ok {| ud_payload_size := 1; ud_decrypt := [Byte.x41]; ud_additional := [] |} /\
  tw_contexts w3 = ∅ /\ toy_ready w3).
Proof.
  assert (report_body_ok report_body_default) as Hb by (repeat split; done).
  pose proof (toy_platform_laws _ Hb). split.
  - apply (unseal_inverts_seal (toy_platform report_body_default) toy_tcrypto
      report_body_default tw_contexts toy_ready 1 default_attribute_mask 0
      toy_base [Byte.x01; Byte.x02] toy_base [Byte.x41] {| tw_seed := 77; tw_contexts := ∅ |}
      toy_sealed {| tw_seed := 78; tw_contexts := ∅ |} 0x20000 0x20000 0x20000
      {| tw_seed := 99; tw_contexts := ∅ |}); vm_compute; repeat split; done.
  - apply (unseal_inverts_seal (toy_platform report_body_default) toy_tcrypto
      report_body_default tw_contexts toy_ready 1 default_attribute_mask 0
      1 [] toy_base [Byte.x41] {| tw_seed := 77; tw_contexts := ∅ |}
      toy_sealed_alone {| tw_seed := 78; tw_contexts := ∅ |} 0x20000 0x20000 1
      {| tw_seed := 99; tw_contexts := ∅ |}); vm_compute; repeat split; done.
Defined.

(** The same for data that is only authenticated: [unmac_aadata] gives back
    what [mac_aadata_ex] was called on. *)
Theorem unmac_inverts_mac `{CryptoMath} `{!CryptoMathLaws} `{Machine} {W} `{Enclave}
    (P : Platform W) (T : Tcrypto W) self (contexts : W -> gmap Z context) ready
    `{!PlatformLaws P self contexts ready} `{!TcryptoLaws T contexts ready}
    kp m mm aa aad w sd w1 sa ea' aa' w2 :
  0 <= kp <= u16_max -> mac_aadata_ex kp m mm aa aad w = (Ok sd, w1) ->
  held_inside sa ea' aa' sd -> ready w2 ->
  let '(r, w3) := unmac_aadata sa aa' sd w2 in
  r = Ok {| ud_payload_size := zlen aad; ud_decrypt := []; ud_additional := aad |} /\
  contexts w3 = contexts w2 /\ ready w3.
Proof.
  intros Hk E Hh Hr. eapply mac_aadata_ex_ok in E as [(He & Hs & _) Hf]; [|done..].
  assert (sgx_sealed_data_size + zlen aad + zlen (@nil byte) < u32_max) as Hs'.
  { unfold zlen at 2. simpl. lia. }
  destruct (sealed_for_sizes _ _ _ _ _ _ _ Hf Hs') as (Hz & Ha & Hl & _).
  rewrite (unmac_aadata_accepts P T sa ea' aa') by (rewrite ?Ha, ?Hl; done).
  pose proof (unseal_helper_opens P T self contexts ready _ _ _ _ _ _ w2 Hf Hs' Hr) as Ho.
  unfold wp in Ho. by destruct (unseal_data_helper sd w2).
Qed.

Definition toy_maced : SgxInternalSealedData :=
  match mac_aadata_ex (PL := toy_platform report_body_default) 2 default_attribute_mask 0
    0x400 [Byte.x01; Byte.x02] {| tw_seed := 5; tw_contexts := ∅ |}
  with (Ok sd, _) => sd | _ => new end.

Lemma unmac_inverts_mac_witness :
  let '(r, w3) := unmac_aadata (PL := toy_platform report_body_default)
    0x20000 0x20000 toy_maced {| tw_seed := 99; tw_contexts := ∅ |} in
  r = Ok {| ud_payload_size := 2; ud_decrypt := [];
            ud_additional := [Byte.x01; Byte.x02] |} /\
  tw_contexts w3 = ∅ /\ toy_ready w3.
Proof.
  assert (report_body_ok report_body_default) as Hb by (repeat split; done).
  pose proof (toy_platform_laws _ Hb).
  apply (unmac_inverts_mac (toy_platform report_body_default) toy_tcrypto
    report_body_default tw_contexts toy_ready 2 default_attribute_mask 0
    0x400 [Byte.x01; Byte.x02] {| tw_seed := 5; tw_contexts := ∅ |}
    toy_maced {| tw_seed := 6; tw_contexts := ∅ |} 0x20000 0x20000 0x20000
    {| tw_seed := 99; tw_contexts := ∅ |}); vm_compute; repeat split; done.
Defined.

(** * What a successful unseal tells *)

(** The four size checks together are the size invariant. *)
Lemma unseal_checks_sizes sd :
  0 <= get_payload_size sd <= u32_max ->
  (get_add_mac_txt_len sd =? u32_max) || (get_encrypt_txt_len sd =? u32_max) = false ->
  (calc_raw_sealed_data_size (get_add_mac_txt_len sd) (get_encrypt_txt_len sd) =? u32_max)
    = false ->
  negb (wrap 32 (get_add_mac_txt_len sd + get_encrypt_txt_len sd) =? get_payload_size sd)
    = false -> sizes_ok sd.
Proof.
  intros Hps Ho Hc Hp. unfold get_add_mac_txt_len, get_encrypt_txt_len in *.
  pose proof (zlen_nonneg (get_additional_txt sd)).
  pose proof (zlen_nonneg (get_encrypt_txt sd)).
  apply orb_false_iff in Ho as [H1 H2].
  assert (forall n, 0 <= n -> (txt_len n (get_payload_size sd) =? u32_max) = false ->
    n < u32_max /\ txt_len n (get_payload_size sd) = n) as Ht.
  { intros n Hn. unfold txt_len. rewrite Z.gtb_ltb, Z.geb_leb.
    destruct (Z.ltb_spec (get_payload_size sd) n); [done|].
    destruct (Z.leb_spec u32_max n); [done|]. simpl. intros _.
    split; [done|]. apply wrap_small. unfold u32_max in *. lia. }
  apply Ht in H1 as [? E1], H2 as [? E2]; [|done..]. rewrite E1, E2 in *.
  rewrite calc_size_max in Hc by done. apply Z.leb_gt in Hc.
  apply negb_false_iff, Z.eqb_eq in Hp.
  rewrite wrap_small in Hp by (unfold u32_max in *; lia).
  unfold sizes_ok, sgx_sealed_data_size. lia.
Qed.

Lemma unseal_data_ok {W} `{Enclave} (P : Platform W) (T : Tcrypto W) sa ea aa sd w ud w' :
  0 <= get_payload_size sd <= u32_max ->
  unseal_data sa ea aa sd w = (Ok ud, w') ->
  sizes_ok sd /\ unseal_data_helper sd w = (Ok ud, w').
Proof.
  intros Hps. unfold unseal_data.
  destruct (_ || _) eqn:E1; [done|]. destruct (calc_raw_sealed_data_size _ _ =? _) eqn:E2; [done|].
  destruct (_ <? 1); [done|]. destruct (negb (wrap 32 _ =? _)) eqn:E3; [done|].
  destruct (negb (rsgx_raw_is_within_enclave _ _)); [done|].
  destruct (negb (rsgx_slice_is_within_enclave _ _ _)); [done|].
  destruct (_ && _); [done|]. split; [by apply unseal_checks_sizes|done].
Qed.

Lemma unmac_aadata_ok {W} `{Enclave} (P : Platform W) (T : Tcrypto W) sa aa sd w ud w' :
  0 <= get_payload_size sd <= u32_max ->
  unmac_aadata sa aa sd w = (Ok ud, w') ->
  sizes_ok sd /\ get_encrypt_txt sd = [] /\ unseal_data_helper sd w = (Ok ud, w').
Proof.
  intros Hps. unfold unmac_aadata.
  destruct (_ || _) eqn:E1; [done|]. destruct (_ <? 1); [done|].
  destruct (Z.eqb_spec (get_encrypt_txt_len sd) 0) as [E0|]; [|done]. simpl.
  destruct (calc_raw_sealed_data_size _ _ =? _) eqn:E2; [done|].
  destruct (negb (wrap 32 _ =? _)) eqn:E3; [done|].
  destruct (negb (rsgx_raw_is_within_enclave _ _)); [done|].
  destruct (negb (rsgx_slice_is_within_enclave _ _ _)); [done|].
  assert (sizes_ok sd) as Hz by by apply unseal_checks_sizes.
  intros E. split_and!; [done| |done]. apply zlen_nil_iff.
  by rewrite <- (proj2 (txt_lens_ok sd Hz)).
Qed.

(** C5. Authenticity: whatever object [unseal_data] or [unmac_aadata] is given,
    however it was obtained, a success means that its tag verifies under the
    key the machine derives for this enclave and the object's key request;
    the plaintext is what AES-GCM opens it to, the additional text is the
    authenticated one, and the size field is the true total. *)
Theorem unseal_authentic `{CryptoMath} `{!CryptoMathLaws} `{Machine} {W} `{Enclave}
    (P : Platform W) (T : Tcrypto W) self (contexts : W -> gmap Z context) ready
    `{!PlatformLaws P self contexts ready} `{!TcryptoLaws T contexts ready}
    sa ea aa sd w ud w' :
  0 <= get_payload_size sd <= u32_max ->
  unseal_data sa ea aa sd w = (Ok ud, w') \/ unmac_aadata sa aa sd w = (Ok ud, w') ->
  gcm_open (derived_key self (get_key_request sd)) (zeros 12) (get_additional_txt sd)
    (get_encrypt_txt sd) (get_payload_tag sd) = Some (ud_decrypt ud) /\
  ud_additional ud = get_additional_txt sd /\
  ud_payload_size ud = zlen (ud_decrypt ud) + zlen (ud_additional ud).
Proof.
  intros Hps Hu. assert (sizes_ok sd /\ unseal_data_helper sd w = (Ok ud, w')) as [Hz E].
  { destruct Hu as [Hu|Hu]; [by eapply unseal_data_ok|].
    apply unmac_aadata_ok in Hu; tauto. }
  destruct Hz as [Hp Hs]. unfold sgx_sealed_data_size in Hs.
  pose proof (zlen_nonneg (get_additional_txt sd)).
  pose proof (zlen_nonneg (get_encrypt_txt sd)).
  apply (wp_ok_inv _ (fun ud _ => gcm_open _ _ _ _ _ = Some (ud_decrypt ud) /\ _ /\ _) _ _ _ E).
  apply (wp_unseal_data_helper P T self contexts ready); [lia|lia| |done].
  intros p w1 _ _ Ho. split_and!; [done|done|]. simpl. apply gcm_open_length in Ho.
  unfold zlen at 1. rewrite Ho. fold (zlen (get_encrypt_txt sd)). lia.
Qed.

Lemma unseal_authentic_witness :
  gcm_open (derived_key report_body_default (get_key_request toy_sealed)) (zeros 12)
    [Byte.x01; Byte.x02] (get_encrypt_txt toy_sealed) (get_payload_tag toy_sealed)
  = Some [Byte.x41].
Proof.
  assert (report_body_ok report_body_default) as Hb by (repeat split; done).
  pose proof (toy_platform_laws _ Hb).
  apply (unseal_authentic (toy_platform report_body_default) toy_tcrypto
    report_body_default tw_contexts toy_ready 0x20000 0x20000 0x20000 toy_sealed
    {| tw_seed := 99; tw_contexts := ∅ |}
    {| ud_payload_size := 3; ud_decrypt := [Byte.x41];
       ud_additional := [Byte.x01; Byte.x02] |} {| tw_seed := 99; tw_contexts := ∅ |}).
  - vm_compute. split; done.
  - left. vm_compute. done.
Defined.
