(* ===== verification/TsealRaw.v ===== *)
(** TsealRaw: a sealed object as a raw buffer.

    [to_raw_sealed_data_t] writes the C structure and the two texts into a
    region; [from_raw_sealed_data_t] reads one back from a region it does not
    trust.  The C length helpers they call are assumed to do what Intel's
    library documents (class [TsealFfiLaws]). *)
From Stdlib Require Import ZArith Lia Strings.Byte.
From stdpp Require Import base numbers list option tactics gmap.
From S2P Require Import Prelude SgxStatus SgxTypes Trts Tse Tcrypto TcryptoSpec ToyMachine.
From S2P Require Import Tseal TsealProofs.
Import Trts.Bounds Tseal.Internal.

(** * The C length helpers *)
Class TsealFfiLaws `{TsealFfi} : Prop := {
  calc_sealed_data_size_law a e : 0 <= a <= u32_max -> 0 <= e <= u32_max ->
    sgx_calc_sealed_data_size a e =
    if u32_max <=? sgx_sealed_data_size + a + e then u32_max
    else sgx_sealed_data_size + a + e;
  get_add_mac_txt_len_law mem : (560 <= length mem)%nat ->
    sgx_get_add_mac_txt_len mem =
    if raw_plain_text_offset mem >? raw_payload_size mem then u32_max
    else raw_payload_size mem - raw_plain_text_offset mem;
  get_encrypt_txt_len_law mem : (560 <= length mem)%nat ->
    sgx_get_encrypt_txt_len mem =
    if raw_plain_text_offset mem >? raw_payload_size mem then u32_max
    else raw_plain_text_offset mem
}.

(** The region can be reached: it lies inside the enclave, or outside. *)
Definition reachable `{Enclave} (p len : Z) : Prop :=
  p <> 0 /\ (rsgx_raw_is_within_enclave p len = true \/ rsgx_raw_is_outside_enclave p len = true).

(** What the Rust types guarantee of an object, with the size invariant. *)
Definition sealed_ok (sd : SgxInternalSealedData) : Prop :=
  sizes_ok sd /\ key_request_ok (sd_key_request sd) /\
  length (get_payload_tag sd) = 16%nat /\ pl_reserved (sd_payload_data sd) = zeros 12.

Lemma le_val_4_range off mem :
  (off + 4 <= length mem)%nat -> 0 <= le_val (slice off 4 mem) <= u32_max.
Proof.
  intros Hl. pose proof (le_val_range (slice off 4 mem)) as Hr. unfold zlen in Hr.
  rewrite length_slice in Hr by done. simpl in Hr. unfold u32_max. lia.
Qed.

Section raw.
Context `{Enclave} `{TsealFfi} `{!TsealFfiLaws}.

(** The region after a successful [to_raw_sealed_data_t]. *)
Definition raw_image (sd : SgxInternalSealedData) (mem : list byte) : list byte :=
  let enc := get_encrypt_txt sd in
  let aad := get_additional_txt sd in
  let mem := if zlen enc >? 0 then write_at 560 enc mem else mem in
  let mem := if zlen aad >? 0 then write_at (560 + length enc) aad mem else mem in
  let mem := write_at 0 (key_request_bytes (sd_key_request sd)) mem in
  let mem := write_at 512 (le_bytes 4 (zlen enc)) mem in
  let mem := write_at 528 (le_bytes 4 (get_payload_size sd)) mem in
  write_at 544 (get_payload_tag sd) mem.

Lemma to_raw_writes sd p len mem :
  sizes_ok sd -> reachable p len -> sgx_sealed_data_size + get_payload_size sd <= len ->
  to_raw_sealed_data_t sd p len mem = (Some p, raw_image sd mem).
Proof.
  intros Hz [Hp Hr] Hl. destruct (txt_lens_ok sd Hz) as [E1 E2]. destruct Hz as [Ep Hs].
  unfold sgx_sealed_data_size in *.
  pose proof (zlen_nonneg (get_additional_txt sd)).
  pose proof (zlen_nonneg (get_encrypt_txt sd)).
  unfold to_raw_sealed_data_t. rewrite E1, E2, calc_sealed_data_size_law by lia.
  rewrite Ep, wrap_small by (unfold u32_max in *; lia). unfold sgx_sealed_data_size.
  rewrite (proj2 (Z.leb_gt u32_max _)) by lia.
  rewrite (if_false (p =? 0)) by zcases.
  rewrite (if_false (_ && _)) by (destruct Hr as [-> | ->]; [done|apply andb_false_r]).
  rewrite (if_false (_ || _)) by zcases.
  rewrite (if_false (negb _)) by zcases.
  rewrite (if_false (_ =? _)) by zcases.
  rewrite (if_false (_ <? _)) by zcases.
  unfold raw_image. by rewrite Ep, <- (Nat2Z.id (length (get_encrypt_txt sd))).
Qed.

Lemma length_key_request_bytes k : key_request_ok k -> length (key_request_bytes k) = 512%nat.
Proof.
  intros Hk. pose proof (as_bytes_length k Hk) as Hl.
  change (zlen (key_request_bytes k) = 512) in Hl. unfold zlen in Hl. lia.
Qed.

(** Writing one of the texts, or leaving it out when it is empty. *)
Definition write_txt (off : nat) (bs mem : list byte) : list byte :=
  if zlen bs >? 0 then write_at off bs mem else mem.

Lemma write_txt_at off bs mem :
  (off + length bs <= length mem)%nat -> write_txt off bs mem = write_at off bs mem.
Proof.
  intros Hl. unfold write_txt. destruct bs; [|done]. simpl. unfold write_at.
  rewrite Nat.add_0_r. symmetry. apply take_drop.
Qed.

(** The region keeps its length through all writes. *)
Ltac write_length :=
  repeat match goal with
  | |- context [length (write_at ?o ?b ?m)] =>
      rewrite (length_write_at o b m) by write_length
  end; lia.

(** Look through the writes that miss the slice, then meet the one that hit. *)
Ltac through_writes :=
  repeat first
    [ rewrite slice_write_same by write_length
    | rewrite slice_write_other by write_length ].

Lemma raw_image_reads sd mem :
  sealed_ok sd -> sgx_sealed_data_size + get_payload_size sd <= zlen mem ->
  let img := raw_image sd mem in
  length img = length mem /\
  raw_key_request img = sd_key_request sd /\
  raw_plain_text_offset img = zlen (get_encrypt_txt sd) /\
  raw_payload_size img = get_payload_size sd /\
  raw_payload_tag img = get_payload_tag sd /\
  slice 560 (length (get_encrypt_txt sd)) img = get_encrypt_txt sd /\
  slice (560 + length (get_encrypt_txt sd)) (length (get_additional_txt sd)) img
    = get_additional_txt sd.
Proof.
  intros ([Ep Hs] & Hk & Ht & _) Hl. unfold sgx_sealed_data_size, zlen in *.
  pose proof (length_key_request_bytes _ Hk) as Hkl.
  pose proof (length_le_bytes 4 (Z.of_nat (length (get_encrypt_txt sd)))) as Hl1.
  pose proof (length_le_bytes 4 (get_payload_size sd)) as Hl2.
  unfold raw_image. fold (write_txt 560 (get_encrypt_txt sd) mem).
  rewrite write_txt_at by lia.
  match goal with |- context [if zlen (get_additional_txt sd) >? 0 then write_at ?o _ ?m else _] =>
    fold (write_txt o (get_additional_txt sd) m) end.
  rewrite write_txt_at by (rewrite length_write_at; lia).
  unfold raw_key_request, raw_plain_text_offset, raw_payload_size, raw_payload_tag.
  cbv zeta. unfold zlen. through_writes.
  rewrite key_request_of_to_bytes by done.
  rewrite !le_val_bytes_small by (unfold u32_max in *; simpl; lia).
  split; [write_length|done].
Qed.

(** Reading a region, once its checks pass. *)
Lemma from_raw_reads p len mem :
  reachable p len -> zlen mem = len -> sgx_sealed_data_size + raw_payload_size mem <= len ->
  sgx_sealed_data_size + raw_payload_size mem < u32_max ->
  0 <= raw_plain_text_offset mem <= raw_payload_size mem ->
  let enc_len := Z.to_nat (raw_plain_text_offset mem) in
  let aad_len := Z.to_nat (raw_payload_size mem - raw_plain_text_offset mem) in
  from_raw_sealed_data_t p len mem = Some {|
    sd_key_request := raw_key_request mem;
    sd_payload_data := {|
      pl_payload_size := raw_payload_size mem; pl_reserved := zeros 12;
      pl_payload_tag := raw_payload_tag mem;
      pl_encrypt := slice 560 enc_len mem;
      pl_additional := slice (560 + enc_len) aad_len mem |} |}.
Proof.
  intros [Hp Hr] Hl Hs Hm Ho enc_len aad_len. unfold sgx_sealed_data_size in *.
  assert (560 <= length mem)%nat as H560 by (unfold zlen in Hl; lia).
  unfold from_raw_sealed_data_t, sgx_sealed_data_size.
  rewrite get_add_mac_txt_len_law, get_encrypt_txt_len_law by done.
  assert ((raw_plain_text_offset mem >? raw_payload_size mem) = false) as -> by zcases.
  rewrite calc_sealed_data_size_law by (unfold sgx_sealed_data_size; lia).
  unfold sgx_sealed_data_size. rewrite (proj2 (Z.leb_gt u32_max _)) by lia.
  rewrite (if_false (p =? 0)) by zcases.
  rewrite (if_false (_ && _)) by (destruct Hr as [-> | ->]; [done|apply andb_false_r]).
  rewrite (if_false (_ <? 560)) by zcases.
  rewrite (if_false (_ || _)) by zcases.
  rewrite (if_false (negb _)) by (rewrite wrap_small by (unfold u32_max in *; lia); zcases).
  rewrite (if_false (_ =? _)) by zcases.
  rewrite (if_false (_ <? _)) by zcases.
  assert (forall n (a : Z), 0 <= a ->
    (if a >? 0 then slice n (Z.to_nat a) mem else []) = slice n (Z.to_nat a) mem) as Ez.
  { intros n a Ha. rewrite Z.gtb_ltb. destruct (Z.ltb_spec 0 a); [done|].
    by replace a with 0 by lia. }
  rewrite !Ez by lia. done.
Qed.

(** What the checks of [from_raw_sealed_data_t] establish. *)
Lemma from_raw_checks p len mem sd :
  zlen mem = len -> from_raw_sealed_data_t p len mem = Some sd ->
  reachable p len /\ sgx_sealed_data_size + raw_payload_size mem <= len /\
  sgx_sealed_data_size + raw_payload_size mem < u32_max /\
  0 <= raw_plain_text_offset mem <= raw_payload_size mem.
Proof.
  intros Hl E. unfold from_raw_sealed_data_t in E. unfold sgx_sealed_data_size in *.
  destruct (Z.eqb_spec p 0) as [|Hp]; [done|]. destruct (_ && _) eqn:Er; [done|].
  assert (reachable p len) as Hr.
  { split; [done|]. destruct (rsgx_raw_is_within_enclave p len); [by left|].
    destruct (rsgx_raw_is_outside_enclave p len); [by right|done]. }
  destruct (Z.ltb_spec len 560) as [|H560]; [done|].
  assert (560 <= length mem)%nat by (unfold zlen in Hl; lia).
  rewrite get_add_mac_txt_len_law, get_encrypt_txt_len_law in E by done.
  assert (0 <= raw_plain_text_offset mem <= u32_max) as Ho by (apply le_val_4_range; lia).
  assert (0 <= raw_payload_size mem <= u32_max) as Hps by (apply le_val_4_range; lia).
  rewrite Z.gtb_ltb in E. destruct (Z.ltb_spec (raw_payload_size mem) (raw_plain_text_offset mem));
    [done|].
  rewrite calc_sealed_data_size_law in E by lia. unfold sgx_sealed_data_size in E.
  replace (560 + (raw_payload_size mem - raw_plain_text_offset mem) + raw_plain_text_offset mem)
    with (560 + raw_payload_size mem) in E by lia.
  clear Er. destruct (_ || _); [done|]. destruct (negb _); [done|].
  destruct (Z.leb_spec u32_max (560 + raw_payload_size mem)).
  { by rewrite Z.eqb_refl in E. }
  destruct (Z.eqb_spec (560 + raw_payload_size mem) u32_max); [done|].
  destruct (Z.ltb_spec len (560 + raw_payload_size mem)); [done|].
  split; [done|lia].
Qed.

Lemma from_raw_to_raw sd p len mem :
  sealed_ok sd -> reachable p len -> zlen mem = len ->
  sgx_sealed_data_size + get_payload_size sd <= len ->
  from_raw_sealed_data_t p len (raw_image sd mem) = Some sd.
Proof.
  intros Hok Hr Hl Hs. subst len.
  destruct (raw_image_reads sd mem Hok Hs) as (El & Ek & Eo & Ep & Et & Ee & Ea).
  destruct Hok as ([Hz Hm] & _ & _ & Hres).
  pose proof (zlen_nonneg (get_additional_txt sd)).
  pose proof (zlen_nonneg (get_encrypt_txt sd)).
  rewrite from_raw_reads; rewrite ?Ep, ?Eo; try done; [|by unfold zlen; rewrite El|lia].
  rewrite Ek, Et. replace (Z.to_nat (zlen (get_encrypt_txt sd)))
    with (length (get_encrypt_txt sd)) by (unfold zlen; lia).
  replace (Z.to_nat (get_payload_size sd - zlen (get_encrypt_txt sd)))
    with (length (get_additional_txt sd)) by (unfold zlen in *; lia).
  rewrite Ee, Ea. destruct sd as [kr [ps rs tg ec ad]]. unfold get_payload_tag,
    get_encrypt_txt, get_additional_txt in *. simpl in *. by subst.
Qed.

End raw.

(** Export and import of a sealed object: into any reachable region of [len]
    bytes that is large enough, [to_raw_sealed_data_t] succeeds and keeps the
    region's length, and [from_raw_sealed_data_t] on the result gives back the
    object, key request, tag and texts included. *)
Theorem raw_sealed_data_roundtrip `{Enclave} `{TsealFfi} `{!TsealFfiLaws} sd p len mem :
  sealed_ok sd -> reachable p len -> zlen mem = len ->
  sgx_sealed_data_size + get_payload_size sd <= len ->
  exists mem', to_raw_sealed_data_t sd p len mem = (Some p, mem') /\
    length mem' = length mem /\ from_raw_sealed_data_t p len mem' = Some sd.
Proof.
  intros Hok Hr Hl Hs. exists (raw_image sd mem). split_and!.
  - by apply to_raw_writes; [apply Hok|..].
  - subst len. by apply raw_image_reads.
  - by apply from_raw_to_raw.
Qed.

(** Intel's helpers, written out. *)
#[export] Instance toy_tseal_ffi : TsealFfi := {|
  sgx_calc_sealed_data_size a e :=
    if u32_max <=? 560 + a + e then u32_max else 560 + a + e;
  sgx_get_add_mac_txt_len mem :=
    if raw_plain_text_offset mem >? raw_payload_size mem then u32_max
    else raw_payload_size mem - raw_plain_text_offset mem;
  sgx_get_encrypt_txt_len mem :=
    if raw_plain_text_offset mem >? raw_payload_size mem then u32_max
    else raw_plain_text_offset mem
|}.

#[export] Instance toy_tseal_ffi_laws : TsealFfiLaws.
Proof. done. Qed.

Lemma raw_sealed_data_roundtrip_witness :
  exists mem', to_raw_sealed_data_t toy_sealed 0x400 600 (zeros 600) = (Some 0x400, mem') /\
    length mem' = 600%nat /\ from_raw_sealed_data_t 0x400 600 mem' = Some toy_sealed.
Proof.
  apply (raw_sealed_data_roundtrip toy_sealed 0x400 600 (zeros 600)).
  - vm_compute. repeat split; done.
  - split; [done|]. right. reflexivity.
  - reflexivity.
  - vm_compute. done.
Defined.

(** C27. Importing an untrusted region is safe: whatever its bytes,
    [from_raw_sealed_data_t] reads only inside the [len] bytes it was given,
    and what it accepts satisfies the size invariant, so that no later size
    computation on the object overflows. *)
Theorem from_raw_sealed_data_sound `{Enclave} `{TsealFfi} `{!TsealFfiLaws} p len mem sd :
  zlen mem = len -> 0 <= len <= u32_max -> from_raw_sealed_data_t p len mem = Some sd ->
  sizes_ok sd /\ sgx_sealed_data_size + get_payload_size sd <= len /\
  length (get_payload_tag sd) = 16%nat /\
  zlen (get_encrypt_txt sd) = raw_plain_text_offset mem /\
  get_payload_size sd = raw_payload_size mem.
Proof.
  intros Hl Hlen E. destruct (from_raw_checks p len mem sd Hl E) as (Hr & Hf & Hm & Ho).
  rewrite from_raw_reads in E by done. injection E as <-.
  unfold sizes_ok, get_payload_size, get_payload_tag, get_encrypt_txt, get_additional_txt,
    sgx_sealed_data_size in *. simpl.
  unfold raw_payload_tag, zlen in *. rewrite !length_slice by lia. lia.
Qed.

Lemma from_raw_sealed_data_sound_witness :
  let mem := (to_raw_sealed_data_t toy_sealed 0x400 600 (zeros 600)).2 in
  sizes_ok toy_sealed /\ sgx_sealed_data_size + get_payload_size toy_sealed <= 600 /\
  length (get_payload_tag toy_sealed) = 16%nat /\
  zlen (get_encrypt_txt toy_sealed) = raw_plain_text_offset mem /\
  get_payload_size toy_sealed = raw_payload_size mem.
Proof.
  apply (from_raw_sealed_data_sound 0x400 600
    (to_raw_sealed_data_t toy_sealed 0x400 600 (zeros 600)).2 toy_sealed).
  - vm_compute. reflexivity.
  - unfold u32_max. lia.
  - vm_compute. reflexivity.
Defined.

(** * The typed interfaces

    For a value [T] and for a slice [[T]] of values that are passed as their memory. *)

(** * Slices of values *)
Section slices.
Context {T : Type} `{FromMemoryLaws T} `{!ContiguousMemoryLaws T}.

Lemma length_as_bytes x : mem_ok x -> length (as_bytes x) = Z.to_nat (size_of T).
Proof. intros Hx. apply as_bytes_length in Hx. unfold zlen in Hx. lia. Qed.

Lemma zlen_slice_bytes xs :
  Forall mem_ok xs -> 0 <= size_of T -> zlen (slice_bytes xs) = size_of_val xs.
Proof.
  intros Hf Hs. unfold slice_bytes, size_of_val. induction Hf as [|x xs Hx _ IH].
  { unfold zlen. simpl. lia. }
  csimpl. rewrite zlen_app, IH, as_bytes_length by done. unfold zlen. simpl length. lia.
Qed.

Lemma read_slice_bytes xs :
  Forall mem_ok xs ->
  read_slice (length xs) (Z.to_nat (size_of T)) (slice_bytes xs) = xs.
Proof.
  unfold slice_bytes. induction 1 as [|x xs Hx _ IH]; [done|]. csimpl.
  rewrite take_app_length', drop_app_length' by by rewrite length_as_bytes.
  by rewrite IH, from_memory_bytes.
Qed.

End slices.

Section typed.
Context `{CryptoMath} `{!CryptoMathLaws} `{Machine} {W : Type} `{Enclave}.
Context (P : Platform W) (C : Tcrypto W) (self : sgx_report_body_t)
  (contexts : W -> gmap Z context) (ready : W -> Prop).
Context `{!PlatformLaws P self contexts ready} `{!TcryptoLaws C contexts ready}.

(** The untyped round trip through the default entry point. *)
Lemma internal_unseal_inverts_seal aa aad ea enc w sd w1 sa ea' aa' w2 :
  Internal.seal_data aa aad ea enc w = (Ok sd, w1) ->
  held_inside sa ea' aa' sd -> ready w2 ->
  Internal.get_encrypt_txt_len sd = zlen enc /\
  wp (Internal.unseal_data sa ea' aa' sd) (fun r _ =>
    r = Ok {| ud_payload_size := zlen enc + zlen aad; ud_decrypt := enc;
              ud_additional := aad |}) w2.
Proof.
  intros E Hh Hr.
  apply (seal_data_ok P C self contexts ready) in E as (kp & Hk & (He & Hs & _) & Hf).
  destruct (sealed_for_sizes _ _ _ _ _ _ _ Hf Hs) as (Hz & _ & Hl & _).
  rewrite unseal_data_accepts by (done || lia). split.
  { by rewrite <- Hl, (proj2 (txt_lens_ok sd Hz)). }
  eapply wp_mono; [by eapply (unseal_helper_opens P C self contexts ready)|naive_solver].
Qed.

Lemma internal_unmac_inverts_mac aa aad w sd w1 sa ea' aa' w2 :
  Internal.mac_aadata aa aad w = (Ok sd, w1) ->
  held_inside sa ea' aa' sd -> ready w2 ->
  Internal.get_add_mac_txt_len sd = zlen aad /\
  wp (Internal.unmac_aadata sa aa' sd) (fun r _ =>
    r = Ok {| ud_payload_size := zlen aad; ud_decrypt := []; ud_additional := aad |}) w2.
Proof.
  intros E Hh Hr. unfold Internal.mac_aadata, rsgx_self_report, st_bind in E.
  pose proof (default_args_ok (sgx_self_report w)) as [Hk _].
  apply (mac_aadata_ex_ok P C self contexts ready) in E as [(He & Hs & _) Hf]; [|done].
  assert (sgx_sealed_data_size + zlen aad + zlen (@nil byte) < u32_max) as Hs'.
  { unfold zlen at 2. simpl. lia. }
  destruct (sealed_for_sizes _ _ _ _ _ _ _ Hf Hs') as (Hz & Ha & Hl & _).
  rewrite (unmac_aadata_accepts P C sa ea' aa') by (rewrite ?Ha, ?Hl; done). split.
  { by rewrite (proj1 (txt_lens_ok sd Hz)), Ha. }
  eapply wp_mono; [by eapply (unseal_helper_opens P C self contexts ready)|naive_solver].
Qed.

End typed.

(** The typed round trip: sealing a value and unsealing at the same type
    gives the value, and the same for its authenticated-only form. *)
Theorem typed_seal_roundtrip `{CryptoMath} `{!CryptoMathLaws} `{Machine} {W} `{Enclave}
    (P : Platform W) (C : Tcrypto W) self (contexts : W -> gmap Z context) ready
    `{!PlatformLaws P self contexts ready} `{!TcryptoLaws C contexts ready}
    {T} `{FromMemoryLaws T} `{!ContiguousMemoryLaws T} aa aad ea (x : T) w sd w1 sa ea' aa' w2 :
  mem_ok x -> held_inside sa ea' aa' sd -> ready w2 ->
  (SealedData.seal_data aa aad ea x w = (Ok sd, w1) ->
     fst (SealedData.unseal_data sa ea' aa' sd w2) =
     Ok (Build_SgxUnsealedData (size_of T + zlen aad) x aad)) /\
  (MacAadata.mac_aadata aa x w = (Ok sd, w1) ->
     fst (MacAadata.unmac_aadata sa aa' sd w2) = Ok x).
Proof.
  intros Hx Hh Hr. pose proof (as_bytes_length x Hx) as Hl.
  unfold SealedData.seal_data, SealedData.unseal_data, MacAadata.mac_aadata,
    MacAadata.unmac_aadata.
  destruct (Z.eqb_spec (size_of T) 0) as [|Hn]; [done|]. split; intros E.
  - destruct (internal_unseal_inverts_seal P C self contexts ready
      _ _ _ _ _ _ _ sa ea' aa' w2 E Hh Hr) as [El Ho]. unfold wp in Ho.
    rewrite El, Hl, Z.eqb_refl. simpl. unfold st_bind.
    destruct (Internal.unseal_data _ _ _ _ _) as [r w3]. simpl in *. subst r. simpl.
    by rewrite from_memory_bytes, Hl.
  - destruct (internal_unmac_inverts_mac P C self contexts ready
      _ _ _ _ _ sa ea' aa' w2 E Hh Hr) as [El Ho]. unfold wp in Ho.
    rewrite El, Hl, Z.eqb_refl. simpl. unfold st_bind.
    destruct (Internal.unmac_aadata _ _ _ _) as [r w3]. simpl in *. subst r. simpl.
    by rewrite from_memory_bytes.
Qed.

(** The slice round trip: sealing a slice of values and unsealing at the
    same element type gives the same elements, and the same for the
    authenticated-only form. *)
Theorem slice_seal_roundtrip `{CryptoMath} `{!CryptoMathLaws} `{Machine} {W} `{Enclave}
    (P : Platform W) (C : Tcrypto W) self (contexts : W -> gmap Z context) ready
    `{!PlatformLaws P self contexts ready} `{!TcryptoLaws C contexts ready}
    {T} `{FromMemoryLaws T} `{!ContiguousMemoryLaws T} aa aad ea (xs : list T)
    w sd w1 sa ea' aa' w2 :
  Forall mem_ok xs -> 0 <= size_of T -> held_inside sa ea' aa' sd -> ready w2 ->
  (SealedData.seal_slice aa aad ea xs w = (Ok sd, w1) ->
     fst (SealedData.unseal_slice sa ea' aa' sd w2) =
     Ok (Build_SgxUnsealedData (size_of_val xs + zlen aad) xs aad)) /\
  (MacAadata.mac_slice aa xs w = (Ok sd, w1) ->
     fst (MacAadata.unmac_slice sa aa' sd w2) = Ok xs).
Proof.
  intros Hx Hs Hh Hr. pose proof (zlen_slice_bytes xs Hx Hs) as Hl.
  unfold SealedData.seal_slice, SealedData.unseal_slice, MacAadata.mac_slice,
    MacAadata.unmac_slice.
  destruct (Z.eqb_spec (size_of T) 0) as [|Hn]; [done|].
  destruct (Z.eqb_spec (size_of_val xs) 0) as [|Hn']; [done|]. simpl.
  assert (1 <= zlen xs) as Hlen by (pose proof (zlen_nonneg xs); unfold size_of_val in *; nia).
  assert ((size_of T >? size_of_val xs) = false) as Hgt by (unfold size_of_val; zcases; nia).
  assert (size_of_val xs `mod` size_of T = 0) as Hmod.
  { unfold size_of_val. rewrite Z.mul_comm. apply Z_mod_mult. }
  assert (Z.to_nat (size_of_val xs / size_of T) = length xs) as Hcount.
  { unfold size_of_val. rewrite Z.mul_comm, Z.div_mul by done. unfold zlen. lia. }
  split; intros E.
  - destruct (internal_unseal_inverts_seal P C self contexts ready
      _ _ _ _ _ _ _ sa ea' aa' w2 E Hh Hr) as [El Ho]. unfold wp in Ho.
    rewrite El, Hl, Hgt, Hmod, Hcount. simpl. unfold st_bind.
    destruct (Internal.unseal_data _ _ _ _ _) as [r w3]. simpl in *. subst r. simpl.
    by rewrite read_slice_bytes, Hl.
  - destruct (internal_unmac_inverts_mac P C self contexts ready
      _ _ _ _ _ sa ea' aa' w2 E Hh Hr) as [El Ho]. unfold wp in Ho.
    rewrite El, Hl, Hgt, Hmod, Hcount. simpl. unfold st_bind.
    destruct (Internal.unmac_aadata _ _ _ _) as [r w3]. simpl in *. subst r. simpl.
    by rewrite read_slice_bytes.
Qed.

(** A key request is a value that can be sealed. *)
#[export] Instance key_request_from_memory : FromMemory sgx_key_request_t :=
  key_request_of_bytes.

#[export] Instance key_request_from_memory_laws : FromMemoryLaws sgx_key_request_t.
Proof. intros k. apply key_request_of_to_bytes. Qed.

#[export] Instance u8_mem_laws : ContiguousMemoryLaws byte.
Proof. split. done. Qed.

#[export] Instance u8_from_memory : FromMemory byte := fun bs => default Byte.x00 (head bs).

#[export] Instance u8_from_memory_laws : FromMemoryLaws byte.
Proof. done. Qed.

Definition toy_typed : SgxInternalSealedData :=
  match SealedData.seal_data (PL := toy_platform report_body_default)
    0 [] toy_base key_request_default {| tw_seed := 7; tw_contexts := ∅ |}
  with (Ok sd, _) => sd | _ => Internal.new end.

Lemma typed_seal_roundtrip_witness :
  fst (SealedData.unseal_data (PL := toy_platform report_body_default)
    0x20000 0x20000 0x20000 toy_typed {| tw_seed := 9; tw_contexts := ∅ |}) =
  Ok (Build_SgxUnsealedData 512 key_request_default []).
Proof.
  assert (report_body_ok report_body_default) as Hb by (repeat split; done).
  pose proof (toy_platform_laws _ Hb).
  refine (proj1 (typed_seal_roundtrip (toy_platform report_body_default) toy_tcrypto
    report_body_default tw_contexts toy_ready 0 [] toy_base key_request_default
    {| tw_seed := 7; tw_contexts := ∅ |} toy_typed {| tw_seed := 8; tw_contexts := ∅ |}
    0x20000 0x20000 0x20000 {| tw_seed := 9; tw_contexts := ∅ |} _ _ _) _); vm_compute; repeat split; done.
Defined.

Definition toy_slice : SgxInternalSealedData :=
  match MacAadata.mac_slice (PL := toy_platform report_body_default)
    0x500 [Byte.x05; Byte.x06] {| tw_seed := 7; tw_contexts := ∅ |}
  with (Ok sd, _) => sd | _ => Internal.new end.

Lemma slice_seal_roundtrip_witness :
  fst (MacAadata.unmac_slice (PL := toy_platform report_body_default)
    0x20000 0x20000 toy_slice {| tw_seed := 9; tw_contexts := ∅ |}) =
  Ok [Byte.x05; Byte.x06].
Proof.
  assert (report_body_ok report_body_default) as Hb by (repeat split; done).
  pose proof (toy_platform_laws _ Hb).
  refine (proj2 (slice_seal_roundtrip (toy_platform report_body_default) toy_tcrypto
    report_body_default tw_contexts toy_ready 0x500 [] 0 [Byte.x05; Byte.x06]
    {| tw_seed := 7; tw_contexts := ∅ |} toy_slice {| tw_seed := 8; tw_contexts := ∅ |}
    0x20000 0x20000 0x20000 {| tw_seed := 9; tw_contexts := ∅ |} _ _ _ _) _); vm_compute; repeat split; try done; repeat constructor.
Defined.
