(* ===== verification/Tdh.v ===== *)
(** Tdh: the local-attestation key exchange, sgx_tdh/src/dh.rs and ecp.rs.

    Two enclaves of one machine agree on a key: the responder sends msg1, the
    initiator answers with msg2, the responder with msg3.  [use_lav2] is the
    build feature that selects the second version of the protocol.  A method
    that changes memory of its caller (its own object, a message, the key, the
    identity) returns that memory with its result, on the error paths too; the
    addresses of these objects, which the code checks, are in [Addrs].  Local
    copies of secrets that the code overwrites before it returns are not
    observable.  A handle object in a scope is a [with_*] block: it is closed
    on every way out. *)
From Stdlib Require Import ZArith Lia Strings.Byte.
From stdpp Require Import base numbers list option tactics gmap.
From S2P Require Import Prelude SgxStatus SgxTypes Trts Tse Tcrypto TcryptoSpec.
Import Trts.Bounds Trts.Memeq.

(** * ecp.rs *)
Definition EC_SMK_LABEL : list byte := [Byte.x53; Byte.x4d; Byte.x4b].
Definition EC_AEK_LABEL : list byte := [Byte.x41; Byte.x45; Byte.x4b].

(** [counter(0x01) || label || 0x00 || output_key_len(0x0080)] *)
Definition derivation_buffer (label : list byte) : list byte :=
  [Byte.x01; label !!! 0%nat; label !!! 1%nat; label !!! 2%nat;
   Byte.x00; Byte.x80; Byte.x00].

(** [set_error] of ecp.rs and of the initiator. *)
Definition memory_or_unexpected (sgx_ret : sgx_status_t) : sgx_status_t :=
  if decide (sgx_ret = SGX_ERROR_OUT_OF_MEMORY) then SGX_ERROR_OUT_OF_MEMORY
  else SGX_ERROR_UNEXPECTED.

Definition derive_key `{Tcrypto W} (shared_key label : list byte) : STS W (list byte) :=
  let* mac := @rsgx_rijndael128_cmac_msg W _ _ (array_mem 32) (zeros 16) shared_key in
  let? key_derive_key := st_ret (map_err memory_or_unexpected mac) in
  let* result := rsgx_rijndael128_align_cmac_slice key_derive_key (derivation_buffer label) in
  st_ret (map_err memory_or_unexpected result).

(** * Messages *)
Record SgxDhMsg3Body := {
  b3_report : sgx_report_t;
  b3_additional_prop : list byte
}.

Record SgxDhMsg3 := {
  m3_cmac : list byte;
  m3_body : SgxDhMsg3Body
}.

(** [mem::size_of::<sgx_dh_msg3_t>()] *)
Definition dh_msg3_size : Z := 452.

Module Msg3.

Definition new : SgxDhMsg3 := {|
  m3_cmac := zeros 16;
  m3_body := {| b3_report := report_default; b3_additional_prop := [] |} |}.

Definition calc_raw_sealed_data_size (self : SgxDhMsg3) : Z :=
  let max := u32_max in
  let additional_prop_len := zlen (b3_additional_prop (m3_body self)) in
  if additional_prop_len >? max - dh_msg3_size then max
  else wrap 32 (dh_msg3_size + additional_prop_len).

(** [copy_from_slice] panics unless both slices have the same length. *)
Definition copy_from_slice (off : nat) (src mem : list byte) : panics (list byte) :=
  if decide (length (drop off mem) = length src)
  then Done (take off mem ++ src) else Panic.

Section raw.
Context `{Enclave}.

(** [mem] is the region of [len] bytes at [p]. *)
Definition to_raw_dh_msg3_t (self : SgxDhMsg3) (p len : Z) (mem : list byte)
    : panics (option Z * list byte) :=
  let none := Done (None, mem) in
  if p =? 0 then none
  else if negb (rsgx_raw_is_within_enclave p len) then none
  else
    let additional_prop := b3_additional_prop (m3_body self) in
    let additional_prop_len := zlen additional_prop in
    if additional_prop_len >? u32_max - dh_msg3_size then none
    else if len <? wrap 32 (dh_msg3_size + additional_prop_len) then none
    else
      let mem := write_at 0 (m3_cmac self) mem in
      let mem := write_at 16 (report_bytes (b3_report (m3_body self))) mem in
      let mem := write_at 448 (le_bytes 4 (wrap 32 additional_prop_len)) mem in
      if additional_prop_len >? 0 then
        panics_bind (copy_from_slice 452 additional_prop mem)
          (fun mem => Done (Some p, mem))
      else Done (Some p, mem).

Definition from_raw_dh_msg3_t (p len : Z) (mem : list byte) : option SgxDhMsg3 :=
  if p =? 0 then None
  else if negb (rsgx_raw_is_within_enclave p len) then None
  else
    let additional_prop_len := le_val (slice 448 4 mem) in
    if additional_prop_len >? u32_max - dh_msg3_size then None
    else if len <? dh_msg3_size + additional_prop_len then None
    else Some {|
      m3_cmac := slice 0 16 mem;
      m3_body := {|
        b3_report := report_of_bytes (slice 16 432 mem);
        b3_additional_prop :=
          if additional_prop_len >? 0
          then slice 452 (Z.to_nat additional_prop_len) mem else [] |} |}.

End raw.
End Msg3.

(** * Sessions *)
Inductive SgxDhSessionState : Type :=
| SGX_DH_SESSION_STATE_ERROR
| SGX_DH_SESSION_STATE_RESET
| SGX_DH_SESSION_RESPONDER_WAIT_M2
| SGX_DH_SESSION_INITIATOR_WAIT_M1
| SGX_DH_SESSION_INITIATOR_WAIT_M3
| SGX_DH_SESSION_ACTIVE.

#[export] Instance session_state_eq_dec : EqDecision SgxDhSessionState.
Proof. solve_decision. Defined.

Record SgxDhResponder := {
  rs_state : SgxDhSessionState;
  rs_prv_key : list byte;
  rs_pub_key : sgx_ec256_public_t;
  rs_smk_aek : list byte;
  rs_shared_key : list byte
}.

Record SgxDhInitiator := {
  in_state : SgxDhSessionState;
  in_smk_aek : list byte;
  in_pub_key : sgx_ec256_public_t;
  in_peer_pub_key : sgx_ec256_public_t;
  in_shared_key : list byte
}.

(** A default object in some state: no key material. *)
Definition responder_in (state : SgxDhSessionState) : SgxDhResponder := {|
  rs_state := state; rs_prv_key := zeros 32; rs_pub_key := ec256_public_default;
  rs_smk_aek := zeros 16; rs_shared_key := zeros 32 |}.

Definition initiator_in (state : SgxDhSessionState) : SgxDhInitiator := {|
  in_state := state; in_smk_aek := zeros 16; in_pub_key := ec256_public_default;
  in_peer_pub_key := ec256_public_default; in_shared_key := zeros 32 |}.

(** [Default] and [init_session]. *)
Definition responder_default : SgxDhResponder := responder_in SGX_DH_SESSION_STATE_RESET.
Definition initiator_default : SgxDhInitiator := initiator_in SGX_DH_SESSION_INITIATOR_WAIT_M1.

(** Where the caller's objects are: the session object, the message read, the
    message written, the boxed additional property of msg3, the key, the
    peer's identity. *)
Record Addrs := {
  a_self : Z;
  a_msg_in : Z;
  a_msg_out : Z;
  a_prop : Z;
  a_aek : Z;
  a_identity : Z
}.

(** Sizes of the checked objects: the two session objects are their fields
    rounded up to the 64-byte alignment of the keys; [SgxDhMsg3] holds a box. *)
Definition session_size : Z := 256.
Definition msg1_size : Z := 576.
Definition msg2_size : Z := 512.
Definition msg3_object_size : Z := 464.
Definition aek_size : Z := 16.
Definition identity_size : Z := 260.

(** * The target of a report *)
Record SgxLAv2ProtoSpec := {
  ps_signature : list byte;
  ps_ver : Z;
  ps_rev : Z;
  ps_target_spec : list Z
}.

(** [mem::transmute] between the structure and [sgx_report_data_t]: the
    structure has no [repr(C)], so the order of its fields in memory is the
    compiler's; what the code relies on is that the layout is one. *)
Class SpecLayout := {
  spec_bytes : SgxLAv2ProtoSpec -> list byte;
  spec_of_bytes : list byte -> SgxLAv2ProtoSpec
}.

Definition spec_ok (s : SgxLAv2ProtoSpec) : Prop :=
  length (ps_signature s) = 6%nat /\ 0 <= ps_ver s < 256 /\ 0 <= ps_rev s < 256 /\
  length (ps_target_spec s) = 28%nat /\ Forall (fun t => 0 <= t <= u16_max) (ps_target_spec s).

Class SpecLayoutLaws `{SpecLayout} : Prop := {
  spec_bytes_length s : spec_ok s -> length (spec_bytes s) = 64%nat;
  spec_of_to_bytes s : spec_ok s -> spec_of_bytes (spec_bytes s) = s;
  spec_to_of_bytes bs : length bs = 64%nat ->
    spec_ok (spec_of_bytes bs) /\ spec_bytes (spec_of_bytes bs) = bs
}.

#[export] Instance spec_mem `{SpecLayout} : ContiguousMemory SgxLAv2ProtoSpec :=
  {| size_of := 64; as_bytes := spec_bytes; mem_ok := spec_ok |}.

Module ProtoSpec.

Definition ts_count (self : SgxLAv2ProtoSpec) : Z :=
  Z.shiftr (ps_target_spec self !!! 0%nat) 8.

Definition is_valid (self : SgxLAv2ProtoSpec) : bool :=
  (ps_ver self =? 2) && (ps_rev self =? 0)
  && (wrap 8 (ps_target_spec self !!! 0%nat) =? 0) && (ts_count self <? 28).

(** The loop over the entries: [f] is the image of the report, [d] that of the
    target, [to_] the running offset ([i32]). *)
Fixpoint target_loop (specs : list Z) (f : list byte) (to_ : Z) (d : list byte)
    : SgxError * list byte :=
  match specs with
  | [] => (Ok tt, d)
  | t :: specs =>
      let size := Z.shiftl 1 (Z.land t 0xF) in
      let to_ := Z.land (to_ + (size - 1)) (- size) in
      if to_ + size >? size_of sgx_target_info_t then (Err SGX_ERROR_UNEXPECTED, d)
      else
        let from := Z.shiftr t 4 in
        if from >=? 0 then
          if from + size >? size_of sgx_report_t then (Err SGX_ERROR_UNEXPECTED, d)
          else
            let d := write_at (Z.to_nat to_) (slice (Z.to_nat from) (Z.to_nat size) f) d in
            target_loop specs f (to_ + size) d
        else if from =? -1 then (Ok tt, d)
        else (Err SGX_ERROR_UNEXPECTED, d)
  end.

(** Result, new [ti].  [for i in 1..(self.ts_count() + 1)] *)
Definition make_target_info (self : SgxLAv2ProtoSpec) (rpt : sgx_report_t)
    (ti : sgx_target_info_t) : SgxError * sgx_target_info_t :=
  if negb (is_valid self) then (Err SGX_ERROR_INVALID_PARAMETER, ti)
  else
    let entries := take (Z.to_nat (ts_count self)) (drop 1 (ps_target_spec self)) in
    let '(r, d) := target_loop entries (report_bytes rpt) 0 (target_info_bytes ti) in
    (r, target_info_of_bytes d).

End ProtoSpec.

Definition SGX_LAV2_PROTO_SPEC : SgxLAv2ProtoSpec := {|
  ps_signature := [Byte.x53; Byte.x47; Byte.x58; Byte.x20; Byte.x4c; Byte.x41];
  ps_ver := 2;
  ps_rev := 0;
  ps_target_spec := [0x0600; 0x0405; 0x0304; 0x0140; 0x1041; 0x0102; 0x0C06;
    0; 0; 0; 0; 0; 0; 0; 0; 0; 0; 0; 0; 0; 0; 0; 0; 0; 0; 0; 0; 0] |}.

Definition AES_CMAC_KDF_ID : list byte := [Byte.x01; Byte.x00].

Definition rsgx_self_target `{Platform W} : STE W sgx_status_t sgx_target_info_t :=
  let* report := rsgx_self_report in
  let '(r, target_info) :=
    ProtoSpec.make_target_info SGX_LAV2_PROTO_SPEC report target_info_default in
  st_ret (result_map (fun _ => target_info) r).

(** The first 32 bytes of the report data, or all of it, for a hash. *)
Definition hash_report_data (msg_hash : list byte) : list byte := msg_hash ++ zeros 32.

Definition with_report_data (r : sgx_report_t) (d : list byte) : sgx_report_t :=
  {| rp_body := set_report_data (rp_body r) d; rp_key_id := rp_key_id r; rp_mac := rp_mac r |}.

(** * The responder *)
Module Responder.

(** The memory [proc_msg2] changes. *)
Record Frame := {
  f_self : SgxDhResponder;
  f_msg3 : SgxDhMsg3;
  f_aek : list byte;
  f_identity : sgx_dh_session_enclave_identity_t
}.

Definition set_self (f : Frame) (s : SgxDhResponder) : Frame := {|
  f_self := s; f_msg3 := f_msg3 f; f_aek := f_aek f; f_identity := f_identity f |}.
Definition set_msg3 (f : Frame) (m : SgxDhMsg3) : Frame := {|
  f_self := f_self f; f_msg3 := m; f_aek := f_aek f; f_identity := f_identity f |}.
Definition set_identity (f : Frame) (i : sgx_dh_session_enclave_identity_t) : Frame := {|
  f_self := f_self f; f_msg3 := f_msg3 f; f_aek := f_aek f; f_identity := i |}.

Definition set_error_code (sgx_ret : sgx_status_t) : sgx_status_t :=
  if decide (sgx_ret = SGX_ERROR_OUT_OF_MEMORY) then SGX_ERROR_OUT_OF_MEMORY
  else if decide (sgx_ret = SGX_ERROR_KDF_MISMATCH) then SGX_ERROR_KDF_MISMATCH
  else SGX_ERROR_UNEXPECTED.

(** [.map_err(|ret| self.set_error(ret))?] *)
Definition set_error (f : Frame) (sgx_ret : sgx_status_t) : SgxError * Frame :=
  (Err (set_error_code sgx_ret), set_self f (responder_in SGX_DH_SESSION_STATE_ERROR)).

Section ops.
Context {W : Type} `{EN : Enclave} `{PL : Platform W} `{TC : Tcrypto W} `{SpecLayout}.

(** Result, new [self], new [msg1]. *)
Definition dh_generate_message1 (self : SgxDhResponder) (msg1 : sgx_dh_msg1_t)
    : ST W (SgxError * SgxDhResponder * sgx_dh_msg1_t) :=
  let msg1 := {| m1_g_a := ec256_public_default; m1_target := target_info_default |} in
  let fail := fun e => (Err e, self, msg1) in
  let! report := rsgx_create_report target_info_default report_data_default or fail in
  let '(r, target) :=
    ProtoSpec.make_target_info SGX_LAV2_PROTO_SPEC report target_info_default in
  let! _ := st_ret r or fail in
  with_ecc fail (fun ecc_state =>
    let! (prv_key, pub_key) := ecc_create_align_key_pair ecc_state or fail in
    st_ret (Ok tt,
      {| rs_state := rs_state self; rs_prv_key := prv_key; rs_pub_key := pub_key;
         rs_smk_aek := rs_smk_aek self; rs_shared_key := rs_shared_key self |},
      {| m1_g_a := pub_key; m1_target := target |})).

Definition gen_msg1 (a : Addrs) (self : SgxDhResponder) (msg1 : sgx_dh_msg1_t)
    : ST W (SgxError * SgxDhResponder * sgx_dh_msg1_t) :=
  if negb (rsgx_data_is_within_enclave (a_self a) session_size)
  then st_ret (Err SGX_ERROR_INVALID_PARAMETER, self, msg1)
  else if negb (rsgx_data_is_within_enclave (a_msg_out a) msg1_size)
  then st_ret (Err SGX_ERROR_INVALID_PARAMETER, self, msg1)
  else if bool_decide (rs_state self <> SGX_DH_SESSION_STATE_RESET)
  then st_ret (Err SGX_ERROR_INVALID_STATE, responder_default, msg1)
  else
    let* (error, self, msg1) := dh_generate_message1 self msg1 in
    match error with
    | Err ret => st_ret (Err (memory_or_unexpected ret), responder_default, msg1)
    | Ok _ => st_ret (Ok tt,
        {| rs_state := SGX_DH_SESSION_RESPONDER_WAIT_M2; rs_prv_key := rs_prv_key self;
           rs_pub_key := rs_pub_key self; rs_smk_aek := rs_smk_aek self;
           rs_shared_key := rs_shared_key self |}, msg1)
    end.

Definition dh_verify_message2 (self : SgxDhResponder) (msg2 : sgx_dh_msg2_t) : STS W unit :=
  let d := rb_report_data (rp_body (m2_report msg2)) in
  let kdf_id := slice SGX_SHA256_HASH_SIZE 2 d in
  let data_hash := take SGX_SHA256_HASH_SIZE d in
  if negb (bool_decide (kdf_id = AES_CMAC_KDF_ID)) then ste_err SGX_ERROR_KDF_MISMATCH
  else
    let report := m2_report msg2 in
    let? data_mac := rsgx_rijndael128_cmac_msg (rs_smk_aek self) report in
    if negb (@consttime_memeq _ (array_mem 16) data_mac (m2_cmac msg2))
    then ste_err SGX_ERROR_MAC_MISMATCH
    else
      let? _ := rsgx_verify_report report in
      with_sha Err (fun sha_handle =>
        let? _ := hash_handle_update_msg sha256_ffi (rs_pub_key self) sha_handle in
        let? _ := hash_handle_update_msg sha256_ffi (m2_g_b msg2) sha_handle in
        let? msg_hash := hash_handle_get_hash sha256_ffi 32 sha_handle in
        if negb (bool_decide (msg_hash = data_hash)) then ste_err SGX_ERROR_MAC_MISMATCH
        else ste_ok tt).

Definition lav2_verify_message2 (self : SgxDhResponder) (msg2 : sgx_dh_msg2_t) : STS W unit :=
  let report_data := rb_report_data (rp_body (m2_report msg2)) in
  with_sha Err (fun sha_handle =>
    let? _ := @hash_handle_update_msg W sha256_ffi _ (array_mem 64) report_data sha_handle in
    let? _ := hash_handle_update_msg sha256_ffi (m2_g_b msg2) sha_handle in
    let? msg_hash := hash_handle_get_hash sha256_ffi 32 sha_handle in
    let report := with_report_data (m2_report msg2) (hash_report_data msg_hash) in
    let? _ := rsgx_verify_report report in
    let? data_mac := rsgx_rijndael128_cmac_msg (rs_smk_aek self) (m2_g_b msg2) in
    if negb (@consttime_memeq _ (array_mem 16) data_mac (m2_cmac msg2))
    then ste_err SGX_ERROR_MAC_MISMATCH
    else
      let proto_spec := spec_of_bytes report_data in
      if negb (bool_decide (ps_signature proto_spec = ps_signature SGX_LAV2_PROTO_SPEC))
         || negb (ps_ver proto_spec =? ps_ver SGX_LAV2_PROTO_SPEC)
      then ste_err SGX_ERROR_UNEXPECTED else ste_ok tt).

(** Result, new [msg3]. *)
Definition dh_generate_message3 (self : SgxDhResponder) (msg2 : sgx_dh_msg2_t)
    (msg3 : SgxDhMsg3) : ST W (SgxError * SgxDhMsg3) :=
  let prop := b3_additional_prop (m3_body msg3) in
  let msg3 := {| m3_cmac := zeros 16;
    m3_body := {| b3_report := report_default; b3_additional_prop := prop |} |} in
  let fail := fun e => (Err e, msg3) in
  with_sha fail (fun sha_handle =>
    let! _ := hash_handle_update_msg sha256_ffi (m2_g_b msg2) sha_handle or fail in
    let! _ := hash_handle_update_msg sha256_ffi (rs_pub_key self) sha_handle or fail in
    let! msg_hash := hash_handle_get_hash sha256_ffi 32 sha_handle or fail in
    let '(r, target) := ProtoSpec.make_target_info SGX_LAV2_PROTO_SPEC (m2_report msg2)
                          target_info_default in
    let! _ := st_ret r or fail in
    let! report := rsgx_create_report target (hash_report_data msg_hash) or fail in
    let msg3 := {| m3_cmac := zeros 16;
      m3_body := {| b3_report := report; b3_additional_prop := prop |} |} in
    let fail := fun e => (Err e, msg3) in
    let add_prop_len := wrap 32 (zlen prop) in
    with_cmac (rs_smk_aek self) fail (fun cmac_handle =>
      let! _ := mac_handle_update_msg cmac_ffi (wrap 32) report cmac_handle or fail in
      let! _ := @mac_handle_update_msg W cmac_ffi (wrap 32) _ u32_mem add_prop_len
                  cmac_handle or fail in
      let! _ := (if add_prop_len >? 0
                 then mac_handle_update_slice cmac_ffi (wrap 32) prop cmac_handle
                 else ste_ok tt) or fail in
      let! tag := mac_handle_get_hash cmac_ffi 16 cmac_handle or fail in
      st_ret (Ok tt, {| m3_cmac := tag; m3_body := m3_body msg3 |}))).

Definition lav2_generate_message3 (self : SgxDhResponder) (msg2 : sgx_dh_msg2_t)
    (msg3 : SgxDhMsg3) : ST W (SgxError * SgxDhMsg3) :=
  let prop := b3_additional_prop (m3_body msg3) in
  let msg3 := {| m3_cmac := zeros 16;
    m3_body := {| b3_report := report_default; b3_additional_prop := prop |} |} in
  let fail := fun e => (Err e, msg3) in
  let proto_spec := spec_of_bytes (rb_report_data (rp_body (m2_report msg2))) in
  with_sha fail (fun sha_handle =>
    let! _ := hash_handle_update_msg sha256_ffi (rs_pub_key self) sha_handle or fail in
    let! _ := hash_handle_update_msg sha256_ffi proto_spec sha_handle or fail in
    let! msg_hash := hash_handle_get_hash sha256_ffi 32 sha_handle or fail in
    let '(r, target) := ProtoSpec.make_target_info SGX_LAV2_PROTO_SPEC (m2_report msg2)
                          target_info_default in
    let! _ := st_ret r or fail in
    let! report := rsgx_create_report target (hash_report_data msg_hash) or fail in
    let msg3 := {| m3_cmac := zeros 16;
      m3_body := {| b3_report := report; b3_additional_prop := prop |} |} in
    let fail := fun e => (Err e, msg3) in
    with_cmac (rs_smk_aek self) fail (fun cmac_handle =>
      let! _ := (if zlen prop >? 0
                 then mac_handle_update_slice cmac_ffi (wrap 32) prop cmac_handle
                 else ste_ok tt) or fail in
      let! _ := mac_handle_update_msg cmac_ffi (wrap 32) (rs_pub_key self) cmac_handle or fail in
      let! tag := mac_handle_get_hash cmac_ffi 16 cmac_handle or fail in
      st_ret (Ok tt, {| m3_cmac := tag; m3_body := m3_body msg3 |}))).

(** The identity fields [proc_msg2] copies. *)
Definition initiator_identity (i : sgx_dh_session_enclave_identity_t)
    (b : sgx_report_body_t) : sgx_dh_session_enclave_identity_t := {|
  id_cpu_svn := id_cpu_svn i; id_misc_select := id_misc_select i;
  id_reserved_1 := id_reserved_1 i; id_attributes := rb_attributes b;
  id_mr_enclave := rb_mr_enclave b; id_reserved_2 := id_reserved_2 i;
  id_mr_signer := rb_mr_signer b; id_reserved_3 := id_reserved_3 i;
  id_isv_prod_id := rb_isv_prod_id b; id_isv_svn := rb_isv_svn b |}.

(** The checks of [proc_msg2] on where its arguments are. *)
Definition bad_arguments (a : Addrs) : bool :=
  negb (rsgx_data_is_within_enclave (a_msg_in a) msg2_size)
  || negb (rsgx_data_is_within_enclave (a_aek a) aek_size)
  || negb (rsgx_data_is_within_enclave (a_identity a) identity_size)
  || negb (rsgx_raw_is_within_enclave (a_msg_out a) msg3_object_size).

Definition bad_additional_prop (a : Addrs) (prop : list byte) : bool :=
  (zlen prop >? 0)
  && (negb (rsgx_slice_is_within_enclave 1 (a_prop a) prop)
      || (zlen prop >? u32_max - dh_msg3_size)).

Definition proc_msg2 (use_lav2 : bool) (a : Addrs) (msg2 : sgx_dh_msg2_t) (f : Frame)
    : ST W (SgxError * Frame) :=
  let error e := st_ret (Err e, set_self f (responder_in SGX_DH_SESSION_STATE_ERROR)) in
  if negb (rsgx_data_is_within_enclave (a_self a) session_size)
  then st_ret (Err SGX_ERROR_INVALID_PARAMETER, f)
  else if bad_arguments a then error SGX_ERROR_INVALID_PARAMETER
  else if bad_additional_prop a (b3_additional_prop (m3_body (f_msg3 f)))
  then error SGX_ERROR_INVALID_PARAMETER
  else if bool_decide (rs_state (f_self f) <> SGX_DH_SESSION_RESPONDER_WAIT_M2)
  then error SGX_ERROR_INVALID_STATE
  else
    with_ecc (set_error f) (fun ecc_state =>
      let self := f_self f in
      let! shared_key := ecc_compute_align_shared_dhkey (rs_prv_key self) (m2_g_b msg2)
                           ecc_state or (set_error f) in
      let self := {| rs_state := rs_state self; rs_prv_key := rs_prv_key self;
        rs_pub_key := rs_pub_key self; rs_smk_aek := rs_smk_aek self;
        rs_shared_key := shared_key |} in
      let f := set_self f self in
      let! smk_aek := derive_key (rs_shared_key self) EC_SMK_LABEL or (set_error f) in
      let self := {| rs_state := rs_state self; rs_prv_key := rs_prv_key self;
        rs_pub_key := rs_pub_key self; rs_smk_aek := smk_aek;
        rs_shared_key := rs_shared_key self |} in
      let f := set_self f self in
      let! _ := (if use_lav2 then lav2_verify_message2 self msg2
                 else dh_verify_message2 self msg2) or (set_error f) in
      let f := set_identity f (initiator_identity (f_identity f) (rp_body (m2_report msg2))) in
      let* (r, msg3) := (if use_lav2 then lav2_generate_message3 self msg2 (f_msg3 f)
                         else dh_generate_message3 self msg2 (f_msg3 f)) in
      let f := set_msg3 f msg3 in
      let! _ := st_ret r or (set_error f) in
      let! align_aek := derive_key (rs_shared_key self) EC_AEK_LABEL or (set_error f) in
      st_ret (Ok tt, {| f_self := responder_in SGX_DH_SESSION_ACTIVE;
        f_msg3 := f_msg3 f; f_aek := align_aek; f_identity := f_identity f |})).

End ops.
End Responder.

(** * The initiator *)
Module Initiator.

(** The memory [proc_msg3] changes. *)
Record Frame := {
  f_self : SgxDhInitiator;
  f_aek : list byte;
  f_identity : sgx_dh_session_enclave_identity_t
}.

Definition set_self (f : Frame) (s : SgxDhInitiator) : Frame := {|
  f_self := s; f_aek := f_aek f; f_identity := f_identity f |}.

Section ops.
Context {W : Type} `{EN : Enclave} `{PL : Platform W} `{TC : Tcrypto W} `{SpecLayout}.

(** Result, new [msg2]. *)
Definition dh_generate_message2 (self : SgxDhInitiator) (msg1 : sgx_dh_msg1_t)
    : ST W (SgxError * sgx_dh_msg2_t) :=
  let g_b := in_pub_key self in
  let fail := fun e =>
    (Err e, {| m2_g_b := g_b; m2_report := report_default; m2_cmac := zeros 16 |}) in
  with_sha fail (fun sha_handle =>
    let! _ := hash_handle_update_msg sha256_ffi (m1_g_a msg1) sha_handle or fail in
    let! _ := hash_handle_update_msg sha256_ffi g_b sha_handle or fail in
    let! msg_hash := hash_handle_get_hash sha256_ffi 32 sha_handle or fail in
    let report_data := msg_hash ++ AES_CMAC_KDF_ID ++ zeros 30 in
    let! report := rsgx_create_report (m1_target msg1) report_data or fail in
    let msg2 := {| m2_g_b := g_b; m2_report := report; m2_cmac := zeros 16 |} in
    let! tag := rsgx_rijndael128_cmac_msg (in_smk_aek self) report
                  or (fun e => (Err e, msg2)) in
    st_ret (Ok tt, {| m2_g_b := g_b; m2_report := report; m2_cmac := tag |})).

Definition lav2_generate_message2 (self : SgxDhInitiator) (msg1 : sgx_dh_msg1_t)
    : ST W (SgxError * sgx_dh_msg2_t) :=
  let g_b := in_pub_key self in
  let fail := fun e =>
    (Err e, {| m2_g_b := g_b; m2_report := report_default; m2_cmac := zeros 16 |}) in
  with_sha fail (fun sha_handle =>
    let! _ := hash_handle_update_msg sha256_ffi SGX_LAV2_PROTO_SPEC sha_handle or fail in
    let! _ := hash_handle_update_msg sha256_ffi g_b sha_handle or fail in
    let! msg_hash := hash_handle_get_hash sha256_ffi 32 sha_handle or fail in
    let! report := rsgx_create_report (m1_target msg1) (hash_report_data msg_hash) or fail in
    let report := with_report_data report (spec_bytes SGX_LAV2_PROTO_SPEC) in
    let msg2 := {| m2_g_b := g_b; m2_report := report; m2_cmac := zeros 16 |} in
    let! tag := rsgx_rijndael128_cmac_msg (in_smk_aek self) g_b
                  or (fun e => (Err e, msg2)) in
    st_ret (Ok tt, {| m2_g_b := g_b; m2_report := report; m2_cmac := tag |})).

(** Result, new [self], new [msg2]. *)
Definition proc_msg1 (use_lav2 : bool) (a : Addrs) (msg1 : sgx_dh_msg1_t)
    (self : SgxDhInitiator) (msg2 : sgx_dh_msg2_t)
    : ST W (SgxError * SgxDhInitiator * sgx_dh_msg2_t) :=
  let in_error := initiator_in SGX_DH_SESSION_STATE_ERROR in
  let set_error := fun ret => (Err (memory_or_unexpected ret), in_error, msg2) in
  if negb (rsgx_data_is_within_enclave (a_self a) session_size)
  then st_ret (Err SGX_ERROR_INVALID_PARAMETER, self, msg2)
  else if negb (rsgx_data_is_within_enclave (a_msg_in a) msg1_size)
    || negb (rsgx_data_is_within_enclave (a_msg_out a) msg2_size)
  then st_ret (Err SGX_ERROR_INVALID_PARAMETER, in_error, msg2)
  else if bool_decide (in_state self <> SGX_DH_SESSION_INITIATOR_WAIT_M1)
  then st_ret (Err SGX_ERROR_INVALID_STATE, in_error, msg2)
  else
    with_ecc set_error (fun ecc_state =>
      let! (prv_key, pub_key) := ecc_create_align_key_pair ecc_state or set_error in
      let! shared_key := ecc_compute_align_shared_dhkey prv_key (m1_g_a msg1) ecc_state
                           or set_error in
      let! smk_aek := derive_key shared_key EC_SMK_LABEL or set_error in
      let self := {| in_state := in_state self; in_smk_aek := smk_aek;
        in_pub_key := pub_key; in_peer_pub_key := in_peer_pub_key self;
        in_shared_key := shared_key |} in
      let* (r, msg2) := (if use_lav2 then lav2_generate_message2 self msg1
                         else dh_generate_message2 self msg1) in
      match r with
      | Err ret => st_ret (Err (memory_or_unexpected ret), in_error, msg2)
      | Ok _ => st_ret (Ok tt,
          {| in_state := SGX_DH_SESSION_INITIATOR_WAIT_M3; in_smk_aek := in_smk_aek self;
             in_pub_key := in_pub_key self; in_peer_pub_key := m1_g_a msg1;
             in_shared_key := in_shared_key self |}, msg2)
      end).

Definition dh_verify_message3 (self : SgxDhInitiator) (msg3 : SgxDhMsg3) : STS W unit :=
  let prop := b3_additional_prop (m3_body msg3) in
  let report := b3_report (m3_body msg3) in
  let add_prop_len := wrap 32 (zlen prop) in
  with_cmac (in_smk_aek self) Err (fun cmac_handle =>
    let? _ := mac_handle_update_msg cmac_ffi (wrap 32) report cmac_handle in
    let? _ := @mac_handle_update_msg W cmac_ffi (wrap 32) _ u32_mem add_prop_len cmac_handle in
    let? _ := (if add_prop_len >? 0
               then mac_handle_update_slice cmac_ffi (wrap 32) prop cmac_handle
               else ste_ok tt) in
    let? data_mac := mac_handle_get_hash cmac_ffi 16 cmac_handle in
    if negb (@consttime_memeq _ (array_mem 16) data_mac (m3_cmac msg3))
    then ste_err SGX_ERROR_MAC_MISMATCH
    else
      let? _ := rsgx_verify_report report in
      with_sha Err (fun sha_handle =>
        let? _ := hash_handle_update_msg sha256_ffi (in_pub_key self) sha_handle in
        let? _ := hash_handle_update_msg sha256_ffi (in_peer_pub_key self) sha_handle in
        let? msg_hash := hash_handle_get_hash sha256_ffi 32 sha_handle in
        let data_hash := take SGX_SHA256_HASH_SIZE (rb_report_data (rp_body report)) in
        if negb (bool_decide (msg_hash = data_hash)) then ste_err SGX_ERROR_MAC_MISMATCH
        else ste_ok tt)).

Definition lav2_verify_message3 (self : SgxDhInitiator) (msg3 : SgxDhMsg3) : STS W unit :=
  let prop := b3_additional_prop (m3_body msg3) in
  with_sha Err (fun sha_handle =>
    let? _ := hash_handle_update_msg sha256_ffi (in_peer_pub_key self) sha_handle in
    let? _ := hash_handle_update_msg sha256_ffi SGX_LAV2_PROTO_SPEC sha_handle in
    let? msg_hash := hash_handle_get_hash sha256_ffi 32 sha_handle in
    let report := with_report_data (b3_report (m3_body msg3)) (hash_report_data msg_hash) in
    if negb (bool_decide (rb_report_data (rp_body report) =
                          rb_report_data (rp_body (b3_report (m3_body msg3)))))
    then ste_err SGX_ERROR_UNEXPECTED
    else
      let? _ := rsgx_verify_report report in
      with_cmac (in_smk_aek self) Err (fun cmac_handle =>
        let? _ := (if zlen prop >? 0
                   then mac_handle_update_slice cmac_ffi (wrap 32) prop cmac_handle
                   else ste_ok tt) in
        let? _ := mac_handle_update_msg cmac_ffi (wrap 32) (in_peer_pub_key self) cmac_handle in
        let? data_mac := mac_handle_get_hash cmac_ffi 16 cmac_handle in
        if negb (@consttime_memeq _ (array_mem 16) data_mac (m3_cmac msg3))
        then ste_err SGX_ERROR_MAC_MISMATCH else ste_ok tt)).

(** The identity fields [proc_msg3] copies. *)
Definition responder_identity (i : sgx_dh_session_enclave_identity_t)
    (b : sgx_report_body_t) : sgx_dh_session_enclave_identity_t := {|
  id_cpu_svn := rb_cpu_svn b; id_misc_select := rb_misc_select b;
  id_reserved_1 := id_reserved_1 i; id_attributes := rb_attributes b;
  id_mr_enclave := rb_mr_enclave b; id_reserved_2 := id_reserved_2 i;
  id_mr_signer := rb_mr_signer b; id_reserved_3 := id_reserved_3 i;
  id_isv_prod_id := rb_isv_prod_id b; id_isv_svn := rb_isv_svn b |}.

Definition proc_msg3 (use_lav2 : bool) (a : Addrs) (msg3 : SgxDhMsg3) (f : Frame)
    : ST W (SgxError * Frame) :=
  let in_error := set_self f (initiator_in SGX_DH_SESSION_STATE_ERROR) in
  let set_error := fun ret => (Err (memory_or_unexpected ret), in_error) in
  if negb (rsgx_data_is_within_enclave (a_self a) session_size)
  then st_ret (Err SGX_ERROR_INVALID_PARAMETER, f)
  else if negb (rsgx_raw_is_within_enclave (a_msg_in a) msg3_object_size)
    || negb (rsgx_data_is_within_enclave (a_aek a) aek_size)
    || negb (rsgx_data_is_within_enclave (a_identity a) identity_size)
  then st_ret (Err SGX_ERROR_INVALID_PARAMETER, in_error)
  else if Responder.bad_additional_prop a (b3_additional_prop (m3_body msg3))
  then st_ret (Err SGX_ERROR_INVALID_PARAMETER, in_error)
  else if bool_decide (in_state (f_self f) <> SGX_DH_SESSION_INITIATOR_WAIT_M3)
  then st_ret (Err SGX_ERROR_INVALID_STATE, in_error)
  else
    let! _ := (if use_lav2 then lav2_verify_message3 (f_self f) msg3
               else dh_verify_message3 (f_self f) msg3) or set_error in
    let! align_aek := derive_key (in_shared_key (f_self f)) EC_AEK_LABEL or set_error in
    st_ret (Ok tt, {|
      f_self := initiator_in SGX_DH_SESSION_ACTIVE;
      f_aek := align_aek;
      f_identity := responder_identity (f_identity f) (rp_body (b3_report (m3_body msg3))) |}).

End ops.
End Initiator.
