(* ===== verification/TdhTarget.v ===== *)
(** TdhTarget: [SgxLAv2ProtoSpec::make_target_info].

    The function copies fields of a report into a target with raw pointers,
    driven by a table of offsets.  The theorems: no table, however hostile,
    makes it read outside the report or write outside the target, and the
    table the library uses produces the target that names the enclave the
    report came from. *)
From Stdlib Require Import ZArith Lia Strings.Byte.
From stdpp Require Import base numbers list option tactics gmap.
From S2P Require Import Prelude SgxStatus SgxTypes Trts Tse Tcrypto TcryptoSpec Tdh ToyMachine.
Import ProtoSpec.

(** The copies that the loop makes, in order: (from, to, size). *)
Fixpoint target_copies (specs : list Z) (to_ : Z) : list (Z * Z * Z) :=
  match specs with
  | [] => []
  | t :: specs =>
      let size := Z.shiftl 1 (Z.land t 0xF) in
      let to_ := Z.land (to_ + (size - 1)) (- size) in
      let from := Z.shiftr t 4 in
      if (to_ + size >? size_of sgx_target_info_t) || (from <? 0)
         || (from + size >? size_of sgx_report_t) then []
      else (from, to_, size) :: target_copies specs (to_ + size)
  end.

Definition do_copy (f : list byte) (d : list byte) (c : Z * Z * Z) : list byte :=
  let '(from, to_, size) := c in
  write_at (Z.to_nat to_) (slice (Z.to_nat from) (Z.to_nat size) f) d.

(** A copy inside both structures. *)
Definition copy_ok (c : Z * Z * Z) : Prop :=
  let '(from, to_, size) := c in
  0 < size /\ 0 <= from /\ from + size <= size_of sgx_report_t /\
  0 <= to_ /\ to_ + size <= size_of sgx_target_info_t.

Lemma target_loop_copies specs f to_ d :
  (target_loop specs f to_ d).2 = foldl (do_copy f) d (target_copies specs to_).
Proof.
  revert to_ d. induction specs as [|t specs IH]; intros to_ d; [done|].
  cbn [target_loop target_copies]. cbv zeta.
  destruct (_ >? size_of sgx_target_info_t) eqn:E1; [done|]. cbn [orb].
  rewrite Z.geb_leb. destruct (Z.leb_spec 0 (Z.shiftr t 4)), (Z.ltb_spec (Z.shiftr t 4) 0); try lia.
  - cbn [orb]. destruct (_ >? size_of sgx_report_t); [done|]. cbn [foldl do_copy]. apply IH.
  - cbn [orb foldl]. by destruct (_ =? _).
Qed.

Lemma copy_size_pos t : 0 < Z.shiftl 1 (Z.land t 0xF).
Proof.
  rewrite Z.shiftl_1_l. apply Z.pow_pos_nonneg; [lia|].
  change 0xF with (Z.ones 4). rewrite Z.land_ones by lia.
  apply Z.mod_pos_bound. lia.
Qed.

Lemma land_nonneg_r a b : 0 <= a -> 0 <= Z.land a b.
Proof. intros. apply Z.land_nonneg. by left. Qed.

Lemma target_copies_ok specs to_ :
  0 <= to_ -> Forall copy_ok (target_copies specs to_).
Proof.
  revert to_. induction specs as [|t specs IH]; intros to_ Hto; [constructor|].
  cbn [target_copies]. cbv zeta. pose proof (copy_size_pos t) as Hs.
  set (size := Z.shiftl 1 (Z.land t 0xF)) in *.
  pose proof (land_nonneg_r (to_ + (size - 1)) (- size) ltac:(lia)) as Hl.
  set (to' := Z.land (to_ + (size - 1)) (- size)) in *.
  destruct (_ || _) eqn:E; [constructor|].
  rewrite !orb_false_iff, !Z.gtb_ltb, !Z.ltb_ge in E. constructor; [|apply IH; lia].
  unfold copy_ok. lia.
Qed.

(** The entries the loop visits exist: indexing never panics. *)
Lemma valid_entries self :
  spec_ok self -> is_valid self = true ->
  length (take (Z.to_nat (ts_count self)) (drop 1 (ps_target_spec self))) =
  Z.to_nat (ts_count self).
Proof.
  intros (_ & _ & _ & Hl & _) Hv. unfold is_valid in Hv.
  rewrite !andb_true_iff, Z.ltb_lt in Hv. rewrite length_take, length_drop, Hl. lia.
Qed.

Lemma length_do_copies f cs d :
  length f = 432%nat -> length d = 512%nat -> Forall copy_ok cs ->
  length (foldl (do_copy f) d cs) = 512%nat.
Proof.
  intros Hf. revert d. induction cs as [|[[from to_] size] cs IH]; intros d Hd Hc; [done|].
  inversion_clear Hc as [|? ? H1 H2]. simpl in H1. cbn [foldl]. apply IH; [|done].
  simpl. rewrite length_write_at; [done|]. rewrite length_slice by lia. lia.
Qed.

Lemma length_report_bytes r : report_ok r -> length (report_bytes r) = 432%nat.
Proof.
  intros Hr. pose proof (as_bytes_length r Hr) as Hl.
  change (zlen (report_bytes r) = 432) in Hl. unfold zlen in Hl. lia.
Qed.

Lemma length_target_info_bytes t : target_info_ok t -> length (target_info_bytes t) = 512%nat.
Proof.
  intros Hr. pose proof (as_bytes_length t Hr) as Hl.
  change (zlen (target_info_bytes t) = 512) in Hl. unfold zlen in Hl. lia.
Qed.

(** C26. Memory safety of the raw copies: for any protocol specification a peer
    or a caller could supply, the entries [make_target_info] visits exist, every
    copy it makes reads inside the 432-byte report and writes inside the
    512-byte target, the result is those copies in order, and the target keeps
    its size. *)
Theorem make_target_info_in_bounds self rpt ti :
  spec_ok self -> report_ok rpt -> target_info_ok ti -> is_valid self = true ->
  let entries := take (Z.to_nat (ts_count self)) (drop 1 (ps_target_spec self)) in
  let copies := target_copies entries 0 in
  let d := target_info_bytes ti in
  length entries = Z.to_nat (ts_count self) /\ Forall copy_ok copies /\
  (target_loop entries (report_bytes rpt) 0 d).2 = foldl (do_copy (report_bytes rpt)) d copies /\
  length (target_loop entries (report_bytes rpt) 0 d).2 = length d.
Proof.
  intros Hs Hr Ht Hv entries copies d.
  assert (Forall copy_ok copies) as Hc by by apply target_copies_ok.
  split_and!; [by apply valid_entries|done|apply target_loop_copies|].
  rewrite target_loop_copies, length_do_copies; try done.
  - symmetry. by apply length_target_info_bytes.
  - by apply length_report_bytes.
  - by apply length_target_info_bytes.
Qed.

(** A table that asks for a 32 KiB copy: refused before anything is copied. *)
Definition hostile_spec : SgxLAv2ProtoSpec := {|
  ps_signature := zeros 6; ps_ver := 2; ps_rev := 0;
  ps_target_spec := 0x0100 :: 0xFFFF :: replicate 26 0 |}.

Lemma report_default_ok : report_ok report_default.
Proof. repeat split; done. Qed.

Lemma make_target_info_in_bounds_witness :
  length (target_loop [0xFFFF] (report_bytes report_default) 0
    (target_info_bytes target_info_default)).2 = 512%nat.
Proof.
  pose proof (make_target_info_in_bounds hostile_spec report_default target_info_default)
    as (_ & _ & _ & Hl).
  - repeat split; try done. repeat constructor; done.
  - apply report_default_ok.
  - repeat split; done.
  - reflexivity.
  - exact Hl.
Defined.

(** * The library's own table *)

(** Overwriting one of the pieces of a region. *)
Lemma write_at_front bs b c :
  length b = length bs -> write_at 0 bs (b ++ c) = bs ++ c.
Proof. intros Hb. unfold write_at. simpl. by rewrite drop_app_length'. Qed.

Lemma write_at_skip k off bs a r :
  length a = k -> (k <= off)%nat -> write_at off bs (a ++ r) = a ++ write_at (off - k) bs r.
Proof.
  intros <- Hk. unfold write_at. rewrite take_app_ge, <- app_assoc by lia. f_equal. f_equal.
  f_equal. rewrite drop_app_ge by lia. f_equal. lia.
Qed.

(** Skip the fields before an offset. *)
Ltac find_field :=
  repeat (erewrite slice_skip_by;
    [|first [apply length_le_bytes | apply length_attributes_bytes | eassumption]|lia];
    cbn [Nat.sub]).

(** The fields the table copies, by their offsets in the report. *)
Lemma report_slices r : report_ok r ->
  let b := rp_body r in let f := report_bytes r in
  slice 64 32 f = rb_mr_enclave b /\ slice 48 16 f = attributes_bytes (rb_attributes b) /\
  slice 20 1 f = take 1 (rb_reserved1 b) /\ slice 260 2 f = le_bytes 2 (rb_config_svn b) /\
  slice 16 4 f = le_bytes 4 (rb_misc_select b) /\ slice 192 64 f = rb_config_id b.
Proof.
  intros (Hb & _ & _) b f. fold b in Hb. unfold report_body_ok in Hb. destruct_and!.
  subst f. unfold report_bytes, report_body_bytes. fold b. rewrite <- !app_assoc.
  split_and!; find_field.
  1, 2, 4, 5, 6: by apply slice_here.
  unfold slice. rewrite drop_0, take_app_le by lia. done.
Qed.

(** Reach the piece at an offset and overwrite it. *)
Ltac overwrite_piece :=
  repeat (erewrite write_at_skip;
    [|first [apply length_zeros | apply length_le_bytes | apply length_attributes_bytes
            | eassumption]|lia]; cbn [Nat.sub]);
  rewrite write_at_front.

(** Evaluate the offsets that are written as constants. *)
Ltac to_nat_consts :=
  repeat match goal with
  | |- context [Z.to_nat (Zpos ?p)] =>
      let n := eval vm_compute in (Z.to_nat (Zpos p)) in change (Z.to_nat (Zpos p)) with n
  | |- context [Z.to_nat 0] => change (Z.to_nat 0) with 0%nat
  end.

(** The six copies of the library's table. *)
Lemma lav2_copies :
  is_valid SGX_LAV2_PROTO_SPEC = true /\
  take (Z.to_nat (ts_count SGX_LAV2_PROTO_SPEC)) (drop 1 (ps_target_spec SGX_LAV2_PROTO_SPEC))
    = [0x0405; 0x0304; 0x0140; 0x1041; 0x0102; 0x0C06] /\
  target_copies [0x0405; 0x0304; 0x0140; 0x1041; 0x0102; 0x0C06] 0
    = [(64, 0, 32); (48, 32, 16); (20, 48, 1); (260, 50, 2); (16, 52, 4); (192, 64, 64)].
Proof. done. Qed.

Lemma lav2_loop_ok f d :
  (target_loop [0x0405; 0x0304; 0x0140; 0x1041; 0x0102; 0x0C06] f 0 d).1 = Ok tt.
Proof. done. Qed.

Lemma target_of_body_ok b : report_body_ok b -> target_info_ok (target_of_body b).
Proof.
  unfold report_body_ok, target_info_ok. intros. destruct_and!. split_and!; try done.
  change (length (take 1 (rb_reserved1 b) ++ [Byte.x00]) = 2%nat).
  rewrite length_app, length_take_le by lia. done.
Qed.

Lemma make_target_info_lav2 r :
  report_ok r ->
  make_target_info SGX_LAV2_PROTO_SPEC r target_info_default =
  (Ok tt, target_of_body (rp_body r)).
Proof.
  intros Hr. destruct (report_slices r Hr) as (S1 & S2 & S3 & S4 & S5 & S6).
  destruct lav2_copies as (Hv & He & Hc). unfold make_target_info. rewrite Hv, He. simpl negb.
  destruct (target_loop _ _ _ _) as [res d] eqn:E. cbn iota.
  pose proof (lav2_loop_ok (report_bytes r) (target_info_bytes target_info_default)) as E1.
  pose proof (target_loop_copies [0x0405; 0x0304; 0x0140; 0x1041; 0x0102; 0x0C06]
    (report_bytes r) 0 (target_info_bytes target_info_default)) as E2.
  rewrite E in E1, E2. simpl in E1. rewrite Hc in E2. cbn [snd] in E2. subst res d.
  destruct Hr as (Hb & _ & _). f_equal.
  rewrite <- (target_info_of_to_bytes (target_of_body (rp_body r))) by by apply target_of_body_ok.
  f_equal. unfold report_body_ok in Hb. destruct_and!.
  change (target_info_bytes target_info_default) with
    (zeros 32 ++ zeros 16 ++ zeros 1 ++ zeros 1 ++ zeros 2 ++ zeros 4 ++ zeros 8 ++
     zeros 64 ++ zeros 384).
  cbn [foldl do_copy]. to_nat_consts. rewrite S1, S2, S3, S4, S5, S6.
  assert (length (take 1 (rb_reserved1 (rp_body r))) = 1%nat) by (rewrite length_take; lia).
  do 6 (overwrite_piece;
    [|rewrite ?length_zeros, ?length_le_bytes, ?length_attributes_bytes; congruence]).
  unfold target_info_bytes, target_of_body. cbn [ti_mr_enclave ti_attributes ti_reserved1
    ti_config_svn ti_misc_select ti_reserved2 ti_config_id ti_reserved3].
  rewrite <- !app_assoc. done.
Qed.

(** The target is the right one: on any report, the library's own table
    makes [make_target_info] succeed and produce the target that names the
    enclave the report describes: its measurement, attributes, CET attributes,
    config SVN, [misc_select] and config id, and zeros elsewhere. *)
Theorem make_target_info_names_reporter r :
  report_ok r ->
  make_target_info SGX_LAV2_PROTO_SPEC r target_info_default =
  (Ok tt, target_of_body (rp_body r)).
Proof. apply make_target_info_lav2. Qed.

Lemma make_target_info_names_reporter_witness :
  make_target_info SGX_LAV2_PROTO_SPEC report_default target_info_default =
  (Ok tt, target_of_body report_body_default).
Proof. apply (make_target_info_names_reporter report_default), report_default_ok. Defined.

(** * Msg3 as a raw buffer

    Msg3 as a raw buffer. *)

Import Trts.Bounds Msg3.

(** What the Rust types guarantee, and that the raw form fits in [u32]. *)
Definition msg3_ok (m : SgxDhMsg3) : Prop :=
  length (m3_cmac m) = 16%nat /\ report_ok (b3_report (m3_body m)) /\
  dh_msg3_size + zlen (b3_additional_prop (m3_body m)) <= u32_max.

Section raw.
Context `{Enclave}.

(** The 452 fixed bytes, before the additional property. *)
Definition msg3_header (m : SgxDhMsg3) (mem : list byte) : list byte :=
  write_at 448 (le_bytes 4 (zlen (b3_additional_prop (m3_body m))))
    (write_at 16 (report_bytes (b3_report (m3_body m))) (write_at 0 (m3_cmac m) mem)).

Lemma msg3_header_reads m mem :
  msg3_ok m -> (452 <= length mem)%nat ->
  length (msg3_header m mem) = length mem /\
  slice 0 16 (msg3_header m mem) = m3_cmac m /\
  slice 16 432 (msg3_header m mem) = report_bytes (b3_report (m3_body m)) /\
  slice 448 4 (msg3_header m mem) = le_bytes 4 (zlen (b3_additional_prop (m3_body m))).
Proof.
  intros (Hc & Hr & _) Hl. pose proof (length_report_bytes _ Hr) as Hrl. unfold msg3_header.
  pose proof (length_le_bytes 4 (zlen (b3_additional_prop (m3_body m)))) as H4.
  assert (length (write_at 0 (m3_cmac m) mem) = length mem) as L1
    by (apply length_write_at; lia).
  assert (length (write_at 16 (report_bytes (b3_report (m3_body m)))
    (write_at 0 (m3_cmac m) mem)) = length mem) as L2
    by (rewrite length_write_at by lia; done).
  split_and!.
  - by rewrite length_write_at by lia.
  - rewrite !slice_write_other by lia. by rewrite slice_write_same by lia.
  - rewrite slice_write_other by lia. by rewrite slice_write_same by lia.
  - by rewrite slice_write_same by lia.
Qed.

(** [to_raw_dh_msg3_t] past its checks. *)
Lemma to_raw_msg3_writes m p len mem :
  msg3_ok m -> p <> 0 -> rsgx_raw_is_within_enclave p len = true ->
  dh_msg3_size + zlen (b3_additional_prop (m3_body m)) <= len ->
  to_raw_dh_msg3_t m p len mem =
  if zlen (b3_additional_prop (m3_body m)) >? 0 then
    panics_bind (copy_from_slice 452 (b3_additional_prop (m3_body m)) (msg3_header m mem))
      (fun mem => Done (Some p, mem))
  else Done (Some p, msg3_header m mem).
Proof.
  intros (_ & _ & Hm) Hp Hw Hl. unfold to_raw_dh_msg3_t, dh_msg3_size in *.
  pose proof (zlen_nonneg (b3_additional_prop (m3_body m))).
  rewrite Hw. rewrite !wrap_small by (unfold u32_max in *; lia).
  destruct (Z.eqb_spec p 0); [done|]. cbn [negb].
  rewrite (proj2 (Z.ltb_ge len _)) by lia.
  assert ((zlen (b3_additional_prop (m3_body m)) >? u32_max - 452) = false) as -> by zcases.
  done.
Qed.

Lemma from_raw_msg3_reads p len mem n :
  p <> 0 -> rsgx_raw_is_within_enclave p len = true ->
  le_val (slice 448 4 mem) = n -> 0 <= n -> dh_msg3_size + n <= len <= u32_max ->
  from_raw_dh_msg3_t p len mem = Some {|
    m3_cmac := slice 0 16 mem;
    m3_body := {| b3_report := report_of_bytes (slice 16 432 mem);
      b3_additional_prop := slice 452 (Z.to_nat n) mem |} |}.
Proof.
  intros Hp Hw Hn H0 Hl. unfold from_raw_dh_msg3_t, dh_msg3_size in *.
  rewrite Hw, Hn. destruct (Z.eqb_spec p 0); [done|]. cbn [negb].
  assert ((n >? u32_max - 452) = false) as -> by zcases.
  rewrite (proj2 (Z.ltb_ge len _)) by lia.
  assert ((if n >? 0 then slice 452 (Z.to_nat n) mem else []) = slice 452 (Z.to_nat n) mem) as ->;
    [|done].
  rewrite Z.gtb_ltb. destruct (Z.ltb_spec 0 n); [done|]. by replace n with 0 by lia.
Qed.

(** The region after a success: the header, then the property. *)
Lemma to_raw_msg3_exact m p len mem :
  msg3_ok m -> p <> 0 -> rsgx_raw_is_within_enclave p len = true -> zlen mem = len ->
  len = dh_msg3_size + zlen (b3_additional_prop (m3_body m)) ->
  to_raw_dh_msg3_t m p len mem =
  Done (Some p, take 452 (msg3_header m mem) ++ b3_additional_prop (m3_body m)).
Proof.
  intros Hok Hp Hw Hm Hl. rewrite to_raw_msg3_writes by (done || lia).
  unfold dh_msg3_size, zlen in *. set (prop := b3_additional_prop (m3_body m)) in *.
  destruct (msg3_header_reads m mem Hok ltac:(lia)) as (El & _).
  rewrite Z.gtb_ltb. destruct (Z.ltb_spec 0 (Z.of_nat (length prop))) as [|Hz].
  - unfold copy_from_slice. rewrite decide_True; [done|]. rewrite length_drop. lia.
  - assert (prop = []) as -> by (apply nil_length_inv; lia). simpl in *.
    rewrite app_nil_r, take_ge by lia. done.
Qed.

End raw.

Lemma slice_take o n k (l : list byte) :
  (o + n <= k)%nat -> slice o n (take k l) = slice o n l.
Proof.
  intros Hk. apply list_eq. intros i. rewrite !slice_lookup. case_decide; [|done].
  by rewrite lookup_take_lt by lia.
Qed.

Lemma slice_app_l o n (l r : list byte) :
  (o + n <= length l)%nat -> slice o n (l ++ r) = slice o n l.
Proof.
  intros Hk. apply list_eq. intros i. rewrite !slice_lookup. case_decide; [|done].
  by rewrite lookup_app_l by lia.
Qed.

(** Export and import of msg3: into a region inside the enclave of exactly
    the size [calc_raw_sealed_data_size] reports, [to_raw_dh_msg3_t] succeeds and
    [from_raw_dh_msg3_t] on the result gives the message back. *)
Theorem msg3_raw_roundtrip `{Enclave} m p mem :
  msg3_ok m -> p <> 0 -> calc_raw_sealed_data_size m = zlen mem ->
  rsgx_raw_is_within_enclave p (zlen mem) = true ->
  exists mem', to_raw_dh_msg3_t m p (zlen mem) mem = Done (Some p, mem') /\
    from_raw_dh_msg3_t p (zlen mem) mem' = Some m.
Proof.
  intros Hok Hp Hc Hw. set (prop := b3_additional_prop (m3_body m)) in *.
  assert (zlen mem = dh_msg3_size + zlen prop) as Hl.
  { rewrite <- Hc. unfold calc_raw_sealed_data_size. fold prop. destruct Hok as (_ & _ & Hm).
    fold prop in Hm. pose proof (zlen_nonneg prop). unfold dh_msg3_size in *.
    assert ((zlen prop >? u32_max - 452) = false) as -> by zcases.
    apply wrap_small. unfold u32_max in *. lia. }
  exists (take 452 (msg3_header m mem) ++ prop). split; [by apply to_raw_msg3_exact|].
  assert (452 <= length mem)%nat as H452.
  { unfold dh_msg3_size, zlen in Hl. lia. }
  destruct (msg3_header_reads m mem Hok H452) as (El & E1 & E2 & E3).
  assert (length (take 452 (msg3_header m mem)) = 452%nat) as Ht
    by (rewrite length_take; lia).
  destruct Hok as (Hcm & Hr & Hm). fold prop in Hm.
  pose proof (zlen_nonneg prop). unfold dh_msg3_size in *.
  rewrite (from_raw_msg3_reads p _ _ (zlen prop)); try done.
  - rewrite !slice_app_l, !slice_take, E1, E2, report_of_to_bytes by (done || lia).
    replace (Z.to_nat (zlen prop)) with (length prop) by (unfold zlen; lia).
    rewrite slice_skip by lia. rewrite Ht. unfold slice.
    rewrite Nat.sub_diag, drop_0, take_ge by lia. subst prop. by destruct m as [? []].
  - rewrite slice_app_l, slice_take, E3 by lia. apply le_val_bytes_small.
    unfold u32_max in *. simpl. lia.
  - unfold dh_msg3_size. lia.
Qed.

Definition msg3_example : SgxDhMsg3 := {|
  m3_cmac := zeros 16;
  m3_body := {| b3_report := report_default; b3_additional_prop := [Byte.x61; Byte.x62] |} |}.

Lemma msg3_raw_roundtrip_witness :
  exists mem', to_raw_dh_msg3_t msg3_example toy_base 454 (zeros 454) =
    Done (Some toy_base, mem') /\
    from_raw_dh_msg3_t toy_base 454 mem' = Some msg3_example.
Proof.
  apply (msg3_raw_roundtrip msg3_example toy_base (zeros 454)); repeat split; done.
Defined.

(** A larger buffer panics: with a non-empty additional property, a region
    that is larger than needed passes every check of [to_raw_dh_msg3_t], and the
    copy of the property into all the rest of the region then panics. *)
Theorem msg3_raw_larger_buffer_panics `{Enclave} m p mem :
  msg3_ok m -> p <> 0 -> rsgx_raw_is_within_enclave p (zlen mem) = true ->
  b3_additional_prop (m3_body m) <> [] ->
  dh_msg3_size + zlen (b3_additional_prop (m3_body m)) < zlen mem ->
  to_raw_dh_msg3_t m p (zlen mem) mem = Panic.
Proof.
  intros Hok Hp Hw Hne Hl. rewrite to_raw_msg3_writes by (done || lia).
  unfold dh_msg3_size, zlen in *.
  destruct (msg3_header_reads m mem Hok ltac:(lia)) as (El & _).
  destruct (b3_additional_prop (m3_body m)) as [|b prop] eqn:E; [done|]. simpl. unfold copy_from_slice.
  rewrite decide_False; [done|]. rewrite length_drop, El. simpl in *. lia.
Qed.

Lemma msg3_raw_larger_buffer_panics_witness :
  to_raw_dh_msg3_t msg3_example toy_base 455 (zeros 455) = Panic.
Proof.
  apply (msg3_raw_larger_buffer_panics msg3_example toy_base (zeros 455)); repeat split; done.
Defined.
