(* ===== verification/TdhSpec.v ===== *)
(** TdhSpec: what each step of the key exchange checks and produces.

    One lemma per function, against the laws of the platform and the crypto
    library: the context map is unchanged on every exit, a success means that
    the stated facts hold, and on a ready machine the facts are also enough
    for success. *)
From Stdlib Require Import ZArith Lia Strings.Byte.
From stdpp Require Import base numbers list option tactics gmap.
From S2P Require Import Prelude SgxStatus SgxTypes Trts Tse Tcrypto TcryptoSpec Tdh TdhTarget.
Import Trts.Bounds Trts.Memeq.

(** The key derivation: CMAC under the CMAC of the shared secret. *)
Definition kdf `{CryptoMath} (shared label : list byte) : list byte :=
  cmac (cmac (zeros 16) shared) (derivation_buffer label).

Definition msg2_ok (m : sgx_dh_msg2_t) : Prop :=
  ec256_public_ok (m2_g_b m) /\ report_ok (m2_report m) /\ length (m2_cmac m) = 16%nat.

Section specs.
Context `{CryptoMath} `{!CryptoMathLaws} `{Machine} {W : Type}.
Context (P : Platform W) (T : Tcrypto W) (self : sgx_report_body_t)
  (contexts : W -> gmap Z context) (ready : W -> Prop).
Context `{!PlatformLaws P self contexts ready} `{!TcryptoLaws T contexts ready}.
Context `{SpecLayout} `{!SpecLayoutLaws}.

Lemma slice_bytes_u8 l : slice_bytes l = l.
Proof. unfold slice_bytes. induction l; [done|]. csimpl. by f_equal. Qed.

Lemma wp_derive_key shared label Q w :
  length shared = 32%nat ->
  (forall w', contexts w' = contexts w -> (ready w -> ready w') ->
    Q (Ok (kdf shared label)) w') ->
  (forall e w', contexts w' = contexts w -> ~ ready w -> Q (Err e) w') ->
  wp (derive_key shared label) Q w.
Proof.
  intros Hl Hok Herr. apply wp_bind.
  apply (wp_cmac_sized_msg T contexts ready); [unfold zlen; simpl; unfold id; lia|done| |].
  - intros w1 E1 R1. apply wp_ste_bind, wp_ret. simpl. apply wp_bind.
    unfold rsgx_rijndael128_align_cmac_slice, mac_slice. rewrite slice_bytes_u8.
    apply (wp_cmac_sized_msg T contexts ready); [done|done| |].
    + intros w2 E2 R2. apply wp_ret, Hok; [congruence|tauto].
    + intros e w2 E2 R2. apply wp_ret, Herr; [congruence|tauto].
  - intros e w1 E1 R1. apply wp_ste_bind, wp_ret, Herr; [done|tauto].
Qed.

(** ** Hashing two objects in a scope

    Every transcript hash of the protocol is taken this way. *)
Lemma wp_sha_two {A} bs1 n1 bs2 n2 p (fail : sgx_status_t -> A)
    (k : list byte -> ST W A) Q (w w1 : W) :
  n1 = zlen bs1 -> 0 < n1 <= u32_max -> n2 = zlen bs2 -> 0 < n2 <= u32_max ->
  contexts w !! p = None -> contexts w1 = <[p := ShaContext []]> (contexts w) ->
  (forall w', (exists c, contexts w' = <[p := c]> (contexts w)) -> (ready w1 -> ready w') ->
    wp (k (sha256 (bs1 ++ bs2))) Q w') ->
  (forall e w', (exists c, contexts w' = <[p := c]> (contexts w)) -> ~ ready w1 ->
    Q (fail e) w') ->
  let upd bs n := handle_use (fun q => no_out (hash_update sha256_ffi bs n q)) (opened p) in
  wp (let! _ := upd bs1 n1 or fail in let! _ := upd bs2 n2 or fail in
      let! h := hash_handle_get_hash sha256_ffi 32 (opened p) or fail in k h) Q w1.
Proof.
  intros En1 Hn1 En2 Hn2 Hp Hc Hok Herr upd. apply wp_try.
  eapply (wp_sha_update T contexts ready); [done|done|by rewrite Hc, lookup_insert_eq| |].
  2: { intros e d w' E R. apply Herr; [|done]. exists (ShaContext d).
       by rewrite E, Hc, insert_insert_eq. }
  intros w2 E2 R2. rewrite Hc, insert_insert_eq in E2. apply wp_try.
  eapply (wp_sha_update T contexts ready); [done|done|by rewrite E2, lookup_insert_eq| |].
  2: { intros e d w' E R. apply Herr; [|tauto]. exists (ShaContext d).
       by rewrite E, E2, insert_insert_eq. }
  intros w3 E3 R3. rewrite E2, insert_insert_eq in E3. apply wp_try.
  eapply (wp_sha_get_hash T contexts ready); [by rewrite E3, lookup_insert_eq| |].
  - intros w4 E4 R4. apply Hok; [|tauto]. eexists. by rewrite E4.
  - intros e w4 E4 R4. apply Herr; [|tauto]. eexists. by rewrite E4.
Qed.

Lemma wp_with_sha_two {A} bs1 n1 bs2 n2 (fail : sgx_status_t -> A)
    (k : list byte -> ST W A) Q w :
  n1 = zlen bs1 -> 0 < n1 <= u32_max -> n2 = zlen bs2 -> 0 < n2 <= u32_max ->
  (forall w1, (ready w -> ready w1) ->
    wp (k (sha256 (bs1 ++ bs2))) (fun r w2 => contexts w2 = contexts w1 /\
      forall w3, contexts w3 = contexts w -> (ready w2 -> ready w3) -> Q r w3) w1) ->
  (forall e w', contexts w' = contexts w -> ~ ready w -> Q (fail e) w') ->
  let upd h bs n := handle_use (fun q => no_out (hash_update sha256_ffi bs n q)) h in
  wp (with_sha fail (fun h =>
      let! _ := upd h bs1 n1 or fail in let! _ := upd h bs2 n2 or fail in
      let! m := hash_handle_get_hash sha256_ffi 32 h or fail in k m)) Q w.
Proof.
  intros En1 Hn1 En2 Hn2 Hk Herr upd. apply (wp_with_sha T contexts ready); [|done].
  intros p w1 Hp E1 R1. apply wp_sha_two with w; try done.
  - intros w2 [c E2] R2. eapply wp_mono; [apply Hk; tauto|]. simpl.
    intros r w3 [E3 HQ]. split; [exists c; congruence|done].
  - intros e w2 Hc R2. split; [done|]. intros w3 E3 R3. apply Herr; [done|tauto].
Qed.

(** ** MACs in a scope *)
Lemma wp_cmac_try {A} bs n p key d C (fail : sgx_status_t -> A) (k : unit -> ST W A) Q w1 :
  n = zlen bs -> 0 < n <= u32_max -> contexts w1 = <[p := CmacContext key d]> C ->
  (forall w2, contexts w2 = <[p := CmacContext key (d ++ bs)]> C -> (ready w1 -> ready w2) ->
    wp (k tt) Q w2) ->
  (forall e w2, (exists c, contexts w2 = <[p := c]> C) -> ~ ready w1 -> Q (fail e) w2) ->
  wp (st_try (handle_use (fun q => no_out (mac_update cmac_ffi (wrap 32) bs n q)) (opened p))
        fail k) Q w1.
Proof.
  intros En Hn Hc Hok Herr. apply wp_try.
  eapply (wp_cmac_update T contexts ready); [done|done|by rewrite Hc, lookup_insert_eq| |].
  - intros w2 E2 R2. rewrite Hc, insert_insert_eq in E2. by apply Hok.
  - intros e d' w2 E2 R2. apply Herr; [|done]. eexists. by rewrite E2, Hc, insert_insert_eq.
Qed.

(** The additional property is absorbed when there is one. *)
Lemma wp_cmac_try_prop {A} (prop : list byte) (b : bool) p key d C
    (fail : sgx_status_t -> A) (k : unit -> ST W A) Q w1 :
  b = (zlen prop >? 0) -> zlen prop <= u32_max ->
  contexts w1 = <[p := CmacContext key d]> C ->
  (forall w2, contexts w2 = <[p := CmacContext key (d ++ prop)]> C -> (ready w1 -> ready w2) ->
    wp (k tt) Q w2) ->
  (forall e w2, (exists c, contexts w2 = <[p := c]> C) -> ~ ready w1 -> Q (fail e) w2) ->
  wp (st_try (if b then mac_handle_update_slice cmac_ffi (wrap 32) prop (opened p)
              else ste_ok tt) fail k) Q w1.
Proof.
  intros -> Hn Hc Hok Herr. rewrite Z.gtb_ltb. destruct (Z.ltb_spec 0 (zlen prop)) as [Hp|Hp].
  - unfold mac_handle_update_slice. rewrite slice_bytes_u8.
    apply (wp_cmac_try _ _ _ key d C); [|unfold size_of_val; simpl; lia|done..].
    unfold size_of_val. simpl. lia.
  - apply wp_try, wp_ret. apply Hok; [|done]. rewrite Hc.
    assert (prop = []) as ->; [|by rewrite app_nil_r]. apply zlen_nil_iff.
    pose proof (zlen_nonneg prop). lia.
Qed.

Lemma wp_cmac_try_final {A} p key d C (fail : sgx_status_t -> A) (k : list byte -> ST W A) Q w1 :
  contexts w1 = <[p := CmacContext key d]> C ->
  (forall w2, (exists c, contexts w2 = <[p := c]> C) -> (ready w1 -> ready w2) ->
    wp (k (cmac key d)) Q w2) ->
  (forall e w2, (exists c, contexts w2 = <[p := c]> C) -> ~ ready w1 -> Q (fail e) w2) ->
  wp (st_try (mac_handle_get_hash cmac_ffi 16 (opened p)) fail k) Q w1.
Proof.
  intros Hc Hok Herr. apply wp_try.
  eapply (wp_cmac_get_hash T contexts ready); [by rewrite Hc, lookup_insert_eq| |].
  - intros w2 E2 R2. apply Hok; [|done]. eexists. by rewrite E2.
  - intros e w2 E2 R2. apply Herr; [|done]. eexists. by rewrite E2.
Qed.

(** The MAC over msg3 in the first version: report, length, property. *)
Lemma wp_with_cmac_msg3 {A} key (report prop : list byte) n (fail : sgx_status_t -> A)
    (k : list byte -> ST W A) Q w :
  n = zlen report -> 0 < n <= u32_max -> zlen prop <= u32_max ->
  (forall w1, (ready w -> ready w1) ->
    wp (k (cmac key (report ++ le_bytes 4 (zlen prop) ++ prop))) (fun r w2 =>
      contexts w2 = contexts w1 /\
      forall w3, contexts w3 = contexts w -> (ready w2 -> ready w3) -> Q r w3) w1) ->
  (forall e w', contexts w' = contexts w -> ~ ready w -> Q (fail e) w') ->
  let upd h bs n := handle_use (fun q => no_out (mac_update cmac_ffi (wrap 32) bs n q)) h in
  let len := wrap 32 (zlen prop) in
  wp (with_cmac key fail (fun h =>
      let! _ := upd h report n or fail in
      let! _ := upd h (le_bytes 4 len) 4 or fail in
      let! _ := (if len >? 0 then mac_handle_update_slice cmac_ffi (wrap 32) prop h
                 else ste_ok tt) or fail in
      let! m := mac_handle_get_hash cmac_ffi 16 h or fail in k m)) Q w.
Proof.
  intros En Hn Hp Hk Herr upd len. apply (wp_with_cmac T contexts ready); [|done].
  assert (len = zlen prop) as Hlen.
  { apply wrap_small. pose proof (zlen_nonneg prop). unfold u32_max in *. lia. }
  intros p w1 Hf E1 R1.
  assert (forall e w', (exists c, contexts w' = <[p := c]> (contexts w)) -> ~ ready w1 ->
    (exists c, contexts w' = <[p := c]> (contexts w)) /\
    forall w3, contexts w3 = contexts w -> (ready w' -> ready w3) -> Q (fail e) w3) as Hfail.
  { intros e w' He R. split; [done|]. intros. apply Herr; [done|tauto]. }
  eapply wp_cmac_try; [done|done|done| |by auto]. intros w2 E2 R2.
  eapply wp_cmac_try; [done|done|exact E2| |intros; apply Hfail; tauto]. intros w3 E3 R3.
  eapply wp_cmac_try_prop; [by rewrite Hlen|done|exact E3| |intros; apply Hfail; tauto].
  intros w4 E4 R4.
  eapply wp_cmac_try_final; [exact E4| |intros; apply Hfail; tauto]. intros w5 [c E5] R5.
  rewrite Hlen. simpl app. rewrite <- app_assoc. eapply wp_mono; [apply Hk; tauto|].
  intros r w6 [E6 HQ]. split; [exists c; congruence|done].
Qed.

(** The MAC over msg3 in the second version: property, public key. *)
Lemma wp_with_cmac_prop {A} key (prop pub : list byte) n (fail : sgx_status_t -> A)
    (k : list byte -> ST W A) Q w :
  n = zlen pub -> 0 < n <= u32_max -> zlen prop <= u32_max ->
  (forall w1, (ready w -> ready w1) ->
    wp (k (cmac key (prop ++ pub))) (fun r w2 =>
      contexts w2 = contexts w1 /\
      forall w3, contexts w3 = contexts w -> (ready w2 -> ready w3) -> Q r w3) w1) ->
  (forall e w', contexts w' = contexts w -> ~ ready w -> Q (fail e) w') ->
  let upd h bs n := handle_use (fun q => no_out (mac_update cmac_ffi (wrap 32) bs n q)) h in
  wp (with_cmac key fail (fun h =>
      let! _ := (if zlen prop >? 0 then mac_handle_update_slice cmac_ffi (wrap 32) prop h
                 else ste_ok tt) or fail in
      let! _ := upd h pub n or fail in
      let! m := mac_handle_get_hash cmac_ffi 16 h or fail in k m)) Q w.
Proof.
  intros En Hn Hp Hk Herr upd. apply (wp_with_cmac T contexts ready); [|done].
  intros p w1 Hf E1 R1.
  assert (forall e w', (exists c, contexts w' = <[p := c]> (contexts w)) -> ~ ready w1 ->
    (exists c, contexts w' = <[p := c]> (contexts w)) /\
    forall w3, contexts w3 = contexts w -> (ready w' -> ready w3) -> Q (fail e) w3) as Hfail.
  { intros e w' He R. split; [done|]. intros. apply Herr; [done|tauto]. }
  eapply wp_cmac_try_prop; [done|done|exact E1| |by auto]. intros w2 E2 R2.
  eapply wp_cmac_try; [done|done|exact E2| |intros; apply Hfail; tauto]. intros w3 E3 R3.
  eapply wp_cmac_try_final; [exact E3| |intros; apply Hfail; tauto]. intros w4 [c E4] R4.
  simpl app. eapply wp_mono; [apply Hk; tauto|].
  intros r w5 [E5 HQ]. split; [exists c; congruence|done].
Qed.

(** ** Responder, msg2 *)
Section responder.
Context (s : SgxDhResponder) (msg2 : sgx_dh_msg2_t).
Hypothesis Hpub : ec256_public_ok (rs_pub_key s).
Hypothesis Hmsg2 : msg2_ok msg2.

(** What the first version of the protocol checks of msg2. *)
Definition msg2_checks : Prop :=
  let r := m2_report msg2 in let d := rb_report_data (rp_body r) in
  slice 32 2 d = AES_CMAC_KDF_ID /\
  m2_cmac msg2 = cmac (rs_smk_aek s) (report_bytes r) /\
  rp_mac r = report_mac (target_of_body self) (rp_body r) (rp_key_id r) /\
  take 32 d = sha256 (ec256_public_bytes (rs_pub_key s) ++ ec256_public_bytes (m2_g_b msg2)).

Lemma public_size g : ec256_public_ok g -> 64 = zlen (ec256_public_bytes g).
Proof. intros Hg. symmetry. exact (@as_bytes_length sgx_ec256_public_t _ _ g Hg). Qed.

Lemma report_size r : report_ok r -> 432 = zlen (report_bytes r).
Proof. intros Hr. symmetry. exact (@as_bytes_length sgx_report_t _ _ r Hr). Qed.

Lemma wp_dh_verify_message2 Q w :
  (forall w', contexts w' = contexts w -> msg2_checks -> (ready w -> ready w') -> Q (Ok tt) w') ->
  (forall e w', contexts w' = contexts w -> ~ (ready w /\ msg2_checks) -> Q (Err e) w') ->
  wp (Responder.dh_verify_message2 s msg2) Q w.
Proof.
  intros Hok Herr. destruct Hmsg2 as (Hg & Hr & Hc). unfold Responder.dh_verify_message2.
  unfold msg2_checks in *. set (d := rb_report_data _) in *.
  case_bool_decide as Hkdf; cbn [negb]; [|apply wp_ret, Herr; tauto].
  apply wp_ste_bind, (wp_cmac_sized_msg T contexts ready); [by apply report_size|done| |].
  2: { intros e w1 E1 R1. apply Herr; tauto. }
  intros w1 E1 R1. rewrite consttime_memeq_array by (done || apply cmac_length).
  case_bool_decide as Hmac; cbn [negb]; [|apply wp_ret, Herr; [done|naive_solver]].
  apply wp_ste_bind. eapply (wp_verify_report P self contexts ready).
  2: { intros e w2 E2 R2. apply Herr; [congruence|tauto]. }
  intros w2 E2 Hgen R2. apply (wp_with_sha_two _ 64 _ 64 Err);
    [by apply public_size|done|by apply public_size|done| |].
  2: { intros e w3 E3 R3. apply Herr; [congruence|tauto]. }
  intros w3 R3. case_bool_decide as Hh; cbn [negb]; apply wp_ret; (split; [done|]); intros w4 E4 R4.
  - apply Hok; [congruence|done|tauto].
  - apply Herr; [congruence|naive_solver].
Qed.

(** What the second version checks. *)
Definition lav2_msg2_checks : Prop :=
  let r := m2_report msg2 in let d := rb_report_data (rp_body r) in
  let h := sha256 (d ++ ec256_public_bytes (m2_g_b msg2)) in
  rp_mac r = report_mac (target_of_body self)
    (set_report_data (rp_body r) (hash_report_data h)) (rp_key_id r) /\
  m2_cmac msg2 = cmac (rs_smk_aek s) (ec256_public_bytes (m2_g_b msg2)) /\
  ps_signature (spec_of_bytes d) = ps_signature SGX_LAV2_PROTO_SPEC /\
  ps_ver (spec_of_bytes d) = ps_ver SGX_LAV2_PROTO_SPEC.

Lemma report_data_length r : report_ok r -> length (rb_report_data (rp_body r)) = 64%nat.
Proof. intros (Hb & _). unfold report_body_ok in Hb. tauto. Qed.

Lemma wp_lav2_verify_message2 Q w :
  (forall w', contexts w' = contexts w -> lav2_msg2_checks -> (ready w -> ready w') ->
    Q (Ok tt) w') ->
  (forall e w', contexts w' = contexts w -> ~ (ready w /\ lav2_msg2_checks) -> Q (Err e) w') ->
  wp (Responder.lav2_verify_message2 s msg2) Q w.
Proof.
  intros Hok Herr. destruct Hmsg2 as (Hg & Hr & Hc). unfold lav2_msg2_checks in *.
  pose proof (report_data_length _ Hr) as Hd. set (d := rb_report_data _) in *.
  apply (wp_with_sha_two d 64 _ 64 Err); [unfold zlen; by rewrite Hd|done|by apply public_size|done| |].
  2: { intros e w1 E1 R1. apply Herr; tauto. }
  intros w1 R1. set (h := sha256 _) in *.
  apply wp_ste_bind, (wp_verify_report P self contexts ready).
  2: { intros e w2 E2 R2. split; [done|]. intros w3 E3 R3. apply Herr; [done|].
       cbn [with_report_data rp_body rp_mac rp_key_id] in R2. tauto. }
  cbn [with_report_data rp_body rp_mac rp_key_id]. intros w2 E2 Hgen R2.
  apply wp_ste_bind, (wp_cmac_sized_msg T contexts ready); [by apply public_size|done| |].
  2: { intros e w3 E3 R3. split; [congruence|]. intros. apply Herr; [done|tauto]. }
  intros w3 E3 R3. rewrite consttime_memeq_array by (done || apply cmac_length).
  case_bool_decide as Hmac; cbn [negb].
  2: { apply wp_ret. split; [congruence|]. intros. apply Herr; [done|naive_solver]. }
  fold d. case_bool_decide as Hsig; cbn [negb orb].
  2: { apply wp_ret. split; [congruence|]. intros. apply Herr; [done|naive_solver]. }
  destruct (Z.eqb_spec (ps_ver (spec_of_bytes d)) (ps_ver SGX_LAV2_PROTO_SPEC)) as [Hv|Hv];
    cbn [negb]; apply wp_ret; (split; [congruence|]); intros w4 E4 R4.
  - apply Hok; [done|done|tauto].
  - apply Herr; [done|naive_solver].
Qed.

(** ** msg3 *)

(** A report of this enclave, for the enclave that sent msg2. *)
Definition report_to_peer (h : list byte) (r : sgx_report_t) : Prop :=
  rp_body r = set_report_data self (hash_report_data h) /\ length (rp_key_id r) = 32%nat /\
  rp_mac r = report_mac (target_of_body (rp_body (m2_report msg2))) (rp_body r) (rp_key_id r).

Lemma own_report_ok h r `{!MachineLaws} :
  length h = 32%nat -> report_to_peer h r -> report_ok r.
Proof.
  intros Hh (Eb & Ek & Em). unfold report_ok. rewrite Em, report_mac_length, Eb.
  split_and!; [|done|done]. apply set_report_data_ok; [by eapply self_ok|].
  unfold hash_report_data. rewrite length_app, length_zeros, Hh. done.
Qed.

Context `{!MachineLaws} (msg3 : SgxDhMsg3).
Hypothesis Hprop : zlen (b3_additional_prop (m3_body msg3)) <= u32_max.

Lemma wp_dh_generate_message3 Q w :
  let prop := b3_additional_prop (m3_body msg3) in
  let h := sha256 (ec256_public_bytes (m2_g_b msg2) ++ ec256_public_bytes (rs_pub_key s)) in
  (forall r w', contexts w' = contexts w -> (ready w -> ready w') -> report_to_peer h r ->
    Q (Ok tt, {|
      m3_cmac := cmac (rs_smk_aek s) (report_bytes r ++ le_bytes 4 (zlen prop) ++ prop);
      m3_body := {| b3_report := r; b3_additional_prop := prop |} |}) w') ->
  (forall e m w', contexts w' = contexts w -> ~ ready w -> Q (Err e, m) w') ->
  wp (Responder.dh_generate_message3 s msg2 msg3) Q w.
Proof.
  intros prop h Hok Herr. destruct Hmsg2 as (Hg & Hr & _). unfold Responder.dh_generate_message3.
  eapply (wp_with_sha_two _ 64 _ 64);
    [by apply public_size|done|by apply public_size|done| |by intros; apply Herr].
  intros w1 R1. fold h. rewrite make_target_info_lav2 by done. cbn iota beta.
  apply wp_try, wp_ret, wp_try, (wp_create_report P self contexts ready).
  { unfold hash_report_data. rewrite length_app, length_zeros. subst h.
    by rewrite sha256_length. }
  2: { intros e w2 E2 R2. split; [done|]. intros. apply Herr; [done|tauto]. }
  intros r w2 E2 Eb Ek Em R2.
  assert (report_to_peer h r) as Hrp by done.
  pose proof (own_report_ok h r ltac:(apply sha256_length) Hrp) as Hrok.
  eapply (wp_with_cmac_msg3 (rs_smk_aek s) (report_bytes r) prop 432);
    [by apply report_size|done|done| |].
  - intros w3 R3. apply wp_ret. split; [done|]. intros w4 E4 R4. split; [congruence|].
    intros w5 E5 R5. apply Hok; [done|tauto|done].
  - intros e w3 E3 R3. split; [congruence|]. intros. apply Herr; [done|tauto].
Qed.

Lemma wp_lav2_generate_message3 Q w :
  let prop := b3_additional_prop (m3_body msg3) in
  let h := sha256 (ec256_public_bytes (rs_pub_key s) ++
                   rb_report_data (rp_body (m2_report msg2))) in
  (forall r w', contexts w' = contexts w -> (ready w -> ready w') -> report_to_peer h r ->
    Q (Ok tt, {|
      m3_cmac := cmac (rs_smk_aek s) (prop ++ ec256_public_bytes (rs_pub_key s));
      m3_body := {| b3_report := r; b3_additional_prop := prop |} |}) w') ->
  (forall e m w', contexts w' = contexts w -> ~ ready w -> Q (Err e, m) w') ->
  wp (Responder.lav2_generate_message3 s msg2 msg3) Q w.
Proof.
  intros prop h Hok Herr. destruct Hmsg2 as (Hg & Hr & _). unfold Responder.lav2_generate_message3.
  destruct (spec_to_of_bytes (rb_report_data (rp_body (m2_report msg2)))) as [Hs Eb].
  { by apply report_data_length. }
  eapply (wp_with_sha_two _ 64 _ 64);
    [by apply public_size|done| |done| |by intros; apply Herr].
  { symmetry. exact (f_equal Z.of_nat (spec_bytes_length _ Hs)). }
  intros w1 R1. cbn [as_bytes spec_mem]. rewrite Eb. fold h.
  rewrite make_target_info_lav2 by done. cbn iota beta.
  apply wp_try, wp_ret, wp_try, (wp_create_report P self contexts ready).
  { unfold hash_report_data. rewrite length_app, length_zeros. subst h.
    by rewrite sha256_length. }
  2: { intros e w2 E2 R2. split; [done|]. intros. apply Herr; [done|tauto]. }
  intros r w2 E2 Ebd Ek Em R2.
  assert (report_to_peer h r) as Hrp by done.
  eapply (wp_with_cmac_prop (rs_smk_aek s) prop (ec256_public_bytes (rs_pub_key s)) 64);
    [by apply public_size|done|done| |].
  - intros w3 R3. apply wp_ret. split; [done|]. intros w4 E4 R4. split; [congruence|].
    intros w5 E5 R5. apply Hok; [done|tauto|done].
  - intros e w3 E3 R3. split; [congruence|]. intros. apply Herr; [done|tauto].
Qed.

End responder.

(** ** Initiator, msg2 *)
Section initiator.
Context `{!MachineLaws} (s : SgxDhInitiator).
Hypothesis Hpub : ec256_public_ok (in_pub_key s).

Lemma lav2_spec_ok : spec_ok SGX_LAV2_PROTO_SPEC.
Proof. repeat split; try done. repeat constructor; done. Qed.

Lemma lav2_spec_size : 64 = zlen (spec_bytes SGX_LAV2_PROTO_SPEC).
Proof. symmetry. exact (f_equal Z.of_nat (spec_bytes_length _ lav2_spec_ok)). Qed.

(** A report of this enclave with report data [d], for a target. *)
Definition report_for (ti : sgx_target_info_t) (d : list byte) (r : sgx_report_t) : Prop :=
  rp_body r = set_report_data self d /\ length (rp_key_id r) = 32%nat /\
  rp_mac r = report_mac ti (rp_body r) (rp_key_id r).

Lemma report_for_ok ti d r : length d = 64%nat -> report_for ti d r -> report_ok r.
Proof.
  intros Hd (Eb & Ek & Em). unfold report_ok. rewrite Em, report_mac_length, Eb.
  split_and!; [|done|done]. apply set_report_data_ok; [by eapply self_ok|done].
Qed.

(** The report data of the first version: hash, KDF id, zeros. *)
Definition kdf_report_data (h : list byte) : list byte := h ++ AES_CMAC_KDF_ID ++ zeros 30.

Lemma wp_dh_generate_message2 msg1 Q w :
  ec256_public_ok (m1_g_a msg1) ->
  let h := sha256 (ec256_public_bytes (m1_g_a msg1) ++ ec256_public_bytes (in_pub_key s)) in
  (forall r w', contexts w' = contexts w -> (ready w -> ready w') ->
    report_for (m1_target msg1) (kdf_report_data h) r ->
    Q (Ok tt, {| m2_g_b := in_pub_key s; m2_report := r;
                 m2_cmac := cmac (in_smk_aek s) (report_bytes r) |}) w') ->
  (forall e m w', contexts w' = contexts w -> ~ ready w -> Q (Err e, m) w') ->
  wp (Initiator.dh_generate_message2 s msg1) Q w.
Proof.
  intros Hg h Hok Herr. unfold Initiator.dh_generate_message2.
  eapply (wp_with_sha_two _ 64 _ 64);
    [by apply public_size|done|by apply public_size|done| |by intros; apply Herr].
  intros w1 R1. fold h.
  assert (length (kdf_report_data h) = 64%nat) as Hd.
  { unfold kdf_report_data. subst h. by rewrite length_app, sha256_length. }
  apply wp_try, (wp_create_report P self contexts ready); [done| |].
  2: { intros e w2 E2 R2. split; [done|]. intros. apply Herr; [done|tauto]. }
  intros r w2 E2 Eb Ek Em R2.
  assert (report_for (m1_target msg1) (kdf_report_data h) r) as Hrf by done.
  pose proof (report_for_ok _ _ r Hd Hrf) as Hrok.
  apply wp_try, (wp_cmac_sized_msg T contexts ready); [by apply report_size|done| |].
  - intros w3 E3 R3. apply wp_ret. split; [congruence|]. intros w4 E4 R4.
    apply Hok; [done|tauto|done].
  - intros e w3 E3 R3. split; [congruence|]. intros. apply Herr; [done|tauto].
Qed.

Lemma wp_lav2_generate_message2 msg1 Q w :
  let h := sha256 (spec_bytes SGX_LAV2_PROTO_SPEC ++ ec256_public_bytes (in_pub_key s)) in
  (forall r w', contexts w' = contexts w -> (ready w -> ready w') ->
    report_for (m1_target msg1) (hash_report_data h) r ->
    Q (Ok tt, {| m2_g_b := in_pub_key s;
      m2_report := with_report_data r (spec_bytes SGX_LAV2_PROTO_SPEC);
      m2_cmac := cmac (in_smk_aek s) (ec256_public_bytes (in_pub_key s)) |}) w') ->
  (forall e m w', contexts w' = contexts w -> ~ ready w -> Q (Err e, m) w') ->
  wp (Initiator.lav2_generate_message2 s msg1) Q w.
Proof.
  intros h Hok Herr. unfold Initiator.lav2_generate_message2.
  eapply (wp_with_sha_two _ 64 _ 64);
    [apply lav2_spec_size|done|by apply public_size|done| |by intros; apply Herr].
  intros w1 R1. cbn [as_bytes spec_mem ec256_public_mem]. fold h.
  apply wp_try, (wp_create_report P self contexts ready).
  { unfold hash_report_data. rewrite length_app, length_zeros. subst h.
    by rewrite sha256_length. }
  2: { intros e w2 E2 R2. split; [done|]. intros. apply Herr; [done|tauto]. }
  intros r w2 E2 Eb Ek Em R2.
  apply wp_try, (wp_cmac_sized_msg T contexts ready); [by apply public_size|done| |].
  - intros w3 E3 R3. apply wp_ret. split; [congruence|]. intros w4 E4 R4.
    apply Hok; [done|tauto|done].
  - intros e w3 E3 R3. split; [congruence|]. intros. apply Herr; [done|tauto].
Qed.

(** ** Initiator, msg3 *)
Context (msg3 : SgxDhMsg3).
Hypothesis Hpeer : ec256_public_ok (in_peer_pub_key s).
Hypothesis Hrep : report_ok (b3_report (m3_body msg3)).
Hypothesis Hcmac : length (m3_cmac msg3) = 16%nat.
Hypothesis Hprop : zlen (b3_additional_prop (m3_body msg3)) <= u32_max.

Definition msg3_checks : Prop :=
  let r := b3_report (m3_body msg3) in let prop := b3_additional_prop (m3_body msg3) in
  m3_cmac msg3 = cmac (in_smk_aek s) (report_bytes r ++ le_bytes 4 (zlen prop) ++ prop) /\
  rp_mac r = report_mac (target_of_body self) (rp_body r) (rp_key_id r) /\
  take 32 (rb_report_data (rp_body r)) =
    sha256 (ec256_public_bytes (in_pub_key s) ++ ec256_public_bytes (in_peer_pub_key s)).

Definition lav2_msg3_checks : Prop :=
  let r := b3_report (m3_body msg3) in let prop := b3_additional_prop (m3_body msg3) in
  rb_report_data (rp_body r) = hash_report_data
    (sha256 (ec256_public_bytes (in_peer_pub_key s) ++ spec_bytes SGX_LAV2_PROTO_SPEC)) /\
  rp_mac r = report_mac (target_of_body self) (rp_body r) (rp_key_id r) /\
  m3_cmac msg3 = cmac (in_smk_aek s) (prop ++ ec256_public_bytes (in_peer_pub_key s)).

Lemma wp_dh_verify_message3 Q w :
  (forall w', contexts w' = contexts w -> msg3_checks -> (ready w -> ready w') -> Q (Ok tt) w') ->
  (forall e w', contexts w' = contexts w -> ~ (ready w /\ msg3_checks) -> Q (Err e) w') ->
  wp (Initiator.dh_verify_message3 s msg3) Q w.
Proof.
  intros Hok Herr. unfold msg3_checks in *.
  apply (wp_with_cmac_msg3 (in_smk_aek s) (report_bytes (b3_report (m3_body msg3)))
    (b3_additional_prop (m3_body msg3)) 432 Err); [by apply report_size|done|done| |].
  2: { intros e w1 E1 R1. apply Herr; tauto. }
  intros w1 R1. rewrite consttime_memeq_array by (done || apply cmac_length).
  case_bool_decide as Hmac; cbn [negb].
  2: { apply wp_ret. split; [done|]. intros. apply Herr; [done|naive_solver]. }
  apply wp_ste_bind, (wp_verify_report P self contexts ready).
  2: { intros e w2 E2 R2. split; [done|]. intros. apply Herr; [done|tauto]. }
  intros w2 E2 Hgen R2.
  apply (wp_with_sha_two _ 64 _ 64 Err);
    [by apply public_size|done|by apply public_size|done| |].
  2: { intros e w3 E3 R3. split; [congruence|]. intros. apply Herr; [done|tauto]. }
  intros w3 R3. cbn [as_bytes ec256_public_mem].
  case_bool_decide as Hh; cbn [negb]; apply wp_ret; (split; [done|]);
    intros w4 E4 R4; (split; [congruence|]); intros w5 E5 R5.
  - apply Hok; [done|done|tauto].
  - apply Herr; [done|naive_solver].
Qed.

Lemma wp_lav2_verify_message3 Q w :
  (forall w', contexts w' = contexts w -> lav2_msg3_checks -> (ready w -> ready w') ->
    Q (Ok tt) w') ->
  (forall e w', contexts w' = contexts w -> ~ (ready w /\ lav2_msg3_checks) -> Q (Err e) w') ->
  wp (Initiator.lav2_verify_message3 s msg3) Q w.
Proof.
  intros Hok Herr. unfold lav2_msg3_checks in *.
  apply (wp_with_sha_two _ 64 _ 64 Err);
    [by apply public_size|done|apply lav2_spec_size|done| |].
  2: { intros e w1 E1 R1. apply Herr; tauto. }
  intros w1 R1. cbn [as_bytes spec_mem ec256_public_mem].
  case_bool_decide as Hd; cbn [negb].
  2: { apply wp_ret. split; [done|]. intros. apply Herr; [done|].
       intros (_ & Hrd & _). by apply Hd. }
  assert (forall x, x = rb_report_data (rp_body (b3_report (m3_body msg3))) ->
    with_report_data (b3_report (m3_body msg3)) x = b3_report (m3_body msg3)) as Hsame.
  { intros x ->. unfold with_report_data. rewrite set_report_data_id. by destruct (b3_report _). }
  rewrite Hsame by exact Hd.
  apply wp_ste_bind, (wp_verify_report P self contexts ready).
  2: { intros e w2 E2 R2. split; [done|]. intros. apply Herr; [done|tauto]. }
  intros w2 E2 Hgen R2.
  apply (wp_with_cmac_prop (in_smk_aek s) (b3_additional_prop (m3_body msg3)) _ 64 Err);
    [by apply public_size|done|done| |].
  2: { intros e w3 E3 R3. split; [congruence|]. intros. apply Herr; [done|tauto]. }
  intros w3 R3. cbn [as_bytes ec256_public_mem].
  rewrite consttime_memeq_array by (done || apply cmac_length).
  case_bool_decide as Hmac; cbn [negb]; apply wp_ret; (split; [done|]);
    intros w4 E4 R4; (split; [congruence|]); intros w5 E5 R5.
  - apply Hok; [done|done|tauto].
  - apply Herr; [done|naive_solver].
Qed.

End initiator.

End specs.
