(* ===== verification/TdhRun.v ===== *)
(** TdhRun: the key exchange as a protocol.

    What a success of each entry point means (authentication), and that two
    honest enclaves on a ready machine complete the exchange with the same
    key.  Both versions of the protocol are covered: [lav2] selects one. *)
From Stdlib Require Import ZArith Lia Strings.Byte.
From stdpp Require Import base numbers list option tactics gmap.
From S2P Require Import Prelude SgxStatus SgxTypes Trts Tse Tcrypto TcryptoSpec ToyMachine.
From S2P Require Import Tdh TdhTarget TdhSpec.
Import Trts.Bounds.

(** * Both versions at once *)
Section versions.
Context `{CryptoMath} `{Machine} `{SpecLayout}.

Definition msg2_good (lav2 : bool) (self : sgx_report_body_t) (s : SgxDhResponder)
    (msg2 : sgx_dh_msg2_t) : Prop :=
  if lav2 then lav2_msg2_checks self s msg2 else msg2_checks self s msg2.

(** The transcript hash in the report of msg3. *)
Definition msg3_hash (lav2 : bool) (s : SgxDhResponder) (msg2 : sgx_dh_msg2_t) : list byte :=
  let pub := ec256_public_bytes (rs_pub_key s) in
  if lav2 then sha256 (pub ++ rb_report_data (rp_body (m2_report msg2)))
  else sha256 (ec256_public_bytes (m2_g_b msg2) ++ pub).

(** The MAC of msg3: [pub] is the responder's public key. *)
Definition msg3_tag (lav2 : bool) (smk : list byte) (r : sgx_report_t)
    (prop : list byte) (pub : sgx_ec256_public_t) : list byte :=
  if lav2 then cmac smk (prop ++ ec256_public_bytes pub)
  else cmac smk (report_bytes r ++ le_bytes 4 (zlen prop) ++ prop).

Definition msg3_good (lav2 : bool) (self : sgx_report_body_t) (s : SgxDhInitiator)
    (msg3 : SgxDhMsg3) : Prop :=
  if lav2 then lav2_msg3_checks self s msg3 else msg3_checks self s msg3.

(** The report data of msg2 as it was reported, and as it is sent. *)
Definition msg2_data (lav2 : bool) (g_a g_b : sgx_ec256_public_t) : list byte :=
  if lav2 then hash_report_data
    (sha256 (spec_bytes SGX_LAV2_PROTO_SPEC ++ ec256_public_bytes g_b))
  else kdf_report_data (sha256 (ec256_public_bytes g_a ++ ec256_public_bytes g_b)).

Definition msg2_sent (lav2 : bool) (r : sgx_report_t) : sgx_report_t :=
  if lav2 then with_report_data r (spec_bytes SGX_LAV2_PROTO_SPEC) else r.

Definition msg2_tag (lav2 : bool) (smk : list byte) (r : sgx_report_t)
    (g_b : sgx_ec256_public_t) : list byte :=
  if lav2 then cmac smk (ec256_public_bytes g_b) else cmac smk (report_bytes r).

End versions.

(** A responder with the keys of the session filled in. *)
Definition responder_keyed (s : SgxDhResponder) (smk shared : list byte) : SgxDhResponder := {|
  rs_state := rs_state s; rs_prv_key := rs_prv_key s; rs_pub_key := rs_pub_key s;
  rs_smk_aek := smk; rs_shared_key := shared |}.

Section runs.
Context `{CryptoMath} `{!CryptoMathLaws} `{Machine} `{!MachineLaws} {W : Type} `{EN : Enclave}.
Context (P : Platform W) (T : Tcrypto W) (self : sgx_report_body_t)
  (contexts : W -> gmap Z context) (ready : W -> Prop).
Context `{!PlatformLaws P self contexts ready} `{!TcryptoLaws T contexts ready}.
Context `{SpecLayout} `{!SpecLayoutLaws}.

(** ** [gen_msg1] *)
Definition gen_msg1_args_ok (a : Addrs) (s : SgxDhResponder) : Prop :=
  rsgx_data_is_within_enclave (a_self a) session_size = true /\
  rsgx_data_is_within_enclave (a_msg_out a) msg1_size = true /\
  rs_state s = SGX_DH_SESSION_STATE_RESET.

Lemma wp_gen_msg1 a s msg1 Q w :
  gen_msg1_args_ok a s ->
  (forall prv w', contexts w' = contexts w -> (ready w -> ready w') ->
    Q (Ok tt,
       {| rs_state := SGX_DH_SESSION_RESPONDER_WAIT_M2; rs_prv_key := prv;
          rs_pub_key := pub_of prv; rs_smk_aek := rs_smk_aek s;
          rs_shared_key := rs_shared_key s |},
       {| m1_g_a := pub_of prv; m1_target := target_of_body self |}) w') ->
  (forall e m w', contexts w' = contexts w -> ~ ready w ->
    Q (Err e, responder_default, m) w') ->
  wp (Responder.gen_msg1 a s msg1) Q w.
Proof.
  intros (Ha1 & Ha2 & Hst) Hok Herr. unfold Responder.gen_msg1.
  rewrite Ha1, Ha2. cbn [negb]. rewrite bool_decide_eq_false_2 by (intros Hn; by apply Hn).
  apply wp_bind, wp_try, (wp_create_report P self contexts ready); [done| |].
  2: { intros e w1 E1 R1. by apply wp_ret, Herr. }
  intros r w1 E1 Eb Ek Em R1.
  assert (report_ok r) as Hr by by apply (report_for_ok P self contexts ready
    target_info_default report_data_default).
  rewrite make_target_info_lav2 by done. cbn iota beta. apply wp_try, wp_ret.
  rewrite Eb, target_of_set_report_data.
  apply (wp_with_ecc T contexts ready).
  2: { intros e w2 E2 R2. apply wp_ret, Herr; [congruence|tauto]. }
  intros p w2 Hp E2 R2. apply wp_try.
  eapply (wp_ecc_create_key_pair T contexts ready); [by rewrite E2, lookup_insert_eq| |].
  - intros prv w3 E3 R3. apply wp_ret. split; [exists EccContext; congruence|].
    intros w4 E4 R4. apply wp_ret, Hok; [congruence|tauto].
  - intros e w3 E3 R3. split; [exists EccContext; congruence|].
    intros w4 E4 R4. apply wp_ret, Herr; [congruence|tauto].
Qed.

(** ** [proc_msg2] *)
Lemma wp_verify_message2 lav2 s msg2 Q w :
  ec256_public_ok (rs_pub_key s) -> msg2_ok msg2 ->
  (forall w', contexts w' = contexts w -> msg2_good lav2 self s msg2 ->
    (ready w -> ready w') -> Q (Ok tt) w') ->
  (forall e w', contexts w' = contexts w -> ~ (ready w /\ msg2_good lav2 self s msg2) ->
    Q (Err e) w') ->
  wp (if lav2 then Responder.lav2_verify_message2 s msg2
      else Responder.dh_verify_message2 s msg2) Q w.
Proof.
  intros Hp Hm Hok Herr. destruct lav2; simpl in *.
  - by apply (wp_lav2_verify_message2 P T self contexts ready).
  - by apply (wp_dh_verify_message2 P T self contexts ready).
Qed.

Lemma wp_generate_message3 lav2 s msg2 msg3 Q w :
  ec256_public_ok (rs_pub_key s) -> msg2_ok msg2 ->
  let prop := b3_additional_prop (m3_body msg3) in
  zlen prop <= u32_max ->
  (forall r w', contexts w' = contexts w -> (ready w -> ready w') ->
    report_to_peer self msg2 (msg3_hash lav2 s msg2) r ->
    Q (Ok tt, {| m3_cmac := msg3_tag lav2 (rs_smk_aek s) r prop (rs_pub_key s);
                 m3_body := {| b3_report := r; b3_additional_prop := prop |} |}) w') ->
  (forall e m w', contexts w' = contexts w -> ~ ready w -> Q (Err e, m) w') ->
  wp (if lav2 then Responder.lav2_generate_message3 s msg2 msg3
      else Responder.dh_generate_message3 s msg2 msg3) Q w.
Proof.
  intros Hp Hm prop Hl Hok Herr. destruct lav2; simpl in *.
  - by apply (wp_lav2_generate_message3 P T self contexts ready).
  - by apply (wp_dh_generate_message3 P T self contexts ready).
Qed.

(** The arguments are where they should be and the session waits for msg2. *)
Definition proc_msg2_args_ok (a : Addrs) (f : Responder.Frame) : Prop :=
  rsgx_data_is_within_enclave (a_self a) session_size = true /\
  Responder.bad_arguments a = false /\
  Responder.bad_additional_prop a (b3_additional_prop (m3_body (Responder.f_msg3 f))) = false /\
  rs_state (Responder.f_self f) = SGX_DH_SESSION_RESPONDER_WAIT_M2.

Lemma prop_fits a prop : Responder.bad_additional_prop a prop = false -> zlen prop <= u32_max.
Proof.
  unfold Responder.bad_additional_prop, dh_msg3_size, u32_max. pose proof (zlen_nonneg prop).
  rewrite !Z.gtb_ltb. destruct (Z.ltb_spec 0 (zlen prop)); simpl; [|lia].
  rewrite orb_false_iff, Z.ltb_ge. lia.
Qed.

Lemma wp_proc_msg2 lav2 a msg2 f Q w :
  proc_msg2_args_ok a f -> msg2_ok msg2 ->
  ec256_public_ok (rs_pub_key (Responder.f_self f)) ->
  let shared := ecdh (rs_prv_key (Responder.f_self f)) (m2_g_b msg2) in
  let smk := kdf shared EC_SMK_LABEL in
  let s := responder_keyed (Responder.f_self f) smk shared in
  let prop := b3_additional_prop (m3_body (Responder.f_msg3 f)) in
  (forall r w', contexts w' = contexts w -> (ready w -> ready w') ->
    msg2_good lav2 self s msg2 -> report_to_peer self msg2 (msg3_hash lav2 s msg2) r ->
    Q (Ok tt, {|
      Responder.f_self := responder_in SGX_DH_SESSION_ACTIVE;
      Responder.f_msg3 := {|
        m3_cmac := msg3_tag lav2 smk r prop (rs_pub_key s);
        m3_body := {| b3_report := r; b3_additional_prop := prop |} |};
      Responder.f_aek := kdf shared EC_AEK_LABEL;
      Responder.f_identity := Responder.initiator_identity (Responder.f_identity f)
        (rp_body (m2_report msg2)) |}) w') ->
  (forall e f' w', contexts w' = contexts w ->
    ~ (ready w /\ point_valid (m2_g_b msg2) /\ msg2_good lav2 self s msg2) ->
    Q (Err e, f') w') ->
  wp (Responder.proc_msg2 lav2 a msg2 f) Q w.
Proof.
  intros (Ha1 & Ha2 & Ha3 & Hst) Hm2 Hpub shared smk s prop Hok Herr.
  unfold Responder.proc_msg2. rewrite Ha1, Ha2, Ha3. cbn [negb].
  rewrite bool_decide_eq_false_2 by (intros Hn; by apply Hn).
  pose proof (prop_fits a prop Ha3) as Hprop.
  apply (wp_with_ecc T contexts ready).
  2: { intros e w1 E1 R1. apply Herr; tauto. }
  intros p w1 Hp E1 R1. apply wp_try.
  eapply (wp_ecc_shared T contexts ready); [by rewrite E1, lookup_insert_eq| |].
  2: { intros e w2 E2 R2. split; [exists EccContext; congruence|].
       intros. apply Herr; [done|tauto]. }
  intros w2 E2 R2. fold shared. cbn [rs_shared_key].
  apply wp_try, (wp_derive_key T contexts ready); [apply ecdh_length| |].
  2: { intros e w3 E3 R3. split; [exists EccContext; congruence|].
       intros. apply Herr; [done|tauto]. }
  intros w3 E3 R3. fold smk.
  apply wp_try, wp_verify_message2; [done|done| |].
  2: { intros e w4 E4 R4. split; [exists EccContext; congruence|].
       intros. apply Herr; [done|]. intros (? & ? & ?). apply R4. split; [tauto|done]. }
  intros w4 E4 Hgood R4. cbn [Responder.f_msg3 Responder.set_identity Responder.set_self].
  apply wp_bind, wp_generate_message3; [done|done|done| |].
  2: { intros e m w5 E5 R5. apply wp_try, wp_ret. split; [exists EccContext; congruence|].
       intros. apply Herr; [done|tauto]. }
  intros r w5 E5 R5 Hrep. apply wp_try, wp_ret. cbn [rs_shared_key].
  apply wp_try, (wp_derive_key T contexts ready); [apply ecdh_length| |].
  - intros w6 E6 R6. apply wp_ret. split; [exists EccContext; congruence|].
    intros w7 E7 R7. apply Hok; [done|tauto|done|done].
  - intros e w6 E6 R6. split; [exists EccContext; congruence|].
    intros. apply Herr; [done|tauto].
Qed.

(** ** [proc_msg1] *)
Definition proc_msg1_args_ok (a : Addrs) (s : SgxDhInitiator) : Prop :=
  rsgx_data_is_within_enclave (a_self a) session_size = true /\
  rsgx_data_is_within_enclave (a_msg_in a) msg1_size = true /\
  rsgx_data_is_within_enclave (a_msg_out a) msg2_size = true /\
  in_state s = SGX_DH_SESSION_INITIATOR_WAIT_M1.

Lemma wp_generate_message2 lav2 s msg1 Q w :
  ec256_public_ok (in_pub_key s) -> ec256_public_ok (m1_g_a msg1) ->
  (forall r w', contexts w' = contexts w -> (ready w -> ready w') ->
    report_for self (m1_target msg1) (msg2_data lav2 (m1_g_a msg1) (in_pub_key s)) r ->
    Q (Ok tt, {| m2_g_b := in_pub_key s; m2_report := msg2_sent lav2 r;
                 m2_cmac := msg2_tag lav2 (in_smk_aek s) r (in_pub_key s) |}) w') ->
  (forall e m w', contexts w' = contexts w -> ~ ready w -> Q (Err e, m) w') ->
  wp (if lav2 then Initiator.lav2_generate_message2 s msg1
      else Initiator.dh_generate_message2 s msg1) Q w.
Proof.
  intros Hp Hg Hok Herr. destruct lav2; simpl in *.
  - by apply (wp_lav2_generate_message2 P T self contexts ready).
  - by apply (wp_dh_generate_message2 P T self contexts ready).
Qed.

Lemma wp_proc_msg1 lav2 a msg1 s msg2 Q w :
  proc_msg1_args_ok a s -> ec256_public_ok (m1_g_a msg1) ->
  (forall prv r w', contexts w' = contexts w -> (ready w -> ready w') ->
    let shared := ecdh prv (m1_g_a msg1) in
    let smk := kdf shared EC_SMK_LABEL in
    report_for self (m1_target msg1) (msg2_data lav2 (m1_g_a msg1) (pub_of prv)) r ->
    Q (Ok tt,
       {| in_state := SGX_DH_SESSION_INITIATOR_WAIT_M3; in_smk_aek := smk;
          in_pub_key := pub_of prv; in_peer_pub_key := m1_g_a msg1;
          in_shared_key := shared |},
       {| m2_g_b := pub_of prv; m2_report := msg2_sent lav2 r;
          m2_cmac := msg2_tag lav2 smk r (pub_of prv) |}) w') ->
  (forall e m w', contexts w' = contexts w -> ~ (ready w /\ point_valid (m1_g_a msg1)) ->
    Q (Err e, initiator_in SGX_DH_SESSION_STATE_ERROR, m) w') ->
  wp (Initiator.proc_msg1 lav2 a msg1 s msg2) Q w.
Proof.
  intros (Ha1 & Ha2 & Ha3 & Hst) Hg Hok Herr. unfold Initiator.proc_msg1.
  rewrite Ha1, Ha2, Ha3. cbn [negb orb].
  rewrite bool_decide_eq_false_2 by (intros Hn; by apply Hn).
  apply (wp_with_ecc T contexts ready).
  2: { intros e w1 E1 R1. apply Herr; tauto. }
  intros p w1 Hp E1 R1. apply wp_try.
  eapply (wp_ecc_create_key_pair T contexts ready); [by rewrite E1, lookup_insert_eq| |].
  2: { intros e w2 E2 R2. split; [exists EccContext; congruence|].
       intros. apply Herr; [done|tauto]. }
  intros prv w2 E2 R2. cbn iota beta. apply wp_try.
  eapply (wp_ecc_shared T contexts ready); [by rewrite E2, E1, lookup_insert_eq| |].
  2: { intros e w3 E3 R3. split; [exists EccContext; congruence|].
       intros. apply Herr; [done|tauto]. }
  intros w3 E3 R3. apply wp_try, (wp_derive_key T contexts ready); [apply ecdh_length| |].
  2: { intros e w4 E4 R4. split; [exists EccContext; congruence|].
       intros. apply Herr; [done|tauto]. }
  intros w4 E4 R4. apply wp_bind, wp_generate_message2; [apply pub_of_valid|done| |].
  - intros r w5 E5 R5 Hr. apply wp_ret. split; [exists EccContext; congruence|].
    intros w6 E6 R6. apply (Hok prv r); [done|tauto|done].
  - intros e m w5 E5 R5. apply wp_ret. split; [exists EccContext; congruence|].
    intros. apply Herr; [done|tauto].
Qed.

(** ** [proc_msg3] *)
Definition proc_msg3_args_ok (a : Addrs) (msg3 : SgxDhMsg3) (f : Initiator.Frame) : Prop :=
  rsgx_data_is_within_enclave (a_self a) session_size = true /\
  rsgx_raw_is_within_enclave (a_msg_in a) msg3_object_size = true /\
  rsgx_data_is_within_enclave (a_aek a) aek_size = true /\
  rsgx_data_is_within_enclave (a_identity a) identity_size = true /\
  Responder.bad_additional_prop a (b3_additional_prop (m3_body msg3)) = false /\
  in_state (Initiator.f_self f) = SGX_DH_SESSION_INITIATOR_WAIT_M3.

(** What the Rust types guarantee of an initiator and of msg3. *)
Definition initiator_ok (s : SgxDhInitiator) : Prop :=
  ec256_public_ok (in_pub_key s) /\ ec256_public_ok (in_peer_pub_key s) /\
  length (in_shared_key s) = 32%nat.

Definition msg3_typed (m : SgxDhMsg3) : Prop :=
  length (m3_cmac m) = 16%nat /\ report_ok (b3_report (m3_body m)).

Lemma wp_proc_msg3 lav2 a msg3 f Q w :
  proc_msg3_args_ok a msg3 f -> initiator_ok (Initiator.f_self f) -> msg3_typed msg3 ->
  let s := Initiator.f_self f in
  (forall w', contexts w' = contexts w -> (ready w -> ready w') -> msg3_good lav2 self s msg3 ->
    Q (Ok tt, {|
      Initiator.f_self := initiator_in SGX_DH_SESSION_ACTIVE;
      Initiator.f_aek := kdf (in_shared_key s) EC_AEK_LABEL;
      Initiator.f_identity := Initiator.responder_identity (Initiator.f_identity f)
        (rp_body (b3_report (m3_body msg3))) |}) w') ->
  (forall e f' w', contexts w' = contexts w -> ~ (ready w /\ msg3_good lav2 self s msg3) ->
    Q (Err e, f') w') ->
  wp (Initiator.proc_msg3 lav2 a msg3 f) Q w.
Proof.
  intros (Ha1 & Ha2 & Ha3 & Ha4 & Ha5 & Hst) (Hp & Hpp & Hsh) (Hc & Hr) s Hok Herr.
  unfold Initiator.proc_msg3. rewrite Ha1, Ha2, Ha3, Ha4, Ha5. cbn [negb orb].
  rewrite bool_decide_eq_false_2 by (intros Hn; by apply Hn).
  pose proof (prop_fits a _ Ha5) as Hprop. fold s.
  assert (forall Q' w0, (forall w', contexts w' = contexts w0 -> msg3_good lav2 self s msg3 ->
      (ready w0 -> ready w') -> Q' (Ok tt) w') ->
    (forall e w', contexts w' = contexts w0 -> ~ (ready w0 /\ msg3_good lav2 self s msg3) ->
      Q' (Err e) w') ->
    wp (if lav2 then Initiator.lav2_verify_message3 s msg3
        else Initiator.dh_verify_message3 s msg3) Q' w0) as Hverify.
  { intros Q' w0 H1' H2'. destruct lav2; simpl in *.
    - by apply (wp_lav2_verify_message3 P T self contexts ready).
    - by apply (wp_dh_verify_message3 P T self contexts ready). }
  apply wp_try, Hverify.
  2: { intros e w1 E1 R1. by apply Herr. }
  intros w1 E1 Hgood R1. apply wp_try, (wp_derive_key T contexts ready); [done| |].
  - intros w2 E2 R2. apply wp_ret, Hok; [congruence|tauto|done].
  - intros e w2 E2 R2. apply Herr; [congruence|tauto].
Qed.

End runs.

(** * Honest messages pass the checks *)
Section honest.
Context `{CryptoMath} `{!CryptoMathLaws} `{Machine} `{!MachineLaws} `{SpecLayout}
  `{!SpecLayoutLaws}.

Lemma take_hash_report_data h : length h = 32%nat -> take 32 (hash_report_data h) = h.
Proof. intros Hh. unfold hash_report_data. by rewrite take_app_length'. Qed.

Lemma kdf_report_data_parts h : length h = 32%nat ->
  slice 32 2 (kdf_report_data h) = AES_CMAC_KDF_ID /\ take 32 (kdf_report_data h) = h.
Proof.
  intros Hh. unfold kdf_report_data. split; [|by rewrite take_app_length'].
  rewrite slice_skip by lia. by rewrite Hh.
Qed.

(** msg2 of an honest initiator [selfB], as the responder [selfA] sees it. *)
Lemma msg2_good_honest lav2 selfA selfB s r g_b :
  let d := msg2_data lav2 (rs_pub_key s) g_b in
  report_for selfB (target_of_body selfA) d r ->
  msg2_good lav2 selfA s {|
    m2_g_b := g_b; m2_report := msg2_sent lav2 r;
    m2_cmac := msg2_tag lav2 (rs_smk_aek s) r g_b |}.
Proof.
  intros d (Eb & Ek & Em). subst d. destruct lav2; simpl in *.
  - unfold lav2_msg2_checks. simpl. rewrite Eb in Em.
    rewrite spec_of_to_bytes by apply lav2_spec_ok. split_and!; try done.
    by rewrite Em, Eb, set_report_data_twice.
  - unfold msg2_checks. simpl. rewrite Em, Eb. simpl.
    destruct (kdf_report_data_parts (sha256 (ec256_public_bytes (rs_pub_key s) ++
      ec256_public_bytes g_b)) (sha256_length _)) as [-> ->]. done.
Qed.

(** What the responder sees of the initiator's identity. *)
Lemma msg2_sent_body lav2 selfB ti d r :
  report_for selfB ti d r ->
  exists d', rp_body (msg2_sent lav2 r) = set_report_data selfB d'.
Proof.
  intros (Eb & _). destruct lav2; simpl; rewrite Eb; eauto.
Qed.

Lemma msg2_ok_honest lav2 selfB ti b r smk g_a :
  report_body_ok selfB ->
  report_for selfB ti (msg2_data lav2 g_a (pub_of b)) r ->
  msg2_ok {| m2_g_b := pub_of b; m2_report := msg2_sent lav2 r;
             m2_cmac := msg2_tag lav2 smk r (pub_of b) |}.
Proof.
  intros Hs (Eb & Ek & Em).
  pose proof (spec_bytes_length _ lav2_spec_ok) as Hl.
  assert (length (msg2_data lav2 g_a (pub_of b)) = 64%nat) as Hd.
  { destruct lav2; unfold msg2_data, hash_report_data, kdf_report_data;
      by rewrite length_app, sha256_length. }
  assert (report_body_ok (rp_body r)) as Hb by (rewrite Eb; by apply set_report_data_ok).
  split_and!; simpl; [apply pub_of_valid| |destruct lav2; apply cmac_length].
  destruct lav2; unfold report_ok; simpl; rewrite Em, report_mac_length;
    (split_and!; [|done|done]); [by apply set_report_data_ok|done].
Qed.

(** msg3 of an honest responder [selfA], as the initiator [selfB] sees it. *)
Lemma msg3_good_honest (lav2 : bool) selfA selfB sA sB msg2 r prop d' :
  rp_body (m2_report msg2) = set_report_data selfB d' ->
  (if lav2 then d' = spec_bytes SGX_LAV2_PROTO_SPEC else True) ->
  m2_g_b msg2 = in_pub_key sB -> rs_pub_key sA = in_peer_pub_key sB ->
  rs_smk_aek sA = in_smk_aek sB ->
  report_to_peer selfA msg2 (msg3_hash lav2 sA msg2) r ->
  msg3_good lav2 selfB sB {|
    m3_cmac := msg3_tag lav2 (rs_smk_aek sA) r prop (rs_pub_key sA);
    m3_body := {| b3_report := r; b3_additional_prop := prop |} |}.
Proof.
  intros Ed Hd Eg Ep Es (Eb & Ek & Em). rewrite Ed, target_of_set_report_data in Em.
  unfold msg3_good, msg3_hash in *. destruct lav2.
  - unfold lav2_msg3_checks, msg3_tag. simpl. rewrite Em, <- Ep, <- Es. subst d'.
    rewrite Eb, Ed. done.
  - unfold msg3_checks, msg3_tag. simpl. rewrite Em, <- Ep, <- Es, <- Eg.
    split_and!; [done|done|]. rewrite Eb. simpl. by apply take_hash_report_data, sha256_length.
Qed.

End honest.

(** * The exchange *)

(** Where the two parties keep their objects, call by call. *)
Record RunAddrs := {
  ra_gen_msg1 : Addrs;
  ra_proc_msg1 : Addrs;
  ra_proc_msg2 : Addrs;
  ra_proc_msg3 : Addrs
}.

(** The results of the four calls. *)
Record RunResult := {
  rr_results : list SgxError;
  rr_responder : Responder.Frame;
  rr_initiator : Initiator.Frame
}.

(** The responder runs in world [WA], the initiator in [WB]; the messages are
    carried over unchanged. *)
Definition exchange {WA WB} `{SpecLayout} (EA EB : Enclave) (PA : Platform WA)
    (PB : Platform WB) (TA : Tcrypto WA) (TB : Tcrypto WB) (lav2 : bool) (ad : RunAddrs)
    (msg1_0 : sgx_dh_msg1_t) (msg2_0 : sgx_dh_msg2_t) (fA0 : Responder.Frame)
    (fB0 : Initiator.Frame) (wA : WA) (wB : WB) : RunResult * WA * WB :=
  let '((r1, sA, msg1), wA) :=
    Responder.gen_msg1 (EN := EA) (ra_gen_msg1 ad) (Responder.f_self fA0) msg1_0 wA in
  let '((r2, sB, msg2), wB) :=
    Initiator.proc_msg1 (EN := EB) lav2 (ra_proc_msg1 ad) msg1 (Initiator.f_self fB0) msg2_0 wB in
  let '((r3, fA), wA) :=
    Responder.proc_msg2 (EN := EA) lav2 (ra_proc_msg2 ad) msg2 (Responder.set_self fA0 sA) wA in
  let '((r4, fB), wB) :=
    Initiator.proc_msg3 (EN := EB) lav2 (ra_proc_msg3 ad) (Responder.f_msg3 fA)
      (Initiator.set_self fB0 sB) wB in
  ({| rr_results := [r1; r2; r3; r4]; rr_responder := fA; rr_initiator := fB |}, wA, wB).

(** Every object of the run is inside its owner's enclave. *)
Definition run_addrs_ok (EA EB : Enclave) (ad : RunAddrs) (prop : list byte) : Prop :=
  gen_msg1_args_ok (EN := EA) (ra_gen_msg1 ad) responder_default /\
  proc_msg1_args_ok (EN := EB) (ra_proc_msg1 ad) initiator_default /\
  @rsgx_data_is_within_enclave EA (a_self (ra_proc_msg2 ad)) session_size = true /\
  Responder.bad_arguments (EN := EA) (ra_proc_msg2 ad) = false /\
  Responder.bad_additional_prop (EN := EA) (ra_proc_msg2 ad) prop = false /\
  @rsgx_data_is_within_enclave EB (a_self (ra_proc_msg3 ad)) session_size = true /\
  @rsgx_raw_is_within_enclave EB (a_msg_in (ra_proc_msg3 ad)) msg3_object_size = true /\
  @rsgx_data_is_within_enclave EB (a_aek (ra_proc_msg3 ad)) aek_size = true /\
  @rsgx_data_is_within_enclave EB (a_identity (ra_proc_msg3 ad)) identity_size = true /\
  Responder.bad_additional_prop (EN := EB) (ra_proc_msg3 ad) prop = false.

Section agreement.
Context `{CryptoMath} `{!CryptoMathLaws} `{Machine} `{!MachineLaws} `{SpecLayout}
  `{!SpecLayoutLaws} {WA WB : Type} (EA EB : Enclave) (PA : Platform WA) (PB : Platform WB)
  (TA : Tcrypto WA) (TB : Tcrypto WB) (selfA selfB : sgx_report_body_t)
  (ctxA : WA -> gmap Z context) (ctxB : WB -> gmap Z context)
  (readyA : WA -> Prop) (readyB : WB -> Prop).
Context `{!PlatformLaws PA selfA ctxA readyA} `{!TcryptoLaws TA ctxA readyA}
  `{!PlatformLaws PB selfB ctxB readyB} `{!TcryptoLaws TB ctxB readyB}.

(** The result of a call that a [wp] fact describes. *)
Lemma wp_elim {S A} (m : ST S A) (Q : A -> S -> Prop) s :
  wp m Q s -> exists a s', m s = (a, s') /\ Q a s'.
Proof. unfold wp. destruct (m s) as [a s']. eauto. Qed.

(** What both parties end with. *)
Definition agreed (fA0 : Responder.Frame) (fB0 : Initiator.Frame) (rr : RunResult) : Prop :=
  rr_results rr = [Ok tt; Ok tt; Ok tt; Ok tt] /\
  Responder.f_self (rr_responder rr) = responder_in SGX_DH_SESSION_ACTIVE /\
  Initiator.f_self (rr_initiator rr) = initiator_in SGX_DH_SESSION_ACTIVE /\
  Responder.f_aek (rr_responder rr) = Initiator.f_aek (rr_initiator rr) /\
  Responder.f_identity (rr_responder rr) =
    Responder.initiator_identity (Responder.f_identity fA0) selfB /\
  Initiator.f_identity (rr_initiator rr) =
    Initiator.responder_identity (Initiator.f_identity fB0) selfA.

(** The responder after msg1, and the initiator with msg2 after it. *)
Definition waiting_responder (a : list byte) : SgxDhResponder := {|
  rs_state := SGX_DH_SESSION_RESPONDER_WAIT_M2; rs_prv_key := a;
  rs_pub_key := pub_of a; rs_smk_aek := zeros 16; rs_shared_key := zeros 32 |}.

Definition waiting_initiator (a b : list byte) : SgxDhInitiator :=
  let shared := ecdh b (pub_of a) in {|
  in_state := SGX_DH_SESSION_INITIATOR_WAIT_M3; in_smk_aek := kdf shared EC_SMK_LABEL;
  in_pub_key := pub_of b; in_peer_pub_key := pub_of a; in_shared_key := shared |}.

Definition honest_msg2 (lav2 : bool) (a b : list byte) (r : sgx_report_t) : sgx_dh_msg2_t := {|
  m2_g_b := pub_of b; m2_report := msg2_sent lav2 r;
  m2_cmac := msg2_tag lav2 (kdf (ecdh b (pub_of a)) EC_SMK_LABEL) r (pub_of b) |}.

Lemma run_gen_msg1 ad msg1_0 wA :
  gen_msg1_args_ok (EN := EA) ad responder_default -> readyA wA ->
  exists a wA', ctxA wA' = ctxA wA /\ readyA wA' /\
    Responder.gen_msg1 (EN := EA) ad responder_default msg1_0 wA =
    ((Ok tt, waiting_responder a,
      {| m1_g_a := pub_of a; m1_target := target_of_body selfA |}), wA').
Proof.
  intros Had R. assert (wp (Responder.gen_msg1 (EN := EA) ad responder_default msg1_0)
    (fun x w' => exists a, ctxA w' = ctxA wA /\ readyA w' /\
      x = (Ok tt, waiting_responder a,
           {| m1_g_a := pub_of a; m1_target := target_of_body selfA |})) wA) as Hwp.
  { apply (wp_gen_msg1 PA TA selfA ctxA readyA); [done| |done].
    intros a w' C R'. exists a. split_and!; [done|tauto|done]. }
  apply wp_elim in Hwp as (x & w' & E & a & C & R' & ->). eauto 6.
Qed.

Lemma run_proc_msg1 lav2 ad a msg2_0 wB :
  proc_msg1_args_ok (EN := EB) ad initiator_default -> readyB wB ->
  exists b r wB', ctxB wB' = ctxB wB /\ readyB wB' /\
    report_for selfB (target_of_body selfA) (msg2_data lav2 (pub_of a) (pub_of b)) r /\
    Initiator.proc_msg1 (EN := EB) lav2 ad
      {| m1_g_a := pub_of a; m1_target := target_of_body selfA |} initiator_default msg2_0 wB =
    ((Ok tt, waiting_initiator a b, honest_msg2 lav2 a b r), wB').
Proof.
  intros Had R. assert (wp (Initiator.proc_msg1 (EN := EB) lav2 ad
      {| m1_g_a := pub_of a; m1_target := target_of_body selfA |} initiator_default msg2_0)
    (fun x w' => exists b r, ctxB w' = ctxB wB /\ readyB w' /\
      report_for selfB (target_of_body selfA) (msg2_data lav2 (pub_of a) (pub_of b)) r /\
      x = (Ok tt, waiting_initiator a b, honest_msg2 lav2 a b r)) wB) as Hwp.
  { apply (wp_proc_msg1 PB TB selfB ctxB readyB); [done|apply pub_of_valid| |].
    - intros b r w' C R' sh smk Hr. exists b, r. split_and!; [done|tauto|done|done].
    - intros e m w' _ Hn. destruct Hn. split; [done|apply pub_of_valid]. }
  apply wp_elim in Hwp as (x & w' & E & b & r & C & R' & Hr & ->). eauto 9.
Qed.

(** The responder's side of msg2: the frame it ends with. *)
Definition responder_done (lav2 : bool) (f : Responder.Frame) (a b : list byte)
    (r3 : sgx_report_t) : Responder.Frame :=
  let shared := ecdh b (pub_of a) in
  let prop := b3_additional_prop (m3_body (Responder.f_msg3 f)) in {|
    Responder.f_self := responder_in SGX_DH_SESSION_ACTIVE;
    Responder.f_msg3 := {|
      m3_cmac := msg3_tag lav2 (kdf shared EC_SMK_LABEL) r3 prop (pub_of a);
      m3_body := {| b3_report := r3; b3_additional_prop := prop |} |};
    Responder.f_aek := kdf shared EC_AEK_LABEL;
    Responder.f_identity := Responder.initiator_identity (Responder.f_identity f) selfB |}.

(** The keyed responder of the run. *)
Definition run_keyed (a b : list byte) : SgxDhResponder :=
  responder_keyed (waiting_responder a) (kdf (ecdh b (pub_of a)) EC_SMK_LABEL)
    (ecdh b (pub_of a)).

Lemma run_proc_msg2 lav2 ad a b r f wA :
  let prop := b3_additional_prop (m3_body (Responder.f_msg3 f)) in
  proc_msg2_args_ok (EN := EA) ad (Responder.set_self f (waiting_responder a)) ->
  report_for selfB (target_of_body selfA) (msg2_data lav2 (pub_of a) (pub_of b)) r ->
  readyA wA ->
  exists r3 wA', ctxA wA' = ctxA wA /\ readyA wA' /\
    report_to_peer selfA (honest_msg2 lav2 a b r)
      (msg3_hash lav2 (run_keyed a b) (honest_msg2 lav2 a b r)) r3 /\
    Responder.proc_msg2 (EN := EA) lav2 ad (honest_msg2 lav2 a b r)
      (Responder.set_self f (waiting_responder a)) wA =
    ((Ok tt, responder_done lav2 f a b r3), wA').
Proof.
  intros prop Had Hr R.
  pose proof (self_ok (PlatformLaws := _ : PlatformLaws PB selfB ctxB readyB)) as HsB.
  pose proof (msg2_ok_honest lav2 selfB _ b r (kdf (ecdh b (pub_of a)) EC_SMK_LABEL) (pub_of a)
    HsB Hr) as Hm2.
  assert (wp (Responder.proc_msg2 (EN := EA) lav2 ad (honest_msg2 lav2 a b r)
      (Responder.set_self f (waiting_responder a)))
    (fun x w' => exists r3, ctxA w' = ctxA wA /\ readyA w' /\
      report_to_peer selfA (honest_msg2 lav2 a b r)
        (msg3_hash lav2 (run_keyed a b) (honest_msg2 lav2 a b r)) r3 /\
      x = (Ok tt, responder_done lav2 f a b r3)) wA) as Hwp.
  { apply (wp_proc_msg2 PA TA selfA ctxA readyA); [done|done|apply pub_of_valid|..];
      cbn [Responder.set_self Responder.f_self rs_prv_key waiting_responder m2_g_b honest_msg2];
      rewrite ecdh_comm.
    - intros r3 w' C R' Hgood Hrep. exists r3. split_and!; [done|tauto|done|].
      destruct (msg2_sent_body lav2 selfB _ _ r Hr) as [d' Hd'].
      unfold honest_msg2. cbn [m2_report]. rewrite Hd'. done.
    - intros e f' w' _ Hn. destruct Hn. split_and!; [done|apply pub_of_valid|].
      by apply (msg2_good_honest lav2 selfA selfB (run_keyed a b) r (pub_of b)). }
  apply wp_elim in Hwp as (x & w' & E & r3 & C & R' & Hrep & ->). eauto 9.
Qed.

Lemma run_proc_msg3 lav2 ad a b r r3 f fB wB :
  let msg2 := honest_msg2 lav2 a b r in
  let msg3 := Responder.f_msg3 (responder_done lav2 f a b r3) in
  proc_msg3_args_ok (EN := EB) ad msg3 (Initiator.set_self fB (waiting_initiator a b)) ->
  report_for selfB (target_of_body selfA) (msg2_data lav2 (pub_of a) (pub_of b)) r ->
  report_to_peer selfA msg2 (msg3_hash lav2 (run_keyed a b) msg2) r3 -> readyB wB ->
  exists wB', ctxB wB' = ctxB wB /\
    Initiator.proc_msg3 (EN := EB) lav2 ad msg3
      (Initiator.set_self fB (waiting_initiator a b)) wB =
    ((Ok tt, {| Initiator.f_self := initiator_in SGX_DH_SESSION_ACTIVE;
       Initiator.f_aek := kdf (ecdh b (pub_of a)) EC_AEK_LABEL;
       Initiator.f_identity :=
         Initiator.responder_identity (Initiator.f_identity fB) selfA |}), wB').
Proof.
  intros msg2 msg3 Had Hr Hrep R.
  assert (report_ok r3) as Hr3.
  { apply (own_report_ok PA selfA ctxA readyA msg2 (msg3_hash lav2 (run_keyed a b) msg2));
      [apply _| |done].
    unfold msg3_hash. destruct lav2; apply sha256_length. }
  assert (msg3_good lav2 selfB (waiting_initiator a b) msg3) as Hgood.
  { apply (msg3_good_honest lav2 selfA selfB (run_keyed a b) (waiting_initiator a b) msg2 r3 _
      (if lav2 then spec_bytes SGX_LAV2_PROTO_SPEC
       else msg2_data lav2 (pub_of a) (pub_of b))); try done.
    - destruct Hr as (Eb & _). destruct lav2; simpl; rewrite Eb; done.
    - by destruct lav2. }
  assert (wp (Initiator.proc_msg3 (EN := EB) lav2 ad msg3
      (Initiator.set_self fB (waiting_initiator a b)))
    (fun x w' => ctxB w' = ctxB wB /\
      x = (Ok tt, {| Initiator.f_self := initiator_in SGX_DH_SESSION_ACTIVE;
       Initiator.f_aek := kdf (ecdh b (pub_of a)) EC_AEK_LABEL;
       Initiator.f_identity :=
         Initiator.responder_identity (Initiator.f_identity fB) selfA |})) wB) as Hwp.
  { apply (wp_proc_msg3 PB TB selfB ctxB readyB); [done| | | |].
    - split_and!; [apply pub_of_valid|apply pub_of_valid|apply ecdh_length].
    - split; [|done]. simpl. unfold msg3_tag. destruct lav2; apply cmac_length.
    - intros w' C R' _. split; [done|]. destruct Hrep as (Eb & _).
      cbn [msg3 responder_done Responder.f_msg3 m3_body b3_report]. by rewrite Eb.
    - intros e f' w' _ Hn. by destruct Hn. }
  apply wp_elim in Hwp as (x & w' & E & C & ->). eauto.
Qed.

End agreement.

(** C1. Honest runs agree: a responder and an initiator that start fresh, keep
    their objects inside their enclaves and exchange the three messages
    unchanged on a ready machine all succeed, in both versions of the
    protocol, with any additional property in msg3.  Both sessions become
    ACTIVE with their key material erased, both hold the same session key,
    each has the other's identity, and no crypto context is left open. *)
Theorem honest_exchange_agrees `{CryptoMath} `{!CryptoMathLaws} `{Machine} `{!MachineLaws}
    `{SpecLayout} `{!SpecLayoutLaws} {WA WB : Type} (EA EB : Enclave)
    (PA : Platform WA) (PB : Platform WB) (TA : Tcrypto WA) (TB : Tcrypto WB)
    (selfA selfB : sgx_report_body_t) (ctxA : WA -> gmap Z context)
    (ctxB : WB -> gmap Z context) (readyA : WA -> Prop) (readyB : WB -> Prop)
    `{!PlatformLaws PA selfA ctxA readyA} `{!TcryptoLaws TA ctxA readyA}
    `{!PlatformLaws PB selfB ctxB readyB} `{!TcryptoLaws TB ctxB readyB}
    lav2 ad msg1_0 msg2_0 fA0 fB0 wA wB :
  Responder.f_self fA0 = responder_default -> Initiator.f_self fB0 = initiator_default ->
  run_addrs_ok EA EB ad (b3_additional_prop (m3_body (Responder.f_msg3 fA0))) ->
  readyA wA -> readyB wB ->
  let '(rr, wA', wB') :=
    exchange EA EB PA PB TA TB lav2 ad msg1_0 msg2_0 fA0 fB0 wA wB in
  agreed selfA selfB fA0 fB0 rr /\ ctxA wA' = ctxA wA /\ ctxB wB' = ctxB wB.
Proof.
  intros EsA EsB Had RA RB. unfold exchange. rewrite EsA, EsB.
  destruct Had as (A1 & A2 & A3 & A4 & A5 & A6 & A7 & A8 & A9 & A10).
  destruct (run_gen_msg1 EA PA TA selfA ctxA readyA (ra_gen_msg1 ad) msg1_0 wA)
    as (a & wA1 & C1 & R1 & ->); [done..|].
  destruct (run_proc_msg1 EB PB TB selfA selfB ctxB readyB lav2 (ra_proc_msg1 ad) a msg2_0 wB)
    as (b & r & wB1 & C2 & R2 & Hr & ->); [done..|].
  destruct (run_proc_msg2 EA PA PB TA selfA selfB ctxA ctxB readyA readyB lav2
    (ra_proc_msg2 ad) a b r fA0 wA1) as (r3 & wA2 & C3 & R3 & Hrep & ->); [done..|].
  destruct (run_proc_msg3 EB PA PB TB selfA selfB ctxA ctxB readyA readyB lav2
    (ra_proc_msg3 ad) a b r r3 fA0 fB0 wB1) as (wB2 & C4 & ->); [done..|].
  split_and!; [done|congruence|congruence].
Qed.

(** * A run on the concrete machine *)

(** The layout in declaration order. *)
#[export] Instance declared_layout : SpecLayout := {|
  spec_bytes s := ps_signature s ++ le_bytes 1 (ps_ver s) ++ le_bytes 1 (ps_rev s) ++
    mjoin (le_bytes 2 <$> ps_target_spec s);
  spec_of_bytes bs := {|
    ps_signature := slice 0 6 bs; ps_ver := le_val (slice 6 1 bs);
    ps_rev := le_val (slice 7 1 bs);
    ps_target_spec := (fun i => le_val (slice (8 + 2 * i) 2 bs)) <$> seq 0 28 |}
|}.

Lemma length_le_pairs l : length (mjoin (le_bytes 2 <$> l)) = (2 * length l)%nat.
Proof.
  induction l as [|t l IH]; [done|].
  change (length (le_bytes 2 t ++ mjoin (le_bytes 2 <$> l)) = (2 * S (length l))%nat).
  rewrite length_app, IH, length_le_bytes. lia.
Qed.

Lemma read_le_pairs l pre :
  Forall (fun t => 0 <= t <= u16_max) l ->
  (fun i => le_val (slice (length pre + 2 * i) 2 (pre ++ mjoin (le_bytes 2 <$> l)))) <$>
    seq 0 (length l) = l.
Proof.
  intros Hl. revert pre. induction Hl as [|t l Ht Hl IH]; intros pre; [done|].
  change (mjoin (le_bytes 2 <$> (t :: l))) with (le_bytes 2 t ++ mjoin (le_bytes 2 <$> l)).
  cbn [length seq fmap list_fmap]. f_equal.
  - rewrite slice_skip by lia. replace (_ - _)%nat with 0%nat by lia.
    rewrite slice_here by apply length_le_bytes. apply le_val_bytes_small.
    unfold u16_max in Ht. simpl. lia.
  - rewrite <- fmap_S_seq, <- list_fmap_compose. rewrite <- (IH (pre ++ le_bytes 2 t)) at 2.
    apply list_fmap_ext. intros j i _. unfold compose. f_equal.
    rewrite length_app, length_le_bytes, <- app_assoc. f_equal. lia.
Qed.

Lemma slice_all n (bs : list byte) : length bs = n -> slice 0 n bs = bs.
Proof. intros Hn. unfold slice. rewrite drop_0. apply take_ge. lia. Qed.

Lemma slice_join o n m (bs : list byte) :
  slice o n bs ++ slice (o + n) m bs = slice o (n + m) bs.
Proof. unfold slice. rewrite <- drop_drop. apply take_take_drop. Qed.

Lemma write_pairs o k (bs : list byte) :
  (o + 2 * k <= length bs)%nat ->
  mjoin (le_bytes 2 <$> ((fun i => le_val (slice (o + 2 * i) 2 bs)) <$> seq 0 k)) =
  slice o (2 * k) bs.
Proof.
  revert o. induction k as [|k IH]; intros o Ho; [done|].
  assert ((fun i => le_val (slice (o + 2 * i) 2 bs)) <$> seq 0 (S k) =
    le_val (slice o 2 bs) :: ((fun i => le_val (slice (o + 2 + 2 * i) 2 bs)) <$> seq 0 k)) as ->.
  { change (seq 0 (S k)) with (0%nat :: seq 1 k). rewrite fmap_cons, Nat.add_0_r. f_equal.
    rewrite <- fmap_S_seq, <- list_fmap_compose. apply list_fmap_ext.
    intros j i _. unfold compose. do 2 f_equal. lia. }
  rewrite fmap_cons.
  transitivity (le_bytes 2 (le_val (slice o 2 bs)) ++ slice (o + 2) (2 * k) bs).
  { rewrite <- (IH (o + 2)%nat) by lia. done. }
  assert (le_bytes 2 (le_val (slice o 2 bs)) = slice o 2 bs) as ->.
  { rewrite <- (le_bytes_val (slice o 2 bs)) at 2. by rewrite length_slice by lia. }
  rewrite slice_join. f_equal. lia.
Qed.

#[export] Instance declared_layout_laws : SpecLayoutLaws.
Proof.
  split; cbn [spec_bytes spec_of_bytes declared_layout].
  - intros s (Hs & _ & _ & Hl & _).
    rewrite !length_app, length_le_pairs, !length_le_bytes, Hs, Hl. done.
  - intros [sg v r ts] (Hs & Hv & Hr & Hl & Ht).
    cbn [ps_signature ps_ver ps_rev ps_target_spec] in *. f_equal.
    + by apply slice_here.
    + rewrite slice_skip, Hs by lia. rewrite slice_here by done.
      apply le_val_bytes_small. simpl. lia.
    + rewrite slice_skip, Hs by lia. rewrite slice_skip by (rewrite length_le_bytes; lia).
      rewrite length_le_bytes. rewrite slice_here by done.
      apply le_val_bytes_small. simpl. lia.
    + pose proof (read_le_pairs ts (sg ++ le_bytes 1 v ++ le_bytes 1 r) Ht) as E.
      rewrite Hl in E. etransitivity; [|exact E]. apply list_fmap_ext. intros j i _.
      rewrite !length_app, Hs, !length_le_bytes, <- !app_assoc. done.
  - intros bs Hb. split.
    + unfold spec_ok. cbn [ps_signature ps_ver ps_rev ps_target_spec].
      rewrite length_fmap, length_seq. repeat split; try (rewrite length_slice by lia; done);
        try (pose proof (le_val_range (slice 6 1 bs)); pose proof (le_val_range (slice 7 1 bs));
             unfold zlen in *; rewrite !length_slice in * by lia; simpl in *; lia).
      apply Forall_fmap, Forall_seq. intros i Hi. simpl.
      pose proof (le_val_range (slice (8 + 2 * i) 2 bs)) as Hr. unfold zlen in Hr.
      rewrite length_slice in Hr by lia. unfold u16_max. simpl in *. lia.
    + assert (forall o, (o + 1 <= 64)%nat -> le_bytes 1 (le_val (slice o 1 bs)) = slice o 1 bs)
        as E1.
      { intros o Ho. rewrite <- (le_bytes_val (slice o 1 bs)) at 2.
        by rewrite length_slice by lia. }
      cbn [ps_signature ps_ver ps_rev ps_target_spec].
      rewrite (E1 6%nat), (E1 7%nat), (write_pairs 8 28) by lia.
      rewrite (slice_join 7 1), (slice_join 6 1), (slice_join 0 6). by apply slice_all.
Qed.

(** Two enclaves that differ in their measurement. *)
Definition initiator_body : sgx_report_body_t := {|
  rb_cpu_svn := zeros 16; rb_misc_select := 0; rb_reserved1 := zeros 12;
  rb_isv_ext_prod_id := zeros 16; rb_attributes := {| attr_flags := 5; attr_xfrm := 3 |};
  rb_mr_enclave := Byte.x2a :: zeros 31; rb_reserved2 := zeros 32;
  rb_mr_signer := Byte.x07 :: zeros 31; rb_reserved3 := zeros 32;
  rb_config_id := zeros 64; rb_isv_prod_id := 9; rb_isv_svn := 2;
  rb_config_svn := 1; rb_reserved4 := zeros 42;
  rb_isv_family_id := zeros 16; rb_report_data := report_data_default |}.

Definition identity_default : sgx_dh_session_enclave_identity_t := {|
  id_cpu_svn := zeros 16; id_misc_select := 0; id_reserved_1 := zeros 28;
  id_attributes := attributes_default; id_mr_enclave := zeros 32;
  id_reserved_2 := zeros 32; id_mr_signer := zeros 32; id_reserved_3 := zeros 96;
  id_isv_prod_id := 0; id_isv_svn := 0 |}.

Definition toy_addrs : Addrs := {|
  a_self := 0x20000; a_msg_in := 0x21000; a_msg_out := 0x22000; a_prop := 0x23000;
  a_aek := 0x24000; a_identity := 0x25000 |}.

Definition toy_run_addrs : RunAddrs := {|
  ra_gen_msg1 := toy_addrs; ra_proc_msg1 := toy_addrs; ra_proc_msg2 := toy_addrs;
  ra_proc_msg3 := toy_addrs |}.

Definition toy_responder_frame : Responder.Frame := {|
  Responder.f_self := responder_default;
  Responder.f_msg3 := {| m3_cmac := zeros 16;
    m3_body := {| b3_report := report_default; b3_additional_prop := [Byte.x61] |} |};
  Responder.f_aek := zeros 16; Responder.f_identity := identity_default |}.

Definition toy_initiator_frame : Initiator.Frame := {|
  Initiator.f_self := initiator_default; Initiator.f_aek := zeros 16;
  Initiator.f_identity := identity_default |}.

Definition msg1_default : sgx_dh_msg1_t :=
  {| m1_g_a := ec256_public_default; m1_target := target_info_default |}.
Definition msg2_default : sgx_dh_msg2_t :=
  {| m2_g_b := ec256_public_default; m2_report := report_default; m2_cmac := zeros 16 |}.

Definition toy_exchange (lav2 : bool) : RunResult * toy_world * toy_world :=
  exchange toy_enclave toy_enclave (toy_platform report_body_default)
    (toy_platform initiator_body) toy_tcrypto toy_tcrypto lav2 toy_run_addrs
    msg1_default msg2_default toy_responder_frame toy_initiator_frame
    {| tw_seed := 1001; tw_contexts := ∅ |} {| tw_seed := 2002; tw_contexts := ∅ |}.

Lemma toy_bodies_ok : report_body_ok report_body_default /\ report_body_ok initiator_body.
Proof. split; repeat split; done. Qed.

Lemma honest_exchange_agrees_witness :
  let '(rr, wA', wB') := toy_exchange true in
  agreed report_body_default initiator_body toy_responder_frame toy_initiator_frame rr /\
  tw_contexts wA' = ∅ /\ tw_contexts wB' = ∅.
Proof.
  pose proof (toy_platform_laws _ (proj1 toy_bodies_ok)).
  pose proof (toy_platform_laws _ (proj2 toy_bodies_ok)).
  unfold toy_exchange. apply (honest_exchange_agrees toy_enclave toy_enclave (toy_platform report_body_default)
    (toy_platform initiator_body) toy_tcrypto toy_tcrypto report_body_default initiator_body
    tw_contexts tw_contexts toy_ready toy_ready); vm_compute; repeat split; done.
Defined.

(** * What a success proves *)
Section success.
Context `{EN : Enclave} {W : Type} (P : Platform W) (T : Tcrypto W) `{SpecLayout}.

Lemma proc_msg2_ok_args lav2 a msg2 f w f' w' :
  Responder.proc_msg2 lav2 a msg2 f w = ((Ok tt, f'), w') -> proc_msg2_args_ok a f.
Proof.
  unfold Responder.proc_msg2, proc_msg2_args_ok.
  destruct (rsgx_data_is_within_enclave _ _); [|done]. cbn [negb].
  destruct (Responder.bad_arguments a); [done|].
  destruct (Responder.bad_additional_prop _ _); [done|].
  case_bool_decide as Hs; [done|]. done.
Qed.

Lemma proc_msg3_ok_args lav2 a msg3 f w f' w' :
  Initiator.proc_msg3 lav2 a msg3 f w = ((Ok tt, f'), w') -> proc_msg3_args_ok a msg3 f.
Proof.
  unfold Initiator.proc_msg3, proc_msg3_args_ok.
  destruct (rsgx_data_is_within_enclave (a_self a) _); [|done]. cbn [negb].
  destruct (rsgx_raw_is_within_enclave _ _); [|done].
  destruct (rsgx_data_is_within_enclave (a_aek a) _); [|done].
  destruct (rsgx_data_is_within_enclave (a_identity a) _); [|done]. cbn [negb orb].
  destruct (Responder.bad_additional_prop _ _); [done|].
  case_bool_decide as Hs; [done|]. done.
Qed.

End success.

(** C2. The responder authenticates the initiator: if [proc_msg2] succeeds, on any
    msg2 whatsoever and in any world, then the report in msg2 was made on this
    machine for this very enclave (its MAC verifies under this enclave's
    report key) and is bound to the exchange: it covers the hash of the public
    keys (first version: both, with the KDF id; second version: the
    initiator's, with the protocol specification of the right signature and
    version), and msg2's MAC verifies under the key derived from the shared
    secret.  The key handed out is the one derived from that secret, the
    identity is the one in the report, and every crypto context is closed. *)
Theorem responder_authenticates `{CryptoMath} `{!CryptoMathLaws} `{Machine} `{!MachineLaws}
    {W : Type} `{EN : Enclave} (P : Platform W) (T : Tcrypto W) (self : sgx_report_body_t)
    (contexts : W -> gmap Z context) (ready : W -> Prop)
    `{!PlatformLaws P self contexts ready} `{!TcryptoLaws T contexts ready}
    `{SpecLayout} `{!SpecLayoutLaws} lav2 a msg2 f w f' w' :
  msg2_ok msg2 -> ec256_public_ok (rs_pub_key (Responder.f_self f)) ->
  Responder.proc_msg2 lav2 a msg2 f w = ((Ok tt, f'), w') ->
  let shared := ecdh (rs_prv_key (Responder.f_self f)) (m2_g_b msg2) in
  let s := responder_keyed (Responder.f_self f) (kdf shared EC_SMK_LABEL) shared in
  msg2_good lav2 self s msg2 /\
  Responder.f_aek f' = kdf shared EC_AEK_LABEL /\
  Responder.f_identity f' =
    Responder.initiator_identity (Responder.f_identity f) (rp_body (m2_report msg2)) /\
  contexts w' = contexts w.
Proof.
  intros Hm Hp E shared s. pose proof (proc_msg2_ok_args P T lav2 a msg2 f w f' w' E) as Ha.
  apply (wp_inv _ (fun x w' => forall f', x = (Ok tt, f') ->
    msg2_good lav2 self s msg2 /\ Responder.f_aek f' = kdf shared EC_AEK_LABEL /\
    Responder.f_identity f' = Responder.initiator_identity (Responder.f_identity f)
      (rp_body (m2_report msg2)) /\ contexts w' = contexts w) w _ _) with (2 := E); [|done].
  apply (wp_proc_msg2 P T self contexts ready); [done..| |done].
  intros r w1 C R Hg Hr f1 Ef. injection Ef as <-. done.
Qed.

(** C3. The initiator authenticates the responder: if [proc_msg3] succeeds, the
    report in msg3 was made on this machine for this very enclave and covers the
    hash of the exchange's public values (first version: both public keys; second
    version: the responder's with the report data of msg2), and msg3's MAC
    verifies under the session's MAC key: in the first version over the report,
    the length of the additional property and the property, in the second over
    the property and the responder's public key (not over the report, which is
    bound to the exchange by its hash only).  The key handed out is derived from
    the session's shared secret, the identity is the one in the report, and every
    crypto context is closed. *)
Theorem initiator_authenticates `{CryptoMath} `{!CryptoMathLaws} `{Machine} `{!MachineLaws}
    {W : Type} `{EN : Enclave} (P : Platform W) (T : Tcrypto W) (self : sgx_report_body_t)
    (contexts : W -> gmap Z context) (ready : W -> Prop)
    `{!PlatformLaws P self contexts ready} `{!TcryptoLaws T contexts ready}
    `{SpecLayout} `{!SpecLayoutLaws} lav2 a msg3 f w f' w' :
  msg3_typed msg3 -> initiator_ok (Initiator.f_self f) ->
  Initiator.proc_msg3 lav2 a msg3 f w = ((Ok tt, f'), w') ->
  let s := Initiator.f_self f in
  msg3_good lav2 self s msg3 /\
  Initiator.f_aek f' = kdf (in_shared_key s) EC_AEK_LABEL /\
  Initiator.f_identity f' = Initiator.responder_identity (Initiator.f_identity f)
    (rp_body (b3_report (m3_body msg3))) /\
  contexts w' = contexts w.
Proof.
  intros Hm Hi E s. pose proof (proc_msg3_ok_args P T lav2 a msg3 f w f' w' E) as Ha.
  apply (wp_inv _ (fun x w' => forall f', x = (Ok tt, f') ->
    msg3_good lav2 self s msg3 /\ Initiator.f_aek f' = kdf (in_shared_key s) EC_AEK_LABEL /\
    Initiator.f_identity f' = Initiator.responder_identity (Initiator.f_identity f)
      (rp_body (b3_report (m3_body msg3))) /\ contexts w' = contexts w) w _ _) with (2 := E);
    [|done].
  apply (wp_proc_msg3 P T self contexts ready); [done..| |done].
  intros w1 C R Hg f1 Ef. injection Ef as <-. done.
Qed.

(** The calls of the concrete run, one by one. *)
Definition toy_call1 :=
  Responder.gen_msg1 (PL := toy_platform report_body_default) toy_addrs responder_default
    msg1_default {| tw_seed := 1001; tw_contexts := ∅ |}.
Definition toy_call2 :=
  Initiator.proc_msg1 (PL := toy_platform initiator_body) false toy_addrs (toy_call1.1).2
    initiator_default msg2_default {| tw_seed := 2002; tw_contexts := ∅ |}.
Definition toy_waiting : Responder.Frame :=
  Responder.set_self toy_responder_frame (toy_call1.1).1.2.
Definition toy_call3 :=
  Responder.proc_msg2 (PL := toy_platform report_body_default) false toy_addrs
    (toy_call2.1).2 toy_waiting toy_call1.2.
Definition toy_waiting_initiator : Initiator.Frame :=
  Initiator.set_self toy_initiator_frame (toy_call2.1).1.2.
Definition toy_call4 :=
  Initiator.proc_msg3 (PL := toy_platform initiator_body) false toy_addrs
    (Responder.f_msg3 toy_call3.1.2) toy_waiting_initiator toy_call2.2.

Lemma responder_authenticates_witness :
  Responder.f_aek toy_call3.1.2 =
  kdf (ecdh (rs_prv_key (Responder.f_self toy_waiting)) (m2_g_b (toy_call2.1).2)) EC_AEK_LABEL.
Proof.
  pose proof (toy_platform_laws _ (proj1 toy_bodies_ok)).
  apply (responder_authenticates (toy_platform report_body_default) toy_tcrypto
    report_body_default tw_contexts toy_ready false toy_addrs (toy_call2.1).2 toy_waiting
    toy_call1.2 toy_call3.1.2 toy_call3.2).
  - vm_compute. repeat split; done.
  - vm_compute. repeat split; done.
  - vm_compute. reflexivity.
Defined.

Lemma initiator_authenticates_witness :
  Initiator.f_aek toy_call4.1.2 =
  kdf (in_shared_key (Initiator.f_self toy_waiting_initiator)) EC_AEK_LABEL.
Proof.
  pose proof (toy_platform_laws _ (proj2 toy_bodies_ok)).
  apply (initiator_authenticates (toy_platform initiator_body) toy_tcrypto
    initiator_body tw_contexts toy_ready false toy_addrs
    (Responder.f_msg3 toy_call3.1.2) toy_waiting_initiator toy_call2.2
    toy_call4.1.2 toy_call4.2).
  - vm_compute. repeat split; done.
  - vm_compute. repeat split; done.
  - vm_compute. reflexivity.
Defined.
