(* ===== verification/TdhSession.v ===== *)
(** TdhSession: the session objects as state machines.

    These theorems hold for any platform and crypto library, whatever their
    functions return: which calls succeed in which state, what the caller's
    memory holds afterwards, and that key material is not left in an object
    that is not in the middle of an exchange. *)
From Stdlib Require Import ZArith Lia Strings.Byte.
From stdpp Require Import base numbers list option relations tactics gmap.
From S2P Require Import Prelude SgxStatus SgxTypes Trts Tse Tcrypto TcryptoSpec ToyMachine Tdh TdhSpec.
From S2P Require Import TdhRun.
Import Trts.Bounds.

Section machine.
Context {W : Type} `{EN : Enclave} `{PL : Platform W} `{TC : Tcrypto W} `{SpecLayout}.

(** * What a call reports *)

(** The caller's memory lies in the enclave, as each call asks. *)
Definition self_inside (a : Addrs) : bool := rsgx_data_is_within_enclave (a_self a) session_size.
Definition prop_fits (a : Addrs) (prop : list byte) : bool :=
  (zlen prop <=? 0) || rsgx_slice_is_within_enclave 1 (a_prop a) prop
                       && (zlen prop <=? u32_max - dh_msg3_size).
Definition gen_msg1_args (a : Addrs) : bool :=
  self_inside a && rsgx_data_is_within_enclave (a_msg_out a) msg1_size.
Definition proc_msg2_args (a : Addrs) (prop : list byte) : bool :=
  self_inside a && rsgx_data_is_within_enclave (a_msg_in a) msg2_size
  && rsgx_data_is_within_enclave (a_aek a) aek_size
  && rsgx_data_is_within_enclave (a_identity a) identity_size
  && rsgx_raw_is_within_enclave (a_msg_out a) msg3_object_size && prop_fits a prop.
Definition proc_msg1_args (a : Addrs) : bool :=
  self_inside a && rsgx_data_is_within_enclave (a_msg_in a) msg1_size
  && rsgx_data_is_within_enclave (a_msg_out a) msg2_size.
Definition proc_msg3_args (a : Addrs) (prop : list byte) : bool :=
  self_inside a && rsgx_raw_is_within_enclave (a_msg_in a) msg3_object_size
  && rsgx_data_is_within_enclave (a_aek a) aek_size
  && rsgx_data_is_within_enclave (a_identity a) identity_size && prop_fits a prop.

(** The error of a call: bad arguments come before a wrong state, and a wrong state
    before anything that the platform reports. *)
Definition reports (args : bool) (in_order : Prop) (platform : list sgx_status_t)
    (e : sgx_status_t) : Prop :=
  if args then (~ in_order -> e = SGX_ERROR_INVALID_STATE) /\ (in_order -> e ∈ platform)
  else e = SGX_ERROR_INVALID_PARAMETER.
Arguments reports : simpl never.

Lemma reports_args (args : bool) in_order platform :
  args = false -> reports args in_order platform SGX_ERROR_INVALID_PARAMETER.
Proof. by intros ->. Qed.

Lemma reports_state (args : bool) (in_order : Prop) platform :
  args = true -> ~ in_order -> reports args in_order platform SGX_ERROR_INVALID_STATE.
Proof. by intros ->. Qed.

Lemma reports_platform (args : bool) (in_order : Prop) platform e :
  args = true -> in_order -> e ∈ platform -> reports args in_order platform e.
Proof. by intros ->. Qed.

Definition memory_errors : list sgx_status_t := [SGX_ERROR_OUT_OF_MEMORY; SGX_ERROR_UNEXPECTED].

Lemma memory_or_unexpected_in e : memory_or_unexpected e ∈ memory_errors.
Proof. unfold memory_or_unexpected, memory_errors. case_decide; set_solver. Qed.

Lemma set_error_code_in e : Responder.set_error_code e ∈ SGX_ERROR_KDF_MISMATCH :: memory_errors.
Proof. unfold Responder.set_error_code, memory_errors. repeat case_decide; set_solver. Qed.
Hint Resolve reports_args reports_state reports_platform memory_or_unexpected_in set_error_code_in : core.

Lemma prop_fits_spec a prop : prop_fits a prop = negb (Responder.bad_additional_prop a prop).
Proof.
  unfold prop_fits, Responder.bad_additional_prop. rewrite negb_andb, negb_orb, negb_involutive.
  by rewrite !Z.gtb_ltb, <- !Z.leb_antisym.
Qed.

(** * Responder *)

(** The outcome of [gen_msg1]. *)
Definition gen_msg1_outcome (a : Addrs) (s : SgxDhResponder)
    (x : SgxError * SgxDhResponder * sgx_dh_msg1_t) : Prop :=
  let '(r, s', _) := x in
  let in_order := rs_state s = SGX_DH_SESSION_STATE_RESET in
  match r with
  | Ok _ => gen_msg1_args a = true /\ in_order /\
      rs_state s' = SGX_DH_SESSION_RESPONDER_WAIT_M2 /\
      rs_smk_aek s' = rs_smk_aek s /\ rs_shared_key s' = rs_shared_key s
  | Err e => reports (gen_msg1_args a) in_order memory_errors e /\
      s' = if gen_msg1_args a then responder_default else s
  end.

Lemma gen_msg1_states a s msg1 : always (gen_msg1_outcome a s) (Responder.gen_msg1 a s msg1).
Proof.
  unfold Responder.gen_msg1, gen_msg1_outcome, gen_msg1_args, self_inside.
  destruct (rsgx_data_is_within_enclave _ _) eqn:E1; [|by apply always_ret].
  destruct (rsgx_data_is_within_enclave _ msg1_size) eqn:E2; [|by apply always_ret]. cbn [negb andb].
  case_bool_decide as Hst; [apply always_ret; auto|].
  apply (always_bind_via (fun '(r, s', _) => match r with
    | Ok _ => rs_smk_aek s' = rs_smk_aek s /\ rs_shared_key s' = rs_shared_key s
    | Err _ => s' = s end)).
  - apply always_try; [done|]. intros rep.
    destruct (ProtoSpec.make_target_info _ _ _) as [r ti].
    apply always_try; [done|]. intros _. apply always_with_handle; [done|]. intros h.
    apply always_try; [done|]. intros [prv pub]. by apply always_ret.
  - intros [[r s'] m] Hr. destruct r; apply always_ret; [|by auto].
    by destruct Hr.
Qed.

(** The outcome of [proc_msg2]: a success only from WAIT_M2, to an ACTIVE
    object without keys; after an error the caller's key is as it was and the
    object is an ERROR object without keys, unless it lay outside the enclave
    and nothing was touched. *)
Definition proc_msg2_outcome (a : Addrs) (f : Responder.Frame) (x : SgxError * Responder.Frame)
    : Prop :=
  let '(r, f') := x in
  let args := proc_msg2_args a (b3_additional_prop (m3_body (Responder.f_msg3 f))) in
  let in_order := rs_state (Responder.f_self f) = SGX_DH_SESSION_RESPONDER_WAIT_M2 in
  match r with
  | Ok _ => args = true /\ in_order /\
      Responder.f_self f' = responder_in SGX_DH_SESSION_ACTIVE
  | Err e => reports args in_order (SGX_ERROR_KDF_MISMATCH :: memory_errors) e /\
      Responder.f_aek f' = Responder.f_aek f /\
      if self_inside a then Responder.f_self f' = responder_in SGX_DH_SESSION_STATE_ERROR
      else f' = f
  end.

Lemma proc_msg2_args_spec a prop : proc_msg2_args a prop =
  self_inside a && negb (Responder.bad_arguments a) && negb (Responder.bad_additional_prop a prop).
Proof.
  unfold proc_msg2_args, Responder.bad_arguments. rewrite prop_fits_spec, !negb_orb, !negb_involutive.
  by rewrite !andb_assoc.
Qed.

Lemma proc_msg2_states lav2 a msg2 f :
  always (proc_msg2_outcome a f) (Responder.proc_msg2 lav2 a msg2 f).
Proof.
  unfold Responder.proc_msg2, proc_msg2_outcome. rewrite proc_msg2_args_spec. unfold self_inside.
  destruct (rsgx_data_is_within_enclave _ _); cbn [negb andb]; [|by apply always_ret].
  destruct (Responder.bad_arguments a); [by apply always_ret|].
  destruct (Responder.bad_additional_prop _ _); [by apply always_ret|].
  case_bool_decide as Hst; [by apply always_ret; auto|].
  apply always_with_handle; [intros; simpl; auto|]. intros h.
  apply always_try; [intros; simpl; auto|]. intros shared. apply always_try; [intros; simpl; auto|]. intros smk.
  apply always_try; [intros; simpl; auto|]. intros _. apply always_bind. intros [r msg3].
  apply always_try; [intros; simpl; auto|]. intros _. apply always_try; [intros; simpl; auto|]. intros aek.
  by apply always_ret.
Qed.

(** * Initiator *)
Definition proc_msg1_outcome (a : Addrs) (s : SgxDhInitiator)
    (x : SgxError * SgxDhInitiator * sgx_dh_msg2_t) : Prop :=
  let '(r, s', _) := x in
  let in_order := in_state s = SGX_DH_SESSION_INITIATOR_WAIT_M1 in
  match r with
  | Ok _ => proc_msg1_args a = true /\ in_order /\
      in_state s' = SGX_DH_SESSION_INITIATOR_WAIT_M3
  | Err e => reports (proc_msg1_args a) in_order memory_errors e /\
      s' = if self_inside a then initiator_in SGX_DH_SESSION_STATE_ERROR else s
  end.

Lemma proc_msg1_states lav2 a msg1 s msg2 :
  always (proc_msg1_outcome a s) (Initiator.proc_msg1 lav2 a msg1 s msg2).
Proof.
  unfold Initiator.proc_msg1, proc_msg1_outcome, proc_msg1_args. unfold self_inside.
  destruct (rsgx_data_is_within_enclave _ session_size); cbn [negb andb]; [|by apply always_ret].
  rewrite <- negb_andb. destruct (_ && _); cbn [negb]; [|by apply always_ret].
  case_bool_decide as Hst; [by apply always_ret; auto|].
  apply always_with_handle; [intros; simpl; auto|]. intros h.
  apply always_try; [intros; simpl; auto|]. intros [prv pub]. apply always_try; [intros; simpl; auto|]. intros shared.
  apply always_try; [intros; simpl; auto|]. intros smk. apply always_bind. intros [[] m];
    apply always_ret; auto.
Qed.

Definition proc_msg3_outcome (a : Addrs) (msg3 : SgxDhMsg3) (f : Initiator.Frame)
    (x : SgxError * Initiator.Frame) : Prop :=
  let '(r, f') := x in
  let args := proc_msg3_args a (b3_additional_prop (m3_body msg3)) in
  let in_order := in_state (Initiator.f_self f) = SGX_DH_SESSION_INITIATOR_WAIT_M3 in
  match r with
  | Ok _ => args = true /\ in_order /\
      Initiator.f_self f' = initiator_in SGX_DH_SESSION_ACTIVE
  | Err e => reports args in_order memory_errors e /\
      Initiator.f_aek f' = Initiator.f_aek f /\
      Initiator.f_identity f' = Initiator.f_identity f /\
      if self_inside a then Initiator.f_self f' = initiator_in SGX_DH_SESSION_STATE_ERROR
      else f' = f
  end.

Lemma proc_msg3_states lav2 a msg3 f :
  always (proc_msg3_outcome a msg3 f) (Initiator.proc_msg3 lav2 a msg3 f).
Proof.
  unfold Initiator.proc_msg3, proc_msg3_outcome, proc_msg3_args. rewrite prop_fits_spec.
  unfold self_inside.
  destruct (rsgx_data_is_within_enclave _ session_size); cbn [negb andb]; [|by apply always_ret].
  destruct (rsgx_raw_is_within_enclave _ _); cbn [negb andb orb]; [|by apply always_ret].
  destruct (rsgx_data_is_within_enclave _ aek_size); cbn [negb andb orb]; [|by apply always_ret].
  destruct (rsgx_data_is_within_enclave _ identity_size); cbn [negb andb orb]; [|by apply always_ret].
  destruct (Responder.bad_additional_prop _ _); cbn [negb]; [by apply always_ret|].
  case_bool_decide as Hst; [by apply always_ret; auto|].
  apply always_try; [intros; simpl; auto|]. intros _. apply always_try; [intros; simpl; auto|]. intros aek.
  by apply always_ret.
Qed.

(** * Sequences of calls *)

(** One call on a responder object, with any arguments in any world. *)
Inductive responder_call : SgxDhResponder -> SgxDhResponder -> Prop :=
| call_gen_msg1 a msg1 w s r s' m w' :
    Responder.gen_msg1 a s msg1 w = ((r, s', m), w') -> responder_call s s'
| call_proc_msg2 lav2 a msg2 f r f' w w' :
    Responder.proc_msg2 lav2 a msg2 f w = ((r, f'), w') ->
    responder_call (Responder.f_self f) (Responder.f_self f').

Inductive initiator_call : SgxDhInitiator -> SgxDhInitiator -> Prop :=
| call_proc_msg1 lav2 a msg1 msg2 w s r s' m w' :
    Initiator.proc_msg1 lav2 a msg1 s msg2 w = ((r, s', m), w') -> initiator_call s s'
| call_proc_msg3 lav2 a msg3 f r f' w w' :
    Initiator.proc_msg3 lav2 a msg3 f w = ((r, f'), w') ->
    initiator_call (Initiator.f_self f) (Initiator.f_self f').

(** Between calls an object holds no secret it does not need: a responder the
    private key while it waits for msg2 and nothing else, an initiator its
    derived keys while it waits for msg3. *)
Definition responder_at_rest (s : SgxDhResponder) : Prop :=
  rs_smk_aek s = zeros 16 /\ rs_shared_key s = zeros 32 /\
  (rs_state s = SGX_DH_SESSION_RESPONDER_WAIT_M2 \/
   s = responder_in SGX_DH_SESSION_STATE_RESET \/ s = responder_in SGX_DH_SESSION_STATE_ERROR \/
   s = responder_in SGX_DH_SESSION_ACTIVE).

Definition initiator_at_rest (s : SgxDhInitiator) : Prop :=
  in_state s = SGX_DH_SESSION_INITIATOR_WAIT_M3 \/
  s = initiator_in SGX_DH_SESSION_INITIATOR_WAIT_M1 \/
  s = initiator_in SGX_DH_SESSION_STATE_ERROR \/ s = initiator_in SGX_DH_SESSION_ACTIVE.

Lemma responder_call_at_rest s s' :
  responder_at_rest s -> responder_call s s' -> responder_at_rest s'.
Proof.
  intros (H1 & H2 & Hs) Hc. unfold responder_at_rest. destruct Hc as [a m w s r s' m' w' E|lav2 a m f r f' w w' E].
  - pose proof (gen_msg1_states a s m w) as Ho. rewrite E in Ho. simpl in Ho.
    destruct r as [|e]; [naive_solver congruence|].
    destruct Ho as [_ ->]. destruct (gen_msg1_args a); [|done]. split_and!; [done|done|auto].
  - pose proof (proc_msg2_states lav2 a m f w) as Ho. rewrite E in Ho. simpl in Ho.
    destruct r as [|e]; [destruct Ho as (_ & _ & ->); auto 6|].
    destruct Ho as (_ & _ & Hf). destruct (self_inside a); [rewrite Hf; auto 6|by rewrite Hf].
Qed.

Lemma initiator_call_at_rest s s' :
  initiator_at_rest s -> initiator_call s s' -> initiator_at_rest s'.
Proof.
  intros Hs Hc. unfold initiator_at_rest. destruct Hc as [lav2 a m m2 w s r s' m' w' E|lav2 a m f r f' w w' E].
  - pose proof (proc_msg1_states lav2 a m s m2 w) as Ho. rewrite E in Ho. simpl in Ho.
    destruct r as [|e]; [naive_solver|]. destruct Ho as [_ ->]. destruct (self_inside a); auto.
  - pose proof (proc_msg3_states lav2 a m f w) as Ho. rewrite E in Ho. simpl in Ho.
    destruct r as [|e]; [destruct Ho as (_ & _ & ->); auto|].
    destruct Ho as (_ & _ & _ & Hf). destruct (self_inside a); [rewrite Hf; auto|by rewrite Hf].
Qed.

End machine.

(** C7. No key material at rest: after any sequence of calls on a new session
    object, with any messages, arguments and platform behaviour, the object
    holds no session or shared key between calls, except an initiator that
    waits for msg3; and an object that is reset, failed or active holds no key
    at all. *)
Theorem sessions_keep_no_secrets {W} `{Enclave} `{Platform W} `{Tcrypto W} `{SpecLayout} r i :
  (rtc responder_call responder_default r -> responder_at_rest r) /\
  (rtc initiator_call initiator_default i -> initiator_at_rest i).
Proof.
  split; intros Hr.
  - assert (responder_at_rest responder_default) as Hs by (split_and!; auto).
    revert Hs. induction Hr as [|x y z Hc _ IH]; [done|]. intros Hs.
    apply IH. by eapply responder_call_at_rest.
  - assert (initiator_at_rest initiator_default) as Hs by (right; auto).
    revert Hs. induction Hr as [|x y z Hc _ IH]; [done|]. intros Hs.
    apply IH. by eapply initiator_call_at_rest.
Qed.

(** A responder that has sent msg1, then processed msg2. *)
Lemma toy_responder_steps :
  rtc (responder_call (PL := toy_platform report_body_default)) responder_default
    (Responder.f_self toy_call3.1.2).
Proof.
  apply rtc_l with (Responder.f_self toy_waiting).
  - by apply (call_gen_msg1 (PL := toy_platform report_body_default) toy_addrs msg1_default
      {| tw_seed := 1001; tw_contexts := ∅ |} _ (Ok tt) _ (toy_call1.1).2 toy_call1.2).
  - apply rtc_once. by apply (call_proc_msg2 (PL := toy_platform report_body_default) false
      toy_addrs (toy_call2.1).2 toy_waiting (Ok tt) toy_call3.1.2 toy_call1.2 toy_call3.2).
Defined.

Lemma sessions_keep_no_secrets_witness : responder_at_rest (Responder.f_self toy_call3.1.2).
Proof.
  exact (proj1 (@sessions_keep_no_secrets toy_world _ (toy_platform report_body_default) _ _
    (Responder.f_self toy_call3.1.2) initiator_default) toy_responder_steps).
Defined.

(** C8. The session state machine: with any platform and library behaviour,
    [gen_msg1] succeeds only on a reset responder and leads to WAIT_M2,
    [proc_msg2] only from WAIT_M2 to ACTIVE, [proc_msg1] only from WAIT_M1 to
    WAIT_M3, [proc_msg3] only from WAIT_M3 to ACTIVE.  The error is
    INVALID_PARAMETER exactly if an argument does not lie in the enclave (or the
    additional property is too long), otherwise INVALID_STATE exactly if the call
    is out of order, and otherwise one of the few errors that the platform's are
    mapped to.  An error leaves the caller's key (and, on the initiator, the
    identity) as it was, and the object is then failed (or reset) with its keys
    erased, unless its own memory (for [gen_msg1] also the message's) does not lie
    in the enclave, when nothing is touched. *)
Theorem session_transitions {W} `{Enclave} `{Platform W} `{Tcrypto W} `{SpecLayout}
    lav2 a msg1 msg2 msg3 s i fr fi :
  always (gen_msg1_outcome a s) (Responder.gen_msg1 a s msg1) /\
  always (proc_msg2_outcome a fr) (Responder.proc_msg2 lav2 a msg2 fr) /\
  always (proc_msg1_outcome a i) (Initiator.proc_msg1 lav2 a msg1 i msg2) /\
  always (proc_msg3_outcome a msg3 fi) (Initiator.proc_msg3 lav2 a msg3 fi).
Proof.
  split_and!; [apply gen_msg1_states|apply proc_msg2_states|apply proc_msg1_states|
    apply proc_msg3_states].
Qed.
