(* ===== verification/Leb128.v ===== *)
(** The variable-length integers of sgx_serialize (leb128.rs).

    [write_*_leb128_to] runs its loop over a callback that stores one byte;
    the callback is a state transformer that may panic.  The loops run once per
    seven bits, so nineteen rounds are enough for 128 bits: [rounds] is the fuel
    and the theorems below show that it never runs out.  A position is an index
    into a [Vec], at most [isize::MAX], so sums of positions do not wrap. *)
From Stdlib Require Import ZArith Lia Strings.Byte.
From stdpp Require Import base numbers list option tactics.
From S2P Require Import Prelude.

(** * Shifts at width 128, in a release build: the amount is taken modulo the
    width *)
Definition shl128 (a s : Z) : Z := wrap 128 (Z.shiftl a (s `mod` 128)).
Definition ishl128 (a s : Z) : Z := swrap 128 (Z.shiftl a (s `mod` 128)).

Definition rounds : nat := 19.

(** * The code *)
Definition write_to_vec (vec : list byte) (position : Z) (b : byte) : panics (list byte) :=
  if position =? zlen vec then Done (vec ++ [b])
  else if position <? zlen vec then Done (<[Z.to_nat position := b]> vec)
  else Panic.

Fixpoint write_unsigned_leb128_to {A} (fuel : nat) (write : Z -> byte -> A -> panics A)
    (value position : Z) (s : A) : panics (Z * A) :=
  match fuel with
  | O => Panic
  | S fuel =>
      let b := Z.land value 0x7F in
      let value := Z.shiftr value 7 in
      let b := if negb (value =? 0) then Z.lor b 0x80 else b in
      panics_bind (write position (byte_of b) s) (fun s =>
        let position := position + 1 in
        if value =? 0 then Done (position, s)
        else write_unsigned_leb128_to fuel write value position s)
  end.

Definition write_unsigned_leb128 (out : list byte) (start_position value : Z)
    : panics (Z * list byte) :=
  write_unsigned_leb128_to rounds (fun i v out => write_to_vec out (start_position + i) v)
    value 0 out.

Fixpoint read_unsigned_loop (data : list byte) (result shift position : Z)
    : panics (Z * Z) :=
  match data with
  | [] => Panic
  | b :: data =>
      let position := position + 1 in
      let result := Z.lor result (shl128 (Z.land (byte_val b) 0x7F) shift) in
      if Z.land (byte_val b) 0x80 =? 0 then Done (result, position)
      else read_unsigned_loop data result (swrap 32 (shift + 7)) position
  end.

(** Value and number of bytes read. *)
Definition read_unsigned_leb128 (data : list byte) (start_position : Z) : panics (Z * Z) :=
  panics_bind (read_unsigned_loop (drop (Z.to_nat start_position) data) 0 0 start_position)
    (fun '(result, position) => Done (result, position - start_position)).

Fixpoint write_signed_leb128_to {A} (fuel : nat) (write : Z -> byte -> A -> panics A)
    (value position : Z) (s : A) : panics (Z * A) :=
  match fuel with
  | O => Panic
  | S fuel =>
      let b := Z.land (wrap 8 value) 0x7F in
      let value := Z.shiftr value 7 in
      let more := negb (((value =? 0) && (Z.land b 0x40 =? 0)) ||
                        ((value =? -1) && negb (Z.land b 0x40 =? 0))) in
      let b := if more then Z.lor b 0x80 else b in
      panics_bind (write position (byte_of b) s) (fun s =>
        let position := position + 1 in
        if negb more then Done (position, s)
        else write_signed_leb128_to fuel write value position s)
  end.

Definition write_signed_leb128 (out : list byte) (start_position value : Z)
    : panics (Z * list byte) :=
  write_signed_leb128_to rounds (fun i v out => write_to_vec out (start_position + i) v)
    value 0 out.

(** Result, shift, last byte and position at the end of the loop. *)
Fixpoint read_signed_loop (data : list byte) (result shift position : Z)
    : panics (Z * Z * byte * Z) :=
  match data with
  | [] => Panic
  | b :: data =>
      let position := position + 1 in
      let result := Z.lor result (ishl128 (Z.land (byte_val b) 0x7F) shift) in
      let shift := swrap 32 (shift + 7) in
      if Z.land (byte_val b) 0x80 =? 0 then Done (result, shift, b, position)
      else read_signed_loop data result shift position
  end.

Definition read_signed_leb128 (data : list byte) (start_position : Z) : panics (Z * Z) :=
  panics_bind (read_signed_loop (drop (Z.to_nat start_position) data) 0 0 start_position)
    (fun '(result, shift, b, position) =>
      let result :=
        if (shift <? 64) && negb (Z.land (byte_val b) 0x40 =? 0)
        then Z.lor result (swrap 128 (- ishl128 1 shift)) else result in
      Done (result, position - start_position)).

(** * What the loops write: the groups of seven bits *)
Fixpoint uleb (fuel : nat) (v : Z) : list byte :=
  match fuel with
  | O => []
  | S fuel =>
      if v / 128 =? 0 then [byte_of (v `mod` 128)]
      else byte_of (v `mod` 128 + 128) :: uleb fuel (v / 128)
  end.

(** The last group: the rest of the value is its sign. *)
Definition sleb_last (v : Z) : bool := (-64 <=? v) && (v <? 64).

Fixpoint sleb (fuel : nat) (v : Z) : list byte :=
  match fuel with
  | O => []
  | S fuel =>
      if sleb_last v then [byte_of (v `mod` 128)]
      else byte_of (v `mod` 128 + 128) :: sleb fuel (v / 128)
  end.

(** Overwrite from [pos], extending the vector where it ends. *)
Definition put (pos : nat) (bs vec : list byte) : list byte :=
  take pos vec ++ bs ++ drop (pos + length bs) vec.

(** * Bits *)
Lemma lor_add n a b : 0 <= n -> 0 <= a < 2 ^ n -> Z.lor a (b * 2 ^ n) = a + b * 2 ^ n.
Proof.
  intros Hn Ha. rewrite <- Z.shiftl_mul_pow2 by done.
  assert (Z.land a (Z.shiftl b n) = 0) as E.
  { apply Z.bits_inj'. intros i Hi. rewrite Z.land_spec, Z.bits_0.
    destruct (decide (i < n)).
    - rewrite (Z.shiftl_spec_low b n i) by done. apply andb_false_r.
    - destruct (decide (a = 0)) as [->|]; [by rewrite Z.bits_0|].
      rewrite (Z.bits_above_log2 a i); [done|lia|].
      apply Z.lt_le_trans with n; [|lia]. apply Z.log2_lt_pow2; lia. }
  by rewrite Z.add_nocarry_lxor, Z.lxor_lor by done.
Qed.

Lemma land_7f z : Z.land z 0x7F = z `mod` 128.
Proof. change 0x7F with (Z.ones 7). by rewrite Z.land_ones. Qed.

Lemma lor_80 z : 0 <= z < 128 -> Z.lor z 0x80 = z + 128.
Proof. intros. change 0x80 with (1 * 2 ^ 7). by rewrite lor_add. Qed.

Lemma land_pow2_eqb z k : 0 <= k -> 0 <= z ->
  (Z.land z (2 ^ k) =? 0) = ((z / 2 ^ k) `mod` 2 =? 0).
Proof.
  intros Hk Hz. rewrite <- Z.testbit_spec' by done.
  destruct (Z.testbit z k) eqn:E; simpl.
  - apply Z.eqb_neq. intros H. assert (Z.testbit (Z.land z (2 ^ k)) k = false) as F
      by (by rewrite H, Z.bits_0).
    rewrite Z.land_spec, E, Z.pow2_bits_true in F; done.
  - apply Z.eqb_eq. apply Z.bits_inj'. intros i Hi.
    rewrite Z.land_spec, Z.bits_0, Z.pow2_bits_eqb by done.
    destruct (Z.eqb_spec k i) as [->|]; [by rewrite E|apply andb_false_r].
Qed.

Lemma group_bits b : 0 <= b < 256 ->
  (Z.land b 0x80 =? 0) = (b <? 128) /\ (Z.land b 0x40 =? 0) = (b `mod` 128 <? 64).
Proof.
  intros Hb. change 0x80 with (2 ^ 7). change 0x40 with (2 ^ 6).
  rewrite !land_pow2_eqb by lia. change (2 ^ 7) with 128. change (2 ^ 6) with 64.
  split; zcases; Z.to_euclidean_division_equations; lia.
Qed.

Lemma byte_val_of_small z : 0 <= z < 256 -> byte_val (byte_of z) = z.
Proof. intros. rewrite byte_val_of. by apply Z.mod_small. Qed.

(** * Writing *)
Lemma put_end vec bs : put (length vec) bs vec = vec ++ bs.
Proof. unfold put. rewrite take_ge, drop_ge by lia. by rewrite app_nil_r. Qed.

Lemma length_put pos bs vec :
  (pos <= length vec)%nat -> length (put pos bs vec) = Nat.max (length vec) (pos + length bs).
Proof. intros. unfold put. rewrite !length_app, length_take, length_drop. lia. Qed.

(** A write of one byte, and one after it. *)
Lemma write_to_vec_put vec pos b :
  (pos <= length vec)%nat -> write_to_vec vec (Z.of_nat pos) b = Done (put pos [b] vec).
Proof.
  intros Hp. unfold write_to_vec, zlen. destruct (Z.eqb_spec (Z.of_nat pos) (Z.of_nat (length vec))).
  - assert (pos = length vec) as -> by lia. by rewrite put_end.
  - assert (pos < length vec)%nat as Hlt by lia. rewrite (proj2 (Z.ltb_lt _ _)) by lia. f_equal.
    rewrite Nat2Z.id. unfold put. rewrite insert_take_drop by done. simpl.
    by rewrite Nat.add_1_r.
Qed.

Lemma put_put vec pos b bs :
  (pos <= length vec)%nat -> put (S pos) bs (put pos [b] vec) = put pos (b :: bs) vec.
Proof.
  intros Hp. unfold put. simpl length.
  assert (length (take pos vec) = pos) as El by (rewrite length_take; lia).
  rewrite (take_app_ge (take pos vec)) by lia. rewrite El.
  replace (S pos - pos)%nat with 1%nat by lia. simpl.
  rewrite (drop_app_ge (take pos vec)) by lia. rewrite El.
  replace (S (pos + length bs) - pos)%nat with (S (length bs)) by lia. simpl.
  rewrite <- app_assoc, take_0, drop_drop. simpl. do 3 f_equal. f_equal. lia.
Qed.

(** Storing a list of bytes one by one through the callback of the code. *)
Definition store (pos : nat) : Z -> byte -> list byte -> panics (list byte) :=
  fun i v out => write_to_vec out (Z.of_nat pos + i) v.

Lemma store_put pos i b vec :
  (pos + i <= length vec)%nat -> store pos (Z.of_nat i) b vec = Done (put (pos + i) [b] vec).
Proof. intros. unfold store. rewrite <- Nat2Z.inj_add. by apply write_to_vec_put. Qed.

Lemma unsigned_group v : 0 <= v ->
  Z.land v 0x7F = v `mod` 128 /\ Z.shiftr v 7 = v / 128 /\
  Z.lor (v `mod` 128) 0x80 = v `mod` 128 + 128.
Proof.
  intros. split_and!; [apply land_7f|by rewrite Z.shiftr_div_pow2|].
  apply lor_80. by apply Z.mod_pos_bound.
Qed.

Lemma write_unsigned_loop fuel pos i v vec :
  0 <= v < 128 ^ Z.of_nat fuel -> (0 < fuel)%nat -> (pos + i <= length vec)%nat ->
  write_unsigned_leb128_to fuel (store pos) v (Z.of_nat i) vec =
  Done (Z.of_nat (i + length (uleb fuel v)), put (pos + i) (uleb fuel v) vec).
Proof.
  revert i v vec. induction fuel as [|fuel IH]; intros i v vec Hv Hf Hp; [lia|].
  cbn [write_unsigned_leb128_to uleb].
  destruct (unsigned_group v) as (-> & -> & ->); [lia|].
  rewrite store_put by done. cbn [panics_bind].
  destruct (Z.eqb_spec (v / 128) 0) as [E|E]; simpl negb; cbv iota.
  - do 2 f_equal. simpl. lia.
  - replace (Z.of_nat i + 1) with (Z.of_nat (S i)) by lia.
    replace (Z.of_nat (S fuel)) with (Z.succ (Z.of_nat fuel)) in Hv by lia.
    rewrite Z.pow_succ_r in Hv by lia.
    assert (0 <= v / 128 < 128 ^ Z.of_nat fuel).
    { split; [apply Z.div_pos; lia|]. apply Z.div_lt_upper_bound; lia. }
    rewrite IH; [|done| |].
    + f_equal. f_equal; [simpl; lia|]. rewrite Nat.add_succ_r. apply put_put. done.
    + destruct fuel; [simpl in *; lia|lia].
    + rewrite length_put by done. simpl. lia.
Qed.

Lemma write_unsigned_puts pos v vec :
  0 <= v < 2 ^ 128 -> (pos <= length vec)%nat ->
  write_unsigned_leb128 vec (Z.of_nat pos) v =
  Done (zlen (uleb rounds v), put pos (uleb rounds v) vec).
Proof.
  intros Hv Hp. unfold write_unsigned_leb128. fold (store pos).
  rewrite (write_unsigned_loop rounds pos 0) by (unfold rounds; lia). by rewrite Nat.add_0_r.
Qed.

Lemma signed_group v :
  Z.land (wrap 8 v) 0x7F = v `mod` 128 /\ Z.shiftr v 7 = v / 128 /\
  negb (((v / 128 =? 0) && (Z.land (v `mod` 128) 0x40 =? 0)) ||
        ((v / 128 =? -1) && negb (Z.land (v `mod` 128) 0x40 =? 0))) = negb (sleb_last v) /\
  Z.lor (v `mod` 128) 0x80 = v `mod` 128 + 128.
Proof.
  pose proof (Z.mod_pos_bound v 128 ltac:(lia)). split_and!.
  - rewrite land_7f. unfold wrap. change (2 ^ 8) with 256.
    Z.to_euclidean_division_equations; lia.
  - by rewrite Z.shiftr_div_pow2.
  - destruct (group_bits (v `mod` 128) ltac:(lia)) as [_ ->]. unfold sleb_last.
    zcases; Z.to_euclidean_division_equations; lia.
  - by apply lor_80.
Qed.

(** [k + 1] groups of seven bits hold the value and its sign. *)
Definition in_groups (k : nat) (v : Z) : Prop :=
  - 64 * 128 ^ Z.of_nat k <= v < 64 * 128 ^ Z.of_nat k.

Lemma in_groups_S k v : in_groups (S k) v <-> in_groups k (v / 128).
Proof.
  unfold in_groups. replace (Z.of_nat (S k)) with (Z.succ (Z.of_nat k)) by lia.
  rewrite Z.pow_succ_r by lia. generalize (128 ^ Z.of_nat k). intros p.
  Z.to_euclidean_division_equations; lia.
Qed.

Lemma in_groups_mono k j v : (k <= j)%nat -> in_groups k v -> in_groups j v.
Proof.
  unfold in_groups. intros Hkj.
  pose proof (Z.pow_le_mono_r 128 (Z.of_nat k) (Z.of_nat j) ltac:(lia) ltac:(lia)). lia.
Qed.

Lemma in_groups_O v : in_groups 0 v <-> sleb_last v = true.
Proof. unfold in_groups, sleb_last. simpl. rewrite andb_true_iff, Z.leb_le, Z.ltb_lt. lia. Qed.

Lemma write_signed_loop fuel pos i v vec :
  in_groups fuel v -> (pos + i <= length vec)%nat ->
  write_signed_leb128_to (S fuel) (store pos) v (Z.of_nat i) vec =
  Done (Z.of_nat (i + length (sleb (S fuel) v)), put (pos + i) (sleb (S fuel) v) vec).
Proof.
  revert i v vec. induction fuel as [|fuel IH]; intros i v vec Hv Hp;
    [|remember (S fuel) as g eqn:Hg];
    cbn [write_signed_leb128_to sleb];
    destruct (signed_group v) as (-> & -> & -> & ->); rewrite store_put by done;
    cbn [panics_bind]; rewrite negb_involutive.
  - rewrite (proj1 (in_groups_O v) Hv). simpl. do 2 f_equal. lia.
  - destruct (sleb_last v); simpl negb; cbv iota.
    + simpl. do 2 f_equal. lia.
    + replace (Z.of_nat i + 1) with (Z.of_nat (S i)) by lia.
      rewrite IH.
      * f_equal. f_equal; [simpl; lia|]. rewrite Nat.add_succ_r. by apply put_put.
      * subst g. by apply in_groups_S.
      * rewrite length_put by done. simpl. lia.
Qed.

Lemma i128_groups v : - 2 ^ 127 <= v < 2 ^ 127 -> in_groups 18 v.
Proof. unfold in_groups. lia. Qed.

Lemma write_signed_puts pos v vec :
  - 2 ^ 127 <= v < 2 ^ 127 -> (pos <= length vec)%nat ->
  write_signed_leb128 vec (Z.of_nat pos) v =
  Done (zlen (sleb rounds v), put pos (sleb rounds v) vec).
Proof.
  intros Hv Hp. unfold write_signed_leb128. fold (store pos).
  rewrite (write_signed_loop 18 pos 0); [|by apply i128_groups|lia]. by rewrite Nat.add_0_r.
Qed.

(** The number of groups is the least that holds the value. *)
Lemma sleb_length fuel v : in_groups fuel v ->
  exists k, (k <= fuel)%nat /\ length (sleb (S fuel) v) = S k /\ in_groups k v /\
    forall j, (j < k)%nat -> ~ in_groups j v.
Proof.
  revert v. induction fuel as [|fuel IH]; intros v Hv; [|remember (S fuel) as g eqn:Hg]; cbn [sleb].
  - rewrite (proj1 (in_groups_O v) Hv). exists 0%nat. split_and!; [lia|done|done|lia].
  - destruct (sleb_last v) eqn:El.
    + exists 0%nat. split_and!; [lia|done|by apply in_groups_O|lia].
    + destruct (IH (v / 128)) as (k & Hk & E & Hi & Hm);
        [subst g; by apply in_groups_S|].
      exists (S k). split_and!; [lia| |by apply in_groups_S|].
      * cbn [length]. f_equal. exact E.
      * intros [|j] Hj; [by rewrite in_groups_O, El|]. rewrite in_groups_S. apply Hm. lia.
Qed.

Lemma uleb_length fuel v :
  (1 <= length (uleb (S fuel) v) <= S fuel)%nat.
Proof.
  revert v. induction fuel as [|fuel IH]; intros v; [|remember (S fuel) as g eqn:Hg]; cbn [uleb].
  - case_match; simpl; lia.
  - case_match; [simpl; lia|]. cbn [length]. specialize (IH (v / 128)). lia.
Qed.

(** * Reading *)
Lemma read_group v (more : bool) :
  let b := byte_of (if more then v `mod` 128 + 128 else v `mod` 128) in
  Z.land (byte_val b) 0x7F = v `mod` 128 /\
  (Z.land (byte_val b) 0x80 =? 0) = negb more /\
  (Z.land (byte_val b) 0x40 =? 0) = (v `mod` 128 <? 64).
Proof.
  intros b. pose proof (Z.mod_pos_bound v 128 ltac:(lia)).
  assert (byte_val b = if more then v `mod` 128 + 128 else v `mod` 128) as ->.
  { apply byte_val_of_small. destruct more; lia. }
  rewrite land_7f. destruct (group_bits (if more then v `mod` 128 + 128 else v `mod` 128)
    ltac:(destruct more; lia)) as [-> ->].
  destruct more; split_and!; zcases; Z.to_euclidean_division_equations; lia.
Qed.

Lemma shl128_small a s : 0 <= s < 128 -> 0 <= a * 2 ^ s < 2 ^ 128 -> shl128 a s = a * 2 ^ s.
Proof.
  intros Hs Ha. unfold shl128. rewrite (Z.mod_small s) by done.
  rewrite Z.shiftl_mul_pow2 by lia. by apply wrap_small.
Qed.

(** Taking one group off the value. *)
Lemma low_group v p :
  0 <= v -> 0 < p ->
  0 <= v `mod` 128 * p <= v * p /\ v * p = v `mod` 128 * p + v / 128 * (128 * p).
Proof.
  intros Hv Hp. pose proof (Z.mod_pos_bound v 128 ltac:(lia)).
  pose proof (Z.mod_le v 128 ltac:(lia) ltac:(lia)). split; [split|].
  - apply Z.mul_nonneg_nonneg; lia.
  - apply Z.mul_le_mono_nonneg_r; lia.
  - rewrite (Z.div_mod v 128) at 1 by lia. ring.
Qed.

Lemma group_shift s : 0 <= s -> 2 ^ (s + 7) = 128 * 2 ^ s.
Proof. intros. rewrite Z.pow_add_r by lia. lia. Qed.

Lemma low_group_bound v s r :
  0 <= s -> 0 <= r < 2 ^ s -> 0 <= r + v `mod` 128 * 2 ^ s < 2 ^ (s + 7).
Proof.
  intros Hs Hr. rewrite group_shift by done. pose proof (Z.mod_pos_bound v 128 ltac:(lia)). nia.
Qed.

Lemma read_unsigned_loop_uleb fuel v rest result shift pos :
  0 <= v < 128 ^ Z.of_nat (S fuel) -> 0 <= shift < 128 -> 0 <= result < 2 ^ shift ->
  result + v * 2 ^ shift < 2 ^ 128 ->
  read_unsigned_loop (uleb (S fuel) v ++ rest) result shift pos =
  Done (result + v * 2 ^ shift, pos + zlen (uleb (S fuel) v)).
Proof.
  revert v result shift pos. induction fuel as [|fuel IH];
    intros v result shift pos Hv Hs Hr Hb; [|remember (S fuel) as g eqn:Hg]; cbn [uleb];
    pose proof (Z.pow_pos_nonneg 2 shift ltac:(lia) ltac:(lia)) as Hp;
    destruct (low_group v (2 ^ shift)) as [Hl Hd]; [lia|lia| |lia|lia|].
  - assert (v / 128 = 0) as E by (apply Z.div_small; lia). rewrite E, Z.eqb_refl. simpl.
    destruct (read_group v false) as (-> & -> & _). simpl.
    rewrite shl128_small, lor_add by lia. f_equal. f_equal; lia.
  - destruct (Z.eqb_spec (v / 128) 0) as [E|E]; simpl.
    + destruct (read_group v false) as (-> & -> & _). simpl.
      rewrite shl128_small, lor_add by lia. f_equal. f_equal; rewrite E in Hd; lia.
    + destruct (read_group v true) as (-> & -> & _). simpl.
      rewrite shl128_small, lor_add by lia.
      assert (0 <= v / 128) by (apply Z.div_pos; lia).
      pose proof (low_group_bound v shift result ltac:(lia) Hr) as Hlb.
      pose proof (group_shift shift ltac:(lia)) as E7.
      assert (shift + 7 < 128) as H7.
      { apply (Z.pow_lt_mono_r_iff 2); [lia..|]. rewrite E7. nia. }
      rewrite swrap_small by lia.
      assert (v / 128 < 128 ^ Z.of_nat g).
      { apply Z.div_lt_upper_bound; [lia|]. rewrite Nat2Z.inj_succ, Z.pow_succ_r in Hv; lia. }
      rewrite IH by (rewrite <- ?E7 in *; lia). rewrite E7. unfold zlen. cbn [length].
      f_equal. f_equal; lia.
Qed.

Lemma read_unsigned_uleb pre v rest :
  0 <= v < 2 ^ 128 ->
  read_unsigned_leb128 (pre ++ uleb rounds v ++ rest) (zlen pre) =
  Done (v, zlen (uleb rounds v)).
Proof.
  intros Hv. unfold read_unsigned_leb128, zlen at 1. rewrite Nat2Z.id, drop_app_length.
  rewrite (read_unsigned_loop_uleb 18) by lia. cbn [panics_bind]. f_equal. f_equal;
  fold (zlen pre); unfold rounds; rewrite ?Z.mul_1_r; lia.
Qed.

(** A group above [s] bits already read, at width 128. *)
Lemma swrap_above s r b :
  0 <= s < 128 -> 0 <= r < 2 ^ s ->
  swrap 128 (r + b * 2 ^ s) = r + swrap (128 - s) b * 2 ^ s.
Proof.
  intros Hs Hr. unfold swrap.
  assert (2 ^ 128 = 2 ^ s * 2 ^ (128 - s)) as E1 by (rewrite <- Z.pow_add_r by lia; f_equal; lia).
  assert (2 ^ (128 - 1) = 2 ^ (128 - s - 1) * 2 ^ s) as E2
    by (rewrite <- Z.pow_add_r by lia; f_equal; lia).
  pose proof (Z.pow_pos_nonneg 2 s ltac:(lia) ltac:(lia)).
  pose proof (Z.pow_pos_nonneg 2 (128 - s) ltac:(lia) ltac:(lia)).
  rewrite E1, E2. replace (r + b * 2 ^ s + 2 ^ (128 - s - 1) * 2 ^ s)
    with (r + (b + 2 ^ (128 - s - 1)) * 2 ^ s) by ring.
  rewrite Z.rem_mul_r by lia. rewrite Z_mod_plus_full, Z.div_add by lia.
  rewrite (Z.mod_small r), (Z.div_small r) by lia. rewrite Z.add_0_l. ring.
Qed.

Lemma ishl128_group result b s :
  0 <= s < 128 -> 0 <= result < 2 ^ s ->
  Z.lor result (ishl128 b s) = swrap 128 (result + b * 2 ^ s).
Proof.
  intros Hs Hr. unfold ishl128. rewrite (Z.mod_small s), Z.shiftl_mul_pow2 by lia.
  rewrite (swrap_above s result b) by done.
  rewrite <- (Z.add_0_l (b * 2 ^ s)), swrap_above by lia.
  rewrite Z.add_0_l, lor_add by lia. done.
Qed.

Lemma swrap_pow_small s z : 0 <= s <= 127 -> 0 <= z < 2 ^ s -> swrap 128 z = z.
Proof.
  intros Hs Hz. apply swrap_small; [lia|].
  pose proof (Z.pow_le_mono_r 2 s (128 - 1) ltac:(lia) ltac:(lia)). lia.
Qed.

Lemma mod_groups v n : 0 <= n ->
  v `mod` 2 ^ (7 + n) = v `mod` 128 + 128 * ((v / 128) `mod` 2 ^ n).
Proof.
  intros. rewrite Z.pow_add_r by lia. change (2 ^ 7) with 128.
  apply Z.rem_mul_r; [lia|]. apply Z.pow_pos_nonneg; lia.
Qed.

(** The groups are collected without their sign; the last byte has it. *)
Lemma read_signed_loop_sleb fuel v rest result shift pos n :
  in_groups fuel v -> 0 <= shift -> 0 <= result < 2 ^ shift ->
  n = zlen (sleb (S fuel) v) -> shift + 7 * n <= 133 ->
  exists b, read_signed_loop (sleb (S fuel) v ++ rest) result shift pos =
    Done (swrap 128 (result + v `mod` 2 ^ (7 * n) * 2 ^ shift), shift + 7 * n, b, pos + n) /\
    (Z.land (byte_val b) 0x40 =? 0) = (0 <=? v).
Proof.
  assert (forall v result shift pos, sleb_last v = true -> 0 <= shift <= 126 ->
    0 <= result < 2 ^ shift -> exists b,
    read_signed_loop ([byte_of (v `mod` 128)] ++ rest) result shift pos =
    Done (swrap 128 (result + v `mod` 2 ^ 7 * 2 ^ shift), shift + 7, b, pos + 1) /\
    (Z.land (byte_val b) 0x40 =? 0) = (0 <=? v)) as Hlast.
  { clear. intros v result shift pos El Hs Hr. exists (byte_of (v `mod` 128)). simpl.
    destruct (read_group v false) as (-> & -> & ->). simpl.
    rewrite ishl128_group, (swrap_small 32) by lia. split; [done|].
    unfold sleb_last in El. apply andb_true_iff in El as [H1%Z.leb_le H2%Z.ltb_lt].
    zcases; Z.to_euclidean_division_equations; lia. }
  revert v result shift pos n. induction fuel as [|fuel IH];
    intros v result shift pos n Hv Hs Hr En Hn; [|remember (S fuel) as g eqn:Hg];
    cbn [sleb] in *.
  - rewrite (proj1 (in_groups_O v) Hv) in En |- *. change (zlen _) with 1 in En. subst n.
    apply Hlast; [by apply in_groups_O|lia|done].
  - destruct (sleb_last v) eqn:El.
    { change (zlen _) with 1 in En. subst n. apply Hlast; [done|lia|done]. }
    assert (in_groups fuel (v / 128)) as Hv' by (subst g; by apply in_groups_S).
    destruct (sleb_length fuel (v / 128) Hv') as (k & _ & Hk & _). rewrite <- Hg in Hk.
    unfold zlen in En. cbn [length] in En.
    set (n' := zlen (sleb g (v / 128))). assert (n = 1 + n' /\ 1 <= n') as [En' H1]
      by (unfold n', zlen; lia).
    pose proof (low_group_bound v shift result Hs Hr) as Hlb.
    destruct (IH (v / 128) (result + v `mod` 128 * 2 ^ shift) (shift + 7) (pos + 1) n')
      as (b & Eb & Hb); [done|lia|done|done|lia|].
    exists b. split; [|rewrite Hb; zcases; Z.to_euclidean_division_equations; lia].
    simpl app. cbn [read_signed_loop]. destruct (read_group v true) as (-> & -> & _). simpl negb.
    cbv iota zeta. rewrite ishl128_group, (swrap_pow_small (shift + 7)) by lia.
    rewrite (swrap_small 32) by lia. rewrite Eb, En', (Z.mul_add_distr_l 7 1), mod_groups by lia.
    rewrite group_shift by done.
    replace (shift + (7 * 1 + 7 * n')) with (shift + 7 + 7 * n') by lia.
    replace (pos + (1 + n')) with (pos + 1 + n') by lia.
    do 5 f_equal. ring.
Qed.

(** What the reader makes of a written value. *)
Definition read_back (v : Z) : Z :=
  let n := zlen (sleb rounds v) in
  if (v <? 0) && (10 <=? n) && (n <=? 18) then v + 2 ^ (7 * n) else v.

Lemma zlen_sleb v : - 2 ^ 127 <= v < 2 ^ 127 ->
  exists k, (k <= 18)%nat /\ zlen (sleb rounds v) = Z.of_nat k + 1 /\ in_groups k v /\
    forall j, (j < k)%nat -> ~ in_groups j v.
Proof.
  intros Hv. destruct (sleb_length 18 v (i128_groups v Hv)) as (k & Hk & El & H).
  exists k. split_and!; [done| |tauto..]. unfold zlen, rounds. rewrite El. lia.
Qed.

Lemma groups_pow k : 64 * 128 ^ Z.of_nat k = 2 ^ (7 * (Z.of_nat k + 1) - 1).
Proof.
  change 128 with (2 ^ 7). rewrite <- Z.pow_mul_r by lia.
  change 64 with (2 ^ 6). rewrite <- Z.pow_add_r by lia. f_equal. lia.
Qed.

Lemma mod_neg v m : 0 < m -> - m <= v < 0 -> v `mod` m = v + m.
Proof.
  intros Hm Hv. symmetry. apply (Zmod_unique v m (-1)); lia.
Qed.

Lemma read_signed_sleb pre v rest :
  - 2 ^ 127 <= v < 2 ^ 127 ->
  read_signed_leb128 (pre ++ sleb rounds v ++ rest) (zlen pre) =
  Done (read_back v, zlen (sleb rounds v)).
Proof.
  intros Hv. unfold read_signed_leb128, zlen at 1. rewrite Nat2Z.id, drop_app_length.
  destruct (zlen_sleb v Hv) as (k & Hk & En & [Hlo Hhi] & _).
  destruct (read_signed_loop_sleb 18 v rest 0 0 (zlen pre) (zlen (sleb rounds v))
    (i128_groups v Hv)) as (b & Eb & Hb); [lia|lia|done|lia|].
  fold rounds in Eb. rewrite Eb. cbn [panics_bind]. rewrite Hb. unfold read_back. set (n := zlen _) in *.
  rewrite !Z.add_0_l, Z.mul_1_r. f_equal. f_equal; [|lia].
  assert (64 * 128 ^ Z.of_nat k = 2 ^ (7 * n - 1)) as Eg by (rewrite groups_pow; f_equal; lia).
  assert (2 ^ (7 * n) = 2 * 2 ^ (7 * n - 1)) as E2
    by (rewrite <- Z.pow_succ_r by lia; f_equal; lia).
  destruct (Z.ltb_spec v 0) as [Hneg|Hpos]; simpl.
  - rewrite mod_neg by lia. destruct (Z.leb_spec 0 v); [lia|]. rewrite andb_true_r. simpl.
    destruct (decide (n = 19)) as [E19|].
    + rewrite E19 in *. simpl. change (v + 2 ^ (7 * 19)) with (v + 32 * 2 ^ 128).
      unfold swrap. replace (v + 32 * 2 ^ 128 + 2 ^ (128 - 1))
        with (v + 2 ^ (128 - 1) + 32 * 2 ^ 128) by lia.
      rewrite Z_mod_plus_full, Z.mod_small; lia.
    + rewrite (swrap_pow_small (7 * n)) by lia.
      destruct (Z.ltb_spec (7 * n) 64), (Z.leb_spec 10 n), (Z.leb_spec n 18);
        try lia; simpl; [|done].
      unfold ishl128. rewrite (Z.mod_small (7 * n)), Z.shiftl_mul_pow2 by lia.
      pose proof (Z.pow_le_mono_r 2 (7 * n) 63 ltac:(lia) ltac:(lia)).
      pose proof (Z.pow_pos_nonneg 2 (7 * n) ltac:(lia) ltac:(lia)).
      rewrite Z.mul_1_l, (swrap_small 128 (2 ^ (7 * n))), swrap_small by lia.
      rewrite <- (Z.mul_1_l (2 ^ (7 * n))) at 2. rewrite <- Z.mul_opp_l, lor_add by lia. lia.
  - rewrite Z.mod_small by lia. destruct (Z.leb_spec 0 v); [|lia]. rewrite andb_false_r.
    apply swrap_small; lia.
Qed.

(** The cast to a narrow type drops what the reader did not extend. *)
Lemma swrap_read_back w v :
  1 <= w <= 64 -> - 2 ^ (w - 1) <= v < 2 ^ (w - 1) -> swrap w (read_back v) = v.
Proof.
  intros Hw Hv. unfold read_back. destruct (_ && _) eqn:Eb; [|apply swrap_small; lia].
  rewrite !andb_true_iff, !Z.leb_le in Eb.
  replace (2 ^ (7 * zlen (sleb rounds v))) with (2 ^ (7 * zlen (sleb rounds v) - w) * 2 ^ w)
    by (rewrite <- Z.pow_add_r by lia; f_equal; lia).
  unfold swrap. rewrite <- Z.add_assoc, (Z.add_comm (_ * _)), Z.add_assoc, Z_mod_plus_full.
  apply swrap_small; lia.
Qed.

#[global] Arguments uleb : simpl never.
#[global] Arguments sleb : simpl never.

(** * The theorems *)

(** What is left of a vector around the bytes put into it. *)
Lemma put_parts pos bs vec : (pos <= length vec)%nat ->
  exists pre rest, put pos bs vec = pre ++ bs ++ rest /\ zlen pre = Z.of_nat pos /\
    pre = take pos vec /\ rest = drop (pos + length bs) vec.
Proof.
  intros Hp. eexists _, _. split; [reflexivity|]. unfold zlen. rewrite length_take.
  split_and!; [lia|done..].
Qed.

(** Unsigned integers survive: writing any [u128] at any position inside a
    vector or at its end succeeds in 1 to 19 bytes, leaves the bytes before and
    after them as they were, and reading at that position gives the value and
    the number of bytes written. *)
Theorem unsigned_leb128_roundtrip pos v vec :
  0 <= v < 2 ^ 128 -> (pos <= length vec)%nat ->
  exists n vec', write_unsigned_leb128 vec (Z.of_nat pos) v = Done (n, vec') /\
    1 <= n <= 19 /\ take pos vec' = take pos vec /\
    drop (pos + Z.to_nat n) vec' = drop (pos + Z.to_nat n) vec /\
    read_unsigned_leb128 vec' (Z.of_nat pos) = Done (v, n).
Proof.
  intros Hv Hp. set (bs := uleb rounds v).
  assert (1 <= length bs <= 19)%nat as Hl by apply (uleb_length 18).
  destruct (put_parts pos bs vec Hp) as (pre & rest & E & El & -> & ->).
  exists (zlen bs), (put pos bs vec). rewrite E. split_and!.
  - rewrite <- E. by apply write_unsigned_puts.
  - unfold zlen. lia.
  - unfold zlen. lia.
  - unfold zlen in El. apply take_app_length'. lia.
  - unfold zlen in *. rewrite Nat2Z.id, app_assoc. apply drop_app_length'.
    rewrite length_app. lia.
  - rewrite <- El. by apply read_unsigned_uleb.
Qed.

Lemma unsigned_leb128_roundtrip_witness :
  exists n vec', write_unsigned_leb128 [Byte.xaa; Byte.xbb; Byte.xcc] 1 300 = Done (n, vec') /\
    1 <= n <= 19 /\ take 1 vec' = [Byte.xaa] /\ drop (1 + Z.to_nat n) vec' =
      drop (1 + Z.to_nat n) [Byte.xaa; Byte.xbb; Byte.xcc] /\
    read_unsigned_leb128 vec' 1 = Done (300, n).
Proof.
  apply (unsigned_leb128_roundtrip 1 300 [Byte.xaa; Byte.xbb; Byte.xcc]); simpl; lia.
Defined.

(** Signed integers of up to 64 bits survive: a value of an [iW] type with
    [W <= 64], written anywhere in a vector, is read back to a 128-bit value
    whose cast to [iW] is the value, with the number of bytes written. *)
Theorem signed_leb128_roundtrip w pos v vec :
  1 <= w <= 64 -> - 2 ^ (w - 1) <= v < 2 ^ (w - 1) -> (pos <= length vec)%nat ->
  exists n vec' r, write_signed_leb128 vec (Z.of_nat pos) v = Done (n, vec') /\
    1 <= n <= 10 /\ take pos vec' = take pos vec /\
    drop (pos + Z.to_nat n) vec' = drop (pos + Z.to_nat n) vec /\
    read_signed_leb128 vec' (Z.of_nat pos) = Done (r, n) /\ swrap w r = v.
Proof.
  intros Hw Hv Hp. set (bs := sleb rounds v).
  pose proof (Z.pow_le_mono_r 2 (w - 1) 63 ltac:(lia) ltac:(lia)) as H63.
  assert (- 2 ^ 127 <= v < 2 ^ 127) as Hv' by lia.
  destruct (zlen_sleb v Hv') as (k & Hk & En & _ & Hmin). fold bs in En.
  assert (k <= 9)%nat as Hk9.
  { destruct (decide (9 < k)%nat) as [Hlt|]; [|lia]. destruct (Hmin 9%nat Hlt).
    unfold in_groups. lia. }
  destruct (put_parts pos bs vec Hp) as (pre & rest & E & El & -> & ->).
  exists (zlen bs), (put pos bs vec), (read_back v). rewrite E. split_and!.
  - rewrite <- E. by apply write_signed_puts.
  - lia.
  - lia.
  - unfold zlen in El. apply take_app_length'. lia.
  - unfold zlen in *. rewrite Nat2Z.id, app_assoc. apply drop_app_length'.
    rewrite length_app. lia.
  - rewrite <- El. by apply read_signed_sleb.
  - by apply swrap_read_back.
Qed.

Lemma signed_leb128_roundtrip_witness :
  exists n vec' r, write_signed_leb128 [] 0 (- 2 ^ 63) = Done (n, vec') /\
    1 <= n <= 10 /\ take 0 vec' = [] /\ drop (0 + Z.to_nat n) vec' = drop (0 + Z.to_nat n) [] /\
    read_signed_leb128 vec' 0 = Done (r, n) /\ swrap 64 r = - 2 ^ 63.
Proof. apply (signed_leb128_roundtrip 64 0 (- 2 ^ 63) []); simpl; lia. Defined.

(** The values whose sign the reader restores. *)
Lemma read_back_iff v : - 2 ^ 127 <= v < 2 ^ 127 ->
  (read_back v = v <-> v < - 2 ^ 125 \/ - 2 ^ 62 <= v) /\ (read_back v <> v -> 0 < read_back v).
Proof.
  intros Hv. destruct (zlen_sleb v Hv) as (k & Hk & En & Hi & Hmin).
  unfold read_back. set (n := zlen (sleb rounds v)) in *.
  assert (forall j, (j < k)%nat <-> ~ in_groups j v) as Hj.
  { intros j. split; [apply Hmin|]. intros Hn. destruct (decide (j < k)%nat); [done|].
    destruct Hn. apply (in_groups_mono k); [lia|done]. }
  pose proof (Hj 8%nat) as H8. pose proof (Hj 17%nat) as H17. clear Hj Hmin.
  destruct Hi as [Hlo _]. unfold in_groups in H8, H17.
  assert (0 < 2 ^ (7 * n) /\ - 2 ^ (7 * n) < v) as [Hp0 Hlt].
  { replace (7 * n) with (Z.succ (7 * (Z.of_nat k + 1) - 1)) by lia.
    rewrite Z.pow_succ_r, <- groups_pow by lia.
    pose proof (Z.pow_pos_nonneg 128 (Z.of_nat k) ltac:(lia) ltac:(lia)). lia. }
  change (64 * 128 ^ Z.of_nat 8) with (2 ^ 62) in H8.
  change (64 * 128 ^ Z.of_nat 17) with (2 ^ 125) in H17.
  destruct (Z.ltb_spec v 0), (Z.leb_spec 10 n), (Z.leb_spec n 18); simpl; lia.
Qed.

Lemma read_back_kept v : - 2 ^ 127 <= v < 2 ^ 127 ->
  v < - 2 ^ 125 \/ - 2 ^ 62 <= v -> read_back v = v.
Proof. intros Hv. by apply read_back_iff. Qed.

(** Most negative [i128] values do not survive: the reader extends the sign
    only below 64 bits.  It gives an [i128] back exactly when the value is at
    least -2^62 or below -2^125; every value in between is read as a positive
    number. *)
Theorem signed_leb128_i128 pos v vec :
  - 2 ^ 127 <= v < 2 ^ 127 -> (pos <= length vec)%nat ->
  exists n vec' r, write_signed_leb128 vec (Z.of_nat pos) v = Done (n, vec') /\
    read_signed_leb128 vec' (Z.of_nat pos) = Done (r, n) /\
    (r = v <-> v < - 2 ^ 125 \/ - 2 ^ 62 <= v) /\ (r <> v -> 0 < r).
Proof.
  intros Hv Hp. set (bs := sleb rounds v).
  destruct (put_parts pos bs vec Hp) as (pre & rest & E & El & -> & ->).
  exists (zlen bs), (put pos bs vec), (read_back v). rewrite E.
  split; [rewrite <- E; by apply write_signed_puts|].
  split; [rewrite <- El; by apply read_signed_sleb|].
  by apply read_back_iff.
Qed.

Lemma signed_leb128_i128_witness :
  exists n vec' r, write_signed_leb128 [] 0 (- 2 ^ 100) = Done (n, vec') /\
    read_signed_leb128 vec' 0 = Done (r, n) /\
    (r = - 2 ^ 100 <-> - 2 ^ 100 < - 2 ^ 125 \/ - 2 ^ 62 <= - 2 ^ 100) /\
    (r <> - 2 ^ 100 -> 0 < r).
Proof. apply (signed_leb128_i128 0 (- 2 ^ 100) []); simpl; lia. Defined.
