(* ===== verification/Opaque.v ===== *)
(** The encoder and decoder of sgx_serialize: the traits of serialize.rs and
    their implementation in opaque.rs over a [Cursor<Vec<u8>>] (cursor.rs of
    sgx_tstd) and a byte slice.

    A method of a trait is code on the encoder's or decoder's state that returns
    a [Result] and may panic.  Numbers of any width are integers; a method is
    called on values of its type.  A floating-point number is its bits, a [char]
    its code point and a [str] its bytes, valid UTF-8. *)
From Stdlib Require Import ZArith Lia Strings.Byte Strings.String.
From stdpp Require Import base numbers list option tactics.
From S2P Require Import Prelude Leb128.

(** * Panicking state code *)
Definition PST (S E A : Type) : Type := S -> panics (result E A * S).

Definition pst_ret {S E A} (a : A) : PST S E A := fun s => Done (Ok a, s).
Definition pst_err {S E A} (e : E) : PST S E A := fun s => Done (Err e, s).
Definition pst_panic {S E A} : PST S E A := fun _ => Panic.
Definition pst_bind {S E A B} (m : PST S E A) (k : A -> PST S E B) : PST S E B :=
  fun s => panics_bind (m s) (fun '(r, s') =>
    match r with Ok a => k a s' | Err e => Done (Err e, s') end).

Notation "'try' x := m 'in' k" := (pst_bind m (fun x => k))
  (at level 10, x pattern, k at level 200) : rust_scope.

(** * The traits: primitive methods *)
Class Encoder (S E : Type) := {
  emit_nil : PST S E unit;
  emit_usize : Z -> PST S E unit;
  emit_u128 : Z -> PST S E unit;
  emit_u64 : Z -> PST S E unit;
  emit_u32 : Z -> PST S E unit;
  emit_u16 : Z -> PST S E unit;
  emit_u8 : Z -> PST S E unit;
  emit_isize : Z -> PST S E unit;
  emit_i128 : Z -> PST S E unit;
  emit_i64 : Z -> PST S E unit;
  emit_i32 : Z -> PST S E unit;
  emit_i16 : Z -> PST S E unit;
  emit_i8 : Z -> PST S E unit;
  emit_bool : bool -> PST S E unit;
  emit_f64 : Z -> PST S E unit;
  emit_f32 : Z -> PST S E unit;
  emit_char : Z -> PST S E unit;
  emit_str : list byte -> PST S E unit
}.

Class Decoder (D E : Type) := {
  read_nil : PST D E unit;
  read_usize : PST D E Z;
  read_u128 : PST D E Z;
  read_u64 : PST D E Z;
  read_u32 : PST D E Z;
  read_u16 : PST D E Z;
  read_u8 : PST D E Z;
  read_isize : PST D E Z;
  read_i128 : PST D E Z;
  read_i64 : PST D E Z;
  read_i32 : PST D E Z;
  read_i16 : PST D E Z;
  read_i8 : PST D E Z;
  read_bool : PST D E bool;
  read_f64 : PST D E Z;
  read_f32 : PST D E Z;
  read_char : PST D E Z;
  read_str : PST D E (list byte);
  error : string -> E
}.

(** * The traits: default methods

    The names, lengths and indices of the signatures that the bodies ignore are
    left out; a closure is the code it runs. *)
Section emit.
Context {S E : Type} `{Encoder S E}.

Definition emit_enum (f : PST S E unit) : PST S E unit := f.

Definition emit_enum_variant (v_id : Z) (f : PST S E unit) : PST S E unit :=
  try _ := emit_usize v_id in f.
Definition emit_enum_variant_arg (f : PST S E unit) : PST S E unit := f.

Definition emit_enum_struct_variant (v_id : Z) (f : PST S E unit) : PST S E unit :=
  emit_enum_variant v_id f.
Definition emit_enum_struct_variant_field (f : PST S E unit) : PST S E unit :=
  emit_enum_variant_arg f.

Definition emit_struct (f : PST S E unit) : PST S E unit := f.
Definition emit_struct_field (f : PST S E unit) : PST S E unit := f.

Definition emit_tuple (f : PST S E unit) : PST S E unit := f.
Definition emit_tuple_arg (f : PST S E unit) : PST S E unit := f.
Definition emit_tuple_struct (f : PST S E unit) : PST S E unit := emit_tuple f.
Definition emit_tuple_struct_arg (f : PST S E unit) : PST S E unit := emit_tuple_arg f.

Definition emit_option (f : PST S E unit) : PST S E unit := emit_enum f.
Definition emit_option_none : PST S E unit := emit_enum_variant 0 (pst_ret tt).
Definition emit_option_some (f : PST S E unit) : PST S E unit := emit_enum_variant 1 f.

Definition emit_seq (len : Z) (f : PST S E unit) : PST S E unit :=
  try _ := emit_usize len in f.
Definition emit_seq_elt (f : PST S E unit) : PST S E unit := f.

Definition emit_map (len : Z) (f : PST S E unit) : PST S E unit :=
  try _ := emit_usize len in f.
Definition emit_map_elt_key (f : PST S E unit) : PST S E unit := f.
Definition emit_map_elt_val (f : PST S E unit) : PST S E unit := f.
End emit.

Section read.
Context {D E : Type} `{Decoder D E}.

Definition read_enum {T} (f : PST D E T) : PST D E T := f.

Definition read_enum_variant {T} (f : Z -> PST D E T) : PST D E T :=
  try disr := read_usize in f disr.
Definition read_enum_variant_arg {T} (f : PST D E T) : PST D E T := f.

Definition read_enum_struct_variant {T} (f : Z -> PST D E T) : PST D E T :=
  read_enum_variant f.
Definition read_enum_struct_variant_field {T} (f : PST D E T) : PST D E T :=
  read_enum_variant_arg f.

Definition read_struct {T} (f : PST D E T) : PST D E T := f.
Definition read_struct_field {T} (f : PST D E T) : PST D E T := f.

Definition read_tuple {T} (f : PST D E T) : PST D E T := f.
Definition read_tuple_arg {T} (f : PST D E T) : PST D E T := f.
Definition read_tuple_struct {T} (f : PST D E T) : PST D E T := read_tuple f.
Definition read_tuple_struct_arg {T} (f : PST D E T) : PST D E T := read_tuple_arg f.

Definition read_option {T} (f : bool -> PST D E T) : PST D E T :=
  read_enum (read_enum_variant (fun idx =>
    if idx =? 0 then f false
    else if idx =? 1 then f true
    else pst_err (error "read_option: expected 0 for None or 1 for Some"))).

Definition read_seq {T} (f : Z -> PST D E T) : PST D E T :=
  try len := read_usize in f len.
Definition read_seq_elt {T} (f : PST D E T) : PST D E T := f.

Definition read_map {T} (f : Z -> PST D E T) : PST D E T :=
  try len := read_usize in f len.
Definition read_map_elt_key {T} (f : PST D E T) : PST D E T := f.
Definition read_map_elt_val {T} (f : PST D E T) : PST D E T := f.
End read.

(** * [Cursor<Vec<u8>>] *)
Record Cursor := { cur_inner : list byte; cur_pos : Z }.

Definition cursor_new : Cursor := {| cur_inner := []; cur_pos := 0 |}.

(** [vec_write] takes the whole buffer in one call. *)
Definition vec_write (buf : list byte) (c : Cursor) : Cursor :=
  let pos := Z.to_nat (cur_pos c) in
  let vec := cur_inner c in
  let len := length vec in
  let vec := if (len <? pos)%nat then vec ++ zeros (pos - len) else vec in
  let space := (length vec - pos)%nat in
  let left := take (Nat.min space (length buf)) buf in
  let right := drop (Nat.min space (length buf)) buf in
  let vec := take pos vec ++ left ++ drop (pos + length left) vec in
  {| cur_inner := vec ++ right; cur_pos := cur_pos c + zlen buf |}.

(** * The encoder of opaque.rs *)
Definition write_uleb128 (value : Z) : PST Cursor unit unit := fun c =>
  panics_bind (write_unsigned_leb128 (cur_inner c) (cur_pos c) value) (fun '(n, vec) =>
    Done (Ok tt, {| cur_inner := vec; cur_pos := cur_pos c + n |})).

Definition write_sleb128 (value : Z) : PST Cursor unit unit := fun c =>
  panics_bind (write_signed_leb128 (cur_inner c) (cur_pos c) value) (fun '(n, vec) =>
    Done (Ok tt, {| cur_inner := vec; cur_pos := cur_pos c + n |})).

(** [write_all] calls [write] while there is something left. *)
Definition write_all (buf : list byte) : PST Cursor unit unit := fun c =>
  Done (Ok tt, match buf with [] => c | _ => vec_write buf c end).

Definition opaque_encoder : Encoder Cursor unit := {|
  emit_nil := pst_ret tt;
  emit_usize := write_uleb128;
  emit_u128 := write_uleb128;
  emit_u64 := write_uleb128;
  emit_u32 := write_uleb128;
  emit_u16 := write_uleb128;
  emit_u8 v := write_all [byte_of v];
  emit_isize := write_sleb128;
  emit_i128 := write_sleb128;
  emit_i64 := write_sleb128;
  emit_i32 := write_sleb128;
  emit_i16 := write_sleb128;
  emit_i8 v := write_all [byte_of v];
  emit_bool v := write_all [byte_of (if v : bool then 1 else 0)];
  emit_f64 := write_uleb128;
  emit_f32 := write_uleb128;
  emit_char := write_uleb128;
  emit_str v := try _ := write_uleb128 (zlen v) in write_all v
|}.
#[export] Existing Instance opaque_encoder.

(** * The decoder of opaque.rs *)
Record OpaqueDecoder := { dec_data : list byte; dec_position : Z }.

Definition advance (n : Z) (d : OpaqueDecoder) : OpaqueDecoder :=
  {| dec_data := dec_data d; dec_position := dec_position d + n |}.

Definition read_uleb128 (cast : Z -> Z) : PST OpaqueDecoder string Z := fun d =>
  panics_bind (read_unsigned_leb128 (dec_data d) (dec_position d)) (fun '(value, n) =>
    Done (Ok (cast value), advance n d)).

Definition read_sleb128 (cast : Z -> Z) : PST OpaqueDecoder string Z := fun d =>
  panics_bind (read_signed_leb128 (dec_data d) (dec_position d)) (fun '(value, n) =>
    Done (Ok (cast value), advance n d)).

(** [self.data[self.position]] *)
Definition read_byte : PST OpaqueDecoder string byte := fun d =>
  match dec_data d !! Z.to_nat (dec_position d) with
  | Some b => Done (Ok b, advance 1 d)
  | None => Panic
  end.

(** [char::from_u32] *)
Definition char_valid (c : Z) : bool :=
  ((0 <=? c) && (c <? 0xD800)) || ((0xE000 <=? c) && (c <=? 0x10FFFF)).

(** [str::from_utf8]: the well-formed byte sequences of the Unicode standard. *)
Definition between (lo hi : Z) (b : byte) : bool := (lo <=? byte_val b) && (byte_val b <=? hi).
Definition continuation : byte -> bool := between 0x80 0xBF.

Fixpoint utf8_valid (bs : list byte) : bool :=
  match bs with
  | [] => true
  | b0 :: r0 =>
      if between 0 0x7F b0 then utf8_valid r0
      else match r0 with
      | [] => false
      | b1 :: r1 =>
          if between 0xC2 0xDF b0 then continuation b1 && utf8_valid r1
          else match r1 with
          | [] => false
          | b2 :: r2 =>
              if between 0xE0 0xEF b0 then
                between (if byte_val b0 =? 0xE0 then 0xA0 else 0x80)
                  (if byte_val b0 =? 0xED then 0x9F else 0xBF) b1 &&
                continuation b2 && utf8_valid r2
              else match r2 with
              | [] => false
              | b3 :: r3 =>
                  between 0xF0 0xF4 b0 &&
                  between (if byte_val b0 =? 0xF0 then 0x90 else 0x80)
                    (if byte_val b0 =? 0xF4 then 0x8F else 0xBF) b1 &&
                  continuation b2 && continuation b3 && utf8_valid r3
              end
          end
      end
  end.

Definition opaque_read_str : PST OpaqueDecoder string (list byte) :=
  try len := read_uleb128 (wrap 64) in fun d =>
    let start := dec_position d in
    if start + len <=? zlen (dec_data d) then
      let s := take (Z.to_nat len) (drop (Z.to_nat start) (dec_data d)) in
      if utf8_valid s then Done (Ok s, advance len d) else Panic
    else Panic.

Definition opaque_decoder : Decoder OpaqueDecoder string := {|
  read_nil := pst_ret tt;
  read_u128 := read_uleb128 (wrap 128);
  read_u64 := read_uleb128 (wrap 64);
  read_u32 := read_uleb128 (wrap 32);
  read_u16 := read_uleb128 (wrap 16);
  read_u8 := try b := read_byte in pst_ret (byte_val b);
  read_usize := read_uleb128 (wrap 64);
  read_i128 := read_sleb128 (swrap 128);
  read_i64 := read_sleb128 (swrap 64);
  read_i32 := read_sleb128 (swrap 32);
  read_i16 := read_sleb128 (swrap 16);
  read_i8 := try b := read_byte in pst_ret (swrap 8 (byte_val b));
  read_isize := read_sleb128 (swrap 64);
  read_bool := try b := read_byte in pst_ret (negb (byte_val b =? 0));
  read_f64 := read_uleb128 (wrap 64);
  read_f32 := read_uleb128 (wrap 32);
  read_char := try bits := read_uleb128 (wrap 32) in
    if char_valid bits then pst_ret bits else pst_panic;
  read_str := opaque_read_str;
  error err := err
|}.
#[export] Existing Instance opaque_decoder.

(** * What the methods do to a cursor and a decoder *)
Definition cur_ok (c : Cursor) : Prop := 0 <= cur_pos c <= zlen (cur_inner c).

(** The cursor after [bs] has been written. *)
Definition cursor_put (bs : list byte) (c : Cursor) : Cursor :=
  {| cur_inner := put (Z.to_nat (cur_pos c)) bs (cur_inner c); cur_pos := cur_pos c + zlen bs |}.

Lemma put_nil pos vec : put pos [] vec = vec.
Proof. unfold put. rewrite Nat.add_0_r. apply take_drop. Qed.

Lemma cursor_put_nil c : cursor_put [] c = c.
Proof.
  unfold cursor_put. destruct c as [v p]. simpl. rewrite put_nil. f_equal. unfold zlen. simpl. lia.
Qed.

Lemma cursor_put_ok bs c : cur_ok c -> cur_ok (cursor_put bs c).
Proof.
  unfold cur_ok, cursor_put, zlen. intros. simpl. rewrite length_put; lia.
Qed.

Lemma put_app pos a b vec : (pos <= length vec)%nat ->
  put (pos + length a) b (put pos a vec) = put pos (a ++ b) vec.
Proof.
  revert pos vec. induction a as [|x a IH]; intros pos vec Hp.
  - by rewrite put_nil, Nat.add_0_r.
  - simpl. rewrite <- (put_put vec pos x a), <- (put_put vec pos x (a ++ b)) by done.
    rewrite Nat.add_succ_r. apply (IH (S pos)). rewrite length_put; simpl; lia.
Qed.

Lemma cursor_put_app a b c : cur_ok c -> cursor_put b (cursor_put a c) = cursor_put (a ++ b) c.
Proof.
  intros Hc. unfold cur_ok, cursor_put, zlen in *. simpl. f_equal.
  - rewrite <- put_app by lia. f_equal. lia.
  - rewrite length_app. lia.
Qed.

Lemma vec_write_put buf c : cur_ok c -> vec_write buf c = cursor_put buf c.
Proof.
  unfold cur_ok, vec_write, cursor_put, zlen. intros Hc. f_equal.
  destruct (Nat.ltb_spec (length (cur_inner c)) (Z.to_nat (cur_pos c))); [lia|].
  unfold put. set (p := Z.to_nat (cur_pos c)).
  destruct (decide (length buf <= length (cur_inner c) - p)%nat).
  - rewrite Nat.min_r, (take_ge buf), (drop_ge buf) by lia. by rewrite app_nil_r.
  - rewrite Nat.min_l, length_take_le by lia.
    rewrite !(drop_ge (cur_inner c)) by lia. rewrite !app_nil_r, <- app_assoc.
    by rewrite take_drop.
Qed.

Lemma write_all_puts buf c : cur_ok c -> write_all buf c = Done (Ok tt, cursor_put buf c).
Proof.
  intros Hc. unfold write_all. destruct buf; [by rewrite cursor_put_nil|].
  by rewrite vec_write_put.
Qed.

Lemma write_uleb128_puts v c : 0 <= v < 2 ^ 128 -> cur_ok c ->
  write_uleb128 v c = Done (Ok tt, cursor_put (uleb rounds v) c).
Proof.
  intros Hv Hc. unfold write_uleb128, cur_ok, zlen in *.
  replace (cur_pos c) with (Z.of_nat (Z.to_nat (cur_pos c))) at 1 by lia.
  rewrite write_unsigned_puts by (done || lia). done.
Qed.

Lemma write_sleb128_puts v c : - 2 ^ 127 <= v < 2 ^ 127 -> cur_ok c ->
  write_sleb128 v c = Done (Ok tt, cursor_put (sleb rounds v) c).
Proof.
  intros Hv Hc. unfold write_sleb128, cur_ok, zlen in *.
  replace (cur_pos c) with (Z.of_nat (Z.to_nat (cur_pos c))) at 1 by lia.
  rewrite write_signed_puts by (done || lia). done.
Qed.

(** A decoder that has [bs] in front of it, and the same one past them. *)
Definition at_bytes (pre bs rest : list byte) : OpaqueDecoder :=
  {| dec_data := pre ++ bs ++ rest; dec_position := zlen pre |}.

Lemma advance_past pre bs rest n : n = zlen bs ->
  advance n (at_bytes pre bs rest) = at_bytes (pre ++ bs) [] rest.
Proof.
  intros ->. unfold advance, at_bytes. simpl. by rewrite zlen_app, <- app_assoc.
Qed.

Lemma read_uleb128_reads cast v pre rest : 0 <= v < 2 ^ 128 ->
  read_uleb128 cast (at_bytes pre (uleb rounds v) rest) =
  Done (Ok (cast v), at_bytes (pre ++ uleb rounds v) [] rest).
Proof.
  intros Hv. unfold read_uleb128. simpl dec_data. simpl dec_position.
  rewrite read_unsigned_uleb by done. cbn [panics_bind]. by rewrite advance_past.
Qed.

Lemma read_sleb128_reads cast v pre rest : - 2 ^ 127 <= v < 2 ^ 127 ->
  read_sleb128 cast (at_bytes pre (sleb rounds v) rest) =
  Done (Ok (cast (read_back v)), at_bytes (pre ++ sleb rounds v) [] rest).
Proof.
  intros Hv. unfold read_sleb128. simpl dec_data. simpl dec_position.
  rewrite read_signed_sleb by done. cbn [panics_bind]. by rewrite advance_past.
Qed.

Lemma read_byte_reads b pre rest :
  read_byte (at_bytes pre [b] rest) = Done (Ok b, at_bytes (pre ++ [b]) [] rest).
Proof.
  unfold read_byte. simpl. unfold zlen. rewrite Nat2Z.id, list_lookup_middle by done.
  by rewrite <- (advance_past pre [b] rest 1).
Qed.

Lemma read_part (pre s rest : list byte) :
  take (Z.to_nat (zlen s)) (drop (Z.to_nat (zlen pre)) (pre ++ s ++ rest)) = s.
Proof. unfold zlen. by rewrite !Nat2Z.id, drop_app_length, take_app_length. Qed.

Lemma opaque_read_str_reads s pre rest : zlen s < 2 ^ 64 -> utf8_valid s = true ->
  opaque_read_str (at_bytes pre (uleb rounds (zlen s) ++ s) rest) =
  Done (Ok s, at_bytes (pre ++ uleb rounds (zlen s) ++ s) [] rest).
Proof.
  intros Hl Hs. pose proof (zlen_nonneg s). unfold opaque_read_str, pst_bind.
  replace (at_bytes pre (uleb rounds (zlen s) ++ s) rest)
    with (at_bytes pre (uleb rounds (zlen s)) (s ++ rest))
    by (unfold at_bytes; by rewrite <- app_assoc).
  rewrite read_uleb128_reads by lia. cbn [panics_bind]. rewrite wrap_small by lia.
  unfold at_bytes at 1 2 3 4. simpl dec_position. simpl dec_data.
  destruct (Z.leb_spec (zlen (pre ++ uleb rounds (zlen s)) + zlen s)
    (zlen ((pre ++ uleb rounds (zlen s)) ++ s ++ rest))) as [|Hx];
    [|rewrite !zlen_app in Hx; pose proof (zlen_nonneg rest); lia].
  rewrite read_part, Hs. rewrite app_assoc. f_equal. f_equal.
  unfold advance, at_bytes. simpl. by rewrite !zlen_app, <- !app_assoc.
Qed.
