(* ===== verification/Serialize.v ===== *)
(** The types that sgx_serialize can encode (serialize.rs), with the proof that
    its opaque encoder and decoder are inverse to each other.

    A Rust [impl Serializable for T] and [impl DeSerializable for T] are the two
    fields of a [Serde T]; the impl of a container takes the [Serde] of its
    elements.  A [Box], [Rc], [Arc] or [Cell] is the value in it; a [RefCell] has
    its borrow flag.  A tuple is a nested pair: [emit_tuple] and
    [emit_tuple_arg] write nothing of their own. *)
From Stdlib Require Import ZArith Lia Strings.Byte Strings.String.
From stdpp Require Import base numbers list option tactics gmap.
From S2P Require Import Prelude Leb128 Opaque.

Record Serde (T : Type) := {
  encode : forall {S E} `{Encoder S E}, T -> PST S E unit;
  decode : forall {D E} `{Decoder D E}, PST D E T
}.
Arguments encode {T} _ {S E _} _ _.
Arguments decode {T} _ {D E _} _.

Definition isize_max : Z := 2 ^ 63 - 1.

(** * Primitive types *)
Definition usize_serde : Serde Z :=
  {| encode S E _ x := emit_usize x; decode D E _ := read_usize |}.
Definition u8_serde : Serde Z :=
  {| encode S E _ x := emit_u8 x; decode D E _ := read_u8 |}.
Definition u16_serde : Serde Z :=
  {| encode S E _ x := emit_u16 x; decode D E _ := read_u16 |}.
Definition u32_serde : Serde Z :=
  {| encode S E _ x := emit_u32 x; decode D E _ := read_u32 |}.
Definition u64_serde : Serde Z :=
  {| encode S E _ x := emit_u64 x; decode D E _ := read_u64 |}.
Definition u128_serde : Serde Z :=
  {| encode S E _ x := emit_u128 x; decode D E _ := read_u128 |}.
Definition isize_serde : Serde Z :=
  {| encode S E _ x := emit_isize x; decode D E _ := read_isize |}.
Definition i8_serde : Serde Z :=
  {| encode S E _ x := emit_i8 x; decode D E _ := read_i8 |}.
Definition i16_serde : Serde Z :=
  {| encode S E _ x := emit_i16 x; decode D E _ := read_i16 |}.
Definition i32_serde : Serde Z :=
  {| encode S E _ x := emit_i32 x; decode D E _ := read_i32 |}.
Definition i64_serde : Serde Z :=
  {| encode S E _ x := emit_i64 x; decode D E _ := read_i64 |}.
Definition i128_serde : Serde Z :=
  {| encode S E _ x := emit_i128 x; decode D E _ := read_i128 |}.
Definition f32_serde : Serde Z :=
  {| encode S E _ x := emit_f32 x; decode D E _ := read_f32 |}.
Definition f64_serde : Serde Z :=
  {| encode S E _ x := emit_f64 x; decode D E _ := read_f64 |}.
Definition bool_serde : Serde bool :=
  {| encode S E _ x := emit_bool x; decode D E _ := read_bool |}.
Definition char_serde : Serde Z :=
  {| encode S E _ x := emit_char x; decode D E _ := read_char |}.
Definition unit_serde : Serde unit :=
  {| encode S E _ _ := emit_nil; decode D E _ := read_nil |}.

(** [read_str()?.into_owned()] *)
Definition String_serde : Serde (list byte) :=
  {| encode S E _ x := emit_str x;
     decode D E _ := try s := read_str in pst_ret s |}.

(** [to_str().unwrap()]: a path that is not UTF-8 panics. *)
Definition PathBuf_serde : Serde (list byte) :=
  {| encode S E _ x := if utf8_valid x then encode String_serde x else pst_panic;
     decode D E _ := try bytes := decode String_serde in pst_ret bytes |}.

(** * Owners *)
Definition Box_serde {T} (c : Serde T) : Serde T :=
  {| encode S E _ x := encode c x;
     decode D E _ := try x := decode c in pst_ret x |}.
Definition Rc_serde {T} (c : Serde T) : Serde T :=
  {| encode S E _ x := encode c x;
     decode D E _ := try x := decode c in pst_ret x |}.
Definition Arc_serde {T} (c : Serde T) : Serde T :=
  {| encode S E _ x := encode c x;
     decode D E _ := try x := decode c in pst_ret x |}.
Definition Cell_serde {T} (c : Serde T) : Serde T :=
  {| encode S E _ x := encode c x;
     decode D E _ := try x := decode c in pst_ret x |}.

Record RefCell (T : Type) := { rc_mutably_borrowed : bool; rc_value : T }.
Arguments Build_RefCell {T}.
Arguments rc_mutably_borrowed {T} _.
Arguments rc_value {T} _.

(** [borrow()] panics while a mutable borrow is out. *)
Definition RefCell_serde {T} (c : Serde T) : Serde (RefCell T) :=
  {| encode S E _ x :=
       if rc_mutably_borrowed x then pst_panic else encode c (rc_value x);
     decode D E _ := try x := decode c in pst_ret (Build_RefCell false x) |}.

(** * Option and tuples *)
Definition option_serde {T} (c : Serde T) : Serde (option T) :=
  {| encode S E _ x := emit_option
       (match x with
        | None => emit_option_none
        | Some v => emit_option_some (encode c v)
        end);
     decode D E _ := read_option (fun b : bool =>
       if b then try v := decode c in pst_ret (Some v) else pst_ret None) |}.

Definition pair_serde {A B} (ca : Serde A) (cb : Serde B) : Serde (A * B) :=
  {| encode S E _ x := emit_tuple
       (try _ := emit_tuple_arg (encode ca x.1) in emit_tuple_arg (encode cb x.2));
     decode D E _ := read_tuple
       (try a := read_tuple_arg (decode ca) in
        try b := read_tuple_arg (decode cb) in pst_ret (a, b)) |}.

(** * Sequences *)

(** [for e in iter { s.emit_seq_elt(i, |s| e.encode(s))? } Ok(())] *)
Fixpoint emit_elts {T S E} `{Encoder S E} (c : Serde T) (xs : list T) : PST S E unit :=
  match xs with
  | [] => pst_ret tt
  | x :: xs => try _ := emit_seq_elt (encode c x) in emit_elts c xs
  end.

(** [for i in 0..len { coll.push(d.read_seq_elt(i, |d| decode(d))?) } Ok(coll)] *)
Fixpoint read_elts {T A D E} `{Decoder D E} (c : Serde T) (push : A -> T -> A) (n : nat)
    (coll : A) : PST D E A :=
  match n with
  | O => pst_ret coll
  | S n => try x := read_seq_elt (decode c) in read_elts c push n (push coll x)
  end.

Definition push_back {T} (v : list T) (x : T) : list T := v ++ [x].

(** [with_capacity(n)] panics when the elements need more than [isize::MAX]
    bytes; [size] is the size of an element. *)
Definition with_capacity {S E} (size n : Z) : PST S E unit :=
  if n * size <=? isize_max then pst_ret tt else pst_panic.

Definition Vec_serde {T} (size : Z) (c : Serde T) : Serde (list T) :=
  {| encode S E _ x := emit_seq (zlen x) (emit_elts c x);
     decode D E _ := read_seq (fun len =>
       try _ := with_capacity size len in
       read_elts c push_back (Z.to_nat len) []) |}.

(** [Cow<'static, [T]>]: what [decode] gives is owned. *)
Definition Cow_serde {T} (size : Z) (c : Serde T) : Serde (list T) :=
  {| encode S E _ x := emit_seq (zlen x) (emit_elts c x);
     decode D E _ := read_seq (fun len =>
       try _ := with_capacity size len in
       read_elts c push_back (Z.to_nat len) []) |}.

(** [Box<[T]>] decodes a [Vec] and boxes it; it encodes as a slice. *)
Definition boxed_slice_serde {T} (size : Z) (c : Serde T) : Serde (list T) :=
  {| encode S E _ x := emit_seq (zlen x) (emit_elts c x);
     decode D E _ := try v := decode (Vec_serde size c) in pst_ret v |}.

Definition LinkedList_serde {T} (c : Serde T) : Serde (list T) :=
  {| encode S E _ x := emit_seq (zlen x) (emit_elts c x);
     decode D E _ := read_seq (fun len => read_elts c push_back (Z.to_nat len) []) |}.

Definition VecDeque_serde {T} (c : Serde T) : Serde (list T) :=
  {| encode S E _ x := emit_seq (zlen x) (emit_elts c x);
     decode D E _ := read_seq (fun len => read_elts c push_back (Z.to_nat len) []) |}.

(** [[T; N]] *)
Definition array_serde {T} (N : Z) (c : Serde T) : Serde (list T) :=
  {| encode S E _ x := emit_seq N (emit_elts c x);
     decode D E _ := read_seq (fun len =>
       if negb (len =? N) then pst_err (error "wrong array length")
       else read_elts c push_back (Z.to_nat N) []) |}.

(** * Sets and maps

    [iter] is the order in which the collection gives its elements: by key in a
    [BTreeMap] or [BTreeSet], by the hasher in a [HashMap] or [HashSet]. *)
Definition cap_capacity (size given_len : Z) : Z :=
  let PRE_ALLOCATE_CAP := 0x100000 in
  if size =? 0 then Z.min given_len PRE_ALLOCATE_CAP
  else Z.min given_len (PRE_ALLOCATE_CAP / size).

Section sets.
Context {T : Type} `{Countable T} (iter : gset T -> list T) (c : Serde T).

Definition BTreeSet_serde : Serde (gset T) :=
  {| encode S E _ x := emit_seq (Z.of_nat (size x)) (emit_elts c (iter x));
     decode D E _ := read_seq (fun len =>
       read_elts c (fun set e => {[e]} ∪ set) (Z.to_nat len) ∅) |}.

Definition HashSet_serde (elem_size : Z) : Serde (gset T) :=
  {| encode S E _ x := emit_seq (Z.of_nat (size x)) (emit_elts c (iter x));
     decode D E _ := read_seq (fun len =>
       try _ := with_capacity elem_size (cap_capacity elem_size len) in
       read_elts c (fun set e => {[e]} ∪ set) (Z.to_nat len) ∅) |}.
End sets.

Fixpoint emit_entries {K V S E} `{Encoder S E} (ck : Serde K) (cv : Serde V)
    (kvs : list (K * V)) : PST S E unit :=
  match kvs with
  | [] => pst_ret tt
  | (key, val) :: kvs =>
      try _ := emit_map_elt_key (encode ck key) in
      try _ := emit_map_elt_val (encode cv val) in
      emit_entries ck cv kvs
  end.

Fixpoint read_entries {K V D E} `{Countable K} `{Decoder D E} (ck : Serde K) (cv : Serde V)
    (n : nat) (map : gmap K V) : PST D E (gmap K V) :=
  match n with
  | O => pst_ret map
  | S n =>
      try key := read_map_elt_key (decode ck) in
      try val := read_map_elt_val (decode cv) in
      read_entries ck cv n (<[key := val]> map)
  end.

Section maps.
Context {K V : Type} `{Countable K} (iter : gmap K V -> list (K * V))
  (ck : Serde K) (cv : Serde V).

Definition BTreeMap_serde : Serde (gmap K V) :=
  {| encode S E _ x := emit_map (Z.of_nat (size x)) (emit_entries ck cv (iter x));
     decode D E _ := read_map (fun len => read_entries ck cv (Z.to_nat len) ∅) |}.

Definition HashMap_serde (elem_size : Z) : Serde (gmap K V) :=
  {| encode S E _ x := emit_map (Z.of_nat (size x)) (emit_entries ck cv (iter x));
     decode D E _ := read_map (fun len =>
       try _ := with_capacity elem_size (cap_capacity elem_size len) in
       read_entries ck cv (Z.to_nat len) ∅) |}.
End maps.

(** * The helpers *)
Definition SerializeHelper : Type := Cursor.
Definition serialize_helper_new : SerializeHelper := cursor_new.
Definition get_size (h : SerializeHelper) : Z := zlen (cur_inner h).

(** [SerializeHelper::encode]: the data, and the helper's cursor after it. *)
Definition helper_encode {T} (c : Serde T) (target : T) (h : SerializeHelper)
    : panics (option (list byte) * SerializeHelper) :=
  panics_bind (encode c target h) (fun '(r, h) =>
    match r with
    | Err _ => Done (None, h)
    | Ok _ => Done (Some (cur_inner h), h)
    end).

(** [DeSerializeHelper::decode] *)
Definition helper_decode {T} (c : Serde T) (data : list byte) : panics (option T) :=
  panics_bind (decode c {| dec_data := data; dec_position := 0 |}) (fun '(r, _) =>
    match r with Err _ => Done None | Ok d => Done (Some d) end).

(** * Code that writes, and reads, given bytes *)
Definition writes (m : PST Cursor unit unit) (bs : list byte) : Prop :=
  forall cur, cur_ok cur -> m cur = Done (Ok tt, cursor_put bs cur).

Definition reads {T} (m : PST OpaqueDecoder string T) (bs : list byte) (x : T) : Prop :=
  forall pre rest, m (at_bytes pre bs rest) = Done (Ok x, at_bytes (pre ++ bs) [] rest).

Lemma writes_ret : writes (pst_ret tt) [].
Proof. intros cur _. by rewrite cursor_put_nil. Qed.

Lemma writes_bind m k b1 b2 : writes m b1 -> writes k b2 -> writes (try _ := m in k) (b1 ++ b2).
Proof.
  intros Hm Hk cur Hc. unfold pst_bind. rewrite Hm by done. cbn [panics_bind].
  rewrite Hk by (by apply cursor_put_ok). by rewrite cursor_put_app.
Qed.

Lemma reads_ret {T} (x : T) : reads (pst_ret x) [] x.
Proof. intros pre rest. by rewrite app_nil_r. Qed.

Lemma reads_bind {A B} (m : PST OpaqueDecoder string A) (k : A -> PST OpaqueDecoder string B)
    b1 b2 x y :
  reads m b1 x -> reads (k x) b2 y -> reads (pst_bind m k) (b1 ++ b2) y.
Proof.
  intros Hm Hk pre rest. unfold pst_bind.
  replace (at_bytes pre (b1 ++ b2) rest) with (at_bytes pre b1 (b2 ++ rest))
    by (unfold at_bytes; by rewrite <- app_assoc).
  rewrite Hm. cbn [panics_bind]. rewrite (app_assoc pre).
  exact (Hk (pre ++ b1) rest).
Qed.

Lemma reads_map {A B} (m : PST OpaqueDecoder string A) (f : A -> B) bs x :
  reads m bs x -> reads (try a := m in pst_ret (f a)) bs (f x).
Proof. intros Hm. rewrite <- (app_nil_r bs). eapply reads_bind; [done|]. apply reads_ret. Qed.

(** * Faithful implementations *)
Record faithful {T} (c : Serde T) (ok : T -> Prop) (bytes : T -> list byte) : Prop := {
  encode_writes x : ok x -> writes (encode c x) (bytes x);
  decode_reads x : ok x -> reads (decode c) (bytes x) x
}.

(** Every value that is [ok] is written, and read back as itself. *)
Definition roundtrips {T} (c : Serde T) (ok : T -> Prop) : Prop :=
  exists bytes, faithful c ok bytes.

Definition unsigned (w v : Z) : Prop := 0 <= v < 2 ^ w.
Definition signed (w v : Z) : Prop := - 2 ^ (w - 1) <= v < 2 ^ (w - 1).

Lemma uleb_roundtrips (c : Serde Z) w :
  0 <= w <= 128 -> (forall v, encode c v = write_uleb128 v) ->
  decode c = read_uleb128 (wrap w) -> roundtrips c (unsigned w).
Proof.
  intros Hw Ee Ed. exists (uleb rounds).
  assert (forall v, unsigned w v -> 0 <= v < 2 ^ 128) as Hr.
  { intros v Hv. pose proof (Z.pow_le_mono_r 2 w 128). unfold unsigned in Hv. lia. }
  split; intros v Hv.
  - intros cur Hc. rewrite Ee. apply write_uleb128_puts; [by apply Hr|done].
  - intros pre rest. rewrite Ed, read_uleb128_reads by (by apply Hr). by rewrite wrap_small.
Qed.

Lemma sleb_roundtrips (c : Serde Z) w :
  1 <= w <= 64 -> (forall v, encode c v = write_sleb128 v) ->
  decode c = read_sleb128 (swrap w) -> roundtrips c (signed w).
Proof.
  intros Hw Ee Ed. exists (sleb rounds).
  assert (forall v, signed w v -> - 2 ^ 127 <= v < 2 ^ 127) as Hr.
  { intros v Hv. pose proof (Z.pow_le_mono_r 2 (w - 1) 127). unfold signed in Hv. lia. }
  split; intros v Hv.
  - intros cur Hc. rewrite Ee. apply write_sleb128_puts; [by apply Hr|done].
  - intros pre rest. rewrite Ed, read_sleb128_reads by (by apply Hr).
    by rewrite swrap_read_back.
Qed.

(** Types of one byte. *)
Lemma byte_roundtrips {T} (c : Serde T) (ok : T -> Prop) (out : T -> Z) (back : byte -> T) :
  (forall x, encode c x = write_all [byte_of (out x)]) ->
  decode c = (try b := read_byte in pst_ret (back b)) ->
  (forall x, ok x -> back (byte_of (out x)) = x) -> roundtrips c ok.
Proof.
  intros Ee Ed Hof. exists (fun x => [byte_of (out x)]). split; intros x Hx.
  - intros cur Hc. rewrite Ee. by apply write_all_puts.
  - rewrite Ed. rewrite <- (Hof x Hx) at 2. apply reads_map.
    intros pre rest. apply read_byte_reads.
Qed.

Lemma u8_roundtrips : roundtrips u8_serde (unsigned 8).
Proof.
  apply (byte_roundtrips _ _ id byte_val); [done..|]. intros x Hx. by apply byte_val_of_small.
Qed.

Lemma i8_roundtrips : roundtrips i8_serde (signed 8).
Proof.
  apply (byte_roundtrips _ _ id (fun b => swrap 8 (byte_val b))); [done..|].
  intros x Hx. unfold signed in Hx. rewrite byte_val_of. change (2 ^ (8 - 1)) with 128 in Hx.
  unfold swrap, id. change (2 ^ (8 - 1)) with 128. change (2 ^ 8) with 256.
  Z.to_euclidean_division_equations; lia.
Qed.

Lemma bool_roundtrips : roundtrips bool_serde (fun _ => True).
Proof.
  apply (byte_roundtrips _ _ (fun x : bool => if x then 1 else 0)
    (fun b => negb (byte_val b =? 0))); [done..|]. by intros [].
Qed.

Lemma char_roundtrips : roundtrips char_serde (fun c => char_valid c = true).
Proof.
  assert (forall v, char_valid v = true -> 0 <= v < 2 ^ 32) as Hr.
  { intros v. unfold char_valid. rewrite orb_true_iff, !andb_true_iff, !Z.leb_le, !Z.ltb_lt. lia. }
  exists (uleb rounds). split; intros v Hv; specialize (Hr v Hv).
  - intros cur Hc. apply write_uleb128_puts; [lia|done].
  - rewrite <- (app_nil_r (uleb _ _)). eapply (reads_bind _ _ _ _ v).
    + intros pre rest. rewrite read_uleb128_reads by lia. by rewrite wrap_small.
    + simpl. rewrite Hv. apply reads_ret.
Qed.

Lemma String_roundtrips :
  roundtrips String_serde (fun s => zlen s < 2 ^ 64 /\ utf8_valid s = true).
Proof.
  exists (fun s => uleb rounds (zlen s) ++ s). split; intros s [Hl Hs].
  - apply writes_bind.
    + intros cur Hc. pose proof (zlen_nonneg s). apply write_uleb128_puts; [lia|done].
    + intros cur Hc. by apply write_all_puts.
  - apply (reads_map opaque_read_str id). intros pre rest. by apply opaque_read_str_reads.
Qed.

(** * Containers *)
Definition option_ok {T} (ok : T -> Prop) (x : option T) : Prop :=
  match x with None => True | Some v => ok v end.

Lemma usize_writes v : 0 <= v < 2 ^ 64 -> writes (emit_usize v) (uleb rounds v).
Proof. intros Hv cur Hc. apply write_uleb128_puts; [lia|done]. Qed.

Lemma usize_reads v : 0 <= v < 2 ^ 64 -> reads read_usize (uleb rounds v) v.
Proof. intros Hv pre rest. simpl. rewrite read_uleb128_reads by lia. by rewrite wrap_small. Qed.

Lemma option_roundtrips {T} (c : Serde T) ok :
  roundtrips c ok -> roundtrips (option_serde c) (option_ok ok).
Proof.
  intros [bytes F].
  exists (fun x => match x with None => uleb rounds 0 ++ [] | Some v => uleb rounds 1 ++ bytes v end).
  split; intros [v|] Hx.
  - apply writes_bind; [by apply usize_writes|]. by apply F.
  - apply writes_bind; [by apply usize_writes|apply writes_ret].
  - apply (reads_bind _ _ _ _ 1); [by apply usize_reads|]. apply (reads_map _ Some). by apply F.
  - apply (reads_bind _ _ _ _ 0); [by apply usize_reads|]. apply reads_ret.
Qed.

Lemma pair_roundtrips {A B} (ca : Serde A) (cb : Serde B) oka okb :
  roundtrips ca oka -> roundtrips cb okb ->
  roundtrips (pair_serde ca cb) (fun x => oka x.1 /\ okb x.2).
Proof.
  intros [ba Fa] [bb Fb]. exists (fun x => ba x.1 ++ bb x.2). split; intros [a b] [Ha Hb].
  - apply writes_bind; [by apply Fa|by apply Fb].
  - apply (reads_bind _ _ _ _ a); [by apply Fa|]. apply (reads_map _ (pair a)). by apply Fb.
Qed.

(** The [i128] values whose sign the reader restores. *)
Definition i128_kept (v : Z) : Prop := signed 128 v /\ (v < - 2 ^ 125 \/ - 2 ^ 62 <= v).

Lemma i128_roundtrips : roundtrips i128_serde i128_kept.
Proof.
  exists (sleb rounds). split; intros v [Hv Hk]; unfold signed in Hv;
    change (128 - 1) with 127 in Hv.
  - intros cur Hc. by apply write_sleb128_puts.
  - intros pre rest. simpl. rewrite read_sleb128_reads by done.
    rewrite read_back_kept, swrap_small by done. done.
Qed.

(** Decoding into a fresh owner of the value. *)
Lemma owner_roundtrips {T} (c c' : Serde T) ok :
  (forall x, @encode T c' Cursor unit _ x = encode c x) ->
  @decode T c' OpaqueDecoder string _ = (try x := decode c in pst_ret x) ->
  roundtrips c ok -> roundtrips c' ok.
Proof.
  intros Ee Ed [bytes F]. exists bytes. split; intros x Hx.
  - rewrite Ee. by apply F.
  - rewrite Ed. apply (reads_map _ id). by apply F.
Qed.

Lemma PathBuf_roundtrips :
  roundtrips PathBuf_serde (fun s => zlen s < 2 ^ 64 /\ utf8_valid s = true).
Proof.
  destruct String_roundtrips as [bytes F]. exists bytes. split; intros s Hs.
  - simpl. destruct Hs as [Hl Hu]. rewrite Hu. by apply F.
  - apply (reads_map _ id). by apply F.
Qed.

Lemma RefCell_roundtrips {T} (c : Serde T) ok :
  roundtrips c ok ->
  roundtrips (RefCell_serde c) (fun x => rc_mutably_borrowed x = false /\ ok (rc_value x)).
Proof.
  intros [bytes F]. exists (fun x => bytes (rc_value x)). split; intros [b x] [Hb Hx]; simpl in *.
  - rewrite Hb. by apply F.
  - subst b. apply (reads_map _ (Build_RefCell false)). by apply F.
Qed.

(** ** Sequences *)
Definition elts_bytes {T} (bytes : T -> list byte) (xs : list T) : list byte :=
  flat_map bytes xs.

Definition seq_bytes {T} (bytes : T -> list byte) (xs : list T) : list byte :=
  uleb rounds (zlen xs) ++ elts_bytes bytes xs.

Lemma emit_elts_writes {T} (c : Serde T) ok bytes xs :
  faithful c ok bytes -> Forall ok xs -> writes (emit_elts c xs) (elts_bytes bytes xs).
Proof.
  intros F. induction 1 as [|x xs Hx Hxs IH]; [apply writes_ret|].
  apply writes_bind; [by apply F|done].
Qed.

Lemma read_elts_reads {T A} (c : Serde T) ok bytes (push : A -> T -> A) xs coll :
  faithful c ok bytes -> Forall ok xs ->
  reads (read_elts c push (length xs) coll) (elts_bytes bytes xs) (foldl push coll xs).
Proof.
  intros F Hxs. revert coll. induction Hxs as [|x xs Hx Hxs IH]; intros coll; [apply reads_ret|].
  apply (reads_bind _ _ _ _ x); [by apply F|apply IH].
Qed.

Lemma foldl_push_back {T} (acc xs : list T) : foldl push_back acc xs = acc ++ xs.
Proof.
  revert acc. induction xs as [|x xs IH]; intros acc; simpl; [by rewrite app_nil_r|].
  rewrite IH. unfold push_back. by rewrite <- app_assoc.
Qed.

Lemma read_elts_list {T} (c : Serde T) ok bytes xs :
  faithful c ok bytes -> Forall ok xs ->
  reads (read_elts c push_back (Z.to_nat (zlen xs)) []) (elts_bytes bytes xs) xs.
Proof.
  intros F Hx. unfold zlen. rewrite Nat2Z.id.
  pose proof (read_elts_reads c ok bytes push_back xs [] F Hx) as Hr.
  by rewrite foldl_push_back in Hr.
Qed.

Lemma seq_writes {T} (c : Serde T) ok bytes xs :
  faithful c ok bytes -> zlen xs < 2 ^ 64 -> Forall ok xs ->
  writes (emit_seq (zlen xs) (emit_elts c xs)) (seq_bytes bytes xs).
Proof.
  intros F Hl Hx. pose proof (zlen_nonneg xs).
  apply writes_bind; [by apply usize_writes|by apply (emit_elts_writes c ok)].
Qed.

Lemma seq_reads {A} (k : Z -> PST OpaqueDecoder string A) {T} (bytes : T -> list byte) xs y :
  zlen xs < 2 ^ 64 -> reads (k (zlen xs)) (elts_bytes bytes xs) y ->
  reads (read_seq k) (seq_bytes bytes xs) y.
Proof.
  intros Hl Hk. pose proof (zlen_nonneg xs).
  apply (reads_bind _ _ _ _ (zlen xs)); [by apply usize_reads|done].
Qed.

Lemma with_capacity_reads {A} (k : PST OpaqueDecoder string A) size n bs y :
  n * size <= isize_max -> reads k bs y ->
  reads (try _ := with_capacity size n in k) bs y.
Proof.
  intros Hc Hk pre rest. unfold with_capacity. rewrite (proj2 (Z.leb_le _ _) Hc). apply Hk.
Qed.

Definition list_ok {T} (ok : T -> Prop) (xs : list T) : Prop :=
  zlen xs < 2 ^ 64 /\ Forall ok xs.

(** A [Vec] never holds more than [isize::MAX] bytes. *)
Definition vec_ok {T} (size : Z) (ok : T -> Prop) (xs : list T) : Prop :=
  list_ok ok xs /\ zlen xs * size <= isize_max.

Lemma Vec_roundtrips {T} size (c : Serde T) ok :
  roundtrips c ok -> roundtrips (Vec_serde size c) (vec_ok size ok).
Proof.
  intros [bytes F]. exists (seq_bytes bytes). split; intros xs [[Hl Hx] Hs].
  - by apply (seq_writes c ok).
  - apply seq_reads; [done|]. apply with_capacity_reads; [done|]. by apply (read_elts_list c ok).
Qed.

Lemma boxed_slice_roundtrips {T} size (c : Serde T) ok :
  roundtrips c ok -> roundtrips (boxed_slice_serde size c) (vec_ok size ok).
Proof.
  intros H. by apply (owner_roundtrips (Vec_serde size c)), Vec_roundtrips.
Qed.

Lemma LinkedList_roundtrips {T} (c : Serde T) ok :
  roundtrips c ok -> roundtrips (LinkedList_serde c) (list_ok ok).
Proof.
  intros [bytes F]. exists (seq_bytes bytes). split; intros xs [Hl Hx].
  - by apply (seq_writes c ok).
  - apply seq_reads; [done|]. by apply (read_elts_list c ok).
Qed.

Lemma VecDeque_roundtrips {T} (c : Serde T) ok :
  roundtrips c ok -> roundtrips (VecDeque_serde c) (list_ok ok).
Proof. apply LinkedList_roundtrips. Qed.

Lemma array_roundtrips {T} N (c : Serde T) ok :
  roundtrips c ok -> roundtrips (array_serde N c) (fun xs => zlen xs = N /\ list_ok ok xs).
Proof.
  intros [bytes F]. exists (seq_bytes bytes). split; intros xs [<- [Hl Hx]].
  - by apply (seq_writes c ok).
  - apply seq_reads; [done|]. simpl. rewrite Z.eqb_refl. by apply (read_elts_list c ok).
Qed.

(** ** Sets and maps, in whatever order they are listed *)
Lemma cap_capacity_fits elem n : 0 <= elem -> 0 <= n -> cap_capacity elem n * elem <= isize_max.
Proof.
  intros He Hn. unfold cap_capacity, isize_max.
  destruct (Z.eqb_spec elem 0) as [->|]; [lia|].
  pose proof (Z.mul_div_le 0x100000 elem ltac:(lia)). nia.
Qed.

Section set_proofs.
Context {T : Type} `{Countable T} (iter : gset T -> list T) (c : Serde T) (ok : T -> Prop).
Hypothesis iter_elements : forall x, iter x ≡ₚ elements x.

Definition set_ok (x : gset T) : Prop := Z.of_nat (size x) < 2 ^ 64 /\ set_Forall ok x.

Lemma zlen_iter_set x : zlen (iter x) = Z.of_nat (size x).
Proof. unfold zlen. by rewrite iter_elements. Qed.

Lemma iter_set_ok x : set_Forall ok x -> Forall ok (iter x).
Proof.
  intros Hx. apply Forall_forall. intros e He. apply Hx.
  rewrite iter_elements in He. by apply elem_of_elements.
Qed.

Lemma foldl_insert_set (xs : list T) (s : gset T) :
  foldl (fun set e => {[e]} ∪ set) s xs = list_to_set xs ∪ s.
Proof. revert s. induction xs as [|x xs IH]; intros s; simpl; [|rewrite IH]; set_solver. Qed.

Lemma read_set bytes x :
  faithful c ok bytes -> set_Forall ok x ->
  reads (read_elts c (fun set e => {[e]} ∪ set) (Z.to_nat (zlen (iter x))) ∅)
    (elts_bytes bytes (iter x)) x.
Proof.
  intros F Hx. unfold zlen. rewrite Nat2Z.id.
  pose proof (read_elts_reads c ok bytes (fun set e => {[e]} ∪ set) (iter x) (∅ : gset T) F
    (iter_set_ok x Hx)) as Hr.
  rewrite foldl_insert_set, union_empty_r_L in Hr.
  assert (list_to_set (iter x) = x) as Ex; [|by rewrite Ex in Hr].
  apply set_eq. intros e. rewrite elem_of_list_to_set, iter_elements. apply elem_of_elements.
Qed.

Lemma BTreeSet_roundtrips : roundtrips c ok -> roundtrips (BTreeSet_serde iter c) set_ok.
Proof.
  intros [bytes F]. exists (fun x => seq_bytes bytes (iter x)). split; intros x [Hl Hx]; simpl;
    rewrite <- zlen_iter_set in *.
  - apply (seq_writes c ok); [done..|by apply iter_set_ok].
  - apply seq_reads; [done|]. by apply read_set.
Qed.

Lemma HashSet_roundtrips elem_size :
  0 <= elem_size -> roundtrips c ok -> roundtrips (HashSet_serde iter c elem_size) set_ok.
Proof.
  intros He [bytes F]. exists (fun x => seq_bytes bytes (iter x)). split; intros x [Hl Hx]; simpl;
    rewrite <- zlen_iter_set in *.
  - apply (seq_writes c ok); [done..|by apply iter_set_ok].
  - apply seq_reads; [done|]. apply with_capacity_reads; [|by apply read_set].
    apply cap_capacity_fits; [done|apply zlen_nonneg].
Qed.
End set_proofs.

Section map_proofs.
Context {K V : Type} `{Countable K} (iter : gmap K V -> list (K * V))
  (ck : Serde K) (cv : Serde V) (okk : K -> Prop) (okv : V -> Prop).
Hypothesis iter_entries : forall m, iter m ≡ₚ map_to_list m.

Definition map_ok (m : gmap K V) : Prop :=
  Z.of_nat (size m) < 2 ^ 64 /\ map_Forall (fun k v => okk k /\ okv v) m.

Definition entry_bytes (bk : K -> list byte) (bv : V -> list byte) (kv : K * V) : list byte :=
  bk kv.1 ++ bv kv.2.

Lemma zlen_iter_map m : zlen (iter m) = Z.of_nat (size m).
Proof. unfold zlen. by rewrite iter_entries, length_map_to_list. Qed.

Lemma iter_map_ok m : map_Forall (fun k v => okk k /\ okv v) m ->
  Forall (fun kv => okk kv.1 /\ okv kv.2) (iter m).
Proof.
  intros Hm. apply Forall_forall. intros [k v] He. apply (Hm k v).
  rewrite iter_entries in He. by apply elem_of_map_to_list.
Qed.

Lemma emit_entries_writes bk bv kvs :
  faithful ck okk bk -> faithful cv okv bv -> Forall (fun kv => okk kv.1 /\ okv kv.2) kvs ->
  writes (emit_entries ck cv kvs) (elts_bytes (entry_bytes bk bv) kvs).
Proof.
  intros Fk Fv. induction 1 as [|[k v] kvs [Hk Hv] Hkvs IH]; [apply writes_ret|].
  simpl. unfold entry_bytes at 1. rewrite <- app_assoc.
  apply writes_bind; [by apply Fk|]. apply writes_bind; [by apply Fv|done].
Qed.

Lemma read_entries_reads bk bv kvs m :
  faithful ck okk bk -> faithful cv okv bv -> Forall (fun kv => okk kv.1 /\ okv kv.2) kvs ->
  NoDup kvs.*1 ->
  reads (read_entries ck cv (length kvs) m) (elts_bytes (entry_bytes bk bv) kvs)
    (list_to_map kvs ∪ m).
Proof.
  intros Fk Fv Hkvs. revert m. induction Hkvs as [|[k v] kvs [Hk Hv] Hkvs IH]; intros m Hnd.
  - simpl. rewrite (left_id_L ∅ (∪)). apply reads_ret.
  - simpl in *. apply NoDup_cons in Hnd as [Hn Hnd]. unfold entry_bytes at 1.
    rewrite <- app_assoc. apply (reads_bind _ _ _ _ k); [by apply Fk|].
    apply (reads_bind _ _ _ _ v); [by apply Fv|].
    rewrite <- insert_union_l, insert_union_r by (by apply not_elem_of_list_to_map_1).
    by apply IH.
Qed.

Lemma read_map_entries bk bv m :
  faithful ck okk bk -> faithful cv okv bv -> map_Forall (fun k v => okk k /\ okv v) m ->
  reads (read_entries ck cv (Z.to_nat (zlen (iter m))) ∅)
    (elts_bytes (entry_bytes bk bv) (iter m)) m.
Proof.
  intros Fk Fv Hm. unfold zlen. rewrite Nat2Z.id.
  assert (NoDup (iter m).*1) as Hnd.
  { rewrite iter_entries. apply NoDup_fst_map_to_list. }
  pose proof (read_entries_reads bk bv (iter m) ∅ Fk Fv (iter_map_ok m Hm) Hnd) as Hr.
  rewrite (right_id_L ∅ (∪)) in Hr.
  rewrite (list_to_map_proper (iter m) (map_to_list m) Hnd (iter_entries m)),
    list_to_map_to_list in Hr. done.
Qed.

Lemma BTreeMap_roundtrips :
  roundtrips ck okk -> roundtrips cv okv -> roundtrips (BTreeMap_serde iter ck cv) map_ok.
Proof.
  intros [bk Fk] [bv Fv]. exists (fun m => seq_bytes (entry_bytes bk bv) (iter m)).
  split; intros m [Hl Hm]; simpl; rewrite <- zlen_iter_map in *.
  - pose proof (zlen_nonneg (iter m)). apply writes_bind; [by apply usize_writes|].
    apply emit_entries_writes; [done..|by apply iter_map_ok].
  - apply seq_reads; [done|]. by apply read_map_entries.
Qed.

Lemma HashMap_roundtrips elem_size :
  0 <= elem_size -> roundtrips ck okk -> roundtrips cv okv ->
  roundtrips (HashMap_serde iter ck cv elem_size) map_ok.
Proof.
  intros He [bk Fk] [bv Fv]. exists (fun m => seq_bytes (entry_bytes bk bv) (iter m)).
  split; intros m [Hl Hm]; simpl; rewrite <- zlen_iter_map in *;
    pose proof (zlen_nonneg (iter m)).
  - apply writes_bind; [by apply usize_writes|].
    apply emit_entries_writes; [done..|by apply iter_map_ok].
  - apply seq_reads; [done|]. apply with_capacity_reads; [by apply cap_capacity_fits|].
    by apply read_map_entries.
Qed.
End map_proofs.

(** * The theorems *)
Lemma helper_encode_writes {T} (c : Serde T) ok bytes x h :
  faithful c ok bytes -> ok x -> cur_ok h -> cur_pos h = zlen (cur_inner h) ->
  helper_encode c x h = Done (Some (cur_inner h ++ bytes x),
    {| cur_inner := cur_inner h ++ bytes x; cur_pos := zlen (cur_inner h ++ bytes x) |}).
Proof.
  intros F Hx Hc Hp. unfold helper_encode. rewrite (encode_writes _ _ _ F x Hx) by done.
  cbn [panics_bind]. unfold cursor_put. rewrite Hp.
  assert (Z.to_nat (zlen (cur_inner h)) = length (cur_inner h)) as -> by (unfold zlen; lia).
  rewrite put_end. simpl. by rewrite zlen_app.
Qed.

Lemma helper_decode_reads {T} (c : Serde T) ok bytes x rest :
  faithful c ok bytes -> ok x -> helper_decode c (bytes x ++ rest) = Done (Some x).
Proof.
  intros F Hx. unfold helper_decode.
  change {| dec_data := bytes x ++ rest; dec_position := 0 |} with (at_bytes [] (bytes x) rest).
  by rewrite (decode_reads _ _ _ F x Hx).
Qed.

(** C12. Serialization is faithful: for every type whose implementation round
    trips, [SerializeHelper::encode] of a value gives bytes that
    [DeSerializeHelper::decode] turns back into the value.  All primitive types
    round trip ([i128] except where leb128 loses the sign), strings, paths, and
    every container of a type that does: owners, options, tuples, sequences,
    arrays, sets and maps in any order of iteration. *)
Theorem serialize_roundtrips :
  (forall T (c : Serde T) ok x, roundtrips c ok -> ok x ->
     exists data h, helper_encode c x serialize_helper_new = Done (Some data, h) /\
       get_size h = zlen data /\ helper_decode c data = Done (Some x)) /\
  (roundtrips usize_serde (unsigned 64) /\ roundtrips u8_serde (unsigned 8) /\
   roundtrips u16_serde (unsigned 16) /\ roundtrips u32_serde (unsigned 32) /\
   roundtrips u64_serde (unsigned 64) /\ roundtrips u128_serde (unsigned 128) /\
   roundtrips isize_serde (signed 64) /\ roundtrips i8_serde (signed 8) /\
   roundtrips i16_serde (signed 16) /\ roundtrips i32_serde (signed 32) /\
   roundtrips i64_serde (signed 64) /\ roundtrips i128_serde i128_kept /\
   roundtrips f32_serde (unsigned 32) /\ roundtrips f64_serde (unsigned 64) /\
   roundtrips bool_serde (fun _ => True) /\
   roundtrips char_serde (fun c => char_valid c = true) /\
   roundtrips unit_serde (fun _ => True) /\
   roundtrips String_serde (fun s => zlen s < 2 ^ 64 /\ utf8_valid s = true) /\
   roundtrips PathBuf_serde (fun s => zlen s < 2 ^ 64 /\ utf8_valid s = true)) /\
  (forall T (c : Serde T) ok, roundtrips c ok ->
     roundtrips (Box_serde c) ok /\ roundtrips (Rc_serde c) ok /\
     roundtrips (Arc_serde c) ok /\ roundtrips (Cell_serde c) ok /\
     roundtrips (RefCell_serde c)
       (fun x => rc_mutably_borrowed x = false /\ ok (rc_value x)) /\
     roundtrips (option_serde c) (option_ok ok) /\
     (forall size, roundtrips (Vec_serde size c) (vec_ok size ok)) /\
     (forall size, roundtrips (Cow_serde size c) (vec_ok size ok)) /\
     (forall size, roundtrips (boxed_slice_serde size c) (vec_ok size ok)) /\
     roundtrips (LinkedList_serde c) (list_ok ok) /\
     roundtrips (VecDeque_serde c) (list_ok ok) /\
     (forall N, roundtrips (array_serde N c) (fun xs => zlen xs = N /\ list_ok ok xs))) /\
  (forall T `{Countable T} (c : Serde T) ok iter, roundtrips c ok ->
     (forall x : gset T, iter x ≡ₚ elements x) ->
     roundtrips (BTreeSet_serde iter c) (set_ok ok) /\
     (forall n, 0 <= n -> roundtrips (HashSet_serde iter c n) (set_ok ok))) /\
  (forall A B (ca : Serde A) (cb : Serde B) oka okb, roundtrips ca oka -> roundtrips cb okb ->
     roundtrips (pair_serde ca cb) (fun x => oka x.1 /\ okb x.2)) /\
  (forall K V `{Countable K} (ck : Serde K) (cv : Serde V) okk okv iter,
     roundtrips ck okk -> roundtrips cv okv ->
     (forall m : gmap K V, iter m ≡ₚ map_to_list m) ->
     roundtrips (BTreeMap_serde iter ck cv) (map_ok okk okv) /\
     (forall n, 0 <= n -> roundtrips (HashMap_serde iter ck cv n) (map_ok okk okv))).
Proof.
  split_and!; try (by apply uleb_roundtrips; [lia|..]); try (by apply sleb_roundtrips; [lia|..]).
  - intros T c ok x [bytes F] Hx. eexists _, _. split; [by apply (helper_encode_writes c ok)|].
    simpl. split; [done|]. rewrite <- (app_nil_r (bytes x)). by apply (helper_decode_reads c ok).
  - apply u8_roundtrips.
  - apply i8_roundtrips.
  - apply i128_roundtrips.
  - apply bool_roundtrips.
  - apply char_roundtrips.
  - exists (fun _ => []). split; intros [] _; [apply writes_ret|apply reads_ret].
  - apply String_roundtrips.
  - apply PathBuf_roundtrips.
  - intros T c ok Hc. split_and!; intros;
      eauto using owner_roundtrips, RefCell_roundtrips, option_roundtrips, Vec_roundtrips,
        boxed_slice_roundtrips, LinkedList_roundtrips, VecDeque_roundtrips, array_roundtrips;
      solve [by apply (owner_roundtrips c) | by apply (Vec_roundtrips _ c)].
  - intros T ?? c ok iter Hc Hi. split; intros; eauto using BTreeSet_roundtrips, HashSet_roundtrips.
  - intros. by apply pair_roundtrips.
  - intros K V ?? ck cv okk okv iter Hk Hv Hi.
    split; intros; eauto using BTreeMap_roundtrips, HashMap_roundtrips.
Qed.

(** A [Vec<(u64, Option<String>)>], whose elements take 32 bytes. *)
Definition example_serde : Serde (list (Z * option (list byte))) :=
  Vec_serde 32 (pair_serde u64_serde (option_serde String_serde)).

Lemma serialize_roundtrips_witness :
  exists data h,
    helper_encode example_serde [(300, Some [Byte.x41; Byte.x42]); (1, None)]
      serialize_helper_new = Done (Some data, h) /\ get_size h = zlen data /\
    helper_decode example_serde data = Done (Some [(300, Some [Byte.x41; Byte.x42]); (1, None)]).
Proof.
  destruct serialize_roundtrips as (Hh & Hp & Hc & _ & Hpair & _).
  eapply Hh; [apply Hc, Hpair; [apply Hp|apply Hc, Hp]|].
  repeat split; repeat constructor; done.
Defined.

(** A helper is for one value: encoding a second value with the same
    [SerializeHelper] returns the bytes of both, and decoding them gives the
    first value again, whatever the second was. *)
Theorem helper_reuse_returns_first {T} (c : Serde T) ok x y :
  roundtrips c ok -> ok x -> ok y ->
  exists d1 h1 d2 h2,
    helper_encode c x serialize_helper_new = Done (Some d1, h1) /\
    helper_encode c y h1 = Done (Some d2, h2) /\
    d1 `prefix_of` d2 /\ helper_decode c d2 = Done (Some x).
Proof.
  intros [bytes F] Hx Hy. eexists _, _, _, _.
  split; [by apply (helper_encode_writes c ok)|].
  split; [apply (helper_encode_writes c ok); try done; simpl; unfold cur_ok; simpl;
    pose proof (zlen_nonneg (bytes x)); lia|].
  simpl. split; [by eexists|]. by apply (helper_decode_reads c ok).
Qed.

Lemma helper_reuse_returns_first_witness :
  exists d1 h1 d2 h2,
    helper_encode u8_serde 7 serialize_helper_new = Done (Some d1, h1) /\
    helper_encode u8_serde 9 h1 = Done (Some d2, h2) /\
    d1 `prefix_of` d2 /\ helper_decode u8_serde d2 = Done (Some 7).
Proof.
  apply (helper_reuse_returns_first u8_serde (unsigned 8) 7 9);
    [apply u8_roundtrips|split; done..].
Defined.
