(* ===== verification/SyncMutex.v ===== *)
(** The mutex and the condition variable of sgx_tstd (sys/mutex.rs and
    sys/condvar.rs).

    Every access to the fields of a mutex or a condition variable is between
    [lock.lock()] and [lock.unlock()] of its spinlock; Intel's [sgx_spin_lock]
    makes such a section atomic, so a section is one function on the fields.
    [thread_wait_event] and its kin are OCALLs to the untrusted host; the
    machine at the end of the file puts sections and OCALLs together as the
    code does, for any number of threads. *)
From Stdlib Require Import ZArith Lia.
From stdpp Require Import base numbers list option tactics functions relations.
From S2P Require Import Prelude.

(** [sgx_thread_t]; [rsgx_thread_self()] is never null. *)
Abbreviation thread := Z.
Definition SGX_THREAD_T_NULL : thread := 0.

Definition EPERM : Z := 1.
Definition EBUSY : Z := 16.
Definition ETIMEDOUT : Z := 110.
Definition SysError : Type := result Z unit.

(** * The mutex *)
Inductive SgxThreadMutexControl :=
| SGX_THREAD_MUTEX_NONRECURSIVE
| SGX_THREAD_MUTEX_RECURSIVE.

#[export] Instance control_eq_dec : EqDecision SgxThreadMutexControl.
Proof. solve_decision. Defined.

Record SgxThreadMutexInner := {
  refcount : Z;
  control : SgxThreadMutexControl;
  owner : thread;
  queue : list thread
}.

Definition mutex_new (control : SgxThreadMutexControl) : SgxThreadMutexInner :=
  {| refcount := 0; control := control; owner := SGX_THREAD_T_NULL; queue := [] |}.

(** The section that [lock] and [try_lock] share: whether the mutex was taken. *)
Definition acquire (self : thread) (m : SgxThreadMutexInner) : option SgxThreadMutexInner :=
  if bool_decide (control m = SGX_THREAD_MUTEX_RECURSIVE) && (owner m =? self) then
    Some {| refcount := wrap 64 (refcount m + 1); control := control m; owner := owner m;
            queue := queue m |}
  else if (owner m =? SGX_THREAD_T_NULL) &&
          (bool_decide (head (queue m) = Some self) || bool_decide (head (queue m) = None)) then
    Some {| refcount := wrap 64 (refcount m + 1); control := control m; owner := self;
            queue := if bool_decide (head (queue m) = Some self) then tail (queue m)
                     else queue m |}
  else None.

(** One round of [lock]: [true] when it returns, [false] when it goes on to wait. *)
Definition lock_round (self : thread) (m : SgxThreadMutexInner) : bool * SgxThreadMutexInner :=
  match acquire self m with
  | Some m => (true, m)
  | None =>
      (false,
       if negb (bool_decide (self ∈ queue m)) then
         {| refcount := refcount m; control := control m; owner := owner m;
            queue := queue m ++ [self] |}
       else m)
  end.

Definition try_lock (self : thread) (m : SgxThreadMutexInner) : SysError * SgxThreadMutexInner :=
  match acquire self m with
  | Some m => (Ok tt, m)
  | None => (Err EBUSY, m)
  end.

(** Result, the thread to wake up (or null), the mutex. *)
Definition unlock_lazy (self : thread) (m : SgxThreadMutexInner)
    : SysError * thread * SgxThreadMutexInner :=
  if owner m =? SGX_THREAD_T_NULL then (Err EPERM, SGX_THREAD_T_NULL, m)
  else if negb (owner m =? self) then (Err EPERM, SGX_THREAD_T_NULL, m)
  else
    let refcount := wrap 64 (refcount m - 1) in
    if negb (refcount =? 0) then
      (Ok tt, SGX_THREAD_T_NULL,
       {| refcount := refcount; control := control m; owner := owner m; queue := queue m |})
    else
      (Ok tt, default SGX_THREAD_T_NULL (head (queue m)),
       {| refcount := refcount; control := control m; owner := SGX_THREAD_T_NULL;
          queue := queue m |}).

Definition destroy (m : SgxThreadMutexInner) : SysError * SgxThreadMutexInner :=
  if negb (owner m =? SGX_THREAD_T_NULL) || negb (bool_decide (queue m = [])) then (Err EBUSY, m)
  else (Ok tt, {| refcount := 0; control := SGX_THREAD_MUTEX_NONRECURSIVE; owner := owner m;
                  queue := queue m |}).

(** * The condition variable: its queue *)

(** The first section of [wait] and [wait_timeout]: join the queue and release
    the mutex; if that fails, leave the queue again. *)
Definition wait_enter (self : thread) (q : list thread) (m : SgxThreadMutexInner)
    : SysError * thread * list thread * SgxThreadMutexInner :=
  let q := q ++ [self] in
  match unlock_lazy self m with
  | (Err ret, w, m) => (Err ret, w, take (length q - 1) q, m)
  | (Ok _, w, m) => (Ok tt, w, q, m)
  end.

(** The section after waking up in [wait]: [true] leaves the loop. *)
Definition wait_check (self : thread) (q : list thread) : bool := negb (bool_decide (self ∈ q)).

(** [queue.remove(pos)] at the first position that holds [x]. *)
Fixpoint remove_first (x : thread) (q : list thread) : list thread :=
  match q with
  | [] => []
  | y :: q => if y =? x then q else y :: remove_first x q
  end.

(** The section after waking up in [wait_timeout]: the result if the loop ends. *)
Definition wait_timeout_check (self : thread) (timed_out : bool) (q : list thread)
    : option SysError * list thread :=
  if bool_decide (self ∈ q) then
    if timed_out then (Some (Err ETIMEDOUT), remove_first self q) else (None, q)
  else (Some (Ok tt), q).

Definition signal (q : list thread) : option thread * list thread :=
  match q with [] => (None, []) | w :: q => (Some w, q) end.

(** [while let Some(waiter) = self.queue.pop_back()] *)
Definition broadcast (q : list thread) : list thread * list thread := (reverse q, []).

Definition condvar_destroy (q : list thread) : SysError :=
  if bool_decide (q = []) then Ok tt else Err EBUSY.

(** * The machine

    Where a thread is: outside (with the result of its last call), at the top
    of the loop of [lock], in an OCALL, or before one. *)
Inductive pc :=
| Running (last : SysError)
| Locking (ret : SysError)
| LockWait (ret : SysError)
| Unlocking (waiter : thread)
| CvLoop (timed : bool) (waiter : thread)
| CvBlocked (timed : bool)
| CvCheck (timed timed_out : bool)
| Signaling (waiter : thread)
| Broadcasting (waiters : list thread).

(** [events t] counts the events set for [t] that it has not waited for;
    [held t] counts the calls of [t] that locked the mutex, less those that
    released it: it is not part of the program. *)
Record machine := {
  mtx : SgxThreadMutexInner;
  cvq : list thread;
  pcs : thread -> pc;
  events : thread -> nat;
  held : thread -> nat
}.

Definition start (c : SgxThreadMutexControl) : machine :=
  {| mtx := mutex_new c; cvq := []; pcs := fun _ => Running (Ok tt);
     events := fun _ => 0%nat; held := fun _ => 0%nat |}.

(** [thread_set_event], [thread_set_multiple_events].  Their results are not looked at,
    so a host that refuses the OCALL is one that sets the event and never lets the
    waiting thread take it: no step is forced. *)
Definition set_event (t : thread) (e : thread -> nat) : thread -> nat := <[t := S (e t)]> e.
Definition set_events (ts : list thread) (e : thread -> nat) : thread -> nat :=
  foldr set_event e ts.

Definition goto (s : machine) (t : thread) (p : pc) : machine :=
  {| mtx := mtx s; cvq := cvq s; pcs := <[t := p]> (pcs s); events := events s; held := held s |}.
Definition with_mtx (s : machine) (m : SgxThreadMutexInner) : machine :=
  {| mtx := m; cvq := cvq s; pcs := pcs s; events := events s; held := held s |}.
Definition with_cvq (s : machine) (q : list thread) : machine :=
  {| mtx := mtx s; cvq := q; pcs := pcs s; events := events s; held := held s |}.
Definition with_events (s : machine) (e : thread -> nat) : machine :=
  {| mtx := mtx s; cvq := cvq s; pcs := pcs s; events := e; held := held s |}.
Definition count_lock (s : machine) (t : thread) : machine :=
  {| mtx := mtx s; cvq := cvq s; pcs := pcs s; events := events s;
     held := <[t := S (held s t)]> (held s) |}.
Definition count_unlock (s : machine) (t : thread) : machine :=
  {| mtx := mtx s; cvq := cvq s; pcs := pcs s; events := events s;
     held := <[t := pred (held s t)]> (held s) |}.

(** What one section of a thread does, where it does not depend on the host. *)
Definition do_lock (t : thread) (ret : SysError) (s : machine) : machine :=
  match lock_round t (mtx s) with
  | (true, m) => goto (count_lock (with_mtx s m) t) t (Running ret)
  | (false, m) => goto (with_mtx s m) t (LockWait ret)
  end.

Definition do_try_lock (t : thread) (s : machine) : machine :=
  match try_lock t (mtx s) with
  | (Ok _, m) => goto (count_lock (with_mtx s m) t) t (Running (Ok tt))
  | (Err e, m) => goto (with_mtx s m) t (Running (Err e))
  end.

Definition do_unlock (t : thread) (s : machine) : machine :=
  match unlock_lazy t (mtx s) with
  | (Err e, _, m) => goto (with_mtx s m) t (Running (Err e))
  | (Ok _, w, m) => goto (count_unlock (with_mtx s m) t) t
      (if w =? SGX_THREAD_T_NULL then Running (Ok tt) else Unlocking w)
  end.

Definition do_destroy (t : thread) (s : machine) : machine :=
  let '(r, m) := destroy (mtx s) in goto (with_mtx s m) t (Running r).

Definition do_wait (t : thread) (timed : bool) (s : machine) : machine :=
  match wait_enter t (cvq s) (mtx s) with
  | (Err e, _, q, m) => goto (with_cvq (with_mtx s m) q) t (Running (Err e))
  | (Ok _, w, q, m) => goto (count_unlock (with_cvq (with_mtx s m) q) t) t (CvLoop timed w)
  end.

(** [thread_wait_event] or [thread_setwait_events]. *)
Definition do_block (t : thread) (timed : bool) (w : thread) (s : machine) : machine :=
  goto (if w =? SGX_THREAD_T_NULL then s else with_events s (set_event w (events s))) t
    (CvBlocked timed).

Definition do_check (t : thread) (timed timed_out : bool) (s : machine) : machine :=
  if timed then
    match wait_timeout_check t timed_out (cvq s) with
    | (Some ret, q) => goto (with_cvq s q) t (Locking ret)
    | (None, q) => goto (with_cvq s q) t (CvLoop true SGX_THREAD_T_NULL)
    end
  else goto s t (if wait_check t (cvq s) then Locking (Ok tt) else CvLoop false SGX_THREAD_T_NULL).

Definition do_signal (t : thread) (s : machine) : machine :=
  match signal (cvq s) with
  | (None, q) => goto (with_cvq s q) t (Running (Ok tt))
  | (Some w, q) => goto (with_cvq s q) t (Signaling w)
  end.

Definition do_broadcast (t : thread) (s : machine) : machine :=
  if bool_decide (cvq s = []) then goto s t (Running (Ok tt))
  else let '(ws, q) := broadcast (cvq s) in goto (with_cvq s q) t (Broadcasting ws).

Definition is_running (p : pc) : bool := match p with Running _ => true | _ => false end.

(** A step of thread [t].  A wait ends when an event is set for the thread, and,
    with [spurious], whenever the host likes. *)
Inductive step (spurious : bool) : machine -> machine -> Prop :=
| call_lock s t : t <> SGX_THREAD_T_NULL -> is_running (pcs s t) = true ->
    step spurious s (goto s t (Locking (Ok tt)))
| run_lock s t ret : pcs s t = Locking ret -> step spurious s (do_lock t ret s)
| wake_lock s t ret n : pcs s t = LockWait ret -> events s t = S n ->
    step spurious s (goto (with_events s (<[t := n]> (events s))) t (Locking ret))
| wake_lock_spuriously s t ret : spurious = true -> pcs s t = LockWait ret ->
    step spurious s (goto s t (Locking ret))
| run_try_lock s t : t <> SGX_THREAD_T_NULL -> is_running (pcs s t) = true ->
    step spurious s (do_try_lock t s)
| run_unlock s t : t <> SGX_THREAD_T_NULL -> is_running (pcs s t) = true ->
    step spurious s (do_unlock t s)
| run_unlock_event s t w : pcs s t = Unlocking w ->
    step spurious s (goto (with_events s (set_event w (events s))) t (Running (Ok tt)))
| run_destroy s t : t <> SGX_THREAD_T_NULL -> is_running (pcs s t) = true ->
    step spurious s (do_destroy t s)
| run_wait s t timed : t <> SGX_THREAD_T_NULL -> is_running (pcs s t) = true ->
    step spurious s (do_wait t timed s)
| run_block s t timed w : pcs s t = CvLoop timed w -> step spurious s (do_block t timed w s)
| wake_wait s t timed n : pcs s t = CvBlocked timed -> events s t = S n ->
    step spurious s (goto (with_events s (<[t := n]> (events s))) t (CvCheck timed false))
| wake_timeout s t : pcs s t = CvBlocked true -> step spurious s (goto s t (CvCheck true true))
| wake_wait_spuriously s t timed : spurious = true -> pcs s t = CvBlocked timed ->
    step spurious s (goto s t (CvCheck timed false))
| run_check s t timed timed_out : pcs s t = CvCheck timed timed_out ->
    step spurious s (do_check t timed timed_out s)
| run_signal s t : t <> SGX_THREAD_T_NULL -> is_running (pcs s t) = true ->
    step spurious s (do_signal t s)
| run_signal_event s t w : pcs s t = Signaling w ->
    step spurious s (goto (with_events s (set_event w (events s))) t (Running (Ok tt)))
| run_broadcast s t : t <> SGX_THREAD_T_NULL -> is_running (pcs s t) = true ->
    step spurious s (do_broadcast t s)
| run_broadcast_events s t ws : pcs s t = Broadcasting ws ->
    step spurious s (goto (with_events s (set_events ws (events s))) t (Running (Ok tt)))
| run_condvar_destroy s t : t <> SGX_THREAD_T_NULL -> is_running (pcs s t) = true ->
    step spurious s (goto s t (Running (condvar_destroy (cvq s)))).

(** * Lemmas on events and queues *)
Lemma set_events_le ts e t : (e t <= set_events ts e t)%nat.
Proof.
  induction ts as [|x ts IH]; simpl; [lia|]. unfold set_event, insert, fn_insert.
  case_decide; subst; lia.
Qed.

Lemma set_events_pos ts e t : t ∈ ts -> (0 < set_events ts e t)%nat.
Proof.
  induction ts as [|x ts IH]; intros Hin; [by apply not_elem_of_nil in Hin|].
  simpl. unfold set_event, insert, fn_insert. case_decide; subst; [lia|].
  apply elem_of_cons in Hin as [->|Hin]; [done|auto].
Qed.

Lemma remove_first_elem x q : NoDup q -> NoDup (remove_first x q) /\
  forall y, y ∈ remove_first x q <-> y ∈ q /\ y <> x.
Proof.
  induction q as [|z q IH]; intros Hn; simpl; [split; [done|set_solver]|].
  apply NoDup_cons in Hn as [Hz Hn]. destruct (IH Hn) as [I1 I2].
  destruct (Z.eqb_spec z x) as [->|Hne]; (split; [try done; constructor; set_solver|]);
    intros y; rewrite ?elem_of_cons, ?I2; [|naive_solver].
  split; [|naive_solver]. intros Hy. split; [auto|]. by intros ->.
Qed.
