(* ===== verification/SyncMutexProofs.v ===== *)
(** What the mutex and the condition variable of sgx_tstd guarantee, for any
    number of threads, any schedule and, where it says so, any host. *)
From Stdlib Require Import ZArith Lia.
From stdpp Require Import base numbers list option tactics functions relations.
From S2P Require Import Prelude SyncMutex.

(** * Predicates on program counters *)
Definition in_lock (p : pc) : Prop :=
  match p with Locking _ | LockWait _ => True | _ => False end.
Definition is_locking (p : pc) : Prop := match p with Locking _ => True | _ => False end.
Definition in_cv (p : pc) : Prop :=
  match p with CvLoop _ _ | CvBlocked _ | CvCheck _ _ => True | _ => False end.
Definition cv_sleeping (p : pc) : Prop :=
  match p with CvLoop _ _ | CvBlocked _ => True | _ => False end.

(** The thread is about to set an event for [t]. *)
Definition about_to_set (p : pc) (t : thread) : Prop :=
  match p with
  | Unlocking w | Signaling w => w = t
  | CvLoop _ w => w = t
  | Broadcasting ws => t ∈ ws
  | _ => False
  end.

(** An event for [t] is set, or another thread is about to set it. *)
Definition notified (s : machine) (t : thread) : Prop :=
  (0 < events s t)%nat \/ exists u, about_to_set (pcs s u) t.

(** * The invariants *)

(** The mutex against the calls that returned. *)
Definition held_inv (n : Z) (s : machine) : Prop :=
  let m := mtx s in
  0 <= refcount m <= n /\ (owner m = SGX_THREAD_T_NULL <-> refcount m = 0) /\
  (control m = SGX_THREAD_MUTEX_NONRECURSIVE -> refcount m <= 1) /\
  forall t, t <> SGX_THREAD_T_NULL ->
    Z.of_nat (held s t) = if owner m =? t then refcount m else 0.

(** The mutex's queue against the threads that wait for it. *)
Definition queue_inv (s : machine) : Prop :=
  is_running (pcs s SGX_THREAD_T_NULL) = true /\ NoDup (queue (mtx s)) /\
  (forall t, t ∈ queue (mtx s) -> in_lock (pcs s t)) /\
  (forall t ret, pcs s t = LockWait ret -> t ∈ queue (mtx s)) /\
  (control (mtx s) = SGX_THREAD_MUTEX_RECURSIVE -> owner (mtx s) ∉ queue (mtx s)).

(** A free mutex has told the first thread of its queue. *)
Definition wake_inv (s : machine) : Prop :=
  owner (mtx s) = SGX_THREAD_T_NULL -> forall t, head (queue (mtx s)) = Some t ->
  is_locking (pcs s t) \/ notified s t.

(** The condition variable's queue, and the threads that left it asleep. *)
Definition cv_inv (s : machine) : Prop :=
  NoDup (cvq s) /\ (forall t, t ∈ cvq s -> in_cv (pcs s t)) /\
  (forall t, cv_sleeping (pcs s t) -> t ∉ cvq s -> notified s t).

(** * Tactics *)
Create HintDb sync.

(** The effect of a step, with its sections run. *)
Ltac open_step H :=
  inversion H; subst; clear H;
  unfold do_lock, do_try_lock, do_unlock, do_destroy, do_wait, do_block, do_check, do_signal,
    do_broadcast, lock_round, try_lock, wait_enter in *.

(** * The sections *)
Lemma acquire_spec self m m' : acquire self m = Some m' ->
  refcount m' = wrap 64 (refcount m + 1) /\ control m' = control m /\ owner m' = self /\
  ((owner m = self /\ control m = SGX_THREAD_MUTEX_RECURSIVE /\ queue m' = queue m) \/
   (owner m = SGX_THREAD_T_NULL /\
    ((queue m = self :: queue m') \/ (queue m = [] /\ queue m' = [])))).
Proof.
  unfold acquire. destruct (bool_decide_reflect (control m = SGX_THREAD_MUTEX_RECURSIVE)),
    (Z.eqb_spec (owner m) self), (Z.eqb_spec (owner m) SGX_THREAD_T_NULL);
    simpl; intros; simplify_eq/=; split_and!; auto;
  destruct (queue m) as [|x q] eqn:Eq; simpl in *; repeat case_bool_decide; simplify_eq/=;
    auto; try done; right; auto.
Qed.

Lemma acquire_none self m : acquire self m = None ->
  (owner m = SGX_THREAD_T_NULL -> exists t q, queue m = t :: q /\ t <> self).
Proof.
  unfold acquire. intros H E. rewrite E, Z.eqb_refl in H.
  destruct (_ && _); [done|]. simpl in H.
  destruct (queue m) as [|x q] eqn:Eq; simpl in *; repeat case_bool_decide; simplify_eq/=.
  exists x, q. split; [done|]. congruence.
Qed.

Lemma unlock_lazy_spec self m r w m' : self <> SGX_THREAD_T_NULL ->
  unlock_lazy self m = (r, w, m') ->
  (r = Err EPERM /\ owner m <> self /\ w = SGX_THREAD_T_NULL /\ m' = m) \/
  (r = Ok tt /\ owner m = self /\ refcount m' = wrap 64 (refcount m - 1) /\
   control m' = control m /\ queue m' = queue m /\
   ((refcount m' <> 0 /\ owner m' = self /\ w = SGX_THREAD_T_NULL) \/
    (refcount m' = 0 /\ owner m' = SGX_THREAD_T_NULL /\
     w = default SGX_THREAD_T_NULL (head (queue m))))).
Proof.
  unfold unlock_lazy. intros Hs.
  destruct (Z.eqb_spec (owner m) SGX_THREAD_T_NULL), (Z.eqb_spec (owner m) self); simpl;
    intros; simplify_eq/=; auto; [].
  destruct (Z.eqb_spec (wrap 64 (refcount m - 1)) 0); simpl in *; simplify_eq/=;
    right; split_and!; auto.
Qed.

(** * Mutual exclusion *)
Lemma held_goto n s t p : held_inv n s -> held_inv n (goto s t p).
Proof. done. Qed.

Lemma held_cvq n s q : held_inv n s -> held_inv n (with_cvq s q).
Proof. done. Qed.

Lemma held_events n s e : held_inv n s -> held_inv n (with_events s e).
Proof. done. Qed.

Lemma held_mono n s : held_inv n s -> held_inv (n + 1) s.
Proof. unfold held_inv. intros (? & ? & ? & ?). split_and!; (lia || auto). Qed.

#[local] Hint Resolve held_goto held_cvq held_events held_mono : sync.

Lemma held_acquire n s t m : t <> SGX_THREAD_T_NULL -> n + 1 < 2 ^ 64 ->
  acquire t (mtx s) = Some m -> held_inv n s ->
  held_inv (n + 1) (count_lock (with_mtx s m) t).
Proof.
  intros Ht Hn Ea (Hr & Hiff & Hc & Hh). pose proof Ht as Ht'. unfold SGX_THREAD_T_NULL in Ht'.
  apply acquire_spec in Ea as (Er & Ec & Eo & Hcase).
  unfold held_inv, count_lock, with_mtx. simpl.
  rewrite Er, Ec, Eo, wrap_small by lia. split_and!; [lia|lia|..].
  - split; [done|]. intros. lia.
  - intros En. destruct Hcase as [(_ & E & _)|[E _]]; [congruence|]. apply Hiff in E. lia.
  - intros u Hu. unfold insert, fn_insert.
    destruct (Z.eqb_spec t u) as [->|Hne]; [rewrite decide_True by done|rewrite decide_False by done].
    + rewrite Nat2Z.inj_succ, (Hh u Hu). destruct Hcase as [(E & _)|[E _]].
      * rewrite E, Z.eqb_refl. lia.
      * rewrite (proj1 Hiff E). destruct (_ =? _); lia.
    + rewrite (Hh u Hu). destruct (Z.eqb_spec (owner (mtx s)) u) as [E|]; [|done].
      destruct Hcase as [(E' & _)|[E' _]]; [congruence|]. apply Hiff in E'. lia.
Qed.

Lemma held_unlock n s t w m : t <> SGX_THREAD_T_NULL ->
  n + 1 < 2 ^ 64 -> unlock_lazy t (mtx s) = (Ok tt, w, m) -> held_inv n s ->
  held_inv n (count_unlock (with_mtx s m) t).
Proof.
  intros Ht Hn Eu (Hr & Hiff & Hc & Hh). pose proof Ht as Ht'. unfold SGX_THREAD_T_NULL in Ht'.
  apply unlock_lazy_spec in Eu as [(? & _)|(_ & Eo & Er & Ec & _ & Hcase)]; [done| |done].
  assert (refcount (mtx s) <> 0) as Hpos.
  { intros E. apply Hiff in E. congruence. }
  rewrite wrap_small in Er by lia. unfold held_inv, count_unlock, with_mtx. simpl. rewrite Ec, Er. split_and!; [lia|lia|..].
  - destruct Hcase as [(? & -> & _)|(? & -> & _)]; split; intros; (done || lia || congruence).
  - intros E. specialize (Hc E). lia.
  - intros u Hu. unfold insert, fn_insert. destruct (decide (t = u)) as [<-|Hne].
    + specialize (Hh t Hu). rewrite Eo, Z.eqb_refl in Hh.
      destruct Hcase as [(? & -> & _)|(? & -> & _)]; [rewrite Z.eqb_refl; lia|].
      destruct (_ =? _); lia.
    + rewrite (Hh u Hu). destruct (Z.eqb_spec (owner (mtx s)) u); [congruence|].
      assert (owner m <> u) as Hmu by (destruct Hcase as [(_ & -> & _)|(_ & -> & _)]; congruence).
      by rewrite (proj2 (Z.eqb_neq _ _) Hmu).
Qed.

Lemma destroy_spec m r m' : destroy m = (r, m') ->
  (r = Err EBUSY /\ m' = m) \/
  (r = Ok tt /\ owner m = SGX_THREAD_T_NULL /\ queue m = [] /\
   m' = mutex_new SGX_THREAD_MUTEX_NONRECURSIVE).
Proof.
  unfold destroy, mutex_new. destruct (Z.eqb_spec (owner m) SGX_THREAD_T_NULL) as [E|]; simpl;
    [|intros; simplify_eq; auto].
  case_bool_decide as Eq; simpl; intros; simplify_eq; auto. right. by rewrite E, Eq.
Qed.

(** The thread of a step is not null. *)
Lemma not_null s t : is_running (pcs s SGX_THREAD_T_NULL) = true ->
  is_running (pcs s t) = false -> t <> SGX_THREAD_T_NULL.
Proof. intros H1 H2 ->. congruence. Qed.

Lemma held_step b n s s' : n + 1 < 2 ^ 64 -> is_running (pcs s SGX_THREAD_T_NULL) = true ->
  step b s s' -> held_inv n s -> held_inv (n + 1) s'.
Proof.
  intros Hn H0 Hs Hi. open_step Hs; eauto with sync.
  - destruct (acquire t (mtx s)) eqn:Ea; simpl.
    + apply held_goto, held_acquire; eauto. eapply not_null; [done|]. by rewrite H.
    + destruct (bool_decide _); apply held_goto, held_mono; done.
  - destruct (acquire t (mtx s)) eqn:Ea; eauto using held_acquire with sync.
  - destruct (unlock_lazy t (mtx s)) as [[[[]|e] w] m] eqn:Eu.
    + apply held_goto, held_mono. by eapply held_unlock.
    + apply unlock_lazy_spec in Eu as [(_ & _ & _ & ->)|(? & _)]; [|done..].
      destruct s; eauto with sync.
  - destruct (destroy (mtx s)) as [r m] eqn:Ed. apply held_goto, held_mono.
    apply destroy_spec in Ed as [[_ ->]|(_ & Eo & _ & ->)]; [by destruct s|].
    destruct Hi as (Hr & Hiff & Hc & Hh). pose proof (proj1 Hiff Eo) as Er.
    unfold held_inv. simpl. split_and!; [lia|lia|done|lia|].
    intros u Hu. rewrite (Hh u Hu), Er.
    by repeat case_match.
  - destruct (unlock_lazy t (mtx s)) as [[[[]|e] w] m] eqn:Eu; simpl.
    + apply held_goto, held_mono. by apply (held_unlock n s t w m).
    + apply unlock_lazy_spec in Eu as [(_ & _ & _ & ->)|(? & _)]; [|done..].
      destruct s; eauto with sync.
  - destruct (_ =? _); eauto with sync.
  - destruct timed; [destruct (wait_timeout_check _ _ _) as [[] q]|]; eauto with sync.
  - destruct (signal _) as [[] q]; eauto with sync.
  - destruct (bool_decide _); simpl; eauto with sync.
Qed.

(** * The queue of the mutex *)
Lemma queue_acquire s t m : queue_inv s -> acquire t (mtx s) = Some m ->
  NoDup (queue m) /\ (t ∉ queue m) /\ (forall u, u ∈ queue m -> u ∈ queue (mtx s)) /\
  (forall u, u ∈ queue (mtx s) -> u <> t -> u ∈ queue m).
Proof.
  intros (_ & Hn & _ & _ & Hrec) (_ & _ & _ & Hcase)%acquire_spec.
  destruct Hcase as [(E & Ec & ->)|[E [Eq|[Eq ->]]]].
  - split_and!; [done|rewrite <- E; by apply Hrec|done..].
  - rewrite Eq in *. apply NoDup_cons in Hn as [Hn1 Hn2].
    split_and!; [done..|set_solver|set_solver].
  - rewrite Eq. split_and!; [constructor|set_solver..].
Qed.

(** Steps that leave the mutex's queue alone and move a thread that is not in it. *)
Lemma queue_move s s' t p :
  queue_inv s -> t <> SGX_THREAD_T_NULL -> queue (mtx s') = queue (mtx s) ->
  pcs s' = <[t := p]> (pcs s) ->
  (control (mtx s') = SGX_THREAD_MUTEX_RECURSIVE -> owner (mtx s') ∉ queue (mtx s')) ->
  (t ∈ queue (mtx s) -> in_lock p) -> (forall ret, p = LockWait ret -> t ∈ queue (mtx s)) ->
  queue_inv s'.
Proof.
  intros (H0 & Hn & Hq & Hw & Hrec) Ht Eq Ep Hrec' Hin Hlw. unfold queue_inv.
  rewrite Ep, !Eq in *. unfold insert, fn_insert. split_and!; [|done|..].
  - by rewrite decide_False.
  - intros u Hu. case_decide; subst; auto.
  - intros u ret Hu. case_decide; subst; eauto.
  - done.
Qed.

(** A thread that is not in [lock] is not queued. *)
Lemma not_queued s t : queue_inv s -> ~ in_lock (pcs s t) -> t ∉ queue (mtx s).
Proof. intros (_ & _ & Hq & _) Hn Hin. by apply Hn, Hq. Qed.

Lemma running_not_queued s t : queue_inv s -> is_running (pcs s t) = true ->
  t ∉ queue (mtx s).
Proof. intros Hi Hr. apply not_queued; [done|]. destruct (pcs s t); naive_solver. Qed.

Lemma queue_taken s s' t m ret :
  queue_inv s -> t <> SGX_THREAD_T_NULL -> acquire t (mtx s) = Some m -> mtx s' = m ->
  pcs s' = <[t := Running ret]> (pcs s) -> queue_inv s'.
Proof.
  intros Hi Ht Ea Em Ep. destruct (queue_acquire s t m Hi Ea) as (Hn & Hnt & Hsub & Hsup).
  destruct Hi as (H0 & _ & Hq & Hw & _). unfold queue_inv. rewrite Em, Ep.
  unfold insert, fn_insert. split_and!; [by rewrite decide_False|done|..].
  - intros u Hu. case_decide; subst; [done|auto].
  - intros u r Hu. case_decide; subst; [done|eauto].
  - intros _. apply acquire_spec in Ea as (_ & _ & -> & _). done.
Qed.

Lemma queue_joined s t ret : queue_inv s -> t <> SGX_THREAD_T_NULL ->
  is_locking (pcs s t) -> acquire t (mtx s) = None -> queue_inv (do_lock t ret s).
Proof.
  intros Hi Ht Hl Ea. unfold do_lock, lock_round. rewrite Ea.
  destruct (bool_decide_reflect (t ∈ queue (mtx s))) as [Hin|Hin]; simpl.
  - eapply (queue_move s _ t (LockWait ret)); try done. apply Hi.
  - destruct Hi as (H0 & Hn & Hq & Hw & Hrec). unfold queue_inv. simpl.
    unfold insert, fn_insert. split_and!; [by rewrite decide_False|..].
    + apply NoDup_app. split_and!; [done|set_solver|apply NoDup_singleton].
    + intros u Hu. case_decide; subst; [done|]. apply Hq. set_solver.
    + intros u r Hu. case_decide; subst; [set_solver|]. apply elem_of_app. eauto.
    + intros E Hu. apply elem_of_app in Hu as [Hu|Hu%list_elem_of_singleton]; [by apply Hrec|].
      unfold acquire in Ea. rewrite bool_decide_true, Hu, Z.eqb_refl in Ea; done.
Qed.

(** Releasing keeps the queue. *)
Lemma queue_unlock s s' t r w m p :
  queue_inv s -> t <> SGX_THREAD_T_NULL -> is_running (pcs s t) = true ->
  unlock_lazy t (mtx s) = (r, w, m) -> mtx s' = m -> pcs s' = <[t := p]> (pcs s) ->
  (forall ret, p <> LockWait ret) -> queue_inv s'.
Proof.
  intros Hi Ht Hr Eu Em Ep Hp. pose proof (running_not_queued s t Hi Hr) as Hnq.
  assert (queue m = queue (mtx s) /\ (control m = control (mtx s)) /\
    (owner m = owner (mtx s) \/ owner m = SGX_THREAD_T_NULL)) as (Eq & Ec & Eo).
  { apply unlock_lazy_spec in Eu as [(_ & _ & _ & ->)|(_ & <- & _ & ? & ? & Hc)]; [tauto| |done].
    split_and!; [done..|]. destruct Hc as [(_ & ? & _)|(_ & ? & _)]; auto. }
  apply (queue_move s s' t p Hi Ht); rewrite ?Em, ?Eq; [done..| |done|].
  - rewrite Ec. destruct Eo as [->| ->]; [apply Hi|]. intros _.
    apply running_not_queued; [done|apply Hi].
  - intros ret ->. by destruct (Hp ret).
Qed.

Lemma queue_goto s s' t p :
  queue_inv s -> mtx s' = mtx s -> pcs s' = <[t := p]> (pcs s) -> ~ in_lock (pcs s t) ->
  t <> SGX_THREAD_T_NULL -> (forall ret, p <> LockWait ret) -> queue_inv s'.
Proof.
  intros Hi Em Ep Hn Ht Hp. pose proof (not_queued s t Hi Hn).
  apply (queue_move s s' t p Hi Ht); rewrite ?Em; try done; [apply Hi|].
  intros ret ->. by destruct (Hp ret).
Qed.

Lemma queue_wake s s' t ret :
  queue_inv s -> pcs s t = LockWait ret -> mtx s' = mtx s ->
  pcs s' = <[t := Locking ret]> (pcs s) -> queue_inv s'.
Proof.
  intros Hi E Em Ep. apply (queue_move s s' t (Locking ret) Hi); rewrite ?Em; try done; [|apply Hi].
  eapply not_null; [apply Hi|]. by rewrite E.
Qed.

(** Where the thread of a step was: outside, and not null, or inside a call. *)
Ltac step_from Hi :=
  match goal with
  | H : is_running (pcs ?s ?t) = true |- ~ in_lock (pcs ?s ?t) =>
      destruct (pcs s t); naive_solver
  | H : pcs ?s ?t = _ |- ~ in_lock (pcs ?s ?t) => rewrite H; simpl; tauto
  | H : pcs ?s ?t = _ |- ?t <> SGX_THREAD_T_NULL =>
      eapply not_null; [apply Hi|by rewrite H]
  | |- forall ret, _ <> LockWait ret => intros ?; repeat case_match; done
  | _ => done
  end.

Lemma queue_step b s s' : step b s s' -> queue_inv s -> queue_inv s'.
Proof.
  intros Hs Hi. open_step Hs;
    try (by eapply queue_wake); try (eapply (queue_goto s); [done|..]; [done|done|step_from Hi..]).
  - assert (t <> SGX_THREAD_T_NULL) by step_from Hi.
    destruct (acquire t (mtx s)) as [m|] eqn:Ea; [by eapply (queue_taken s _ t m ret)|].
    pose proof (queue_joined s t ret) as Hj. unfold do_lock, lock_round in Hj.
    rewrite Ea in Hj. apply Hj; try done. by rewrite H.
  - destruct (acquire t (mtx s)) as [m|] eqn:Ea; [by eapply (queue_taken s _ t m)|].
    eapply (queue_goto s); [done|..]; [done|done|step_from Hi..].
  - destruct (unlock_lazy t (mtx s)) as [[[[]|e] w] m] eqn:Eu;
      eapply (queue_unlock s _ t); try done; step_from Hi.
  - destruct (destroy (mtx s)) as [r m] eqn:Ed. apply destroy_spec in Ed as [[_ ->]|(_ & _ & Eq & ->)].
    + eapply (queue_goto s); [done|..]; [done|done|step_from Hi..].
    + apply (queue_move s _ t (Running r) Hi); try done.
      intros Hin. rewrite Eq in Hin. set_solver.
  - destruct (unlock_lazy t (mtx s)) as [[[[]|e] w] m] eqn:Eu; simpl;
      eapply (queue_unlock s _ t); try done; step_from Hi.
  - case_match; eapply (queue_goto s); [done|..]; [done|done|step_from Hi..].
  - destruct timed; [destruct (wait_timeout_check _ _ _) as [[] q]|];
      eapply (queue_goto s); [done|..]; (step_from Hi || done).
  - destruct (signal _) as [[] q]; eapply (queue_goto s); [done|..]; (step_from Hi || done).
  - case_match; eapply (queue_goto s); [done|..]; (step_from Hi || done).
Qed.

(** * Wake-ups *)
Lemma set_event_le w e t : (e t <= set_event w e t)%nat.
Proof. apply (set_events_le [w]). Qed.

Lemma set_event_pos w e : (0 < set_event w e w)%nat.
Proof. apply (set_events_pos [w]). set_solver. Qed.

#[local] Hint Resolve set_events_le set_events_pos set_event_le set_event_pos : sync.

(** What a step of [t0] may do to the events and program counters. *)
Definition keeps_notices (s s' : machine) (t0 : thread) (p : pc) : Prop :=
  pcs s' = <[t0 := p]> (pcs s) /\
  (forall t, t <> t0 -> (events s t <= events s' t)%nat) /\
  (forall t, t <> SGX_THREAD_T_NULL -> about_to_set (pcs s t0) t ->
     (0 < events s' t)%nat \/ about_to_set p t).

Lemma notified_mono s s' t0 p t :
  keeps_notices s s' t0 p -> t <> SGX_THREAD_T_NULL -> (events s t <= events s' t)%nat ->
  notified s t -> notified s' t.
Proof.
  intros (Ep & _ & Ha) Ht He [H|[u Hu]]; [left; lia|].
  destruct (decide (t0 = u)) as [->|Hu'].
  - destruct (Ha t Ht Hu) as [?|?]; [by left|]. right. exists u. by rewrite Ep, fn_lookup_insert.
  - right. exists u. by rewrite Ep, fn_lookup_insert_ne.
Qed.

Lemma notified_kept s s' t0 p t :
  keeps_notices s s' t0 p -> t <> SGX_THREAD_T_NULL -> t <> t0 ->
  notified s t -> notified s' t.
Proof. intros Hk Ht Hne. apply (notified_mono s s' t0 p); [done..|]. by apply Hk. Qed.

Lemma wake_frame s s' t0 p :
  queue_inv s -> wake_inv s -> keeps_notices s s' t0 p ->
  (owner (mtx s') = SGX_THREAD_T_NULL -> owner (mtx s) = SGX_THREAD_T_NULL /\
     head (queue (mtx s')) = head (queue (mtx s))) ->
  (owner (mtx s') = SGX_THREAD_T_NULL -> head (queue (mtx s)) = Some t0 -> is_locking p) ->
  wake_inv s'.
Proof.
  intros Hq Hw Hk Ho Hl E t Ht. destruct (Ho E) as [Eo Eh]. rewrite Eh in Ht.
  assert (pcs s' = <[t0 := p]> (pcs s)) as Ep by apply Hk. rewrite Ep.
  destruct (decide (t0 = t)) as [<-|Hne]; [left; rewrite fn_lookup_insert; auto|].
  rewrite fn_lookup_insert_ne by done. destruct (Hw Eo t Ht) as [?|Hn]; [by left|right].
  apply (notified_kept s s' t0 p); [done| |congruence|done].
  assert (in_lock (pcs s t)) as Hin by (apply Hq, head_Some_elem_of; done).
  intros ->. destruct Hq as [H0 _]. by destruct (pcs s _).
Qed.

Lemma cv_frame s s' t0 p :
  queue_inv s -> cv_inv s -> keeps_notices s s' t0 p -> NoDup (cvq s') ->
  (forall t, t ∈ cvq s' -> t = t0 \/ t ∈ cvq s) -> (t0 ∈ cvq s' -> in_cv p) ->
  (cv_sleeping p -> t0 ∉ cvq s' -> notified s' t0) ->
  (forall t, t <> t0 -> t ∈ cvq s -> t ∉ cvq s' -> notified s' t) -> cv_inv s'.
Proof.
  intros Hq (Hn & Hin & Hsl) Hk Hn' Hsub Hin0 Hsl0 Hout.
  assert (pcs s' = <[t0 := p]> (pcs s)) as Ep by apply Hk. unfold cv_inv. rewrite Ep.
  split_and!; [done|..]; intros t Ht; destruct (decide (t0 = t)) as [<-|Hne];
    rewrite ?fn_lookup_insert, ?fn_lookup_insert_ne in * by done; auto.
  - apply Hin. destruct (Hsub t Ht); [congruence|done].
  - intros Hnt. destruct (decide (t ∈ cvq s)); [apply Hout; (done || congruence)|].
    apply (notified_kept s s' t0 p); [done| |congruence|auto].
    intros ->. destruct Hq as [H0 _]. by destruct (pcs s _).
Qed.

(** [keeps_notices] for a step whose effect is in the goal. *)
Ltac keeps :=
  unfold keeps_notices; simpl; split_and!;
  [ done
  | intros u Hu; rewrite ?fn_lookup_insert_ne by congruence; repeat case_match; simpl;
    eauto with sync
  | intros u Hu Ha;
    match goal with
    | H : is_running (pcs ?s ?t) = true, Ha : about_to_set (pcs ?s ?t) _ |- _ =>
        destruct (pcs s t); by destruct Ha
    | H : pcs ?s ?t = _, Ha : about_to_set (pcs ?s ?t) _ |- _ =>
        rewrite H in Ha; simpl in Ha; subst; eauto with sync; try done
    end ].

Lemma taken_not_null s t m : t <> SGX_THREAD_T_NULL -> acquire t (mtx s) = Some m ->
  owner m <> SGX_THREAD_T_NULL.
Proof. by intros Ht (_ & _ & -> & _)%acquire_spec. Qed.

(** The queue's first thread is in [lock]; a thread elsewhere is not it. *)
Lemma not_first s t : queue_inv s -> ~ in_lock (pcs s t) -> head (queue (mtx s)) <> Some t.
Proof. intros Hi Hn Hh. by apply (not_queued s t Hi Hn), head_Some_elem_of. Qed.

(** Releasing the mutex: the thread that is first in the queue is the one that
    will be told. *)
Lemma wake_released s s' t r w m p :
  queue_inv s -> wake_inv s -> t <> SGX_THREAD_T_NULL -> is_running (pcs s t) = true ->
  unlock_lazy t (mtx s) = (r, w, m) -> mtx s' = m -> keeps_notices s s' t p ->
  (forall w', r = Ok tt -> head (queue (mtx s)) = Some w' -> w = w' -> about_to_set p w') ->
  wake_inv s'.
Proof.
  intros Hq Hw Ht Hr Eu Em Hk Hp. pose proof (proj1 Hk) as Ep.
  assert (~ in_lock (pcs s t)) as Hnl by (destruct (pcs s t); naive_solver).
  apply unlock_lazy_spec in Eu as [(_ & _ & _ & ->)|(-> & Eo & _ & _ & Eq & Hc)]; [..|done].
  - eapply (wake_frame s s' t p); try done; rewrite Em; [done|].
    intros _ Hh. by apply not_first in Hh.
  - intros E u Hu. rewrite Em, Eq in Hu. rewrite Em in E.
    destruct Hc as [(_ & E' & _)|(_ & _ & ->)]; [congruence|].
    right. right. exists t. rewrite Ep, fn_lookup_insert. apply Hp; [done..|]. by rewrite Hu.
Qed.

Lemma waiter_not_null s w : queue_inv s -> head (queue (mtx s)) = Some w ->
  w <> SGX_THREAD_T_NULL.
Proof.
  intros Hi Hh ->. apply (not_first s SGX_THREAD_T_NULL Hi); [|done].
  destruct Hi as [H0 _]. destruct (pcs s _); naive_solver.
Qed.

Lemma wake_step b s s' : step b s s' -> queue_inv s -> wake_inv s -> wake_inv s'.
Proof.
  intros Hs Hi Hw.
  assert (forall s' t p, keeps_notices s s' t p -> ~ in_lock (pcs s t) -> mtx s' = mtx s ->
    wake_inv s') as Hout.
  { intros s'' t p Hk Hn Em. eapply (wake_frame s s'' t p); rewrite ?Em; try done.
    intros _ Hh. by apply not_first in Hh. }
  assert (forall s' t ret, keeps_notices s s' t (Locking ret) -> mtx s' = mtx s -> wake_inv s')
    as Hlk.
  { intros s'' t ret Hk Em. by eapply (wake_frame s s'' t); rewrite ?Em. }
  open_step Hs.
  all: try (by eapply Hlk; [keeps|]).
  all: try (by eapply Hout; [keeps|step_from Hi|]).
  - assert (t <> SGX_THREAD_T_NULL) by step_from Hi.
    destruct (acquire t (mtx s)) as [m|] eqn:Ea; simpl.
    + intros E. by apply taken_not_null in Ea.
    + pose proof (acquire_none t (mtx s) Ea) as Hno.
      eapply (wake_frame s _ t (LockWait ret)); [done..|keeps| |]; simpl.
      * intros E. assert (owner (mtx s) = SGX_THREAD_T_NULL) as Eo by by destruct (bool_decide _).
        split; [done|]. destruct (Hno Eo) as (u & q & Eq & _). destruct (bool_decide _); [done|].
        simpl. by rewrite Eq.
      * intros E Hh. assert (owner (mtx s) = SGX_THREAD_T_NULL) as Eo by by destruct (bool_decide _).
        destruct (Hno Eo) as (u & q & Eq & Hne). rewrite Eq in Hh. by simplify_eq/=.
  - destruct (acquire t (mtx s)) as [m|] eqn:Ea; simpl.
    + intros E. by apply taken_not_null in Ea.
    + by eapply Hout; [keeps|step_from Hi|].
  - destruct (unlock_lazy t (mtx s)) as [[[[]|e] w] m] eqn:Eu;
      (eapply (wake_released s _ t); [done..|keeps|]); [|done].
    intros w' _ Hh ->. pose proof (waiter_not_null s w' Hi Hh).
    by rewrite (proj2 (Z.eqb_neq _ _)).
  - destruct (destroy (mtx s)) as [r m] eqn:Ed.
    apply destroy_spec in Ed as [[_ ->]|(_ & _ & _ & ->)]; [|by intros _ ?].
    by eapply Hout; [keeps|step_from Hi|].
  - destruct (unlock_lazy t (mtx s)) as [[[[]|e] w] m] eqn:Eu; simpl;
      (eapply (wake_released s _ t); [done..|keeps|done]).
  - apply (Hout _ t (CvBlocked timed)); [|step_from Hi|by case_match].
    destruct (Z.eqb_spec w SGX_THREAD_T_NULL); keeps.
  - destruct timed; [destruct (wait_timeout_check _ _ _) as [[] q]|];
      by eapply Hout; [keeps|step_from Hi|].
  - destruct (signal _) as [[] q]; by eapply Hout; [keeps|step_from Hi|].
  - case_match; by eapply Hout; [keeps|step_from Hi|].
Qed.

(** * The condition variable *)
(** Steps of a thread that is not in [wait]. *)
Lemma cv_outside s s' t p :
  queue_inv s -> cv_inv s -> keeps_notices s s' t p -> ~ in_cv (pcs s t) -> ~ in_cv p ->
  cvq s' = cvq s -> cv_inv s'.
Proof.
  intros Hq Hc Hk Hn Hp Eq. assert (t ∉ cvq s) as Ht by (intros Hin; by apply Hn, Hc).
  eapply (cv_frame s s' t p); rewrite ?Eq; try done; [apply Hc|auto|].
  intros Hsl. by destruct p.
Qed.

(** Steps of a thread in [wait] that keep the queue. *)
Lemma cv_inside s s' t p :
  queue_inv s -> cv_inv s -> keeps_notices s s' t p -> in_cv p -> cvq s' = cvq s ->
  (cv_sleeping p -> t ∉ cvq s -> notified s' t) -> cv_inv s'.
Proof.
  intros Hq Hc Hk Hp Eq Hsl. eapply (cv_frame s s' t p); rewrite ?Eq; try done; [apply Hc|auto].
Qed.

Ltac not_in_cv :=
  match goal with
  | H : is_running (pcs ?s ?t) = true |- ~ in_cv (pcs ?s ?t) => destruct (pcs s t); naive_solver
  | H : pcs ?s ?t = _ |- ~ in_cv (pcs ?s ?t) => rewrite H; simpl; tauto
  | |- ~ in_cv _ => simpl; repeat case_match; simpl; tauto
  end.

Lemma take_app_last {A} (q : list A) x : take (length (q ++ [x]) - 1) (q ++ [x]) = q.
Proof. rewrite length_app. simpl. by rewrite Nat.add_sub, take_app_length. Qed.

Lemma running_not_in_cvq s t : cv_inv s -> is_running (pcs s t) = true -> t ∉ cvq s.
Proof. intros Hc Hr Hin%Hc. destruct (pcs s t); naive_solver. Qed.

Lemma cv_wait s t timed : queue_inv s -> cv_inv s -> is_running (pcs s t) = true ->
  cv_inv (do_wait t timed s).
Proof.
  intros Hi Hc Hr. pose proof (running_not_in_cvq s t Hc Hr) as Ht.
  unfold do_wait, wait_enter. destruct (unlock_lazy t (mtx s)) as [[[[]|e] w] m]; simpl.
  - eapply (cv_frame s _ t (CvLoop timed w)); [done|done|keeps|..]; simpl; try set_solver.
    apply NoDup_app. split_and!; [apply Hc|set_solver|apply NoDup_singleton].
  - rewrite take_app_last. by eapply (cv_outside s); [done..|keeps|not_in_cv|not_in_cv|].
Qed.

Lemma cv_block s t timed w : queue_inv s -> cv_inv s -> pcs s t = CvLoop timed w ->
  cv_inv (do_block t timed w s).
Proof.
  intros Hi Hc H. assert (t <> SGX_THREAD_T_NULL) as Ht by step_from Hi.
  assert (forall s', keeps_notices s s' t (CvBlocked timed) -> cvq s' = cvq s ->
    (events s t <= events s' t)%nat -> cv_inv s') as Hb.
  { intros s' Hk Eq He. eapply (cv_inside s); [done..|].
    intros _ Hn. apply (notified_mono s s' t (CvBlocked timed)); [done..|].
    apply Hc; [by rewrite H|done]. }
  unfold do_block.
  destruct (Z.eqb_spec w SGX_THREAD_T_NULL); (apply Hb; [keeps|done|]); simpl; eauto with sync.
Qed.

Lemma cv_check s t timed timed_out : queue_inv s -> cv_inv s ->
  pcs s t = CvCheck timed timed_out -> cv_inv (do_check t timed timed_out s).
Proof.
  intros Hi Hc H. unfold do_check, wait_check, wait_timeout_check. destruct timed.
  - case_bool_decide as Hin; [destruct timed_out|].
    + destruct (remove_first_elem t (cvq s)) as [R1 R2]; [apply Hc|].
      eapply (cv_frame s _ t (Locking (Err ETIMEDOUT))); [done|done|keeps|simpl..]; try done.
      * intros u [Hu _]%R2. auto.
      * by intros [_ ?]%R2.
      * intros u Hne Hu Hu'. destruct Hu'. by apply R2.
    + by eapply (cv_inside s); [done..|keeps|done|done|].
    + eapply (cv_frame s _ t (Locking (Ok tt))); [done|done|keeps|simpl..]; try done; [apply Hc|auto].
  - case_bool_decide as Hin; simpl.
    + by eapply (cv_inside s); [done..|keeps|done|done|].
    + eapply (cv_frame s _ t (Locking (Ok tt))); [done|done|keeps|simpl..]; try done; [apply Hc|auto].
Qed.

Lemma cv_signal s t : queue_inv s -> cv_inv s -> is_running (pcs s t) = true ->
  cv_inv (do_signal t s).
Proof.
  intros Hi Hc Hr. pose proof (running_not_in_cvq s t Hc Hr) as Ht.
  unfold do_signal. destruct (cvq s) as [|w q] eqn:Eq; simpl.
  - by eapply (cv_outside s); [done..|keeps|not_in_cv|not_in_cv|].
  - pose proof (proj1 Hc) as Hn. rewrite Eq in Hn. apply NoDup_cons in Hn as [Hw Hn].
    eapply (cv_frame s _ t (Signaling w)); [done|done|keeps|simpl..]; rewrite ?Eq; try done;
      [set_solver|set_solver|].
    intros u Hne Hu Hu'. apply elem_of_cons in Hu as [->|]; [|done].
    right. exists t. simpl. by rewrite fn_lookup_insert.
Qed.

Lemma cv_broadcast s t : queue_inv s -> cv_inv s -> is_running (pcs s t) = true ->
  cv_inv (do_broadcast t s).
Proof.
  intros Hi Hc Hr. pose proof (running_not_in_cvq s t Hc Hr) as Ht. unfold do_broadcast.
  case_bool_decide as Eq; [by eapply (cv_outside s); [done..|keeps|not_in_cv|not_in_cv|]|].
  eapply (cv_frame s _ t (Broadcasting _)); [done|done|keeps|simpl..]; try set_solver;
    [apply NoDup_nil_2|].
  intros u Hne Hu _. right. exists t. simpl. rewrite fn_lookup_insert. simpl.
  by apply elem_of_reverse.
Qed.

Lemma cv_step b s s' : step b s s' -> queue_inv s -> cv_inv s -> cv_inv s'.
Proof.
  intros Hs Hi Hc. inversion Hs; subst; clear Hs;
    eauto using cv_wait, cv_block, cv_check, cv_signal, cv_broadcast;
    unfold do_lock, do_try_lock, do_unlock, do_destroy, lock_round, try_lock;
    try destruct (acquire _ _); try destruct (unlock_lazy _ _) as [[[[]|?] ?] ?];
    try destruct (destroy _); simpl;
    first [by eapply (cv_outside s); [done..|keeps|not_in_cv|not_in_cv|]
          |by eapply (cv_inside s); [done..|keeps|done|done|]].
Qed.

(** * Reachable states *)
Record machine_inv (s : machine) : Prop := {
  mi_queue : queue_inv s;
  mi_wake : wake_inv s;
  mi_cv : cv_inv s
}.

Lemma start_inv c : machine_inv (start c) /\ held_inv 0 (start c).
Proof.
  repeat split; simpl; try done; try set_solver; try apply NoDup_nil_2; try lia.
  intros t _. by case_match.
Qed.

Lemma machine_step b s s' : step b s s' -> machine_inv s -> machine_inv s'.
Proof.
  intros Hs [Hq Hw Hc]. split; [by eapply queue_step|by eapply wake_step|by eapply cv_step].
Qed.

Lemma reachable_inv b c s : rtc (step b) (start c) s -> machine_inv s.
Proof.
  intros Hr. eapply (rtc_ind_r (fun s => machine_inv s) (start c)); [apply start_inv| |done].
  intros. by eapply machine_step.
Qed.

Lemma held_reachable b c n s : nsteps (step b) n (start c) s -> Z.of_nat n < 2 ^ 64 ->
  held_inv (Z.of_nat n) s.
Proof.
  revert s. induction n as [|n IH]; intros s Hn Hlt.
  - inversion Hn; subst. apply start_inv.
  - apply nsteps_inv_r in Hn as (s1 & Hn & Hs).
    replace (Z.of_nat (S n)) with (Z.of_nat n + 1) by lia.
    eapply held_step; [lia| |done|apply IH; [done|lia]].
    apply (reachable_inv b c). by eapply rtc_nsteps_2.
Qed.

(** * The theorems *)

(** C9. Mutual exclusion: however many threads call [lock], [try_lock],
    [unlock], [destroy], [wait], [wait_timeout], [signal] and [broadcast], in any
    order, and whatever the host does with their waits, only the owner of the
    mutex has a lock call that it has not released, and [refcount] counts these
    calls; a non-recursive mutex is locked once.  ([refcount] is a [usize]: the
    run has less than 2^64 steps.) *)
Theorem mutex_exclusion c n s t :
  nsteps (step true) n (start c) s -> Z.of_nat n < 2 ^ 64 -> t <> SGX_THREAD_T_NULL ->
  (0 < held s t)%nat ->
  owner (mtx s) = t /\ refcount (mtx s) = Z.of_nat (held s t) /\
  (control (mtx s) = SGX_THREAD_MUTEX_NONRECURSIVE -> held s t = 1%nat) /\
  (forall u, u <> SGX_THREAD_T_NULL -> u <> t -> held s u = 0%nat).
Proof.
  intros Hn Hlt Ht Hh. pose proof (held_reachable true c n s Hn Hlt) as (_ & _ & Hc & He).
  pose proof (He t Ht) as E. destruct (Z.eqb_spec (owner (mtx s)) t) as [Eo|]; [|lia].
  split_and!; [done|lia|intros Hnr; specialize (Hc Hnr); lia|].
  intros u Hu Hne. specialize (He u Hu). rewrite (proj2 (Z.eqb_neq _ _)) in He; [lia|congruence].
Qed.

(** Threads 1 and 2 call [lock]; thread 1 takes the mutex. *)
Definition two_lockers : machine :=
  do_lock 2 (Ok tt) (do_lock 1 (Ok tt)
    (goto (goto (start SGX_THREAD_MUTEX_NONRECURSIVE) 1 (Locking (Ok tt))) 2 (Locking (Ok tt)))).

Lemma two_lockers_steps b :
  nsteps (step b) 4 (start SGX_THREAD_MUTEX_NONRECURSIVE) two_lockers.
Proof.
  eapply nsteps_l; [by apply (call_lock b _ 1)|]. eapply nsteps_l; [by apply (call_lock b _ 2)|].
  eapply nsteps_l; [by apply (run_lock b _ 1)|]. eapply nsteps_l; [by apply (run_lock b _ 2)|].
  apply nsteps_O.
Qed.

Lemma mutex_exclusion_witness :
  owner (mtx two_lockers) = 1 /\ refcount (mtx two_lockers) = 1 /\
  (control (mtx two_lockers) = SGX_THREAD_MUTEX_NONRECURSIVE -> held two_lockers 1 = 1%nat) /\
  (forall u, u <> SGX_THREAD_T_NULL -> u <> 1 -> held two_lockers u = 0%nat).
Proof.
  apply (mutex_exclusion SGX_THREAD_MUTEX_NONRECURSIVE 4 two_lockers 1);
    [apply two_lockers_steps|lia|done|]. vm_compute. lia.
Defined.

(** First come, first served: a step of any thread leaves the mutex's queue
    as it is, adds one new thread at its end, or removes its first thread, which
    is then the owner; and while threads are queued, only the first of them can
    take a free mutex. *)
Theorem mutex_fifo c s s' :
  rtc (step true) (start c) s -> step true s s' ->
  let q := queue (mtx s) in
  (queue (mtx s') = q \/
   (exists t, (t ∉ q) /\ queue (mtx s') = q ++ [t]) \/
   (exists t, q = t :: queue (mtx s') /\ owner (mtx s) = SGX_THREAD_T_NULL /\
      owner (mtx s') = t)) /\
  (owner (mtx s) = SGX_THREAD_T_NULL -> owner (mtx s') <> SGX_THREAD_T_NULL -> q <> [] ->
   head q = Some (owner (mtx s'))).
Proof.
  intros Hr Hs q. pose proof (mi_queue s (reachable_inv true c s Hr)) as Hi.
  assert (forall t m, acquire t (mtx s) = Some m ->
    (queue m = q \/ (exists t, (t ∉ q) /\ queue m = q ++ [t]) \/
     (exists t, q = t :: queue m /\ owner (mtx s) = SGX_THREAD_T_NULL /\ owner m = t)) /\
    (owner (mtx s) = SGX_THREAD_T_NULL -> owner m <> SGX_THREAD_T_NULL -> q <> [] ->
     head q = Some (owner m))) as Hacq.
  { intros t m (_ & _ & Eo & Hcase)%acquire_spec. unfold q.
    destruct Hcase as [(E & _ & Eq)|[E [Eq|[Eq Eq']]]]; rewrite ?Eq, ?Eq', ?Eo; split; auto.
    - congruence.
    - right. right. by exists t.
    - done. }
  assert (forall t r w m, unlock_lazy t (mtx s) = (r, w, m) -> t <> SGX_THREAD_T_NULL ->
    queue m = q /\ (owner (mtx s) = SGX_THREAD_T_NULL -> owner m = SGX_THREAD_T_NULL)) as Hunl.
  { intros t r w m Eu Ht.
    apply unlock_lazy_spec in Eu as [(_ & _ & _ & ->)|(_ & E & _ & _ & Eq & _)]; [done| |done].
    split; [done|congruence]. }
  open_step Hs; try (split; [by left|done]).
  - destruct (acquire t (mtx s)) as [m|] eqn:Ea; simpl; [by apply (Hacq t)|].
    case_bool_decide as Hin; simpl; (split; [|done]); [by left|right; left; by exists t].
  - destruct (acquire t (mtx s)) as [m|] eqn:Ea; simpl; [by apply (Hacq t)|].
    split; [by left|done].
  - destruct (unlock_lazy t (mtx s)) as [[[[]|e] w] m] eqn:Eu; simpl;
      (destruct (Hunl _ _ _ _ Eu) as [-> Ho]; [done|]; split; [by left|naive_solver]).
  - destruct (destroy (mtx s)) as [r m] eqn:Ed. simpl.
    apply destroy_spec in Ed as [[_ ->]|(_ & _ & Eq & ->)]; [split; [by left|done]|].
    unfold q. rewrite Eq. split; [by left|done].
  - destruct (unlock_lazy t (mtx s)) as [[[[]|e] w] m] eqn:Eu; simpl;
      (destruct (Hunl _ _ _ _ Eu) as [-> Ho]; [done|]; split; [by left|naive_solver]).
  - case_match; (split; [by left|done]).
  - destruct timed; [destruct (wait_timeout_check _ _ _) as [[] ?]|]; (split; [by left|done]).
  - destruct (signal _) as [[] ?]; (split; [by left|done]).
  - case_match; (split; [by left|done]).
Qed.

Lemma mutex_fifo_witness :
  (queue (mtx (goto two_lockers 3 (Locking (Ok tt)))) = [2] \/
   (exists t, (t ∉ [2]) /\
      queue (mtx (goto two_lockers 3 (Locking (Ok tt)))) = [2] ++ [t]) \/
   (exists t, [2] = t :: queue (mtx (goto two_lockers 3 (Locking (Ok tt)))) /\
      1 = SGX_THREAD_T_NULL /\ owner (mtx (goto two_lockers 3 (Locking (Ok tt)))) = t)).
Proof.
  apply (mutex_fifo SGX_THREAD_MUTEX_NONRECURSIVE two_lockers
    (goto two_lockers 3 (Locking (Ok tt)))).
  - eapply rtc_nsteps_2, two_lockers_steps.
  - by apply (call_lock true).
Defined.

(** An honest step that sets the event a thread is about to set. *)
Lemma event_step s u t : about_to_set (pcs s u) t -> t <> SGX_THREAD_T_NULL -> u <> t ->
  exists s', step false s s' /\ mtx s' = mtx s /\ cvq s' = cvq s /\ pcs s' t = pcs s t /\
    (0 < events s' t)%nat.
Proof.
  intros Ha Ht Hu. destruct (pcs s u) eqn:E; simpl in Ha; subst; try done.
  - eexists. split; [by eapply run_unlock_event|]. simpl.
    rewrite fn_lookup_insert_ne by done. eauto with sync.
  - eexists. split; [by eapply run_block|]. unfold do_block.
    rewrite (proj2 (Z.eqb_neq _ _)) by done. simpl.
    rewrite fn_lookup_insert_ne by done. eauto with sync.
  - eexists. split; [by eapply run_signal_event|]. simpl.
    rewrite fn_lookup_insert_ne by done. eauto with sync.
  - eexists. split; [by eapply run_broadcast_events|]. simpl.
    rewrite fn_lookup_insert_ne by done. eauto with sync.
Qed.

(** A notified thread that is in an OCALL has its event after one honest step at
    most. *)
Lemma notified_event s t : notified s t -> t <> SGX_THREAD_T_NULL -> ~ about_to_set (pcs s t) t ->
  exists n s', (n <= 1)%nat /\ nsteps (step false) n s s' /\ mtx s' = mtx s /\ cvq s' = cvq s /\
    pcs s' t = pcs s t /\ (0 < events s' t)%nat.
Proof.
  intros [He|[u Hu]] Ht Hn.
  - exists 0%nat, s. split_and!; try done; [lia|apply nsteps_O].
  - destruct (event_step s u t Hu Ht) as (s' & Hs & H); [by intros ->|].
    exists 1%nat, s'. split_and!; try apply H; [lia|]. by apply nsteps_once.
Qed.

Lemma lock_free s t ret : pcs s t = Locking ret -> owner (mtx s) = SGX_THREAD_T_NULL ->
  head (queue (mtx s)) = Some t ->
  exists s', step false s s' /\ owner (mtx s') = t /\ pcs s' t = Running ret.
Proof.
  intros Hp Ho Hh. eexists. split; [by eapply run_lock|]. unfold do_lock, lock_round.
  assert (exists m, acquire t (mtx s) = Some m) as [m Ea].
  { destruct (acquire t (mtx s)) as [m|] eqn:Ea; [by exists m|].
    destruct (acquire_none t (mtx s) Ea Ho) as (u & q & Eq & Hne). rewrite Eq in Hh.
    by simplify_eq/=. }
  rewrite Ea. simpl. rewrite fn_lookup_insert. split; [|done].
  by apply acquire_spec in Ea as (_ & _ & ? & _).
Qed.

(** C10. No lost wake-up: whenever the mutex is free and threads are queued for
    it, after any history with any host, an honest host can bring the first of
    them into the critical section in at most three steps, none of which is a
    spurious wake-up: setting its event, ending its wait, taking the mutex. *)
Theorem mutex_free_is_taken c s t :
  rtc (step true) (start c) s -> owner (mtx s) = SGX_THREAD_T_NULL ->
  head (queue (mtx s)) = Some t ->
  exists n s' ret, (n <= 3)%nat /\ nsteps (step false) n s s' /\ owner (mtx s') = t /\
    pcs s' t = Running ret.
Proof.
  intros Hr Ho Hh. destruct (reachable_inv true c s Hr) as [Hq Hw _].
  pose proof (waiter_not_null s t Hq Hh) as Ht.
  assert (in_lock (pcs s t)) as Hin by (apply Hq, head_Some_elem_of; done).
  destruct (pcs s t) as [|ret|ret| | | | | |] eqn:Ep; try done.
  - destruct (lock_free s t ret Ep Ho Hh) as (s' & Hs & H).
    exists 1%nat, s', ret. split_and!; try apply H; [lia|by apply nsteps_once].
  - destruct (Hw Ho t Hh) as [Hl|Hn]; [by rewrite Ep in Hl|].
    destruct (notified_event s t Hn Ht) as (n & s1 & Hle & H1 & Em & _ & Ep1 & He);
      [by rewrite Ep; intros ?|].
    rewrite Ep in Ep1. destruct (events s1 t) as [|k] eqn:Ek; [lia|].
    pose proof (wake_lock false s1 t ret k Ep1 Ek) as H2.
    set (s2 := goto _ t (Locking ret)) in H2.
    destruct (lock_free s2 t ret) as (s3 & H3 & H); simpl; rewrite ?Em; try done;
      [by rewrite fn_lookup_insert|].
    exists (n + 2)%nat, s3, ret. split_and!; try apply H; [lia|].
    eapply nsteps_trans; [done|]. eapply nsteps_l; [done|]. by apply nsteps_once.
Qed.

(** Thread 1 has released the mutex and not yet set the event of thread 2. *)
Definition released : machine := do_unlock 1 two_lockers.

Lemma released_reachable : rtc (step true) (start SGX_THREAD_MUTEX_NONRECURSIVE) released.
Proof.
  eapply rtc_r; [eapply rtc_nsteps_2, two_lockers_steps|]. by apply (run_unlock true _ 1).
Qed.

Lemma mutex_free_is_taken_witness :
  exists n s' ret, (n <= 3)%nat /\ nsteps (step false) n released s' /\
    owner (mtx s') = 2 /\ pcs s' 2 = Running ret.
Proof.
  apply (mutex_free_is_taken SGX_THREAD_MUTEX_NONRECURSIVE released 2);
    [apply released_reachable|done|done].
Defined.

(** A thread leaves [lock], and with it [wait], by taking the mutex. *)
Lemma returns_locked b s s' t : step b s s' ->
  is_running (pcs s t) = false -> is_running (pcs s' t) = true ->
  in_cv (pcs s t) \/ in_lock (pcs s t) -> owner (mtx s') = t.
Proof.
  intros Hs Hn Hr Hin.
  assert (forall u p, is_running (<[u := p]> (pcs s) t) = true -> u = t) as Hu.
  { intros u p E. destruct (decide (u = t)) as [|Hne]; [done|].
    rewrite fn_lookup_insert_ne in E by done. congruence. }
  open_step Hs; repeat case_match; simplify_eq/=; pose proof (Hu _ _ Hr); simplify_eq;
    rewrite fn_lookup_insert in Hr; try done; try congruence;
    try (rewrite H in Hin; simpl in Hin; tauto).
  by match goal with E : acquire _ _ = Some _ |- _ => apply acquire_spec in E as (_ & _ & ? & _) end.
Qed.

(** Waiting on a condition variable ends: once a thread that sleeps in
    [wait] or [wait_timeout] has been taken off the queue by [signal] or
    [broadcast], an honest host brings it to the final [lock] in at most four
    steps; and a call of [wait] or [wait_timeout] that has begun to wait returns
    only as the owner of the mutex. *)
Theorem condvar_wait_ends c s t :
  rtc (step true) (start c) s ->
  (cv_sleeping (pcs s t) -> t ∉ cvq s ->
   exists n s' ret, (n <= 4)%nat /\ nsteps (step false) n s s' /\ pcs s' t = Locking ret) /\
  (forall s', step true s s' -> is_running (pcs s t) = false -> is_running (pcs s' t) = true ->
   in_cv (pcs s t) \/ in_lock (pcs s t) -> owner (mtx s') = t).
Proof.
  intros Hr. pose proof (reachable_inv true c s Hr) as Hinv. split.
  - assert (forall s timed, machine_inv s -> pcs s t = CvBlocked timed -> t ∉ cvq s ->
      exists n s' ret, (n <= 3)%nat /\ nsteps (step false) n s s' /\ pcs s' t = Locking ret)
      as Hblocked.
    { clear. intros s timed [Hq _ Hc] Ep Hn.
      assert (t <> SGX_THREAD_T_NULL) as Ht by step_from Hq.
      destruct (notified_event s t) as (n & s1 & Hle & H1 & _ & Eq & Ep1 & He); try done;
        [by apply Hc; [rewrite Ep|]|by rewrite Ep; intros ?|].
      rewrite Ep in Ep1. destruct (events s1 t) as [|k] eqn:Ek; [lia|].
      pose proof (wake_wait false s1 t timed k Ep1 Ek) as H2. set (s2 := goto _ t _) in H2.
      assert (pcs s2 t = CvCheck timed false) as Ep2 by (simpl; by rewrite fn_lookup_insert).
      assert (t ∉ cvq s2) as Hn2 by (simpl; by rewrite Eq).
      pose proof (run_check false s2 t timed false Ep2) as H3.
      exists (n + 2)%nat, (do_check t timed false s2), (Ok tt). split_and!; [lia| |].
      - eapply nsteps_trans; [done|]. eapply nsteps_l; [done|]. by apply nsteps_once.
      - unfold do_check, wait_timeout_check, wait_check. rewrite bool_decide_false by done.
        destruct timed; simpl; by rewrite fn_lookup_insert. }
    intros Hsl Hn. destruct (pcs s t) as [| | | |timed w|timed| | |] eqn:Ep; try done.
    + pose proof (run_block false s t timed w Ep) as H1.
      destruct (Hblocked (do_block t timed w s) timed) as (n & s' & ret & Hle & Hns & E).
      * by eapply machine_step.
      * unfold do_block. simpl. by rewrite fn_lookup_insert.
      * unfold do_block. by destruct (_ =? _).
      * exists (S n), s', ret. split_and!; [lia|by eapply nsteps_l|done].
    + destruct (Hblocked s timed Hinv Ep Hn) as (n & s' & ret & Hle & H).
      exists n, s', ret. split; [lia|done].
  - intros s' Hs Hnr Hr' Hin. by eapply returns_locked.
Qed.

(** Thread 1 waits, thread 2 signals; the event is not set yet. *)
Definition signalled : machine :=
  do_signal 2 (do_block 1 false SGX_THREAD_T_NULL (do_wait 1 false
    (do_try_lock 1 (start SGX_THREAD_MUTEX_NONRECURSIVE)))).

Lemma signalled_reachable : rtc (step true) (start SGX_THREAD_MUTEX_NONRECURSIVE) signalled.
Proof.
  eapply rtc_l; [by apply (run_try_lock true _ 1)|].
  eapply rtc_l; [by apply (run_wait true _ 1 false)|].
  eapply rtc_l; [by apply (run_block true _ 1 false SGX_THREAD_T_NULL)|].
  eapply rtc_l; [by apply (run_signal true _ 2)|]. apply rtc_refl.
Qed.

Lemma condvar_wait_ends_witness :
  exists n s' ret, (n <= 4)%nat /\ nsteps (step false) n signalled s' /\ pcs s' 1 = Locking ret.
Proof.
  apply (condvar_wait_ends SGX_THREAD_MUTEX_NONRECURSIVE signalled 1);
    [apply signalled_reachable|done|]. vm_compute. intros H. inversion H.
Defined.
