(* ===== verification/RwLock.v ===== *)
(** The reader-writer lock of sgx_tstd (sys/rwlock.rs).

    As for the mutex, a section under the spinlock is one function, and the
    machine puts sections and OCALLs together.  [read_unlock] and
    [write_unlock] keep a reference to the first node of the writers' list,
    release the spinlock and read the node after that; so a node of that list
    has an identity, and reading one that has been removed, which frees it, is a
    fault. *)
From Stdlib Require Import ZArith Lia.
From stdpp Require Import base numbers list option tactics functions relations.
From S2P Require Import Prelude SyncMutex.

Definition EDEADLK : Z := 35.

(** A node of the writers' list: its identity and its thread. *)
Definition node : Type := nat * thread.

Record SgxThreadRwLockInner := {
  reader_count : Z;
  writer_waiting : Z;
  rw_owner : thread;
  reader_queue : list thread;
  writer_queue : list node
}.

Definition rwlock_new : SgxThreadRwLockInner :=
  {| reader_count := 0; writer_waiting := 0; rw_owner := SGX_THREAD_T_NULL;
     reader_queue := []; writer_queue := [] |}.

(** [if let Some(pos) = ...position(|&w| w == current) { remove(pos) }] *)
Fixpoint remove_node (x : thread) (q : list node) : list node :=
  match q with
  | [] => []
  | y :: q => if y.2 =? x then q else y :: remove_node x q
  end.

(** ** Sections.  [None] means that the thread goes on to wait. *)
Definition read_taken (rw : SgxThreadRwLockInner) (rq : list thread) : SgxThreadRwLockInner :=
  {| reader_count := wrap 32 (reader_count rw + 1); writer_waiting := writer_waiting rw;
     rw_owner := rw_owner rw; reader_queue := rq; writer_queue := writer_queue rw |}.

Definition read (current : thread) (rw : SgxThreadRwLockInner)
    : option SysError * SgxThreadRwLockInner :=
  if rw_owner rw =? SGX_THREAD_T_NULL then (Some (Ok tt), read_taken rw (reader_queue rw))
  else if rw_owner rw =? current then (Some (Err EDEADLK), rw)
  else (None, {| reader_count := reader_count rw; writer_waiting := writer_waiting rw;
                 rw_owner := rw_owner rw; reader_queue := reader_queue rw ++ [current];
                 writer_queue := writer_queue rw |}).

(** After the wait, inside the loop of [read]. *)
Definition read_retry (current : thread) (rw : SgxThreadRwLockInner)
    : option SysError * SgxThreadRwLockInner :=
  if rw_owner rw =? SGX_THREAD_T_NULL
  then (Some (Ok tt), read_taken rw (remove_first current (reader_queue rw)))
  else (None, rw).

Definition try_read (rw : SgxThreadRwLockInner) : SysError * SgxThreadRwLockInner :=
  if rw_owner rw =? SGX_THREAD_T_NULL then (Ok tt, read_taken rw (reader_queue rw))
  else (Err EBUSY, rw).

Definition write_taken (current : thread) (rw : SgxThreadRwLockInner) (wq : list node)
    : SgxThreadRwLockInner :=
  {| reader_count := reader_count rw; writer_waiting := writer_waiting rw;
     rw_owner := current; reader_queue := reader_queue rw; writer_queue := wq |}.

(** [fresh] is the identity of the node that [push_back] allocates. *)
Definition write (current : thread) (fresh : nat) (rw : SgxThreadRwLockInner)
    : option SysError * SgxThreadRwLockInner :=
  if (rw_owner rw =? SGX_THREAD_T_NULL) && (reader_count rw =? 0)
  then (Some (Ok tt), write_taken current rw (writer_queue rw))
  else if rw_owner rw =? current then (Some (Err EDEADLK), rw)
  else (None, {| reader_count := reader_count rw; writer_waiting := writer_waiting rw;
                 rw_owner := rw_owner rw; reader_queue := reader_queue rw;
                 writer_queue := writer_queue rw ++ [(fresh, current)] |}).

Definition write_retry (current : thread) (rw : SgxThreadRwLockInner)
    : option SysError * SgxThreadRwLockInner :=
  if (rw_owner rw =? SGX_THREAD_T_NULL) && (reader_count rw =? 0)
  then (Some (Ok tt), write_taken current rw (remove_node current (writer_queue rw)))
  else (None, rw).

Definition try_write (current : thread) (rw : SgxThreadRwLockInner)
    : SysError * SgxThreadRwLockInner :=
  if (rw_owner rw =? SGX_THREAD_T_NULL) && (reader_count rw =? 0)
  then (Ok tt, write_taken current rw (writer_queue rw))
  else (Err EBUSY, rw).

(** Whom an unlock wakes after the section: nobody, the thread in a node it has
    a reference to, or a list of threads. *)
Inductive wakeup :=
| WakeNone
| WakeRef (n : nat)
| WakeMany (ts : list thread).

Definition front_ref (wq : list node) : wakeup :=
  match wq with [] => WakeNone | n :: _ => WakeRef n.1 end.

Definition read_unlock (rw : SgxThreadRwLockInner) : SysError * wakeup * SgxThreadRwLockInner :=
  if reader_count rw =? 0 then (Err EPERM, WakeNone, rw)
  else
    let rw' := {| reader_count := wrap 32 (reader_count rw - 1);
                  writer_waiting := writer_waiting rw; rw_owner := rw_owner rw;
                  reader_queue := reader_queue rw; writer_queue := writer_queue rw |} in
    if reader_count rw' =? 0 then (Ok tt, front_ref (writer_queue rw), rw')
    else (Ok tt, WakeNone, rw').

Definition write_unlock (current : thread) (rw : SgxThreadRwLockInner)
    : SysError * wakeup * SgxThreadRwLockInner :=
  if negb (rw_owner rw =? current) then (Err EPERM, WakeNone, rw)
  else
    let rw' := {| reader_count := reader_count rw; writer_waiting := writer_waiting rw;
                  rw_owner := SGX_THREAD_T_NULL; reader_queue := reader_queue rw;
                  writer_queue := writer_queue rw |} in
    if negb (bool_decide (reader_queue rw = [])) then (Ok tt, WakeMany (reader_queue rw), rw')
    else (Ok tt, front_ref (writer_queue rw), rw').

Definition rwlock_destroy (rw : SgxThreadRwLockInner) : SysError :=
  if negb (rw_owner rw =? SGX_THREAD_T_NULL) || negb (reader_count rw =? 0) ||
     negb (writer_waiting rw =? 0) || negb (bool_decide (reader_queue rw = [])) ||
     negb (bool_decide (writer_queue rw = [])) then Err EBUSY else Ok tt.

(** * The machine *)
Inductive rpc :=
| Outside (last : SysError)
| ReadWait
| ReadRetry
| WriteWait
| WriteRetry
| Choosing (write : bool)
| Waking (w : wakeup).

(** [readers] lists the read locks that are held, [writers] the write locks;
    neither is part of the program.  [fault] is set by a read of a freed node. *)
Record rmachine := {
  rw : SgxThreadRwLockInner;
  fresh : nat;
  rpcs : thread -> rpc;
  revents : thread -> nat;
  readers : list thread;
  writers : list thread;
  fault : bool
}.

Definition rstart : rmachine :=
  {| rw := rwlock_new; fresh := 0; rpcs := fun _ => Outside (Ok tt); revents := fun _ => 0%nat;
     readers := []; writers := []; fault := false |}.

Definition rgoto (s : rmachine) (t : thread) (p : rpc) : rmachine :=
  {| rw := rw s; fresh := fresh s; rpcs := <[t := p]> (rpcs s); revents := revents s;
     readers := readers s; writers := writers s; fault := fault s |}.
Definition with_rw (s : rmachine) (l : SgxThreadRwLockInner) : rmachine :=
  {| rw := l; fresh := fresh s; rpcs := rpcs s; revents := revents s;
     readers := readers s; writers := writers s; fault := fault s |}.
Definition with_revents (s : rmachine) (e : thread -> nat) : rmachine :=
  {| rw := rw s; fresh := fresh s; rpcs := rpcs s; revents := e;
     readers := readers s; writers := writers s; fault := fault s |}.
Definition with_holders (s : rmachine) (rs ws : list thread) : rmachine :=
  {| rw := rw s; fresh := fresh s; rpcs := rpcs s; revents := revents s;
     readers := rs; writers := ws; fault := fault s |}.
Definition with_fresh (s : rmachine) (n : nat) : rmachine :=
  {| rw := rw s; fresh := n; rpcs := rpcs s; revents := revents s;
     readers := readers s; writers := writers s; fault := fault s |}.
Definition with_fault (s : rmachine) : rmachine :=
  {| rw := rw s; fresh := fresh s; rpcs := rpcs s; revents := revents s;
     readers := readers s; writers := writers s; fault := true |}.

(** The result of a section of [read], [try_read]; of [write], [try_write]. *)
Definition end_read (t : thread) (wait : rpc) (r : option SysError * SgxThreadRwLockInner)
    (s : rmachine) : rmachine :=
  match r with
  | (Some (Ok _), l) =>
      rgoto (with_holders (with_rw s l) (t :: readers s) (writers s)) t (Outside (Ok tt))
  | (Some (Err e), l) => rgoto (with_rw s l) t (Outside (Err e))
  | (None, l) => rgoto (with_rw s l) t wait
  end.

Definition end_write (t : thread) (wait : rpc) (r : option SysError * SgxThreadRwLockInner)
    (s : rmachine) : rmachine :=
  match r with
  | (Some (Ok _), l) =>
      rgoto (with_holders (with_rw s l) (readers s) (t :: writers s)) t (Outside (Ok tt))
  | (Some (Err e), l) => rgoto (with_rw s l) t (Outside (Err e))
  | (None, l) => rgoto (with_rw s l) t wait
  end.

Definition somewhat (r : SysError * SgxThreadRwLockInner)
    : option SysError * SgxThreadRwLockInner := (Some r.1, r.2).

Definition after_wakeup (w : wakeup) : rpc :=
  match w with WakeNone => Outside (Ok tt) | _ => Waking w end.

Definition do_read_unlock (t : thread) (s : rmachine) : rmachine :=
  match read_unlock (rw s) with
  | (Err e, _, l) => rgoto (with_rw s l) t (Outside (Err e))
  | (Ok _, w, l) => rgoto (with_holders (with_rw s l) (remove_first t (readers s)) (writers s)) t
      (after_wakeup w)
  end.

Definition do_write_unlock (t : thread) (s : rmachine) : rmachine :=
  match write_unlock t (rw s) with
  | (Err e, _, l) => rgoto (with_rw s l) t (Outside (Err e))
  | (Ok _, w, l) => rgoto (with_holders (with_rw s l) (readers s) (remove_first t (writers s))) t
      (after_wakeup w)
  end.

(** The thread in node [n], if the node is still there. *)
Fixpoint node_thread (n : nat) (wq : list node) : option thread :=
  match wq with
  | [] => None
  | x :: wq => if (x.1 =? n)%nat then Some x.2 else node_thread n wq
  end.

(** The OCALL after an unlock; a reference is read first. *)
Definition do_wakeup (t : thread) (w : wakeup) (s : rmachine) : rmachine :=
  match w with
  | WakeNone => rgoto s t (Outside (Ok tt))
  | WakeMany ts => rgoto (with_revents s (set_events ts (revents s))) t (Outside (Ok tt))
  | WakeRef n =>
      match node_thread n (writer_queue (rw s)) with
      | Some u => rgoto (with_revents s (set_event u (revents s))) t (Outside (Ok tt))
      | None => rgoto (with_fault s) t (Outside (Ok tt))
      end
  end.

Definition is_outside (p : rpc) : bool := match p with Outside _ => true | _ => false end.

(** A read lock is released by a thread that has one, as the guards of the
    safe interface do. *)
Inductive rstep (spurious : bool) : rmachine -> rmachine -> Prop :=
| run_read s t : t <> SGX_THREAD_T_NULL -> is_outside (rpcs s t) = true ->
    rstep spurious s (end_read t ReadWait (read t (rw s)) s)
| wake_read s t n : rpcs s t = ReadWait -> revents s t = S n ->
    rstep spurious s (rgoto (with_revents s (<[t := n]> (revents s))) t ReadRetry)
| wake_read_spuriously s t : spurious = true -> rpcs s t = ReadWait ->
    rstep spurious s (rgoto s t ReadRetry)
| run_read_retry s t : rpcs s t = ReadRetry ->
    rstep spurious s (end_read t ReadWait (read_retry t (rw s)) s)
| run_try_read s t : t <> SGX_THREAD_T_NULL -> is_outside (rpcs s t) = true ->
    rstep spurious s (end_read t ReadWait (somewhat (try_read (rw s))) s)
| run_write s t : t <> SGX_THREAD_T_NULL -> is_outside (rpcs s t) = true ->
    rstep spurious s (with_fresh (end_write t WriteWait (write t (fresh s) (rw s)) s) (S (fresh s)))
| wake_write s t n : rpcs s t = WriteWait -> revents s t = S n ->
    rstep spurious s (rgoto (with_revents s (<[t := n]> (revents s))) t WriteRetry)
| wake_write_spuriously s t : spurious = true -> rpcs s t = WriteWait ->
    rstep spurious s (rgoto s t WriteRetry)
| run_write_retry s t : rpcs s t = WriteRetry ->
    rstep spurious s (end_write t WriteWait (write_retry t (rw s)) s)
| run_try_write s t : t <> SGX_THREAD_T_NULL -> is_outside (rpcs s t) = true ->
    rstep spurious s (end_write t WriteWait (somewhat (try_write t (rw s))) s)
| run_read_unlock s t : t ∈ readers s -> is_outside (rpcs s t) = true ->
    rstep spurious s (do_read_unlock t s)
| run_write_unlock s t : t <> SGX_THREAD_T_NULL -> is_outside (rpcs s t) = true ->
    rstep spurious s (do_write_unlock t s)
| run_unlock_choose s t : t <> SGX_THREAD_T_NULL -> is_outside (rpcs s t) = true ->
    rstep spurious s (rgoto s t (Choosing (rw_owner (rw s) =? t)))
| run_unlock_write s t : rpcs s t = Choosing true -> rstep spurious s (do_write_unlock t s)
| run_unlock_read s t : rpcs s t = Choosing false -> t ∈ readers s ->
    rstep spurious s (do_read_unlock t s)
| run_wakeup s t w : rpcs s t = Waking w -> rstep spurious s (do_wakeup t w s)
| run_rwlock_destroy s t : t <> SGX_THREAD_T_NULL -> is_outside (rpcs s t) = true ->
    rstep spurious s (rgoto s t (Outside (rwlock_destroy (rw s)))).
