(* ===== verification/RwLockProofs.v ===== *)
(** What the reader-writer lock of sgx_tstd guarantees, and where it does not. *)
From Stdlib Require Import ZArith Lia.
From stdpp Require Import base numbers list option tactics functions relations.
From S2P Require Import Prelude SyncMutex RwLock.

(** * Predicates on program counters *)
Definition in_read (p : rpc) : Prop :=
  match p with ReadWait | ReadRetry => True | _ => False end.
Definition in_write (p : rpc) : Prop :=
  match p with WriteWait | WriteRetry => True | _ => False end.

(** The thread is about to set an event for [t]. *)
Definition will_wake (s : rmachine) (p : rpc) (t : thread) : Prop :=
  match p with
  | Waking (WakeRef n) => (n, t) ∈ writer_queue (rw s)
  | Waking (WakeMany ts) => t ∈ ts
  | _ => False
  end.

Definition rnotified (s : rmachine) (t : thread) : Prop :=
  (0 < revents s t)%nat \/ exists u, will_wake s (rpcs s u) t.

(** * The invariants *)

(** The fields of the lock against the locks that are held. *)
Definition holders_inv (n : Z) (s : rmachine) : Prop :=
  reader_count (rw s) = zlen (readers s) /\ zlen (readers s) <= n /\
  (rw_owner (rw s) = SGX_THREAD_T_NULL -> writers s = []) /\
  (rw_owner (rw s) <> SGX_THREAD_T_NULL ->
     writers s = [rw_owner (rw s)] /\ readers s = []).

(** * Overflow and use after free *)
Lemma try_reads_wrap k : exists s, nsteps (rstep false) k rstart s /\
  reader_count (rw s) = wrap 32 (Z.of_nat k) /\ rw_owner (rw s) = SGX_THREAD_T_NULL /\
  readers s = replicate k 1 /\ writers s = [] /\ fault s = false /\
  forall t, is_outside (rpcs s t) = true.
Proof.
  induction k as [|k (s & Hn & Hc & Ho & Hr & Hw & Hf & Hp)].
  - exists rstart. split_and!; try done. apply nsteps_O.
  - eexists. split; [eapply nsteps_r; [exact Hn|]; by apply (run_try_read false s 1)|].
    unfold try_read. rewrite Ho, Z.eqb_refl. simpl. rewrite Hr, Hc, Ho. split_and!; try done.
    + unfold wrap. rewrite Zplus_mod_idemp_l. f_equal. lia.
    + intros t. unfold insert, fn_insert. by case_decide.
Qed.

(** The reader count is a [u32] that wraps: after 2^32 successful [try_read]
    calls of one thread, each of them still holding its lock, [try_write] by
    another thread succeeds. *)
Theorem reader_count_overflow :
  exists s, rtc (rstep false) rstart s /\ fault s = false /\
    length (readers s) = Z.to_nat (2 ^ 32) /\ writers s = [2] /\ rw_owner (rw s) = 2.
Proof.
  assert (Z.of_nat (Z.to_nat (2 ^ 32)) = 2 ^ 32) as Ek by lia.
  generalize dependent (Z.to_nat (2 ^ 32)). intros k Ek.
  destruct (try_reads_wrap k) as (s & Hn & Hc & Ho & Hr & Hw & Hf & Hp). rewrite Ek in Hc.
  eexists. split.
  - eapply rtc_r; [by eapply rtc_nsteps_2|]. by apply (run_try_write false s 2).
  - unfold try_write. rewrite Ho, Hc. simpl. rewrite Hf, Hr, Hw.
    split_and!; try done. apply length_replicate.
Qed.

(** Threads 1 and 3 read, thread 2 waits to write.  Thread 1 releases its lock
    and is interrupted with a reference to the node of thread 2; thread 3 reads,
    releases and wakes thread 2, which takes the lock and frees its node. *)
Definition uaf_run : rmachine :=
  let s := end_read 1 ReadWait (read 1 (rw rstart)) rstart in
  let s := with_fresh (end_write 2 WriteWait (write 2 (fresh s) (rw s)) s) (S (fresh s)) in
  let s := do_read_unlock 1 s in
  let s := end_read 3 ReadWait (read 3 (rw s)) s in
  let s := do_read_unlock 3 s in
  let s := do_wakeup 3 (WakeRef 0) s in
  let s := rgoto (with_revents s (<[2 := 0%nat]> (revents s))) 2 WriteRetry in
  let s := end_write 2 WriteWait (write_retry 2 (rw s)) s in
  do_wakeup 1 (WakeRef 0) s.

(** Use after free: with an honest host and correct callers, three threads
    reach a state in which a releasing reader reads a list node that has been
    freed. *)
Theorem rwlock_use_after_free : rtc (rstep false) rstart uaf_run /\ fault uaf_run = true.
Proof.
  split; [|done]. unfold uaf_run.
  eapply rtc_l; [by apply (run_read false _ 1)|].
  eapply rtc_l; [by apply (run_write false _ 2)|].
  eapply rtc_l; [apply (run_read_unlock false _ 1); [by vm_compute; constructor|done]|].
  eapply rtc_l; [by apply (run_read false _ 3)|].
  eapply rtc_l; [apply (run_read_unlock false _ 3); [by vm_compute; constructor|done]|].
  eapply rtc_l; [by apply (run_wakeup false _ 3 (WakeRef 0))|].
  eapply rtc_l; [by apply (wake_write false _ 2 0)|].
  eapply rtc_l; [by apply (run_write_retry false _ 2)|].
  eapply rtc_l; [by apply (run_wakeup false _ 1 (WakeRef 0))|]. apply rtc_refl.
Qed.

(** * Exclusion *)

(** A section of the reading side takes the lock when it has no owner, and
    otherwise leaves the fields that matter. *)
Definition read_like (l : SgxThreadRwLockInner) (r : option SysError * SgxThreadRwLockInner)
    : Prop :=
  (r.1 = Some (Ok tt) /\ rw_owner l = SGX_THREAD_T_NULL /\ exists rq, r.2 = read_taken l rq) \/
  (r.1 <> Some (Ok tt) /\ rw_owner r.2 = rw_owner l /\ reader_count r.2 = reader_count l).

Definition write_like (t : thread) (l : SgxThreadRwLockInner)
    (r : option SysError * SgxThreadRwLockInner) : Prop :=
  (r.1 = Some (Ok tt) /\ rw_owner l = SGX_THREAD_T_NULL /\ reader_count l = 0 /\
     exists wq, r.2 = write_taken t l wq) \/
  (r.1 <> Some (Ok tt) /\ rw_owner r.2 = rw_owner l /\ reader_count r.2 = reader_count l).

Lemma read_sections t l :
  read_like l (read t l) /\ read_like l (read_retry t l) /\ read_like l (somewhat (try_read l)).
Proof.
  unfold read_like, read, read_retry, try_read, somewhat.
  destruct (Z.eqb_spec (rw_owner l) SGX_THREAD_T_NULL) as [E|E]; simpl.
  - split_and!; left; eauto.
  - split_and!; right; repeat case_match; split_and!; done.
Qed.

Lemma write_sections t n l :
  write_like t l (write t n l) /\ write_like t l (write_retry t l) /\
  write_like t l (somewhat (try_write t l)).
Proof.
  unfold write_like, write, write_retry, try_write, somewhat.
  destruct (Z.eqb_spec (rw_owner l) SGX_THREAD_T_NULL), (Z.eqb_spec (reader_count l) 0); simpl;
    split_and!; eauto 6; right; repeat case_match; split_and!; done.
Qed.

Lemma holders_mono n s : holders_inv n s -> holders_inv (n + 1) s.
Proof. unfold holders_inv. intros (? & ? & ? & ?). split_and!; (lia || done). Qed.

Lemma holders_end_read n s t wait r : n + 1 < 2 ^ 32 -> read_like (rw s) r ->
  holders_inv n s -> holders_inv (n + 1) (end_read t wait r s).
Proof.
  intros Hn Hr Hi. destruct r as [res l]. destruct Hr as [(E & Eo & rq & El)|(E & Eo & Ec)]; simpl in *.
  - subst. destruct Hi as (Hc & Hle & Hf & Hh). unfold holders_inv. simpl.
    pose proof (zlen_nonneg (readers s)). unfold zlen in *. simpl. rewrite Hc, wrap_small by lia.
    split_and!; [lia|lia|done|]. intros E. congruence.
  - apply holders_mono in Hi as (Hc & Hle & Hf & Hh).
    destruct res as [[[]|e]|]; [done|..]; unfold holders_inv; simpl; rewrite Eo, Ec; done.
Qed.

Lemma holders_end_write n s t wait r : t <> SGX_THREAD_T_NULL -> write_like t (rw s) r ->
  holders_inv n s -> holders_inv (n + 1) (end_write t wait r s).
Proof.
  intros Ht Hr Hi. destruct r as [res l].
  apply holders_mono in Hi as (Hc & Hle & Hf & Hh).
  destruct Hr as [(E & Eo & E0 & wq & El)|(E & Eo & Ec)]; simpl in *.
  - subst. unfold holders_inv. simpl. split_and!; [done|done|done|].
    intros _. rewrite (Hf Eo). split; [done|]. apply zlen_nil_iff. lia.
  - destruct res as [[[]|e]|]; [done|..]; unfold holders_inv; simpl; rewrite Eo, Ec; done.
Qed.

Lemma remove_first_length x q : x ∈ q -> zlen (remove_first x q) = zlen q - 1.
Proof.
  unfold zlen. induction q as [|y q IH]; intros Hx; [by apply not_elem_of_nil in Hx|].
  simpl. destruct (Z.eqb_spec y x); [lia|]. apply elem_of_cons in Hx as [->|Hx]; [done|].
  simpl. specialize (IH Hx). lia.
Qed.

Lemma holders_read_unlock n s t : n < 2 ^ 32 -> t ∈ readers s -> holders_inv n s ->
  holders_inv n (do_read_unlock t s).
Proof.
  intros Hn Ht (Hc & Hle & Hf & Hh). pose proof (remove_first_length t (readers s) Ht) as El.
  pose proof (zlen_nonneg (remove_first t (readers s))).
  unfold do_read_unlock, read_unlock. destruct (Z.eqb_spec (reader_count (rw s)) 0); [lia|].
  rewrite Hc, wrap_small by lia. simpl.
  destruct (_ =? 0); simpl; unfold holders_inv; simpl; (split_and!; [lia|lia|done|]); intros E;
    destruct (Hh E) as [_ Er]; rewrite Er in Ht; set_solver.
Qed.

Lemma holders_write_unlock n s t : t <> SGX_THREAD_T_NULL -> holders_inv n s ->
  holders_inv n (do_write_unlock t s).
Proof.
  intros Ht (Hc & Hle & Hf & Hh). unfold do_write_unlock, write_unlock.
  destruct (Z.eqb_spec (rw_owner (rw s)) t) as [E|]; simpl; [|done].
  destruct Hh as [Ew Er]; [congruence|].
  destruct (bool_decide _); simpl; unfold holders_inv; simpl; split_and!; try done;
    intros _; by rewrite Ew, E; simpl; rewrite Z.eqb_refl.
Qed.

(** Where threads are: the null thread is never inside a call, and the queues
    hold the threads that wait. *)
Definition rqueue_inv (s : rmachine) : Prop :=
  is_outside (rpcs s SGX_THREAD_T_NULL) = true /\ (SGX_THREAD_T_NULL ∉ readers s) /\
  NoDup (reader_queue (rw s)) /\
  (forall t, t ∈ reader_queue (rw s) <-> in_read (rpcs s t)) /\
  NoDup (writer_queue (rw s)).*1 /\ NoDup (writer_queue (rw s)).*2 /\
  (forall t, t ∈ (writer_queue (rw s)).*2 <-> in_write (rpcs s t)) /\
  (forall n, n ∈ (writer_queue (rw s)).*1 -> (n < fresh s)%nat).

(** Look the thread of a step up. *)
Ltac at_pc := match goal with H : rpcs _ _ = _ |- _ => rewrite H end.

Lemma holders_step b n s s' : n + 1 < 2 ^ 32 -> rqueue_inv s ->
  rstep b s s' -> holders_inv n s -> holders_inv (n + 1) s'.
Proof.
  intros Hn [H0 _] Hs Hi.
  assert (forall t, is_outside (rpcs s t) = false -> t <> SGX_THREAD_T_NULL) as Hnull
    by (intros t Ht ->; congruence).
  pose proof (fun t => read_sections t (rw s)) as Hr.
  pose proof (fun t => write_sections t (fresh s) (rw s)) as Hw.
  inversion Hs; subst; clear Hs;
    try (by apply holders_end_read; [lia|apply Hr|done]);
    try (by apply holders_end_write; [done || (apply Hnull; by at_pc)|apply Hw|done]);
    try (by apply holders_mono, holders_read_unlock; [lia|..]);
    try (by apply holders_mono, holders_write_unlock; [done || (apply Hnull; by at_pc)|]);
    try (by apply holders_mono).
  apply holders_mono. destruct w; simpl; repeat case_match; done.
Qed.

(** * The queues *)
Lemma remove_node_fst x q n : n ∈ (remove_node x q).*1 -> n ∈ q.*1.
Proof. induction q as [|z q IH]; simpl; [done|]. destruct (_ =? _); set_solver. Qed.

Lemma remove_node_elem x q : NoDup q.*2 ->
  NoDup (remove_node x q).*2 /\ (NoDup q.*1 -> NoDup (remove_node x q).*1) /\
  forall y, y ∈ remove_node x q <-> y ∈ q /\ y.2 <> x.
Proof.
  induction q as [|z q IH]; intros Hn; simpl in *; [split_and!; [done..|set_solver]|].
  apply NoDup_cons in Hn as [Hz Hn]. destruct (IH Hn) as (I1 & I2 & I3).
  destruct (Z.eqb_spec z.2 x) as [Ex|Hne].
  - split_and!; [done|by intros [_ ?]%NoDup_cons|]. intros y. rewrite elem_of_cons.
    split; [|naive_solver]. intros Hy. split; [auto|]. intros E. apply Hz. subst x.
    rewrite <- E. by apply list_elem_of_fmap_2.
  - simpl. split_and!.
    + constructor; [|done]. intros (y & Ey & Hy)%list_elem_of_fmap_1. apply I3 in Hy as [Hy _].
      apply Hz. rewrite Ey. by apply list_elem_of_fmap_2.
    + intros [Hz1 Hn1]%NoDup_cons. constructor; [|auto]. intros Hin.
      apply Hz1. by apply (remove_node_fst x).
    + intros y. rewrite !elem_of_cons, I3. naive_solver.
Qed.

(** Steps that keep both queues. *)
Lemma rqueue_move s s' t p :
  rqueue_inv s -> t <> SGX_THREAD_T_NULL -> rpcs s' = <[t := p]> (rpcs s) ->
  reader_queue (rw s') = reader_queue (rw s) -> writer_queue (rw s') = writer_queue (rw s) ->
  (SGX_THREAD_T_NULL ∈ readers s' -> SGX_THREAD_T_NULL ∈ readers s) ->
  (fresh s <= fresh s')%nat ->
  (in_read (rpcs s t) <-> in_read p) -> (in_write (rpcs s t) <-> in_write p) -> rqueue_inv s'.
Proof.
  intros (H0 & Hn0 & R1 & R2 & W0 & W1 & W2 & W3) Ht Ep Er Ew Hrs Hf Hir Hiw.
  unfold rqueue_inv. rewrite Ep, Er, Ew. split_and!; auto.
  - by rewrite fn_lookup_insert_ne.
  - intros u. unfold insert, fn_insert. case_decide; subst; rewrite R2; [done|done].
  - intros u. unfold insert, fn_insert. case_decide; subst; rewrite W2; [done|done].
  - intros n Hin. specialize (W3 n Hin). lia.
Qed.

(** A reader joins or leaves its queue. *)
Lemma rqueue_reader s s' t p :
  rqueue_inv s -> t <> SGX_THREAD_T_NULL -> rpcs s' = <[t := p]> (rpcs s) ->
  writer_queue (rw s') = writer_queue (rw s) -> fresh s' = fresh s ->
  (SGX_THREAD_T_NULL ∉ readers s') ->
  (in_write (rpcs s t) <-> in_write p) -> NoDup (reader_queue (rw s')) ->
  (forall u, u ∈ reader_queue (rw s') <->
     (u = t /\ in_read p) \/ (u <> t /\ u ∈ reader_queue (rw s))) -> rqueue_inv s'.
Proof.
  intros (H0 & Hn0 & R1 & R2 & W0 & W1 & W2 & W3) Ht Ep Ew Ef Hrs Hiw Hn Hq.
  unfold rqueue_inv. rewrite Ep, Ew, Ef. split_and!; auto.
  - by rewrite fn_lookup_insert_ne.
  - intros u. rewrite Hq. unfold insert, fn_insert. case_decide; subst; [naive_solver|].
    rewrite R2. naive_solver.
  - intros u. unfold insert, fn_insert. case_decide; subst; rewrite W2; [done|done].
Qed.

(** A writer joins or leaves its queue. *)
Lemma rqueue_writer s s' t p :
  rqueue_inv s -> t <> SGX_THREAD_T_NULL -> rpcs s' = <[t := p]> (rpcs s) ->
  reader_queue (rw s') = reader_queue (rw s) ->
  (SGX_THREAD_T_NULL ∉ readers s') -> (in_read (rpcs s t) <-> in_read p) ->
  NoDup (writer_queue (rw s')).*1 -> NoDup (writer_queue (rw s')).*2 ->
  (forall n, n ∈ (writer_queue (rw s')).*1 -> (n < fresh s')%nat) ->
  (forall u, u ∈ (writer_queue (rw s')).*2 <->
     (u = t /\ in_write p) \/ (u <> t /\ u ∈ (writer_queue (rw s)).*2)) -> rqueue_inv s'.
Proof.
  intros (H0 & Hn0 & R1 & R2 & W0 & W1 & W2 & W3) Ht Ep Er Hrs Hir Hn1 Hn2 Hf Hq.
  unfold rqueue_inv. rewrite Ep, Er. split_and!; auto.
  - by rewrite fn_lookup_insert_ne.
  - intros u. unfold insert, fn_insert. case_decide; subst; rewrite R2; [done|done].
  - intros u. rewrite Hq. unfold insert, fn_insert. case_decide; subst; [naive_solver|].
    rewrite W2. naive_solver.
Qed.

(** Not waiting for the lock. *)
Definition quiet (p : rpc) : Prop := ~ in_read p /\ ~ in_write p.

Lemma quiet_outside p : is_outside p = true -> quiet p.
Proof. unfold quiet. destruct p; naive_solver. Qed.

Lemma quiet_after w : quiet (after_wakeup w).
Proof. split; destruct w; simpl; tauto. Qed.

Lemma rqueue_quiet s s' t p :
  rqueue_inv s -> t <> SGX_THREAD_T_NULL -> rpcs s' = <[t := p]> (rpcs s) ->
  reader_queue (rw s') = reader_queue (rw s) -> writer_queue (rw s') = writer_queue (rw s) ->
  (SGX_THREAD_T_NULL ∈ readers s' -> SGX_THREAD_T_NULL ∈ readers s) ->
  (fresh s <= fresh s')%nat -> quiet (rpcs s t) -> quiet p -> rqueue_inv s'.
Proof.
  intros Hi Ht Ep Er Ew Hrs Hf [Q1 Q2] [Q3 Q4]. by apply (rqueue_move s s' t p).
Qed.

Lemma rnot_null s t : rqueue_inv s -> is_outside (rpcs s t) = false -> t <> SGX_THREAD_T_NULL.
Proof. intros [H0 _] Ht ->. congruence. Qed.

Lemma remove_first_in x y q : y ∈ remove_first x q -> y ∈ q.
Proof. induction q as [|z q IH]; simpl; [done|]. destruct (_ =? _); set_solver. Qed.

Lemma rqueue_unlock s t : rqueue_inv s -> t <> SGX_THREAD_T_NULL -> quiet (rpcs s t) ->
  rqueue_inv (do_read_unlock t s) /\ rqueue_inv (do_write_unlock t s).
Proof.
  intros Hi Ht Hq. unfold do_read_unlock, read_unlock, do_write_unlock, write_unlock.
  split; repeat case_match; simplify_eq;
    (eapply (rqueue_quiet s _ t);
      [done|done|done|done|done|simpl; eauto using remove_first_in|done|done|
       first [by apply quiet_outside|apply quiet_after]]).
Qed.

Lemma readers_in s t : rqueue_inv s -> t ∈ readers s -> t <> SGX_THREAD_T_NULL.
Proof. intros (_ & Hn & _) Hin ->. done. Qed.

Lemma null_cons s t : rqueue_inv s -> t <> SGX_THREAD_T_NULL -> SGX_THREAD_T_NULL ∉ t :: readers s.
Proof. intros (_ & Hn & _) Ht. set_solver. Qed.

(** A step of a thread that does not wait before or after it. *)
Ltac rquiet :=
  eapply rqueue_quiet;
  [ eassumption | (done || by eapply rnot_null; [|match goal with H : rpcs _ _ = _ |- _ => rewrite H end])
  | reflexivity | done | done
  | simpl; rewrite ?elem_of_cons; naive_solver
  | simpl; lia
  | first [by apply quiet_outside
          | match goal with H : rpcs _ _ = _ |- _ => rewrite H end; split; simpl; tauto]
  | split; simpl; tauto ].

(** A thread that waits stays in its queue when it goes on with [p]. *)
Lemma rqueue_waits s s' t p :
  rqueue_inv s -> rpcs s' = <[t := p]> (rpcs s) -> rw s' = rw s -> readers s' = readers s ->
  fresh s' = fresh s -> is_outside (rpcs s t) = false ->
  (in_read (rpcs s t) <-> in_read p) -> (in_write (rpcs s t) <-> in_write p) -> rqueue_inv s'.
Proof.
  intros Hi Ep Er Ed Ef Ho Hr Hw. pose proof (rnot_null s t Hi Ho).
  apply (rqueue_move s s' t p); rewrite ?Er, ?Ed, ?Ef; done.
Qed.

Lemma rqueue_read s t : rqueue_inv s -> t <> SGX_THREAD_T_NULL -> is_outside (rpcs s t) = true ->
  rqueue_inv (end_read t ReadWait (read t (rw s)) s) /\
  rqueue_inv (end_read t ReadWait (somewhat (try_read (rw s))) s).
Proof.
  intros Hi Ht Ho. pose proof Hi as (_ & Hn0 & R1 & R2 & _).
  destruct (quiet_outside _ Ho) as [Q1 Q2]. split.
  - unfold read. repeat case_match; simplify_eq/=; [rquiet..|].
    eapply (rqueue_reader s _ t ReadWait); try done; simpl.
    + apply NoDup_app. split_and!; [done|set_solver|apply NoDup_singleton].
    + intros u. rewrite elem_of_app, list_elem_of_singleton. set_solver.
  - unfold try_read. destruct (_ =? _); simpl; rquiet.
Qed.

Lemma rqueue_read_retry s t : rqueue_inv s -> rpcs s t = ReadRetry ->
  rqueue_inv (end_read t ReadWait (read_retry t (rw s)) s).
Proof.
  intros Hi E. pose proof Hi as (_ & Hn0 & R1 & _).
  assert (t <> SGX_THREAD_T_NULL) as Ht by (eapply rnot_null; [done|by rewrite E]).
  unfold read_retry. destruct (_ =? _); simpl.
  - destruct (remove_first_elem t (reader_queue (rw s)) R1) as [E1 E2].
    eapply (rqueue_reader s _ t (Outside (Ok tt))); simpl; rewrite ?E; try done;
      [by apply null_cons|]. intros u. rewrite E2. naive_solver.
  - by eapply (rqueue_move s _ t); simpl; rewrite ?E.
Qed.

Lemma rqueue_write s t : rqueue_inv s -> t <> SGX_THREAD_T_NULL -> is_outside (rpcs s t) = true ->
  rqueue_inv (with_fresh (end_write t WriteWait (write t (fresh s) (rw s)) s) (S (fresh s))) /\
  rqueue_inv (end_write t WriteWait (somewhat (try_write t (rw s))) s).
Proof.
  intros Hi Ht Ho. pose proof Hi as (_ & Hn0 & _ & _ & W0 & W1 & W2 & W3).
  destruct (quiet_outside _ Ho) as [Q1 Q2]. split.
  - unfold write. repeat case_match; simplify_eq/=; [rquiet..|].
    eapply (rqueue_writer s _ t WriteWait); try done; simpl; rewrite !fmap_app; simpl.
    + apply NoDup_app. split_and!; [done| |apply NoDup_singleton].
      intros n Hn ->%list_elem_of_singleton. specialize (W3 _ Hn). lia.
    + apply NoDup_app. split_and!; [done|set_solver|apply NoDup_singleton].
    + intros n [Hn| ->%list_elem_of_singleton]%elem_of_app; [specialize (W3 _ Hn)|]; lia.
    + intros u. rewrite elem_of_app, list_elem_of_singleton. set_solver.
  - unfold try_write. destruct (_ && _); simpl; rquiet.
Qed.

Lemma rqueue_write_retry s t : rqueue_inv s -> rpcs s t = WriteRetry ->
  rqueue_inv (end_write t WriteWait (write_retry t (rw s)) s).
Proof.
  intros Hi E. pose proof Hi as (_ & Hn0 & _ & _ & W0 & W1 & W2 & W3).
  assert (t <> SGX_THREAD_T_NULL) as Ht by (eapply rnot_null; [done|by rewrite E]).
  unfold write_retry. destruct (_ && _); simpl.
  - destruct (remove_node_elem t (writer_queue (rw s)) W1) as (E1 & E2 & E3).
    eapply (rqueue_writer s _ t (Outside (Ok tt))); simpl; rewrite ?E; try done; auto.
    + intros n Hn. by apply W3, (remove_node_fst t).
    + intros u. rewrite !list_elem_of_fmap. setoid_rewrite E3. naive_solver.
  - by eapply (rqueue_move s _ t); simpl; rewrite ?E.
Qed.

Lemma rqueue_step b s s' : rstep b s s' -> rqueue_inv s -> rqueue_inv s'.
Proof.
  intros Hs Hi. inversion Hs; subst; clear Hs;
    try (by apply rqueue_read); try (by apply rqueue_write);
    try (by apply rqueue_read_retry); try (by apply rqueue_write_retry);
    try (by apply rqueue_unlock; [done|done || by eapply readers_in|by apply quiet_outside]);
    try (eapply rqueue_unlock; [done|eapply rnot_null; [done|by at_pc]|];
         at_pc; split; simpl; tauto);
    try (by eapply rqueue_waits; simpl; first [reflexivity|by at_pc|done]);
    try rquiet.
  unfold do_wakeup. repeat case_match; simplify_eq; rquiet.
Qed.

(** * Wake-ups *)

(** [t] is on its way back to the lock, or will be told. *)
Definition rready (s : rmachine) (retry : rpc) (t : thread) : Prop :=
  rpcs s t = retry \/ rnotified s t.

(** While the lock has no owner every queued reader is ready; while nobody
    holds it and no reader is queued, so is the first queued writer. *)
Definition rwake_inv (s : rmachine) : Prop :=
  rw_owner (rw s) = SGX_THREAD_T_NULL ->
  (forall t, t ∈ reader_queue (rw s) -> rready s ReadRetry t) /\
  (reader_count (rw s) = 0 -> reader_queue (rw s) = [] ->
   forall n, head (writer_queue (rw s)) = Some n -> rready s WriteRetry n.2).

(** What a step of [t0] may do to the notices of others. *)
Definition rkeeps (s s' : rmachine) (t0 : thread) (p : rpc) : Prop :=
  rpcs s' = <[t0 := p]> (rpcs s) /\
  (forall t, t <> t0 -> (revents s t <= revents s' t)%nat) /\
  (forall n t, t <> t0 -> (n, t) ∈ writer_queue (rw s) -> (n, t) ∈ writer_queue (rw s')) /\
  (forall t, t <> t0 -> will_wake s (rpcs s t0) t -> (0 < revents s' t)%nat \/ will_wake s' p t).

Lemma rready_kept s s' t0 p retry t :
  rkeeps s s' t0 p -> t <> t0 -> rready s retry t -> rready s' retry t.
Proof.
  intros (Ep & He & Hq & Hw) Hne [E|[E|[u Hu]]].
  - left. by rewrite Ep, fn_lookup_insert_ne.
  - right. left. specialize (He t Hne). lia.
  - right. destruct (decide (t0 = u)) as [->|Hu'].
    + destruct (Hw t Hne Hu) as [?|?]; [by left|]. right. exists u. by rewrite Ep, fn_lookup_insert.
    + right. exists u. rewrite Ep, fn_lookup_insert_ne by done.
      destruct (rpcs s u) as [| | | | | |[| |]]; simpl in *; auto.
Qed.

Lemma rready_by s s' t0 p retry t : rpcs s' = <[t0 := p]> (rpcs s) -> will_wake s' p t ->
  rready s' retry t.
Proof. intros Ep Hw. right. right. exists t0. by rewrite Ep, fn_lookup_insert. Qed.

Lemma rwake_frame s s' t0 p :
  rkeeps s s' t0 p -> rwake_inv s ->
  (rw_owner (rw s') = SGX_THREAD_T_NULL -> forall t, t ∈ reader_queue (rw s') ->
     (t <> t0 /\ rw_owner (rw s) = SGX_THREAD_T_NULL /\ t ∈ reader_queue (rw s)) \/
     (t = t0 /\ p = ReadRetry) \/ will_wake s' p t) ->
  (rw_owner (rw s') = SGX_THREAD_T_NULL -> reader_count (rw s') = 0 ->
   reader_queue (rw s') = [] -> forall n, head (writer_queue (rw s')) = Some n ->
     (n.2 <> t0 /\ rw_owner (rw s) = SGX_THREAD_T_NULL /\ reader_count (rw s) = 0 /\
      reader_queue (rw s) = [] /\ head (writer_queue (rw s)) = Some n) \/
     (n.2 = t0 /\ p = WriteRetry) \/ will_wake s' p n.2) ->
  rwake_inv s'.
Proof.
  intros Hk Hi Hr Hw Eo. pose proof (proj1 Hk) as Ep. split.
  - intros t Ht. destruct (Hr Eo t Ht) as [(Hne & Eo' & Hin)|[[-> ->]|Hwk]].
    + apply (rready_kept s s' t0 p); [done..|]. by apply Hi.
    + left. by rewrite Ep, fn_lookup_insert.
    + by eapply rready_by.
  - intros Ec Eq n Hn. destruct (Hw Eo Ec Eq n Hn) as [(Hne & Eo' & Ec' & Eq' & Hn')|[[E ->]|Hwk]].
    + apply (rready_kept s s' t0 p); [done..|]. by apply Hi.
    + left. by rewrite Ep, E, fn_lookup_insert.
    + by eapply rready_by.
Qed.

Lemma front_ref_wakes s wq n u : head wq = Some n -> wq = writer_queue (rw s) -> u = n.2 ->
  will_wake s (after_wakeup (front_ref wq)) u.
Proof.
  intros Hh -> ->. destruct (writer_queue (rw s)) as [|m q] eqn:E; [done|]. simplify_eq/=.
  rewrite E. destruct n. set_solver.
Qed.

(** A freed node is in no list; one that is there has one thread. *)
Lemma node_thread_spec n wq t : NoDup wq.*1 -> (n, t) ∈ wq -> node_thread n wq = Some t.
Proof.
  induction wq as [|[m u] wq IH]; intros Hn Hin; [by apply not_elem_of_nil in Hin|].
  simpl in *. apply NoDup_cons in Hn as [Hm Hn]. apply elem_of_cons in Hin as [E|Hin].
  - simplify_eq. by rewrite Nat.eqb_refl.
  - destruct (Nat.eqb_spec m n) as [->|]; [|auto]. destruct Hm.
    apply (list_elem_of_fmap_2 fst) in Hin. done.
Qed.

(** A step of a thread that sends no notice and changes no event or node. *)
Lemma rkeeps_plain s s' t p : rpcs s' = <[t := p]> (rpcs s) -> revents s' = revents s ->
  (forall n u, u <> t -> (n, u) ∈ writer_queue (rw s) -> (n, u) ∈ writer_queue (rw s')) ->
  (forall u, ~ will_wake s (rpcs s t) u) -> rkeeps s s' t p.
Proof.
  intros Ep Ee Hq Hw. split_and!; [done|by rewrite Ee|done|]. intros u _ Hu. by destruct (Hw u).
Qed.

Lemma outside_wakes_none s t u : is_outside (rpcs s t) = true -> ~ will_wake s (rpcs s t) u.
Proof. destruct (rpcs s t); naive_solver. Qed.

Lemma rwake_unlock n s t : n < 2 ^ 32 -> holders_inv n s -> rqueue_inv s -> rwake_inv s ->
  t <> SGX_THREAD_T_NULL -> quiet (rpcs s t) -> (forall u, ~ will_wake s (rpcs s t) u) ->
  (t ∈ readers s -> rwake_inv (do_read_unlock t s)) /\ rwake_inv (do_write_unlock t s).
Proof.
  intros Hn (Hc & Hle & Hf & Hh) (H0 & Hn0 & R1 & R2 & W0 & W1 & W2 & W3) Hi Ht [Q1 Q2] Hno. split.
  - intros Hin. unfold do_read_unlock, read_unlock.
    assert (1 <= zlen (readers s)) as H1.
    { pose proof (remove_first_length t _ Hin). pose proof (zlen_nonneg (remove_first t (readers s))).
      lia. }
    destruct (Z.eqb_spec (reader_count (rw s)) 0); [lia|]. rewrite wrap_small by lia. simpl.
    assert (rw_owner (rw s) = SGX_THREAD_T_NULL) as Eo.
    { destruct (decide (rw_owner (rw s) = SGX_THREAD_T_NULL)) as [|E]; [done|].
      destruct (Hh E) as [_ Er]. rewrite Er in Hin. set_solver. }
    destruct (Z.eqb_spec (reader_count (rw s) - 1) 0) as [E|E].
    + eapply (rwake_frame s _ t); [by apply rkeeps_plain|done|simpl..].
      * intros _ u Hu. left. split_and!; [|done|done]. intros ->. by apply Q1, R2.
      * intros _ _ _ m Hm. right. right. by eapply front_ref_wakes.
    + eapply (rwake_frame s _ t); [by apply rkeeps_plain|done|simpl..].
      * intros _ u Hu. left. split_and!; [|done|done]. intros ->. by apply Q1, R2.
      * lia.
  - unfold do_write_unlock, write_unlock.
    destruct (Z.eqb_spec (rw_owner (rw s)) t) as [Eo|]; simpl.
    + case_bool_decide as Eq; simpl.
      * eapply (rwake_frame s _ t); [by apply rkeeps_plain|done|simpl..].
        -- rewrite Eq. set_solver.
        -- intros _ _ _ m Hm. right. right. by eapply front_ref_wakes.
      * eapply (rwake_frame s _ t); [by apply rkeeps_plain|done|simpl..]; [by auto|done].
    + eapply (rwake_frame s _ t); [by apply rkeeps_plain|done|simpl..].
      * intros Eo u Hu. left. split_and!; [|done|done]. intros ->. by apply Q1, R2.
      * intros Eo Ec Eq m Hm. left. split_and!; try done. intros E. apply Q2, W2.
        apply head_Some_elem_of, (list_elem_of_fmap_2 snd) in Hm. by rewrite E in Hm.
Qed.

(** Steps that leave the lock alone, of a thread that becomes ready or does not wait. *)
Lemma rwake_still s s' t p :
  rqueue_inv s -> rwake_inv s -> rkeeps s s' t p -> rw s' = rw s ->
  (in_read (rpcs s t) -> p = ReadRetry) -> (in_write (rpcs s t) -> p = WriteRetry) ->
  rwake_inv s'.
Proof.
  intros Hq Hi Hk El Hr Hw. pose proof Hq as (_ & _ & _ & R2 & _ & _ & W2 & _).
  eapply (rwake_frame s s' t p); rewrite ?El; try done.
  - intros E u Hu. destruct (decide (u = t)) as [->|]; [|by left].
    right. left. split; [done|]. by apply Hr, R2.
  - intros E Ec Eq m Hm. destruct (decide (m.2 = t)) as [Et|]; [|by left].
    right. left. split; [done|]. apply Hw, W2. rewrite <- Et.
    by apply list_elem_of_fmap_2, head_Some_elem_of.
Qed.

Lemma rwake_wakeup s t w : rqueue_inv s -> rwake_inv s -> rpcs s t = Waking w ->
  rwake_inv (do_wakeup t w s).
Proof.
  intros Hq Hi Ep. pose proof Hq as (_ & _ & _ & _ & W0 & _).
  assert (forall s', rkeeps s s' t (Outside (Ok tt)) -> rw s' = rw s -> rwake_inv s') as Hgo.
  { intros s' Hk El. apply (rwake_still s s' t (Outside (Ok tt))); try done; by rewrite Ep. }
  destruct w as [|n|ts]; simpl.
  - apply Hgo; [|done]. apply rkeeps_plain; try done. rewrite Ep. by intros ? [].
  - destruct (node_thread n (writer_queue (rw s))) as [u|] eqn:En; (apply Hgo; [|done]).
    + split_and!; simpl; [done|intros; apply (set_events_le [u])|done|].
      intros v _ Hv. rewrite Ep in Hv. simpl in Hv. left.
      rewrite (node_thread_spec n _ v W0 Hv) in En. simplify_eq. apply (set_events_pos [u]). set_solver.
    + apply rkeeps_plain; try done. intros u Hu. rewrite Ep in Hu. simpl in Hu.
      by rewrite (node_thread_spec n _ u W0 Hu) in En.
  - apply Hgo; [|done]. split_and!; simpl; [done|intros; apply set_events_le|done|].
    intros v _ Hv. rewrite Ep in Hv. left. by apply set_events_pos.
Qed.

(** Nobody but queued threads gains a place: the lock is owned, or has readers. *)
Lemma rwake_busy s s' t p :
  rqueue_inv s -> rwake_inv s -> rkeeps s s' t p ->
  (rw_owner (rw s') = SGX_THREAD_T_NULL -> rw_owner (rw s) = SGX_THREAD_T_NULL) ->
  (rw_owner (rw s') = SGX_THREAD_T_NULL -> reader_count (rw s') <> 0) ->
  (forall u, u ∈ reader_queue (rw s') -> u <> t /\ u ∈ reader_queue (rw s)) -> rwake_inv s'.
Proof.
  intros Hq Hi Hk Ho Hc Hsub. eapply (rwake_frame s s' t p); [done|done|..].
  - intros E u Hu. left. destruct (Hsub u Hu). auto.
  - intros E Ec. by destruct (Hc E).
Qed.

Lemma reader_elsewhere s t u : rqueue_inv s -> ~ in_read (rpcs s t) ->
  u ∈ reader_queue (rw s) -> u <> t /\ u ∈ reader_queue (rw s).
Proof. intros (_ & _ & _ & R2 & _) Hn Hu. split; [|done]. intros ->. by apply Hn, R2. Qed.

(** Calls that begin: the thread was outside. *)
Section call.
Context (n : Z) (s : rmachine) (t : thread).
Context (Hn : n + 1 < 2 ^ 32) (Hh : holders_inv n s) (Hq : rqueue_inv s) (Hi : rwake_inv s)
  (Hout : is_outside (rpcs s t) = true).

Lemma count_not_zero : wrap 32 (reader_count (rw s) + 1) <> 0.
Proof using Hn Hh.
  destruct Hh as (Hc & Hle & _). pose proof (zlen_nonneg (readers s)). rewrite wrap_small; lia.
Qed.

Lemma rwake_same s' p : rpcs s' = <[t := p]> (rpcs s) -> revents s' = revents s ->
  rw s' = rw s -> rwake_inv s'.
Proof using Hq Hi Hout.
  intros Ep Ee El. destruct (quiet_outside _ Hout). eapply (rwake_still s s' t p); try done.
  apply rkeeps_plain; [done|done|by rewrite El|]. intros u. by apply outside_wakes_none.
Qed.

Lemma rwake_read :
  rwake_inv (end_read t ReadWait (read t (rw s)) s) /\
  rwake_inv (end_read t ReadWait (somewhat (try_read (rw s))) s).
Proof using Hn Hh Hq Hi Hout.
  pose proof count_not_zero. destruct (quiet_outside _ Hout) as [Q1 Q2].
  pose proof (fun u => outside_wakes_none s t u Hout).
  unfold read, try_read. destruct (Z.eqb_spec (rw_owner (rw s)) SGX_THREAD_T_NULL); simpl.
  - split; (eapply (rwake_busy s); [done|done|by apply rkeeps_plain|done|done|simpl];
      intros u; by apply reader_elsewhere).
  - split; [by destruct (_ =? _); simpl; intros ?|]. by eapply rwake_same.
Qed.

Lemma rwake_write : t <> SGX_THREAD_T_NULL ->
  rwake_inv (with_fresh (end_write t WriteWait (write t (fresh s) (rw s)) s) (S (fresh s))) /\
  rwake_inv (end_write t WriteWait (somewhat (try_write t (rw s))) s).
Proof using Hn Hh Hq Hi Hout.
  intros Ht. destruct (quiet_outside _ Hout) as [Q1 Q2].
  pose proof (fun u => outside_wakes_none s t u Hout). split.
  - unfold write. destruct (Z.eqb_spec (rw_owner (rw s)) SGX_THREAD_T_NULL) as [Eo|]; simpl;
      [|by destruct (_ =? _); simpl; intros ?].
    destruct (Z.eqb_spec (reader_count (rw s)) 0); simpl; [by intros ?|].
    destruct (Z.eqb_spec (rw_owner (rw s)) t); simpl; [congruence|].
    eapply (rwake_busy s); [done|done|apply rkeeps_plain; try done; simpl; set_solver|done|done|simpl].
    intros u. by apply reader_elsewhere.
  - unfold try_write, somewhat. destruct (_ && _); simpl; [by intros ?|].
    by eapply rwake_same.
Qed.
End call.

(** After a wait. *)
Lemma rwake_read_retry n s t : n + 1 < 2 ^ 32 -> holders_inv n s -> rqueue_inv s ->
  rwake_inv s -> rpcs s t = ReadRetry ->
  rwake_inv (end_read t ReadWait (read_retry t (rw s)) s).
Proof.
  intros Hn Hh Hq Hi Ep. pose proof (count_not_zero n s Hn Hh). pose proof Hq as (_ & _ & R1 & _).
  unfold read_retry.
  destruct (Z.eqb_spec (rw_owner (rw s)) SGX_THREAD_T_NULL); simpl; [|by intros ?].
  destruct (remove_first_elem t (reader_queue (rw s)) R1) as [_ E2].
  eapply (rwake_busy s); [done|done|apply rkeeps_plain; try done; rewrite Ep; by intros ? []|done|done|].
  simpl. intros u [Hu Hne]%E2. done.
Qed.

Lemma rwake_write_retry s t : rqueue_inv s -> rwake_inv s -> rpcs s t = WriteRetry ->
  rwake_inv (end_write t WriteWait (write_retry t (rw s)) s).
Proof.
  intros Hq Hi Ep. assert (t <> SGX_THREAD_T_NULL) by (eapply rnot_null; [done|by rewrite Ep]).
  unfold write_retry.
  destruct (Z.eqb_spec (rw_owner (rw s)) SGX_THREAD_T_NULL); simpl; [|by intros ?].
  destruct (Z.eqb_spec (reader_count (rw s)) 0); simpl; [by intros ?|].
  eapply (rwake_busy s); [done|done|apply rkeeps_plain; try done; rewrite Ep; by intros ? []|done|done|].
  intros u. apply (reader_elsewhere s); [done|]. rewrite Ep. simpl. tauto.
Qed.

(** The end of a wait, by an event or not. *)
Lemma rwake_woken s t e p : rqueue_inv s -> rwake_inv s ->
  (rpcs s t = ReadWait /\ p = ReadRetry \/ rpcs s t = WriteWait /\ p = WriteRetry) ->
  (forall u, u <> t -> e u = revents s u) -> rwake_inv (rgoto (with_revents s e) t p).
Proof.
  intros Hq Hi Hp He. eapply (rwake_still s _ t p); [done|done| |done|..];
    try (by destruct Hp as [[-> ->]|[-> ->]]).
  split_and!; simpl; [done|intros u Hu; by rewrite He|done|].
  intros u _ Hu. by destruct Hp as [[E _]|[E _]]; rewrite E in Hu.
Qed.

Lemma rwake_step b n s s' : n + 1 < 2 ^ 32 -> holders_inv n s -> rqueue_inv s ->
  rstep b s s' -> rwake_inv s -> rwake_inv s'.
Proof.
  intros Hn Hh Hq Hs Hi.
  pose proof (fun t => rwake_unlock n s t ltac:(lia) Hh Hq Hi) as Hunl.
  inversion Hs; subst; clear Hs;
    try (by apply (rwake_read n)); try (by apply (rwake_write n));
    try (by apply (rwake_read_retry n)); try (by apply rwake_write_retry);
    try (by apply rwake_wakeup); try (by eapply rwake_same);
    try (by apply rwake_woken; [done|done|auto|intros; by rewrite ?fn_lookup_insert_ne]);
    try (by apply Hunl; [done || by eapply readers_in|by apply quiet_outside|
                         intros u; by apply outside_wakes_none|..]);
    try (by apply Hunl; [eapply rnot_null; [done|by at_pc]|at_pc; split; simpl; tauto|
                         at_pc; simpl; tauto|..]).
Qed.

(** * Reachable states *)
Record rmachine_inv (n : Z) (s : rmachine) : Prop := {
  ri_holders : holders_inv n s;
  ri_queue : rqueue_inv s;
  ri_wake : rwake_inv s
}.

Lemma rstart_inv : rmachine_inv 0 rstart.
Proof.
  repeat split; simpl; try done; try set_solver; try apply NoDup_nil_2; try lia.
Qed.

Lemma rreachable_inv b n s : nsteps (rstep b) n rstart s -> Z.of_nat n < 2 ^ 32 ->
  rmachine_inv (Z.of_nat n) s.
Proof.
  revert s. induction n as [|n IH]; intros s Hn Hlt.
  - inversion Hn; subst. apply rstart_inv.
  - apply nsteps_inv_r in Hn as (s1 & Hn & Hs). destruct (IH s1 Hn) as [Hh Hq Hw]; [lia|].
    replace (Z.of_nat (S n)) with (Z.of_nat n + 1) by lia. split.
    + eapply holders_step; [lia|done..].
    + by eapply rqueue_step.
    + eapply (rwake_step b (Z.of_nat n)); [lia|done..].
Qed.

(** * The theorems *)

(** C11. Readers and writers exclude each other: in any run of less than 2^32
    steps, with any host, as long as no freed node has been read, there is no
    write lock, or there is one, held by the lock's owner, and no read lock; and
    [reader_count] is the number of read locks held. *)
Theorem rwlock_exclusion n s :
  nsteps (rstep true) n rstart s -> Z.of_nat n < 2 ^ 32 -> fault s = false ->
  reader_count (rw s) = zlen (readers s) /\
  (writers s = [] \/
   exists t, writers s = [t] /\ rw_owner (rw s) = t /\ t <> SGX_THREAD_T_NULL /\ readers s = []).
Proof.
  intros Hn Hlt _. destruct (rreachable_inv true n s Hn Hlt) as [(Hc & _ & Hf & Hh) _ _].
  split; [done|]. destruct (decide (rw_owner (rw s) = SGX_THREAD_T_NULL)) as [E|E]; [auto|].
  destruct (Hh E) as [Hw Hr]. right. eauto.
Qed.

(** Thread 1 reads, thread 2 fails to write at once. *)
Definition read_try_write : rmachine :=
  let s := end_read 1 ReadWait (read 1 (rw rstart)) rstart in
  end_write 2 WriteWait (somewhat (try_write 2 (rw s))) s.

Lemma rwlock_exclusion_witness :
  reader_count (rw read_try_write) = zlen [1] /\
  (writers read_try_write = [] \/
   exists t, writers read_try_write = [t] /\ rw_owner (rw read_try_write) = t /\
     t <> SGX_THREAD_T_NULL /\ readers read_try_write = []).
Proof.
  apply (rwlock_exclusion 2 read_try_write); [|lia|done].
  eapply nsteps_l; [by apply (run_read true _ 1)|].
  eapply nsteps_l; [by apply (run_try_write true _ 2)|]. apply nsteps_O.
Defined.

Lemma rwakeup_step s u t : rqueue_inv s -> will_wake s (rpcs s u) t -> u <> t ->
  exists s', rstep false s s' /\ rw s' = rw s /\ rpcs s' t = rpcs s t /\
    (0 < revents s' t)%nat.
Proof.
  intros (_ & _ & _ & _ & W0 & _) Hw Hu.
  destruct (rpcs s u) as [| | | | | |[|n|ts]] eqn:E; simpl in Hw; try done.
  - eexists. split; [by eapply (run_wakeup false s u)|]. simpl.
    rewrite (node_thread_spec n _ t W0 Hw). simpl. rewrite fn_lookup_insert_ne by done.
    split_and!; try done. apply (set_events_pos [t]). set_solver.
  - eexists. split; [by eapply (run_wakeup false s u)|]. simpl.
    rewrite fn_lookup_insert_ne by done. split_and!; try done. by apply set_events_pos.
Qed.

(** A ready thread retries after two honest steps at most. *)
Lemma rready_retries s t wait retry :
  rqueue_inv s -> rready s retry t -> rpcs s t = wait \/ rpcs s t = retry ->
  (wait = ReadWait /\ retry = ReadRetry) \/ (wait = WriteWait /\ retry = WriteRetry) ->
  exists k s', (k <= 2)%nat /\ nsteps (rstep false) k s s' /\ rw s' = rw s /\ rpcs s' t = retry.
Proof.
  intros Hq Hr Hp Hpair.
  assert (rpcs s t = retry -> exists k s', (k <= 2)%nat /\ nsteps (rstep false) k s s' /\
    rw s' = rw s /\ rpcs s' t = retry) as Hnow.
  { intros E. exists 0%nat, s. split_and!; try done; [lia|apply nsteps_O]. }
  destruct Hp as [Ep|?]; [|auto]. destruct Hr as [?|Hn]; [auto|].
  assert (exists k s1, (k <= 1)%nat /\ nsteps (rstep false) k s s1 /\ rw s1 = rw s /\
    rpcs s1 t = wait /\ (0 < revents s1 t)%nat) as (k & s1 & Hk & H1 & El & Ep1 & He).
  { destruct Hn as [He|[u Hu]];
      [exists 0%nat, s; split_and!; try done; [lia|apply nsteps_O]|].
    destruct (rwakeup_step s u t Hq Hu) as (s1 & H1 & El & Ep1 & He).
    { intros ->. rewrite Ep in Hu. by destruct Hpair as [[-> _]|[-> _]]. }
    exists 1%nat, s1. rewrite Ep in Ep1. split_and!; try done. by apply nsteps_once. }
  destruct (revents s1 t) as [|m] eqn:Em; [lia|].
  assert (rstep false s1 (rgoto (with_revents s1 (<[t := m]> (revents s1))) t retry)) as H2.
  { destruct Hpair as [[-> ->]|[-> ->]]; [by apply wake_read|by apply wake_write]. }
  eexists (k + 1)%nat, _. split; [lia|]. split; [|split].
  - eapply nsteps_trans; [done|by apply nsteps_once].
  - done.
  - simpl. by rewrite fn_lookup_insert.
Qed.

(** No lost wake-up: in any run of less than 2^32 steps with any host, as
    long as no freed node has been read, if the lock has no owner, an honest
    host brings each queued reader in within three steps; and if nobody holds
    the lock and no reader is queued, it brings the first queued writer in. *)
Theorem rwlock_free_is_taken n s :
  nsteps (rstep true) n rstart s -> Z.of_nat n < 2 ^ 32 -> fault s = false ->
  rw_owner (rw s) = SGX_THREAD_T_NULL ->
  (forall t, t ∈ reader_queue (rw s) -> exists k s', (k <= 3)%nat /\
     nsteps (rstep false) k s s' /\ t ∈ readers s' /\ rpcs s' t = Outside (Ok tt)) /\
  (reader_count (rw s) = 0 -> reader_queue (rw s) = [] ->
   forall m, head (writer_queue (rw s)) = Some m -> exists k s', (k <= 3)%nat /\
     nsteps (rstep false) k s s' /\ rw_owner (rw s') = m.2 /\ rpcs s' m.2 = Outside (Ok tt)).
Proof.
  intros Hn Hlt _ Eo. destruct (rreachable_inv true n s Hn Hlt) as [_ Hq Hw].
  pose proof Hq as (_ & _ & _ & R2 & _ & _ & W2 & _). destruct (Hw Eo) as [Hr Hwr]. split.
  - intros t Ht. destruct (rready_retries s t ReadWait ReadRetry) as (k & s1 & Hk & H1 & El & Ep);
      auto; [apply R2 in Ht; destruct (rpcs s t); naive_solver|].
    exists (k + 1)%nat. eexists. split; [lia|]. split.
    + eapply nsteps_trans; [done|]. apply nsteps_once. by apply run_read_retry.
    + unfold read_retry. rewrite El, Eo, Z.eqb_refl. simpl. rewrite fn_lookup_insert.
      split; [set_solver|done].
  - intros Ec Eq m Hm. assert (in_write (rpcs s m.2)) as Hin.
    { apply W2, list_elem_of_fmap_2. by apply head_Some_elem_of. }
    destruct (rready_retries s m.2 WriteWait WriteRetry) as (k & s1 & Hk & H1 & El & Ep);
      auto; [destruct (rpcs s m.2); naive_solver|].
    exists (k + 1)%nat. eexists. split; [lia|]. split.
    + eapply nsteps_trans; [done|]. apply nsteps_once. by apply run_write_retry.
    + unfold write_retry. rewrite El, Eo, Ec. simpl. by rewrite fn_lookup_insert.
Qed.

(** Thread 1 has released its read lock; thread 2 waits to write. *)
Definition read_released : rmachine :=
  let s := end_read 1 ReadWait (read 1 (rw rstart)) rstart in
  let s := with_fresh (end_write 2 WriteWait (write 2 (fresh s) (rw s)) s) (S (fresh s)) in
  do_read_unlock 1 s.

Lemma rwlock_free_is_taken_witness :
  exists k s', (k <= 3)%nat /\ nsteps (rstep false) k read_released s' /\
    rw_owner (rw s') = 2 /\ rpcs s' 2 = Outside (Ok tt).
Proof.
  apply (rwlock_free_is_taken 3 read_released) with (m := (0%nat, 2)); try done.
  eapply nsteps_l; [by apply (run_read true _ 1)|].
  eapply nsteps_l; [by apply (run_write true _ 2)|].
  eapply nsteps_l; [apply (run_read_unlock true _ 1); [by vm_compute; constructor|done]|].
  apply nsteps_O.
Defined.
