(* ===== verification/Parker.v ===== *)
(** Parker: thread parking, sgx_tstd/src/sys_common/thread_parker/generic.rs.

    One thread owns a parker and parks on it; any number of threads unpark it.  A
    step is one access to the atomic [state], one operation of the mutex or one of
    the condition variable; [cvar.wait] gives up the lock and goes to sleep in one
    step, and a sleep may end without a notification (for the host's reasons, or by
    a timeout).  [parker_no_lost_wakeup] and [parker_wakes]: no notification is
    lost; [parker_refines_token]: the parker is a binary token. *)
From Stdlib Require Import ZArith Lia.
From stdpp Require Import base numbers list option tactics functions relations.
From S2P Require Import Prelude.

Definition EMPTY : Z := 0.
Definition PARKED : Z := 1.
Definition NOTIFIED : Z := 2.

(** The owner: [park] and, when [timed], [park_timeout] *)
Inductive owner_pc :=
| OIdle
| OTry (timed : bool)      (** the first [compare_exchange] *)
| OLock (timed : bool)     (** [self.lock.lock()] *)
| OCas (timed : bool)      (** [compare_exchange(EMPTY, PARKED)] *)
| OSwap                    (** [swap(EMPTY)] after [Err(NOTIFIED)] *)
| OWait (timed : bool)     (** [self.cvar.wait(m)] *)
| OAsleep (timed : bool)
| ORelock (timed : bool)   (** awake, the mutex is to be taken again *)
| OCheck (timed : bool)    (** what follows the wait *)
| OUnlock                  (** the guard is dropped on the way out *)
| OPanic.

(** A thread in [unpark] *)
Inductive unpark_pc :=
| UIdle
| USwap                    (** [swap(NOTIFIED)] *)
| ULock                    (** [self.lock.lock()] *)
| UUnlock                  (** [drop] of the guard *)
| UNotify                  (** [self.cvar.notify_one()] *)
| UPanic.

Inductive holder := Owner | Unparker (i : nat).

Record parker := {
  p_state : Z;
  p_lock : option holder;
  p_owner : owner_pc;
  p_unpark : nat -> unpark_pc
}.

Definition parker_new : parker :=
  {| p_state := EMPTY; p_lock := None; p_owner := OIdle; p_unpark := fun _ => UIdle |}.

(** What a step is to the clients of the parker *)
Inductive event := Unparked | Returned | TimedOut.

Definition upd (s : parker) (st : Z) (l : option holder) (o : owner_pc) : parker :=
  {| p_state := st; p_lock := l; p_owner := o; p_unpark := p_unpark s |}.
Definition upd_u (s : parker) (st : Z) (l : option holder) (i : nat) (u : unpark_pc) : parker :=
  {| p_state := st; p_lock := l; p_owner := p_owner s; p_unpark := <[i := u]> (p_unpark s) |}.

(** [host]: whether a sleep may end although nobody notified and no time is over *)
Inductive parker_step (host : bool) (s : parker) : option event -> parker -> Prop :=
| park_call timed : p_owner s = OIdle ->
    parker_step host s None (upd s (p_state s) (p_lock s) (OTry timed))
| park_try_ok timed : p_owner s = OTry timed -> p_state s = NOTIFIED ->
    parker_step host s (Some Returned) (upd s EMPTY (p_lock s) OIdle)
| park_try_fail timed : p_owner s = OTry timed -> p_state s <> NOTIFIED ->
    parker_step host s None (upd s (p_state s) (p_lock s) (OLock timed))
| park_lock timed : p_owner s = OLock timed -> p_lock s = None ->
    parker_step host s None (upd s (p_state s) (Some Owner) (OCas timed))
| park_cas timed : p_owner s = OCas timed ->
    parker_step host s None
      (if p_state s =? EMPTY then upd s PARKED (p_lock s) (OWait timed)
       else if p_state s =? NOTIFIED then upd s (p_state s) (p_lock s) OSwap
       else upd s (p_state s) (p_lock s) OPanic)
| park_swap : p_owner s = OSwap ->
    parker_step host s (if p_state s =? NOTIFIED then Some Returned else None)
      (upd s EMPTY (p_lock s) (if p_state s =? NOTIFIED then OUnlock else OPanic))
| park_wait timed : p_owner s = OWait timed ->
    parker_step host s None (upd s (p_state s) None (OAsleep timed))
| park_wake timed : p_owner s = OAsleep timed -> host || timed = true ->
    parker_step host s None (upd s (p_state s) (p_lock s) (ORelock timed))
| park_relock timed : p_owner s = ORelock timed -> p_lock s = None ->
    parker_step host s None (upd s (p_state s) (Some Owner) (OCheck timed))
| park_check_ok : p_owner s = OCheck false -> p_state s = NOTIFIED ->
    parker_step host s (Some Returned) (upd s EMPTY (p_lock s) OUnlock)
| park_check_again : p_owner s = OCheck false -> p_state s <> NOTIFIED ->
    parker_step host s None (upd s (p_state s) (p_lock s) (OWait false))
| park_timeout_check : p_owner s = OCheck true ->
    parker_step host s
      (if p_state s =? NOTIFIED then Some Returned else Some TimedOut)
      (upd s EMPTY (p_lock s)
         (if (p_state s =? NOTIFIED) || (p_state s =? PARKED) then OUnlock else OPanic))
| park_unlock : p_owner s = OUnlock ->
    parker_step host s None (upd s (p_state s) None OIdle)
| unpark_call i : p_unpark s i = UIdle ->
    parker_step host s None (upd_u s (p_state s) (p_lock s) i USwap)
| unpark_swap i : p_unpark s i = USwap ->
    parker_step host s (Some Unparked)
      (upd_u s NOTIFIED (p_lock s) i
         (if (p_state s =? EMPTY) || (p_state s =? NOTIFIED) then UIdle
          else if p_state s =? PARKED then ULock else UPanic))
| unpark_lock i : p_unpark s i = ULock -> p_lock s = None ->
    parker_step host s None (upd_u s (p_state s) (Some (Unparker i)) i UUnlock)
| unpark_unlock i : p_unpark s i = UUnlock ->
    parker_step host s None (upd_u s (p_state s) None i UNotify)
| unpark_notify i : p_unpark s i = UNotify ->
    parker_step host s None
      {| p_state := p_state s; p_lock := p_lock s;
         p_owner := match p_owner s with OAsleep timed => ORelock timed | o => o end;
         p_unpark := <[i := UIdle]> (p_unpark s) |}.

Definition parker_moves (host : bool) (s s' : parker) : Prop := exists e, parker_step host s e s'.
Definition parker_reachable (s : parker) : Prop := rtc (parker_moves true) parker_new s.

(** * The invariant *)
Definition holds_lock (o : owner_pc) : bool :=
  match o with OCas _ | OSwap | OWait _ | OCheck _ | OUnlock => true | _ => false end.

(** Between [PARKED] and the end of the wait *)
Definition sleeping (o : owner_pc) : bool :=
  match o with OWait _ | OAsleep _ | ORelock _ | OCheck _ => true | _ => false end.

(** The thread will still notify the condition variable. *)
Definition will_notify (u : unpark_pc) : bool :=
  match u with ULock | UUnlock | UNotify => true | _ => false end.

Record parker_inv (s : parker) : Prop := {
  inv_state : p_state s = EMPTY \/ p_state s = PARKED \/ p_state s = NOTIFIED;
  inv_owner_lock : p_lock s = Some Owner <-> holds_lock (p_owner s) = true;
  inv_unpark_lock : forall i, p_lock s = Some (Unparker i) <-> p_unpark s i = UUnlock;
  inv_sleeping : sleeping (p_owner s) = true -> p_state s <> EMPTY;
  inv_parked : p_state s = PARKED -> sleeping (p_owner s) = true;
  inv_swap : p_owner s = OSwap -> p_state s = NOTIFIED;
  inv_wait : forall timed, p_owner s = OWait timed -> p_state s = NOTIFIED ->
    exists i, p_unpark s i = ULock;
  inv_asleep : forall timed, p_owner s = OAsleep timed -> p_state s = NOTIFIED ->
    exists i, will_notify (p_unpark s i) = true;
  inv_no_panic : p_owner s <> OPanic /\ forall i, p_unpark s i <> UPanic
}.

Lemma parker_inv_new : parker_inv parker_new.
Proof. split; try done; by left. Qed.

(** The steps of the owner, by cases on what it reads *)
Ltac solve_owner :=
  intros; simpl in *;
  first [done | by eauto | intuition (congruence || eauto) ].

(** An unparker that is elsewhere keeps its place. *)
Lemma other_unparker (f : nat -> unpark_pc) i u j v : f j = v -> f i <> v -> <[i := u]> f j = v.
Proof. intros E H. rewrite fn_lookup_insert_ne; [done|congruence]. Qed.

Lemma other_notifier (f : nat -> unpark_pc) i u :
  (will_notify (f i) = true -> will_notify u = true) ->
  (exists j, will_notify (f j) = true) -> exists j, will_notify (<[i := u]> f j) = true.
Proof.
  intros Hu [j Hj]. exists j. destruct (decide (j = i)) as [->|].
  - rewrite fn_lookup_insert. auto.
  - by rewrite fn_lookup_insert_ne.
Qed.

(** The lock and the program counters of the unparkers *)
Lemma unpark_lock_upd s i u l :
  (forall j, p_lock s = Some (Unparker j) <-> p_unpark s j = UUnlock) ->
  (l = Some (Unparker i) <-> u = UUnlock) ->
  (forall j, j <> i -> l = Some (Unparker j) <-> p_lock s = Some (Unparker j)) ->
  forall j, l = Some (Unparker j) <-> <[i := u]> (p_unpark s) j = UUnlock.
Proof.
  intros H Hi Hj j. destruct (decide (j = i)) as [->|].
  - by rewrite fn_lookup_insert.
  - rewrite fn_lookup_insert_ne by done. rewrite Hj by done. apply H.
Qed.

Lemma no_panic_upd (f : nat -> unpark_pc) i u : (forall j, f j <> UPanic) -> u <> UPanic -> forall j, <[i := u]> f j <> UPanic.
Proof.
  intros H Hu j. destruct (decide (j = i)) as [->|]; [by rewrite fn_lookup_insert|].
  by rewrite fn_lookup_insert_ne.
Qed.

(** A step of unparker [i] that leaves the state and the owner alone, to a place
    where it is no less about to notify *)
Lemma unparker_moves_inv s i u l : parker_inv s ->
  (l = Some Owner <-> p_lock s = Some Owner) ->
  (l = Some (Unparker i) <-> u = UUnlock) ->
  (forall j, j <> i -> l = Some (Unparker j) <-> p_lock s = Some (Unparker j)) ->
  (p_unpark s i = ULock -> holds_lock (p_owner s) = false) ->
  (will_notify (p_unpark s i) = true -> will_notify u = true) -> u <> UPanic ->
  parker_inv (upd_u s (p_state s) l i u).
Proof.
  intros [Hst Hol Hul Hsl Hpk Hsw Hw Ha [Hno Hnu]] HO Hi Hj HL HN HP. split; simpl; try done.
  - by rewrite HO.
  - by apply unpark_lock_upd.
  - intros timed Ho Hn. destruct (Hw timed Ho Hn) as [j Hj']. exists j.
    apply other_unparker; [done|]. intros E. rewrite Ho in HL. by specialize (HL E).
  - intros timed Ho Hn. apply other_notifier; eauto.
  - split; [done|]. by apply no_panic_upd.
Qed.

(** The swap of [unpark] *)
Lemma unpark_swap_inv s i : parker_inv s -> p_unpark s i = USwap ->
  parker_inv (upd_u s NOTIFIED (p_lock s) i
    (if (p_state s =? EMPTY) || (p_state s =? NOTIFIED) then UIdle
     else if p_state s =? PARKED then ULock else UPanic)).
Proof.
  intros [Hst Hol Hul Hsl Hpk Hsw Hw Ha [Hno Hnu]] Hi.
  assert (p_lock s <> Some (Unparker i)) as Hli by (rewrite Hul; congruence).
  destruct Hst as [E|[E|E]]; rewrite E in *; cbn; split; cbn; auto; try done.
  all: try (apply unpark_lock_upd; [done|naive_solver|done]).
  all: try (split; [done|]; by apply no_panic_upd).
  all: intros timed Ho; rewrite ?Ho in *; try (by destruct Hsl).
  - exists i. apply fn_lookup_insert.
  - exists i. by rewrite fn_lookup_insert.
  - intros Hn. destruct (Hw timed eq_refl Hn) as [j Hj']. exists j. apply other_unparker; congruence.
  - intros Hn. apply other_notifier; [by rewrite Hi|eauto].
Qed.

Lemma unpark_notify_inv s i : parker_inv s -> p_unpark s i = UNotify ->
  parker_inv {| p_state := p_state s; p_lock := p_lock s;
    p_owner := match p_owner s with OAsleep timed => ORelock timed | o => o end;
    p_unpark := <[i := UIdle]> (p_unpark s) |}.
Proof.
  intros [Hst Hol Hul Hsl Hpk Hsw Hw Ha [Hno Hnu]] Hi.
  assert (p_lock s <> Some (Unparker i)) as Hli by (rewrite Hul; congruence).
  split; cbn; auto.
  - rewrite Hol. by destruct (p_owner s).
  - apply unpark_lock_upd; [done|naive_solver|done].
  - destruct (p_owner s); auto.
  - destruct (p_owner s); auto.
  - destruct (p_owner s); auto; done.
  - intros timed Ho Hn. destruct (Hw timed) as [j Hj']; [by destruct (p_owner s)|done|].
    exists j. apply other_unparker; congruence.
  - intros timed Ho. by destruct (p_owner s).
  - split; [by destruct (p_owner s)|]. by apply no_panic_upd.
Qed.

Lemma parker_step_inv host s e s' : parker_inv s -> parker_step host s e s' -> parker_inv s'.
Proof.
  intros Hinv Hstep. pose proof Hinv as [Hst Hol Hul Hsl Hpk Hsw Hw Ha [Hno Hnu]].
  inversion Hstep as [| | | | | | | | | | | | |i Hi|i Hi|i Hi Hl|i Hi|i Hi]; subst; clear Hstep.
  14: { apply unparker_moves_inv; try done; [|by rewrite Hi..]. rewrite Hul, Hi. by split. }
  14: by apply unpark_swap_inv.
  14: { apply unparker_moves_inv; try done.
        - rewrite Hl. by split.
        - intros j Hj. rewrite Hl. split; [congruence|done].
        - intros _. destruct (holds_lock _) eqn:E; [|done]. pose proof (proj2 Hol eq_refl). congruence. }
  14: { pose proof (proj2 (Hul i) Hi) as Hl. apply unparker_moves_inv; try done.
        - rewrite Hl. by split.
        - intros j Hj. rewrite Hl. split; [done|congruence].
        - by rewrite Hi. }
  14: by apply unpark_notify_inv.
  all: match goal with H : p_owner _ = _ |- _ => rewrite H in *; clear H end;
    destruct Hst as [E|[E|E]]; rewrite E in *; cbn in *; try done.
  all: try (split; solve [solve_owner]).
  all: try (by specialize (Hsw eq_refl)).
  all: assert (forall i, p_unpark s i <> UUnlock) as HU by
    (intros j Hj%Hul; first [congruence | rewrite (proj2 Hol eq_refl) in Hj; done]).
  all: split; cbn; try solve [solve_owner].
  all: intros; try (split; [done|]; intros Hu; by destruct (HU _ Hu)).
  - destruct (Hw timed eq_refl eq_refl) as [j Hj]. exists j. by rewrite Hj.
Qed.

Lemma parker_reachable_inv s : parker_reachable s -> parker_inv s.
Proof.
  unfold parker_reachable. intros H. remember parker_new as s0 eqn:E.
  assert (parker_inv s0) as H0 by (subst; apply parker_inv_new). clear E.
  induction H as [|x y z [e Hs] _ IH]; [done|]. apply IH. eapply parker_step_inv; eauto.
Qed.

(** * The theorems *)

(** Whatever the host does, the parker does not panic, and a thread that sleeps
    although it has been unparked is about to be notified: no wake-up is lost. *)
Theorem parker_no_lost_wakeup s : parker_reachable s ->
  (p_owner s <> OPanic /\ forall i, p_unpark s i <> UPanic) /\
  (forall timed, p_owner s = OAsleep timed -> p_state s = NOTIFIED ->
    exists i, will_notify (p_unpark s i) = true).
Proof. intros []%parker_reachable_inv. done. Qed.

Lemma parker_no_lost_wakeup_witness : parker_reachable parker_new /\ p_owner parker_new <> OPanic.
Proof. split; [apply rtc_refl|]. apply (parker_no_lost_wakeup parker_new), rtc_refl. Defined.

(** The owner that is awake and notified, with the lock free, returns. *)
Lemma relocks_and_returns s timed : p_owner s = ORelock timed -> p_lock s = None -> p_state s = NOTIFIED ->
  exists s', rtc (parker_moves false) s s' /\ p_owner s' = OIdle /\ p_state s' = EMPTY.
Proof.
  intros Ho Hl Hn. eexists. split.
  - eapply rtc_l; [eexists; by eapply park_relock|]. destruct timed.
    + eapply rtc_l; [eexists; by eapply park_timeout_check|]. cbn. rewrite Hn.
      eapply rtc_l; [eexists; by eapply park_unlock|]. apply rtc_refl.
    + eapply rtc_l; [eexists; by eapply park_check_ok|].
      eapply rtc_l; [eexists; by eapply park_unlock|]. apply rtc_refl.
  - by destruct timed.
Qed.

(** A pending notification is delivered. *)
Lemma notify_delivers s i timed : p_unpark s i = UNotify -> p_owner s = OAsleep timed ->
  p_lock s = None -> p_state s = NOTIFIED ->
  exists s', rtc (parker_moves false) s s' /\ p_owner s' = OIdle /\ p_state s' = EMPTY.
Proof.
  intros Hi Ho Hl Hn.
  edestruct (relocks_and_returns {| p_state := p_state s; p_lock := p_lock s;
    p_owner := ORelock timed; p_unpark := <[i := UIdle]> (p_unpark s) |}) as (s' & Hs & H'); [done..|].
  exists s'. split; [|done]. eapply rtc_l; [|exact Hs]. exists None.
  pose proof (unpark_notify false s i Hi) as H. by rewrite Ho in H.
Qed.

Lemma locked_notify s i timed : p_unpark s i = ULock -> p_owner s = OAsleep timed ->
  p_lock s = None -> p_state s = NOTIFIED ->
  exists s', rtc (parker_moves false) s s' /\ p_owner s' = OIdle /\ p_state s' = EMPTY.
Proof.
  intros Hi Ho Hl Hn.
  destruct (notify_delivers (upd_u (upd_u s (p_state s) (Some (Unparker i)) i UUnlock) (p_state s) None i UNotify)
    i timed) as (s' & Hs & H'); [apply fn_lookup_insert|done..|].
  exists s'. split; [|done].
  eapply rtc_l; [exists None; by apply (unpark_lock false s i)|].
  eapply rtc_l; [|exact Hs]. exists None.
  apply (unpark_unlock false (upd_u s (p_state s) (Some (Unparker i)) i UUnlock) i), fn_lookup_insert.
Qed.

(** The lock gets free while the owner sleeps. *)
Lemma lock_gets_free s timed : parker_inv s -> p_owner s = OAsleep timed ->
  exists s', rtc (parker_moves false) s s' /\ parker_inv s' /\ p_owner s' = OAsleep timed /\
    p_lock s' = None /\ p_state s' = p_state s.
Proof.
  intros Hinv Ho. destruct (p_lock s) as [[|j]|] eqn:El.
  - apply (inv_owner_lock _ Hinv) in El. by rewrite Ho in El.
  - pose proof (proj1 (inv_unpark_lock _ Hinv j) El) as Hj.
    pose proof (unpark_unlock false s j Hj) as Hs.
    eexists. split; [eapply rtc_once; eexists; exact Hs|]. split; [by eapply parker_step_inv|done].
  - exists s. split; [apply rtc_refl|done].
Qed.

(** From any state that a dishonest host can have led to: a thread that sleeps
    although it has been unparked returns from [park], by steps that the other
    threads and an honest host take. *)
Theorem parker_wakes s timed : parker_reachable s -> p_owner s = OAsleep timed -> p_state s = NOTIFIED ->
  exists s', rtc (parker_moves false) s s' /\ p_owner s' = OIdle /\ p_state s' = EMPTY.
Proof.
  intros Hr%parker_reachable_inv Ho Hn.
  destruct (lock_gets_free s timed Hr Ho) as (s1 & Hs1 & Hinv & Ho1 & Hl1 & Hn1). rewrite Hn in Hn1.
  assert (exists s', rtc (parker_moves false) s1 s' /\ p_owner s' = OIdle /\ p_state s' = EMPTY) as (s' & Hs' & H').
  { destruct (inv_asleep _ Hinv timed Ho1 Hn1) as [i Hi]. destruct (p_unpark s1 i) eqn:Ei; try done.
    - by eapply locked_notify.
    - apply (inv_unpark_lock _ Hinv) in Ei. congruence.
    - by eapply notify_delivers. }
  exists s'. split; [by eapply rtc_trans|done].
Qed.

(** * The parker as a token *)

(** What clients see: [unpark] makes the token available; [park] returns by taking
    it; [park_timeout] may also return without it. *)
Inductive token_step (token : bool) : option event -> bool -> Prop :=
| token_unpark : token_step token (Some Unparked) true
| token_return : token = true -> token_step token (Some Returned) false
| token_timeout : token = false -> token_step token (Some TimedOut) false
| token_none : token_step token None token.

(** C34. The parker implements a binary token: in every reachable state, each step
    of the code is a step of the token or leaves it alone.  So [park] returns only
    after an [unpark] that no earlier return has consumed, and [unpark]s before it
    count once. *)
Theorem parker_refines_token s e s' : parker_reachable s -> parker_step true s e s' ->
  token_step (p_state s =? NOTIFIED) e (p_state s' =? NOTIFIED).
Proof.
  intros Hinv%parker_reachable_inv Hs. pose proof (inv_state _ Hinv) as Hst.
  pose proof (inv_swap _ Hinv) as Hsw. pose proof (inv_sleeping _ Hinv) as Hsl.
  inversion Hs; subst; clear Hs; cbn; try constructor;
    try match goal with H : p_state s = NOTIFIED |- _ => rewrite H end; try done.
  - destruct Hst as [E|[E|E]]; rewrite E; constructor.
  - rewrite Hsw by done. by constructor.
  - match goal with H : p_owner s = _ |- _ => rewrite H in Hsl end.
    destruct Hst as [E|[E|E]]; rewrite E; [by destruct Hsl|by constructor..].
Qed.

Lemma parker_refines_token_witness :
  token_step (p_state parker_new =? NOTIFIED) None (p_state (upd parker_new EMPTY None (OTry false)) =? NOTIFIED).
Proof.
  apply (parker_refines_token parker_new None (upd parker_new EMPTY None (OTry false)));
    [apply rtc_refl|by apply (park_call true parker_new false)].
Defined.
