(* ===== verification/Once.v ===== *)
(** Once: one-time initialization, sgx_tstd/src/sync/once.rs.

    Any number of threads call [call_once] and [call_once_force] on one [Once].  A
    step of a thread is one access to shared memory: the word [state_and_queue], a
    field of a [Waiter], or the token of a parked thread (Parker.v).  A [Waiter] is
    a local variable of [wait]: it is in [nodes] while [wait] runs and gone after;
    an access to one that is gone, a failed assertion and [None.unwrap()] lead to
    [Broken].  The initialization is code of the caller: [Init] ends when it
    likes, by returning, by returning after [poison], or by a panic.  The threads may
    also park and unpark each other for other reasons.

    Memory is sequentially consistent.  [addr t] is the address, on its stack, of
    the [Waiter] of thread [t]. *)
From Stdlib Require Import ZArith Lia.
From stdpp Require Import base numbers list option tactics functions relations gmap.
From S2P Require Import Prelude.

Definition INCOMPLETE : Z := 0x0.
Definition POISONED : Z := 0x1.
Definition RUNNING : Z := 0x2.
Definition COMPLETE : Z := 0x3.
Definition STATE_MASK : Z := 0x3.

(** [w & STATE_MASK] and [(w & !STATE_MASK) as *const Waiter] *)
Definition state_of (w : Z) : Z := Z.land w STATE_MASK.
Definition queue_of (w : Z) : Z := Z.land w (unot 64 STATE_MASK).

(** The threads, and where the waiter of each is: aligned to four bytes
    ([repr(align(4))]), not null, and apart from the others. *)
Class Threads := {
  tid : Type;
  tid_eq : EqDecision tid;
  addr : tid -> Z;
  addr_range t : 0 < addr t < 2 ^ 64;
  addr_align t : addr t `mod` 4 = 0;
  addr_inj : Inj (=) (=) addr
}.
#[export] Existing Instance tid_eq.
#[export] Existing Instance addr_inj.

Section once.
Context `{Threads}.

Record Waiter := {
  thread : option tid;
  signaled : bool;
  next : Z
}.

(** Where a thread is.  [force] is [ignore_poisoning]; [unwinding] says that the
    initialization panicked and the queue is dropped on the way out. *)
Inductive pc :=
| Idle
| Start (force : bool)                        (** [is_completed] *)
| Load (force : bool)                         (** [call_inner]: the load before or in the loop *)
| Dispatch (force : bool) (w : Z)             (** the [match], with its [compare_exchange] *)
| WaitTry (force : bool) (w : Z)              (** [wait]: the loop around [compare_exchange] *)
| WaitLoad (force : bool)                     (** [node.signaled.load] *)
| WaitPark (force : bool)                     (** [thread::park] *)
| Init (poisoned : bool)                      (** [init(&init_state)] *)
| Swap (target : Z) (unwinding : bool)        (** [WaiterQueue::drop]: the swap *)
| Drain (queue : Z) (unwinding : bool)        (** its loop: the read of [next] *)
| DrainThread (queue nxt : Z) (unwinding : bool)          (** [thread.take().unwrap()] *)
| DrainSignal (queue nxt : Z) (t : tid) (unwinding : bool)   (** [signaled.store(true)] *)
| DrainUnpark (nxt : Z) (t : tid) (unwinding : bool)      (** [thread.unpark()] *)
| Returned (ran : bool)                       (** whether this call ran the initialization *)
| Panicked
| Broken.

Record once := {
  word : Z;
  nodes : gmap Z Waiter;
  pcs : tid -> pc;
  tokens : tid -> bool;
  completed : nat     (** how often an initialization returned without [poison] *)
}.

Definition once_new : once :=
  {| word := INCOMPLETE; nodes := ∅; pcs := fun _ => Idle; tokens := fun _ => false; completed := 0 |}.

Definition set_pc (t : tid) (p : pc) (s : once) : once :=
  {| word := word s; nodes := nodes s; pcs := <[t := p]> (pcs s); tokens := tokens s; completed := completed s |}.
Definition set_word (w : Z) (s : once) : once :=
  {| word := w; nodes := nodes s; pcs := pcs s; tokens := tokens s; completed := completed s |}.
Definition set_node (a : Z) (n : Waiter) (s : once) : once :=
  {| word := word s; nodes := <[a := n]> (nodes s); pcs := pcs s; tokens := tokens s; completed := completed s |}.
Definition free_node (a : Z) (s : once) : once :=
  {| word := word s; nodes := delete a (nodes s); pcs := pcs s; tokens := tokens s; completed := completed s |}.
Definition set_token (t : tid) (b : bool) (s : once) : once :=
  {| word := word s; nodes := nodes s; pcs := pcs s; tokens := <[t := b]> (tokens s); completed := completed s |}.
Definition count_completed (s : once) : once :=
  {| word := word s; nodes := nodes s; pcs := pcs s; tokens := tokens s; completed := S (completed s) |}.

(** The [match] of [call_inner] on the value that was loaded *)
Inductive arm := ArmBreak | ArmPoisoned | ArmRun (poisoned : bool) | ArmWait | ArmAssert.
Definition dispatch (force : bool) (w : Z) : arm :=
  if w =? COMPLETE then ArmBreak
  else if (w =? POISONED) && negb force then ArmPoisoned
  else if (w =? POISONED) || (w =? INCOMPLETE) then ArmRun (w =? POISONED)
  else if state_of w =? RUNNING then ArmWait
  else ArmAssert.

(** Where a call ends after the queue is drained *)
Definition finished (unwinding : bool) : pc := if unwinding then Panicked else Returned true.

Definition waiter_of (t : tid) (w : Z) : Waiter :=
  {| thread := Some t; signaled := false; next := queue_of w |}.

Inductive once_step (s : once) (t : tid) : once -> Prop :=
| once_call force : pcs s t = Idle -> once_step s t (set_pc t (Start force) s)
| once_again ran : pcs s t = Returned ran -> once_step s t (set_pc t Idle s)
| once_start force : pcs s t = Start force ->
    once_step s t (set_pc t (if word s =? COMPLETE then Returned false else Load force) s)
| once_load force : pcs s t = Load force -> once_step s t (set_pc t (Dispatch force (word s)) s)
| once_break force w : pcs s t = Dispatch force w -> dispatch force w = ArmBreak ->
    once_step s t (set_pc t (Returned false) s)
| once_poisoned force w : pcs s t = Dispatch force w -> dispatch force w = ArmPoisoned ->
    once_step s t (set_pc t Panicked s)
| once_run force w poisoned : pcs s t = Dispatch force w -> dispatch force w = ArmRun poisoned ->
    word s = w -> once_step s t (set_word RUNNING (set_pc t (Init poisoned) s))
| once_lost force w poisoned : pcs s t = Dispatch force w -> dispatch force w = ArmRun poisoned ->
    word s <> w -> once_step s t (set_pc t (Dispatch force (word s)) s)
| once_wait force w : pcs s t = Dispatch force w -> dispatch force w = ArmWait ->
    once_step s t (set_pc t (WaitTry force w) s)
| once_assert force w : pcs s t = Dispatch force w -> dispatch force w = ArmAssert ->
    once_step s t (set_pc t Broken s)
| wait_return force w : pcs s t = WaitTry force w -> state_of w <> RUNNING ->
    once_step s t (set_pc t (Load force) s)
| wait_enqueue force w : pcs s t = WaitTry force w -> state_of w = RUNNING -> word s = w ->
    once_step s t (set_word (Z.lor (addr t) RUNNING)
      (set_node (addr t) (waiter_of t w) (set_pc t (WaitLoad force) s)))
| wait_retry force w : pcs s t = WaitTry force w -> state_of w = RUNNING -> word s <> w ->
    once_step s t (set_pc t (WaitTry force (word s)) s)
| wait_signaled force n : pcs s t = WaitLoad force -> nodes s !! addr t = Some n -> signaled n = true ->
    once_step s t (free_node (addr t) (set_pc t (Load force) s))
| wait_not_signaled force n : pcs s t = WaitLoad force -> nodes s !! addr t = Some n -> signaled n = false ->
    once_step s t (set_pc t (WaitPark force) s)
| wait_gone force : pcs s t = WaitLoad force -> nodes s !! addr t = None ->
    once_step s t (set_pc t Broken s)
| wait_park force : pcs s t = WaitPark force -> tokens s t = true ->
    once_step s t (set_token t false (set_pc t (WaitLoad force) s))
| init_ok poisoned : pcs s t = Init poisoned ->
    once_step s t (count_completed (set_pc t (Swap COMPLETE false) s))
| init_poison poisoned : pcs s t = Init poisoned ->
    once_step s t (set_pc t (Swap POISONED false) s)
| init_panic poisoned : pcs s t = Init poisoned ->
    once_step s t (set_pc t (Swap POISONED true) s)
| drop_swap target unwinding : pcs s t = Swap target unwinding ->
    once_step s t (set_word target
      (set_pc t (if state_of (word s) =? RUNNING then Drain (queue_of (word s)) unwinding else Broken) s))
| drain_end unwinding : pcs s t = Drain 0 unwinding ->
    once_step s t (set_pc t (finished unwinding) s)
| drain_next q n unwinding : pcs s t = Drain q unwinding -> q <> 0 -> nodes s !! q = Some n ->
    once_step s t (set_pc t (DrainThread q (next n) unwinding) s)
| drain_take q nxt n u unwinding : pcs s t = DrainThread q nxt unwinding ->
    nodes s !! q = Some n -> thread n = Some u ->
    once_step s t (set_node q {| thread := None; signaled := signaled n; next := next n |}
      (set_pc t (DrainSignal q nxt u unwinding) s))
| drain_take_none q nxt n unwinding : pcs s t = DrainThread q nxt unwinding ->
    nodes s !! q = Some n -> thread n = None -> once_step s t (set_pc t Broken s)
| drain_signal q nxt u n unwinding : pcs s t = DrainSignal q nxt u unwinding -> nodes s !! q = Some n ->
    once_step s t (set_node q {| thread := thread n; signaled := true; next := next n |}
      (set_pc t (DrainUnpark nxt u unwinding) s))
| drain_gone q : pcs s t = Drain q true \/ pcs s t = Drain q false \/
      (exists nxt unw, pcs s t = DrainThread q nxt unw) \/
      (exists nxt u unw, pcs s t = DrainSignal q nxt u unw) ->
    q <> 0 -> nodes s !! q = None -> once_step s t (set_pc t Broken s)
| drain_unpark nxt u unwinding : pcs s t = DrainUnpark nxt u unwinding ->
    once_step s t (set_token u true (set_pc t (Drain nxt unwinding) s)).

(** What the threads do for other reasons: unpark each other, park *)
Inductive other_step (s : once) (t : tid) : once -> Prop :=
| other_unpark u : other_step s t (set_token u true s)
| other_park : (forall force, pcs s t <> WaitPark force) -> other_step s t (set_token t false s).

Definition once_moves (s s' : once) : Prop := exists t, once_step s t s'.
Definition any_moves (s s' : once) : Prop := once_moves s s' \/ exists t, other_step s t s'.
Definition once_reachable (s : once) : Prop := rtc any_moves once_new s.

End once.
