(* ===== verification/OnceProofs.v ===== *)
(** OnceProofs: what [Once] guarantees, for any number of threads and any schedule.

    The waiters that have not been signaled are cut into disjoint chains: one is
    the queue in the word, and each thread that drains a queue has one ([own]).
    [once_safe]: no waiter is accessed after its thread has left, and no assertion
    fails.  [once_once]: the initialization completes at most once, never runs in two
    threads, and a call that returns without having run it comes after its
    completion.  [once_no_lost_waiter]: every waiting thread is in the queue of a
    running initialization, or will be signaled, or is signaled and unparked. *)
From Stdlib Require Import ZArith Lia.
From stdpp Require Import base numbers list option tactics functions relations gmap.
From S2P Require Import Prelude Once.

(** * The word *)
Lemma state_of_mod w : state_of w = w `mod` 4.
Proof. unfold state_of. change STATE_MASK with (Z.ones 2). by rewrite Z.land_ones. Qed.

Section proofs.
Context `{Threads}.

Lemma state_of_waiter t : state_of (Z.lor (addr t) RUNNING) = RUNNING.
Proof.
  unfold state_of. rewrite Z.land_lor_distr_l. fold (state_of (addr t)).
  by rewrite state_of_mod, addr_align.
Qed.

Lemma queue_of_waiter t : queue_of (Z.lor (addr t) RUNNING) = addr t.
Proof.
  unfold queue_of. rewrite Z.land_lor_distr_l.
  change (Z.land RUNNING (unot 64 STATE_MASK)) with 0. rewrite Z.lor_0_r.
  change (unot 64 STATE_MASK) with (Z.ldiff (Z.ones 64) (Z.ones 2)).
  pose proof (addr_range t). pose proof (addr_align t).
  rewrite Z.ldiff_land, Z.land_assoc, Z.land_ones, Z.mod_small, <- Z.ldiff_land by lia.
  rewrite Z.ldiff_ones_r, Z.shiftl_mul_pow2, Z.shiftr_div_pow2 by lia.
  change (2 ^ 2) with 4. pose proof (Z.div_mod (addr t) 4). lia.
Qed.

(** * Chains of waiters *)
Definition fresh (t : tid) (nxt : Z) : Waiter := {| thread := Some t; signaled := false; next := nxt |}.

Fixpoint chain (N : gmap Z Waiter) (a : Z) (l : list tid) : Prop :=
  match l with
  | [] => a = 0
  | t :: l => a = addr t /\ exists nxt, N !! addr t = Some (fresh t nxt) /\ chain N nxt l
  end.

(** The waiters that a thread has still to signal *)
Definition drain_chain (N : gmap Z Waiter) (p : pc) (l : list tid) : Prop :=
  match p with
  | Drain q _ => chain N q l
  | DrainThread q nxt _ => exists t l', l = t :: l' /\ q = addr t /\ N !! q = Some (fresh t nxt) /\ chain N nxt l'
  | DrainSignal q nxt t _ => exists l' nxt', l = t :: l' /\ q = addr t /\
      N !! q = Some {| thread := None; signaled := false; next := nxt' |} /\ chain N nxt l'
  | DrainUnpark nxt _ _ => chain N nxt l
  | _ => l = []
  end.

(** The queue in the word *)
Definition word_queue (w : Z) : Z := if state_of w =? RUNNING then queue_of w else 0.

(** Chain [None] is the queue, chain [Some t] is that of thread [t]. *)
Definition segment (N : gmap Z Waiter) (w : Z) (P : tid -> pc) (h : option tid) (l : list tid) : Prop :=
  match h with
  | None => chain N (word_queue w) l
  | Some d => drain_chain N (P d) l
  end.

Definition agree_on (N N' : gmap Z Waiter) (l : list tid) : Prop :=
  forall t, t ∈ l -> N' !! addr t = N !! addr t.

Lemma chain_frame N N' a l : agree_on N N' l -> chain N a l -> chain N' a l.
Proof.
  revert a. induction l as [|t l IH]; intros a Hag; [done|]. intros (-> & nxt & Hn & Hc).
  split; [done|]. exists nxt. split; [by rewrite Hag by constructor|].
  apply IH; [|done]. intros u Hu. apply Hag. by constructor.
Qed.

Lemma drain_chain_frame N N' p l : agree_on N N' l -> drain_chain N p l -> drain_chain N' p l.
Proof.
  intros Hag. destruct p; cbn; try done; try by apply chain_frame.
  - intros (t & l' & -> & -> & Hn & Hc). exists t, l'. repeat split.
    + by rewrite Hag by constructor.
    + eapply chain_frame; [|done]. intros u Hu. apply Hag. by constructor.
  - intros (l' & nxt' & -> & -> & Hn & Hc). exists l', nxt'. repeat split.
    + by rewrite Hag by constructor.
    + eapply chain_frame; [|done]. intros u Hu. apply Hag. by constructor.
Qed.

Lemma chain_unsignaled N a l t : chain N a l -> t ∈ l -> exists n, N !! addr t = Some n /\ signaled n = false.
Proof.
  revert a. induction l as [|u l IH]; intros a; [by intros _ ?%elem_of_nil|].
  intros (-> & nxt & Hn & Hc) [->|Ht]%elem_of_cons; [by eexists|eauto].
Qed.

Lemma segment_unsignaled N w P h l t :
  segment N w P h l -> t ∈ l -> exists n, N !! addr t = Some n /\ signaled n = false.
Proof.
  destruct h as [d|]; cbn; [|apply chain_unsignaled].
  destruct (P d); cbn; try (intros -> ?%elem_of_nil; done); try apply chain_unsignaled.
  - intros (u & l' & -> & -> & Hn & Hc) [->|Ht]%elem_of_cons; [by eexists|]. by eapply chain_unsignaled.
  - intros (l' & nxt' & -> & -> & Hn & Hc) [->|Ht]%elem_of_cons; [by eexists|]. by eapply chain_unsignaled.
Qed.

(** * The invariant *)
Definition waiting (p : pc) : bool := match p with WaitLoad _ | WaitPark _ => true | _ => false end.
Definition runner (p : pc) : bool := match p with Init _ | Swap _ _ => true | _ => false end.
Definition draining (p : pc) : bool :=
  match p with Drain _ _ | DrainThread _ _ _ | DrainSignal _ _ _ _ | DrainUnpark _ _ _ => true | _ => false end.
(** Program counters that hold nothing *)
Definition plain (p : pc) : bool :=
  match p with Broken => false | p => negb (waiting p || runner p || draining p) end.

Definition word_shape (w : Z) : Prop :=
  w = INCOMPLETE \/ w = POISONED \/ w = COMPLETE \/ state_of w = RUNNING.

(** What a thread knows of the word it has read, and of the completion *)
Definition local_ok (c : nat) (p : pc) : Prop :=
  match p with
  | Dispatch _ w | WaitTry _ w => word_shape w /\ (w = COMPLETE -> c = 1%nat)
  | Returned false => c = 1%nat
  | Init _ => c = 0%nat
  | Swap target _ => (target = COMPLETE /\ c = 1%nat) \/ (target = POISONED /\ c = 0%nat)
  | Broken => False
  | _ => True
  end.

(** The part of the invariant about signaled waiters *)
Definition tokens_ok (N : gmap Z Waiter) (P : tid -> pc) (tk : tid -> bool) : Prop :=
  forall t force n, P t = WaitPark force -> N !! addr t = Some n -> signaled n = true ->
    tk t = true \/ exists d nxt unwinding, P d = DrainUnpark nxt t unwinding.

Record once_inv (own : option tid -> list tid) (s : once) : Prop := {
  inv_segment h : segment (nodes s) (word s) (pcs s) h (own h);
  inv_nodup h : NoDup (own h);
  inv_disjoint h h' t : t ∈ own h -> t ∈ own h' -> h = h';
  inv_owned h t : t ∈ own h -> waiting (pcs s t) = true;
  inv_node t : waiting (pcs s t) = true -> is_Some (nodes s !! addr t);
  inv_cover t n : waiting (pcs s t) = true -> nodes s !! addr t = Some n -> signaled n = false ->
    exists h, t ∈ own h;
  inv_word : word_shape (word s);
  inv_runner t : runner (pcs s t) = true -> state_of (word s) = RUNNING;
  inv_one_runner t u : runner (pcs s t) = true -> runner (pcs s u) = true -> t = u;
  inv_running : state_of (word s) = RUNNING -> exists t, runner (pcs s t) = true;
  inv_complete : word s = COMPLETE -> completed s = 1%nat;
  inv_incomplete : word s = INCOMPLETE \/ word s = POISONED -> completed s = 0%nat;
  inv_local t : local_ok (completed s) (pcs s t);
  inv_tokens : tokens_ok (nodes s) (pcs s) (tokens s)
}.

Definition once_ok (s : once) : Prop := exists own, once_inv own s.

Lemma once_new_ok : once_ok once_new.
Proof.
  exists (fun _ => []). split; try done.
  - intros [d|]; done.
  - intros. constructor.
  - intros h h' t Ht%elem_of_nil. done.
  - intros h t Ht%elem_of_nil. done.
  - by left.
Qed.

(** Case analysis on whether a program counter is the one that moved *)
Ltac upd_cases :=
  repeat match goal with
  | H : context [<[?t := ?p]> ?f ?u] |- _ =>
      destruct (decide (u = t)) as [->|];
        [rewrite fn_lookup_insert in H|rewrite fn_lookup_insert_ne in H by done]
  | |- context [<[?t := ?p]> ?f ?u] =>
      destruct (decide (u = t)) as [->|];
        [rewrite fn_lookup_insert|rewrite fn_lookup_insert_ne by done]
  end.

(** A pending [unpark] of another thread stays pending. *)
Lemma drain_unpark_kept (P : tid -> pc) p' (Q : Prop) u t :
  (forall nxt v unwinding, P t <> DrainUnpark nxt v unwinding) ->
  Q \/ (exists d nxt unwinding, P d = DrainUnpark nxt u unwinding) ->
  Q \/ (exists d nxt unwinding, <[t := p']> P d = DrainUnpark nxt u unwinding).
Proof.
  intros HP [|(d & nxt & unw & Hd)]; [by left|]. right. exists d, nxt, unw.
  destruct (decide (d = t)) as [->|]; [by destruct (HP nxt u unw)|by rewrite fn_lookup_insert_ne].
Qed.

Lemma tokens_ok_move N P tk t p' :
  tokens_ok N P tk -> (forall force, p' <> WaitPark force) ->
  (forall nxt u unwinding, P t <> DrainUnpark nxt u unwinding) -> tokens_ok N (<[t := p']> P) tk.
Proof.
  intros Htk Hp HP u force n Hu Hn Hs. upd_cases; [by destruct (Hp force)|].
  apply drain_unpark_kept; [done|]. by eapply Htk.
Qed.

(** Steps that change nothing but a program counter, tokens and the count *)
Lemma move_pc own s t p' tk c :
  once_inv own s ->
  drain_chain (nodes s) p' (own (Some t)) ->
  waiting p' = waiting (pcs s t) -> runner p' = runner (pcs s t) -> local_ok c p' ->
  (forall u, u <> t -> local_ok c (pcs s u)) ->
  (word s = COMPLETE -> c = 1%nat) -> (word s = INCOMPLETE \/ word s = POISONED -> c = 0%nat) ->
  tokens_ok (nodes s) (<[t := p']> (pcs s)) tk ->
  once_inv own {| word := word s; nodes := nodes s; pcs := <[t := p']> (pcs s); tokens := tk; completed := c |}.
Proof.
  intros Hinv Hch Hw Hr Hl Hlu Hc1 Hc0 Htk. pose proof Hinv as []. split; cbn; try done.
  - intros [d|]; cbn; [|apply (inv_segment0 None)]. upd_cases; [done|apply (inv_segment0 (Some d))].
  - intros h u Hu. upd_cases; [rewrite Hw|]; eauto.
  - intros u Hu. upd_cases; [rewrite Hw in Hu|]; eauto.
  - intros u n Hu. upd_cases; [rewrite Hw in Hu|]; eauto.
  - intros u Hu. upd_cases; [rewrite Hr in Hu|]; eauto.
  - intros u v Hu Hv. upd_cases; rewrite ?Hr in *; eauto.
  - intros E. destruct (inv_running0 E) as [r Hrr]. exists r. upd_cases; [by rewrite Hr|done].
  - intros u. upd_cases; [done|auto].
Qed.

(** A thread that drains nothing owns no chain. *)
Lemma own_nil own s t : once_inv own s -> draining (pcs s t) = false -> own (Some t) = [].
Proof. intros Hinv Hd. pose proof (inv_segment _ _ Hinv (Some t)) as Hs. cbn in Hs. by destruct (pcs s t). Qed.

Lemma plain_step own s t p' : once_inv own s ->
  plain (pcs s t) = true -> plain p' = true -> local_ok (completed s) p' -> once_inv own (set_pc t p' s).
Proof.
  intros Hinv Hp Hp' Hl. apply move_pc; try done.
  - rewrite (own_nil own s t Hinv) by by destruct (pcs s t). by destruct p'.
  - by destruct (pcs s t), p'.
  - by destruct (pcs s t), p'.
  - intros u _. apply (inv_local _ _ Hinv).
  - apply (inv_complete _ _ Hinv).
  - apply (inv_incomplete _ _ Hinv).
  - apply tokens_ok_move; [apply (inv_tokens _ _ Hinv)|intros force ->; done|].
    intros nxt u unw E. by rewrite E in Hp.
Qed.

(** The thread that takes the word from [INCOMPLETE] or [POISONED] to [RUNNING] *)
Lemma run_step own s t force w poisoned : once_inv own s ->
  pcs s t = Dispatch force w -> dispatch force w = ArmRun poisoned -> word s = w ->
  once_inv own (set_word RUNNING (set_pc t (Init poisoned) s)).
Proof.
  intros Hinv Hp Hd Hw.
  assert (word s = INCOMPLETE \/ word s = POISONED) as Hws.
  { unfold dispatch in Hd. rewrite Hw. destruct (Z.eqb_spec w POISONED), (Z.eqb_spec w INCOMPLETE);
      repeat case_match; auto; done. }
  assert (state_of (word s) <> RUNNING) as Hnr by (destruct Hws as [-> | ->]; done).
  assert (forall u, runner (pcs s u) = false) as Hno.
  { intros u. destruct (runner (pcs s u)) eqn:E; [|done]. by apply (inv_runner _ _ Hinv) in E. }
  pose proof (inv_incomplete _ _ Hinv Hws) as Hc.
  assert (own None = []) as Hq.
  { pose proof (inv_segment _ _ Hinv None) as Hs. cbn in Hs. unfold word_queue in Hs.
    rewrite (proj2 (Z.eqb_neq _ _) Hnr) in Hs. destruct (own None) as [|u l]; [done|].
    destruct Hs as [E _]. pose proof (addr_range u). lia. }
  assert (own (Some t) = []) as Ho by (apply (own_nil own s t Hinv); by rewrite Hp).
  pose proof Hinv as []. split; cbn; try done.
  - intros [d|]; cbn; [|by rewrite Hq]. upd_cases; [done|apply (inv_segment0 (Some d))].
  - intros h u Hu. upd_cases; [|eauto]. apply inv_owned0 in Hu. by rewrite Hp in Hu.
  - intros u Hu. upd_cases; [done|eauto].
  - intros u n Hu. upd_cases; [done|eauto].
  - by do 3 right.
  - intros u v Hu Hv. upd_cases; [done| | |]; rewrite ?Hno in *; done.
  - intros _. exists t. by rewrite fn_lookup_insert.
  - intros u. upd_cases; [done|auto].
  - apply tokens_ok_move; [done|done|]. intros nxt u unw E. congruence.
Qed.

(** A waiter that is not signaled by its thread is what its owner finds. *)
Lemma signaled_not_owned own s t n h : once_inv own s ->
  nodes s !! addr t = Some n -> signaled n = true -> t ∉ own h.
Proof.
  intros Hinv Hn Hs Ht.
  destruct (segment_unsignaled _ _ _ _ _ _ (inv_segment _ _ Hinv h) Ht) as (n' & Hn' & Hs'). congruence.
Qed.

Lemma not_waiting_not_owned own s t h : once_inv own s -> waiting (pcs s t) = false -> t ∉ own h.
Proof. intros Hinv Hw Ht. apply (inv_owned _ _ Hinv) in Ht. congruence. Qed.

Lemma agree_insert N t n l : t ∉ l -> agree_on N (<[addr t := n]> N) l.
Proof. intros Ht u Hu. rewrite lookup_insert_ne; [done|]. intros E%(inj addr). by subst. Qed.

Lemma agree_delete N t l : t ∉ l -> agree_on N (delete (addr t) N) l.
Proof. intros Ht u Hu. rewrite lookup_delete_ne; [done|]. intros E%(inj addr). by subst. Qed.

(** A waiter enters the queue at its head. *)
Lemma enqueue_step own s t force w : once_inv own s ->
  pcs s t = WaitTry force w -> state_of w = RUNNING -> word s = w ->
  once_inv (<[None := t :: own None]> own)
    (set_word (Z.lor (addr t) RUNNING) (set_node (addr t) (waiter_of t w) (set_pc t (WaitLoad force) s))).
Proof.
  intros Hinv Hp Hst Hw.
  assert (forall h, t ∉ own h) as Hno by (intros h; eapply not_waiting_not_owned; [done|by rewrite Hp]).
  assert (forall d, own (Some d) = <[None := t :: own None]> own (Some d)) as Hsame.
  { intros d. by rewrite fn_lookup_insert_ne. }
  assert (forall h u, u ∈ <[None := t :: own None]> own h -> (h = None /\ u = t) \/ u ∈ own h) as Hel.
  { intros h u. destruct (decide (h = None)) as [->|]; rewrite ?fn_lookup_insert, ?fn_lookup_insert_ne by done; [|by right].
    intros [->|]%elem_of_cons; [by left|by right]. }
  pose proof Hinv as []. split; cbn; try done.
  - intros [d|]; cbn.
    + rewrite <- Hsame. eapply drain_chain_frame; [by apply agree_insert|].
      upd_cases; [by rewrite (own_nil own s t Hinv) by by rewrite Hp|apply (inv_segment0 (Some d))].
    + rewrite fn_lookup_insert. unfold word_queue. rewrite state_of_waiter, queue_of_waiter. cbn.
      split; [done|]. exists (queue_of w). split; [by rewrite lookup_insert_eq|].
      eapply chain_frame; [by apply agree_insert|]. pose proof (inv_segment0 None) as Hs. cbn in Hs.
      unfold word_queue in Hs. by rewrite Hw, Hst in Hs.
  - intros h. destruct (decide (h = None)) as [->|]; rewrite ?fn_lookup_insert, ?fn_lookup_insert_ne by done; [|done].
    by apply list.NoDup_cons.
  - intros h h' u [[-> ->]|Hu]%Hel [[-> E]|Hu']%Hel; subst; eauto; by destruct (Hno _ Hu) || by destruct (Hno _ Hu').
  - intros h u [[-> ->]|Hu]%Hel; [by rewrite fn_lookup_insert|]. upd_cases; [done|eauto].
  - intros u Hu. upd_cases; [by rewrite lookup_insert_eq|].
    rewrite lookup_insert_ne; [eauto|]. intros E%(inj addr). by subst.
  - intros u n Hu Hn Hs. upd_cases.
    + exists None. rewrite fn_lookup_insert. by constructor.
    + rewrite lookup_insert_ne in Hn by (intros E%(inj addr); by subst).
      destruct (inv_cover0 u n Hu Hn Hs) as [h Hh]. exists h.
      destruct (decide (h = None)) as [->|]; rewrite ?fn_lookup_insert, ?fn_lookup_insert_ne by done; [by constructor|done].
  - do 3 right. apply state_of_waiter.
  - intros u Hu. apply state_of_waiter.
  - intros u v Hu Hv. upd_cases; try done. eauto.
  - intros _. destruct inv_running0 as [r Hr]; [by rewrite Hw|]. exists r. upd_cases; [by rewrite Hp in Hr|done].
  - intros E. pose proof (state_of_waiter t) as Hsw. by rewrite E in Hsw.
  - intros E. pose proof (state_of_waiter t) as Hsw. by destruct E as [E|E]; rewrite E in Hsw.
  - intros u. upd_cases; [done|auto].
  - intros u f n Hu Hn Hs. upd_cases; [done|].
    rewrite lookup_insert_ne in Hn by (intros E%(inj addr); by subst).
    apply drain_unpark_kept; [congruence|]. by eapply inv_tokens0.
Qed.

(** A signaled thread leaves, and its waiter is gone. *)
Lemma leave_step own s t force n : once_inv own s ->
  pcs s t = WaitLoad force -> nodes s !! addr t = Some n -> signaled n = true ->
  once_inv own (free_node (addr t) (set_pc t (Load force) s)).
Proof.
  intros Hinv Hp Hn Hsig.
  assert (forall h, t ∉ own h) as Hno by (intros h; by eapply signaled_not_owned).
  pose proof Hinv as []. split; cbn; try done.
  - intros [d|]; cbn; [|eapply chain_frame; [by apply agree_delete|apply (inv_segment0 None)]].
    eapply drain_chain_frame; [by apply agree_delete|].
    upd_cases; [by rewrite (own_nil own s t Hinv) by by rewrite Hp|apply (inv_segment0 (Some d))].
  - intros h u Hu. upd_cases; [by destruct (Hno h)|eauto].
  - intros u Hu. upd_cases; [done|]. rewrite lookup_delete_ne; [eauto|]. intros E%(inj addr). by subst.
  - intros u m Hu Hm Hs. upd_cases; [done|].
    rewrite lookup_delete_ne in Hm by (intros E%(inj addr); by subst). eauto.
  - intros u Hu. upd_cases; [done|eauto].
  - intros u v Hu Hv. upd_cases; try done. eauto.
  - intros E. destruct (inv_running0 E) as [r Hr]. exists r. upd_cases; [by rewrite Hp in Hr|done].
  - intros u. upd_cases; [done|auto].
  - intros u f m Hu Hm Hs. upd_cases; [done|].
    rewrite lookup_delete_ne in Hm by (intros E%(inj addr); by subst).
    apply drain_unpark_kept; [congruence|]. by eapply inv_tokens0.
Qed.

(** The runner takes the whole queue over. *)
Lemma swap_step own s t target unwinding : once_inv own s -> pcs s t = Swap target unwinding ->
  once_inv (<[Some t := own None]> (<[None := []]> own))
    (set_word target (set_pc t (if state_of (word s) =? RUNNING then Drain (queue_of (word s)) unwinding else Broken) s)).
Proof.
  intros Hinv Hp.
  assert (state_of (word s) = RUNNING) as Hrun by (apply (inv_runner _ _ Hinv t); by rewrite Hp).
  rewrite Hrun. cbn -[word_queue].
  assert (own (Some t) = []) as Ho by (apply (own_nil own s t Hinv); by rewrite Hp).
  assert (state_of target <> RUNNING /\ word_queue target = 0 /\
    (target = COMPLETE -> completed s = 1%nat) /\ (target = POISONED -> completed s = 0%nat) /\
    (target = COMPLETE \/ target = POISONED)) as (Hnr & Hq & Hc1 & Hc0 & Ht).
  { pose proof (inv_local _ _ Hinv t) as Hl. rewrite Hp in Hl. cbn in Hl. destruct Hl as [[-> ?]|[-> ?]]; split_and!; auto; done. }
  set (own' := <[Some t := _]> _).
  assert (own' (Some t) = own None) as E1 by apply fn_lookup_insert.
  assert (own' None = []) as E2 by (unfold own'; by rewrite fn_lookup_insert_ne, fn_lookup_insert).
  assert (forall d, d <> t -> own' (Some d) = own (Some d)) as E3.
  { intros d Hd. unfold own'. by rewrite !fn_lookup_insert_ne by congruence. }
  (** where the elements of a chain were before *)
  assert (forall h u, u ∈ own' h -> exists h0, u ∈ own h0 /\ (h0 = None <-> h = Some t) /\ (h0 = h \/ h0 = None)) as Hel.
  { intros [d|] u; [|rewrite E2; by intros ?%elem_of_nil].
    destruct (decide (d = t)) as [->|]; [rewrite E1; exists None; naive_solver|].
    rewrite E3 by done. intros Hu. exists (Some d). split; [done|]. split; [naive_solver|by left]. }
  pose proof Hinv as []. split; cbn -[word_queue]; try done.
  - intros [d|]; cbn -[word_queue]; [|by rewrite E2, Hq]. upd_cases.
    + rewrite E1. pose proof (inv_segment0 None) as Hs. cbn in Hs. unfold word_queue in Hs. by rewrite Hrun in Hs.
    + rewrite E3 by done. apply (inv_segment0 (Some d)).
  - intros [d|]; [|rewrite E2; constructor]. destruct (decide (d = t)) as [->|]; [by rewrite E1|by rewrite E3].
  - intros h h' u (h0 & Hu0 & Hi & Hor)%Hel (h1 & Hu1 & Hi' & Hor')%Hel.
    pose proof (inv_disjoint0 _ _ _ Hu0 Hu1) as ->. destruct h1 as [d|]; [naive_solver|].
    rewrite (proj1 Hi eq_refl), (proj1 Hi' eq_refl). done.
  - intros h u (h0 & Hu0 & _)%Hel. apply inv_owned0 in Hu0. upd_cases; [by rewrite Hp in Hu0|done].
  - intros u Hu. upd_cases; [done|eauto].
  - intros u n Hu Hn Hs. upd_cases; [done|]. destruct (inv_cover0 u n Hu Hn Hs) as [[d|] Hh].
    + exists (Some d). destruct (decide (d = t)) as [->|]; [rewrite Ho in Hh; by apply elem_of_nil in Hh|by rewrite E3].
    + exists (Some t). by rewrite E1.
  - destruct Ht as [-> | ->]; [by right; right; left|by right; left].
  - intros u Hu. upd_cases; [done|]. exfalso. assert (u = t); [|done]. apply inv_one_runner0; [done|by rewrite Hp].
  - intros u v Hu Hv. upd_cases; try done. eauto.
  - intros [E|E]; [|auto]. destruct Ht as [-> | ->]; done.
  - intros u. upd_cases; [done|auto].
  - apply tokens_ok_move; [done|done|]. intros nxt u unw E. congruence.
Qed.

(** A draining thread changes a field of the waiter in hand; [own'] is what is
    left of its chain. *)
Lemma drain_node_step own own' s t t0 n p' : once_inv own s ->
  draining (pcs s t) = true -> draining p' = true -> local_ok (completed s) p' ->
  t0 ∈ own (Some t) -> (forall d, d <> Some t -> own' d = own d) ->
  (forall u, u ∈ own' (Some t) -> u ∈ own (Some t)) -> NoDup (own' (Some t)) ->
  (forall u, u ∈ own (Some t) -> u <> t0 -> u ∈ own' (Some t)) ->
  (signaled n = false -> t0 ∈ own' (Some t)) ->
  drain_chain (<[addr t0 := n]> (nodes s)) p' (own' (Some t)) ->
  tokens_ok (<[addr t0 := n]> (nodes s)) (<[t := p']> (pcs s)) (tokens s) ->
  once_inv own' (set_node (addr t0) n (set_pc t p' s)).
Proof.
  intros Hinv Hd Hd' Hl Ht0 Hsame Hsub Hnd Hkeep Hunsig Hch Htk.
  assert (forall h u, u ∈ own' h -> u ∈ own h) as Hel.
  { intros h u. destruct (decide (h = Some t)) as [->|]; [auto|by rewrite Hsame]. }
  assert (forall h, h <> Some t -> t0 ∉ own h) as Hno.
  { intros h Hh Hin. destruct Hh. by eapply (inv_disjoint _ _ Hinv). }
  assert (waiting (pcs s t) = false /\ runner (pcs s t) = false /\ waiting p' = false /\ runner p' = false)
    as (Hw & Hr & Hw' & Hr') by (destruct (pcs s t), p'; done).
  pose proof Hinv as []. split; cbn; try done.
  - intros h. destruct (decide (h = Some t)) as [->|]; cbn; [by rewrite fn_lookup_insert|].
    rewrite Hsame by done. destruct h as [d|]; cbn.
    + rewrite fn_lookup_insert_ne by congruence.
      eapply drain_chain_frame; [by apply agree_insert, Hno|apply (inv_segment0 (Some d))].
    + eapply chain_frame; [by apply agree_insert, Hno|apply (inv_segment0 None)].
  - intros h. destruct (decide (h = Some t)) as [->|]; [done|by rewrite Hsame].
  - intros h h' u Hu Hu'. eauto.
  - intros h u Hu%Hel%inv_owned0. upd_cases; [congruence|done].
  - intros u Hu. upd_cases; [congruence|]. destruct (decide (u = t0)) as [->|]; [by rewrite lookup_insert_eq|].
    rewrite lookup_insert_ne; [eauto|]. by intros E%(inj addr).
  - intros u m Hu Hm Hs. upd_cases; [congruence|]. destruct (decide (u = t0)) as [->|].
    + rewrite lookup_insert_eq in Hm. simplify_eq. eauto.
    + rewrite lookup_insert_ne in Hm by (by intros E%(inj addr)).
      destruct (inv_cover0 u m Hu Hm Hs) as [h Hh]. exists h.
      destruct (decide (h = Some t)) as [->|]; [auto|by rewrite Hsame].
  - intros u Hu. upd_cases; [congruence|eauto].
  - intros u v Hu Hv. upd_cases; try congruence. eauto.
  - intros E. destruct (inv_running0 E) as [r Hrr]. exists r. upd_cases; [congruence|done].
  - intros u. upd_cases; [done|auto].
Qed.

(** The waiter of a chain's head *)
Lemma chain_head N q l : chain N q l -> q <> 0 ->
  exists t nxt l', l = t :: l' /\ q = addr t /\ N !! q = Some (fresh t nxt) /\ chain N nxt l'.
Proof.
  destruct l as [|t l]; [by intros ->|]. intros (-> & nxt & Hn & Hc) _. by exists t, nxt, l.
Qed.

(** Steps of a draining thread that change no waiter *)
Lemma drain_pc_step own s t p' tk : once_inv own s ->
  draining (pcs s t) = true -> waiting p' = false -> runner p' = false -> local_ok (completed s) p' ->
  drain_chain (nodes s) p' (own (Some t)) -> tokens_ok (nodes s) (<[t := p']> (pcs s)) tk ->
  once_inv own {| word := word s; nodes := nodes s; pcs := <[t := p']> (pcs s); tokens := tk; completed := completed s |}.
Proof.
  intros Hinv Hd Hw Hr Hl Hch Htk. apply move_pc; try done.
  - rewrite Hw. by destruct (pcs s t).
  - rewrite Hr. by destruct (pcs s t).
  - intros u _. apply (inv_local _ _ Hinv).
  - apply (inv_complete _ _ Hinv).
  - apply (inv_incomplete _ _ Hinv).
Qed.

(** Steps of a waiting thread that change no waiter *)
Lemma waiting_step own s t p' tk : once_inv own s -> waiting (pcs s t) = true -> waiting p' = true ->
  tokens_ok (nodes s) (<[t := p']> (pcs s)) tk ->
  once_inv own {| word := word s; nodes := nodes s; pcs := <[t := p']> (pcs s); tokens := tk; completed := completed s |}.
Proof.
  intros Hinv Hw Hw' Htk. apply move_pc; try done.
  - rewrite (own_nil own s t Hinv) by by destruct (pcs s t). by destruct p'.
  - by rewrite Hw.
  - by destruct (pcs s t), p'.
  - by destruct p'.
  - intros u _. apply (inv_local _ _ Hinv).
  - apply (inv_complete _ _ Hinv).
  - apply (inv_incomplete _ _ Hinv).
Qed.

Lemma unpark_step own s t nxt u unwinding : once_inv own s -> pcs s t = DrainUnpark nxt u unwinding ->
  once_inv own (set_token u true (set_pc t (Drain nxt unwinding) s)).
Proof.
  intros Hinv Hp. apply (drain_pc_step own s t (Drain nxt unwinding) (<[u := true]> (tokens s)));
    [done|by rewrite Hp|done..| |].
  - pose proof (inv_segment _ _ Hinv (Some t)) as Hs. cbn in Hs. by rewrite Hp in Hs.
  - intros v f n Hv Hn Hs. destruct (decide (v = t)) as [->|]; [by rewrite fn_lookup_insert in Hv|].
    rewrite fn_lookup_insert_ne in Hv by done.
    destruct (decide (v = u)) as [->|]; [left; apply fn_lookup_insert|].
    rewrite fn_lookup_insert_ne by done.
    destruct (inv_tokens _ _ Hinv v f n Hv Hn Hs) as [|(d & nx & unw & Hd)]; [by left|].
    right. exists d, nx, unw. upd_cases; [congruence|done].
Qed.

Lemma take_step own s t q nxt n u unwinding : once_inv own s ->
  pcs s t = DrainThread q nxt unwinding -> nodes s !! q = Some n -> thread n = Some u ->
  once_inv own (set_node q {| thread := None; signaled := signaled n; next := next n |}
    (set_pc t (DrainSignal q nxt u unwinding) s)).
Proof.
  intros Hinv Hp Hn Hu. pose proof (inv_segment _ _ Hinv (Some t)) as Hs. cbn in Hs. rewrite Hp in Hs.
  destruct Hs as (t0 & l' & El & -> & Hn' & Hc). rewrite Hn in Hn'. injection Hn' as ->. cbn in Hu. simplify_eq.
  pose proof (inv_nodup _ _ Hinv (Some t)) as Hnd. rewrite El in Hnd. apply list.NoDup_cons in Hnd as [Hni Hnd].
  apply (drain_node_step own); try done.
  - by rewrite Hp.
  - rewrite El. by constructor.
  - apply (inv_nodup _ _ Hinv).
  - intros _. rewrite El. by constructor.
  - cbn. exists l'. eexists. split_and!; [done|done|by rewrite lookup_insert_eq|].
    eapply chain_frame; [by apply agree_insert|done].
  - intros v f m Hv Hm Hsig. upd_cases; [done|].
    destruct (decide (v = u)) as [->|]; [rewrite lookup_insert_eq in Hm; simplify_eq; done|].
    rewrite lookup_insert_ne in Hm by (by intros E%(inj addr)).
    apply drain_unpark_kept; [congruence|]. by eapply (inv_tokens _ _ Hinv).
Qed.

Lemma signal_step own s t q nxt u n unwinding : once_inv own s ->
  pcs s t = DrainSignal q nxt u unwinding -> nodes s !! q = Some n ->
  once_inv (<[Some t := tail (own (Some t))]> own)
    (set_node q {| thread := thread n; signaled := true; next := next n |}
      (set_pc t (DrainUnpark nxt u unwinding) s)).
Proof.
  intros Hinv Hp Hn. pose proof (inv_segment _ _ Hinv (Some t)) as Hs. cbn in Hs. rewrite Hp in Hs.
  destruct Hs as (l' & nxt' & El & -> & Hn' & Hc). rewrite El. cbn [tail].
  pose proof (inv_nodup _ _ Hinv (Some t)) as Hnd. rewrite El in Hnd. apply list.NoDup_cons in Hnd as [Hni Hnd].
  apply (drain_node_step own); try done; rewrite ?fn_lookup_insert; try done.
  - by rewrite Hp.
  - rewrite El. by constructor.
  - intros d Hd. by rewrite fn_lookup_insert_ne.
  - intros v Hv. rewrite El. by constructor.
  - intros v Hv Hne. rewrite El in Hv. by apply elem_of_cons in Hv as [|].
  - cbn. eapply chain_frame; [by apply agree_insert|done].
  - intros v f m Hv Hm Hsig. upd_cases; [done|].
    destruct (decide (v = u)) as [->|].
    + right. exists t, nxt, unwinding. by rewrite fn_lookup_insert.
    + rewrite lookup_insert_ne in Hm by (by intros E%(inj addr)).
      apply drain_unpark_kept; [congruence|]. by eapply (inv_tokens _ _ Hinv).
Qed.

(** What is loaded from the word *)
Lemma local_word own s f : once_inv own s ->
  local_ok (completed s) (Dispatch f (word s)) /\ local_ok (completed s) (WaitTry f (word s)).
Proof. intros Hinv. split; cbn; split; eauto using inv_word, inv_complete. Qed.

(** The waiter that a draining thread is about to touch is there. *)
Lemma drain_not_gone own s t q : once_inv own s ->
  (pcs s t = Drain q true \/ pcs s t = Drain q false \/
    (exists nxt unw, pcs s t = DrainThread q nxt unw) \/ (exists nxt u unw, pcs s t = DrainSignal q nxt u unw)) ->
  q <> 0 -> nodes s !! q <> None.
Proof.
  intros Hinv Hp Hq Hn. pose proof (inv_segment _ _ Hinv (Some t)) as Hs. cbn in Hs.
  destruct Hp as [Hp|[Hp|[(nxt & unw & Hp)|(nxt & u & unw & Hp)]]]; rewrite Hp in Hs; cbn in Hs.
  - apply chain_head in Hs as (? & ? & ? & _ & _ & ? & _); [congruence|done].
  - apply chain_head in Hs as (? & ? & ? & _ & _ & ? & _); [congruence|done].
  - destruct Hs as (? & ? & _ & _ & ? & _). congruence.
  - destruct Hs as (? & ? & _ & _ & ? & _). congruence.
Qed.

(** The initialization ends. *)
Lemma init_step own s t poisoned target unwinding c : once_inv own s -> pcs s t = Init poisoned ->
  (target = COMPLETE /\ c = 1%nat) \/ (target = POISONED /\ c = 0%nat) ->
  once_inv own {| word := word s; nodes := nodes s; pcs := <[t := Swap target unwinding]> (pcs s);
    tokens := tokens s; completed := c |}.
Proof.
  intros Hinv Hp Hc.
  assert (state_of (word s) = RUNNING) as Hrun by (apply (inv_runner _ _ Hinv t); by rewrite Hp).
  pose proof (inv_local _ _ Hinv t) as Hl. rewrite Hp in Hl. cbn in Hl.
  apply move_pc; try done.
  - by rewrite (own_nil own s t Hinv) by by rewrite Hp.
  - by rewrite Hp.
  - by rewrite Hp.
  - intros u Hu. pose proof (inv_local _ _ Hinv u) as Hlu. rewrite Hl in Hlu.
    pose proof (inv_one_runner _ _ Hinv t u) as Hone. rewrite Hp in Hone.
    destruct (pcs s u); cbn in *; try done; try (by destruct Hu; rewrite Hone);
      try (destruct Hlu; split; [done|]; intros; exfalso; naive_solver); by destruct ran.
  - intros E. by rewrite E in Hrun.
  - intros [E|E]; by rewrite E in Hrun.
  - apply tokens_ok_move; [apply (inv_tokens _ _ Hinv)|done|congruence].
Qed.

(** Parking and unparking for other reasons *)
Lemma tokens_move own s tk : once_inv own s -> tokens_ok (nodes s) (pcs s) tk ->
  once_inv own {| word := word s; nodes := nodes s; pcs := pcs s; tokens := tk; completed := completed s |}.
Proof. intros [] Htk. by split. Qed.

Lemma tokens_ok_set N P tk u : tokens_ok N P tk -> tokens_ok N P (<[u := true]> tk).
Proof.
  intros Htk v f n Hv Hn Hs. destruct (decide (v = u)) as [->|]; [left; apply fn_lookup_insert|].
  rewrite fn_lookup_insert_ne by done. by eapply Htk.
Qed.

Lemma once_step_ok s t s' : once_ok s -> once_step s t s' -> once_ok s'.
Proof.
  intros [own Hinv] Hstep. pose proof (inv_local _ _ Hinv t) as Hl.
  inversion Hstep; subst; clear Hstep;
    try match goal with H : pcs s t = _ |- _ => rename H into Hp; rewrite Hp in Hl; cbn in Hl end.
  - exists own. apply plain_step; by rewrite ?Hp.
  - exists own. apply plain_step; by rewrite ?Hp.
  - exists own. apply plain_step; [done|by rewrite Hp|by destruct (_ =? _)|].
    destruct (Z.eqb_spec (word s) COMPLETE) as [E|E]; [|done]. by apply (inv_complete _ _ Hinv).
  - exists own. apply plain_step; [done|by rewrite Hp|done|]. by apply (local_word own s force).
  - exists own. apply plain_step; [done|by rewrite Hp|done|]. cbn. apply Hl.
    unfold dispatch in *. by destruct (Z.eqb_spec w COMPLETE); [|repeat case_match].
  - exists own. apply plain_step; by rewrite ?Hp.
  - exists own. by eapply run_step.
  - exists own. apply plain_step; [done|by rewrite Hp|done|]. by apply (local_word own s force).
  - exists own. apply plain_step; by rewrite ?Hp.
  - exfalso. destruct Hl as [[->|[->|[->|Hw]]] _]; try done; [by destruct force|].
    match goal with H : dispatch _ _ = ArmAssert |- _ => unfold dispatch in H; rewrite Hw in H end.
    by repeat case_match.
  - exists own. apply plain_step; by rewrite ?Hp.
  - eexists. by eapply enqueue_step.
  - exists own. apply plain_step; [done|by rewrite Hp|done|]. by apply (local_word own s force).
  - exists own. by eapply leave_step.
  - exists own. apply (waiting_step own s t (WaitPark force) (tokens s)); [done|by rewrite Hp|done|].
    intros u f m Hu Hm Hs. upd_cases; [congruence|].
    apply (drain_unpark_kept _ _ _ u t); [congruence|]. by eapply (inv_tokens _ _ Hinv).
  - exfalso. destruct (inv_node _ _ Hinv t) as [m Hm]; [by rewrite Hp|congruence].
  - exists own. apply (waiting_step own s t (WaitLoad force) (<[t := false]> (tokens s))); [done|by rewrite Hp|done|].
    intros u f m Hu Hm Hs. upd_cases; [done|done|].
    apply (drain_unpark_kept _ _ _ u t); [congruence|]. by eapply (inv_tokens _ _ Hinv).
  - exists own. apply (init_step own s t poisoned COMPLETE false (S (completed s))); [done..|]. left. by rewrite Hl.
  - exists own. apply (init_step own s t poisoned POISONED false (completed s)); [done..|]. by right.
  - exists own. apply (init_step own s t poisoned POISONED true (completed s)); [done..|]. by right.
  - eexists. by apply swap_step.
  - exists own. apply drain_pc_step; [done|by rewrite Hp|by destruct unwinding..| |].
    + pose proof (inv_segment _ _ Hinv (Some t)) as Hs. cbn in Hs. rewrite Hp in Hs. cbn in Hs.
      destruct (own (Some t)) as [|u l]; [by destruct unwinding|].
      destruct Hs as [E _]. pose proof (addr_range u). lia.
    + apply tokens_ok_move; [apply (inv_tokens _ _ Hinv)|by destruct unwinding|congruence].
  - exists own. apply drain_pc_step; [done|by rewrite Hp|done..| |].
    + pose proof (inv_segment _ _ Hinv (Some t)) as Hs. cbn in Hs. rewrite Hp in Hs.
      apply chain_head in Hs as (t0 & nxt & l' & El & -> & Hn & Hc); [|done].
      simplify_eq. cbn. by exists t0, l'.
    + apply tokens_ok_move; [apply (inv_tokens _ _ Hinv)|done|congruence].
  - exists own. by eapply take_step.
  - exfalso. pose proof (inv_segment _ _ Hinv (Some t)) as Hs. cbn in Hs. rewrite Hp in Hs.
    destruct Hs as (t0 & l' & _ & _ & Hn & _). simplify_eq.
  - eexists. by eapply signal_step.
  - exfalso. by eapply drain_not_gone.
  - exists own. by apply unpark_step.
Qed.

Lemma other_step_ok s t s' : once_ok s -> other_step s t s' -> once_ok s'.
Proof.
  intros [own Hinv] Hstep. exists own. inversion Hstep as [u|Hp]; subst; clear Hstep.
  - apply (tokens_move own s (<[u := true]> (tokens s))); [done|]. apply tokens_ok_set, (inv_tokens _ _ Hinv).
  - apply (tokens_move own s (<[t := false]> (tokens s))); [done|]. intros u f n Hu Hn Hs.
    destruct (decide (u = t)) as [->|]; [exfalso; naive_solver|].
    rewrite fn_lookup_insert_ne by done. by eapply (inv_tokens _ _ Hinv).
Qed.

Lemma once_reachable_ok s : once_reachable s -> once_ok s.
Proof.
  unfold once_reachable. intros Hr. remember once_new as s0 eqn:E.
  assert (once_ok s0) as H0 by (subst; apply once_new_ok). clear E.
  induction Hr as [|x y z Hs _ IH]; [done|]. apply IH.
  destruct Hs as [[t Hs]|[t Hs]]; [by eapply once_step_ok|by eapply other_step_ok].
Qed.

(** * The theorems *)

(** C31. No waiter is accessed after its thread has left [wait], no assertion of the
    code fails and no [unwrap] is of [None], in whatever order the threads run and
    whatever the initialization does. *)
Theorem once_safe s t : once_reachable s -> pcs s t <> Broken.
Proof.
  intros [own Hinv]%once_reachable_ok E. pose proof (inv_local _ _ Hinv t) as Hl. by rewrite E in Hl.
Qed.

(** C32. An initialization completes at most once and never runs in two threads; a
    call that returns without having run it comes after it completed; and once the
    word says complete, it says so for ever. *)
Theorem once_once s : once_reachable s ->
  (completed s <= 1)%nat /\
  (forall t u, runner (pcs s t) = true -> runner (pcs s u) = true -> t = u) /\
  (forall t, pcs s t = Returned false -> completed s = 1%nat) /\
  (word s = COMPLETE -> completed s = 1%nat /\ (forall t, runner (pcs s t) = false) /\
    forall s', any_moves s s' -> word s' = COMPLETE).
Proof.
  intros [own Hinv]%once_reachable_ok.
  assert (word s = COMPLETE -> forall t, runner (pcs s t) = false) as Hnr.
  { intros E t. destruct (runner (pcs s t)) eqn:Er; [|done]. apply (inv_runner _ _ Hinv) in Er. by rewrite E in Er. }
  split_and!.
  - destruct (inv_word _ _ Hinv) as [E|[E|[E|E]]].
    + rewrite (inv_incomplete _ _ Hinv); auto.
    + rewrite (inv_incomplete _ _ Hinv); auto.
    + by rewrite (inv_complete _ _ Hinv).
    + destruct (inv_running _ _ Hinv E) as [t Ht]. pose proof (inv_local _ _ Hinv t) as Hl.
      destruct (pcs s t); try done; cbn in Hl; [lia|destruct Hl as [[_ ?]|[_ ?]]; lia].
  - apply (inv_one_runner _ _ Hinv).
  - intros t E. pose proof (inv_local _ _ Hinv t) as Hl. by rewrite E in Hl.
  - intros E. split_and!; [by apply (inv_complete _ _ Hinv)|auto|]. intros s' [[t Hs]|[t Hs]]; [|by inversion Hs; subst].
    inversion Hs; subst; try done; try (specialize (Hnr E t)); cbn in *.
    + unfold dispatch in *. by destruct (Z.eqb_spec (word s) COMPLETE).
    + by rewrite E in *.
    + match goal with H : pcs s t = Swap _ _ |- _ => by rewrite H in Hnr end.
Qed.

(** One step of a thread that has waiter [t] in its chain: it signals [t], or has
    less to do before it does. *)
Definition work (own : option tid -> list tid) (s : once) (d : tid) : nat :=
  4 * length (own (Some d)) +
  match pcs s d with DrainUnpark _ _ _ => 3 | Drain _ _ => 2 | DrainThread _ _ _ => 1 | _ => 0 end.

Definition is_signaled (s : once) (t : tid) : Prop := exists n, nodes s !! addr t = Some n /\ signaled n = true.

Lemma drain_progress own s d t : once_inv own s -> t ∈ own (Some d) ->
  exists s' own', once_step s d s' /\ once_inv own' s' /\ pcs s' t = pcs s t /\
    (is_signaled s' t \/ (t ∈ own' (Some d) /\ (work own' s' d < work own s d)%nat)).
Proof.
  intros Hinv Ht. pose proof (inv_segment _ _ Hinv (Some d)) as Hs. cbn in Hs.
  pose proof (inv_owned _ _ Hinv _ _ Ht) as Hwt.
  assert (draining (pcs s d) = true -> t <> d) as Hne by (intros Hd ->; by destruct (pcs s d)).
  unfold work.
  destruct (pcs s d) as [| | | | | | | | |q unw|q nxt unw|q nxt u unw|nxt u unw| | |] eqn:Hp;
    cbn in Hs; try (rewrite Hs in Ht; by apply elem_of_nil in Ht); specialize (Hne eq_refl).
  - assert (q <> 0) as Hq.
    { intros ->. destruct (own (Some d)) as [|v l]; [by apply elem_of_nil in Ht|].
      destruct Hs as [E _]. pose proof (addr_range v). lia. }
    destruct (chain_head _ _ _ Hs Hq) as (t0 & nxt & l' & El & -> & Hn & Hc).
    exists (set_pc d (DrainThread (addr t0) nxt unw) s), own. split_and!.
    + by eapply (drain_next s d _ (fresh t0 nxt)).
    + apply drain_pc_step; [done|by rewrite Hp|done..|by exists t0, l'|].
      apply tokens_ok_move; [apply (inv_tokens _ _ Hinv)|done|congruence].
    + cbn. by rewrite fn_lookup_insert_ne.
    + right. split; [done|]. cbn. rewrite fn_lookup_insert. lia.
  - destruct Hs as (t0 & l' & El & -> & Hn & Hc).
    eexists _, own. split_and!.
    + by eapply drain_take.
    + by eapply take_step.
    + cbn. by rewrite fn_lookup_insert_ne.
    + right. split; [done|]. cbn. rewrite fn_lookup_insert. lia.
  - destruct Hs as (l' & nxt' & El & -> & Hn & Hc).
    eexists _, _. split_and!.
    + by eapply drain_signal.
    + by eapply signal_step.
    + cbn. by rewrite fn_lookup_insert_ne.
    + rewrite El in Ht. apply elem_of_cons in Ht as [->|Ht].
      * left. eexists. cbn. by rewrite lookup_insert_eq.
      * right. rewrite !fn_lookup_insert, El. split; [done|]. cbn. rewrite fn_lookup_insert. lia.
  - eexists _, own. split_and!.
    + by eapply drain_unpark.
    + by apply unpark_step.
    + cbn. by rewrite fn_lookup_insert_ne.
    + right. split; [done|]. cbn. rewrite fn_lookup_insert. lia.
Qed.

(** The threads that drain a queue signal every waiter in it. *)
Lemma drain_signals own s d t : once_inv own s -> t ∈ own (Some d) ->
  exists s', rtc once_moves s s' /\ once_ok s' /\ pcs s' t = pcs s t /\ is_signaled s' t.
Proof.
  remember (work own s d) as k eqn:Ek. revert own s Ek.
  induction (lt_wf k) as [k _ IH]. intros own s -> Hinv Ht.
  destruct (drain_progress own s d t Hinv Ht) as (s1 & own1 & Hs & Hinv1 & Hp & [Hsig|[Ht1 Hlt]]).
  - exists s1. split_and!; [by apply rtc_once; exists d|by exists own1|done|done].
  - destruct (IH _ Hlt own1 s1 eq_refl Hinv1 Ht1) as (s2 & Hr & Hok & Hp2 & Hsig).
    exists s2. split_and!; [by eapply rtc_l; [exists d|]|done|congruence|done].
Qed.

(** A waiting thread is signaled, once the running initialization ends. *)
Lemma waiter_gets_signaled s t : once_ok s -> waiting (pcs s t) = true ->
  exists s', rtc once_moves s s' /\ once_ok s' /\ pcs s' t = pcs s t /\ is_signaled s' t.
Proof.
  intros [own Hinv] Hw. destruct (inv_node _ _ Hinv t Hw) as [n Hn].
  destruct (signaled n) eqn:Es; [exists s; split_and!; [apply rtc_refl|by exists own|done|by exists n]|].
  destruct (inv_cover _ _ Hinv t n Hw Hn Es) as [[d|] Ht]; [by eapply drain_signals|].
  assert (state_of (word s) = RUNNING) as Hrun.
  { pose proof (inv_segment _ _ Hinv None) as Hc. cbn in Hc. unfold word_queue in Hc.
    destruct (Z.eqb_spec (state_of (word s)) RUNNING); [done|].
    destruct (own None) as [|v l]; [by apply elem_of_nil in Ht|].
    destruct Hc as [E _]. pose proof (addr_range v). lia. }
  destruct (inv_running _ _ Hinv Hrun) as [r Hr].
  assert (t <> r) as Hne by (intros ->; by destruct (pcs s r)).
  (** the initialization ends *)
  assert (exists s1 target unw, rtc once_moves s s1 /\ once_inv own s1 /\ pcs s1 r = Swap target unw /\
    pcs s1 t = pcs s t) as (s1 & target & unw & Hs1 & Hinv1 & Hp1 & Ht1).
  { destruct (pcs s r) as [| | | | | | |poisoned|target unw| | | | | | |] eqn:Hp; try done.
    - exists (set_pc r (Swap POISONED false) s), POISONED, false. split_and!.
      + apply rtc_once. exists r. by eapply init_poison.
      + apply (init_step own s r poisoned POISONED false (completed s)); [done..|]. right. split; [done|].
        pose proof (inv_local _ _ Hinv r) as Hl. by rewrite Hp in Hl.
      + cbn. apply fn_lookup_insert.
      + cbn. by rewrite fn_lookup_insert_ne.
    - exists s, target, unw. split_and!; [apply rtc_refl|done..]. }
  pose proof (swap_step own s1 r target unw Hinv1 Hp1) as Hinv2.
  edestruct (drain_signals _ _ r t Hinv2) as (s3 & Hs3 & Hok & Hp3 & Hsig).
  { by rewrite fn_lookup_insert. }
  exists s3. split_and!; [|done| |done].
  - eapply rtc_trans; [exact Hs1|]. eapply rtc_l; [exists r; by eapply drop_swap|exact Hs3].
  - rewrite Hp3. cbn. by rewrite fn_lookup_insert_ne.
Qed.

(** C33. No waiter is forgotten: from every reachable state, a thread that waits for
    an initialization leaves the wait by steps of the code alone, once the
    initialization that it waits for ends. *)
Theorem once_waiter_leaves s t : once_reachable s -> waiting (pcs s t) = true ->
  exists s' force, rtc once_moves s s' /\ pcs s' t = Load force /\ nodes s' !! addr t = None.
Proof.
  intros Hok%once_reachable_ok Hw.
  destruct (waiter_gets_signaled s t Hok Hw) as (s1 & Hs1 & [own Hinv] & Hp & n & Hn & Hsig).
  rewrite <- Hp in Hw.
  (** from the load of [signaled] *)
  assert (forall s2 force, nodes s2 = nodes s1 -> pcs s2 t = WaitLoad force -> exists s' f,
    rtc once_moves s2 s' /\ pcs s' t = Load f /\ nodes s' !! addr t = None) as Hload.
  { intros s2 force HN Hp2. exists (free_node (addr t) (set_pc t (Load force) s2)), force. split_and!.
    - apply rtc_once. exists t. eapply wait_signaled; [done| |done]. by rewrite HN.
    - cbn. apply fn_lookup_insert.
    - cbn. apply lookup_delete_eq. }
  (** from [park], with the token there *)
  assert (forall s2 force, nodes s2 = nodes s1 -> pcs s2 t = WaitPark force -> tokens s2 t = true -> exists s' f,
    rtc once_moves s2 s' /\ pcs s' t = Load f /\ nodes s' !! addr t = None) as Hpark.
  { intros s2 force HN Hp2 Htk.
    destruct (Hload (set_token t false (set_pc t (WaitLoad force) s2)) force) as (s' & f & Hr & H'); [done|by cbn; rewrite fn_lookup_insert|].
    exists s', f. split; [|done]. eapply rtc_l; [exists t; by eapply wait_park|done]. }
  destruct (pcs s1 t) as [| | | | |force|force| | | | | | | | |] eqn:Hp1; try done.
  - destruct (Hload s1 force eq_refl Hp1) as (s' & f & Hr & H'). exists s', f. split; [by eapply rtc_trans|done].
  - destruct (inv_tokens _ _ Hinv t force n Hp1 Hn Hsig) as [Htk|(d & nxt & unw & Hd)].
    + destruct (Hpark s1 force eq_refl Hp1 Htk) as (s' & f & Hr & H'). exists s', f. split; [by eapply rtc_trans|done].
    + destruct (Hpark (set_token t true (set_pc d (Drain nxt unw) s1)) force) as (s' & f & Hr & H').
      * done.
      * cbn. rewrite fn_lookup_insert_ne; [done|congruence].
      * cbn. apply fn_lookup_insert.
      * exists s', f. split; [|done]. eapply rtc_trans; [exact Hs1|].
        eapply rtc_l; [exists d; by eapply drain_unpark|done].
Qed.
End proofs.

(** * Two threads *)
Definition two_addr (b : bool) : Z := if b then 4096 else 8192.

Definition two_threads : Threads.
Proof.
  refine {| tid := bool; addr := two_addr |}.
  - intros []; done.
  - intros []; done.
  - intros [] []; done.
Defined.

Section witness.
#[local] Existing Instance two_threads.

Definition T1 : tid := true.
Definition T2 : tid := false.

(** Thread [true] runs the initialization; thread [false] comes and waits. *)
Definition w1 : once := set_pc T1 (Start false) once_new.
Definition w2 : once := set_pc T1 (Load false) w1.
Definition w3 : once := set_pc T1 (Dispatch false INCOMPLETE) w2.
Definition w4 : once := set_word RUNNING (set_pc T1 (Init false) w3).
Definition w5 : once := set_pc T2 (Start false) w4.
Definition w6 : once := set_pc T2 (Load false) w5.
Definition w7 : once := set_pc T2 (Dispatch false RUNNING) w6.
Definition w8 : once := set_pc T2 (WaitTry false RUNNING) w7.
Definition w9 : once :=
  set_word (Z.lor (addr T2) RUNNING)
    (set_node (addr T2) (waiter_of T2 RUNNING) (set_pc T2 (WaitLoad false) w8)).

Lemma w9_reachable : once_reachable w9.
Proof.
  unfold once_reachable.
  eapply rtc_l; [left; exists T1; by apply (once_call once_new T1 false)|].
  eapply rtc_l; [left; exists T1; by apply (once_start w1 T1 false)|].
  eapply rtc_l; [left; exists T1; by apply (once_load w2 T1 false)|].
  eapply rtc_l; [left; exists T1; by apply (once_run w3 T1 false INCOMPLETE false)|].
  eapply rtc_l; [left; exists T2; by apply (once_call w4 T2 false)|].
  eapply rtc_l; [left; exists T2; by apply (once_start w5 T2 false)|].
  eapply rtc_l; [left; exists T2; by apply (once_load w6 T2 false)|].
  eapply rtc_l; [left; exists T2; by apply (once_wait w7 T2 false RUNNING)|].
  eapply rtc_l; [left; exists T2; by apply (wait_enqueue w8 T2 false RUNNING)|].
  apply rtc_refl.
Defined.

Lemma once_safe_witness : once_reachable w9 /\ pcs w9 T2 <> Broken.
Proof. split; [apply w9_reachable|]. apply (once_safe w9 T2), w9_reachable. Defined.

Lemma once_once_witness : once_reachable w9 /\ (completed w9 <= 1)%nat.
Proof. split; [apply w9_reachable|]. apply (once_once w9), w9_reachable. Defined.

Lemma once_waiter_leaves_witness :
  waiting (pcs w9 T2) = true /\
  exists s' force, rtc once_moves w9 s' /\ pcs s' T2 = Load force /\ nodes s' !! addr T2 = None.
Proof. split; [reflexivity|]. apply (once_waiter_leaves w9 T2); [apply w9_reachable|reflexivity]. Defined.
End witness.
