(* ===== verification/Barrier.v ===== *)
(** Barrier: sgx_tstd/src/sync/barrier.rs.

    The state of a barrier is only accessed under its mutex, and [cvar.wait] gives
    the mutex up and sleeps in one step, so a step is a section between two waits;
    [wait_section] is the section that enters, [wake_section] the body of the loop
    after a wait.  A sleep may end without a notification.  For the theorem each
    thread that waits remembers the number of generations before its own, and the
    machine counts arrivals and leaders. *)
From Stdlib Require Import ZArith Lia.
From stdpp Require Import base numbers list option tactics functions relations.
From S2P Require Import Prelude.

Record BarrierState := { count : Z; generation_id : Z }.

Definition Barrier_new : BarrierState := {| count := 0; generation_id := 0 |}.

(** [wait] up to its first [cvar.wait] or its end: [None] is the leader, who has
    notified all; [Some local_gen] waits. *)
Definition wait_section (num_threads : Z) (lock : BarrierState) : option Z * BarrierState :=
  let local_gen := generation_id lock in
  let lock := {| count := wrap 64 (count lock + 1); generation_id := generation_id lock |} in
  if count lock <? num_threads then (Some local_gen, lock)
  else (None, {| count := 0; generation_id := wrap 64 (generation_id lock + 1) |}).

(** The loop's condition after a wait: [true] waits again. *)
Definition wake_section (local_gen : Z) (lock : BarrierState) : bool := local_gen =? generation_id lock.

(** A thread: asleep in [cvar.wait], or notified and about to look again; [before]
    is the number of generations that were complete when it came. *)
Inductive barrier_pc :=
| BIdle
| BAsleep (local_gen : Z) (before : Z)
| BAwake (local_gen : Z) (before : Z)
| BLeft (leader : bool) (before : Z).

Record barrier := {
  b_state : BarrierState;
  b_pcs : nat -> barrier_pc;
  arrived : Z;
  leaders : Z
}.

Definition barrier_start : barrier :=
  {| b_state := Barrier_new; b_pcs := fun _ => BIdle; arrived := 0; leaders := 0 |}.

(** [notify_all] *)
Definition wake_all (P : nat -> barrier_pc) : nat -> barrier_pc := fun t =>
  match P t with BAsleep g b => BAwake g b | p => p end.

Inductive barrier_step (n : Z) (s : barrier) : barrier -> Prop :=
| barrier_wait t local_gen lock : b_pcs s t = BIdle ->
    wait_section n (b_state s) = (Some local_gen, lock) ->
    barrier_step n s {| b_state := lock; b_pcs := <[t := BAsleep local_gen (leaders s)]> (b_pcs s);
                        arrived := arrived s + 1; leaders := leaders s |}
| barrier_lead t lock : b_pcs s t = BIdle ->
    wait_section n (b_state s) = (None, lock) ->
    barrier_step n s {| b_state := lock; b_pcs := <[t := BLeft true (leaders s)]> (wake_all (b_pcs s));
                        arrived := arrived s + 1; leaders := leaders s + 1 |}
| barrier_spurious t g b : b_pcs s t = BAsleep g b ->
    barrier_step n s {| b_state := b_state s; b_pcs := <[t := BAwake g b]> (b_pcs s);
                        arrived := arrived s; leaders := leaders s |}
| barrier_look t g b : b_pcs s t = BAwake g b ->
    barrier_step n s {| b_state := b_state s;
      b_pcs := <[t := if wake_section g (b_state s) then BAsleep g b else BLeft false b]> (b_pcs s);
      arrived := arrived s; leaders := leaders s |}
| barrier_again t l b : b_pcs s t = BLeft l b ->
    barrier_step n s {| b_state := b_state s; b_pcs := <[t := BIdle]> (b_pcs s);
                        arrived := arrived s; leaders := leaders s |}.

Definition barrier_reachable (n : Z) : barrier -> Prop := rtc (barrier_step n) barrier_start.

(** * The invariant *)

(** How many threads a generation has: a barrier for none is one for one. *)
Definition party (n : Z) : Z := Z.max n 1.

Definition barrier_pc_ok (s : barrier) (p : barrier_pc) : Prop :=
  match p with
  | BIdle => True
  | BAsleep g b => (0 <= b <= leaders s /\ g = wrap 64 b) /\ g = generation_id (b_state s)
  | BAwake g b => 0 <= b <= leaders s /\ g = wrap 64 b
  | BLeft _ b => 0 <= b < leaders s
  end.

Record barrier_inv (n : Z) (s : barrier) : Prop := {
  inv_arrived : arrived s = party n * leaders s + count (b_state s);
  inv_count : 0 <= count (b_state s) < party n;
  inv_leaders : 0 <= leaders s;
  inv_generation : generation_id (b_state s) = wrap 64 (leaders s);
  inv_pcs t : barrier_pc_ok s (b_pcs s t)
}.

Section proofs.
Context (n : Z) (Hn : 0 <= n < 2 ^ 64).

Lemma barrier_start_inv : barrier_inv n barrier_start.
Proof. split; cbn; unfold party; try done; lia. Qed.

(** What [wait_section] does under the invariant *)
Lemma wait_section_spec s : barrier_inv n s ->
  wait_section n (b_state s) =
    (if count (b_state s) + 1 <? n then
       (Some (generation_id (b_state s)), {| count := count (b_state s) + 1; generation_id := generation_id (b_state s) |})
     else (None, {| count := 0; generation_id := wrap 64 (generation_id (b_state s) + 1) |})) /\
  (count (b_state s) + 1 <? n = false -> count (b_state s) + 1 = party n).
Proof.
  intros [_ Hc _ _ _]. unfold wait_section, party in *. cbn. rewrite (wrap_small 64) by lia.
  split; [by destruct (_ <? _)|]. intros E%Z.ltb_ge. lia.
Qed.

Lemma barrier_pc_upd s t p : (forall u, barrier_pc_ok s (b_pcs s u)) -> barrier_pc_ok s p ->
  forall u, barrier_pc_ok s (<[t := p]> (b_pcs s) u).
Proof.
  intros Hp Hok u. destruct (decide (u = t)) as [->|]; [by rewrite fn_lookup_insert|].
  by rewrite fn_lookup_insert_ne.
Qed.

(** The leader wakes everybody: what was true of a sleeper is true of it awake. *)
Lemma wake_all_ok s s' u : leaders s' = leaders s + 1 -> barrier_pc_ok s (b_pcs s u) ->
  barrier_pc_ok s' (wake_all (b_pcs s) u).
Proof.
  intros Hl. unfold wake_all. destruct (b_pcs s u); cbn; [done|..]; rewrite ?Hl; intuition lia.
Qed.

Lemma barrier_step_inv s s' : barrier_inv n s -> barrier_step n s s' -> barrier_inv n s'.
Proof.
  intros Hinv Hstep. pose proof (wait_section_spec s Hinv) as [Hw Hlast].
  pose proof Hinv as [Ha Hc Hl Hg Hp].
  inversion Hstep as [t g lock Ht E|t lock Ht E|t g b Ht|t g b Ht|t l b Ht]; subst; clear Hstep.
  - rewrite Hw in E. destruct (count (b_state s) + 1 <? n) eqn:El; [|done]. simplify_eq.
    apply Z.ltb_lt in El. split; cbn; try done; unfold party in *; try lia.
    apply (barrier_pc_upd s t (BAsleep _ _)); [done|]. cbn. split; [split; [lia|done]|done].
  - rewrite Hw in E. destruct (count (b_state s) + 1 <? n) eqn:El; [done|]. simplify_eq.
    specialize (Hlast eq_refl). split; cbn; try (unfold party in *; lia).
    + rewrite Hg. unfold wrap. by rewrite Zplus_mod_idemp_l.
    + intros u. destruct (decide (u = t)) as [->|]; [rewrite fn_lookup_insert; cbn; lia|].
      rewrite fn_lookup_insert_ne by done. by apply wake_all_ok.
  - split; cbn; try done. specialize (Hp t) as Hpt. rewrite Ht in Hpt. destruct Hpt as [Hpt _].
    by apply (barrier_pc_upd s t (BAwake _ _)).
  - split; cbn; try done. specialize (Hp t) as Hpt. rewrite Ht in Hpt. destruct Hpt as [Hb ->].
    apply (barrier_pc_upd s t (if wake_section _ _ then _ else _)); [done|]. unfold wake_section. rewrite Hg.
    destruct (Z.eqb_spec (wrap 64 b) (wrap 64 (leaders s))) as [E|E]; cbn.
    + split; [done|]. by rewrite Hg.
    + assert (b <> leaders s) by congruence. lia.
  - split; cbn; try done. by apply (barrier_pc_upd s t BIdle).
Qed.

Lemma barrier_reachable_inv s : barrier_reachable n s -> barrier_inv n s.
Proof.
  apply (rtc_ind_r (R := barrier_step n) (barrier_inv n) barrier_start); [apply barrier_start_inv|].
  intros s1 s2 _ Hs IH. by eapply barrier_step_inv.
Qed.
End proofs.

(** A barrier for [n] threads: there is one leader for every [n] arrivals (every
    single one for [n = 0]); a thread that came after [b] complete generations
    leaves only when [b + 1] full parties have arrived; and as long as the counter
    of generations has not wrapped, the threads that sleep are those of the
    generation that is not complete, so that the rest of a complete generation is
    awake and leaves when it next looks. *)
Theorem barrier_rendezvous n s : 0 <= n < 2 ^ 64 -> barrier_reachable n s ->
  (leaders s = arrived s / Z.max n 1) /\
  (forall t leader b, b_pcs s t = BLeft leader b -> Z.max n 1 * (b + 1) <= arrived s) /\
  (leaders s < 2 ^ 64 ->
     (forall t g b, b_pcs s t = BAsleep g b -> b = leaders s) /\
     (forall t g b, b_pcs s t = BAwake g b -> b < leaders s ->
        exists s', barrier_step n s s' /\ b_pcs s' t = BLeft false b)).
Proof.
  intros Hn Hr. destruct (barrier_reachable_inv n Hn s Hr) as [Ha Hc Hl Hg Hp]. fold (party n).
  assert (0 < party n) by (unfold party; lia).
  split; [apply (Z.div_unique _ _ _ (count (b_state s))); lia|]. split.
  { intros t l b Ht. specialize (Hp t). rewrite Ht in Hp. cbn in Hp. nia. }
  intros Hbig. split.
  - intros t g b Ht. specialize (Hp t). rewrite Ht in Hp. destruct Hp as [[Hb Eg] E].
    rewrite Eg, Hg, !wrap_small in E by lia. done.
  - intros t g b Ht Hb. specialize (Hp t). rewrite Ht in Hp. destruct Hp as [Hb' ->].
    eexists. split; [by eapply barrier_look|]. cbn. rewrite fn_lookup_insert.
    unfold wake_section. rewrite Hg, !wrap_small by lia. by rewrite (proj2 (Z.eqb_neq b (leaders s))) by lia.
Qed.

(** Two threads meet: the first sleeps, the second leads. *)
Definition bw1 : barrier :=
  {| b_state := {| count := 1; generation_id := 0 |}; b_pcs := <[0%nat := BAsleep 0 0]> (fun _ => BIdle);
     arrived := 0 + 1; leaders := 0 |}.
Definition bw2 : barrier :=
  {| b_state := {| count := 0; generation_id := 1 |};
     b_pcs := <[1%nat := BLeft true 0]> (wake_all (<[0%nat := BAsleep 0 0]> (fun _ => BIdle)));
     arrived := 0 + 1 + 1; leaders := 0 + 1 |}.
Lemma bw2_reachable : barrier_reachable 2 bw2.
Proof.
  apply (rtc_l _ _ bw1); [by apply (barrier_wait 2 barrier_start 0 0 {| count := 1; generation_id := 0 |})|].
  apply rtc_once. by apply (barrier_lead 2 bw1 1 {| count := 0; generation_id := 1 |}).
Qed.

Lemma barrier_rendezvous_witness :
  (0 <= 2 < 2 ^ 64 /\ barrier_reachable 2 bw2) /\ leaders bw2 = arrived bw2 / Z.max 2 1.
Proof.
  assert (0 <= 2 < 2 ^ 64) as H by lia. split; [exact (conj H bw2_reachable)|].
  apply (barrier_rendezvous 2 bw2 H bw2_reachable).
Defined.
