(* ===== verification/Time.v ===== *)
(** Time: sgx_tstd/src/sys/time.rs and src/time.rs.

    Points in time are seconds and nanoseconds since an origin, as the host tells
    them; durations are those of [core].  The arithmetic of [Timespec] is written
    with the widths of the source, and what it means is in nanoseconds:
    [time_difference_exact], [time_add_sub_exact].  [now] asks the untrusted host,
    whose clock is the parameter [Clock]. *)
From Stdlib Require Import ZArith Lia.
From stdpp Require Import base numbers list option tactics.
From S2P Require Import Prelude.

Definition NSEC_PER_SEC : Z := 1000000000.

(** [libc::timespec]: two [i64] *)
Record Timespec := { tv_sec : Z; tv_nsec : Z }.

(** [core::time::Duration]: [u64] seconds, [u32] nanoseconds *)
Record Duration := { secs : Z; nanos : Z }.

#[export] Instance timespec_eq_dec : EqDecision Timespec.
Proof. solve_decision. Defined.
#[export] Instance duration_eq_dec : EqDecision Duration.
Proof. solve_decision. Defined.

Definition i64_max : Z := 2 ^ 63 - 1.
Definition in_i64 (z : Z) : bool := (- 2 ^ 63 <=? z) && (z <=? i64_max).
(** [checked_add], [checked_sub] of [i64] *)
Definition checked_i64 (z : Z) : option Z := if in_i64 z then Some z else None.
(** [u64] to [i64] by [try_into] *)
Definition try_into_i64 (z : Z) : option Z := if z <=? i64_max then Some z else None.

(** [Duration::new] panics when the seconds overflow. *)
Definition Duration_new (s n : Z) : panics Duration :=
  if s + n / NSEC_PER_SEC <=? u64_max
  then Done {| secs := s + n / NSEC_PER_SEC; nanos := n `mod` NSEC_PER_SEC |} else Panic.
Definition Duration_zero : Duration := {| secs := 0; nanos := 0 |}.

Definition Timespec_zero : Timespec := {| tv_sec := 0; tv_nsec := 0 |}.

(** [Ord]: the pairs, first component first *)
Definition cmp (a b : Timespec) : comparison :=
  match tv_sec a ?= tv_sec b with Eq => tv_nsec a ?= tv_nsec b | c => c end.
Definition timespec_eq (a b : Timespec) : bool := (tv_sec a =? tv_sec b) && (tv_nsec a =? tv_nsec b).
Definition ge (a b : Timespec) : bool := match cmp a b with Lt => false | _ => true end.

(** [sub_timespec] when [self >= other] *)
Definition sub_ordered (self other : Timespec) : panics Duration :=
  let '(s, n) :=
    if tv_nsec self >=? tv_nsec other
    then (wrap 64 (swrap 64 (tv_sec self - tv_sec other)), wrap 32 (swrap 64 (tv_nsec self - tv_nsec other)))
    else (wrap 64 (swrap 64 (swrap 64 (tv_sec self - tv_sec other) - 1)),
          wrap 32 (wrap 32 (wrap 32 (tv_nsec self) + NSEC_PER_SEC) - wrap 32 (tv_nsec other))) in
  Duration_new s n.

(** The other case calls itself with the arguments exchanged, once. *)
Definition sub_timespec (self other : Timespec) : panics (result Duration Duration) :=
  if ge self other then panics_bind (sub_ordered self other) (fun d => Done (Ok d))
  else panics_bind (sub_ordered other self) (fun d => Done (Err d)).

Definition checked_add_duration (self : Timespec) (other : Duration) : option Timespec :=
  s ← try_into_i64 (secs other);
  s ← checked_i64 (tv_sec self + s);
  let nsec := wrap 32 (nanos other + wrap 32 (tv_nsec self)) in
  if nsec >=? NSEC_PER_SEC
  then (s ← checked_i64 (s + 1); Some {| tv_sec := s; tv_nsec := nsec - NSEC_PER_SEC |})
  else Some {| tv_sec := s; tv_nsec := nsec |}.

Definition checked_sub_duration (self : Timespec) (other : Duration) : option Timespec :=
  s ← try_into_i64 (secs other);
  s ← checked_i64 (tv_sec self - s);
  let nsec := swrap 32 (swrap 32 (tv_nsec self) - swrap 32 (nanos other)) in
  if nsec <? 0
  then (s ← checked_i64 (s - 1); Some {| tv_sec := s; tv_nsec := swrap 32 (nsec + NSEC_PER_SEC) |})
  else Some {| tv_sec := s; tv_nsec := nsec |}.

(** [Instant] and [SystemTime] are a [Timespec] each. *)
Definition ok {E A} (r : result E A) : option A := match r with Ok a => Some a | Err _ => None end.

Module Instant.
Definition checked_sub_instant (self other : Timespec) : panics (option Duration) :=
  panics_bind (sub_timespec self other) (fun r => Done (ok r)).
Definition checked_duration_since : Timespec -> Timespec -> panics (option Duration) := checked_sub_instant.
(** [unwrap_or_default] *)
Definition duration_since (self earlier : Timespec) : panics Duration :=
  panics_bind (checked_duration_since self earlier) (fun o => Done (default Duration_zero o)).
Definition saturating_duration_since : Timespec -> Timespec -> panics Duration := duration_since.
Definition checked_add : Timespec -> Duration -> option Timespec := checked_add_duration.
Definition checked_sub : Timespec -> Duration -> option Timespec := checked_sub_duration.
(** [expect] *)
Definition add (self : Timespec) (other : Duration) : panics Timespec :=
  match checked_add self other with Some t => Done t | None => Panic end.
Definition sub (self : Timespec) (other : Duration) : panics Timespec :=
  match checked_sub self other with Some t => Done t | None => Panic end.
Definition sub_instant : Timespec -> Timespec -> panics Duration := duration_since.
Definition get_tup (self : Timespec) : Z * Z := (tv_sec self, tv_nsec self).
End Instant.

Module SystemTime.
Definition UNIX_EPOCH : Timespec := Timespec_zero.
Definition duration_since (self earlier : Timespec) : panics (result Duration Duration) := sub_timespec self earlier.
Definition checked_add : Timespec -> Duration -> option Timespec := checked_add_duration.
Definition checked_sub : Timespec -> Duration -> option Timespec := checked_sub_duration.
Definition add : Timespec -> Duration -> panics Timespec := Instant.add.
Definition sub : Timespec -> Duration -> panics Timespec := Instant.sub.
End SystemTime.

(** The host's clock: an error, or the structure that it filled *)
Inductive clockid := CLOCK_REALTIME | CLOCK_MONOTONIC.
Class Clock (W : Type) := { clock_gettime : clockid -> W -> option Timespec * W }.

(** [cvt(...).unwrap()] *)
Definition now `{Clock W} (clock : clockid) (w : W) : panics (Timespec * W) :=
  match clock_gettime clock w with (Some t, w') => Done (t, w') | (None, _) => Panic end.

(** [Instant::elapsed], [SystemTime::elapsed] *)
Definition elapsed `{Clock W} (self : Timespec) (w : W) : panics (Duration * W) :=
  panics_bind (now CLOCK_MONOTONIC w) (fun '(t, w') =>
    panics_bind (Instant.sub_instant t self) (fun d => Done (d, w'))).
Definition system_elapsed `{Clock W} (self : Timespec) (w : W) : panics (result Duration Duration * W) :=
  panics_bind (now CLOCK_REALTIME w) (fun '(t, w') =>
    panics_bind (SystemTime.duration_since t self) (fun d => Done (d, w'))).

(** * Meaning *)

(** In nanoseconds *)
Definition at_ns (t : Timespec) : Z := tv_sec t * NSEC_PER_SEC + tv_nsec t.
Definition for_ns (d : Duration) : Z := secs d * NSEC_PER_SEC + nanos d.

Definition ts_wf (t : Timespec) : Prop := - 2 ^ 63 <= tv_sec t < 2 ^ 63 /\ 0 <= tv_nsec t < NSEC_PER_SEC.
Definition dur_wf (d : Duration) : Prop := 0 <= secs d < 2 ^ 64 /\ 0 <= nanos d < NSEC_PER_SEC.

Lemma at_ns_inj a b : ts_wf a -> ts_wf b -> at_ns a = at_ns b -> a = b.
Proof. destruct a, b. unfold ts_wf, at_ns, NSEC_PER_SEC. cbn. intros. f_equal; lia. Qed.

Lemma for_ns_inj a b : dur_wf a -> dur_wf b -> for_ns a = for_ns b -> a = b.
Proof. destruct a, b. unfold dur_wf, for_ns, NSEC_PER_SEC. cbn. intros. f_equal; lia. Qed.

Lemma cmp_ns a b : ts_wf a -> ts_wf b -> cmp a b = (at_ns a ?= at_ns b).
Proof.
  unfold ts_wf, at_ns, cmp, NSEC_PER_SEC. intros Ha Hb.
  destruct (Z.compare_spec (tv_sec a) (tv_sec b)) as [E|E|E].
  - rewrite E. symmetry. apply Z.add_compare_mono_l.
  - symmetry. apply Z.compare_lt_iff. lia.
  - symmetry. apply Z.compare_gt_iff. lia.
Qed.

Lemma ge_ns a b : ts_wf a -> ts_wf b -> ge a b = (at_ns b <=? at_ns a).
Proof.
  intros Ha Hb. unfold ge. rewrite cmp_ns by done.
  destruct (Z.compare_spec (at_ns a) (at_ns b)), (Z.leb_spec (at_ns b) (at_ns a)); done || lia.
Qed.

Lemma wrap_swrap64 z : wrap 64 (swrap 64 z) = wrap 64 z.
Proof. unfold wrap, swrap. change (64 - 1) with 63. rewrite Zminus_mod_idemp_l. f_equal. lia. Qed.

Lemma sub_ordered_exact a b : ts_wf a -> ts_wf b -> at_ns b <= at_ns a ->
  exists d, sub_ordered a b = Done d /\ dur_wf d /\ for_ns d = at_ns a - at_ns b.
Proof.
  unfold ts_wf, at_ns, sub_ordered, NSEC_PER_SEC. intros Ha Hb Hle.
  destruct (Z.geb_spec (tv_nsec a) (tv_nsec b)) as [Hg|Hg].
  - rewrite wrap_swrap64, (wrap_small 64), (swrap_small 64), (wrap_small 32) by lia.
    unfold Duration_new, NSEC_PER_SEC. rewrite Z.div_small, Z.mod_small, Z.add_0_r by lia.
    destruct (Z.leb_spec (tv_sec a - tv_sec b) u64_max) as [_|Hov]; [|unfold u64_max in Hov; lia].
    eexists. split; [done|]. unfold dur_wf, for_ns, NSEC_PER_SEC. cbn. lia.
  - rewrite wrap_swrap64. replace (wrap 64 (swrap 64 (tv_sec a - tv_sec b) - 1)) with (tv_sec a - tv_sec b - 1).
    2:{ unfold wrap, swrap. change (64 - 1) with 63.
        replace ((tv_sec a - tv_sec b + 2 ^ 63) `mod` 2 ^ 64 - 2 ^ 63 - 1)
          with ((tv_sec a - tv_sec b + 2 ^ 63) `mod` 2 ^ 64 - (2 ^ 63 + 1)) by lia.
        rewrite Zminus_mod_idemp_l, Z.mod_small; lia. }
    rewrite (wrap_small 32 (tv_nsec a)), (wrap_small 32 (tv_nsec b)), (wrap_small 32 (tv_nsec a + _)), (wrap_small 32) by lia.
    unfold Duration_new, NSEC_PER_SEC.
    rewrite Z.div_small, Z.mod_small, Z.add_0_r by lia.
    destruct (Z.leb_spec (tv_sec a - tv_sec b - 1) u64_max) as [_|Hov]; [|unfold u64_max in Hov; lia].
    eexists. split; [done|]. unfold dur_wf, for_ns, NSEC_PER_SEC. cbn. lia.
Qed.

(** The difference of two points in time is exact, whichever is later, over the whole
    range of the clock: nothing overflows and nothing panics. *)
Theorem time_difference_exact a b : ts_wf a -> ts_wf b ->
  exists d, dur_wf d /\ for_ns d = Z.abs (at_ns a - at_ns b) /\
    SystemTime.duration_since a b = Done (if at_ns b <=? at_ns a then Ok d else Err d) /\
    Instant.duration_since a b = Done (if at_ns b <=? at_ns a then d else Duration_zero).
Proof.
  intros Ha Hb. unfold SystemTime.duration_since, Instant.duration_since, Instant.checked_duration_since,
    Instant.checked_sub_instant, sub_timespec. rewrite ge_ns by done.
  destruct (Z.leb_spec (at_ns b) (at_ns a)) as [Hle|Hlt].
  - destruct (sub_ordered_exact a b) as (d & -> & Hd & E); [done..|]. exists d. split_and!; try done. lia.
  - destruct (sub_ordered_exact b a) as (d & -> & Hd & E); [done|done|lia|]. exists d. split_and!; try done. lia.
Qed.

(** When the seconds are those of an [i64] *)
Definition representable (z : Z) : Prop := - 2 ^ 63 * NSEC_PER_SEC <= z < 2 ^ 63 * NSEC_PER_SEC.

Lemma checked_i64_spec z : match checked_i64 z with
  | Some y => y = z /\ - 2 ^ 63 <= z < 2 ^ 63
  | None => z < - 2 ^ 63 \/ 2 ^ 63 <= z
  end.
Proof.
  unfold checked_i64, in_i64, i64_max. destruct (Z.leb_spec (- 2 ^ 63) z), (Z.leb_spec z (2 ^ 63 - 1)); cbn; lia.
Qed.

Lemma try_into_i64_spec z : 0 <= z -> match try_into_i64 z with Some y => y = z /\ z < 2 ^ 63 | None => 2 ^ 63 <= z end.
Proof. intros. unfold try_into_i64, i64_max. destruct (Z.leb_spec z (2 ^ 63 - 1)); lia. Qed.

Lemma checked_add_spec t d : ts_wf t -> dur_wf d -> match checked_add_duration t d with
  | Some t' => ts_wf t' /\ at_ns t' = at_ns t + for_ns d /\ secs d < 2 ^ 63
  | None => 2 ^ 63 <= secs d \/ ~ representable (at_ns t + for_ns d)
  end.
Proof.
  intros [Hs Hn] [Hds Hdn]. unfold checked_add_duration, representable, at_ns, for_ns, ts_wf, NSEC_PER_SEC in *.
  pose proof (try_into_i64_spec (secs d)) as H1. destruct (try_into_i64 (secs d)) as [s|]; cbn; [|lia].
  destruct H1 as [-> H1]; [lia|]. pose proof (checked_i64_spec (tv_sec t + secs d)) as H2.
  destruct (checked_i64 (tv_sec t + secs d)) as [s|]; cbn; [|lia]. destruct H2 as [-> H2].
  rewrite (wrap_small 32 (tv_nsec t)), (wrap_small 32) by lia.
  destruct (Z.geb_spec (nanos d + tv_nsec t) 1000000000); cbn; [|lia].
  pose proof (checked_i64_spec (tv_sec t + secs d + 1)) as H3.
  destruct (checked_i64 (tv_sec t + secs d + 1)) as [s|]; cbn; lia.
Qed.

Lemma checked_sub_spec t d : ts_wf t -> dur_wf d -> match checked_sub_duration t d with
  | Some t' => ts_wf t' /\ at_ns t' = at_ns t - for_ns d /\ secs d < 2 ^ 63
  | None => 2 ^ 63 <= secs d \/ ~ representable (at_ns t - for_ns d)
  end.
Proof.
  intros [Hs Hn] [Hds Hdn]. unfold checked_sub_duration, representable, at_ns, for_ns, ts_wf, NSEC_PER_SEC in *.
  pose proof (try_into_i64_spec (secs d)) as H1. destruct (try_into_i64 (secs d)) as [s|]; cbn; [|lia].
  destruct H1 as [-> H1]; [lia|]. pose proof (checked_i64_spec (tv_sec t - secs d)) as H2.
  destruct (checked_i64 (tv_sec t - secs d)) as [s|]; cbn; [|lia]. destruct H2 as [-> H2].
  rewrite (swrap_small 32 (tv_nsec t)), (swrap_small 32 (nanos d)), (swrap_small 32) by lia.
  destruct (Z.ltb_spec (tv_nsec t - nanos d) 0); cbn; [|lia].
  rewrite swrap_small by lia. pose proof (checked_i64_spec (tv_sec t - secs d - 1)) as H3.
  destruct (checked_i64 (tv_sec t - secs d - 1)) as [s|]; cbn; lia.
Qed.

(** C38. Adding and subtracting a duration of fewer than 2^63 seconds is exact where the
    result can be represented, fails where it cannot, and the two are each other's
    inverse; and the difference gives the duration back. *)
Theorem time_add_sub_exact t d : ts_wf t -> dur_wf d -> secs d < 2 ^ 63 ->
  (representable (at_ns t + for_ns d) <-> is_Some (checked_add_duration t d)) /\
  (representable (at_ns t - for_ns d) <-> is_Some (checked_sub_duration t d)) /\
  (forall t', checked_add_duration t d = Some t' ->
     at_ns t' = at_ns t + for_ns d /\ checked_sub_duration t' d = Some t /\ SystemTime.duration_since t' t = Done (Ok d)) /\
  (forall t', checked_sub_duration t d = Some t' -> at_ns t' = at_ns t - for_ns d /\ checked_add_duration t' d = Some t).
Proof.
  intros Ht Hd Hs. pose proof (checked_add_spec t d Ht Hd) as Ha. pose proof (checked_sub_spec t d Ht Hd) as Hb.
  assert (forall u, ts_wf u -> representable (at_ns u)) as Hrep.
  { intros u [? ?]. unfold representable, at_ns, NSEC_PER_SEC in *. lia. }
  split_and!.
  - destruct (checked_add_duration t d) as [t'|]; [|split; [intros Hr; destruct Ha as [?|[]]; [lia|done]|by intros [? ?]]].
    destruct Ha as (Hw & <- & _). split; [by eauto|auto].
  - destruct (checked_sub_duration t d) as [t'|]; [|split; [intros Hr; destruct Hb as [?|[]]; [lia|done]|by intros [? ?]]].
    destruct Hb as (Hw & <- & _). split; [by eauto|auto].
  - intros t' E. rewrite E in Ha. destruct Ha as (Hw & En & _). split; [done|]. split.
    + pose proof (checked_sub_spec t' d Hw Hd) as Hc. destruct (checked_sub_duration t' d) as [u|].
      * f_equal. apply at_ns_inj; [tauto|done|lia].
      * destruct Hc as [?|Hc]; [lia|]. destruct Hc. rewrite En. replace (at_ns t + for_ns d - for_ns d) with (at_ns t) by lia. auto.
    + unfold SystemTime.duration_since, sub_timespec. rewrite ge_ns by done.
      assert (0 <= for_ns d) by (destruct Hd; unfold for_ns, NSEC_PER_SEC in *; lia).
      rewrite (proj2 (Z.leb_le _ _)) by lia.
      destruct (sub_ordered_exact t' t) as (d' & -> & Hd' & E'); [done|done|lia|]. cbn. do 2 f_equal. apply for_ns_inj; [done|done|lia].
  - intros t' E. rewrite E in Hb. destruct Hb as (Hw & En & _). split; [done|].
    pose proof (checked_add_spec t' d Hw Hd) as Hc. destruct (checked_add_duration t' d) as [u|].
    + f_equal. apply at_ns_inj; [tauto|done|lia].
    + destruct Hc as [?|Hc]; [lia|]. destruct Hc. rewrite En. replace (at_ns t - for_ns d + for_ns d) with (at_ns t) by lia. auto.
Qed.

(** A duration of 2^63 seconds or more is refused even if the result could be
    represented. *)
Theorem time_add_refuses_long_durations : exists t d, ts_wf t /\ dur_wf d /\
  representable (at_ns t + for_ns d) /\ Instant.checked_add t d = None.
Proof.
  exists {| tv_sec := -10; tv_nsec := 0 |}, {| secs := 2 ^ 63; nanos := 0 |}.
  unfold ts_wf, dur_wf, representable, at_ns, for_ns, NSEC_PER_SEC. cbn [tv_sec tv_nsec secs nanos]. split_and!; done || lia.
Qed.

Definition some_time : Timespec := {| tv_sec := -1; tv_nsec := 999999999 |}.
Definition some_duration : Duration := {| secs := 3; nanos := 2 |}.

Lemma time_difference_exact_witness : ts_wf some_time /\ exists d,
  SystemTime.duration_since some_time SystemTime.UNIX_EPOCH = Done (Err d) /\ for_ns d = 1.
Proof.
  assert (ts_wf some_time) as Hw by (unfold ts_wf, NSEC_PER_SEC; cbn; lia). assert (ts_wf Timespec_zero) as H0 by (unfold ts_wf, NSEC_PER_SEC; cbn; lia).
  split; [exact Hw|]. destruct (time_difference_exact some_time Timespec_zero Hw H0) as (d & _ & E & Ed & _).
  exists d. split; [exact Ed|exact E].
Defined.

Lemma time_add_sub_exact_witness : is_Some (checked_add_duration some_time some_duration).
Proof.
  apply (time_add_sub_exact some_time some_duration);
    unfold ts_wf, dur_wf, representable, at_ns, for_ns, NSEC_PER_SEC; cbn; lia.
Defined.
