(* ===== verification/Rand.v ===== *)
(** Rand: the random-number library sgx_rand.

    A generator is a state with operations that return a number and the next state
    ([Rng]).  What is modelled of it: the provided methods of the trait, integers in a
    range (distributions/range.rs), [choose], [shuffle] and [sample] (lib.rs), the
    generators ChaCha (chacha.rs) and XorShift (lib.rs), and reseeding
    (reseeding.rs).  Code that draws until a number fits takes fuel, the number of
    draws; [Endless] is its end.  Numbers are of the type [int_ty]. *)
From Stdlib Require Import ZArith Lia Strings.Byte.
From stdpp Require Import base numbers list option tactics.
From S2P Require Import Prelude.

(** * The trait [Rng] *)
Class Rng (R : Type) := {
  next_u32 : R -> Z * R;
  next_u64 : R -> Z * R;
  fill_bytes : nat -> R -> list byte * R
}.

(** The methods that the trait provides, from [next_u32] or [next_u64] *)
Definition default_next_u64 {R} (next_u32 : R -> Z * R) (rng : R) : Z * R :=
  let '(hi, rng) := next_u32 rng in
  let '(lo, rng) := next_u32 rng in
  (Z.lor (wrap 64 (Z.shiftl hi 32)) lo, rng).

Fixpoint fill_loop {R} (next_u64 : R -> Z * R) (n : nat) (count num : Z) (rng : R) : list byte * R :=
  match n with
  | O => ([], rng)
  | S n =>
      let '(num, count, rng) := if count =? 0 then let '(num, rng) := next_u64 rng in (num, 8, rng) else (num, count, rng) in
      let '(rest, rng) := fill_loop next_u64 n (count - 1) (Z.shiftr num 8) rng in
      (byte_of (Z.land num 0xff) :: rest, rng)
  end.
Definition default_fill_bytes {R} (next_u64 : R -> Z * R) (n : nat) (rng : R) : list byte * R :=
  fill_loop next_u64 n 0 0 rng.

(** * Outcomes of code that draws *)
Inductive out (A : Type) := Ret (a : A) | Unwound | Endless.
Arguments Ret {A}. Arguments Unwound {A}. Arguments Endless {A}.

Section draws.
Context {R : Type} `{Rng R}.

Definition G (A : Type) : Type := R -> out (A * R).
Definition g_ret {A} (a : A) : G A := fun r => Ret (a, r).
Definition g_bind {A B} (m : G A) (k : A -> G B) : G B := fun r =>
  match m r with Ret (a, r') => k a r' | Unwound => Unwound | Endless => Endless end.
Notation "'draw' x := m 'in' k" := (g_bind m (fun x => k)) (at level 200, x pattern, m at level 100, k at level 200).
Definition assert (b : bool) : G unit := fun r => if b then Ret (tt, r) else Unwound.

(** Integer types: width and sign; [cast] is [as]. *)
Record int_ty := { width : Z; sign : bool }.
Definition cast (ty : int_ty) (z : Z) : Z := if sign ty then swrap (width ty) z else wrap (width ty) z.
Definition in_ty (ty : int_ty) (z : Z) : Prop :=
  if sign ty then - 2 ^ (width ty - 1) <= z < 2 ^ (width ty - 1) else 0 <= z < 2 ^ width ty.
Definition usize : int_ty := {| width := 64; sign := false |}.
Definition u32 : int_ty := {| width := 32; sign := false |}.

(** [rng.gen::<uW>()] *)
Definition gen_unsigned (w : Z) : G Z := fun r =>
  if w <=? 32 then let '(z, r) := next_u32 r in Ret (wrap w z, r)
  else let '(z, r) := next_u64 r in Ret (z, r).

(** * Integers in a range *)
Record Range := { low : Z; range : Z; accept_zone : Z }.

Definition construct_range (ty : int_ty) (lo hi : Z) : Range :=
  let w := width ty in
  let range := wrap w (wrap w hi - wrap w lo) in
  let unsigned_max := umax w in
  let zone := unsigned_max - unsigned_max `mod` range in
  {| low := lo; range := cast ty range; accept_zone := cast ty zone |}.

(** What becomes of the word [v]: [None] is rejected. *)
Definition accept (ty : int_ty) (r : Range) (v : Z) : option Z :=
  if v <? wrap (width ty) (accept_zone r)
  then Some (cast ty (low r + cast ty (v `mod` wrap (width ty) (range r)))) else None.

Fixpoint sample_range (fuel : nat) (ty : int_ty) (r : Range) : G Z :=
  match fuel with
  | O => fun _ => Endless
  | S fuel => draw v := gen_unsigned (width ty) in match accept ty r v with Some x => g_ret x | None => sample_range fuel ty r end
  end.

Definition Range_new (ty : int_ty) (lo hi : Z) : G Range :=
  draw _ := assert (lo <? hi) in g_ret (construct_range ty lo hi).

Definition gen_range (fuel : nat) (ty : int_ty) (lo hi : Z) : G Z :=
  draw _ := assert (lo <? hi) in draw r := Range_new ty lo hi in sample_range fuel ty r.

Definition gen_weighted_bool (fuel : nat) (n : Z) : G bool :=
  if n <=? 1 then g_ret true else (draw k := gen_range fuel u32 0 n in g_ret (k =? 0)).

(** * Choosing and shuffling *)
Context {T : Type}.

Definition choose (fuel : nat) (values : list T) : G (option T) :=
  if bool_decide (values = []) then g_ret None
  else (draw k := gen_range fuel usize 0 (zlen values) in
        match values !! Z.to_nat k with Some x => g_ret (Some x) | None => fun _ => Unwound end).

(** [slice::swap]; both indices are inside. *)
Definition swap (i j : nat) (values : list T) : list T :=
  match values !! i, values !! j with
  | Some x, Some y => <[j := x]> (<[i := y]> values)
  | _, _ => values
  end.

(** The loop of [shuffle]: [i] is the number of places not yet decided. *)
Fixpoint shuffle_loop (fuel : nat) (i : nat) (values : list T) : G (list T) :=
  match i with
  | O | 1%nat => g_ret values
  | S i => draw k := gen_range fuel usize 0 (Z.of_nat i + 1) in shuffle_loop fuel i (swap i (Z.to_nat k) values)
  end.
Definition shuffle (fuel : nat) (values : list T) : G (list T) := shuffle_loop fuel (length values) values.

(** [sample]: reservoir sampling *)
Fixpoint sample_loop (fuel : nat) (amount i : Z) (elems : list T) (reservoir : list T) : G (list T) :=
  match elems with
  | [] => g_ret reservoir
  | elem :: elems =>
      draw k := gen_range fuel usize 0 (i + 1 + amount) in
      sample_loop fuel amount (i + 1) elems (<[Z.to_nat k := elem]> reservoir)
  end.
Definition sample (fuel : nat) (iter : list T) (amount : nat) : G (list T) :=
  let reservoir := take amount iter in
  if (length reservoir =? amount)%nat then sample_loop fuel (Z.of_nat amount) 0 (drop amount iter) reservoir
  else g_ret reservoir.
End draws.

(** * ChaCha *)
Definition KEY_WORDS : nat := 8.
Definition STATE_WORDS : nat := 16.
Definition CHACHA_ROUNDS : nat := 20.

Record ChaChaRng := { buffer : list Z; state : list Z; index : nat }.

Definition EMPTY : ChaChaRng :=
  {| buffer := replicate STATE_WORDS 0; state := replicate STATE_WORDS 0; index := STATE_WORDS |}.

Definition add32 (a b : Z) : Z := wrap 32 (a + b).
Definition rotate_left (z n : Z) : Z := Z.lor (wrap 32 (Z.shiftl z n)) (Z.shiftr z (32 - n)).

Definition quarter_round (a b c d : Z) : Z * Z * Z * Z :=
  let a := add32 a b in let d := rotate_left (Z.lxor d a) 16 in
  let c := add32 c d in let b := rotate_left (Z.lxor b c) 12 in
  let a := add32 a b in let d := rotate_left (Z.lxor d a) 8 in
  let c := add32 c d in let b := rotate_left (Z.lxor b c) 7 in
  (a, b, c, d).

Definition quarter_round_at (i j k l : nat) (x : list Z) : list Z :=
  let '(a, b, c, d) := quarter_round (x !!! i) (x !!! j) (x !!! k) (x !!! l) in
  <[l := d]> (<[k := c]> (<[j := b]> (<[i := a]> x))).

Definition double_round (x : list Z) : list Z :=
  let x := quarter_round_at 0 4 8 12 x in
  let x := quarter_round_at 1 5 9 13 x in
  let x := quarter_round_at 2 6 10 14 x in
  let x := quarter_round_at 3 7 11 15 x in
  let x := quarter_round_at 0 5 10 15 x in
  let x := quarter_round_at 1 6 11 12 x in
  let x := quarter_round_at 2 7 8 13 x in
  quarter_round_at 3 4 9 14 x.

Definition core (input : list Z) : list Z :=
  zip_with add32 (Nat.iter (CHACHA_ROUNDS / 2) double_round input) input.

Definition set_counter (counter_low counter_high : Z) (self : ChaChaRng) : ChaChaRng := {|
  buffer := buffer self;
  state := <[15%nat := wrap 32 (Z.shiftr counter_high 32)]> (<[14%nat := wrap 32 counter_high]>
          (<[13%nat := wrap 32 (Z.shiftr counter_low 32)]> (<[12%nat := wrap 32 counter_low]> (state self))));
  index := STATE_WORDS |}.

Definition constants : list Z := [0x61707865; 0x3320646E; 0x79622D32; 0x6B206574].

(** [init]: all sixteen words are written. *)
Definition init (key : list Z) (self : ChaChaRng) : ChaChaRng :=
  {| buffer := buffer self; state := constants ++ key ++ [0; 0; 0; 0]; index := STATE_WORDS |}.

Definition new_unseeded : ChaChaRng := init (replicate KEY_WORDS 0) EMPTY.

(** The 128-bit counter *)
Definition count_up (st : list Z) : list Z :=
  let st := <[12%nat := add32 (st !!! 12%nat) 1]> st in
  if negb (st !!! 12%nat =? 0) then st
  else let st := <[13%nat := add32 (st !!! 13%nat) 1]> st in
  if negb (st !!! 13%nat =? 0) then st
  else let st := <[14%nat := add32 (st !!! 14%nat) 1]> st in
  if negb (st !!! 14%nat =? 0) then st
  else <[15%nat := add32 (st !!! 15%nat) 1]> st.

Definition update (self : ChaChaRng) : ChaChaRng :=
  {| buffer := core (state self); state := count_up (state self); index := 0 |}.

Definition chacha_next_u32 (self : ChaChaRng) : Z * ChaChaRng :=
  let self := if (index self =? STATE_WORDS)%nat then update self else self in
  (buffer self !!! (index self `mod` STATE_WORDS)%nat,
   {| buffer := buffer self; state := state self; index := S (index self) |}).

(** [reseed]: the key is the seed, as far as it goes, then zeros. *)
Definition reseed (seed : list Z) (self : ChaChaRng) : ChaChaRng :=
  init (take KEY_WORDS seed ++ replicate (KEY_WORDS - length seed) 0) self.
Definition from_seed (seed : list Z) : ChaChaRng := reseed seed EMPTY.

#[export] Instance chacha_rng : Rng ChaChaRng := {|
  next_u32 := chacha_next_u32;
  next_u64 := default_next_u64 chacha_next_u32;
  fill_bytes := default_fill_bytes (default_next_u64 chacha_next_u32) |}.

(** * XorShift *)
Record XorShiftRng := { xs_x : Z; xs_y : Z; xs_z : Z; xs_w : Z }.

Definition xorshift_next_u32 (self : XorShiftRng) : Z * XorShiftRng :=
  let x := xs_x self in
  let t := Z.lxor x (wrap 32 (Z.shiftl x 11)) in
  let w_ := xs_w self in
  let w := Z.lxor (Z.lxor w_ (Z.shiftr w_ 19)) (Z.lxor t (Z.shiftr t 8)) in
  (w, {| xs_x := xs_y self; xs_y := xs_z self; xs_z := xs_w self; xs_w := w |}).

(** [from_seed] refuses the seed of zeros. *)
Definition xorshift_from_seed (a b c d : Z) : panics XorShiftRng :=
  if (a =? 0) && (b =? 0) && (c =? 0) && (d =? 0) then Panic
  else Done {| xs_x := a; xs_y := b; xs_z := c; xs_w := d |}.

#[export] Instance xorshift_rng : Rng XorShiftRng := {|
  next_u32 := xorshift_next_u32;
  next_u64 := default_next_u64 xorshift_next_u32;
  fill_bytes := default_fill_bytes (default_next_u64 xorshift_next_u32) |}.

(** * Reseeding *)
Class Reseeder (R S : Type) := { reseeder_reseed : S -> R -> R * S }.

Section reseeding.
Context {R S : Type} `{Rng R} `{Reseeder R S}.

Record ReseedingRng := { rng : R; generation_threshold : Z; bytes_generated : Z; reseeder : S }.

Definition ReseedingRng_new (r : R) (threshold : Z) (s : S) : ReseedingRng :=
  {| rng := r; generation_threshold := threshold; bytes_generated := 0; reseeder := s |}.

Definition reseed_if_necessary (self : ReseedingRng) : ReseedingRng :=
  if bytes_generated self >=? generation_threshold self then
    let '(r, s) := reseeder_reseed (reseeder self) (rng self) in
    {| rng := r; generation_threshold := generation_threshold self; bytes_generated := 0; reseeder := s |}
  else self.

(** [self.bytes_generated += n], then the call to the inner generator *)
Definition drawn {A} (n : Z) (call : R -> A * R) (self : ReseedingRng) : A * ReseedingRng :=
  let self := reseed_if_necessary self in
  let '(a, r) := call (rng self) in
  (a, {| rng := r; generation_threshold := generation_threshold self;
         bytes_generated := wrap 64 (bytes_generated self + n); reseeder := reseeder self |}).

#[export] Instance reseeding_rng : Rng ReseedingRng := {|
  next_u32 := drawn 4 next_u32;
  next_u64 := drawn 8 next_u64;
  fill_bytes n := drawn (Z.of_nat n) (fill_bytes n) |}.
End reseeding.
