(* ===== verification/RandSpecs.v ===== *)
(** RandSpecs: the theorems about sgx_rand.

    [range_uniform]: rejection sampling gives every number of a range the same number
    of words; [shuffle_uniform]: every permutation results from the same number of
    sequences of words; [sample_draws]: [sample] returns elements of its input;
    [chacha_stream]: the words of ChaCha are its blocks, counter after counter;
    [xorshift_never_zero], [reseeding_bound]. *)
From Stdlib Require Import ZArith Lia Strings.Byte.
From stdpp Require Import base numbers list option sets tactics.
From S2P Require Import Prelude Rand.

(** * Integers in a range *)
Lemma wrap_cast ty z : 0 < width ty -> wrap (width ty) (cast ty z) = wrap (width ty) z.
Proof.
  intros Hw. unfold cast. destruct (sign ty); [|apply wrap_idemp].
  unfold wrap, swrap. rewrite Zminus_mod_idemp_l. f_equal. lia.
Qed.

Lemma cast_small ty z : 0 < width ty -> in_ty ty z -> cast ty z = z.
Proof. intros Hw. unfold in_ty, cast. destruct (sign ty); intros; [by apply swrap_small|by apply wrap_small]. Qed.

Lemma cast_add ty a b : 0 < width ty -> cast ty (a + cast ty b) = cast ty (a + b).
Proof.
  intros Hw. unfold cast, swrap, wrap. destruct (sign ty).
  - f_equal. replace (a + ((b + 2 ^ (width ty - 1)) `mod` 2 ^ width ty - 2 ^ (width ty - 1)) + 2 ^ (width ty - 1))
      with (a + (b + 2 ^ (width ty - 1)) `mod` 2 ^ width ty) by lia.
    rewrite Zplus_mod_idemp_r. f_equal. lia.
  - apply Zplus_mod_idemp_r.
Qed.

Lemma ty_diff ty lo hi : 0 < width ty -> in_ty ty lo -> in_ty ty hi -> lo < hi -> 0 < hi - lo < 2 ^ width ty.
Proof.
  intros Hw. unfold in_ty. destruct (sign ty); [|lia].
  replace (2 ^ width ty) with (2 * 2 ^ (width ty - 1)); [lia|].
  rewrite <- Z.pow_succ_r by lia. f_equal. lia.
Qed.

(** The words below the zone are accepted. *)
Definition zone (w n : Z) : Z := umax w - umax w `mod` n.

Lemma accept_spec ty lo hi v : 0 < width ty -> in_ty ty lo -> in_ty ty hi -> lo < hi -> 0 <= v ->
  accept ty (construct_range ty lo hi) v =
    if v <? zone (width ty) (hi - lo) then Some (lo + v `mod` (hi - lo)) else None.
Proof.
  intros Hw Hlo Hhi Hlt Hv. pose proof (ty_diff ty lo hi Hw Hlo Hhi Hlt) as Hn.
  unfold accept, construct_range. cbn [low range accept_zone].
  replace (wrap (width ty) (wrap (width ty) hi - wrap (width ty) lo)) with (hi - lo).
  2:{ unfold wrap. rewrite Zminus_mod_idemp_l, Zminus_mod_idemp_r. symmetry. apply Z.mod_small. lia. }
  fold (zone (width ty) (hi - lo)). rewrite !wrap_cast by done.
  rewrite (wrap_small (width ty) (hi - lo)) by lia.
  pose proof (Z.mod_pos_bound (umax (width ty)) (hi - lo) ltac:(lia)) as Hm. unfold umax in Hm.
  rewrite wrap_small.
  2:{ unfold zone, umax. pose proof (Z.mod_le (2 ^ width ty - 1) (hi - lo)). lia. }
  destruct (v <? _); [|done]. f_equal. rewrite cast_add by done. apply cast_small; [done|].
  pose proof (Z.mod_pos_bound v (hi - lo) ltac:(lia)). unfold in_ty in *. destruct (sign ty); lia.
Qed.

Lemma zone_div w n : 0 < n <= umax w -> zone w n = n * (umax w / n) /\ 0 < umax w / n /\ umax w < 2 * zone w n.
Proof.
  intros Hn. unfold zone. pose proof (Z.div_mod (umax w) n ltac:(lia)). pose proof (Z.mod_pos_bound (umax w) n ltac:(lia)).
  assert (0 < umax w / n) by (apply Z.div_str_pos; lia). split; [lia|]. split; [done|]. nia.
Qed.

(** C35. Every number of the range has as many words that give it as every other; words
    that give another number do not exist; and a word of the lower half is always
    accepted, so that the loop expects fewer than two draws. *)
Theorem range_uniform ty lo hi : 0 < width ty -> in_ty ty lo -> in_ty ty hi -> lo < hi ->
  (forall v x, 0 <= v -> accept ty (construct_range ty lo hi) v = Some x -> lo <= x < hi) /\
  (exists q, 0 < q /\ forall x, lo <= x < hi -> forall v, 0 <= v < 2 ^ width ty ->
     accept ty (construct_range ty lo hi) v = Some x <-> exists k, 0 <= k < q /\ v = x - lo + k * (hi - lo)) /\
  (forall v, 0 <= v < 2 ^ (width ty - 1) -> is_Some (accept ty (construct_range ty lo hi) v)).
Proof.
  intros Hw Hlo Hhi Hlt. pose proof (ty_diff ty lo hi Hw Hlo Hhi Hlt) as Hn.
  destruct (zone_div (width ty) (hi - lo)) as (Ez & Hq & Hhalf); [unfold umax; lia|].
  set (n := hi - lo) in *. set (q := umax (width ty) / n) in *.
  split_and!.
  - intros v x Hv E. rewrite accept_spec in E by done. fold n in E. destruct (_ <? _); [|done].
    injection E as <-. pose proof (Z.mod_pos_bound v n ltac:(lia)). lia.
  - exists q. split; [done|]. intros x Hx v Hv. rewrite accept_spec by (done || lia). fold n. rewrite Ez.
    pose proof (Z.div_mod v n ltac:(lia)) as Hdm. pose proof (Z.mod_pos_bound v n ltac:(lia)).
    split.
    + intros E. destruct (Z.ltb_spec v (n * q)) as [Hlt'|]; [|done]. injection E as E.
      exists (v / n). split; [split; [apply Z.div_pos; lia|apply Z.div_lt_upper_bound; lia]|lia].
    + intros (k & Hk & ->). rewrite (proj2 (Z.ltb_lt _ _)) by nia. f_equal.
      rewrite Z.mod_add, Z.mod_small by lia. lia.
  - intros v Hv. rewrite accept_spec by (done || lia). fold n. rewrite (proj2 (Z.ltb_lt _ _)); [done|].
    assert (2 ^ width ty = 2 * 2 ^ (width ty - 1)) by (rewrite <- Z.pow_succ_r by lia; f_equal; lia).
    unfold umax in *. lia.
Qed.

(** * Draws from a generator *)
Class RngLaws (R : Type) `{Rng R} : Prop := {
  u32_range r : 0 <= (next_u32 r).1 < 2 ^ 32;
  u64_range r : 0 <= (next_u64 r).1 < 2 ^ 64
}.

(** The [i]th word of width [w] from now on *)
Fixpoint word {R} `{Rng R} (w : Z) (i : nat) (r : R) : Z :=
  let '(z, r') := if w <=? 32 then next_u32 r else next_u64 r in
  match i with O => if w <=? 32 then wrap w z else z | S i => word w i r' end.

Section draws.
Context {R : Type} `{RngLaws R}.

Lemma gen_unsigned_run w r : gen_unsigned w r = Ret (word w 0 r, (if w <=? 32 then next_u32 r else next_u64 r).2).
Proof. unfold gen_unsigned. cbn. destruct (w <=? 32); [destruct (next_u32 r)|destruct (next_u64 r)]; done. Qed.

Lemma word_nonneg w r : 0 < w -> 0 <= word w 0 r.
Proof.
  intros Hw. pose proof (u64_range r) as H64. cbn. destruct (w <=? 32) eqn:E; rewrite ?E.
  - destruct (next_u32 r). apply wrap_range. lia.
  - destruct (next_u64 r). cbn in *. lia.
Qed.

Lemma sample_range_bounds f ty lo hi r x r' : 0 < width ty -> in_ty ty lo -> in_ty ty hi -> lo < hi ->
  sample_range f ty (construct_range ty lo hi) r = Ret (x, r') -> lo <= x < hi.
Proof.
  intros Hw Hlo Hhi Hlt. revert r. induction f as [|f IH]; intros r; [done|].
  cbn [sample_range]. unfold g_bind. rewrite gen_unsigned_run.
  pose proof (word_nonneg (width ty) r Hw) as Hv. generalize dependent (word (width ty) 0 r). intros v Hv.
  destruct (accept _ _ v) as [y|] eqn:Ea; [|apply IH].
  intros E. injection E as <- _. rewrite accept_spec in Ea by done.
  destruct (_ <? _); [|done]. injection Ea as <-. pose proof (Z.mod_pos_bound v (hi - lo) ltac:(lia)). lia.
Qed.

Lemma gen_range_bounds f ty lo hi r x r' : 0 < width ty -> in_ty ty lo -> in_ty ty hi ->
  gen_range f ty lo hi r = Ret (x, r') -> lo <= x < hi.
Proof.
  intros Hw Hlo Hhi. unfold gen_range, Range_new, g_bind, assert, g_ret.
  destruct (Z.ltb_spec lo hi); [|done]. by apply sample_range_bounds.
Qed.

(** The loop ends with the first word that is accepted. *)
Lemma sample_range_ends f ty rg r : (exists i, (i < f)%nat /\ is_Some (accept ty rg (word (width ty) i r))) ->
  exists x r', sample_range f ty rg r = Ret (x, r').
Proof.
  revert r. induction f as [|f IH]; intros r (i & Hi & Ha); [lia|].
  cbn [sample_range]. unfold g_bind. rewrite gen_unsigned_run.
  destruct (accept ty rg (word (width ty) 0 r)) as [x|] eqn:Ea; [by eexists _, _|].
  destruct i as [|i]; [by rewrite Ea in Ha; destruct Ha|]. apply IH. exists i. split; [lia|].
  cbn in Ha. by destruct (width ty <=? 32); [destruct (next_u32 r)|destruct (next_u64 r)].
Qed.

(** [gen_range] panics exactly if the range is empty, stays inside it, and ends as soon
    as the generator gives a word of the lower half. *)
Theorem gen_range_spec f ty lo hi r : 0 < width ty -> in_ty ty lo -> in_ty ty hi ->
  (gen_range f ty lo hi r = Unwound <-> hi <= lo) /\
  (forall x r', gen_range f ty lo hi r = Ret (x, r') -> lo <= x < hi) /\
  (lo < hi -> (exists i, (i < f)%nat /\ 0 <= word (width ty) i r < 2 ^ (width ty - 1)) ->
   exists x r', gen_range f ty lo hi r = Ret (x, r')).
Proof.
  intros Hw Hlo Hhi. split_and!.
  - unfold gen_range, Range_new, g_bind, assert, g_ret. destruct (Z.ltb_spec lo hi) as [Hlt|]; [|done].
    split; [|lia]. intros E. exfalso. revert r E. induction f as [|f IH]; intros r; [done|].
    cbn [sample_range]. unfold g_bind. rewrite gen_unsigned_run. destruct (accept _ _ _); [done|]. apply IH.
  - intros x r'. by apply gen_range_bounds.
  - intros Hlt (i & Hi & Hwd). unfold gen_range, Range_new, g_bind, assert, g_ret.
    rewrite (proj2 (Z.ltb_lt lo hi)) by done. apply sample_range_ends. exists i. split; [done|].
    rewrite accept_spec by (done || lia).
    pose proof (ty_diff ty lo hi Hw Hlo Hhi Hlt).
    destruct (zone_div (width ty) (hi - lo)) as (_ & _ & Hhalf); [unfold umax; lia|].
    assert (2 ^ width ty = 2 * 2 ^ (width ty - 1)) by (rewrite <- Z.pow_succ_r by lia; f_equal; lia).
    rewrite (proj2 (Z.ltb_lt _ _)); [done|]. unfold umax in *. lia.
Qed.
End draws.

(** * Shuffling *)
Section shuffle.
Context {T : Type}.
Implicit Types l p : list T.

(** The choices of a shuffle of [S (length js)] values: the place of the last value
    first *)
Fixpoint choices (js : list nat) : Prop :=
  match js with [] => True | j :: js => (j <= S (length js))%nat /\ choices js end.

Fixpoint shuffle_by (js : list nat) (l : list T) : list T :=
  match js with [] => l | j :: js => shuffle_by js (swap (S (length js)) j l) end.

Lemma swap_app i j l l2 : (i < length l)%nat -> (j < length l)%nat -> swap i j (l ++ l2) = swap i j l ++ l2.
Proof.
  intros Hi Hj. unfold swap. rewrite !lookup_app_l by done.
  destruct (lookup_lt_is_Some_2 l i Hi) as [x ->]. destruct (lookup_lt_is_Some_2 l j Hj) as [y ->].
  rewrite insert_app_l by done. by rewrite insert_app_l by (by rewrite length_insert).
Qed.

Lemma length_swap i j l : length (swap i j l) = length l.
Proof. unfold swap. destruct (l !! i), (l !! j); rewrite ?length_insert; done. Qed.

(** Swapping with the last place: what is left, and what is last then *)
Definition rest (j : nat) p (x : T) : list T := if decide (j = length p) then p else <[j := x]> p.

Lemma swap_last p x j : (j <= length p)%nat -> exists y, swap (length p) j (p ++ [x]) = rest j p x ++ [y] /\
  length (rest j p x) = length p /\ (p ++ [x]) !! j = Some y /\ rest j p x ++ [y] ≡ₚ p ++ [x].
Proof.
  intros Hj. unfold swap, rest. rewrite list_lookup_middle by done. destruct (decide (j = length p)) as [->|Hne].
  - rewrite list_lookup_middle by done. exists x.
    rewrite insert_app_r_alt, Nat.sub_diag by lia. cbn. rewrite insert_app_r_alt, Nat.sub_diag by lia. cbn. done.
  - rewrite lookup_app_l by lia. destruct (lookup_lt_is_Some_2 p j) as [y Hy]; [lia|]. rewrite Hy.
    rewrite insert_app_r_alt, Nat.sub_diag by lia. cbn. rewrite insert_app_l by lia.
    exists y. rewrite length_insert. split_and!; try done.
    rewrite <- (take_drop_middle p j y Hy) at 2. rewrite insert_take_drop by lia.
    rewrite <- !app_assoc. cbn. apply Permutation_app_head.
    rewrite (Permutation_app_comm (drop (S j) p) [y]), (Permutation_app_comm (drop (S j) p) [x]). cbn. apply Permutation_swap.
Qed.

Lemma shuffle_by_app js l l2 : choices js -> length l = S (length js) -> shuffle_by js (l ++ l2) = shuffle_by js l ++ l2.
Proof.
  revert l l2. induction js as [|j js IH]; intros l l2 Hc Hl; [done|]. cbn in *. destruct Hc as [Hj Hc].
  rewrite swap_app by lia. assert (length (swap (S (length js)) j l) = S (S (length js))) as Hs by (by rewrite length_swap).
  destruct (swap (S (length js)) j l) as [|a m _] eqn:E using rev_ind; [done|].
  rewrite length_app in Hs. cbn in Hs. rewrite <- app_assoc, !IH by (done || lia). by rewrite <- app_assoc.
Qed.

(** The first choice decides the last value of the result. *)
Lemma shuffle_by_step j js p x : choices (j :: js) -> length p = S (length js) ->
  exists y, shuffle_by (j :: js) (p ++ [x]) = shuffle_by js (rest j p x) ++ [y] /\ length (rest j p x) = length p /\
    (p ++ [x]) !! j = Some y /\ rest j p x ++ [y] ≡ₚ p ++ [x].
Proof.
  intros [Hj Hc] Hl. cbn. rewrite <- Hl. destruct (swap_last p x j) as (y & -> & Hl' & Hy & Hp); [lia|].
  exists y. rewrite shuffle_by_app by (done || lia). done.
Qed.

Lemma shuffle_by_perm js l : choices js -> length l = S (length js) -> shuffle_by js l ≡ₚ l.
Proof.
  revert l. induction js as [|j js IH]; intros l Hc Hl; [done|].
  destruct l as [|x p _] using rev_ind; [done|]. rewrite length_app in Hl. cbn in Hl.
  destruct (shuffle_by_step j js p x Hc) as (y & -> & Hl' & _ & Hp); [lia|].
  rewrite <- Hp. apply Permutation_app_tail, IH; [apply Hc|lia].
Qed.

Lemma shuffle_by_inj js js' l : NoDup l -> choices js -> choices js' -> length js' = length js -> length l = S (length js) ->
  shuffle_by js l = shuffle_by js' l -> js = js'.
Proof.
  revert js' l. induction js as [|j js IH]; intros [|j' js'] l Hnd Hc Hc' Hlen Hl E; try done.
  cbn in Hlen. destruct l as [|x p _] using rev_ind; [done|]. rewrite length_app in Hl. cbn in Hl.
  destruct (shuffle_by_step j js p x Hc) as (y & E1 & Hl1 & Hy1 & Hp1); [lia|].
  destruct (shuffle_by_step j' js' p x Hc') as (y' & E2 & Hl2 & Hy2 & Hp2); [lia|].
  rewrite E1, E2 in E. apply app_inj_tail in E as [E ->].
  assert (j = j') as -> by (by eapply NoDup_lookup). f_equal.
  eapply (IH js' (rest j' p x)); try done; [|apply Hc|apply Hc'|lia|lia].
  assert (NoDup (rest j' p x ++ [y'])) as Hn by (by rewrite Hp1). by apply list.NoDup_app in Hn as [? _].
Qed.

Lemma shuffle_by_surj n l l' : length l = S n -> l' ≡ₚ l -> exists js, choices js /\ length js = n /\ shuffle_by js l = l'.
Proof.
  revert l l'. induction n as [|n IH]; intros l l' Hl Hp.
  { exists []. split_and!; try done. cbn. destruct l as [|x [|]]; try done. symmetry. by apply Permutation_singleton_r. }
  destruct l' as [|y q _] using rev_ind; [by apply Permutation_length in Hp; rewrite Hl in Hp|].
  destruct l as [|x p _] using rev_ind; [done|]. rewrite length_app in Hl. cbn in Hl.
  assert (y ∈ p ++ [x]) as [j Hj]%list_elem_of_lookup by (rewrite <- Hp; apply elem_of_app; right; by left).
  assert (j <= length p)%nat as Hjp by (apply lookup_lt_Some in Hj; rewrite length_app in Hj; cbn in Hj; lia).
  destruct (swap_last p x j Hjp) as (y0 & Es & Hlr & Hy0 & Hpr). simplify_eq.
  destruct (IH (rest j p x) q) as (js & Hc & Hn & Hq); [lia| |].
  { apply (Permutation_app_inv_r [y]). by rewrite Hpr. }
  exists (j :: js). assert (choices (j :: js)) as Hcj by (cbn; split; [lia|done]).
  split_and!; [done|cbn; lia|]. cbn. replace (S (length js)) with (length p) by lia.
  rewrite Es, shuffle_by_app by (done || lia). by rewrite Hq.
Qed.
End shuffle.

Section client.
Context {R : Type} `{RngLaws R} {T : Type}.
Implicit Types l : list T.

Lemma usize_range f (n : Z) (r : R) x r' : 0 < n < 2 ^ 64 -> gen_range f usize 0 n r = Ret (x, r') -> 0 <= x < n.
Proof. intros Hn. apply gen_range_bounds; cbn; lia. Qed.

End client.

(** ** The choices that are drawn *)
Section chosen.
Context {R : Type} `{Rng R}.

(** The places that [shuffle] draws for [n] values, from the last on *)
Fixpoint chosen (f n : nat) : G (R := R) (list nat) :=
  match n with
  | O | 1%nat => g_ret []
  | S n => g_bind (gen_range f usize 0 (Z.of_nat n + 1)) (fun k =>
             g_bind (chosen f n) (fun js => g_ret (Z.to_nat k :: js)))
  end.

Lemma chosen_step f n : chosen f (S (S n)) = g_bind (gen_range f usize 0 (Z.of_nat (S n) + 1)) (fun k =>
  g_bind (chosen f (S n)) (fun js => g_ret (Z.to_nat k :: js))).
Proof. done. Qed.

Lemma chosen_length f n r js r' : chosen f n r = Ret (js, r') -> length js = Nat.pred n.
Proof.
  revert r js r'. induction n as [|[|n] IH]; intros r js r' E; [cbn in E; unfold g_ret in E; by injection E as <- _..|].
  rewrite chosen_step in E. unfold g_bind in E. destruct (gen_range _ _ _ _ r) as [[k r1]| |]; try done.
  destruct (chosen f (S n) r1) as [[js1 r2]| |] eqn:Ec; try done.
  unfold g_ret in E. injection E as <- _. cbn. f_equal. by eapply IH.
Qed.

(** [shuffle] swaps as it has drawn, and draws nothing else. *)
Lemma shuffle_loop_chosen {T} f n (l : list T) r : shuffle_loop f n l r =
  match chosen f n r with Ret (js, r') => Ret (shuffle_by js l, r') | Unwound => Unwound | Endless => Endless end.
Proof.
  revert l r. induction n as [|[|n] IH]; intros l r; [done..|].
  rewrite chosen_step. change (shuffle_loop f (S (S n)) l) with (g_bind (gen_range (R := R) f usize 0 (Z.of_nat (S n) + 1))
    (fun k => shuffle_loop f (S n) (swap (S n) (Z.to_nat k) l))). unfold g_bind. destruct (gen_range _ _ _ _ r) as [[k r1]| |]; try done.
  rewrite IH. destruct (chosen f (S n) r1) as [[js r2]| |] eqn:Ec; try done.
  apply chosen_length in Ec. cbn in *. by rewrite Ec.
Qed.
End chosen.

Lemma chosen_choices {R} `{RngLaws R} f n (r : R) js r' : (n < 2 ^ 64)%Z ->
  chosen f (Z.to_nat n) r = Ret (js, r') -> choices js.
Proof.
  intros Hn. assert (Z.of_nat (Z.to_nat n) < 2 ^ 64) as Hb by lia. clear Hn. revert Hb r js r'.
  generalize (Z.to_nat n). clear n. intros n. induction n as [|[|n] IH]; intros Hb r js r' E; [cbn in E; unfold g_ret in E; by injection E as <- _..|].
  rewrite chosen_step in E. unfold g_bind in E. destruct (gen_range _ _ _ _ r) as [[k r1]| |] eqn:Eg; try done.
  destruct (chosen f (S n) r1) as [[js1 r2]| |] eqn:Ec; try done. injection E as <- _.
  apply usize_range in Eg; [|lia]. pose proof (chosen_length _ _ _ _ _ Ec) as Hl. cbn in Hl.
  split; [rewrite Hl; lia|]. eapply IH; [lia|done].
Qed.

(** ** Counting the words that lead to a result *)

(** A generator that reads its words from a list, and then has only words that no
    range accepts. *)
Definition tape_next (w : Z) (ws : list Z) : Z * list Z :=
  match ws with [] => (umax w, []) | x :: ws => (wrap w x, ws) end.
#[local] Instance tape_rng : Rng (list Z) := {|
  next_u32 := tape_next 32; next_u64 := tape_next 64; fill_bytes := default_fill_bytes (tape_next 64) |}.
#[local] Instance tape_laws : RngLaws (list Z).
Proof.
  split; intros [|x ws]; cbn [next_u32 next_u64 tape_rng tape_next fst];
    try (apply wrap_range; lia); unfold umax; lia.
Qed.

(** All words, and all tapes of [K] words *)
Definition words : list Z := seqZ 0 (2 ^ 64).
Fixpoint tapes (K : nat) : list (list Z) :=
  match K with O => [[]] | S K => words ≫= (fun w => cons w <$> tapes K) end.

Fixpoint total {A} (h : A -> Z) (l : list A) : Z := match l with [] => 0 | x :: l => h x + total h l end.
Definition how_many {A} (P : A -> Prop) `{!forall x, Decision (P x)} (l : list A) : Z :=
  total (fun x => if decide (P x) then 1 else 0) l.

Lemma total_app {A} (h : A -> Z) l k : total h (l ++ k) = total h l + total h k.
Proof. induction l as [|x l IH]; cbn; [done|]. rewrite IH. lia. Qed.

Lemma total_ext {A} (h g : A -> Z) l : (forall x, x ∈ l -> h x = g x) -> total h l = total g l.
Proof.
  induction l as [|x l IH]; intros E; cbn; [done|]. rewrite E, IH by set_solver. done.
Qed.

Lemma zlen_cons {A} (x : A) l : zlen (x :: l) = 1 + zlen l.
Proof. unfold zlen. cbn [length]. lia. Qed.

Lemma total_const {A} c (l : list A) : total (fun _ => c) l = zlen l * c.
Proof. induction l as [|x l IH]; [done|]. cbn [total]. rewrite IH, zlen_cons. lia. Qed.

Lemma how_many_ext {A} (P Q : A -> Prop) `{!forall x, Decision (P x)} `{!forall x, Decision (Q x)} l :
  (forall x, P x <-> Q x) -> how_many P l = how_many Q l.
Proof.
  intros E. apply total_ext. intros x _. specialize (E x). destruct (decide (P x)), (decide (Q x)); tauto.
Qed.

Lemma how_many_all {A} (P : A -> Prop) `{!forall x, Decision (P x)} l :
  (forall x, P x) -> how_many P l = zlen l.
Proof.
  intros HP. unfold how_many. rewrite (total_ext _ (fun _ => 1)), total_const; [lia|].
  intros x _. by rewrite decide_True.
Qed.

Lemma how_many_none {A} (P : A -> Prop) `{!forall x, Decision (P x)} l :
  (forall x, ~ P x) -> how_many P l = 0.
Proof.
  intros HP. unfold how_many. rewrite (total_ext _ (fun _ => 0)), total_const; [lia|].
  intros x _. by rewrite decide_False.
Qed.

Lemma total_fmap {A B} (h : B -> Z) (g : A -> B) l : total h (g <$> l) = total (fun x => h (g x)) l.
Proof. induction l as [|x l IH]; [done|]. cbn. by rewrite <- IH. Qed.

Lemma how_many_tapes (P : list Z -> Prop) `{!forall x, Decision (P x)} K :
  how_many P (tapes (S K)) = total (fun w => how_many (fun ws => P (w :: ws)) (tapes K)) words.
Proof.
  cbn [tapes]. generalize words. intros l. induction l as [|w l IH]; [done|].
  cbn [mbind list_bind total]. unfold how_many at 1. rewrite total_app, total_fmap. f_equal. exact IH.
Qed.

(** Of the words, [umax / n] give each number below [n], and the rest is rejected. *)
Lemma total_block n j c s : 0 <= j < n ->
  total (fun w => if decide (w = s + j) then c else 0) (seqZ s n) = c.
Proof.
  intros Hj. replace n with (j + (1 + (n - j - 1))) by lia.
  rewrite !seqZ_app by lia. rewrite !total_app.
  rewrite (total_ext _ (fun _ => 0)), total_const; [|intros w [? ?]%elem_of_seqZ; rewrite decide_False; lia].
  rewrite (total_ext _ (fun _ => 0) (seqZ (s + j + 1) _)), total_const; [|intros w [? ?]%elem_of_seqZ; rewrite decide_False; lia].
  change (seqZ (s + j) 1) with [s + j]. cbn [total]. rewrite decide_True by done. lia.
Qed.

Lemma total_blocks n j c (q : nat) : 0 <= j < n ->
  total (fun w => if decide (w `mod` n = j) then c else 0) (seqZ 0 (n * Z.of_nat q)) = Z.of_nat q * c.
Proof.
  intros Hj. induction q as [|q IH]; [by rewrite Z.mul_0_r|].
  replace (n * Z.of_nat (S q)) with (n * Z.of_nat q + n) by lia.
  rewrite seqZ_app, total_app, IH by nia.
  rewrite (total_ext _ (fun w => if decide (w = 0 + n * Z.of_nat q + j) then c else 0)); [rewrite total_block by done; lia|].
  intros w [H1 H2]%elem_of_seqZ. rewrite Z.add_0_l in *.
  assert (w `mod` n = w - n * Z.of_nat q) as E.
  { symmetry. apply (Z.mod_unique_pos w n (Z.of_nat q)); lia. }
  destruct (decide (w `mod` n = j)), (decide (w = n * Z.of_nat q + j)); done || lia.
Qed.

Lemma total_words n j c e : 0 < n < 2 ^ 64 -> 0 <= j < n ->
  total (fun w => match accept usize (construct_range usize 0 n) w with
                  | Some k => if decide (k = j) then c else 0 | None => e end) words
  = umax 64 / n * c + (2 ^ 64 - zone 64 n) * e.
Proof.
  intros Hn Hj. destruct (zone_div 64 n) as (Ez & Hq & Hz); [unfold umax; lia|].
  assert (zone 64 n <= umax 64) as Hle.
  { unfold zone. pose proof (Z.mod_pos_bound (umax 64) n ltac:(lia)). lia. }
  unfold words. replace (2 ^ 64) with (zone 64 n + (2 ^ 64 - zone 64 n)) at 1 by lia.
  unfold umax in Hle. rewrite seqZ_app, total_app by lia. f_equal.
  - rewrite (total_ext _ (fun w => if decide (w `mod` n = j) then c else 0)).
    + rewrite Ez, <- (Z2Nat.id (umax 64 / n)) by lia. by apply total_blocks.
    + intros w [H1 H2]%elem_of_seqZ. rewrite accept_spec by (cbn; lia). cbn [width usize].
      rewrite Z.sub_0_r, (proj2 (Z.ltb_lt _ _)) by lia. by rewrite Z.add_0_l.
  - rewrite (total_ext _ (fun _ => e)).
    + rewrite total_const. unfold zlen. rewrite length_seqZ, Z2Nat.id by lia. done.
    + intros w [H1 H2]%elem_of_seqZ. rewrite accept_spec by (cbn; lia). cbn [width usize].
      by rewrite Z.sub_0_r, (proj2 (Z.ltb_ge _ _)) by lia.
Qed.

Lemma zlen_words : zlen words = 2 ^ 64.
Proof. unfold words, zlen. rewrite length_seqZ. apply Z2Nat.id. lia. Qed.

Lemma elem_of_words w : w ∈ words -> 0 <= w < 2 ^ 64.
Proof. unfold words. rewrite elem_of_seqZ. lia. Qed.
#[local] Opaque words.

(** The number of tapes of [K] words that give one sequence of choices for [n] values:
    [umax / n] words for the first choice, or a rejected word before it. *)
Fixpoint ways (n K : nat) : Z :=
  match n with
  | O | 1%nat => (2 ^ 64) ^ Z.of_nat K
  | S m =>
      (fix draws K := match K with
         | O => 0
         | S K => umax 64 / Z.of_nat n * ways m K + (2 ^ 64 - zone 64 (Z.of_nat n)) * draws K
         end) K
  end.

Lemma ways_O n : (2 <= n)%nat -> ways n 0 = 0.
Proof. by destruct n as [|[|n]]; [lia..|]. Qed.

Lemma ways_S n K : (1 <= n)%nat -> ways (S n) (S K) =
  umax 64 / Z.of_nat (S n) * ways n K + (2 ^ 64 - zone 64 (Z.of_nat (S n))) * ways (S n) K.
Proof. by destruct n as [|n]; [lia|]. Qed.

Lemma zone_le n : 0 < n -> zone 64 n <= 2 ^ 64.
Proof. intros Hn. unfold zone, umax. pose proof (Z.mod_pos_bound (2 ^ 64 - 1) n Hn). lia. Qed.

Lemma ways_nonneg n K : 0 <= ways n K.
Proof.
  revert K. induction n as [|n IHn]; intros K; [by apply Z.pow_nonneg|].
  destruct n as [|n]; [by apply Z.pow_nonneg|]. induction K as [|K IHK]; [done|].
  rewrite ways_S by lia. pose proof (IHn K). pose proof (zone_le (Z.of_nat (S (S n))) ltac:(lia)).
  pose proof (Z.div_pos (umax 64) (Z.of_nat (S (S n))) ltac:(unfold umax; lia) ltac:(lia)). nia.
Qed.

(** A word for each place is enough. *)
Lemma ways_pos n K : (n <= S K)%nat -> Z.of_nat n < 2 ^ 64 -> 0 < ways n K.
Proof.
  revert K. induction n as [|[|n] IH]; intros K HK Hn; [by apply Z.pow_pos_nonneg; lia..|].
  destruct K as [|K]; [lia|]. rewrite ways_S by lia. pose proof (IH K ltac:(lia) ltac:(lia)).
  pose proof (ways_nonneg (S (S n)) K). pose proof (zone_le (Z.of_nat (S (S n))) ltac:(lia)).
  destruct (zone_div 64 (Z.of_nat (S (S n)))) as (_ & Hq & _); [unfold umax; lia|]. nia.
Qed.

(** What a tape leads to *)
Definition run_out {A} (x : out (A * list Z)) : option A := match x with Ret (a, _) => Some a | _ => None end.

Lemma zlen_tapes K : zlen (tapes K) = (2 ^ 64) ^ Z.of_nat K.
Proof.
  assert (how_many (fun _ => True) (tapes K) = (2 ^ 64) ^ Z.of_nat K) as E.
  { induction K as [|K IH]; [done|]. rewrite how_many_tapes, IH, total_const.
    rewrite zlen_words, Nat2Z.inj_succ, Z.pow_succ_r by lia. done. }
  rewrite <- E. symmetry. by apply how_many_all.
Qed.

Lemma sample_empty g n : 0 < n < 2 ^ 64 ->
  sample_range g usize (construct_range usize 0 n) ([] : list Z) = Endless.
Proof.
  intros Hn. induction g as [|g IH]; [done|]. cbn [sample_range]. unfold g_bind.
  rewrite gen_unsigned_run. cbn [next_u64 tape_rng tape_next fst snd word width usize Z.leb].
  change (64 <=? 32) with false. cbn [next_u64 tape_rng tape_next fst snd].
  rewrite accept_spec by (cbn; unfold umax; lia). cbn [width usize]. rewrite Z.sub_0_r.
  rewrite (proj2 (Z.ltb_ge _ _)); [exact IH|]. unfold zone.
  pose proof (Z.mod_pos_bound (umax 64) n ltac:(lia)). lia.
Qed.

Lemma sample_word g n w ws : 0 <= w < 2 ^ 64 ->
  sample_range (S g) usize (construct_range usize 0 n) (w :: ws) =
  match accept usize (construct_range usize 0 n) w with
  | Some k => Ret (k, ws) | None => sample_range g usize (construct_range usize 0 n) ws end.
Proof.
  intros Hw. cbn [sample_range]. unfold g_bind. rewrite gen_unsigned_run.
  change (width usize <=? 32) with false. unfold word. change (width usize <=? 32) with false.
  cbn [next_u64 tape_rng tape_next fst snd]. rewrite wrap_small by done.
  by destruct (accept _ _ w).
Qed.

(** Each sequence of choices comes from the same number of tapes. *)
Lemma ways_chosen f n js K : Z.of_nat n < 2 ^ 64 -> choices js -> length js = Nat.pred n -> (K < f)%nat ->
  how_many (fun ws => run_out (chosen f n ws) = Some js) (tapes K) = ways n K.
Proof.
  revert js K. induction n as [|n IHn]; intros js K Hn Hc Hl Hf.
  { destruct js; [|done]. cbn [ways]. rewrite <- zlen_tapes. by apply how_many_all. }
  destruct n as [|n].
  { destruct js; [|done]. cbn [ways]. rewrite <- zlen_tapes. by apply how_many_all. }
  destruct js as [|j js]; [done|]. destruct Hc as [Hj Hc]. cbn in Hl. injection Hl as Hl.
  set (N := Z.of_nat (S (S n))).
  set (go g ws := g_bind (sample_range g usize (construct_range usize 0 N)) (fun k =>
    g_bind (chosen f (S n)) (fun js => g_ret (Z.to_nat k :: js))) ws : out (list nat * list Z)).
  assert (forall g K, (K < g)%nat -> (K < f)%nat ->
    how_many (fun ws => run_out (go g ws) = Some (j :: js)) (tapes K) = ways (S (S n)) K) as Hgo.
  { clear K Hf. intros g K. revert g. induction K as [|K IHK]; intros g Hg Hf.
    - rewrite ways_O by lia. unfold how_many. cbn [tapes total]. rewrite decide_False; [done|].
      unfold go, g_bind. rewrite sample_empty by lia. done.
    - rewrite how_many_tapes, ways_S by lia. fold N. destruct g as [|g]; [lia|].
      rewrite <- (total_words N (Z.of_nat j) (ways (S n) K) (ways (S (S n)) K)) by lia.
      apply total_ext. intros w Hw. apply elem_of_words in Hw.
      destruct (accept usize (construct_range usize 0 N) w) as [k|] eqn:Ea.
      + assert (0 <= k) as Hk.
        { rewrite accept_spec in Ea by (cbn; lia). destruct (_ <? _); [|done]. injection Ea as <-.
          pose proof (Z.mod_pos_bound w (N - 0) ltac:(lia)). lia. }
        destruct (decide (k = Z.of_nat j)) as [->|Hne].
        * rewrite <- (IHn js K) by (done || lia). apply how_many_ext. intros ws.
          unfold go, g_bind. rewrite sample_word, Ea by lia. rewrite Nat2Z.id.
          destruct (chosen f (S n) ws) as [[js' ws']| |]; cbn; naive_solver.
        * apply how_many_none. intros ws.
          unfold go, g_bind. rewrite sample_word, Ea by lia.
          destruct (chosen f (S n) ws) as [[js' ws']| |]; cbn; [|done..]. intros [= E _]. lia.
      + rewrite <- (IHK g) by lia. apply how_many_ext. intros ws. unfold go, g_bind.
        by rewrite sample_word, Ea by lia. }
  rewrite <- (Hgo f K) by lia. apply how_many_ext. intros ws. unfold go. rewrite chosen_step.
  unfold gen_range, Range_new, g_bind at 1 2 3 4, assert, g_ret at 1.
  replace (Z.of_nat (S n) + 1) with N by lia. by rewrite (proj2 (Z.ltb_lt 0 N)) by lia.
Qed.

(** ** Other generators *)

(** The next [K] words of a generator *)
Fixpoint first_words {R} `{Rng R} (K : nat) (r : R) : list Z :=
  match K with O => [] | S K => let '(z, r') := next_u64 r in z :: first_words K r' end.

Section any_generator.
Context {R : Type} `{RngLaws R}.

Lemma sample_first_words g n K (r : R) k ws : 0 < n < 2 ^ 64 ->
  sample_range g usize (construct_range usize 0 n) (first_words K r) = Ret (k, ws) ->
  exists K' r', sample_range g usize (construct_range usize 0 n) r = Ret (k, r') /\ ws = first_words K' r'.
Proof.
  intros Hn. revert g r. induction K as [|K IH]; intros g r E.
  { cbn [first_words] in E. by rewrite sample_empty in E. }
  cbn [first_words] in E. pose proof (u64_range r) as Hr. destruct (next_u64 r) as [z r1] eqn:Ez. cbn [fst] in Hr.
  destruct g as [|g]; [done|]. rewrite sample_word in E by done.
  cbn [sample_range]. unfold g_bind, gen_unsigned. change (width usize <=? 32) with false. rewrite Ez.
  destruct (accept usize (construct_range usize 0 n) z) as [x|]; [|by apply IH].
  injection E as -> <-. by exists K, r1.
Qed.

Lemma chosen_first_words f n K (r : R) js ws : Z.of_nat n < 2 ^ 64 -> chosen f n (first_words K r) = Ret (js, ws) ->
  exists K' r', chosen f n r = Ret (js, r') /\ ws = first_words K' r'.
Proof.
  revert K r js ws. induction n as [|[|n] IH]; intros K r js ws Hn E;
    [cbn in *; unfold g_ret in *; injection E as <- <-; by exists K, r..|].
  rewrite chosen_step in E. rewrite chosen_step. unfold gen_range, Range_new, g_bind, assert, g_ret in *.
  rewrite (proj2 (Z.ltb_lt 0 (Z.of_nat (S n) + 1))) in * by lia.
  destruct (sample_range f _ _ (first_words K r)) as [[k ws1]| |] eqn:Es; try done.
  apply sample_first_words in Es as (K1 & r1 & -> & ->); [|lia].
  destruct (chosen f (S n) (first_words K1 r1)) as [[js1 ws2]| |] eqn:Ec; try done.
  apply IH in Ec as (K2 & r2 & -> & ->); [|lia]. injection E as <- <-. by exists K2, r2.
Qed.
End any_generator.

Lemma shuffle_run_chosen {T} f (l : list T) ws l' :
  run_out (shuffle f l ws) = Some l' <-> exists js, run_out (chosen f (length l) ws) = Some js /\ shuffle_by js l = l'.
Proof.
  unfold shuffle. rewrite shuffle_loop_chosen.
  destruct (chosen f (length l) ws) as [[js r']| |]; cbn; naive_solver.
Qed.

(** The one sequence of choices that gives a permutation *)
Lemma shuffle_by_unique {T} (l l' : list T) : NoDup l -> l' ≡ₚ l -> exists js, choices js /\
  length js = Nat.pred (length l) /\ shuffle_by js l = l' /\
  forall js', choices js' -> length js' = Nat.pred (length l) -> shuffle_by js' l = l' -> js' = js.
Proof.
  intros Hnd Hp. destruct (length l) as [|n] eqn:El; cbn [Nat.pred].
  - apply length_zero_iff_nil in El as ->. apply Permutation_nil_r in Hp as ->. exists [].
    split_and!; try done. by intros [].
  - destruct (shuffle_by_surj n l l' El Hp) as (js & Hc & Hl & E). exists js. split_and!; try done.
    intros js' Hc' Hl' E'. eapply (shuffle_by_inj js' js l); try done; [lia..|]. by rewrite E.
Qed.

(** C36. [shuffle] is uniform.  Count the sequences of [K] words of 64 bits that a
    generator may deliver: every permutation of the values is the result for exactly
    as many of them ([ways]) as every other, words that [gen_range] rejects included,
    and for at least one as soon as there is a word for each place.  Nothing but a
    permutation results, from any generator; and what a generator's next words lead to
    is what [shuffle] returns with it. *)
Theorem shuffle_uniform {T} `{EqDecision T} (l : list T) : zlen l < 2 ^ 64 -> NoDup l ->
  (forall f K l', (K < f)%nat -> l' ≡ₚ l ->
     how_many (fun ws => run_out (shuffle f l ws) = Some l') (tapes K) = ways (length l) K) /\
  (forall K, (length l <= S K)%nat -> 0 < ways (length l) K) /\
  (forall R `{RngLaws R} f (r : R) l' r', shuffle f l r = Ret (l', r') -> l' ≡ₚ l) /\
  (forall R `{RngLaws R} f K (r : R) l', run_out (shuffle f l (first_words K r)) = Some l' ->
     exists r', shuffle f l r = Ret (l', r')).
Proof.
  intros Hb Hnd. unfold zlen in Hb. split_and!.
  - intros f K l' Hf Hp. destruct (shuffle_by_unique l l' Hnd Hp) as (js & Hc & Hl & E & Hu).
    rewrite <- (ways_chosen f (length l) js K) by done. apply how_many_ext. intros ws.
    rewrite shuffle_run_chosen. split; [|by exists js].
    intros (js' & Ej & E'). rewrite Ej. f_equal.
    destruct (chosen f (length l) ws) as [[js1 ws']| |] eqn:Ec; [|done..]. injection Ej as ->.
    apply Hu; [|by eapply chosen_length|done].
    rewrite <- (Nat2Z.id (length l)) in Ec. by eapply chosen_choices in Ec.
  - intros K HK. by apply ways_pos.
  - intros R ? ? f r l' r' E. unfold shuffle in E. rewrite shuffle_loop_chosen in E.
    destruct (chosen f (length l) r) as [[js r1]| |] eqn:Ec; try done. injection E as <- _.
    pose proof (chosen_length _ _ _ _ _ Ec) as Hl.
    rewrite <- (Nat2Z.id (length l)) in Ec. apply chosen_choices in Ec; [|lia].
    destruct l as [|x l]; [by destruct js|]. by apply shuffle_by_perm; [|rewrite Hl].
  - intros R ? ? f K r l' E. unfold shuffle in *. rewrite shuffle_loop_chosen in E. rewrite shuffle_loop_chosen.
    destruct (chosen f (length l) (first_words K r)) as [[js ws]| |] eqn:Ec; try done.
    apply chosen_first_words in Ec as (K' & r' & -> & _); [|lia]. injection E as <-. by exists r'.
Qed.

(** * Sampling *)
Section sampling.
Context {R : Type} `{Rng R} {T : Type}.
Implicit Types l : list T.

Lemma insert_submseteq (k : nat) (x : T) l : <[k := x]> l ⊆+ x :: l.
Proof.
  destruct (decide (k < length l)%nat) as [Hk|Hk].
  - destruct (lookup_lt_is_Some_2 l k Hk) as [y Hy]. rewrite insert_take_drop by done.
    rewrite <- (take_drop_middle l k y Hy) at 3. rewrite <- Permutation_middle.
    apply submseteq_skip, submseteq_app; [done|]. by apply submseteq_cons.
  - rewrite list_insert_ge by lia. by apply submseteq_cons.
Qed.

Lemma sample_loop_spec f amount i elems l (r : R) l' r' :
  sample_loop f amount i elems l r = Ret (l', r') -> length l' = length l /\ l' ⊆+ elems ++ l.
Proof.
  revert i l r. induction elems as [|x elems IH]; intros i l r E; cbn [sample_loop] in E.
  { unfold g_ret in E. injection E as <- _. done. }
  unfold g_bind in E. destruct (gen_range _ _ _ _ r) as [[k r1]| |]; try done.
  apply IH in E as [Hl Hs]. rewrite length_insert in Hl. split; [done|].
  etransitivity; [exact Hs|]. cbn. rewrite Permutation_middle. apply submseteq_app; [done|apply insert_submseteq].
Qed.

(** [sample] returns as many elements of its input as it is asked for, or all of
    them, each no more often than it is there. *)
Theorem sample_draws f l amount (r : R) l' r' : sample f l amount r = Ret (l', r') ->
  length l' = Nat.min amount (length l) /\ l' ⊆+ l.
Proof.
  unfold sample. destruct (Nat.eqb_spec (length (take amount l)) amount) as [E|E].
  - intros [Hl Hs]%sample_loop_spec. rewrite Hl, length_take. split; [done|].
    etransitivity; [exact Hs|]. by rewrite Permutation_app_comm, take_drop.
  - unfold g_ret. intros Er. injection Er as <- _. rewrite length_take in *. split; [done|]. apply sublist_submseteq, sublist_take.
Qed.
End sampling.

(** * ChaCha *)

(** The state with the key [key] at the counter [c] *)
Definition counter_words (c : Z) : list Z :=
  [wrap 32 c; wrap 32 (Z.shiftr c 32); wrap 32 (Z.shiftr c 64); wrap 32 (Z.shiftr c 96)].
Definition at_counter (pre : list Z) (c : Z) : list Z := pre ++ counter_words c.

Lemma wrap_shiftr c k : 0 <= k -> wrap 32 (Z.shiftr c k) = (c / 2 ^ k) `mod` 2 ^ 32.
Proof. intros. unfold wrap. by rewrite Z.shiftr_div_pow2. Qed.

Definition word32 (z : Z) : Prop := 0 <= z < 2 ^ 32.
Definition counter_val (a b d e : Z) : Z := a + 2 ^ 32 * b + 2 ^ 64 * d + 2 ^ 96 * e.

Lemma counter_words_val a b d e : word32 a -> word32 b -> word32 d -> word32 e ->
  counter_words (counter_val a b d e) = [a; b; d; e].
Proof.
  unfold word32, counter_words, counter_val. intros Ha Hb Hd He. rewrite !wrap_shiftr by lia. unfold wrap.
  repeat f_equal.
  - replace (a + 2 ^ 32 * b + 2 ^ 64 * d + 2 ^ 96 * e) with (a + (b + 2 ^ 32 * d + 2 ^ 64 * e) * 2 ^ 32) by lia.
    rewrite Z.mod_add by lia. by apply Z.mod_small.
  - replace (a + 2 ^ 32 * b + 2 ^ 64 * d + 2 ^ 96 * e) with (a + (b + (d + 2 ^ 32 * e) * 2 ^ 32) * 2 ^ 32) by lia.
    rewrite Z.div_add, Z.div_small, Z.add_0_l, Z.mod_add by lia. by apply Z.mod_small.
  - replace (a + 2 ^ 32 * b + 2 ^ 64 * d + 2 ^ 96 * e) with (a + 2 ^ 32 * b + (d + e * 2 ^ 32) * 2 ^ 64) by lia.
    rewrite Z.div_add, Z.div_small, Z.add_0_l, Z.mod_add by lia. by apply Z.mod_small.
  - replace (a + 2 ^ 32 * b + 2 ^ 64 * d + 2 ^ 96 * e) with (a + 2 ^ 32 * b + 2 ^ 64 * d + e * 2 ^ 96) by lia.
    rewrite Z.div_add, Z.div_small, Z.add_0_l by lia. by apply Z.mod_small.
Qed.

Lemma counter_words_digits c : 0 <= c < 2 ^ 128 -> exists a b d e,
  word32 a /\ word32 b /\ word32 d /\ word32 e /\ c = counter_val a b d e.
Proof.
  intros Hc. exists (c `mod` 2 ^ 32), ((c / 2 ^ 32) `mod` 2 ^ 32), ((c / 2 ^ 64) `mod` 2 ^ 32), (c / 2 ^ 96).
  unfold word32, counter_val. split_and!; try (apply Z.mod_pos_bound; lia).
  - apply Z.div_pos; lia.
  - apply Z.div_lt_upper_bound; lia.
  - change (2 ^ 96) with (2 ^ 64 * 2 ^ 32). rewrite <- Z.div_div by lia.
    pose proof (Z.div_mod (c / 2 ^ 64) (2 ^ 32) ltac:(lia)) as H1.
    change (2 ^ 64) with (2 ^ 32 * 2 ^ 32) in *. rewrite <- !(Z.div_div c (2 ^ 32) (2 ^ 32)) in * by lia.
    pose proof (Z.div_mod (c / 2 ^ 32) (2 ^ 32) ltac:(lia)) as H2.
    pose proof (Z.div_mod c (2 ^ 32) ltac:(lia)) as H3. lia.
Qed.

Lemma add32_one z : word32 z -> if add32 z 1 =? 0 then z = 2 ^ 32 - 1 /\ add32 z 1 = 0 else add32 z 1 = z + 1 /\ word32 (z + 1).
Proof.
  unfold word32, add32, wrap. intros Hz. destruct (decide (z = 2 ^ 32 - 1)) as [->|]; [done|].
  rewrite Z.mod_small by lia. destruct (Z.eqb_spec (z + 1) 0); lia.
Qed.

(** [count_up] counts: a carry goes on past words that become zero. *)
Lemma count_up_spec pre c : length pre = 12%nat -> 0 <= c < 2 ^ 128 ->
  count_up (at_counter pre c) = at_counter pre ((c + 1) `mod` 2 ^ 128).
Proof.
  intros Hp Hc. destruct (counter_words_digits c Hc) as (a & b & d & e & Ha & Hb & Hd & He & ->).
  unfold at_counter at 1. rewrite counter_words_val by done.
  do 12 (destruct pre as [|? pre]; [done|]). destruct pre; [|done]. unfold count_up, at_counter. cbn.
  pose proof (add32_one a Ha) as Ha'. pose proof (add32_one b Hb) as Hb'.
  pose proof (add32_one d Hd) as Hd'. pose proof (add32_one e He) as He'.
  assert (forall a' b' d' e', word32 a' -> word32 b' -> word32 d' -> word32 e' ->
    (counter_val a b d e + 1) `mod` 2 ^ 128 = counter_val a' b' d' e' ->
    counter_words ((counter_val a b d e + 1) `mod` 2 ^ 128) = [a'; b'; d'; e']) as Hw.
  { intros * ? ? ? ? ->. by apply counter_words_val. }
  unfold word32, counter_val in *.
  destruct (add32 a 1 =? 0); cbn; [destruct Ha' as [-> ->]|].
  2:{ do 12 f_equal. symmetry. apply Hw; try lia. rewrite Z.mod_small; lia. }
  destruct (add32 b 1 =? 0); cbn; [destruct Hb' as [-> ->]|].
  2:{ do 12 f_equal. symmetry. apply Hw; try lia. rewrite Z.mod_small; lia. }
  destruct (add32 d 1 =? 0); cbn; [destruct Hd' as [-> ->]|].
  2:{ do 12 f_equal. symmetry. apply Hw; try lia. rewrite Z.mod_small; lia. }
  do 12 f_equal. symmetry. destruct (add32 e 1 =? 0); [destruct He' as [-> ->]|]; apply Hw; try lia; [done|].
  rewrite Z.mod_small; lia.
Qed.

(** A generator that has given [n] words since its counter was [c] *)
Fixpoint after (n : nat) (g : ChaChaRng) : ChaChaRng := match n with O => g | S n => (chacha_next_u32 (after n g)).2 end.

#[local] Opaque core count_up.

Lemma after_spec pre c g n : length pre = 12%nat -> 0 <= c < 2 ^ 128 ->
  state g = at_counter pre c -> index g = 16%nat ->
  state (after n g) = at_counter pre ((c + (Z.of_nat n + 15) / 16) `mod` 2 ^ 128) /\
  (n = 0%nat /\ index (after n g) = 16%nat \/
   (0 < n)%nat /\ index (after n g) = S ((n - 1) `mod` 16) /\
   buffer (after n g) = core (at_counter pre ((c + (Z.of_nat n - 1) / 16) `mod` 2 ^ 128))).
Proof.
  intros Hp Hc Hs Hi. induction n as [|n [IHs IHi]].
  { change ((Z.of_nat 0 + 15) / 16) with 0. rewrite Z.add_0_r, Z.mod_small by exact Hc.
    split; [exact Hs|]. left. split; [reflexivity|exact Hi]. }
  cbn [after]. unfold chacha_next_u32. set (g' := after n g) in *.
  assert (index g' = 16%nat <-> (n `mod` 16 = 0)%nat) as Hidx.
  { destruct IHi as [[-> E]|(Hn & E & _)]; rewrite E; [done|]. pose proof (Nat.mod_upper_bound (n - 1) 16).
    pose proof (Nat.div_mod (n - 1) 16). pose proof (Nat.div_mod n 16). pose proof (Nat.mod_upper_bound n 16). lia. }
  pose proof (Nat.div_mod n 16 ltac:(lia)) as Hdm. pose proof (Nat.mod_upper_bound n 16 ltac:(lia)) as Hmb.
  set (q := (n / 16)%nat) in *.
  destruct (Nat.eqb_spec (index g') STATE_WORDS) as [E|E]; cbn [snd state buffer index update].
  - apply Hidx in E as Em. assert (n = 16 * q)%nat as En by lia.
    assert ((Z.of_nat n + 15) / 16 = Z.of_nat q) as Eq by (rewrite En; symmetry; apply (Z.div_unique _ _ _ 15); lia).
    rewrite IHs, Eq. split.
    + rewrite count_up_spec by (done || apply Z.mod_pos_bound; lia). f_equal.
      rewrite Zplus_mod_idemp_l. f_equal. replace ((Z.of_nat (S n) + 15) / 16) with (Z.of_nat q + 1); [lia|].
      apply (Z.div_unique _ _ _ 0); lia.
    + right. split; [lia|]. replace (S n - 1)%nat with n by lia. rewrite Em. split; [done|].
      do 2 f_equal. replace ((Z.of_nat (S n) - 1) / 16) with (Z.of_nat q); [done|]. apply (Z.div_unique _ _ _ 0); lia.
  - assert (n `mod` 16 <> 0)%nat as Em by tauto. destruct IHi as [[-> _]|(Hn & Ei & Eb)]; [done|].
    split.
    + rewrite IHs. do 2 f_equal. f_equal. transitivity (Z.of_nat q + 1).
      * symmetry. apply (Z.div_unique _ _ _ (Z.of_nat (n `mod` 16) - 1)); lia.
      * apply (Z.div_unique _ _ _ (Z.of_nat (n `mod` 16))); lia.
    + right. split; [lia|]. replace (S n - 1)%nat with n by lia. split.
      * rewrite Ei. f_equal. replace (n `mod` 16)%nat with (S (n - 1) `mod` 16)%nat by (f_equal; lia).
        assert ((n - 1) `mod` 16 = n `mod` 16 - 1)%nat as ->; [|replace (S (n - 1)) with n by lia; lia].
        symmetry. apply (Nat.mod_unique _ _ q); lia.
      * rewrite Eb. do 4 f_equal. transitivity (Z.of_nat q).
        -- symmetry. apply (Z.div_unique _ _ _ (Z.of_nat (n `mod` 16) - 1)); lia.
        -- apply (Z.div_unique _ _ _ (Z.of_nat (n `mod` 16))); lia.
Qed.

(** The [n]th word of ChaCha from counter [c] on is word [n mod 16] of the block of
    counter [c + n / 16]; blocks follow one another modulo 2^128 and none is
    skipped or repeated. *)
Lemma chacha_nth pre c g n : length pre = 12%nat -> 0 <= c < 2 ^ 128 ->
  state g = at_counter pre c -> index g = 16%nat ->
  (chacha_next_u32 (after n g)).1 = core (at_counter pre ((c + Z.of_nat n / 16) `mod` 2 ^ 128)) !!! (n `mod` 16)%nat.
Proof.
  intros Hp Hc Hs Hi. destruct (after_spec pre c g (S n) Hp Hc Hs Hi) as [_ [[? _]|(_ & Ei & Eb)]]; [done|].
  cbn [after] in Ei, Eb. unfold chacha_next_u32 in *. cbn [fst snd buffer index] in *.
  set (g' := if (_ =? _)%nat then _ else _) in *. apply Nat.succ_inj in Ei. replace (S n - 1)%nat with n in Ei by lia.
  change STATE_WORDS with 16%nat. rewrite Ei, Eb, Nat.Div0.mod_mod.
  by replace (Z.of_nat (S n) - 1) with (Z.of_nat n) by lia.
Qed.

(** The key: the seed, cut or filled with zeros to eight words *)
Definition key_of (seed : list Z) : list Z := take 8 seed ++ replicate (8 - length seed) 0.

Lemma key_length seed : length (constants ++ key_of seed) = 12%nat.
Proof. unfold key_of. rewrite !length_app, length_take, length_replicate. change (length constants) with 4%nat. lia. Qed.

Lemma from_seed_state seed : state (from_seed seed) = at_counter (constants ++ key_of seed) 0.
Proof. unfold at_counter. rewrite <- app_assoc. reflexivity. Qed.

Lemma set_counter_state pre c lo hi g : length pre = 12%nat -> state g = at_counter pre c ->
  0 <= lo < 2 ^ 64 -> 0 <= hi < 2 ^ 64 ->
  state (set_counter lo hi g) = at_counter pre (lo + 2 ^ 64 * hi).
Proof.
  intros Hp Hs Hlo Hhi. unfold set_counter. cbn [state]. rewrite Hs. unfold at_counter.
  assert (forall i x m, (i < 4)%nat -> <[(12 + i)%nat := x]> (pre ++ m) = pre ++ <[i := x]> m) as Hins.
  { intros i x m Hi. rewrite insert_app_r_alt by lia. do 2 f_equal. lia. }
  rewrite (Hins 0%nat), (Hins 1%nat), (Hins 2%nat), (Hins 3%nat) by lia. f_equal. unfold counter_words. cbn [insert list_insert].
  rewrite !wrap_shiftr by lia. unfold wrap. f_equal; [|f_equal; [|f_equal; [|f_equal]]].
  - replace (lo + 2 ^ 64 * hi) with (lo + (2 ^ 32 * hi) * 2 ^ 32) by lia. by rewrite Z.mod_add by lia.
  - replace (lo + 2 ^ 64 * hi) with (lo + (hi * 2 ^ 32) * 2 ^ 32) by lia. rewrite Z.div_add by lia. by rewrite Z.mod_add by lia.
  - replace (lo + 2 ^ 64 * hi) with (lo + hi * 2 ^ 64) by lia. by rewrite Z.div_add, Z.div_small by lia.
  - replace (lo + 2 ^ 64 * hi) with (lo + hi * 2 ^ 64) by lia. change (2 ^ 96) with (2 ^ 64 * 2 ^ 32).
    by rewrite <- Z.div_div, Z.div_add, (Z.div_small lo) by lia.
Qed.

(** C37. The words of a seeded generator are the blocks of its key, counter after counter,
    none skipped or repeated before 2^128 blocks; the key is the seed, cut or filled
    with zeros to eight words; and after [set_counter], whenever it is called, the
    words are those from that counter on. *)
Theorem chacha_stream seed n : let pre := constants ++ key_of seed in
  (next_u32 (after n (from_seed seed))).1
    = core (at_counter pre ((Z.of_nat n / 16) `mod` 2 ^ 128)) !!! (n `mod` 16)%nat /\
  forall m lo hi, 0 <= lo < 2 ^ 64 -> 0 <= hi < 2 ^ 64 ->
    (next_u32 (after n (set_counter lo hi (after m (from_seed seed))))).1
      = core (at_counter pre ((lo + 2 ^ 64 * hi + Z.of_nat n / 16) `mod` 2 ^ 128)) !!! (n `mod` 16)%nat.
Proof.
  intros pre. pose proof (key_length seed) as Hk. fold pre in Hk. pose proof (from_seed_state seed) as Hs. fold pre in Hs.
  cbn [next_u32 chacha_rng]. split; [apply (chacha_nth pre 0); done|].
  intros m lo hi Hlo Hhi. apply (chacha_nth pre (lo + 2 ^ 64 * hi)); [done|lia| |done].
  destruct (after_spec pre 0 (from_seed seed) m Hk ltac:(lia) Hs eq_refl) as [Hm _].
  by eapply set_counter_state.
Qed.

(** The words that the documentation of [new_unseeded] names *)
Example chacha_documented_words :
  ((next_u32 new_unseeded).1, (next_u32 (next_u32 new_unseeded).2).1) = (2917185654, 2419978656).
Proof. vm_compute. reflexivity. Qed.

Lemma chacha_stream_witness :
  (next_u32 (after 20 (set_counter 5 0 (after 3 (from_seed [7]))))).1
    = core (at_counter (constants ++ key_of [7]) 6) !!! 4%nat.
Proof. apply (proj2 (chacha_stream [7] 20) 3%nat 5 0); lia. Defined.

(** * XorShift *)
Definition xs_ok (g : XorShiftRng) : Prop := word32 (xs_x g) /\ word32 (xs_y g) /\ word32 (xs_z g) /\ word32 (xs_w g).
Definition xs_zero (g : XorShiftRng) : Prop := xs_x g = 0 /\ xs_y g = 0 /\ xs_z g = 0 /\ xs_w g = 0.

Lemma word32_lxor a b : word32 a -> word32 b -> word32 (Z.lxor a b).
Proof.
  unfold word32. intros Ha Hb. split; [apply Z.lxor_nonneg; lia|].
  destruct (decide (Z.lxor a b = 0)) as [->|]; [lia|]. apply Z.log2_lt_pow2; [pose proof (proj2 (Z.lxor_nonneg a b)); lia|].
  pose proof (Z.log2_lxor a b ltac:(lia) ltac:(lia)).
  assert (forall z, 0 <= z < 2 ^ 32 -> Z.log2 z < 32) as Hl.
  { intros z Hz. destruct (decide (z = 0)) as [->|]; [done|]. apply Z.log2_lt_pow2; lia. }
  pose proof (Hl a Ha). pose proof (Hl b Hb). lia.
Qed.

Lemma word32_shiftr a k : word32 a -> 0 <= k -> word32 (Z.shiftr a k).
Proof.
  unfold word32. intros Ha Hk. rewrite Z.shiftr_div_pow2 by done. assert (0 < 2 ^ k) by (apply Z.pow_pos_nonneg; lia).
  split; [apply Z.div_pos; lia|]. apply Z.div_lt_upper_bound; nia.
Qed.

(** The two linear maps of the step have no kernel. *)
Lemma shift_down_kernel t : word32 t -> Z.lxor t (Z.shiftr t 8) = 0 -> t = 0.
Proof.
  intros [Ht _] E%Z.lxor_eq. rewrite Z.shiftr_div_pow2 in E by lia. destruct (decide (t = 0)); [done|].
  pose proof (Z.div_lt t (2 ^ 8)). lia.
Qed.

Lemma shift_up_kernel x : word32 x -> Z.lxor x (wrap 32 (Z.shiftl x 11)) = 0 -> x = 0.
Proof.
  intros Hx E%Z.lxor_eq. rewrite Z.shiftl_mul_pow2 in E by lia. unfold wrap in E.
  assert (x = (x * (2 ^ 11 * 2 ^ 11 * 2 ^ 11)) `mod` 2 ^ 32) as E3.
  { rewrite !Z.mul_assoc. rewrite <- (Zmult_mod_idemp_l (x * 2 ^ 11 * 2 ^ 11)), <- (Zmult_mod_idemp_l (x * 2 ^ 11)).
    by rewrite <- !E. }
  rewrite E3. replace (x * (2 ^ 11 * 2 ^ 11 * 2 ^ 11)) with (x * 2 * 2 ^ 32) by lia. apply Z.mod_mul. lia.
Qed.

Lemma xorshift_step g : xs_ok g -> ~ xs_zero g -> xs_ok (xorshift_next_u32 g).2 /\ ~ xs_zero (xorshift_next_u32 g).2.
Proof.
  destruct g as [x y z w]. unfold xs_ok, xs_zero. cbn. intros (Hx & Hy & Hz & Hw) Hnz.
  assert (word32 (Z.lxor x (wrap 32 (Z.shiftl x 11)))) as Ht.
  { apply word32_lxor; [done|]. unfold word32. by apply wrap_range. }
  split; [split; [done|split; [done|split; [done|]]]|].
  - apply word32_lxor; apply word32_lxor; done || by apply word32_shiftr.
  - intros (-> & -> & -> & E). rewrite Z.shiftr_0_l, !Z.lxor_0_l in E.
    apply shift_down_kernel in E; [|done]. apply shift_up_kernel in E; [|done]. tauto.
Qed.

(** The state of an XorShift generator never becomes zero, from where it would give
    zeros for ever; seeds of zeros are refused. *)
Theorem xorshift_never_zero a b c d n : word32 a -> word32 b -> word32 c -> word32 d ->
  match xorshift_from_seed a b c d with
  | Done g => let g' := Nat.iter n (fun g => (xorshift_next_u32 g).2) g in xs_ok g' /\ ~ xs_zero g'
  | Panic => a = 0 /\ b = 0 /\ c = 0 /\ d = 0
  end.
Proof.
  intros Ha Hb Hc Hd. unfold xorshift_from_seed.
  destruct (_ && _) eqn:E.
  { apply andb_true_iff in E as [[[? ?]%andb_true_iff ?]%andb_true_iff ?]. rewrite !Z.eqb_eq in *. done. }
  cbn zeta. induction n as [|n [Hok Hnz]]; [|rewrite Nat.iter_succ; by apply xorshift_step].
  split; [done|]. intros Hz. unfold xs_zero in Hz. cbn in Hz. destruct Hz as (-> & -> & -> & ->). done.
Qed.

Lemma xorshift_never_zero_witness : ~ xs_zero (Nat.iter 3 (fun g => (xorshift_next_u32 g).2) {| xs_x := 1; xs_y := 0; xs_z := 0; xs_w := 0 |}).
Proof. apply (xorshift_never_zero 1 0 0 0 3); unfold word32; lia. Defined.

(** * Reseeding *)
Section reseeding.
Context {R S : Type} `{Rng R} `{Reseeder R S}.
Implicit Types g : @ReseedingRng R S.

(** What a request of [n] bytes finds and leaves: the inner generator is reseeded
    first if it has given [generation_threshold] bytes, and not otherwise; so it never
    gives more than the request beyond the threshold. *)
Theorem reseeding_bound {A} n (call : R -> A * R) g : 0 <= n < 2 ^ 63 ->
  0 < generation_threshold g < 2 ^ 63 -> 0 <= bytes_generated g < 2 ^ 64 ->
  let g' := (drawn n call g).2 in
  generation_threshold g' = generation_threshold g /\ n <= bytes_generated g' < generation_threshold g + n /\
  (if generation_threshold g <=? bytes_generated g
   then rng g' = (call (reseeder_reseed (reseeder g) (rng g)).1).2 /\ bytes_generated g' = n
   else rng g' = (call (rng g)).2 /\ bytes_generated g' = bytes_generated g + n).
Proof.
  intros Hn Ht Hb. unfold drawn, reseed_if_necessary. rewrite Z.geb_leb.
  destruct (Z.leb_spec (generation_threshold g) (bytes_generated g)).
  - destruct (reseeder_reseed (reseeder g) (rng g)) as [r s]. cbn. destruct (call r) as [a r']. cbn.
    rewrite wrap_small by lia. split_and!; done || lia.
  - destruct (call (rng g)) as [a r']. cbn. rewrite wrap_small by lia. split_and!; done || lia.
Qed.
End reseeding.

(** A generator that counts, reseeded after eight bytes *)
#[local] Instance chacha_reseeder : Reseeder ChaChaRng unit := {| reseeder_reseed s _ := (new_unseeded, s) |}.
Definition some_reseeding : @ReseedingRng ChaChaRng unit :=
  {| rng := new_unseeded; generation_threshold := 8; bytes_generated := 8; reseeder := tt |}.
Lemma reseeding_bound_witness : bytes_generated (drawn 4 chacha_next_u32 some_reseeding).2 = 4.
Proof. apply (reseeding_bound 4 chacha_next_u32 some_reseeding); cbn; lia. Defined.

(** * Witnesses *)
Definition i8 : int_ty := {| width := 8; sign := true |}.
Lemma range_uniform_witness : is_Some (accept i8 (construct_range i8 (-100) 100) 7).
Proof. apply (range_uniform i8 (-100) 100); cbn; lia. Defined.

(** A generator that counts *)
#[local] Instance count_rng : Rng nat := {|
  next_u32 n := (Z.of_nat n `mod` 2 ^ 32, S n); next_u64 n := (Z.of_nat n `mod` 2 ^ 64, S n);
  fill_bytes := default_fill_bytes (fun n => (Z.of_nat n `mod` 2 ^ 64, S n)) |}.
#[local] Instance count_laws : RngLaws nat.
Proof. split; intros n; cbn; by apply Z.mod_pos_bound. Qed.

(** Of the tapes of two words, 6148914691236517205 * 9223372036854775807 give [30; 10; 20]. *)
Lemma shuffle_uniform_witness :
  how_many (fun ws => run_out (shuffle 3 [10; 20; 30] ws) = Some [30; 10; 20]) (tapes 2) = ways 3 2 /\
  0 < ways 3 2 /\ ways 3 2 = 6148914691236517205 * 9223372036854775807.
Proof.
  assert (NoDup [10; 20; 30]) as Hnd by (repeat constructor; set_solver).
  destruct (shuffle_uniform [10; 20; 30] ltac:(by vm_compute) Hnd) as (Hw & Hp & _).
  split_and!; [|apply (Hp 2%nat); cbn; lia|vm_compute; reflexivity].
  apply (Hw 3%nat 2%nat [30; 10; 20]); [lia|].
  change [30; 10; 20] with ([30] ++ [10; 20]). by rewrite Permutation_app_comm.
Defined.
