(* ===== verification/Ocall.v ===== *)
(** Ocall: the system calls of the enclave, sgx_libc/src/linux/x86_64/ocall.rs.

    A call leaves the enclave (an OCALL) and the host answers.  The enclave does
    not trust the host, so what the wrappers do with an answer matters.

    Memory is one address space of bytes in two parts: [tmem] is what the
    enclave holds, [umem] everything else.  The host and the marshalling code
    that edger8r generates are the parameter [Host]: an OCALL may answer
    anything and write any byte of [umem], but in [tmem] only the [out]
    parameters that the interface files (src/edl) declare, and it learns of
    [tmem] only the [in] parameters; [outs] and [ins] are those declarations.
    [interfere] is what the host does to [umem] while the enclave runs.

    A pointer is its address and a C integer its value.  An out-parameter that
    is a local variable of the wrapper is a field of the [reply].  [heap] and
    [fault] are used by the address lookup (OcallNet). *)
From Stdlib Require Import ZArith Lia Strings.Byte.
From stdpp Require Import base numbers list option tactics gmap.
From S2P Require Import Prelude SgxStatus Trts.
Import Bounds.

(** * Constants *)
Definition EINVAL : Z := 22.
Definition ENOMEM : Z := 12.
Definition ESGX : Z := 0xFFFF.
Definition MAX_OCALL_ALLOC_SIZE : Z := 0x4000.
Definition EAI_SYSTEM : Z := -11.

(** * Structures *)
Record iovec := { iov_base : Z; iov_len : Z }.

(** Sizes of the C structures the calls exchange. *)
Definition stat_size : Z := 144.
Definition dirent64_size : Z := 280.
Definition passwd_size : Z := 48.
Definition timespec_size : Z := 16.
Definition pollfd_size : Z := 8.
Definition epoll_event_size : Z := 12.
Definition sigset_size : Z := 128.
Definition sigaction_size : Z := 152.
Definition iovec_size : Z := 16.
Definition msghdr_size : Z := 56.
Definition addrinfo_size : Z := 48.

(** The part of an [addrinfo] that a request sets. *)
Record addrinfo := { ai_flags : Z; ai_family : Z; ai_socktype : Z; ai_protocol : Z }.

(** * The OCALLs *)
Inductive ocall :=
| U_malloc (size : Z)
| U_free (p : Z)
| U_mmap (start length prot flags fd offset : Z)
| U_munmap (start length : Z)
| U_msync (addr length flags : Z)
| U_mprotect (addr length prot : Z)
| U_getuid
| U_environ
| U_getenv (name : Z)
| U_setenv (name value overwrite : Z)
| U_unsetenv (name : Z)
| U_getcwd (buf size : Z)
| U_chdir (dir : Z)
| U_getpwuid_r (uid pwd buf buflen passwd_result : Z)
| U_open (path flags : Z)
| U_open64 (path oflag mode : Z)
| U_openat (dirfd pathname flags : Z)
| U_fstat (fd buf : Z)
| U_fstat64 (fd buf : Z)
| U_stat (path buf : Z)
| U_stat64 (path buf : Z)
| U_lstat (path buf : Z)
| U_lstat64 (path buf : Z)
| U_lseek (fd offset whence : Z)
| U_lseek64 (fd offset whence : Z)
| U_ftruncate (fd length : Z)
| U_ftruncate64 (fd length : Z)
| U_truncate (path length : Z)
| U_truncate64 (path length : Z)
| U_fsync (fd : Z)
| U_fdatasync (fd : Z)
| U_fchmod (fd mode : Z)
| U_unlink (pathname : Z)
| U_link (oldpath newpath : Z)
| U_unlinkat (dirfd pathname flags : Z)
| U_linkat (olddirfd oldpath newdirfd newpath flags : Z)
| U_rename (oldpath newpath : Z)
| U_chmod (path mode : Z)
| U_readlink (path buf bufsz : Z)
| U_symlink (path1 path2 : Z)
| U_realpath (pathname : Z)
| U_mkdir (pathname mode : Z)
| U_rmdir (pathname : Z)
| U_fdopendir (fd : Z)
| U_opendir (pathname : Z)
| U_readdir64_r (dirp entry dirresult : Z)
| U_closedir (dirp : Z)
| U_dirfd (dirp : Z)
| U_fstatat64 (dirfd pathname buf flags : Z)
| U_read (fd buf count : Z)
| U_pread64 (fd buf count offset : Z)
| U_readv (fd : Z) (iov : list iovec) (iovcnt : Z)
| U_preadv64 (fd : Z) (iov : list iovec) (iovcnt offset : Z)
| U_write (fd buf count : Z)
| U_pwrite64 (fd buf count offset : Z)
| U_writev (fd : Z) (iov : list iovec) (iovcnt : Z)
| U_pwritev64 (fd : Z) (iov : list iovec) (iovcnt offset : Z)
| U_fcntl_arg0 (fd cmd : Z)
| U_fcntl_arg1 (fd cmd arg : Z)
| U_ioctl_arg0 (fd request : Z)
| U_ioctl_arg1 (fd request arg : Z)
| U_close (fd : Z)
| U_clock_gettime (clk_id tp : Z)
| U_socket (domain ty protocol : Z)
| U_socketpair (domain ty protocol sv : Z)
| U_bind (sockfd address addrlen : Z)
| U_listen (sockfd backlog : Z)
| U_accept (sockfd addr addrlen_in : Z)
| U_accept4 (sockfd addr addrlen_in flags : Z)
| U_connect (sockfd address addrlen : Z)
| U_send (sockfd buf len flags : Z)
| U_sendto (sockfd buf len flags addr addrlen : Z)
| U_sendmsg (sockfd msg_name msg_namelen : Z) (msg_iov : list iovec)
    (msg_iovlen msg_control msg_controllen flags : Z)
| U_recv (sockfd buf len flags : Z)
| U_recvfrom (sockfd buf len flags addr addrlen_in : Z)
| U_recvmsg (sockfd msg_name msg_namelen : Z) (msg_iov : list iovec)
    (msg_iovlen msg_control msg_controllen flags : Z)
| U_setsockopt (sockfd level optname optval optlen : Z)
| U_getsockopt (sockfd level optname optval optlen_in : Z)
| U_getpeername (sockfd address addrlen_in : Z)
| U_getsockname (sockfd address addrlen_in : Z)
| U_shutdown (sockfd how : Z)
| U_getaddrinfo (node service : Z) (hints : addrinfo)
| U_freeaddrinfo (res : Z)
| U_gai_strerror (errcode : Z)
| U_poll (fds nfds timeout : Z)
| U_epoll_create1 (flags : Z)
| U_epoll_ctl (epfd op fd event : Z)
| U_epoll_wait (epfd events maxevents timeout : Z)
| U_sysconf (name : Z)
| U_prctl (option arg2 arg3 arg4 arg5 : Z)
| U_sched_setaffinity (pid cpusetsize mask : Z)
| U_sched_getaffinity (pid cpusetsize mask : Z)
| U_pipe (fds : Z)
| U_pipe2 (fds flags : Z)
| U_sched_yield
| U_nanosleep (rqtp rmtp : Z)
| U_sigaction (signum act oldact enclave_id : Z)
| U_sigprocmask (signum set oldset : Z)
| U_raise (signum : Z)
| U_getpid.

(** The answer: status of the call itself, result, error number, and the
    out-parameters that are local variables: a length or pointer, the length of
    the control data, the message flags. *)
Record reply := {
  r_status : sgx_status_t;
  r_result : Z;
  r_error : Z;
  r_out : Z;
  r_controllen : Z;
  r_flags : Z
}.

(** [out] parameters: address and size. *)
Definition outs (c : ocall) : list (Z * Z) :=
  match c with
  | U_getcwd buf size => [(buf, size)]
  | U_getpwuid_r _ pwd buf buflen passwd_result =>
      [(pwd, passwd_size); (buf, buflen); (passwd_result, 8)]
  | U_fstat _ buf | U_fstat64 _ buf | U_stat _ buf | U_stat64 _ buf | U_lstat _ buf
  | U_lstat64 _ buf | U_fstatat64 _ _ buf _ => [(buf, stat_size)]
  | U_readlink _ buf bufsz => [(buf, bufsz)]
  | U_readdir64_r _ entry dirresult => [(entry, dirent64_size); (dirresult, 8)]
  | U_ioctl_arg1 _ _ arg => [(arg, 4)]
  | U_clock_gettime _ tp => [(tp, timespec_size)]
  | U_socketpair _ _ _ sv => [(sv, 8)]
  | U_accept _ addr addrlen_in | U_accept4 _ addr addrlen_in _
  | U_recvfrom _ _ _ _ addr addrlen_in | U_getpeername _ addr addrlen_in
  | U_getsockname _ addr addrlen_in => [(addr, addrlen_in)]
  | U_recvmsg _ msg_name msg_namelen _ _ msg_control msg_controllen _ =>
      [(msg_name, msg_namelen); (msg_control, msg_controllen)]
  | U_getsockopt _ _ _ optval optlen_in => [(optval, optlen_in)]
  | U_poll fds nfds _ => [(fds, pollfd_size * nfds)]
  | U_epoll_wait _ events maxevents _ => [(events, epoll_event_size * maxevents)]
  | U_sched_getaffinity _ cpusetsize mask => [(mask, cpusetsize)]
  | U_pipe fds | U_pipe2 fds _ => [(fds, 8)]
  | U_nanosleep _ rmtp => [(rmtp, timespec_size)]
  | U_sigaction _ _ oldact _ => [(oldact, sigaction_size)]
  | U_sigprocmask _ _ oldset => [(oldset, sigset_size)]
  | _ => []
  end.

(** [in] parameters: a buffer, or a string up to its final zero.  An array of
    [iovec]s is part of the call itself. *)
Inductive inarg :=
| InBuf (p size : Z)
| InStr (p : Z).

Definition ins (c : ocall) : list inarg :=
  match c with
  | U_getenv p | U_unsetenv p | U_chdir p | U_open p _ | U_open64 p _ _ | U_openat _ p _
  | U_stat p _ | U_stat64 p _ | U_lstat p _ | U_lstat64 p _ | U_truncate p _
  | U_truncate64 p _ | U_unlink p | U_unlinkat _ p _ | U_chmod p _ | U_readlink p _ _
  | U_realpath p | U_mkdir p _ | U_rmdir p | U_opendir p | U_fstatat64 _ p _ _ => [InStr p]
  | U_setenv p q _ | U_link p q | U_linkat _ p _ q _ | U_rename p q | U_symlink p q
  | U_getaddrinfo p q _ => [InStr p; InStr q]
  | U_readdir64_r _ entry _ => [InBuf entry dirent64_size]
  | U_ioctl_arg1 _ _ arg => [InBuf arg 4]
  | U_bind _ p n | U_connect _ p n | U_accept _ p n | U_accept4 _ p n _
  | U_sendto _ _ _ _ p n | U_setsockopt _ _ _ p n => [InBuf p n]
  | U_sendmsg _ msg_name msg_namelen _ _ msg_control msg_controllen _ =>
      [InBuf msg_name msg_namelen; InBuf msg_control msg_controllen]
  | U_poll fds nfds _ => [InBuf fds (pollfd_size * nfds)]
  | U_epoll_ctl _ _ _ event => [InBuf event epoll_event_size]
  | U_sched_setaffinity _ cpusetsize mask => [InBuf mask cpusetsize]
  | U_nanosleep rqtp _ => [InBuf rqtp timespec_size]
  | U_sigaction _ act _ _ => [InBuf act sigaction_size]
  | U_sigprocmask _ set _ => [InBuf set sigset_size]
  | _ => []
  end.

(** * The world *)
Record world (H : Type) := World {
  tmem : Z -> byte;
  umem : Z -> byte;
  errno : Z;
  heap : gmap Z Z;
  fault : bool;
  host : H
}.
Arguments World {H}.
Arguments tmem {H}. Arguments umem {H}. Arguments errno {H}.
Arguments heap {H}. Arguments fault {H}. Arguments host {H}.

(** Where the enclave is. *)
Class Region := { e_base : Z; e_size : Z }.

Section memory.
Context {H : Type} `{Region}.

Definition inside (a : Z) : bool := (e_base <=? a) && (a <? e_base + e_size).

Definition load (w : world H) (a : Z) : byte := if inside a then tmem w a else umem w a.

Definition load_bytes (w : world H) (a : Z) (n : nat) : list byte :=
  (fun i => load w (a + Z.of_nat i)) <$> seq 0 n.

(** The bytes of [bs] from address [a], where [part] holds. *)
Definition overwrite (part : Z -> bool) (a : Z) (bs : list byte) (m : Z -> byte) : Z -> byte :=
  fun x => if part x && (a <=? x) && (x <? a + zlen bs) then bs !!! Z.to_nat (x - a) else m x.

Definition store (a : Z) (bs : list byte) : ST (world H) unit := fun w =>
  (tt, World (overwrite inside a bs (tmem w)) (overwrite (fun x => negb (inside x)) a bs (umem w))
         (errno w) (heap w) (fault w) (host w)).

Definition load64 (w : world H) (a : Z) : Z := le_val (load_bytes w a 8).
Definition load32 (w : world H) (a : Z) : Z := le_val (load_bytes w a 4).
Definition read64 (a : Z) : ST (world H) Z := fun w => (load64 w a, w).
Definition read32 (a : Z) : ST (world H) Z := fun w => (load32 w a, w).
Definition write64 (a v : Z) : ST (world H) unit := store a (le_bytes 8 v).
Definition write32 (a v : Z) : ST (world H) unit := store a (le_bytes 4 v).

(** [ptr::copy_nonoverlapping], [write_bytes(0, n)] *)
Definition copy_nonoverlapping (src dst n : Z) : ST (world H) unit := fun w =>
  store dst (load_bytes w src (Z.to_nat n)) w.
Definition write_zeros (p n : Z) : ST (world H) unit := store p (zeros (Z.to_nat n)).

Definition set_errno (e : Z) : ST (world H) unit := fun w =>
  (tt, World (tmem w) (umem w) e (heap w) (fault w) (host w)).

Definition fail (e : Z) : ST (world H) Z := let* _ := set_errno e in st_ret (-1).
End memory.

(** The host, edger8r's marshalling, and two functions of Intel's runtime: the
    OCALL stack allocator and [strlen]. *)
Class Host (H : Type) := {
  perform : ocall -> ST (world H) reply;
  interfere : ST (world H) unit;
  sgx_ocalloc : Z -> ST (world H) Z;
  sgx_ocfree : ST (world H) unit;
  c_strlen : (Z -> byte) -> Z -> Z
}.

(** * The wrappers *)
Module Libc.
Section calls.
Context {H : Type} `{Region} `{Enclave} `{Host H}.

Definition outside_ok (p len : Z) : bool := negb (sgx_is_outside_enclave p len =? 0).
Definition within_ok (p len : Z) : bool := negb (sgx_is_within_enclave p len =? 0).

Definition strlen (p : Z) : ST (world H) Z := fun w => (c_strlen (load w) p, w).

(** What every wrapper does with the status, a result that is -1 on an error,
    and the error number. *)
Definition int_result (r : reply) : ST (world H) Z :=
  if decide (r_status r = SGX_SUCCESS) then
    let* _ := (if r_result r =? -1 then set_errno (r_error r) else st_ret tt) in
    st_ret (r_result r)
  else fail ESGX.

Definition int_call (c : ocall) : ST (world H) Z :=
  let* r := perform c in int_result r.

(** ** Calls that hand the answer on *)
Definition munmap (start length : Z) : ST (world H) Z := int_call (U_munmap start length).
Definition msync (addr length flags : Z) : ST (world H) Z :=
  int_call (U_msync addr length flags).
Definition mprotect (addr length prot : Z) : ST (world H) Z :=
  int_call (U_mprotect addr length prot).
Definition setenv (name value overwrite : Z) : ST (world H) Z :=
  int_call (U_setenv name value overwrite).
Definition unsetenv (name : Z) : ST (world H) Z := int_call (U_unsetenv name).
Definition chdir (dir : Z) : ST (world H) Z := int_call (U_chdir dir).
Definition open (path flags : Z) : ST (world H) Z := int_call (U_open path flags).
Definition open64 (path oflag mode : Z) : ST (world H) Z :=
  int_call (U_open64 path oflag mode).
Definition openat (dirfd pathname flags : Z) : ST (world H) Z :=
  int_call (U_openat dirfd pathname flags).
Definition fstat (fd buf : Z) : ST (world H) Z := int_call (U_fstat fd buf).
Definition fstat64 (fd buf : Z) : ST (world H) Z := int_call (U_fstat64 fd buf).
Definition stat (path buf : Z) : ST (world H) Z := int_call (U_stat path buf).
Definition stat64 (path buf : Z) : ST (world H) Z := int_call (U_stat64 path buf).
Definition lstat (path buf : Z) : ST (world H) Z := int_call (U_lstat path buf).
Definition lstat64 (path buf : Z) : ST (world H) Z := int_call (U_lstat64 path buf).
Definition lseek (fd offset whence : Z) : ST (world H) Z :=
  int_call (U_lseek fd offset whence).
Definition lseek64 (fd offset whence : Z) : ST (world H) Z :=
  int_call (U_lseek64 fd offset whence).
Definition ftruncate (fd length : Z) : ST (world H) Z := int_call (U_ftruncate fd length).
Definition ftruncate64 (fd length : Z) : ST (world H) Z :=
  int_call (U_ftruncate64 fd length).
Definition truncate (path length : Z) : ST (world H) Z := int_call (U_truncate path length).
Definition truncate64 (path length : Z) : ST (world H) Z :=
  int_call (U_truncate64 path length).
Definition fsync (fd : Z) : ST (world H) Z := int_call (U_fsync fd).
Definition fdatasync (fd : Z) : ST (world H) Z := int_call (U_fdatasync fd).
Definition fchmod (fd mode : Z) : ST (world H) Z := int_call (U_fchmod fd mode).
Definition unlink (pathname : Z) : ST (world H) Z := int_call (U_unlink pathname).
Definition link (oldpath newpath : Z) : ST (world H) Z := int_call (U_link oldpath newpath).
Definition unlinkat (dirfd pathname flags : Z) : ST (world H) Z :=
  int_call (U_unlinkat dirfd pathname flags).
Definition linkat (olddirfd oldpath newdirfd newpath flags : Z) : ST (world H) Z :=
  int_call (U_linkat olddirfd oldpath newdirfd newpath flags).
Definition rename (oldpath newpath : Z) : ST (world H) Z :=
  int_call (U_rename oldpath newpath).
Definition chmod (path mode : Z) : ST (world H) Z := int_call (U_chmod path mode).
Definition readlink (path buf bufsz : Z) : ST (world H) Z :=
  int_call (U_readlink path buf bufsz).
Definition symlink (path1 path2 : Z) : ST (world H) Z := int_call (U_symlink path1 path2).
Definition mkdir (pathname mode : Z) : ST (world H) Z := int_call (U_mkdir pathname mode).
Definition rmdir (pathname : Z) : ST (world H) Z := int_call (U_rmdir pathname).
Definition closedir (dirp : Z) : ST (world H) Z := int_call (U_closedir dirp).
Definition dirfd (dirp : Z) : ST (world H) Z := int_call (U_dirfd dirp).
Definition fstatat64 (dirfd pathname buf flags : Z) : ST (world H) Z :=
  int_call (U_fstatat64 dirfd pathname buf flags).
Definition fcntl_arg0 (fd cmd : Z) : ST (world H) Z := int_call (U_fcntl_arg0 fd cmd).
Definition fcntl_arg1 (fd cmd arg : Z) : ST (world H) Z :=
  int_call (U_fcntl_arg1 fd cmd arg).
Definition ioctl_arg0 (fd request : Z) : ST (world H) Z :=
  int_call (U_ioctl_arg0 fd request).
Definition ioctl_arg1 (fd request arg : Z) : ST (world H) Z :=
  int_call (U_ioctl_arg1 fd request arg).
Definition close (fd : Z) : ST (world H) Z := int_call (U_close fd).
Definition clock_gettime (clk_id tp : Z) : ST (world H) Z :=
  int_call (U_clock_gettime clk_id tp).
Definition socket (domain ty protocol : Z) : ST (world H) Z :=
  int_call (U_socket domain ty protocol).
Definition socketpair (domain ty protocol sv : Z) : ST (world H) Z :=
  int_call (U_socketpair domain ty protocol sv).
Definition bind (sockfd address addrlen : Z) : ST (world H) Z :=
  int_call (U_bind sockfd address addrlen).
Definition listen (sockfd backlog : Z) : ST (world H) Z :=
  int_call (U_listen sockfd backlog).
Definition connect (sockfd address addrlen : Z) : ST (world H) Z :=
  int_call (U_connect sockfd address addrlen).
Definition setsockopt (sockfd level optname optval optlen : Z) : ST (world H) Z :=
  int_call (U_setsockopt sockfd level optname optval optlen).
Definition shutdown (sockfd how : Z) : ST (world H) Z := int_call (U_shutdown sockfd how).
Definition poll (fds nfds timeout : Z) : ST (world H) Z :=
  int_call (U_poll fds nfds timeout).
Definition epoll_create1 (flags : Z) : ST (world H) Z := int_call (U_epoll_create1 flags).
Definition epoll_ctl (epfd op fd event : Z) : ST (world H) Z :=
  int_call (U_epoll_ctl epfd op fd event).
Definition epoll_wait (epfd events maxevents timeout : Z) : ST (world H) Z :=
  int_call (U_epoll_wait epfd events maxevents timeout).
Definition sysconf (name : Z) : ST (world H) Z := int_call (U_sysconf name).
Definition prctl (option arg2 arg3 arg4 arg5 : Z) : ST (world H) Z :=
  int_call (U_prctl option arg2 arg3 arg4 arg5).
Definition sched_setaffinity (pid cpusetsize mask : Z) : ST (world H) Z :=
  int_call (U_sched_setaffinity pid cpusetsize mask).
Definition sched_getaffinity (pid cpusetsize mask : Z) : ST (world H) Z :=
  int_call (U_sched_getaffinity pid cpusetsize mask).
Definition pipe (fds : Z) : ST (world H) Z := int_call (U_pipe fds).
Definition pipe2 (fds flags : Z) : ST (world H) Z := int_call (U_pipe2 fds flags).
Definition sched_yield : ST (world H) Z := int_call (U_sched_yield).
Definition nanosleep (rqtp rmtp : Z) : ST (world H) Z := int_call (U_nanosleep rqtp rmtp).
Definition sigaction (signum act oldact enclave_id : Z) : ST (world H) Z :=
  int_call (U_sigaction signum act oldact enclave_id).
Definition sigprocmask (signum set oldset : Z) : ST (world H) Z :=
  int_call (U_sigprocmask signum set oldset).
Definition pthread_sigmask (signum set oldset : Z) : ST (world H) Z :=
  sigprocmask signum set oldset.

(** ** Calls that return something else than a result or -1 *)
Definition getuid : ST (world H) Z :=
  let* r := perform U_getuid in
  if decide (r_status r = SGX_SUCCESS) then st_ret (r_result r)
  else let* _ := set_errno ESGX in st_ret 0.

Definition raise (signum : Z) : ST (world H) Z :=
  let* r := perform (U_raise signum) in
  st_ret (if decide (r_status r = SGX_SUCCESS) then r_result r else -1).

Definition getpid : ST (world H) Z :=
  let* r := perform U_getpid in
  st_ret (if decide (r_status r = SGX_SUCCESS) then r_result r else -1).

Definition free (p : Z) : ST (world H) unit :=
  let* _ := perform (U_free p) in st_ret tt.

(** ** Calls that return a pointer into the host's memory *)
Definition malloc (size : Z) : ST (world H) Z :=
  let* r := perform (U_malloc size) in
  if decide (r_status r = SGX_SUCCESS) then
    if negb (r_result r =? 0) then
      if negb (outside_ok (r_result r) size)
      then let* _ := set_errno ESGX in st_ret 0 else st_ret (r_result r)
    else let* _ := set_errno (r_error r) in st_ret 0
  else let* _ := set_errno ESGX in st_ret 0.

(** A pointer result is a [u64]; [-1_isize] as a pointer is [usize::MAX]. *)
Definition mmap (start length prot flags fd offset : Z) : ST (world H) Z :=
  let* r := perform (U_mmap start length prot flags fd offset) in
  if decide (r_status r = SGX_SUCCESS) then
    if negb (r_result r =? usize_max) then
      if negb (outside_ok (r_result r) length)
      then let* _ := set_errno ESGX in st_ret usize_max else st_ret (r_result r)
    else let* _ := set_errno (r_error r) in st_ret (r_result r)
  else let* _ := set_errno ESGX in st_ret usize_max.

Definition getenv (name : Z) : ST (world H) Z :=
  let* r := perform (U_getenv name) in
  if decide (r_status r = SGX_SUCCESS) then
    if negb (r_result r =? 0) then
      let* n := strlen (r_result r) in
      st_ret (if negb (outside_ok (r_result r) (wrap 64 (n + 1))) then 0 else r_result r)
    else st_ret (r_result r)
  else st_ret 0.

Definition realpath (pathname : Z) : ST (world H) Z :=
  let* r := perform (U_realpath pathname) in
  if decide (r_status r = SGX_SUCCESS) then
    if negb (r_result r =? 0) then
      let* n := strlen (r_result r) in
      if negb (outside_ok (r_result r) (wrap 64 (n + 1)))
      then let* _ := set_errno ESGX in st_ret 0 else st_ret (r_result r)
    else let* _ := set_errno (r_error r) in st_ret (r_result r)
  else let* _ := set_errno ESGX in st_ret 0.

Definition getcwd (buf size : Z) : ST (world H) Z :=
  let* r := perform (U_getcwd buf size) in
  if decide (r_status r = SGX_SUCCESS) then
    if negb (r_result r =? 0) then
      if buf =? 0 then
        let* len := (if size >? 0 then st_ret size
                     else let* n := strlen (r_result r) in st_ret (wrap 64 (n + 1))) in
        if negb (outside_ok (r_result r) len)
        then let* _ := set_errno ESGX in st_ret 0 else st_ret (r_result r)
      else st_ret buf
    else let* _ := set_errno (r_error r) in st_ret (r_result r)
  else let* _ := set_errno ESGX in st_ret 0.

(** A directory stream stays an opaque pointer. *)
Definition dir_call (c : ocall) : ST (world H) Z :=
  let* r := perform c in
  if decide (r_status r = SGX_SUCCESS) then
    let* _ := (if r_result r =? 0 then set_errno (r_error r) else st_ret tt) in
    st_ret (r_result r)
  else let* _ := set_errno ESGX in st_ret 0.

Definition fdopendir (fd : Z) : ST (world H) Z := dir_call (U_fdopendir fd).
Definition opendir (pathname : Z) : ST (world H) Z := dir_call (U_opendir pathname).

Definition gai_strerror (errcode : Z) : ST (world H) Z :=
  let* r := perform (U_gai_strerror errcode) in
  if decide (r_status r = SGX_SUCCESS) then st_ret (r_result r)
  else let* _ := set_errno ESGX in st_ret 0.

(** [environ]: the entries are read one by one from the host's memory, which
    may change between two reads.  [None]: more than [fuel] entries. *)
Definition peek64 (a : Z) : ST (world H) Z := let* _ := interfere in read64 a.

Fixpoint environ_loop (fuel : nat) (p count : Z) : ST (world H) (option (option Z)) :=
  match fuel with
  | O => st_ret None
  | S fuel =>
      let* e := peek64 p in
      if e =? 0 then st_ret (Some (Some count))
      else
        let* e := peek64 p in
        let* n := strlen e in
        let* e := peek64 p in
        if negb (outside_ok e (wrap 64 (n + 1))) then st_ret (Some None)
        else environ_loop fuel (wrap 64 (p + 8)) (count + 1)
  end.

Definition environ (fuel : nat) : ST (world H) (option Z) :=
  let* r := perform U_environ in
  if decide (r_status r = SGX_SUCCESS) then
    if negb (r_result r =? 0) then
      let* c := environ_loop fuel (r_result r) 0 in
      match c with
      | None => st_ret None
      | Some None => st_ret (Some 0)
      | Some (Some count) =>
          st_ret (Some (if negb (outside_ok (r_result r) (wrap 64 (8 * count)))
                        then 0 else r_result r))
      end
    else st_ret (Some (r_result r))
  else st_ret (Some 0).

(** ** Calls that fill a structure of the caller *)

(** An offset into the buffer becomes a pointer; -1 becomes null. *)
Definition fix_field (pwd buf off : Z) : ST (world H) unit :=
  let* p := read64 (pwd + off) in
  write64 (pwd + off) (if negb (p =? usize_max) then wrap 64 (buf + p) else 0).

Definition getpwuid_r (uid pwd buf buflen passwd_result : Z) : ST (world H) Z :=
  let* r := perform (U_getpwuid_r uid pwd buf buflen passwd_result) in
  if bool_decide (r_status r = SGX_SUCCESS) && (r_result r =? 0) then
    let* pwd_ret := read64 passwd_result in
    let* _ := (if negb (pwd_ret =? 0) then
                 let* _ := fix_field pwd buf 0 in
                 let* _ := fix_field pwd buf 8 in
                 let* _ := fix_field pwd buf 24 in
                 let* _ := fix_field pwd buf 32 in
                 let* _ := fix_field pwd buf 40 in
                 write64 passwd_result pwd
               else st_ret tt) in
    st_ret (r_result r)
  else
    let* _ := write64 passwd_result 0 in
    st_ret (if negb (bool_decide (r_status r = SGX_SUCCESS)) then ESGX else r_result r).

Definition readdir64_r (dirp entry dirresult : Z) : ST (world H) Z :=
  let* r := perform (U_readdir64_r dirp entry dirresult) in
  if bool_decide (r_status r = SGX_SUCCESS) && (r_result r =? 0) then
    let* dir_ret := read64 dirresult in
    let* _ := (if negb (dir_ret =? 0) then write64 dirresult entry else st_ret tt) in
    st_ret (r_result r)
  else
    let* _ := write64 dirresult 0 in
    st_ret (if negb (bool_decide (r_status r = SGX_SUCCESS)) then ESGX else r_result r).

(** A length that goes in and comes out. *)
Definition len_call (c : Z -> ocall) (addrlen : Z) : ST (world H) Z :=
  let* len_in := (if negb (addrlen =? 0) then read32 addrlen else st_ret 0) in
  let* r := perform (c len_in) in
  let* result := int_result r in
  let* _ := (if negb (addrlen =? 0) then write32 addrlen (r_out r) else st_ret tt) in
  st_ret result.

Definition accept (sockfd addr addrlen : Z) : ST (world H) Z :=
  len_call (U_accept sockfd addr) addrlen.
Definition accept4 (sockfd addr addrlen flags : Z) : ST (world H) Z :=
  len_call (fun len_in => U_accept4 sockfd addr len_in flags) addrlen.
Definition getsockopt (sockfd level optname optval optlen : Z) : ST (world H) Z :=
  len_call (U_getsockopt sockfd level optname optval) optlen.
Definition getpeername (sockfd address addrlen : Z) : ST (world H) Z :=
  len_call (U_getpeername sockfd address) addrlen.
Definition getsockname (sockfd address addrlen : Z) : ST (world H) Z :=
  len_call (U_getsockname sockfd address) addrlen.

(** ** Transfers: data goes through a buffer in the host's memory *)
Definition alloc_tmp (count : Z) : ST (world H) Z :=
  if count <=? MAX_OCALL_ALLOC_SIZE then sgx_ocalloc count else malloc count.

Definition free_tmp (count p : Z) : ST (world H) unit :=
  if count <=? MAX_OCALL_ALLOC_SIZE then sgx_ocfree else free p.

(** [result.try_into().unwrap_or(0)] *)
Definition usize_or_0 (n : Z) : Z := if n <? 0 then 0 else n.

Definition bad_buffer (buf count : Z) : bool :=
  (buf =? 0) || negb (within_ok buf count) || (count >=? usize_max).

(** [read] and its kin; [copied] is how much of the buffer goes back to the
    caller, given the result. *)
Definition read_call (c : Z -> ocall) (copied : Z -> Z) (buf count : Z)
    : ST (world H) (Z * Z) :=
  if bad_buffer buf count then let* x := fail EINVAL in st_ret (x, 0)
  else
    let* tmp_buf := alloc_tmp count in
    if tmp_buf =? 0 then let* x := fail ENOMEM in st_ret (x, 0)
    else
      let* _ := write_zeros tmp_buf count in
      let* r := perform (c tmp_buf) in
      let* result := int_result r in
      let* _ := (if negb (result =? -1) then copy_nonoverlapping tmp_buf buf (copied result)
                 else st_ret tt) in
      let* _ := free_tmp count tmp_buf in
      st_ret (result, r_out r).

Definition read (fd buf count : Z) : ST (world H) Z :=
  let* (result, _) := read_call (fun tmp => U_read fd tmp count)
    (fun result => Z.min count (usize_or_0 result)) buf count in
  st_ret result.

Definition pread64 (fd buf count offset : Z) : ST (world H) Z :=
  let* (result, _) := read_call (fun tmp => U_pread64 fd tmp count offset)
    (fun result => Z.min count (usize_or_0 result)) buf count in
  st_ret result.

Definition recv (sockfd buf len flags : Z) : ST (world H) Z :=
  let* (result, _) := read_call (fun tmp => U_recv sockfd tmp len flags)
    (fun _ => len) buf len in
  st_ret result.

(** An early return leaves [*addrlen] alone. *)
Definition recvfrom (sockfd buf len flags addr addrlen : Z) : ST (world H) Z :=
  let* len_in := (if negb (addrlen =? 0) then read32 addrlen else st_ret 0) in
  if bad_buffer buf len then fail EINVAL
  else
    let* tmp_buf := alloc_tmp len in
    if tmp_buf =? 0 then fail ENOMEM
    else
      let* _ := write_zeros tmp_buf len in
      let* r := perform (U_recvfrom sockfd tmp_buf len flags addr len_in) in
      let* result := int_result r in
      let* _ := (if negb (result =? -1) then copy_nonoverlapping tmp_buf buf len
                 else st_ret tt) in
      let* _ := free_tmp len tmp_buf in
      let* _ := (if negb (addrlen =? 0) then write32 addrlen (r_out r) else st_ret tt) in
      st_ret result.

Definition write_call (c : Z -> ocall) (buf count : Z) : ST (world H) Z :=
  if bad_buffer buf count then fail EINVAL
  else
    let* tmp_buf := alloc_tmp count in
    if tmp_buf =? 0 then fail ENOMEM
    else
      let* _ := copy_nonoverlapping buf tmp_buf count in
      let* r := perform (c tmp_buf) in
      let* result := int_result r in
      let* _ := free_tmp count tmp_buf in
      st_ret result.

Definition write (fd buf count : Z) : ST (world H) Z :=
  write_call (fun tmp => U_write fd tmp count) buf count.
Definition pwrite64 (fd buf count offset : Z) : ST (world H) Z :=
  write_call (fun tmp => U_pwrite64 fd tmp count offset) buf count.
Definition send (sockfd buf len flags : Z) : ST (world H) Z :=
  write_call (fun tmp => U_send sockfd tmp len flags) buf len.
Definition sendto (sockfd buf len flags addr addrlen : Z) : ST (world H) Z :=
  write_call (fun tmp => U_sendto sockfd tmp len flags addr addrlen) buf len.

(** ** Vectored transfers *)

(** The caller's array.  The wrappers make a [&[iovec]] of it with [from_raw_parts], keep
    it across the OCALL and go through it again afterwards; for as long as such a
    reference lives its memory does not change, so what is read first is what is read
    later. *)
Definition load_iovecs (w : world H) (iov : Z) (n : nat) : list iovec :=
  (fun i => let p := iov + iovec_size * Z.of_nat i in
            {| iov_base := load64 w p; iov_len := load64 w (p + 8) |}) <$> seq 0 n.

(** The checks on the caller's buffers, and their total size. *)
Fixpoint check_iovecs (v : list iovec) (total_size : Z) : option Z :=
  match v with
  | [] => Some total_size
  | io :: v =>
      if negb (iov_base io =? 0) && (iov_len io >? 0) && within_ok (iov_base io) (iov_len io) then
        if total_size + iov_len io >? usize_max then None
        else check_iovecs v (total_size + iov_len io)
      else None
  end.

(** The same lengths, one after the other from [p]. *)
Fixpoint layout (p : Z) (v : list iovec) : list iovec :=
  match v with
  | [] => []
  | io :: v => {| iov_base := p; iov_len := iov_len io |} :: layout (p + iov_len io) v
  end.

Fixpoint copy_in (tmp v : list iovec) : ST (world H) unit :=
  match tmp, v with
  | t :: tmp, io :: v =>
      let* _ := copy_nonoverlapping (iov_base io) (iov_base t) (iov_len io) in copy_in tmp v
  | _, _ => st_ret tt
  end.

(** The copy loop of [readv]: [saturating_sub] and the early exit. *)
Fixpoint copy_back (tmp v : list iovec) (remaining : Z) : ST (world H) unit :=
  match tmp, v with
  | t :: tmp, io :: v =>
      if remaining =? 0 then st_ret tt
      else
        let* _ := copy_nonoverlapping (iov_base t) (iov_base io)
                    (Z.min (iov_len io) remaining) in
        copy_back tmp v (Z.max 0 (remaining - iov_len io))
  | _, _ => st_ret tt
  end.

Definition bad_iov (iov iovcnt : Z) : bool :=
  (iov =? 0) || (iovcnt <=? 0) || negb (within_ok iov (wrap 64 (iovcnt * iovec_size))).

Definition readv_call (c : list iovec -> ocall) (iov iovcnt : Z) : ST (world H) Z :=
  if bad_iov iov iovcnt then fail EINVAL
  else
    let* w := st_get in
    let v := load_iovecs w iov (Z.to_nat iovcnt) in
    match check_iovecs v 0 with
    | None => fail EINVAL
    | Some total_size =>
        let* iobase := alloc_tmp total_size in
        if iobase =? 0 then fail ENOMEM
        else
          let* _ := write_zeros iobase total_size in
          let tmpiovec := layout iobase v in
          let* r := perform (c tmpiovec) in
          let* result := int_result r in
          let* _ := (if negb (result =? -1) then copy_back tmpiovec v (usize_or_0 result)
                     else st_ret tt) in
          let* _ := free_tmp total_size iobase in
          st_ret result
    end.

Definition readv (fd iov iovcnt : Z) : ST (world H) Z :=
  readv_call (fun t => U_readv fd t iovcnt) iov iovcnt.
Definition preadv64 (fd iov iovcnt offset : Z) : ST (world H) Z :=
  readv_call (fun t => U_preadv64 fd t iovcnt offset) iov iovcnt.

Definition writev_call (c : list iovec -> ocall) (iov iovcnt : Z) : ST (world H) Z :=
  if bad_iov iov iovcnt then fail EINVAL
  else
    let* w := st_get in
    let v := load_iovecs w iov (Z.to_nat iovcnt) in
    match check_iovecs v 0 with
    | None => fail EINVAL
    | Some total_size =>
        let* iobase := alloc_tmp total_size in
        if iobase =? 0 then fail ENOMEM
        else
          let* _ := write_zeros iobase total_size in
          let tmpiovec := layout iobase v in
          let* _ := copy_in tmpiovec v in
          let* r := perform (c tmpiovec) in
          let* result := int_result r in
          let* _ := free_tmp total_size iobase in
          st_ret result
    end.

Definition writev (fd iov iovcnt : Z) : ST (world H) Z :=
  writev_call (fun t => U_writev fd t iovcnt) iov iovcnt.
Definition pwritev64 (fd iov iovcnt offset : Z) : ST (world H) Z :=
  writev_call (fun t => U_pwritev64 fd t iovcnt offset) iov iovcnt.

(** ** Messages *)
Record msghdr := {
  msg_name : Z; msg_namelen : Z; msg_iov : Z; msg_iovlen : Z;
  msg_control : Z; msg_controllen : Z
}.

Definition load_msghdr (w : world H) (msg : Z) : msghdr := {|
  msg_name := load64 w msg; msg_namelen := load32 w (msg + 8);
  msg_iov := load64 w (msg + 16); msg_iovlen := load64 w (msg + 24);
  msg_control := load64 w (msg + 32); msg_controllen := load64 w (msg + 40) |}.

(** A buffer that is there, or none. *)
Definition optional (p n : Z) : Z * Z :=
  if negb (p =? 0) && (n >? 0) then (p, n) else (0, 0).

Definition msg_iovecs (w : world H) (mhdr : msghdr) : option (list iovec * Z) :=
  if negb (msg_iov mhdr =? 0) && (msg_iovlen mhdr >? 0)
     && within_ok (msg_iov mhdr) (wrap 64 (msg_iovlen mhdr * iovec_size)) then
    let iovs := load_iovecs w (msg_iov mhdr) (Z.to_nat (msg_iovlen mhdr)) in
    match check_iovecs iovs 0 with Some total => Some (iovs, total) | None => None end
  else None.

Definition bad_msg (msg : Z) : bool := (msg =? 0) || negb (within_ok msg msghdr_size).

Definition sendmsg (sockfd msg flags : Z) : ST (world H) Z :=
  if bad_msg msg then fail EINVAL
  else
    let* w := st_get in
    let mhdr := load_msghdr w msg in
    let '(name, namelen) := optional (msg_name mhdr) (msg_namelen mhdr) in
    match msg_iovecs w mhdr with
    | None => fail EINVAL
    | Some (iovecs, total_size) =>
        let '(ctl, ctllen) := optional (msg_control mhdr) (msg_controllen mhdr) in
        let* io_base := malloc total_size in
        if io_base =? 0 then fail ENOMEM
        else
          let* _ := write_zeros io_base total_size in
          let io_data := layout io_base iovecs in
          let* _ := copy_in io_data iovecs in
          let* r := perform (U_sendmsg sockfd name namelen io_data
                               (msg_iovlen mhdr) ctl ctllen flags) in
          let* result := int_result r in
          let* _ := free io_base in
          st_ret result
    end.

(** The copy loop of [recvmsg]. *)
Fixpoint copy_msg (tmp v : list iovec) (remaining : Z) : ST (world H) unit :=
  match tmp, v with
  | t :: tmp, io :: v =>
      let copy_len := Z.min (iov_len io) remaining in
      let* _ := copy_nonoverlapping (iov_base t) (iov_base io) copy_len in
      if remaining - copy_len =? 0 then st_ret tt
      else copy_msg tmp v (remaining - copy_len)
  | _, _ => st_ret tt
  end.

Definition recvmsg (sockfd msg flags : Z) : ST (world H) Z :=
  if bad_msg msg then fail EINVAL
  else
    let* w := st_get in
    let mhdr := load_msghdr w msg in
    let '(name, namelen) := optional (msg_name mhdr) (msg_namelen mhdr) in
    match msg_iovecs w mhdr with
    | None => fail EINVAL
    | Some (iovecs, total_size) =>
        let '(ctl, ctllen) := optional (msg_control mhdr) (msg_controllen mhdr) in
        let* io_base := malloc total_size in
        if io_base =? 0 then fail ENOMEM
        else
          let* _ := write_zeros io_base total_size in
          let io_data := layout io_base iovecs in
          let* r := perform (U_recvmsg sockfd name namelen io_data
                               (msg_iovlen mhdr) ctl ctllen flags) in
          let* result := int_result r in
          let* result := (if (r_out r >? namelen) || (r_controllen r >? ctllen)
                          then fail ESGX else st_ret result) in
          let* _ := (if result >=? 0 then
                       let* _ := copy_msg io_data iovecs
                                   (Z.min (usize_or_0 result) total_size) in
                       let* _ := write32 (msg + 8) (r_out r) in
                       let* _ := write64 (msg + 40) (r_controllen r) in
                       write32 (msg + 48) (r_flags r)
                     else st_ret tt) in
          let* _ := free io_base in
          st_ret result
    end.
End calls.
End Libc.
