(* ===== verification/OcallProofs.v ===== *)
(** OcallProofs: what the enclave is safe from, whatever the host answers. *)
From Stdlib Require Import ZArith Lia Strings.Byte.
From stdpp Require Import base numbers list option tactics gmap.
From S2P Require Import Prelude SgxStatus Trts Ocall ToyMachine.
Import Bounds Libc.

(** * The laws of the host interface *)
Definition in_ranges (a : Z) (rs : list (Z * Z)) : Prop :=
  exists p n, (p, n) ∈ rs /\ p <= a < p + n.

Section relations.
Context {H : Type} `{Region}.

(** What the host can see. *)
Definition view (w1 w2 : world H) : Prop := umem w1 = umem w2 /\ host w1 = host w2.

(** Two worlds agree on what a call passes in. *)
Definition agree_in (w1 w2 : world H) (x : inarg) : Prop :=
  match x with
  | InBuf p n => forall a, p <= a < p + n -> load w1 a = load w2 a
  | InStr p => p = 0 \/ exists n, 0 <= n /\ load w1 (p + n) = Byte.x00 /\
                 forall a, p <= a <= p + n -> load w1 a = load w2 a
  end.

Definition private (w w' : world H) : Prop :=
  errno w' = errno w /\ heap w' = heap w /\ fault w' = fault w.

(** Results that are pointers, hence [u64]s. *)
Definition returns_pointer (c : ocall) : bool :=
  match c with
  | U_malloc _ | U_mmap _ _ _ _ _ _ | U_environ | U_getenv _ | U_realpath _ | U_getcwd _ _ => true
  | _ => false
  end.

Definition outside_range (p n : Z) : Prop := forall a, p <= a < p + n -> inside a = false.
End relations.

(** The host writes its own memory and the [out] parameters; it reads its own
    memory and the [in] parameters.  Intel's allocator gives memory outside the
    enclave; [strlen] reads up to the first zero. *)
Class HostLaws {H : Type} `{Region} `{Host H} : Prop := {
  perform_tmem c w a : ~ in_ranges a (outs c) -> tmem (perform c w).2 a = tmem w a;
  perform_private c w : private w (perform c w).2;
  perform_pointer c w : returns_pointer c = true ->
    0 <= r_result (perform c w).1 <= usize_max;
  perform_view c w1 w2 : view w1 w2 -> Forall (agree_in w1 w2) (ins c) ->
    (perform c w1).1 = (perform c w2).1 /\ view (perform c w1).2 (perform c w2).2;
  perform_out c w1 w2 a : view w1 w2 -> Forall (agree_in w1 w2) (ins c) ->
    tmem w1 a = tmem w2 a -> tmem (perform c w1).2 a = tmem (perform c w2).2 a;
  interfere_tmem w : tmem (interfere w).2 = tmem w;
  interfere_private w : private w (interfere w).2;
  interfere_view w1 w2 : view w1 w2 -> view (interfere w1).2 (interfere w2).2;
  ocalloc_tmem n w : tmem (sgx_ocalloc n w).2 = tmem w;
  ocalloc_private n w : private w (sgx_ocalloc n w).2;
  ocalloc_outside n w :
    (sgx_ocalloc n w).1 = 0 \/ outside_range (sgx_ocalloc n w).1 n;
  ocalloc_view n w1 w2 : view w1 w2 ->
    (sgx_ocalloc n w1).1 = (sgx_ocalloc n w2).1 /\ view (sgx_ocalloc n w1).2 (sgx_ocalloc n w2).2;
  ocfree_tmem w : tmem (sgx_ocfree w).2 = tmem w;
  ocfree_private w : private w (sgx_ocfree w).2;
  ocfree_view w1 w2 : view w1 w2 -> view (sgx_ocfree w1).2 (sgx_ocfree w2).2;
  strlen_range m p : 0 <= c_strlen m p < usize_max;
  strlen_agree m1 m2 p : (forall a, p <= a <= p + c_strlen m1 p -> m1 a = m2 a) ->
    c_strlen m2 p = c_strlen m1 p
}.

(** What edger8r does with an [out] parameter that is not null: when the call succeeds
    its bytes are overwritten, all of them, by those that the host left in the
    marshalling buffer, so what was there before plays no part. *)
Class HostFills {H : Type} `{Region} `{Host H} : Prop := {
  perform_fills c w1 w2 p n a : view w1 w2 -> Forall (agree_in w1 w2) (ins c) ->
    r_status (perform c w1).1 = SGX_SUCCESS -> (p, n) ∈ outs c -> p <> 0 ->
    p <= a < p + n -> inside a = true -> tmem (perform c w1).2 a = tmem (perform c w2).2 a
}.

(** * Integrity *)
Section integrity.
Context {H : Type} `{Region} `{Enclave} `{!EnclaveLaws e_base e_size} `{Host H} `{!HostLaws (H := H)}.
Implicit Types (R : Z -> Prop) (w : world H).

(** [touches R m]: of the enclave's memory [m] writes at most [R]. *)
Definition touches {A} R (m : ST (world H) A) : Prop :=
  forall w a, ~ R a -> tmem (m w).2 a = tmem w a.

Lemma touches_ret {A} R (x : A) : touches R (st_ret x).
Proof. done. Qed.

Lemma touches_bind {A B} R (m : ST (world H) A) (k : A -> ST (world H) B) :
  touches R m -> (forall x, touches R (k x)) -> touches R (st_bind m k).
Proof.
  intros Hm Hk w a Ha. unfold st_bind. specialize (Hm w a Ha). destruct (m w) as [x w1].
  rewrite Hk by done. done.
Qed.

(** A step whose value satisfies [P]. *)
Lemma touches_bind_via {A B} R (P : A -> Prop) (m : ST (world H) A) (k : A -> ST (world H) B) :
  always P m -> touches R m -> (forall x, P x -> touches R (k x)) -> touches R (st_bind m k).
Proof.
  intros HP Hm Hk w a Ha. unfold st_bind. specialize (Hm w a Ha). specialize (HP w).
  destruct (m w) as [x w1]. by rewrite Hk.
Qed.

Lemma touches_weaken {A} R R' (m : ST (world H) A) :
  touches R m -> (forall a, R a -> R' a) -> touches R' m.
Proof. intros Hm HR w a Ha. apply Hm. auto. Qed.

Lemma touches_perform R c : (forall a, in_ranges a (outs c) -> R a) -> touches R (perform c).
Proof. intros HR w a Ha. apply perform_tmem. auto. Qed.

Lemma touches_interfere R : touches R interfere.
Proof. intros w a _. by rewrite interfere_tmem. Qed.

Lemma touches_set_errno R e : touches R (set_errno e).
Proof. done. Qed.

Lemma touches_store R p bs : (forall a, p <= a < p + zlen bs -> inside a = true -> R a) ->
  touches R (store p bs).
Proof.
  intros HR w a Ha. simpl. unfold overwrite. destruct (inside a) eqn:Ei; [|done]. simpl.
  destruct (Z.leb_spec p a); [|done]. destruct (Z.ltb_spec a (p + zlen bs)); [|done].
  destruct Ha. by apply HR.
Qed.

Lemma touches_store_outside R p bs : outside_range p (zlen bs) -> touches R (store p bs).
Proof. intros Ho. apply touches_store. intros a Ha E. rewrite Ho in E; [done|lia]. Qed.

Lemma zlen_load_bytes w a n : zlen (load_bytes w a n) = Z.of_nat n.
Proof. unfold zlen, load_bytes. by rewrite length_fmap, length_seq. Qed.

Lemma touches_copy R src dst n :
  (forall a, dst <= a < dst + n -> R a) -> touches R (copy_nonoverlapping src dst n).
Proof.
  intros HR w a Ha. apply (touches_store R); [|done]. intros x Hx _. apply HR.
  rewrite zlen_load_bytes in Hx. lia.
Qed.

Lemma touches_copy_outside R src dst n : outside_range dst n ->
  touches R (copy_nonoverlapping src dst n).
Proof.
  intros Ho w a Ha. apply (touches_store_outside R); [|done]. intros x Hx. apply Ho.
  rewrite zlen_load_bytes in Hx. lia.
Qed.

Lemma touches_zeros_outside R p n : outside_range p n -> touches R (write_zeros p n).
Proof.
  intros Ho. apply touches_store_outside. intros a Ha. apply Ho. unfold zlen in Ha.
  rewrite length_zeros in Ha. lia.
Qed.

Lemma touches_write64 R p v : (forall a, p <= a < p + 8 -> R a) -> touches R (write64 p v).
Proof.
  intros HR. apply touches_store. intros a Ha _. apply HR. unfold zlen in Ha.
  rewrite length_le_bytes in Ha. lia.
Qed.

Lemma touches_write32 R p v : (forall a, p <= a < p + 4 -> R a) -> touches R (write32 p v).
Proof.
  intros HR. apply touches_store. intros a Ha _. apply HR. unfold zlen in Ha.
  rewrite length_le_bytes in Ha. lia.
Qed.

Lemma touches_read64 R p : touches R (read64 p).
Proof. done. Qed.
Lemma touches_read32 R p : touches R (read32 p).
Proof. done. Qed.
Lemma touches_strlen R p : touches R (strlen p).
Proof. done. Qed.
Lemma touches_ocfree R : touches R sgx_ocfree.
Proof. intros w a _. by rewrite ocfree_tmem. Qed.

Create HintDb ocall.
Hint Resolve touches_ret touches_interfere touches_set_errno touches_read64 touches_read32
  touches_strlen touches_ocfree touches_write64 touches_write32 touches_copy touches_copy_outside
  touches_zeros_outside touches_perform : ocall.

(** Take a wrapper apart. *)
Ltac touch_part :=
  match goal with
  | |- touches _ (st_bind _ _) => apply touches_bind; [|intros ?]
  | |- touches _ (match ?x with _ => _ end) => destruct x
  end.
Ltac touch_parts := repeat touch_part.
Ltac touch := repeat first [progress eauto with ocall|touch_part].

Lemma touches_fail R e : touches R (fail e).
Proof. unfold fail. touch. Qed.

Lemma touches_int_result R r : touches R (int_result r).
Proof. unfold int_result, fail. touch. Qed.

Lemma touches_int_call R c : (forall a, in_ranges a (outs c) -> R a) -> touches R (int_call c).
Proof. intros HR. unfold int_call. touch. apply touches_int_result. Qed.

Lemma touches_none R c : outs c = [] -> touches R (perform c).
Proof. intros E. apply touches_perform. rewrite E. intros a (p & n & Hin & _). set_solver. Qed.
Hint Resolve touches_fail touches_int_result : ocall.
Hint Extern 1 (touches _ (perform _)) => apply touches_none; reflexivity : ocall.

Lemma touches_malloc R n : touches R (malloc n).
Proof. unfold malloc. touch. Qed.

Lemma touches_free R p : touches R (free p).
Proof. unfold free. touch. Qed.
Hint Resolve touches_malloc touches_free : ocall.

(** A block from [malloc] is outside the enclave. *)
Lemma malloc_outside n : 0 < n <= usize_max ->
  always (fun p => p = 0 \/ outside_range p n) (malloc n).
Proof.
  intros Hn w. unfold malloc, st_bind. pose proof (perform_pointer (U_malloc n) w eq_refl) as Hp.
  destruct (perform (U_malloc n) w) as [r w1]. simpl in Hp.
  case_decide; [|simpl; auto]. destruct (Z.eqb_spec (r_result r) 0); simpl; [auto|].
  unfold outside_ok. destruct (Z.eqb_spec (sgx_is_outside_enclave (r_result r) n) 0) as [|Ho];
    simpl; [auto|]. right. apply outside_spec in Ho; [|done|lia].
  intros a Ha. unfold inside. destruct (Z.leb_spec e_base a); [|done].
  destruct (Z.ltb_spec a (e_base + e_size)); [lia|done].
Qed.

Lemma alloc_tmp_outside n : n <= usize_max ->
  always (fun p => p = 0 \/ outside_range p n) (alloc_tmp n).
Proof.
  intros Hn. unfold alloc_tmp. destruct (Z.leb_spec n MAX_OCALL_ALLOC_SIZE) as [|Hm].
  - intros w. apply ocalloc_outside.
  - apply malloc_outside. unfold MAX_OCALL_ALLOC_SIZE in Hm. lia.
Qed.

Lemma touches_alloc_tmp R n : touches R (alloc_tmp n).
Proof. unfold alloc_tmp. touch. intros w a _. by rewrite ocalloc_tmem. Qed.

Lemma touches_free_tmp R n p : touches R (free_tmp n p).
Proof. unfold free_tmp. touch. Qed.
Hint Resolve touches_alloc_tmp touches_free_tmp : ocall.

Lemma in_ranges_one a p n : in_ranges a [(p, n)] <-> p <= a < p + n.
Proof.
  split; [|exists p, n; set_solver].
  intros (q & m & Hin%list_elem_of_singleton & Ha). by simplify_eq.
Qed.

Lemma bad_buffer_size buf n : bad_buffer buf n = false -> n <= usize_max.
Proof.
  unfold bad_buffer. intros E. apply orb_false_iff in E as [_ E].
  destruct (Z.geb_spec n usize_max); [done|lia].
Qed.

(** What the transfers share: a temporary buffer outside the enclave. *)
Lemma touches_alloc_then {A} R n (k : Z -> ST (world H) A) : n <= usize_max ->
  touches R (k 0) -> (forall p, outside_range p n -> touches R (k p)) ->
  touches R (st_bind (alloc_tmp n) k).
Proof.
  intros Hn Hz Hk. eapply touches_bind_via; [by apply alloc_tmp_outside|touch|].
  intros p [->|Hp]; auto.
Qed.

Lemma touches_read_call R c copied buf n :
  (forall r, copied r <= n) -> (forall t, outs (c t) = []) ->
  (forall a, buf <= a < buf + n -> R a) -> touches R (read_call c copied buf n).
Proof.
  intros Hc Ho HR. unfold read_call. destruct (bad_buffer buf n) eqn:E; [touch|].
  apply bad_buffer_size in E. apply touches_alloc_then; [done|simpl; touch|].
  intros p Hp. touch; [by apply touches_none|]. apply touches_copy. intros a Ha. apply HR.
  match goal with _ : _ <= a < _ + copied ?r |- _ => specialize (Hc r) end. lia.
Qed.

Lemma touches_write_call R c buf n : (forall t, outs (c t) = []) ->
  touches R (write_call c buf n).
Proof.
  intros Ho. unfold write_call. destruct (bad_buffer buf n) eqn:E; [touch|].
  apply bad_buffer_size in E. apply touches_alloc_then; [done|simpl; touch|].
  intros p Hp. touch. by apply touches_none.
Qed.

(** ** Vectors *)
Definition buffers (v : list iovec) : list (Z * Z) := (fun io => (iov_base io, iov_len io)) <$> v.
Definition total (v : list iovec) : Z := foldr (fun io n => iov_len io + n) 0 v.

Lemma check_iovecs_spec v : forall t n, check_iovecs v t = Some n ->
  n = t + total v /\ Forall (fun io => 0 < iov_len io) v /\ (v = [] \/ n <= usize_max).
Proof.
  induction v as [|io v IH]; intros t n; simpl; [intros [= ->]; split_and!; [lia|done|auto]|].
  destruct (negb _ && _ && _) eqn:Eg; [|done].
  destruct (Z.gtb_spec (t + iov_len io) usize_max) as [|Hle]; [done|]. intros Hc.
  destruct (IH _ _ Hc) as (-> & Hf & Hv). apply andb_true_iff in Eg as [Eg _].
  apply andb_true_iff in Eg as [_ Eg].
  split_and!; [lia|constructor; [lia|done]|]. right. destruct Hv as [->|]; simpl; lia.
Qed.

Lemma layout_outside v : forall p, Forall (fun io => 0 < iov_len io) v ->
  outside_range p (total v) ->
  Forall2 (fun t io => outside_range (iov_base t) (iov_len io)) (layout p v) v.
Proof.
  induction v as [|io v IH]; intros p Hv Ho; [constructor|]. simpl in *.
  apply Forall_cons in Hv as [Hio Hv].
  assert (0 <= total v) by (clear -Hv; induction Hv; simpl in *; lia).
  constructor; [|apply IH; [done|]]; intros a Ha; apply Ho; simpl in *; lia.
Qed.

Lemma touches_copy_in R tmp v :
  Forall2 (fun t io => outside_range (iov_base t) (iov_len io)) tmp v ->
  touches R (copy_in tmp v).
Proof. induction 1; simpl; touch. Qed.

Lemma in_ranges_cons a p n rs : in_ranges a ((p, n) :: rs) <-> p <= a < p + n \/ in_ranges a rs.
Proof.
  unfold in_ranges. split.
  - intros (q & m & [E|Hin]%elem_of_cons & Ha); [simplify_eq; auto|eauto].
  - intros [Ha|(q & m & Hin & Ha)]; [exists p, n|exists q, m]; set_solver.
Qed.

Lemma in_ranges_nil a : ~ in_ranges a [].
Proof. intros (p & n & Hin & _). set_solver. Qed.

Lemma touches_copy_back R tmp : forall v rem,
  (forall a, in_ranges a (buffers v) -> R a) -> touches R (copy_back tmp v rem).
Proof.
  induction tmp as [|t tmp IH]; intros [|io v] rem HR; simpl; touch.
  - apply touches_copy. intros a Ha. apply HR, in_ranges_cons. left. lia.
  - apply IH. intros a Ha. apply HR, in_ranges_cons. by right.
Qed.

Lemma touches_copy_msg R tmp : forall v rem,
  (forall a, in_ranges a (buffers v) -> R a) -> touches R (copy_msg tmp v rem).
Proof.
  induction tmp as [|t tmp IH]; intros [|io v] rem HR; simpl; touch.
  - apply touches_copy. intros a Ha. apply HR, in_ranges_cons. left. lia.
  - apply IH. intros a Ha. apply HR, in_ranges_cons. by right.
Qed.

Lemma touches_readv_call w c iov n a : (forall t, outs (c t) = []) ->
  ~ in_ranges a (buffers (load_iovecs w iov (Z.to_nat n))) ->
  tmem (readv_call c iov n w).2 a = tmem w a.
Proof.
  intros Ho. unfold readv_call. destruct (bad_iov iov n); [done|]. unfold st_bind at 1, st_get.
  set (v := load_iovecs _ _ _). destruct (check_iovecs v 0) as [m|] eqn:Ec; [|done].
  destruct (check_iovecs_spec _ _ _ Ec) as (-> & Hv & Hm).
  apply (touches_alloc_then (fun a => in_ranges a (buffers v))).
  - destruct Hm as [->|]; [done|lia].
  - simpl. touch.
  - intros p Hp. touch; [by apply touches_none|by apply touches_copy_back].
Qed.

Lemma touches_get {A} R (k : world H -> ST (world H) A) :
  (forall w, touches R (k w)) -> touches R (st_bind st_get k).
Proof. intros Hk w. apply (Hk w w). Qed.

Lemma touches_writev_call R c iov n : (forall t, outs (c t) = []) ->
  touches R (writev_call c iov n).
Proof.
  intros Ho. unfold writev_call. destruct (bad_iov iov n); [touch|].
  apply touches_get. intros w. set (v := load_iovecs _ _ _).
  destruct (check_iovecs v 0) as [m|] eqn:Ec; [|touch].
  destruct (check_iovecs_spec _ _ _ Ec) as (-> & Hv & Hm).
  apply touches_alloc_then; [destruct Hm as [->|]; [done|lia]|simpl; touch|].
  intros p Hp. touch; [apply touches_copy_in, layout_outside; auto|by apply touches_none].
Qed.

(** ** Messages *)
Lemma total_pos v : Forall (fun io => 0 < iov_len io) v -> v <> [] -> 0 < total v.
Proof.
  intros Hv. induction Hv as [|io v Hio Hv IH]; [done|]. intros _. simpl.
  destruct v as [|io' v]; [simpl; lia|]. specialize (IH ltac:(done)). lia.
Qed.

Lemma msg_iovecs_spec w m v n : msg_iovecs w m = Some (v, n) ->
  n = total v /\ Forall (fun io => 0 < iov_len io) v /\ 0 < n <= usize_max /\
  v = load_iovecs w (msg_iov m) (Z.to_nat (msg_iovlen m)).
Proof.
  unfold msg_iovecs. destruct (negb _ && (msg_iovlen m >? 0) && _) eqn:Eg; [|done].
  destruct (check_iovecs _ 0) as [k|] eqn:Ec; [|done]. intros [= <- <-].
  destruct (check_iovecs_spec _ _ _ Ec) as (-> & Hv & Hm).
  apply andb_true_iff in Eg as [Eg _]. apply andb_true_iff in Eg as [_ Eg].
  assert (load_iovecs w (msg_iov m) (Z.to_nat (msg_iovlen m)) <> []).
  { intros E%(f_equal length). unfold load_iovecs in E. rewrite length_fmap, length_seq in E.
    simpl in E. lia. }
  split_and!; try done; [|destruct Hm; [done|lia]]. by apply total_pos.
Qed.

Lemma touches_malloc_then {A} R n (k : Z -> ST (world H) A) : 0 < n <= usize_max ->
  touches R (k 0) -> (forall p, outside_range p n -> touches R (k p)) ->
  touches R (st_bind (malloc n) k).
Proof.
  intros Hn Hz Hk. eapply touches_bind_via; [by apply malloc_outside|touch|].
  intros p [->|Hp]; auto.
Qed.

Lemma touches_sendmsg R sockfd msg flags : touches R (sendmsg sockfd msg flags).
Proof.
  unfold sendmsg. destruct (bad_msg msg); [touch|]. apply touches_get. intros w.
  destruct (optional _ _). destruct (msg_iovecs w _) as [[v n]|] eqn:Em; [|touch].
  destruct (msg_iovecs_spec _ _ _ _ Em) as (-> & Hv & Hn & _). destruct (optional _ _).
  apply touches_malloc_then; [done|simpl; touch|].
  intros p Hp. touch. apply touches_copy_in, layout_outside; auto.
Qed.

(** What [recvmsg] may write. *)
Definition msg_ranges (w : world H) (msg : Z) : list (Z * Z) :=
  let mhdr := load_msghdr w msg in
  [(msg, msghdr_size); optional (msg_name mhdr) (msg_namelen mhdr);
   optional (msg_control mhdr) (msg_controllen mhdr)]
  ++ buffers (load_iovecs w (msg_iov mhdr) (Z.to_nat (msg_iovlen mhdr))).

Lemma touches_recvmsg w sockfd msg flags a :
  ~ in_ranges a (msg_ranges w msg) -> tmem (recvmsg sockfd msg flags w).2 a = tmem w a.
Proof.
  unfold recvmsg. destruct (bad_msg msg); [done|]. unfold st_bind at 1, st_get.
  unfold msg_ranges. set (mhdr := load_msghdr w msg).
  destruct (optional (msg_name mhdr) _) as [name namelen].
  destruct (msg_iovecs w mhdr) as [[v n]|] eqn:Em; [|done].
  destruct (msg_iovecs_spec _ _ _ _ Em) as (-> & Hv & Hn & <-).
  destruct (optional (msg_control mhdr) _) as [ctl ctllen].
  set (rs := _ ++ _). apply (touches_malloc_then (fun a => in_ranges a rs)); [done|simpl; touch|].
  assert (forall a, msg <= a < msg + msghdr_size -> in_ranges a rs) as Hmsg.
  { intros x Hx. apply in_ranges_cons. by left. }
  unfold msghdr_size in Hmsg.
  intros p Hp. touch; try (apply touches_write32 || apply touches_write64; intros; apply Hmsg; lia).
  - apply touches_perform. intros y Hy. subst rs. simpl in *. rewrite !in_ranges_cons in *.
    pose proof (in_ranges_nil y). tauto.
  - apply touches_copy_msg. intros y Hy. subst rs. simpl. rewrite !in_ranges_cons. tauto.
Qed.

(** ** Structures and lengths of the caller *)
Definition len_at (w : world H) (addrlen : Z) : Z := if negb (addrlen =? 0) then load32 w addrlen else 0.

Lemma read_len w addrlen :
  (if negb (addrlen =? 0) then read32 addrlen else st_ret 0) w = (len_at w addrlen, w).
Proof. unfold len_at. by destruct (negb _). Qed.

Lemma touches_len_call w c addrlen a :
  ~ in_ranges a ((addrlen, 4) :: outs (c (len_at w addrlen))) ->
  tmem (len_call c addrlen w).2 a = tmem w a.
Proof.
  unfold len_call, st_bind at 1. rewrite read_len.
  set (rs := _ :: _). apply (touches_bind (fun a => in_ranges a rs)).
  - apply touches_perform. intros x Hx. apply in_ranges_cons. by right.
  - intros r. touch. apply touches_write32. intros y Hy. apply in_ranges_cons. by left.
Qed.

Lemma touches_recvfrom w sockfd buf len flags addr addrlen a :
  ~ in_ranges a [(addrlen, 4); (addr, len_at w addrlen); (buf, len)] ->
  tmem (recvfrom sockfd buf len flags addr addrlen w).2 a = tmem w a.
Proof.
  unfold recvfrom, st_bind at 1. rewrite read_len.
  destruct (bad_buffer buf len) eqn:E; [done|]. apply bad_buffer_size in E. set (rs := _ :: _).
  apply (touches_alloc_then (fun a => in_ranges a rs)); [done|simpl; touch|]. intros p Hp. touch.
  - apply touches_perform. intros y Hy. apply in_ranges_cons in Hy as [Hy|Hy%in_ranges_nil]; [|done].
    apply in_ranges_cons. right. apply in_ranges_cons. by left.
  - apply touches_copy. intros y Hy. do 2 (apply in_ranges_cons; right). apply in_ranges_cons.
    by left.
  - apply touches_write32. intros y Hy. apply in_ranges_cons. by left.
Qed.

Lemma touches_fix_field R pwd buf off : (forall a, pwd + off <= a < pwd + off + 8 -> R a) ->
  touches R (fix_field pwd buf off).
Proof. intros HR. unfold fix_field. touch. Qed.

Lemma touches_getpwuid_r uid pwd buf buflen res :
  touches (fun a => in_ranges a (outs (U_getpwuid_r uid pwd buf buflen res)))
    (getpwuid_r uid pwd buf buflen res).
Proof.
  set (R := fun a => _). assert (forall v, touches R (write64 res v)) as Hres.
  { intros v. apply touches_write64. intros a Ha. subst R. simpl. rewrite !in_ranges_cons. tauto. }
  assert (forall off, 0 <= off <= 40 -> touches R (fix_field pwd buf off)) as Hpwd.
  { intros off Hoff. apply touches_fix_field. intros a Ha. apply in_ranges_cons. left.
    unfold passwd_size. lia. }
  unfold getpwuid_r. touch_parts; first [apply Hpwd; lia|apply Hres|by apply touches_perform|done].
Qed.

Lemma touches_readdir64_r dirp entry res :
  touches (fun a => in_ranges a (outs (U_readdir64_r dirp entry res)))
    (readdir64_r dirp entry res).
Proof.
  set (R := fun a => _). assert (forall v, touches R (write64 res v)) as Hres.
  { intros v. apply touches_write64. intros a Ha. subst R. simpl. rewrite !in_ranges_cons. tauto. }
  unfold readdir64_r. touch_parts; first [apply Hres|by apply touches_perform|done].
Qed.

Lemma touches_environ_loop R fuel : forall p count, touches R (environ_loop fuel p count).
Proof. induction fuel as [|fuel IH]; intros p count; simpl; unfold peek64; touch. Qed.

Lemma touches_environ R fuel : touches R (environ fuel).
Proof. unfold environ. touch. apply touches_environ_loop. Qed.

(** ** Calls that return a pointer or a number *)
Lemma touches_getuid R : touches R getuid.
Proof. unfold getuid. touch. Qed.
Lemma touches_getpid R : touches R getpid.
Proof. unfold getpid. touch. Qed.
Lemma touches_raise R n : touches R (raise n).
Proof. unfold raise. touch. Qed.
Lemma touches_getenv R p : touches R (getenv p).
Proof. unfold getenv. touch. Qed.
Lemma touches_realpath R p : touches R (realpath p).
Proof. unfold realpath. touch. Qed.
Lemma touches_dir_call R c : outs c = [] -> touches R (dir_call c).
Proof. intros Hc. unfold dir_call. touch. by apply touches_none. Qed.
Lemma touches_gai_strerror R n : touches R (gai_strerror n).
Proof. unfold gai_strerror. touch. Qed.

Lemma touches_mmap R start len prot flags fd offset :
  touches R (mmap start len prot flags fd offset).
Proof. unfold mmap. touch. Qed.

Lemma touches_getcwd R buf size : (forall a, buf <= a < buf + size -> R a) ->
  touches R (getcwd buf size).
Proof.
  intros HR. unfold getcwd. touch_parts; try (apply touches_ret || apply touches_set_errno ||
    apply touches_strlen). apply touches_perform. intros a Ha%in_ranges_one. auto.
Qed.
End integrity.

(** * A host

    A host that keeps the laws, to evaluate the calls on.

    Its state is what can still be read from it and what was written to it. *)


#[export] Instance toy_region : Region := {| e_base := toy_base; e_size := toy_size |}.

Record toy_host := { th_input : list byte; th_output : list byte }.

Definition toy_tmp : Z := 0x200000.

(** Where its address lists are. *)
Definition toy_list : Z := 0x300000.

Definition toy_reply (n : Z) : reply :=
  {| r_status := SGX_SUCCESS; r_result := n; r_error := 0; r_out := 0; r_controllen := 0;
     r_flags := 0 |}.

(** The host's memory and state, given the rest. *)
Definition with_host (w : world toy_host) (u : Z -> byte) (h : toy_host) : world toy_host :=
  World (tmem w) u (errno w) (heap w) (fault w) h.

Definition toy_read (p n : Z) (w : world toy_host) : reply * world toy_host :=
  let d := take (Z.to_nat n) (th_input (host w)) in
  (toy_reply (zlen d),
   with_host w (overwrite (fun _ => true) p d (umem w))
     {| th_input := drop (length d) (th_input (host w)); th_output := th_output (host w) |}).

Definition toy_write (p n : Z) (w : world toy_host) : reply * world toy_host :=
  let d := (fun i => umem w (p + Z.of_nat i)) <$> seq 0 (Z.to_nat n) in
  (toy_reply n,
   with_host w (umem w)
     {| th_input := th_input (host w); th_output := th_output (host w) ++ d |}).

(** The pieces of a vector lie one after the other. *)
Definition toy_base_of (v : list iovec) : Z := match v with [] => 0 | io :: _ => iov_base io end.

(** What it leaves in the [out] parameters: zeros, and a file size of a thousand. *)
Definition toy_bytes (c : ocall) (n : Z) : list byte :=
  match c with
  | U_fstat64 _ _ => zeros 48 ++ le_bytes 8 1000 ++ zeros 88
  | _ => zeros (Z.to_nat n)
  end.

Definition toy_marshal (c : ocall) (w : world toy_host) : world toy_host :=
  match outs c with
  | [] => w
  | os => World (foldr (fun '(p, n) m => overwrite (fun _ => true) p (toy_bytes c n) m) (tmem w) os)
            (umem w) (errno w) (heap w) (fault w) (host w)
  end.

Definition toy_answer (c : ocall) (w : world toy_host) : reply * world toy_host :=
  match c with
  | U_read _ p n => toy_read p n w
  | U_readv _ v _ => toy_read (toy_base_of v) (total v) w
  | U_write _ p n => toy_write p n w
  | U_writev _ v _ => toy_write (toy_base_of v) (total v) w
  | U_malloc _ => (toy_reply toy_tmp, w)
  | U_getaddrinfo _ _ _ =>
      ({| r_status := SGX_SUCCESS; r_result := 0; r_error := 0; r_out := toy_list;
          r_controllen := 0; r_flags := 0 |}, w)
  | _ => (toy_reply 0, w)
  end.

Definition toy_perform (c : ocall) (w : world toy_host) : reply * world toy_host :=
  let '(r, w) := toy_answer c w in (r, toy_marshal c w).

Fixpoint strlen_from (m : Z -> byte) (n : nat) (k : Z) : Z :=
  match n with
  | O => k
  | S n => if decide (m k = Byte.x00) then k else strlen_from m n (k + 1)
  end.

Lemma strlen_from_range m n : forall k, k <= strlen_from m n k <= k + Z.of_nat n.
Proof. induction n as [|n IH]; intros k; simpl; [lia|]. case_decide; [lia|]. pose proof (IH (k + 1)). lia. Qed.

Lemma strlen_from_agree m1 m2 n : forall k,
  (forall a, k <= a <= strlen_from m1 n k -> m1 a = m2 a) ->
  strlen_from m2 n k = strlen_from m1 n k.
Proof.
  induction n as [|n IH]; intros k Hm; simpl in *; [done|].
  rewrite <- (Hm k) by (case_decide; [lia|]; pose proof (strlen_from_range m1 n (k + 1)); lia).
  case_decide; [done|]. apply IH. intros a Ha. apply Hm. lia.
Qed.

(** No string of the example is longer. *)
Definition toy_strlen (m : Z -> byte) (p : Z) : Z := strlen_from m 64 p - p.

#[export] Instance toy_hosts : Host toy_host := {|
  perform := toy_perform;
  interfere := fun w => (tt, w);
  sgx_ocalloc := fun _ w => (toy_tmp, w);
  sgx_ocfree := fun w => (tt, w);
  c_strlen := toy_strlen
|}.

Lemma overwrite_outside p bs m a : ~ p <= a < p + zlen bs -> overwrite (fun _ => true) p bs m a = m a.
Proof.
  intros Ha. unfold overwrite. simpl. destruct (Z.leb_spec p a); [|done].
  destruct (Z.ltb_spec a (p + zlen bs)); [lia|done].
Qed.

Lemma overwrite_same p bs m1 m2 a : m1 a = m2 a ->
  overwrite (fun _ => true) p bs m1 a = overwrite (fun _ => true) p bs m2 a.
Proof. intros E. unfold overwrite. by rewrite E. Qed.

Lemma overwrite_hit p bs m1 m2 a : p <= a < p + zlen bs ->
  overwrite (fun _ => true) p bs m1 a = overwrite (fun _ => true) p bs m2 a.
Proof.
  intros Ha. unfold overwrite. simpl. destruct (Z.leb_spec p a); [|lia].
  destruct (Z.ltb_spec a (p + zlen bs)); [done|lia].
Qed.

Lemma toy_bytes_size c p n : (p, n) ∈ outs c -> zlen (toy_bytes c n) = Z.max 0 n.
Proof.
  intros Hin. destruct c; try (unfold toy_bytes, zlen; rewrite length_zeros; lia).
  simpl in Hin. apply list_elem_of_singleton in Hin. by injection Hin as -> ->.
Qed.

Lemma toy_marshal_tmem c w : tmem (toy_marshal c w) =
  foldr (fun '(p, n) m => overwrite (fun _ => true) p (toy_bytes c n) m) (tmem w) (outs c).
Proof. unfold toy_marshal. by destruct (outs c). Qed.

Lemma toy_marshal_rest c w : umem (toy_marshal c w) = umem w /\ host (toy_marshal c w) = host w /\
  private w (toy_marshal c w).
Proof. unfold toy_marshal. by destruct (outs c). Qed.

Lemma toy_answer_tmem c w : tmem (toy_answer c w).2 = tmem w /\ private w (toy_answer c w).2.
Proof. by destruct c. Qed.

Lemma toy_perform_eq c w : toy_perform c w = ((toy_answer c w).1, toy_marshal c (toy_answer c w).2).
Proof. unfold toy_perform. by destruct (toy_answer c w). Qed.

Lemma toy_answer_view c w1 w2 : view w1 w2 ->
  (toy_answer c w1).1 = (toy_answer c w2).1 /\ view (toy_answer c w1).2 (toy_answer c w2).2.
Proof.
  intros [Hu Hh]. unfold view.
  destruct c; simpl; unfold toy_read, toy_write; simpl; by rewrite ?Hu, ?Hh.
Qed.

#[export] Instance toy_host_fills : HostFills (H := toy_host).
Proof.
  split. intros c w1 w2 p n a _ _ _ Hin _ Ha _. simpl. rewrite !toy_perform_eq. simpl.
  rewrite !toy_marshal_tmem. pose proof (toy_bytes_size c p n Hin) as Hz. revert Hin.
  induction (outs c) as [|[q m] os IH]; intros Hin; [by apply not_elem_of_nil in Hin|]. simpl.
  apply elem_of_cons in Hin as [E|Hin]; [|by apply overwrite_same, IH].
  injection E as <- <-. apply overwrite_hit. lia.
Qed.

#[export] Instance toy_host_laws : HostLaws (H := toy_host).
Proof.
  split; intros; simpl in *; try done; rewrite ?toy_perform_eq; simpl.
  - rewrite toy_marshal_tmem. destruct (toy_answer_tmem c w) as [<- _].
    assert (forall os, (forall p n, (p, n) ∈ os -> (p, n) ∈ outs c) ->
      foldr (fun '(p, n) m => overwrite (fun _ => true) p (toy_bytes c n) m) (tmem (toy_answer c w).2) os a
      = tmem (toy_answer c w).2 a) as Hall; [|by apply Hall].
    induction os as [|[p n] os IH]; intros Hos; [done|]. simpl.
    rewrite overwrite_outside; [apply IH; intros; apply Hos; by right|].
    rewrite (toy_bytes_size c p n) by (apply Hos; by left). intros Ha.
    match goal with Hn : ~ in_ranges _ _ |- _ => apply Hn end. exists p, n.
    split; [apply Hos; by left|lia].
  - destruct (toy_answer_tmem c w) as [_ (E1 & E2 & E3)].
    destruct (toy_marshal_rest c (toy_answer c w).2) as (_ & _ & E4 & E5 & E6).
    split_and!; congruence.
  - destruct c; simpl in *; done.
  - match goal with HV : view _ _ |- _ => destruct (toy_answer_view c _ _ HV) as [Hr [Hu Hh]] end.
    destruct (toy_marshal_rest c (toy_answer c w1).2) as (Eu1 & Eh1 & _).
    destruct (toy_marshal_rest c (toy_answer c w2).2) as (Eu2 & Eh2 & _).
    split; [done|]. unfold view. by rewrite Eu1, Eu2, Eh1, Eh2.
  - rewrite !toy_marshal_tmem. destruct (toy_answer_tmem c w1) as [-> _], (toy_answer_tmem c w2) as [-> _].
    induction (outs c) as [|[p n] os IH]; [done|]. simpl. by apply overwrite_same.
  - right. intros a Ha. unfold inside. simpl. unfold toy_base, toy_size, toy_tmp in *.
    destruct (Z.leb_spec 0x10000 a); [|done]. destruct (Z.ltb_spec a (0x10000 + 0x100000)); [lia|done].
  - unfold toy_strlen. pose proof (strlen_from_range m 64 p). unfold usize_max, u64_max. lia.
  - unfold toy_strlen in *. f_equal. apply strlen_from_agree. intros a Ha. auto with lia.
Qed.

(** An enclave full of one byte, with another at [a]. *)
Definition toy_start (a : Z) (b : byte) : world toy_host :=
  World (fun x => if x =? a then b else Byte.x41) (fun _ => Byte.x00) 0 ∅ false
    {| th_input := [Byte.x01; Byte.x02; Byte.x03; Byte.x04; Byte.x05]; th_output := [] |}.
