(* ===== verification/OcallNet.v ===== *)
(** OcallNet: the address lookup of sgx_libc, ocall.rs [getaddrinfo] and
    [freeaddrinfo].

    The host returns a linked list in its own memory; the enclave copies it into
    blocks of its heap and links the copies.  [heap] holds the size of every
    live block.  [fault] records a block given back that is not live, or with
    another size (undefined behaviour in Rust).

    [let cur: &addrinfo = &*cur_ptr] is a shared reference, to memory that Rust
    takes to be constant while it lives: the fields of an entry are read once.
    What they point to is read after the host may have changed it. *)
From Stdlib Require Import ZArith Lia Strings.Byte.
From stdpp Require Import base numbers list option tactics gmap.
From S2P Require Import Prelude SgxStatus Trts ToyMachine Ocall OcallProofs.
Import Bounds Libc.

(** The allocator of the enclave: zeroed blocks, apart from the live ones. *)
Class Allocator (H : Type) := { alloc_zeroed : Z -> ST (world H) Z }.

Definition AI_V4MAPPED : Z := 0x8.
Definition AI_ADDRCONFIG : Z := 0x20.
Definition AF_UNSPEC : Z := 0.

(** An [addrinfo] in memory. *)
Record ainfo := {
  i_flags : Z; i_family : Z; i_socktype : Z; i_protocol : Z;
  i_addrlen : Z; i_addr : Z; i_canonname : Z; i_next : Z
}.

Section lookup.
Context {H : Type} `{Region} `{Enclave} `{Host H} `{Allocator H}.

Definition load_info (w : world H) (p : Z) : ainfo := {|
  i_flags := load32 w p; i_family := load32 w (p + 4);
  i_socktype := load32 w (p + 8); i_protocol := load32 w (p + 12);
  i_addrlen := load32 w (p + 16); i_addr := load64 w (p + 24);
  i_canonname := load64 w (p + 32); i_next := load64 w (p + 40) |}.

Definition info_bytes (i : ainfo) : list byte :=
  le_bytes 4 (i_flags i) ++ le_bytes 4 (i_family i) ++ le_bytes 4 (i_socktype i)
  ++ le_bytes 4 (i_protocol i) ++ le_bytes 4 (i_addrlen i) ++ zeros 4
  ++ le_bytes 8 (i_addr i) ++ le_bytes 8 (i_canonname i) ++ le_bytes 8 (i_next i).

(** [drop] of a box or vector of [n] bytes at [p]. *)
Definition dealloc (p n : Z) : ST (world H) unit := fun w =>
  (tt, World (tmem w) (umem w) (errno w)
         (if decide (heap w !! p = Some n) then delete p (heap w) else heap w)
         (if decide (heap w !! p = Some n) then fault w else true) (host w)).

(** [vec![0u8; n]] filled from the host's memory at [p], then forgotten. *)
Definition copy_to_vec (p n : Z) : ST (world H) Z :=
  let* v := alloc_zeroed n in
  let* _ := interfere in
  let* _ := copy_nonoverlapping p v n in
  st_ret v.

(** The copy of one entry; [None]: a pointer of it is not outside the enclave. *)
Definition copy_addr (cur : ainfo) : ST (world H) (option (Z * Z)) :=
  if negb (i_addr cur =? 0) && (i_addrlen cur >? 0) then
    if negb (outside_ok (i_addr cur) (i_addrlen cur)) then st_ret None
    else let* v := copy_to_vec (i_addr cur) (i_addrlen cur) in st_ret (Some (i_addrlen cur, v))
  else st_ret (Some (0, 0)).

Definition copy_name (cur : ainfo) : ST (world H) (option Z) :=
  if negb (i_canonname cur =? 0) then
    let* _ := interfere in
    let* n := strlen (i_canonname cur) in
    let len := wrap 64 (n + 1) in
    if negb (outside_ok (i_canonname cur) len) then st_ret None
    else let* v := copy_to_vec (i_canonname cur) len in st_ret (Some v)
  else st_ret (Some 0).

Definition new_box (i : ainfo) : ST (world H) Z :=
  let* b := alloc_zeroed addrinfo_size in
  let* _ := store b (info_bytes i) in
  st_ret b.

(** The loop over the host's list: the boxes so far and whether all was well.
    [None]: more than [fuel] entries. *)
Fixpoint copy_list (fuel : nat) (cur_ptr : Z) (boxes : list Z)
    : ST (world H) (option (list Z * bool)) :=
  if cur_ptr =? 0 then st_ret (Some (boxes, true))
  else
    match fuel with
    | O => st_ret None
    | S fuel =>
        if negb (outside_ok cur_ptr addrinfo_size) then st_ret (Some (boxes, false))
        else
          let* _ := interfere in
          let* w := st_get in
          let cur := load_info w cur_ptr in
          let* a := copy_addr cur in
          match a with
          | None => st_ret (Some (boxes, false))
          | Some (addrlen, addr) =>
              let* n := copy_name cur in
              match n with
              | None => st_ret (Some (boxes, false))
              | Some canonname =>
                  let* b := new_box {| i_flags := i_flags cur; i_family := i_family cur;
                                       i_socktype := i_socktype cur;
                                       i_protocol := i_protocol cur; i_addrlen := addrlen;
                                       i_addr := addr; i_canonname := canonname; i_next := 0 |} in
                  copy_list fuel (i_next cur) (boxes ++ [b])
              end
          end
    end.

(** [addrinfo_vec[i].ai_next = addrinfo_vec[i + 1]] *)
Fixpoint link_boxes (boxes : list Z) : ST (world H) unit :=
  match boxes with
  | b :: (c :: _) as rest => let* _ := write64 (b + 40) c in link_boxes rest
  | _ => st_ret tt
  end.

(** The error path: the name's length, but the address's pointer. *)
Fixpoint drop_boxes (boxes : list Z) : ST (world H) unit :=
  match boxes with
  | [] => st_ret tt
  | b :: boxes =>
      let* w := st_get in
      let i := load_info w b in
      let* _ := (if negb (i_addr i =? 0) then dealloc (i_addr i) (i_addrlen i) else st_ret tt) in
      let* _ := (if negb (i_canonname i =? 0) then
                   let* n := strlen (i_canonname i) in dealloc (i_addr i) (wrap 64 (n + 1))
                 else st_ret tt) in
      let* _ := dealloc b addrinfo_size in
      drop_boxes boxes
  end.

Definition the_hints (w : world H) (hints : Z) : addrinfo :=
  if negb (hints =? 0) then
    {| ai_flags := load32 w hints; ai_family := load32 w (hints + 4);
       ai_socktype := load32 w (hints + 8); ai_protocol := load32 w (hints + 12) |}
  else {| ai_flags := Z.lor AI_V4MAPPED AI_ADDRCONFIG; ai_family := AF_UNSPEC;
          ai_socktype := 0; ai_protocol := 0 |}.

Definition getaddrinfo (fuel : nat) (node service hints res : Z) : ST (world H) (option Z) :=
  let* w := st_get in
  let* r := perform (U_getaddrinfo node service (the_hints w hints)) in
  let ret_res := r_out r in
  if decide (r_status r = SGX_SUCCESS) then
    if r_result r =? 0 then
      let* _ := write64 res 0 in
      let* l := copy_list fuel ret_res [] in
      match l with
      | None => st_ret None
      | Some (boxes, ok) =>
          let result := if ok then 0 else EAI_SYSTEM in
          let* _ := (match boxes with
                     | [] => st_ret tt
                     | b :: _ =>
                         if ok then let* _ := link_boxes boxes in write64 res b
                         else let* _ := set_errno ESGX in drop_boxes boxes
                     end) in
          let* _ := (if negb (ret_res =? 0)
                     then let* _ := perform (U_freeaddrinfo ret_res) in st_ret tt
                     else st_ret tt) in
          st_ret (Some result)
      end
    else
      let* _ := (if r_result r =? EAI_SYSTEM
                 then let* _ := write64 res 0 in set_errno (r_error r) else st_ret tt) in
      st_ret (Some (r_result r))
  else
    let* _ := write64 res 0 in
    let* _ := set_errno ESGX in
    st_ret (Some EAI_SYSTEM).

(** [freeaddrinfo]: the boxes are dropped at the end. *)
Fixpoint free_list (fuel : nat) (cur_ptr : Z) (boxes : list Z) : ST (world H) (option (list Z)) :=
  if cur_ptr =? 0 then st_ret (Some boxes)
  else
    match fuel with
    | O => st_ret None
    | S fuel =>
        let* w := st_get in
        let cur := load_info w cur_ptr in
        let* _ := (if negb (i_addr cur =? 0) && (i_addrlen cur >? 0)
                   then dealloc (i_addr cur) (i_addrlen cur) else st_ret tt) in
        let* _ := (if negb (i_canonname cur =? 0) then
                     let* n := strlen (i_canonname cur) in
                     dealloc (i_canonname cur) (wrap 64 (n + 1))
                   else st_ret tt) in
        free_list fuel (i_next cur) (boxes ++ [cur_ptr])
    end.

Fixpoint drop_all (boxes : list Z) : ST (world H) unit :=
  match boxes with
  | [] => st_ret tt
  | b :: boxes => let* _ := dealloc b addrinfo_size in drop_all boxes
  end.

Definition freeaddrinfo (fuel : nat) (res : Z) : ST (world H) (option unit) :=
  let* l := free_list fuel res [] in
  match l with
  | None => st_ret None
  | Some boxes => let* _ := drop_all boxes in st_ret (Some tt)
  end.
End lookup.

(** * A list whose second entry is not the host's to give *)

(** Blocks one after the other from an address that no list of the example
    reaches. *)
Definition toy_alloc (n : Z) (w : world toy_host) : Z * world toy_host :=
  let p := 0x20000 + 0x100 * Z.of_nat (size (heap w)) in
  (p, World (overwrite (fun _ => true) p (zeros (Z.to_nat n)) (tmem w)) (umem w) (errno w)
        (<[p := n]> (heap w)) (fault w) (host w)).

#[export] Instance toy_allocator : Allocator toy_host := {| alloc_zeroed := toy_alloc |}.

(** An entry with an address and a name, then [next]. *)
Definition toy_lookup (next : Z) : world toy_host :=
  (store (toy_list + 0x200) [Byte.x61; Byte.x62; Byte.x00]
    (store toy_list (info_bytes {| i_flags := 0; i_family := 2; i_socktype := 1; i_protocol := 6;
                                   i_addrlen := 16; i_addr := toy_list + 0x100;
                                   i_canonname := toy_list + 0x200; i_next := next |})
      (toy_start 0 Byte.x00)).2).2.

(** When the host's list goes wrong after an entry that has an address and a
    name, the entry's address is freed twice and its name never: the error path
    takes the name's length with the address's pointer (ocall.rs, the branch
    after [set_errno(ESGX)]). *)
Theorem getaddrinfo_error_double_free :
  let w := (getaddrinfo 4 0 0 0 0x10800 (toy_lookup 0x10500)).2 in
  (getaddrinfo 4 0 0 0 0x10800 (toy_lookup 0x10500)).1 = Some EAI_SYSTEM /\
  fault w = true /\ heap w = {[ 0x20100 := 3 ]}.
Proof. vm_compute. split_and!; reflexivity. Qed.

(** Without the bad pointer the copies are freed as they were made. *)
Lemma getaddrinfo_then_free :
  let w := (getaddrinfo 4 0 0 0 0x10800 (toy_lookup 0)).2 in
  size (heap w) = 3%nat /\
  fault (freeaddrinfo 4 (load64 w 0x10800) w).2 = false /\
  heap (freeaddrinfo 4 (load64 w 0x10800) w).2 = ∅.
Proof. vm_compute. split_and!; reflexivity. Qed.
