(* ===== verification/OcallIo.v ===== *)
(** OcallIo: vectored transfers move the right bytes.

    [gather] is the content of a vector's buffers, one after the other.
    [readv] with an honest host fills it from the front with what the host
    delivered; [writev] hands it to the host whole. *)
From Stdlib Require Import ZArith Lia Strings.Byte.
From stdpp Require Import base numbers list option tactics gmap.
From S2P Require Import Prelude SgxStatus Trts ToyMachine Ocall OcallProofs.
Import Bounds Libc.

Section vectors.
Context {H : Type} `{Region} `{Enclave} `{!EnclaveLaws e_base e_size} `{Host H} `{!HostLaws (H := H)}.
Implicit Types (w : world H) (v : list iovec).

Definition gather w v : list byte :=
  concat ((fun io => load_bytes w (iov_base io) (Z.to_nat (iov_len io))) <$> v).

(** No two buffers overlap. *)
Fixpoint apart v : Prop :=
  match v with
  | [] => True
  | io :: v =>
      Forall (fun io' => iov_base io + iov_len io <= iov_base io' \/
                         iov_base io' + iov_len io' <= iov_base io) v /\ apart v
  end.

Definition inside_range (p n : Z) : Prop := forall a, p <= a < p + n -> inside a = true.

(** ** Memory *)
Lemma load_bytes_ext w1 w2 p n :
  (forall a, p <= a < p + Z.of_nat n -> load w1 a = load w2 a) ->
  load_bytes w1 p n = load_bytes w2 p n.
Proof.
  intros Hl. apply list_fmap_ext. intros i j Hj. apply lookup_seq in Hj as [-> Hj].
  apply Hl. lia.
Qed.

Lemma load_bytes_app w p n m :
  load_bytes w p (n + m) = load_bytes w p n ++ load_bytes w (p + Z.of_nat n) m.
Proof.
  unfold load_bytes. rewrite seq_app, fmap_app. f_equal. simpl.
  replace (seq n m) with (Nat.add n <$> seq 0 m) by (rewrite fmap_add_seq; f_equal; lia).
  rewrite <- list_fmap_compose.
  apply list_fmap_ext. intros i x _. simpl. f_equal. lia.
Qed.

Lemma length_load_bytes w p n : length (load_bytes w p n) = n.
Proof. unfold load_bytes. by rewrite length_fmap, length_seq. Qed.

Lemma take_load_bytes w p n m : (n <= m)%nat -> take n (load_bytes w p m) = load_bytes w p n.
Proof.
  intros Hn. replace m with (n + (m - n))%nat by lia. rewrite load_bytes_app, take_app_le.
  - apply take_ge. by rewrite length_load_bytes.
  - by rewrite length_load_bytes.
Qed.

Lemma load_store w p bs a :
  load (store p bs w).2 a
  = if (p <=? a) && (a <? p + zlen bs) then bs !!! Z.to_nat (a - p) else load w a.
Proof.
  unfold load, store, overwrite. simpl.
  destruct (inside a), (p <=? a), (a <? p + zlen bs); reflexivity.
Qed.

Lemma load_bytes_store w p bs : load_bytes (store p bs w).2 p (length bs) = bs.
Proof.
  apply list_eq_same_length with (n := length bs); [done|by rewrite length_load_bytes|].
  intros i x y Hi Hx Hy. unfold load_bytes in Hx.
  apply list_lookup_fmap_Some in Hx as (j & -> & Hj). apply lookup_seq in Hj as [-> _].
  rewrite load_store. unfold zlen.
  destruct (Z.leb_spec p (p + Z.of_nat (0 + i))); [|lia].
  destruct (Z.ltb_spec (p + Z.of_nat (0 + i)) (p + Z.of_nat (length bs))); [|lia]. simpl.
  apply list_lookup_total_correct. by replace (Z.to_nat _) with i by lia.
Qed.

Lemma load_copy_hit w src dst n :
  load_bytes (copy_nonoverlapping src dst n w).2 dst (Z.to_nat n) = load_bytes w src (Z.to_nat n).
Proof.
  unfold copy_nonoverlapping. rewrite <- (length_load_bytes w src (Z.to_nat n)) at 2.
  apply load_bytes_store.
Qed.

Lemma load_copy_miss w src dst n a : ~ dst <= a < dst + Z.max 0 n ->
  load (copy_nonoverlapping src dst n w).2 a = load w a.
Proof.
  intros Ha. unfold copy_nonoverlapping. rewrite load_store. unfold zlen.
  rewrite length_load_bytes. destruct (Z.leb_spec dst a); [|done].
  destruct (Z.ltb_spec a (dst + Z.of_nat (Z.to_nat n))); [lia|done].
Qed.

(** ** Reading *)
Lemma load_bytes_nat w p n m : 0 <= n -> 0 <= m ->
  load_bytes w p (Z.to_nat (n + m)) = load_bytes w p (Z.to_nat n) ++ load_bytes w (p + n) (Z.to_nat m).
Proof. intros. rewrite Z2Nat.inj_add, load_bytes_app, Z2Nat.id by done. done. Qed.

(** What a copy loop leaves alone. *)
Lemma copy_back_miss tmp : forall v rem w a, Forall (fun io => 0 < iov_len io) v -> 0 <= rem ->
  ~ in_ranges a (buffers v) -> load (copy_back tmp v rem w).2 a = load w a.
Proof.
  induction tmp as [|t tmp IH]; intros [|io v] rem w a Hv Hr Ha; try done. simpl.
  destruct (rem =? 0); [done|]. apply Forall_cons in Hv as [Hio Hv].
  change (buffers (io :: v)) with ((iov_base io, iov_len io) :: buffers v) in Ha.
  rewrite in_ranges_cons in Ha. unfold st_bind.
  pose proof (load_copy_miss w (iov_base t) (iov_base io) (Z.min (iov_len io) rem) a) as Hc.
  destruct (copy_nonoverlapping _ _ _ w) as [[] w1]. simpl in Hc.
  rewrite IH by (done || lia || tauto). apply Hc. intros Hx. apply Ha. left. lia.
Qed.

Lemma apart_miss io v a : Forall (fun io' => iov_base io + iov_len io <= iov_base io' \/
    iov_base io' + iov_len io' <= iov_base io) v ->
  iov_base io <= a < iov_base io + iov_len io -> ~ in_ranges a (buffers v).
Proof.
  intros Hf Ha (p & n & Hin & Hp). apply list_elem_of_fmap in Hin as (io' & [= -> ->] & Hin).
  rewrite Forall_forall in Hf. specialize (Hf _ Hin). lia.
Qed.

Lemma total_nonneg v : Forall (fun io => 0 < iov_len io) v -> 0 <= total v.
Proof. induction 1; simpl in *; lia. Qed.

Lemma in_range_not_outside p n q m a : outside_range p n -> inside_range q m ->
  p <= a < p + n -> ~ q <= a < q + m.
Proof. intros Ho Hi Ha Hq. specialize (Ho a Ha). rewrite (Hi a Hq) in Ho. done. Qed.

Lemma gather_cons w io v :
  gather w (io :: v) = load_bytes w (iov_base io) (Z.to_nat (iov_len io)) ++ gather w v.
Proof. done. Qed.

Lemma copy_back_scatter v : forall p rem w,
  Forall (fun io => 0 < iov_len io /\ inside_range (iov_base io) (iov_len io)) v -> apart v ->
  outside_range p (total v) -> 0 <= rem <= total v ->
  take (Z.to_nat rem) (gather (copy_back (layout p v) v rem w).2 v)
  = load_bytes w p (Z.to_nat rem).
Proof.
  induction v as [|io v IH]; intros p rem w Hv Hd Ho Hr; simpl in *.
  { replace (Z.to_nat rem) with O by lia. done. }
  apply Forall_cons in Hv as [[Hio Hin] Hv]. destruct Hd as [Hf Hd].
  assert (Forall (fun io => 0 < iov_len io) v) as Hpos by (eapply Forall_impl; [exact Hv|]; simpl; tauto).
  pose proof (total_nonneg v Hpos) as Hn.
  destruct (Z.eqb_spec rem 0) as [->|Hz]; [done|]. unfold st_bind.
  pose proof (load_copy_hit w p (iov_base io) (Z.min (iov_len io) rem)) as Hhit.
  pose proof (load_copy_miss w p (iov_base io) (Z.min (iov_len io) rem)) as Hmiss.
  destruct (copy_nonoverlapping p (iov_base io) _ w) as [[] w1]. simpl in Hhit, Hmiss.
  set (w2 := (copy_back _ v _ w1).2).
  assert (load_bytes w2 (iov_base io) (Z.to_nat (iov_len io))
          = load_bytes w1 (iov_base io) (Z.to_nat (iov_len io))) as Hkeep.
  { apply load_bytes_ext. intros a Ha. apply copy_back_miss; [done|lia|].
    eapply apart_miss; [done|lia]. }
  rewrite gather_cons, Hkeep.
  destruct (decide (rem <= iov_len io)).
  - rewrite take_app_le by (rewrite length_load_bytes; lia).
    rewrite take_load_bytes by lia. by rewrite Z.min_r in Hhit by lia.
  - rewrite Z.min_l in * by lia. subst w2. rewrite Z.max_r by lia.
    rewrite take_app_ge by (rewrite length_load_bytes; lia). rewrite length_load_bytes, Hhit.
    replace (Z.to_nat rem - Z.to_nat (iov_len io))%nat with (Z.to_nat (rem - iov_len io)) by lia.
    rewrite IH; [|done|done|intros a Ha; apply Ho; lia|lia].
    rewrite (load_bytes_ext w1 w).
    + rewrite <- load_bytes_nat by lia. f_equal. f_equal. lia.
    + intros a Ha. apply Hmiss. intros Hb. rewrite Z.max_r in Hb by lia.
      eapply (in_range_not_outside p (iov_len io + total v) (iov_base io) (iov_len io) a);
        [done|done|lia|lia].
Qed.
Lemma load64_range w p : 0 <= load64 w p <= usize_max.
Proof.
  unfold load64. pose proof (le_val_range (load_bytes w p 8)) as Hr. unfold zlen in Hr.
  rewrite length_load_bytes in Hr. unfold usize_max, u64_max. lia.
Qed.

Lemma load_iovecs_range w iov n : Forall (fun io => 0 <= iov_base io <= usize_max /\
  iov_len io <= usize_max) (load_iovecs w iov n).
Proof.
  apply Forall_fmap, Forall_true. intros i. simpl. split; [apply load64_range|].
  pose proof (load64_range w (iov + iovec_size * Z.of_nat i + 8)). lia.
Qed.

(** The buffers of an accepted vector are in the enclave. *)
Lemma check_iovecs_inside v : forall t n, check_iovecs v t = Some n ->
  Forall (fun io => 0 <= iov_base io <= usize_max /\ iov_len io <= usize_max) v ->
  Forall (fun io => 0 < iov_len io /\ inside_range (iov_base io) (iov_len io)) v.
Proof.
  induction v as [|io v IH]; intros t n Hc Hv; [constructor|]. simpl in Hc.
  apply Forall_cons in Hv as [[Hb Hl] Hv]. destruct (negb _ && _ && _) eqn:Eg; [|done].
  destruct (_ >? usize_max); [done|]. constructor; [|eauto].
  apply andb_true_iff in Eg as [Eg Ew]. apply andb_true_iff in Eg as [_ Eg].
  unfold within_ok in Ew. apply negb_true_iff, Z.eqb_neq, within_spec in Ew; [|lia..].
  split; [lia|]. intros a Ha. unfold inside. apply andb_true_iff. lia.
Qed.

Lemma load_free_tmp w n p a : inside a = true -> load (free_tmp n p w).2 a = load w a.
Proof.
  intros Ha. unfold load. rewrite Ha. by apply (touches_free_tmp (fun _ => False)); tauto.
Qed.

Lemma gather_ext w1 w2 v : Forall (fun io => forall a,
    iov_base io <= a < iov_base io + iov_len io -> load w1 a = load w2 a) v ->
  gather w1 v = gather w2 v.
Proof.
  induction 1 as [|io v Hio _ IH]; [done|]. rewrite !gather_cons, IH. f_equal.
  apply load_bytes_ext. intros a Ha. apply Hio. lia.
Qed.

(** [readv] with a host that answers no more than it was asked for: the
    caller's buffers, taken one after the other, begin with the bytes the host
    put in its own, and the result is their number. *)
Theorem readv_scatters fd iov iovcnt w n p w0 r w1 (v := load_iovecs w iov (Z.to_nat iovcnt)) :
  bad_iov iov iovcnt = false -> check_iovecs v 0 = Some n -> apart v ->
  alloc_tmp n w = (p, w0) -> p <> 0 ->
  perform (U_readv fd (layout p v) iovcnt) (write_zeros p n w0).2 = (r, w1) ->
  r_status r = SGX_SUCCESS -> 0 <= r_result r <= n ->
  (readv fd iov iovcnt w).1 = r_result r /\
  take (Z.to_nat (r_result r)) (gather (readv fd iov iovcnt w).2 v)
  = load_bytes w1 p (Z.to_nat (r_result r)).
Proof.
  intros Hb Hc Hd Ha Hp Hh Hs Hr.
  assert (readv fd iov iovcnt w
          = (r_result r, (free_tmp n p (copy_back (layout p v) v (r_result r) w1).2).2)) as ->.
  { unfold readv, readv_call. rewrite Hb. unfold st_bind, st_get. fold v. rewrite Hc, Ha.
    destruct (Z.eqb_spec p 0); [done|].
    destruct (write_zeros p n w0) as [[] w2]. simpl in Hh. rewrite Hh. unfold int_result.
    rewrite decide_True by done. unfold st_bind, usize_or_0.
    assert ((r_result r =? -1) = false) as E1 by lia.
    assert ((r_result r <? 0) = false) as E2 by lia. rewrite E1. simpl. rewrite E1, E2. simpl.
    destruct (copy_back _ v _ w1) as [[] w3]. simpl. by destruct (free_tmp n p w3) as [[] w4]. }
  split; [done|]. simpl.
  pose proof (check_iovecs_inside _ _ _ Hc (load_iovecs_range _ _ _)) as Hin. fold v in Hin.
  destruct (check_iovecs_spec _ _ _ Hc) as (-> & _ & Hm).
  rewrite (gather_ext _ (copy_back (layout p v) v (r_result r) w1).2).
  - apply copy_back_scatter; [done|done| |lia].
    pose proof (alloc_tmp_outside (0 + total v) ltac:(destruct Hm as [->|]; [done|lia]) w) as Ho.
    rewrite Ha in Ho. by destruct Ho.
  - eapply Forall_impl; [exact Hin|]. intros io [_ Hi] a Hx. apply load_free_tmp. auto.
Qed.
(** ** Writing *)
Lemma copy_in_gather v : forall p w,
  Forall (fun io => 0 < iov_len io /\ inside_range (iov_base io) (iov_len io)) v ->
  outside_range p (total v) ->
  let w1 := (copy_in (layout p v) v w).2 in
  load_bytes w1 p (Z.to_nat (total v)) = gather w v /\
  forall a, ~ p <= a < p + total v -> load w1 a = load w a.
Proof.
  induction v as [|io v IH]; intros p w Hv Ho; [done|]. simpl.
  apply Forall_cons in Hv as [[Hio Hin] Hv].
  assert (Forall (fun io => 0 < iov_len io) v) as Hpos by (eapply Forall_impl; [exact Hv|]; simpl; tauto).
  pose proof (total_nonneg v Hpos) as Hn. simpl in Ho. unfold st_bind.
  pose proof (load_copy_hit w (iov_base io) p (iov_len io)) as Hhit.
  pose proof (load_copy_miss w (iov_base io) p (iov_len io)) as Hmiss.
  destruct (copy_nonoverlapping _ p _ w) as [[] w1]. simpl in Hhit, Hmiss.
  rewrite Z.max_r in Hmiss by lia.
  destruct (IH (p + iov_len io) w1 Hv) as [Hg Hk]; [intros a Ha; apply Ho; lia|].
  simpl in Hg, Hk. split.
  - rewrite load_bytes_nat, Hg, gather_cons by lia. f_equal.
    + rewrite <- Hhit. apply load_bytes_ext. intros a Ha. apply Hk. lia.
    + apply gather_ext. eapply Forall_impl; [exact Hv|]. intros io' [Hl' Hi'] a Ha.
      apply Hmiss. intros Hb. specialize (Ho a ltac:(lia)). by rewrite Hi' in Ho.
  - intros a Ha. rewrite Hk by lia. apply Hmiss. lia.
Qed.

Lemma load_zeros w p n a : ~ p <= a < p + n -> load (write_zeros p n w).2 a = load w a.
Proof.
  intros Ha. unfold write_zeros. rewrite load_store. unfold zlen. rewrite length_zeros.
  destruct (Z.leb_spec p a); [|done]. destruct (Z.ltb_spec a (p + Z.of_nat (Z.to_nat n))); [lia|done].
Qed.

(** [writev]: when the host is asked to write, its buffer holds the contents
    of the caller's buffers, one after the other, and the enclave's memory is as
    it was; the answer is handed on. *)
Theorem writev_gathers fd iov iovcnt w n p w0 (v := load_iovecs w iov (Z.to_nat iovcnt)) :
  bad_iov iov iovcnt = false -> check_iovecs v 0 = Some n ->
  alloc_tmp n w = (p, w0) -> p <> 0 ->
  exists w1, load_bytes w1 p (Z.to_nat n) = gather w v /\
    (forall a, inside a = true -> load w1 a = load w a) /\
    writev fd iov iovcnt w
    = (let* r := perform (U_writev fd (layout p v) iovcnt) in
       let* result := int_result r in
       let* _ := free_tmp n p in st_ret result) w1.
Proof.
  intros Hb Hc Ha Hp. unfold writev, writev_call. rewrite Hb. unfold st_get, st_bind at 1. fold v.
  rewrite Hc. unfold st_bind at 1. rewrite Ha. destruct (Z.eqb_spec p 0); [done|].
  pose proof (check_iovecs_inside _ _ _ Hc (load_iovecs_range _ _ _)) as Hin. fold v in Hin.
  destruct (check_iovecs_spec _ _ _ Hc) as (-> & _ & Hm).
  assert (0 + total v <= usize_max) as Hmax by (destruct Hm as [->|]; [done|lia]).
  pose proof (alloc_tmp_outside _ Hmax w) as Ho. rewrite Ha in Ho.
  destruct Ho as [|Ho]; [done|]. simpl in Ho.
  assert (forall a, inside a = true -> load w0 a = load w a) as H0w.
  { intros a Hx. unfold load. rewrite Hx.
    pose proof (touches_alloc_tmp (fun _ => False) (0 + total v) w a ltac:(tauto)) as Ht.
    by rewrite Ha in Ht. }
  pose proof (load_zeros w0 p (0 + total v)) as Hz. unfold st_bind at 1.
  destruct (write_zeros p (0 + total v) w0) as [[] w2]. simpl in Hz.
  destruct (copy_in_gather v p w2 Hin Ho) as [Hg Hk]. unfold st_bind at 1.
  destruct (copy_in (layout p v) v w2) as [[] w3]. simpl in Hg, Hk. exists w3.
  assert (forall a, inside a = true -> load w2 a = load w a) as H2w.
  { intros a Hx. rewrite Hz; [auto|]. intros Hy. rewrite Ho in Hx by lia. done. }
  split_and!; [|intros a Hx; rewrite Hk; [auto|]; intros Hy; rewrite Ho in Hx by lia; done|done].
  rewrite Z.add_0_l, Hg. apply gather_ext. eapply Forall_impl; [exact Hin|]. intros io [_ Hi] a Hx. auto.
Qed.
End vectors.

(** Two buffers of two and four bytes, described at 0x11000. *)
Definition toy_vector : world toy_host :=
  (store 0x11000 (le_bytes 8 0x10100 ++ le_bytes 8 2 ++ le_bytes 8 0x10200 ++ le_bytes 8 4)
     (toy_start 0x10200 Byte.x42)).2.

Definition toy_iovecs : list iovec :=
  [{| iov_base := 0x10100; iov_len := 2 |}; {| iov_base := 0x10200; iov_len := 4 |}].

Lemma toy_iovecs_loaded : load_iovecs toy_vector 0x11000 2 = toy_iovecs.
Proof. vm_compute. reflexivity. Qed.

(** Where the host has put what it delivers. *)
Definition toy_delivered : world toy_host :=
  (perform (U_readv 3 (layout toy_tmp toy_iovecs) 2) (write_zeros toy_tmp 6 toy_vector).2).2.

(** Five bytes fill the first buffer and most of the second. *)
Lemma readv_scatters_witness :
  (readv 3 0x11000 2 toy_vector).1 = 5 /\
  take 5 (gather (readv 3 0x11000 2 toy_vector).2 (load_iovecs toy_vector 0x11000 2))
  = load_bytes toy_delivered toy_tmp 5.
Proof.
  apply (readv_scatters 3 0x11000 2 toy_vector 6 toy_tmp toy_vector (toy_reply 5) toy_delivered);
    change (Z.to_nat 2) with 2%nat; rewrite ?toy_iovecs_loaded; try done; try reflexivity.
  split; [|split; [constructor|exact I]]. constructor; [|constructor]. left. vm_compute. discriminate.
Defined.

Lemma writev_gathers_witness :
  gather toy_vector toy_iovecs = [Byte.x41; Byte.x41; Byte.x42; Byte.x41; Byte.x41; Byte.x41] /\
  exists w1, load_bytes w1 toy_tmp 6 = gather toy_vector (load_iovecs toy_vector 0x11000 2) /\
    (forall a, inside a = true -> load w1 a = load toy_vector a) /\
    writev 1 0x11000 2 toy_vector
    = (let* r := perform (U_writev 1 (layout toy_tmp (load_iovecs toy_vector 0x11000 2)) 2) in
       let* result := int_result r in
       let* _ := free_tmp 6 toy_tmp in st_ret result) w1.
Proof.
  split; [vm_compute; reflexivity|].
  apply (writev_gathers 1 0x11000 2 toy_vector 6 toy_tmp toy_vector); [reflexivity| |reflexivity|done].
  change (Z.to_nat 2) with 2%nat. rewrite toy_iovecs_loaded. reflexivity.
Defined.
