(* ===== verification/OcallRun.v ===== *)
(** OcallRun: any sequence of the calls of Ocall.v, against any host.

    A [request] is one call; [exec] runs its wrapper.  [writable] is what the
    caller handed over to be written, which for the vectored calls is in memory. *)
From Stdlib Require Import ZArith Lia Strings.Byte.
From stdpp Require Import base numbers list option tactics gmap.
From S2P Require Import Prelude SgxStatus Trts ToyMachine Ocall OcallProofs.
Import Bounds Libc.

Inductive request :=
| Direct (c : ocall)
| Getuid | Getpid | Raise (signum : Z)
| Free (p : Z) | Malloc (size : Z)
| Mmap (start length prot flags fd offset : Z)
| Getenv (name : Z) | Realpath (pathname : Z) | Getcwd (buf size : Z)
| Fdopendir (fd : Z) | Opendir (pathname : Z) | Gai_strerror (errcode : Z)
| Environ (fuel : nat)
| Getpwuid_r (uid pwd buf buflen passwd_result : Z)
| Readdir64_r (dirp entry dirresult : Z)
| Accept (sockfd addr addrlen : Z)
| Accept4 (sockfd addr addrlen flags : Z)
| Getsockopt (sockfd level optname optval optlen : Z)
| Getpeername (sockfd address addrlen : Z)
| Getsockname (sockfd address addrlen : Z)
| Read (fd buf count : Z)
| Pread64 (fd buf count offset : Z)
| Recv (sockfd buf len flags : Z)
| Recvfrom (sockfd buf len flags addr addrlen : Z)
| Write (fd buf count : Z)
| Pwrite64 (fd buf count offset : Z)
| Send (sockfd buf len flags : Z)
| Sendto (sockfd buf len flags addr addrlen : Z)
| Readv (fd iov iovcnt : Z)
| Preadv64 (fd iov iovcnt offset : Z)
| Writev (fd iov iovcnt : Z)
| Pwritev64 (fd iov iovcnt offset : Z)
| Sendmsg (sockfd msg flags : Z)
| Recvmsg (sockfd msg flags : Z).

Section run.
Context {H : Type} `{Region} `{Enclave} `{Host H}.

(** The calls that hand the answer on, by their OCALL. *)
Definition direct (c : ocall) : option (ST (world H) Z) :=
  match c with
  | U_munmap start length => Some (munmap start length)
  | U_msync addr length flags => Some (msync addr length flags)
  | U_mprotect addr length prot => Some (mprotect addr length prot)
  | U_setenv name value overwrite => Some (setenv name value overwrite)
  | U_unsetenv name => Some (unsetenv name)
  | U_chdir dir => Some (chdir dir)
  | U_open path flags => Some (open path flags)
  | U_open64 path oflag mode => Some (open64 path oflag mode)
  | U_openat dirfd pathname flags => Some (openat dirfd pathname flags)
  | U_fstat fd buf => Some (fstat fd buf)
  | U_fstat64 fd buf => Some (fstat64 fd buf)
  | U_stat path buf => Some (stat path buf)
  | U_stat64 path buf => Some (stat64 path buf)
  | U_lstat path buf => Some (lstat path buf)
  | U_lstat64 path buf => Some (lstat64 path buf)
  | U_lseek fd offset whence => Some (lseek fd offset whence)
  | U_lseek64 fd offset whence => Some (lseek64 fd offset whence)
  | U_ftruncate fd length => Some (ftruncate fd length)
  | U_ftruncate64 fd length => Some (ftruncate64 fd length)
  | U_truncate path length => Some (truncate path length)
  | U_truncate64 path length => Some (truncate64 path length)
  | U_fsync fd => Some (fsync fd)
  | U_fdatasync fd => Some (fdatasync fd)
  | U_fchmod fd mode => Some (fchmod fd mode)
  | U_unlink pathname => Some (unlink pathname)
  | U_link oldpath newpath => Some (link oldpath newpath)
  | U_unlinkat dirfd pathname flags => Some (unlinkat dirfd pathname flags)
  | U_linkat olddirfd oldpath newdirfd newpath flags => Some (linkat olddirfd oldpath newdirfd newpath flags)
  | U_rename oldpath newpath => Some (rename oldpath newpath)
  | U_chmod path mode => Some (chmod path mode)
  | U_readlink path buf bufsz => Some (readlink path buf bufsz)
  | U_symlink path1 path2 => Some (symlink path1 path2)
  | U_mkdir pathname mode => Some (mkdir pathname mode)
  | U_rmdir pathname => Some (rmdir pathname)
  | U_closedir dirp => Some (closedir dirp)
  | U_dirfd dirp => Some (dirfd dirp)
  | U_fstatat64 dirfd pathname buf flags => Some (fstatat64 dirfd pathname buf flags)
  | U_fcntl_arg0 fd cmd => Some (fcntl_arg0 fd cmd)
  | U_fcntl_arg1 fd cmd arg => Some (fcntl_arg1 fd cmd arg)
  | U_ioctl_arg0 fd request => Some (ioctl_arg0 fd request)
  | U_ioctl_arg1 fd request arg => Some (ioctl_arg1 fd request arg)
  | U_close fd => Some (close fd)
  | U_clock_gettime clk_id tp => Some (clock_gettime clk_id tp)
  | U_socket domain ty protocol => Some (socket domain ty protocol)
  | U_socketpair domain ty protocol sv => Some (socketpair domain ty protocol sv)
  | U_bind sockfd address addrlen => Some (bind sockfd address addrlen)
  | U_listen sockfd backlog => Some (listen sockfd backlog)
  | U_connect sockfd address addrlen => Some (connect sockfd address addrlen)
  | U_setsockopt sockfd level optname optval optlen => Some (setsockopt sockfd level optname optval optlen)
  | U_shutdown sockfd how => Some (shutdown sockfd how)
  | U_poll fds nfds timeout => Some (poll fds nfds timeout)
  | U_epoll_create1 flags => Some (epoll_create1 flags)
  | U_epoll_ctl epfd op fd event => Some (epoll_ctl epfd op fd event)
  | U_epoll_wait epfd events maxevents timeout => Some (epoll_wait epfd events maxevents timeout)
  | U_sysconf name => Some (sysconf name)
  | U_prctl option arg2 arg3 arg4 arg5 => Some (prctl option arg2 arg3 arg4 arg5)
  | U_sched_setaffinity pid cpusetsize mask => Some (sched_setaffinity pid cpusetsize mask)
  | U_sched_getaffinity pid cpusetsize mask => Some (sched_getaffinity pid cpusetsize mask)
  | U_pipe fds => Some (pipe fds)
  | U_pipe2 fds flags => Some (pipe2 fds flags)
  | U_sched_yield => Some sched_yield
  | U_nanosleep rqtp rmtp => Some (nanosleep rqtp rmtp)
  | U_sigaction signum act oldact enclave_id => Some (sigaction signum act oldact enclave_id)
  | U_sigprocmask signum set oldset => Some (sigprocmask signum set oldset)
  | _ => None
  end.

Definition exec (r : request) : ST (world H) Z :=
  match r with
  | Direct c => match direct c with Some m => m | None => st_ret 0 end
  | Getuid => getuid
  | Getpid => getpid
  | Raise signum => raise signum
  | Free p => let* _ := free p in st_ret 0
  | Malloc size => malloc size
  | Mmap start length prot flags fd offset => mmap start length prot flags fd offset
  | Getenv name => getenv name
  | Realpath pathname => realpath pathname
  | Getcwd buf size => getcwd buf size
  | Fdopendir fd => fdopendir fd
  | Opendir pathname => opendir pathname
  | Gai_strerror errcode => gai_strerror errcode
  | Environ fuel => let* x := environ fuel in st_ret (default 0 x)
  | Getpwuid_r uid pwd buf buflen res => getpwuid_r uid pwd buf buflen res
  | Readdir64_r dirp entry res => readdir64_r dirp entry res
  | Accept sockfd addr addrlen => accept sockfd addr addrlen
  | Accept4 sockfd addr addrlen flags => accept4 sockfd addr addrlen flags
  | Getsockopt sockfd level optname optval optlen => getsockopt sockfd level optname optval optlen
  | Getpeername sockfd address addrlen => getpeername sockfd address addrlen
  | Getsockname sockfd address addrlen => getsockname sockfd address addrlen
  | Read fd buf count => read fd buf count
  | Pread64 fd buf count offset => pread64 fd buf count offset
  | Recv sockfd buf len flags => recv sockfd buf len flags
  | Recvfrom sockfd buf len flags addr addrlen => recvfrom sockfd buf len flags addr addrlen
  | Write fd buf count => write fd buf count
  | Pwrite64 fd buf count offset => pwrite64 fd buf count offset
  | Send sockfd buf len flags => send sockfd buf len flags
  | Sendto sockfd buf len flags addr addrlen => sendto sockfd buf len flags addr addrlen
  | Readv fd iov iovcnt => readv fd iov iovcnt
  | Preadv64 fd iov iovcnt offset => preadv64 fd iov iovcnt offset
  | Writev fd iov iovcnt => writev fd iov iovcnt
  | Pwritev64 fd iov iovcnt offset => pwritev64 fd iov iovcnt offset
  | Sendmsg sockfd msg flags => sendmsg sockfd msg flags
  | Recvmsg sockfd msg flags => recvmsg sockfd msg flags
  end.

Definition writable (r : request) (w : world H) : list (Z * Z) :=
  match r with
  | Direct c => outs c
  | Getcwd buf size => [(buf, size)]
  | Getpwuid_r uid pwd buf buflen res => [(pwd, passwd_size); (buf, buflen); (res, 8)]
  | Readdir64_r _ entry res => [(entry, dirent64_size); (res, 8)]
  | Accept _ addr addrlen | Accept4 _ addr addrlen _ | Getsockopt _ _ _ addr addrlen
  | Getpeername _ addr addrlen | Getsockname _ addr addrlen =>
      [(addrlen, 4); (addr, len_at w addrlen)]
  | Read _ buf n | Pread64 _ buf n _ | Recv _ buf n _ => [(buf, n)]
  | Recvfrom _ buf n _ addr addrlen => [(addrlen, 4); (addr, len_at w addrlen); (buf, n)]
  | Readv _ iov n | Preadv64 _ iov n _ => buffers (load_iovecs w iov (Z.to_nat n))
  | Recvmsg _ msg _ => msg_ranges w msg
  | _ => []
  end.

(** A program's calls, one after the other. *)
Fixpoint run (rs : list request) : ST (world H) (list Z) :=
  match rs with
  | [] => st_ret []
  | r :: rs => let* x := exec r in let* xs := run rs in st_ret (x :: xs)
  end.

(** What was handed over along the way. *)
Fixpoint handed (rs : list request) (w : world H) : list (Z * Z) :=
  match rs with
  | [] => []
  | r :: rs => writable r w ++ handed rs (exec r w).2
  end.

Context `{!EnclaveLaws e_base e_size} `{!HostLaws (H := H)}.

Lemma direct_int_call c m : direct c = Some m -> m = int_call c.
Proof. destruct c; intros [= <-]; reflexivity. Qed.

Lemma touches_snd {A} R (m : ST (world H) (Z * A)) :
  touches R m -> touches R (let* (result, _) := m in st_ret result).
Proof. intros Hm. apply touches_bind; [done|]. by intros []. Qed.

Lemma in_ranges_app a rs1 rs2 : in_ranges a (rs1 ++ rs2) <-> in_ranges a rs1 \/ in_ranges a rs2.
Proof. unfold in_ranges. setoid_rewrite elem_of_app. naive_solver. Qed.

(** The read-like calls. *)
Lemma read_call_confined c copied buf n w a :
  (forall r, copied r <= n) -> (forall t, outs (c t) = []) -> ~ in_ranges a [(buf, n)] ->
  tmem ((let* (result, _) := read_call c copied buf n in st_ret result) w).2 a = tmem w a.
Proof.
  intros Hc Ho Ha. apply (touches_snd (fun a => in_ranges a [(buf, n)])); [|done].
  apply touches_read_call; [done|done|]. intros x. by rewrite in_ranges_one.
Qed.

Lemma touches_nothing {A} (m : ST (world H) A) w a :
  touches (fun _ => False) m -> tmem (m w).2 a = tmem w a.
Proof. intros Hm. apply Hm. tauto. Qed.

Lemma exec_confined r w a :
  ~ in_ranges a (writable r w) -> tmem (exec r w).2 a = tmem w a.
Proof.
  intros Ha. destruct r; simpl in *.
  - destruct (direct c) as [m|] eqn:E; [|done]. apply direct_int_call in E as ->.
    by apply (touches_int_call (fun a => in_ranges a (outs c))).
  - apply touches_nothing, touches_getuid.
  - apply touches_nothing, touches_getpid.
  - apply touches_nothing, touches_raise.
  - apply touches_nothing, touches_bind; [apply touches_free|done].
  - apply touches_nothing, touches_malloc.
  - apply touches_nothing, touches_mmap.
  - apply touches_nothing, touches_getenv.
  - apply touches_nothing, touches_realpath.
  - apply (touches_getcwd (fun a => buf <= a < buf + size)); [done|]. by rewrite <- in_ranges_one.
  - by apply touches_nothing, touches_dir_call.
  - by apply touches_nothing, touches_dir_call.
  - apply touches_nothing, touches_gai_strerror.
  - apply touches_nothing, touches_bind; [apply touches_environ|done].
  - by apply (touches_getpwuid_r uid).
  - by apply (touches_readdir64_r dirp).
  - by apply touches_len_call.
  - by apply touches_len_call.
  - by apply touches_len_call.
  - by apply touches_len_call.
  - by apply touches_len_call.
  - apply read_call_confined; [lia|done|done].
  - apply read_call_confined; [lia|done|done].
  - apply read_call_confined; [lia|done|done].
  - by apply touches_recvfrom.
  - by apply touches_nothing, touches_write_call.
  - by apply touches_nothing, touches_write_call.
  - by apply touches_nothing, touches_write_call.
  - by apply touches_nothing, touches_write_call.
  - by apply touches_readv_call.
  - by apply touches_readv_call.
  - by apply touches_nothing, touches_writev_call.
  - by apply touches_nothing, touches_writev_call.
  - apply touches_nothing, touches_sendmsg.
  - by apply touches_recvmsg.
Qed.

(** C13. Whatever the host answers, and whatever it does to its own memory in
    the meantime, a sequence of calls changes no byte of the enclave but the
    buffers the calls were handed to fill. *)
Theorem libc_calls_confined rs w a :
  ~ in_ranges a (handed rs w) -> tmem (run rs w).2 a = tmem w a.
Proof.
  revert w. induction rs as [|r rs IH]; intros w Ha; [done|]. simpl in Ha.
  rewrite in_ranges_app in Ha. simpl. unfold st_bind.
  pose proof (exec_confined r w a ltac:(tauto)) as He.
  destruct (exec r w) as [x w1]. specialize (IH w1 ltac:(tauto)).
  destruct (run rs w1) as [xs w2]. simpl in *. congruence.
Qed.
End run.

(** Bytes arrive in the buffer and nowhere else. *)
Lemma libc_calls_confined_witness :
  load_bytes (run [Write 1 0x10200 2; Read 3 0x10100 4] (toy_start 0 Byte.x00)).2 0x10100 5
    = [Byte.x01; Byte.x02; Byte.x03; Byte.x04; Byte.x41] /\
  tmem (run [Write 1 0x10200 2; Read 3 0x10100 4] (toy_start 0 Byte.x00)).2 0x10104 = Byte.x41.
Proof.
  split; [vm_compute; reflexivity|].
  apply (libc_calls_confined _ (toy_start 0 Byte.x00) 0x10104).
  intros (p & n & Hin & Ha). apply list_elem_of_singleton in Hin. injection Hin as -> ->. lia.
Defined.
