(* ===== verification/OcallSecret.v ===== *)
(** OcallSecret: what the host can learn from the calls.

    [S] is the set of the enclave's addresses that may become known.  Two worlds
    are [low]-equivalent when the host sees the same of both and they hold the
    same bytes in [S]; a computation is [quiet] when it keeps them so and gives
    the same value in both.  [environ] is apart: it reads where the host's pointers
    lead before it checks them, so a host that changes them in between learns
    bytes of the enclave ([environ_leaks]). *)
From Stdlib Require Import ZArith Lia Strings.Byte.
From stdpp Require Import base numbers list option tactics gmap.
From S2P Require Import Prelude SgxStatus Trts ToyMachine Ocall OcallProofs OcallRun.
Import Bounds Libc.

Section secret.
Context {H : Type} `{Region} `{Enclave} `{!EnclaveLaws e_base e_size} `{Host H} `{!HostLaws (H := H)}
  `{!HostFills (H := H)}.
Implicit Types (S : Z -> Prop) (w : world H).

Definition low S w1 w2 : Prop := view w1 w2 /\ forall a, S a -> tmem w1 a = tmem w2 a.

Definition quiet_at {A} S w1 w2 (m : ST (world H) A) : Prop :=
  low S w1 w2 -> (m w1).1 = (m w2).1 /\ low S (m w1).2 (m w2).2.

Definition quiet {A} S (m : ST (world H) A) : Prop := forall w1 w2, quiet_at S w1 w2 m.

(** The range is public, as far as it lies in the enclave. *)
Definition public S (p n : Z) : Prop := forall a, p <= a < p + n -> inside a = true -> S a.

Definition shown S w (x : inarg) : Prop :=
  match x with
  | InBuf p n => public S p n
  | InStr p => p = 0 \/ exists n, 0 <= n /\ load w (p + n) = Byte.x00 /\ public S p (n + 1)
  end.

(** ** Loads *)
Lemma low_load S w1 w2 a : low S w1 w2 -> (inside a = true -> S a) -> load w1 a = load w2 a.
Proof.
  intros [[Hu _] Ht] Ha. unfold load. destruct (inside a); [auto|by rewrite Hu].
Qed.

Lemma low_load_bytes S w1 w2 p n : low S w1 w2 -> public S p (Z.of_nat n) ->
  load_bytes w1 p n = load_bytes w2 p n.
Proof.
  intros Hl Hp. apply list_fmap_ext. intros i j Hj. apply lookup_seq in Hj as [-> Hj].
  eapply low_load; [done|]. apply Hp. lia.
Qed.

Lemma public_sub S p n q m : public S p n -> p <= q -> q + m <= p + n -> public S q m.
Proof. intros Hp Hq Hm a Ha. apply Hp. lia. Qed.

Lemma low_load64 S w1 w2 p : low S w1 w2 -> public S p 8 -> load64 w1 p = load64 w2 p.
Proof. intros Hl Hp. unfold load64. by erewrite low_load_bytes. Qed.

Lemma low_load32 S w1 w2 p : low S w1 w2 -> public S p 4 -> load32 w1 p = load32 w2 p.
Proof. intros Hl Hp. unfold load32. by erewrite low_load_bytes. Qed.

Lemma low_load_iovecs S w1 w2 iov n : low S w1 w2 -> public S iov (iovec_size * Z.of_nat n) ->
  load_iovecs w1 iov n = load_iovecs w2 iov n.
Proof.
  intros Hl Hp. apply list_fmap_ext. intros i j Hj. apply lookup_seq in Hj as [-> Hj].
  unfold iovec_size in *. f_equal; (eapply low_load64; [done|]); (eapply public_sub; [done|lia..]).
Qed.

Lemma low_load_msghdr S w1 w2 msg : low S w1 w2 -> public S msg msghdr_size ->
  load_msghdr w1 msg = load_msghdr w2 msg.
Proof.
  intros Hl Hp. unfold load_msghdr, msghdr_size in *.
  f_equal; (eapply low_load64 || eapply low_load32); try done; (eapply public_sub; [done|lia..]).
Qed.

Lemma low_agree S w1 w2 x : low S w1 w2 -> shown S w1 x -> agree_in w1 w2 x.
Proof.
  intros Hl. destruct x as [p n|p]; simpl.
  - intros Hp a Ha. eapply low_load; eauto.
  - intros [->|(n & Hn & Hz & Hp)]; [by left|]. right. exists n. split_and!; [done|done|].
    intros a Ha. eapply low_load; [done|]. apply Hp. lia.
Qed.

(** ** The calculus *)
Lemma quiet_ret {A} S (x : A) : quiet S (st_ret x).
Proof. by intros w1 w2. Qed.

Lemma quiet_at_bind {A B} S w1 w2 (m : ST (world H) A) (k : A -> ST (world H) B) :
  quiet_at S w1 w2 m -> (forall x, quiet S (k x)) -> quiet_at S w1 w2 (st_bind m k).
Proof.
  intros Hm Hk Hl. destruct (Hm Hl) as [Hx Hl']. unfold st_bind.
  destruct (m w1) as [x u1], (m w2) as [y u2]. simpl in Hx, Hl'. subst y. by apply Hk.
Qed.

Lemma quiet_bind {A B} S (m : ST (world H) A) (k : A -> ST (world H) B) :
  quiet S m -> (forall x, quiet S (k x)) -> quiet S (st_bind m k).
Proof. intros Hm Hk w1 w2. by apply quiet_at_bind. Qed.

Lemma quiet_bind_via {A B} S (P : A -> Prop) (m : ST (world H) A) (k : A -> ST (world H) B) :
  always P m -> quiet S m -> (forall x, P x -> quiet S (k x)) -> quiet S (st_bind m k).
Proof.
  intros HP Hm Hk w1 w2 Hl. destruct (Hm w1 w2 Hl) as [Hx Hl']. specialize (HP w1).
  unfold st_bind. destruct (m w1) as [x u1], (m w2) as [y u2]. simpl in *. subst y. by apply Hk.
Qed.

Lemma quiet_at_perform S w1 w2 c : Forall (shown S w1) (ins c) -> quiet_at S w1 w2 (perform c).
Proof.
  intros Hs Hl. assert (Forall (agree_in w1 w2) (ins c)) as Ha.
  { eapply Forall_impl; [exact Hs|]. intros x. by apply low_agree. }
  destruct Hl as [Hv Ht]. destruct (perform_view c w1 w2 Hv Ha) as [Hr Hv'].
  split; [done|]. split; [done|]. intros a HS. apply perform_out; auto.
Qed.

Lemma quiet_perform S c : (forall w, Forall (shown S w) (ins c)) -> quiet S (perform c).
Proof. intros Hc w1 w2. by apply quiet_at_perform. Qed.

Lemma quiet_store S p bs : quiet S (store p bs).
Proof.
  intros w1 w2 [[Hu Hh] Ht]. split; [done|]. split; [split; simpl; congruence|].
  intros a Ha. simpl. unfold overwrite. rewrite Ht by done. done.
Qed.

Lemma quiet_copy S src dst n : public S src n -> quiet S (copy_nonoverlapping src dst n).
Proof.
  intros Hp w1 w2 Hl. unfold copy_nonoverlapping.
  rewrite (low_load_bytes S w1 w2); [by apply quiet_store|done|].
  intros a Ha. apply Hp. lia.
Qed.

Lemma quiet_read64 S p : public S p 8 -> quiet S (read64 p).
Proof. intros Hp w1 w2 Hl. split; [by eapply low_load64|done]. Qed.

Lemma quiet_read32 S p : public S p 4 -> quiet S (read32 p).
Proof. intros Hp w1 w2 Hl. split; [by eapply low_load32|done]. Qed.

Lemma quiet_set_errno S e : quiet S (set_errno e).
Proof. by intros w1 w2 Hl. Qed.

Lemma quiet_private {A} S (m : ST (world H) A) :
  (forall w, tmem (m w).2 = tmem w) ->
  (forall w1 w2, view w1 w2 -> (m w1).1 = (m w2).1 /\ view (m w1).2 (m w2).2) -> quiet S m.
Proof.
  intros Ht Hv w1 w2 [Hw HS]. destruct (Hv _ _ Hw). split; [done|]. split; [done|].
  intros a Ha. rewrite !Ht. auto.
Qed.

Lemma quiet_interfere S : quiet S interfere.
Proof.
  apply quiet_private; [apply interfere_tmem|]. intros w1 w2 Hv. split; [by destruct (interfere w1).1, (interfere w2).1|].
  by apply interfere_view.
Qed.

Lemma quiet_ocalloc S n : quiet S (sgx_ocalloc n).
Proof. apply quiet_private; [apply ocalloc_tmem|apply ocalloc_view]. Qed.

Lemma quiet_ocfree S : quiet S sgx_ocfree.
Proof.
  apply quiet_private; [apply ocfree_tmem|]. intros w1 w2 Hv.
  split; [by destruct (sgx_ocfree w1).1, (sgx_ocfree w2).1|by apply ocfree_view].
Qed.

Create HintDb quiet.
Hint Resolve quiet_ret quiet_store quiet_set_errno quiet_interfere quiet_ocalloc quiet_ocfree : quiet.
Hint Extern 1 (quiet _ (write_zeros _ _)) => apply quiet_store : quiet.
Hint Extern 1 (quiet _ (write32 _ _)) => apply quiet_store : quiet.
Hint Extern 1 (quiet _ (write64 _ _)) => apply quiet_store : quiet.
Hint Extern 2 (quiet _ (perform _)) => apply quiet_perform; intros ?; apply Forall_nil; exact I : quiet.

Ltac hush :=
  repeat first
    [ solve [auto with quiet]
    | match goal with
      | |- quiet _ (st_bind (strlen _) _) => fail 1
      | |- quiet _ (st_bind _ _) => apply quiet_bind; [|intros ?]
      | |- quiet _ (match ?x with _ => _ end) => destruct x
      end ].

Lemma quiet_fail S e : quiet S (fail e).
Proof. unfold fail. hush. Qed.
Lemma quiet_int_result S r : quiet S (int_result r).
Proof. unfold int_result, fail. hush. Qed.
Hint Resolve quiet_fail quiet_int_result : quiet.

Lemma quiet_at_int_call S w1 w2 c : Forall (shown S w1) (ins c) -> quiet_at S w1 w2 (int_call c).
Proof. intros Hc. apply quiet_at_bind; [by apply quiet_at_perform|]. intros. hush. Qed.

Lemma quiet_malloc S n : quiet S (malloc n).
Proof. unfold malloc. hush. Qed.
Lemma quiet_free S p : quiet S (free p).
Proof. unfold free. hush. Qed.
Lemma quiet_mmap S start len prot flags fd offset : quiet S (mmap start len prot flags fd offset).
Proof. unfold mmap. hush. Qed.
Hint Resolve quiet_malloc quiet_free : quiet.

Lemma quiet_alloc_tmp S n : quiet S (alloc_tmp n).
Proof. unfold alloc_tmp. hush. Qed.
Lemma quiet_free_tmp S n p : quiet S (free_tmp n p).
Proof. unfold free_tmp. hush. Qed.
Hint Resolve quiet_alloc_tmp quiet_free_tmp : quiet.

(** ** Strings the host returns: one that reaches into the enclave is refused,
    wherever it ends. *)
Lemma outside_ok_spec p n : 0 <= p <= usize_max -> 0 < n <= usize_max ->
  outside_ok p n = true -> outside_range p n.
Proof.
  intros Hp Hn Ho. unfold outside_ok in Ho. apply negb_true_iff, Z.eqb_neq in Ho.
  apply outside_spec in Ho; [|done..]. intros a Ha. unfold inside.
  destruct (Z.leb_spec e_base a); [|done]. destruct (Z.ltb_spec a (e_base + e_size)); [lia|done].
Qed.

Lemma outside_string S w1 w2 p : low S w1 w2 -> 0 <= p <= usize_max ->
  outside_ok p (wrap 64 (c_strlen (load w1) p + 1)) = true ->
  c_strlen (load w2) p = c_strlen (load w1) p.
Proof.
  intros Hl Hp Ho. pose proof (strlen_range (load w1) p) as Hn.
  rewrite wrap_small in Ho by (unfold usize_max, u64_max in *; lia). apply outside_ok_spec in Ho; [|lia..].
  apply strlen_agree. intros a Ha. eapply low_load; [done|]. rewrite Ho; [done|lia].
Qed.

Lemma low_sym S w1 w2 : low S w1 w2 -> low S w2 w1.
Proof. intros [[? ?] Ht]. split; [by split|]. intros a Ha. symmetry. auto. Qed.

Lemma quiet_string S p {A} (k : bool -> ST (world H) A) : 0 <= p <= usize_max ->
  (forall b, quiet S (k b)) ->
  quiet S (let* n := strlen p in k (outside_ok p (wrap 64 (n + 1)))).
Proof.
  intros Hp Hk w1 w2 Hl. unfold st_bind, strlen.
  assert (outside_ok p (wrap 64 (c_strlen (load w1) p + 1))
          = outside_ok p (wrap 64 (c_strlen (load w2) p + 1))) as ->; [|by apply Hk].
  destruct (outside_ok p (wrap 64 (c_strlen (load w1) p + 1))) eqn:E1.
  - by rewrite (outside_string S w1 w2).
  - destruct (outside_ok p (wrap 64 (c_strlen (load w2) p + 1))) eqn:E2; [|done].
    rewrite (outside_string S w2 w1), E2 in E1; [done|by apply low_sym|done|done].
Qed.

Lemma quiet_at_pointer S w1 w2 c {A} (k : reply -> ST (world H) A) :
  returns_pointer c = true -> Forall (shown S w1) (ins c) ->
  (forall r, 0 <= r_result r <= usize_max -> quiet S (k r)) ->
  quiet_at S w1 w2 (st_bind (perform c) k).
Proof.
  intros Hc Hs Hk Hl. pose proof (perform_pointer c w1 Hc) as Hp.
  destruct (quiet_at_perform S w1 w2 c Hs Hl) as [Hr Hl'].
  unfold st_bind. destruct (perform c w1) as [r u1], (perform c w2) as [r' u2].
  simpl in *. subst r'. by apply Hk.
Qed.

Lemma quiet_at_getenv S w1 w2 p : shown S w1 (InStr p) -> quiet_at S w1 w2 (getenv p).
Proof.
  intros Hs. apply quiet_at_pointer; [done|by constructor|]. intros r Hr. hush.
  apply (quiet_string S _ (fun b => st_ret (if negb b then 0 else r_result r))); [done|]. hush.
Qed.

Lemma quiet_at_realpath S w1 w2 p : shown S w1 (InStr p) -> quiet_at S w1 w2 (realpath p).
Proof.
  intros Hs. apply quiet_at_pointer; [done|by constructor|]. intros r Hr. hush.
  apply (quiet_string S _ (fun b => if negb b then let* _ := set_errno ESGX in st_ret 0
                                    else st_ret (r_result r))); [done|]. intros b. hush.
Qed.

Lemma quiet_getcwd S buf size : quiet S (getcwd buf size).
Proof.
  intros w1 w2. apply quiet_at_pointer; [done|constructor|]. intros r Hr.
  destruct (decide _); [|hush]. destruct (negb (r_result r =? 0)); [|hush].
  destruct (buf =? 0); [|hush]. destruct (size >? 0); [hush|].
  apply (quiet_string S _ (fun b => if negb b then let* _ := set_errno ESGX in st_ret 0
                                    else st_ret (r_result r))); [done|]. intros b. hush.
Qed.

Lemma quiet_getuid S : quiet S getuid.
Proof. unfold getuid. hush. Qed.
Lemma quiet_getpid S : quiet S getpid.
Proof. unfold getpid. hush. Qed.
Lemma quiet_raise S n : quiet S (raise n).
Proof. unfold raise. hush. Qed.
Lemma quiet_gai_strerror S n : quiet S (gai_strerror n).
Proof. unfold gai_strerror. hush. Qed.

Lemma quiet_at_dir_call S w1 w2 c : Forall (shown S w1) (ins c) -> quiet_at S w1 w2 (dir_call c).
Proof. intros Hc. apply quiet_at_bind; [by apply quiet_at_perform|]. intros. hush. Qed.

(** ** Structures and lengths of the caller *)

(** After a call that succeeded its [out] parameters are public as well: the host
    gave every byte of them. *)
Definition filled S (c : ocall) (a : Z) : Prop :=
  S a \/ exists p n, (p, n) ∈ outs c /\ p <> 0 /\ p <= a < p + n.

Lemma low_weaken S T w1 w2 : (forall a, S a -> T a) -> low T w1 w2 -> low S w1 w2.
Proof. intros HST [Hv Ht]. split; [done|]. auto. Qed.

Lemma quiet_at_filled {A} S w1 w2 c (k : reply -> ST (world H) A) :
  Forall (shown S w1) (ins c) ->
  (forall r, r_status r <> SGX_SUCCESS -> quiet S (k r)) ->
  (forall r T, r_status r = SGX_SUCCESS ->
     (forall a, filled S c a -> inside a = true -> T a) -> quiet T (k r)) ->
  quiet_at S w1 w2 (st_bind (perform c) k).
Proof.
  intros Hs Hbad Hgood Hl. destruct (quiet_at_perform S w1 w2 c Hs Hl) as [Hr Hl'].
  assert (Forall (agree_in w1 w2) (ins c)) as Ha.
  { eapply Forall_impl; [exact Hs|]. intros x. by apply low_agree. }
  pose proof (fun p n a => perform_fills c w1 w2 p n a (proj1 Hl) Ha) as Hf.
  unfold st_bind. destruct (perform c w1) as [r u1], (perform c w2) as [r' u2]. simpl in *. subst r'.
  destruct (decide (r_status r = SGX_SUCCESS)) as [E|E]; [|by apply Hbad].
  set (T a := S a \/ filled S c a /\ inside a = true).
  destruct (Hgood r T E) with (w1 := u1) (w2 := u2) as [Hx Hl''].
  - intros a ? ?. by right.
  - split; [apply Hl'|]. intros a [HS|[[HS|(p & n & Hin & Hp & Hb)] Hi]]; [by apply Hl'..|eauto].
  - split; [done|]. eapply low_weaken; [|done]. by left.
Qed.

(** A null pointer is not an [out] parameter; what the code reads there it reads as
    it stands. *)
Definition null_size (p n : Z) : Z := if p =? 0 then n else 0.

Lemma public_out S T c p n : (p, n) ∈ outs c -> public S p (null_size p n) ->
  (forall a, filled S c a -> inside a = true -> T a) -> public T p n.
Proof.
  intros Hin Hn HT a Ha Hi. apply HT; [|done]. unfold null_size in Hn.
  destruct (Z.eqb_spec p 0); [left; by apply Hn|]. right. by exists p, n.
Qed.

Lemma quiet_fix_field S pwd buf off : public S (pwd + off) 8 -> quiet S (fix_field pwd buf off).
Proof. intros Hp. unfold fix_field. hush. by apply quiet_read64. Qed.

Lemma quiet_at_getpwuid_r S w1 w2 uid pwd buf buflen res :
  public S pwd (null_size pwd passwd_size) -> public S res (null_size res 8) ->
  quiet_at S w1 w2 (getpwuid_r uid pwd buf buflen res).
Proof.
  intros Hp Hr. apply quiet_at_filled; [constructor|intros r Hne|intros r T E HT].
  - rewrite bool_decide_false by done. simpl. hush.
  - pose proof (fun p n Hin Hn => public_out S T _ p n Hin Hn HT) as Hout.
    apply Hout in Hp; [|by left]. apply Hout in Hr; [|by do 2 right; left].
    hush; [by apply quiet_read64|..];
      apply quiet_fix_field; (eapply public_sub; [exact Hp|unfold passwd_size; lia..]).
Qed.

Lemma quiet_at_readdir64_r S w1 w2 dirp entry res :
  public S entry dirent64_size -> public S res (null_size res 8) ->
  quiet_at S w1 w2 (readdir64_r dirp entry res).
Proof.
  intros He Hr. apply quiet_at_filled; [by repeat constructor|intros r Hne|intros r T E HT].
  - rewrite bool_decide_false by done. simpl. hush.
  - pose proof (fun Hin => public_out S T _ res 8 Hin Hr HT) as Hout.
    hush. apply quiet_read64, Hout. by right; left.
Qed.

Definition len_size (addrlen : Z) : Z := if negb (addrlen =? 0) then 4 else 0.

Lemma low_len_at S w1 w2 addrlen : low S w1 w2 -> public S addrlen (len_size addrlen) ->
  len_at w1 addrlen = len_at w2 addrlen.
Proof.
  unfold len_at, len_size. destruct (negb _); [|done]. intros. by eapply low_load32.
Qed.

Lemma quiet_at_len {A} S w1 w2 addrlen (k : Z -> ST (world H) A) :
  public S addrlen (len_size addrlen) -> quiet_at S w1 w2 (k (len_at w1 addrlen)) ->
  quiet_at S w1 w2
    (let* len_in := (if negb (addrlen =? 0) then read32 addrlen else st_ret 0) in k len_in).
Proof.
  intros Hp Hk Hl. unfold st_bind. rewrite !read_len, <- (low_len_at S w1 w2) by done. auto.
Qed.

Lemma quiet_at_len_call S w1 w2 c addrlen : public S addrlen (len_size addrlen) ->
  Forall (shown S w1) (ins (c (len_at w1 addrlen))) -> quiet_at S w1 w2 (len_call c addrlen).
Proof.
  intros Hp Hs. apply quiet_at_len; [done|].
  apply quiet_at_bind; [by apply quiet_at_perform|]. intros r. hush.
Qed.

(** ** Transfers *)
Lemma public_outside S p n : outside_range p n -> public S p n.
Proof. intros Ho a Ha E. by rewrite Ho in E. Qed.

Lemma quiet_alloc_then {A} S n (k : Z -> ST (world H) A) : n <= usize_max ->
  quiet S (k 0) -> (forall p, outside_range p n -> quiet S (k p)) ->
  quiet S (st_bind (alloc_tmp n) k).
Proof.
  intros Hn Hz Hk. eapply quiet_bind_via; [by apply alloc_tmp_outside|hush|].
  intros p [->|Hp]; auto.
Qed.

Lemma quiet_read_call S c copied buf n : (forall r, copied r <= n) -> (forall t, ins (c t) = []) ->
  quiet S (read_call c copied buf n).
Proof.
  intros Hc Hi. unfold read_call. destruct (bad_buffer buf n) eqn:E; [hush|].
  apply bad_buffer_size in E. apply quiet_alloc_then; [done|simpl; hush|].
  intros p Hp. hush; [by apply quiet_perform; intros; rewrite Hi|].
  apply quiet_copy, public_outside. intros a Ha. apply Hp.
  match goal with _ : _ <= a < _ + copied ?r |- _ => specialize (Hc r) end. lia.
Qed.

Lemma quiet_at_recvfrom S w1 w2 sockfd buf len flags addr addrlen :
  public S addrlen (len_size addrlen) ->
  quiet_at S w1 w2 (recvfrom sockfd buf len flags addr addrlen).
Proof.
  intros Hp. apply quiet_at_len; [done|].
  destruct (bad_buffer buf len) eqn:E; [apply quiet_fail|]. apply bad_buffer_size in E.
  apply quiet_alloc_then; [done|simpl; hush|]. intros p Ho. hush.
  by apply quiet_copy, public_outside.
Qed.

Lemma quiet_write_call S c buf n : (forall t w, Forall (shown S w) (ins (c t))) ->
  public S buf n -> quiet S (write_call c buf n).
Proof.
  intros Hi Hp. unfold write_call. destruct (bad_buffer buf n) eqn:E; [hush|].
  apply bad_buffer_size in E. apply quiet_alloc_then; [done|simpl; hush|].
  intros p Ho. hush; [by apply quiet_copy|by apply quiet_perform].
Qed.

(** ** Vectors *)
Definition publics S (v : list iovec) : Prop :=
  Forall (fun io => public S (iov_base io) (iov_len io)) v.

Lemma quiet_copy_in S tmp v : publics S v -> quiet S (copy_in tmp v).
Proof.
  intros Hv. revert tmp. induction Hv as [|io v Hio Hv IH]; intros [|t tmp]; simpl; hush.
  by apply quiet_copy.
Qed.

Lemma quiet_copy_out S tmp v :
  Forall2 (fun t io => outside_range (iov_base t) (iov_len io)) tmp v ->
  forall rem, quiet S (copy_back tmp v rem) /\ quiet S (copy_msg tmp v rem).
Proof.
  induction 1 as [|t io tmp v Ho _ IH]; intros rem; simpl; [split; hush|].
  assert (quiet S (copy_nonoverlapping (iov_base t) (iov_base io) (Z.min (iov_len io) rem))).
  { apply quiet_copy, public_outside. intros a Ha. apply Ho. lia. }
  split; hush; apply IH.
Qed.

Lemma quiet_at_get {A} S w1 w2 (k : world H -> ST (world H) A) :
  (low S w1 w2 -> k w2 = k w1) -> quiet_at S w1 w2 (k w1) ->
  quiet_at S w1 w2 (let* w := st_get in k w).
Proof.
  intros Hk Hq Hl. change ((let* w := st_get in k w) w1) with (k w1 w1).
  change ((let* w := st_get in k w) w2) with (k w2 w2). rewrite Hk by done. auto.
Qed.

Lemma bad_iov_count iov n : bad_iov iov n = false -> Z.of_nat (Z.to_nat n) = n.
Proof.
  unfold bad_iov. intros E. destruct (Z.leb_spec n 0); [by destruct (iov =? 0)|lia].
Qed.

Lemma check_iovecs_size v n : check_iovecs v 0 = Some n ->
  n = total v /\ Forall (fun io => 0 < iov_len io) v /\ n <= usize_max.
Proof.
  intros Hc. destruct (check_iovecs_spec _ _ _ Hc) as (-> & Hv & Hm). split_and!; [done|done|].
  destruct Hm as [->|]; [done|lia].
Qed.

Lemma quiet_at_readv_call S w1 w2 c iov n : (forall t, ins (c t) = []) ->
  public S iov (iovec_size * n) -> quiet_at S w1 w2 (readv_call c iov n).
Proof.
  intros Hi Hp. unfold readv_call. destruct (bad_iov iov n) eqn:Eb; [apply quiet_fail|].
  apply bad_iov_count in Eb. apply quiet_at_get.
  { intros Hl. by rewrite (low_load_iovecs S w1 w2) by (rewrite ?Eb; done). }
  destruct (check_iovecs _ 0) as [m|] eqn:Ec; [|apply quiet_fail].
  destruct (check_iovecs_size _ _ Ec) as (-> & Hv & Hm).
  apply quiet_alloc_then; [done|simpl; hush|].
  intros p Ho. hush; [by apply quiet_perform; intros; rewrite Hi|].
  by apply quiet_copy_out, layout_outside.
Qed.

Lemma quiet_at_writev_call S w1 w2 c iov n : (forall t, ins (c t) = []) ->
  public S iov (iovec_size * n) -> publics S (load_iovecs w1 iov (Z.to_nat n)) ->
  quiet_at S w1 w2 (writev_call c iov n).
Proof.
  intros Hi Hp Hv. unfold writev_call. destruct (bad_iov iov n) eqn:Eb; [apply quiet_fail|].
  apply bad_iov_count in Eb. apply quiet_at_get.
  { intros Hl. by rewrite (low_load_iovecs S w1 w2) by (rewrite ?Eb; done). }
  destruct (check_iovecs _ 0) as [m|] eqn:Ec; [|apply quiet_fail].
  destruct (check_iovecs_size _ _ Ec) as (-> & _ & Hm).
  apply quiet_alloc_then; [done|simpl; hush|].
  intros p Ho. hush; [by apply quiet_copy_in|by apply quiet_perform; intros; rewrite Hi].
Qed.

(** ** Messages *)
Lemma low_msg_iovecs S w1 w2 m : low S w1 w2 ->
  public S (msg_iov m) (iovec_size * msg_iovlen m) -> msg_iovecs w2 m = msg_iovecs w1 m.
Proof.
  intros Hl Hp. unfold msg_iovecs. destruct (Z.gtb_spec (msg_iovlen m) 0);
    [|by rewrite !andb_false_r].
  rewrite (low_load_iovecs S w1 w2); [done|done|]. by rewrite Z2Nat.id by lia.
Qed.

Lemma quiet_malloc_then {A} S n (k : Z -> ST (world H) A) : 0 < n <= usize_max ->
  quiet S (k 0) -> (forall p, outside_range p n -> quiet S (k p)) ->
  quiet S (st_bind (malloc n) k).
Proof.
  intros Hn Hz Hk. eapply quiet_bind_via; [by apply malloc_outside|hush|].
  intros p [->|Hp]; auto.
Qed.

Lemma quiet_at_sendmsg S w1 w2 sockfd msg flags (m := load_msghdr w1 msg) :
  public S msg msghdr_size -> public S (msg_iov m) (iovec_size * msg_iovlen m) ->
  publics S (load_iovecs w1 (msg_iov m) (Z.to_nat (msg_iovlen m))) ->
  public S (msg_name m) (msg_namelen m) -> public S (msg_control m) (msg_controllen m) ->
  quiet_at S w1 w2 (sendmsg sockfd msg flags).
Proof.
  intros Hm Hi Hv Hn Hc. unfold sendmsg. destruct (bad_msg msg); [apply quiet_fail|].
  apply quiet_at_get.
  { intros Hl. by rewrite <- (low_load_msghdr S w1 w2), (low_msg_iovecs S w1 w2). }
  fold m. destruct (optional (msg_name m) _) as [name namelen] eqn:En.
  destruct (msg_iovecs w1 m) as [[v n]|] eqn:Em; [|apply quiet_fail].
  destruct (msg_iovecs_spec _ _ _ _ Em) as (-> & _ & Ht & ->).
  destruct (optional (msg_control m) _) as [ctl ctllen] eqn:Eo.
  apply quiet_malloc_then; [done|simpl; hush|]. intros p Ho. hush; [by apply quiet_copy_in|].
  apply quiet_perform. intros w. unfold optional in *.
  repeat constructor; simpl; repeat case_match; simplify_eq; try done; intros a Ha; lia.
Qed.

Lemma quiet_at_recvmsg S w1 w2 sockfd msg flags (m := load_msghdr w1 msg) :
  public S msg msghdr_size -> public S (msg_iov m) (iovec_size * msg_iovlen m) ->
  quiet_at S w1 w2 (recvmsg sockfd msg flags).
Proof.
  intros Hm Hi. unfold recvmsg. destruct (bad_msg msg); [apply quiet_fail|].
  apply quiet_at_get.
  { intros Hl. by rewrite <- (low_load_msghdr S w1 w2), (low_msg_iovecs S w1 w2). }
  fold m. destruct (optional (msg_name m) _) as [name namelen].
  destruct (msg_iovecs w1 m) as [[v n]|] eqn:Em; [|apply quiet_fail].
  destruct (msg_iovecs_spec _ _ _ _ Em) as (-> & Hv & Ht & _).
  destruct (optional (msg_control m) _) as [ctl ctllen].
  apply quiet_malloc_then; [done|simpl; hush|]. intros p Ho. hush.
  by apply quiet_copy_out, layout_outside.
Qed.

(** ** [environ] follows the host's pointers before it checks them. *)

(** The addresses it reads in the list at [p]: each entry, and the string the entry
    pointed to when its length was taken. *)
Fixpoint environ_reads (fuel : nat) (p : Z) (w : world H) : list inarg :=
  match fuel with
  | O => []
  | Datatypes.S fuel =>
      let w := (interfere w).2 in
      InBuf p 8 ::
      if load64 w p =? 0 then [] else
      let w := (interfere w).2 in
      let e := load64 w p in
      let n := c_strlen (load w) e in
      InBuf e (n + 1) ::
      let w := (interfere w).2 in
      if negb (outside_ok (load64 w p) (wrap 64 (n + 1))) then []
      else environ_reads fuel (wrap 64 (p + 8)) w
  end.

Definition environ_discloses (fuel : nat) (w : world H) : list inarg :=
  let '(r, w) := perform U_environ w in
  if bool_decide (r_status r = SGX_SUCCESS) && negb (r_result r =? 0)
  then environ_reads fuel (r_result r) w else [].

Lemma quiet_at_then {A B} S w1 w2 (m : ST (world H) A) (k : A -> ST (world H) B) :
  quiet_at S w1 w2 m -> quiet_at S (m w1).2 (m w2).2 (k (m w1).1) -> quiet_at S w1 w2 (st_bind m k).
Proof.
  intros Hm Hk Hl. destruct (Hm Hl) as [Hx Hl']. unfold st_bind.
  destruct (m w1) as [x u1], (m w2) as [y u2]. simpl in *. subst y. auto.
Qed.

Lemma quiet_peek64 S p : public S p 8 -> quiet S (peek64 p).
Proof. intros Hp. unfold peek64. hush. by apply quiet_read64. Qed.

Lemma quiet_at_strlen S w1 w2 p : public S p (c_strlen (load w1) p + 1) ->
  quiet_at S w1 w2 (strlen p).
Proof.
  intros Hp Hl. split; [|done]. symmetry. apply strlen_agree. intros a Ha.
  eapply low_load; [done|]. apply Hp. lia.
Qed.

Lemma peek64_eq p w : peek64 p w = (load64 (interfere w).2 p, (interfere w).2).
Proof. unfold peek64, st_bind. by destruct (interfere w). Qed.

Lemma quiet_at_environ_loop S fuel : forall w w1 w2 p count,
  Forall (shown S w) (environ_reads fuel p w1) -> quiet_at S w1 w2 (environ_loop fuel p count).
Proof.
  induction fuel as [|fuel IH]; intros w w1 w2 p count Hs; simpl in *; [apply quiet_ret|].
  apply Forall_cons in Hs as [Hp Hs].
  apply quiet_at_then; [by apply quiet_peek64|]. rewrite !peek64_eq. simpl.
  destruct (load64 (interfere w1).2 p =? 0); [apply quiet_ret|].
  apply Forall_cons in Hs as [He Hs].
  apply quiet_at_then; [by apply quiet_peek64|]. rewrite !peek64_eq. simpl.
  apply quiet_at_then; [by apply quiet_at_strlen|]. simpl.
  apply quiet_at_then; [by apply quiet_peek64|]. rewrite !peek64_eq. simpl.
  destruct (negb (outside_ok _ _)); [apply quiet_ret|]. by apply (IH w).
Qed.

Lemma quiet_at_environ S w1 w2 fuel :
  Forall (shown S w1) (environ_discloses fuel w1) -> quiet_at S w1 w2 (environ fuel).
Proof.
  intros Hs. unfold environ_discloses in Hs. apply quiet_at_then; [by apply quiet_at_perform|].
  destruct (perform U_environ w1) as [r u1]. simpl. case_decide as E; [|apply quiet_ret].
  rewrite bool_decide_true in Hs by done. simpl in Hs.
  destruct (negb (r_result r =? 0)); [|apply quiet_ret].
  apply quiet_at_bind; [|intros ?; hush]. by apply (quiet_at_environ_loop S fuel w1).
Qed.

(** ** Sequences *)
Definition in_buffers (v : list iovec) : list inarg := (fun io => InBuf (iov_base io) (iov_len io)) <$> v.

(** What a call reads of the enclave's memory for the host: what the interface files
    make it pass out ([readdir64_r]'s entry is [in, out] there), the lengths and
    vectors the caller describes its buffers with and, for [environ], what the host's
    pointers lead to. *)
Definition disclosed (r : request) (w : world H) : list inarg :=
  match r with
  | Direct c => ins c
  | Getenv p | Realpath p | Opendir p => [InStr p]
  | Environ fuel => environ_discloses fuel w
  | Getpwuid_r _ pwd _ _ res => 
      [InBuf pwd (null_size pwd passwd_size); InBuf res (null_size res 8)]
  | Readdir64_r _ entry res => [InBuf entry dirent64_size; InBuf res (null_size res 8)]
  | Accept _ addr addrlen | Accept4 _ addr addrlen _ =>
      [InBuf addrlen (len_size addrlen); InBuf addr (len_at w addrlen)]
  | Getsockopt _ _ _ _ addrlen | Getpeername _ _ addrlen | Getsockname _ _ addrlen
  | Recvfrom _ _ _ _ _ addrlen => [InBuf addrlen (len_size addrlen)]
  | Write _ buf n | Pwrite64 _ buf n _ | Send _ buf n _ => [InBuf buf n]
  | Sendto _ buf n _ addr addrlen => [InBuf buf n; InBuf addr addrlen]
  | Readv _ iov n | Preadv64 _ iov n _ => [InBuf iov (iovec_size * n)]
  | Writev _ iov n | Pwritev64 _ iov n _ =>
      InBuf iov (iovec_size * n) :: in_buffers (load_iovecs w iov (Z.to_nat n))
  | Sendmsg _ msg _ =>
      let m := load_msghdr w msg in
      [InBuf msg msghdr_size; InBuf (msg_iov m) (iovec_size * msg_iovlen m);
       InBuf (msg_name m) (msg_namelen m); InBuf (msg_control m) (msg_controllen m)]
      ++ in_buffers (load_iovecs w (msg_iov m) (Z.to_nat (msg_iovlen m)))
  | Recvmsg _ msg _ =>
      let m := load_msghdr w msg in
      [InBuf msg msghdr_size; InBuf (msg_iov m) (iovec_size * msg_iovlen m)]
  | _ => []
  end.

Lemma shown_buffers S w v : Forall (shown S w) (in_buffers v) -> publics S v.
Proof. unfold in_buffers. rewrite Forall_fmap. done. Qed.

(** Everything disclosed along a run is in [S]. *)
Fixpoint all_shown S (rs : list request) (w : world H) : Prop :=
  match rs with
  | [] => True
  | r :: rs => Forall (shown S w) (disclosed r w) /\ all_shown S rs (exec r w).2
  end.

Lemma exec_quiet S r w1 w2 :
  Forall (shown S w1) (disclosed r w1) -> quiet_at S w1 w2 (exec r).
Proof.
  intros Hs. destruct r; simpl in *.
  - destruct (direct c) as [m|] eqn:E; [|apply quiet_ret]. apply direct_int_call in E as ->.
    by apply quiet_at_int_call.
  - apply quiet_getuid.
  - apply quiet_getpid.
  - apply quiet_raise.
  - apply quiet_bind; hush.
  - apply quiet_malloc.
  - apply quiet_mmap.
  - apply Forall_cons in Hs as [Hs _]. by apply quiet_at_getenv.
  - apply Forall_cons in Hs as [Hs _]. by apply quiet_at_realpath.
  - apply quiet_getcwd.
  - by apply quiet_at_dir_call.
  - by apply quiet_at_dir_call.
  - apply quiet_gai_strerror.
  - apply quiet_at_bind; [by apply quiet_at_environ|hush].
  - decompose_Forall_hyps. by apply quiet_at_getpwuid_r.
  - decompose_Forall_hyps. by apply quiet_at_readdir64_r.
  - decompose_Forall_hyps. apply quiet_at_len_call; [done|by repeat constructor].
  - decompose_Forall_hyps. apply quiet_at_len_call; [done|by repeat constructor].
  - decompose_Forall_hyps. by apply quiet_at_len_call.
  - decompose_Forall_hyps. by apply quiet_at_len_call.
  - decompose_Forall_hyps. by apply quiet_at_len_call.
  - apply quiet_bind; [apply quiet_read_call; [lia|done]|intros []; hush].
  - apply quiet_bind; [apply quiet_read_call; [lia|done]|intros []; hush].
  - apply quiet_bind; [apply quiet_read_call; [lia|done]|intros []; hush].
  - decompose_Forall_hyps. by apply quiet_at_recvfrom.
  - decompose_Forall_hyps. by apply quiet_write_call.
  - decompose_Forall_hyps. by apply quiet_write_call.
  - decompose_Forall_hyps. by apply quiet_write_call.
  - decompose_Forall_hyps. apply quiet_write_call; [by repeat constructor|done].
  - decompose_Forall_hyps. by apply quiet_at_readv_call.
  - decompose_Forall_hyps. by apply quiet_at_readv_call.
  - apply Forall_cons in Hs as [Hi Hv%shown_buffers]. by apply quiet_at_writev_call.
  - apply Forall_cons in Hs as [Hi Hv%shown_buffers]. by apply quiet_at_writev_call.
  - do 4 apply Forall_cons in Hs as [? Hs]. apply shown_buffers in Hs. by apply quiet_at_sendmsg.
  - decompose_Forall_hyps. by apply quiet_at_recvmsg.
Qed.

(** C14. Two runs of the same calls that the host cannot tell apart at the start
    stay indistinguishable, in its own state, its memory and the results, when
    the bytes the calls are asked to pass out are the same: nothing else of the
    enclave's memory reaches the host.  What an [out] parameter held before a call
    plays no part, and [environ] shows nothing but the bytes that the host's own
    pointers lead it to. *)
Theorem libc_calls_confidential S rs w1 w2 :
  low S w1 w2 -> all_shown S rs w1 ->
  (run rs w1).1 = (run rs w2).1 /\ low S (run rs w1).2 (run rs w2).2.
Proof.
  revert w1 w2. induction rs as [|r rs IH]; intros w1 w2 Hl Hs; [done|]. destruct Hs as [Hr Hs].
  destruct (exec_quiet S r w1 w2 Hr Hl) as [Hx Hl1]. simpl. unfold st_bind.
  destruct (exec r w1) as [x1 u1], (exec r w2) as [x2 u2]. simpl in *. subst x2.
  destruct (IH u1 u2 Hl1 Hs) as [Hxs Hl2].
  destruct (run rs u1) as [xs1 v1], (run rs u2) as [xs2 v2]. simpl in *. by subst.
Qed.
End secret.

(** A write of two bytes shows the host those, and not the byte that differs, though
    the structure of the second call lies there. *)
Definition secret_calls : list request :=
  [Write 1 0x10200 2; Getpwuid_r 0 0x10300 0x10400 16 0x10500; Environ 4; Read 3 0x10100 4].

Lemma libc_calls_confidential_witness :
  th_output (host (run secret_calls (toy_start 0x10300 Byte.x07)).2) = [Byte.x41; Byte.x41] /\
  low (fun a => 0x10200 <= a < 0x10202)
    (run secret_calls (toy_start 0x10300 Byte.x07)).2
    (run secret_calls (toy_start 0x10300 Byte.x08)).2.
Proof.
  split; [vm_compute; reflexivity|].
  apply (libc_calls_confidential (fun a => 0x10200 <= a < 0x10202) secret_calls).
  - split; [split; reflexivity|]. intros a Ha. simpl. destruct (Z.eqb_spec a 0x10300); [lia|done].
  - split; [constructor; [|constructor]; intros a Ha _; lia|].
    split; [apply Forall_cons; split; [|apply Forall_singleton]; intros a Ha _; change (null_size _ _) with 0 in Ha; lia|].
    split; [constructor|]. split; [constructor|exact I].
Defined.

(** * A host that moves its list while it is read

    Before the length is taken the first entry points into the enclave, to a byte
    that is or is not zero; before the check it points to the last byte in front of
    the enclave.  A string of length 0 passes there and a longer one does not. *)
Definition moved_entry (k : nat) : Z :=
  match k with 0%nat | 1%nat => 0x10300 | 2%nat => toy_base - 1 | _ => 0 end.

#[local] Instance moving_hosts : Host nat := {|
  perform c w := match c with
    | U_environ => (toy_reply toy_list, w)
    | _ => ({| r_status := SGX_ERROR_UNEXPECTED; r_result := 0; r_error := 0; r_out := 0;
               r_controllen := 0; r_flags := 0 |}, w)
    end;
  interfere w := (tt, World (tmem w)
    (overwrite (fun _ => true) toy_list (le_bytes 8 (moved_entry (host w))) (umem w))
    (errno w) (heap w) (fault w) (S (host w)));
  sgx_ocalloc _ w := (0, w);
  sgx_ocfree w := (tt, w);
  c_strlen := toy_strlen
|}.

#[local] Instance moving_host_laws : HostLaws (H := nat).
Proof.
  split; try (by left); try (intros c; by destruct c); try done.
  - intros w1 w2 [Hu Hh]. unfold view. simpl. by rewrite Hu, Hh.
  - exact (@strlen_range toy_host _ toy_hosts toy_host_laws).
  - exact (@strlen_agree toy_host _ toy_hosts toy_host_laws).
Qed.

Definition moving_start (b : byte) : world nat :=
  World (fun x => if x =? 0x10300 then b else Byte.x41) (fun _ => Byte.x00) 0 ∅ false 0%nat.

(** [environ] does not keep the enclave's memory to itself: it takes the length of the
    string an entry points to before it checks the entry, which the host may move
    inside and out again in between.  With a host that does, and that keeps every
    law, the result of the call tells whether a byte of the enclave is zero. *)
Theorem environ_leaks :
  low (fun a => a <> 0x10300) (moving_start Byte.x00) (moving_start Byte.x41) /\
  (environ 4 (moving_start Byte.x00)).1 = Some toy_list /\
  (environ 4 (moving_start Byte.x41)).1 = Some 0.
Proof.
  split_and!; [|vm_compute; reflexivity..]. split; [done|].
  intros a Ha. simpl. by destruct (Z.eqb_spec a 0x10300).
Qed.
