(* ===== verification/IoError.v ===== *)
(** IoError: the error type of the enclave's standard library.

    sgx_tstd/src/io/error.rs ([ErrorKind], [Error] and what is read from it) and
    sgx_tstd/src/sys/mod.rs (the error numbers of the host).  A boxed error is
    its message. *)
From Stdlib Require Import ZArith Lia String.
From stdpp Require Import base numbers list option tactics.
From S2P Require Import Prelude SgxStatus.
Local Open Scope Z_scope.

Inductive ErrorKind :=
| NotFound
| PermissionDenied
| ConnectionRefused
| ConnectionReset
| HostUnreachable
| NetworkUnreachable
| ConnectionAborted
| NotConnected
| AddrInUse
| AddrNotAvailable
| NetworkDown
| BrokenPipe
| AlreadyExists
| WouldBlock
| NotADirectory
| IsADirectory
| DirectoryNotEmpty
| ReadOnlyFilesystem
| FilesystemLoop
| StaleNetworkFileHandle
| InvalidInput
| InvalidData
| TimedOut
| WriteZero
| StorageFull
| NotSeekable
| FilesystemQuotaExceeded
| FileTooLarge
| ResourceBusy
| ExecutableFileBusy
| Deadlock
| CrossesDevices
| TooManyLinks
| InvalidFilename
| ArgumentListTooLong
| Interrupted
| Unsupported
| UnexpectedEof
| OutOfMemory
| Other
| Uncategorized
| SgxError.

#[export] Instance ErrorKind_eq_dec : EqDecision ErrorKind.
Proof. solve_decision. Defined.

(** [ErrorKind::as_str] *)
Definition kind_as_str (k : ErrorKind) : string :=
  match k with
  | AddrInUse => "address in use"
  | AddrNotAvailable => "address not available"
  | AlreadyExists => "entity already exists"
  | ArgumentListTooLong => "argument list too long"
  | BrokenPipe => "broken pipe"
  | ConnectionAborted => "connection aborted"
  | ConnectionRefused => "connection refused"
  | ConnectionReset => "connection reset"
  | CrossesDevices => "cross-device link or rename"
  | Deadlock => "deadlock"
  | DirectoryNotEmpty => "directory not empty"
  | ExecutableFileBusy => "executable file busy"
  | FileTooLarge => "file too large"
  | FilesystemLoop => "filesystem loop or indirection limit (e.g. symlink loop)"
  | FilesystemQuotaExceeded => "filesystem quota exceeded"
  | HostUnreachable => "host unreachable"
  | Interrupted => "operation interrupted"
  | InvalidData => "invalid data"
  | InvalidFilename => "invalid filename"
  | InvalidInput => "invalid input parameter"
  | IsADirectory => "is a directory"
  | NetworkDown => "network down"
  | NetworkUnreachable => "network unreachable"
  | NotADirectory => "not a directory"
  | NotConnected => "not connected"
  | NotFound => "entity not found"
  | NotSeekable => "seek on unseekable file"
  | Other => "other error"
  | OutOfMemory => "out of memory"
  | PermissionDenied => "permission denied"
  | ReadOnlyFilesystem => "read-only filesystem or storage medium"
  | ResourceBusy => "resource busy"
  | StaleNetworkFileHandle => "stale network file handle"
  | StorageFull => "no storage space"
  | TimedOut => "timed out"
  | TooManyLinks => "too many links"
  | Uncategorized => "uncategorized error"
  | UnexpectedEof => "unexpected end of file"
  | Unsupported => "unsupported"
  | WouldBlock => "operation would block"
  | WriteZero => "write zero"
  | SgxError => "Sgx error status"
  end.

(** * Error numbers, sgx_libc/src/linux/x86_64/mod.rs *)
Module Errno.
Definition E2BIG : Z := 7.
Definition EADDRINUSE : Z := 98.
Definition EADDRNOTAVAIL : Z := 99.
Definition EBUSY : Z := 16.
Definition ECONNABORTED : Z := 103.
Definition ECONNREFUSED : Z := 111.
Definition ECONNRESET : Z := 104.
Definition EDEADLK : Z := 35.
Definition EDQUOT : Z := 122.
Definition EEXIST : Z := 17.
Definition EFBIG : Z := 27.
Definition EHOSTUNREACH : Z := 113.
Definition EINTR : Z := 4.
Definition EINVAL : Z := 22.
Definition EISDIR : Z := 21.
Definition ELOOP : Z := 40.
Definition ENOENT : Z := 2.
Definition ENOMEM : Z := 12.
Definition ENOSPC : Z := 28.
Definition ENOSYS : Z := 38.
Definition EMLINK : Z := 31.
Definition ENAMETOOLONG : Z := 36.
Definition ENETDOWN : Z := 100.
Definition ENETUNREACH : Z := 101.
Definition ENOTCONN : Z := 107.
Definition ENOTDIR : Z := 20.
Definition ENOTEMPTY : Z := 39.
Definition EPIPE : Z := 32.
Definition EROFS : Z := 30.
Definition ESPIPE : Z := 29.
Definition ESTALE : Z := 116.
Definition ETIMEDOUT : Z := 110.
Definition ETXTBSY : Z := 26.
Definition EXDEV : Z := 18.
Definition EPERM : Z := 1.
Definition EACCES : Z := 13.
Definition EAGAIN : Z := 11.
Definition EWOULDBLOCK : Z := EAGAIN.
End Errno.
Import Errno.

(** [decode_error_kind]; a match on constants is a chain of comparisons. *)
Definition errno_table : list (Z * ErrorKind) :=
  [(E2BIG, ArgumentListTooLong);
   (EADDRINUSE, AddrInUse);
   (EADDRNOTAVAIL, AddrNotAvailable);
   (EBUSY, ResourceBusy);
   (ECONNABORTED, ConnectionAborted);
   (ECONNREFUSED, ConnectionRefused);
   (ECONNRESET, ConnectionReset);
   (EDEADLK, Deadlock);
   (EDQUOT, FilesystemQuotaExceeded);
   (EEXIST, AlreadyExists);
   (EFBIG, FileTooLarge);
   (EHOSTUNREACH, HostUnreachable);
   (EINTR, Interrupted);
   (EINVAL, InvalidInput);
   (EISDIR, IsADirectory);
   (ELOOP, FilesystemLoop);
   (ENOENT, NotFound);
   (ENOMEM, OutOfMemory);
   (ENOSPC, StorageFull);
   (ENOSYS, Unsupported);
   (EMLINK, TooManyLinks);
   (ENAMETOOLONG, InvalidFilename);
   (ENETDOWN, NetworkDown);
   (ENETUNREACH, NetworkUnreachable);
   (ENOTCONN, NotConnected);
   (ENOTDIR, NotADirectory);
   (ENOTEMPTY, DirectoryNotEmpty);
   (EPIPE, BrokenPipe);
   (EROFS, ReadOnlyFilesystem);
   (ESPIPE, NotSeekable);
   (ESTALE, StaleNetworkFileHandle);
   (ETIMEDOUT, TimedOut);
   (ETXTBSY, ExecutableFileBusy);
   (EXDEV, CrossesDevices);
   (EACCES, PermissionDenied);
   (EPERM, PermissionDenied);
   (EAGAIN, WouldBlock);
   (EWOULDBLOCK, WouldBlock)].

Definition decode_error_kind (errno : Z) : ErrorKind :=
  match list_find (fun '(x, _) => errno = x) errno_table with
  | Some (_, (_, k)) => k
  | None => Uncategorized
  end.

(** * Errors *)
Inductive io_error :=
| Os (code : Z)
| Simple (kind : ErrorKind)
| SimpleMessage (kind : ErrorKind) (message : string)
| Custom (kind : ErrorKind) (error : string)
| SgxStatus (status : sgx_status_t).

(** What [into_inner] and [get_ref] give: a boxed error is its message, or the
    status itself. *)
Inductive boxed :=
| BoxedMessage (error : string)
| BoxedStatus (status : sgx_status_t).

Definition from_raw_os_error (code : Z) : io_error := Os code.
Definition from_sgx_error (status : sgx_status_t) : io_error := SgxStatus status.
Definition from_kind (kind : ErrorKind) : io_error := Simple kind.
Definition new (kind : ErrorKind) (error : string) : io_error := Custom kind error.
Definition other (error : string) : io_error := Custom Other error.

Definition raw_os_error (e : io_error) : option Z :=
  match e with Os code => Some code | _ => None end.

Definition raw_sgx_error (e : io_error) : option sgx_status_t :=
  match e with SgxStatus status => Some status | _ => None end.

Definition get_ref (e : io_error) : option string :=
  match e with Custom _ error => Some error | _ => None end.

Definition into_inner (e : io_error) : option boxed :=
  match e with
  | Custom _ error => Some (BoxedMessage error)
  | SgxStatus s => Some (BoxedStatus s)
  | _ => None
  end.

Definition kind (e : io_error) : ErrorKind :=
  match e with
  | Os code => decode_error_kind code
  | Custom k _ | Simple k | SimpleMessage k _ => k
  | SgxStatus _ => SgxError
  end.

(** [e.kind() == ErrorKind::Interrupted] *)
Definition interrupted (e : io_error) : bool := bool_decide (kind e = Interrupted).

(** [cvt]: a result of -1 is the last error. *)
Definition cvt (t errno : Z) : result io_error Z :=
  if t =? -1 then Err (from_raw_os_error errno) else Ok t.

Definition cvt_nz (error : Z) : result io_error unit :=
  if error =? 0 then Ok tt else Err (from_raw_os_error error).

(** Of the error numbers of the host, EINTR alone means try again. *)
Lemma interrupted_os code : interrupted (Os code) = true <-> code = EINTR.
Proof.
  unfold interrupted. rewrite bool_decide_eq_true. split; [|intros ->; reflexivity].
  simpl. unfold decode_error_kind. destruct (list_find _ _) as [[i [x k]]|] eqn:E; [|done].
  apply list_find_Some in E as (Hi & -> & _). intros ->. revert Hi.
  do 40 (destruct i as [|i]; [by intros [= <-]|]). done.
Qed.

(** No two kinds print alike. *)
Lemma kind_as_str_injective k1 k2 : kind_as_str k1 = kind_as_str k2 -> k1 = k2.
Proof. destruct k1; destruct k2; (reflexivity || discriminate). Qed.
