(* ===== verification/IoBase.v ===== *)
(** IoBase: the traits of sgx_tstd/src/io and their provided methods.

    Files modelled: io/mod.rs ([Read], [Write], [Seek], [BufRead] and the
    [default_*] functions), io/readbuf.rs ([ReadBuf]).

    A method takes the object and the buffers it borrows and returns an
    [outcome] with their new values.  [UB]: an unsafe operation was used outside
    its contract.  [NoFuel]: a loop ran longer than its bound; the bounds that
    suffice are theorems of the files that follow.  Methods that loop, or call
    one that may, take the bound as [fuel]. *)
From Stdlib Require Import ZArith Lia String Strings.Byte.
From stdpp Require Import base numbers list option tactics.
From S2P Require Import Prelude SgxStatus IoError.
Local Open Scope Z_scope.

(** * Outcomes *)
Inductive outcome (A : Type) :=
| Val (a : A)
| Bad (e : io_error)
| Panics
| UB
| NoFuel.
Arguments Val {A}. Arguments Bad {A}. Arguments Panics {A}. Arguments UB {A}. Arguments NoFuel {A}.

(** [?]: go on with a value, leave with anything else. *)
Definition and_then {A B S} (o : outcome A) (s : S) (k : A -> outcome B * S) : outcome B * S :=
  match o with
  | Val a => k a
  | Bad e => (Bad e, s)
  | Panics => (Panics, s)
  | UB => (UB, s)
  | NoFuel => (NoFuel, s)
  end.

(** The same for a loop that tries again when the call was interrupted. *)
Definition or_retry {A B S} (o : outcome A) (s : S) (retry : outcome B * S)
    (k : A -> outcome B * S) : outcome B * S :=
  match o with
  | Bad e => if interrupted e then retry else (Bad e, s)
  | _ => and_then o s k
  end.

(** [DEFAULT_BUF_SIZE], sgx_tstd/src/sys_common/io.rs *)
Definition DEFAULT_BUF_SIZE : Z := 8 * 1024.

(** * Slices *)
Definition ztake {A} (n : Z) (l : list A) : list A := take (Z.to_nat n) l.
Definition zdrop {A} (n : Z) (l : list A) : list A := drop (Z.to_nat n) l.

(** [&l[..n]] and [&l[n..]] need [n] within the slice. *)
Definition in_slice {A} (n : Z) (l : list A) : bool := (0 <=? n) && (n <=? zlen l).

(** * Vectors *)

(** The memory of a [Vec<u8>] and its length. *)
Record Vec := { v_mem : list byte; v_len : Z }.

Definition capacity (v : Vec) : Z := zlen (v_mem v).
Definition contents (v : Vec) : list byte := ztake (v_len v) (v_mem v).

Definition vec_new : Vec := {| v_mem := []; v_len := 0 |}.
Definition vec_with_capacity (n : Z) : Vec := {| v_mem := zeros (Z.to_nat n); v_len := 0 |}.

Definition isize_max : Z := 9223372036854775807.

(** [Vec::reserve] grows to twice the capacity at least, and panics when that is
    more than an object can hold; new memory holds anything, here zeros.  An allocator
    that has no such block ends the enclave ([handle_alloc_error]), so there is no
    outcome for it. *)
Definition reserve (additional : Z) (v : Vec) : outcome Vec :=
  if capacity v - v_len v >=? additional then Val v
  else
    let cap := Z.max 8 (Z.max (2 * capacity v) (v_len v + additional)) in
    if cap >? isize_max then Panics
    else Val {| v_mem := v_mem v ++ zeros (Z.to_nat (cap - capacity v)); v_len := v_len v |}.

Definition spare (v : Vec) : list byte := zdrop (v_len v) (v_mem v).

(** The spare part rewritten through a borrow. *)
Definition set_spare (v : Vec) (bs : list byte) : Vec :=
  {| v_mem := contents v ++ bs; v_len := v_len v |}.

(** [unsafe fn set_len]: the new length must not exceed the capacity. *)
Definition set_len (v : Vec) (n : Z) : outcome Vec :=
  if (0 <=? n) && (n <=? capacity v) then Val {| v_mem := v_mem v; v_len := n |} else UB.

Definition extend_from_slice (v : Vec) (bs : list byte) : outcome Vec :=
  match reserve (zlen bs) v with
  | Val v => Val {| v_mem := contents v ++ bs ++ zdrop (zlen bs) (spare v);
                    v_len := v_len v + zlen bs |}
  | o => o
  end.

(** * ReadBuf *)
Record ReadBuf := { rb_buf : list byte; rb_filled : Z; rb_initialized : Z }.

Module RB.
Definition new (buf : list byte) : ReadBuf :=
  {| rb_buf := buf; rb_filled := 0; rb_initialized := zlen buf |}.
Definition uninit (buf : list byte) : ReadBuf :=
  {| rb_buf := buf; rb_filled := 0; rb_initialized := 0 |}.
Definition capacity (b : ReadBuf) : Z := zlen (rb_buf b).
Definition remaining (b : ReadBuf) : Z := wrap 64 (capacity b - rb_filled b).
Definition filled (b : ReadBuf) : outcome (list byte) :=
  if in_slice (rb_filled b) (rb_buf b) then Val (ztake (rb_filled b) (rb_buf b)) else Panics.

(** [unsafe fn assume_init] *)
Definition assume_init (b : ReadBuf) (n : Z) : ReadBuf :=
  {| rb_buf := rb_buf b; rb_filled := rb_filled b;
     rb_initialized := Z.max (rb_initialized b) (wrap 64 (rb_filled b + n)) |}.

Definition set_filled (b : ReadBuf) (n : Z) : outcome ReadBuf :=
  if n <=? rb_initialized b
  then Val {| rb_buf := rb_buf b; rb_filled := n; rb_initialized := rb_initialized b |}
  else Panics.
Definition add_filled (b : ReadBuf) (n : Z) : outcome ReadBuf :=
  set_filled b (wrap 64 (rb_filled b + n)).
Definition clear (b : ReadBuf) : outcome ReadBuf := set_filled b 0.

(** The part after the filled one, rewritten through a borrow. *)
Definition unfilled (b : ReadBuf) : list byte := zdrop (rb_filled b) (rb_buf b).
Definition set_unfilled (b : ReadBuf) (bs : list byte) : ReadBuf :=
  {| rb_buf := ztake (rb_filled b) (rb_buf b) ++ bs; rb_filled := rb_filled b;
     rb_initialized := rb_initialized b |}.

(** [initialize_unfilled_to] without the borrow it returns, which is the first
    [n] bytes of [unfilled]: zeros where nothing was initialised. *)
Definition initialize_unfilled_to (b : ReadBuf) (n : Z) : outcome ReadBuf :=
  if negb (remaining b >=? n) then Panics
  else if negb (in_slice (rb_initialized b) (rb_buf b)) then Panics
  else
    let extra_init := wrap 64 (rb_initialized b - rb_filled b) in
    if n >? extra_init then
      let uninit := n - extra_init in
      if in_slice uninit (zdrop (rb_initialized b) (rb_buf b)) then
        Val (assume_init
               {| rb_buf := ztake (rb_initialized b) (rb_buf b) ++ zeros (Z.to_nat uninit)
                            ++ zdrop (rb_initialized b + uninit) (rb_buf b);
                  rb_filled := rb_filled b; rb_initialized := rb_initialized b |} n)
      else Panics
    else Val b.

Definition initialize_unfilled (b : ReadBuf) : outcome ReadBuf :=
  initialize_unfilled_to b (remaining b).

Definition append (b : ReadBuf) (buf : list byte) : outcome ReadBuf :=
  if (remaining b >=? zlen buf) && in_slice (rb_filled b) (rb_buf b) then
    add_filled (assume_init (set_unfilled b (buf ++ zdrop (zlen buf) (unfilled b))) (zlen buf))
      (zlen buf)
  else Panics.
End RB.

(** * The traits *)
Class Read (R : Type) := {
  read : R -> list byte -> outcome Z * (R * list byte);
  read_buf : R -> ReadBuf -> outcome unit * (R * ReadBuf);
  read_vectored : R -> list (list byte) -> outcome Z * (R * list (list byte));
  read_exact : nat -> R -> list byte -> outcome unit * (R * list byte);
  read_to_end : nat -> R -> Vec -> outcome Z * (R * Vec)
}.

Class Write (W : Type) := {
  write : nat -> W -> list byte -> outcome Z * W;
  flush : nat -> W -> outcome unit * W;
  write_vectored : nat -> W -> list (list byte) -> outcome Z * W;
  is_write_vectored : W -> bool;
  write_all : nat -> W -> list byte -> outcome unit * W
}.

Class BufRead (R : Type) := {
  fill_buf : R -> outcome (list byte) * R;
  consume : R -> Z -> R
}.

Inductive SeekFrom := Start (n : Z) | End (n : Z) | Current (n : Z).

Class Seek (S : Type) := { seek : S -> SeekFrom -> outcome Z * S }.

(** * Provided methods of [Read] *)
Definition eof_error : io_error := SimpleMessage UnexpectedEof "failed to fill whole buffer".

Section read_defaults.
Context {R : Type}.
Variable rd : R -> list byte -> outcome Z * (R * list byte).
Variable rdb : R -> ReadBuf -> outcome unit * (R * ReadBuf).

Definition default_read_buf (r : R) (b : ReadBuf) : outcome unit * (R * ReadBuf) :=
  and_then (RB.initialize_unfilled b) (r, b) (fun b =>
    let '(o, (r, bs)) := rd r (RB.unfilled b) in
    let b := RB.set_unfilled b bs in
    and_then o (r, b) (fun n =>
      and_then (RB.add_filled b n) (r, b) (fun b => (Val tt, (r, b))))).

(** The first buffer that is not empty, or an empty one. *)
Fixpoint default_read_vectored (r : R) (bufs : list (list byte))
    : outcome Z * (R * list (list byte)) :=
  match bufs with
  | [] => let '(o, (r, _)) := rd r [] in (o, (r, []))
  | [] :: bufs => let '(o, (r, bufs)) := default_read_vectored r bufs in (o, (r, [] :: bufs))
  | buf :: bufs => let '(o, (r, buf)) := rd r buf in (o, (r, buf :: bufs))
  end.

(** The part of the buffer still to be filled is the argument of the next
    iteration. *)
Fixpoint default_read_exact (fuel : nat) (r : R) (buf : list byte)
    : outcome unit * (R * list byte) :=
  match buf with
  | [] => (Val tt, (r, []))
  | _ =>
      match fuel with
      | O => (NoFuel, (r, buf))
      | S fuel =>
          let '(o, (r, buf)) := rd r buf in
          or_retry o (r, buf) (default_read_exact fuel r buf) (fun n =>
            if n =? 0 then (Bad eof_error, (r, buf))
            else if in_slice n buf then
              let '(o, (r, rest)) := default_read_exact fuel r (zdrop n buf) in
              (o, (r, ztake n buf ++ rest))
            else (Panics, (r, buf)))
      end
  end.

(** The read into a probe buffer of 32 bytes, when the vector is exactly full. *)
Fixpoint probe (fuel : nat) (r : R) : outcome (list byte) * R :=
  match fuel with
  | O => (NoFuel, r)
  | S fuel =>
      let '(o, (r, bs)) := rd r (zeros 32) in
      or_retry o r (probe fuel r) (fun n =>
        if n =? 0 then (Val [], r)
        else if in_slice n bs then (Val (ztake n bs), r) else (Panics, r))
  end.

Fixpoint read_to_end_loop (fuel : nat) (start_len start_cap initialized : Z) (r : R) (buf : Vec)
    : outcome Z * (R * Vec) :=
  match fuel with
  | O => (NoFuel, (r, buf))
  | S fuel =>
      and_then (if v_len buf =? capacity buf then reserve 32 buf else Val buf) (r, buf) (fun buf =>
      let b := RB.assume_init (RB.uninit (spare buf)) initialized in
      let '(o, (r, b)) := rdb r b in
      let buf := set_spare buf (rb_buf b) in
      or_retry o (r, buf) (read_to_end_loop fuel start_len start_cap initialized r buf) (fun _ =>
        if rb_filled b =? 0 then (Val (v_len buf - start_len), (r, buf))
        else
          let initialized := rb_initialized b - rb_filled b in
          and_then (set_len buf (wrap 64 (rb_filled b + v_len buf))) (r, buf) (fun buf =>
            if (v_len buf =? capacity buf) && (capacity buf =? start_cap) then
              let '(o, r) := probe fuel r in
              and_then o (r, buf) (fun bs =>
                match bs with
                | [] => (Val (v_len buf - start_len), (r, buf))
                | _ => and_then (extend_from_slice buf bs) (r, buf) (fun buf =>
                         read_to_end_loop fuel start_len start_cap initialized r buf)
                end)
            else read_to_end_loop fuel start_len start_cap initialized r buf)))
  end.

Definition default_read_to_end (fuel : nat) (r : R) (buf : Vec) : outcome Z * (R * Vec) :=
  read_to_end_loop fuel (v_len buf) (capacity buf) 0 r buf.

(** [Read::read_buf_exact] *)
Fixpoint read_buf_exact (fuel : nat) (r : R) (b : ReadBuf) : outcome unit * (R * ReadBuf) :=
  if RB.remaining b >? 0 then
    match fuel with
    | O => (NoFuel, (r, b))
    | S fuel =>
        and_then (RB.filled b) (r, b) (fun prev =>
          let '(o, (r, b)) := rdb r b in
          or_retry o (r, b) (read_buf_exact fuel r b) (fun _ =>
            and_then (RB.filled b) (r, b) (fun now =>
              if zlen now =? zlen prev
              then (Bad (Custom UnexpectedEof "failed to fill buffer"), (r, b))
              else read_buf_exact fuel r b)))
    end
  else (Val tt, (r, b)).
End read_defaults.

(** A reader that has nothing but [read]. *)
Definition plain_read {R} (rd : R -> list byte -> outcome Z * (R * list byte)) : Read R := {|
  read := rd;
  read_buf := default_read_buf rd;
  read_vectored := default_read_vectored rd;
  read_exact := default_read_exact rd;
  read_to_end := default_read_to_end rd (default_read_buf rd)
|}.

(** * Provided methods of [Write] *)
Definition write_zero_error : io_error := SimpleMessage WriteZero "failed to write whole buffer".

(** [IoSlice::advance_slices]: whole buffers, then a part of the next. *)
Fixpoint advance_slices (bufs : list (list byte)) (n accumulated_len : Z) : outcome (list (list byte)) :=
  match bufs with
  | [] => Val []
  | buf :: rest =>
      if accumulated_len + zlen buf >? n then
        if in_slice (n - accumulated_len) buf then Val (zdrop (n - accumulated_len) buf :: rest)
        else Panics
      else advance_slices rest n (accumulated_len + zlen buf)
  end.

Section write_defaults.
Context {W : Type}.
Variable wr : nat -> W -> list byte -> outcome Z * W.
Variable wrv : nat -> W -> list (list byte) -> outcome Z * W.

Fixpoint default_write_vectored (fuel : nat) (w : W) (bufs : list (list byte)) : outcome Z * W :=
  match bufs with
  | [] => wr fuel w []
  | [] :: bufs => default_write_vectored fuel w bufs
  | buf :: _ => wr fuel w buf
  end.

Fixpoint default_write_all (fuel : nat) (w : W) (buf : list byte) : outcome unit * W :=
  match buf with
  | [] => (Val tt, w)
  | _ =>
      match fuel with
      | O => (NoFuel, w)
      | S fuel =>
          let '(o, w) := wr fuel w buf in
          or_retry o w (default_write_all fuel w buf) (fun n =>
            if n =? 0 then (Bad write_zero_error, w)
            else if in_slice n buf then default_write_all fuel w (zdrop n buf)
            else (Panics, w))
      end
  end.

Fixpoint write_all_vectored_loop (fuel : nat) (w : W) (bufs : list (list byte)) : outcome unit * W :=
  match bufs with
  | [] => (Val tt, w)
  | _ =>
      match fuel with
      | O => (NoFuel, w)
      | S fuel =>
          let '(o, w) := wrv fuel w bufs in
          or_retry o w (write_all_vectored_loop fuel w bufs) (fun n =>
            if n =? 0 then (Bad write_zero_error, w)
            else and_then (advance_slices bufs n 0) w (fun bufs =>
              write_all_vectored_loop fuel w bufs))
      end
  end.

Definition write_all_vectored (fuel : nat) (w : W) (bufs : list (list byte)) : outcome unit * W :=
  and_then (advance_slices bufs 0 0) w (fun bufs => write_all_vectored_loop fuel w bufs).
End write_defaults.

(** * Provided methods of [Seek] and [BufRead] *)
Section seek_defaults.
Context {S : Type} `{Seek S}.

Definition rewind (s : S) : outcome unit * S :=
  let '(o, s) := seek s (Start 0) in and_then o s (fun _ => (Val tt, s)).

Definition stream_position (s : S) : outcome Z * S := seek s (Current 0).

Definition stream_len (s : S) : outcome Z * S :=
  let '(o, s) := stream_position s in
  and_then o s (fun old_pos =>
    let '(o, s) := seek s (End 0) in
    and_then o s (fun len =>
      if negb (old_pos =? len) then
        let '(o, s) := seek s (Start old_pos) in and_then o s (fun _ => (Val len, s))
      else (Val len, s))).
End seek_defaults.

(** [memchr] and [memrchr]: the first and the last position of a byte. *)
Definition memchr (needle : byte) (l : list byte) : option Z :=
  match list_find (fun x => x = needle) l with Some (i, _) => Some (Z.of_nat i) | None => None end.
Definition memrchr (needle : byte) (l : list byte) : option Z :=
  match memchr needle (reverse l) with Some i => Some (zlen l - 1 - i) | None => None end.

Section buf_read_defaults.
Context {R : Type} `{BufRead R}.

Fixpoint read_until_loop (fuel : nat) (r : R) (delim : byte) (buf : list byte) (n : Z)
    : outcome Z * (R * list byte) :=
  match fuel with
  | O => (NoFuel, (r, buf))
  | S fuel =>
      let '(o, r) := fill_buf r in
      or_retry o (r, buf) (read_until_loop fuel r delim buf n) (fun available =>
        let '(done, used, buf) :=
          match memchr delim available with
          | Some i => (true, i + 1, buf ++ ztake (i + 1) available)
          | None => (false, zlen available, buf ++ available)
          end in
        let r := consume r used in
        if done || (used =? 0) then (Val (n + used), (r, buf))
        else read_until_loop fuel r delim buf (n + used))
  end.

Definition read_until (fuel : nat) (r : R) (delim : byte) (buf : list byte)
    : outcome Z * (R * list byte) := read_until_loop fuel r delim buf 0.

Definition has_data_left (r : R) : outcome bool * R :=
  let '(o, r) := fill_buf r in
  and_then o r (fun b => (Val (negb (zlen b =? 0)), r)).
End buf_read_defaults.
