(* ===== verification/IoStream.v ===== *)
(** IoStream: readers as byte streams.

    [Stream] is what a well-behaved reader promises: there is a sequence of bytes
    [rest] it still has to deliver; a read delivers a prefix of it, nothing only
    when the buffer is empty or the stream is at its end; a failed read delivers
    nothing; it is not interrupted for ever ([stalls] bounds how often); and it
    reports only errors of [errs].  The
    provided methods of [Read] are proved against this interface, for any way the
    reader cuts the stream into pieces. *)
From Stdlib Require Import ZArith Lia String Strings.Byte.
From stdpp Require Import base numbers list option tactics.
From S2P Require Import Prelude SgxStatus IoError IoBase.
Local Open Scope Z_scope.

(** * Slices *)
Create HintDb slices.

Lemma ztake_zdrop {A} n (l : list A) : ztake n l ++ zdrop n l = l.
Proof. apply take_drop. Qed.

Lemma zlen_ztake {A} n (l : list A) : 0 <= n <= zlen l -> zlen (ztake n l) = n.
Proof. unfold zlen, ztake. rewrite length_take. lia. Qed.

Lemma zlen_zdrop {A} n (l : list A) : 0 <= n <= zlen l -> zlen (zdrop n l) = zlen l - n.
Proof. unfold zlen, zdrop. rewrite length_drop. lia. Qed.

Lemma zlen_nil_inv {A} (l : list A) : zlen l = 0 -> l = [].
Proof. destruct l; [done|]. unfold zlen. simpl. lia. Qed.

Lemma ztake_0 {A} (l : list A) : ztake 0 l = [].
Proof. done. Qed.
Lemma zdrop_0 {A} (l : list A) : zdrop 0 l = l.
Proof. done. Qed.

Lemma ztake_all {A} n (l : list A) : zlen l <= n -> ztake n l = l.
Proof. unfold zlen, ztake. intros. apply take_ge. lia. Qed.
Lemma zdrop_all {A} n (l : list A) : zlen l <= n -> zdrop n l = [].
Proof. unfold zlen, zdrop. intros. apply drop_ge. lia. Qed.

Lemma ztake_app {A} (l k : list A) : ztake (zlen l) (l ++ k) = l.
Proof. unfold ztake, zlen. rewrite Nat2Z.id. apply take_app_length. Qed.
Lemma zdrop_app {A} (l k : list A) : zdrop (zlen l) (l ++ k) = k.
Proof. unfold zdrop, zlen. rewrite Nat2Z.id. apply drop_app_length. Qed.

Lemma ztake_app_le {A} n (l k : list A) : n <= zlen l -> ztake n (l ++ k) = ztake n l.
Proof. unfold ztake, zlen. intros. apply take_app_le. lia. Qed.

Lemma ztake_app_more {A} n (l k : list A) : 0 <= n -> ztake (zlen l + n) (l ++ k) = l ++ ztake n k.
Proof.
  intros Hn. unfold ztake, zlen. rewrite take_app.
  rewrite (take_ge l) by lia. f_equal. f_equal. lia.
Qed.

Lemma zdrop_zdrop {A} n m (l : list A) : 0 <= n -> 0 <= m -> zdrop m (zdrop n l) = zdrop (n + m) l.
Proof. intros. unfold zdrop. rewrite drop_drop. f_equal. lia. Qed.

Lemma ztake_prefix {A} n (l : list A) : ztake n l `prefix_of` l.
Proof. exists (zdrop n l). by rewrite ztake_zdrop. Qed.

Lemma zlen_zeros n : zlen (zeros n) = Z.of_nat n.
Proof. unfold zlen. by rewrite length_zeros. Qed.

Lemma in_slice_spec {A} n (l : list A) : in_slice n l = true <-> 0 <= n <= zlen l.
Proof. unfold in_slice. rewrite andb_true_iff. lia. Qed.

Lemma prefix_ztake {A} (d l : list A) : d `prefix_of` l -> ztake (zlen d) l = d.
Proof. intros [k ->]. apply ztake_app. Qed.

Lemma prefix_zlen {A} (d l : list A) : d `prefix_of` l -> zlen d <= zlen l.
Proof. intros [k ->]. rewrite zlen_app. pose proof (zlen_nonneg k). lia. Qed.

(** * Streams *)

(** A buffer as the readers keep it: filled, then initialised, then the rest. *)
Definition rb_ok (b : ReadBuf) : Prop :=
  0 <= rb_filled b <= rb_initialized b /\ rb_initialized b <= zlen (rb_buf b) <= isize_max.

Definition vec_ok (v : Vec) : Prop := 0 <= v_len v <= capacity v /\ capacity v <= isize_max.

Definition filled_part (b : ReadBuf) : list byte := ztake (rb_filled b) (rb_buf b).

Section posts.
Context {R : Type} (inv : R -> Prop) (rest : R -> list byte) (stalls : R -> nat)
  (errs : io_error -> Prop).

(** [r'] is [r] after the bytes [d]. *)
Definition delivers (r : R) (d : list byte) (r' : R) : Prop :=
  rest r = d ++ rest r' /\ inv r' /\ (stalls r' <= stalls r)%nat.

(** What a failed call leaves. *)
Definition refuses (r : R) (e : io_error) (r' : R) : Prop :=
  rest r' = rest r /\ inv r' /\ (stalls r' <= stalls r)%nat /\ errs e /\
  (interrupted e = true -> (stalls r' < stalls r)%nat).

Definition read_post (r : R) (buf : list byte) (x : outcome Z * (R * list byte)) : Prop :=
  let '(o, (r', buf')) := x in
  zlen buf' = zlen buf /\
  match o with
  | Val n => exists d, delivers r d r' /\ n = zlen d /\ d `prefix_of` buf' /\
               (d = [] -> buf = [] \/ rest r = [])
  | Bad e => refuses r e r'
  | _ => False
  end.

(** A read into several buffers, filled one after the other. *)
Definition vectored_post (r : R) (bufs : list (list byte))
    (x : outcome Z * (R * list (list byte))) : Prop :=
  let '(o, (r', bufs')) := x in
  zlen <$> bufs' = zlen <$> bufs /\
  match o with
  | Val n => exists d, delivers r d r' /\ n = zlen d /\ d `prefix_of` concat bufs' /\
               (d = [] -> concat bufs = [] \/ rest r = [])
  | Bad e => refuses r e r'
  | _ => False
  end.

Definition read_buf_post (r : R) (b : ReadBuf) (x : outcome unit * (R * ReadBuf)) : Prop :=
  let '(o, (r', b')) := x in
  rb_ok b' /\ zlen (rb_buf b') = zlen (rb_buf b) /\
  match o with
  | Val _ => exists d, delivers r d r' /\ filled_part b' = filled_part b ++ d /\
               rb_filled b' = rb_filled b + zlen d /\
               (d = [] -> rb_filled b = zlen (rb_buf b) \/ rest r = [])
  | Bad e => refuses r e r' /\ rb_filled b' = rb_filled b /\ filled_part b' = filled_part b
  | _ => False
  end.

Definition to_end_post (r : R) (v : Vec) (x : outcome Z * (R * Vec)) : Prop :=
  let '(o, (r', v')) := x in
  vec_ok v' /\
  match o with
  | Val n => delivers r (rest r) r' /\ n = zlen (rest r) /\ contents v' = contents v ++ rest r
  | Bad e => interrupted e = false /\ errs e /\
             exists d, delivers r d r' /\ contents v' = contents v ++ d
  | _ => False
  end.

Definition exact_post (r : R) (buf : list byte) (x : outcome unit * (R * list byte)) : Prop :=
  let '(o, (r', buf')) := x in
  zlen buf' = zlen buf /\
  match o with
  | Val _ => delivers r buf' r'
  | Bad e => (e = eof_error /\ zlen (rest r) < zlen buf \/ interrupted e = false /\ errs e) /\
             exists d, delivers r d r'
  | _ => False
  end.
End posts.

(** Room for the bytes of the stream in a vector. *)
Definition room (v : Vec) (s : list byte) : Prop := 2 * (v_len v + zlen s) + 72 <= isize_max.

(** Enough iterations for a stream. *)
Definition enough {R} (rest : R -> list byte) (stalls : R -> nat) (r : R) : nat :=
  (length (rest r) + stalls r + 1)%nat.

Class Stream (R : Type) `{Read R} (inv : R -> Prop) (rest : R -> list byte)
    (stalls : R -> nat) (errs : io_error -> Prop) : Prop := {
  stream_read r buf : inv r -> zlen buf <= isize_max ->
    read_post inv rest stalls errs r buf (read r buf);
  stream_read_buf r b : inv r -> rb_ok b -> read_buf_post inv rest stalls errs r b (read_buf r b);
  stream_read_exact fuel r buf : inv r -> zlen buf <= isize_max ->
    (length buf + stalls r < fuel)%nat ->
    exact_post inv rest stalls errs r buf (read_exact fuel r buf);
  stream_read_to_end fuel r v : inv r -> vec_ok v -> room v (rest r) ->
    (enough rest stalls r < fuel)%nat ->
    to_end_post inv rest stalls errs r v (read_to_end fuel r v)
}.

(** A stream that keeps its promise to vectored reads too. *)
Class VecStream (R : Type) `{Read R} (inv : R -> Prop) (rest : R -> list byte)
    (stalls : R -> nat) (errs : io_error -> Prop) : Prop := {
  stream_read_vectored r bufs : inv r -> zlen (concat bufs) <= isize_max ->
    vectored_post inv rest stalls errs r bufs (read_vectored r bufs)
}.

(** * The provided methods *)
Section defaults.
Context {R : Type} (inv : R -> Prop) (rest : R -> list byte) (stalls : R -> nat)
  (errs : io_error -> Prop).
Variable rd : R -> list byte -> outcome Z * (R * list byte).
Hypothesis rd_ok : forall r buf, inv r -> zlen buf <= isize_max ->
  read_post inv rest stalls errs r buf (rd r buf).

Lemma delivers_nil r : inv r -> delivers inv rest stalls r [] r.
Proof. done. Qed.

Lemma delivers_app r1 d1 r2 d2 r3 : delivers inv rest stalls r1 d1 r2 ->
  delivers inv rest stalls r2 d2 r3 -> delivers inv rest stalls r1 (d1 ++ d2) r3.
Proof.
  intros (E1 & _ & S1) (E2 & I2 & S2). split_and!; [|done|lia]. by rewrite E1, E2, app_assoc.
Qed.

Lemma refuses_delivers r1 e r2 : refuses inv rest stalls errs r1 e r2 ->
  delivers inv rest stalls r1 [] r2.
Proof. intros (E & I & S & _ & _). split_and!; [by rewrite E|done|done]. Qed.

Lemma default_read_vectored_post r bufs : inv r -> zlen (concat bufs) <= isize_max ->
  vectored_post inv rest stalls errs r bufs (default_read_vectored rd r bufs).
Proof.
  intros Hr. induction bufs as [|[|x buf] bufs IH]; intros Hb; cbn [default_read_vectored].
  - pose proof (rd_ok r [] Hr ltac:(done)) as Hp. destruct (rd r []) as [o [r' b']].
    destruct Hp as [Hz Ho]. split; [done|]. destruct o as [n|e| | |]; try done.
    destruct Ho as (d & Hd & -> & Hp & He). apply zlen_nil_inv in Hz as ->. exists d. auto.
  - specialize (IH Hb). destruct (default_read_vectored rd r bufs) as [o [r' bufs']].
    destruct IH as [Hz Ho]. split; [cbn; by f_equal|]. done.
  - cbn [concat] in *. rewrite zlen_app in Hb. pose proof (zlen_nonneg (concat bufs)).
    pose proof (rd_ok r (x :: buf) Hr ltac:(lia)) as Hp. destruct (rd r (x :: buf)) as [o [r' b']].
    destruct Hp as [Hz Ho]. split; [cbn; by f_equal|]. destruct o as [n|e| | |]; try done.
    destruct Ho as (d & Hd & -> & Hp & He). exists d.
    split_and!; [done|done|cbn; by apply prefix_app_r|]. intros E. destruct (He E); [done|by right].
Qed.

(** [initialize_unfilled] leaves the whole buffer initialised. *)
Lemma initialize_unfilled_ok b : rb_ok b -> exists b', RB.initialize_unfilled b = Val b' /\
  rb_filled b' = rb_filled b /\ zlen (rb_buf b') = zlen (rb_buf b) /\
  rb_initialized b' = zlen (rb_buf b) /\ filled_part b' = filled_part b.
Proof.
  intros [Hf Hi]. unfold RB.initialize_unfilled, RB.initialize_unfilled_to.
  unfold isize_max in Hi.
  assert (RB.remaining b = zlen (rb_buf b) - rb_filled b) as Er.
  { unfold RB.remaining, RB.capacity. apply wrap_small. lia. }
  rewrite Er. rewrite Z.geb_leb, Z.leb_refl. simpl.
  rewrite (proj2 (in_slice_spec _ _)) by lia. simpl. rewrite wrap_small by lia.
  destruct (Z.gtb_spec (zlen (rb_buf b) - rb_filled b) (rb_initialized b - rb_filled b)) as [Hg|Hg].
  - rewrite (proj2 (in_slice_spec _ _)) by (rewrite zlen_zdrop; lia).
    eexists. split; [reflexivity|]. simpl.
    replace (zlen (rb_buf b) - rb_filled b - (rb_initialized b - rb_filled b))
      with (zlen (rb_buf b) - rb_initialized b) by lia.
    split_and!; [done| | |].
    + rewrite !zlen_app, zlen_ztake, zlen_zeros, zdrop_all by lia. unfold zlen at 2. simpl. lia.
    + rewrite wrap_small by lia. lia.
    + unfold filled_part. simpl. rewrite ztake_app_le by (rewrite zlen_ztake; lia).
      unfold ztake. rewrite take_take. f_equal. lia.
  - exists b. split_and!; try done. lia.
Qed.

Lemma default_read_buf_post r b : inv r -> rb_ok b ->
  read_buf_post inv rest stalls errs r b (default_read_buf rd r b).
Proof.
  intros Hr Hb. unfold default_read_buf.
  destruct (initialize_unfilled_ok b Hb) as (b1 & -> & Ef & Ez & Ei & Ep). simpl.
  destruct Hb as [Hf Hi].
  pose proof (rd_ok r (RB.unfilled b1) Hr) as Hrd. unfold RB.unfilled in *.
  assert (zlen (zdrop (rb_filled b1) (rb_buf b1)) = zlen (rb_buf b) - rb_filled b) as Eu
    by (rewrite zlen_zdrop; lia).
  destruct (rd r _) as [o [r' bs]]. specialize (Hrd ltac:(lia)). destruct Hrd as [Hl Ho].
  set (b2 := RB.set_unfilled b1 bs).
  assert (zlen (rb_buf b2) = zlen (rb_buf b)) as E2.
  { simpl. rewrite zlen_app, zlen_ztake; lia. }
  assert (filled_part b2 = filled_part b) as P2.
  { unfold filled_part. simpl. rewrite ztake_app_le by (rewrite zlen_ztake; lia).
    unfold ztake. rewrite take_take, Nat.min_id. exact Ep. }
  assert (rb_ok b2) as O2 by (split; rewrite ?E2; simpl; lia).
  destruct o as [n|e| | |]; try done; simpl.
  - destruct Ho as (d & Hd & -> & Hp & He). pose proof (prefix_zlen _ _ Hp) as Hlen.
    pose proof (zlen_nonneg d) as Hn. unfold isize_max in *. unfold RB.add_filled, RB.set_filled.
    rewrite wrap_small by (simpl; lia). simpl rb_filled. simpl rb_initialized.
    destruct (Z.leb_spec (rb_filled b1 + zlen d) (rb_initialized b1)); [|lia]. simpl.
    split_and!; [split; simpl in *; unfold isize_max; lia|done|].
    exists d. split_and!; [done| |simpl; lia|].
    + destruct Hp as [k ->]. unfold filled_part. simpl.
      rewrite <- (zlen_ztake (rb_filled b1) (rb_buf b1)) at 1 by lia.
      rewrite <- zlen_app, app_assoc, ztake_app. f_equal. exact Ep.
    + intros Hd0. destruct (He Hd0) as [Hnil|?]; [left|by right].
      rewrite Hnil in Eu. unfold zlen in Eu at 1. simpl in Eu. lia.
Qed.

(** Bytes delivered before the rest of an exact read. *)
Lemma exact_post_app r d r1 buf k o r2 k2 : delivers inv rest stalls r d r1 ->
  zlen buf = zlen d + zlen k -> exact_post inv rest stalls errs r1 k (o, (r2, k2)) ->
  exact_post inv rest stalls errs r buf (o, (r2, d ++ k2)).
Proof.
  intros Hd Hl [Hk Ho]. split; [rewrite zlen_app; lia|]. destruct o as [u|e| | |]; try done.
  - by eapply delivers_app.
  - destruct Ho as (He & d2 & Hd2). split; [|exists (d ++ d2); by eapply delivers_app].
    destruct He as [(-> & Hlt)|He]; [left|by right]. split; [done|].
    destruct Hd as (Er & _ & _). rewrite Er, zlen_app. lia.
Qed.

Lemma default_read_exact_post fuel : forall r buf, inv r -> zlen buf <= isize_max ->
  (length buf + stalls r < fuel)%nat ->
  exact_post inv rest stalls errs r buf (default_read_exact rd fuel r buf).
Proof.
  induction fuel as [|fuel IH]; intros r buf Hr Hb Hf; [lia|].
  destruct buf as [|x buf]; [by split|]. set (l := x :: buf) in *. simpl default_read_exact.
  pose proof (rd_ok r l Hr Hb) as Hrd. destruct (rd r l) as [o [r1 l1]].
  destruct Hrd as [Hl Ho]. destruct o as [n|e| | |]; try done; simpl.
  - destruct Ho as (d & Hd & -> & Hp & He). pose proof (prefix_zlen _ _ Hp) as Hlen.
    pose proof (zlen_nonneg d) as Hn. destruct (Z.eqb_spec (zlen d) 0) as [E0|Hne].
    + apply zlen_nil_inv in E0. subst d. destruct (He eq_refl) as [?|E]; [done|].
      split; [done|]. split; [|by eexists]. left. split; [done|]. rewrite E. unfold l, zlen.
      simpl. lia.
    + rewrite (proj2 (in_slice_spec _ _)) by lia.
      assert (zlen (zdrop (zlen d) l1) = zlen l - zlen d) as Ez by (rewrite zlen_zdrop; lia).
      pose proof Hd as (Er & I1 & S1). pose proof (IH r1 (zdrop (zlen d) l1) I1 ltac:(lia)) as Hrest.
      destruct (default_read_exact rd fuel r1 (zdrop (zlen d) l1)) as [o2 [r2 k]].
      rewrite prefix_ztake by done. eapply exact_post_app; [done| |apply Hrest]; [lia|].
      unfold zlen in *. lia.
  - destruct (interrupted e) eqn:Ei.
    + pose proof Ho as (E1 & I1 & S1 & _ & S2). pose proof (S2 Ei) as S3.
      pose proof (IH r1 l1 I1 ltac:(lia)) as Hrest.
      destruct (default_read_exact rd fuel r1 l1) as [o2 [r2 k]].
      apply (exact_post_app r [] r1 l l1 o2 r2 k); [by eapply refuses_delivers|done|].
      apply Hrest. unfold zlen in *. lia.
    + pose proof Ho as (_ & _ & _ & He & _). split; [done|]. split; [by right|].
      exists []. by eapply refuses_delivers.
Qed.

(** ** Reading to the end *)
Lemma probe_post fuel : forall r, inv r -> (stalls r < fuel)%nat ->
  let '(o, r') := probe rd fuel r in
  match o with
  | Val bs => delivers inv rest stalls r bs r' /\ zlen bs <= 32 /\ (bs = [] -> rest r = [])
  | Bad e => interrupted e = false /\ errs e /\ delivers inv rest stalls r [] r'
  | _ => False
  end.
Proof.
  induction fuel as [|fuel IH]; intros r Hr Hf; [lia|]. simpl.
  pose proof (rd_ok r (zeros 32) Hr ltac:(done)) as Hrd. destruct (rd r (zeros 32)) as [o [r1 bs]].
  destruct Hrd as [Hl Ho]. rewrite zlen_zeros in Hl. destruct o as [n|e| | |]; try done; simpl.
  - destruct Ho as (d & Hd & -> & Hp & He). pose proof (prefix_zlen _ _ Hp).
    pose proof (zlen_nonneg d). destruct (Z.eqb_spec (zlen d) 0) as [E0|Hne].
    + apply zlen_nil_inv in E0. subst d. destruct (He eq_refl); [done|]. split_and!; done.
    + rewrite (proj2 (in_slice_spec _ _)) by lia. rewrite prefix_ztake by done.
      split_and!; [done|lia|]. intros ->. done.
  - pose proof Ho as (E1 & I1 & S1 & He & S2).
    destruct (interrupted e) eqn:Ei; [|split_and!; [done|done|by eapply refuses_delivers]].
    specialize (IH r1 I1 ltac:(specialize (S2 eq_refl); lia)).
    destruct (probe rd fuel r1) as [o2 r2]. apply refuses_delivers in Ho.
    destruct o2 as [bs2|e2| | |]; try done.
    + destruct IH as (Hd & Hz & Hb). split_and!; [|done|by rewrite <- E1].
      by apply (delivers_app r [] r1 bs2 r2).
    + destruct IH as (Hi & Hx & Hd). split_and!; [done|done|by apply (delivers_app r [] r1 [] r2)].
Qed.

Lemma reserve_ok a v : vec_ok v -> 0 <= a -> 2 * (v_len v + a) + 8 <= isize_max ->
  exists v', reserve a v = Val v' /\ vec_ok v' /\ contents v' = contents v /\
    v_len v' = v_len v /\ a <= capacity v' - v_len v'.
Proof.
  intros [Hl Hc] Ha Hm. unfold reserve. destruct (Z.geb_spec (capacity v - v_len v) a).
  - exists v. done.
  - destruct (Z.gtb_spec (Z.max 8 (Z.max (2 * capacity v) (v_len v + a))) isize_max); [lia|].
    eexists. split; [reflexivity|]. unfold vec_ok, contents, capacity in *. simpl.
    rewrite zlen_app, zlen_zeros. split_and!; try lia. apply ztake_app_le. lia.
Qed.

Lemma extend_from_slice_ok v bs : vec_ok v -> room v bs ->
  exists v', extend_from_slice v bs = Val v' /\ vec_ok v' /\
    contents v' = contents v ++ bs /\ v_len v' = v_len v + zlen bs.
Proof.
  intros Hv Hm. unfold extend_from_slice.
  unfold room in Hm. pose proof (zlen_nonneg bs) as Hn.
  destruct (reserve_ok (zlen bs) v Hv Hn ltac:(lia)) as (v1 & -> & [Hl Hc] & <- & <- & Hs).
  eexists. split; [reflexivity|].
  unfold vec_ok, contents, capacity, spare in *. simpl in *.
  assert (zlen (ztake (v_len v1) (v_mem v1)) = v_len v1) as Et by (rewrite zlen_ztake; lia).
  rewrite !zlen_app, Et, zlen_zdrop by (rewrite zlen_zdrop; lia). rewrite zlen_zdrop by lia.
  split_and!; try lia. rewrite <- Et at 1. by rewrite <- zlen_app, app_assoc, ztake_app.
Qed.
Variable rdb : R -> ReadBuf -> outcome unit * (R * ReadBuf).
Hypothesis rdb_ok : forall r b, inv r -> rb_ok b ->
  read_buf_post inv rest stalls errs r b (rdb r b).

(** The loop, from any point: [start] is the vector's length at the beginning. *)
Definition loop_post (start : Z) (r : R) (v : Vec) (x : outcome Z * (R * Vec)) : Prop :=
  let '(o, (r', v')) := x in
  vec_ok v' /\
  match o with
  | Val n => delivers inv rest stalls r (rest r) r' /\ n = v_len v' - start /\
             contents v' = contents v ++ rest r
  | Bad e => interrupted e = false /\ errs e /\
             exists d, delivers inv rest stalls r d r' /\ contents v' = contents v ++ d
  | _ => False
  end.

Lemma loop_post_app start r d r1 v v1 x : delivers inv rest stalls r d r1 ->
  contents v1 = contents v ++ d -> loop_post start r1 v1 x -> loop_post start r v x.
Proof.
  intros Hd Hc. destruct x as [o [r' v']]. intros [Hv Ho]. split; [done|].
  pose proof Hd as (Er & _ & _). destruct o as [n|e| | |]; try done.
  - destruct Ho as (Hd1 & -> & Hc1). split_and!; [|done|by rewrite Hc1, Hc, Er, app_assoc].
    rewrite Er. by eapply delivers_app.
  - destruct Ho as (Hi & Hx & d1 & Hd1 & Hc1). split; [done|]. split; [done|]. exists (d ++ d1).
    split; [by eapply delivers_app|]. by rewrite Hc1, Hc, app_assoc.
Qed.

(** The buffer over the spare part of a vector, and the vector afterwards. *)
Lemma spare_buf_ok v init : vec_ok v -> 0 <= init <= capacity v - v_len v ->
  rb_ok (RB.assume_init (RB.uninit (spare v)) init) /\
  zlen (spare v) = capacity v - v_len v.
Proof.
  intros [Hl Hc] Hi. unfold spare, capacity in *.
  assert (zlen (zdrop (v_len v) (v_mem v)) = zlen (v_mem v) - v_len v) as Ez
    by (rewrite zlen_zdrop; lia).
  split; [|done]. unfold rb_ok, isize_max in *. simpl. rewrite wrap_small by lia. lia.
Qed.

Lemma set_spare_ok v bs : vec_ok v -> zlen bs = capacity v - v_len v ->
  vec_ok (set_spare v bs) /\ capacity (set_spare v bs) = capacity v /\
  contents (set_spare v bs) = contents v.
Proof.
  intros [Hl Hc] Hb. unfold vec_ok, set_spare, contents, capacity in *. simpl.
  assert (zlen (ztake (v_len v) (v_mem v)) = v_len v) as Et by (rewrite zlen_ztake; lia).
  rewrite zlen_app, Et. split_and!; try lia. rewrite <- Et at 1. apply ztake_app.
Qed.

(** The filled part of the buffer becomes part of the vector. *)
Lemma set_len_ok v b d : vec_ok v -> rb_ok b -> zlen (rb_buf b) = capacity v - v_len v ->
  filled_part b = d -> rb_filled b = zlen d ->
  exists v', set_len (set_spare v (rb_buf b)) (wrap 64 (rb_filled b + v_len v)) = Val v' /\
    vec_ok v' /\ capacity v' = capacity v /\ v_len v' = v_len v + zlen d /\
    contents v' = contents v ++ d.
Proof.
  intros Hv [Hf Hi] Hz Hp Hd. destruct (set_spare_ok v (rb_buf b) Hv Hz) as ([Hl Hc] & Ec & _).
  destruct Hv as [Hl' Hc']. unfold isize_max in *.
  rewrite wrap_small by lia. unfold set_len. rewrite Ec.
  destruct (Z.leb_spec 0 (rb_filled b + v_len v)); [|lia].
  destruct (Z.leb_spec (rb_filled b + v_len v) (capacity v)); [|lia].
  eexists. split; [reflexivity|]. unfold vec_ok, capacity, contents in *. simpl in *.
  split_and!; try (unfold isize_max; lia).
  assert (zlen (ztake (v_len v) (v_mem v)) = v_len v) as Et by (rewrite zlen_ztake; lia).
  rewrite <- (ztake_zdrop (rb_filled b) (rb_buf b)). unfold filled_part in Hp. rewrite Hp.
  rewrite app_assoc, Hd, <- Et at 1. rewrite Z.add_comm, <- zlen_app. apply ztake_app.
Qed.
(** Growth at the top of an iteration. *)
Lemma grow_ok v (s : list byte) : vec_ok v -> room v s ->
  exists v', (if v_len v =? capacity v then reserve 32 v else Val v) = Val v' /\ vec_ok v' /\
    contents v' = contents v /\ v_len v' = v_len v /\ v_len v' < capacity v' /\
    capacity v - v_len v <= capacity v' - v_len v'.
Proof.
  intros Hv Hr. pose proof (zlen_nonneg s) as Hs. unfold room in Hr. pose proof Hv as [Hl Hc].
  destruct (Z.eqb_spec (v_len v) (capacity v)) as [E|Hne].
  - destruct (reserve_ok 32 v Hv ltac:(lia)) as (v' & Hr' & Hv' & Hc' & Hl' & Hsp); [lia|].
    exists v'. split_and!; try done; lia.
  - exists v. split_and!; try done; lia.
Qed.

Lemma enough_less r d r1 : delivers inv rest stalls r d r1 -> d <> [] ->
  (enough rest stalls r1 < enough rest stalls r)%nat.
Proof.
  intros (Er & _ & S1) Hd. unfold enough. rewrite Er, length_app. destruct d; [done|]. simpl. lia.
Qed.

Lemma room_after v v1 r d r1 : room v (rest r) -> delivers inv rest stalls r d r1 ->
  v_len v1 = v_len v + zlen d -> room v1 (rest r1).
Proof. intros Hr (Er & _ & _) Hl. unfold room in *. rewrite Er, zlen_app in Hr. lia. Qed.

(** The end of an iteration: the probe when the vector is exactly full, then the
    next iteration [k]. *)
Lemma probe_step fuel start cap init r v (k : R -> Vec -> outcome Z * (R * Vec)) :
  (forall r v, inv r -> vec_ok v -> room v (rest r) -> 0 <= init <= capacity v - v_len v ->
     (enough rest stalls r < fuel)%nat -> loop_post start r v (k r v)) ->
  inv r -> vec_ok v -> room v (rest r) -> 0 <= init <= capacity v - v_len v ->
  (enough rest stalls r < fuel)%nat ->
  loop_post start r v
    (if (v_len v =? capacity v) && (capacity v =? cap) then
       let '(o, r) := probe rd fuel r in
       and_then o (r, v) (fun bs =>
         match bs with
         | [] => (Val (v_len v - start), (r, v))
         | _ => and_then (extend_from_slice v bs) (r, v) (fun v => k r v)
         end)
     else k r v).
Proof.
  intros Hk Hr Hv Hroom Hi Hf. destruct (Z.eqb_spec (v_len v) (capacity v)) as [E|]; [|by apply Hk].
  destruct (capacity v =? cap); [|by apply Hk]. simpl.
  pose proof (probe_post fuel r Hr ltac:(unfold enough in Hf; lia)) as Hp.
  destruct (probe rd fuel r) as [o r1]. destruct o as [bs|e| | |]; try done; simpl.
  - destruct Hp as (Hd & Hz & He). pose proof (zlen_nonneg (rest r)) as Hn.
    destruct bs as [|x bs].
    + split; [done|]. rewrite (He eq_refl). split_and!; [done|done|by rewrite app_nil_r].
    + set (l := x :: bs) in *. unfold room in Hroom.
      destruct (extend_from_slice_ok v l Hv) as (v1 & -> & Hv1 & Ec & El).
      { pose proof Hd as (Er & _ & _). rewrite Er, zlen_app in Hroom.
        pose proof (zlen_nonneg (rest r1)). unfold room. lia. }
      simpl.
      eapply loop_post_app; [exact Hd|exact Ec|]. pose proof Hd as (_ & I1 & _).
      assert (enough rest stalls r1 < enough rest stalls r)%nat by by eapply enough_less.
      apply Hk; [done|done|by eapply room_after| |lia]. destruct Hv1 as [[_ ?] _]. lia.
  - destruct Hp as (He & Hx & Hd). split_and!; [done|done|done|]. exists []. by rewrite app_nil_r.
Qed.

Lemma read_to_end_loop_post fuel : forall start cap init r v, inv r -> vec_ok v ->
  room v (rest r) -> 0 <= init <= capacity v - v_len v -> (enough rest stalls r < fuel)%nat ->
  loop_post start r v (read_to_end_loop rd rdb fuel start cap init r v).
Proof.
  induction fuel as [|fuel IH]; intros start cap init r v Hr Hv Hroom Hi Hf; [lia|]. simpl.
  destruct (grow_ok v _ Hv Hroom) as (v0 & -> & Hv0 & Ec0 & El0 & Hlt & Hle). simpl.
  destruct (spare_buf_ok v0 init Hv0) as [Hb Hz]; [lia|].
  pose proof (rdb_ok r _ Hr Hb) as Hrdb. destruct (rdb r _) as [o [r1 b]].
  destruct Hrdb as (Ob & Zb & Ho). simpl in Zb. rewrite Hz in Zb.
  destruct (set_spare_ok v0 (rb_buf b) Hv0 Zb) as (Hv1 & Ecap & Econt). rewrite Ec0 in Econt.
  destruct o as [[]|e| | |]; try done; simpl.
  - destruct Ho as (d & Hd & Ed & Fd & He). simpl in Ed, Fd, He.
    destruct (Z.eqb_spec (rb_filled b) 0) as [E0|Hne].
    + rewrite E0 in Fd. assert (d = []) as -> by (apply zlen_nil_inv; lia).
      destruct (He eq_refl) as [|E]; [lia|]. split; [done|].
      rewrite E. split_and!; [done|simpl; lia|by rewrite Econt, app_nil_r].
    + destruct (set_len_ok v0 b d Hv0 Ob Zb Ed Fd) as (v2 & -> & Hv2 & Ec2 & El2 & Et2). simpl.
      eapply loop_post_app; [exact Hd|by rewrite Et2, Ec0|]. pose proof Hd as (_ & I1 & _).
      assert (enough rest stalls r1 < enough rest stalls r)%nat
        by (eapply enough_less; [done|]; intros ->; unfold zlen in Fd; simpl in Fd; lia).
      apply (probe_step fuel start cap (rb_initialized b - rb_filled b)); try done; [auto| | |lia].
      * eapply room_after; [done..|lia].
      * destruct Ob as [? ?]. lia.
  - destruct Ho as (Hre & _). destruct (interrupted e) eqn:Ei.
    + pose proof Hre as (E1 & I1 & S1 & _ & S2). specialize (S2 Ei).
      eapply loop_post_app; [by eapply refuses_delivers|by rewrite Econt, app_nil_r|].
      apply IH; [done|done| |rewrite Ecap; simpl; lia|unfold enough in *; rewrite E1; lia].
      unfold room in *. rewrite E1. simpl. lia.
    + pose proof Hre as (_ & _ & _ & Hx & _). split_and!; [done|done|done|]. exists [].
      rewrite app_nil_r.
      split; [by eapply refuses_delivers|done].
Qed.

Lemma default_read_to_end_post fuel r v : inv r -> vec_ok v -> room v (rest r) ->
  (enough rest stalls r < fuel)%nat ->
  to_end_post inv rest stalls errs r v (default_read_to_end rd rdb fuel r v).
Proof.
  intros Hr Hv Hroom Hf. pose proof Hv as [Hl _].
  pose proof (read_to_end_loop_post fuel (v_len v) (capacity v) 0 r v Hr Hv Hroom
                ltac:(lia) Hf) as Hp. unfold default_read_to_end.
  destruct (read_to_end_loop _ _ _ _ _ _ _ _) as [o [r' v']]. destruct Hp as [Hv' Ho].
  split; [done|]. destruct o as [n|e| | |]; try done. destruct Ho as (Hd & -> & Hc).
  split_and!; [done| |done]. apply (f_equal zlen) in Hc. revert Hc.
  destruct Hv' as [Hl' _]. unfold contents. rewrite zlen_app, !zlen_ztake by done. lia.
Qed.
End defaults.

(** A reader that keeps the provided [read_exact] and [read_to_end] is a stream
    when its [read] and [read_buf] are. *)
Lemma provided_stream {R} `{Read R} inv rest stalls errs :
  (forall r buf, inv r -> zlen buf <= isize_max ->
     read_post inv rest stalls errs r buf (read r buf)) ->
  (forall r b, inv r -> rb_ok b -> read_buf_post inv rest stalls errs r b (read_buf r b)) ->
  read_exact = default_read_exact read -> read_to_end = default_read_to_end read read_buf ->
  Stream R inv rest stalls errs.
Proof.
  intros Hrd Hrdb Ee Et. split; [done|done| |].
  - intros. rewrite Ee. by apply default_read_exact_post.
  - intros. rewrite Et. by apply default_read_to_end_post.
Qed.

(** * Writers as sinks

    Writers as sinks of bytes.

    [Sink] is what a well-behaved writer promises: [accepted] is what it has
    taken over, [committed] the part of it that has left every buffer.  A write
    accepts a prefix of the data; a failed write accepts nothing; after a flush
    everything accepted is committed.  [stalls] bounds the interruptions, [need]
    the fuel of one call. *)

Section posts.
Context {W : Type} (inv : W -> Prop) (accepted committed : W -> list byte) (stalls need : W -> nat)
  (errs : io_error -> Prop).

(** Nothing committed is taken back. *)
Definition advances (w w' : W) : Prop :=
  inv w' /\ committed w `prefix_of` committed w' /\
  (stalls w' <= stalls w)%nat /\ (need w' <= need w)%nat.

(** [w'] is [w] after the bytes [d]. *)
Definition accepts (w : W) (d : list byte) (w' : W) : Prop :=
  accepted w' = accepted w ++ d /\ advances w w'.

Definition rejects (w : W) (e : io_error) (w' : W) : Prop :=
  accepts w [] w' /\ errs e /\ (interrupted e = true -> (stalls w' < stalls w)%nat).

Definition write_post (w : W) (buf : list byte) (x : outcome Z * W) : Prop :=
  let '(o, w') := x in
  match o with
  | Val n => 0 <= n <= zlen buf /\ accepts w (ztake n buf) w'
  | Bad e => rejects w e w'
  | _ => False
  end.

Definition write_all_post (w : W) (buf : list byte) (x : outcome unit * W) : Prop :=
  let '(o, w') := x in
  match o with
  | Val _ => accepts w buf w'
  | Bad e => interrupted e = false /\ (errs e \/ e = write_zero_error) /\
             exists d, d `prefix_of` buf /\ accepts w d w'
  | _ => False
  end.

Definition flush_post (w : W) (x : outcome unit * W) : Prop :=
  let '(o, w') := x in
  match o with
  | Val _ => accepts w [] w' /\ committed w' = accepted w'
  | Bad e => rejects w e w'
  | _ => False
  end.

Lemma advances_refl w : inv w -> advances w w.
Proof. done. Qed.

Lemma advances_trans w1 w2 w3 : advances w1 w2 -> advances w2 w3 -> advances w1 w3.
Proof. intros (_ & P1 & S1 & N1) (I & P2 & S2 & N2). split_and!; [done|by etrans|lia|lia]. Qed.

Lemma accepts_app w1 d1 w2 d2 w3 : accepts w1 d1 w2 -> accepts w2 d2 w3 ->
  accepts w1 (d1 ++ d2) w3.
Proof.
  intros [E1 A1] [E2 A2]. split; [by rewrite E2, E1, app_assoc|by eapply advances_trans].
Qed.

Lemma accepts_nil w : inv w -> accepts w [] w.
Proof. intros Hw. split; [by rewrite app_nil_r|done]. Qed.
End posts.

Class Sink (W : Type) `{Write W} (inv : W -> Prop) (accepted committed : W -> list byte)
    (stalls need : W -> nat) (errs : io_error -> Prop) : Prop := {
  sink_write fuel w buf : inv w -> zlen buf <= isize_max -> (need w <= fuel)%nat ->
    write_post inv accepted committed stalls need errs w buf (write fuel w buf);
  sink_flush fuel w : inv w -> (need w <= fuel)%nat ->
    flush_post inv accepted committed stalls need errs w (flush fuel w);
  sink_write_vectored fuel w bufs : inv w -> zlen (concat bufs) <= isize_max ->
    (need w <= fuel)%nat ->
    write_post inv accepted committed stalls need errs w (concat bufs) (write_vectored fuel w bufs);
  sink_write_all fuel w buf : inv w -> zlen buf <= isize_max ->
    (need w + length buf + stalls w < fuel)%nat ->
    write_all_post inv accepted committed stalls need errs w buf (write_all fuel w buf)
}.

(** * The provided methods *)
Section defaults.
Context {W : Type} (inv : W -> Prop) (accepted committed : W -> list byte) (stalls need : W -> nat)
  (errs : io_error -> Prop).
Variable wr : nat -> W -> list byte -> outcome Z * W.
Hypothesis wr_ok : forall fuel w buf, inv w -> zlen buf <= isize_max -> (need w <= fuel)%nat ->
  write_post inv accepted committed stalls need errs w buf (wr fuel w buf).

Lemma zdrop_length {A} n (l : list A) : 0 < n <= zlen l -> (length (zdrop n l) < length l)%nat.
Proof. unfold zdrop, zlen. rewrite length_drop. lia. Qed.

Lemma write_all_post_app w d w1 k x : accepts inv accepted committed stalls need w d w1 ->
  write_all_post inv accepted committed stalls need errs w1 k x ->
  write_all_post inv accepted committed stalls need errs w (d ++ k) x.
Proof.
  intros Hd. destruct x as [o w2]. destruct o as [u|e| | |]; try done; simpl.
  - by apply accepts_app.
  - intros (Hi & He & d2 & Hp & Ha). split_and!; [done|done|]. exists (d ++ d2).
    split; [by apply prefix_app|by eapply accepts_app].
Qed.

Lemma default_write_all_post fuel : forall w buf, inv w -> zlen buf <= isize_max ->
  (need w + length buf + stalls w < fuel)%nat ->
  write_all_post inv accepted committed stalls need errs w buf (default_write_all wr fuel w buf).
Proof.
  induction fuel as [|fuel IH]; intros w buf Hw Hb Hf; [lia|].
  destruct buf as [|x buf]; [by apply accepts_nil|]. set (l := x :: buf) in *.
  simpl default_write_all. pose proof (wr_ok fuel w l Hw Hb ltac:(lia)) as Hwr.
  destruct (wr fuel w l) as [o w1]. destruct o as [n|e| | |]; try done; cbn [or_retry and_then].
  - destruct Hwr as (Hn & Ha). destruct (Z.eqb_spec n 0) as [->|Hne].
    + split_and!; [reflexivity|by right|]. exists []. split; [apply prefix_nil|done].
    + rewrite (proj2 (in_slice_spec _ _)) by lia. pose proof (ztake_zdrop n l) as El.
      rewrite <- El at 1. eapply write_all_post_app; [done|]. destruct Ha as (_ & I1 & _ & S1 & N1).
      pose proof (zdrop_length n l ltac:(lia)). apply IH; [done|rewrite zlen_zdrop; lia|lia].
  - destruct Hwr as (Ha & He & Hs). pose proof Ha as (_ & I1 & _ & S1 & N1).
    destruct (interrupted e) eqn:Ei.
    + specialize (Hs eq_refl). apply (write_all_post_app w [] w1 l); [done|].
      apply IH; [done|done|lia].
    + split_and!; [done|by left|]. exists []. split; [apply prefix_nil|done].
Qed.

Lemma default_write_vectored_post fuel w bufs : inv w -> zlen (concat bufs) <= isize_max ->
  (need w <= fuel)%nat ->
  write_post inv accepted committed stalls need errs w (concat bufs)
    (default_write_vectored wr fuel w bufs).
Proof.
  intros Hw Hb Hf. induction bufs as [|[|x buf] bufs IH]; [by apply wr_ok|by apply IH|].
  change (concat ((x :: buf) :: bufs)) with ((x :: buf) ++ concat bufs) in *.
  simpl default_write_vectored. set (l := x :: buf) in *. rewrite zlen_app in Hb.
  pose proof (zlen_nonneg (concat bufs)).
  pose proof (wr_ok fuel w l Hw ltac:(lia) Hf) as Hwr. destruct (wr fuel w l) as [o w1].
  destruct o as [n|e| | |]; try done. destruct Hwr as (Hn & Ha).
  split; [rewrite zlen_app; lia|]. by rewrite ztake_app_le by lia.
Qed.
End defaults.
