(* ===== verification/IoReaders.v ===== *)
(** IoReaders: the readers of sgx_tstd/src/io and that they are streams.

    Files modelled: io/impls.rs ([&[u8]]), io/cursor.rs ([Cursor]), io/util.rs
    ([Empty], [Repeat]), io/mod.rs ([Chain], [Take], [Bytes]). *)
From Stdlib Require Import ZArith Lia String Strings.Byte.
From stdpp Require Import base numbers list option tactics.
From S2P Require Import Prelude SgxStatus IoError IoBase IoStream.
Local Open Scope Z_scope.

(** * Slices *)
Record slice := Slice { sl : list byte }.

Module SliceIo.
Definition read (self : slice) (buf : list byte) : outcome Z * (slice * list byte) :=
  let amt := Z.min (zlen buf) (zlen (sl self)) in
  (Val amt, (Slice (zdrop amt (sl self)), ztake amt (sl self) ++ zdrop amt buf)).

Definition read_buf (self : slice) (b : ReadBuf) : outcome unit * (slice * ReadBuf) :=
  let amt := Z.min (RB.remaining b) (zlen (sl self)) in
  and_then (RB.append b (ztake amt (sl self))) (self, b) (fun b =>
    (Val tt, (Slice (zdrop amt (sl self)), b))).

Fixpoint read_vectored (self : slice) (bufs : list (list byte))
    : outcome Z * (slice * list (list byte)) :=
  match bufs with
  | [] => (Val 0, (self, []))
  | buf :: bufs =>
      let '(o, (self, buf)) := read self buf in
      and_then o (self, buf :: bufs) (fun n =>
        match sl self with
        | [] => (Val n, (self, buf :: bufs))
        | _ =>
            let '(o, (self, bufs)) := read_vectored self bufs in
            and_then o (self, buf :: bufs) (fun m => (Val (n + m), (self, buf :: bufs)))
        end)
  end.

Definition read_exact (self : slice) (buf : list byte) : outcome unit * (slice * list byte) :=
  if zlen buf >? zlen (sl self) then (Bad eof_error, (self, buf))
  else (Val tt, (Slice (zdrop (zlen buf) (sl self)), ztake (zlen buf) (sl self))).

Definition read_to_end (self : slice) (v : Vec) : outcome Z * (slice * Vec) :=
  and_then (extend_from_slice v (sl self)) (self, v) (fun v =>
    (Val (zlen (sl self)), (Slice [], v))).

Definition fill_buf (self : slice) : outcome (list byte) * slice := (Val (sl self), self).

(** [consume] panics beyond the end; callers stay within what [fill_buf] gave. *)
Definition consume (self : slice) (amt : Z) : slice := Slice (zdrop amt (sl self)).
End SliceIo.

#[export] Instance slice_reads : Read slice := {|
  read := SliceIo.read;
  read_buf := SliceIo.read_buf;
  read_vectored := SliceIo.read_vectored;
  read_exact := fun _ => SliceIo.read_exact;
  read_to_end := fun _ => SliceIo.read_to_end
|}.
#[export] Instance slice_buf_reads : BufRead slice := {|
  fill_buf := SliceIo.fill_buf; consume := SliceIo.consume |}.

(** * Cursors over bytes in memory *)
Record Cursor := { cu_inner : list byte; cu_pos : Z }.

Module CursorIo.
Definition new (inner : list byte) : Cursor := {| cu_inner := inner; cu_pos := 0 |}.
Definition set_position (self : Cursor) (pos : Z) : Cursor :=
  {| cu_inner := cu_inner self; cu_pos := pos |}.
Definition remaining_slice (self : Cursor) : list byte :=
  zdrop (Z.min (cu_pos self) (zlen (cu_inner self))) (cu_inner self).
Definition is_empty (self : Cursor) : bool := cu_pos self >=? zlen (cu_inner self).
Definition advance (self : Cursor) (n : Z) : Cursor := set_position self (wrap 64 (cu_pos self + n)).

Definition read (self : Cursor) (buf : list byte) : outcome Z * (Cursor * list byte) :=
  let '(o, (_, buf)) := SliceIo.read (Slice (remaining_slice self)) buf in
  and_then o (self, buf) (fun n => (Val n, (advance self n, buf))).

Definition read_buf (self : Cursor) (b : ReadBuf) : outcome unit * (Cursor * ReadBuf) :=
  let prev_filled := rb_filled b in
  let '(o, (_, b)) := SliceIo.read_buf (Slice (remaining_slice self)) b in
  and_then o (self, b) (fun _ => (Val tt, (advance self (rb_filled b - prev_filled), b))).

Fixpoint read_vectored (self : Cursor) (bufs : list (list byte))
    : outcome Z * (Cursor * list (list byte)) :=
  match bufs with
  | [] => (Val 0, (self, []))
  | buf :: bufs =>
      let '(o, (self, buf)) := read self buf in
      and_then o (self, buf :: bufs) (fun n =>
        if n <? zlen buf then (Val n, (self, buf :: bufs))
        else
          let '(o, (self, bufs)) := read_vectored self bufs in
          and_then o (self, buf :: bufs) (fun m => (Val (n + m), (self, buf :: bufs))))
  end.

Definition read_exact (self : Cursor) (buf : list byte) : outcome unit * (Cursor * list byte) :=
  let n := zlen buf in
  let '(o, (_, buf)) := SliceIo.read_exact (Slice (remaining_slice self)) buf in
  and_then o (self, buf) (fun _ => (Val tt, (advance self n, buf))).

Definition fill_buf (self : Cursor) : outcome (list byte) * Cursor :=
  (Val (remaining_slice self), self).
Definition consume (self : Cursor) (amt : Z) : Cursor := advance self amt.

Definition seek_error : io_error :=
  SimpleMessage InvalidInput "invalid seek to a negative or overflowing position".

(** [base_pos.checked_add_signed(offset)] *)
Definition seek (self : Cursor) (style : SeekFrom) : outcome Z * Cursor :=
  let move base_pos offset :=
    let n := base_pos + offset in
    if (0 <=? n) && (n <=? u64_max) then (Val n, set_position self n)
    else (Bad seek_error, self) in
  match style with
  | Start n => (Val n, set_position self n)
  | End n => move (zlen (cu_inner self)) n
  | Current n => move (cu_pos self) n
  end.

(** [slice_write]: over a slice of fixed length. *)
Definition slice_write (self : Cursor) (buf : list byte) : outcome Z * Cursor :=
  let pos := Z.min (cu_pos self) (zlen (cu_inner self)) in
  let amt := Z.min (zlen buf) (zlen (cu_inner self) - pos) in
  (Val amt,
   {| cu_inner := ztake pos (cu_inner self) ++ ztake amt buf ++ zdrop (pos + amt) (cu_inner self);
      cu_pos := wrap 64 (cu_pos self + amt) |}).

(** [vec_write]: over a vector, which grows; a gap is filled with zeros. *)
Definition vec_write (self : Cursor) (buf : list byte) : outcome Z * Cursor :=
  let pos := cu_pos self in
  if pos + zlen buf >? isize_max then (Panics, self)
  else
    let vec := cu_inner self ++ zeros (Z.to_nat (pos - zlen (cu_inner self))) in
    let left := Z.min (zlen vec - pos) (zlen buf) in
    (Val (zlen buf),
     {| cu_inner := ztake pos vec ++ ztake left buf ++ zdrop (pos + left) vec ++ zdrop left buf;
        cu_pos := pos + zlen buf |}).
End CursorIo.

#[export] Instance cursor_reads : Read Cursor := {|
  read := CursorIo.read;
  read_buf := CursorIo.read_buf;
  read_vectored := CursorIo.read_vectored;
  read_exact := fun _ => CursorIo.read_exact;
  read_to_end := default_read_to_end CursorIo.read CursorIo.read_buf
|}.
#[export] Instance cursor_buf_reads : BufRead Cursor := {|
  fill_buf := CursorIo.fill_buf; consume := CursorIo.consume |}.
#[export] Instance cursor_seeks : Seek Cursor := {| seek := CursorIo.seek |}.

(** * Nothing, and one byte for ever *)
Inductive Empty := empty.

Definition Empty_read (self : Empty) (buf : list byte) : outcome Z * (Empty * list byte) :=
  (Val 0, (self, buf)).
Definition Empty_read_buf (self : Empty) (b : ReadBuf) : outcome unit * (Empty * ReadBuf) :=
  (Val tt, (self, b)).

#[export] Instance empty_reads : Read Empty := {|
  read := Empty_read;
  read_buf := Empty_read_buf;
  read_vectored := default_read_vectored Empty_read;
  read_exact := default_read_exact Empty_read;
  read_to_end := default_read_to_end Empty_read Empty_read_buf
|}.

Record Repeat := { rp_byte : byte }.

Definition Repeat_read (self : Repeat) (buf : list byte) : outcome Z * (Repeat * list byte) :=
  (Val (zlen buf), (self, replicate (length buf) (rp_byte self))).

Definition Repeat_read_buf (self : Repeat) (b : ReadBuf) : outcome unit * (Repeat * ReadBuf) :=
  if in_slice (rb_filled b) (rb_buf b) then
    let b := RB.set_unfilled b (replicate (length (RB.unfilled b)) (rp_byte self)) in
    let remaining := RB.remaining b in
    let b := RB.assume_init b remaining in
    and_then (RB.add_filled b remaining) (self, b) (fun b => (Val tt, (self, b)))
  else (Panics, (self, b)).

(** * One reader after another *)
Record Chain (T U : Type) := { ch_first : T; ch_second : U; ch_done_first : bool }.
Arguments ch_first {T U}. Arguments ch_second {T U}. Arguments ch_done_first {T U}.
Arguments Build_Chain {T U}.

Section chain.
Context {T U : Type} `{Read T} `{Read U}.

Definition Chain_second (self : Chain T U) (buf : list byte)
    : outcome Z * (Chain T U * list byte) :=
  let '(o, (u, buf)) := read (ch_second self) buf in
  (o, (Build_Chain (ch_first self) u (ch_done_first self), buf)).

Definition Chain_read (self : Chain T U) (buf : list byte) : outcome Z * (Chain T U * list byte) :=
  if negb (ch_done_first self) then
    let '(o, (t, buf)) := read (ch_first self) buf in
    let self := Build_Chain t (ch_second self) (ch_done_first self) in
    and_then o (self, buf) (fun n =>
      if (n =? 0) && negb (zlen buf =? 0)
      then Chain_second (Build_Chain t (ch_second self) true) buf
      else (Val n, (self, buf)))
  else Chain_second self buf.

Definition Chain_second_vectored (self : Chain T U) (bufs : list (list byte))
    : outcome Z * (Chain T U * list (list byte)) :=
  let '(o, (u, bufs)) := read_vectored (ch_second self) bufs in
  (o, (Build_Chain (ch_first self) u (ch_done_first self), bufs)).

Definition Chain_read_vectored (self : Chain T U) (bufs : list (list byte))
    : outcome Z * (Chain T U * list (list byte)) :=
  if negb (ch_done_first self) then
    let '(o, (t, bufs)) := read_vectored (ch_first self) bufs in
    let self := Build_Chain t (ch_second self) (ch_done_first self) in
    and_then o (self, bufs) (fun n =>
      if (n =? 0) && existsb (fun b => negb (zlen b =? 0)) bufs
      then Chain_second_vectored (Build_Chain t (ch_second self) true) bufs
      else (Val n, (self, bufs)))
  else Chain_second_vectored self bufs.

#[export] Instance chain_reads : Read (Chain T U) := {|
  read := Chain_read;
  read_buf := default_read_buf Chain_read;
  read_vectored := Chain_read_vectored;
  read_exact := default_read_exact Chain_read;
  read_to_end := default_read_to_end Chain_read (default_read_buf Chain_read)
|}.

Context `{BufRead T} `{BufRead U}.

Definition Chain_fill_second (self : Chain T U) : outcome (list byte) * Chain T U :=
  let '(o, u) := fill_buf (ch_second self) in
  (o, Build_Chain (ch_first self) u (ch_done_first self)).

Definition Chain_fill_buf (self : Chain T U) : outcome (list byte) * Chain T U :=
  if negb (ch_done_first self) then
    let '(o, t) := fill_buf (ch_first self) in
    let self := Build_Chain t (ch_second self) (ch_done_first self) in
    and_then o self (fun buf =>
      match buf with
      | [] => Chain_fill_second (Build_Chain t (ch_second self) true)
      | _ => (Val buf, self)
      end)
  else Chain_fill_second self.

Definition Chain_consume (self : Chain T U) (amt : Z) : Chain T U :=
  if negb (ch_done_first self)
  then Build_Chain (consume (ch_first self) amt) (ch_second self) (ch_done_first self)
  else Build_Chain (ch_first self) (consume (ch_second self) amt) (ch_done_first self).

#[export] Instance chain_buf_reads : BufRead (Chain T U) := {|
  fill_buf := Chain_fill_buf; consume := Chain_consume |}.
End chain.

(** * A reader cut off *)
Record Take (T : Type) := { tk_inner : T; tk_limit : Z }.
Arguments tk_inner {T}. Arguments tk_limit {T}. Arguments Build_Take {T}.

Section take.
Context {T : Type} `{Read T}.

Definition Take_read (self : Take T) (buf : list byte) : outcome Z * (Take T * list byte) :=
  if tk_limit self =? 0 then (Val 0, (self, buf))
  else
    let max := Z.min (zlen buf) (tk_limit self) in
    let '(o, (t, bs)) := read (tk_inner self) (ztake max buf) in
    let buf := bs ++ zdrop max buf in
    and_then o (Build_Take t (tk_limit self), buf) (fun n =>
      (Val n, (Build_Take t (wrap 64 (tk_limit self - n)), buf))).

Definition Take_read_buf (self : Take T) (b : ReadBuf) : outcome unit * (Take T * ReadBuf) :=
  if tk_limit self =? 0 then (Val tt, (self, b))
  else
    let prev_filled := rb_filled b in
    if tk_limit self <=? RB.remaining b then
      let limit := Z.min (tk_limit self) usize_max in
      let extra_init := Z.min limit (rb_initialized b - rb_filled b) in
      if in_slice limit (RB.unfilled b) then
        let sliced := RB.assume_init (RB.uninit (ztake limit (RB.unfilled b))) extra_init in
        let '(o, (t, sliced)) := read_buf (tk_inner self) sliced in
        let b := RB.set_unfilled b (rb_buf sliced ++ zdrop limit (RB.unfilled b)) in
        and_then o (Build_Take t (tk_limit self), b) (fun _ =>
          let b := RB.assume_init b (rb_initialized sliced) in
          and_then (RB.add_filled b (rb_filled sliced)) (Build_Take t (tk_limit self), b) (fun b =>
            (Val tt, (Build_Take t (wrap 64 (tk_limit self - rb_filled sliced)), b))))
      else (Panics, (self, b))
    else
      let '(o, (t, b)) := read_buf (tk_inner self) b in
      and_then o (Build_Take t (tk_limit self), b) (fun _ =>
        (Val tt, (Build_Take t (wrap 64 (tk_limit self - Z.max 0 (rb_filled b - prev_filled))), b))).

#[export] Instance take_reads : Read (Take T) := {|
  read := Take_read;
  read_buf := Take_read_buf;
  read_vectored := default_read_vectored Take_read;
  read_exact := default_read_exact Take_read;
  read_to_end := default_read_to_end Take_read Take_read_buf
|}.

Context `{BufRead T}.

Definition Take_fill_buf (self : Take T) : outcome (list byte) * Take T :=
  if tk_limit self =? 0 then (Val [], self)
  else
    let '(o, t) := fill_buf (tk_inner self) in
    let self := Build_Take t (tk_limit self) in
    and_then o self (fun buf => (Val (ztake (Z.min (zlen buf) (tk_limit self)) buf), self)).

Definition Take_consume (self : Take T) (amt : Z) : Take T :=
  let amt := Z.min amt (tk_limit self) in
  Build_Take (consume (tk_inner self) amt) (tk_limit self - amt).

#[export] Instance take_buf_reads : BufRead (Take T) := {|
  fill_buf := Take_fill_buf; consume := Take_consume |}.
End take.

(** * One byte at a time *)
Fixpoint Bytes_next {R} `{Read R} (fuel : nat) (r : R) : outcome (option byte) * R :=
  match fuel with
  | O => (NoFuel, r)
  | S fuel =>
      let '(o, (r, bs)) := read r [Byte.x00] in
      or_retry o r (Bytes_next fuel r) (fun n =>
        if n =? 0 then (Val None, r) else (Val (head bs), r))
  end.
