(* ===== verification/IoReaderSpecs.v ===== *)
(** IoReaderSpecs: the readers of IoReaders are streams.

    A slice and a cursor deliver their bytes; [Chain] delivers one stream and
    then the other, [Take] a prefix, whatever streams they are made of. *)
From Stdlib Require Import ZArith Lia String Strings.Byte.
From stdpp Require Import base numbers list option tactics.
From S2P Require Import Prelude SgxStatus IoError IoBase IoStream IoReaders.
Local Open Scope Z_scope.

(** * Slices *)
Definition no_stalls {R} (r : R) : nat := 0%nat.
Definition no_errs (e : io_error) : Prop := False.
Definition slice_ok (s : slice) : Prop := zlen (sl s) <= isize_max.

Lemma never_refuses {R} inv rest stalls (r : R) e r' : ~ refuses inv rest stalls no_errs r e r'.
Proof. by intros (_ & _ & _ & He & _). Qed.

Lemma ztake_0_nil {A} n (l : list A) : ztake n l = [] -> n <= 0 \/ l = [].
Proof. destruct l; [by right|]. intros E. left. destruct (Z.to_nat n) eqn:En; [lia|].
  unfold ztake in E. by rewrite En in E. Qed.

Lemma RB_remaining b : rb_ok b -> RB.remaining b = zlen (rb_buf b) - rb_filled b.
Proof.
  intros [Hf Hi]. unfold RB.remaining, RB.capacity. apply wrap_small. unfold isize_max in Hi. lia.
Qed.

(** What [append] does to a buffer with room. *)
Lemma append_ok b d : rb_ok b -> rb_filled b + zlen d <= zlen (rb_buf b) ->
  exists b', RB.append b d = Val b' /\ rb_ok b' /\ zlen (rb_buf b') = zlen (rb_buf b) /\
    filled_part b' = filled_part b ++ d /\ rb_filled b' = rb_filled b + zlen d.
Proof.
  intros Hb Hd. pose proof Hb as [Hf Hi]. pose proof (zlen_nonneg d) as Hn.
  unfold RB.append. rewrite (RB_remaining b Hb).
  destruct (Z.geb_spec (zlen (rb_buf b) - rb_filled b) (zlen d)); [|lia].
  rewrite (proj2 (in_slice_spec _ _)) by lia. simpl.
  set (b1 := RB.set_unfilled b (d ++ zdrop (zlen d) (RB.unfilled b))).
  assert (zlen (ztake (rb_filled b) (rb_buf b)) = rb_filled b) as Et by (rewrite zlen_ztake; lia).
  assert (zlen (RB.unfilled b) = zlen (rb_buf b) - rb_filled b) as Eu
    by (unfold RB.unfilled; rewrite zlen_zdrop; lia).
  assert (zlen (rb_buf b1) = zlen (rb_buf b)) as E1.
  { simpl. rewrite !zlen_app, Et, zlen_zdrop; lia. }
  unfold RB.add_filled, RB.set_filled, isize_max in *. simpl rb_filled. simpl rb_initialized.
  rewrite wrap_small by lia.
  destruct (Z.leb_spec (rb_filled b + zlen d) (Z.max (rb_initialized b) (rb_filled b + zlen d))); [|lia].
  eexists. split; [reflexivity|]. unfold rb_ok, filled_part, isize_max. cbn [rb_filled rb_initialized rb_buf RB.assume_init].
  rewrite E1. split_and!; try lia. simpl rb_buf. rewrite <- Et at 1.
  by rewrite <- zlen_app, app_assoc, ztake_app.
Qed.

Lemma slice_read_post s buf : slice_ok s -> zlen buf <= isize_max ->
  read_post slice_ok sl no_stalls no_errs s buf (SliceIo.read s buf).
Proof.
  intros Hs Hb. unfold SliceIo.read. set (n := Z.min _ _).
  pose proof (zlen_nonneg buf). pose proof (zlen_nonneg (sl s)).
  assert (zlen (ztake n (sl s)) = n) as Et by (rewrite zlen_ztake; lia).
  split; [rewrite zlen_app, Et, zlen_zdrop; lia|]. exists (ztake n (sl s)).
  split_and!; [split_and!|by rewrite Et|by eexists|].
  - simpl. by rewrite ztake_zdrop.
  - unfold slice_ok in *. simpl. rewrite zlen_zdrop; lia.
  - done.
  - intros [Hz| ->]%ztake_0_nil; [|by right].
    destruct (Z.min_spec (zlen buf) (zlen (sl s))) as [[_ E]|[_ E]].
    + left. apply zlen_nil_inv. lia.
    + right. apply zlen_nil_inv. lia.
Qed.

Lemma slice_read_buf_post s b : slice_ok s -> rb_ok b ->
  read_buf_post slice_ok sl no_stalls no_errs s b (SliceIo.read_buf s b).
Proof.
  intros Hs Hb. unfold SliceIo.read_buf. rewrite (RB_remaining b Hb). set (n := Z.min _ _).
  pose proof (zlen_nonneg (sl s)). pose proof Hb as [Hf Hi].
  assert (zlen (ztake n (sl s)) = n) as Et by (rewrite zlen_ztake; lia).
  destruct (append_ok b (ztake n (sl s)) Hb) as (b' & -> & Hb' & Ez & Ep & Ef); [lia|]. simpl.
  split_and!; [done|done|]. exists (ztake n (sl s)). split_and!; [split_and!|done|done|].
  - simpl. by rewrite ztake_zdrop.
  - unfold slice_ok in *. simpl. rewrite zlen_zdrop; lia.
  - done.
  - intros [Hz| ->]%ztake_0_nil; [|by right].
    destruct (Z.min_spec (zlen (rb_buf b) - rb_filled b) (zlen (sl s))) as [[_ E]|[_ E]].
    + left. lia.
    + right. apply zlen_nil_inv. lia.
Qed.

Lemma slice_read_exact_post s buf : slice_ok s ->
  exact_post slice_ok sl no_stalls no_errs s buf (SliceIo.read_exact s buf).
Proof.
  intros Hs. unfold SliceIo.read_exact. destruct (Z.gtb_spec (zlen buf) (zlen (sl s))) as [Hg|Hl].
  - split; [done|]. split; [by left|]. exists []. by split_and!.
  - pose proof (zlen_nonneg buf). split; [rewrite zlen_ztake; lia|]. split_and!.
    + simpl. by rewrite ztake_zdrop.
    + unfold slice_ok in *. simpl. rewrite zlen_zdrop; lia.
    + done.
Qed.

#[export] Instance slice_stream : Stream slice slice_ok sl no_stalls no_errs.
Proof.
  split; simpl; intros.
  - by apply slice_read_post.
  - by apply slice_read_buf_post.
  - by apply slice_read_exact_post.
  - unfold SliceIo.read_to_end.
    destruct (extend_from_slice_ok v (sl r)) as (v' & -> & Hv & Hc & Hl); [done|done|]. simpl.
    split; [done|]. split_and!; [|done|done]. split_and!; [by rewrite app_nil_r| |done].
    unfold slice_ok. by vm_compute.
Qed.

Lemma slice_read_vectored_post bufs : forall s, slice_ok s -> zlen (concat bufs) <= isize_max ->
  vectored_post slice_ok sl no_stalls no_errs s bufs (SliceIo.read_vectored s bufs).
Proof.
  induction bufs as [|buf bufs IH]; intros s Hs Hb.
  { split; [done|]. exists []. split_and!; [by split_and!|done|done|by left]. }
  cbn [concat] in Hb. rewrite zlen_app in Hb. pose proof (zlen_nonneg buf).
  pose proof (zlen_nonneg (concat bufs)). cbn [SliceIo.read_vectored].
  pose proof (slice_read_post s buf Hs ltac:(lia)) as Hr. pose proof (zlen_nonneg (sl s)) as Hl.
  unfold SliceIo.read in *. set (n := Z.min _ _) in *. destruct Hr as [Hz (d & Hd & En & Hp & He)].
  assert (d = ztake n (sl s)) as -> by (destruct Hd as (E & _ & _); rewrite E, En; symmetry; apply ztake_app).
  cbn [and_then sl]. destruct (zdrop n (sl s)) as [|y k] eqn:Ek.
  - split; [cbn; by f_equal|]. exists (ztake n (sl s)).
    split_and!; [done|done|cbn; by apply prefix_app_r|]. intros E.
    right. by rewrite <- (ztake_zdrop n (sl s)), E, Ek.
  - assert (n = zlen buf) as Enb.
    { destruct (Z.min_spec (zlen buf) (zlen (sl s))) as [[_ E]|[_ E]]; [done|].
      rewrite zdrop_all in Ek by lia. done. }
    assert (zdrop n buf = []) as Eb by (apply zdrop_all; lia). rewrite Eb, app_nil_r in *.
    destruct Hd as (Er & Hok & Hst). pose proof (IH (Slice (y :: k)) Hok ltac:(lia)) as IH'.
    destruct (SliceIo.read_vectored (Slice (y :: k)) bufs) as [o [s' bufs']]. destruct IH' as [Hz' Ho'].
    destruct o as [m|e| | |]; [|by apply never_refuses in Ho'|done..]. cbn [and_then].
    split; [cbn; by f_equal|]. destruct Ho' as (d' & (Er' & Hok' & Hst') & -> & Hp' & He').
    exists (ztake n (sl s) ++ d'). split_and!.
    + split_and!; [|done|done]. rewrite Er at 1. cbn [sl] in Er' |- *. by rewrite Er', app_assoc.
    + rewrite zlen_app. lia.
    + cbn. by apply prefix_app.
    + intros E. apply app_eq_nil in E as [E ->].
      assert (buf = []) as -> by (destruct (He E) as [|E0]; [done|]; rewrite E0 in Ek; unfold zdrop in Ek; by rewrite drop_nil in Ek).
      destruct (He' eq_refl) as [E'|E']; [left; cbn; by rewrite E'|done].
Qed.

#[export] Instance slice_vec_stream : VecStream slice slice_ok sl no_stalls no_errs.
Proof. split. intros. by apply slice_read_vectored_post. Qed.

(** * Cursors *)
Definition cursor_ok (c : Cursor) : Prop :=
  0 <= cu_pos c <= u64_max /\ zlen (cu_inner c) <= isize_max.

(** The cursor after [d] more of its bytes. *)
Lemma cursor_advance c d k : cursor_ok c -> CursorIo.remaining_slice c = d ++ k ->
  delivers cursor_ok CursorIo.remaining_slice no_stalls c d (CursorIo.advance c (zlen d)).
Proof.
  intros [Hp Hl] E. pose proof (zlen_nonneg d) as Hn. pose proof (zlen_nonneg (cu_inner c)) as Hi.
  assert (zlen d + zlen k = zlen (cu_inner c) - Z.min (cu_pos c) (zlen (cu_inner c))) as Hz.
  { rewrite <- zlen_app, <- E. unfold CursorIo.remaining_slice. rewrite zlen_zdrop; lia. }
  pose proof (zlen_nonneg k) as Hk. unfold u64_max, isize_max in *.
  assert (wrap 64 (cu_pos c + zlen d) = cu_pos c + zlen d) as Ew.
  { destruct (decide (zlen d = 0)); apply wrap_small; lia. }
  split_and!; [|split; simpl; rewrite ?Ew; unfold u64_max, isize_max;
                 [destruct (decide (zlen d = 0))|]; lia|done].
  rewrite E. f_equal. unfold CursorIo.remaining_slice. simpl. rewrite Ew.
  replace (Z.min (cu_pos c + zlen d) (zlen (cu_inner c)))
    with (Z.min (cu_pos c) (zlen (cu_inner c)) + zlen d)
    by (destruct (decide (zlen d = 0)); lia).
  unfold zdrop. rewrite Z2Nat.inj_add, <- drop_drop by lia.
  fold (zdrop (Z.min (cu_pos c) (zlen (cu_inner c))) (cu_inner c)).
  fold (CursorIo.remaining_slice c). rewrite E. symmetry. apply zdrop_app.
Qed.

Lemma remaining_slice_ok c : cursor_ok c -> slice_ok (Slice (CursorIo.remaining_slice c)).
Proof.
  intros [Hp Hl]. unfold slice_ok, CursorIo.remaining_slice. simpl.
  pose proof (zlen_nonneg (cu_inner c)). rewrite zlen_zdrop; lia.
Qed.

Lemma cursor_read_post c buf : cursor_ok c -> zlen buf <= isize_max ->
  read_post cursor_ok CursorIo.remaining_slice no_stalls no_errs c buf (CursorIo.read c buf).
Proof.
  intros Hc Hb. unfold CursorIo.read.
  pose proof (slice_read_post _ buf (remaining_slice_ok c Hc) Hb) as Hs.
  destruct (SliceIo.read _ buf) as [o [s b]]. destruct Hs as [Hz Ho].
  destruct o as [n|e| | |]; [|by apply never_refuses in Ho|done..]. simpl. split; [done|].
  destruct Ho as (d & (E & _ & _) & -> & Hp & He). exists d. split_and!; [|done|done|done].
  by eapply cursor_advance.
Qed.

Lemma cursor_read_buf_post c b : cursor_ok c -> rb_ok b ->
  read_buf_post cursor_ok CursorIo.remaining_slice no_stalls no_errs c b (CursorIo.read_buf c b).
Proof.
  intros Hc Hb. unfold CursorIo.read_buf.
  pose proof (slice_read_buf_post _ b (remaining_slice_ok c Hc) Hb) as Hs.
  destruct (SliceIo.read_buf _ b) as [o [s b']]. destruct Hs as (Hb' & Hz & Ho).
  destruct o as [[]|e| | |]; [|by destruct Ho as [Ho%never_refuses _]|done..]. simpl.
  destruct Ho as (d & (E & _ & _) & Ep & Ef & He). split_and!; [done|done|]. exists d.
  replace (rb_filled b' - rb_filled b) with (zlen d) by lia.
  split_and!; [|done|done|done]. by eapply cursor_advance.
Qed.

#[export] Instance cursor_stream :
  Stream Cursor cursor_ok CursorIo.remaining_slice no_stalls no_errs.
Proof.
  split; simpl; intros.
  - by apply cursor_read_post.
  - by apply cursor_read_buf_post.
  - unfold CursorIo.read_exact.
    pose proof (slice_read_exact_post _ buf (remaining_slice_ok r ltac:(done))) as Hs.
    destruct (SliceIo.read_exact _ buf) as [o [s b']]. destruct Hs as [Hz Ho].
    destruct o as [[]|e| | |]; try done; simpl; (split; [done|]).
    + destruct Ho as (E & _ & _). rewrite <- Hz. by eapply cursor_advance.
    + destruct Ho as [[He|[_ []]] _]. split; [by left|]. exists []. by split_and!.
  - apply default_read_to_end_post; try done; [apply cursor_read_post|apply cursor_read_buf_post].
Qed.

(** * Chain *)
Section chain.
Context {T U : Type} `{RT : Read T} `{RU : Read U}.
Context (invT : T -> Prop) (restT : T -> list byte) (stallsT : T -> nat) (errsT : io_error -> Prop).
Context (invU : U -> Prop) (restU : U -> list byte) (stallsU : U -> nat) (errsU : io_error -> Prop).
Context `{!Stream T invT restT stallsT errsT} `{!Stream U invU restU stallsU errsU}.

Definition chain_ok (c : Chain T U) : Prop := invT (ch_first c) /\ invU (ch_second c).
Definition chain_rest (c : Chain T U) : list byte :=
  (if ch_done_first c then [] else restT (ch_first c)) ++ restU (ch_second c).
Definition chain_stalls (c : Chain T U) : nat := stallsT (ch_first c) + stallsU (ch_second c).
Definition chain_errs (e : io_error) : Prop := errsT e \/ errsU e.

Lemma chain_second_post c buf : chain_ok c -> ch_done_first c = true -> zlen buf <= isize_max ->
  read_post chain_ok chain_rest chain_stalls chain_errs c buf (Chain_second c buf).
Proof.
  intros [HT HU] Hd Hb. unfold Chain_second. pose proof (stream_read _ buf HU Hb) as Hr.
  destruct (read (ch_second c) buf) as [o [u b]]. destruct Hr as [Hz Ho]. split; [done|].
  unfold delivers, refuses, chain_rest, chain_stalls, chain_ok in *.
  destruct o as [n|e| | |]; try done; simpl; rewrite Hd; simpl.
  - destruct Ho as (d & (E & I & S) & -> & Hp & He). exists d. split_and!; try done. lia.
  - destruct Ho as (E & I & S & He & Hs). split_and!; try done; [lia|by right|].
    intros Hi. specialize (Hs Hi). lia.
Qed.
Lemma chain_read_post c buf : chain_ok c -> zlen buf <= isize_max ->
  read_post chain_ok chain_rest chain_stalls chain_errs c buf (Chain_read c buf).
Proof.
  intros Hc Hb. unfold Chain_read. destruct (ch_done_first c) eqn:Hd; simpl;
    [by apply chain_second_post|]. pose proof Hc as [HT HU].
  pose proof (stream_read _ buf HT Hb) as Hr.
  destruct (read (ch_first c) buf) as [o [t b]]. destruct Hr as [Hz Ho].
  destruct o as [n|e| | |]; try done; simpl.
  - destruct Ho as (d & (E & I & S) & -> & Hp & He).
    destruct (Z.eqb_spec (zlen d) 0) as [E0|Hne]; simpl.
    + apply zlen_nil_inv in E0. subst d. simpl in E. destruct (Z.eqb_spec (zlen b) 0) as [Eb|Hnb]; simpl.
      * split; [done|]. exists []. split_and!; [|done|done|].
        -- unfold delivers, chain_rest, chain_stalls, chain_ok. simpl. rewrite Hd, E.
           split_and!; [done|done|done|lia].
        -- intros _. left. apply zlen_nil_inv. lia.
      * destruct (He eq_refl) as [->|Er]; [done|].
        pose proof (chain_second_post (Build_Chain t (ch_second c) true) b) as Hs.
        destruct (Chain_second _ b) as [o2 [c2 b2]]. destruct Hs as [Hz2 Ho2]; [done|done|lia|].
        split; [lia|]. unfold delivers, refuses, chain_rest, chain_stalls in *. simpl in *.
        destruct o2 as [n|e| | |]; try done; rewrite Hd, Er; simpl.
        -- destruct Ho2 as (d & (E2 & I2 & S2) & -> & Hp2 & He2). exists d.
           split_and!; try done; [lia|]. intros E0. destruct (He2 E0) as [->|?]; [done|by right].
        -- destruct Ho2 as (E2 & I2 & S2 & X2 & H2). split_and!; try done; [lia|].
           intros Hi. specialize (H2 Hi). lia.
    + split; [done|]. exists d. split_and!; [|done|done|by intros ->].
      unfold delivers, chain_rest, chain_stalls, chain_ok. simpl. rewrite Hd, E, app_assoc.
      split_and!; [done|done|done|lia].
  - destruct Ho as (E & I & S & X & Hs). split; [done|].
    unfold refuses, chain_rest, chain_stalls, chain_ok. simpl. rewrite Hd, E.
    split_and!; try done; [lia|by left|]. intros Hi. specialize (Hs Hi). lia.
Qed.

Lemma chain_stream : Stream (Chain T U) chain_ok chain_rest chain_stalls chain_errs.
Proof.
  apply provided_stream; [apply chain_read_post| |reflexivity..].
  intros. apply default_read_buf_post; [apply chain_read_post|done..].
Qed.
End chain.

(** * Take *)
Section take.
Context {T : Type} `{RT : Read T}.
Context (inv : T -> Prop) (rest : T -> list byte) (stalls : T -> nat) (errs : io_error -> Prop).
Context `{!Stream T inv rest stalls errs}.

Definition take_ok (t : Take T) : Prop := inv (tk_inner t) /\ 0 <= tk_limit t <= u64_max.
Definition take_rest (t : Take T) : list byte := ztake (tk_limit t) (rest (tk_inner t)).
Definition take_stalls (t : Take T) : nat := stalls (tk_inner t).

(** The inner stream delivered [d], within the limit. *)
Lemma take_delivers t d t' : take_ok t -> delivers inv rest stalls (tk_inner t) d t' ->
  zlen d <= tk_limit t ->
  delivers take_ok take_rest take_stalls t d (Build_Take t' (wrap 64 (tk_limit t - zlen d))).
Proof.
  intros [Hi Hl] (E & I & S) Hd. pose proof (zlen_nonneg d) as Hn. unfold u64_max in *.
  unfold delivers, take_rest, take_ok, take_stalls, u64_max. simpl. rewrite wrap_small by lia.
  split_and!; try done; try lia. rewrite E. unfold ztake.
  rewrite take_app. rewrite take_ge by (unfold zlen in *; lia). f_equal. f_equal.
  unfold zlen in *. lia.
Qed.

Lemma take_refuses t e t' : take_ok t -> refuses inv rest stalls errs (tk_inner t) e t' ->
  refuses take_ok take_rest take_stalls errs t e (Build_Take t' (tk_limit t)).
Proof.
  intros [Hi Hl] (E & I & S & X & Hs). unfold refuses, take_rest, take_ok, take_stalls. simpl.
  rewrite E. split_and!; done || lia.
Qed.

Lemma take_read_post t buf : take_ok t -> zlen buf <= isize_max ->
  read_post take_ok take_rest take_stalls errs t buf (Take_read t buf).
Proof.
  intros Ht Hb. unfold Take_read. pose proof Ht as [Hi Hl].
  destruct (Z.eqb_spec (tk_limit t) 0) as [E0|Hne].
  - split; [done|]. exists []. split_and!; [by split_and!|done|by eexists|].
    intros _. right. unfold take_rest. by rewrite E0.
  - pose proof (zlen_nonneg buf). set (m := Z.min (zlen buf) (tk_limit t)).
    assert (zlen (ztake m buf) = m) as Em by (rewrite zlen_ztake; lia).
    pose proof (stream_read (tk_inner t) (ztake m buf) Hi ltac:(lia)) as Hr.
    destruct (read (tk_inner t) (ztake m buf)) as [o [t' b]]. destruct Hr as [Hz Ho].
    assert (zlen (b ++ zdrop m buf) = zlen buf) as Ez by (rewrite zlen_app, zlen_zdrop; lia).
    destruct o as [n|e| | |]; try done; simpl; (split; [done|]).
    + destruct Ho as (d & Hd & -> & Hp & He). pose proof (prefix_zlen _ _ Hp). exists d.
      split_and!; [apply take_delivers; [done|done|lia]|done|by apply prefix_app_r|].
      intros E. destruct (He E) as [Hnil|Hr]; [left|right].
      * apply zlen_nil_inv. apply (f_equal zlen) in Hnil. rewrite Em in Hnil. unfold zlen in Hnil.
        simpl in Hnil. lia.
      * unfold take_rest. rewrite Hr. unfold ztake. apply take_nil.
    + by apply take_refuses.
Qed.

(** The buffer cut to the limit, and put back. *)
Lemma take_sliced b n : rb_ok b -> 0 <= n <= zlen (rb_buf b) - rb_filled b ->
  let s := RB.assume_init (RB.uninit (ztake n (RB.unfilled b)))
             (Z.min n (rb_initialized b - rb_filled b)) in
  rb_ok s /\ zlen (rb_buf s) = n.
Proof.
  intros [Hf Hi] Hn. simpl. unfold rb_ok, RB.unfilled, isize_max in *. simpl.
  rewrite zlen_ztake by (rewrite zlen_zdrop; lia). rewrite wrap_small by lia. lia.
Qed.

Lemma take_restored b n s : rb_ok b -> 0 <= n <= zlen (rb_buf b) - rb_filled b ->
  rb_ok s -> zlen (rb_buf s) = n ->
  let b1 := RB.set_unfilled b (rb_buf s ++ zdrop n (RB.unfilled b)) in
  rb_ok b1 /\ zlen (rb_buf b1) = zlen (rb_buf b) /\ filled_part b1 = filled_part b /\
  exists b2, RB.add_filled (RB.assume_init b1 (rb_initialized s)) (rb_filled s) = Val b2 /\
    rb_ok b2 /\ zlen (rb_buf b2) = zlen (rb_buf b) /\
    filled_part b2 = filled_part b ++ filled_part s /\ rb_filled b2 = rb_filled b + rb_filled s.
Proof.
  intros [Hf Hi] Hn [Hfs His] Hz. simpl.
  assert (zlen (RB.unfilled b) = zlen (rb_buf b) - rb_filled b) as Eu
    by (unfold RB.unfilled; rewrite zlen_zdrop; lia).
  assert (zlen (ztake (rb_filled b) (rb_buf b)) = rb_filled b) as Et by (rewrite zlen_ztake; lia).
  assert (zlen (ztake (rb_filled b) (rb_buf b) ++ rb_buf s ++ zdrop n (RB.unfilled b))
          = zlen (rb_buf b)) as El by (rewrite !zlen_app, Et, zlen_zdrop; lia).
  unfold rb_ok, filled_part, RB.add_filled, RB.set_filled, isize_max in *. simpl. rewrite El.
  split_and!; try lia.
  - rewrite <- Et at 1. apply ztake_app.
  - rewrite !wrap_small by lia.
    destruct (Z.leb_spec (rb_filled b + rb_filled s)
      (Z.max (rb_initialized b) (rb_filled b + rb_initialized s))); [|lia].
    eexists. split; [reflexivity|]. simpl. rewrite El. split_and!; try lia.
    rewrite <- (ztake_zdrop (rb_filled s) (rb_buf s)) at 1. rewrite <- app_assoc, app_assoc.
    rewrite <- (zlen_ztake (rb_filled s) (rb_buf s)) at 1 by lia. rewrite <- Et at 1.
    by rewrite <- zlen_app, ztake_app.
Qed.

Lemma take_read_buf_post t b : take_ok t -> rb_ok b ->
  read_buf_post take_ok take_rest take_stalls errs t b (Take_read_buf t b).
Proof.
  intros Ht Hb. unfold Take_read_buf. pose proof Ht as [Hi Hl]. pose proof Hb as [Hf Hz].
  rewrite (RB_remaining b Hb). unfold usize_max, u64_max, isize_max in *.
  destruct (Z.eqb_spec (tk_limit t) 0) as [E0|Hne].
  - split_and!; [done|done|]. exists []. split_and!; [by split_and!|by rewrite app_nil_r|unfold zlen; simpl; lia|].
    intros _. right. unfold take_rest. by rewrite E0.
  - destruct (Z.leb_spec (tk_limit t) (zlen (rb_buf b) - rb_filled b)) as [Hle|Hgt].
    + rewrite Z.min_l by lia. rewrite (proj2 (in_slice_spec _ _))
        by (unfold RB.unfilled; rewrite zlen_zdrop; lia).
      destruct (take_sliced b (tk_limit t) Hb ltac:(lia)) as [Hs Es].
      pose proof (stream_read_buf (tk_inner t) _ Hi Hs) as Hr.
      destruct (read_buf (tk_inner t) _) as [o [t' s]]. destruct Hr as (Os & Zs & Ho).
      rewrite Es in Zs.
      destruct (take_restored b (tk_limit t) s Hb ltac:(lia) Os Zs)
        as (O1 & Z1 & P1 & b2 & E2 & O2 & Z2 & P2 & F2).
      destruct o as [[]|e| | |]; try done; cbn [and_then].
      * rewrite E2. cbn [and_then]. destruct Ho as (d & Hd & Pd & Fd & He).
        simpl in Pd, Fd, He. split_and!; [done|done|]. exists d. rewrite P2, Pd.
        destruct Os as [? ?]. split_and!; [|done|lia|].
        -- rewrite Fd. apply take_delivers; [done|done|lia].
        -- intros E. destruct (He E) as [Hn|Hr]; [|right; unfold take_rest; rewrite Hr; apply take_nil].
           simpl in Es. lia.
      * destruct Ho as (Hr & _). split_and!; try done. by apply take_refuses.
    + pose proof (stream_read_buf (tk_inner t) b Hi Hb) as Hr.
      destruct (read_buf (tk_inner t) b) as [o [t' b']]. destruct Hr as (O' & Z' & Ho).
      destruct o as [[]|e| | |]; try done; cbn [and_then].
      * destruct Ho as (d & Hd & Pd & Fd & He). split_and!; [done|done|]. exists d.
        pose proof (zlen_nonneg d). destruct O' as [? ?]. split_and!; [|done|done|].
        -- replace (Z.max 0 (rb_filled b' - rb_filled b)) with (zlen d) by lia.
           apply take_delivers; [done|done|lia].
        -- intros E. destruct (He E) as [?|Hr]; [by left|right].
           unfold take_rest. rewrite Hr. apply take_nil.
      * destruct Ho as (Hr & ? & ?). split_and!; try done. by apply take_refuses.
Qed.

Lemma take_stream : Stream (Take T) take_ok take_rest take_stalls errs.
Proof.
  apply provided_stream; [apply take_read_post|apply take_read_buf_post|reflexivity..].
Qed.
End take.
