(* ===== verification/BufReader.v ===== *)
(** BufReader: sgx_tstd/src/io/buffered/bufreader.rs.

    A reader with a buffer in front of it is the same stream: [buffered_stream] (IoText)
    makes [BufReader R] a stream whose bytes are those of the buffer and then
    those of [R], for every [R] that is a stream. *)
From Stdlib Require Import ZArith Lia String Strings.Byte.
From stdpp Require Import base numbers list option tactics.
From S2P Require Import Prelude SgxStatus IoError IoBase IoStream IoReaders IoReaderSpecs.
Local Open Scope Z_scope.

Record BufReader (R : Type) := {
  br_inner : R;
  br_buf : list byte;
  br_pos : Z;
  br_cap : Z;
  br_init : Z
}.
Arguments br_inner {R}. Arguments br_buf {R}. Arguments br_pos {R}.
Arguments br_cap {R}. Arguments br_init {R}. Arguments Build_BufReader {R}.

Module BufReaderIo.
Section ops.
Context {R : Type} `{Read R}.

Definition with_capacity (capacity : Z) (inner : R) : BufReader R :=
  Build_BufReader inner (zeros (Z.to_nat capacity)) 0 0 0.
Definition new (inner : R) : BufReader R := with_capacity DEFAULT_BUF_SIZE inner.

Definition capacity (self : BufReader R) : Z := zlen (br_buf self).

(** [&self.buf[self.pos..self.cap]] *)
Definition buffer (self : BufReader R) : outcome (list byte) :=
  if (0 <=? br_pos self) && (br_pos self <=? br_cap self) && (br_cap self <=? zlen (br_buf self))
  then Val (ztake (br_cap self - br_pos self) (zdrop (br_pos self) (br_buf self)))
  else Panics.

Definition discard_buffer (self : BufReader R) : BufReader R :=
  Build_BufReader (br_inner self) (br_buf self) 0 0 (br_init self).

Definition set_inner (self : BufReader R) (r : R) : BufReader R :=
  Build_BufReader r (br_buf self) (br_pos self) (br_cap self) (br_init self).

Definition fill_buf (self : BufReader R) : outcome (list byte) * BufReader R :=
  if br_pos self >=? br_cap self then
    let readbuf := RB.assume_init (RB.uninit (br_buf self)) (br_init self) in
    let '(o, (r, readbuf)) := read_buf (br_inner self) readbuf in
    and_then o
      (Build_BufReader r (rb_buf readbuf) (br_pos self) (br_cap self) (br_init self))
      (fun _ =>
        let self := Build_BufReader r (rb_buf readbuf) 0 (rb_filled readbuf)
                      (rb_initialized readbuf) in
        (buffer self, self))
  else (buffer self, self).

Definition consume (self : BufReader R) (amt : Z) : BufReader R :=
  Build_BufReader (br_inner self) (br_buf self)
    (Z.min (wrap 64 (br_pos self + amt)) (br_cap self)) (br_cap self) (br_init self).

Definition read (self : BufReader R) (buf : list byte) : outcome Z * (BufReader R * list byte) :=
  if (br_pos self =? br_cap self) && (zlen buf >=? zlen (br_buf self)) then
    let self := discard_buffer self in
    let '(o, (r, buf)) := read (br_inner self) buf in
    (o, (set_inner self r, buf))
  else
    let '(o, self) := fill_buf self in
    and_then o (self, buf) (fun rem =>
      let '(o, (_, buf)) := SliceIo.read (Slice rem) buf in
      and_then o (self, buf) (fun nread => (Val nread, (consume self nread, buf)))).

Definition read_buf (self : BufReader R) (b : ReadBuf) : outcome unit * (BufReader R * ReadBuf) :=
  if (br_pos self =? br_cap self) && (RB.remaining b >=? zlen (br_buf self)) then
    let self := discard_buffer self in
    let '(o, (r, b)) := read_buf (br_inner self) b in
    (o, (set_inner self r, b))
  else
    let prev := rb_filled b in
    let '(o, self) := fill_buf self in
    and_then o (self, b) (fun rem =>
      let '(o, (_, b)) := SliceIo.read_buf (Slice rem) b in
      and_then o (self, b) (fun _ => (Val tt, (consume self (rb_filled b - prev), b)))).

Definition read_vectored (self : BufReader R) (bufs : list (list byte))
    : outcome Z * (BufReader R * list (list byte)) :=
  let total_len := foldr (fun b n => zlen b + n) 0 bufs in
  if (br_pos self =? br_cap self) && (total_len >=? zlen (br_buf self)) then
    let self := discard_buffer self in
    let '(o, (r, bufs)) := read_vectored (br_inner self) bufs in
    (o, (set_inner self r, bufs))
  else
    let '(o, self) := fill_buf self in
    and_then o (self, bufs) (fun rem =>
      let '(o, (_, bufs)) := SliceIo.read_vectored (Slice rem) bufs in
      and_then o (self, bufs) (fun nread => (Val nread, (consume self nread, bufs)))).

Definition read_exact (fuel : nat) (self : BufReader R) (buf : list byte)
    : outcome unit * (BufReader R * list byte) :=
  and_then (buffer self) (self, buf) (fun bs =>
    if zlen bs >=? zlen buf
    then (Val tt, (consume self (zlen buf), ztake (zlen buf) bs))
    else default_read_exact read fuel self buf).

Definition read_to_end (fuel : nat) (self : BufReader R) (v : Vec)
    : outcome Z * (BufReader R * Vec) :=
  let nread := br_cap self - br_pos self in
  and_then (buffer self) (self, v) (fun bs =>
    and_then (extend_from_slice v bs) (self, v) (fun v =>
      let self := discard_buffer self in
      let '(o, (r, v)) := read_to_end fuel (br_inner self) v in
      and_then o (set_inner self r, v) (fun n => (Val (nread + n), (set_inner self r, v))))).
End ops.

(** ** Seeking *)
Section seeks.
Context {R : Type} `{Seek R}.

Definition i64_min : Z := - 2 ^ 63.

Definition inner_seek (self : BufReader R) (pos : SeekFrom) : outcome Z * BufReader R :=
  let '(o, r) := seek (br_inner self) pos in (o, set_inner self r).

(** [n.checked_sub(remainder)]; [remainder] is not negative. *)
Definition seek (self : BufReader R) (pos : SeekFrom) : outcome Z * BufReader R :=
  let finish o (self : BufReader R) :=
    and_then o self (fun result : Z => (Val result, discard_buffer self)) in
  match pos with
  | Current n =>
      let remainder := br_cap self - br_pos self in
      if n - remainder >=? i64_min then
        let '(o, self) := inner_seek self (Current (n - remainder)) in finish o self
      else
        let '(o, self) := inner_seek self (Current (- remainder)) in
        and_then o self (fun _ =>
          let '(o, self) := inner_seek (discard_buffer self) (Current n) in finish o self)
  | _ => let '(o, self) := inner_seek self pos in finish o self
  end.

Definition set_pos (self : BufReader R) (pos : Z) : BufReader R :=
  Build_BufReader (br_inner self) (br_buf self) pos (br_cap self) (br_init self).

Definition seek_relative (self : BufReader R) (offset : Z) : outcome unit * BufReader R :=
  let pos := br_pos self in
  let far := let '(o, self) := seek self (Current offset) in
             and_then o self (fun _ => (Val tt, self)) in
  if offset <? 0 then
    if pos + offset >=? 0 then (Val tt, set_pos self (pos + offset)) else far
  else if (pos + offset <=? u64_max) && (pos + offset <=? br_cap self)
       then (Val tt, set_pos self (pos + offset)) else far.

Definition stream_position (self : BufReader R) : outcome Z * BufReader R :=
  let remainder := br_cap self - br_pos self in
  let '(o, r) := stream_position (br_inner self) in
  and_then o (set_inner self r) (fun pos =>
    if pos - remainder >=? 0 then (Val (pos - remainder), set_inner self r)
    else (Panics, set_inner self r)).
End seeks.
End BufReaderIo.

#[export] Instance buf_reader_reads {R} `{Read R} : Read (BufReader R) := {|
  read := BufReaderIo.read;
  read_buf := BufReaderIo.read_buf;
  read_vectored := BufReaderIo.read_vectored;
  read_exact := BufReaderIo.read_exact;
  read_to_end := BufReaderIo.read_to_end
|}.
#[export] Instance buf_reader_buf_reads {R} `{Read R} : BufRead (BufReader R) := {|
  fill_buf := BufReaderIo.fill_buf; consume := BufReaderIo.consume |}.
#[export] Instance buf_reader_seeks {R} `{Seek R} : Seek (BufReader R) := {|
  seek := BufReaderIo.seek |}.
