(* ===== verification/BufReaderSpecs.v ===== *)
(** BufReaderSpecs: a buffered reader is the stream it reads from.

    [BufStream] is what a reader with a buffer promises ([fill_buf], [consume]);
    [read_until] is proved against it. *)
From Stdlib Require Import ZArith Lia String Strings.Byte.
From stdpp Require Import base numbers list option tactics.
From S2P Require Import Prelude SgxStatus IoError IoBase IoStream IoReaders IoReaderSpecs BufReader.
Local Open Scope Z_scope.

Section buffered.
Context {R : Type} `{RR : Read R}.
Context (inv : R -> Prop) (rest : R -> list byte) (stalls : R -> nat) (errs : io_error -> Prop).
Context `{!Stream R inv rest stalls errs}.
Implicit Types (s : BufReader R).

Definition buffered s : list byte := ztake (br_cap s - br_pos s) (zdrop (br_pos s) (br_buf s)).

Definition br_ok s : Prop :=
  inv (br_inner s) /\ 0 <= br_pos s <= br_cap s /\ br_cap s <= br_init s /\
  br_init s <= zlen (br_buf s) <= isize_max.
Definition br_rest s : list byte := buffered s ++ rest (br_inner s).
Definition br_stalls s : nat := stalls (br_inner s).

Abbreviation br_delivers := (delivers br_ok br_rest br_stalls).
Abbreviation br_refuses := (refuses br_ok br_rest br_stalls errs).

Lemma buffer_ok s : br_ok s -> BufReaderIo.buffer s = Val (buffered s).
Proof.
  intros (_ & Hp & Hc & Hi). unfold BufReaderIo.buffer.
  destruct (Z.leb_spec 0 (br_pos s)); [|lia]. destruct (Z.leb_spec (br_pos s) (br_cap s)); [|lia].
  destruct (Z.leb_spec (br_cap s) (zlen (br_buf s))); [done|lia].
Qed.

Lemma zlen_buffered s : br_ok s -> zlen (buffered s) = br_cap s - br_pos s.
Proof.
  intros (_ & Hp & Hc & Hi). unfold buffered. rewrite zlen_ztake; [done|]. rewrite zlen_zdrop; lia.
Qed.

Lemma empty_buffer s : br_ok s -> br_pos s = br_cap s -> br_rest s = rest (br_inner s).
Proof. intros Hs E. unfold br_rest, buffered. rewrite E, Z.sub_diag. done. Qed.

(** Without its buffered bytes the reader is the inner one. *)
Lemma discarded_ok s r : br_ok s -> inv r ->
  br_ok (BufReaderIo.set_inner (BufReaderIo.discard_buffer s) r) /\
  br_rest (BufReaderIo.set_inner (BufReaderIo.discard_buffer s) r) = rest r.
Proof. intros (Hi & Hp & Hc & Hz) Hr. split; [split_and!; simpl; done || lia|done]. Qed.

Lemma direct_delivers s d r : br_ok s -> br_pos s = br_cap s ->
  delivers inv rest stalls (br_inner s) d r ->
  br_delivers s d (BufReaderIo.set_inner (BufReaderIo.discard_buffer s) r).
Proof.
  intros Hs E (Er & I & S). destruct (discarded_ok s r Hs I) as [Hok Hrest].
  split_and!; [|done|done]. by rewrite (empty_buffer s), Hrest.
Qed.

Lemma direct_refuses s e r : br_ok s -> br_pos s = br_cap s ->
  refuses inv rest stalls errs (br_inner s) e r ->
  br_refuses s e (BufReaderIo.set_inner (BufReaderIo.discard_buffer s) r).
Proof.
  intros Hs E (Er & I & S & X & Hi). destruct (discarded_ok s r Hs I) as [Hok Hrest].
  split_and!; try done. by rewrite (empty_buffer s), Hrest.
Qed.

Definition fill_post s (x : outcome (list byte) * BufReader R) : Prop :=
  let '(o, s') := x in
  match o with
  | Val b => br_delivers s [] s' /\ b = buffered s' /\ zlen (br_buf s') = zlen (br_buf s) /\
             (b = [] -> br_rest s = [] \/ zlen (br_buf s) = 0)
  | Bad e => br_refuses s e s' /\ zlen (br_buf s') = zlen (br_buf s)
  | _ => False
  end.

Lemma fill_buf_post s : br_ok s -> fill_post s (BufReaderIo.fill_buf s).
Proof.
  intros Hs. pose proof Hs as (Hi & Hp & Hc & Hz). unfold BufReaderIo.fill_buf.
  destruct (Z.geb_spec (br_pos s) (br_cap s)) as [Hge|Hlt].
  - assert (br_pos s = br_cap s) as Epc by lia.
    set (b0 := RB.assume_init (RB.uninit (br_buf s)) (br_init s)).
    assert (rb_ok b0) as Hb0.
    { unfold rb_ok, isize_max in *. simpl. rewrite wrap_small by lia. lia. }
    pose proof (stream_read_buf (br_inner s) b0 Hi Hb0) as Hr.
    destruct (read_buf (br_inner s) b0) as [o [r b]]. destruct Hr as ([Of Oi] & Zb & Ho).
    simpl in Zb. destruct o as [[]|e| | |]; try done; cbn [and_then].
    + destruct Ho as (d & (Er & I & S) & Pd & Fd & He). simpl in Pd, Fd, He.
      set (s' := Build_BufReader r (rb_buf b) 0 (rb_filled b) (rb_initialized b)).
      assert (br_ok s') as Hs' by (split_and!; simpl; done || lia).
      assert (buffered s' = d) as Eb.
      { unfold buffered. simpl. rewrite Z.sub_0_r, zdrop_0. exact Pd. }
      rewrite (buffer_ok s' Hs'), Eb. split_and!; [split_and!|done|done|].
      * rewrite (empty_buffer s Hs Epc). unfold br_rest. by rewrite Eb.
      * done.
      * done.
      * intros E. destruct (He E) as [Hn|Hn]; [by right|left]. by rewrite (empty_buffer s Hs Epc).
    + destruct Ho as ((Er & I & S & X & Hin) & _).
      split; [|done]. split_and!; [|split_and!; simpl; done || lia|done|done|done].
      rewrite (empty_buffer s Hs Epc). unfold br_rest, buffered. simpl.
      by rewrite Epc, Z.sub_diag, Er.
  - rewrite (buffer_ok s Hs). split_and!; [by split_and!|done|done|].
    intros E. apply (f_equal zlen) in E. rewrite (zlen_buffered s Hs) in E.
    unfold zlen in E. simpl in E. lia.
Qed.

Lemma consume_post s n : br_ok s -> 0 <= n <= zlen (buffered s) ->
  br_delivers s (ztake n (buffered s)) (BufReaderIo.consume s n).
Proof.
  intros Hs Hn. pose proof Hs as (Hi & Hp & Hc & Hz). rewrite (zlen_buffered s Hs) in Hn.
  assert (Z.min (wrap 64 (br_pos s + n)) (br_cap s) = br_pos s + n) as Ep.
  { unfold isize_max in *. rewrite wrap_small by lia. lia. }
  split_and!; [|split_and!; simpl; rewrite ?Ep; done || lia|done].
  unfold br_rest. rewrite app_assoc. f_equal. unfold buffered. simpl. rewrite Ep.
  rewrite <- (ztake_zdrop n (ztake _ _)) at 1. f_equal. unfold ztake, zdrop.
  rewrite skipn_firstn_comm, drop_drop. f_equal; [lia|]. f_equal. lia.
Qed.

Lemma buffered_slice_ok s : br_ok s -> slice_ok (Slice (buffered s)).
Proof.
  intros Hs. pose proof Hs as (_ & Hp & Hc & Hz). unfold slice_ok. simpl.
  rewrite (zlen_buffered s Hs). lia.
Qed.

(** A read served from the buffer after [fill_buf]. *)
Lemma served s s' d k : br_delivers s [] s' -> buffered s' = d ++ k ->
  br_delivers s d (BufReaderIo.consume s' (zlen d)).
Proof.
  intros Hd E. pose proof Hd as (_ & Hs' & _).
  apply (delivers_app br_ok br_rest br_stalls s [] s' d); [done|].
  pose proof (consume_post s' (zlen d) Hs') as Hc. rewrite E, ztake_app in Hc. apply Hc.
  rewrite zlen_app. pose proof (zlen_nonneg d). pose proof (zlen_nonneg k). lia.
Qed.

(** When the buffer is used, it can hold something. *)
Lemma buffered_end s n (s' : BufReader R) : br_ok s ->
  (br_pos s =? br_cap s) && (n >=? zlen (br_buf s)) = false -> 0 <= n ->
  (buffered s' = [] -> br_rest s = [] \/ zlen (br_buf s) = 0) ->
  buffered s' = [] -> br_rest s = [].
Proof.
  intros (_ & Hp & Hc & Hz) Hg Hn He E. destruct (He E) as [|E0]; [done|]. exfalso.
  destruct (Z.eqb_spec (br_pos s) (br_cap s)); [|lia]. simpl in Hg.
  destruct (Z.geb_spec n (zlen (br_buf s))); [done|lia].
Qed.

Lemma buffered_read_post s buf : br_ok s -> zlen buf <= isize_max ->
  read_post br_ok br_rest br_stalls errs s buf (BufReaderIo.read s buf).
Proof.
  intros Hs Hb. pose proof Hs as (Hi & _). unfold BufReaderIo.read.
  destruct ((br_pos s =? br_cap s) && (zlen buf >=? zlen (br_buf s))) eqn:Eg.
  - apply andb_true_iff in Eg as [Epc%Z.eqb_eq _].
    pose proof (stream_read (br_inner s) buf Hi Hb) as Hr. simpl.
    destruct (read (br_inner s) buf) as [o [r b]]. destruct Hr as [Hz Ho]. split; [done|].
    destruct o as [n|e| | |]; try done.
    + destruct Ho as (d & Hd & -> & Hp & He). exists d.
      split_and!; [by apply direct_delivers|done|done|].
      rewrite (empty_buffer s Hs Epc). done.
    + by apply direct_refuses.
  - pose proof (fill_buf_post s Hs) as Hf. destruct (BufReaderIo.fill_buf s) as [o s'].
    destruct o as [b|e| | |]; [|by destruct Hf|done..]; cbn [and_then].
    destruct Hf as (Hd & -> & Ez & He). pose proof Hd as (_ & Hs' & _).
    pose proof (slice_read_post _ buf (buffered_slice_ok s' Hs') Hb) as Hr.
    destruct (SliceIo.read _ buf) as [o [s2 b2]]. destruct Hr as [Hz Ho].
    destruct o as [n|e| | |]; [|by apply never_refuses in Ho|done..]. cbn [and_then].
    destruct Ho as (d & (E & _ & _) & -> & Hp & He2). simpl in E, He2.
    split; [done|]. exists d. split_and!; [by eapply served|done|done|].
    intros E0. destruct (He2 E0) as [?|Hnil]; [by left|right].
    eapply buffered_end; [done|exact Eg|apply zlen_nonneg|done|done].
Qed.

Lemma total_len_concat (bufs : list (list byte)) :
  foldr (fun b n => zlen b + n) 0 bufs = zlen (concat bufs).
Proof. induction bufs as [|b bufs IH]; [done|]. simpl. by rewrite IH, zlen_app. Qed.

Lemma buffered_read_buf_post s b : br_ok s -> rb_ok b ->
  read_buf_post br_ok br_rest br_stalls errs s b (BufReaderIo.read_buf s b).
Proof.
  intros Hs Hb. pose proof Hs as (Hi & _). unfold BufReaderIo.read_buf.
  rewrite (RB_remaining b Hb).
  destruct ((br_pos s =? br_cap s) && _) eqn:Eg.
  - apply andb_true_iff in Eg as [Epc%Z.eqb_eq _].
    pose proof (stream_read_buf (br_inner s) b Hi Hb) as Hr. simpl.
    destruct (read_buf (br_inner s) b) as [o [r b']]. destruct Hr as (Ob & Hz & Ho).
    split_and!; [done|done|]. destruct o as [n|e| | |]; try done.
    + destruct Ho as (d & Hd & Pd & Fd & He). exists d.
      split_and!; [by apply direct_delivers|done|done|]. by rewrite (empty_buffer s Hs Epc).
    + destruct Ho as (Hr & ? & ?). split_and!; [by apply direct_refuses|done|done].
  - pose proof (fill_buf_post s Hs) as Hf. destruct (BufReaderIo.fill_buf s) as [o s'].
    destruct o as [b1|e| | |]; [|by destruct Hf as [(? & ? & ? & ? & ?) _]|done..]; cbn [and_then].
    destruct Hf as (Hd & -> & Ez & He). pose proof Hd as (_ & Hs' & _).
    pose proof (slice_read_buf_post _ b (buffered_slice_ok s' Hs') Hb) as Hr.
    destruct (SliceIo.read_buf _ b) as [o [s2 b2]]. destruct Hr as (Ob & Hz & Ho).
    destruct o as [[]|e| | |]; [|by destruct Ho as [Ho%never_refuses _]|done..]. cbn [and_then].
    destruct Ho as (d & (E & _ & _) & Pd & Fd & He2). simpl in E, He2.
    split_and!; [done|done|]. exists d. replace (rb_filled b2 - rb_filled b) with (zlen d) by lia.
    split_and!; [by eapply served|done|done|].
    intros E0. destruct (He2 E0) as [?|Hnil]; [by left|right].
    eapply buffered_end; [done|exact Eg| |done|done]. destruct Hb as [? ?]. lia.
Qed.

Lemma buffered_read_exact_post fuel s buf : br_ok s -> zlen buf <= isize_max ->
  (length buf + br_stalls s < fuel)%nat ->
  exact_post br_ok br_rest br_stalls errs s buf (BufReaderIo.read_exact fuel s buf).
Proof.
  intros Hs Hb Hf. unfold BufReaderIo.read_exact. rewrite (buffer_ok s Hs). cbn [and_then].
  destruct (Z.geb_spec (zlen (buffered s)) (zlen buf)) as [Hge|Hlt].
  - pose proof (zlen_nonneg buf). split; [rewrite zlen_ztake; lia|]. apply consume_post; [done|lia].
  - by apply default_read_exact_post; [apply buffered_read_post|..].
Qed.

Lemma buffered_read_to_end_post fuel s v : br_ok s -> vec_ok v -> room v (br_rest s) ->
  (enough br_rest br_stalls s < fuel)%nat ->
  to_end_post br_ok br_rest br_stalls errs s v (BufReaderIo.read_to_end fuel s v).
Proof.
  intros Hs Hv Hroom Hf. pose proof Hs as (Hi & _). unfold BufReaderIo.read_to_end.
  rewrite (buffer_ok s Hs). cbn [and_then]. unfold room, br_rest in Hroom. rewrite zlen_app in Hroom.
  pose proof (zlen_nonneg (rest (br_inner s))) as Hn.
  destruct (extend_from_slice_ok v (buffered s)) as (v1 & -> & Hv1 & Hc1 & Hl1);
    [done|unfold room; lia|]. cbn [and_then].
  pose proof (stream_read_to_end fuel (br_inner s) v1 Hi Hv1) as Hr. simpl.
  destruct (read_to_end fuel (br_inner s) v1) as [o [r v2]].
  destruct Hr as [Hv2 Ho]; [unfold room; lia| |].
  { unfold enough, br_rest, br_stalls in Hf. rewrite length_app in Hf. unfold enough. lia. }
  destruct o as [n|e| | |]; try done; cbn [and_then]; (split; [done|]).
  - destruct Ho as ((Er & I & S) & -> & Hc2). destruct (discarded_ok s r Hs I) as [Hok Hrest].
    split_and!; [split_and!|unfold br_rest; by rewrite zlen_app, (zlen_buffered s Hs)|].
    + rewrite Hrest. unfold br_rest. by rewrite <- app_assoc, <- Er.
    + done.
    + done.
    + rewrite Hc2, Hc1. unfold br_rest. by rewrite app_assoc.
  - destruct Ho as (Hin & Hx & d & (Er & I & S) & Hc2). destruct (discarded_ok s r Hs I) as [Hok Hrest].
    split_and!; [done|done|]. exists (buffered s ++ d). split; [split_and!|].
    + rewrite Hrest. unfold br_rest. by rewrite Er, app_assoc.
    + done.
    + done.
    + by rewrite Hc2, Hc1, app_assoc.
Qed.

Lemma buffered_read_vectored_post `{!VecStream R inv rest stalls errs} s bufs : br_ok s ->
  zlen (concat bufs) <= isize_max ->
  vectored_post br_ok br_rest br_stalls errs s bufs (BufReaderIo.read_vectored s bufs).
Proof.
  intros Hs Hb. pose proof Hs as (Hi & _). unfold BufReaderIo.read_vectored.
  rewrite total_len_concat.
  destruct ((br_pos s =? br_cap s) && (zlen (concat bufs) >=? zlen (br_buf s))) eqn:Eg.
  - apply andb_true_iff in Eg as [Epc%Z.eqb_eq _].
    pose proof (stream_read_vectored (br_inner s) bufs Hi Hb) as Hr. simpl.
    destruct (read_vectored (br_inner s) bufs) as [o [r b]]. destruct Hr as [Hz Ho]. split; [done|].
    destruct o as [n|e| | |]; try done.
    + destruct Ho as (d & Hd & -> & Hp & He). exists d.
      split_and!; [by apply direct_delivers|done|done|]. by rewrite (empty_buffer s Hs Epc).
    + by apply direct_refuses.
  - pose proof (fill_buf_post s Hs) as Hf. destruct (BufReaderIo.fill_buf s) as [o s'].
    destruct o as [b|e| | |]; [|by destruct Hf|done..]; cbn [and_then].
    destruct Hf as (Hd & -> & Ez & He). pose proof Hd as (_ & Hs' & _).
    pose proof (slice_read_vectored_post bufs _ (buffered_slice_ok s' Hs') Hb) as Hr.
    destruct (SliceIo.read_vectored _ bufs) as [o [s2 b2]]. destruct Hr as [Hz Ho].
    destruct o as [n|e| | |]; [|by apply never_refuses in Ho|done..]. cbn [and_then].
    destruct Ho as (d & (E & _ & _) & -> & Hp & He2). simpl in E, He2.
    split; [done|]. exists d. split_and!; [by eapply served|done|done|].
    intros E0. destruct (He2 E0) as [?|Hnil]; [by left|right].
    eapply buffered_end; [done|exact Eg|apply zlen_nonneg|done|done].
Qed.

Lemma br_stream : Stream (BufReader R) br_ok br_rest br_stalls errs.
Proof.
  split; [apply buffered_read_post|apply buffered_read_buf_post|apply buffered_read_exact_post|
          apply buffered_read_to_end_post].
Qed.

Lemma new_buffered_ok capacity r : inv r -> 0 <= capacity <= isize_max ->
  br_ok (BufReaderIo.with_capacity capacity r) /\
  br_rest (BufReaderIo.with_capacity capacity r) = rest r.
Proof.
  intros Hr Hc. split; [|done]. split_and!; simpl; try done; rewrite zlen_zeros; lia.
Qed.
End buffered.

(** * Readers with a buffer *)
Class BufStream (R : Type) `{BufRead R} (inv : R -> Prop) (rest : R -> list byte)
    (stalls : R -> nat) (errs : io_error -> Prop) : Prop := {
  stream_fill_buf r : inv r ->
    let '(o, r') := fill_buf r in
    match o with
    | Val b => delivers inv rest stalls r [] r' /\ b `prefix_of` rest r' /\
               (b = [] -> rest r = []) /\
               forall n, 0 <= n <= zlen b ->
                 delivers inv rest stalls r' (ztake n b) (consume r' n)
    | Bad e => refuses inv rest stalls errs r e r'
    | _ => False
    end
}.

(** [BufReader] with a buffer that can hold something. *)
Lemma buffered_buf_stream {R} `{Read R} inv rest stalls errs `{!Stream R inv rest stalls errs} :
  BufStream (BufReader R) (fun s => br_ok inv s /\ 0 < zlen (br_buf s))
    (br_rest rest) (br_stalls stalls) errs.
Proof.
  split. intros s [Hs Hpos]. pose proof (fill_buf_post inv rest stalls errs s Hs) as Hf. simpl.
  destruct (BufReaderIo.fill_buf s) as [o s']. destruct o as [b|e| | |]; try done.
  - destruct Hf as (Hd & -> & Ez & He). pose proof Hd as (Er & Hs' & Sl).
    assert (0 < zlen (br_buf s')) by lia. split_and!; [by split_and!|by eexists| |].
    + intros E. destruct (He E); [done|lia].
    + intros n Hn. destruct (consume_post inv rest stalls s' n Hs' Hn) as (E & I & S).
      by split_and!.
  - destruct Hf as ((E & I & S & X & Hi) & Ez). split_and!; try done. lia.
Qed.

#[export] Instance slice_buf_stream : BufStream slice slice_ok sl no_stalls no_errs.
Proof.
  split. intros s Hs. simpl. split_and!; [by split_and!|done|done|].
  intros n Hn. split_and!; simpl; [by rewrite ztake_zdrop| |done].
  unfold slice_ok in *. simpl. rewrite zlen_zdrop; lia.
Qed.

(** * Reading up to a delimiter *)

(** Everything to the first delimiter, with it; everything if there is none. *)
Definition upto (delim : byte) (s : list byte) : list byte :=
  match memchr delim s with Some i => ztake (i + 1) s | None => s end.

Lemma memchr_range delim l i : memchr delim l = Some i -> 0 <= i < zlen l.
Proof.
  unfold memchr. destruct (list_find _ l) as [[j x]|] eqn:E; [|done]. intros [= <-].
  apply list_find_Some in E as (Hj%lookup_lt_Some & _). unfold zlen. lia.
Qed.

Lemma memchr_app delim l k : memchr delim (l ++ k) =
  match memchr delim l with Some i => Some i | None => option_map (fun i => zlen l + i) (memchr delim k) end.
Proof.
  unfold memchr. induction l as [|x l IH]; simpl.
  - destruct (list_find _ k) as [[i y]|]; simpl; [|done]. f_equal.
  - case_decide; [done|]. destruct (list_find (fun y => y = delim) (l ++ k)) as [[i y]|],
      (list_find (fun y => y = delim) l) as [[j z]|], (list_find (fun y => y = delim) k) as [[m u]|];
      simpl in *; simplify_eq; try done; f_equal; unfold zlen in *; simpl; lia.
Qed.

Lemma upto_found delim l k i : memchr delim l = Some i -> upto delim (l ++ k) = ztake (i + 1) l.
Proof.
  intros E. unfold upto. rewrite memchr_app, E. apply ztake_app_le.
  pose proof (memchr_range _ _ _ E). lia.
Qed.

Lemma upto_absent delim l k : memchr delim l = None -> upto delim (l ++ k) = l ++ upto delim k.
Proof.
  intros E. unfold upto. rewrite memchr_app, E. destruct (memchr delim k) as [i|] eqn:Ek; [|done].
  simpl. pose proof (memchr_range _ _ _ Ek). unfold ztake. rewrite take_app.
  rewrite take_ge by (unfold zlen; lia). f_equal. f_equal. unfold zlen. lia.
Qed.

Section read_until.
Context {R : Type} `{BufRead R} (inv : R -> Prop) (rest : R -> list byte) (stalls : R -> nat)
  (errs : io_error -> Prop) `{!BufStream R inv rest stalls errs}.

Definition until_post (n : Z) (r : R) (delim : byte) (buf : list byte)
    (x : outcome Z * (R * list byte)) : Prop :=
  let '(o, (r', buf')) := x in
  match o with
  | Val m => delivers inv rest stalls r (upto delim (rest r)) r' /\
             buf' = buf ++ upto delim (rest r) /\ m = n + zlen (upto delim (rest r))
  | Bad e => interrupted e = false /\ errs e /\
             exists d, delivers inv rest stalls r d r' /\ buf' = buf ++ d /\
                       d `prefix_of` upto delim (rest r)
  | _ => False
  end.

(** After bytes without a delimiter. *)
Lemma until_post_app n r d r1 delim buf x : delivers inv rest stalls r d r1 ->
  memchr delim d = None -> until_post (n + zlen d) r1 delim (buf ++ d) x ->
  until_post n r delim buf x.
Proof.
  intros Hd Hm. destruct x as [o [r' buf']]. pose proof Hd as (Er & _ & _).
  unfold until_post. rewrite Er, upto_absent by done. destruct o as [m|e| | |]; try done.
  - intros (Hd1 & -> & ->). split_and!; [by eapply delivers_app|by rewrite app_assoc|].
    rewrite zlen_app. lia.
  - intros (Hi & Hx & d1 & Hd1 & -> & Hp). split_and!; [done|done|]. exists (d ++ d1).
    split_and!; [by eapply delivers_app|by rewrite app_assoc|by apply prefix_app].
Qed.

Lemma read_until_loop_post fuel : forall r delim buf n, inv r ->
  (enough rest stalls r <= fuel)%nat ->
  until_post n r delim buf (read_until_loop fuel r delim buf n).
Proof.
  induction fuel as [|fuel IH]; intros r delim buf n Hr Hf; [unfold enough in Hf; lia|]. simpl.
  pose proof (stream_fill_buf r Hr) as Hb. destruct (fill_buf r) as [o r1].
  destruct o as [b|e| | |]; try done; cbn [or_retry and_then].
  - destruct Hb as (Hd0 & [k Hk] & He & Hc).
    destruct (memchr delim b) as [i|] eqn:Em.
    + pose proof (memchr_range _ _ _ Em) as Hi. cbn [orb]. pose proof Hd0 as (E0 & _ & _).
      simpl in E0. specialize (Hc (i + 1) ltac:(lia)).
      pose proof (delivers_app _ _ _ _ _ _ _ _ Hd0 Hc) as Hd. simpl in Hd.
      unfold until_post. rewrite E0, Hk, (upto_found _ _ _ _ Em). split_and!; [done|done|].
      rewrite zlen_ztake; lia.
    + specialize (Hc (zlen b)). pose proof (zlen_nonneg b). rewrite ztake_all in Hc by lia.
      pose proof (delivers_app _ _ _ _ _ _ _ _ Hd0 (Hc ltac:(lia))) as Hd. simpl in Hd.
      destruct (Z.eqb_spec (zlen b) 0) as [Ez|Hne]; cbn [orb].
      * apply zlen_nil_inv in Ez. subst b. unfold until_post. rewrite (He eq_refl).
        split_and!; done || (unfold upto, zlen; simpl; lia).
      * eapply until_post_app; [exact Hd|done|]. pose proof Hd as (_ & I1 & _). apply IH; [done|].
        assert (enough rest stalls (consume r1 (zlen b)) < enough rest stalls r)%nat; [|lia].
        eapply enough_less; [exact Hd|]. by intros ->.
  - pose proof Hb as (E1 & I1 & S1 & X1 & Hs). destruct (interrupted e) eqn:Ei.
    + specialize (Hs eq_refl).
      eapply (until_post_app n r [] r1); [by eapply refuses_delivers|done|].
      rewrite app_nil_r. change (zlen []) with 0. rewrite Z.add_0_r. apply IH; [done|].
      unfold enough in *. rewrite E1. lia.
    + split_and!; [done|done|]. exists []. split_and!; [by eapply refuses_delivers|by rewrite app_nil_r|].
      apply prefix_nil.
Qed.

(** C39. [read_until], for any reader with a buffer and any size of the pieces it
    is filled with: it takes from the stream and appends to the vector exactly
    the bytes up to and including the first delimiter, or all that is left when
    there is none; only an error of the reader stops it earlier; it ends. *)
Theorem read_until_spec fuel r delim buf : inv r -> (enough rest stalls r <= fuel)%nat ->
  until_post 0 r delim buf (read_until fuel r delim buf).
Proof. apply read_until_loop_post. Qed.
End read_until.

(** Two bytes at a time, up to a line feed. *)
Lemma read_until_spec_witness :
  let r := BufReaderIo.with_capacity 2 (Slice [Byte.x61; Byte.x62; Byte.x63; Byte.x0a; Byte.x64]) in
  until_post (fun s => br_ok slice_ok s /\ 0 < zlen (br_buf s)) (br_rest sl) (br_stalls no_stalls)
    no_errs 0 r Byte.x0a [] (read_until 8 r Byte.x0a []) /\
  (read_until 8 r Byte.x0a []).2.2 = [Byte.x61; Byte.x62; Byte.x63; Byte.x0a].
Proof.
  split; [|vm_compute; reflexivity]. pose proof (buffered_buf_stream (R := slice) slice_ok sl no_stalls no_errs).
  apply (read_until_spec _ _ _ _); [|vm_compute; lia].
  split; [|done]. apply (new_buffered_ok _ sl); unfold slice_ok, isize_max, zlen; simpl; lia.
Defined.
