(* ===== verification/IoSeek.v ===== *)
(** IoSeek: seeking through a buffered reader.

    [SeekStream] is what a reader with a position promises: its bytes are
    [content], and what it still delivers is [content] from [position] on.  A
    [BufReader] over it is ahead of its caller by the bytes in its buffer:
    [br_position].  [buffered_seek]: seeking moves the caller's position, although
    the code moves the inner reader by another distance, and [seek_relative] may
    stay within the buffer. *)
From Stdlib Require Import ZArith Lia String Strings.Byte.
From stdpp Require Import base numbers list option tactics.
From S2P Require Import Prelude SgxStatus IoError IoBase IoStream IoReaders IoReaderSpecs BufReader.
From S2P Require Import BufReaderSpecs.
Local Open Scope Z_scope.

(** [Start] takes a [u64], the others an [i64]. *)
Definition seek_ok (p : SeekFrom) : Prop :=
  match p with Start n => 0 <= n <= u64_max | End n | Current n => - 2 ^ 63 <= n < 2 ^ 63 end.

(** Where a seek goes, from position [pos] in [content]. *)
Definition target (content : list byte) (pos : Z) (p : SeekFrom) : Z :=
  match p with Start n => n | End n => zlen content + n | Current n => pos + n end.

Class SeekStream (R : Type) `{Read R} `{Seek R} (inv : R -> Prop) (rest : R -> list byte)
    (content : R -> list byte) (position : R -> Z) : Prop := {
  seek_range r : inv r -> 0 <= position r <= u64_max;
  seek_rest r : inv r -> rest r = zdrop (position r) (content r);
  seek_moves r p : inv r -> seek_ok p ->
    let '(o, r') := seek r p in
    inv r' /\ content r' = content r /\
    match o with
    | Val n => n = target (content r) (position r) p /\ position r' = n
    | Bad e => position r' = position r
    | _ => False
    end;
  seek_reads r b : inv r -> rb_ok b ->
    let '(o, (r', b')) := read_buf r b in
    content r' = content r /\
    match o with
    | Val _ => position r' = position r + (rb_filled b' - rb_filled b)
    | _ => True
    end
}.

Section buffered.
Context {R : Type} `{RR : Read R} `{SR : Seek R}.
Context (inv : R -> Prop) (rest : R -> list byte) (stalls : R -> nat) (errs : io_error -> Prop)
  (content : R -> list byte) (position : R -> Z).
Context `{!Stream R inv rest stalls errs} `{!SeekStream R inv rest content position}.
Implicit Types (s : BufReader R).

Abbreviation ok := (br_ok inv).
Definition br_content s : list byte := content (br_inner s).
Definition br_position s : Z := position (br_inner s) - (br_cap s - br_pos s).

(** The buffer holds the bytes before the inner reader's position. *)
Definition window s : Prop :=
  br_cap s <= position (br_inner s) /\
  ztake (br_cap s) (br_buf s) = ztake (br_cap s) (zdrop (position (br_inner s) - br_cap s) (br_content s)).

Lemma zdrop_ztake {A} n m (l : list A) : 0 <= n <= m -> ztake (m - n) (zdrop n l) = zdrop n (ztake m l).
Proof. intros. unfold ztake, zdrop. rewrite skipn_firstn_comm. f_equal. lia. Qed.

(** What the caller still reads starts at its position. *)
Lemma window_rest s : ok s -> window s -> br_rest rest s = zdrop (br_position s) (br_content s).
Proof.
  intros (Hi & Hp & Hin & Hb) [Hc Hw]. unfold br_rest, buffered.
  rewrite zdrop_ztake, Hw, <- zdrop_ztake, zdrop_zdrop, (seek_rest (br_inner s)) by (done || lia).
  fold (br_content s).
  replace (position (br_inner s) - br_cap s + br_pos s) with (br_position s)
    by (unfold br_position; lia).
  rewrite <- (ztake_zdrop (br_cap s - br_pos s) (zdrop (br_position s) (br_content s))) at 2.
  f_equal. unfold br_position. rewrite zdrop_zdrop by lia. f_equal. lia.
Qed.

(** The buffer thrown away. *)
Lemma discarded s r : ok s -> inv r -> 0 <= position r ->
  let s' := BufReaderIo.discard_buffer (BufReaderIo.set_inner s r) in
  ok s' /\ window s' /\ br_position s' = position r /\ br_rest rest s' = rest r.
Proof.
  intros Hs Hr Hp s'. destruct (discarded_ok inv rest s r Hs Hr) as [Hok Hrest].
  split_and!; [done|by split| |done]. unfold br_position. simpl. lia.
Qed.

(** A reader moved to [n], nothing buffered. *)
Definition at_position s (n : Z) s' : Prop :=
  ok s' /\ window s' /\ br_content s' = br_content s /\ br_position s' = n /\
  br_rest rest s' = zdrop n (br_content s).

Definition seek_post s (p : SeekFrom) (x : outcome Z * BufReader R) : Prop :=
  let '(o, s') := x in
  match o with
  | Val n => n = target (br_content s) (br_position s) p /\ at_position s n s' /\
             position (br_inner s') = n
  | Bad e => at_position s (br_position s) s'
  | _ => False
  end.

Lemma at_position_here s : ok s -> window s -> at_position s (br_position s) s.
Proof. intros Hs Hw. split_and!; try done. by apply window_rest. Qed.

(** One seek of the inner reader, then the buffer is dropped. *)
Lemma inner_seek_post s p q : ok s -> window s -> seek_ok q ->
  target (br_content s) (position (br_inner s)) q = target (br_content s) (br_position s) p ->
  seek_post s p
    (let '(o, s1) := BufReaderIo.inner_seek s q in
     and_then o s1 (fun n : Z => (Val n, BufReaderIo.discard_buffer s1))).
Proof.
  intros Hs Hw Hq Ht. pose proof Hs as (Hi & _). unfold BufReaderIo.inner_seek.
  pose proof (seek_moves (br_inner s) q Hi Hq) as Hm. destruct (seek (br_inner s) q) as [o r].
  destruct Hm as (Hr & Ec & Ho). pose proof (seek_range r Hr) as Hrange.
  destruct o as [n|e| | |]; try done; cbn [and_then seek_post].
  - destruct Ho as [-> Ep]. destruct (discarded s r Hs Hr ltac:(lia)) as (Hok & Hwin & Hpos & Hrest).
    split_and!; [exact Ht| |done]. split_and!; [done|done|exact Ec|by rewrite Hpos|].
    rewrite Hrest, (seek_rest r Hr), Ep. unfold br_content. by rewrite Ec.
  - assert (ok (BufReaderIo.set_inner s r) /\ window (BufReaderIo.set_inner s r)) as [Hok Hwin].
    { destruct Hs as (? & ? & ? & ?). split; [unfold br_ok; simpl; split_and!; done || lia|]. unfold window, br_content in *. simpl.
      by rewrite Ec, Ho. }
    assert (br_position (BufReaderIo.set_inner s r) = br_position s) as Epos
      by (unfold br_position; simpl; lia).
    split_and!; [done|done|exact Ec|done|]. rewrite window_rest, Epos by done.
    unfold br_content. simpl. by rewrite Ec.
Qed.

(** A seek from a state at the same position. *)
Lemma seek_post_from s s1 p x : at_position s (br_position s) s1 -> seek_post s1 p x ->
  seek_post s p x.
Proof.
  intros (_ & _ & Ec & Ep & _). destruct x as [o s2]. unfold seek_post, at_position.
  by rewrite Ec, Ep.
Qed.

Lemma seek_spec s p : ok s -> window s -> seek_ok p -> seek_post s p (BufReaderIo.seek s p).
Proof.
  intros Hs Hw Hk. destruct p as [n|n|n]; [by apply inner_seek_post..|].
  pose proof Hs as (_ & Hp & Hin & Hb). simpl in Hk. unfold isize_max in Hb.
  unfold BufReaderIo.seek. set (k := br_cap s - br_pos s).
  destruct (Z.geb_spec (n - k) BufReaderIo.i64_min) as [Hge|Hlt]; unfold BufReaderIo.i64_min in *.
  - apply inner_seek_post; [done|done|simpl; lia|]. unfold target, br_position. lia.
  - pose proof (inner_seek_post s (Current 0) (Current (- k)) Hs Hw ltac:(simpl; lia)) as H1.
    specialize (H1 ltac:(unfold target, br_position, k; lia)).
    destruct (BufReaderIo.inner_seek s (Current (- k))) as [o s1].
    destruct o as [m|e| | |]; try done; cbn [and_then] in *. destruct H1 as (Em & Hat & _).
    simpl in Em. rewrite Z.add_0_r in Em. subst m.
    eapply seek_post_from; [exact Hat|]. destruct Hat as (Hok & Hwin & _).
    apply inner_seek_post; [done|done|done|]. unfold target, br_position. simpl. lia.
Qed.

(** Within the buffer only the offset changes. *)
Lemma seek_within s n : ok s -> window s -> 0 <= n <= br_cap s ->
  at_position s (br_position s + (n - br_pos s)) (BufReaderIo.set_pos s n).
Proof.
  intros (Hi & Hp & Hin & Hb) Hw Hn.
  assert (ok (BufReaderIo.set_pos s n)) as Hok by (unfold br_ok; simpl; split_and!; done || lia).
  assert (br_position (BufReaderIo.set_pos s n) = br_position s + (n - br_pos s)) as Ep
    by (unfold br_position; simpl; lia).
  split_and!; [done|done|done|done|]. by rewrite window_rest, Ep.
Qed.

Definition relative_post s (offset : Z) (x : outcome unit * BufReader R) : Prop :=
  let '(o, s') := x in
  match o with
  | Val _ => at_position s (br_position s + offset) s'
  | Bad e => at_position s (br_position s) s'
  | _ => False
  end.

Lemma seek_relative_spec s offset : ok s -> window s -> seek_ok (Current offset) ->
  relative_post s offset (BufReaderIo.seek_relative s offset).
Proof.
  intros Hs Hw Hk. pose proof Hs as (Hi & Hp & Hin & Hb).
  assert (relative_post s offset (let '(o, s1) := BufReaderIo.seek s (Current offset) in
            and_then o s1 (fun _ : Z => (Val tt, s1)))) as Hfar.
  { pose proof (seek_spec s (Current offset) Hs Hw Hk) as Hx.
    destruct (BufReaderIo.seek s (Current offset)) as [o s1]. destruct o as [n|e| | |]; try done.
    destruct Hx as (-> & Hat & _). exact Hat. }
  pose proof (fun n => seek_within s n Hs Hw) as Hnear. unfold BufReaderIo.seek_relative.
  specialize (Hnear (br_pos s + offset)). rewrite Z.add_simpl_l in Hnear.
  destruct (Z.ltb_spec offset 0).
  - destruct (Z.geb_spec (br_pos s + offset) 0); [|exact Hfar]. apply Hnear. lia.
  - destruct (Z.leb_spec (br_pos s + offset) u64_max); [|exact Hfar].
    destruct (Z.leb_spec (br_pos s + offset) (br_cap s)); [|exact Hfar]. apply Hnear. lia.
Qed.

(** The next bytes from the inner reader. *)
Lemma fill_keeps_window s : ok s -> window s ->
  let '(o, s') := BufReaderIo.fill_buf s in
  match o with
  | Val _ => window s' /\ br_content s' = br_content s /\ br_position s' = br_position s
  | _ => True
  end.
Proof.
  intros Hs Hw. pose proof (fill_buf_post inv rest stalls errs s Hs) as Hpost. revert Hpost.
  unfold BufReaderIo.fill_buf. pose proof Hs as (Hi & Hp & Hin & Hb).
  destruct (Z.geb_spec (br_pos s) (br_cap s)); [|by rewrite (buffer_ok inv) by done].
  set (b := RB.assume_init _ _).
  assert (rb_ok b) as Hok.
  { unfold rb_ok, isize_max in *. simpl. rewrite wrap_small; lia. }
  pose proof (seek_reads (br_inner s) b Hi Hok) as Hm.
  pose proof (stream_read_buf (br_inner s) b Hi Hok) as Hr.
  destruct (read_buf (br_inner s) b) as [o [r b']]. destruct Hm as [Ec Hm].
  destruct Hr as ([Hf' Hi'] & Ez & Hr). destruct o as [[]|e| | |]; try done; cbn [and_then].
  set (s' := Build_BufReader _ _ _ _ _). intros _. destruct (BufReaderIo.buffer s'); try done.
  destruct Hr as (d & (Er & Ir & _) & Efp & Efl & _). simpl in Hm, Efl.
  pose proof (seek_range (br_inner s) Hi). pose proof (zlen_nonneg d).
  split_and!; [|exact Ec|unfold br_position; simpl; lia]. split; [simpl; lia|].
  unfold br_content. simpl. rewrite Hm, Efl, Ec. 
  change (filled_part b) with (@nil byte) in Efp. unfold filled_part in Efp. simpl in Efp.
  rewrite Efl in Efp. rewrite Z.add_0_l in *. rewrite Efp.
  rewrite (seek_rest (br_inner s)) in Er by done.
  replace (position (br_inner s) + (zlen d - 0) - zlen d) with (position (br_inner s)) by lia.
  rewrite Er. by rewrite ztake_app.
Qed.

(** Seeking in a buffered reader: over any reader with a position, [seek]
    from the start, the end or the caller's position (which the inner reader is
    ahead of by what is buffered) takes the caller to the position it names, and
    returns it; afterwards the inner reader is there too; [seek_relative] goes to
    the same place and may keep the buffer; what is read next is the content from
    there on, and a seek that fails moves the caller nowhere, also when the first
    of its two steps has been taken.  What a seek relies on ([window]: the buffer
    holds the bytes before the inner reader's position) is kept by [fill_buf],
    which does not move the caller, and by [consume], which does. *)
Theorem buffered_seek s p : ok s -> window s -> seek_ok p ->
  seek_post s p (BufReaderIo.seek s p) /\
  match p with
  | Current offset => relative_post s offset (BufReaderIo.seek_relative s offset)
  | _ => True
  end /\
  (let '(o, s') := BufReaderIo.fill_buf s in
   match o with
   | Val _ => window s' /\ br_content s' = br_content s /\ br_position s' = br_position s
   | _ => True
   end) /\
  (forall n, 0 <= n <= br_cap s - br_pos s ->
     window (BufReaderIo.consume s n) /\ br_position (BufReaderIo.consume s n) = br_position s + n).
Proof.
  intros Hs Hw Hp. split_and!; [by apply seek_spec| |by apply fill_keeps_window|].
  - destruct p; try done. by apply seek_relative_spec.
  - intros n Hn. split; [done|]. destruct Hs as (_ & Hpos & Hin & Hb). unfold isize_max in Hb.
    unfold br_position. simpl. rewrite wrap_small by lia. lia.
Qed.
End buffered.

(** * Cursors *)
#[export] Instance cursor_seek_stream :
  SeekStream Cursor cursor_ok CursorIo.remaining_slice cu_inner cu_pos.
Proof.
  split.
  - by intros c [Hc _].
  - intros c [Hp Hl]. unfold CursorIo.remaining_slice.
    destruct (Z.min_spec (cu_pos c) (zlen (cu_inner c))) as [[_ ->]|[? ->]]; [done|].
    by rewrite !zdrop_all by lia.
  - intros c p [Hp Hl] Hk. simpl. unfold CursorIo.seek, cursor_ok, target, seek_ok in *.
    destruct p as [n|n|n]; [simpl; split_and!; done || lia|..];
      (destruct ((0 <=? _) && _) eqn:E; [|split_and!; done || lia];
       apply andb_true_iff in E as [E1 E2]; simpl; split_and!; done || lia).
  - intros c b Hc Hb. pose proof (cursor_read_buf_post c b Hc Hb) as Hr. revert Hr. simpl.
    unfold CursorIo.read_buf. destruct (SliceIo.read_buf _ b) as [o [s b']].
    destruct o as [[]|e| | |]; simpl; try done. intros (_ & _ & d & (Hd & _ & _) & _ & -> & _).
    split; [done|]. rewrite Z.add_simpl_l. pose proof (zlen_nonneg d). destruct Hc as [Hp Hl].
    assert (zlen d <= zlen (CursorIo.remaining_slice c)) as Hz
      by (apply prefix_zlen; rewrite Hd; by eexists).
    pose proof (zlen_nonneg (cu_inner c)). unfold CursorIo.remaining_slice in Hz.
    rewrite zlen_zdrop in Hz by lia. unfold u64_max, isize_max in *.
    apply wrap_small. destruct (decide (zlen d = 0)); lia.
Qed.

(** Two of four buffered bytes taken, then one step back. *)
Definition abcde : Cursor :=
  {| cu_inner := [Byte.x61; Byte.x62; Byte.x63; Byte.x64; Byte.x65]; cu_pos := 0 |}.
Definition two_taken : BufReader Cursor :=
  BufReaderIo.consume (BufReaderIo.fill_buf (BufReaderIo.with_capacity 4 abcde)).2 2.

Lemma buffered_seek_witness :
  seek_post cursor_ok CursorIo.remaining_slice cu_inner cu_pos two_taken (Current (-1))
    (BufReaderIo.seek two_taken (Current (-1))) /\
  (BufReaderIo.seek two_taken (Current (-1))).1 = Val 1 /\
  (BufReaderIo.fill_buf (BufReaderIo.seek_relative two_taken (-1)).2).1
  = Val [Byte.x62; Byte.x63; Byte.x64].
Proof.
  split_and!; [|vm_compute; reflexivity|vm_compute; reflexivity].
  apply (buffered_seek (R := Cursor) cursor_ok CursorIo.remaining_slice no_stalls no_errs
           cu_inner cu_pos).
  - unfold br_ok, cursor_ok, u64_max, isize_max. vm_compute. split_and!; discriminate.
  - split; [vm_compute; discriminate|reflexivity].
  - done.
Defined.
