(* ===== verification/BufWriter.v ===== *)
(** BufWriter: sgx_tstd/src/io/buffered/bufwriter.rs, linewriter.rs and
    linewritershim.rs.

    [write_to_buffer_unchecked] is unsafe: beyond the vector's capacity it is
    [UB].  A panic of the inner writer leaves [panicked] set; [BufGuard]'s
    destructor runs on every way out of [flush_buf]. *)
From Stdlib Require Import ZArith Lia String Strings.Byte.
From stdpp Require Import base numbers list option tactics.
From S2P Require Import Prelude SgxStatus IoError IoBase.
Local Open Scope Z_scope.

Record BufWriter (W : Type) := {
  bw_inner : W;
  bw_buf : list byte;
  bw_capacity : Z;
  bw_panicked : bool
}.
Arguments bw_inner {W}. Arguments bw_buf {W}. Arguments bw_capacity {W}.
Arguments bw_panicked {W}. Arguments Build_BufWriter {W}.

Definition flush_zero_error : io_error :=
  SimpleMessage WriteZero "failed to write the buffered data".

Module BufWriterIo.
Section ops.
Context {W : Type} `{Write W}.

Definition with_capacity (capacity : Z) (inner : W) : BufWriter W :=
  Build_BufWriter inner [] capacity false.
Definition new (inner : W) : BufWriter W := with_capacity DEFAULT_BUF_SIZE inner.

Definition spare_capacity (self : BufWriter W) : Z := bw_capacity self - zlen (bw_buf self).

Definition set_inner (self : BufWriter W) (w : W) (panicked : bool) : BufWriter W :=
  Build_BufWriter w (bw_buf self) (bw_capacity self) panicked.
Definition set_buf (self : BufWriter W) (buf : list byte) : BufWriter W :=
  Build_BufWriter (bw_inner self) buf (bw_capacity self) (bw_panicked self).

(** A call of the inner writer between [panicked = true] and [panicked = false]. *)
Definition guarded {A} (self : BufWriter W) (r : outcome A * W) : outcome A * BufWriter W :=
  let '(o, w) := r in
  (o, set_inner self w (match o with Panics => true | _ => false end)).

(** The loop of [flush_buf]; the last component is [guard.written]. *)
Fixpoint flush_loop (fuel : nat) (self : BufWriter W) (written : Z)
    : outcome unit * (BufWriter W * Z) :=
  if written >=? zlen (bw_buf self) then (Val tt, (self, written))
  else
    match fuel with
    | O => (NoFuel, (self, written))
    | S fuel =>
        let '(o, self) := guarded self (write fuel (bw_inner self) (zdrop written (bw_buf self))) in
        or_retry o (self, written) (flush_loop fuel self written) (fun n =>
          if n =? 0 then (Bad flush_zero_error, (self, written))
          else flush_loop fuel self (written + n))
    end.

(** [Drop for BufGuard] *)
Definition drop_guard (self : BufWriter W) (written : Z) : outcome (BufWriter W) :=
  if written >? 0 then
    if in_slice written (bw_buf self) then Val (set_buf self (zdrop written (bw_buf self)))
    else Panics
  else Val self.

Definition flush_buf (fuel : nat) (self : BufWriter W) : outcome unit * BufWriter W :=
  let '(o, (self, written)) := flush_loop fuel self 0 in
  and_then (drop_guard self written) self (fun self => (o, self)).

Definition write_to_buffer_unchecked (self : BufWriter W) (buf : list byte)
    : outcome (BufWriter W) :=
  if zlen buf <=? spare_capacity self then Val (set_buf self (bw_buf self ++ buf)) else UB.

Definition write_to_buf (self : BufWriter W) (buf : list byte) : outcome Z * BufWriter W :=
  let amt_to_buffer := Z.min (spare_capacity self) (zlen buf) in
  and_then (write_to_buffer_unchecked self (ztake amt_to_buffer buf)) self (fun self =>
    (Val amt_to_buffer, self)).

Definition write_cold (fuel : nat) (self : BufWriter W) (buf : list byte)
    : outcome Z * BufWriter W :=
  let '(o, self) := if zlen buf >? spare_capacity self then flush_buf fuel self
                    else (Val tt, self) in
  and_then o self (fun _ =>
    if zlen buf >=? bw_capacity self then guarded self (write fuel (bw_inner self) buf)
    else and_then (write_to_buffer_unchecked self buf) self (fun self => (Val (zlen buf), self))).

Definition write_all_cold (fuel : nat) (self : BufWriter W) (buf : list byte)
    : outcome unit * BufWriter W :=
  let '(o, self) := if zlen buf >? spare_capacity self then flush_buf fuel self
                    else (Val tt, self) in
  and_then o self (fun _ =>
    if zlen buf >=? bw_capacity self then guarded self (write_all fuel (bw_inner self) buf)
    else and_then (write_to_buffer_unchecked self buf) self (fun self => (Val tt, self))).

Definition write_bw (fuel : nat) (self : BufWriter W) (buf : list byte)
    : outcome Z * BufWriter W :=
  if zlen buf <? spare_capacity self then
    and_then (write_to_buffer_unchecked self buf) self (fun self => (Val (zlen buf), self))
  else write_cold fuel self buf.

Definition write_all_bw (fuel : nat) (self : BufWriter W) (buf : list byte)
    : outcome unit * BufWriter W :=
  if zlen buf <? spare_capacity self then
    and_then (write_to_buffer_unchecked self buf) self (fun self => (Val tt, self))
  else write_all_cold fuel self buf.

(** [bufs.iter().for_each(|b| self.write_to_buffer_unchecked(b))] *)
Fixpoint buffer_all (self : BufWriter W) (bufs : list (list byte)) : outcome (BufWriter W) :=
  match bufs with
  | [] => Val self
  | b :: bufs =>
      match write_to_buffer_unchecked self b with
      | Val self => buffer_all self bufs
      | o => o
      end
  end.

(** The buffers after the first, as long as they fit. *)
Fixpoint buffer_more (self : BufWriter W) (bufs : list (list byte)) (total_written : Z)
    : outcome Z * BufWriter W :=
  match bufs with
  | [] => (Val total_written, self)
  | b :: bufs =>
      if zlen b <=? spare_capacity self then
        and_then (write_to_buffer_unchecked self b) self (fun self =>
          buffer_more self bufs (total_written + zlen b))
      else (Val total_written, self)
  end.

(** The first buffer that is not empty, and those after it. *)
Fixpoint find_nonempty (bufs : list (list byte)) : option (list byte * list (list byte)) :=
  match bufs with
  | [] => None
  | [] :: bufs => find_nonempty bufs
  | b :: bufs => Some (b, bufs)
  end.

Definition saturated_total (bufs : list (list byte)) : Z :=
  foldl (fun acc b => Z.min usize_max (acc + zlen b)) 0 bufs.

Definition write_vectored_bw (fuel : nat) (self : BufWriter W) (bufs : list (list byte))
    : outcome Z * BufWriter W :=
  if is_write_vectored (bw_inner self) then
    let saturated_total_len := saturated_total bufs in
    let '(o, self) := if saturated_total_len >? spare_capacity self then flush_buf fuel self
                      else (Val tt, self) in
    and_then o self (fun _ =>
      if saturated_total_len >=? bw_capacity self
      then guarded self (write_vectored fuel (bw_inner self) bufs)
      else and_then (buffer_all self bufs) self (fun self => (Val saturated_total_len, self)))
  else
    match find_nonempty bufs with
    | None => (Val 0, self)
    | Some (buf, rest) =>
        let '(o, self) := if zlen buf >? spare_capacity self then flush_buf fuel self
                          else (Val tt, self) in
        and_then o self (fun _ =>
          if zlen buf >=? bw_capacity self then guarded self (write fuel (bw_inner self) buf)
          else and_then (write_to_buffer_unchecked self buf) self (fun self =>
                 buffer_more self rest (zlen buf)))
    end.

Definition flush_bw (fuel : nat) (self : BufWriter W) : outcome unit * BufWriter W :=
  let '(o, self) := flush_buf fuel self in
  and_then o self (fun _ =>
    let '(o, w) := flush fuel (bw_inner self) in (o, set_inner self w (bw_panicked self))).

(** [into_inner] gives the writer back when the buffer could be written;
    otherwise the error and the [BufWriter] itself. *)
Definition into_inner (fuel : nat) (self : BufWriter W) : outcome W * BufWriter W :=
  let '(o, self) := flush_buf fuel self in and_then o self (fun _ => (Val (bw_inner self), self)).

(** [into_parts]: the bytes not written, marked when the writer had panicked. *)
Definition into_parts (self : BufWriter W) : W * result (list byte) (list byte) :=
  (bw_inner self, if negb (bw_panicked self) then Ok (bw_buf self) else Err (bw_buf self)).

(** [Drop for BufWriter]: the result of the flush is not looked at. *)
Definition drop_bw (fuel : nat) (self : BufWriter W) : outcome unit * BufWriter W :=
  if negb (bw_panicked self) then
    let '(o, self) := flush_buf fuel self in
    (match o with Bad _ => Val tt | _ => o end, self)
  else (Val tt, self).

Definition seek_bw `{Seek W} (fuel : nat) (self : BufWriter W) (pos : SeekFrom)
    : outcome Z * BufWriter W :=
  let '(o, self) := flush_buf fuel self in
  and_then o self (fun _ =>
    let '(o, w) := seek (bw_inner self) pos in (o, set_inner self w (bw_panicked self))).
End ops.
End BufWriterIo.

#[export] Instance buf_writer_writes {W} `{Write W} : Write (BufWriter W) := {|
  write := BufWriterIo.write_bw;
  flush := BufWriterIo.flush_bw;
  write_vectored := BufWriterIo.write_vectored_bw;
  is_write_vectored := fun _ => true;
  write_all := BufWriterIo.write_all_bw
|}.

(** * Line buffering *)
Definition newline : byte := Byte.x0a.

Module LineWriterIo.
Section ops.
Context {W : Type} `{Write W}.
Import BufWriterIo.

Definition flush_if_completed_line (fuel : nat) (self : BufWriter W) : outcome unit * BufWriter W :=
  match head (reverse (bw_buf self)) with
  | Some b => if decide (b = newline) then flush_buf fuel self else (Val tt, self)
  | None => (Val tt, self)
  end.

(** A write that goes past the buffer; [panicked] is not used here. *)
Definition inner_write {A} (self : BufWriter W) (r : outcome A * W) : outcome A * BufWriter W :=
  let '(o, w) := r in (o, set_inner self w (bw_panicked self)).

(** What of the data after the direct write goes into the buffer. *)
Definition tail_of (capacity : Z) (buf : list byte) (flushed newline_idx : Z) : list byte :=
  if flushed >=? newline_idx then zdrop flushed buf
  else if newline_idx - flushed <=? capacity then ztake (newline_idx - flushed) (zdrop flushed buf)
  else
    let scan_area := ztake capacity (zdrop flushed buf) in
    match memrchr newline scan_area with
    | Some i => ztake (i + 1) scan_area
    | None => scan_area
    end.

Definition write_lw (fuel : nat) (self : BufWriter W) (buf : list byte) : outcome Z * BufWriter W :=
  match memrchr newline buf with
  | None =>
      let '(o, self) := flush_if_completed_line fuel self in
      and_then o self (fun _ => write_bw fuel self buf)
  | Some i =>
      let newline_idx := i + 1 in
      let '(o, self) := flush_buf fuel self in
      and_then o self (fun _ =>
        let '(o, self) := inner_write self (write fuel (bw_inner self) (ztake newline_idx buf)) in
        and_then o self (fun flushed =>
          if flushed =? 0 then (Val 0, self)
          else if negb (in_slice flushed buf) then (Panics, self)
          else
            let '(o, self) := write_to_buf self (tail_of (bw_capacity self) buf flushed newline_idx) in
            and_then o self (fun buffered => (Val (flushed + buffered), self))))
  end.

(** The last buffer with a line feed: the buffers up to it, and those after. *)
Fixpoint split_lines (bufs : list (list byte)) : option (list (list byte) * list (list byte)) :=
  match bufs with
  | [] => None
  | b :: rest =>
      match split_lines rest with
      | Some (lines, tail) => Some (b :: lines, tail)
      | None => match memchr newline b with Some _ => Some ([b], rest) | None => None end
      end
  end.

(** [filter], [map], [take_while], [sum] over the rest. *)
Fixpoint buffer_tail (self : BufWriter W) (bufs : list (list byte)) (sum : Z)
    : outcome Z * BufWriter W :=
  match bufs with
  | [] => (Val sum, self)
  | [] :: bufs => buffer_tail self bufs sum
  | b :: bufs =>
      let '(o, self) := write_to_buf self b in
      and_then o self (fun n =>
        if n >? 0 then buffer_tail self bufs (sum + n) else (Val sum, self))
  end.

Definition write_vectored_lw (fuel : nat) (self : BufWriter W) (bufs : list (list byte))
    : outcome Z * BufWriter W :=
  if negb (is_write_vectored (bw_inner self)) then
    match find_nonempty bufs with
    | Some (buf, _) => write_lw fuel self buf
    | None => (Val 0, self)
    end
  else
    match split_lines bufs with
    | None =>
        let '(o, self) := flush_if_completed_line fuel self in
        and_then o self (fun _ => write_vectored_bw fuel self bufs)
    | Some (lines, tail) =>
        let '(o, self) := flush_buf fuel self in
        and_then o self (fun _ =>
          let '(o, self) := inner_write self (write_vectored fuel (bw_inner self) lines) in
          and_then o self (fun flushed =>
            if flushed =? 0 then (Val 0, self)
            else if flushed <? foldr (fun b n => zlen b + n) 0 lines then (Val flushed, self)
            else
              let '(o, self) := buffer_tail self tail 0 in
              and_then o self (fun buffered => (Val (flushed + buffered), self))))
    end.

Definition write_all_lw (fuel : nat) (self : BufWriter W) (buf : list byte)
    : outcome unit * BufWriter W :=
  match memrchr newline buf with
  | None =>
      let '(o, self) := flush_if_completed_line fuel self in
      and_then o self (fun _ => write_all_bw fuel self buf)
  | Some i =>
      let lines := ztake (i + 1) buf in
      let tail := zdrop (i + 1) buf in
      let '(o, self) :=
        match bw_buf self with
        | [] => inner_write self (write_all fuel (bw_inner self) lines)
        | _ =>
            let '(o, self) := write_all_bw fuel self lines in
            and_then o self (fun _ => flush_buf fuel self)
        end in
      and_then o self (fun _ => write_all_bw fuel self tail)
  end.
End ops.
End LineWriterIo.

(** [LineWriter] holds a [BufWriter] and gives it line-buffering logic. *)
Record LineWriter (W : Type) := { lw_inner : BufWriter W }.
Arguments lw_inner {W}. Arguments Build_LineWriter {W}.

Section line_writer.
Context {W : Type} `{Write W}.

Definition shim {A} (r : outcome A * BufWriter W) : outcome A * LineWriter W :=
  let '(o, b) := r in (o, Build_LineWriter b).

#[export] Instance line_writer_writes : Write (LineWriter W) := {|
  write := fun fuel self buf => shim (LineWriterIo.write_lw fuel (lw_inner self) buf);
  flush := fun fuel self => shim (BufWriterIo.flush_bw fuel (lw_inner self));
  write_vectored := fun fuel self bufs =>
    shim (LineWriterIo.write_vectored_lw fuel (lw_inner self) bufs);
  is_write_vectored := fun _ => true;
  write_all := fun fuel self buf => shim (LineWriterIo.write_all_lw fuel (lw_inner self) buf)
|}.
End line_writer.

Definition line_writer {W} (inner : W) : LineWriter W :=
  Build_LineWriter (BufWriterIo.with_capacity 1024 inner).
