(* ===== verification/BufWriterSpecs.v ===== *)
(** BufWriterSpecs: a buffered writer is the sink it writes to.

    What a [BufWriter] has accepted is what its writer has accepted and then the
    buffer; the writer gets the bytes in order, none lost and none twice, on
    every path, errors included. *)
From Stdlib Require Import ZArith Lia String Strings.Byte.
From stdpp Require Import base numbers list option tactics.
From S2P Require Import Prelude SgxStatus IoError IoBase IoStream BufWriter.
Import BufWriterIo.
Local Open Scope Z_scope.

Section buffered.
Context {W : Type} `{WW : Write W}.
Context (inv : W -> Prop) (accepted committed : W -> list byte) (stalls need : W -> nat)
  (errs : io_error -> Prop).
Context `{!Sink W inv accepted committed stalls need errs}.
Implicit Types (s : BufWriter W).

Definition bw_ok s : Prop :=
  inv (bw_inner s) /\ zlen (bw_buf s) <= bw_capacity s <= isize_max /\ bw_panicked s = false.
Definition bw_accepted s : list byte := accepted (bw_inner s) ++ bw_buf s.
Definition bw_committed s : list byte := committed (bw_inner s).
Definition bw_stalls s : nat := stalls (bw_inner s).
Definition bw_need s : nat :=
  (need (bw_inner s) + Z.to_nat (bw_capacity s) + stalls (bw_inner s) + 1)%nat.
Definition bw_errs (e : io_error) : Prop := errs e \/ e = flush_zero_error.

Abbreviation inner_advances := (advances inv committed stalls need).
Abbreviation inner_accepts := (accepts inv accepted committed stalls need).
Abbreviation bw_advances := (advances bw_ok bw_committed bw_stalls bw_need).
Abbreviation bw_accepts := (accepts bw_ok bw_accepted bw_committed bw_stalls bw_need).
Abbreviation bw_rejects := (rejects bw_ok bw_accepted bw_committed bw_stalls bw_need bw_errs).

(** The writer behind the buffer moved on. *)
Lemma inner_moves s w buf : bw_ok s -> inner_advances (bw_inner s) w ->
  zlen buf <= bw_capacity s ->
  bw_advances s (Build_BufWriter w buf (bw_capacity s) false).
Proof.
  intros (_ & Hc & _) (I & P & S & N) Hb.
  split_and!; [split_and!; simpl; done || lia|done|done|unfold bw_need; simpl; lia].
Qed.

(** ** Flushing *)
Definition loop_post s (written : Z) (x : outcome unit * (BufWriter W * Z)) : Prop :=
  let '(o, (s', written')) := x in
  bw_buf s' = bw_buf s /\ bw_capacity s' = bw_capacity s /\ bw_panicked s' = false /\
  written <= written' <= zlen (bw_buf s) /\
  accepted (bw_inner s') ++ zdrop written' (bw_buf s)
  = accepted (bw_inner s) ++ zdrop written (bw_buf s) /\
  inner_advances (bw_inner s) (bw_inner s') /\
  match o with
  | Val _ => written' = zlen (bw_buf s)
  | Bad e => interrupted e = false /\ bw_errs e
  | _ => False
  end.

Lemma flush_loop_post fuel : forall s written, bw_ok s -> 0 <= written <= zlen (bw_buf s) ->
  (need (bw_inner s) + Z.to_nat (zlen (bw_buf s) - written) + stalls (bw_inner s) < fuel)%nat ->
  loop_post s written (flush_loop fuel s written).
Proof.
  induction fuel as [|fuel IH]; intros s written Hs Hw Hf; [lia|].
  pose proof Hs as (Hi & Hc & Hp). simpl.
  destruct (Z.geb_spec written (zlen (bw_buf s))) as [Hge|Hlt].
  - split_and!; try done; lia.
  - assert (zlen (zdrop written (bw_buf s)) = zlen (bw_buf s) - written) as Hz
      by (rewrite zlen_zdrop; lia).
    pose proof (sink_write fuel (bw_inner s) (zdrop written (bw_buf s)) Hi ltac:(lia) ltac:(lia)) as Hr.
    destruct (write fuel (bw_inner s) _) as [o w]. unfold guarded.
    assert (forall k (s1 := set_inner s w false), bw_ok s1 -> written <= k ->
      accepted w ++ zdrop k (bw_buf s) = accepted (bw_inner s) ++ zdrop written (bw_buf s) ->
      inner_advances (bw_inner s) w -> loop_post s1 k (flush_loop fuel s1 k) ->
      loop_post s written (flush_loop fuel s1 k)) as Hnext.
    { intros k s1 Hs1 Hk Ek Hadv. destruct (flush_loop fuel s1 k) as [o2 [s2 w2]]. simpl.
      intros (? & ? & ? & ? & E2 & A2 & ?). split_and!; try done; try lia; [congruence|].
      by eapply advances_trans. }
    destruct o as [n|e| | |]; try done; cbn [or_retry and_then].
    + destruct Hr as (Hn & Ea & Hadv). pose proof Hadv as (I1 & _ & S1 & N1).
      assert (bw_ok (set_inner s w false)) as Hs1 by (split_and!; simpl; done || lia).
      assert (accepted w ++ zdrop (written + n) (bw_buf s)
              = accepted (bw_inner s) ++ zdrop written (bw_buf s)) as Ek.
      { rewrite Ea, <- app_assoc. f_equal. rewrite <- zdrop_zdrop by lia. apply ztake_zdrop. }
      destruct (Z.eqb_spec n 0) as [->|Hne].
      * split_and!; try done; try lia; [|by right]. by rewrite Z.add_0_r in Ek.
      * apply Hnext; try done; [lia|]. apply IH; [done|simpl; lia|simpl; lia].
    + destruct Hr as ((Ea & Hadv) & He & Hst). pose proof Hadv as (I1 & _ & S1 & N1).
      rewrite app_nil_r in Ea.
      assert (bw_ok (set_inner s w false)) as Hs1 by (split_and!; simpl; done || lia).
      destruct (interrupted e) eqn:Ei.
      * specialize (Hst eq_refl). apply Hnext; try done; [by rewrite Ea|].
        apply IH; [done|done|simpl; lia].
      * split_and!; try done; try lia; [simpl; by rewrite Ea|by left].
Qed.

Lemma flush_buf_post fuel s : bw_ok s -> (bw_need s <= fuel)%nat ->
  let '(o, s') := flush_buf fuel s in
  bw_accepts s [] s' /\
  match o with
  | Val _ => bw_buf s' = [] /\ bw_capacity s' = bw_capacity s
  | Bad e => interrupted e = false /\ bw_errs e
  | _ => False
  end.
Proof.
  intros Hs Hf. pose proof Hs as (Hi & Hc & Hp). unfold flush_buf.
  pose proof (zlen_nonneg (bw_buf s)) as Hn.
  pose proof (flush_loop_post fuel s 0 Hs ltac:(lia) ltac:(unfold bw_need in Hf; lia)) as Hl.
  destruct (flush_loop fuel s 0) as [o [s' written]].
  destruct Hl as (Eb & Ecap & Epn & Hw & Ea & Hadv & Ho). rewrite zdrop_0 in Ea.
  assert (drop_guard s' written = Val (set_buf s' (zdrop written (bw_buf s)))) as ->.
  { unfold drop_guard. rewrite Eb. destruct (Z.gtb_spec written 0).
    - by rewrite (proj2 (in_slice_spec _ _)) by lia.
    - replace written with 0 by lia. destruct s'. simpl in *. by subst. }
  cbn [and_then]. assert (zlen (zdrop written (bw_buf s)) <= bw_capacity s) as Hz
    by (rewrite zlen_zdrop; lia).
  split.
  - split; [unfold bw_accepted; simpl; by rewrite app_nil_r|].
    pose proof (inner_moves s _ _ Hs Hadv Hz) as Hm. destruct s' as [w' b' c' p']. simpl in *.
    by rewrite <- Ecap, <- Epn in Hm.
  - destruct o as [u|e| | |]; try done. subst written. simpl. split; [by apply zdrop_all|done].
Qed.

(** ** Writing *)
Abbreviation bw_write_post := (write_post bw_ok bw_accepted bw_committed bw_stalls bw_need bw_errs).
Abbreviation bw_write_all_post :=
  (write_all_post bw_ok bw_accepted bw_committed bw_stalls bw_need bw_errs).

Lemma buffer_append s d : bw_ok s -> zlen d <= spare_capacity s ->
  write_to_buffer_unchecked s d = Val (set_buf s (bw_buf s ++ d)) /\
  bw_accepts s d (set_buf s (bw_buf s ++ d)).
Proof.
  intros (Hi & Hc & Hp) Hd. unfold write_to_buffer_unchecked, spare_capacity in *.
  destruct (Z.leb_spec (zlen d) (bw_capacity s - zlen (bw_buf s))); [|lia].
  split; [done|]. unfold accepts, advances, bw_accepted, bw_ok. simpl.
  rewrite app_assoc, zlen_app. split_and!; done || lia.
Qed.

(** Room for [n] bytes: the buffer is flushed when they do not fit. *)
Definition room_for (fuel : nat) s (n : Z) : outcome unit * BufWriter W :=
  if n >? spare_capacity s then flush_buf fuel s else (Val tt, s).

Lemma room_for_post fuel s n : bw_ok s -> (bw_need s <= fuel)%nat ->
  let '(o, s') := room_for fuel s n in
  bw_accepts s [] s' /\
  match o with
  | Val _ => bw_capacity s' = bw_capacity s /\
             (n >= bw_capacity s -> bw_buf s' = []) /\ (n < bw_capacity s -> n <= spare_capacity s')
  | Bad e => interrupted e = false /\ bw_errs e
  | _ => False
  end.
Proof.
  intros Hs Hf. unfold room_for. destruct (Z.gtb_spec n (spare_capacity s)) as [Hg|Hl].
  - pose proof (flush_buf_post fuel s Hs Hf) as Hb. destruct (flush_buf fuel s) as [o s'].
    destruct Hb as [Ha Ho]. split; [done|]. destruct o as [u|e| | |]; try done.
    destruct Ho as [Eb Ec]. split_and!; [done|done|]. intros Hn. unfold spare_capacity.
    rewrite Eb, Ec. unfold zlen. simpl. lia.
  - split; [by apply accepts_nil|]. split_and!; [done| |lia].
    intros Hn. unfold spare_capacity in Hl. apply zlen_nil_inv. pose proof (zlen_nonneg (bw_buf s)). lia.
Qed.

(** A call of the writer itself, with nothing buffered. *)
Lemma direct_accepts s d w : bw_ok s -> bw_buf s = [] -> inner_accepts (bw_inner s) d w ->
  bw_accepts s d (set_inner s w false).
Proof.
  intros Hs Eb [Ea Hadv]. split.
  - unfold bw_accepted. simpl. by rewrite Eb, !app_nil_r.
  - apply inner_moves; [done|done|]. by destruct Hs as (_ & [? _] & _).
Qed.

Lemma direct_write s buf x : bw_ok s -> bw_buf s = [] ->
  write_post inv accepted committed stalls need errs (bw_inner s) buf x ->
  bw_write_post s buf (guarded s x).
Proof.
  intros Hs Eb. destruct x as [o w]. destruct o as [n|e| | |]; try done; simpl.
  - intros (Hn & Ha). split; [done|]. by apply direct_accepts.
  - intros (Ha & He & Hst). split_and!; [by apply direct_accepts|by left|done].
Qed.

Lemma direct_write_all s buf x : bw_ok s -> bw_buf s = [] ->
  write_all_post inv accepted committed stalls need errs (bw_inner s) buf x ->
  bw_write_all_post s buf (guarded s x).
Proof.
  intros Hs Eb. destruct x as [o w]. destruct o as [n|e| | |]; try done; simpl.
  - intros Ha. by apply direct_accepts.
  - intros (Hi & He & d & Hd & Ha). split_and!; [done| |].
    + destruct He; [left; by left|by right].
    + exists d. split; [done|by apply direct_accepts].
Qed.

(** What comes after a step that accepted nothing. *)
Lemma write_post_after s s1 buf x : bw_accepts s [] s1 -> bw_write_post s1 buf x ->
  bw_write_post s buf x.
Proof.
  intros Ha. destruct x as [o w]. destruct o as [n|e| | |]; try done; simpl.
  - intros (Hn & Hb). split; [done|]. by apply (accepts_app _ _ _ _ _ s [] s1 _ w).
  - intros (Hb & He & Hst). split_and!; [by apply (accepts_app _ _ _ _ _ s [] s1 [] w)|done|].
    intros Hi. specialize (Hst Hi). destruct Ha as (_ & _ & _ & Hsl & _). lia.
Qed.

Lemma write_bw_post fuel s buf : bw_ok s -> zlen buf <= isize_max -> (bw_need s <= fuel)%nat ->
  bw_write_post s buf (write_bw fuel s buf).
Proof.
  intros Hs Hb Hf. unfold write_bw.
  destruct (Z.ltb_spec (zlen buf) (spare_capacity s)) as [Hlt|Hge].
  - destruct (buffer_append s buf Hs ltac:(lia)) as [-> Ha]. cbn [and_then].
    split; [pose proof (zlen_nonneg buf); lia|]. by rewrite ztake_all by lia.
  - unfold write_cold. fold (room_for fuel s (zlen buf)).
    pose proof (room_for_post fuel s (zlen buf) Hs Hf) as Hr.
    destruct (room_for fuel s (zlen buf)) as [o s1]. destruct Hr as [Ha Ho].
    destruct o as [[]|e| | |]; try done; cbn [and_then].
    + destruct Ho as (Ec & Hbig & Hsmall). pose proof Ha as (_ & Hs1 & _ & _ & Hn1).
      eapply write_post_after; [done|]. rewrite Ec.
      destruct (Z.geb_spec (zlen buf) (bw_capacity s)) as [Hc|Hc].
      * apply direct_write; [done|apply Hbig; lia|].
        apply sink_write; [apply Hs1|done|unfold bw_need in *; lia].
      * destruct (buffer_append s1 buf Hs1 (Hsmall ltac:(lia))) as [-> Ha1]. cbn [and_then].
        split; [pose proof (zlen_nonneg buf); lia|]. by rewrite ztake_all by lia.
    + destruct Ho as [Hi He]. split_and!; [done|done|]. congruence.
Qed.

Lemma write_all_bw_post fuel s buf : bw_ok s -> zlen buf <= isize_max ->
  (bw_need s + length buf + bw_stalls s < fuel)%nat ->
  bw_write_all_post s buf (write_all_bw fuel s buf).
Proof.
  intros Hs Hb Hf. unfold write_all_bw.
  destruct (Z.ltb_spec (zlen buf) (spare_capacity s)) as [Hlt|Hge].
  - by destruct (buffer_append s buf Hs ltac:(lia)) as [-> Ha].
  - unfold write_all_cold. fold (room_for fuel s (zlen buf)).
    pose proof (room_for_post fuel s (zlen buf) Hs ltac:(lia)) as Hr.
    destruct (room_for fuel s (zlen buf)) as [o s1]. destruct Hr as [Ha Ho].
    destruct o as [[]|e| | |]; try done; cbn [and_then].
    + destruct Ho as (Ec & Hbig & Hsmall). pose proof Ha as (_ & Hs1 & _ & Hst & Hn1).
      eapply (write_all_post_app _ _ _ _ _ _ s [] s1 buf); [done|]. rewrite Ec.
      destruct (Z.geb_spec (zlen buf) (bw_capacity s)) as [Hc|Hc].
      * apply direct_write_all; [done|apply Hbig; lia|].
        apply sink_write_all; [apply Hs1|done|unfold bw_need, bw_stalls in *; lia].
      * by destruct (buffer_append s1 buf Hs1 (Hsmall ltac:(lia))) as [-> Ha1].
    + destruct Ho as [Hi He]. split_and!; [done|by left|]. exists []. split; [apply prefix_nil|done].
Qed.

Lemma flush_bw_post fuel s : bw_ok s -> (bw_need s <= fuel)%nat ->
  flush_post bw_ok bw_accepted bw_committed bw_stalls bw_need bw_errs s (flush_bw fuel s).
Proof.
  intros Hs Hf. unfold flush_bw. pose proof (flush_buf_post fuel s Hs Hf) as Hb.
  destruct (flush_buf fuel s) as [o s1]. destruct Hb as [Ha Ho].
  destruct o as [[]|e| | |]; try done; cbn [and_then].
  - destruct Ho as [Eb Ec]. pose proof Ha as (_ & Hs1 & _ & Hst & Hn1).
    pose proof (sink_flush fuel (bw_inner s1) ltac:(apply Hs1) ltac:(unfold bw_need in *; lia)) as Hr.
    destruct (flush fuel (bw_inner s1)) as [o w].
    assert (bw_panicked s1 = false) as -> by apply Hs1. destruct o as [u|e| | |]; try done.
    + destruct Hr as [Hd Hc]. apply direct_accepts in Hd; [|done|done]. split.
      * by apply (accepts_app _ _ _ _ _ s [] s1 [] _ Ha Hd).
      * unfold bw_committed, bw_accepted. simpl. by rewrite Hc, Eb, app_nil_r.
    + destruct Hr as (Hd & He & Hi). apply direct_accepts in Hd; [|done|done]. split_and!.
      * by apply (accepts_app _ _ _ _ _ s [] s1 [] _ Ha Hd).
      * by left.
      * intros Hint. specialize (Hi Hint). unfold bw_stalls in *. simpl. lia.
  - destruct Ho as [Hi He]. split_and!; [done|done|]. congruence.
Qed.

(** ** Vectored writes *)
Lemma saturated_total_spec bufs : zlen (concat bufs) <= usize_max ->
  saturated_total bufs = zlen (concat bufs).
Proof.
  unfold saturated_total. intros Hb.
  enough (forall l acc, 0 <= acc -> acc + zlen (concat l) <= usize_max ->
    foldl (fun acc (b : list byte) => Z.min usize_max (acc + zlen b)) acc l = acc + zlen (concat l))
    as Hl by (rewrite Hl; lia).
  induction l as [|b l IH]; intros acc Ha Hl; simpl in *; [unfold zlen; simpl; lia|].
  rewrite zlen_app in *. pose proof (zlen_nonneg b). pose proof (zlen_nonneg (concat l)).
  rewrite IH by lia. lia.
Qed.

Lemma find_nonempty_spec bufs :
  match find_nonempty bufs with
  | Some (b, rest) => concat bufs = b ++ concat rest
  | None => concat bufs = []
  end.
Proof. induction bufs as [|[|x b] bufs IH]; [done|exact IH|done]. Qed.

Lemma buffer_all_post bufs : forall s, bw_ok s -> zlen (concat bufs) <= spare_capacity s ->
  exists s', buffer_all s bufs = Val s' /\ bw_accepts s (concat bufs) s'.
Proof.
  induction bufs as [|b bufs IH]; intros s Hs Hb; simpl.
  - exists s. split; [done|by apply accepts_nil].
  - simpl in Hb. rewrite zlen_app in Hb. pose proof (zlen_nonneg (concat bufs)).
    destruct (buffer_append s b Hs ltac:(lia)) as [-> Ha].
    destruct (IH (set_buf s (bw_buf s ++ b))) as (s' & -> & Ha').
    + by destruct Ha as (_ & Hok & _).
    + unfold spare_capacity in *. simpl. rewrite zlen_app. lia.
    + exists s'. split; [done|]. by eapply accepts_app.
Qed.

Lemma buffer_more_post bufs : forall s t, bw_ok s ->
  exists n s', buffer_more s bufs t = (Val (t + n), s') /\ 0 <= n <= zlen (concat bufs) /\
    bw_accepts s (ztake n (concat bufs)) s'.
Proof.
  induction bufs as [|b bufs IH]; intros s t Hs; simpl.
  - exists 0, s. split_and!; [by rewrite Z.add_0_r|done|done|by apply accepts_nil].
  - rewrite zlen_app. pose proof (zlen_nonneg (concat bufs)). pose proof (zlen_nonneg b).
    destruct (Z.leb_spec (zlen b) (spare_capacity s)) as [Hle|Hgt].
    + destruct (buffer_append s b Hs Hle) as [-> Ha]. cbn [and_then].
      destruct (IH (set_buf s (bw_buf s ++ b)) (t + zlen b)) as (n & s' & -> & Hn & Ha');
        [by destruct Ha as (_ & Hok & _)|].
      exists (zlen b + n), s'. split_and!; [f_equal; f_equal; lia|lia|lia|].
      rewrite ztake_app_more by lia. by eapply accepts_app.
    + exists 0, s. split_and!; [by rewrite Z.add_0_r|lia|lia|by apply accepts_nil].
Qed.

(** One buffer, or as many as fit after it. *)
Lemma one_then_more fuel s buf rest : bw_ok s -> zlen (buf ++ concat rest) <= isize_max ->
  (bw_need s <= fuel)%nat ->
  bw_write_post s (buf ++ concat rest)
    (let '(o, s) := room_for fuel s (zlen buf) in
     and_then o s (fun _ =>
       if zlen buf >=? bw_capacity s then guarded s (write fuel (bw_inner s) buf)
       else and_then (write_to_buffer_unchecked s buf) s (fun s => buffer_more s rest (zlen buf)))).
Proof.
  intros Hs Hb Hf. rewrite zlen_app in Hb. pose proof (zlen_nonneg (concat rest)).
  pose proof (zlen_nonneg buf). pose proof (room_for_post fuel s (zlen buf) Hs Hf) as Hr.
  destruct (room_for fuel s (zlen buf)) as [o s1]. destruct Hr as [Ha Ho].
  destruct o as [[]|e| | |]; try done; cbn [and_then];
    [|destruct Ho as [Hi He]; split_and!; [done|done|congruence]].
  destruct Ho as (Ec & Hbig & Hsmall). pose proof Ha as (_ & Hs1 & _ & _ & Hn1).
  eapply write_post_after; [done|]. rewrite Ec.
  destruct (Z.geb_spec (zlen buf) (bw_capacity s)) as [Hc|Hc].
  - pose proof (sink_write fuel (bw_inner s1) buf ltac:(apply Hs1) ltac:(lia)
                  ltac:(unfold bw_need in *; lia)) as Hw.
    apply (direct_write s1) in Hw; [|done|apply Hbig; lia].
    destruct (guarded s1 _) as [o s2]. destruct o as [n|e| | |]; try done.
    destruct Hw as [Hn Hw]. split; [rewrite zlen_app; lia|]. by rewrite ztake_app_le by lia.
  - destruct (buffer_append s1 buf Hs1 (Hsmall ltac:(lia))) as [-> Ha1]. cbn [and_then].
    destruct (buffer_more_post rest (set_buf s1 (bw_buf s1 ++ buf)) (zlen buf))
      as (n & s2 & -> & Hn & Ha2); [by destruct Ha1 as (_ & Hok & _)|].
    split; [rewrite zlen_app; lia|].
    rewrite ztake_app_more by lia. by eapply accepts_app.
Qed.

Lemma write_vectored_bw_post fuel s bufs : bw_ok s -> zlen (concat bufs) <= isize_max ->
  (bw_need s <= fuel)%nat -> bw_write_post s (concat bufs) (write_vectored_bw fuel s bufs).
Proof.
  intros Hs Hb Hf. pose proof (zlen_nonneg (concat bufs)) as Hn. unfold write_vectored_bw.
  destruct (is_write_vectored (bw_inner s)).
  - rewrite saturated_total_spec by (unfold isize_max, usize_max, u64_max in *; lia).
    fold (room_for fuel s (zlen (concat bufs))).
    pose proof (room_for_post fuel s (zlen (concat bufs)) Hs Hf) as Hr.
    destruct (room_for fuel s _) as [o s1]. destruct Hr as [Ha Ho].
    destruct o as [[]|e| | |]; try done; cbn [and_then];
      [|destruct Ho as [Hi He]; split_and!; [done|done|congruence]].
    destruct Ho as (Ec & Hbig & Hsmall). pose proof Ha as (_ & Hs1 & _ & _ & Hn1).
    eapply write_post_after; [done|]. rewrite Ec.
    destruct (Z.geb_spec (zlen (concat bufs)) (bw_capacity s)) as [Hc|Hc].
    + apply direct_write; [done|apply Hbig; lia|].
      apply sink_write_vectored; [apply Hs1|done|unfold bw_need in *; lia].
    + destruct (buffer_all_post bufs s1 Hs1 (Hsmall ltac:(lia))) as (s2 & -> & Ha2). cbn [and_then].
      split; [lia|]. by rewrite ztake_all by lia.
  - pose proof (find_nonempty_spec bufs) as Hfind.
    destruct (find_nonempty bufs) as [[buf rest]|].
    + rewrite Hfind in *. by apply one_then_more.
    + rewrite Hfind. split; [done|by apply accepts_nil].
Qed.

Lemma bw_sink : Sink (BufWriter W) bw_ok bw_accepted bw_committed bw_stalls bw_need bw_errs.
Proof.
  split; [apply write_bw_post|apply flush_bw_post|apply write_vectored_bw_post|
          apply write_all_bw_post].
Qed.

(** C15. A buffered writer is the sink it writes to: for every writer [W] that
    accepts bytes, in portions of any size, with interruptions and errors,
    [BufWriter<W>] accepts bytes through [write], [write_all], [write_vectored]
    and [flush] under the same contract, where what it has accepted is what [W]
    has accepted and then the buffer.  No byte is lost, duplicated or reordered,
    an error accepts nothing, a flush leaves nothing in the buffer, and no
    unsafe copy leaves the buffer's memory.  [into_inner] gives back a writer
    that has everything, or the [BufWriter] with nothing lost. *)
Theorem buffered_sink :
  Sink (BufWriter W) bw_ok bw_accepted bw_committed bw_stalls bw_need bw_errs /\
  forall fuel s, bw_ok s -> (bw_need s <= fuel)%nat ->
    let '(o, s') := into_inner fuel s in
    match o with
    | Val w => inv w /\ accepted w = bw_accepted s
    | Bad e => bw_errs e /\ bw_accepts s [] s'
    | _ => False
    end.
Proof.
  split; [apply bw_sink|]. intros fuel s Hs Hf. unfold into_inner.
  pose proof (flush_buf_post fuel s Hs Hf) as Hp. destruct (flush_buf fuel s) as [o s'].
  destruct o as [u|e| | |]; try by destruct Hp.
  - destruct Hp as ((Ea & (Hi & _) & _) & Eb & _). simpl. split; [done|].
    unfold bw_accepted in Ea at 1. by rewrite Eb, !app_nil_r in Ea.
  - by destruct Hp as (? & ? & ?).
Qed.

Lemma new_writer_ok capacity w : inv w -> 0 <= capacity <= isize_max ->
  bw_ok (with_capacity capacity w) /\ bw_accepted (with_capacity capacity w) = accepted w.
Proof.
  intros Hw Hc. split; [|unfold bw_accepted; apply app_nil_r].
  split_and!; simpl; unfold zlen; simpl; done || lia.
Qed.
End buffered.
