(* ===== verification/LineWriterSpecs.v ===== *)
(** LineWriterSpecs: line buffering.

    A [LineWriter] is a sink like the [BufWriter] it holds; in addition complete
    lines do not stay behind: what is buffered has no line feed, except when a
    short write of the inner writer left lines there, and then it ends with one. *)
From Stdlib Require Import ZArith Lia String Strings.Byte.
From stdpp Require Import base numbers list option tactics.
From S2P Require Import Prelude SgxStatus IoError IoBase IoStream BufWriter BufWriterSpecs.
From S2P Require Import BufReaderSpecs.
Import BufWriterIo LineWriterIo.
Local Open Scope Z_scope.

(** * The shape of the buffer *)
Section shape.
Context {W : Type} `{WW : Write W}.
Implicit Types (s : BufWriter W).

(** The buffer is the end of the old one, maybe with new data after it. *)
Definition shaped (d : list byte) s s' : Prop :=
  exists k e, bw_buf s' = zdrop k (bw_buf s) ++ e /\ e `prefix_of` d.

Lemma shaped_refl d s : shaped d s s.
Proof. exists 0, []. split; [by rewrite zdrop_0, app_nil_r|apply prefix_nil]. Qed.

Lemma shaped_same d s s' : bw_buf s' = bw_buf s -> shaped d s s'.
Proof. intros E. exists 0, []. split; [by rewrite zdrop_0, app_nil_r|apply prefix_nil]. Qed.

(** A flush before the data. *)
Lemma shaped_after d s k s1 s' : bw_buf s1 = zdrop k (bw_buf s) -> shaped d s1 s' -> shaped d s s'.
Proof.
  intros Es (k1 & e & E & P). exists (Z.max 0 k + Z.max 0 k1), e. split; [|done]. rewrite E, Es.
  f_equal. unfold zdrop. rewrite drop_drop. f_equal. lia.
Qed.

Lemma guarded_buf {A} s (x : outcome A * W) : bw_buf (guarded s x).2 = bw_buf s.
Proof. by destruct x as [o w]. Qed.

Lemma flush_loop_buf fuel : forall s n, bw_buf (flush_loop fuel s n).2.1 = bw_buf s.
Proof.
  induction fuel as [|fuel IH]; intros s n; simpl; destruct (n >=? _); try done.
  pose proof (guarded_buf s (write fuel (bw_inner s) (zdrop n (bw_buf s)))) as Hg.
  destruct (guarded s _) as [o s1]. simpl in Hg. rewrite <- Hg.
  destruct o as [m|e| | |]; simpl; try done; [destruct (m =? 0)|destruct (interrupted e)];
    simpl; try done; apply IH.
Qed.

Lemma flush_buf_shape fuel s : exists k, bw_buf (flush_buf fuel s).2 = zdrop k (bw_buf s).
Proof.
  unfold flush_buf. pose proof (flush_loop_buf fuel s 0) as Hl.
  destruct (flush_loop fuel s 0) as [o [s1 n]]. simpl in Hl. unfold drop_guard. rewrite Hl.
  destruct (n >? 0); [destruct (in_slice n (bw_buf s))|]; simpl.
  - by exists n.
  - exists 0. by rewrite Hl.
  - exists 0. by rewrite Hl.
Qed.

Lemma room_for_shape fuel s n : exists k, bw_buf (room_for fuel s n).2 = zdrop k (bw_buf s).
Proof.
  unfold room_for. destruct (n >? _); [apply flush_buf_shape|]. exists 0. by rewrite zdrop_0.
Qed.

Lemma unchecked_shape s d : match write_to_buffer_unchecked s d with
  | Val s' => bw_buf s' = bw_buf s ++ d | _ => True end.
Proof. unfold write_to_buffer_unchecked. by destruct (_ <=? _). Qed.

Lemma appended_shape s d k s' : bw_buf s' = bw_buf s ++ k -> k `prefix_of` d -> shaped d s s'.
Proof. intros E P. exists 0, k. by rewrite zdrop_0. Qed.

(** A write: room, then the writer itself or the buffer. *)
Lemma cold_shape {A} fuel s d (dir : BufWriter W -> outcome A * BufWriter W) (a : A) :
  (forall s, bw_buf (dir s).2 = bw_buf s) ->
  shaped d s (let '(o, s) := room_for fuel s (zlen d) in
              and_then o s (fun _ => if zlen d >=? bw_capacity s then dir s
                else and_then (write_to_buffer_unchecked s d) s (fun s => (Val a, s)))).2.
Proof.
  intros Hdir. destruct (room_for_shape fuel s (zlen d)) as [k Hk].
  destruct (room_for fuel s (zlen d)) as [o s1]. simpl in Hk.
  eapply shaped_after; [exact Hk|]. destruct o as [[]|e| | |]; simpl; try apply shaped_refl.
  destruct (_ >=? _); [by apply shaped_same|].
  pose proof (unchecked_shape s1 d) as Hu.
  destruct (write_to_buffer_unchecked s1 d) as [s2|e| | |]; simpl; try apply shaped_refl.
  by eapply appended_shape.
Qed.

Lemma write_bw_shape fuel s d : shaped d s (write_bw fuel s d).2.
Proof.
  unfold write_bw. destruct (_ <? _).
  - pose proof (unchecked_shape s d) as Hu.
    destruct (write_to_buffer_unchecked s d) as [s2|e| | |]; simpl; try apply shaped_refl.
    by eapply appended_shape.
  - apply (cold_shape fuel s d (fun s => guarded s (write fuel (bw_inner s) d)) (zlen d)).
    intros. apply guarded_buf.
Qed.

Lemma write_all_bw_shape fuel s d : shaped d s (write_all_bw fuel s d).2.
Proof.
  unfold write_all_bw. destruct (_ <? _).
  - pose proof (unchecked_shape s d) as Hu.
    destruct (write_to_buffer_unchecked s d) as [s2|e| | |]; simpl; try apply shaped_refl.
    by eapply appended_shape.
  - apply (cold_shape fuel s d (fun s => guarded s (write_all fuel (bw_inner s) d)) tt).
    intros. apply guarded_buf.
Qed.

Lemma buffer_all_shape bufs : forall s s', buffer_all s bufs = Val s' ->
  bw_buf s' = bw_buf s ++ concat bufs.
Proof.
  induction bufs as [|b bufs IH]; intros s s'; simpl; [intros [= ->]; by rewrite app_nil_r|].
  pose proof (unchecked_shape s b) as Hu. destruct (write_to_buffer_unchecked s b); try done.
  intros E. by rewrite (IH _ _ E), Hu, app_assoc.
Qed.

Lemma buffer_more_shape bufs : forall s t,
  exists e, bw_buf (buffer_more s bufs t).2 = bw_buf s ++ e /\ e `prefix_of` concat bufs.
Proof.
  induction bufs as [|b bufs IH]; intros s t; simpl; [exists []; by rewrite app_nil_r|].
  assert (exists e, bw_buf s = bw_buf s ++ e /\ e `prefix_of` b ++ concat bufs) as Hstay
    by (exists []; split; [by rewrite app_nil_r|apply prefix_nil]).
  destruct (_ <=? _); [|done]. pose proof (unchecked_shape s b) as Hu.
  destruct (write_to_buffer_unchecked s b) as [s1|e| | |]; simpl; try done.
  destruct (IH s1 (t + zlen b)) as (e & -> & P). exists (b ++ e). rewrite Hu, app_assoc.
  split; [done|by apply prefix_app].
Qed.

Lemma write_vectored_bw_shape fuel s bufs : shaped (concat bufs) s (write_vectored_bw fuel s bufs).2.
Proof.
  unfold write_vectored_bw. destruct (is_write_vectored _).
  - fold (room_for fuel s (saturated_total bufs)).
    destruct (room_for_shape fuel s (saturated_total bufs)) as [k Hk].
    destruct (room_for fuel s _) as [o s1]. simpl in Hk. eapply shaped_after; [exact Hk|].
    destruct o as [[]|e| | |]; simpl; try apply shaped_refl.
    destruct (_ >=? _); [apply shaped_same, guarded_buf|].
    destruct (buffer_all s1 bufs) as [s2|e| | |] eqn:E; simpl; try apply shaped_refl.
    eapply appended_shape; [by apply buffer_all_shape|done].
  - pose proof (find_nonempty_spec bufs) as Hf. destruct (find_nonempty bufs) as [[b rest]|];
      [|apply shaped_refl]. rewrite Hf. fold (room_for fuel s (zlen b)).
    destruct (room_for_shape fuel s (zlen b)) as [k Hk]. destruct (room_for fuel s _) as [o s1].
    simpl in Hk. eapply shaped_after; [exact Hk|].
    destruct o as [[]|e| | |]; simpl; try apply shaped_refl.
    destruct (_ >=? _); [apply shaped_same, guarded_buf|]. pose proof (unchecked_shape s1 b) as Hu.
    destruct (write_to_buffer_unchecked s1 b) as [s2|e| | |]; simpl; try apply shaped_refl.
    destruct (buffer_more_shape rest s2 (zlen b)) as (e & E & P).
    eapply appended_shape; [by rewrite E, Hu, <- app_assoc|by apply prefix_app].
Qed.
End shape.

(** * Lines *)
Definition lines_ok (l : list byte) : Prop :=
  newline ∈ l -> exists k, l = k ++ [newline].

Lemma lines_ok_drop k l : lines_ok l -> lines_ok (zdrop k l).
Proof.
  intros Hl Hin. assert (newline ∈ l) as [m ->]%Hl.
  { rewrite <- (ztake_zdrop k l). apply elem_of_app; by right. }
  unfold zdrop in *. rewrite drop_app in *.
  destruct (decide (length m < Z.to_nat k)%nat) as [Hd|Hd].
  - rewrite (drop_ge m) in Hin by lia. exfalso. revert Hin.
    rewrite drop_ge by (simpl; lia). rewrite app_nil_r. apply not_elem_of_nil.
  - exists (drop (Z.to_nat k) m). f_equal.
    replace (Z.to_nat k - length m)%nat with 0%nat by lia. done.
Qed.

Lemma lines_ok_none l : newline ∉ l -> lines_ok l.
Proof. intros Hn Hin. by destruct Hn. Qed.

Lemma memchr_none d l : memchr d l = None <-> d ∉ l.
Proof.
  unfold memchr. destruct (list_find (fun x => x = d) l) as [[i x]|] eqn:E; split; try done.
  - apply list_find_Some in E as (Hi & -> & _). intros Hn. destruct Hn. by eapply list_elem_of_lookup_2.
  - intros _ Hin. apply list_find_None in E. rewrite Forall_forall in E. apply list_elem_of_In in Hin. by apply (E d Hin).
Qed.

Lemma memrchr_none d l : memrchr d l = None <-> d ∉ l.
Proof.
  unfold memrchr. pose proof (memchr_none d (reverse l)) as Hm.
  destruct (memchr d (reverse l)); split; try done.
  - intros Hn. destruct Hm as [_ Hm]. rewrite elem_of_reverse in Hm. by specialize (Hm Hn).
  - intros _ Hin. apply Hm; [done|]. by apply elem_of_reverse.
Qed.

(** The last line feed: the data up to it ends with it, the rest has none. *)
Lemma memrchr_some d l i : memrchr d l = Some i ->
  0 <= i < zlen l /\ (exists k, ztake (i + 1) l = k ++ [d]) /\ d ∉ zdrop (i + 1) l.
Proof.
  unfold memrchr, memchr. destruct (list_find _ (reverse l)) as [[j x]|] eqn:E; [|done].
  intros [= <-]. apply list_find_Some in E as (Hj & -> & Hb).
  pose proof (lookup_lt_Some _ _ _ Hj) as Hlt. rewrite length_reverse in Hlt.
  assert (l = reverse (drop (S j) (reverse l)) ++ [d] ++ reverse (take j (reverse l))) as El.
  { rewrite <- (reverse_involutive l) at 1. rewrite <- (take_drop_middle _ _ _ Hj) at 1.
    rewrite reverse_app, reverse_cons. by rewrite <- app_assoc. }
  set (a := reverse (drop (S j) (reverse l))) in *. set (b := reverse (take j (reverse l))) in *.
  assert (zlen a = zlen l - 1 - Z.of_nat j) as Ha.
  { unfold a, zlen. rewrite length_reverse, length_drop, length_reverse. lia. }
  rewrite <- Ha. split; [unfold zlen in *; lia|].
  replace (zlen a + 1) with (zlen (a ++ [d])) by (rewrite zlen_app; done).
  rewrite El, app_assoc, ztake_app, zdrop_app. split; [by eexists|].
  unfold b. rewrite elem_of_reverse. intros (m & Hm)%list_elem_of_lookup.
  apply lookup_take_Some in Hm as [Hm Hlt']. by apply (Hb _ _ Hm).
Qed.

Section lines.
Context {W : Type} `{WW : Write W}.
Context (inv : W -> Prop) (accepted committed : W -> list byte) (stalls need : W -> nat)
  (errs : io_error -> Prop).
Context `{!Sink W inv accepted committed stalls need errs}.
Implicit Types (s : BufWriter W).

Abbreviation ok := (bw_ok inv).
Abbreviation bneed := (bw_need stalls need).
Abbreviation b_accepts := (accepts ok (bw_accepted accepted) (bw_committed committed)
  (bw_stalls stalls) bneed).
Abbreviation b_write_post := (write_post ok (bw_accepted accepted) (bw_committed committed)
  (bw_stalls stalls) bneed (bw_errs errs)).
Abbreviation b_write_all_post := (write_all_post ok (bw_accepted accepted) (bw_committed committed)
  (bw_stalls stalls) bneed (bw_errs errs)).

(** ** Steps *)
Lemma inner_write_guarded {A} s (x : outcome A * W) : ok s -> x.1 <> Panics ->
  inner_write s x = guarded s x.
Proof.
  intros (_ & _ & Hp) Hx. destruct x as [o w]. unfold inner_write, guarded. rewrite Hp.
  by destruct o.
Qed.

Lemma flush_if_post fuel s : ok s -> lines_ok (bw_buf s) -> (bneed s <= fuel)%nat ->
  let '(o, s') := flush_if_completed_line fuel s in
  b_accepts s [] s' /\ lines_ok (bw_buf s') /\
  match o with
  | Val _ => newline ∉ bw_buf s'
  | Bad e => interrupted e = false /\ bw_errs errs e
  | _ => False
  end.
Proof.
  intros Hs Hl Hf. unfold flush_if_completed_line.
  assert (newline ∈ bw_buf s -> head (reverse (bw_buf s)) = Some newline) as Hlast.
  { intros [k ->]%Hl. by rewrite reverse_snoc. }
  destruct (head (reverse (bw_buf s))) as [b|].
  - destruct (decide (b = newline)) as [->|Hb].
    + pose proof (flush_buf_post inv accepted committed stalls need errs fuel s Hs Hf) as Hp.
      destruct (flush_buf_shape fuel s) as [k Hk]. destruct (flush_buf fuel s) as [o s'].
      destruct Hp as [Ha Ho]. simpl in Hk. split_and!; [done|rewrite Hk; by apply lines_ok_drop|].
      destruct o as [u|e| | |]; try done. destruct Ho as [-> _]. apply not_elem_of_nil.
    + split_and!; [by apply accepts_nil|done|]. intros Hin%Hlast. by simplify_eq.
  - split_and!; [by apply accepts_nil|done|]. by intros Hin%Hlast.
Qed.

Lemma write_to_buf_post s d : ok s ->
  let n := Z.min (spare_capacity s) (zlen d) in
  write_to_buf s d = (Val n, set_buf s (bw_buf s ++ ztake n d)) /\ 0 <= n <= zlen d /\
  b_accepts s (ztake n d) (set_buf s (bw_buf s ++ ztake n d)).
Proof.
  intros Hs n. pose proof Hs as (_ & Hc & _). pose proof (zlen_nonneg d) as Hd.
  assert (0 <= n <= zlen d) as Hn by (unfold n, spare_capacity; lia).
  destruct (buffer_append inv accepted committed stalls need s (ztake n d) Hs) as [E Ha].
  { rewrite zlen_ztake by lia. unfold n. lia. }
  unfold write_to_buf. fold n. rewrite E. split_and!; done || lia.
Qed.

(** ** [tail_of] *)
Lemma tail_of_prefix cap buf flushed idx : tail_of cap buf flushed idx `prefix_of` zdrop flushed buf.
Proof.
  unfold tail_of. destruct (_ >=? _); [done|]. destruct (_ <=? _); [apply ztake_prefix|].
  destruct (memrchr _ _); [|apply ztake_prefix]. etrans; apply ztake_prefix.
Qed.

Lemma lines_ok_snoc k : lines_ok (k ++ [newline]).
Proof. intros _. by exists k. Qed.

Lemma tail_of_lines cap buf flushed i : memrchr newline buf = Some i -> 0 < flushed <= i + 1 ->
  0 <= cap ->
  let t := tail_of cap buf flushed (i + 1) in lines_ok (ztake (Z.min cap (zlen t)) t).
Proof.
  intros Hm Hf Hc. destruct (memrchr_some _ _ _ Hm) as (Hi & [k Hk] & Hn).
  assert (forall l, newline ∉ l -> lines_ok (ztake (Z.min cap (zlen l)) l)) as Hnone.
  { intros l Hl. apply lines_ok_none. intros Hin. apply Hl.
    rewrite <- (ztake_zdrop (Z.min cap (zlen l)) l). apply elem_of_app. by left. }
  assert (forall l, zlen l <= cap -> lines_ok l -> lines_ok (ztake (Z.min cap (zlen l)) l)) as Hfull.
  { intros l Hl Ho. by rewrite ztake_all by lia. }
  unfold tail_of. destruct (Z.geb_spec flushed (i + 1)) as [Hg|Hl].
  - replace flushed with (i + 1) by lia. by apply Hnone.
  - destruct (Z.leb_spec (i + 1 - flushed) cap) as [Hle|Hgt].
    + apply Hfull.
      * rewrite zlen_ztake; [done|]. rewrite zlen_zdrop; lia.
      * unfold ztake, zdrop. rewrite take_drop_commute.
        replace (Z.to_nat (flushed) + Z.to_nat (i + 1 - flushed))%nat with (Z.to_nat (i + 1)) by lia.
        fold (ztake (i + 1) buf). fold (zdrop flushed (ztake (i + 1) buf)).
        apply lines_ok_drop. rewrite Hk. apply lines_ok_snoc.
    + destruct (memrchr newline (ztake cap (zdrop flushed buf))) as [j|] eqn:Ej.
      * destruct (memrchr_some _ _ _ Ej) as (Hj & [m Hm'] & _).
        assert (zlen (ztake cap (zdrop flushed buf)) = cap) as Ez
          by (rewrite zlen_ztake; [done|]; rewrite zlen_zdrop; lia).
        apply Hfull; [rewrite zlen_ztake; lia|]. rewrite Hm'. apply lines_ok_snoc.
      * apply Hnone. by apply memrchr_none.
Qed.

(** ** The operations of the shim: the contract of the buffer, and its lines *)
Lemma no_newline_shape d s s' : shaped d s s' -> newline ∉ bw_buf s -> newline ∉ d ->
  newline ∉ bw_buf s'.
Proof.
  intros (k & e & -> & [m ->]) Hs Hd [Hin|Hin]%elem_of_app.
  - apply Hs. rewrite <- (ztake_zdrop k (bw_buf s)). apply elem_of_app. by right.
  - apply Hd. apply elem_of_app. by left.
Qed.

Lemma ztake_tail n m (buf t : list byte) : 0 <= n <= zlen buf -> t `prefix_of` zdrop n buf ->
  0 <= m <= zlen t -> ztake n buf ++ ztake m t = ztake (n + m) buf.
Proof.
  intros Hn [k Hk] Hm. assert (zlen (ztake n buf) = n) as Ez by (rewrite zlen_ztake; lia).
  replace (ztake (n + m) buf) with (ztake (zlen (ztake n buf) + m) (ztake n buf ++ zdrop n buf))
    by (by rewrite Ez, ztake_zdrop).
  by rewrite ztake_app_more, Hk, ztake_app_le by lia.
Qed.

(** The rest of the data after [n] bytes went to the writer itself. *)
Lemma buffer_rest s n buf i : ok s -> bw_buf s = [] -> memrchr newline buf = Some i ->
  0 < n <= i + 1 ->
  exists m s' (t := tail_of (bw_capacity s) buf n (i + 1)), write_to_buf s t = (Val m, s') /\
    0 <= n + m <= zlen buf /\ b_accepts s (ztake m t) s' /\
    ztake n buf ++ ztake m t = ztake (n + m) buf /\ lines_ok (bw_buf s').
Proof.
  intros Hs Eb Em Hn. destruct (memrchr_some _ _ _ Em) as (Hi & _ & _).
  pose proof (tail_of_prefix (bw_capacity s) buf n (i + 1)) as Htp.
  pose proof (prefix_zlen _ _ Htp) as Htl. rewrite zlen_zdrop in Htl by lia.
  destruct (write_to_buf_post s (tail_of (bw_capacity s) buf n (i + 1)) Hs) as (E & Hm & Ha).
  eexists _, _. split_and!; [exact E|lia|lia|exact Ha|apply ztake_tail; [lia|done|lia]|].
  simpl. rewrite Eb. simpl. unfold spare_capacity. rewrite Eb. change (zlen []) with 0.
  rewrite Z.sub_0_r. apply tail_of_lines; [done|lia|]. destruct Hs as (_ & Hc & _).
  pose proof (zlen_nonneg (bw_buf s)). lia.
Qed.

(** Lines go to the writer itself, the rest into the buffer. *)
Lemma write_lines_post fuel s buf i : ok s -> bw_buf s = [] -> memrchr newline buf = Some i ->
  zlen buf <= isize_max -> (bneed s <= fuel)%nat ->
  let x := (let '(o, s) := inner_write s (write fuel (bw_inner s) (ztake (i + 1) buf)) in
            and_then o s (fun flushed =>
              if flushed =? 0 then (Val 0, s)
              else if negb (in_slice flushed buf) then (Panics, s)
              else
                let '(o, s) := write_to_buf s (tail_of (bw_capacity s) buf flushed (i + 1)) in
                and_then o s (fun buffered => (Val (flushed + buffered), s)))) in
  b_write_post s buf x /\ lines_ok (bw_buf x.2).
Proof.
  intros Hs Eb Em Hb Hf. destruct (memrchr_some _ _ _ Em) as (Hi & _ & _).
  set (lines := ztake (i + 1) buf).
  assert (zlen lines = i + 1) as Ez by (unfold lines; rewrite zlen_ztake; lia).
  pose proof (sink_write fuel (bw_inner s) lines ltac:(apply Hs) ltac:(lia)
                ltac:(unfold bw_need in *; lia)) as Hw.
  rewrite (inner_write_guarded s) by (done || (destruct (write _ _ _) as [[] ?]; done)).
  pose proof (guarded_buf s (write fuel (bw_inner s) lines)) as Hg. rewrite Eb in Hg.
  apply (direct_write inv accepted committed stalls need errs s) in Hw; [|done|done].
  destruct (guarded s _) as [o s2]. simpl in Hg.
  destruct o as [n|e| | |]; try done; cbn [and_then];
    [|split; [done|]; simpl; rewrite Hg; by apply lines_ok_none, not_elem_of_nil].
  destruct Hw as [Hn Ha2]. destruct (Z.eqb_spec n 0) as [->|Hne].
  - split; [split; [pose proof (zlen_nonneg buf); lia|done]|]. simpl. rewrite Hg.
    apply lines_ok_none, not_elem_of_nil.
  - rewrite (proj2 (in_slice_spec _ _)) by lia. cbn [negb]. pose proof Ha2 as (_ & Hs2 & _).
    destruct (buffer_rest s2 n buf i Hs2 Hg Em ltac:(lia)) as (m & s3 & -> & Hm & Ha3 & Et & Hl).
    cbn [and_then]. split; [split; [done|]|done]. rewrite <- Et.
    eapply accepts_app; [|done]. replace (ztake n buf) with (ztake n lines); [done|].
    unfold lines, ztake. rewrite take_take. f_equal. lia.
Qed.

Lemma write_lw_post fuel s buf : ok s -> lines_ok (bw_buf s) -> zlen buf <= isize_max ->
  (bneed s <= fuel)%nat ->
  b_write_post s buf (write_lw fuel s buf) /\ lines_ok (bw_buf (write_lw fuel s buf).2).
Proof.
  intros Hs Hl Hb Hf. unfold write_lw. destruct (memrchr newline buf) as [i|] eqn:Em.
  - pose proof (flush_buf_post inv accepted committed stalls need errs fuel s Hs Hf) as Hp.
    destruct (flush_buf_shape fuel s) as [k Hk]. destruct (flush_buf fuel s) as [o s1].
    destruct Hp as [Ha Ho]. simpl in Hk. destruct o as [[]|e| | |]; try done; cbn [and_then].
    + destruct Ho as [Eb Ec]. pose proof Ha as (_ & Hs1 & _ & _ & Hn1).
      destruct (write_lines_post fuel s1 buf i Hs1 Eb Em Hb ltac:(lia)) as [Hw Hln].
      split; [by eapply write_post_after|done].
    + destruct Ho as [Hin He]. split; [split_and!; [done|done|congruence]|]. simpl. rewrite Hk.
      by apply lines_ok_drop.
  - pose proof (flush_if_post fuel s Hs Hl Hf) as Hp.
    destruct (flush_if_completed_line fuel s) as [o s1]. destruct Hp as (Ha & Hl1 & Ho).
    destruct o as [[]|e| | |]; try done; cbn [and_then];
      [|destruct Ho as [Hin He]; split; [split_and!; [done|done|congruence]|done]].
    pose proof Ha as (_ & Hs1 & _ & _ & Hn1). split.
    + eapply write_post_after; [done|]. apply (write_bw_post inv accepted committed stalls need errs); [done|done|lia].
    + apply lines_ok_none. eapply no_newline_shape; [apply write_bw_shape|done|].
      by apply memrchr_none.
Qed.

(** ** Vectored *)
Lemma split_lines_spec bufs :
  match split_lines bufs with
  | Some (lines, tail) => bufs = lines ++ tail /\ newline ∉ concat tail
  | None => newline ∉ concat bufs
  end.
Proof.
  induction bufs as [|b bufs IH]; simpl; [apply not_elem_of_nil|].
  destruct (split_lines bufs) as [[lines tail]|].
  - destruct IH as [-> Hn]. done.
  - destruct (memchr newline b) as [i|] eqn:E; [done|]. apply memchr_none in E.
    intros [?|?]%elem_of_app; done.
Qed.

(** A full buffer takes nothing more. *)
Lemma buffer_tail_full bufs : forall s t, ok s -> spare_capacity s = 0 ->
  buffer_tail s bufs t = (Val t, s).
Proof.
  induction bufs as [|[|x b] bufs IH]; intros s t Hs Hz; [done|by apply IH|].
  change (buffer_tail s ((x :: b) :: bufs) t) with
    (let '(o, s) := write_to_buf s (x :: b) in
     and_then o s (fun n => if n >? 0 then buffer_tail s bufs (t + n) else (Val t, s))).
  destruct (write_to_buf_post s (x :: b) Hs) as (-> & _ & _). rewrite Hz.
  pose proof (zlen_nonneg (x :: b)). rewrite Z.min_l by lia. simpl. rewrite app_nil_r.
  by destruct s.
Qed.

Lemma buffer_tail_post bufs : forall s t, ok s ->
  exists n s', buffer_tail s bufs t = (Val (t + n), s') /\ 0 <= n <= zlen (concat bufs) /\
    b_accepts s (ztake n (concat bufs)) s' /\ bw_buf s' = bw_buf s ++ ztake n (concat bufs).
Proof.
  induction bufs as [|[|x b] bufs IH]; intros s t Hs; [|by apply IH|].
  - exists 0, s. split_and!; [by rewrite Z.add_0_r|done|done|by apply accepts_nil|by rewrite app_nil_r].
  - change (concat ((x :: b) :: bufs)) with ((x :: b) ++ concat bufs).
    change (buffer_tail s ((x :: b) :: bufs) t) with
      (let '(o, s) := write_to_buf s (x :: b) in
       and_then o s (fun n => if n >? 0 then buffer_tail s bufs (t + n) else (Val t, s))).
    set (l := x :: b). rewrite zlen_app. pose proof (zlen_nonneg (concat bufs)).
    destruct (write_to_buf_post s l Hs) as (-> & Hn & Ha). cbn [and_then].
    set (n := Z.min (spare_capacity s) (zlen l)) in *. set (s1 := set_buf s _) in *.
    pose proof Ha as (_ & Hs1 & _). destruct (Z.gtb_spec n 0) as [Hp|Hz].
    + destruct (decide (zlen l <= n)) as [Hall|Hpart].
      * destruct (IH s1 (t + n) Hs1) as (m & s2 & -> & Hm & Ha2 & Eb2).
        rewrite ztake_all in Ha by lia. assert (n = zlen l) as En by lia.
        exists (n + m), s2. rewrite En, ztake_app_more by lia.
        split_and!; [f_equal; f_equal; lia|lia|lia|by eapply accepts_app|].
        rewrite Eb2. unfold s1. simpl. rewrite (ztake_all n l) by lia. by rewrite <- app_assoc.
      * rewrite (buffer_tail_full bufs s1) by
          (done || (unfold spare_capacity, s1; simpl; rewrite zlen_app, zlen_ztake by lia;
                    unfold n, spare_capacity in *; lia)).
        exists n, s1. rewrite ztake_app_le by lia. split_and!; done || lia.
    + assert (n = 0) as En by lia. exists 0, s1. rewrite Z.add_0_r. split_and!; [done|lia|lia| |].
      * by rewrite En in Ha.
      * unfold s1. simpl. by rewrite En.
Qed.

(** The buffers with lines go to the writer itself, the rest into the buffer. *)
Lemma write_line_bufs_post fuel s lines tail : ok s -> bw_buf s = [] ->
  newline ∉ concat tail -> zlen (concat (lines ++ tail)) <= isize_max -> (bneed s <= fuel)%nat ->
  let x := (let '(o, s) := inner_write s (write_vectored fuel (bw_inner s) lines) in
            and_then o s (fun flushed =>
              if flushed =? 0 then (Val 0, s)
              else if flushed <? foldr (fun b n => zlen b + n) 0 lines then (Val flushed, s)
              else
                let '(o, s) := buffer_tail s tail 0 in
                and_then o s (fun buffered => (Val (flushed + buffered), s)))) in
  b_write_post s (concat (lines ++ tail)) x /\ lines_ok (bw_buf x.2).
Proof.
  intros Hs Eb Ht Hb Hf. rewrite concat_app in *. rewrite zlen_app in Hb.
  pose proof (zlen_nonneg (concat tail)) as Hpt.
  assert (foldr (fun b n => zlen b + n) 0 lines = zlen (concat lines)) as ->.
  { induction lines as [|b l IHl]; simpl; [done|]. rewrite zlen_app. f_equal. apply IHl.
    simpl in Hb. rewrite zlen_app in Hb. pose proof (zlen_nonneg b). lia. }
  pose proof (sink_write_vectored fuel (bw_inner s) lines ltac:(apply Hs) ltac:(lia)
                ltac:(unfold bw_need in *; lia)) as Hw.
  rewrite (inner_write_guarded s) by (done || (destruct (write_vectored _ _ _) as [[] ?]; done)).
  pose proof (guarded_buf s (write_vectored fuel (bw_inner s) lines)) as Hg. rewrite Eb in Hg.
  apply (direct_write inv accepted committed stalls need errs s) in Hw; [|done|done].
  destruct (guarded s _) as [o s2]. simpl in Hg.
  assert (lines_ok (bw_buf s2)) as Hl2 by (rewrite Hg; apply lines_ok_none, not_elem_of_nil).
  destruct o as [n|e| | |]; try done; cbn [and_then]. destruct Hw as [Hn Ha2].
  destruct (Z.eqb_spec n 0) as [->|Hne].
  { split; [|done]. split; [rewrite zlen_app; lia|done]. }
  destruct (Z.ltb_spec n (zlen (concat lines))) as [Hlt|Hge].
  { split; [|done]. split; [rewrite zlen_app; lia|]. by rewrite ztake_app_le by lia. }
  pose proof Ha2 as (_ & Hs2 & _).
  destruct (buffer_tail_post tail s2 0 Hs2) as (m & s3 & -> & Hm & Ha3 & Eb3). cbn [and_then].
  assert (n = zlen (concat lines)) as -> by lia. rewrite ztake_all in Ha2 by lia. split.
  - split; [rewrite zlen_app; lia|]. rewrite Z.add_0_l, ztake_app_more by lia.
    by eapply accepts_app.
  - simpl. rewrite Eb3, Hg. simpl. apply lines_ok_none. intros Hin. apply Ht.
    rewrite <- (ztake_zdrop m (concat tail)). apply elem_of_app. by left.
Qed.

Lemma find_nonempty_newline bufs b rest : find_nonempty bufs = Some (b, rest) ->
  concat bufs = b ++ concat rest.
Proof. intros E. pose proof (find_nonempty_spec bufs) as Hf. by rewrite E in Hf. Qed.

Lemma write_vectored_lw_post fuel s bufs : ok s -> lines_ok (bw_buf s) ->
  zlen (concat bufs) <= isize_max -> (bneed s <= fuel)%nat ->
  b_write_post s (concat bufs) (write_vectored_lw fuel s bufs) /\
  lines_ok (bw_buf (write_vectored_lw fuel s bufs).2).
Proof.
  intros Hs Hl Hb Hf. unfold write_vectored_lw. destruct (is_write_vectored (bw_inner s)); simpl.
  - pose proof (split_lines_spec bufs) as Hsp. destruct (split_lines bufs) as [[lines tail]|].
    + destruct Hsp as [-> Ht].
      pose proof (flush_buf_post inv accepted committed stalls need errs fuel s Hs Hf) as Hp.
      destruct (flush_buf_shape fuel s) as [k Hk]. destruct (flush_buf fuel s) as [o s1].
      destruct Hp as [Ha Ho]. simpl in Hk. destruct o as [[]|e| | |]; try done; cbn [and_then].
      * destruct Ho as [Eb Ec]. pose proof Ha as (_ & Hs1 & _ & _ & Hn1).
        destruct (write_line_bufs_post fuel s1 lines tail Hs1 Eb Ht Hb ltac:(lia)) as [Hw Hln].
        split; [by eapply write_post_after|done].
      * destruct Ho as [Hin He]. split; [split_and!; [done|done|congruence]|]. simpl. rewrite Hk.
        by apply lines_ok_drop.
    + pose proof (flush_if_post fuel s Hs Hl Hf) as Hp.
      destruct (flush_if_completed_line fuel s) as [o s1]. destruct Hp as (Ha & Hl1 & Ho).
      destruct o as [[]|e| | |]; try done; cbn [and_then];
        [|destruct Ho as [Hin He]; split; [split_and!; [done|done|congruence]|done]].
      pose proof Ha as (_ & Hs1 & _ & _ & Hn1). split.
      * eapply write_post_after; [done|].
        apply (write_vectored_bw_post inv accepted committed stalls need errs); [done|done|lia].
      * apply lines_ok_none. eapply no_newline_shape; [apply write_vectored_bw_shape|done|done].
  - destruct (find_nonempty bufs) as [[b rest]|] eqn:Ef.
    + pose proof (find_nonempty_newline _ _ _ Ef) as E. rewrite E, zlen_app in *.
      pose proof (zlen_nonneg (concat rest)).
      destruct (write_lw_post fuel s b Hs Hl ltac:(lia) Hf) as [Hw Hln]. split; [|done].
      destruct (write_lw fuel s b) as [o s1]. destruct o as [n|e| | |]; try done.
      destruct Hw as [Hn Ha]. split; [rewrite zlen_app; lia|]. by rewrite ztake_app_le by lia.
    + split; [|done]. split; [pose proof (zlen_nonneg (concat bufs)); lia|by apply accepts_nil].
Qed.

(** ** [write_all] *)
(** Complete lines, all of them, out of the buffer. *)
Definition push_lines (fuel : nat) s (lines : list byte) : outcome unit * BufWriter W :=
  match bw_buf s with
  | [] => inner_write s (write_all fuel (bw_inner s) lines)
  | _ => let '(o, s) := write_all_bw fuel s lines in and_then o s (fun _ => flush_buf fuel s)
  end.

Lemma push_lines_post fuel s lines : ok s -> zlen lines <= isize_max ->
  (bneed s + length lines + bw_stalls stalls s < fuel)%nat ->
  b_write_all_post s lines (push_lines fuel s lines) /\
  ((push_lines fuel s lines).1 = Val tt -> bw_buf (push_lines fuel s lines).2 = []).
Proof.
  intros Hs Hb Hf. unfold push_lines. destruct (bw_buf s) as [|x b] eqn:Eb.
  - pose proof (sink_write_all fuel (bw_inner s) lines ltac:(apply Hs) Hb
                  ltac:(unfold bw_need, bw_stalls in *; lia)) as Hw.
    rewrite (inner_write_guarded s) by (done || (destruct (write_all _ _ _) as [[] ?]; done)).
    pose proof (guarded_buf s (write_all fuel (bw_inner s) lines)) as Hg. rewrite Eb in Hg.
    split; [|done]. by apply (direct_write_all inv accepted committed stalls need errs).
  - pose proof (write_all_bw_post inv accepted committed stalls need errs fuel s lines Hs Hb Hf) as Hw.
    destruct (write_all_bw fuel s lines) as [o s1]. destruct o as [[]|e| | |]; try done; cbn [and_then].
    pose proof Hw as (_ & Hs1 & _ & Hst & Hn1).
    pose proof (flush_buf_post inv accepted committed stalls need errs fuel s1 Hs1 ltac:(lia)) as Hp.
    destruct (flush_buf fuel s1) as [o s2]. destruct Hp as [Ha Ho].
    pose proof (accepts_app _ _ _ _ _ _ _ _ _ _ Hw Ha) as Ha2. rewrite app_nil_r in Ha2.
    destruct o as [[]|e| | |]; try done.
    + split; [done|]. by intros _; destruct Ho.
    + destruct Ho as [Hi He]. split; [|done]. split_and!; [done|by left|]. by exists lines.
Qed.

Lemma push_lines_shape fuel s lines : lines_ok (bw_buf s) -> (exists k, lines = k ++ [newline]) ->
  lines_ok (bw_buf (push_lines fuel s lines).2).
Proof.
  intros Hl [k ->]. unfold push_lines. destruct (bw_buf s) as [|x b] eqn:Eb.
  - assert (forall A (y : outcome A * W), bw_buf (inner_write s y).2 = bw_buf s) as ->
      by (by intros A []). rewrite Eb. done.
  - assert (lines_ok (bw_buf (write_all_bw fuel s (k ++ [newline])).2)) as Hw.
    { unfold write_all_bw. rewrite <- Eb in Hl. destruct (_ <? _).
      - pose proof (unchecked_shape s (k ++ [newline])) as Hu.
        destruct (write_to_buffer_unchecked _ _); simpl; try done. rewrite Hu, app_assoc.
        apply lines_ok_snoc.
      - unfold write_all_cold. fold (room_for fuel s (zlen (k ++ [newline]))).
        destruct (room_for_shape fuel s (zlen (k ++ [newline]))) as [j Hj].
        destruct (room_for fuel s _) as [o s1]. simpl in Hj.
        assert (lines_ok (bw_buf s1)) as Hl1 by (rewrite Hj; by apply lines_ok_drop).
        destruct o as [[]|e| | |]; simpl; try done.
        destruct (_ >=? _); [by rewrite guarded_buf|].
        pose proof (unchecked_shape s1 (k ++ [newline])) as Hu.
        destruct (write_to_buffer_unchecked s1 _); simpl; try done. rewrite Hu, app_assoc.
        apply lines_ok_snoc. }
    destruct (write_all_bw fuel s (k ++ [newline])) as [o s1]. simpl in Hw.
    destruct o as [[]|e| | |]; simpl; try done. destruct (flush_buf_shape fuel s1) as [j Hj].
    rewrite Hj. by apply lines_ok_drop.
Qed.

Definition all_lw_post s buf (x : outcome unit * BufWriter W) : Prop :=
  b_write_all_post s buf x /\ lines_ok (bw_buf x.2) /\ (x.1 = Val tt -> newline ∉ bw_buf x.2).

(** Data without a line feed, on a buffer without one. *)
Lemma write_all_plain fuel s s1 d buf : b_accepts s d s1 -> newline ∉ bw_buf s1 ->
  newline ∉ buf -> zlen buf <= isize_max ->
  (bneed s + length buf + bw_stalls stalls s < fuel)%nat ->
  all_lw_post s (d ++ buf) (write_all_bw fuel s1 buf).
Proof.
  intros Ha Hn Hb Hz Hf. pose proof Ha as (_ & Hs1 & _ & Hst & Hn1).
  pose proof (write_all_bw_post inv accepted committed stalls need errs fuel s1 buf Hs1 Hz
                ltac:(lia)) as Hw.
  pose proof (no_newline_shape buf s1 _ (write_all_bw_shape fuel s1 buf) Hn Hb) as Hnn.
  split_and!; [by eapply write_all_post_app|by apply lines_ok_none|done].
Qed.

Lemma write_all_lw_post fuel s buf : ok s -> lines_ok (bw_buf s) -> zlen buf <= isize_max ->
  (bneed s + length buf + bw_stalls stalls s < fuel)%nat ->
  all_lw_post s buf (write_all_lw fuel s buf).
Proof.
  intros Hs Hl Hb Hf. unfold write_all_lw. destruct (memrchr newline buf) as [i|] eqn:Em.
  - destruct (memrchr_some _ _ _ Em) as (Hi & Hends & Hn). fold (push_lines fuel s (ztake (i + 1) buf)).
    assert (length (ztake (i + 1) buf) + length (zdrop (i + 1) buf) = length buf)%nat as Elen
      by (rewrite <- length_app, ztake_zdrop; done).
    assert (zlen (ztake (i + 1) buf) = i + 1) as E1 by (rewrite zlen_ztake; lia).
    assert (zlen (zdrop (i + 1) buf) = zlen buf - (i + 1)) as E2 by (rewrite zlen_zdrop; lia).
    destruct (push_lines_post fuel s (ztake (i + 1) buf) Hs ltac:(lia) ltac:(lia)) as [Hp Hempty].
    pose proof (push_lines_shape fuel s (ztake (i + 1) buf) Hl Hends) as Hsh.
    destruct (push_lines fuel s (ztake (i + 1) buf)) as [o s1]. simpl in Hsh, Hempty.
    destruct o as [[]|e| | |]; try done; cbn [and_then].
    + pose proof (ztake_zdrop (i + 1) buf) as Eb. rewrite <- Eb at 1.
      apply write_all_plain; [done|rewrite Hempty by done; apply not_elem_of_nil|done|lia|lia].
    + split_and!; [|done|done]. destruct Hp as (Hin & He & d & Hd & Ha). split_and!; [done|done|].
      exists d. split; [|done]. etrans; [exact Hd|apply ztake_prefix].
  - apply memrchr_none in Em. pose proof (flush_if_post fuel s Hs Hl ltac:(lia)) as Hp.
    destruct (flush_if_completed_line fuel s) as [o s1]. destruct Hp as (Ha & Hl1 & Ho).
    destruct o as [[]|e| | |]; try done; cbn [and_then].
    + by apply (write_all_plain fuel s s1 [] buf).
    + destruct Ho as [Hin He]. split_and!; [|done|done]. split_and!; [done|by left|].
      exists []. split; [apply prefix_nil|done].
Qed.
End lines.

(** * The sink *)
Section line_sink.
Context {W : Type} `{WW : Write W}.
Context (inv : W -> Prop) (accepted committed : W -> list byte) (stalls need : W -> nat)
  (errs : io_error -> Prop).
Context `{!Sink W inv accepted committed stalls need errs}.

Definition lw_ok (l : LineWriter W) : Prop :=
  bw_ok inv (lw_inner l) /\ lines_ok (bw_buf (lw_inner l)).
Definition lw_accepted (l : LineWriter W) : list byte := bw_accepted accepted (lw_inner l).
Definition lw_committed (l : LineWriter W) : list byte := bw_committed committed (lw_inner l).
Definition lw_stalls (l : LineWriter W) : nat := bw_stalls stalls (lw_inner l).
Definition lw_need (l : LineWriter W) : nat := bw_need stalls need (lw_inner l).

Abbreviation b_accepts := (accepts (bw_ok inv) (bw_accepted accepted) (bw_committed committed)
  (bw_stalls stalls) (bw_need stalls need)).
Abbreviation l_accepts := (accepts lw_ok lw_accepted lw_committed lw_stalls lw_need).

Lemma shim_accepts l d s : b_accepts (lw_inner l) d s -> lines_ok (bw_buf s) ->
  l_accepts l d (Build_LineWriter s).
Proof. intros (E & I & P & S & N) Hl. by split_and!. Qed.

Lemma flush_lines fuel s : lines_ok (bw_buf s) -> lines_ok (bw_buf (flush_bw fuel s).2).
Proof.
  intros Hl. unfold flush_bw. destruct (flush_buf_shape fuel s) as [k Hk].
  destruct (flush_buf fuel s) as [o s1]. simpl in Hk.
  assert (lines_ok (bw_buf s1)) as Hl1 by (rewrite Hk; by apply lines_ok_drop).
  destruct o as [[]|e| | |]; simpl; try done. by destruct (flush fuel (bw_inner s1)).
Qed.

(** Line buffering: a [LineWriter] keeps the contract of a sink, for any
    inner writer that does; and when [write_all] succeeds no line feed is left in
    its buffer: every complete line accepted so far has been handed to the inner
    writer. *)
Theorem line_writer_sink :
  Sink (LineWriter W) lw_ok lw_accepted lw_committed lw_stalls lw_need (bw_errs errs) /\
  forall fuel l buf, lw_ok l -> zlen buf <= isize_max ->
    (lw_need l + length buf + lw_stalls l < fuel)%nat ->
    (write_all fuel l buf).1 = Val tt -> newline ∉ bw_buf (lw_inner (write_all fuel l buf).2).
Proof.
  split.
  - split.
    + intros fuel [s] buf [Hs Hl] Hb Hf.
      destruct (write_lw_post inv accepted committed stalls need errs fuel s buf Hs Hl Hb Hf) as [Hw Hx].
      simpl. destruct (write_lw fuel s buf) as [o s']. destruct o as [n|e| | |]; try done; simpl.
      * destruct Hw as [Hn Ha]. split; [done|]. by apply shim_accepts.
      * destruct Hw as (Ha & He & Hi). split_and!; [by apply shim_accepts|done|done].
    + intros fuel [s] [Hs Hl] Hf.
      pose proof (flush_bw_post inv accepted committed stalls need errs fuel s Hs Hf) as Hw.
      pose proof (flush_lines fuel s Hl) as Hx. simpl.
      destruct (flush_bw fuel s) as [o s']. destruct o as [n|e| | |]; try done; simpl.
      * destruct Hw as [Ha Hc]. split; [by apply shim_accepts|done].
      * destruct Hw as (Ha & He & Hi). split_and!; [by apply shim_accepts|done|done].
    + intros fuel [s] bufs [Hs Hl] Hb Hf.
      destruct (write_vectored_lw_post inv accepted committed stalls need errs fuel s bufs Hs Hl Hb Hf)
        as [Hw Hx]. simpl. destruct (write_vectored_lw fuel s bufs) as [o s'].
      destruct o as [n|e| | |]; try done; simpl.
      * destruct Hw as [Hn Ha]. split; [done|]. by apply shim_accepts.
      * destruct Hw as (Ha & He & Hi). split_and!; [by apply shim_accepts|done|done].
    + intros fuel [s] buf [Hs Hl] Hb Hf.
      destruct (write_all_lw_post inv accepted committed stalls need errs fuel s buf Hs Hl Hb Hf)
        as (Hw & Hx & _). simpl. destruct (write_all_lw fuel s buf) as [o s'].
      destruct o as [n|e| | |]; try done; simpl.
      * by apply shim_accepts.
      * destruct Hw as (Hi & He & d & Hd & Ha). split_and!; [done|done|]. exists d.
        split; [done|by apply shim_accepts].
  - intros fuel [s] buf [Hs Hl] Hb Hf.
    destruct (write_all_lw_post inv accepted committed stalls need errs fuel s buf Hs Hl Hb Hf)
      as (_ & _ & Hn). simpl. by destruct (write_all_lw fuel s buf) as [o s'].
Qed.
End line_sink.
