(* ===== verification/IoCopy.v ===== *)
(** IoCopy: sgx_tstd/src/io/copy.rs, and the writers over memory of io/impls.rs.

    [copy] moves a stream into a sink.  It has two bodies: a buffer on the
    stack, and, for a [BufWriter] large enough, the writer's own buffer. *)
From Stdlib Require Import ZArith Lia String Strings.Byte.
From stdpp Require Import base numbers list option tactics.
From S2P Require Import Prelude SgxStatus IoError IoBase IoStream IoReaders IoReaderSpecs.
From S2P Require Import BufReader BufReaderSpecs BufWriter BufWriterSpecs LineWriterSpecs.
Import BufWriterIo.
Local Open Scope Z_scope.

(** * A slice to write into *)

(** [&mut [u8]]: the slice shrinks from the front; [ws_done] is what was
    written before it. *)
Record wslice := { ws_done : list byte; ws_left : list byte }.

Module WSliceIo.
Definition write (self : wslice) (data : list byte) : outcome Z * wslice :=
  let amt := Z.min (zlen data) (zlen (ws_left self)) in
  (Val amt, {| ws_done := ws_done self ++ ztake amt data; ws_left := zdrop amt (ws_left self) |}).

Fixpoint write_vectored (self : wslice) (bufs : list (list byte)) (nwritten : Z)
    : outcome Z * wslice :=
  match bufs with
  | [] => (Val nwritten, self)
  | buf :: bufs =>
      let '(o, self) := write self buf in
      and_then o self (fun n =>
        match ws_left self with
        | [] => (Val (nwritten + n), self)
        | _ => write_vectored self bufs (nwritten + n)
        end)
  end.

Definition write_all (self : wslice) (data : list byte) : outcome unit * wslice :=
  let '(o, self) := write self data in
  and_then o self (fun n =>
    if n =? zlen data then (Val tt, self) else (Bad write_zero_error, self)).
End WSliceIo.

#[export] Instance wslice_writes : Write wslice := {|
  write := fun _ => WSliceIo.write;
  flush := fun _ self => (Val tt, self);
  write_vectored := fun _ self bufs => WSliceIo.write_vectored self bufs 0;
  is_write_vectored := fun _ => true;
  write_all := fun _ => WSliceIo.write_all
|}.

Definition ws_ok (w : wslice) : Prop := True.
Definition no_need {W} (w : W) : nat := 0%nat.
Abbreviation ws_accepts := (accepts ws_ok ws_done ws_done no_stalls no_need).

Lemma wslice_write_post w data : exists n w', WSliceIo.write w data = (Val n, w') /\
  0 <= n <= zlen data /\ ws_accepts w (ztake n data) w' /\ (n < zlen data -> ws_left w' = []).
Proof.
  pose proof (zlen_nonneg data). pose proof (zlen_nonneg (ws_left w)).
  eexists _, _. split; [reflexivity|]. split_and!; try lia.
  - split; [done|]. split_and!; [done|simpl; by eexists|done|done].
  - intros Hn. simpl. apply zdrop_all. lia.
Qed.

(** Data for a slice that is full. *)
Lemma wslice_write_vectored_post bufs : forall w t, exists n w',
  WSliceIo.write_vectored w bufs t = (Val (t + n), w') /\ 0 <= n <= zlen (concat bufs) /\
  ws_accepts w (ztake n (concat bufs)) w'.
Proof.
  induction bufs as [|b bufs IH]; intros w t.
  - exists 0, w. split_and!; [by rewrite Z.add_0_r|done|done|by apply accepts_nil].
  - change (WSliceIo.write_vectored w (b :: bufs) t) with
      (let '(o, w) := WSliceIo.write w b in
       and_then o w (fun n => match ws_left w with
                              | [] => (Val (t + n), w)
                              | _ => WSliceIo.write_vectored w bufs (t + n) end)).
    change (concat (b :: bufs)) with (b ++ concat bufs). rewrite zlen_app. pose proof (zlen_nonneg (concat bufs)).
    destruct (wslice_write_post w b) as (n & w1 & -> & Hn & Ha & Hfull). cbn [and_then].
    destruct (ws_left w1) as [|x l] eqn:El.
    + exists n, w1. split_and!; [done|lia|lia|by rewrite ztake_app_le by lia].
    + destruct (IH w1 (t + n)) as (m & w2 & -> & Hm & Ha2).
      assert (n = zlen b) as En by (destruct (decide (n < zlen b)) as [Hlt|]; [by discriminate (Hfull Hlt)|lia]).
      exists (n + m), w2. rewrite En, ztake_app_more by lia.
      split_and!; [f_equal; f_equal; lia|lia|lia|].
      rewrite En, ztake_all in Ha by lia. by eapply accepts_app.
Qed.

#[export] Instance wslice_sink : Sink wslice ws_ok ws_done ws_done no_stalls no_need no_errs.
Proof.
  split; intros.
  - change (write fuel w buf) with (WSliceIo.write w buf).
    destruct (wslice_write_post w buf) as (n & w' & -> & Hn & Ha & _). by split.
  - split; [by apply accepts_nil|done].
  - change (write_vectored fuel w bufs) with (WSliceIo.write_vectored w bufs 0).
    by destruct (wslice_write_vectored_post bufs w 0) as (n & w' & -> & Hn & Ha).
  - change (write_all fuel w buf) with (WSliceIo.write_all w buf). unfold WSliceIo.write_all.
    destruct (wslice_write_post w buf) as (n & w' & -> & Hn & Ha & _).
    cbn [and_then]. destruct (Z.eqb_spec n (zlen buf)) as [->|Hne].
    + by rewrite ztake_all in Ha by lia.
    + split_and!; [reflexivity|by right|]. exists (ztake n buf). split; [apply ztake_prefix|done].
Qed.

(** * Copying *)
Section copy.
Context {R W : Type} `{Read R} `{Write W}.

Fixpoint stack_copy_loop (fuel : nat) (r : R) (w : W) (b : ReadBuf) (len : Z)
    : outcome Z * (R * W) :=
  match fuel with
  | O => (NoFuel, (r, w))
  | S fuel =>
      let '(o, (r, b)) := read_buf r b in
      or_retry o (r, w) (stack_copy_loop fuel r w b len) (fun _ =>
        and_then (RB.filled b) (r, w) (fun bs =>
          match bs with
          | [] => (Val len, (r, w))
          | _ =>
              let '(o, w) := write_all fuel w bs in
              and_then o (r, w) (fun _ =>
                and_then (RB.clear b) (r, w) (fun b =>
                  stack_copy_loop fuel r w b (wrap 64 (len + zlen bs))))
          end))
  end.

Definition stack_buffer_copy (fuel : nat) (r : R) (w : W) : outcome Z * (R * W) :=
  stack_copy_loop fuel r w (RB.uninit (zeros (Z.to_nat DEFAULT_BUF_SIZE))) 0.

(** [copy] into a [BufWriter]: the reader fills the writer's buffer.  The bytes
    of the vector past its length have no value in the model (zeros stand for
    them); only how many of them are initialised is kept. *)
Fixpoint buf_copy_loop (fuel : nat) (r : R) (s : BufWriter W) (len init : Z)
    : outcome Z * (R * BufWriter W) :=
  match fuel with
  | O => (NoFuel, (r, s))
  | S fuel =>
      let b := RB.assume_init (RB.uninit (zeros (Z.to_nat (spare_capacity s)))) init in
      if RB.capacity b >=? DEFAULT_BUF_SIZE then
        let '(o, (r, b)) := read_buf r b in
        or_retry o (r, s) (buf_copy_loop fuel r s len init) (fun _ =>
          let bytes_read := rb_filled b in
          if bytes_read =? 0 then (Val len, (r, s))
          else
            if spare_capacity s >=? bytes_read then
              buf_copy_loop fuel r (set_buf s (bw_buf s ++ ztake bytes_read (rb_buf b)))
                (wrap 64 (len + bytes_read)) (wrap 64 (rb_initialized b - bytes_read))
            else (UB, (r, s)))
      else
        let '(o, s) := flush_buf fuel s in
        and_then o (r, s) (fun _ => buf_copy_loop fuel r s len init)
  end.
End copy.

Definition copy_to_bw {R W} `{Read R} `{Write W} (fuel : nat) (r : R) (s : BufWriter W)
    : outcome Z * (R * BufWriter W) :=
  if bw_capacity s <? DEFAULT_BUF_SIZE then stack_buffer_copy fuel r s
  else buf_copy_loop fuel r s 0 0.

(** * What a copy does *)
Section copy_spec.
Context {R W : Type} `{RR : Read R} `{WW : Write W}.
Context (rinv : R -> Prop) (rest : R -> list byte) (rstalls : R -> nat) (rerrs : io_error -> Prop).
Context (winv : W -> Prop) (accepted committed : W -> list byte) (wstalls need : W -> nat)
  (werrs : io_error -> Prop).
Context `{!Stream R rinv rest rstalls rerrs}
  `{!Sink W winv accepted committed wstalls need werrs}.

Abbreviation dlv := (delivers rinv rest rstalls).
Abbreviation acc := (accepts winv accepted committed wstalls need).

(** All of the stream moved, or a part of it before an error, which is the
    reader's (then the sink has what was read) or the writer's. *)
Definition copy_post (len : Z) (r : R) (w : W) (x : outcome Z * (R * W)) : Prop :=
  let '(o, (r', w')) := x in
  match o with
  | Val n => n = wrap 64 (len + zlen (rest r)) /\ dlv r (rest r) r' /\ acc w (rest r) w'
  | Bad e => interrupted e = false /\ exists d d', dlv r d r' /\ d' `prefix_of` d /\ acc w d' w' /\
             (rerrs e /\ d' = d \/ werrs e \/ e = write_zero_error)
  | _ => False
  end.

Definition copy_fuel (r : R) (w : W) : nat :=
  (need w + length (rest r) + rstalls r + wstalls w + 1)%nat.

Lemma copy_post_app len r d r1 w w1 x : dlv r d r1 -> acc w d w1 ->
  copy_post (wrap 64 (len + zlen d)) r1 w1 x -> copy_post len r w x.
Proof.
  intros Hd Ha. destruct x as [o [r2 w2]]. pose proof Hd as (Er & _). 
  destruct o as [n|e| | |]; try done; simpl.
  - intros (-> & Hd2 & Ha2). rewrite Er. split_and!.
    + unfold wrap. rewrite Zplus_mod_idemp_l, zlen_app. f_equal. lia.
    + by eapply delivers_app.
    + by eapply accepts_app.
  - intros (Hi & k & k' & Hd2 & Hp & Ha2 & He). split; [done|]. exists (d ++ k), (d ++ k').
    split_and!; [by eapply delivers_app|by apply prefix_app|by eapply accepts_app|].
    destruct He as [(? & ->)|?]; [by left|by right].
Qed.

Lemma stack_copy_loop_post fuel : forall r w b len, rinv r -> winv w -> rb_ok b ->
  rb_filled b = 0 -> 0 < zlen (rb_buf b) -> 0 <= len < 2 ^ 64 -> (copy_fuel r w < fuel)%nat ->
  copy_post len r w (stack_copy_loop fuel r w b len).
Proof.
  induction fuel as [|fuel IH]; intros r w b len Hr Hw Hb Hf0 Hz Hlen Hf; [lia|].
  cbn [stack_copy_loop]. pose proof (stream_read_buf r b Hr Hb) as Hrd.
  destruct (read_buf r b) as [o [r1 b1]]. destruct Hrd as (Hb1 & Ez & Ho).
  destruct o as [[]|e| | |]; try done; cbn [or_retry and_then].
  - destruct Ho as (d & Hd & Ep & Efl & He). rewrite Hf0 in *.
    assert (filled_part b = []) as E0 by (unfold filled_part; by rewrite Hf0).
    rewrite E0 in Ep. simpl in Ep. pose proof Hb1 as [Hb1f Hb1i].
    unfold RB.filled. rewrite (proj2 (in_slice_spec _ _)) by lia. cbn [and_then].
    change (ztake (rb_filled b1) (rb_buf b1)) with (filled_part b1). rewrite Ep.
    pose proof Hd as (Er & I1 & S1). destruct d as [|x d].
    + destruct (He eq_refl) as [?|Enil]; [lia|].
      assert (wrap 64 (len + zlen (rest r)) = len) as El
        by (rewrite Enil, Z.add_0_r; by apply wrap_small).
      simpl. rewrite El, Enil. split_and!; [done|done|by apply accepts_nil].
    + set (bs := x :: d) in *. pose proof (prefix_zlen bs (rest r) ltac:(rewrite Er; by eexists)).
      assert (zlen bs <= isize_max) as Hbs.
      { rewrite <- Ep. unfold filled_part. rewrite zlen_ztake; lia. }
      assert (length (rest r) = length bs + length (rest r1))%nat as Hl
        by (rewrite Er, length_app; lia).
      unfold copy_fuel in *. subst bs. 
      pose proof (sink_write_all fuel w (x :: d) Hw Hbs ltac:(lia)) as Hwr.
      destruct (write_all fuel w (x :: d)) as [o w1]. destruct o as [[]|e| | |]; try done; cbn [and_then].
      * unfold RB.clear, RB.set_filled. destruct (Z.leb_spec 0 (rb_initialized b1)); [|lia].
        cbn [and_then]. pose proof Hwr as (_ & Iw & _ & Sw & Nw).
        eapply copy_post_app; [done|done|]. simpl in Hl.
        apply IH; [done|done|split; simpl; lia|done|simpl; lia|by apply wrap_range|lia].
      * destruct Hwr as (Hi & Hx & d' & Hp & Ha). split; [done|]. exists (x :: d), d'.
        split_and!; [done|done|done|by right].
  - destruct Ho as (Hrf & Efl & _). pose proof (refuses_delivers _ _ _ _ _ _ _ Hrf) as Hd.
    destruct Hrf as (E1 & I1 & S1 & X1 & Hs). pose proof (accepts_nil _ accepted committed wstalls need w Hw) as Ha.
    destruct (interrupted e) eqn:Ei.
    + specialize (Hs eq_refl). eapply copy_post_app; [done|done|].
      change (zlen []) with 0. rewrite Z.add_0_r, wrap_small by done.
      apply IH; [done|done|done|lia|lia|done|]. unfold copy_fuel in *. rewrite E1. lia.
    + split; [done|]. exists [], []. split_and!; [done|done|done|by left].
Qed.

(** [io::copy], through the buffer on the stack: from any reader that
    delivers a stream to any writer that keeps the contract of a sink, the
    writer is given exactly the bytes the reader had left, in order, and the
    result is their number; when it fails with an error of the reader the writer
    has everything that was read, and with an error of the writer a prefix; it
    ends, whatever the sizes of the pieces and the interruptions. *)
Theorem stack_buffer_copy_spec fuel r w : rinv r -> winv w -> (copy_fuel r w < fuel)%nat ->
  copy_post 0 r w (stack_buffer_copy fuel r w).
Proof.
  intros Hr Hw Hf. apply stack_copy_loop_post; try done.
Qed.
End copy_spec.

(** ** Into the buffer of a [BufWriter] *)
Section copy_bw.
Context {R W : Type} `{RR : Read R} `{WW : Write W}.
Context (rinv : R -> Prop) (rest : R -> list byte) (rstalls : R -> nat) (rerrs : io_error -> Prop).
Context (winv : W -> Prop) (accepted committed : W -> list byte) (wstalls need : W -> nat)
  (werrs : io_error -> Prop).
Context `{!Stream R rinv rest rstalls rerrs}
  `{!Sink W winv accepted committed wstalls need werrs}.

Abbreviation b_ok := (bw_ok winv).
Abbreviation b_need := (bw_need wstalls need).
Abbreviation bw_copy_post := (copy_post rinv rest rstalls rerrs b_ok (bw_accepted accepted)
  (bw_committed committed) (bw_stalls wstalls) b_need (bw_errs werrs)).

(** Two rounds for each read: one may have to make room. *)
Definition bw_copy_fuel (r : R) (s : BufWriter W) : nat :=
  (b_need s + 2 * (length (rest r) + rstalls r) +
   (if decide (spare_capacity s < DEFAULT_BUF_SIZE)%Z then 1 else 0))%nat.

Lemma bw_copy_fuel_read r d r1 s s1 : delivers rinv rest rstalls r d r1 ->
  (0 < length d)%nat \/ (rstalls r1 < rstalls r)%nat -> DEFAULT_BUF_SIZE <= spare_capacity s ->
  (b_need s1 <= b_need s)%nat -> (bw_copy_fuel r1 s1 < bw_copy_fuel r s)%nat.
Proof.
  intros (Er & _ & S1) Hp Hs Hn. unfold bw_copy_fuel. rewrite Er, length_app.
  repeat case_decide; lia.
Qed.

(** The buffer offered to the reader is the spare part of the vector. *)
Lemma spare_room_ok s init : b_ok s -> 0 <= init <= spare_capacity s ->
  let b := RB.assume_init (RB.uninit (zeros (Z.to_nat (spare_capacity s)))) init in
  rb_ok b /\ rb_filled b = 0 /\ zlen (rb_buf b) = spare_capacity s.
Proof.
  intros (_ & Hc & _) Hi. pose proof (zlen_nonneg (bw_buf s)). unfold isize_max in Hc.
  unfold spare_capacity in *. unfold rb_ok, isize_max. simpl. rewrite zlen_zeros.
  rewrite wrap_small by lia. lia.
Qed.

(** A read that filled the buffer in place. *)
Lemma bytes_in_place s b d : b_ok s -> zlen d <= spare_capacity s -> filled_part b = d ->
  rb_filled b = zlen d ->
  accepts b_ok (bw_accepted accepted) (bw_committed committed) (bw_stalls wstalls) b_need
    s d (set_buf s (bw_buf s ++ ztake (rb_filled b) (rb_buf b))) /\
  spare_capacity (set_buf s (bw_buf s ++ ztake (rb_filled b) (rb_buf b)))
  = spare_capacity s - zlen d.
Proof.
  intros Hs Hd Ep Ef. change (ztake (rb_filled b) (rb_buf b)) with (filled_part b). rewrite Ep.
  split; [by eapply buffer_append|]. unfold spare_capacity. simpl. rewrite zlen_app. lia.
Qed.

Definition buf_copy_ok (fuel : nat) : Prop := forall r s len init, rinv r -> b_ok s ->
  DEFAULT_BUF_SIZE <= bw_capacity s -> 0 <= init <= spare_capacity s -> 0 <= len < 2 ^ 64 ->
  (bw_copy_fuel r s < fuel)%nat -> bw_copy_post len r s (buf_copy_loop fuel r s len init).

(** A round with room in the buffer. *)
Lemma buf_copy_read fuel r s len init : buf_copy_ok fuel -> rinv r -> b_ok s ->
  DEFAULT_BUF_SIZE <= bw_capacity s -> 0 <= init <= spare_capacity s -> 0 <= len < 2 ^ 64 ->
  (bw_copy_fuel r s < S fuel)%nat -> DEFAULT_BUF_SIZE <= spare_capacity s ->
  bw_copy_post len r s (buf_copy_loop (S fuel) r s len init).
Proof.
  intros IH Hr Hs Hcap Hinit Hlen Hf Hroom.
  cbn [buf_copy_loop]. destruct (spare_room_ok s init Hs Hinit) as (Hb & Hb0 & Hbz).
  set (b := RB.assume_init _ _) in *. unfold RB.capacity. rewrite Hbz.
  assert (spare_capacity s <= isize_max) as Hmax by (rewrite <- Hbz; apply Hb).
  rewrite (Z.geb_leb _ DEFAULT_BUF_SIZE), (proj2 (Z.leb_le _ _)) by done.
  pose proof (accepts_nil _ (bw_accepted accepted) (bw_committed committed)
    (bw_stalls wstalls) b_need s Hs) as Ha0.
  pose proof (stream_read_buf r b Hr Hb) as Hrd.
  destruct (read_buf r b) as [o [r1 b1]]. destruct Hrd as (Hb1 & Ez & Ho).
  destruct o as [[]|e| | |]; try done; cbn [or_retry and_then].
  - destruct Ho as (d & Hd & Ep & Efl & He). rewrite Hb0 in *.
    assert (filled_part b = []) as E0 by (unfold filled_part; by rewrite Hb0).
    rewrite E0 in Ep. simpl in Ep. rewrite Z.add_0_l in Efl. pose proof Hb1 as [Hb1f Hb1i].
    destruct (Z.eqb_spec (rb_filled b1) 0) as [Ef0|Hne].
    + assert (d = []) as -> by (apply zlen_nil_inv; lia).
      destruct (He eq_refl) as [?|Enil]; [unfold DEFAULT_BUF_SIZE in *; lia|].
      simpl. rewrite Enil, Z.add_0_r, wrap_small by done. by split_and!.
    + rewrite Z.geb_leb, (proj2 (Z.leb_le _ _)) by lia.
      destruct (bytes_in_place s b1 d Hs ltac:(lia) Ep Efl) as [Ha Hsp].
      unfold isize_max in Hmax. rewrite (wrap_small 64 (_ - _)) by lia. rewrite Efl at 2.
      pose proof Hd as (_ & I1 & _). pose proof Ha as (_ & Is & _ & _ & Ns).
      eapply copy_post_app; [done|exact Ha|].
      apply IH; [done|done|done|lia|by apply wrap_range|].
      eapply Nat.lt_le_trans; [eapply bw_copy_fuel_read; [exact Hd| |exact Hroom|exact Ns]|lia].
      left. unfold zlen in Efl. lia.
  - destruct Ho as (Hrf & _ & _). pose proof (refuses_delivers _ _ _ _ _ _ _ Hrf) as Hd.
    destruct Hrf as (E1 & I1 & S1 & X1 & Hst). destruct (interrupted e) eqn:Ei.
    + eapply copy_post_app; [done|done|]. change (zlen []) with 0.
      rewrite Z.add_0_r, wrap_small by done. apply IH; try done.
      eapply Nat.lt_le_trans; [eapply bw_copy_fuel_read; [exact Hd| |exact Hroom|done]|lia].
      right. by apply Hst.
    + split; [done|]. exists [], []. split_and!; [done|done|done|by left].
Qed.

Lemma buf_copy_loop_post fuel : buf_copy_ok fuel.
Proof.
  induction fuel as [|fuel IH]; intros r s len init Hr Hs Hcap Hinit Hlen Hf; [lia|].
  destruct (decide (DEFAULT_BUF_SIZE <= spare_capacity s)) as [Hroom|Hroom];
    [by apply buf_copy_read|].
  cbn [buf_copy_loop]. destruct (spare_room_ok s init Hs Hinit) as (_ & _ & Hbz).
  unfold RB.capacity. rewrite Hbz, Z.geb_leb, (proj2 (Z.leb_gt _ _)) by lia.
  pose proof (flush_buf_post winv accepted committed wstalls need werrs
    fuel s Hs ltac:(unfold bw_copy_fuel in Hf; lia)) as Hfl.
  destruct (flush_buf fuel s) as [o s1]. destruct Hfl as [Ha Ho].
  destruct o as [[]|e| | |]; try done; cbn [and_then].
  - destruct Ho as [Eb Ec]. pose proof Ha as (_ & Is & _ & _ & Ns).
    assert (spare_capacity s1 = bw_capacity s) as Esp
      by (unfold spare_capacity; rewrite Eb, Ec; unfold zlen; simpl; lia).
    eapply copy_post_app; [by apply delivers_nil|exact Ha|]. change (zlen []) with 0.
    rewrite Z.add_0_r, wrap_small by done. apply IH; [done|done|lia| |done|].
    + rewrite Esp. unfold spare_capacity in Hinit. pose proof (zlen_nonneg (bw_buf s)). lia.
    + unfold bw_copy_fuel in *. rewrite decide_True in Hf by lia.
      rewrite decide_False by lia. lia.
  - destruct Ho as [Hi He]. split; [done|]. exists [], [].
    split_and!; [by apply delivers_nil|done|exact Ha|right; by left].
Qed.

(** [io::copy] into a [BufWriter], by the stack buffer when the writer's is
    small and otherwise straight into the writer's buffer, where the reader
    fills memory the vector does not count yet: both bodies have the contract of
    a copy, the unsafe [set_len] stays within the capacity, and both end. *)
Theorem copy_to_buf_writer fuel r s : rinv r -> b_ok s ->
  (2 * (b_need s + length (rest r) + rstalls r + bw_stalls wstalls s + 1) < fuel)%nat ->
  bw_copy_post 0 r s (copy_to_bw fuel r s).
Proof.
  intros Hr Hs Hf. unfold copy_to_bw. destruct (Z.ltb_spec (bw_capacity s) DEFAULT_BUF_SIZE).
  - pose proof (bw_sink winv accepted committed wstalls need werrs).
    apply stack_copy_loop_post; try done. unfold copy_fuel. lia.
  - apply buf_copy_loop_post; try done.
    + destruct Hs as (_ & Hc & _). unfold spare_capacity. lia.
    + unfold bw_copy_fuel. case_decide; lia.
Qed.
End copy_bw.

(** * Concrete streams and sinks *)
Definition four : wslice := {| ws_done := []; ws_left := zeros 4 |}.
Definition abc : slice := Slice [Byte.x61; Byte.x62; Byte.x63].

Lemma abc_ok : slice_ok abc.
Proof. by vm_compute. Qed.

(** From a buffered reader of two bytes into four bytes of memory. *)
Lemma stack_buffer_copy_spec_witness :
  let r := BufReaderIo.with_capacity 2 abc in
  copy_post (br_ok slice_ok) (br_rest sl) (br_stalls no_stalls) no_errs
    ws_ok ws_done ws_done no_stalls no_need no_errs 0 r four (stack_buffer_copy 5 r four) /\
  ws_done (stack_buffer_copy 5 r four).2.2 = sl abc.
Proof.
  split; [|vm_compute; reflexivity].
  pose proof (br_stream (R := slice) slice_ok sl no_stalls no_errs).
  apply (stack_buffer_copy_spec _ _ _ _ _ _ _ _ _ _); [|done|vm_compute; lia].
  apply (new_buffered_ok _ sl); [apply abc_ok|done].
Defined.

(** Eight kilobytes of buffer: the reader fills them, and the flush that makes
    room again hands them on. *)
Lemma copy_to_buf_writer_witness :
  let s := BufWriterIo.new four in
  copy_post slice_ok sl no_stalls no_errs (bw_ok ws_ok) (bw_accepted ws_done) (bw_committed ws_done)
    (bw_stalls no_stalls) (bw_need no_stalls no_need) (bw_errs no_errs)
    0 abc s (copy_to_bw 20000 abc s) /\
  ws_done (bw_inner (copy_to_bw 20000 abc s).2.2) = sl abc.
Proof.
  split; [|lazy; reflexivity].
  apply (copy_to_buf_writer _ _ _ _ _ _ _ _ _ _); [apply abc_ok|by apply (new_writer_ok _ ws_done)|].
  refine (proj1 (Nat.ltb_lt _ _) _). vm_compute. reflexivity.
Defined.

Lemma buffered_sink_witness :
  let s := with_capacity 2 four in
  write_all_post (bw_ok ws_ok) (bw_accepted ws_done) (bw_committed ws_done) (bw_stalls no_stalls)
    (bw_need no_stalls no_need) (bw_errs no_errs) s (sl abc) (write_all 8 s (sl abc)) /\
  ws_done (bw_inner (write_all 8 s (sl abc)).2) = sl abc.
Proof.
  split; [|vm_compute; reflexivity].
  apply (proj1 (buffered_sink (W := wslice) ws_ok ws_done ws_done no_stalls no_need no_errs));
    [by apply (new_writer_ok _ ws_done)|done|vm_compute; lia].
Defined.

(** A line and a half: the line is out. *)
Lemma line_writer_sink_witness :
  let l := Build_LineWriter (with_capacity 4 four) in
  let line := [Byte.x61; newline; Byte.x62] in
  (newline ∉ bw_buf (lw_inner (write_all 9 l line).2)) /\
  ws_done (bw_inner (lw_inner (write_all 9 l line).2)) = [Byte.x61; newline].
Proof.
  split; [|vm_compute; reflexivity].
  apply (proj2 (line_writer_sink (W := wslice) ws_ok ws_done ws_done no_stalls no_need no_errs));
    [|done|vm_compute; lia|vm_compute; reflexivity].
  split; [by apply (new_writer_ok _ ws_done)|]. intros H. by apply elem_of_nil in H.
Defined.
