(* ===== verification/IoText.v ===== *)
(** IoText: text over the readers, sgx_tstd/src/io/mod.rs.

    Reading into a [String] goes through [append_to_string], whose guard cuts the
    string back unless the new bytes are valid UTF-8.  [strings_stay_valid]: it
    does so whatever the reader does to the buffer that it is lent;
    [replaced_buffer_overflows]: it must not put another buffer in its place.
    [buffered_stream]: [BufReader] with all the methods that it has of its own.  [lines] and [split] take a stream apart at
    a delimiter: [lines_roundtrip]. *)
From Stdlib Require Import ZArith Lia String Strings.Byte.
From stdpp Require Import base numbers list option tactics sets.
From S2P Require Import Prelude SgxStatus Opaque IoError IoBase IoStream IoReaders IoReaderSpecs.
From S2P Require Import BufReader BufReaderSpecs.
Local Open Scope Z_scope.

Definition invalid_utf8 : io_error :=
  SimpleMessage InvalidData "stream did not contain valid UTF-8".

(** * Strings *)

(** The guard of [append_to_string] on a buffer: its bytes, and [set_len] to a
    shorter length, which runs on every way out. *)
Definition append_to_string {R B} (bytes : B -> list byte) (truncate : B -> Z -> outcome B)
    (f : B -> outcome Z * (R * B)) (buf : B) : outcome Z * (R * B) :=
  let len := zlen (bytes buf) in
  let '(ret, (r, b)) := f buf in
  let cut ret := and_then (truncate b len) (r, b) (fun b => (ret, (r, b))) in
  match ret with
  | Val _ | Bad _ =>
      if len <=? zlen (bytes b) then
        if negb (utf8_valid (zdrop len (bytes b)))
        then cut (match ret with Val _ => Bad invalid_utf8 | _ => ret end)
        else (ret, (r, b))
      else cut Panics
  | Panics => cut Panics
  | UB | NoFuel => (ret, (r, b))
  end.

(** A [String] that is read to the end of is a vector; one that is read up to a
    delimiter is a list of bytes. *)
Definition append_vec {R} : (Vec -> outcome Z * (R * Vec)) -> Vec -> outcome Z * (R * Vec) :=
  append_to_string contents set_len.
Definition append_bytes {R} : (list byte -> outcome Z * (R * list byte)) -> list byte ->
    outcome Z * (R * list byte) :=
  append_to_string id (fun l n => Val (ztake n l)).

Definition default_read_to_string {R} `{Read R} (fuel : nat) (r : R) (buf : Vec)
    : outcome Z * (R * Vec) :=
  append_vec (default_read_to_end read read_buf fuel r) buf.

(** [BufReader::read_to_string] *)
Definition buf_read_to_string {R} `{Read R} (fuel : nat) (self : BufReader R) (buf : Vec)
    : outcome Z * (BufReader R * Vec) :=
  if v_len buf =? 0 then append_vec (read_to_end fuel self) buf
  else
    let '(o, (self, bytes)) := read_to_end fuel self vec_new in
    and_then o (self, buf) (fun _ =>
      let string := contents bytes in
      if utf8_valid string then
        and_then (extend_from_slice buf string) (self, buf) (fun buf => (Val (zlen string), (self, buf)))
      else (Bad invalid_utf8, (self, buf))).

Definition read_line {R} `{BufRead R} (fuel : nat) (r : R) (buf : list byte)
    : outcome Z * (R * list byte) :=
  append_bytes (read_until fuel r Byte.x0a) buf.

(** * Iterators *)

(** [buf.ends_with(c)] and [buf.pop()] for a character of one byte *)
Definition pop_if (c : byte) (buf : list byte) : option (list byte) :=
  if bool_decide (list.last buf = Some c) then Some (ztake (zlen buf - 1) buf) else None.

(** [Split::next]; an item that is an error is the outcome [Bad]. *)
Definition split_next {R} `{BufRead R} (fuel : nat) (self : R) (delim : byte)
    : outcome (option (list byte)) * R :=
  let '(o, (self, buf)) := read_until fuel self delim [] in
  and_then o self (fun n =>
    if n =? 0 then (Val None, self)
    else if zlen buf =? 0 then (Panics, self)
    else (Val (Some (default buf (pop_if delim buf))), self)).

(** [Lines::next] *)
Definition lines_next {R} `{BufRead R} (fuel : nat) (self : R) : outcome (option (list byte)) * R :=
  let '(o, (self, buf)) := read_line fuel self [] in
  and_then o self (fun n =>
    if n =? 0 then (Val None, self)
    else
      match pop_if Byte.x0a buf with
      | Some buf => (Val (Some (default buf (pop_if Byte.x0d buf))), self)
      | None => (Val (Some buf), self)
      end).

(** [reader.lines().collect()] *)
Fixpoint lines_collect {R} `{BufRead R} (fuel : nat) (self : R) : outcome (list (list byte)) * R :=
  match fuel with
  | O => (NoFuel, self)
  | S fuel =>
      let '(o, self) := lines_next fuel self in
      and_then o self (fun item =>
        match item with
        | None => (Val [], self)
        | Some l => let '(o, self) := lines_collect fuel self in
                    and_then o self (fun ls => (Val (l :: ls), self))
        end)
  end.

(** * Validity *)
Lemma utf8_valid_app s : forall t, utf8_valid s = true -> utf8_valid t = true ->
  utf8_valid (s ++ t) = true.
Proof.
  induction s as [s IH] using (well_founded_induction (well_founded_ltof _ (@length byte))).
  intros t Hs Ht. unfold ltof in IH. destruct s as [|b0 r0]; [done|]. simpl in *.
  destruct (between 0 127 b0); [apply IH; simpl; done || lia|].
  destruct r0 as [|b1 r1]; [done|]. simpl in *.
  destruct (between 194 223 b0).
  { apply andb_true_iff in Hs as [-> Hs]. apply IH; simpl; done || lia. }
  destruct r1 as [|b2 r2]; [done|]. simpl in *.
  destruct (between 224 239 b0).
  { apply andb_true_iff in Hs as [-> Hs]. apply IH; simpl; done || lia. }
  destruct r2 as [|b3 r3]; [done|]. simpl in *.
  apply andb_true_iff in Hs as [-> Hs]. apply IH; simpl; done || lia.
Qed.

(** ** Vectors that only grow *)
Definition grows (v v' : Vec) : Prop := vec_ok v' /\ contents v `prefix_of` contents v'.

Lemma zlen_contents v : vec_ok v -> zlen (contents v) = v_len v.
Proof. intros [Hl _]. unfold contents, capacity in *. rewrite zlen_ztake; lia. Qed.

Lemma grows_trans v1 v2 v3 : grows v1 v2 -> grows v2 v3 -> grows v1 v3.
Proof. intros [_ H1] [H2 H3]. split; [done|by etrans]. Qed.

Lemma reserve_grows n v : vec_ok v -> 0 <= n ->
  match reserve n v with
  | Val v' => vec_ok v' /\ contents v' = contents v /\ v_len v' = v_len v /\
              Z.max n (capacity v - v_len v) <= capacity v' - v_len v'
  | Panics => True
  | _ => False
  end.
Proof.
  intros Hv Hn. pose proof Hv as [Hl Hc]. unfold reserve.
  destruct (Z.geb_spec (capacity v - v_len v) n); [split_and!; done || lia|].
  set (cap := Z.max 8 _). destruct (Z.gtb_spec cap isize_max); [done|].
  unfold vec_ok, contents, capacity in *. simpl. rewrite zlen_app, zlen_zeros.
  split_and!; try lia. apply ztake_app_le. lia.
Qed.

Lemma extend_grows v bs : vec_ok v ->
  match extend_from_slice v bs with
  | Val v' => vec_ok v' /\ contents v' = contents v ++ bs
  | Panics => True
  | _ => False
  end.
Proof.
  intros Hv. unfold extend_from_slice. pose proof (zlen_nonneg bs) as Hn.
  pose proof (reserve_grows (zlen bs) v Hv Hn) as Hr.
  destruct (reserve (zlen bs) v) as [v1|e| | |]; try done. destruct Hr as (H1 & H2 & H3 & H4).
  pose proof (zlen_contents v1 H1) as Hc. destruct H1 as [Hl Hm].
  assert (zlen (zdrop (zlen bs) (spare v1)) = capacity v1 - v_len v1 - zlen bs) as Hd.
  { unfold spare, capacity in *. rewrite !zlen_zdrop; [lia| |]; rewrite ?zlen_zdrop; lia. }
  rewrite <- H2. split.
  - split; unfold capacity at 1; simpl; rewrite !zlen_app, Hc, Hd; lia.
  - unfold contents at 1. simpl. rewrite <- Hc, app_assoc, <- zlen_app. apply ztake_app.
Qed.

Lemma set_spare_grows v bs : vec_ok v -> zlen bs = capacity v - v_len v ->
  vec_ok (set_spare v bs) /\ contents (set_spare v bs) = contents v /\
  capacity (set_spare v bs) = capacity v.
Proof.
  intros Hv Hb. pose proof (zlen_contents v Hv) as Hc. destruct Hv as [Hl Hm].
  assert (capacity (set_spare v bs) = capacity v) as Ec.
  { unfold capacity at 1. simpl. rewrite zlen_app. lia. }
  split_and!; [split; rewrite ?Ec; simpl; lia| |done].
  unfold contents at 1. simpl. rewrite <- Hc. apply ztake_app.
Qed.

Lemma set_len_grows v n : vec_ok v -> v_len v <= n <= capacity v ->
  exists v', set_len v n = Val v' /\ grows v v' /\ v_len v' = n /\ capacity v' = capacity v.
Proof.
  intros [Hl Hc] Hn. unfold set_len. rewrite (proj2 (andb_true_iff _ _)) by lia.
  eexists. split; [reflexivity|]. split_and!; try done.
  split; [split; unfold capacity in *; simpl; lia|].
  unfold contents. simpl. exists (zdrop (v_len v) (ztake n (v_mem v))). unfold ztake, zdrop.
  rewrite <- (take_drop (Z.to_nat (v_len v)) (take (Z.to_nat n) (v_mem v))) at 1. f_equal.
  rewrite take_take. f_equal. lia.
Qed.

(** A reader that leaves the buffer it is lent in place.  Through the safe methods of
    [ReadBuf] it can write any bytes, and grow or shrink the filled and grow the
    initialised part; the fields are private, so the buffer stays [rb_ok]. *)
Definition keeps_buffers {R} (rdb : R -> ReadBuf -> outcome unit * (R * ReadBuf)) : Prop :=
  forall r b, rb_ok b -> rb_ok (rdb r b).2.2 /\ zlen (rb_buf (rdb r b).2.2) = zlen (rb_buf b).

Section any_reader.
Context {R : Type}.
Variable rd : R -> list byte -> outcome Z * (R * list byte).
Variable rdb : R -> ReadBuf -> outcome unit * (R * ReadBuf).
Hypothesis rdb_keeps : keeps_buffers rdb.

Definition grow_post (v : Vec) (x : outcome Z * (R * Vec)) : Prop :=
  let '(o, (r', v')) := x in o <> UB /\ grows v v'.

Lemma grow_post_after v v1 x : grows v v1 -> grow_post v1 x -> grow_post v x.
Proof. destruct x as [o [r' v']]. intros Hg [Ho Hg']. split; [done|by eapply grows_trans]. Qed.

Lemma probe_no_ub fuel : forall r, (forall r buf, (rd r buf).1 <> UB) -> (probe rd fuel r).1 <> UB.
Proof.
  induction fuel as [|fuel IH]; intros r Hrd; [done|]. simpl. pose proof (Hrd r (zeros 32)) as Hr.
  destruct (rd r (zeros 32)) as [o [r1 bs]]. destruct o as [n|e| | |]; simpl in *; try done.
  - destruct (n =? 0); [done|]. by destruct (in_slice n bs).
  - destruct (interrupted e); [by apply IH|done].
Qed.

Hypothesis rd_safe : forall r buf, (rd r buf).1 <> UB.
Hypothesis rdb_safe : forall r b, (rdb r b).1 <> UB.

(** Room for more. *)
Lemma next_room v init : vec_ok v -> 0 <= init <= capacity v - v_len v ->
  match (if v_len v =? capacity v then reserve 32 v else Val v) with
  | Val v1 => vec_ok v1 /\ contents v1 = contents v /\ v_len v1 = v_len v /\
              init <= capacity v1 - v_len v1
  | Panics => True
  | _ => False
  end.
Proof.
  intros Hv Hi. destruct (Z.eqb_spec (v_len v) (capacity v)); [|split_and!; done || lia].
  pose proof (reserve_grows 32 v Hv ltac:(lia)) as Hr.
  destruct (reserve 32 v); try done. destruct Hr as (? & ? & ? & ?). split_and!; done || lia.
Qed.

Lemma read_to_end_grows fuel : forall start_len start_cap init r v, vec_ok v ->
  0 <= init <= capacity v - v_len v ->
  grow_post v (read_to_end_loop rd rdb fuel start_len start_cap init r v).
Proof.
  induction fuel as [|fuel IH]; intros start_len start_cap init r v Hv Hi; [by split|].
  cbn [read_to_end_loop]. pose proof (next_room v init Hv Hi) as Hn.
  destruct (if v_len v =? _ then _ else _) as [v1|e| | |]; try done; cbn [and_then].
  destruct Hn as (Hv1 & Ec & El & Hi1). pose proof Hv1 as [Hl1 Hm1].
  set (b := RB.assume_init _ _).
  assert (zlen (spare v1) = capacity v1 - v_len v1) as Hsp
    by (unfold spare, capacity in *; rewrite zlen_zdrop; lia).
  assert (rb_ok b) as Hb.
  { unfold rb_ok, isize_max in *. simpl. rewrite Hsp, wrap_small; lia. }
  destruct (rdb_keeps r b Hb) as (Hb2 & Hz). pose proof (rdb_safe r b) as Hs.
  destruct (rdb r b) as [o [r2 b2]]. simpl in Hb2, Hz, Hs. rewrite Hsp in Hz.
  destruct (set_spare_grows v1 (rb_buf b2) Hv1 Hz) as (Hv2 & Ec2 & Ecap).
  set (v2 := set_spare v1 (rb_buf b2)) in *. assert (v_len v2 = v_len v1) as El2 by done.
  assert (grows v v2) as Hg by (split; [done|by rewrite Ec2, Ec]).
  destruct o as [[]|e| | |]; try done; cbn [or_retry and_then].
  - destruct (Z.eqb_spec (rb_filled b2) 0); [by split|]. destruct Hb2 as [Hf Hb2].
    unfold isize_max in *. rewrite wrap_small by lia.
    destruct (set_len_grows v2 (rb_filled b2 + v_len v2) Hv2 ltac:(lia)) as (v3 & -> & Hg3 & El3 & Ec3).
    cbn [and_then]. apply (grow_post_after v v3); [by eapply grows_trans|]. destruct Hg3 as [Hv3 _].
    assert (0 <= rb_initialized b2 - rb_filled b2 <= capacity v3 - v_len v3) as Hi3 by lia.
    destruct ((v_len v3 =? capacity v3) && _) eqn:Efull; [|by apply IH].
    pose proof (probe_no_ub fuel r2 rd_safe) as Hp.
    destruct (probe rd fuel r2) as [o r3]. destruct o as [bs|e| | |]; try done; cbn [and_then].
    destruct bs as [|x bs]; [by split|]. pose proof (extend_grows v3 (x :: bs) Hv3) as He.
    destruct (extend_from_slice v3 (x :: bs)) as [v4|e| | |]; try done; cbn [and_then].
    destruct He as [Hv4 Ec4]. apply (grow_post_after v3 v4); [split; [done|rewrite Ec4; by eexists]|].
    apply IH; [done|]. apply andb_true_iff in Efull as [Efull _]. destruct Hv4. lia.
  - destruct (interrupted e); [|by split]. eapply grow_post_after; [done|]. apply IH; [done|lia].
Qed.
End any_reader.

(** ** The guard *)

(** What a [String] is after a call: valid, and with what it held before. *)
Definition text_post {R B} (bytes : B -> list byte) (ok : B -> Prop) (b : B)
    (x : outcome Z * (R * B)) : Prop :=
  let '(o, (_, b')) := x in
  o <> UB /\ (o <> NoFuel -> ok b' /\ utf8_valid (bytes b') = true /\ bytes b `prefix_of` bytes b').

(** Cutting a buffer back to [b]'s length, when [b] is still in front. *)
Definition cuts {B} (bytes : B -> list byte) (ok : B -> Prop) (truncate : B -> Z -> outcome B)
    (b b' : B) : Prop :=
  exists b2, truncate b' (zlen (bytes b)) = Val b2 /\ ok b2 /\ bytes b2 = bytes b.

Lemma append_to_string_valid {R B} (bytes : B -> list byte) (ok : B -> Prop) truncate f b :
  utf8_valid (bytes b) = true ->
  (let '(o, (r', b')) := (f b : outcome Z * (R * B)) in
   o <> UB /\ ok b' /\ bytes b `prefix_of` bytes b' /\ cuts bytes ok truncate b b') ->
  text_post bytes ok b (append_to_string bytes truncate f b).
Proof.
  intros Hb Hf. unfold append_to_string. destruct (f b) as [o [r' b']].
  destruct Hf as (Ho & Hok & [d Hd] & b2 & Et & Hb2 & E2).
  assert (forall ret, ret <> UB -> text_post bytes ok b
            (and_then (truncate b' (zlen (bytes b))) (r', b') (fun b => (ret, (r', b))))) as Hcut.
  { intros ret Hret. rewrite Et. split; [done|]. intros _. split_and!; [done|by rewrite E2|].
    by rewrite E2. }
  assert (forall ret : outcome Z, ret <> UB -> utf8_valid d = true -> text_post bytes ok b (ret, (r', b'))) as Hkeep.
  { intros ret Hret Hv. split; [done|]. intros _.
    split_and!; [done|rewrite Hd; by apply utf8_valid_app|rewrite Hd; by eexists]. }
  destruct o as [n|e| | |]; try done; try (by apply Hcut);
    rewrite Hd, zlen_app, (proj2 (Z.leb_le _ _)), zdrop_app by (pose proof (zlen_nonneg d); lia);
    destruct (utf8_valid d) eqn:Ev; simpl; solve [by apply Hcut | by apply Hkeep].
Qed.

Lemma vec_cuts v v' : vec_ok v -> grows v v' -> cuts contents vec_ok set_len v v'.
Proof.
  intros Hv [Hv' [d Hd]]. pose proof (zlen_contents v Hv) as Ev.
  pose proof (zlen_contents v' Hv') as Ev'. pose proof (zlen_nonneg d).
  rewrite Hd, zlen_app in Ev'. destruct Hv as [Hl _], Hv' as [Hl' Hc']. unfold cuts, set_len.
  rewrite Ev, (proj2 (andb_true_iff _ _)) by lia.
  eexists. split; [reflexivity|]. split; [split; unfold capacity in *; simpl; lia|].
  transitivity (ztake (v_len v) (contents v')).
  - unfold contents, ztake. simpl. rewrite take_take. f_equal. lia.
  - rewrite Hd, <- Ev. apply ztake_app.
Qed.

(** ** Readers without undefined behaviour of their own, that keep their buffers *)
Definition keeping_read (R : Type) `{Read R} : Prop :=
  (forall r buf, (read r buf).1 <> UB) /\ (forall r b, (read_buf r b).1 <> UB) /\
  keeps_buffers read_buf.

(** A [ReadBuf] is handed over as [&mut ReadBuf], and safe code can store another one
    there, over memory of its own, with other counters.  [default_read_to_end] takes
    the length of the vector from them: if more is filled than the vector has room
    for, [set_len] goes beyond the allocated memory. *)
Theorem replaced_buffer_overflows {R} rd (rdb : R -> ReadBuf -> outcome unit * (R * ReadBuf))
    fuel r r' v (other : ReadBuf) :
  vec_ok v -> rb_ok other -> v_len v < capacity v -> capacity v - v_len v < rb_filled other ->
  (forall b, rdb r b = (Val tt, (r', {| rb_buf := rb_buf b; rb_filled := rb_filled other;
                                        rb_initialized := rb_initialized other |}))) ->
  (default_read_to_end rd rdb (S fuel) r v).1 = UB.
Proof.
  intros [Hl Hc] [Hf Hi] Hlt Hmore Hr. unfold default_read_to_end. cbn [read_to_end_loop].
  rewrite (proj2 (Z.eqb_neq _ _)) by lia. cbn [and_then]. rewrite Hr.
  cbn [rb_buf rb_filled rb_initialized RB.assume_init RB.uninit or_retry and_then].
  rewrite (proj2 (Z.eqb_neq _ _)) by lia. unfold isize_max in *. simpl v_len.
  rewrite wrap_small by lia. unfold set_len, set_spare, spare, contents. unfold capacity in *. cbn [v_mem].
  rewrite ztake_zdrop, (proj2 (Z.leb_gt (rb_filled other + v_len v) _)) by lia.
  by rewrite andb_false_r.
Qed.

(** A reader whose [read_to_end] may do anything to the vector's bytes. *)
Definition any_read_to_end (R : Type) `{Read R} : Prop := forall fuel r v, vec_ok v ->
  (read_to_end fuel r v).1 <> UB /\ vec_ok (read_to_end fuel r v).2.2.

Lemma read_until_grows {R} `{BufRead R} fuel : (forall r, (fill_buf r).1 <> UB) ->
  forall r delim buf n, let '(o, (_, buf')) := read_until_loop fuel r delim buf n in
    o <> UB /\ buf `prefix_of` buf'.
Proof.
  intros Hs. induction fuel as [|fuel IH]; intros r delim buf n; [done|]. simpl.
  pose proof (Hs r) as Hr. destruct (fill_buf r) as [o r1].
  destruct o as [b|e| | |]; simpl in *; try done.
  - destruct (memchr delim b) as [i|]; simpl; [split; [done|by eexists]|].
    destruct (zlen b =? 0); [split; [done|by eexists]|].
    pose proof (IH (consume r1 (zlen b)) delim (buf ++ b) (n + zlen b)) as Hi.
    destruct (read_until_loop _ _ _ _ _) as [o [r2 buf2]]. destruct Hi as [Ho Hp].
    split; [done|]. etrans; [|exact Hp]. by eexists.
  - destruct (interrupted e); [apply IH|done].
Qed.

Lemma default_read_to_string_valid {R} `{Read R} fuel r v : keeping_read R -> vec_ok v ->
  utf8_valid (contents v) = true ->
  text_post contents vec_ok v (default_read_to_string fuel r v).
Proof.
  intros (Hr & Hrb & Hk) Hv Hu. apply append_to_string_valid; [done|].
  pose proof (read_to_end_grows read read_buf Hk Hr Hrb fuel (v_len v) (capacity v) 0 r v Hv) as Hg.
  unfold default_read_to_end. destruct (read_to_end_loop _ _ _ _ _ _ _ _) as [o [r' v']].
  destruct Hg as [Ho Hg]; [destruct Hv; lia|]. pose proof (vec_cuts v v' Hv Hg).
  destruct Hg. by split_and!.
Qed.

Lemma read_line_valid {R} `{BufRead R} fuel r buf : (forall r, (fill_buf r).1 <> UB) ->
  utf8_valid buf = true -> text_post id (fun _ => True) buf (read_line fuel r buf).
Proof.
  intros Hs Hu. apply append_to_string_valid; [done|].
  pose proof (read_until_grows fuel Hs r Byte.x0a buf 0) as Hg. unfold read_until.
  destruct (read_until_loop _ _ _ _ _) as [o [r' b']]. destruct Hg as [Ho [d ->]].
  split_and!; [done|done|by eexists|]. eexists. split_and!; [done|done|]. apply ztake_app.
Qed.

Lemma buffered_to_end_safe {R} `{Read R} : any_read_to_end R -> any_read_to_end (BufReader R).
Proof.
  intros Ha fuel s v Hv. simpl. unfold BufReaderIo.read_to_end.
  destruct (BufReaderIo.buffer s) as [bs|e| | |] eqn:Eb; try done;
    try (unfold BufReaderIo.buffer in Eb; by case_match).
  cbn [and_then]. pose proof (extend_grows v bs Hv) as He.
  destruct (extend_from_slice v bs) as [v1|e| | |]; try done; cbn [and_then].
  destruct He as [Hv1 _]. pose proof (Ha fuel (br_inner (BufReaderIo.discard_buffer s)) v1 Hv1) as Hx.
  destruct (read_to_end _ _ _) as [o [r v2]]. destruct Hx as [Ho Hv2]. by destruct o.
Qed.

Lemma buf_read_to_string_valid {R} `{Read R} fuel s v : any_read_to_end R -> vec_ok v ->
  utf8_valid (contents v) = true -> text_post contents vec_ok v (buf_read_to_string fuel s v).
Proof.
  intros Ha Hv Hu. apply buffered_to_end_safe in Ha. unfold buf_read_to_string.
  destruct (Z.eqb_spec (v_len v) 0) as [E0|_].
  - apply append_to_string_valid; [done|]. pose proof (Ha fuel s v Hv) as Hx.
    destruct (read_to_end fuel s v) as [o [s' v']]. destruct Hx as [Ho Hv'].
    assert (grows v v') as Hg by (split; [done|]; unfold contents at 1; rewrite E0; apply prefix_nil).
    pose proof (vec_cuts v v' Hv Hg). destruct Hg. by split_and!.
  - assert (vec_ok vec_new) as Hn by done. pose proof (Ha fuel s vec_new Hn) as Hx.
    destruct (read_to_end fuel s vec_new) as [o [s' v']]. destruct Hx as [Ho Hv'].
    destruct o as [n|e| | |]; try done; cbn [and_then].
    destruct (utf8_valid (contents v')) eqn:Ev; [|done].
    pose proof (extend_grows v (contents v') Hv) as He.
    destruct (extend_from_slice v (contents v')) as [v1|e| | |]; try done; cbn [and_then].
    destruct He as [Hv1 E1]. split; [done|]. intros _. rewrite E1.
    split_and!; [done|by apply utf8_valid_app|by eexists].
Qed.

(** C18. A [String] stays valid UTF-8: [read_to_string] and [read_line], with data of
    any kind, errors and panics in the middle included, leave a string that is valid
    and begins with what it held before; and so does [BufReader]'s own
    [read_to_string] even over a reader whose [read_to_end] rewrites the bytes already
    in the vector.  A reader may do to the [ReadBuf] that it is lent what its safe
    methods allow, shrinking the filled part included; only storing another
    [ReadBuf] in its place is excluded, for then the code is wrong
    ([replaced_buffer_overflows]). *)
Theorem strings_stay_valid :
  (forall R `{Read R} fuel (r : R) v, keeping_read R -> vec_ok v -> utf8_valid (contents v) = true ->
     text_post contents vec_ok v (default_read_to_string fuel r v)) /\
  (forall R `{BufRead R} fuel (r : R) buf, (forall r : R, (fill_buf r).1 <> UB) ->
     utf8_valid buf = true -> text_post id (fun _ => True) buf (read_line fuel r buf)) /\
  (forall R `{Read R} fuel (s : BufReader R) v, any_read_to_end R -> vec_ok v ->
     utf8_valid (contents v) = true -> text_post contents vec_ok v (buf_read_to_string fuel s v)).
Proof.
  split_and!; intros;
    [by apply default_read_to_string_valid|by apply read_line_valid|by apply buf_read_to_string_valid].
Qed.

(** * Lines *)
Section lines.
Context {R : Type} `{BR : BufRead R} (inv : R -> Prop) (rest : R -> list byte) (stalls : R -> nat).
Context `{!BufStream R inv rest stalls no_errs}.

Abbreviation LF := Byte.x0a.
Abbreviation CR := Byte.x0d.

Lemma read_line_stream fuel r : inv r -> (enough rest stalls r <= fuel)%nat ->
  utf8_valid (upto LF (rest r)) = true ->
  exists r', read_line fuel r [] = (Val (zlen (upto LF (rest r))), (r', upto LF (rest r))) /\
    delivers inv rest stalls r (upto LF (rest r)) r'.
Proof.
  intros Hr Hf Hu. unfold read_line, append_bytes, append_to_string, read_until.
  pose proof (read_until_loop_post inv rest stalls no_errs fuel r LF [] 0 Hr Hf) as Hp.
  destruct (read_until_loop fuel r LF [] 0) as [o [r' b]]. destruct o as [n|e| | |]; try done.
  2: by destruct Hp as (_ & [] & _).
  destruct Hp as (Hd & -> & ->). exists r'. simpl app. unfold id. change (zlen []) with 0.
  pose proof (zlen_nonneg (upto LF (rest r))). rewrite (proj2 (Z.leb_le _ _)) by lia.
  rewrite zdrop_0, Hu. done.
Qed.

Lemma memchr_absent c l : c ∉ l -> memchr c l = None.
Proof.
  intros Hl. unfold memchr. destruct (list_find _ l) as [[i x]|] eqn:E; [|done].
  apply list_find_Some in E as (Hi & -> & _). by apply list_elem_of_lookup_2 in Hi.
Qed.

Lemma upto_line l k : LF ∉ l -> upto LF (l ++ LF :: k) = l ++ [LF].
Proof.
  intros Hl. rewrite upto_absent by (by apply memchr_absent). f_equal.
Qed.

Lemma upto_rest l : LF ∉ l -> upto LF l = l.
Proof. intros Hl. unfold upto. by rewrite memchr_absent. Qed.

Lemma pop_if_last c l : pop_if c (l ++ [c]) = Some l.
Proof.
  unfold pop_if. rewrite bool_decide_eq_true_2 by apply last_snoc. f_equal.
  rewrite zlen_app. change (zlen [c]) with 1. rewrite Z.add_simpl_r. apply ztake_app.
Qed.

Lemma pop_if_other c l : list.last l <> Some c -> pop_if c l = None.
Proof. intros Hl. unfold pop_if. by rewrite bool_decide_eq_false_2. Qed.

(** A line of text and how it ends. *)
Inductive ending := Lf | CrLf.
Definition end_bytes (e : ending) : list byte := match e with Lf => [LF] | CrLf => [CR; LF] end.
Definition line_bytes (l : list byte * ending) : list byte := l.1 ++ end_bytes l.2.
Definition line_ok (l : list byte * ending) : Prop :=
  utf8_valid l.1 = true /\ (LF ∉ l.1) /\ (l.2 = Lf -> list.last l.1 <> Some CR).

Lemma line_shape l k : line_ok l ->
  upto LF (line_bytes l ++ k) = line_bytes l /\ utf8_valid (line_bytes l) = true /\
  exists p, pop_if LF (line_bytes l) = Some p /\ default p (pop_if CR p) = l.1.
Proof.
  destruct l as [l e]. intros (Hu & Hl & Hc). simpl in *. unfold line_bytes. simpl.
  destruct e; simpl.
  - rewrite <- app_assoc. split_and!; [by apply upto_line|by apply utf8_valid_app|].
    exists l. split; [apply pop_if_last|]. by rewrite pop_if_other by auto.
  - replace (l ++ [CR; LF]) with ((l ++ [CR]) ++ [LF]) by (by rewrite <- app_assoc).
    assert (LF ∉ l ++ [CR]) as Hl2.
    { rewrite elem_of_app, list_elem_of_singleton. intros [?|?]; done. }
    rewrite <- (app_assoc (l ++ [CR])).
    split_and!; [by apply upto_line|apply utf8_valid_app; [by apply utf8_valid_app|done]|].
    exists (l ++ [CR]). split; [apply pop_if_last|]. by rewrite pop_if_last.
Qed.

Lemma lines_next_line fuel r l k : inv r -> (enough rest stalls r <= fuel)%nat -> line_ok l ->
  rest r = line_bytes l ++ k ->
  exists r', lines_next fuel r = (Val (Some l.1), r') /\
    delivers inv rest stalls r (line_bytes l) r' /\ rest r' = k.
Proof.
  intros Hr Hf Hl Er. destruct (line_shape l k Hl) as (Eu & Hu & p & Ep & Ed).
  rewrite <- Er in Eu. rewrite <- Eu in Hu.
  destruct (read_line_stream fuel r Hr Hf Hu) as (r' & E & Hd). rewrite Eu in *.
  exists r'. unfold lines_next. rewrite E. cbn [and_then].
  assert (zlen (line_bytes l) <> 0) as Hz.
  { intros Hz%zlen_nil_inv. by rewrite Hz in Ep. }
  rewrite (proj2 (Z.eqb_neq _ _)) by done. rewrite Ep, Ed. split_and!; [done|done|].
  destruct Hd as (Er' & _). rewrite Er in Er'. by apply app_inv_head in Er'.
Qed.

Lemma lines_next_tail fuel r : inv r -> (enough rest stalls r <= fuel)%nat ->
  utf8_valid (rest r) = true -> LF ∉ rest r -> 
  exists r', delivers inv rest stalls r (rest r) r' /\
    lines_next fuel r = (Val (if bool_decide (rest r = []) then None else Some (rest r)), r').
Proof.
  intros Hr Hf Hu Hl. rewrite <- (upto_rest (rest r) Hl) in Hu.
  destruct (read_line_stream fuel r Hr Hf Hu) as (r' & E & Hd).
  rewrite (upto_rest (rest r) Hl) in *. exists r'. split; [done|]. unfold lines_next. rewrite E.
  cbn [and_then]. destruct (Z.eqb_spec (zlen (rest r)) 0) as [Hz|Hz].
  - apply zlen_nil_inv in Hz. by rewrite bool_decide_eq_true_2.
  - rewrite bool_decide_eq_false_2 by (intros E0; by rewrite E0 in Hz). rewrite pop_if_other; [done|].
    intros Hlast. apply Hl. by apply last_Some_elem_of.
Qed.

Definition tail_lines (tail : list byte) : list (list byte) :=
  if bool_decide (tail = []) then [] else [tail].

Lemma collect_tail fuel r : inv r -> (enough rest stalls r < fuel)%nat ->
  utf8_valid (rest r) = true -> LF ∉ rest r ->
  (lines_collect fuel r).1 = Val (tail_lines (rest r)).
Proof.
  intros Hr Hf Hu Hl. destruct fuel as [|fuel]; [lia|]. simpl.
  destruct (lines_next_tail fuel r Hr ltac:(lia) Hu Hl) as (r1 & Hd & ->). cbn [and_then].
  unfold tail_lines. case_bool_decide as Ee; [done|].
  assert (enough rest stalls r1 < enough rest stalls r)%nat as He by (by eapply enough_less).
  destruct Hd as (E1 & I1 & S1). rewrite <- (app_nil_r (rest r)) in E1 at 1.
  apply app_inv_head in E1. destruct fuel as [|fuel]; [lia|]. simpl.
  assert (utf8_valid (rest r1) = true /\ (LF ∉ rest r1)) as [Hu1 Hl1].
  { rewrite <- E1. split; [done|]. apply not_elem_of_nil. }
  destruct (lines_next_tail fuel r1 I1 ltac:(lia) Hu1 Hl1) as (r2 & Hd & ->).
  by rewrite bool_decide_eq_true_2.
Qed.

(** [lines()] gives a text's lines back: over any reader with a buffer,
    filled in pieces of any size, a text of lines that end in LF or CRLF, with or
    without an unterminated last line, is read as exactly those lines, without
    their ends, and then the iterator ends. *)
Theorem lines_roundtrip fuel ls tail : forall r, inv r ->
  rest r = concat (line_bytes <$> ls) ++ tail -> Forall line_ok ls ->
  utf8_valid tail = true -> LF ∉ tail -> (enough rest stalls r + length ls < fuel)%nat ->
  (lines_collect fuel r).1 = Val (ls.*1 ++ tail_lines tail).
Proof.
  revert fuel. induction ls as [|l ls IH]; intros fuel r Hr Er Hls Hu Ht Hf; simpl in *.
  - subst tail. apply collect_tail; done || lia.
  - apply Forall_cons_1 in Hls as [Hl Hls]. destruct fuel as [|fuel]; [lia|]. simpl.
    rewrite <- app_assoc in Er.
    destruct (lines_next_line fuel r l _ Hr ltac:(lia) Hl Er) as (r1 & -> & Hd & E1).
    cbn [and_then]. destruct Hd as (Er' & I1 & S1).
    specialize (IH fuel r1 I1 E1 Hls Hu Ht). unfold enough in *. rewrite Er', length_app in Hf.
    destruct (lines_collect fuel r1) as [o r2]. simpl in IH. rewrite IH by lia. done.
Qed.
End lines.

(** Three lines, two bytes at a time. *)
Lemma lines_roundtrip_witness :
  (lines_collect 20 (BufReaderIo.with_capacity 2
     (Slice [Byte.x61; Byte.x0a; Byte.x62; Byte.x63; Byte.x0d; Byte.x0a; Byte.x64]))).1
  = Val [[Byte.x61]; [Byte.x62; Byte.x63]; [Byte.x64]].
Proof.
  pose proof (buffered_buf_stream (R := slice) slice_ok sl no_stalls no_errs).
  apply (lines_roundtrip _ _ _ 20 [([Byte.x61], Lf); ([Byte.x62; Byte.x63], CrLf)] [Byte.x64]);
    [|done| |done| |vm_compute; lia].
  - split; [|done]. apply (new_buffered_ok _ sl); unfold slice_ok, isize_max, zlen; simpl; lia.
  - repeat constructor; set_solver.
  - set_solver.
Defined.

Lemma slice_keeping_read : keeping_read slice.
Proof.
  split_and!; [done| |].
  - intros r b. simpl. unfold SliceIo.read_buf, RB.append, RB.add_filled, RB.set_filled.
    by repeat case_match.
  - intros r b Hb. simpl. unfold SliceIo.read_buf. rewrite (RB_remaining b Hb). set (n := Z.min _ _).
    pose proof (zlen_nonneg (sl r)). pose proof Hb as [Hf Hi].
    assert (zlen (ztake n (sl r)) = n) as Et by (rewrite zlen_ztake; lia).
    destruct (append_ok b (ztake n (sl r)) Hb) as (b' & -> & Hb' & Ez & Ep & Ef); [lia|]. simpl.
    split_and!; done || lia.
Qed.

(** Bytes that are no text are not kept. *)
Lemma strings_stay_valid_witness :
  let r := Slice [Byte.x61; Byte.xff] in
  text_post contents vec_ok vec_new (default_read_to_string 8 r vec_new) /\
  contents (default_read_to_string 8 r vec_new).2.2 = [] /\
  text_post id (fun _ => True) [Byte.x62] (read_line 8 r [Byte.x62]) /\
  (read_line 8 r [Byte.x62]).2.2 = [Byte.x62].
Proof.
  split_and!; [|vm_compute; reflexivity| |vm_compute; reflexivity].
  - by apply (proj1 strings_stay_valid); [apply slice_keeping_read|..].
  - by apply (proj1 (proj2 strings_stay_valid)).
Defined.

(** * A buffered reader with its own methods *)
Section buffered_text.
Context {R : Type} `{Read R} (inv : R -> Prop) (rest : R -> list byte) (stalls : R -> nat)
  (errs : io_error -> Prop).
Context `{!Stream R inv rest stalls errs}.
Abbreviation br_delivers := (delivers (br_ok inv) (br_rest rest) (br_stalls stalls)).

(** Reading a string to the end: all of the stream, if it is text; else an error, and
    the string has grown by text that was read, if at all. *)
Definition to_string_post (s : BufReader R) (v : Vec) (x : outcome Z * (BufReader R * Vec)) : Prop :=
  let '(o, (s', v')) := x in
  vec_ok v' /\
  match o with
  | Val n => br_delivers s (br_rest rest s) s' /\ utf8_valid (br_rest rest s) = true /\
             n = zlen (br_rest rest s) /\ contents v' = contents v ++ br_rest rest s
  | Bad e =>
      (exists d, br_delivers s d s' /\
         (contents v' = contents v \/ utf8_valid d = true /\ contents v' = contents v ++ d)) /\
      (e = invalid_utf8 /\ utf8_valid (br_rest rest s) = false /\ contents v' = contents v \/
       interrupted e = false /\ errs e)
  | _ => False
  end.

Lemma to_string_empty fuel s v : br_ok inv s -> vec_ok v -> v_len v = 0 -> room v (br_rest rest s) ->
  (enough (br_rest rest) (br_stalls stalls) s < fuel)%nat ->
  to_string_post s v (append_vec (read_to_end fuel s) v).
Proof.
  intros Hs Hv E0 Hroom Hf.
  pose proof (buffered_read_to_end_post inv rest stalls errs fuel s v Hs Hv Hroom Hf) as Hp.
  assert (contents v = []) as Ec by (unfold contents; by rewrite E0).
  unfold append_vec, append_to_string. rewrite Ec. change (zlen []) with 0.
  change (read_to_end fuel s v) with (BufReaderIo.read_to_end fuel s v).
  destruct (BufReaderIo.read_to_end fuel s v) as [o [s' v']]. destruct Hp as [Hv' Ho].
  assert (grows v v') as Hg by (split; [done|]; rewrite Ec; apply prefix_nil).
  destruct (vec_cuts v v' Hv Hg) as (v2 & Et & Hv2 & E2). rewrite Ec in Et, E2. change (zlen []) with 0 in Et.
  pose proof (zlen_nonneg (contents v')).
  destruct o as [n|e| | |]; try done; rewrite (proj2 (Z.leb_le _ _)), zdrop_0 by lia.
  - destruct Ho as (Hd & -> & E). rewrite Ec in E. cbn [app] in E.
    destruct (utf8_valid (contents v')) eqn:Eu; cbn [negb].
    + rewrite E in Eu. split; [done|]. rewrite Ec. by split_and!.
    + rewrite Et. cbn [and_then]. split; [done|]. rewrite Ec, E2. rewrite E in Eu.
      split; [exists (br_rest rest s); auto|]. by left.
  - destruct Ho as (Hi & He & d & Hd & E). rewrite Ec in E. cbn [app] in E.
    destruct (utf8_valid (contents v')) eqn:Eu; cbn [negb].
    + rewrite E in Eu. split; [done|]. rewrite Ec. split; [exists d; auto|by right].
    + rewrite Et. cbn [and_then]. split; [done|]. rewrite Ec, E2. split; [exists d; auto|by right].
Qed.

Lemma buffered_read_to_string_post fuel s v : br_ok inv s -> vec_ok v -> room v (br_rest rest s) ->
  (enough (br_rest rest) (br_stalls stalls) s < fuel)%nat ->
  to_string_post s v (buf_read_to_string fuel s v).
Proof.
  intros Hs Hv Hroom Hf. unfold buf_read_to_string.
  destruct (Z.eqb_spec (v_len v) 0) as [E0|_]; [by apply to_string_empty|].
  assert (room vec_new (br_rest rest s)) as Hroom' by (destruct Hv; unfold room in *; simpl; lia).
  pose proof (buffered_read_to_end_post inv rest stalls errs fuel s vec_new Hs ltac:(done) Hroom' Hf) as Hp.
  change (read_to_end fuel s vec_new) with (BufReaderIo.read_to_end fuel s vec_new).
  destruct (BufReaderIo.read_to_end fuel s vec_new) as [o [s' v']]. destruct Hp as [Hv' Ho].
  destruct o as [n|e| | |]; try done; cbn [and_then].
  - destruct Ho as (Hd & -> & E). change (contents vec_new) with (@nil byte) in E. cbn [app] in E. rewrite E.
    destruct (utf8_valid (br_rest rest s)) eqn:Eu.
    + destruct (extend_from_slice_ok v (br_rest rest s)) as (v1 & -> & Hv1 & Hc1 & Hl1); [done|done|].
      cbn [and_then]. split; [done|]. by split_and!.
    + split; [done|]. split; [exists (br_rest rest s); auto|by left].
  - destruct Ho as (Hi & He & d & Hd & E). split; [done|]. split; [exists d; auto|by right].
Qed.
End buffered_text.

(** C16. A buffered reader is the stream it reads from: for every reader [R] that
    delivers a stream of bytes, in pieces of any size, with interruptions and
    errors, [BufReader<R>] delivers the buffered bytes and then those of [R],
    in order, none lost and none twice, through each method of [Read] that it has of
    its own: [read], [read_buf], [read_exact] and [read_to_end], whose loops end,
    [read_vectored], if [R] keeps its promise to vectored reads, and
    [read_to_string], which takes all of the stream if it is UTF-8 and reports an error
    if not; and, with a buffer that can hold a byte, through [fill_buf] and
    [consume], where an empty buffer means the end of the stream. *)
Theorem buffered_stream {R} `{Read R} inv rest stalls errs `{!Stream R inv rest stalls errs} :
  Stream (BufReader R) (br_ok inv) (br_rest rest) (br_stalls stalls) errs /\
  (VecStream R inv rest stalls errs ->
   VecStream (BufReader R) (br_ok inv) (br_rest rest) (br_stalls stalls) errs) /\
  (forall fuel s v, br_ok inv s -> vec_ok v -> room v (br_rest rest s) ->
     (enough (br_rest rest) (br_stalls stalls) s < fuel)%nat ->
     to_string_post inv rest stalls errs s v (buf_read_to_string fuel s v)) /\
  BufStream (BufReader R) (fun s => br_ok inv s /\ 0 < zlen (br_buf s))
    (br_rest rest) (br_stalls stalls) errs.
Proof.
  split_and!; [apply br_stream; exact _| |by apply buffered_read_to_string_post|
               apply buffered_buf_stream; exact _].
  intros Hvec. split. intros. by apply buffered_read_vectored_post.
Qed.

(** Two bytes at a time, to the end; into two buffers; and into a string. *)
Lemma buffered_stream_witness :
  let r := BufReaderIo.with_capacity 2 (Slice [Byte.x61; Byte.x62; Byte.x63]) in
  (to_end_post (br_ok slice_ok) (br_rest sl) (br_stalls no_stalls) no_errs r vec_new
    (read_to_end 8 r vec_new) /\
  contents (read_to_end 8 r vec_new).2.2 = [Byte.x61; Byte.x62; Byte.x63]) /\
  (vectored_post (br_ok slice_ok) (br_rest sl) (br_stalls no_stalls) no_errs r [zeros 1; zeros 2]
    (read_vectored r [zeros 1; zeros 2]) /\
  (read_vectored r [zeros 1; zeros 2]).2.2 = [[Byte.x61]; [Byte.x62; Byte.x63]]) /\
  (to_string_post slice_ok sl no_stalls no_errs r vec_new (buf_read_to_string 8 r vec_new) /\
  contents (buf_read_to_string 8 r vec_new).2.2 = [Byte.x61; Byte.x62; Byte.x63]).
Proof.
  assert (br_ok slice_ok (BufReaderIo.with_capacity 2 (Slice [Byte.x61; Byte.x62; Byte.x63]))) as Hr.
  { apply (new_buffered_ok _ sl); unfold slice_ok, isize_max, zlen; simpl; lia. }
  assert (vec_ok vec_new) as Hv by (unfold vec_ok, isize_max; vm_compute; split_and!; discriminate).
  pose proof (buffered_stream (R := slice) slice_ok sl no_stalls no_errs) as (Hs & Hvec & Ht & _).
  split_and!; try (vm_compute; reflexivity).
  - apply Hs; [done|done|unfold room; vm_compute; discriminate|vm_compute; lia].
  - apply (Hvec slice_vec_stream); [done|]. vm_compute. discriminate.
  - apply Ht; [done|done|unfold room; vm_compute; discriminate|vm_compute; lia].
Defined.
