(* ===== verification/IoFd.v ===== *)
(** IoFd: file descriptors, sgx_tstd/src/sys/fd.rs, and of sys/fs.rs and fs.rs seeking,
    the size of a file and [read_to_end].

    [FileDesc] is where the readers and writers of the standard library meet the
    system calls (Ocall).  The caller's buffer lies in the enclave, at [fd_buf];
    an operation on a list of bytes works on that memory.

    [file_stream]: over a host that answers [read] as POSIX says, a file is a
    stream (IoStream), so all that is proved of buffered readers and of [copy]
    holds of files.  The size and the position that [File]'s [read_to_end] asks for
    beforehand may be wrong; at worst it panics.  [lying_read_overflows]: the answer is not checked, and a
    host that claims more bytes than it was asked for makes [read_to_end] set the
    length of a vector beyond its memory. *)
From Stdlib Require Import ZArith Lia Strings.Byte.
From stdpp Require Import base numbers list option tactics gmap.
From S2P Require Import Prelude SgxStatus Trts ToyMachine Ocall OcallProofs OcallIo.
From S2P Require Import IoError IoBase IoStream IoReaders IoReaderSpecs.
Import Bounds.
Local Open Scope Z_scope.

Record FileDesc (H : Type) := Fd { fd_raw : Z; fd_buf : Z; fd_world : world H }.
Arguments Fd {H}. Arguments fd_raw {H}. Arguments fd_buf {H}. Arguments fd_world {H}.

Definition READ_LIMIT : Z := isize_max.

Module FdIo.
Section ops.
Context {H : Type} `{Region} `{Enclave} `{Host H}.
Implicit Types (self : FileDesc H).

Definition with_world self (w : world H) : FileDesc H := Fd (fd_raw self) (fd_buf self) w.

(** A system call on the caller's buffer, which holds [buf]. *)
Definition on_buffer self (buf : list byte) (call : Z -> Z -> ST (world H) Z)
    : result io_error Z * (FileDesc H * list byte) :=
  let '(ret, w) := call (fd_raw self) (fd_buf self) (store (fd_buf self) buf (fd_world self)).2 in
  (cvt ret (errno w), (with_world self w, load_bytes w (fd_buf self) (length buf))).

(** [ret as usize] *)
Definition as_usize (x : result io_error Z) : outcome Z :=
  match x with Ok ret => Val (wrap 64 ret) | Err e => Bad e end.

Definition read self (buf : list byte) : outcome Z * (FileDesc H * list byte) :=
  let '(ret, s) := on_buffer self buf (fun fd p =>
    Libc.read fd p (Z.min (zlen buf) READ_LIMIT)) in
  (as_usize ret, s).

Definition read_at self (buf : list byte) (offset : Z) : outcome Z * (FileDesc H * list byte) :=
  let '(ret, s) := on_buffer self buf (fun fd p =>
    Libc.pread64 fd p (Z.min (zlen buf) READ_LIMIT) (swrap 64 offset)) in
  (as_usize ret, s).

(** [read_buf]: the host's answer becomes the length of what is initialised. *)
Definition read_buf self (b : ReadBuf) : outcome unit * (FileDesc H * ReadBuf) :=
  let '(ret, (self, bs)) := on_buffer self (RB.unfilled b) (fun fd p =>
    Libc.read fd p (Z.min (RB.remaining b) READ_LIMIT)) in
  let b := RB.set_unfilled b bs in
  and_then (as_usize ret) (self, b) (fun ret =>
    and_then (RB.add_filled (RB.assume_init b ret) ret) (self, b) (fun b => (Val tt, (self, b)))).

Definition write self (buf : list byte) : outcome Z * FileDesc H :=
  let '(ret, (self, _)) := on_buffer self buf (fun fd p =>
    Libc.write fd p (Z.min (zlen buf) READ_LIMIT)) in
  (as_usize ret, self).

Definition write_at self (buf : list byte) (offset : Z) : outcome Z * FileDesc H :=
  let '(ret, (self, _)) := on_buffer self buf (fun fd p =>
    Libc.pwrite64 fd p (Z.min (zlen buf) READ_LIMIT) (swrap 64 offset)) in
  (as_usize ret, self).

(** [File::seek], sys/fs.rs *)
Definition seek self (pos : SeekFrom) : outcome Z * FileDesc H :=
  let '(whence, pos) := match pos with
                        | Start off => (0, swrap 64 off)
                        | End off => (2, off)
                        | Current off => (1, off)
                        end in
  let '(n, w) := Libc.lseek64 (fd_raw self) pos whence (fd_world self) in
  (as_usize (cvt n (errno w)), with_world self w).
End ops.
End FdIo.

(** [Read for &FileDesc] *)
#[export] Instance fd_reads {H} `{Region} `{Enclave} `{Host H} : Read (FileDesc H) :=
  plain_read FdIo.read.

(** [Seek for File] (fs.rs) *)
#[export] Instance fd_seeks {H} `{Region} `{Enclave} `{Host H} : Seek (FileDesc H) :=
  {| seek := FdIo.seek |}.

(** Offset of [st_size] in [stat64]. *)
Definition st_size : Z := 48.

Section file.
Context {H : Type} `{Region} `{Enclave} `{Host H}.
Implicit Types (self : FileDesc H).

(** [File::metadata] and [Metadata::len]: the size that the host puts into the
    [stat64] at the address [stat] of the stack. *)
Definition file_size (stat : Z) self : outcome Z * FileDesc H :=
  let '(_, w) := write_zeros stat stat_size (fd_world self) in
  let '(ret, w) := Libc.fstat64 (fd_raw self) stat w in
  match cvt ret (errno w) with
  | Ok _ => (Val (load64 w (stat + st_size)), FdIo.with_world self w)
  | Err e => (Bad e, FdIo.with_world self w)
  end.

(** [unwrap_or(0)] *)
Definition value_or_0 (o : outcome Z) : Z := match o with Val n => n | _ => 0 end.

(** Both numbers are the host's word. *)
Definition buffer_capacity_required (stat : Z) self : Z * FileDesc H :=
  let '(size, self) := file_size stat self in
  let '(pos, self) := stream_position self in
  (Z.max 0 (value_or_0 size - value_or_0 pos), self).

(** [Read for File] (fs.rs): [read_buf] is that of [FileDesc], and [read_to_end]
    uses it, once it has made room for what the host says is left. *)
Definition file_read_to_end (fuel : nat) (stat : Z) self (buf : Vec)
    : outcome Z * (FileDesc H * Vec) :=
  let '(n, self) := buffer_capacity_required stat self in
  and_then (reserve n buf) (self, buf) (fun buf =>
    default_read_to_end FdIo.read FdIo.read_buf fuel self buf).
End file.

(** * An honest host *)

(** What POSIX says of [read] on a file whose remaining bytes are [rest].  Asking for the
    size or the position moves nothing; the answers may be anything. *)
Class HostFile (H : Type) `{Host H} (fd : Z) (rest : H -> list byte) (stalls : H -> nat) : Prop := {
  host_read p n w : 0 <= n ->
    let '(r, w1) := perform (U_read fd p n) w in
    if bool_decide (r_status r = SGX_SUCCESS /\ r_result r <> -1) then
      exists d, rest (host w) = d ++ rest (host w1) /\ r_result r = zlen d /\ zlen d <= n /\
        (stalls (host w1) <= stalls (host w))%nat /\
        (fun i => umem w1 (p + Z.of_nat i)) <$> seq 0 (length d) = d /\
        (d = [] -> n = 0 \/ rest (host w) = [])
    else
      rest (host w1) = rest (host w) /\ (stalls (host w1) <= stalls (host w))%nat /\
      (r_status r = SGX_SUCCESS -> r_error r = Errno.EINTR ->
       (stalls (host w1) < stalls (host w))%nat);
  host_fstat p w : rest (host (perform (U_fstat64 fd p) w).2) = rest (host w) /\
    (stalls (host (perform (U_fstat64 fd p) w).2) <= stalls (host w))%nat;
  host_tell w : rest (host (perform (U_lseek64 fd 0 1) w).2) = rest (host w) /\
    (stalls (host (perform (U_lseek64 fd 0 1) w).2) <= stalls (host w))%nat;
  host_malloc n w : host (perform (U_malloc n) w).2 = host w;
  host_free p w : host (perform (U_free p) w).2 = host w;
  host_ocalloc n w : host (sgx_ocalloc n w).2 = host w;
  host_ocfree w : host (sgx_ocfree w).2 = host w
}.

Section honest.
Context {H : Type} `{Region} `{Enclave} `{!EnclaveLaws e_base e_size} `{Host H}
  `{!HostLaws (H := H)}.
Context (fd : Z) (rest : H -> list byte) (stalls : H -> nat) `{!HostFile H fd rest stalls}.
Implicit Types (w : world H).

Definition w_rest w : list byte := rest (host w).
Definition w_stalls w : nat := stalls (host w).

(** The host's file is as it was. *)
Definition same_file w w' : Prop := host w' = host w.

Lemma same_malloc n w : same_file w (Libc.malloc n w).2.
Proof.
  unfold same_file, Libc.malloc, st_bind. pose proof (host_malloc n w) as Hm.
  destruct (perform (U_malloc n) w) as [r w1]. simpl in Hm.
  destruct (decide _); [|done]. destruct (negb (_ =? 0)); [|done]. by destruct (negb _).
Qed.

Lemma same_alloc_tmp n w : same_file w (Libc.alloc_tmp n w).2.
Proof. unfold Libc.alloc_tmp. case_match; [apply host_ocalloc|apply same_malloc]. Qed.

Lemma same_free_tmp n p w : same_file w (Libc.free_tmp n p w).2 /\
  errno (Libc.free_tmp n p w).2 = errno w.
Proof.
  unfold Libc.free_tmp. case_match; [split; [apply host_ocfree|apply ocfree_private]|].
  unfold Libc.free, st_bind. pose proof (host_free p w) as Hf.
  destruct (perform_private (U_free p) w) as [Hp _].
  by destruct (perform (U_free p) w) as [r w1].
Qed.

(** [libc::read]: an error, or the next bytes of the file in the buffer. *)
Definition raw_read_post (p n : Z) w (x : Z * world H) : Prop :=
  let '(ret, w') := x in
  (w_stalls w' <= w_stalls w)%nat /\
  ((ret = -1 /\ w_rest w' = w_rest w /\
    (errno w' = Errno.EINTR -> (w_stalls w' < w_stalls w)%nat)) \/
   exists d, ret = zlen d /\ zlen d <= n /\ w_rest w = d ++ w_rest w' /\
     load_bytes w' p (length d) = d /\ (d = [] -> n = 0 \/ w_rest w = [])).

Lemma load_bytes_outside w p n : outside_range p (Z.of_nat n) ->
  load_bytes w p n = (fun i => umem w (p + Z.of_nat i)) <$> seq 0 n.
Proof.
  intros Ho. apply list_fmap_ext. intros i j Hj. apply lookup_seq in Hj as [-> Hj].
  unfold load. by rewrite Ho by lia.
Qed.

(** What the wrapper does with the answer. *)
Lemma answer_post p n tmp w0 w : same_file w0 w -> 0 <= n -> inside_range p n ->
  outside_range tmp n ->
  raw_read_post p n w0
    ((let* r := perform (U_read fd tmp n) in
      let* result := Libc.int_result r in
      let* _ := (if negb (result =? -1)
                 then copy_nonoverlapping tmp p (Z.min n (Libc.usize_or_0 result)) else st_ret tt) in
      let* _ := Libc.free_tmp n tmp in st_ret result) w).
Proof.
  intros Hs Hn Hin Hout. unfold st_bind at 1. pose proof (host_read tmp n w Hn) as Hr.
  destruct (perform (U_read fd tmp n) w) as [r w1]. unfold raw_read_post, w_rest, w_stalls.
  rewrite <- Hs. unfold st_bind, Libc.int_result.
  destruct (decide (r_status r = SGX_SUCCESS)) as [Es|Es].
  - unfold st_bind. destruct (Z.eqb_spec (r_result r) (-1)) as [E1|E1]; cbv beta iota delta [st_ret].
    + rewrite bool_decide_eq_false_2 in Hr by tauto. rewrite E1. simpl.
      destruct (same_free_tmp n tmp (set_errno (r_error r) w1).2) as [Hf He]. simpl in *.
      destruct (Libc.free_tmp n tmp _) as [[] w2]. simpl in *. rewrite Hf, He. simpl.
      destruct Hr as (Er & Hst & Hi). split; [done|]. left. split_and!; [done|done|by apply Hi].
    + rewrite bool_decide_eq_true_2 in Hr by done. destruct Hr as (d & Er & En & Hd & Hst & Hu & He).
      rewrite (proj2 (Z.eqb_neq _ _)) by done. cbn [negb]. pose proof (zlen_nonneg d).
      assert (Z.min n (Libc.usize_or_0 (r_result r)) = zlen d) as ->.
      { unfold Libc.usize_or_0. destruct (Z.ltb_spec (r_result r) 0); lia. }
      pose proof (load_copy_hit w1 tmp p (zlen d)) as Hc.
      assert (host (copy_nonoverlapping tmp p (zlen d) w1).2 = host w1) as Hcp by done.
      destruct (copy_nonoverlapping tmp p (zlen d) w1) as [[] w2]. simpl in Hc, Hcp.
      destruct (same_free_tmp n tmp w2) as [Hf _]. pose proof (load_free_tmp w2 n tmp) as Hl.
      destruct (Libc.free_tmp n tmp w2) as [[] w3]. simpl in *. unfold same_file in Hf.
      rewrite Hf, Hcp. split; [done|]. right. exists d.
      split_and!; [done|done|done| |done].
      unfold zlen in Hc. rewrite Nat2Z.id in Hc.
      rewrite (load_bytes_ext w3 w2), Hc.
      * rewrite load_bytes_outside; [done|]. intros a Ha. apply Hout. unfold zlen in *. lia.
      * intros a Ha. apply Hl, Hin. unfold zlen in *. lia.
  - rewrite bool_decide_eq_false_2 in Hr by tauto. simpl.
    destruct (same_free_tmp n tmp (set_errno ESGX w1).2) as [Hf He]. simpl in *.
    destruct (Libc.free_tmp n tmp _) as [[] w2]. simpl in *. rewrite Hf, He. simpl.
    destruct Hr as (Er & Hst & _). split; [done|]. left. by split_and!.
Qed.

Lemma bad_buffer_inside p n : 0 <= p <= usize_max -> 0 <= n <= usize_max ->
  Libc.bad_buffer p n = false -> inside_range p n.
Proof.
  intros Hp Hn Hb. destruct (decide (n = 0)) as [->|]; [intros a Ha; lia|].
  unfold Libc.bad_buffer in Hb. apply orb_false_iff in Hb as [Hb _].
  apply orb_false_iff in Hb as [_ Hb]. apply negb_false_iff in Hb.
  unfold Libc.within_ok in Hb. apply negb_true_iff, Z.eqb_neq, within_spec in Hb; [|lia..].
  intros a Ha. unfold inside. apply andb_true_iff. lia.
Qed.

Lemma libc_read_post p n w : 0 <= p <= usize_max -> 0 <= n <= isize_max ->
  raw_read_post p n w (Libc.read fd p n w).
Proof.
  intros Hp Hn. assert (isize_max < usize_max) as Hlt by done.
  unfold Libc.read, Libc.read_call. destruct (Libc.bad_buffer p n) eqn:Eb.
  { split; [done|]. left. by split_and!. }
  apply bad_buffer_inside in Eb; [|lia..]. unfold st_bind at 1 2.
  pose proof (same_alloc_tmp n w) as Hs.
  pose proof (alloc_tmp_outside n ltac:(lia) w) as Ho.
  destruct (Libc.alloc_tmp n w) as [tmp w0]. simpl in Hs, Ho. unfold same_file in Hs.
  destruct (Z.eqb_spec tmp 0) as [->|Hne].
  { unfold raw_read_post, w_rest, w_stalls. simpl. rewrite Hs. split; [done|]. left. by split_and!. }
  destruct Ho as [?|Ho]; [done|]. unfold st_bind at 1.
  assert (same_file w (write_zeros tmp n w0).2) as Hs2 by done.
  destruct (write_zeros tmp n w0) as [[] w1]. simpl in Hs2.
  pose proof (answer_post p n tmp w w1 Hs2 ltac:(lia) Eb Ho) as Ha.
  unfold st_bind in *. destruct (perform (U_read fd tmp n) w1) as [r w2].
  destruct (Libc.int_result r w2) as [x w3]. destruct ((if negb (x =? -1) then copy_nonoverlapping _ _ _ else st_ret _) w3)
    as [[] w4].
  by destruct (Libc.free_tmp n tmp w4) as [[] w5].
Qed.

Definition fd_ok (s : FileDesc H) : Prop := fd_raw s = fd /\ 0 <= fd_buf s <= usize_max.
Definition fd_rest (s : FileDesc H) : list byte := w_rest (fd_world s).
Definition fd_stalls (s : FileDesc H) : nat := w_stalls (fd_world s).
Definition fd_errs (e : io_error) : Prop := exists code, e = Os code.

(** A read of [n] bytes into a buffer of as many. *)
Definition on_buffer_post (s : FileDesc H) (buf : list byte)
    (x : result io_error Z * (FileDesc H * list byte)) : Prop :=
  let '(ret, (s', buf')) := x in
  zlen buf' = zlen buf /\
  match ret with
  | Ok n => exists d, delivers fd_ok fd_rest fd_stalls s d s' /\ n = zlen d /\ d `prefix_of` buf' /\
              (d = [] -> buf = [] \/ fd_rest s = [])
  | Err e => refuses fd_ok fd_rest fd_stalls fd_errs s e s'
  end.

Lemma read_on_buffer s buf : fd_ok s -> zlen buf <= isize_max ->
  on_buffer_post s buf (FdIo.on_buffer s buf (fun fd p =>
    Libc.read fd p (Z.min (zlen buf) READ_LIMIT))).
Proof.
  intros [Hfd Hp] Hb. pose proof (zlen_nonneg buf). unfold READ_LIMIT, FdIo.on_buffer.
  rewrite Z.min_l by done. rewrite Hfd.
  set (w0 := (store (fd_buf s) buf (fd_world s)).2).
  pose proof (libc_read_post (fd_buf s) (zlen buf) w0 Hp ltac:(lia)) as Hr.
  destruct (Libc.read fd (fd_buf s) (zlen buf) w0) as [ret w]. destruct Hr as [Hst Hr].
  unfold on_buffer_post. split; [unfold zlen; by rewrite length_load_bytes|]. unfold cvt.
  destruct Hr as [(-> & Er & Hi)|(d & -> & Hd & Er & Hl & He)]; simpl.
  - split_and!; [done|by split|done|by eexists|]. rewrite interrupted_os. exact Hi.
  - pose proof (zlen_nonneg d). rewrite (proj2 (Z.eqb_neq _ _)) by lia. exists d.
    split_and!; [by split_and!|done| |].
    + rewrite <- Hl at 1. exists (load_bytes w (fd_buf s + zlen d) (length buf - length d)).
      unfold zlen in *. rewrite <- load_bytes_app. f_equal. lia.
    + intros ->. destruct (He eq_refl) as [Hz|]; [left; by apply zlen_nil_inv|by right].
Qed.

Lemma fd_read_post s buf : fd_ok s -> zlen buf <= isize_max ->
  read_post fd_ok fd_rest fd_stalls fd_errs s buf (FdIo.read s buf).
Proof.
  intros Hs Hb. unfold FdIo.read. pose proof (read_on_buffer s buf Hs Hb) as Hr.
  destruct (FdIo.on_buffer _ _ _) as [ret [s' buf']]. destruct Hr as [Hl Hr].
  destruct ret as [n|e]; split; try done. destruct Hr as (d & Hd & -> & Hp & He). exists d.
  split_and!; try done. pose proof (prefix_zlen _ _ Hp). pose proof (zlen_nonneg d).
  unfold isize_max in *. apply wrap_small. lia.
Qed.

Lemma fd_read_buf_post s b : fd_ok s -> rb_ok b ->
  read_buf_post fd_ok fd_rest fd_stalls fd_errs s b (FdIo.read_buf s b).
Proof.
  intros Hs [Hf Hi]. unfold FdIo.read_buf.
  assert (zlen (RB.unfilled b) = zlen (rb_buf b) - rb_filled b) as Hu
    by (unfold RB.unfilled; rewrite zlen_zdrop; lia).
  assert (RB.remaining b = zlen (RB.unfilled b)) as ->.
  { rewrite Hu. unfold RB.remaining, RB.capacity, isize_max in *. apply wrap_small. lia. }
  pose proof (read_on_buffer s (RB.unfilled b) Hs ltac:(lia)) as Hr.
  destruct (FdIo.on_buffer _ _ _) as [ret [s' bs]]. destruct Hr as [Hl Hr].
  assert (zlen (ztake (rb_filled b) (rb_buf b)) = rb_filled b) as Hz by (rewrite zlen_ztake; lia).
  assert (filled_part (RB.set_unfilled b bs) = filled_part b) as Hp0.
  { unfold filled_part. simpl. rewrite ztake_app_le by lia. unfold ztake. by rewrite take_take, Nat.min_id. }
  destruct ret as [n|e]; simpl.
  - destruct Hr as (d & Hd & -> & Hp & He). pose proof (prefix_zlen _ _ Hp). pose proof (zlen_nonneg d).
    unfold isize_max in *. rewrite !(wrap_small 64 (zlen d)) by lia.
    unfold RB.add_filled, RB.set_filled, RB.assume_init. simpl. rewrite !wrap_small by lia.
    rewrite (proj2 (Z.leb_le _ _)) by lia. unfold and_then, read_buf_post.
    split_and!; [unfold rb_ok, isize_max; simpl; rewrite zlen_app; lia|simpl; rewrite zlen_app; lia|].
    exists d. split_and!; [done| |done|].
    + unfold filled_part. simpl. destruct Hp as [k ->]. rewrite <- Hz at 1.
      rewrite <- zlen_app, app_assoc. apply ztake_app.
    + intros Hn. destruct (He Hn) as [E|]; [left|by right]. rewrite E in Hu. unfold zlen in Hu at 1.
      simpl in Hu. lia.
  - split_and!; [unfold rb_ok; simpl; rewrite zlen_app; lia|simpl; rewrite zlen_app; lia|done|done|done].
Qed.

(** ** Asking for the size *)
Definition unmoved (s s' : FileDesc H) : Prop :=
  fd_ok s' /\ fd_rest s' = fd_rest s /\ (fd_stalls s' <= fd_stalls s)%nat.

Lemma int_call_unmoved c w : rest (host (perform c w).2) = rest (host w) /\
    (stalls (host (perform c w).2) <= stalls (host w))%nat ->
  w_rest (Libc.int_call c w).2 = w_rest w /\ (w_stalls (Libc.int_call c w).2 <= w_stalls w)%nat.
Proof.
  unfold w_rest, w_stalls, Libc.int_call, st_bind. destruct (perform c w) as [r w1]. simpl.
  intros Hc. enough (host (Libc.int_result r w1).2 = host w1) as -> by done.
  unfold Libc.int_result, fail, st_bind. destruct (decide _); [|done]. by destruct (r_result r =? -1).
Qed.

Lemma file_size_unmoved stat s : fd_ok s -> unmoved s (file_size stat s).2.
Proof.
  intros [Hfd Hp]. unfold file_size. rewrite Hfd.
  destruct (write_zeros stat stat_size (fd_world s)) as [u w0] eqn:E.
  assert (host w0 = host (fd_world s)) as Hw by (by injection E as _ <-).
  pose proof (int_call_unmoved (U_fstat64 fd stat) w0 (host_fstat stat w0)) as Hi.
  unfold w_rest, w_stalls in Hi. rewrite Hw in Hi. unfold Libc.fstat64.
  destruct (Libc.int_call (U_fstat64 fd stat) w0) as [ret w]. by destruct (cvt ret (errno w)).
Qed.

Lemma stream_position_unmoved s : fd_ok s -> unmoved s (stream_position s).2.
Proof.
  intros [Hfd Hp]. unfold stream_position. simpl. unfold FdIo.seek, Libc.lseek64. rewrite Hfd.
  pose proof (int_call_unmoved (U_lseek64 fd 0 1) (fd_world s) (host_tell _)) as Hi.
  by destruct (Libc.int_call _ _) as [n w].
Qed.

Lemma capacity_required_unmoved stat s : fd_ok s ->
  0 <= (buffer_capacity_required stat s).1 /\ unmoved s (buffer_capacity_required stat s).2.
Proof.
  intros Hs. unfold buffer_capacity_required. pose proof (file_size_unmoved stat s Hs) as Hz.
  destruct (file_size stat s) as [size s1]. destruct Hz as (Hs1 & Hr1 & Ht1).
  pose proof (stream_position_unmoved s1 Hs1) as (Hs2 & Hr2 & Ht2).
  destruct (stream_position s1) as [pos s2]. simpl in *. split; [lia|].
  split_and!; [done|congruence|lia].
Qed.

(** A vector can hold [n] more bytes. *)
Definition can_grow (v : Vec) (n : Z) : Prop :=
  n <= capacity v - v_len v \/ Z.max (2 * capacity v) (v_len v + n) <= isize_max.

Lemma reserve_outcome n v : vec_ok v -> 0 <= n ->
  (can_grow v n -> exists v', reserve n v = Val v' /\ vec_ok v' /\ contents v' = contents v /\
     v_len v' = v_len v) /\
  (~ can_grow v n -> reserve n v = Panics).
Proof.
  intros Hv Hn. pose proof Hv as [Hl Hc]. unfold reserve, can_grow.
  assert (8 <= isize_max) by done.
  destruct (Z.geb_spec (capacity v - v_len v) n); [split; [by exists v|lia]|].
  destruct (Z.gtb_spec (Z.max 8 (Z.max (2 * capacity v) (v_len v + n))) isize_max); [split; [lia|done]|].
  split; [|lia]. intros _. eexists. split; [reflexivity|]. unfold vec_ok, contents, capacity in *.
  simpl. rewrite zlen_app, zlen_zeros. split_and!; try lia. apply ztake_app_le. lia.
Qed.

Lemma to_end_from s s1 v v1 x : unmoved s s1 -> contents v1 = contents v ->
  to_end_post fd_ok fd_rest fd_stalls fd_errs s1 v1 x ->
  to_end_post fd_ok fd_rest fd_stalls fd_errs s v x.
Proof.
  intros (_ & Hr & Ht) Hc. destruct x as [o [s' v']]. unfold to_end_post, delivers.
  rewrite Hr, Hc. intros [Hv Ho]. split; [done|]. destruct o as [n|e| | |]; try done.
  - destruct Ho as ((? & ? & ?) & ? & ?). split_and!; done || lia.
  - destruct Ho as (? & ? & d & (? & ? & ?) & ?). split_and!; try done. exists d.
    split_and!; done || lia.
Qed.

(** C17. Over a host that answers [read] as POSIX says, a file descriptor is a
    stream of the file's remaining bytes: through the OCALL, its buffer in host
    memory and the copy into the enclave, each read delivers the next bytes of
    the file, an error (of the host, of the OCALL or of the allocator) consumes
    none, and the loops of [read_exact] and [read_to_end] end; and [File]'s
    [read_to_end], which first asks the host for the size and the position and
    believes whatever it says, appends exactly the rest of the file when a vector
    can hold as many bytes as the host claims are left, and otherwise panics
    before it has read any. *)
Theorem file_stream :
  Stream (FileDesc H) fd_ok fd_rest fd_stalls fd_errs /\
  forall fuel stat s v, fd_ok s -> vec_ok v -> room v (fd_rest s) ->
    (enough fd_rest fd_stalls s < fuel)%nat ->
    let hint := (buffer_capacity_required stat s).1 in
    (can_grow v hint ->
     to_end_post fd_ok fd_rest fd_stalls fd_errs s v (file_read_to_end fuel stat s v)) /\
    (~ can_grow v hint ->
     exists s', file_read_to_end fuel stat s v = (Panics, (s', v)) /\ fd_rest s' = fd_rest s).
Proof.
  split.
  - apply provided_stream; try done; [apply fd_read_post|].
    intros s b Hs Hb. apply default_read_buf_post; [apply fd_read_post|done|done].
  - intros fuel stat s v Hs Hv Hm Hf. unfold file_read_to_end.
    pose proof (capacity_required_unmoved stat s Hs) as [Hh Hu].
    destruct (buffer_capacity_required stat s) as [hint s1]. simpl in *.
    destruct (reserve_outcome hint v Hv Hh) as [Hfits Hbig]. split; intros Hc.
    + destruct (Hfits Hc) as (v1 & -> & Hv1 & Ec & El). cbn [and_then].
      eapply to_end_from; [done|exact Ec|]. destruct Hu as (Hs1 & Hr & Ht).
      apply default_read_to_end_post; try done; [apply fd_read_post|apply fd_read_buf_post|..].
      * unfold room in *. by rewrite El, Hr.
      * unfold enough in *. rewrite Hr. lia.
    + rewrite (Hbig Hc). exists s1. split; [done|apply Hu].
Qed.
End honest.

(** * A lying host *)
Section lying.
Context {H : Type} `{Region} `{Enclave} `{Host H}.
Implicit Types (w : world H).

(** [read] hands on the host's answer, whatever it is. *)
Lemma libc_read_answer fd p n w tmp w0 r w1 : Libc.bad_buffer p n = false ->
  Libc.alloc_tmp n w = (tmp, w0) -> tmp <> 0 ->
  perform (U_read fd tmp n) (write_zeros tmp n w0).2 = (r, w1) -> r_status r = SGX_SUCCESS ->
  (Libc.read fd p n w).1 = r_result r.
Proof.
  intros Hb Ha Ht Hr Hs. unfold Libc.read, Libc.read_call. rewrite Hb. unfold st_bind. rewrite Ha.
  rewrite (proj2 (Z.eqb_neq _ _)) by done. destruct (write_zeros tmp n w0) as [[] w2]. simpl in Hr.
  rewrite Hr. unfold Libc.int_result. rewrite decide_True by done. unfold st_bind.
  destruct (r_result r =? -1) eqn:E; simpl; rewrite E; simpl;
    match goal with |- context [Libc.free_tmp ?a ?b ?c] => by destruct (Libc.free_tmp a b c) end.
Qed.

(** An empty buffer that the host claims to have overfilled. *)
Lemma lying_read_buf self m tmp w0 r w1 (w := (store (fd_buf self) m (fd_world self)).2) :
  zlen m <= isize_max -> Libc.bad_buffer (fd_buf self) (zlen m) = false ->
  Libc.alloc_tmp (zlen m) w = (tmp, w0) -> tmp <> 0 ->
  perform (U_read (fd_raw self) tmp (zlen m)) (write_zeros tmp (zlen m) w0).2 = (r, w1) ->
  r_status r = SGX_SUCCESS -> 0 <= r_result r <= isize_max ->
  exists self' b', FdIo.read_buf self (RB.assume_init (RB.uninit m) 0) = (Val tt, (self', b')) /\
    rb_filled b' = r_result r /\ zlen (rb_buf b') = zlen m.
Proof.
  intros Hm Hb Ha Ht Hr Hs Hlie. pose proof (zlen_nonneg m). unfold isize_max in *.
  assert (RB.remaining (RB.assume_init (RB.uninit m) 0) = zlen m) as Er.
  { unfold RB.remaining, RB.capacity. simpl. rewrite Z.sub_0_r. apply wrap_small. lia. }
  unfold FdIo.read_buf, FdIo.on_buffer. rewrite Er. unfold READ_LIMIT, isize_max.
  change (RB.unfilled (RB.assume_init (RB.uninit m) 0)) with m. rewrite Z.min_l by lia. fold w.
  pose proof (libc_read_answer _ _ _ _ _ _ _ _ Hb Ha Ht Hr Hs) as Hret.
  destruct (Libc.read (fd_raw self) (fd_buf self) (zlen m) w) as [ret w2]. simpl in Hret. subst ret.
  unfold cvt. rewrite (proj2 (Z.eqb_neq _ _)) by lia. cbn [FdIo.as_usize and_then].
  rewrite (wrap_small 64 (r_result r)) by lia. unfold RB.add_filled, RB.set_filled. simpl.
  rewrite !Z.add_0_l, !(wrap_small 64 (r_result r)) by lia. rewrite (proj2 (Z.leb_le _ _)) by lia.
  eexists _, _. split; [reflexivity|]. split; [done|]. simpl. unfold zlen.
  by rewrite length_load_bytes.
Qed.

(** C40. The answer to [read] is not compared with the size of the buffer: when
    the host claims more bytes than there is room for, [File]'s [read_buf] counts
    them as read, and [read_to_end] sets the length of its vector beyond the
    allocated memory, which is undefined behaviour.  (The copy into the enclave
    is bounded: no byte outside the buffer is written.) *)
Theorem lying_read_overflows fuel self v tmp w0 r w1
    (n := capacity v - v_len v) (w := (store (fd_buf self) (spare v) (fd_world self)).2) :
  vec_ok v -> 0 < n ->
  Libc.bad_buffer (fd_buf self) n = false -> Libc.alloc_tmp n w = (tmp, w0) -> tmp <> 0 ->
  perform (U_read (fd_raw self) tmp n) (write_zeros tmp n w0).2 = (r, w1) ->
  r_status r = SGX_SUCCESS -> n < r_result r <= isize_max ->
  (default_read_to_end FdIo.read FdIo.read_buf (S fuel) self v).1 = UB.
Proof.
  intros [Hl Hc] Hn Hb Ha Ht Hr Hs Hlie. unfold default_read_to_end. cbn [read_to_end_loop].
  unfold isize_max, capacity in *.
  assert (zlen (spare v) = n) as Hz by (unfold spare, n; rewrite zlen_zdrop; lia).
  rewrite (proj2 (Z.eqb_neq _ _)) by lia. cbn [and_then]. rewrite <- Hz in Hb, Ha, Hr.
  destruct (lying_read_buf self (spare v) tmp w0 r w1) as (s' & b & -> & Ef & Eb);
    try done; unfold isize_max; [lia..|].
  cbn [and_then or_retry]. rewrite Ef, (proj2 (Z.eqb_neq _ _)), wrap_small by (simpl; lia).
  unfold set_len, capacity, contents, set_spare. simpl. unfold contents.
  rewrite zlen_app, zlen_ztake, Eb, Hz by lia.
  rewrite (proj2 (Z.leb_gt (r_result r + _) _)) by lia. by rewrite andb_false_r.
Qed.
End lying.

(** * The hosts of the examples *)


Lemma overwritten p d m :
  (fun i => overwrite (fun _ => true) p d m (p + Z.of_nat i)) <$> seq 0 (length d) = d.
Proof.
  apply list_eq_same_length with (n := length d); [done|by rewrite length_fmap, length_seq|].
  intros i x y Hi Hx Hy. apply list_lookup_fmap_Some in Hx as (j & -> & Hj).
  apply lookup_seq in Hj as [-> _]. unfold overwrite, zlen. simpl.
  destruct (Z.leb_spec p (p + Z.of_nat i)); [|lia].
  destruct (Z.ltb_spec (p + Z.of_nat i) (p + Z.of_nat (length d))); [|lia]. simpl.
  apply list_lookup_total_correct. by replace (Z.to_nat _) with i by lia.
Qed.

(** What descriptor 3 of the example host still delivers. *)
#[export] Instance toy_file : HostFile toy_host 3 th_input (fun _ => 0%nat).
Proof.
  split; intros; try done. cbn [perform toy_hosts]. unfold toy_perform, toy_answer, toy_read.
  set (d := take _ _). rewrite bool_decide_eq_true_2 by (split; [done|]; unfold zlen; simpl; lia).
  exists d. split_and!; [|done|unfold d, zlen; rewrite length_take; lia|done|apply overwritten|].
  - simpl. unfold d. rewrite length_take. destruct (th_input (host w)) as [|x l].
    + by destruct (Z.to_nat n).
    + rewrite <- (take_drop (Z.to_nat n) (x :: l)) at 1. f_equal.
      destruct (decide (Z.to_nat n <= length (x :: l))%nat).
      * by rewrite Nat.min_l by done.
      * rewrite !drop_ge by lia. done.
  - unfold d. intros Hd. apply (f_equal length) in Hd. rewrite length_take in Hd. simpl in Hd.
    destruct (th_input (host w)); [by right|left]. simpl in Hd. lia.
Qed.

(** Two bytes of a file of five, and all of it, though the host says it has a thousand. *)
Lemma file_stream_witness :
  let s := Fd 3 0x10100 (toy_start 0x10200 Byte.x42) in
  read_post (fd_ok (H := toy_host) 3) (fd_rest th_input) (fd_stalls (fun _ => 0%nat)) fd_errs
    s (zeros 2) (FdIo.read s (zeros 2)) /\
  (FdIo.read s (zeros 2)).2.2 = [Byte.x01; Byte.x02] /\
  (buffer_capacity_required 0x10400 s).1 = 1000 /\
  to_end_post (fd_ok (H := toy_host) 3) (fd_rest th_input) (fd_stalls (fun _ => 0%nat)) fd_errs
    s vec_new (file_read_to_end 9 0x10400 s vec_new) /\
  contents (file_read_to_end 9 0x10400 s vec_new).2.2
  = [Byte.x01; Byte.x02; Byte.x03; Byte.x04; Byte.x05].
Proof.
  intros s. pose proof (file_stream (H := toy_host) 3 th_input (fun _ => 0%nat)) as [Hs He].
  split_and!; [|vm_compute; reflexivity|vm_compute; reflexivity| |vm_compute; reflexivity].
  - apply Hs; [by split|done].
  - refine (proj1 (He 9%nat 0x10400 s vec_new _ _ _ _) _); [by split|done|done|vm_compute; lia|].
    right. vm_compute. discriminate.
Defined.

(** A host that claims to have read a thousand bytes. *)
Definition lying_hosts : Host toy_host := {|
  perform := fun c w =>
    match c with U_read _ _ _ => (toy_reply 1000, w) | _ => toy_perform c w end;
  interfere := fun w => (tt, w);
  sgx_ocalloc := fun _ w => (toy_tmp, w);
  sgx_ocfree := fun w => (tt, w);
  c_strlen := toy_strlen
|}.

Lemma lying_read_overflows_witness :
  let s := Fd 3 0x10100 (toy_start 0x10200 Byte.x42) in
  (default_read_to_end (FdIo.read (H2 := lying_hosts)) (FdIo.read_buf (H2 := lying_hosts)) 1 s
     (vec_with_capacity 8)).1 = UB.
Proof.
  intros s.
  apply (lying_read_overflows (H2 := lying_hosts) 0 s (vec_with_capacity 8) toy_tmp
           (store 0x10100 (zeros 8) (fd_world s)).2 (toy_reply 1000)
           (write_zeros toy_tmp 8 (store 0x10100 (zeros 8) (fd_world s)).2).2);
    try done; try reflexivity.
Defined.
