(* ===== verification/Path.v ===== *)
(** Path: the component iterator of sgx_tstd/src/path.rs.

    Files modelled: path.rs (prefixes, [Components], [Iter], their comparison) and
    sys/path.rs (what this platform has of separators and prefixes).  A path is
    its bytes.  The windows prefixes are modelled as the code has them, although
    [parse_prefix] never finds one here.

    [usize] values are lengths of slices and indexes into them, hence [nat]; a
    slice taken out of range, a failed [debug_assert] and [unreachable] are
    [Panics].  The loops run on fuel that the iterator's own path determines;
    PathSpecs shows that it is enough and that nothing panics. *)
From Stdlib Require Import ZArith Lia Strings.Byte.
From stdpp Require Import base numbers list option tactics.
From S2P Require Import Prelude IoBase.
Local Open Scope nat_scope.

#[export] Instance outcome_ret : MRet outcome := fun _ a => Val a.
#[export] Instance outcome_bind : MBind outcome := fun _ _ k o =>
  match o with
  | Val a => k a
  | Bad e => Bad e
  | Panics => Panics
  | UB => UB
  | NoFuel => NoFuel
  end.

(** [debug_assert!] and [assert!] *)
Definition assert (b : bool) : outcome unit := if b then Val tt else Panics.

Definition OsStr : Type := list byte.

(** * Slices of bytes *)

(** [&l[n..]], [&l[..n]] and [&l[..l.len() - n]] *)
Definition slice_from (n : nat) (l : list byte) : outcome (list byte) :=
  if n <=? length l then Val (drop n l) else Panics.
Definition slice_to (n : nat) (l : list byte) : outcome (list byte) :=
  if n <=? length l then Val (take n l) else Panics.
Definition slice_less (n : nat) (l : list byte) : outcome (list byte) :=
  if n <=? length l then Val (take (length l - n) l) else Panics.

(** [iter().position(f)] and [iter().rposition(f)] *)
Fixpoint position (f : byte -> bool) (l : list byte) : option nat :=
  match l with
  | [] => None
  | b :: l => if f b then Some 0 else S <$> position f l
  end.
Fixpoint rposition (f : byte -> bool) (l : list byte) : option nat :=
  match l with
  | [] => None
  | b :: l =>
      match rposition f l with
      | Some i => Some (S i)
      | None => if f b then Some 0 else None
      end
  end.

(** [Ord] of slices: bytes are compared as numbers. *)
Definition byte_cmp (a b : byte) : comparison := (Byte.to_N a ?= Byte.to_N b)%N.
Fixpoint bytes_cmp (k l : list byte) : comparison :=
  match k, l with
  | [], [] => Eq
  | [], _ => Lt
  | _, [] => Gt
  | a :: k, b :: l => match byte_cmp a b with Eq => bytes_cmp k l | o => o end
  end.

(** * Prefixes *)
Inductive Prefix :=
| Verbatim (x : OsStr)
| VerbatimUNC (x y : OsStr)
| VerbatimDisk (d : byte)
| DeviceNS (x : OsStr)
| UNC (x y : OsStr)
| Disk (d : byte).

#[export] Instance Prefix_eq_dec : EqDecision Prefix.
Proof. solve_decision. Defined.

Definition share_len (y : OsStr) : nat := if 0 <? length y then 1 + length y else 0.

Definition len (p : Prefix) : nat :=
  match p with
  | Verbatim x => 4 + length x
  | VerbatimUNC x y => 8 + length x + share_len y
  | VerbatimDisk _ => 6
  | UNC x y => 2 + length x + share_len y
  | DeviceNS x => 4 + length x
  | Disk _ => 2
  end.

Definition is_verbatim (p : Prefix) : bool :=
  match p with Verbatim _ | VerbatimDisk _ | VerbatimUNC _ _ => true | _ => false end.
Definition is_drive (p : Prefix) : bool := match p with Disk _ => true | _ => false end.
Definition has_implicit_root (p : Prefix) : bool := negb (is_drive p).

(** The derived [Ord]: by constructor, then by field. *)
Definition prefix_rank (p : Prefix) : nat :=
  match p with
  | Verbatim _ => 0 | VerbatimUNC _ _ => 1 | VerbatimDisk _ => 2
  | DeviceNS _ => 3 | UNC _ _ => 4 | Disk _ => 5
  end.
Definition then_cmp (a b : comparison) : comparison := match a with Eq => b | o => o end.
Definition prefix_cmp (p q : Prefix) : comparison :=
  match p, q with
  | Verbatim x, Verbatim x' | DeviceNS x, DeviceNS x' => bytes_cmp x x'
  | VerbatimUNC x y, VerbatimUNC x' y' | UNC x y, UNC x' y' =>
      then_cmp (bytes_cmp x x') (bytes_cmp y y')
  | VerbatimDisk d, VerbatimDisk d' | Disk d, Disk d' => byte_cmp d d'
  | _, _ => (prefix_rank p ?= prefix_rank q)%nat
  end.

(** * The platform, sys/path.rs *)
Definition MAIN_SEP : byte := "/"%byte.
Definition MAIN_SEP_STR : OsStr := [MAIN_SEP].
Definition is_sep_byte (b : byte) : bool := Byte.eqb b "/"%byte.
Definition is_verbatim_sep (b : byte) : bool := Byte.eqb b "/"%byte.
Definition parse_prefix (_ : OsStr) : option Prefix := None.

Definition has_physical_root (s : OsStr) (prefix : option Prefix) : outcome bool :=
  path ← match prefix with Some p => slice_from (len p) s | None => Val s end;
  Val (match path with b :: _ => is_sep_byte b | [] => false end).

(** * Components *)
Inductive Component :=
| PrefixC (raw : OsStr) (parsed : Prefix)
| RootDir
| CurDir
| ParentDir
| Normal (path : OsStr).

#[export] Instance Component_eq_dec : EqDecision Component.
Proof. solve_decision. Defined.

(** [PartialEq] and [Ord]: a prefix is compared by what was parsed. *)
Definition component_eqb (a b : Component) : bool :=
  match a, b with
  | PrefixC _ p, PrefixC _ q => bool_decide (p = q)
  | RootDir, RootDir | CurDir, CurDir | ParentDir, ParentDir => true
  | Normal p, Normal q => bool_decide (p = q)
  | _, _ => false
  end.
Definition component_rank (c : Component) : nat :=
  match c with PrefixC _ _ => 0 | RootDir => 1 | CurDir => 2 | ParentDir => 3 | Normal _ => 4 end.
Definition component_cmp (a b : Component) : comparison :=
  match a, b with
  | PrefixC _ p, PrefixC _ q => prefix_cmp p q
  | Normal p, Normal q => bytes_cmp p q
  | _, _ => (component_rank a ?= component_rank b)%nat
  end.

(** [Component::as_os_str] *)
Definition as_os_str (c : Component) : OsStr :=
  match c with
  | PrefixC raw _ => raw
  | RootDir => MAIN_SEP_STR
  | CurDir => ["."%byte]
  | ParentDir => ["."%byte; "."%byte]
  | Normal path => path
  end.

Inductive State := S_Prefix | S_StartDir | S_Body | S_Done.

#[export] Instance State_eq_dec : EqDecision State.
Proof. solve_decision. Defined.

Definition state_rank (s : State) : nat :=
  match s with S_Prefix => 0 | S_StartDir => 1 | S_Body => 2 | S_Done => 3 end.

Record Components := {
  c_path : list byte;
  c_prefix : option Prefix;
  c_has_physical_root : bool;
  c_front : State;
  c_back : State
}.

Definition set_path (c : Components) (p : list byte) : Components :=
  {| c_path := p; c_prefix := c_prefix c; c_has_physical_root := c_has_physical_root c;
     c_front := c_front c; c_back := c_back c |}.
Definition set_front (c : Components) (s : State) : Components :=
  {| c_path := c_path c; c_prefix := c_prefix c; c_has_physical_root := c_has_physical_root c;
     c_front := s; c_back := c_back c |}.
Definition set_back (c : Components) (s : State) : Components :=
  {| c_path := c_path c; c_prefix := c_prefix c; c_has_physical_root := c_has_physical_root c;
     c_front := c_front c; c_back := s |}.

Definition prefix_len (c : Components) : nat := default 0 (len <$> c_prefix c).
Definition prefix_verbatim (c : Components) : bool := default false (is_verbatim <$> c_prefix c).
Definition prefix_remaining (c : Components) : nat :=
  if bool_decide (c_front c = S_Prefix) then prefix_len c else 0.

Definition sep_byte (c : Components) (b : byte) : bool :=
  if prefix_verbatim c then is_verbatim_sep b else is_sep_byte b.

Definition has_root (c : Components) : bool :=
  if c_has_physical_root c then true
  else match c_prefix c with Some p => has_implicit_root p | None => false end.

Definition include_cur_dir (c : Components) : outcome bool :=
  if has_root c then Val false
  else
    rest ← slice_from (prefix_len c) (c_path c);
    Val (match rest with
         | [b] => Byte.eqb b "."%byte
         | b :: s :: _ => Byte.eqb b "."%byte && sep_byte c s
         | [] => false
         end).

Definition len_before_body (c : Components) : outcome nat :=
  let early := state_rank (c_front c) <=? state_rank S_StartDir in
  let root := if early && c_has_physical_root c then 1 else 0 in
  cur ← (if early then include_cur_dir c else Val false);
  let cur_dir := if (cur : bool) then 1 else 0 in
  Val (prefix_remaining c + root + cur_dir).

Definition finished (c : Components) : bool :=
  bool_decide (c_front c = S_Done) || bool_decide (c_back c = S_Done)
  || (state_rank (c_back c) <? state_rank (c_front c)).

Definition parse_single_component (c : Components) (comp : list byte) : option Component :=
  if bool_decide (comp = ["."%byte]) then if prefix_verbatim c then Some CurDir else None
  else if bool_decide (comp = ["."%byte; "."%byte]) then Some ParentDir
  else if bool_decide (comp = []) then None
  else Some (Normal comp).

Definition parse_next_component (c : Components) : outcome (nat * option Component) :=
  _ ← assert (bool_decide (c_front c = S_Body));
  match position (sep_byte c) (c_path c) with
  | None => Val (length (c_path c) + 0, parse_single_component c (c_path c))
  | Some i =>
      comp ← slice_to i (c_path c);
      Val (length comp + 1, parse_single_component c comp)
  end.

Definition parse_next_component_back (c : Components) : outcome (nat * option Component) :=
  _ ← assert (bool_decide (c_back c = S_Body));
  start ← len_before_body c;
  tail ← slice_from start (c_path c);
  match rposition (sep_byte c) tail with
  | None => Val (length tail + 0, parse_single_component c tail)
  | Some i =>
      comp ← slice_from (start + i + 1) (c_path c);
      Val (length comp + 1, parse_single_component c comp)
  end.

Fixpoint trim_left_loop (fuel : nat) (c : Components) : outcome Components :=
  if bool_decide (c_path c = []) then Val c
  else match fuel with
       | 0 => NoFuel
       | S fuel =>
           '(size, comp) ← parse_next_component c;
           match comp with
           | Some _ => Val c
           | None => rest ← slice_from size (c_path c); trim_left_loop fuel (set_path c rest)
           end
       end.
Definition trim_left (c : Components) : outcome Components :=
  trim_left_loop (length (c_path c)) c.

Fixpoint trim_right_loop (fuel : nat) (c : Components) : outcome Components :=
  before ← len_before_body c;
  if length (c_path c) <=? before then Val c
  else match fuel with
       | 0 => NoFuel
       | S fuel =>
           '(size, comp) ← parse_next_component_back c;
           match comp with
           | Some _ => Val c
           | None => rest ← slice_less size (c_path c); trim_right_loop fuel (set_path c rest)
           end
       end.
Definition trim_right (c : Components) : outcome Components :=
  trim_right_loop (length (c_path c)) c.

(** [Components::as_path] works on a copy. *)
Definition as_path (c : Components) : outcome OsStr :=
  c ← (if bool_decide (c_front c = S_Body) then trim_left c else Val c);
  c ← (if bool_decide (c_back c = S_Body) then trim_right c else Val c);
  Val (c_path c).

(** ** Iteration from the front *)
Fixpoint next_loop (fuel : nat) (c : Components) : outcome (option Component * Components) :=
  if finished c then Val (None, c)
  else match fuel with
  | 0 => NoFuel
  | S fuel =>
      match c_front c with
      | S_Prefix =>
          if 0 <? prefix_len c then
            let c := set_front c S_StartDir in
            raw ← slice_to (prefix_len c) (c_path c);
            rest ← slice_from (prefix_len c) (c_path c);
            match c_prefix c with
            | Some p => Val (Some (PrefixC raw p), set_path c rest)
            | None => Panics
            end
          else next_loop fuel (set_front c S_StartDir)
      | S_StartDir =>
          let c := set_front c S_Body in
          if c_has_physical_root c then
            rest ← slice_from 1 (c_path c);
            Val (Some RootDir, set_path c rest)
          else match c_prefix c with
          | Some p =>
              if has_implicit_root p && negb (is_verbatim p) then Val (Some RootDir, c)
              else next_loop fuel c
          | None =>
              cur ← include_cur_dir c;
              if (cur : bool) then
                rest ← slice_from 1 (c_path c);
                Val (Some CurDir, set_path c rest)
              else next_loop fuel c
          end
      | S_Body =>
          if bool_decide (c_path c <> []) then
            '(size, comp) ← parse_next_component c;
            rest ← slice_from size (c_path c);
            let c := set_path c rest in
            match comp with
            | Some _ => Val (comp, c)
            | None => next_loop fuel c
            end
          else next_loop fuel (set_front c S_Done)
      | S_Done => Panics
      end
  end.

Definition next (c : Components) : outcome (option Component * Components) :=
  next_loop (length (c_path c) + 3) c.

(** ** Iteration from the back

    Beside the component, [next_back_at] gives the length of the path up to where
    the slice of a [Normal] ends: its end in memory, relative to the path's start. *)
Fixpoint next_back_loop (fuel : nat) (c : Components)
    : outcome (option (Component * nat) * Components) :=
  if finished c then Val (None, c)
  else match fuel with
  | 0 => NoFuel
  | S fuel =>
      let fin := length (c_path c) in
      match c_back c with
      | S_Body =>
          before ← len_before_body c;
          if before <? length (c_path c) then
            '(size, comp) ← parse_next_component_back c;
            rest ← slice_less size (c_path c);
            let c := set_path c rest in
            match comp with
            | Some x => Val (Some (x, fin), c)
            | None => next_back_loop fuel c
            end
          else next_back_loop fuel (set_back c S_StartDir)
      | S_StartDir =>
          let c := set_back c S_Prefix in
          if c_has_physical_root c then
            rest ← slice_less 1 (c_path c);
            Val (Some (RootDir, fin), set_path c rest)
          else match c_prefix c with
          | Some p =>
              if has_implicit_root p && negb (is_verbatim p) then Val (Some (RootDir, fin), c)
              else next_back_loop fuel c
          | None =>
              cur ← include_cur_dir c;
              if (cur : bool) then
                rest ← slice_less 1 (c_path c);
                Val (Some (CurDir, fin), set_path c rest)
              else next_back_loop fuel c
          end
      | S_Prefix =>
          let c := set_back c S_Done in
          if 0 <? prefix_len c then
            match c_prefix c with
            | Some p => Val (Some (PrefixC (c_path c) p, fin), c)
            | None => Panics
            end
          else Val (None, c)
      | S_Done => Panics
      end
  end.

Definition next_back_at (c : Components) : outcome (option (Component * nat) * Components) :=
  next_back_loop (length (c_path c) + 3) c.

Definition next_back (c : Components) : outcome (option Component * Components) :=
  '(r, c) ← next_back_at c; Val (option_map fst r, c).

(** [Iter], the same with the components as strings. *)
Definition iter_next (c : Components) : outcome (option OsStr * Components) :=
  '(r, c) ← next c; Val (option_map as_os_str r, c).
Definition iter_next_back (c : Components) : outcome (option OsStr * Components) :=
  '(r, c) ← next_back c; Val (option_map as_os_str r, c).

(** ** Adaptors of [Iterator], for either direction *)
Definition fuel_of (c : Components) : nat := length (c_path c) + 4.

Section Adaptors.
Variable step : Components -> outcome (option Component * Components).

(** [Iterator::collect] *)
Fixpoint collect_loop (fuel : nat) (c : Components) : outcome (list Component) :=
  match fuel with
  | 0 => NoFuel
  | S fuel =>
      '(x, c) ← step c;
      match x with
      | None => Val []
      | Some x => l ← collect_loop fuel c; Val (x :: l)
      end
  end.

(** [Iterator::cmp] *)
Fixpoint cmp_loop (fuel : nat) (l r : Components) : outcome comparison :=
  match fuel with
  | 0 => NoFuel
  | S fuel =>
      '(x, l) ← step l;
      match x with
      | None => '(y, r) ← step r; Val (match y with None => Eq | Some _ => Lt end)
      | Some x =>
          '(y, r) ← step r;
          match y with
          | None => Val Gt
          | Some y =>
              match component_cmp x y with
              | Eq => cmp_loop fuel l r
              | o => Val o
              end
          end
      end
  end.

(** [Iterator::eq] *)
Fixpoint eq_loop (fuel : nat) (l r : Components) : outcome bool :=
  match fuel with
  | 0 => NoFuel
  | S fuel =>
      '(x, l) ← step l;
      match x with
      | None => '(y, r) ← step r; Val (match y with None => true | Some _ => false end)
      | Some x =>
          '(y, r) ← step r;
          match y with
          | None => Val false
          | Some y => if component_eqb x y then eq_loop fuel l r else Val false
          end
      end
  end.

(** [iter_after] *)
Fixpoint iter_after_loop (fuel : nat) (iter prefix : Components) : outcome (option Components) :=
  match fuel with
  | 0 => NoFuel
  | S fuel =>
      '(x, iter_next) ← step iter;
      '(y, prefix) ← step prefix;
      match x, y with
      | Some x, Some y => if component_eqb x y then iter_after_loop fuel iter_next prefix else Val None
      | Some _, None => Val (Some iter)
      | None, None => Val (Some iter)
      | None, Some _ => Val None
      end
  end.
End Adaptors.

Definition collect (c : Components) : outcome (list Component) := collect_loop next (fuel_of c) c.
Definition iter_after (step : Components -> outcome (option Component * Components))
    (iter prefix : Components) : outcome (option Components) :=
  iter_after_loop step (fuel_of iter) iter prefix.

(** ** Comparison *)

(** [PartialEq for Components] *)
Definition components_eq (l r : Components) : outcome bool :=
  if bool_decide (length (c_path l) = length (c_path r))
     && bool_decide (c_front l = c_front r)
     && bool_decide (c_back l = S_Body)
     && bool_decide (c_back r = S_Body)
     && bool_decide (prefix_verbatim l = prefix_verbatim r)
     && bool_decide (c_path l = c_path r)
  then Val true
  else eq_loop next_back (fuel_of l) l r.

(** [iter().zip(..).position(|(&a, &b)| a != b)] *)
Fixpoint first_mismatch (k l : list byte) : option nat :=
  match k, l with
  | a :: k, b :: l => if Byte.eqb a b then S <$> first_mismatch k l else Some 0
  | _, _ => None
  end.

(** The paths after the last separator that they share. *)
Definition skip_shared (left right : Components) (first_difference : nat)
    : outcome (Components * Components) :=
  shared ← slice_to first_difference (c_path left);
  match rposition (sep_byte left) shared with
  | Some previous_sep =>
      l ← slice_from (previous_sep + 1) (c_path left);
      r ← slice_from (previous_sep + 1) (c_path right);
      Val (set_front (set_path left l) S_Body, set_front (set_path right r) S_Body)
  | None => Val (left, right)
  end.

Definition compare_components (left right : Components) : outcome comparison :=
  let slow := fun '(l, r) => cmp_loop next (fuel_of l) l r in
  if bool_decide (c_prefix left = None) && bool_decide (c_prefix right = None)
     && bool_decide (c_front left = c_front right)
  then
    match first_mismatch (c_path left) (c_path right) with
    | None =>
        if bool_decide (length (c_path left) = length (c_path right)) then Val Eq
        else lr ← skip_shared left right (length (c_path left) `min` length (c_path right)); slow lr
    | Some diff => lr ← skip_shared left right diff; slow lr
    end
  else slow (left, right).

(** [Path::components] *)
Definition components (p : OsStr) : outcome Components :=
  let prefix := parse_prefix p in
  root ← has_physical_root p prefix;
  Val {| c_path := p; c_prefix := prefix; c_has_physical_root := root;
         c_front := S_Prefix; c_back := S_Body |}.
