(* ===== verification/PathSpecs.v ===== *)
(** PathSpecs: what the component iterator of Path enumerates.

    The reference reading of a path, [comps_of], splits it at every separator and
    drops the empty and the ["."] pieces, except that a leading separator and a
    leading ["."] are components.  [Components] is shown to be a double-ended queue
    of that list, whatever the order in which its two ends are read. *)
From Stdlib Require Import ZArith Lia Strings.Byte.
From stdpp Require Import base numbers list option tactics.
From S2P Require Import Prelude IoBase Path.
Local Open Scope nat_scope.

(** * The reference reading *)
Fixpoint segments (p : OsStr) : list OsStr :=
  match p with
  | [] => [[]]
  | b :: p =>
      if is_sep_byte b then [] :: segments p
      else match segments p with s :: ss => (b :: s) :: ss | [] => [[b]] end
  end.

Definition named (seg : OsStr) : option Component :=
  if bool_decide (seg = [] \/ seg = ["."%byte]) then None
  else if bool_decide (seg = ["."%byte; "."%byte]) then Some ParentDir
  else Some (Normal seg).

Definition body (p : OsStr) : list Component := omap named (segments p).

Definition rooted (p : OsStr) : bool :=
  match p with b :: _ => is_sep_byte b | [] => false end.
Definition dotted (p : OsStr) : bool :=
  match p with
  | [b] => Byte.eqb b "."%byte
  | b :: s :: _ => Byte.eqb b "."%byte && is_sep_byte s
  | [] => false
  end.

Definition start (p : OsStr) : list Component :=
  if rooted p then [RootDir] else if dotted p then [CurDir] else [].

Arguments body : simpl never.
Arguments start : simpl never.

Definition comps_of (p : OsStr) : list Component := start p ++ body p.

(** * Separators *)
Lemma is_sep_true b : is_sep_byte b = true -> b = MAIN_SEP.
Proof. apply Byte.byte_dec_bl. Qed.

Definition no_sep (p : OsStr) : Prop := Forall (fun b => is_sep_byte b = false) p.

Lemma segments_app_sep a b : segments (a ++ MAIN_SEP :: b) = segments a ++ segments b.
Proof.
  induction a as [|x a IH]; [done|]. cbn [segments app]. destruct (is_sep_byte x).
  - by rewrite IH.
  - rewrite IH. destruct (segments a) as [|s ss] eqn:E; [|done].
    destruct a; cbn in E; [done|]. repeat case_match; done.
Qed.

Lemma segments_no_sep p : no_sep p -> segments p = [p].
Proof. induction 1 as [|b p Hb Hp IH]; [done|]. cbn. by rewrite Hb, IH. Qed.

Lemma body_app_sep a b : body (a ++ MAIN_SEP :: b) = body a ++ body b.
Proof. unfold body. by rewrite segments_app_sep, omap_app. Qed.

Lemma body_sep b : body (MAIN_SEP :: b) = body b.
Proof. apply (body_app_sep [] b). Qed.

Lemma body_no_sep p : no_sep p -> body p = option_list (named p).
Proof. intros H. unfold body. rewrite segments_no_sep by done. cbn. by destruct (named p). Qed.

Lemma position_none f p : position f p = None -> Forall (fun b => f b = false) p.
Proof.
  induction p as [|b p IH]; cbn; [by constructor|].
  destruct (f b) eqn:E; [done|]. destruct (position f p); [done|]. constructor; auto.
Qed.

Lemma position_some f p i :
  position f p = Some i ->
  exists a b r, p = a ++ b :: r /\ length a = i /\ f b = true /\ Forall (fun b => f b = false) a.
Proof.
  revert i. induction p as [|b p IH]; intros i; cbn; [done|].
  destruct (f b) eqn:E.
  - intros [= <-]. by exists [], b, p.
  - destruct (position f p) as [j|]; [|done]. intros [= <-].
    destruct (IH j eq_refl) as (a & x & r & -> & <- & Hx & Ha).
    exists (b :: a), x, r. repeat split; auto.
Qed.

Lemma rposition_none f p : rposition f p = None -> Forall (fun b => f b = false) p.
Proof.
  induction p as [|b p IH]; cbn; [by constructor|].
  destruct (rposition f p); [done|]. destruct (f b) eqn:E; [done|]. constructor; auto.
Qed.

Lemma rposition_some f p i :
  rposition f p = Some i ->
  exists a b r, p = a ++ b :: r /\ length a = i /\ f b = true /\ Forall (fun b => f b = false) r.
Proof.
  revert i. induction p as [|b p IH]; intros i; cbn; [done|].
  destruct (rposition f p) as [j|] eqn:R.
  - intros [= <-]. destruct (IH j eq_refl) as (a & x & r & -> & <- & Hx & Ha).
    exists (b :: a), x, r. repeat split; auto.
  - destruct (f b) eqn:E; [|done]. intros [= <-]. exists [], b, p. repeat split; auto.
    by apply rposition_none.
Qed.

(** * Slices in range *)
Lemma slice_from_app a b : slice_from (length a) (a ++ b) = Val b.
Proof.
  unfold slice_from. rewrite (proj2 (Nat.leb_le _ _)) by (rewrite length_app; lia).
  by rewrite drop_app_length.
Qed.

Lemma slice_to_app a b : slice_to (length a) (a ++ b) = Val a.
Proof.
  unfold slice_to. rewrite (proj2 (Nat.leb_le _ _)) by (rewrite length_app; lia).
  by rewrite take_app_length.
Qed.

Lemma slice_less_app a b : slice_less (length b) (a ++ b) = Val a.
Proof.
  unfold slice_less. rewrite (proj2 (Nat.leb_le _ _)) by (rewrite length_app; lia).
  by rewrite length_app, Nat.add_sub, take_app_length.
Qed.

(** * The state of the iterator *)
Definition early (c : Components) : bool := state_rank (c_front c) <=? state_rank S_StartDir.

(** What is left of the path, as components. *)
Definition remaining (c : Components) : list Component :=
  (if early c then start (c_path c) else []) ++ body (c_path c).

(** The states between two calls. *)
Record wf (c : Components) : Prop := {
  wf_prefix : c_prefix c = None;
  wf_root : early c = true -> c_back c = S_Body -> c_has_physical_root c = rooted (c_path c);
  wf_back : c_back c <> S_Body -> c_path c = [];
  wf_start : c_back c = S_StartDir -> early c = false;
  wf_done : c_front c = S_Done -> c_path c = []
}.

Lemma components_val p :
  components p = Val {| c_path := p; c_prefix := None; c_has_physical_root := rooted p;
                        c_front := S_Prefix; c_back := S_Body |}.
Proof. done. Qed.

Section NoPrefix.
Context (c : Components) (Hp : c_prefix c = None).

Lemma sep_byte_plain : sep_byte c = is_sep_byte.
Proof. unfold sep_byte, prefix_verbatim. by rewrite Hp. Qed.

Lemma parse_single_named seg : parse_single_component c seg = named seg.
Proof.
  unfold parse_single_component, named, prefix_verbatim. rewrite Hp. cbn.
  repeat case_bool_decide; naive_solver.
Qed.

Lemma prefix_len_0 : prefix_len c = 0.
Proof. unfold prefix_len. by rewrite Hp. Qed.

Lemma has_root_physical : has_root c = c_has_physical_root c.
Proof. unfold has_root. rewrite Hp. by destruct (c_has_physical_root c). Qed.

Lemma include_cur_dir_dotted :
  include_cur_dir c = Val (negb (c_has_physical_root c) && dotted (c_path c)).
Proof.
  unfold include_cur_dir. rewrite has_root_physical, prefix_len_0, sep_byte_plain.
  destruct (c_has_physical_root c); [done|]. cbn. rewrite drop_0. by destruct (c_path c) as [|? [|]].
Qed.

(** The bytes that stand for the leading component. *)
Definition lead : nat :=
  if early c then if c_has_physical_root c then 1 else if dotted (c_path c) then 1 else 0 else 0.

Lemma len_before_body_lead : len_before_body c = Val lead.
Proof.
  unfold len_before_body, lead, prefix_remaining. fold (early c). rewrite include_cur_dir_dotted, prefix_len_0.
  destruct (early c); cbn; case_bool_decide; cbn; try done;
    destruct (c_has_physical_root c), (dotted (c_path c)); done.
Qed.
End NoPrefix.

(** * One component from the front of a body *)

(** A path that begins with a piece has no leading component. *)
Lemma piece_start a r :
  no_sep a -> r = [] \/ rooted r = true -> named a <> None -> start (a ++ r) = [].
Proof.
  intros Ha Hr Hn. unfold start. destruct a as [|x a]; [by destruct Hn|].
  inversion Ha as [|? ? Hx Ha']; subst. cbn [app rooted]. rewrite Hx.
  destruct (Byte.eqb x "."%byte) eqn:E.
  - apply Byte.byte_dec_bl in E as ->. destruct a as [|y a]; [by destruct Hn|].
    inversion Ha' as [|? ? Hy _]; subst. cbn. by rewrite Hy.
  - destruct a as [|y a], r as [|z r]; cbn; by rewrite E.
Qed.

Lemma parse_next_spec c :
  c_prefix c = None -> c_front c = S_Body -> c_path c <> [] ->
  exists size comp rest,
    parse_next_component c = Val (size, comp)
    /\ slice_from size (c_path c) = Val rest
    /\ rest `suffix_of` c_path c /\ length rest < length (c_path c)
    /\ body (c_path c) = option_list comp ++ body rest
    /\ (comp <> None -> start (c_path c) = []).
Proof.
  intros Hp Hf Hne. unfold parse_next_component. rewrite Hf, sep_byte_plain by done.
  cbn [assert bool_decide mbind outcome_bind decide_rel].
  rewrite bool_decide_true by done. cbn [assert mbind outcome_bind].
  destruct (position _ _) as [i|] eqn:E.
  - apply position_some in E as (a & b & r & -> & <- & Hb & Ha).
    apply is_sep_true in Hb as ->. rewrite slice_to_app.
    eexists _, _, r. split; [done|]. split; [|split; [|split; [|split]]].
    + rewrite cons_middle, app_assoc. rewrite <- (slice_from_app (a ++ [MAIN_SEP]) r).
      by rewrite length_app.
    + exists (a ++ [MAIN_SEP]). by rewrite <- app_assoc.
    + rewrite length_app. cbn. lia.
    + by rewrite body_app_sep, body_no_sep, parse_single_named.
    + rewrite parse_single_named by done. apply piece_start; auto.
  - apply position_none in E. eexists _, _, []. split; [done|]. split; [|split; [|split; [|split]]].
    + rewrite Nat.add_0_r. rewrite <- (app_nil_r (c_path c)) at 2. apply slice_from_app.
    + exists (c_path c). by rewrite app_nil_r.
    + destruct (c_path c); [done|cbn; lia].
    + rewrite body_no_sep, parse_single_named by done. by rewrite app_nil_r.
    + rewrite parse_single_named by done. rewrite <- (app_nil_r (c_path c)) at 2. apply piece_start; auto.
Qed.

(** * One component from the back of a body *)

(** The path is cut before [k ++ s]: a last piece [s] and the separator before it,
    or all of the body when it has no separator. *)
Record back_cut (n : nat) (p pre rest k s : OsStr) : Prop := {
  bc_path : p = pre ++ rest ++ k ++ s;
  bc_lead : length pre = n;
  bc_progress : k ++ s <> [];
  bc_piece : no_sep s;
  bc_sep : k = [] /\ rest = [] \/ k = [MAIN_SEP]
}.

Lemma parse_next_back_spec c :
  c_prefix c = None -> c_back c = S_Body -> lead c < length (c_path c) ->
  exists size pre rest k s,
    parse_next_component_back c = Val (size, named s)
    /\ slice_less size (c_path c) = Val (pre ++ rest)
    /\ back_cut (lead c) (c_path c) pre rest k s.
Proof.
  intros Hp Hb Hlt. unfold parse_next_component_back.
  rewrite Hb, len_before_body_lead, sep_byte_plain by done.
  rewrite bool_decide_true by done. cbn [assert mbind outcome_bind].
  assert (exists pre tail, c_path c = pre ++ tail /\ length pre = lead c) as (pre & tail & E & Hpre).
  { exists (take (lead c) (c_path c)), (drop (lead c) (c_path c)).
    rewrite take_drop, length_take. split; [done|lia]. }
  rewrite E in Hlt |- *. rewrite length_app in Hlt.
  assert (slice_from (lead c) (pre ++ tail) = Val tail) as -> by (rewrite <- Hpre; apply slice_from_app).
  cbn [mbind outcome_bind]. destruct (rposition _ _) as [i|] eqn:R.
  - apply rposition_some in R as (a & b & r & -> & <- & Hs & Ha). apply is_sep_true in Hs as ->.
    replace (slice_from (lead c + length a + 1) (pre ++ a ++ MAIN_SEP :: r)) with (Val r).
    2:{ rewrite <- (slice_from_app (pre ++ a ++ [MAIN_SEP]) r). f_equal.
        - rewrite !length_app. cbn. lia.
        - by rewrite <- !app_assoc. }
    eexists _, pre, a, [MAIN_SEP], r. split; [cbn; by rewrite parse_single_named|].
    split; [|by split; auto].
    rewrite app_assoc. rewrite <- (slice_less_app (pre ++ a) (MAIN_SEP :: r)). f_equal. cbn. lia.
  - apply rposition_none in R. eexists _, pre, [], [], tail.
    split; [by rewrite parse_single_named|]. rewrite Nat.add_0_r, app_nil_r.
    split; [apply slice_less_app|]. split; auto. cbn [app]. intros ->. cbn in Hlt. lia.
Qed.

(** * Reading from the front *)
Lemma rooted_cons p : rooted p = true -> exists r, p = MAIN_SEP :: r.
Proof. destruct p as [|b r]; cbn; [done|]. intros ->%is_sep_true. by exists r. Qed.

Lemma dotted_cons p :
  dotted p = true -> exists r, p = "."%byte :: r /\ body p = body r /\ (r = [] \/ rooted r = true).
Proof.
  destruct p as [|b [|s r]]; cbn [dotted]; [done| |].
  - intros ->%Byte.byte_dec_bl. exists []. auto.
  - intros [->%Byte.byte_dec_bl Hs]%andb_prop. pose proof Hs as ->%is_sep_true.
    exists (MAIN_SEP :: r). split; [done|]. split; [|by right].
    change ("."%byte :: MAIN_SEP :: r) with (["."%byte] ++ MAIN_SEP :: r).
    by rewrite body_app_sep, body_sep.
Qed.

Lemma dotted_sep r : dotted (MAIN_SEP :: r) = false.
Proof. by destruct r. Qed.

Lemma remaining_nil c : c_path c = [] -> remaining c = [].
Proof. unfold remaining. intros ->. by destruct (early c). Qed.

Lemma remaining_early c : early c = true -> remaining c = comps_of (c_path c).
Proof. unfold remaining. by intros ->. Qed.

Lemma finished_empty c : wf c -> finished c = true -> c_path c = [].
Proof.
  intros [_ _ Hb _ Hd]. destruct c as [p pr r f b]. cbn in *.
  intros F. destruct f, b; vm_compute in F; first [done | by apply Hd | by apply Hb].
Qed.

Local Notation in_body p r :=
  {| c_path := p; c_prefix := None; c_has_physical_root := r; c_front := S_Body; c_back := S_Body |}.

Lemma wf_body p r : wf (in_body p r).
Proof. by split. Qed.

Lemma next_loop_body fuel p r :
  length p < fuel ->
  exists c', next_loop fuel (in_body p r) = Val (head (body p), c')
    /\ wf c' /\ remaining c' = tail (body p) /\ c_path c' `suffix_of` p.
Proof.
  revert p. induction fuel as [|fuel IH]; intros p Hfuel; [lia|].
  cbn [next_loop]. change (finished _) with false. cbn [c_front c_back c_path].
  destruct (decide (p = [])) as [->|Hne].
  - rewrite bool_decide_false by naive_solver.
    eexists. split; [by destruct fuel|]. split; [by split|]. split; [done|]. by exists [].
  - rewrite (bool_decide_true (p <> [])) by done.
    edestruct (parse_next_spec (in_body p r))
      as (size & comp & rest & -> & E & Hsuf & Hlt & Hbody & _); [done..|].
    cbn in E. cbn [mbind outcome_bind c_path]. rewrite E. cbn in Hbody, Hlt, Hsuf.
    rewrite Hbody. destruct comp as [x|]; cbn [mbind outcome_bind set_path].
    + eexists. split; [done|]. split; [apply wf_body|]. done.
    + change (set_path _ rest) with (in_body rest r).
      edestruct (IH rest) as (c' & -> & Hwf & Hrem & Hs); [lia|].
      exists c'. split; [done|]. split; [done|]. split; [done|]. by etrans.
Qed.

Definition next_post (c : Components) (o : outcome (option Component * Components)) : Prop :=
  exists c', o = Val (head (remaining c), c') /\ wf c' /\ remaining c' = tail (remaining c)
             /\ c_path c' `suffix_of` c_path c.

Lemma next_loop_start fuel c :
  wf c -> c_front c = S_StartDir -> c_back c = S_Body -> length (c_path c) + 1 < fuel ->
  next_post c (next_loop fuel c).
Proof.
  intros [Hp Hr _ _ _] Hf Hb Hfuel. destruct c as [p pr r f b]. cbn in *. subst.
  rewrite Hr by done. clear Hr. unfold next_post. rewrite remaining_early by done.
  unfold comps_of, start. destruct fuel as [|fuel]; [lia|]. cbn [next_loop].
  change (finished _) with false.
  cbn [c_front]. change (set_front _ S_Body) with (in_body p (rooted p)).
  cbn [c_path c_prefix c_has_physical_root]. destruct (rooted p) eqn:R.
  - destruct (rooted_cons p R) as [q ->]. eexists. split; [done|].
    split; [apply wf_body|]. split; [by rewrite body_sep|]. by exists [MAIN_SEP].
  - rewrite include_cur_dir_dotted by done. cbn [mbind outcome_bind c_path c_has_physical_root negb andb].
    destruct (dotted p) eqn:D.
    + destruct (dotted_cons p D) as (q & -> & Hq & _). eexists. split; [done|].
      split; [apply wf_body|]. split; [by rewrite Hq|]. by exists ["."%byte].
    + destruct (next_loop_body fuel p false) as (c' & E & Hwf & Hrem & Hs); [lia|].
      exists c'. rewrite E. auto.
Qed.

(** [next] takes the first component of what remains, and stays at the end. *)
Lemma next_spec c : wf c -> next_post c (next c).
Proof.
  intros Hwf. unfold next. rewrite Nat.add_comm. cbn [Nat.add next_loop].
  destruct (finished c) eqn:F.
  - pose proof (finished_empty c Hwf F) as E. exists c. rewrite remaining_nil by done. by auto.
  - pose proof Hwf as [Hp Hr Hback Hstart Hdone].
    destruct (c_front c) eqn:Hf.
    + rewrite prefix_len_0 by done. cbn [Nat.ltb Nat.leb].
      assert (wf (set_front c S_StartDir)) as Hwf'.
      { destruct c; cbn in *; subst. by split. }
      assert (remaining (set_front c S_StartDir) = remaining c) as Hrem.
      { unfold remaining, early. by rewrite Hf. }
      destruct (c_back c) eqn:Hb.
      * assert (finished (set_front c S_StartDir) = true) as F' by (destruct c; cbn in *; by subst).
        exists (set_front c S_StartDir). rewrite Hrem, remaining_nil by auto.
        cbn [next_loop]. rewrite F'. by auto.
      * unfold early in Hstart. rewrite Hf in Hstart. discriminate Hstart; done.
      * pose proof (next_loop_start (S (S (length (c_path c)))) (set_front c S_StartDir) Hwf'
                      eq_refl Hb ltac:(cbn; lia)) as Hn.
        unfold next_post in *. by rewrite Hrem in Hn.
      * unfold finished in F. rewrite Hb in F. by rewrite orb_true_r in F.
    + assert (c_back c = S_Body) as Hb.
      { unfold early in Hstart. unfold finished in F. rewrite Hf in *. destruct (c_back c); naive_solver. }
      pose proof (next_loop_start (S (S (S (length (c_path c))))) c Hwf Hf Hb ltac:(lia)) as Hn.
      cbn [next_loop] in Hn. by rewrite F, Hf in Hn.
    + assert (c_back c = S_Body) as Hb.
      { unfold finished in F. rewrite Hf in *. destruct (c_back c); naive_solver. }
      destruct c as [p pr r f b]. cbn in *. subst.
      destruct (next_loop_body (S (S (S (length p)))) p r ltac:(lia)) as (c' & E & Hn).
      exists c'. cbn [next_loop] in E. by rewrite F in E.
    + unfold finished in F. by rewrite Hf in F.
Qed.

(** * Reading from the back *)
Definition lead_of (p : OsStr) : nat := if rooted p then 1 else if dotted p then 1 else 0.

(** The body of a cut path, when its leading bytes are none. *)
Lemma back_cut_body p rest k s :
  back_cut 0 p [] rest k s -> body p = body rest ++ option_list (named s).
Proof.
  intros [-> _ _ Hs [[-> ->]| ->]]; cbn [app].
  - by rewrite body_no_sep.
  - by rewrite body_app_sep, (body_no_sep s).
Qed.

(** The leading bytes are the same before and after a cut. *)
Lemma back_cut_start p pre rest k s :
  back_cut (lead_of p) p pre rest k s ->
  rooted (pre ++ rest) = rooted p /\ dotted (pre ++ rest) = dotted p
  /\ body p = body (pre ++ rest) ++ option_list (named s).
Proof.
  intros [E Hl Hne Hs Hk]. unfold lead_of in Hl. destruct (rooted p) eqn:R.
  - destruct (rooted_cons p R) as [q ->]. destruct pre as [|b [|]]; [done| |done].
    injection E as <- ->. split; [done|]. split; [cbn [app]; by rewrite !dotted_sep|]. cbn [app]. rewrite !body_sep.
    destruct Hk as [[-> ->]| ->]; cbn [app]; [by rewrite body_no_sep|].
    by rewrite body_app_sep, (body_no_sep s).
  - destruct (dotted p) eqn:D.
    + destruct (dotted_cons p D) as (q & -> & Hq & Hr). destruct pre as [|b [|]]; [done| |done].
      injection E as <- ->. rewrite Hq.
      destruct Hr as [Hr|Hr]; [by apply app_nil in Hr as [_ Hr]|].
      destruct Hk as [[-> ->]| ->].
      { cbn [app] in Hr. destruct (rooted_cons s Hr) as [? ->]. by inversion Hs. }
      assert (body ("."%byte :: rest) = body rest /\ dotted ("."%byte :: rest) = true) as [Hb Hd].
      { destruct rest as [|x rest]; [done|]. cbn [app rooted] in Hr. pose proof Hr as ->%is_sep_true.
        split; [|done]. by destruct (dotted_cons ("."%byte :: MAIN_SEP :: rest))
          as (? & [= <-] & ? & _); [cbn|]. }
      split; [done|]. split; [done|]. cbn [app]. rewrite Hb, body_app_sep. by rewrite (body_no_sep s).
    + destruct pre; [|done]. cbn [app] in *.
      assert (back_cut 0 p [] rest k s) as Hc by done.
      split; [|split; [|by apply back_cut_body in Hc]].
      * subst p. by destruct rest.
      * subst p. destruct Hk as [[-> ->]| ->]; [done|].
        destruct rest as [|x [|y rest]]; [done| |done]. cbn in *. by destruct (Byte.eqb x _).
Qed.

(** What follows a separator adds to what comes before it. *)
Lemma start_app_sep q r : q <> [] -> start (q ++ MAIN_SEP :: r) = start q.
Proof.
  intros Hq. unfold start. destruct q as [|x [|y q]]; [done| |done]. cbn. by rewrite andb_true_r.
Qed.

Lemma comps_of_app_sep q r : q <> [] -> comps_of (q ++ MAIN_SEP :: r) = comps_of q ++ body r.
Proof. intros Hq. unfold comps_of. by rewrite start_app_sep, body_app_sep, app_assoc. Qed.

Lemma lead_early c : early c = true -> c_has_physical_root c = rooted (c_path c) -> lead c = lead_of (c_path c).
Proof. unfold lead, lead_of. by intros -> ->. Qed.

Lemma lead_late c : early c = false -> lead c = 0.
Proof. unfold lead. by intros ->. Qed.

(** One cut, for an iterator in any state that reads its back. *)
Lemma back_cut_remaining c pre rest k s :
  wf c -> c_back c = S_Body -> back_cut (lead c) (c_path c) pre rest k s ->
  wf (set_path c (pre ++ rest))
  /\ remaining c = remaining (set_path c (pre ++ rest)) ++ option_list (named s)
  /\ (early c = true -> comps_of (pre ++ rest ++ k) = comps_of (pre ++ rest)).
Proof.
  intros [Hp Hr _ Hs Hd] Hb Hc.
  assert (early (set_path c (pre ++ rest)) = early c) as He by done.
  unfold remaining. rewrite He. cbn [c_path set_path]. destruct (early c) eqn:E.
  - rewrite lead_early in Hc by auto. pose proof (back_cut_start _ _ _ _ _ Hc) as (R & D & Hbody).
    split; [|split].
    + split; cbn; try congruence; [by intros; rewrite R; auto|].
      intros F. unfold early in E. by rewrite F in E.
    + unfold start. rewrite R, D, Hbody. by rewrite app_assoc.
    + intros _. destruct Hc as [Hpath Hl _ _ [[-> ->]| ->]]; [by rewrite !app_nil_r|].
      rewrite app_assoc, comps_of_app_sep; [by rewrite app_nil_r|].
      intros [-> ->]%app_nil. rewrite Hpath in Hl. done.
  - rewrite lead_late in Hc by done. pose proof (bc_lead _ _ _ _ _ _ Hc) as ->%nil_length_inv.
    split; [|split; [|done]]; cbn [app] in *.
    + split; cbn; try congruence. intros F. rewrite (Hd F) in Hc.
      destruct Hc as [Hc _ _ _ _]. by destruct rest.
    + by apply back_cut_body in Hc.
Qed.

(** Where the slice of a [Normal] component lies in the path. *)
Definition piece_at (c : Components) (r : option (Component * nat)) : Prop :=
  forall s e, r = Some (Normal s, e) ->
  e <= length (c_path c) /\ no_sep s
  /\ exists k, take e (c_path c) = k ++ s /\ (k = [] \/ exists k', k = k' ++ [MAIN_SEP])
               /\ (early c = true -> comps_of k = removelast (remaining c)).

Definition back_post (c : Components) (o : outcome (option (Component * nat) * Components)) : Prop :=
  exists r c', o = Val (r, c') /\ option_map fst r = list.last (remaining c) /\ wf c'
    /\ remaining c' = removelast (remaining c) /\ c_path c' `prefix_of` c_path c
    /\ c_front c' = c_front c /\ piece_at c r.

Lemma piece_at_none c : piece_at c None.
Proof. by intros ? ?. Qed.

Lemma named_normal s t : named s = Some (Normal t) -> s = t.
Proof. unfold named. repeat case_bool_decide; naive_solver. Qed.

(** The last states of the loop: nothing but the leading component is left. *)
Lemma next_back_prefix fuel c :
  c_prefix c = None -> c_path c = [] -> early c = true -> c_back c = S_Prefix -> 0 < fuel ->
  exists c', next_back_loop fuel c = Val (None, c') /\ wf c' /\ c_path c' = [] /\ c_front c' = c_front c.
Proof.
  intros Hp Hpath He Hb Hfuel. destruct fuel as [|fuel]; [lia|]. cbn [next_back_loop].
  destruct c as [p pr r f b]. cbn in *. subst. destruct f; try done.
  - change (finished _) with false. cbn. eexists. split; [done|]. by repeat split.
  - change (finished _) with true. cbn. eexists. split; [done|]. by repeat split.
Qed.

Lemma next_back_start fuel c :
  c_prefix c = None -> c_has_physical_root c = rooted (c_path c) -> early c = true ->
  c_back c = S_StartDir -> length (c_path c) <= lead_of (c_path c) -> 1 < fuel ->
  exists r c', next_back_loop fuel c = Val (r, c') /\ option_map fst r = list.last (start (c_path c))
    /\ wf c' /\ c_path c' = [] /\ c_front c' = c_front c /\ (forall s e, r <> Some (Normal s, e)).
Proof.
  intros Hp Hr He Hb Hl Hfuel. destruct fuel as [|fuel]; [lia|]. cbn [next_back_loop].
  assert (finished c = false) as -> by (destruct c as [? ? ? f b]; cbn in *; subst; by destruct f).
  rewrite Hb. unfold start. unfold lead_of in Hl.
  assert (forall c', c_prefix c' = None -> c_path c' = [] -> c_back c' = S_Prefix -> wf c') as Hwf.
  { intros c' ? ? Hb'. split; auto; by rewrite Hb'. }
  cbn [set_back c_has_physical_root c_prefix c_path]. rewrite Hr, Hp. destruct (rooted _) eqn:R.
  - destruct (rooted_cons _ R) as [q E]. rewrite E in Hl |- *. destruct q; [|cbn in Hl; lia].
    eexists _, _. split; [done|]. split; [done|]. by auto.
  - rewrite include_cur_dir_dotted by done. cbn [set_back c_has_physical_root c_prefix c_path].
    rewrite Hr. cbn [negb andb mbind outcome_bind]. destruct (dotted _) eqn:D.
    + destruct (dotted_cons _ D) as (q & E & _). rewrite E in Hl |- *. destruct q; [|cbn in Hl; lia].
      eexists _, _. split; [done|]. split; [done|]. by auto.
    + destruct (next_back_prefix fuel (set_back c S_Prefix)) as (c' & -> & ? & ? & ?); [done| |done|done|lia|].
      { apply nil_length_inv. cbn. lia. }
      exists None, c'. by auto.
Qed.

Lemma next_back_loop_end fuel c :
  wf c -> c_back c = S_Body -> finished c = false -> length (c_path c) <= lead c -> 2 < fuel ->
  back_post c (next_back_loop fuel c).
Proof.
  intros Hwf Hb F Hl Hfuel. pose proof Hwf as [Hp Hr _ _ Hd].
  destruct fuel as [|fuel]; [lia|]. cbn [next_back_loop].
  rewrite F, Hb, len_before_body_lead by done. cbn [mbind outcome_bind].
  rewrite (proj2 (Nat.ltb_ge _ _)) by done. destruct (early c) eqn:He.
  - rewrite lead_early in Hl by auto.
    destruct (next_back_start fuel (set_back c S_StartDir)) as (r & c' & -> & Hlast & Hwf' & Hpath & Hf & Hn);
      [by auto..|lia|].
    assert (body (c_path c) = []) as Hbody.
    { unfold lead_of in Hl. destruct (rooted _) eqn:R; [|destruct (dotted _) eqn:D].
      - destruct (rooted_cons _ R) as [[|] E]; rewrite E in *; [done|cbn in Hl; lia].
      - destruct (dotted_cons _ D) as ([|] & E & _); rewrite E in *; [done|cbn in Hl; lia].
      - by rewrite (nil_length_inv (c_path c)) by lia. }
    exists r, c'. rewrite (remaining_nil c'), remaining_early by done. unfold comps_of.
    rewrite Hbody, app_nil_r, Hpath. split; [done|]. split; [done|]. split; [done|].
    split; [|split; [apply prefix_nil|split; [done|intros s e Hs; by destruct (Hn s e)]]].
    unfold start. by repeat case_match.
  - rewrite lead_late in Hl by done. assert (c_path c = []) as Hnil by (apply nil_length_inv; lia).
    assert (c_front c = S_Body) as Hf.
    { unfold finished in F. unfold early in He. by destruct (c_front c). }
    destruct fuel as [|fuel]; [lia|]. cbn [next_back_loop].
    assert (finished (set_back c S_StartDir) = true) as ->.
    { unfold finished. cbn. by rewrite Hf. }
    exists None, (set_back c S_StartDir). rewrite !remaining_nil by done.
    do 2 (split; [done|]). split; [by split|]. do 3 (split; [done|]). apply piece_at_none.
Qed.

(** What precedes a piece is nothing or ends in a separator. *)
Lemma back_cut_before c pre rest k s :
  wf c -> c_back c = S_Body -> back_cut (lead c) (c_path c) pre rest k s ->
  pre ++ rest ++ k = [] \/ exists k', pre ++ rest ++ k = k' ++ [MAIN_SEP].
Proof.
  intros [_ Hr _ _ _] Hb [Hp Hl Hne Hs [[-> ->]| ->]].
  2:{ right. exists (pre ++ rest). by rewrite app_assoc. }
  cbn [app] in Hp, Hne |- *. rewrite app_nil_r. destruct (early c) eqn:He.
  - rewrite lead_early in Hl by auto. unfold lead_of in Hl. destruct (rooted _) eqn:R.
    + destruct (rooted_cons _ R) as [q E]. rewrite E in Hp. destruct pre as [|b [|]]; [done| |done].
      injection Hp as <- _. right. by exists [].
    + destruct (dotted _) eqn:D; [|left; by apply nil_length_inv].
      destruct (dotted_cons _ D) as (q & E & _ & Hq). rewrite E in Hp.
      destruct pre as [|b [|]]; [done| |done]. injection Hp as <- ->.
      destruct Hq as [->|[? ->]%rooted_cons]; [done|]. by inversion Hs.
  - rewrite lead_late in Hl by done. left. by apply nil_length_inv.
Qed.

Lemma piece_at_shrunk c q r :
  q `prefix_of` c_path c -> remaining (set_path c q) = remaining c ->
  piece_at (set_path c q) r -> piece_at c r.
Proof.
  intros [x E] Hrem Hp s e Hs. destruct (Hp s e Hs) as (He & Hn & k & Ht & Hk & Hc). cbn in *.
  rewrite E, length_app. split; [lia|]. split; [done|]. exists k.
  rewrite take_app_le by done. by rewrite <- Hrem.
Qed.

Lemma last_option_list {A} (l : list A) (o : option A) :
  list.last (l ++ option_list o) = match o with Some x => Some x | None => list.last l end.
Proof. destruct o; cbn; [apply last_snoc|by rewrite app_nil_r]. Qed.

Lemma next_back_loop_body fuel c :
  wf c -> c_back c = S_Body -> finished c = false -> length (c_path c) + 2 < fuel ->
  back_post c (next_back_loop fuel c).
Proof.
  revert c. induction fuel as [|fuel IH]; intros c Hwf Hb F Hfuel; [lia|].
  destruct (decide (length (c_path c) <= lead c)) as [Hle|Hlt]; [by apply next_back_loop_end; try lia|].
  pose proof Hwf as [Hp _ _ _ _]. cbn [next_back_loop].
  rewrite F, Hb, len_before_body_lead by done. cbn [mbind outcome_bind].
  rewrite (proj2 (Nat.ltb_lt _ _)) by lia.
  destruct (parse_next_back_spec c) as (size & pre & rest & k & s & -> & E & Hc); [done..|lia|].
  destruct (back_cut_remaining c pre rest k s Hwf Hb Hc) as (Hwf' & Hrem & Hk).
  cbn [mbind outcome_bind]. rewrite E. cbn [mbind outcome_bind].
  pose proof (bc_path _ _ _ _ _ _ Hc) as Hpath. rewrite app_assoc in Hpath.
  destruct (named s) as [x|] eqn:N.
  - eexists _, _. split; [done|]. rewrite Hrem, last_option_list.
    change (option_list (Some x)) with [x]. rewrite removelast_last.
    do 3 (split; [done|]). split; [by eexists|]. split; [done|]. intros t e [= -> <-].
    apply named_normal in N as ->. split; [done|]. split; [apply Hc|].
    exists (pre ++ rest ++ k). rewrite firstn_all, Hpath, <- !app_assoc. split; [done|].
    split; [by apply (back_cut_before c _ _ _ t)|]. rewrite Hrem. change (option_list (Some _)) with [Normal t]. rewrite removelast_last.
    intros He. by rewrite Hk, remaining_early.
  - cbn in Hrem. rewrite app_nil_r in Hrem.
    destruct (IH (set_path c (pre ++ rest))) as (r & c' & -> & Hlast & Hw & Hr & Hpre & Hf & Hpiece); auto.
    { pose proof (bc_progress _ _ _ _ _ _ Hc). cbn. rewrite Hpath, length_app in Hfuel.
      destruct (k ++ s); [done|]. cbn in Hfuel. lia. }
    assert (pre ++ rest `prefix_of` c_path c) as Hq by (by exists (k ++ s)).
    exists r, c'. rewrite Hrem. do 4 (split; [done|]). split; [by etrans|]. split; [done|].
    by eapply piece_at_shrunk.
Qed.

(** [next_back] takes the last component of what remains, and stays at the end. *)
Lemma next_back_at_spec c : wf c -> back_post c (next_back_at c).
Proof.
  intros Hwf. unfold next_back_at. destruct (finished c) eqn:F.
  - rewrite Nat.add_comm. cbn [Nat.add next_back_loop]. rewrite F.
    pose proof (finished_empty c Hwf F) as E. exists None, c. rewrite remaining_nil by done.
    do 5 (split; [done|]). split; [done|]. apply piece_at_none.
  - destruct (c_back c) eqn:Hb.
    + pose proof (wf_back c Hwf ltac:(by rewrite Hb)) as E.
      assert (early c = true) as He by (unfold finished in F; unfold early; rewrite Hb in F; by destruct (c_front c)).
      destruct (next_back_prefix (length (c_path c) + 3) c) as (c' & -> & Hw & Hp & Hf); [apply Hwf|done..|lia|].
      exists None, c'. rewrite !remaining_nil, Hp by done.
      do 4 (split; [done|]). split; [apply prefix_nil|]. split; [done|]. apply piece_at_none.
    + pose proof (wf_start c Hwf Hb) as He. unfold finished in F. unfold early in He. rewrite Hb in F.
      by destruct (c_front c).
    + by apply next_back_loop_body; [done..|lia].
    + unfold finished in F. rewrite Hb in F. by rewrite orb_true_r in F.
Qed.

Lemma next_back_spec c :
  wf c -> exists c', next_back c = Val (list.last (remaining c), c') /\ wf c'
    /\ remaining c' = removelast (remaining c) /\ c_path c' `prefix_of` c_path c
    /\ c_front c' = c_front c.
Proof.
  intros Hwf. destruct (next_back_at_spec c Hwf) as (r & c' & E & <- & ? & ? & ? & ? & _).
  exists c'. unfold next_back. by rewrite E.
Qed.

(** * The iterator as a deque

    Walks over the components of a path.

    Any order of reads from the two ends, [collect], the path that is left of an
    iterator ([as_path]) and [iter_after], each against the list of components of
    PathSpecs. *)


(** * Reads from both ends *)
Inductive end_of := Front | Back.

Definition read (e : end_of) (c : Components) : outcome (option Component * Components) :=
  match e with Front => next c | Back => next_back c end.

Fixpoint reads (es : list end_of) (c : Components) : outcome (list (option Component)) :=
  match es with
  | [] => Val []
  | e :: es => '(x, c) ← read e c; l ← reads es c; Val (x :: l)
  end.

(** The same on a list. *)
Definition take_end (e : end_of) (l : list Component) : option Component * list Component :=
  match e with Front => (head l, tail l) | Back => (list.last l, removelast l) end.

Fixpoint list_reads (es : list end_of) (l : list Component) : list (option Component) :=
  match es with
  | [] => []
  | e :: es => (take_end e l).1 :: list_reads es (take_end e l).2
  end.

(** An iterator that yields the components in a direction. *)
Definition yields (e : end_of) (c : Components) : list Component :=
  match e with Front => remaining c | Back => reverse (remaining c) end.

Lemma read_spec e c :
  wf c -> exists c', read e c = Val ((take_end e (remaining c)).1, c') /\ wf c'
                     /\ remaining c' = (take_end e (remaining c)).2.
Proof.
  intros Hwf. destruct e; cbn.
  - destruct (next_spec c Hwf) as (c' & -> & ? & ? & _). eauto.
  - destruct (next_back_spec c Hwf) as (c' & -> & ? & ? & _). eauto.
Qed.

Lemma reads_spec es c : wf c -> reads es c = Val (list_reads es (remaining c)).
Proof.
  revert c. induction es as [|e es IH]; intros c Hwf; cbn [reads list_reads]; [done|].
  destruct (read_spec e c Hwf) as (c' & -> & Hwf' & Hrem). cbn [mbind outcome_bind].
  by rewrite IH, Hrem.
Qed.

(** The iterator after some reads, and the list. *)
Fixpoint walk (es : list end_of) (c : Components) : outcome Components :=
  match es with
  | [] => Val c
  | e :: es => '(_, c) ← read e c; walk es c
  end.
Fixpoint list_walk (es : list end_of) (l : list Component) : list Component :=
  match es with
  | [] => l
  | e :: es => list_walk es (take_end e l).2
  end.

Lemma walk_spec es c :
  wf c -> exists c', walk es c = Val c' /\ wf c' /\ remaining c' = list_walk es (remaining c).
Proof.
  revert c. induction es as [|e es IH]; intros c Hwf; cbn [walk list_walk]; [eauto|].
  destruct (read_spec e c Hwf) as (c' & -> & Hwf' & Hrem). cbn [mbind outcome_bind].
  rewrite <- Hrem. by apply IH.
Qed.

Lemma wf_new p : wf {| c_path := p; c_prefix := None; c_has_physical_root := rooted p;
                       c_front := S_Prefix; c_back := S_Body |}.
Proof. by split. Qed.

Lemma components_spec p :
  exists c, components p = Val c /\ wf c /\ remaining c = comps_of p /\ c_front c = S_Prefix
            /\ c_path c = p /\ c_prefix c = None /\ c_has_physical_root c = rooted p.
Proof. eexists. rewrite components_val. split; [done|]. split; [apply wf_new|]. done. Qed.

Lemma walk_components es p :
  exists c, (c ← components p; walk es c) = Val c /\ wf c /\ remaining c = list_walk es (comps_of p).
Proof.
  destruct (components_spec p) as (c & -> & Hwf & <- & _). by apply walk_spec.
Qed.

(** C22. The component iterator is a double-ended queue of the components of the path:
    for any path and any interleaving of calls of [next] and [next_back], however
    long, each call returns what taking the first or the last element of the list
    of components returns, and none panics or loops for ever. *)
Theorem path_components_deque p es :
  (c ← components p; reads es c) = Val (list_reads es (comps_of p)).
Proof.
  rewrite components_val. cbn [mbind outcome_bind].
  rewrite reads_spec by apply wf_new. by rewrite remaining_early.
Qed.

(** The reads one by one, as [yields] consumed from its head. *)
Lemma read_yields e c :
  wf c -> exists c', read e c = Val (head (yields e c), c') /\ wf c' /\ yields e c' = tail (yields e c).
Proof.
  intros Hwf. destruct (read_spec e c Hwf) as (c' & E & Hwf' & Hrem). exists c'. rewrite E.
  unfold yields. rewrite Hrem. destruct e; cbn; [done|].
  destruct (remaining c) as [|x l] using rev_ind; [done|].
  rewrite last_snoc, removelast_last, reverse_snoc. done.
Qed.

(** A component takes at least a byte. *)
Lemma segments_short p : length (omap named (segments p)) <= length p.
Proof.
  assert (forall p, exists s ss, segments p = s :: ss /\ length s + length (omap named ss) <= length p) as H.
  { clear p. induction p as [|b p (s & ss & E & IH)]; cbn; [by exists [], []|].
    destruct (is_sep_byte b); rewrite E.
    - eexists [], _. split; [done|]. cbn. destruct (named s) as [x|] eqn:N; cbn; [|lia].
      destruct s; [done|cbn in IH; lia].
    - eexists _, _. split; [done|]. cbn. lia. }
  destruct (H p) as (s & ss & -> & Hle). cbn. destruct (named s) eqn:N; cbn; [|lia].
  destruct s; [done|cbn in Hle; lia].
Qed.

Lemma body_short p : length (body p) <= length p.
Proof. apply segments_short. Qed.

Lemma comps_of_short p : length (comps_of p) <= length p.
Proof.
  unfold comps_of, start. rewrite length_app. destruct (rooted p) eqn:R; [|destruct (dotted p) eqn:D].
  - destruct (rooted_cons p R) as [q ->]. rewrite body_sep. pose proof (body_short q). cbn. lia.
  - destruct (dotted_cons p D) as (q & -> & -> & _). pose proof (body_short q). cbn. lia.
  - pose proof (body_short p). cbn. lia.
Qed.

Lemma remaining_short c : length (remaining c) <= length (c_path c).
Proof.
  unfold remaining. destruct (early c); [apply comps_of_short|apply body_short].
Qed.

Lemma yields_short e c : length (yields e c) < fuel_of c.
Proof.
  pose proof (remaining_short c). unfold fuel_of. destruct e; cbn; [|rewrite length_reverse]; lia.
Qed.

(** * [collect] *)
Lemma collect_loop_spec fuel c :
  wf c -> length (remaining c) < fuel -> collect_loop next fuel c = Val (remaining c).
Proof.
  revert c. induction fuel as [|fuel IH]; intros c Hwf Hf; [lia|]. cbn [collect_loop].
  destruct (next_spec c Hwf) as (c' & -> & Hwf' & Hrem & _). cbn [mbind outcome_bind].
  destruct (remaining c) as [|x l]; [done|]. cbn in *. rewrite IH by (try rewrite Hrem; auto; lia).
  by rewrite Hrem.
Qed.

Lemma collect_spec c : wf c -> collect c = Val (remaining c).
Proof. intros. apply collect_loop_spec; [done|]. apply (yields_short Front). Qed.

(** * [iter_after] *)
Lemma component_eqb_eq x y :
  (forall r p, x <> PrefixC r p) -> component_eqb x y = bool_decide (x = y).
Proof.
  intros Hx. destruct x, y; cbn; try (by rewrite bool_decide_false by naive_solver);
    try (by rewrite bool_decide_true); try (by destruct (Hx raw parsed)).
  apply bool_decide_ext. naive_solver.
Qed.

(** No component of a path is a prefix, on this platform. *)
Definition plain (x : Component) : Prop := forall r p, x <> PrefixC r p.

Lemma body_plain p : Forall plain (body p).
Proof.
  unfold body. induction (segments p) as [|s ss IH]; cbn; [constructor|].
  unfold named at 1. repeat case_bool_decide; cbn; [done|constructor; [by intros ? ?|done]..].
Qed.

Lemma remaining_plain c : Forall plain (remaining c).
Proof.
  unfold remaining. apply Forall_app. split; [|apply body_plain].
  destruct (early c); [|done]. unfold start. repeat case_match; by repeat constructor.
Qed.

Lemma yields_plain e c : Forall plain (yields e c).
Proof. destruct e; cbn; [apply remaining_plain|apply Forall_reverse, remaining_plain]. Qed.

Lemma iter_after_loop_spec e fuel c d :
  wf c -> wf d -> length (yields e c) < fuel ->
  (exists c', iter_after_loop (read e) fuel c d = Val (Some c') /\ wf c'
              /\ yields e c = yields e d ++ yields e c')
  \/ (iter_after_loop (read e) fuel c d = Val None /\ ~ yields e d `prefix_of` yields e c).
Proof.
  revert c d. induction fuel as [|fuel IH]; intros c d Hc Hd Hf; [lia|]. cbn [iter_after_loop].
  destruct (read_yields e c Hc) as (c' & -> & Hc' & Hyc).
  destruct (read_yields e d Hd) as (d' & -> & Hd' & Hyd). cbn [mbind outcome_bind].
  pose proof (yields_plain e c) as Hplain.
  destruct (yields e c) as [|x l] eqn:Ec, (yields e d) as [|y k] eqn:Ed; cbn in *.
  - left. exists c. by rewrite Ec.
  - right. split; [done|]. by intros [? [=]].
  - left. exists c. by rewrite Ec.
  - pose proof (Forall_inv Hplain) as Hx. rewrite component_eqb_eq by done. case_bool_decide as Hxy.
    + subst y. destruct (IH c' d' Hc' Hd') as [(c2 & -> & Hw & E)|[-> Hn]]; [rewrite Hyc; lia|left|right].
      * exists c2. split; [done|]. split; [done|]. rewrite Hyc, Hyd in E. by rewrite E.
      * split; [done|]. rewrite Hyc, Hyd in Hn. intros Hp. apply Hn. by apply prefix_cons_inv_2 in Hp.
    + right. split; [done|]. intros Hp. apply prefix_cons_inv_1 in Hp. congruence.
Qed.

Lemma iter_after_spec e c d :
  wf c -> wf d ->
  (exists c', iter_after (read e) c d = Val (Some c') /\ wf c'
              /\ yields e c = yields e d ++ yields e c')
  \/ (iter_after (read e) c d = Val None /\ ~ yields e d `prefix_of` yields e c).
Proof. intros. apply iter_after_loop_spec; auto. apply yields_short. Qed.

(** * [as_path] *)
Lemma trim_left_spec fuel c :
  c_prefix c = None -> c_front c = S_Body -> length (c_path c) <= fuel ->
  exists q, trim_left_loop fuel c = Val (set_path c q) /\ body q = body (c_path c) /\ start q = []
            /\ (c_path c = [] -> q = []).
Proof.
  revert c. induction fuel as [|fuel IH]; intros c Hp Hf Hl; cbn [trim_left_loop].
  - assert (c_path c = []) as E by (apply nil_length_inv; lia).
    rewrite bool_decide_true by done. exists []. rewrite E. destruct c; cbn in *. by subst.
  - case_bool_decide as E; [exists []; rewrite E; destruct c; cbn in *; by subst|].
    destruct (parse_next_spec c) as (size & comp & rest & -> & Es & _ & Hlt & Hbody & Hstart); [done..|].
    cbn [mbind outcome_bind]. destruct comp as [x|].
    + exists (c_path c). split; [by destruct c|]. split; [done|]. split; [by apply Hstart|done].
    + rewrite Es. cbn [mbind outcome_bind].
      destruct (IH (set_path c rest)) as (q & -> & Hq & Hs & _); [done..|cbn; lia|].
      exists q. rewrite Hbody. done.
Qed.

Lemma trim_right_spec fuel c :
  wf c -> c_back c = S_Body -> length (c_path c) <= fuel ->
  exists q, trim_right_loop fuel c = Val (set_path c q) /\ remaining (set_path c q) = remaining c
            /\ q `prefix_of` c_path c /\ (early c = false -> start (c_path c) = [] -> start q = []).
Proof.
  revert c. induction fuel as [|fuel IH]; intros c Hwf Hb Hl; cbn [trim_right_loop];
    rewrite len_before_body_lead by apply Hwf; cbn [mbind outcome_bind].
  - rewrite (proj2 (Nat.leb_le _ _)) by lia. exists (c_path c). by destruct c.
  - destruct (Nat.leb_spec (length (c_path c)) (lead c)) as [Hle|Hlt]; [exists (c_path c); by destruct c|].
    destruct (parse_next_back_spec c) as (size & pre & rest & k & s & -> & E & Hc); [apply Hwf|done..|].
    cbn [mbind outcome_bind]. destruct (named s) as [x|] eqn:N; [exists (c_path c); by destruct c|].
    rewrite E. cbn [mbind outcome_bind].
    destruct (back_cut_remaining c pre rest k s Hwf Hb Hc) as (Hwf' & Hrem & _).
    rewrite N in Hrem. cbn in Hrem. rewrite app_nil_r in Hrem.
    pose proof (bc_path _ _ _ _ _ _ Hc) as Hpath. rewrite app_assoc in Hpath.
    destruct (IH (set_path c (pre ++ rest)) Hwf' Hb) as (q & -> & Hq & Hpre & Hs).
    { pose proof (bc_progress _ _ _ _ _ _ Hc). cbn. rewrite Hpath, length_app in Hl.
      destruct (k ++ s); [done|]. cbn in Hl. lia. }
    exists q. split; [done|]. split; [by rewrite Hrem|]. split.
    + etrans; [apply Hpre|]. by eexists.
    + intros He Hst. apply Hs; [done|]. cbn. rewrite lead_late in Hc by done.
      destruct Hc as [_ Hl0 _ _ Hk]. apply nil_length_inv in Hl0 as ->. cbn [app] in *.
      destruct Hk as [[-> ->]| ->]; [done|]. destruct (decide (rest = [])) as [->|Hne]; [done|].
      cbn [app] in Hpath. by rewrite Hpath, start_app_sep in Hst.
Qed.

(** [as_path] is a path with the components that are left; when the front has not
    been read, it is a beginning of the path as it stands. *)
Lemma as_path_spec c :
  wf c -> exists q, as_path c = Val q /\ comps_of q = remaining c
                    /\ (c_front c = S_Prefix -> q `prefix_of` c_path c).
Proof.
  intros Hwf. unfold as_path.
  assert (exists q, (if bool_decide (c_front c = S_Body) then trim_left c else Val c) = Val (set_path c q)
            /\ wf (set_path c q) /\ remaining (set_path c q) = remaining c
            /\ (early c = false -> start q = []) /\ (early c = true -> q = c_path c))
    as (q & -> & Hq & Hrem & Hl & He).
  { case_bool_decide as Hf.
    - destruct (trim_left_spec (length (c_path c)) c) as (q & E & Hb & Hs & Hn); [apply Hwf|done..|].
      assert (early c = false) as He by (unfold early; by rewrite Hf).
      exists q. split; [apply E|]. split; [|split; [|by rewrite He]].
      + split; cbn; try apply Hwf; unfold early; cbn; rewrite ?Hf; try done.
        intros Hback. apply Hn. by apply Hwf.
      + unfold remaining. change (early (set_path c q)) with (early c). by rewrite He.
    - exists (c_path c). destruct (early c) eqn:He; [by destruct c|].
      assert (c_front c = S_Done) as Hd by (unfold early in He; by destruct (c_front c)).
      rewrite (wf_done c Hwf Hd). pose proof (wf_done c Hwf Hd). split; [destruct c; cbn in *; by subst|].
      destruct c; cbn in *. by subst. }
  cbn [mbind outcome_bind]. change (c_back (set_path c q)) with (c_back c).
  assert (forall q', early c = false -> start q' = [] -> comps_of q' = remaining (set_path c q')) as Hlate.
  { intros q' E Hs. unfold comps_of, remaining. rewrite Hs. by change (early (set_path c q')) with (early c); rewrite E. }
  case_bool_decide as Hb.
  - destruct (trim_right_spec (length q) (set_path c q) Hq Hb) as (q' & E & Hr & Hpre & Hs); [done|].
    unfold trim_right. cbn [c_path set_path]. rewrite E. exists q'. split; [done|].
    change (set_path (set_path c q) q') with (set_path c q') in Hr. split.
    + rewrite <- Hrem, <- Hr. destruct (early c) eqn:Ec; [by rewrite remaining_early|].
      apply Hlate; [done|]. by apply Hs, Hl.
    + intros Hf. rewrite He in Hpre by (unfold early; by rewrite Hf). done.
  - exists q. split; [done|]. split.
    + rewrite <- Hrem. destruct (early c) eqn:Ec; [by rewrite remaining_early|]. by apply Hlate, Hl.
    + intros Hf. by rewrite He by (unfold early; by rewrite Hf).
Qed.
