(* ===== verification/PathOps.v ===== *)
(** PathOps: the methods of [Path] and [PathBuf] in sgx_tstd/src/path.rs, and
    [absolute] of sys/path.rs.

    A [PathBuf] is its bytes, like a [Path]; growing one does not fail.  The
    methods of [PathBuf] that only forward to [OsString] (capacity and
    reservation) and those that ask the file system are left out.  A [Hasher] is
    the sequence of writes it received. *)
From Stdlib Require Import ZArith Lia Strings.Byte Strings.String.
From stdpp Require Import base numbers list option tactics.
From S2P Require Import Prelude IoError IoBase Path.
Local Open Scope nat_scope.

(** * Splitting a file name at its dots *)
Definition is_dot (b : byte) : bool := Byte.eqb b "."%byte.

(** [rsplitn(2, |b| *b == b'.')]: first what follows the last dot, then what precedes it. *)
Definition rsplitn_dot (file : OsStr) : option OsStr * option OsStr :=
  match rposition is_dot file with
  | Some i => (Some (drop (S i) file), Some (take i file))
  | None => (Some file, None)
  end.

Definition rsplit_file_at_dot (file : OsStr) : option OsStr * option OsStr :=
  if bool_decide (file = ["."%byte; "."%byte]) then (Some file, None)
  else
    let '(after, before) := rsplitn_dot file in
    if bool_decide (before = Some []) then (Some file, None) else (before, after).

Definition split_file_at_dot (file : OsStr) : outcome (OsStr * option OsStr) :=
  if bool_decide (file = ["."%byte; "."%byte]) then Val (file, None)
  else
    rest ← slice_from 1 file;
    match position is_dot rest with
    | None => Val (file, None)
    | Some i =>
        let i := i + 1 in
        before ← slice_to i file;
        after ← slice_from (i + 1) file;
        Val (before, Some after)
    end.

(** * Path *)

(** [cfg!(unix)]: the target family of x86_64-unknown-linux-sgx.json. *)
Definition cfg_unix : bool := true.

Definition path_prefix (p : OsStr) : outcome (option Prefix) :=
  c ← components p; Val (c_prefix c).
Definition path_has_root (p : OsStr) : outcome bool :=
  c ← components p; Val (has_root c).
Definition is_absolute (p : OsStr) : outcome bool :=
  r ← path_has_root p;
  if (r : bool) then
    if cfg_unix then Val true else (x ← path_prefix p; Val (bool_decide (x <> None)))
  else Val false.
Definition is_relative (p : OsStr) : outcome bool := b ← is_absolute p; Val (negb b).

Definition parent (p : OsStr) : outcome (option OsStr) :=
  c ← components p;
  '(comp, c) ← next_back c;
  match comp with
  | Some (Normal _) | Some CurDir | Some ParentDir => q ← as_path c; Val (Some q)
  | _ => Val None
  end.

(** [file_name] and where it ends in the path. *)
Definition file_name_at (p : OsStr) : outcome (option (OsStr * nat)) :=
  c ← components p;
  '(r, _) ← next_back_at c;
  Val (match r with Some (Normal s, fin) => Some (s, fin) | _ => None end).
Definition file_name (p : OsStr) : outcome (option OsStr) :=
  r ← file_name_at p; Val (option_map fst r).

(** [Err(StripPrefixError)] is [None]. *)
Definition strip_prefix (p base : OsStr) : outcome (option OsStr) :=
  c ← components p; b ← components base;
  r ← iter_after next c b;
  match r with
  | Some c => q ← as_path c; Val (Some q)
  | None => Val None
  end.
Definition starts_with (p base : OsStr) : outcome bool :=
  c ← components p; b ← components base;
  r ← iter_after next c b; Val (match r with Some _ => true | None => false end).
Definition ends_with (p child : OsStr) : outcome bool :=
  c ← components p; b ← components child;
  r ← iter_after next_back c b; Val (match r with Some _ => true | None => false end).

(** [before.or(after)] and [before.and(after)] of the file name *)
Definition stem_of (file : OsStr) : option OsStr :=
  let '(before, after) := rsplit_file_at_dot file in
  match before with Some b => Some b | None => after end.
Definition extension_of (file : OsStr) : option OsStr :=
  let '(before, after) := rsplit_file_at_dot file in
  match before with Some _ => after | None => None end.
Definition file_stem (p : OsStr) : outcome (option OsStr) :=
  n ← file_name p; Val (n ≫= stem_of).
Definition extension (p : OsStr) : outcome (option OsStr) :=
  n ← file_name p; Val (n ≫= extension_of).
Definition file_prefix (p : OsStr) : outcome (option OsStr) :=
  n ← file_name p;
  match n with
  | Some file => '(before, _) ← split_file_at_dot file; Val (Some before)
  | None => Val None
  end.

(** * PathBuf *)

(** [truncate(0)] when the pushed path replaces the buffer; the bytes before the
    appended path otherwise.  [verbatim] is the branch that rebuilds the path. *)
Definition verbatim_step (buf : list Component) (c : Component) : list Component :=
  match c with
  | RootDir => take 1 buf ++ [c]
  | CurDir => buf
  | ParentDir =>
      match list.last buf with Some (Normal _) => removelast buf | _ => buf end
  | _ => buf ++ [c]
  end.
Definition verbatim_write (s : OsStr * bool) (c : Component) : OsStr * bool :=
  let '(res, need_sep) := s in
  let res := if need_sep && negb (component_eqb c RootDir) then res ++ MAIN_SEP_STR else res in
  (res ++ as_os_str c,
   match c with
   | RootDir => false
   | PrefixC _ parsed => negb (is_drive parsed) && (0 <? len parsed)
   | _ => true
   end).

Definition push (self path : OsStr) : outcome OsStr :=
  let need_sep := match list.last self with Some c => negb (is_sep_byte c) | None => false end in
  comps ← components self;
  drive ← (if (0 <? prefix_len comps) && (prefix_len comps =? length (c_path comps))
           then match c_prefix comps with Some p => Val (is_drive p) | None => Panics end
           else Val false);
  let need_sep := if (drive : bool) then false else need_sep in
  absolute ← is_absolute path;
  prefix ← path_prefix path;
  if (absolute : bool) || bool_decide (prefix <> None) then Val ([] ++ path)
  else if prefix_verbatim comps && bool_decide (path <> []) then
    buf ← collect comps;
    parts ← (c ← components path; collect c);
    Val (fold_left verbatim_write (fold_left verbatim_step parts buf) ([], false)).1
  else
    root ← path_has_root path;
    if (root : bool) then Val (take (prefix_remaining comps) self ++ path)
    else if need_sep then Val (self ++ MAIN_SEP_STR ++ path)
    else Val (self ++ path).

(** The new buffer, and the value returned. *)
Definition pop (self : OsStr) : outcome (OsStr * bool) :=
  r ← parent self;
  Val (match r with Some q => (take (length q) self, true) | None => (self, false) end).

Definition set_file_name (self file : OsStr) : outcome OsStr :=
  n ← file_name self;
  self ← match n with
         | Some _ => '(self, popped) ← pop self; _ ← assert popped; Val self
         | None => Val self
         end;
  push self file.

(** The buffer is cut where the slice of the stem ends. *)
Definition set_extension (self ext : OsStr) : outcome (OsStr * bool) :=
  n ← file_name_at self;
  match n with
  | None => Val (self, false)
  | Some (file, fin) =>
      match stem_of file with
      | None => Val (self, false)
      | Some stem =>
          let v := take (fin - length file + length stem) self in
          Val (if bool_decide (ext <> []) then v ++ "."%byte :: ext else v, true)
      end
  end.

Definition join (p path : OsStr) : outcome OsStr := push p path.
Definition with_file_name (p file : OsStr) : outcome OsStr := set_file_name p file.
Definition with_extension (p ext : OsStr) : outcome OsStr :=
  '(q, _) ← set_extension p ext; Val q.

(** [Extend] and [FromIterator] *)
Fixpoint extend (self : OsStr) (ps : list OsStr) : outcome OsStr :=
  match ps with
  | [] => Val self
  | p :: ps => self ← push self p; extend self ps
  end.
Definition from_iter (ps : list OsStr) : outcome OsStr := extend [] ps.

(** * Ancestors *)

(** The paths that the iterator yields, up to its end. *)
Fixpoint ancestors_loop (fuel : nat) (nxt : option OsStr) : outcome (list OsStr) :=
  match nxt with
  | None => Val []
  | Some p =>
      match fuel with
      | 0 => NoFuel
      | S fuel => q ← parent p; l ← ancestors_loop fuel q; Val (p :: l)
      end
  end.
Definition ancestors (p : OsStr) : outcome (list OsStr) :=
  ancestors_loop (length p + 2) (Some p).

(** * Comparison and hashing *)
Definition path_eq (p q : OsStr) : outcome bool :=
  l ← components p; r ← components q; components_eq l r.
Definition path_cmp (p q : OsStr) : outcome comparison :=
  l ← components p; r ← components q; compare_components l r.

Inductive hash_write :=
| HPrefix (p : Prefix)
| HBytes (bs : list byte)
| HUsize (n : nat).

Record hash_state := { component_start : nat; bytes_hashed : nat; trace : list hash_write }.

(** One byte of the loop. *)
Definition hash_byte (verbatim : bool) (bytes : list byte) (i : nat) (s : hash_state) : outcome hash_state :=
  match bytes !! i with
  | None => Panics
  | Some b =>
      if if verbatim then is_verbatim_sep b else is_sep_byte b then
        s ← (if component_start s <? i then
               cut ← slice_to i bytes;
               to_hash ← slice_from (component_start s) cut;
               Val {| component_start := component_start s;
                      bytes_hashed := bytes_hashed s + length to_hash;
                      trace := trace s ++ [HBytes to_hash] |}
             else Val s);
        let st := i + 1 in
        tail ← slice_from st bytes;
        let skip :=
          if verbatim then 0
          else match tail with
               | [d] => if is_dot d then 1 else 0
               | d :: sep :: _ => if is_dot d && is_sep_byte sep then 1 else 0
               | [] => 0
               end in
        Val {| component_start := st + skip; bytes_hashed := bytes_hashed s; trace := trace s |}
      else Val s
  end.

Fixpoint hash_loop (verbatim : bool) (bytes : OsStr) (n i : nat) (s : hash_state) : outcome hash_state :=
  match n with
  | 0 => Val s
  | S n => s ← hash_byte verbatim bytes i s; hash_loop verbatim bytes n (S i) s
  end.

(** What follows the last separator. *)
Definition hash_tail (bytes : OsStr) (s : hash_state) : outcome hash_state :=
  if component_start s <? length bytes then
    to_hash ← slice_from (component_start s) bytes;
    Val {| component_start := component_start s;
           bytes_hashed := bytes_hashed s + length to_hash;
           trace := trace s ++ [HBytes to_hash] |}
  else Val s.

Definition path_hash (p : OsStr) : outcome (list hash_write) :=
  let prefix := parse_prefix p in
  let h := match prefix with Some x => [HPrefix x] | None => [] end in
  let prefix_len := match prefix with Some x => len x | None => 0 end in
  let verbatim := match prefix with Some x => is_verbatim x | None => false end in
  bytes ← slice_from prefix_len p;
  s ← hash_loop verbatim bytes (length bytes) 0 {| component_start := 0; bytes_hashed := 0; trace := h |};
  s ← hash_tail bytes s;
  Val (trace s ++ [HUsize (bytes_hashed s)]).

(** * Absolute paths *)
Definition bytes_start_with (pat p : OsStr) : bool := bool_decide (take (length pat) p = pat).
Definition bytes_end_with (pat p : OsStr) : bool := bool_decide (drop (length p - length pat) p = pat).

(** [sys::path::absolute]; [current_dir] is [env::current_dir()]. *)
Definition sys_absolute (current_dir : outcome OsStr) (path : OsStr) : outcome OsStr :=
  comps ← components path;
  absolute ← is_absolute path;
  '(normalized, comps) ←
    (if (absolute : bool) then
       if bytes_start_with [MAIN_SEP; MAIN_SEP] path
          && negb (bytes_start_with [MAIN_SEP; MAIN_SEP; MAIN_SEP] path)
       then '(_, comps) ← next comps; Val ([MAIN_SEP; MAIN_SEP], comps)
       else Val ([], comps)
     else cwd ← current_dir; Val (cwd, comps));
  parts ← collect comps;
  normalized ← extend normalized (as_os_str <$> parts);
  if bytes_end_with [MAIN_SEP] path then push normalized [] else Val normalized.

Definition empty_path_error : io_error :=
  SimpleMessage InvalidInput "cannot make an empty path absolute".

Definition path_absolute (current_dir : outcome OsStr) (path : OsStr) : outcome OsStr :=
  if bool_decide (path = []) then Bad empty_path_error else sys_absolute current_dir path.
