(* ===== verification/PathCompare.v ===== *)
(** PathCompare: equality, order and hash of paths.

    The code compares paths by shortcuts on their bytes; here each is shown to be
    the comparison of the lists of components, so that equality, order and hash
    agree with each other. *)
From Stdlib Require Import ZArith Lia Strings.Byte.
From stdpp Require Import base numbers list option tactics.
From S2P Require Import Prelude IoBase Path PathSpecs PathOps.
Local Open Scope nat_scope.

(** * The order on components *)
Fixpoint comps_cmp (k l : list Component) : comparison :=
  match k, l with
  | [], [] => Eq
  | [], _ => Lt
  | _, [] => Gt
  | a :: k, b :: l => match component_cmp a b with Eq => comps_cmp k l | o => o end
  end.

(** What an order into [comparison] has to satisfy. *)
Record total_order {A} (P : A -> Prop) (cmp : A -> A -> comparison) : Prop := {
  to_eq : forall a b, P a -> P b -> cmp a b = Eq <-> a = b;
  to_opp : forall a b, P a -> P b -> cmp b a = CompOpp (cmp a b);
  to_trans : forall a b c, P a -> P b -> P c -> cmp a b = Lt -> cmp b c = Lt -> cmp a c = Lt
}.

Section Lexicographic.
Context {A : Type} (P : A -> Prop) (cmp : A -> A -> comparison) (lex : list A -> list A -> comparison).
Hypothesis lex_eqns : forall k l,
  lex k l = match k, l with
            | [], [] => Eq
            | [], _ => Lt
            | _, [] => Gt
            | a :: k, b :: l => match cmp a b with Eq => lex k l | o => o end
            end.
Hypothesis Hcmp : total_order P cmp.

Lemma lex_order : total_order (Forall P) lex.
Proof.
  destruct Hcmp as [Heq Hopp Htr]. split.
  - intros k. induction k as [|a k IH]; intros [|b l] Hk Hl; rewrite lex_eqns; try done.
    inversion Hk; inversion Hl; subst. specialize (Heq a b).
    destruct (cmp a b); [rewrite IH by done|..]; naive_solver.
  - intros k. induction k as [|a k IH]; intros [|b l] Hk Hl; try (by rewrite !lex_eqns).
    rewrite (lex_eqns (b :: l) (a :: k)), (lex_eqns (a :: k) (b :: l)). inversion Hk; inversion Hl; subst. rewrite (Hopp a b) by done. destruct (cmp a b); cbn; auto.
  - intros k. induction k as [|a k IH]; intros [|b l] [|c m] Hk Hl Hm; try (by rewrite !lex_eqns).
    rewrite (lex_eqns (a :: k) (b :: l)), (lex_eqns (b :: l) (c :: m)), (lex_eqns (a :: k) (c :: m)).
    inversion Hk; inversion Hl; inversion Hm; subst.
    destruct (cmp a b) eqn:E1; try done; destruct (cmp b c) eqn:E2; try done; intros.
    + apply Heq in E1, E2; try done. subst. rewrite (proj2 (Heq c c ltac:(done) ltac:(done)) eq_refl). by apply (IH l).
    + apply Heq in E1; try done. subst. by rewrite E2.
    + apply Heq in E2; try done. subst. by rewrite E1.
    + by rewrite (Htr a b c).
Qed.
End Lexicographic.

Lemma N_compare_order : total_order (fun _ : N => True) N.compare.
Proof.
  split; intros.
  - apply N.compare_eq_iff.
  - apply N.compare_antisym.
  - rewrite N.compare_lt_iff in *. by etrans.
Qed.

Lemma byte_cmp_order : total_order (fun _ => True) byte_cmp.
Proof.
  destruct N_compare_order as [Heq Hopp Htr]. unfold byte_cmp. split; intros.
  - rewrite Heq by done. split; [|by intros ->]. intros E.
    apply byte_val_inj. unfold byte_val. by rewrite E.
  - by apply Hopp.
  - by eapply (Htr _ (Byte.to_N b)).
Qed.

Lemma bytes_cmp_order : total_order (fun _ => True) bytes_cmp.
Proof.
  assert (total_order (Forall (fun _ : byte => True)) bytes_cmp) as [Heq Hopp Htr].
  { apply (lex_order (fun _ => True) byte_cmp); [by intros [|] [|]|apply byte_cmp_order]. }
  assert (forall l : list byte, Forall (fun _ => True) l) as HF by (intros; by apply Forall_true).
  split; intros; eauto.
Qed.

Lemma component_cmp_order : total_order plain component_cmp.
Proof.
  destruct bytes_cmp_order as [Heq Hopp Htr]. split.
  - intros a b Ha Hb. destruct a, b; cbn; try naive_solver; try (by split).
    all: try (by destruct (Ha raw parsed)); try (by destruct (Hb raw parsed)).
  - intros a b Ha Hb. destruct a, b; cbn; try done.
    all: try (by destruct (Ha raw parsed)); try (by destruct (Hb raw parsed)).
    by apply Hopp.
  - intros a b c Ha Hb Hc. destruct a, b, c; cbn; try done.
    all: try (by destruct (Ha raw parsed)); try (by destruct (Hb raw parsed)); try (by destruct (Hc raw parsed)).
    by apply Htr.
Qed.

Lemma comps_cmp_order : total_order (Forall plain) comps_cmp.
Proof. apply (lex_order plain component_cmp); [by intros [|] [|]|apply component_cmp_order]. Qed.

Lemma comps_cmp_refl l : Forall plain l -> comps_cmp l l = Eq.
Proof. intros. by apply (to_eq _ _ comps_cmp_order). Qed.

Lemma comps_cmp_app x k l : Forall plain x -> comps_cmp (x ++ k) (x ++ l) = comps_cmp k l.
Proof.
  induction 1 as [|a x Ha Hx IH]; [done|]. cbn.
  by rewrite (proj2 (to_eq _ _ component_cmp_order a a Ha Ha) eq_refl).
Qed.

(** * [Iterator::cmp] and [Iterator::eq] *)
Lemma cmp_loop_spec fuel l r :
  wf l -> wf r -> length (remaining l) < fuel ->
  cmp_loop next fuel l r = Val (comps_cmp (remaining l) (remaining r)).
Proof.
  revert l r. induction fuel as [|fuel IH]; intros l r Hl Hr Hf; [lia|]. cbn [cmp_loop].
  destruct (next_spec l Hl) as (l' & -> & Hl' & El & _).
  destruct (next_spec r Hr) as (r' & -> & Hr' & Er & _). cbn [mbind outcome_bind].
  destruct (remaining l) as [|x k], (remaining r) as [|y m]; cbn in *; try done.
  destruct (component_cmp x y); [|done..]. by rewrite IH, El, Er by (auto; rewrite El; lia).
Qed.

Lemma eq_loop_spec e fuel l r :
  wf l -> wf r -> length (yields e l) < fuel ->
  eq_loop (read e) fuel l r = Val (bool_decide (yields e l = yields e r)).
Proof.
  revert l r. induction fuel as [|fuel IH]; intros l r Hl Hr Hf; [lia|]. cbn [eq_loop].
  destruct (read_yields e l Hl) as (l' & -> & Hl' & El).
  destruct (read_yields e r Hr) as (r' & -> & Hr' & Er). cbn [mbind outcome_bind].
  pose proof (yields_plain e l) as Hplain.
  destruct (yields e l) as [|x k], (yields e r) as [|y m]; cbn in *; try done.
  pose proof (Forall_inv Hplain) as Hx. rewrite component_eqb_eq by done. case_bool_decide as E.
  - rewrite IH, El, Er by (auto; rewrite El; lia). f_equal. apply bool_decide_ext. subst y. split; congruence.
  - rewrite bool_decide_false by naive_solver. done.
Qed.

(** * [==] on component iterators *)
Lemma components_eq_spec l r :
  wf l -> wf r -> components_eq l r = Val (bool_decide (remaining l = remaining r)).
Proof.
  intros Hl Hr. unfold components_eq. destruct (_ && _) eqn:E.
  - rewrite !andb_true_iff, !bool_decide_eq_true in E. destruct E as [[[[[_ Hf] _] _] _] Hp].
    unfold remaining, early. rewrite Hf, Hp. by rewrite bool_decide_true.
  - change next_back with (read Back). rewrite eq_loop_spec by (auto; apply yields_short).
    f_equal. apply bool_decide_ext. cbn. split; [apply (inj reverse)|by intros ->].
Qed.

(** * [cmp] on component iterators *)
Lemma first_mismatch_none k l :
  first_mismatch k l = None -> length k = length l -> k = l.
Proof.
  revert l. induction k as [|a k IH]; intros [|b l]; cbn; try done.
  destruct (Byte.eqb a b) eqn:E; [|done]. apply Byte.byte_dec_bl in E as ->.
  destruct (first_mismatch k l) eqn:F; [done|]. intros _ [= Hlen]. by rewrite (IH l).
Qed.

Lemma first_mismatch_take k l i :
  i = match first_mismatch k l with Some i => i | None => length k `min` length l end ->
  i <= length k /\ take i k = take i l.
Proof.
  intros ->. revert l. induction k as [|a k IH]; intros [|b l]; cbn; try (split; [lia|done]).
  destruct (Byte.eqb a b) eqn:E; [|split; [lia|done]]. apply Byte.byte_dec_bl in E as ->.
  destruct (IH l) as [Hle Ht]. destruct (first_mismatch k l); cbn; (split; [lia|by rewrite Ht]).
Qed.

(** What two paths share up to a separator does not matter. *)
Lemma comps_of_shared a b : comps_of (a ++ MAIN_SEP :: b) = comps_of (a ++ [MAIN_SEP]) ++ body b.
Proof.
  destruct (decide (a = [])) as [->|Ha].
  - unfold comps_of. cbn [app]. by rewrite body_sep.
  - by rewrite !comps_of_app_sep, app_nil_r by done.
Qed.

Lemma wf_path_back c : wf c -> c_path c <> [] -> c_back c = S_Body.
Proof. intros Hwf Hne. destruct (decide (c_back c = S_Body)) as [|Hb]; [done|]. by destruct Hne; apply Hwf. Qed.

Lemma wf_skip c q : wf c -> c_path c <> [] -> wf (set_front (set_path c q) S_Body).
Proof.
  intros Hwf Hne. pose proof (wf_path_back c Hwf Hne) as Hb.
  split; cbn; try done. apply Hwf.
Qed.

Lemma skip_shared_spec l r i :
  wf l -> wf r -> c_front l = c_front r -> i <= length (c_path l) ->
  take i (c_path l) = take i (c_path r) ->
  exists l' r', skip_shared l r i = Val (l', r') /\ wf l' /\ wf r'
    /\ comps_cmp (remaining l') (remaining r') = comps_cmp (remaining l) (remaining r).
Proof.
  intros Hl Hr Hf Hi Ht. unfold skip_shared, slice_to.
  rewrite (proj2 (Nat.leb_le _ _)) by done. cbn [mbind outcome_bind].
  rewrite sep_byte_plain by apply Hl.
  destruct (rposition _ _) as [j|] eqn:R; [|eauto 10].
  apply rposition_some in R as (a & b & x & E & <- & Hb & _). apply is_sep_true in Hb as ->.
  assert (exists u, c_path l = (a ++ [MAIN_SEP]) ++ u) as [u Eu].
  { exists (x ++ drop i (c_path l)). rewrite <- (take_drop i (c_path l)) at 1. by rewrite E, <- !app_assoc. }
  assert (exists v, c_path r = (a ++ [MAIN_SEP]) ++ v) as [v Ev].
  { exists (x ++ drop i (c_path r)). rewrite <- (take_drop i (c_path r)) at 1. by rewrite <- Ht, E, <- !app_assoc. }
  replace (length a + 1) with (length (a ++ [MAIN_SEP])) by (rewrite length_app; cbn; lia).
  rewrite Eu, Ev, !slice_from_app. cbn [mbind outcome_bind]. eexists _, _. split; [done|].
  split; [apply wf_skip; [done|by rewrite Eu; destruct a]|].
  split; [apply wf_skip; [done|by rewrite Ev; destruct a]|].
  assert (early l = early r) as He by (unfold early; by rewrite Hf).
  rewrite <- !app_assoc in Eu, Ev. cbn [app] in Eu, Ev.
  assert (exists X, Forall plain X /\ remaining l = X ++ body u /\ remaining r = X ++ body v)
    as (X & HX & -> & ->).
  { unfold remaining. rewrite <- He, Eu, Ev. fold (comps_of (a ++ MAIN_SEP :: u)). destruct (early l).
    - exists (comps_of (a ++ [MAIN_SEP])). split; [apply (remaining_plain (set_front (set_path l (a ++ [MAIN_SEP])) S_Prefix))|].
      fold (comps_of (a ++ MAIN_SEP :: v)). by rewrite <- !comps_of_shared.
    - exists (body a). rewrite !body_app_sep. split; [apply body_plain|done]. }
  rewrite comps_cmp_app by done. done.
Qed.

Lemma compare_components_spec l r :
  wf l -> wf r -> compare_components l r = Val (comps_cmp (remaining l) (remaining r)).
Proof.
  intros Hl Hr.
  assert (forall l r, wf l -> wf r -> cmp_loop next (fuel_of l) l r = Val (comps_cmp (remaining l) (remaining r)))
    as Hslow by (intros; apply cmp_loop_spec; auto; apply (yields_short Front)).
  unfold compare_components. destruct (_ && _) eqn:E; [|by apply Hslow].
  rewrite !andb_true_iff, !bool_decide_eq_true in E. destruct E as [_ Hf].
  pose proof (first_mismatch_take (c_path l) (c_path r) _ eq_refl) as [Hi Ht].
  destruct (first_mismatch _ _) as [i|] eqn:M; [|case_bool_decide as Hlen].
  2:{ apply first_mismatch_none in M; [|done].
      unfold remaining, early. rewrite Hf, M. fold (early r) (remaining r).
      by rewrite comps_cmp_refl by apply remaining_plain. }
  all: destruct (skip_shared_spec l r _ Hl Hr Hf Hi Ht) as (l' & r' & -> & Hl' & Hr' & <-);
    cbn [mbind outcome_bind]; by apply Hslow.
Qed.

(** The order of component iterators is the lexicographic order of the components
    that they have left, after any reads from either end: the shortcut in
    [compare_components], which skips what the two paths have in common up to a
    separator and calls paths with the same bytes equal, changes no result. *)
Theorem compare_components_lexicographic p q es fs :
  (l ← components p; l ← walk es l; r ← components q; r ← walk fs r; compare_components l r)
  = Val (comps_cmp (list_walk es (comps_of p)) (list_walk fs (comps_of q))).
Proof.
  destruct (components_spec p) as (l & -> & Hl & <- & _). cbn [mbind outcome_bind].
  destruct (walk_spec es l Hl) as (l' & -> & Hl' & <-). cbn [mbind outcome_bind].
  destruct (components_spec q) as (r & -> & Hr & <- & _). cbn [mbind outcome_bind].
  destruct (walk_spec fs r Hr) as (r' & -> & Hr' & <-). cbn [mbind outcome_bind].
  by apply compare_components_spec.
Qed.

Lemma path_cmp_spec p q : path_cmp p q = Val (comps_cmp (comps_of p) (comps_of q)).
Proof.
  unfold path_cmp. destruct (components_spec p) as (l & -> & Hl & <- & _).
  destruct (components_spec q) as (r & -> & Hr & <- & _). by apply compare_components_spec.
Qed.

Lemma path_eq_spec p q : path_eq p q = Val (bool_decide (comps_of p = comps_of q)).
Proof.
  unfold path_eq. destruct (components_spec p) as (l & -> & Hl & <- & _).
  destruct (components_spec q) as (r & -> & Hr & <- & _). by apply components_eq_spec.
Qed.

Lemma comps_of_plain p : Forall plain (comps_of p).
Proof. destruct (components_spec p) as (c & _ & _ & <- & _). apply remaining_plain. Qed.

(** * Hashing *)

(** The bytes of a component, as they are hashed: a root is not. *)
Definition hashed (x : Component) : option OsStr :=
  match x with RootDir => None | x => Some (as_os_str x) end.

Definition writes_of (l : list OsStr) (h : list hash_write) : list hash_write := h ++ (HBytes <$> l).

(** The pieces that are written when [a] has been read since the last separator. *)
Definition non_empty (s : OsStr) : option OsStr := if bool_decide (s = []) then None else Some s.
Definition visible (s : OsStr) : option OsStr :=
  if bool_decide (s = [] \/ s = ["."%byte]) then None else Some s.
Definition pieces (a rest : OsStr) : list OsStr :=
  match segments rest with
  | [] => []
  | s :: ss => option_list (non_empty (a ++ s)) ++ omap visible ss
  end.

Lemma segments_cons p : exists s ss, segments p = s :: ss.
Proof.
  induction p as [|b p (s & ss & E)]; cbn; [eauto|]. rewrite E. destruct (is_sep_byte b); eauto.
Qed.

Lemma dotted_segment p ss : segments p = ["."%byte] :: ss -> dotted p = false -> False.
Proof.
  intros E D. destruct p as [|x r]; [done|]. cbn in E. destruct (is_sep_byte x) eqn:Hx; [done|].
  destruct (segments_cons r) as (t & tt & Er). rewrite Er in E. injection E as -> -> ->.
  destruct r as [|y r]; [done|]. cbn in Er, D. destruct (is_sep_byte y) eqn:Hy; [done|].
  destruct (segments_cons r) as (t & ? & Er'). by rewrite Er' in Er.
Qed.

Lemma pieces_byte a b rest : is_sep_byte b = false -> pieces a (b :: rest) = pieces (a ++ [b]) rest.
Proof.
  intros Hb. unfold pieces. cbn. rewrite Hb. destruct (segments_cons rest) as (s & ss & ->).
  by rewrite <- app_assoc.
Qed.

Lemma pieces_sep a rest :
  pieces a (MAIN_SEP :: rest) =
  option_list (non_empty a) ++ if dotted rest then pieces [] (tail rest) else pieces [] rest.
Proof.
  unfold pieces. cbn [segments is_sep_byte Byte.eqb]. change (is_sep_byte MAIN_SEP) with true.
  cbn match. rewrite app_nil_r. f_equal. destruct (dotted rest) eqn:D.
  - destruct rest as [|x [|y r]]; [done|..]; cbn in D.
    + apply Byte.byte_dec_bl in D as ->. done.
    + apply andb_prop in D as [->%Byte.byte_dec_bl Hy]. pose proof Hy as ->%is_sep_true. done.
  - destruct (segments_cons rest) as (s & ss & E). rewrite E. cbn.
    assert (s <> ["."%byte]) as Hs by (intros ->; by eapply dotted_segment).
    unfold visible at 1, non_empty. by repeat case_bool_decide; naive_solver.
Qed.

Definition total (l : list OsStr) : nat := sum_list (length <$> l).

Lemma total_option s l : total (option_list (non_empty s) ++ l) = length s + total l.
Proof. unfold total, non_empty. case_bool_decide; subst; done. Qed.

Lemma option_writes s l :
  HBytes <$> (option_list (non_empty s) ++ l) = (if bool_decide (s = []) then [] else [HBytes s]) ++ (HBytes <$> l).
Proof. unfold non_empty. by case_bool_decide. Qed.

(** The piece read so far, written if there is one. *)
Definition flushed (a : OsStr) (s : hash_state) : hash_state :=
  {| component_start := component_start s; bytes_hashed := bytes_hashed s + length a;
     trace := trace s ++ if bool_decide (a = []) then [] else [HBytes a] |}.

Lemma hash_tail_spec before a s :
  component_start s = length before -> hash_tail (before ++ a) s = Val (flushed a s).
Proof.
  destruct s as [st n h]. intros E. cbn in E. subst st. unfold hash_tail, flushed. cbn [component_start].
  rewrite length_app. destruct a as [|x a]; cbn [length].
  - rewrite !Nat.add_0_r, Nat.ltb_irrefl. cbn. by rewrite app_nil_r.
  - rewrite (proj2 (Nat.ltb_lt _ _)) by lia. by rewrite slice_from_app.
Qed.

Lemma slice_from_sep a r : slice_from (length a + 1) (a ++ MAIN_SEP :: r) = Val r.
Proof.
  pose proof (slice_from_app (a ++ [MAIN_SEP]) r) as E. by rewrite length_app, <- app_assoc in E.
Qed.

(** A separator. *)
Lemma hash_byte_sep before a rest s :
  component_start s = length before ->
  hash_byte false ((before ++ a) ++ MAIN_SEP :: rest) (length (before ++ a)) s =
  Val {| component_start := length (before ++ a) + 1 + (if dotted rest then 1 else 0);
         bytes_hashed := bytes_hashed (flushed a s); trace := trace (flushed a s) |}.
Proof.
  intros E. pose proof (hash_tail_spec before a s E) as Ht. unfold hash_tail in Ht. unfold hash_byte.
  rewrite list_lookup_middle by done. change (is_sep_byte MAIN_SEP) with true. cbn match.
  rewrite slice_to_app. cbn [mbind outcome_bind] in Ht |- *. rewrite Ht.
  rewrite slice_from_sep. cbn [mbind outcome_bind].
  do 2 f_equal. destruct rest as [|x [|y r]]; done.
Qed.

Lemma hash_byte_other before b rest s :
  is_sep_byte b = false -> hash_byte false (before ++ b :: rest) (length before) s = Val s.
Proof. intros Hb. unfold hash_byte. rewrite list_lookup_middle by done. by rewrite Hb. Qed.

Definition hash_run (bytes : list byte) (n i : nat) (s : hash_state) : outcome hash_state :=
  s ← hash_loop false bytes n i s; hash_tail bytes s.

Definition hash_post (s : hash_state) (ps : list OsStr) (o : outcome hash_state) : Prop :=
  exists s', o = Val s' /\ trace s' = trace s ++ (HBytes <$> ps)
             /\ bytes_hashed s' = bytes_hashed s + total ps.

Lemma hash_post_flushed a s st ps o :
  hash_post {| component_start := st; bytes_hashed := bytes_hashed (flushed a s); trace := trace (flushed a s) |} ps o ->
  hash_post s (option_list (non_empty a) ++ ps) o.
Proof.
  intros (s' & -> & Ht & Hb). exists s'. rewrite Ht, Hb, option_writes, total_option. cbn.
  rewrite app_assoc. split; [done|]. split; [done|]. lia.
Qed.

Lemma hash_loop_spec n rest before a s bytes i :
  length rest <= n -> component_start s = length before ->
  bytes = (before ++ a) ++ rest -> i = length (before ++ a) ->
  hash_post s (pieces a rest) (hash_run bytes (length rest) i s).
Proof.
  revert rest before a s bytes i. induction n as [|n IH]; intros rest before a s bytes i Hn E -> ->.
  all: destruct rest as [|b rest]; [|cbn in Hn; try lia].
  1,2: rewrite app_nil_r; unfold hash_run; cbn [length hash_loop mbind outcome_bind];
    rewrite hash_tail_spec by done;
    change (pieces a []) with (option_list (non_empty (a ++ [])) ++ []); rewrite (app_nil_r a);
    apply (hash_post_flushed a s (component_start s) []);
    eexists; (split; [done|]); cbn; by rewrite app_nil_r, Nat.add_0_r.
  unfold hash_run. cbn [length hash_loop]. destruct (is_sep_byte b) eqn:Hb.
  - pose proof Hb as ->%is_sep_true. rewrite hash_byte_sep by done. cbn [mbind outcome_bind].
    rewrite pieces_sep.
    apply (hash_post_flushed a s (length (before ++ a) + 1 + if dotted rest then 1 else 0)).
    set (q := (before ++ a) ++ [MAIN_SEP]).
    assert (length q = S (length (before ++ a))) as Hq by (unfold q; rewrite length_app; cbn; lia).
    replace ((before ++ a) ++ MAIN_SEP :: rest) with (q ++ rest) by (unfold q; by rewrite <- app_assoc).
    rewrite <- Hq. destruct (dotted rest) eqn:D.
    + destruct (dotted_cons rest D) as (r & -> & _ & _). cbn [length hash_loop tail].
      rewrite hash_byte_other by done. cbn [mbind outcome_bind].
      apply (IH r (q ++ ["."%byte]) []); cbn [component_start].
      * cbn in Hn. lia.
      * rewrite (length_app q), Hq. cbn. lia.
      * by rewrite app_nil_r, <- app_assoc.
      * rewrite app_nil_r, (length_app q). cbn. lia.
    + apply (IH rest q []); cbn [component_start]; rewrite ?app_nil_r; try done; lia.
  - rewrite pieces_byte, hash_byte_other by done. cbn [mbind outcome_bind].
    apply (IH rest before (a ++ [b]) s); try done; [lia|by rewrite <- !app_assoc|].
    rewrite app_assoc, (length_app _ [_]). cbn. lia.
Qed.

(** Reading a path through [segments] and through [pieces]. *)
Lemma pieces_hashed p : pieces [] p = omap hashed (comps_of p).
Proof.
  assert (forall ss : list OsStr, omap visible ss = omap hashed (omap named ss)) as Hss.
  { induction ss as [|s ss IH]; [done|]. cbn. rewrite IH. unfold visible, named.
    by repeat case_bool_decide; subst. }
  unfold comps_of, start, body, pieces. rewrite omap_app. destruct (rooted p) eqn:R.
  - destruct (rooted_cons p R) as [q ->]. cbn. apply Hss.
  - destruct (dotted p) eqn:D.
    + destruct p as [|x [|y r]]; [done|..]; cbn in D.
      * by apply Byte.byte_dec_bl in D as ->.
      * apply andb_prop in D as [->%Byte.byte_dec_bl Hy]. pose proof Hy as ->%is_sep_true.
        cbn. by rewrite Hss.
    + cbn. destruct (segments_cons p) as (s & ss & E). rewrite E. cbn. rewrite Hss.
      assert (s <> ["."%byte]) as Hs by (intros ->; by eapply dotted_segment).
      unfold non_empty, named. by repeat case_bool_decide; naive_solver.
Qed.

Lemma path_hash_spec p :
  path_hash p = Val ((HBytes <$> omap hashed (comps_of p)) ++ [HUsize (total (omap hashed (comps_of p)))]).
Proof.
  unfold path_hash. cbn [parse_prefix]. change (slice_from 0 p) with (Val p). cbn [mbind outcome_bind].
  destruct (hash_loop_spec (length p) p [] [] {| component_start := 0; bytes_hashed := 0; trace := [] |} p 0)
    as (s & E & Ht & Hb); [done..|]. unfold hash_run in E.
  destruct (hash_loop _ _ _ _ _) as [s0| | | |]; try done. cbn [mbind outcome_bind] in E |- *.
  rewrite E. cbn [mbind outcome_bind]. by rewrite Ht, Hb, pieces_hashed.
Qed.

(** Equality, order and hash of paths agree: two paths are equal when they have the
    same components, [cmp] says [Equal] for these and no others, it is a total
    order, and equal paths make a hasher see the same writes. *)
Theorem path_eq_ord_hash p q r :
  path_eq p q = Val (bool_decide (comps_of p = comps_of q))
  /\ (path_cmp p q = Val Eq <-> path_eq p q = Val true)
  /\ (path_cmp p q = Val Lt <-> path_cmp q p = Val Gt)
  /\ (path_cmp p q = Val Lt -> path_cmp q r = Val Lt -> path_cmp p r = Val Lt)
  /\ (path_eq p q = Val true -> path_hash p = path_hash q).
Proof.
  destruct comps_cmp_order as [Heq Hopp Htr].
  rewrite !path_eq_spec, !path_cmp_spec, !path_hash_spec.
  pose proof (comps_of_plain p). pose proof (comps_of_plain q). pose proof (comps_of_plain r).
  split; [done|]. split; [|split; [|split]].
  - split; intros [= E].
    + apply Heq in E; [|done..]. by rewrite bool_decide_true.
    + f_equal. apply Heq; [done..|]. by apply bool_decide_eq_true in E.
  - rewrite (Hopp (comps_of p) (comps_of q)) by done. destruct (comps_cmp _ _); naive_solver.
  - intros [= E1] [= E2]. f_equal. by apply (Htr _ (comps_of q)).
  - intros [= E%bool_decide_eq_true]. by rewrite E.
Qed.
