(* ===== verification/PathOpsSpecs.v ===== *)
(** PathOpsSpecs: what the methods of [Path] and [PathBuf] do to the components. *)
From Stdlib Require Import ZArith Lia Strings.Byte.
From stdpp Require Import base numbers list option sets tactics.
From S2P Require Import Prelude IoError IoBase Path PathSpecs PathOps PathCompare.
Local Open Scope nat_scope.

(** * Shape of the components of a path *)
Lemma body_inner p x : x ∈ body p -> x = ParentDir \/ exists s, x = Normal s.
Proof.
  unfold body. rewrite list_elem_of_omap. intros (s & _ & Hs). unfold named in Hs.
  repeat case_bool_decide; naive_solver.
Qed.

(** What [file_name] gives for a list of components. *)
Definition name_of (l : list Component) : option OsStr :=
  match list.last l with Some (Normal s) => Some s | _ => None end.

(** Whether [parent] leaves something out. *)
Definition has_parent (l : list Component) : bool :=
  match list.last l with Some RootDir | Some (PrefixC _ _) | None => false | Some _ => true end.

Lemma has_parent_snoc l x : has_parent (l ++ [x]) = match x with RootDir | PrefixC _ _ => false | _ => true end.
Proof. unfold has_parent. rewrite last_snoc. by destruct x. Qed.

Lemma parent_spec p :
  if has_parent (comps_of p) then
    exists q, parent p = Val (Some q) /\ q `prefix_of` p /\ comps_of q = removelast (comps_of p)
  else parent p = Val None.
Proof.
  unfold parent. destruct (components_spec p) as (c & -> & Hwf & Hrem & Hf & Hp & _).
  cbn [mbind outcome_bind]. destruct (next_back_spec c Hwf) as (c' & -> & Hwf' & Hr & Hpre & Hf').
  cbn [mbind outcome_bind]. rewrite Hrem in *. unfold has_parent.
  destruct (as_path_spec c' Hwf') as (q & -> & Hq & Hqp). cbn [mbind outcome_bind].
  assert (q `prefix_of` p /\ comps_of q = removelast (comps_of p)) as Hres.
  { rewrite Hq, Hr. split; [|done]. rewrite <- Hp. etrans; [by apply Hqp; rewrite Hf'|done]. }
  destruct (list.last (comps_of p)) as [[]|]; eauto.
Qed.

Lemma pop_spec p :
  exists q, pop p = Val (q, has_parent (comps_of p))
    /\ comps_of q = if has_parent (comps_of p) then removelast (comps_of p) else comps_of p.
Proof.
  unfold pop. pose proof (parent_spec p) as H. destruct (has_parent (comps_of p)).
  - destruct H as (q & -> & [x E] & Hq). exists q. split; [cbn; by rewrite E, take_app_length|done].
  - rewrite H. by exists p.
Qed.

Lemma file_name_at_spec p :
  exists r, file_name_at p = Val r /\ option_map fst r = name_of (comps_of p)
    /\ forall s e, r = Some (s, e) -> e <= length p /\ no_sep s
       /\ exists k, take e p = k ++ s /\ (k = [] \/ exists k', k = k' ++ [MAIN_SEP])
                    /\ comps_of p = comps_of k ++ [Normal s].
Proof.
  unfold file_name_at. destruct (components_spec p) as (c & -> & Hwf & Hrem & Hf & Hp & _).
  cbn [mbind outcome_bind]. destruct (next_back_at_spec c Hwf) as (r & c' & -> & Hl & _ & _ & _ & _ & Hpiece).
  cbn [mbind outcome_bind]. eexists. split; [done|]. rewrite Hrem in Hl. unfold name_of. rewrite <- Hl.
  split; [by destruct r as [[[] ?]|]|]. intros s e Hr.
  destruct r as [[[] e']|]; try done. injection Hr as -> ->.
  destruct (Hpiece s e eq_refl) as (He & Hs & k & Ht & Hk & Hc). rewrite Hp in *.
  split; [done|]. split; [done|]. exists k. split; [done|]. split; [done|].
  rewrite Hc, Hrem by (unfold early; by rewrite Hf).
  symmetry in Hl. cbn in Hl. apply last_Some in Hl as [l ->]. by rewrite removelast_last.
Qed.

Lemma file_name_spec p : file_name p = Val (name_of (comps_of p)).
Proof. unfold file_name. by destruct (file_name_at_spec p) as (r & -> & <- & _). Qed.

(** * Pushing *)
Lemma has_root_rooted p : path_has_root p = Val (rooted p).
Proof. unfold path_has_root. rewrite components_val. cbn. by rewrite has_root_physical. Qed.

Lemma is_absolute_rooted p : is_absolute p = Val (rooted p).
Proof. unfold is_absolute. rewrite has_root_rooted. cbn. by destruct (rooted p). Qed.

Lemma push_bytes p q :
  push p q = Val (if rooted q then q
                  else match list.last p with
                       | Some b => if is_sep_byte b then p ++ q else p ++ MAIN_SEP :: q
                       | None => q
                       end).
Proof.
  unfold push. rewrite components_val. cbn [mbind outcome_bind prefix_len c_prefix c_path].
  rewrite is_absolute_rooted, has_root_rooted. cbn. destruct (rooted q); [done|]. cbn.
  destruct (list.last p) as [b|] eqn:L; [by destruct (is_sep_byte b)|].
  by apply last_None in L as ->.
Qed.

(** The components that [push] leaves. *)
Definition pushed (l : list Component) (q : OsStr) : list Component :=
  if rooted q || bool_decide (l = []) then comps_of q else l ++ body q.

Lemma comps_of_nil p : comps_of p = [] <-> p = [].
Proof.
  split; [|by intros ->]. destruct p as [|b p]; [done|]. unfold comps_of, start. cbn [rooted].
  destruct (is_sep_byte b) eqn:Hb; [done|]. destruct (dotted (b :: p)) eqn:D; [done|]. cbn [app].
  intros E. exfalso. destruct (segments_cons p) as (s & ss & Es). unfold body in E. cbn in E.
  rewrite Hb, Es in E. cbn in E. destruct (named (b :: s)) eqn:N; [done|].
  unfold named in N. repeat case_bool_decide; try done. destruct H as [?|[= -> ->]]; [done|].
  eapply (dotted_segment ("."%byte :: p)); [|done]. cbn. by rewrite Es.
Qed.

Lemma push_spec p q : exists r, push p q = Val r /\ comps_of r = pushed (comps_of p) q.
Proof.
  rewrite push_bytes. eexists. split; [done|]. unfold pushed. destruct (rooted q) eqn:R; [done|]. cbn [orb].
  rewrite (bool_decide_ext _ _ (comps_of_nil p)).
  destruct p as [|b p] using rev_ind; [done|]. clear IHp. rewrite last_snoc.
  rewrite bool_decide_false by (by destruct p). destruct (is_sep_byte b) eqn:Hb.
  - apply is_sep_true in Hb as ->. rewrite <- app_assoc. cbn [app]. apply comps_of_shared.
  - apply comps_of_app_sep. by destruct p.
Qed.

(** * One name *)

(** A string that is one [Normal] component. *)
Definition is_name (n : OsStr) : Prop := comps_of n = [Normal n].

Lemma is_name_body n : is_name n -> rooted n = false /\ body n = [Normal n].
Proof.
  unfold is_name, comps_of, start. destruct (rooted n); [done|]. by destruct (dotted n).
Qed.

Lemma name_is_name n : no_sep n -> named n = Some (Normal n) -> is_name n.
Proof.
  intros Hn Hs. unfold is_name, comps_of. rewrite body_no_sep, Hs by done.
  rewrite <- (app_nil_r n) at 1. rewrite piece_start; [done|done|by left|by rewrite Hs].
Qed.

(** A name after nothing or after a separator. *)
Lemma comps_of_name k n :
  k = [] \/ (exists k', k = k' ++ [MAIN_SEP]) -> is_name n -> comps_of (k ++ n) = comps_of k ++ [Normal n].
Proof.
  intros [->|[k' ->]] Hn; [done|]. rewrite <- app_assoc. cbn [app].
  rewrite comps_of_shared. by rewrite (proj2 (is_name_body n Hn)).
Qed.

Lemma pushed_name l n : is_name n -> pushed l n = l ++ [Normal n].
Proof.
  intros Hn. destruct (is_name_body n Hn) as [R Hb]. unfold pushed. rewrite R, Hb. cbn [orb].
  case_bool_decide; subst; done.
Qed.

(** Pushing a file name onto any path and popping it gives the path back, as paths
    compare; in between, the name is the file name and the path the parent. *)
Theorem path_push_pop p n :
  is_name n ->
  exists r s, push p n = Val r /\ file_name r = Val (Some n)
    /\ pop r = Val (s, true) /\ path_eq s p = Val true.
Proof.
  intros Hn. destruct (push_spec p n) as (r & -> & Hr). rewrite pushed_name in Hr by done.
  destruct (pop_spec r) as (s & E & Hs). rewrite Hr, has_parent_snoc, ?removelast_last in *.
  exists r, s. split; [done|]. split.
  - rewrite file_name_spec, Hr. unfold name_of. by rewrite last_snoc.
  - split; [done|]. by rewrite path_eq_spec, Hs, bool_decide_true.
Qed.

Lemma path_push_pop_witness :
  exists r s, push [MAIN_SEP; "a"%byte; MAIN_SEP; MAIN_SEP] ["b"%byte] = Val r
    /\ file_name r = Val (Some ["b"%byte])
    /\ pop r = Val (s, true) /\ path_eq s [MAIN_SEP; "a"%byte; MAIN_SEP; MAIN_SEP] = Val true.
Proof. apply (path_push_pop _ ["b"%byte]). reflexivity. Defined.

(** * Prefixes and suffixes *)
Lemma strip_prefix_spec p base :
  (exists q, strip_prefix p base = Val (Some q) /\ comps_of p = comps_of base ++ comps_of q)
  \/ (strip_prefix p base = Val None /\ ~ comps_of base `prefix_of` comps_of p).
Proof.
  unfold strip_prefix. destruct (components_spec p) as (c & -> & Hc & <- & _).
  destruct (components_spec base) as (b & -> & Hb & <- & _). cbn [mbind outcome_bind].
  change next with (read Front).
  destruct (iter_after_spec Front c b Hc Hb) as [(c' & -> & Hc' & E)|[-> Hn]]; cbn [mbind outcome_bind].
  - left. destruct (as_path_spec c' Hc') as (q & -> & Hq & _). exists q. by rewrite Hq.
  - by right.
Qed.

Lemma rooted_comps p : rooted p = true <-> head (comps_of p) = Some RootDir.
Proof.
  unfold comps_of, start. destruct (rooted p) eqn:R; [done|]. split; [done|].
  destruct (dotted p); [done|]. cbn [app]. intros Hh. destruct (body p) as [|x l] eqn:E; [done|].
  injection Hh as ->. destruct (body_inner p RootDir); [rewrite E; left|done|naive_solver].
Qed.

(** Below a path that is not empty, there is neither a root nor a leading dot. *)
Lemma below_body q l :
  l <> [] -> (exists p, comps_of p = l ++ comps_of q) -> rooted q = false /\ comps_of q = body q.
Proof.
  intros Hl [p E]. assert (forall x, x ∈ comps_of q -> x ∈ body p) as Hin.
  { intros x Hx. unfold comps_of at 1, start in E. destruct l as [|y l]; [done|].
    assert (x ∈ l ++ comps_of q) as Hx' by (apply elem_of_app; by right).
    destruct (rooted p); [|destruct (dotted p)]; cbn [app] in E.
    - by injection E as _ ->.
    - by injection E as _ ->.
    - rewrite E. by right. }
  unfold comps_of, start in *. destruct (rooted q) eqn:R; [|destruct (dotted q) eqn:D; [|done]].
  - destruct (body_inner p RootDir (Hin RootDir ltac:(by left))) as [|[? ?]]; done.
  - destruct (body_inner p CurDir (Hin CurDir ltac:(by left))) as [|[? ?]]; done.
Qed.

(** [strip_prefix] succeeds exactly when the components of the base begin those of
    the path, and what it returns, joined onto the base, equals the path;
    [starts_with] and [ends_with] decide the same for the two ends. *)
Theorem path_strip_prefix_join p base :
  match strip_prefix p base with
  | Val (Some q) => exists r, join base q = Val r /\ path_eq r p = Val true
  | Val None => ~ comps_of base `prefix_of` comps_of p
  | _ => False
  end
  /\ starts_with p base = Val (bool_decide (comps_of base `prefix_of` comps_of p))
  /\ ends_with p base = Val (bool_decide (comps_of base `suffix_of` comps_of p)).
Proof.
  split; [|split].
  - destruct (strip_prefix_spec p base) as [(q & -> & E)|[-> Hn]]; [|done].
    unfold join. destruct (push_spec base q) as (r & -> & Hr). exists r. split; [done|].
    rewrite path_eq_spec, Hr, bool_decide_true; [done|]. unfold pushed.
    case_bool_decide as Hb; [by rewrite orb_true_r, E, Hb|].
    destruct (below_body q (comps_of base)) as [-> Hq]; [done|by eexists|]. cbn [orb]. by rewrite E, Hq.
  - unfold starts_with. destruct (components_spec p) as (c & -> & Hc & <- & _).
    destruct (components_spec base) as (b & -> & Hb & <- & _). cbn [mbind outcome_bind].
    change next with (read Front).
    destruct (iter_after_spec Front c b Hc Hb) as [(c' & -> & Hc' & E)|[-> Hn]]; cbn [mbind outcome_bind] in *.
    + rewrite bool_decide_true; [done|]. by exists (yields Front c').
    + by rewrite bool_decide_false.
  - unfold ends_with. destruct (components_spec p) as (c & -> & Hc & <- & _).
    destruct (components_spec base) as (b & -> & Hb & <- & _). cbn [mbind outcome_bind].
    change next_back with (read Back).
    destruct (iter_after_spec Back c b Hc Hb) as [(c' & -> & Hc' & E)|[-> Hn]]; cbn [mbind outcome_bind yields] in *.
    + rewrite bool_decide_true; [done|]. exists (remaining c').
      apply (inj reverse). by rewrite reverse_app.
    + rewrite bool_decide_false; [done|]. intros [x Hx]. apply Hn. exists (reverse x). by rewrite Hx, reverse_app.
Qed.

(** * Extensions *)
Lemma rposition_last a b r f :
  f b = true -> Forall (fun x => f x = false) r -> rposition f (a ++ b :: r) = Some (length a).
Proof.
  intros Hb Hr. assert (rposition f r = None) as Hn by (induction Hr as [|? ? Hx ? IH]; cbn; by rewrite ?IH, ?Hx).
  induction a as [|x a IH]; cbn; [by rewrite Hn, Hb|by rewrite IH].
Qed.

(** A stem is a beginning of the file name, and not empty. *)
Lemma stem_of_prefix f : f <> [] -> exists s x, stem_of f = Some s /\ f = s ++ x /\ s <> [].
Proof.
  intros Hf. unfold stem_of, rsplit_file_at_dot, rsplitn_dot. case_bool_decide as E1; [exists f, []; by rewrite app_nil_r|].
  destruct (rposition is_dot f) as [i|] eqn:R; case_bool_decide as E2; try (exists f, []; by rewrite app_nil_r).
  exists (take i f), (drop i f). rewrite take_drop. split; [done|]. split; [done|]. congruence.
Qed.

(** A stem that is not empty and an extension without dots are what they were. *)
Lemma stem_and_extension s e :
  s <> [] -> e <> [] -> Forall (fun b => is_dot b = false) e ->
  stem_of (s ++ "."%byte :: e) = Some s /\ extension_of (s ++ "."%byte :: e) = Some e.
Proof.
  intros Hs He Hd. unfold stem_of, extension_of, rsplit_file_at_dot, rsplitn_dot.
  rewrite rposition_last by done. rewrite bool_decide_false.
  2:{ intros E. apply (f_equal length) in E. rewrite length_app in E. destruct s, e; try done. cbn in E. lia. }
  rewrite take_app_length. replace (S (length s)) with (length (s ++ ["."%byte])) by (rewrite length_app; cbn; lia).
  rewrite cons_middle, app_assoc, drop_app_length. by rewrite bool_decide_false by naive_solver.
Qed.

Definition plain_extension (e : OsStr) : Prop :=
  e <> [] /\ no_sep e /\ Forall (fun b => is_dot b = false) e.

Lemma named_long s : 3 <= length s -> named s = Some (Normal s).
Proof.
  intros Hs. unfold named. rewrite !bool_decide_false; [done|..].
  - intros ->. cbn in Hs. lia.
  - intros [->| ->]; cbn in Hs; lia.
Qed.

Lemma extended_name s e : s <> [] -> no_sep s -> plain_extension e -> is_name (s ++ "."%byte :: e).
Proof.
  intros Hs Hn (He & Hne & _). apply name_is_name.
  - apply Forall_app. split; [done|]. by constructor.
  - apply named_long. rewrite length_app. destruct s, e; try done. cbn. lia.
Qed.

(** [set_extension] with an extension that has neither dots nor separators: when
    the path has a file name, the extension becomes the new one, the stem and the
    parent stay; when it has none, the path is unchanged and [false] returned. *)
Theorem path_set_extension p e :
  plain_extension e ->
  match name_of (comps_of p) with
  | None => set_extension p e = Val (p, false)
  | Some f =>
      exists q s, set_extension p e = Val (q, true) /\ stem_of f = Some s
        /\ comps_of q = removelast (comps_of p) ++ [Normal (s ++ "."%byte :: e)]
        /\ extension q = Val (Some e) /\ file_stem q = Val (Some s) /\ file_stem p = Val (Some s)
  end.
Proof.
  intros He. unfold set_extension. destruct (file_name_at_spec p) as (r & -> & Hr & Hat).
  cbn [mbind outcome_bind]. destruct r as [[f fin]|]; cbn in Hr; rewrite <- Hr; [|done].
  destruct (Hat f fin eq_refl) as (Hfin & Hf & k & Ht & Hk & Hc).
  assert (f <> []) as Hne.
  { intros ->. assert (Normal [] ∈ comps_of p) as Hin by (rewrite Hc; apply elem_of_app; right; by left).
    unfold comps_of in Hin. apply elem_of_app in Hin as [Hin|Hin].
    - unfold start in Hin. repeat case_match; set_solver.
    - unfold body in Hin. apply list_elem_of_omap in Hin as (t & _ & Hn). by apply named_normal in Hn as E; subst. }
  destruct (stem_of_prefix f Hne) as (s & x & Hs & E & Hs0). rewrite Hs.
  assert (length k + length f = fin) as Hlen.
  { apply (f_equal length) in Ht. rewrite length_take, length_app in Ht. lia. }
  assert (take (fin - length f + length s) p = k ++ s) as ->.
  { replace (fin - length f + length s) with ((length k + length s) `min` fin) by (rewrite E, length_app in *; lia).
    rewrite <- take_take, Ht, E. rewrite app_assoc. by rewrite <- length_app, take_app_length. }
  rewrite bool_decide_true by apply He. eexists _, s. split; [done|]. split; [done|].
  assert (no_sep s) as Hsep by (rewrite E in Hf; by apply Forall_app in Hf as [? _]).
  rewrite <- app_assoc, comps_of_name by (auto using extended_name).
  rewrite Hc, removelast_last. split; [done|]. unfold extension, file_stem.
  rewrite !file_name_spec, comps_of_name, Hc by (auto using extended_name). cbn [mbind outcome_bind option_bind].
  unfold name_of. rewrite !last_snoc. cbn. rewrite Hs.
  destruct He as (He & _ & Hd). destruct (stem_and_extension s e Hs0 He Hd) as [-> ->]. done.
Qed.

Lemma path_set_extension_witness :
  exists q s, set_extension [MAIN_SEP; "a"%byte; "."%byte; "b"%byte; MAIN_SEP] ["c"%byte] = Val (q, true)
    /\ stem_of ["a"%byte; "."%byte; "b"%byte] = Some s
    /\ comps_of q = [RootDir; Normal (s ++ ["."%byte; "c"%byte])]
    /\ extension q = Val (Some ["c"%byte]) /\ file_stem q = Val (Some s)
    /\ file_stem [MAIN_SEP; "a"%byte; "."%byte; "b"%byte; MAIN_SEP] = Val (Some s).
Proof.
  apply (path_set_extension [MAIN_SEP; "a"%byte; "."%byte; "b"%byte; MAIN_SEP] ["c"%byte]).
  repeat split; [discriminate|by repeat constructor..].
Defined.

(** Without an extension, the stem may be a special name: taking the extension of
    ["a/..."] away leaves ["a/.."], the parent of [a]. *)
Lemma set_extension_leaves_parent :
  set_extension ["a"%byte; MAIN_SEP; "."%byte; "."%byte; "."%byte] []
    = Val (["a"%byte; MAIN_SEP; "."%byte; "."%byte], true)
  /\ file_name ["a"%byte; MAIN_SEP; "."%byte; "."%byte; "."%byte]
     = Val (Some ["."%byte; "."%byte; "."%byte])
  /\ comps_of ["a"%byte; MAIN_SEP; "."%byte; "."%byte] = [Normal ["a"%byte]; ParentDir].
Proof. repeat split. Qed.

(** * [set_file_name] *)
Lemma set_file_name_spec p n :
  is_name n ->
  exists q, set_file_name p n = Val q
    /\ comps_of q = (if name_of (comps_of p) then removelast (comps_of p) else comps_of p) ++ [Normal n].
Proof.
  intros Hn. unfold set_file_name. rewrite file_name_spec. cbn [mbind outcome_bind].
  destruct (name_of (comps_of p)) as [f|] eqn:F.
  - destruct (pop_spec p) as (s & E & Hs).
    assert (has_parent (comps_of p) = true) as Hp.
    { unfold name_of in F. unfold has_parent. by destruct (list.last _) as [[]|]. }
    rewrite E, Hp in *. cbn [mbind outcome_bind assert].
    destruct (push_spec s n) as (q & -> & Hq). exists q. by rewrite Hq, pushed_name, Hs.
  - cbn [mbind outcome_bind]. destruct (push_spec p n) as (q & -> & Hq). exists q.
    by rewrite Hq, pushed_name.
Qed.

(** * Ancestors *)
Lemma comps_of_root l x p : comps_of p = l ++ [x] -> has_parent (l ++ [x]) = false -> l = [] /\ x = RootDir.
Proof.
  rewrite has_parent_snoc. intros E Hx.
  pose proof (comps_of_plain p) as Hplain. rewrite E in Hplain. apply Forall_app in Hplain as [_ Hplain].
  pose proof (Forall_inv Hplain) as Hp. destruct x; try done; [by destruct (Hp raw parsed)|].
  destruct l as [|y l]; [done|]. exfalso.
  assert (RootDir ∈ body p) as Hin.
  { unfold comps_of, start in E. destruct (rooted p); [|destruct (dotted p)]; cbn [app] in E.
    - injection E as _ ->. apply elem_of_app. right. by left.
    - injection E as _ ->. apply elem_of_app. right. by left.
    - rewrite E. right. apply elem_of_app. right. by left. }
  destruct (body_inner p RootDir Hin) as [|[? ?]]; done.
Qed.

(** The component lists of the ancestors: the beginnings, the longest first. *)
Definition beginnings (l : list Component) : list (list Component) :=
  let lo := match l with RootDir :: _ => 1 | _ => 0 end in
  (fun i => take i l) <$> reverse (seq lo (S (length l) - lo)).

Lemma beginnings_end l : has_parent l = false -> (exists p, comps_of p = l) -> beginnings l = [l].
Proof.
  intros Hp [p E]. destruct l as [|x l] using rev_ind; [done|].
  destruct (comps_of_root l x p E Hp) as [-> ->]. done.
Qed.

Lemma beginnings_step l x :
  has_parent (l ++ [x]) = true -> beginnings (l ++ [x]) = (l ++ [x]) :: beginnings l.
Proof.
  rewrite has_parent_snoc. intros Hx. unfold beginnings. rewrite length_app. cbn [length].
  assert (match l ++ [x] with RootDir :: _ => 1 | _ => 0 end = match l with RootDir :: _ => 1 | _ => 0 end) as ->.
  { destruct l as [|[] l]; try done. by destruct x. }
  set (lo := match l with RootDir :: _ => 1 | _ => 0 end).
  assert (lo <= length l) by (unfold lo; destruct l as [|[] l]; cbn; lia).
  replace (S (length l + 1) - lo) with (S (S (length l) - lo)) by lia.
  rewrite seq_S, reverse_app. cbn [reverse rev_append app fmap list_fmap].
  replace (lo + (S (length l) - lo)) with (length (l ++ [x])) by (rewrite length_app; cbn; lia).
  rewrite firstn_all. f_equal. apply list_fmap_ext. intros i n Hi.
  rewrite take_app_le; [done|]. apply list_elem_of_lookup_2 in Hi. rewrite elem_of_reverse, elem_of_seq in Hi. lia.
Qed.

Lemma ancestors_loop_spec fuel p :
  length (comps_of p) < fuel ->
  exists l, ancestors_loop fuel (Some p) = Val l /\ comps_of <$> l = beginnings (comps_of p).
Proof.
  revert p. induction fuel as [|fuel IH]; intros p Hf; [lia|]. cbn [ancestors_loop].
  pose proof (parent_spec p) as Hp. destruct (has_parent (comps_of p)) eqn:E.
  - destruct Hp as (q & -> & _ & Hq). cbn [mbind outcome_bind].
    assert (exists l x, comps_of p = l ++ [x]) as (l & x & El).
    { destruct (comps_of p) as [|x l] using rev_ind; [done|eauto]. }
    rewrite El, removelast_last in Hq. rewrite El, length_app in Hf. cbn in Hf.
    destruct (IH q) as (m & -> & Hm); [rewrite Hq; lia|].
    exists (p :: m). split; [done|]. rewrite fmap_cons, Hm, Hq, El.
    symmetry. apply beginnings_step. by rewrite <- El.
  - rewrite Hp. exists [p]. split; [by destruct fuel|]. cbn. by rewrite beginnings_end by eauto.
Qed.

(** [ancestors] ends, and yields paths whose components are the beginnings of the
    path's: the path first, then each time one component less, down to the root or
    to the empty path. *)
Theorem path_ancestors p :
  exists l, ancestors p = Val l /\ comps_of <$> l = beginnings (comps_of p).
Proof. apply ancestors_loop_spec. pose proof (comps_of_short p). lia. Qed.

(** * Absolute paths *)
Lemma extend_spec p qs :
  exists r, extend p qs = Val r /\ comps_of r = fold_left pushed qs (comps_of p).
Proof.
  revert p. induction qs as [|q qs IH]; intros p; cbn [extend fold_left]; [by exists p|].
  destruct (push_spec p q) as (r & -> & <-). cbn [mbind outcome_bind]. apply IH.
Qed.

(** Pushing components one by one, each as a string. *)
Lemma as_os_str_body x p : x ∈ body p -> rooted (as_os_str x) = false /\ body (as_os_str x) = [x].
Proof.
  intros (s & Hin & Hs)%list_elem_of_omap. assert (no_sep s) as Hn.
  { clear Hs. revert s Hin. induction p as [|b p IH]; cbn; intros s Hin.
    - apply list_elem_of_singleton in Hin as ->. constructor.
    - destruct (is_sep_byte b) eqn:Hb.
      + apply elem_of_cons in Hin as [->|Hin]; [constructor|auto].
      + destruct (segments_cons p) as (t & ts & E). rewrite E in *.
        apply elem_of_cons in Hin as [->|Hin]; [constructor; [done|apply IH; by left]|apply IH; by right]. }
  unfold named in Hs. repeat case_bool_decide; try done; injection Hs as <-; [done|]. cbn.
  rewrite body_no_sep by done. unfold named. rewrite !bool_decide_false by done.
  split; [|done]. destruct s as [|b s]; [naive_solver|]. by inversion Hn.
Qed.

Lemma fold_pushed l k p :
  k <> [] -> (forall x, x ∈ l -> x ∈ body p) -> fold_left pushed (as_os_str <$> l) k = k ++ l.
Proof.
  revert k. induction l as [|x l IH]; intros k Hk Hl; cbn; [by rewrite app_nil_r|].
  destruct (as_os_str_body x p) as [R Hb]; [apply Hl; by left|].
  unfold pushed at 2. rewrite R, Hb, bool_decide_false by done. cbn [orb].
  rewrite IH; [by rewrite <- app_assoc|by destruct k|]. intros y Hy. apply Hl. by right.
Qed.

Lemma pushed_nil l : pushed l [] = l.
Proof. unfold pushed. cbn [rooted orb]. case_bool_decide; [by subst|]. apply app_nil_r. Qed.

(** Extending with the components of a path is pushing the path. *)
Lemma fold_pushed_comps l p :
  rooted p = true /\ l = [] \/ rooted p = false /\ l <> [] ->
  fold_left pushed (as_os_str <$> comps_of p) l = if rooted p then comps_of p else l ++ body p.
Proof.
  intros H. assert (forall k, k <> [] -> fold_left pushed (as_os_str <$> body p) k = k ++ body p) as Hf.
  { intros k Hk. by apply (fold_pushed _ _ p). }
  unfold comps_of, start. destruct (rooted p) eqn:R.
  - destruct H as [[_ ->]|[? _]]; [|done]. rewrite fmap_app. cbn [fold_left fmap list_fmap app as_os_str].
    by rewrite Hf.
  - destruct H as [[? _]|[_ Hl]]; [done|]. destruct (dotted p); cbn [app]; [|by apply Hf].
    rewrite fmap_cons. cbn [fold_left as_os_str]. unfold pushed at 2. cbn [rooted].
    rewrite bool_decide_false by done. change (is_sep_byte "."%byte) with false. cbn [orb].
    change (body ["."%byte]) with (@nil Component). rewrite app_nil_r. by apply Hf.
Qed.

Lemma last_sep q r : q <> [] -> push q [] = Val r -> list.last r = Some MAIN_SEP.
Proof.
  intros Hq. rewrite push_bytes. cbn [rooted]. intros [= <-]. destruct (list.last q) as [b|] eqn:L.
  - destruct (is_sep_byte b) eqn:Hb; [|by rewrite last_snoc].
    rewrite app_nil_r, L. by apply is_sep_true in Hb as ->.
  - by apply last_None in L.
Qed.

Lemma sys_absolute_parts cwd p :
  p <> [] -> rooted cwd = true ->
  exists n, sys_absolute (Val cwd) p = (if bytes_end_with [MAIN_SEP] p then push n [] else Val n)
    /\ comps_of n = if rooted p then comps_of p else comps_of cwd ++ body p.
Proof.
  intros Hp Hc. unfold sys_absolute. destruct (components_spec p) as (c & -> & Hwf & Hrem & _).
  cbn [mbind outcome_bind]. rewrite is_absolute_rooted. cbn [mbind outcome_bind].
  destruct (rooted p) eqn:R; [destruct (_ && _)|]; cbn [mbind outcome_bind].
  - destruct (next_spec c Hwf) as (c' & -> & Hwf' & Hr & _). cbn [mbind outcome_bind].
    rewrite collect_spec by done. cbn [mbind outcome_bind].
    destruct (extend_spec [MAIN_SEP; MAIN_SEP] (as_os_str <$> remaining c')) as (n & -> & Hn).
    exists n. split; [done|]. rewrite Hn, Hr, Hrem. unfold comps_of, start. rewrite R.
    change (comps_of [MAIN_SEP; MAIN_SEP]) with [RootDir]. cbn [app tail].
    by apply (fold_pushed _ [RootDir] p).
  - rewrite collect_spec by done. cbn [mbind outcome_bind].
    destruct (extend_spec [] (as_os_str <$> remaining c)) as (n & -> & Hn).
    exists n. split; [done|]. rewrite Hn, Hrem, fold_pushed_comps by auto. by rewrite R.
  - rewrite collect_spec by done. cbn [mbind outcome_bind].
    destruct (extend_spec cwd (as_os_str <$> remaining c)) as (n & -> & Hn).
    exists n. split; [done|]. rewrite Hn, Hrem, fold_pushed_comps; [by rewrite R|].
    right. split; [done|]. rewrite comps_of_nil. by intros ->.
Qed.

(** [absolute]: the empty path is an error, and so is a relative path when the
    current directory is; otherwise the result is rooted and has the components of
    the path, after those of the current directory when the path is relative; a
    trailing separator stays. *)
Theorem path_absolute_spec cwd p e :
  rooted cwd = true -> p <> [] ->
  (exists q, path_absolute (Val cwd) p = Val q /\ rooted q = true
     /\ comps_of q = (if rooted p then comps_of p else comps_of cwd ++ body p)
     /\ (bytes_end_with [MAIN_SEP] p = true -> list.last q = Some MAIN_SEP))
  /\ (rooted p = false -> path_absolute (Bad e) p = Bad e)
  /\ path_absolute (Val cwd) [] = Bad empty_path_error.
Proof.
  intros Hc Hp. unfold path_absolute. rewrite !bool_decide_false, bool_decide_true by done.
  split; [|split; [|done]].
  - destruct (sys_absolute_parts cwd p Hp Hc) as (n & -> & Hn).
    assert (rooted n = true) as Hr.
    { apply rooted_comps. rewrite Hn. destruct (rooted p) eqn:R; [by apply rooted_comps|].
      apply rooted_comps in Hc. by destruct (comps_of cwd). }
    destruct (bytes_end_with _ p); [|by exists n].
    destruct (push_spec n []) as (q & E & Hq). exists q. rewrite pushed_nil in Hq.
    split; [done|]. split; [|split; [by rewrite Hq|]].
    + apply rooted_comps. rewrite Hq. by apply rooted_comps.
    + intros _. eapply (last_sep n); [|done]. by intros ->.
  - intros R. unfold sys_absolute. rewrite components_val, is_absolute_rooted, R. done.
Qed.

Lemma path_absolute_spec_witness :
  (exists q, path_absolute (Val [MAIN_SEP; "w"%byte]) ["."%byte; MAIN_SEP; "a"%byte; MAIN_SEP] = Val q
     /\ rooted q = true
     /\ comps_of q = [RootDir; Normal ["w"%byte]; Normal ["a"%byte]]
     /\ (bytes_end_with [MAIN_SEP] ["."%byte; MAIN_SEP; "a"%byte; MAIN_SEP] = true -> list.last q = Some MAIN_SEP))
  /\ (rooted ["."%byte; MAIN_SEP; "a"%byte; MAIN_SEP] = false ->
      path_absolute (Bad eof_error) ["."%byte; MAIN_SEP; "a"%byte; MAIN_SEP] = Bad eof_error)
  /\ path_absolute (Val [MAIN_SEP; "w"%byte]) [] = Bad empty_path_error.
Proof.
  apply (path_absolute_spec [MAIN_SEP; "w"%byte] ["."%byte; MAIN_SEP; "a"%byte; MAIN_SEP] eof_error);
    [reflexivity|discriminate].
Defined.
