(* ===== verification/HashGroup.v ===== *)
(** HashGroup: control bytes, bit masks and groups of the hash table.

    sgx_tstd/hashbrown/src/raw: the control bytes of mod.rs, bitmask.rs, sse2.rs
    and generic.rs.  A control byte is a [u8], kept as a [Z]; a group is the list of
    the control bytes it was loaded from; a [BitMask] is the word the code computes.

    [Group] is what the table uses of a group and [GroupLaws] what it relies on; the
    two implementations are instances, so that the table is verified for both. *)
From Stdlib Require Import ZArith Lia.
From stdpp Require Import base numbers list option tactics.
From S2P Require Import Prelude.
Local Open Scope Z_scope.

(** * Control bytes *)
Definition EMPTY : Z := 255.
Definition DELETED : Z := 128.

Definition is_full (ctrl : Z) : bool := Z.land ctrl 128 =? 0.
Definition is_special (ctrl : Z) : bool := negb (Z.land ctrl 128 =? 0).
Definition special_is_empty (ctrl : Z) : bool := negb (Z.land ctrl 1 =? 0).

Definition h1 (hash : Z) : Z := hash.
Definition h2 (hash : Z) : Z :=
  let hash_len := Z.min 8 8 in
  let top7 := Z.shiftr hash (hash_len * 8 - 7) in
  Z.land top7 127.

(** * Bit masks *)

(** [trailing_zeros] of a word: its width when it is zero. *)
Fixpoint ctz (width : nat) (z : Z) : Z :=
  match width with
  | O => 0
  | S w => if Z.odd z then 0 else 1 + ctz w (z / 2)
  end.
(** [leading_zeros] *)
Definition clz (width : nat) (z : Z) : Z :=
  if z =? 0 then Z.of_nat width else Z.of_nat width - 1 - Z.log2 z.

(** What depends on the implementation: the width of a group and of a mask, how
    many bits of the mask stand for a byte, and the operations on groups. *)
Class Group := {
  WIDTH : nat;
  BITMASK_STRIDE : Z;
  BITMASK_MASK : Z;
  word_bits : nat;
  match_byte : list Z -> Z -> Z;
  match_empty : list Z -> Z;
  match_empty_or_deleted : list Z -> Z;
  convert_special_to_empty_and_full_to_deleted : list Z -> list Z
}.

Section BitMask.
Context `{Group}.

Definition invert (m : Z) : Z := Z.lxor m BITMASK_MASK.
Definition remove_lowest_bit (m : Z) : Z := Z.land m (m - 1).
Definition any_bit_set (m : Z) : bool := negb (m =? 0).
Definition trailing_zeros (m : Z) : Z := ctz word_bits m / BITMASK_STRIDE.
Definition leading_zeros (m : Z) : Z := clz word_bits m / BITMASK_STRIDE.
Definition lowest_set_bit (m : Z) : option Z :=
  if m =? 0 then None else Some (trailing_zeros m).

(** [match_full], the same in both implementations. *)
Definition match_full (g : list Z) : Z := invert (match_empty_or_deleted g).

(** The bits that [BitMaskIter] yields: at most one for each byte of a group. *)
Fixpoint mask_iter (fuel : nat) (m : Z) : list Z :=
  match fuel with
  | O => []
  | S fuel =>
      match lowest_set_bit m with
      | None => []
      | Some bit => bit :: mask_iter fuel (remove_lowest_bit m)
      end
  end.
Definition into_iter (m : Z) : list Z := mask_iter WIDTH m.
End BitMask.

(** * sse2.rs *)

(** [_mm_movemask_epi8]: the top bits of sixteen bytes, the first byte's lowest. *)
Fixpoint movemask (g : list Z) : Z :=
  match g with
  | [] => 0
  | b :: g => (if Z.land b 128 =? 0 then 0 else 1) + 2 * movemask g
  end.
(** [_mm_cmpeq_epi8], and [_mm_cmpgt_epi8] of signed bytes *)
Definition cmpeq (g : list Z) (b : Z) : list Z := (fun x => if x =? b then 255 else 0) <$> g.
Definition cmpgt_zero (g : list Z) : list Z := (fun x => if 0 >? swrap 8 x then 255 else 0) <$> g.

Module Sse2.
Definition match_byte (g : list Z) (byte : Z) : Z := movemask (cmpeq g byte).
Definition match_empty (g : list Z) : Z := match_byte g EMPTY.
Definition match_empty_or_deleted (g : list Z) : Z := movemask g.
Definition convert_special_to_empty_and_full_to_deleted (g : list Z) : list Z :=
  (fun s => Z.lor s 128) <$> cmpgt_zero g.

Instance group : Group := {
  WIDTH := 16;
  BITMASK_STRIDE := 1;
  BITMASK_MASK := 65535;
  word_bits := 16;
  HashGroup.match_byte := match_byte;
  HashGroup.match_empty := match_empty;
  HashGroup.match_empty_or_deleted := match_empty_or_deleted;
  HashGroup.convert_special_to_empty_and_full_to_deleted := convert_special_to_empty_and_full_to_deleted
}.
End Sse2.

(** * generic.rs *)

(** The word that eight bytes are loaded into, and its bytes. *)
Fixpoint word_of (g : list Z) : Z :=
  match g with [] => 0 | b :: g => b + 256 * word_of g end.
Fixpoint bytes_of (n : nat) (w : Z) : list Z :=
  match n with O => [] | S n => w mod 256 :: bytes_of n (w / 256) end.

Module Generic.
Definition repeat (byte : Z) : Z := word_of (replicate 8 byte).
Definition match_byte (g : list Z) (byte : Z) : Z :=
  let cmp := Z.lxor (word_of g) (repeat byte) in
  Z.land (Z.land (wrap 64 (cmp - repeat 1)) (unot 64 cmp)) (repeat 128).
Definition match_empty (g : list Z) : Z :=
  let w := word_of g in
  Z.land (Z.land w (wrap 64 (Z.shiftl w 1))) (repeat 128).
Definition match_empty_or_deleted (g : list Z) : Z := Z.land (word_of g) (repeat 128).
Definition convert_special_to_empty_and_full_to_deleted (g : list Z) : list Z :=
  let full := Z.land (unot 64 (word_of g)) (repeat 128) in
  bytes_of 8 (wrap 64 (unot 64 full + Z.shiftr full 7)).

Instance group : Group := {
  WIDTH := 8;
  BITMASK_STRIDE := 8;
  BITMASK_MASK := 9259542123273814144;
  word_bits := 64;
  HashGroup.match_byte := match_byte;
  HashGroup.match_empty := match_empty;
  HashGroup.match_empty_or_deleted := match_empty_or_deleted;
  HashGroup.convert_special_to_empty_and_full_to_deleted := convert_special_to_empty_and_full_to_deleted
}.
End Generic.

(** * What the table relies on *)

(** The mask in which the bytes with [true] are marked: the top bit of a byte's
    share of the word. *)
Section Marks.
Context (stride : Z).
Fixpoint mark (bs : list bool) : Z :=
  match bs with
  | [] => 0
  | b :: bs => (if b : bool then 2 ^ (stride - 1) else 0) + 2 ^ stride * mark bs
  end.
End Marks.

Definition is_byte (c : Z) : Prop := 0 <= c < 256.
(** A control byte: empty, deleted or seven bits of a hash. *)
Definition is_ctrl (c : Z) : Prop := c = EMPTY \/ c = DELETED \/ 0 <= c < 128.

(** Whether a list of bits marks the bytes [b] of a group, and otherwise only bytes
    that are full. *)
Definition marks (g : list Z) (b : Z) (bs : list bool) : Prop :=
  length bs = length g
  /\ forall i c, g !! i = Some c -> (c = b -> bs !! i = Some true) /\ (bs !! i = Some true -> is_full c = true).

Class GroupLaws `(Group) : Prop := {
  width_pos : exists k, Z.of_nat WIDTH = 2 ^ k /\ 3 <= k <= 4;
  stride_pos : 0 < BITMASK_STRIDE;
  word_width : Z.of_nat word_bits = Z.of_nat WIDTH * BITMASK_STRIDE;
  mask_all : BITMASK_MASK = mark BITMASK_STRIDE (replicate WIDTH true);
  match_byte_marks g b :
    length g = WIDTH -> Forall is_ctrl g -> 0 <= b < 128 ->
    exists bs, match_byte g b = mark BITMASK_STRIDE bs /\ marks g b bs;
  match_empty_marks g :
    length g = WIDTH -> Forall is_ctrl g ->
    match_empty g = mark BITMASK_STRIDE ((fun c => c =? EMPTY) <$> g);
  match_special_marks g :
    length g = WIDTH -> Forall is_ctrl g ->
    match_empty_or_deleted g = mark BITMASK_STRIDE ((fun c => negb (is_full c)) <$> g);
  convert_spec g :
    length g = WIDTH -> Forall is_ctrl g ->
    convert_special_to_empty_and_full_to_deleted g = (fun c => if is_full c then DELETED else EMPTY) <$> g
}.
