(* ===== verification/HashGroupLaws.v ===== *)
(** HashGroupLaws: both implementations of groups keep what the table relies on.

    First the operations of [BitMask] on masks in the form of [mark]; then sse2.rs;
    then generic.rs, where sixty-four bit arithmetic works on eight bytes at once. *)
From Stdlib Require Import ZArith Lia.
From stdpp Require Import base numbers list option sets tactics.
From S2P Require Import Prelude HashGroup.
Local Open Scope Z_scope.

(** * Words by digits

    A word [a + 2 ^ s * m] has the bits of [a] below [s] and those of [m] above. *)
Lemma testbit_low_high s a m i :
  0 <= s -> 0 <= a < 2 ^ s -> 0 <= i ->
  Z.testbit (a + 2 ^ s * m) i = if i <? s then Z.testbit a i else Z.testbit m (i - s).
Proof.
  intros Hs Ha Hi. destruct (Z.ltb_spec i s) as [Hlt|Hge].
  - rewrite <- (Z.mod_pow2_bits_low _ s i) by lia.
    rewrite Z.mul_comm, Z_mod_plus_full, Z.mod_small by lia. done.
  - replace i with ((i - s) + s) at 1 by lia. rewrite <- Z.div_pow2_bits by lia.
    rewrite Z.mul_comm, Z_div_plus_full, Z.div_small by (try apply Z.pow_nonzero; lia). done.
Qed.

Lemma bitop_low_high (op : Z -> Z -> Z) (f : bool -> bool -> bool) s a b m n :
  (forall x y i, Z.testbit (op x y) i = f (Z.testbit x i) (Z.testbit y i)) ->
  0 <= s -> 0 <= a < 2 ^ s -> 0 <= b < 2 ^ s -> 0 <= op a b < 2 ^ s ->
  op (a + 2 ^ s * m) (b + 2 ^ s * n) = op a b + 2 ^ s * op m n.
Proof.
  intros Hop Hs Ha Hb Hab. apply Z.bits_inj'. intros i Hi.
  rewrite Hop, !testbit_low_high by done. destruct (i <? s); by rewrite Hop.
Qed.

Lemma land_range s a b : 0 <= s -> 0 <= a < 2 ^ s -> 0 <= b < 2 ^ s -> 0 <= Z.land a b < 2 ^ s.
Proof.
  intros Hs Ha Hb. split; [apply Z.land_nonneg; lia|].
  assert (Z.land a b = Z.land a b mod 2 ^ s) as ->; [|apply Z.mod_pos_bound; lia].
  apply Z.bits_inj'. intros i Hi. destruct (Z.ltb_spec i s).
  - by rewrite Z.mod_pow2_bits_low by lia.
  - rewrite Z.mod_pow2_bits_high by lia. rewrite Z.land_spec.
    rewrite <- (Z.mod_small a (2 ^ s)) by lia. by rewrite Z.mod_pow2_bits_high by lia.
Qed.

Lemma lxor_range s a b : 0 <= s -> 0 <= a < 2 ^ s -> 0 <= b < 2 ^ s -> 0 <= Z.lxor a b < 2 ^ s.
Proof.
  intros Hs Ha Hb. split; [apply Z.lxor_nonneg; lia|].
  assert (Z.lxor a b = Z.lxor a b mod 2 ^ s) as ->; [|apply Z.mod_pos_bound; lia].
  apply Z.bits_inj'. intros i Hi. destruct (Z.ltb_spec i s).
  - by rewrite Z.mod_pow2_bits_low by lia.
  - rewrite Z.mod_pow2_bits_high by lia. rewrite Z.lxor_spec.
    rewrite <- (Z.mod_small a (2 ^ s)), <- (Z.mod_small b (2 ^ s)) by lia.
    by rewrite !Z.mod_pow2_bits_high by lia.
Qed.

Lemma land_low_high s a b m n :
  0 <= s -> 0 <= a < 2 ^ s -> 0 <= b < 2 ^ s ->
  Z.land (a + 2 ^ s * m) (b + 2 ^ s * n) = Z.land a b + 2 ^ s * Z.land m n.
Proof. intros. apply (bitop_low_high Z.land andb); auto using land_range. apply Z.land_spec. Qed.

Lemma lxor_low_high s a b m n :
  0 <= s -> 0 <= a < 2 ^ s -> 0 <= b < 2 ^ s ->
  Z.lxor (a + 2 ^ s * m) (b + 2 ^ s * n) = Z.lxor a b + 2 ^ s * Z.lxor m n.
Proof. intros. apply (bitop_low_high Z.lxor xorb); auto using lxor_range. apply Z.lxor_spec. Qed.

(** * Masks *)

(** The indexes that are marked. *)
Fixpoint trues (bs : list bool) : list nat :=
  match bs with
  | [] => []
  | b :: bs => (if b : bool then [O] else []) ++ (S <$> trues bs)
  end.

(** The mask without its first mark. *)
Fixpoint clear_first (bs : list bool) : list bool :=
  match bs with
  | [] => []
  | true :: bs => false :: bs
  | false :: bs => false :: clear_first bs
  end.

Lemma trues_clear bs : trues (clear_first bs) = tail (trues bs).
Proof. induction bs as [|[] bs IH]; cbn; [done|done|]. rewrite IH. by destruct (trues bs). Qed.

Lemma length_clear bs : length (clear_first bs) = length bs.
Proof. induction bs as [|[] bs IH]; cbn; congruence. Qed.

Lemma elem_of_trues bs i : i ∈ trues bs <-> bs !! i = Some true.
Proof.
  revert i. induction bs as [|b bs IH]; intros i; cbn; [set_solver|].
  rewrite elem_of_app, list_elem_of_fmap. destruct i as [|i]; cbn.
  - destruct b; split; try (intros [?|(? & ? & ?)]); set_solver.
  - rewrite <- IH. destruct b; set_solver.
Qed.

Section Marked.
Context (s : Z) (Hs : 0 < s).

Lemma mark_nonneg bs : 0 <= mark s bs.
Proof.
  induction bs as [|b bs IH]; cbn; [lia|]. pose proof (Z.pow_pos_nonneg 2 (s - 1) ltac:(lia) ltac:(lia)).
  pose proof (Z.pow_pos_nonneg 2 s ltac:(lia) ltac:(lia)). destruct b; nia.
Qed.

Lemma digit_range (b : bool) : 0 <= (if b then 2 ^ (s - 1) else 0) < 2 ^ s.
Proof.
  pose proof (Z.pow_pos_nonneg 2 (s - 1) ltac:(lia) ltac:(lia)).
  replace (2 ^ s) with (2 * 2 ^ (s - 1)); [destruct b; lia|].
  rewrite <- Z.pow_succ_r by lia. f_equal. lia.
Qed.

(** A mask with a first mark: [2 ^ a] times an odd number. *)
Lemma mark_first bs i :
  head (trues bs) = Some i ->
  exists r, 0 <= r /\ mark s bs = 2 ^ (s * Z.of_nat i + (s - 1)) * (2 * r + 1)
            /\ mark s (clear_first bs) = 2 ^ (s * Z.of_nat i + (s - 1)) * (2 * r).
Proof.
  revert i. induction bs as [|b bs IH]; intros i; cbn; [done|].
  assert (2 ^ s = 2 * 2 ^ (s - 1)) as E2 by (rewrite <- Z.pow_succ_r by lia; f_equal; lia).
  destruct b; cbn.
  - intros [= <-]. exists (mark s bs). split; [apply mark_nonneg|].
    rewrite Z.mul_0_r, Z.add_0_l. split; rewrite E2; ring.
  - destruct (trues bs) as [|j js]; [done|]. intros [= <-].
    destruct (IH j eq_refl) as (r & Hr & E & Ec). exists r. rewrite E, Ec. split; [done|].
    replace (s * Z.of_nat (S j) + (s - 1)) with (s + (s * Z.of_nat j + (s - 1))) by lia.
    rewrite (Z.pow_add_r 2 s) by lia. split; ring.
Qed.

Lemma mark_none bs : trues bs = [] -> mark s bs = 0.
Proof.
  induction bs as [|[] bs IH]; cbn; [done|done|]. intros E. rewrite IH; [ring|]. by destruct (trues bs).
Qed.

Lemma mark_zero bs : mark s bs = 0 <-> trues bs = [].
Proof.
  split; [|apply mark_none]. destruct (trues bs) as [|i l] eqn:E; [done|].
  destruct (mark_first bs i) as (r & Hr & -> & _); [by rewrite E|]. intros Hz. exfalso.
  pose proof (Z.pow_pos_nonneg 2 (s * Z.of_nat i + (s - 1)) ltac:(lia) ltac:(lia)). nia.
Qed.

(** ** Lowest bit *)
Lemma ctz_zero w : ctz w 0 = Z.of_nat w.
Proof. induction w as [|w IH]; [done|]. cbn -[Z.of_nat]. rewrite Zdiv_0_l, IH. lia. Qed.

Lemma ctz_odd w a r : (a < w)%nat -> ctz w (2 ^ Z.of_nat a * (2 * r + 1)) = Z.of_nat a.
Proof.
  revert w. induction a as [|a IH]; intros [|w] Hw; try lia; cbn [ctz].
  - rewrite Z.mul_1_l. rewrite Z.add_comm, Z.odd_add_mul_2. done.
  - replace (Z.of_nat (S a)) with (Z.succ (Z.of_nat a)) by lia. rewrite Z.pow_succ_r, <- Z.mul_assoc by lia.
    rewrite Z.odd_mul. cbn [Z.odd andb]. rewrite Z.mul_comm, Z.div_mul, IH by lia. lia.
Qed.

Lemma remove_lowest a r : 0 <= a -> 0 <= r ->
  Z.land (2 ^ a * (2 * r + 1)) (2 ^ a * (2 * r + 1) - 1) = 2 ^ a * (2 * r).
Proof.
  intros Ha Hr. pose proof (Z.pow_pos_nonneg 2 a ltac:(lia) ltac:(lia)).
  replace (2 ^ a * (2 * r + 1)) with (0 + 2 ^ a * (2 * r + 1)) at 1 by lia.
  replace (2 ^ a * (2 * r + 1) - 1) with ((2 ^ a - 1) + 2 ^ a * (2 * r)) by lia.
  rewrite land_low_high by lia. rewrite Z.land_0_l, Z.add_0_l. f_equal.
  rewrite (Z.add_comm _ 1). change 2 with (2 ^ 1).
  replace (2 ^ 1 * r) with (0 + 2 ^ 1 * r) at 2 by lia.
  rewrite land_low_high by lia. rewrite Z.land_diag. done.
Qed.
End Marked.

(** ** The operations of [BitMask] *)
Section Ops.
Context `{GroupLaws}.

Lemma width_bounds : (8 <= WIDTH <= 16)%nat.
Proof. destruct width_pos as (k & E & Hk). assert (k = 3 \/ k = 4) as [->| ->] by lia; lia. Qed.

Context (bs : list bool) (Hlen : length bs = WIDTH).

Lemma trues_bound i : i ∈ trues bs -> (i < WIDTH)%nat.
Proof. rewrite elem_of_trues, <- Hlen. apply lookup_lt_Some. Qed.

Lemma trailing_zeros_mark :
  trailing_zeros (mark BITMASK_STRIDE bs)
  = match head (trues bs) with Some i => Z.of_nat i | None => Z.of_nat WIDTH end.
Proof.
  pose proof stride_pos as Hs. unfold trailing_zeros. destruct (trues bs) as [|i l] eqn:E; cbn [head].
  - rewrite mark_none, ctz_zero, word_width by done. by rewrite Z.div_mul by lia.
  - destruct (mark_first BITMASK_STRIDE Hs bs i) as (r & Hr & -> & _); [by rewrite E|].
    assert (i < WIDTH)%nat as Hi by (apply trues_bound; rewrite E; by left).
    replace (BITMASK_STRIDE * Z.of_nat i + (BITMASK_STRIDE - 1))
      with (Z.of_nat (Z.to_nat (BITMASK_STRIDE * Z.of_nat i + (BITMASK_STRIDE - 1)))) by nia.
    rewrite ctz_odd; [|pose proof word_width; nia].
    rewrite Z2Nat.id by nia. rewrite Z.mul_comm, Z.div_add_l, Z.div_small by lia. lia.
Qed.

Lemma lowest_set_bit_mark :
  lowest_set_bit (mark BITMASK_STRIDE bs) = Z.of_nat <$> head (trues bs).
Proof.
  unfold lowest_set_bit. pose proof (mark_zero BITMASK_STRIDE stride_pos bs) as Hz.
  rewrite trailing_zeros_mark. destruct (Z.eqb_spec (mark BITMASK_STRIDE bs) 0) as [E|E].
  - apply Hz in E. by rewrite E.
  - destruct (trues bs); [tauto|done].
Qed.

Lemma remove_lowest_bit_mark :
  remove_lowest_bit (mark BITMASK_STRIDE bs) = mark BITMASK_STRIDE (clear_first bs).
Proof.
  pose proof stride_pos as Hs. unfold remove_lowest_bit. destruct (trues bs) as [|i l] eqn:E.
  - rewrite mark_none by done. symmetry. apply mark_none. by rewrite trues_clear, E.
  - destruct (mark_first BITMASK_STRIDE Hs bs i) as (r & Hr & -> & ->); [by rewrite E|].
    apply remove_lowest; nia.
Qed.

Lemma any_bit_set_mark :
  any_bit_set (mark BITMASK_STRIDE bs) = bool_decide (trues bs <> []).
Proof.
  unfold any_bit_set. pose proof (mark_zero BITMASK_STRIDE stride_pos bs) as Hz.
  destruct (Z.eqb_spec (mark BITMASK_STRIDE bs) 0); case_bool_decide; tauto.
Qed.
End Ops.

Section Iteration.
Context `{GroupLaws}.

Lemma mask_iter_mark fuel bs :
  length bs = WIDTH -> (length (trues bs) <= fuel)%nat ->
  mask_iter fuel (mark BITMASK_STRIDE bs) = Z.of_nat <$> trues bs.
Proof.
  revert bs. induction fuel as [|fuel IH]; intros bs Hl Hf; cbn [mask_iter].
  - by destruct (trues bs); [|cbn in Hf; lia].
  - rewrite lowest_set_bit_mark, remove_lowest_bit_mark by done.
    destruct (trues bs) as [|i l] eqn:E; [done|]. cbn [head fmap option_fmap option_map list_fmap].
    rewrite IH, trues_clear, E; [done|by rewrite length_clear|]. rewrite trues_clear, E. cbn in *. lia.
Qed.

Lemma length_trues bs : (length (trues bs) <= length bs)%nat.
Proof.
  induction bs as [|b bs IH]; cbn; [lia|]. rewrite length_app, length_fmap. destruct b; cbn; lia.
Qed.

Lemma into_iter_mark bs :
  length bs = WIDTH -> into_iter (mark BITMASK_STRIDE bs) = Z.of_nat <$> trues bs.
Proof. intros Hl. apply mask_iter_mark; [done|]. rewrite <- Hl. apply length_trues. Qed.

(** ** Highest bit *)

(** How many bytes at the end are not marked. *)
Fixpoint tail_false (bs : list bool) : nat :=
  match bs with
  | [] => 0
  | b :: bs => if bool_decide (trues bs = []) then if b : bool then length bs else S (length bs) else tail_false bs
  end.

Lemma tail_false_none bs : trues bs = [] -> tail_false bs = length bs.
Proof. destruct bs as [|[] bs]; cbn; [done|done|]. destruct (trues bs) eqn:E; [|done]. by rewrite bool_decide_true. Qed.

Lemma log2_mark s bs :
  0 < s -> trues bs <> [] ->
  Z.log2 (mark s bs) = s * Z.of_nat (length bs - tail_false bs) - 1.
Proof.
  intros Hs. assert (2 ^ s = 2 * 2 ^ (s - 1)) as E2 by (rewrite <- Z.pow_succ_r by lia; f_equal; lia).
  induction bs as [|b bs IH]; intros Hne; cbn [trues mark tail_false length] in *; [done|].
  destruct (trues bs) as [|i l] eqn:E.
  - rewrite bool_decide_true by done. rewrite mark_none by done. destruct b; [|done].
    rewrite Z.mul_0_r, Z.add_0_r, Z.log2_pow2 by lia.
    replace (S (length bs) - length bs)%nat with 1%nat by lia. lia.
  - rewrite bool_decide_false by done. specialize (IH ltac:(done)).
    assert (mark s bs <> 0) as Hm by (rewrite mark_zero, E by lia; done).
    pose proof (mark_nonneg s ltac:(lia) bs).
    assert (Z.log2 ((if b then 2 ^ (s - 1) else 0) + 2 ^ s * mark s bs) = s + Z.log2 (mark s bs)) as ->.
    { pose proof (digit_range s ltac:(lia) b) as Hd. pose proof (Z.log2_spec (mark s bs) ltac:(lia)) as [Hlo Hhi].
      apply Z.log2_unique; [pose proof (Z.log2_nonneg (mark s bs)); lia|].
      pose proof (Z.pow_pos_nonneg 2 s ltac:(lia) ltac:(lia)).
      replace (Z.succ (s + Z.log2 (mark s bs))) with (s + Z.succ (Z.log2 (mark s bs))) by lia.
      rewrite !Z.pow_add_r by (try apply Z.log2_nonneg; pose proof (Z.log2_nonneg (mark s bs)); lia). split; nia. }
    rewrite IH. pose proof (Z.log2_nonneg (mark s bs)).
    assert (tail_false bs <= length bs)%nat as Ht.
    { destruct (le_gt_dec (tail_false bs) (length bs)); [done|]. replace (length bs - tail_false bs)%nat with 0%nat in IH by lia. lia. }
    replace (S (length bs) - tail_false bs)%nat with (S (length bs - tail_false bs)) by lia. lia.
Qed.

Lemma tail_false_bound bs : (tail_false bs <= length bs)%nat.
Proof. induction bs as [|b bs IH]; cbn; [done|]. case_bool_decide; [destruct b; lia|lia]. Qed.

Lemma leading_zeros_mark bs :
  length bs = WIDTH -> leading_zeros (mark BITMASK_STRIDE bs) = Z.of_nat (tail_false bs).
Proof.
  intros Hl. pose proof stride_pos as Hs. unfold leading_zeros, clz.
  destruct (Z.eqb_spec (mark BITMASK_STRIDE bs) 0) as [E|E].
  - apply mark_zero in E; [|done]. rewrite tail_false_none, Hl, word_width by done. by rewrite Z.div_mul by lia.
  - rewrite mark_zero in E by done. rewrite log2_mark, word_width by done.
    pose proof (tail_false_bound bs). rewrite <- Hl.
    replace (_ - 1 - _) with (Z.of_nat (tail_false bs) * BITMASK_STRIDE) by nia. by rewrite Z.div_mul by lia.
Qed.

(** ** Inversion *)
Lemma invert_mark bs :
  length bs = WIDTH -> invert (mark BITMASK_STRIDE bs) = mark BITMASK_STRIDE (negb <$> bs).
Proof.
  intros Hl. pose proof stride_pos as Hs. unfold invert. rewrite mask_all, <- Hl. clear Hl.
  induction bs as [|b bs IH]; [done|]. cbn [length replicate mark fmap list_fmap].
  rewrite lxor_low_high by (try apply (digit_range _ Hs _); try apply (digit_range _ Hs true); lia).
  change (list_fmap bool bool negb bs) with (negb <$> bs). rewrite IH. f_equal.
  destruct b; cbn [negb]; [apply Z.lxor_nilpotent|apply Z.lxor_0_l].
Qed.
End Iteration.

(** * sse2.rs *)

(** Facts on bytes, by trying them all. *)
Lemma all_bytes (P : Z -> bool) :
  forallb P (Z.of_nat <$> seq 0 256) = true -> forall c, 0 <= c < 256 -> P c = true.
Proof.
  rewrite forallb_forall. intros HP c Hc. apply HP. apply list_elem_of_In, list_elem_of_fmap.
  exists (Z.to_nat c). rewrite elem_of_seq. split; lia.
Qed.

Lemma is_ctrl_byte c : is_ctrl c -> 0 <= c < 256.
Proof. unfold is_ctrl, EMPTY, DELETED. lia. Qed.

Lemma is_full_small c : 0 <= c < 128 -> is_full c = true.
Proof.
  intros Hc. assert (0 <= c < 256) as Hb by lia.
  apply (all_bytes (fun c => (128 <=? c) || is_full c)) in Hb; [|by vm_compute].
  destruct (Z.leb_spec 128 c); [lia|done].
Qed.

Lemma movemask_mark g : movemask g = mark 1 ((fun c => negb (is_full c)) <$> g).
Proof.
  induction g as [|b g IH]; [done|]. cbn [movemask fmap list_fmap mark].
  change (list_fmap Z bool _ g) with ((fun c => negb (is_full c)) <$> g). rewrite <- IH.
  unfold is_full. by destruct (Z.land b 128 =? 0).
Qed.

Lemma cmpeq_mark g b : movemask (cmpeq g b) = mark 1 ((fun c => c =? b) <$> g).
Proof.
  rewrite movemask_mark. unfold cmpeq. rewrite <- list_fmap_compose. f_equal. apply list_fmap_ext.
  intros i c _. cbn. by destruct (c =? b).
Qed.

#[export] Instance sse2_laws : GroupLaws Sse2.group.
Proof.
  split.
  - by exists 4.
  - done.
  - done.
  - done.
  - intros g b Hl Hg Hb. eexists. split; [apply cmpeq_mark|]. split; [by rewrite length_fmap|].
    intros i c Hi. rewrite list_lookup_fmap, Hi. cbn. split.
    + intros ->. by rewrite Z.eqb_refl.
    + intros [= ->%Z.eqb_eq]. by apply is_full_small.
  - intros g Hl Hg. apply cmpeq_mark.
  - intros g Hl Hg. apply movemask_mark.
  - intros g Hl Hg. cbn. unfold Sse2.convert_special_to_empty_and_full_to_deleted, cmpgt_zero.
    rewrite <- list_fmap_compose. apply list_fmap_ext. intros i c Hi.
    apply (Forall_lookup_1 _ _ _ _ Hg) in Hi. apply is_ctrl_byte in Hi.
    apply (all_bytes (fun c => Z.lor (if 0 >? swrap 8 c then 255 else 0) 128 =? (if is_full c then DELETED else EMPTY)))
      in Hi; [|vm_compute; done]. by apply Z.eqb_eq in Hi.
Qed.

(** * generic.rs *)
Local Notation bytes g := (Forall is_byte g).

Lemma word_range g : bytes g -> 0 <= word_of g < 256 ^ Z.of_nat (length g).
Proof.
  induction 1 as [|b g Hb Hg IH]; cbn [word_of length]; [done|].
  replace (Z.of_nat (S (length g))) with (Z.succ (Z.of_nat (length g))) by lia.
  rewrite Z.pow_succ_r by lia. unfold is_byte in Hb. lia.
Qed.

Lemma bytes_of_word g : bytes g -> bytes_of (length g) (word_of g) = g.
Proof.
  induction 1 as [|b g Hb Hg IH]; cbn [word_of length bytes_of]; [done|]. unfold is_byte in Hb. f_equal.
  - rewrite (Z.mul_comm 256), Z_mod_plus_full. by apply Z.mod_small.
  - rewrite (Z.mul_comm 256), Z.div_add, Z.div_small by lia. by rewrite Z.add_0_l.
Qed.

(** Operations on words, byte by byte. *)
Lemma word_land g k :
  bytes g -> bytes k -> length g = length k -> Z.land (word_of g) (word_of k) = word_of (zip_with Z.land g k).
Proof.
  intros Hg. revert k. induction Hg as [|b g Hb Hg IH]; intros [|c k] Hk Hl; try done.
  inversion Hk; subst. cbn [word_of zip_with]. change 256 with (2 ^ 8).
  rewrite land_low_high by (done || lia). rewrite IH by (auto; cbn in Hl; lia). done.
Qed.

Lemma word_lxor g k :
  bytes g -> bytes k -> length g = length k -> Z.lxor (word_of g) (word_of k) = word_of (zip_with Z.lxor g k).
Proof.
  intros Hg. revert k. induction Hg as [|b g Hb Hg IH]; intros [|c k] Hk Hl; try done.
  inversion Hk; subst. cbn [word_of zip_with]. change 256 with (2 ^ 8).
  rewrite lxor_low_high by (done || lia). rewrite IH by (auto; cbn in Hl; lia). done.
Qed.

Lemma word_not g : length g = 8%nat -> unot 64 (word_of g) = word_of ((fun c => 255 - c) <$> g).
Proof.
  intros Hl. do 8 (destruct g as [|? g]; [done|]). destruct g; [|done].
  cbn [word_of fmap list_fmap]. unfold unot, umax. lia.
Qed.

Lemma bytes_fmap (f : Z -> Z) g : (forall c, is_byte c -> is_byte (f c)) -> bytes g -> bytes (f <$> g).
Proof. intros Hf Hg. induction Hg; cbn; constructor; auto. Qed.

Lemma zip_replicate (op : Z -> Z -> Z) g n b :
  length g = n -> zip_with op g (replicate n b) = (fun c => op c b) <$> g.
Proof. intros <-. induction g as [|c g IH]; [done|]. cbn. by rewrite IH. Qed.

Lemma mark_word bs : mark 8 bs = word_of ((fun b : bool => if b then 128 else 0) <$> bs).
Proof.
  induction bs as [|b bs IH]; [done|]. cbn [mark fmap list_fmap word_of].
  change (list_fmap bool Z _ bs) with ((fun b : bool => if b then 128 else 0) <$> bs). by rewrite <- IH.
Qed.

Lemma bytes_replicate n b : is_byte b -> bytes (replicate n b).
Proof. intros. by apply Forall_replicate. Qed.

(** Keeping the top bit of each byte. *)
Lemma word_land_top g :
  bytes g -> length g = 8%nat -> Z.land (word_of g) (Generic.repeat 128) = mark 8 ((fun c => negb (is_full c)) <$> g).
Proof.
  intros Hg Hl. unfold Generic.repeat. rewrite word_land, zip_replicate, mark_word
    by (try done; by apply bytes_replicate || by rewrite length_replicate).
  rewrite <- list_fmap_compose. f_equal. apply list_fmap_ext. intros i c Hi.
  apply (Forall_lookup_1 _ _ _ _ Hg) in Hi.
  apply (all_bytes (fun c => Z.land c 128 =? (if negb (is_full c) then 128 else 0))) in Hi; [|by vm_compute].
  by apply Z.eqb_eq in Hi.
Qed.

(** Subtracting one from every byte: the digits, and the borrow that leaves. *)
Fixpoint minus_ones (borrow : bool) (g : list Z) : list Z * bool :=
  match g with
  | [] => ([], borrow)
  | c :: g =>
      let d := c - 1 - (if borrow then 1 else 0) in
      let '(ds, out) := minus_ones (d <? 0) g in (d mod 256 :: ds, out)
  end.

Lemma borrow_digit d : -256 <= d < 256 -> d = d mod 256 - 256 * (if d <? 0 then 1 else 0).
Proof.
  intros Hd. destruct (Z.ltb_spec d 0); [|rewrite Z.mod_small; lia].
  rewrite <- (Z_mod_plus_full d 1 256), Z.mod_small by lia. lia.
Qed.

Lemma minus_ones_spec (borrow : bool) g :
  bytes g ->
  word_of g - word_of (replicate (length g) 1) - (if borrow then 1 else 0)
  = word_of (minus_ones borrow g).1 - 256 ^ Z.of_nat (length g) * (if (minus_ones borrow g).2 then 1 else 0).
Proof.
  intros Hg. revert borrow. induction Hg as [|c g Hc Hg IH]; intros borrow.
  - by destruct borrow.
  - cbn [minus_ones word_of length replicate].
    set (d := c - 1 - (if borrow then 1 else 0)). specialize (IH (d <? 0)).
    destruct (minus_ones (d <? 0) g) as [ds out]. cbn [fst snd word_of] in *.
    replace (Z.of_nat (S (length g))) with (Z.succ (Z.of_nat (length g))) by lia. rewrite Z.pow_succ_r by lia.
    assert (d = d mod 256 - 256 * (if d <? 0 then 1 else 0)) as Hd.
    { apply borrow_digit. unfold is_byte in Hc. unfold d. destruct borrow; lia. }
    unfold d in Hd at 1. lia.
Qed.

Lemma minus_ones_bytes (borrow : bool) g : bytes (minus_ones borrow g).1 /\ length (minus_ones borrow g).1 = length g.
Proof.
  revert borrow. induction g as [|c g IH]; intros borrow; cbn; [done|].
  specialize (IH (c - 1 - (if borrow then 1 else 0) <? 0)).
  destruct (minus_ones _ g) as [ds out]. cbn in *. destruct IH. split; [|lia].
  constructor; [apply Z.mod_pos_bound; lia|done].
Qed.

Lemma minus_ones_digit (borrow : bool) g i d :
  (minus_ones borrow g).1 !! i = Some d ->
  exists c (b : bool), g !! i = Some c /\ d = (c - 1 - (if b then 1 else 0)) mod 256.
Proof.
  revert borrow i. induction g as [|c g IH]; intros borrow i; cbn; [done|].
  specialize (IH (c - 1 - (if borrow then 1 else 0) <? 0)). destruct (minus_ones _ g) as [ds out].
  destruct i as [|i]; cbn in *; [intros [= <-]; eauto|apply IH].
Qed.

(** Doubling a word: the digits, and the carry that leaves. *)
Fixpoint doubles (carry : bool) (g : list Z) : list Z * bool :=
  match g with
  | [] => ([], carry)
  | c :: g =>
      let '(ds, out) := doubles (128 <=? c) g in
      ((2 * c + (if carry then 1 else 0)) mod 256 :: ds, out)
  end.

Lemma doubles_spec (carry : bool) g :
  bytes g ->
  2 * word_of g + (if carry then 1 else 0)
  = word_of (doubles carry g).1 + 256 ^ Z.of_nat (length g) * (if (doubles carry g).2 then 1 else 0).
Proof.
  intros Hg. revert carry. induction Hg as [|c g Hc Hg IH]; intros carry.
  - by destruct carry.
  - cbn [doubles word_of length]. specialize (IH (128 <=? c)). destruct (doubles _ g) as [ds out].
    cbn [fst snd word_of] in *.
    replace (Z.of_nat (S (length g))) with (Z.succ (Z.of_nat (length g))) by lia. rewrite Z.pow_succ_r by lia.
    assert ((2 * c + (if carry then 1 else 0)) mod 256
            = 2 * c + (if carry then 1 else 0) - 256 * (if 128 <=? c then 1 else 0)) as ->.
    { unfold is_byte in Hc. destruct (Z.leb_spec 128 c).
      - rewrite <- (Z_mod_plus_full _ (-1)), Z.mod_small; destruct carry; lia.
      - rewrite Z.mod_small; destruct carry; lia. }
    lia.
Qed.

Lemma doubles_bytes (carry : bool) g : bytes (doubles carry g).1 /\ length (doubles carry g).1 = length g.
Proof.
  revert carry. induction g as [|c g IH]; intros carry; cbn; [done|]. specialize (IH (128 <=? c)).
  destruct (doubles _ g) as [ds out]. cbn in *. destruct IH. split; [|lia].
  constructor; [apply Z.mod_pos_bound; lia|done].
Qed.

Lemma doubles_digit (carry : bool) g i d :
  (doubles carry g).1 !! i = Some d ->
  exists c (b : bool), g !! i = Some c /\ d = (2 * c + (if b then 1 else 0)) mod 256.
Proof.
  revert carry i. induction g as [|c g IH]; intros carry i; cbn; [done|].
  specialize (IH (128 <=? c)). destruct (doubles _ g) as [ds out].
  destruct i as [|i]; cbn in *; [intros [= <-]; eauto|apply IH].
Qed.

Lemma wrap_word g z : bytes g -> length g = 8%nat -> wrap 64 (word_of g + 256 ^ 8 * z) = word_of g.
Proof.
  intros Hg Hl. pose proof (word_range g Hg) as Hr. rewrite Hl in Hr. unfold wrap.
  change (256 ^ 8) with (2 ^ 64). rewrite Z.mul_comm, Z_mod_plus_full. by apply Z.mod_small.
Qed.

Lemma is_ctrl_bytes g : Forall is_ctrl g -> bytes g.
Proof. apply Forall_impl. apply is_ctrl_byte. Qed.

Lemma zip_with_bytes g k : bytes g -> bytes k -> bytes (zip_with Z.land g k).
Proof.
  intros Hg. revert k. induction Hg as [|b g Hb Hg IH]; intros [|c k] Hk; cbn; try constructor.
  - inversion Hk; subst. apply (land_range 8); done.
  - inversion Hk; subst. auto.
Qed.

Lemma lxor_byte b c : is_byte b -> is_byte c -> is_byte (Z.lxor c b).
Proof. intros. by apply (lxor_range 8). Qed.

Lemma generic_match_byte g b :
  length g = 8%nat -> Forall is_ctrl g -> 0 <= b < 128 ->
  exists bs, Generic.match_byte g b = mark 8 bs /\ marks g b bs.
Proof.
  intros Hl Hg%is_ctrl_bytes Hb. unfold Generic.match_byte. cbv zeta. assert (is_byte b) as Hb' by (unfold is_byte; lia).
  set (cs := (fun c => Z.lxor c b) <$> g).
  assert (Z.lxor (word_of g) (Generic.repeat b) = word_of cs) as ->.
  { unfold Generic.repeat. by rewrite word_lxor, zip_replicate
      by (try done; by apply bytes_replicate || by rewrite length_replicate). }
  assert (bytes cs) as Hcs by (apply bytes_fmap; auto using lxor_byte).
  assert (length cs = 8%nat) as Hlc by (unfold cs; by rewrite length_fmap).
  pose proof (minus_ones_spec false cs Hcs) as E. rewrite Hlc, Z.sub_0_r in E.
  destruct (minus_ones_bytes false cs) as [Hds Hld]. rewrite Hlc in Hld.
  pose proof (minus_ones_digit false cs) as Hdig.
  destruct (minus_ones false cs) as [ds out]. cbn [fst snd] in *.
  change (Generic.repeat 1) with (word_of (replicate 8 1)). rewrite E.
  replace (word_of ds - 256 ^ Z.of_nat 8 * _) with (word_of ds + 256 ^ 8 * - (if out then 1 else 0)) by (cbn; lia).
  rewrite wrap_word, word_not by done.
  assert (bytes ((fun c => 255 - c) <$> cs)) as Hn by (apply bytes_fmap; [unfold is_byte; lia|done]).
  rewrite word_land, word_land_top; auto using zip_with_bytes.
  2: by rewrite length_zip_with, length_fmap, Hlc, Hld.
  2: by rewrite length_fmap, Hlc.
  eexists. split; [done|]. split; [rewrite length_fmap, length_zip_with, length_fmap, Hlc, Hld; by rewrite Hl|].
  intros i c Hi.
  destruct (lookup_lt_is_Some_2 ds i) as [d Hd]; [rewrite Hld, <- Hl; by eapply lookup_lt_Some|].
  destruct (Hdig i d Hd) as (x & bo & Hx & ->).
  assert (x = Z.lxor c b) as ->.
  { unfold cs in Hx. rewrite list_lookup_fmap, Hi in Hx. by injection Hx as <-. }
  rewrite list_lookup_fmap, lookup_zip_with, Hd. cbn. rewrite list_lookup_fmap, Hx. cbn.
  assert (is_byte c) as Hc by (by apply (Forall_lookup_1 _ _ _ _ Hg Hi)).
  pose proof (lxor_byte b c Hb' Hc) as Hxb.
  apply (all_bytes (fun x => let t := negb (is_full (Z.land ((x - 1 - (if bo then 1 else 0)) mod 256) (255 - x))) in
                             implb (x =? 0) t && implb t (x <=? 1))) in Hxb;
    [|destruct bo; by vm_compute].
  apply andb_prop in Hxb as [H0 H1]. split.
  - intros ->. by rewrite Z.lxor_nilpotent in H0 |- *; destruct bo.
  - intros [= Ht]. rewrite Ht in H1. cbn in H1. apply Z.leb_le in H1.
    assert (0 <= Z.lxor c b) by (by apply lxor_byte).
    assert (c = Z.lxor (Z.lxor c b) b) as Ec by (by rewrite Z.lxor_assoc, Z.lxor_nilpotent, Z.lxor_0_r).
    assert (Z.lxor c b = 0 \/ Z.lxor c b = 1) as [E1|E1] by lia; rewrite Ec, E1.
    + rewrite Z.lxor_0_l. by apply is_full_small.
    + apply is_full_small. apply (all_bytes (fun b => (128 <=? b) || ((0 <=? Z.lxor 1 b) && (Z.lxor 1 b <? 128)))) in Hb';
        [|by vm_compute]. destruct (Z.leb_spec 128 b); [lia|]. cbn in Hb'. lia.
Qed.

Lemma generic_match_empty g :
  length g = 8%nat -> Forall is_ctrl g ->
  Generic.match_empty g = mark 8 ((fun c => c =? EMPTY) <$> g).
Proof.
  intros Hl Hc. pose proof (is_ctrl_bytes g Hc) as Hg. unfold Generic.match_empty. cbv zeta.
  rewrite Z.shiftl_mul_pow2 by lia. change (2 ^ 1) with 2. rewrite (Z.mul_comm (word_of g) 2).
  pose proof (doubles_spec false g Hg) as E. rewrite Hl, Z.add_0_r in E.
  destruct (doubles_bytes false g) as [Hds Hld]. rewrite Hl in Hld.
  pose proof (doubles_digit false g) as Hdig. destruct (doubles false g) as [ds out]. cbn [fst snd] in *.
  rewrite E. change (Z.of_nat 8) with 8. rewrite wrap_word, word_land, word_land_top
    by (auto using zip_with_bytes; rewrite ?length_zip_with; lia).
  f_equal. apply list_eq. intros i. rewrite !list_lookup_fmap, lookup_zip_with.
  destruct (g !! i) as [c|] eqn:Hi; [|done]. cbn.
  destruct (lookup_lt_is_Some_2 ds i) as [d Hd]; [rewrite Hld, <- Hl; by eapply lookup_lt_Some|].
  rewrite Hd. cbn. destruct (Hdig i d Hd) as (x & bo & Hx & ->). rewrite Hi in Hx. injection Hx as <-. f_equal.
  pose proof (Forall_lookup_1 _ _ _ _ Hc Hi) as Hx.
  assert (0 <= c < 256) as Hb by (by apply is_ctrl_byte).
  apply (all_bytes (fun c => (128 <? c) && (c <? 255) || Bool.eqb (negb (is_full (Z.land c ((2 * c + (if bo then 1 else 0)) mod 256)))) (c =? EMPTY))) in Hb;
    [|destruct bo; by vm_compute].
  assert ((128 <? c) && (c <? 255) = false) as Hs by (unfold is_ctrl, EMPTY, DELETED in Hx; lia).
  rewrite Hs in Hb. by apply Bool.eqb_prop in Hb.
Qed.

Lemma generic_convert g :
  length g = 8%nat -> Forall is_ctrl g ->
  Generic.convert_special_to_empty_and_full_to_deleted g = (fun c => if is_full c then DELETED else EMPTY) <$> g.
Proof.
  intros Hl Hg%is_ctrl_bytes. unfold Generic.convert_special_to_empty_and_full_to_deleted. cbv zeta.
  rewrite word_not by done.
  assert (bytes ((fun c => 255 - c) <$> g)) as Hn by (apply bytes_fmap; [unfold is_byte; lia|done]).
  rewrite word_land_top, mark_word by (auto; by rewrite length_fmap).
  rewrite <- !list_fmap_compose.
  set (f := fun c => if is_full c then 1 else 0).
  assert ((((fun b : bool => if b then 128 else 0) ∘ (fun c => negb (is_full c))) ∘ (fun c => 255 - c)) <$> g
          = (fun c => 128 * f c) <$> g) as ->.
  { apply list_fmap_ext. intros i c Hi. apply (Forall_lookup_1 _ _ _ _ Hg) in Hi.
    apply (all_bytes (fun c => (if negb (is_full (255 - c)) then 128 else 0) =? 128 * f c)) in Hi; [|by vm_compute].
    by apply Z.eqb_eq in Hi. }
  rewrite word_not by (by rewrite length_fmap).
  assert (forall g, word_of ((fun c => 128 * f c) <$> g) = 128 * word_of (f <$> g)) as Hm.
  { clear. induction g as [|c g IH]; [done|]. rewrite !fmap_cons. cbn [word_of]. rewrite IH. ring. }
  rewrite Hm, Z.shiftr_div_pow2, Z.mul_comm by lia. change (2 ^ 7) with 128. rewrite Z.div_mul by lia.
  assert (forall g, word_of ((fun c => 255 - c) <$> ((fun c => 128 * f c) <$> g)) + word_of (f <$> g)
                    = word_of ((fun c => if is_full c then DELETED else EMPTY) <$> g)) as Hadd.
  { clear. induction g as [|c g IH]; [done|]. rewrite !fmap_cons. cbn [word_of]. rewrite <- IH.
    unfold f at 1 3, EMPTY, DELETED. destruct (is_full c); ring. }
  rewrite Hadd. set (r := _ <$> g).
  assert (bytes r) as Hr.
  { apply bytes_fmap; [|done]. intros c _. by destruct (is_full c). }
  assert (length r = 8%nat) as Hlr by (unfold r; by rewrite length_fmap).
  pose proof (wrap_word r 0 Hr Hlr) as Hw. rewrite Z.mul_0_r, Z.add_0_r in Hw. rewrite Hw, <- Hlr.
  by apply bytes_of_word.
Qed.

#[export] Instance generic_laws : GroupLaws Generic.group.
Proof.
  split.
  - by exists 3.
  - done.
  - done.
  - by vm_compute.
  - apply generic_match_byte.
  - apply generic_match_empty.
  - intros g Hl Hg%is_ctrl_bytes. by apply word_land_top.
  - apply generic_convert.
Qed.
