(* ===== verification/HashRaw.v ===== *)
(** HashRaw: the hash table of sgx_tstd/hashbrown/src/raw/mod.rs.

    [RawTable] and its [RawTableInner] are one record: the control bytes as they lie
    in memory (with the copy of the first ones at the end) and the buckets, which
    hold a value, that may be stale, or nothing yet.  A bucket is named by its index.

    Every operation returns an [exec]: [Overflow] and [OutOfMem] are what an
    infallible operation does when the capacity overflows or the allocator fails;
    [Panicked] is a failed [debug_assert] or arithmetic overflow, [Undefined] an access
    outside the table or to a bucket without a value, [Unended] a loop that went on
    beyond the number of groups or buckets.  The theorems of HashMapSpecs.v exclude the last three.

    Values are not dropped and hashers do not panic.  The allocator is asked only
    whether it can serve a layout; fresh memory holds zeros. *)
From Stdlib Require Import ZArith Lia.
From stdpp Require Import base numbers list option tactics.
From S2P Require Import Prelude HashGroup.
Local Open Scope Z_scope.

Inductive exec (A : Type) :=
| Ret (a : A)
| Overflow
| OutOfMem
| Panicked
| Undefined
| Unended.
Arguments Ret {A}. Arguments Overflow {A}. Arguments OutOfMem {A}.
Arguments Panicked {A}. Arguments Undefined {A}. Arguments Unended {A}.

#[export] Instance exec_ret : MRet exec := fun _ a => Ret a.
#[export] Instance exec_bind : MBind exec := fun _ _ k o =>
  match o with
  | Ret a => k a
  | Overflow => Overflow
  | OutOfMem => OutOfMem
  | Panicked => Panicked
  | Undefined => Undefined
  | Unended => Unended
  end.

Definition require (b : bool) : exec unit := if b then Ret tt else Panicked.

(** [usize] arithmetic *)
Definition usub (a b : Z) : exec Z := if a <? b then Panicked else Ret (a - b).
Definition uadd (a b : Z) : exec Z := if a + b <=? usize_max then Ret (a + b) else Panicked.
Definition checked (z : Z) : option Z := if z <=? usize_max then Some z else None.
Definition is_power_of_two (n : Z) : bool := bool_decide (n = 2 ^ Z.log2 n).
Definition next_power_of_two (n : Z) : exec Z :=
  let p := 2 ^ Z.log2_up n in if p <=? usize_max then Ret p else Panicked.

Inductive TryReserveError := CapacityOverflow | AllocError (size align : Z).
Inductive Fallibility := Fallible | Infallible.

Definition capacity_overflow {A} (f : Fallibility) : exec (result TryReserveError A) :=
  match f with Fallible => Ret (Err CapacityOverflow) | Infallible => Overflow end.
Definition alloc_err {A} (f : Fallibility) (size align : Z) : exec (result TryReserveError A) :=
  match f with Fallible => Ret (Err (AllocError size align)) | Infallible => OutOfMem end.

(** [?] on a fallible result *)
Definition try_ {A B} (m : exec (result TryReserveError A)) (k : A -> exec (result TryReserveError B))
    : exec (result TryReserveError B) :=
  r ← m; match r with Ok a => k a | Err e => Ret (Err e) end.
(** [match .. { Ok(x) => x, Err(_) => unreachable_unchecked() }] *)
Definition unwrap_unchecked {A} (m : exec (result TryReserveError A)) : exec A :=
  r ← m; match r with Ok a => Ret a | Err _ => Undefined end.

(** * Sizes *)
Definition capacity_to_buckets (cap : Z) : exec (option Z) :=
  _ ← require (negb (cap =? 0));
  if cap <? 8 then Ret (Some (if cap <? 4 then 4 else 8))
  else match checked (cap * 8) with
       | None => Ret None
       | Some c => p ← next_power_of_two (c / 7); Ret (Some p)
       end.

Definition bucket_mask_to_capacity (mask : Z) : Z :=
  if mask <? 8 then mask else ((mask + 1) / 8) * 7.

Record ProbeSeq := { pos : Z; stride : Z }.

(** The size and alignment of a value. *)
Record Layout := { l_size : Z; l_align : Z }.

Record RawTable (T : Type) := {
  bucket_mask : Z;
  ctrl : list Z;
  data : list (option T);
  growth_left : Z;
  items : Z
}.
Arguments bucket_mask {T}. Arguments ctrl {T}. Arguments data {T}.
Arguments growth_left {T}. Arguments items {T}.

Section Table.
Context `{Group}.
Local Notation W := (Z.of_nat WIDTH).

Definition move_next (p : ProbeSeq) (mask : Z) : exec ProbeSeq :=
  _ ← require (stride p <=? mask);
  let stride := stride p + W in
  Ret {| pos := Z.land (pos p + stride) mask; stride := stride |}.

(** [TableLayout] *)
Definition ctrl_align (l : Layout) : Z := Z.max (l_align l) W.
Definition calculate_layout_for (l : Layout) (buckets : Z) : exec (option (Z * Z)) :=
  _ ← require (is_power_of_two buckets);
  let a := ctrl_align l in
  Ret (match checked (l_size l * buckets) with
       | None => None
       | Some s =>
           match checked (s + (a - 1)) with
           | None => None
           | Some s =>
               let ctrl_offset := Z.land s (unot 64 (a - 1)) in
               match checked (ctrl_offset + (buckets + W)) with
               | None => None
               | Some len => Some (len, ctrl_offset)
               end
           end
       end).

Context {T : Type}.
Local Notation table := (RawTable T).

Definition with_ctrl (t : table) (c : list Z) : table :=
  {| bucket_mask := bucket_mask t; ctrl := c; data := data t;
     growth_left := growth_left t; items := items t |}.
Definition with_data (t : table) (d : list (option T)) : table :=
  {| bucket_mask := bucket_mask t; ctrl := ctrl t; data := d;
     growth_left := growth_left t; items := items t |}.
Definition with_growth_left (t : table) (n : Z) : table :=
  {| bucket_mask := bucket_mask t; ctrl := ctrl t; data := data t;
     growth_left := n; items := items t |}.
Definition with_items (t : table) (n : Z) : table :=
  {| bucket_mask := bucket_mask t; ctrl := ctrl t; data := data t;
     growth_left := growth_left t; items := n |}.

Definition buckets (t : table) : Z := bucket_mask t + 1.
Definition num_ctrl_bytes (t : table) : Z := bucket_mask t + 1 + W.
Definition is_empty_singleton (t : table) : bool := bucket_mask t =? 0.
Definition capacity (t : table) : exec Z := uadd (items t) (growth_left t).

(** * Memory *)
Definition read_ctrl (t : table) (i : Z) : exec Z :=
  _ ← require (i <? num_ctrl_bytes t);
  match ctrl t !! Z.to_nat i with Some c => Ret c | None => Undefined end.
Definition write_ctrl (t : table) (i : Z) (c : Z) : exec table :=
  _ ← require (i <? num_ctrl_bytes t);
  if i <? zlen (ctrl t) then Ret (with_ctrl t (<[Z.to_nat i := c]> (ctrl t))) else Undefined.

(** [Group::load(self.ctrl(i))] and [Group::load_aligned(self.ctrl(i))] *)
Definition load (t : table) (i : Z) : exec (list Z) :=
  _ ← require (i <? num_ctrl_bytes t);
  if i + W <=? zlen (ctrl t) then Ret (take WIDTH (drop (Z.to_nat i) (ctrl t))) else Undefined.
Definition load_aligned (t : table) (i : Z) : exec (list Z) :=
  _ ← require (i mod W =? 0); load t i.
(** [group.store_aligned(self.ctrl(i))] *)
Definition store_aligned (t : table) (i : Z) (g : list Z) : exec table :=
  _ ← require (i mod W =? 0);
  _ ← require (i <? num_ctrl_bytes t);
  if i + W <=? zlen (ctrl t)
  then Ret (with_ctrl t (take (Z.to_nat i) (ctrl t) ++ g ++ drop (Z.to_nat i + WIDTH) (ctrl t)))
  else Undefined.

(** A bucket: [self.bucket(i)], then [read], [as_ref] or [write]. *)
Definition check_bucket (t : table) (i : Z) : exec unit :=
  _ ← require (negb (bucket_mask t =? 0)); require (i <? buckets t).
Definition read_bucket (t : table) (i : Z) : exec T :=
  _ ← check_bucket t i;
  match data t !! Z.to_nat i with Some (Some x) => Ret x | _ => Undefined end.
Definition write_bucket (t : table) (i : Z) (x : T) : exec table :=
  _ ← check_bucket t i;
  if i <? zlen (data t) then Ret (with_data t (<[Z.to_nat i := Some x]> (data t))) else Undefined.

(** * Construction *)
Definition new_in : table :=
  {| bucket_mask := 0; ctrl := replicate WIDTH EMPTY; data := []; growth_left := 0; items := 0 |}.

(** [alloc size align]: whether the allocator has such a block. *)
Context (alloc : Z -> Z -> bool) (layout : Layout).

Definition new_uninitialized (n : Z) (f : Fallibility) : exec (result TryReserveError table) :=
  _ ← require (is_power_of_two n);
  l ← calculate_layout_for layout n;
  match l with
  | None => capacity_overflow f
  | Some (len, _) =>
      if negb (alloc len (ctrl_align layout)) then alloc_err f len (ctrl_align layout)
      else Ret (Ok {| bucket_mask := n - 1;
                      ctrl := replicate (Z.to_nat n + WIDTH) 0;
                      data := replicate (Z.to_nat n) None;
                      growth_left := bucket_mask_to_capacity (n - 1);
                      items := 0 |})
  end.

(** [self.ctrl(0).write_bytes(EMPTY, self.num_ctrl_bytes())] *)
Definition fill_empty (t : table) : exec table :=
  if num_ctrl_bytes t <=? zlen (ctrl t)
  then Ret (with_ctrl t (replicate (Z.to_nat (num_ctrl_bytes t)) EMPTY ++ drop (Z.to_nat (num_ctrl_bytes t)) (ctrl t)))
  else Undefined.

Definition fallible_with_capacity (cap : Z) (f : Fallibility) : exec (result TryReserveError table) :=
  if cap =? 0 then Ret (Ok new_in)
  else
    n ← capacity_to_buckets cap;
    match n with
    | None => capacity_overflow f
    | Some n =>
        try_ (new_uninitialized n f) (fun t => t ← fill_empty t; Ret (Ok t))
    end.

Definition with_capacity_in (cap : Z) : exec table :=
  unwrap_unchecked (fallible_with_capacity cap Infallible).

(** * Control bytes *)
Definition set_ctrl (t : table) (index c : Z) : exec table :=
  let index2 := Z.land (wrap 64 (index - W)) (bucket_mask t) + W in
  t ← write_ctrl t index c; write_ctrl t index2 c.
Definition set_ctrl_h2 (t : table) (index hash : Z) : exec table := set_ctrl t index (h2 hash).
Definition replace_ctrl_h2 (t : table) (index hash : Z) : exec (Z * table) :=
  prev ← read_ctrl t index; t ← set_ctrl_h2 t index hash; Ret (prev, t).

Definition probe_seq (t : table) (hash : Z) : ProbeSeq :=
  {| pos := Z.land (h1 hash) (bucket_mask t); stride := 0 |}.

(** A probe sequence has as many groups as the table. *)
Definition probe_fuel (t : table) : nat := S (Z.to_nat (buckets t / W)).

(** * Searching *)
Fixpoint insert_slot_loop (fuel : nat) (t : table) (p : ProbeSeq) : exec Z :=
  match fuel with
  | O => Unended
  | S fuel =>
      group ← load t (pos p);
      match lowest_set_bit (match_empty_or_deleted group) with
      | Some bit =>
          let result := Z.land (pos p + bit) (bucket_mask t) in
          c ← read_ctrl t result;
          if is_full c then
            _ ← require (bucket_mask t <? W);
            _ ← require (negb (pos p =? 0));
            g ← load_aligned t 0;
            Ret (trailing_zeros (match_empty_or_deleted g))
          else Ret result
      | None => p ← move_next p (bucket_mask t); insert_slot_loop fuel t p
      end
  end.
Definition find_insert_slot (t : table) (hash : Z) : exec Z :=
  insert_slot_loop (probe_fuel t) t (probe_seq t hash).

(** The candidates of one group, in order. *)
Fixpoint find_bits (t : table) (p : Z) (eq : Z -> exec bool) (bits : list Z) : exec (option Z) :=
  match bits with
  | [] => Ret None
  | bit :: bits =>
      let index := Z.land (p + bit) (bucket_mask t) in
      b ← eq index;
      if (b : bool) then Ret (Some index) else find_bits t p eq bits
  end.
Fixpoint find_loop (fuel : nat) (t : table) (h2_hash : Z) (eq : Z -> exec bool) (p : ProbeSeq)
    : exec (option Z) :=
  match fuel with
  | O => Unended
  | S fuel =>
      group ← load t (pos p);
      r ← find_bits t (pos p) eq (into_iter (match_byte group h2_hash));
      match r with
      | Some index => Ret (Some index)
      | None =>
          if any_bit_set (match_empty group) then Ret None
          else p ← move_next p (bucket_mask t); find_loop fuel t h2_hash eq p
      end
  end.
Definition find_inner (t : table) (hash : Z) (eq : Z -> exec bool) : exec (option Z) :=
  find_loop (probe_fuel t) t (h2 hash) eq (probe_seq t hash).

Definition find (t : table) (hash : Z) (eq : T -> bool) : exec (option Z) :=
  find_inner t hash (fun i => x ← read_bucket t i; Ret (eq x)).
Definition get (t : table) (hash : Z) (eq : T -> bool) : exec (option T) :=
  r ← find t hash eq;
  match r with Some i => x ← read_bucket t i; Ret (Some x) | None => Ret None end.

(** * Changing *)
Definition prepare_insert_slot (t : table) (hash : Z) : exec (Z * Z * table) :=
  index ← find_insert_slot t hash;
  old ← read_ctrl t index;
  t ← set_ctrl_h2 t index hash;
  Ret (index, old, t).

Definition record_item_insert_at (t : table) (index old_ctrl hash : Z) : exec table :=
  _ ← require (is_special old_ctrl);
  g ← usub (growth_left t) (if special_is_empty old_ctrl then 1 else 0);
  t ← set_ctrl_h2 (with_growth_left t g) index hash;
  n ← uadd (items t) 1;
  Ret (with_items t n).

Definition erase (t : table) (index : Z) : exec table :=
  old ← read_ctrl t index;
  _ ← require (is_full old);
  let index_before := Z.land (wrap 64 (index - W)) (bucket_mask t) in
  gb ← load t index_before;
  ga ← load t index;
  let deleted := W <=? leading_zeros (match_empty gb) + trailing_zeros (match_empty ga) in
  g ← (if deleted then Ret (growth_left t) else uadd (growth_left t) 1);
  t ← set_ctrl (with_growth_left t g) index (if deleted then DELETED else EMPTY);
  n ← usub (items t) 1;
  Ret (with_items t n).

(** The value of an erased bucket is still there. *)
Definition remove (t : table) (index : Z) : exec (T * table) :=
  t ← erase t index; x ← read_bucket t index; Ret (x, t).
Definition remove_entry (t : table) (hash : Z) (eq : T -> bool) : exec (option T * table) :=
  r ← find t hash eq;
  match r with
  | Some i => '(x, t) ← remove t i; Ret (Some x, t)
  | None => Ret (None, t)
  end.

Definition clear_no_drop (t : table) : exec table :=
  t ← (if is_empty_singleton t then Ret t else fill_empty t);
  Ret (with_growth_left (with_items t 0) (bucket_mask_to_capacity (bucket_mask t))).
Definition clear (t : table) : exec table := clear_no_drop t.

(** * Growing *)
Section Rehash.
Context (hasher : T -> Z).

Definition prepare_resize (t : table) (cap : Z) (f : Fallibility) : exec (result TryReserveError table) :=
  _ ← require (items t <=? cap);
  try_ (fallible_with_capacity cap f) (fun new =>
    g ← usub (growth_left new) (items t);
    Ret (Ok (with_items (with_growth_left new g) (items t)))).

(** The buckets of [t] from the [i]th on, [n] of them, copied to [new]. *)
Fixpoint resize_loop (n : nat) (i : Z) (t new : table) : exec table :=
  match n with
  | O => Ret new
  | S n =>
      c ← read_ctrl t i;
      if negb (is_full c) then resize_loop n (i + 1) t new
      else
        x ← read_bucket t i;
        '(index, _, new) ← prepare_insert_slot new (hasher x);
        new ← write_bucket new index x;
        resize_loop n (i + 1) t new
  end.

Definition resize_inner (t : table) (cap : Z) (f : Fallibility) : exec (result TryReserveError table) :=
  try_ (prepare_resize t cap f) (fun new =>
    new ← resize_loop (Z.to_nat (buckets t)) 0 t new; Ret (Ok new)).

(** [prepare_rehash_in_place] *)
Fixpoint convert_loop (n : nat) (i : Z) (t : table) : exec table :=
  match n with
  | O => Ret t
  | S n =>
      g ← load_aligned t i;
      t ← store_aligned t i (convert_special_to_empty_and_full_to_deleted g);
      convert_loop n (i + W) t
  end.
(** [self.ctrl(0).copy_to(self.ctrl(to), n)] *)
Definition copy_ctrl (t : table) (to n : Z) : exec table :=
  _ ← require (to <? num_ctrl_bytes t);
  if to + n <=? zlen (ctrl t)
  then Ret (with_ctrl t (take (Z.to_nat to) (ctrl t) ++ take (Z.to_nat n) (ctrl t)
                         ++ drop (Z.to_nat (to + n)) (ctrl t)))
  else Undefined.
Definition prepare_rehash_in_place (t : table) : exec table :=
  t ← convert_loop (Z.to_nat ((buckets t + W - 1) / W)) 0 t;
  if buckets t <? W then copy_ctrl t W (buckets t) else copy_ctrl t (buckets t) W.

Definition is_in_same_group (t : table) (i new_i hash : Z) : bool :=
  let probe_seq_pos := pos (probe_seq t hash) in
  let probe_index p := Z.land (wrap 64 (p - probe_seq_pos)) (bucket_mask t) / W in
  probe_index i =? probe_index new_i.

(** The bucket [i], until what it holds has found its place. *)
Fixpoint rehash_bucket (fuel : nat) (t : table) (i : Z) : exec table :=
  match fuel with
  | O => Unended
  | S fuel =>
      x ← read_bucket t i;
      let hash := hasher x in
      new_i ← find_insert_slot t hash;
      _ ← check_bucket t new_i;
      if is_in_same_group t i new_i hash then set_ctrl_h2 t i hash
      else
        '(prev, t) ← replace_ctrl_h2 t new_i hash;
        if prev =? EMPTY then
          t ← set_ctrl t i EMPTY;
          write_bucket t new_i x
        else
          _ ← require (prev =? DELETED);
          y ← read_bucket t new_i;
          t ← write_bucket t new_i x;
          t ← write_bucket t i y;
          rehash_bucket fuel t i
  end.

Fixpoint rehash_loop (n : nat) (i : Z) (t : table) : exec table :=
  match n with
  | O => Ret t
  | S n =>
      c ← read_ctrl t i;
      if negb (c =? DELETED) then rehash_loop n (i + 1) t
      else t ← rehash_bucket (S (Z.to_nat (buckets t))) t i; rehash_loop n (i + 1) t
  end.

Definition rehash_in_place (t : table) : exec table :=
  t ← prepare_rehash_in_place t;
  t ← rehash_loop (Z.to_nat (buckets t)) 0 t;
  g ← usub (bucket_mask_to_capacity (bucket_mask t)) (items t);
  Ret (with_growth_left t g).

Definition reserve_rehash (t : table) (additional : Z) (f : Fallibility)
    : exec (result TryReserveError table) :=
  match checked (items t + additional) with
  | None => capacity_overflow f
  | Some new_items =>
      let full_capacity := bucket_mask_to_capacity (bucket_mask t) in
      if new_items <=? full_capacity / 2 then t ← rehash_in_place t; Ret (Ok t)
      else resize_inner t (Z.max new_items (full_capacity + 1)) f
  end.

Definition reserve (t : table) (additional : Z) : exec table :=
  if growth_left t <? additional then unwrap_unchecked (reserve_rehash t additional Infallible)
  else Ret t.
Definition try_reserve (t : table) (additional : Z) : exec (result TryReserveError table) :=
  if growth_left t <? additional then reserve_rehash t additional Fallible else Ret (Ok t).

Definition shrink_to (t : table) (min_size : Z) : exec table :=
  let min_size := Z.max (items t) min_size in
  if min_size =? 0 then Ret new_in
  else
    n ← capacity_to_buckets min_size;
    match n with
    | None => Ret t
    | Some min_buckets =>
        if min_buckets <? buckets t then
          if items t =? 0 then with_capacity_in min_size
          else unwrap_unchecked (resize_inner t min_size Infallible)
        else Ret t
    end.

(** * Insertion *)
Definition insert (t : table) (hash : Z) (value : T) : exec (Z * table) :=
  index ← find_insert_slot t hash;
  old_ctrl ← read_ctrl t index;
  '(index, t) ← (if (growth_left t =? 0) && special_is_empty old_ctrl then
                   t ← reserve t 1; index ← find_insert_slot t hash; Ret (index, t)
                 else Ret (index, t));
  t ← record_item_insert_at t index old_ctrl hash;
  t ← write_bucket t index value;
  Ret (index, t).
End Rehash.

Definition prepare_insert_no_grow (t : table) (hash : Z) : exec (result unit Z * table) :=
  index ← find_insert_slot t hash;
  old_ctrl ← read_ctrl t index;
  if (growth_left t =? 0) && special_is_empty old_ctrl then Ret (Err tt, t)
  else t ← record_item_insert_at t index old_ctrl hash; Ret (Ok index, t).
Definition try_insert_no_grow (t : table) (hash : Z) (value : T) : exec (result T Z * table) :=
  '(r, t) ← prepare_insert_no_grow t hash;
  match r with
  | Ok index => t ← write_bucket t index value; Ret (Ok index, t)
  | Err _ => Ret (Err value, t)
  end.

(** [f] says what becomes of the value: it is put back, or not. *)
Definition replace_bucket_with (t : table) (index : Z) (f : T -> option T) : exec (bool * table) :=
  old_ctrl ← read_ctrl t index;
  _ ← require (is_full old_ctrl);
  let old_growth_left := growth_left t in
  '(item, t) ← remove t index;
  match f item with
  | Some new_item =>
      t ← set_ctrl (with_growth_left t old_growth_left) index old_ctrl;
      n ← uadd (items t) 1;
      t ← write_bucket (with_items t n) index new_item;
      Ret (true, t)
  | None => Ret (false, t)
  end.

(** * Iteration *)

(** [RawIter] and its [RawIterRange]; positions are indexes of control bytes. *)
Record RawIter := {
  current_group : Z;
  it_data : Z;
  next_ctrl : Z;
  it_end : Z;
  it_items : Z
}.

Definition iter (t : table) : exec RawIter :=
  _ ← require (negb (buckets t =? 0));
  g ← load_aligned t 0;
  Ret {| current_group := match_full g; it_data := 0; next_ctrl := W; it_end := buckets t;
         it_items := items t |}.

(** [RawIterRange::next]: at most as many groups as the table has. *)
Fixpoint range_next (fuel : nat) (t : table) (it : RawIter) : exec (option Z * RawIter) :=
  match fuel with
  | O => Unended
  | S fuel =>
      match lowest_set_bit (current_group it) with
      | Some index =>
          Ret (Some (it_data it + index),
               {| current_group := remove_lowest_bit (current_group it); it_data := it_data it;
                  next_ctrl := next_ctrl it; it_end := it_end it; it_items := it_items it |})
      | None =>
          if it_end it <=? next_ctrl it then Ret (None, it)
          else
            g ← load_aligned t (next_ctrl it);
            range_next fuel t
              {| current_group := match_full g; it_data := it_data it + W;
                 next_ctrl := next_ctrl it + W; it_end := it_end it; it_items := it_items it |}
      end
  end.
Definition iter_next (t : table) (it : RawIter) : exec (option Z * RawIter) :=
  '(r, it) ← range_next (probe_fuel t) t it;
  match r with
  | Some b =>
      n ← usub (it_items it) 1;
      Ret (Some b, {| current_group := current_group it; it_data := it_data it; next_ctrl := next_ctrl it;
                      it_end := it_end it; it_items := n |})
  | None => _ ← require (it_items it =? 0); Ret (None, it)
  end.

(** [for item in iter { body }], the body changing the table and [a]: a table has at
    most as many items as buckets. *)
Fixpoint for_each {A} (fuel : nat) (body : Z -> table -> A -> exec (table * A)) (t : table) (it : RawIter) (a : A)
    : exec (table * A) :=
  match fuel with
  | O => Unended
  | S fuel =>
      '(r, it) ← iter_next t it;
      match r with
      | None => Ret (t, a)
      | Some index => '(t, a) ← body index t a; for_each fuel body t it a
      end
  end.
Definition for_items {A} (body : Z -> table -> A -> exec (table * A)) (t : table) (a : A) : exec (table * A) :=
  it ← iter t; for_each (S (Z.to_nat (buckets t))) body t it a.

(** The values, in the order of the iterator. *)
Definition iter_values (t : table) : exec (list T) :=
  '(_, l) ← for_items (fun i t l => x ← read_bucket t i; Ret (t, l ++ [x])) t [];
  Ret l.

(** [drain], consumed to its end and dropped. *)
Definition drain (t : table) : exec (list T * table) :=
  l ← iter_values t; t ← clear_no_drop t; Ret (l, t).

(** [clone], of values whose clone is [clone_value]. *)
Definition clone_from_impl (clone_value : T -> T) (self source : table) : exec table :=
  c ← (if (num_ctrl_bytes self <=? zlen (ctrl source)) && (num_ctrl_bytes self <=? zlen (ctrl self))
       then Ret (take (Z.to_nat (num_ctrl_bytes self)) (ctrl source)
                 ++ drop (Z.to_nat (num_ctrl_bytes self)) (ctrl self))
       else Undefined);
  '(_, self) ← for_items (fun i source self =>
                  x ← read_bucket source i;
                  self ← write_bucket self i (clone_value x);
                  Ret (source, self)) source (with_ctrl self c);
  Ret (with_growth_left (with_items self (items source)) (growth_left source)).
Definition clone (clone_value : T -> T) (t : table) : exec table :=
  if is_empty_singleton t then Ret new_in
  else new_table ← unwrap_unchecked (new_uninitialized (buckets t) Infallible);
       clone_from_impl clone_value new_table t.
Definition clone_from (clone_value : T -> T) (self source : table) : exec table :=
  if is_empty_singleton source then Ret new_in
  else self ← (if negb (buckets self =? buckets source)
               then unwrap_unchecked (new_uninitialized (buckets source) Infallible)
               else Ret self);
       clone_from_impl clone_value self source.
End Table.
Arguments move_next {_}. Arguments new_in {_ _}.
