(* ===== verification/HashMap.v ===== *)
(** HashMap: [HashMap] of sgx_tstd/hashbrown/src/map.rs.

    A map is its table of pairs; [hash_one] is the hash of a key under the map's
    [hash_builder], which does not change.  Keys are looked up by themselves (a
    borrowed form [Q] is the key).  A reference into the table is the index of its
    bucket.  Closures are functions; those that may change a value return it. *)
From Stdlib Require Import ZArith Lia.
From stdpp Require Import base numbers list option tactics.
From S2P Require Import Prelude HashGroup HashRaw.
Local Open Scope Z_scope.

Section Map.
Context `{Group} {K V : Type} `{EqDecision K} (hash_one : K -> Z).
Context (alloc : Z -> Z -> bool) (layout : Layout).
Local Notation map := (RawTable (K * V)).

Definition make_hash (k : K) : Z := hash_one k.
Definition make_hasher (x : K * V) : Z := make_hash x.1.
Definition equivalent_key (k : K) (x : K * V) : bool := bool_decide (k = x.1).

Definition with_hasher : map := new_in.
Definition with_capacity_and_hasher (capacity : Z) : exec map := with_capacity_in alloc layout capacity.
Definition len (t : map) : Z := items t.
Definition is_empty (t : map) : bool := len t =? 0.

(** * Looking up *)
Definition get_inner (t : map) (k : K) : exec (option (K * V)) :=
  if items t =? 0 then Ret None else HashRaw.get t (make_hash k) (equivalent_key k).
Definition get (t : map) (k : K) : exec (option V) :=
  r ← get_inner t k; Ret (match r with Some (_, v) => Some v | None => None end).
Definition get_key_value (t : map) (k : K) : exec (option (K * V)) :=
  r ← get_inner t k; Ret (match r with Some (k, v) => Some (k, v) | None => None end).
Definition contains_key (t : map) (k : K) : exec bool :=
  r ← get_inner t k; Ret (match r with Some _ => true | None => false end).
(** [get_inner_mut]: the bucket *)
Definition get_inner_mut (t : map) (k : K) : exec (option Z) :=
  if items t =? 0 then Ret None else find t (make_hash k) (equivalent_key k).
(** [map.get_mut(k)], and [f] applied through the reference. *)
Definition get_mut (t : map) (k : K) (f : V -> V) : exec (option V * map) :=
  r ← get_inner_mut t k;
  match r with
  | Some i => '(key, v) ← read_bucket t i; t ← write_bucket t i (key, f v); Ret (Some v, t)
  | None => Ret (None, t)
  end.
(** [map[k]] *)
Definition index (t : map) (k : K) : exec V :=
  r ← get t k; match r with Some v => Ret v | None => Panicked end.

(** * Changing *)
Definition insert (t : map) (k : K) (v : V) : exec (option V * map) :=
  let hash := make_hash k in
  r ← find t hash (equivalent_key k);
  match r with
  | Some i => '(key, old) ← read_bucket t i; t ← write_bucket t i (key, v); Ret (Some old, t)
  | None => '(_, t) ← HashRaw.insert alloc layout make_hasher t hash (k, v); Ret (None, t)
  end.
Definition remove_entry (t : map) (k : K) : exec (option (K * V) * map) :=
  HashRaw.remove_entry t (make_hash k) (equivalent_key k).
Definition remove (t : map) (k : K) : exec (option V * map) :=
  '(r, t) ← remove_entry t k; Ret (match r with Some (_, v) => Some v | None => None end, t).
Definition clear (t : map) : exec map := HashRaw.clear t.
Definition reserve (t : map) (additional : Z) : exec map := HashRaw.reserve alloc layout make_hasher t additional.
(** The table is unchanged when this fails. *)
Definition try_reserve (t : map) (additional : Z) : exec (result TryReserveError unit * map) :=
  r ← HashRaw.try_reserve alloc layout make_hasher t additional;
  Ret (match r with Ok t => (Ok tt, t) | Err e => (Err e, t) end).
Definition shrink_to_fit (t : map) : exec map := HashRaw.shrink_to alloc layout make_hasher t 0.
Definition shrink_to (t : map) (min_capacity : Z) : exec map :=
  HashRaw.shrink_to alloc layout make_hasher t min_capacity.

(** * Entries *)
Inductive Entry :=
| Occupied (hash : Z) (key : option K) (elem : Z)
| Vacant (hash : Z) (key : K).

Definition entry (t : map) (key : K) : exec Entry :=
  let hash := make_hash key in
  r ← find t hash (equivalent_key key);
  Ret (match r with Some elem => Occupied hash (Some key) elem | None => Vacant hash key end).

(** [VacantEntry::insert]: the bucket *)
Definition vacant_insert (t : map) (hash : Z) (key : K) (value : V) : exec (Z * map) :=
  HashRaw.insert alloc layout make_hasher t hash (key, value).
Definition vacant_insert_entry (t : map) (hash : Z) (key : K) (value : V) : exec (Entry * map) :=
  '(elem, t) ← HashRaw.insert alloc layout make_hasher t hash (key, value); Ret (Occupied hash None elem, t).

Definition occupied_get (t : map) (elem : Z) : exec V := x ← read_bucket t elem; Ret x.2.
Definition occupied_insert (t : map) (elem : Z) (value : V) : exec (V * map) :=
  '(key, old) ← read_bucket t elem; t ← write_bucket t elem (key, value); Ret (old, t).
Definition occupied_remove_entry (t : map) (elem : Z) : exec ((K * V) * map) := HashRaw.remove t elem.
Definition occupied_remove (t : map) (elem : Z) : exec (V * map) :=
  '(x, t) ← occupied_remove_entry t elem; Ret (x.2, t).
(** [self.key.unwrap()] panics when the entry was made by [insert_entry]. *)
Definition occupied_replace_entry (t : map) (key : option K) (elem : Z) (value : V) : exec ((K * V) * map) :=
  old ← read_bucket t elem;
  match key with
  | None => Panicked
  | Some key => t ← write_bucket t elem (key, value); Ret (old, t)
  end.
Definition occupied_replace_key (t : map) (key : option K) (elem : Z) : exec (K * map) :=
  old ← read_bucket t elem;
  match key with
  | None => Panicked
  | Some key => t ← write_bucket t elem (key, old.2); Ret (old.1, t)
  end.
Definition occupied_replace_entry_with (t : map) (hash : Z) (key : option K) (elem : Z) (f : K -> V -> option V)
    : exec (Entry * map) :=
  x ← read_bucket t elem;
  '(_, t) ← replace_bucket_with t elem (fun '(k, v) => match f k v with Some v => Some (k, v) | None => None end);
  Ret (match f x.1 x.2 with None => Vacant hash x.1 | Some _ => Occupied hash key elem end, t).

Definition entry_insert (t : map) (e : Entry) (value : V) : exec (Entry * map) :=
  match e with
  | Occupied hash key elem => '(_, t) ← occupied_insert t elem value; Ret (Occupied hash key elem, t)
  | Vacant hash key => vacant_insert_entry t hash key value
  end.
Definition or_insert (t : map) (e : Entry) (default : V) : exec (Z * map) :=
  match e with
  | Occupied _ _ elem => Ret (elem, t)
  | Vacant hash key => vacant_insert t hash key default
  end.
Definition or_insert_with_key (t : map) (e : Entry) (default : K -> V) : exec (Z * map) :=
  match e with
  | Occupied _ _ elem => Ret (elem, t)
  | Vacant hash key => vacant_insert t hash key (default key)
  end.
Definition entry_key (t : map) (e : Entry) : exec K :=
  match e with Occupied _ _ elem => x ← read_bucket t elem; Ret x.1 | Vacant _ key => Ret key end.
Definition and_modify (t : map) (e : Entry) (f : V -> V) : exec (Entry * map) :=
  match e with
  | Occupied hash key elem =>
      x ← read_bucket t elem; t ← write_bucket t elem (x.1, f x.2); Ret (Occupied hash key elem, t)
  | Vacant hash key => Ret (Vacant hash key, t)
  end.
Definition and_replace_entry_with (t : map) (e : Entry) (f : K -> V -> option V) : exec (Entry * map) :=
  match e with
  | Occupied hash key elem => occupied_replace_entry_with t hash key elem f
  | Vacant hash key => Ret (Vacant hash key, t)
  end.

Definition try_insert (t : map) (key : K) (value : V) : exec (result V Z * map) :=
  e ← entry t key;
  match e with
  | Occupied _ _ _ => Ret (Err value, t)
  | Vacant hash key => '(i, t) ← vacant_insert t hash key value; Ret (Ok i, t)
  end.

(** * Raw entries *)

(** [RawEntryMut]: the bucket, when the key is there.  A vacant one has no hash: it is
    computed from the key that is inserted. *)
Inductive RawEntryMut :=
| RawOccupied (elem : Z)
| RawVacant.

Definition from_hash (t : map) (hash : Z) (is_match : K -> bool) : exec RawEntryMut :=
  r ← find t hash (fun x => is_match x.1);
  Ret (match r with Some elem => RawOccupied elem | None => RawVacant end).
Definition from_key_hashed_nocheck (t : map) (hash : Z) (k : K) : exec RawEntryMut :=
  from_hash t hash (fun key => bool_decide (k = key)).
Definition from_key (t : map) (k : K) : exec RawEntryMut :=
  from_key_hashed_nocheck t (make_hash k) k.

Definition insert_hashed_nocheck (t : map) (hash : Z) (key : K) (value : V) : exec (Z * map) :=
  HashRaw.insert alloc layout make_hasher t hash (key, value).
Definition raw_vacant_insert (t : map) (key : K) (value : V) : exec (Z * map) :=
  insert_hashed_nocheck t (make_hash key) key value.
Definition raw_or_insert (t : map) (e : RawEntryMut) (default_key : K) (default_val : V) : exec (Z * map) :=
  match e with
  | RawOccupied elem => Ret (elem, t)
  | RawVacant => raw_vacant_insert t default_key default_val
  end.
Definition raw_or_insert_with (t : map) (e : RawEntryMut) (default : unit -> K * V) : exec (Z * map) :=
  match e with
  | RawOccupied elem => Ret (elem, t)
  | RawVacant => let '(k, v) := default tt in raw_vacant_insert t k v
  end.
Definition raw_entry_insert (t : map) (e : RawEntryMut) (key : K) (value : V) : exec (RawEntryMut * map) :=
  match e with
  | RawOccupied elem => '(k, _) ← read_bucket t elem; t ← write_bucket t elem (k, value); Ret (RawOccupied elem, t)
  | RawVacant =>
      '(elem, t) ← HashRaw.insert alloc layout make_hasher t (make_hash key) (key, value);
      Ret (RawOccupied elem, t)
  end.
Definition raw_and_modify (t : map) (e : RawEntryMut) (f : K -> V -> K * V) : exec (RawEntryMut * map) :=
  match e with
  | RawOccupied elem => '(k, v) ← read_bucket t elem; t ← write_bucket t elem (f k v); Ret (RawOccupied elem, t)
  | RawVacant => Ret (RawVacant, t)
  end.

(** * Iterating *)
Definition iter_pairs (t : map) : exec (list (K * V)) := iter_values t.
Definition keys (t : map) : exec (list K) := l ← iter_pairs t; Ret (l.*1).
Definition values (t : map) : exec (list V) := l ← iter_pairs t; Ret (l.*2).
Definition drain (t : map) : exec (list (K * V) * map) := HashRaw.drain t.

(** The loop of [retain] and [drain_filter]: [f] may change the value and says
    whether the pair stays. *)
Definition visit (f : K -> V -> V * bool) (t : map) : exec (map * list (K * V)) :=
  for_items (fun i t removed =>
    '(key, value) ← read_bucket t i;
    let '(value, stays) := f key value in
    t ← write_bucket t i (key, value);
    if stays : bool then Ret (t, removed)
    else '(x, t) ← HashRaw.remove t i; Ret (t, removed ++ [x])) t [].
Definition retain (t : map) (f : K -> V -> V * bool) : exec map :=
  '(t, _) ← visit f t; Ret t.
(** All that [drain_filter] yields, to its end. *)
Definition drain_filter (t : map) (f : K -> V -> V * bool) : exec (list (K * V) * map) :=
  '(t, removed) ← visit (fun k v => let '(v, out) := f k v in (v, negb out)) t; Ret (removed, t).

(** [iter.all(..)] stops at the first that does not hold; the others have no effect. *)
Definition eq (eqV : V -> V -> bool) (t other : map) : exec bool :=
  if negb (len t =? len other) then Ret false
  else
    l ← iter_pairs t;
    (fix all l :=
       match l with
       | [] => Ret true
       | (key, value) :: l =>
           r ← get other key;
           match r with
           | Some v => if eqV value v then all l else Ret false
           | None => Ret false
           end
       end) l.

(** * Collecting; the lower bound of the iterator's [size_hint] is [hint]. *)
Fixpoint insert_all (t : map) (l : list (K * V)) : exec map :=
  match l with
  | [] => Ret t
  | (k, v) :: l => '(_, t) ← insert t k v; insert_all t l
  end.
Definition from_iter (hint : Z) (l : list (K * V)) : exec map :=
  t ← with_capacity_and_hasher hint; insert_all t l.
Definition extend (t : map) (hint : Z) (l : list (K * V)) : exec map :=
  n ← (if is_empty t then Ret hint else n ← uadd hint 1; Ret (n / 2));
  t ← reserve t n; insert_all t l.
End Map.
Arguments with_hasher {_ _ _}. Arguments Occupied {_}. Arguments Vacant {_}.
