(* ===== verification/HashSet.v ===== *)
(** HashSet: [HashSet] of sgx_tstd/hashbrown/src/set.rs, a [HashMap] to unit.

    The two sets of a binary operation may hash differently: [hash_one] belongs to
    the first, [hash_other] to the second.  An iterator is what it yields. *)
From Stdlib Require Import ZArith Lia.
From stdpp Require Import base numbers list option tactics.
From S2P Require Import Prelude HashGroup HashRaw HashMap.
Local Open Scope Z_scope.

Section Set_.
Context `{Group} {T : Type} `{EqDecision T} (hash_one : T -> Z).
Context (alloc : Z -> Z -> bool) (layout : Layout).
Local Notation set := (RawTable (T * unit)).

Definition with_hasher : set := HashMap.with_hasher.
Definition with_capacity_and_hasher (capacity : Z) : exec set :=
  HashMap.with_capacity_and_hasher alloc layout capacity.
Definition len (t : set) : Z := HashMap.len t.
Definition is_empty (t : set) : bool := HashMap.is_empty t.
Definition iter (t : set) : exec (list T) := keys t.

Definition contains (t : set) (value : T) : exec bool := contains_key hash_one t value.
Definition get (t : set) (value : T) : exec (option T) :=
  r ← get_key_value hash_one t value; Ret (match r with Some (k, _) => Some k | None => None end).
Definition insert (t : set) (value : T) : exec (bool * set) :=
  '(r, t) ← HashMap.insert hash_one alloc layout t value tt;
  Ret (match r with None => true | Some _ => false end, t).
Definition remove (t : set) (value : T) : exec (bool * set) :=
  '(r, t) ← HashMap.remove hash_one t value; Ret (match r with Some _ => true | None => false end, t).
Definition take (t : set) (value : T) : exec (option T * set) :=
  '(r, t) ← HashMap.remove_entry hash_one t value; Ret (match r with Some (k, _) => Some k | None => None end, t).
Definition replace (t : set) (value : T) : exec (option T * set) :=
  e ← entry hash_one t value;
  match e with
  | Occupied _ key elem => '(k, t) ← occupied_replace_key t key elem; Ret (Some k, t)
  | Vacant hash key => '(_, t) ← vacant_insert hash_one alloc layout t hash key tt; Ret (None, t)
  end.
(** The bucket of the value. *)
Definition get_or_insert (t : set) (value : T) : exec (Z * set) :=
  e ← from_key hash_one t value; raw_or_insert hash_one alloc layout t e value tt.
Definition get_or_insert_with (t : set) (value : T) (f : T -> T) : exec (Z * set) :=
  e ← from_key hash_one t value; raw_or_insert_with hash_one alloc layout t e (fun _ => (f value, tt)).
Definition retain (t : set) (f : T -> bool) : exec set := HashMap.retain t (fun k v => (v, f k)).
Definition drain_filter (t : set) (f : T -> bool) : exec (list T * set) :=
  '(l, t) ← HashMap.drain_filter t (fun k v => (v, f k)); Ret (l.*1, t).
Definition drain (t : set) : exec (list T * set) := '(l, t) ← HashMap.drain t; Ret (l.*1, t).
Definition clear (t : set) : exec set := HashMap.clear t.
Definition extend (t : set) (hint : Z) (l : list T) : exec set :=
  HashMap.extend hash_one alloc layout t hint ((fun k => (k, tt)) <$> l).
Definition from_iter (hint : Z) (l : list T) : exec set := extend with_hasher hint l.

(** The values of [l] for which [p] holds, and whether it holds for all: [p] is a
    search in a table. *)
Fixpoint filter_by (p : T -> exec bool) (l : list T) : exec (list T) :=
  match l with
  | [] => Ret []
  | elt :: l => b ← p elt; r ← filter_by p l; Ret (if b : bool then elt :: r else r)
  end.
Fixpoint all_by (p : T -> exec bool) (l : list T) : exec bool :=
  match l with
  | [] => Ret true
  | elt :: l => b ← p elt; if b : bool then all_by p l else Ret false
  end.
End Set_.

Definition negate (p : exec bool) : exec bool := b ← p; Ret (negb b).

Section Two.
Context `{Group} {T : Type} `{EqDecision T} (hash_one hash_other : T -> Z).
Local Notation set := (RawTable (T * unit)).

Definition difference (t other : set) : exec (list T) :=
  l ← iter t; filter_by (fun elt => negate (contains hash_other other elt)) l.
Definition is_disjoint (t other : set) : exec bool :=
  l ← iter t; all_by (fun v => negate (contains hash_other other v)) l.
Definition is_subset (t other : set) : exec bool :=
  if len t <=? len other then l ← iter t; all_by (fun v => contains hash_other other v) l else Ret false.
Definition eq (t other : set) : exec bool :=
  if negb (len t =? len other) then Ret false
  else l ← iter t; all_by (fun key => contains hash_other other key) l.
End Two.

Section Both.
Context `{Group} {T : Type} `{EqDecision T} (hash_one hash_other : T -> Z).
Local Notation set := (RawTable (T * unit)).

Definition is_superset (t other : set) : exec bool := is_subset hash_one other t.
Definition symmetric_difference (t other : set) : exec (list T) :=
  l ← difference hash_other t other; r ← difference hash_one other t; Ret (l ++ r).
Definition intersection (t other : set) : exec (list T) :=
  if len t <=? len other then l ← iter t; filter_by (fun elt => contains hash_other other elt) l
  else l ← iter other; filter_by (fun elt => contains hash_one t elt) l.
Definition union (t other : set) : exec (list T) :=
  if len t <=? len other then l ← iter other; r ← difference hash_other t other; Ret (l ++ r)
  else l ← iter t; r ← difference hash_one other t; Ret (l ++ r).

(** [&a | &b] and the like: a new set, with a hasher of its own. *)
Context (hash_new : T -> Z) (alloc : Z -> Z -> bool) (layout : Layout) (hint : list T -> Z).
Definition collect (l : exec (list T)) : exec set := l ← l; from_iter hash_new alloc layout (hint l) l.
Definition bitor (t other : set) : exec set := collect (union t other).
Definition bitand (t other : set) : exec set := collect (intersection t other).
Definition bitxor (t other : set) : exec set := collect (symmetric_difference t other).
Definition sub (t other : set) : exec set := collect (difference hash_other t other).
End Both.
Arguments with_hasher {_ _}.
