(* ===== verification/HashProbe.v ===== *)
(** HashProbe: probe sequences and the control bytes they read.

    A probe visits the groups at distances 0, 1, 3, 6, ... widths from where the
    hash points.  Here: these triangular numbers reach every group of a table whose
    size is a power of two; what a group loaded at any position contains, given how
    the control bytes are laid out; and that [find_insert_slot] and the loop of
    [find_inner] end. *)
From Stdlib Require Import ZArith Lia Znumtheory Zpow_facts.
From stdpp Require Import base numbers list option sets tactics.
From S2P Require Import Prelude HashGroup HashGroupLaws HashRaw.
Local Open Scope nat_scope.

(** * Triangular numbers *)
Fixpoint tri (n : nat) : nat := match n with O => 0 | S n => tri n + S n end.

Lemma tri_double n : 2 * tri n = n * (n + 1).
Proof. induction n as [|n IH]; cbn [tri]; lia. Qed.

Lemma rel_prime_odd (a k : Z) : (0 <= k)%Z -> Z.odd a = true -> rel_prime (2 ^ k) a.
Proof.
  intros Hk [b ->]%Z.odd_spec. rewrite <- (Z.pow_1_r (2 * b + 1)). apply rel_prime_Zpower; [lia|lia|].
  apply bezout_rel_prime. apply (Bezout_intro _ _ _ (- b) 1). lia.
Qed.

(** Below [2 ^ m], no two of them are the same modulo [2 ^ m]. *)
Lemma tri_inj (m : nat) i j : i < j < 2 ^ m -> tri i mod 2 ^ m <> tri j mod 2 ^ m.
Proof.
  intros Hij E. set (q := (2 ^ Z.of_nat m)%Z).
  assert (Z.of_nat (2 ^ m) = q) as Hq by (unfold q; by rewrite Nat2Z.inj_pow).
  assert (0 < q)%Z by (unfold q; apply Z.pow_pos_nonneg; lia).
  assert (q | Z.of_nat (tri j) - Z.of_nat (tri i))%Z as [z Hz].
  { apply Z.mod_divide; [lia|]. apply (f_equal Z.of_nat) in E. rewrite !Nat2Z.inj_mod, Hq in E.
    rewrite Zminus_mod, E, Z.sub_diag. by rewrite Z.mod_0_l by lia. }
  pose proof (tri_double i) as Ti. pose proof (tri_double j) as Tj.
  assert (2 ^ (Z.of_nat m + 1) | (Z.of_nat j - Z.of_nat i) * (Z.of_nat j + Z.of_nat i + 1))%Z as Hd.
  { exists z. rewrite Z.pow_add_r by lia. fold q. lia. }
  assert (2 ^ (Z.of_nat m + 1) = 2 * q)%Z as E2 by (rewrite Z.pow_add_r by lia; fold q; lia).
  destruct (Z.odd (Z.of_nat j - Z.of_nat i)) eqn:O.
  - apply Gauss in Hd; [|apply rel_prime_odd; [lia|done]]. apply Z.divide_pos_le in Hd; lia.
  - rewrite Z.mul_comm in Hd. apply Gauss in Hd; [apply Z.divide_pos_le in Hd; lia|].
    apply rel_prime_odd; [lia|].
    replace (Z.of_nat j + Z.of_nat i + 1)%Z with (1 + (Z.of_nat j - Z.of_nat i) + 2 * Z.of_nat i)%Z by lia.
    rewrite Z.odd_add_mul_2, Z.odd_add, O. done.
Qed.

Lemma tri_reaches (m g : nat) : g < 2 ^ m -> exists n, n < 2 ^ m /\ tri n mod 2 ^ m = g.
Proof.
  intros Hg. set (q := 2 ^ m) in *.
  assert (NoDup ((fun n => tri n mod q) <$> seq 0 q)) as Hnd.
  { apply NoDup_fmap_2_strong; [|apply NoDup_seq]. intros i j Hi%elem_of_seq Hj%elem_of_seq E.
    destruct (Nat.lt_trichotomy i j) as [?|[?|?]]; [|done|]; exfalso;
      [apply (tri_inj m i j)|apply (tri_inj m j i)]; fold q; (lia || done). }
  assert (g ∈ (fun n => tri n mod q) <$> seq 0 q) as Hin.
  { apply list_elem_of_In. eapply (NoDup_length_incl (l' := seq 0 q)).
    - by apply NoDup_ListNoDup.
    - by rewrite length_fmap.
    - intros x Hx%list_elem_of_In. apply list_elem_of_fmap in Hx as (n & -> & Hn).
      apply list_elem_of_In, elem_of_seq. pose proof (Nat.mod_upper_bound (tri n) q ltac:(lia)). lia.
    - apply list_elem_of_In, elem_of_seq. lia. }
  apply list_elem_of_fmap in Hin as (n & -> & Hn%elem_of_seq). exists n. split; [lia|done].
Qed.

(** * The layout of the control bytes *)
Section Layout.
Context `{GroupLaws}.
Local Notation W := WIDTH.

(** The control bytes of the buckets, and what follows them in memory. *)
Definition laid_out (cs : list Z) : list Z :=
  if length cs <? W then cs ++ replicate (W - length cs) EMPTY ++ cs else cs ++ take W cs.

(** Positions of a group that stand for no bucket, in a table smaller than a group. *)
Definition padding (B p j : nat) : bool := (B <? W) && (B <=? p + j) && (p + j <? W).

Definition byte_at (cs : list Z) (p j : nat) : Z :=
  if padding (length cs) p j then EMPTY else cs !!! ((p + j) mod length cs).

Lemma width_pow2 : exists w, W = 2 ^ w.
Proof.
  destruct width_pos as (k & E & Hk). exists (Z.to_nat k). apply Nat2Z.inj.
  rewrite E, Nat2Z.inj_pow. f_equal. lia.
Qed.

Lemma pow2_small k : 2 ^ k < W -> W mod 2 ^ k = 0.
Proof.
  destruct width_pow2 as [w ->]. intros Hlt%Nat.pow_lt_mono_r_iff; [|lia].
  replace w with (k + (w - k)) by lia. rewrite Nat.pow_add_r, Nat.mul_comm. apply Nat.Div0.mod_mul.
Qed.

Lemma pow2_large k : W <= 2 ^ k -> exists m, 2 ^ k = W * 2 ^ m.
Proof.
  destruct width_pow2 as [w ->]. intros Hle. exists (k - w).
  assert (w <= k) by (destruct (Nat.le_gt_cases w k) as [|Hgt]; [done|apply (Nat.pow_lt_mono_r 2) in Hgt; lia]).
  rewrite <- Nat.pow_add_r. f_equal. lia.
Qed.

Lemma width_ge : 8 <= W.
Proof. pose proof width_bounds. lia. Qed.

Context (cs : list Z) (k : nat) (Hk : length cs = 2 ^ k).
Local Notation B := (length cs).

Lemma size_pos : 0 < B.
Proof. rewrite Hk. apply Nat.neq_0_lt_0, Nat.pow_nonzero. lia. Qed.

Lemma length_laid_out : length (laid_out cs) = B + W.
Proof.
  unfold laid_out. destruct (Nat.ltb_spec B W); rewrite !length_app, ?length_replicate, ?length_take; lia.
Qed.

Lemma byte_lookup i : i < B -> cs !! i = Some (cs !!! i).
Proof. intros Hi. by apply list_lookup_lookup_total_lt. Qed.

Lemma mod_once a : B <= a < 2 * B -> a mod B = a - B.
Proof.
  intros Ha. replace a with (a - B + 1 * B) at 1 by lia. rewrite Nat.Div0.mod_add. apply Nat.mod_small. lia.
Qed.

Lemma laid_out_lookup p j : p < B -> j < W -> laid_out cs !! (p + j) = Some (byte_at cs p j).
Proof.
  intros Hp Hj. unfold laid_out, byte_at, padding. destruct (Nat.ltb_spec B W) as [Hs|Hs]; cbn [andb].
  - destruct (Nat.leb_spec B (p + j)); cbn [andb].
    + destruct (Nat.ltb_spec (p + j) W) as [Hw|Hw].
      * rewrite lookup_app_r, lookup_app_l by (rewrite ?length_replicate; lia).
        apply lookup_replicate. split; [done|lia].
      * rewrite lookup_app_r, lookup_app_r by (rewrite ?length_replicate; lia). rewrite length_replicate.
        replace (p + j - B - (W - B)) with (p + j - W) by lia. rewrite byte_lookup by lia. do 2 f_equal.
        assert (W mod B = 0) as Hm by (rewrite Hk in *; by apply pow2_small).
        pose proof (Nat.div_mod_eq W B) as Hd. rewrite Hm, Nat.add_0_r in Hd.
        replace (p + j) with (p + j - W + (W / B) * B) by nia. rewrite Nat.Div0.mod_add, Nat.mod_small by lia. nia.
    + rewrite lookup_app_l, byte_lookup, Nat.mod_small by lia. done.
  - destruct (Nat.lt_ge_cases (p + j) B).
    + rewrite lookup_app_l, byte_lookup, Nat.mod_small by lia. done.
    + rewrite lookup_app_r, lookup_take by lia. rewrite decide_True by lia.
      rewrite mod_once by lia. by apply byte_lookup; lia.
Qed.

(** What is loaded at a position. *)
Definition group_at (p : nat) : list Z := take W (drop p (laid_out cs)).

Lemma group_at_lookup p j : p < B -> j < W -> group_at p !! j = Some (byte_at cs p j).
Proof.
  intros Hp Hj. unfold group_at. rewrite lookup_take, decide_True, lookup_drop by done. by apply laid_out_lookup.
Qed.

Lemma length_group_at p : p < B -> length (group_at p) = W.
Proof. intros Hp. unfold group_at. rewrite length_take, length_drop, length_laid_out. lia. Qed.

Lemma laid_out_ctrl : Forall is_ctrl cs -> Forall is_ctrl (laid_out cs).
Proof.
  intros Hc. unfold laid_out. destruct (B <? W); repeat (apply Forall_app; split); auto.
  - apply Forall_replicate. by left.
  - by apply Forall_take.
Qed.

Lemma group_at_ctrl p : Forall is_ctrl cs -> Forall is_ctrl (group_at p).
Proof. intros Hc. by apply Forall_take, Forall_drop, laid_out_ctrl. Qed.

(** * Probe positions *)
Definition start_pos (h : Z) : nat := Z.to_nat (h mod Z.of_nat B).
Definition probe_pos (h : Z) (n : nat) : nat := (start_pos h + W * tri n) mod B.
Definition probes : nat := if B <? W then 1 else B / W.

(** The [n]th group of a probe has the byte of bucket [i] at position [j]. *)
Definition sees (h : Z) (n i : nat) : Prop :=
  exists j, j < W /\ padding B (probe_pos h n) j = false /\ (probe_pos h n + j) mod B = i.

Lemma probe_pos_lt h n : probe_pos h n < B.
Proof. apply Nat.mod_upper_bound. pose proof size_pos. lia. Qed.

Lemma probe_pos_S h n : probe_pos h (S n) = (probe_pos h n + W * S n) mod B.
Proof. unfold probe_pos. rewrite Nat.Div0.add_mod_idemp_l. f_equal. cbn [tri]. lia. Qed.

Lemma sees_byte h n i : sees h n i -> exists j, j < W /\ byte_at cs (probe_pos h n) j = cs !!! i.
Proof. intros (j & Hj & Hp & Hi). exists j. split; [done|]. unfold byte_at. by rewrite Hp, Hi. Qed.

Lemma sees_lt h n i : sees h n i -> i < B.
Proof. intros (j & _ & _ & <-). apply Nat.mod_upper_bound. pose proof size_pos. lia. Qed.

Lemma start_pos_lt h : start_pos h < B.
Proof.
  pose proof size_pos. unfold start_pos. pose proof (Z.mod_pos_bound h (Z.of_nat B) ltac:(lia)). lia.
Qed.

(** In a table smaller than a group the first group has every bucket. *)
Lemma small_sees h i : B < W -> i < B -> sees h 0 i.
Proof.
  intros Hw Hi. pose proof (start_pos_lt h) as Hs. unfold sees, probe_pos. cbn [tri].
  rewrite Nat.mul_0_r, Nat.add_0_r, (Nat.mod_small _ _ Hs).
  assert (W mod B = 0) as Hm by (rewrite Hk in *; by apply pow2_small).
  unfold padding. rewrite (proj2 (Nat.ltb_lt _ _) Hw). cbn [andb].
  destruct (Nat.le_gt_cases (start_pos h) i) as [Hle|Hgt].
  - exists (i - start_pos h). split; [lia|]. replace (start_pos h + (i - start_pos h)) with i by lia.
    rewrite (proj2 (Nat.leb_gt _ _)) by lia. split; [done|]. by apply Nat.mod_small.
  - exists (W + i - start_pos h). split; [lia|]. replace (start_pos h + (W + i - start_pos h)) with (W + i) by lia.
    rewrite (proj2 (Nat.ltb_ge _ _)) by lia. rewrite andb_false_r. split; [done|].
    rewrite <- Nat.Div0.add_mod_idemp_l, Hm. by apply Nat.mod_small.
Qed.

(** How far a bucket is from where the hash points. *)
Definition distance (h : Z) (i : nat) : nat := (i + B - start_pos h) mod B.

(** In a larger table a group has the buckets whose distances have its number. *)
Lemma sees_distance m h n i :
  B = W * 2 ^ m -> i < B -> sees h n i <-> distance h i / W = tri n mod 2 ^ m.
Proof.
  intros Em Hi. pose proof size_pos as HB. pose proof (start_pos_lt h) as Hs. pose proof width_ge.
  pose proof (Nat.pow_nonzero 2 m ltac:(lia)). assert (W <= B) as Hw by nia.
  assert ((W * tri n) mod B = W * (tri n mod 2 ^ m)) as Et by (by rewrite Em, Nat.Div0.mul_mod_distr_l).
  pose proof (Nat.mod_upper_bound (tri n) (2 ^ m) ltac:(lia)) as Hb. unfold sees, distance, probe_pos, padding.
  rewrite (proj2 (Nat.ltb_ge _ _) Hw). cbn [andb]. split.
  - intros (j & Hj & _ & <-). rewrite Nat.Div0.add_mod_idemp_l.
    rewrite <- (Nat.add_sub_assoc _ B (start_pos h)), Nat.Div0.add_mod_idemp_l by lia.
    replace (start_pos h + W * tri n + j + (B - start_pos h)) with (j + W * tri n + 1 * B) by lia.
    rewrite Nat.Div0.mod_add, <- Nat.Div0.add_mod_idemp_r, Et, Nat.mod_small by nia.
    rewrite (Nat.mul_comm W), Nat.div_add, Nat.div_small by lia. done.
  - intros E. set (d := (i + B - start_pos h) mod B) in *. exists (d mod W).
    split; [apply Nat.mod_upper_bound; lia|]. split; [done|]. rewrite Nat.Div0.add_mod_idemp_l.
    replace (start_pos h + W * tri n + d mod W) with (start_pos h + d mod W + W * tri n) by lia.
    rewrite <- Nat.Div0.add_mod_idemp_r, Et, <- E.
    replace (start_pos h + d mod W + W * (d / W)) with (start_pos h + d)
      by (pose proof (Nat.div_mod_eq d W); lia).
    unfold d. rewrite Nat.Div0.add_mod_idemp_r.
    replace (start_pos h + (i + B - start_pos h)) with (i + 1 * B) by lia.
    rewrite Nat.Div0.mod_add. by apply Nat.mod_small.
Qed.

(** Every bucket is in one of the groups of every probe. *)
Lemma probe_covers h i : i < B -> exists n, n < probes /\ sees h n i.
Proof.
  intros Hi. unfold probes. destruct (Nat.ltb_spec B W) as [Hw|Hw]; [exists 0; split; [lia|by apply small_sees]|].
  destruct (pow2_large k) as [m Em]; [by rewrite <- Hk|]. rewrite <- Hk in Em. pose proof width_ge.
  assert (distance h i / W < 2 ^ m) as Hd.
  { apply Nat.Div0.div_lt_upper_bound. rewrite <- Em. apply Nat.mod_upper_bound. lia. }
  destruct (tri_reaches m (distance h i / W) Hd) as (n & Hn & E). exists n.
  split; [rewrite Em, (Nat.mul_comm W), Nat.div_mul by lia; done|]. by apply (sees_distance m).
Qed.
End Layout.

(** The first mark is the lowest. *)
Lemma trues_sorted bs j js i : trues bs = j :: js -> i ∈ trues bs -> j <= i.
Proof.
  revert j js i. induction bs as [|b bs IH]; intros j js i; cbn; [done|]. destruct b; cbn.
  - intros [= <- _] _. lia.
  - destruct (trues bs) as [|j' js'] eqn:E; [done|]. intros [= <- _] Hi.
    change (S <$> (j' :: js')) with (S <$> (j' :: js')) in Hi. apply list_elem_of_fmap in Hi as (i' & -> & Hi').
    pose proof (IH j' js' i' eq_refl Hi'). lia.
Qed.

(** * Tables in memory *)
Section Repr.
Context `{GroupLaws} {T : Type}.
Local Notation W := WIDTH.

(** A table whose buckets have the control bytes [cs]. *)
Record Repr (t : RawTable T) (cs : list Z) (k : nat) : Prop := {
  rep_size : length cs = 2 ^ k;
  rep_k : 2 <= k <= 62;
  rep_mask : bucket_mask t = (Z.of_nat (length cs) - 1)%Z;
  rep_ctrl : ctrl t = laid_out cs;
  rep_bytes : Forall is_ctrl cs;
  rep_data : length (data t) = length cs
}.

Lemma land_mask (cs : list Z) k (a : Z) :
  length cs = 2 ^ k -> Z.land a (Z.of_nat (length cs) - 1) = (a mod Z.of_nat (length cs))%Z.
Proof.
  intros Hk. assert (Z.of_nat (length cs) = 2 ^ Z.of_nat k)%Z as -> by (by rewrite Hk, Nat2Z.inj_pow).
  rewrite <- Z.land_ones by lia. by rewrite Z.ones_equiv, Z.sub_1_r.
Qed.

Context (t : RawTable T) (cs : list Z) (k : nat) (R : Repr t cs k).
Local Notation B := (length cs).

Lemma rep_size_bound : 4 <= B /\ (Z.of_nat B <= 2 ^ 62)%Z.
Proof.
  destruct R as [E [Hlo Hhi] _ _ _ _]. rewrite E, Nat2Z.inj_pow. split.
  - change 4 with (2 ^ 2). by apply Nat.pow_le_mono_r.
  - change (Z.of_nat 2) with 2%Z. apply Z.pow_le_mono_r; lia.
Qed.

Lemma mask_nat (a : nat) : Z.land (Z.of_nat a) (bucket_mask t) = Z.of_nat (a mod B).
Proof.
  rewrite (rep_mask _ _ _ R), (land_mask _ k) by apply R. by rewrite Nat2Z.inj_mod.
Qed.

Lemma mask_Z (a : Z) : Z.land a (bucket_mask t) = (a mod Z.of_nat B)%Z.
Proof. rewrite (rep_mask _ _ _ R). apply (land_mask _ k), R. Qed.

Lemma buckets_nat : buckets t = Z.of_nat B.
Proof. unfold buckets. rewrite (rep_mask _ _ _ R). lia. Qed.

Lemma num_ctrl_nat : num_ctrl_bytes t = (Z.of_nat B + Z.of_nat W)%Z.
Proof. unfold num_ctrl_bytes. rewrite (rep_mask _ _ _ R). lia. Qed.

Lemma load_spec p : p < B -> load t (Z.of_nat p) = Ret (group_at cs p).
Proof.
  intros Hp. unfold load. rewrite num_ctrl_nat, (rep_ctrl _ _ _ R).
  rewrite (proj2 (Z.ltb_lt _ _)) by lia. cbn [require mbind exec_bind].
  unfold zlen. rewrite (length_laid_out cs k (rep_size _ _ _ R)).
  rewrite (proj2 (Z.leb_le _ _)) by lia. by rewrite Nat2Z.id.
Qed.

Lemma load_aligned_spec p : p < B -> p mod W = 0 -> load_aligned t (Z.of_nat p) = Ret (group_at cs p).
Proof.
  intros Hp Hm. unfold load_aligned. rewrite <- Nat2Z.inj_mod, Hm. by apply load_spec.
Qed.

Lemma read_ctrl_spec i : i < B -> read_ctrl t (Z.of_nat i) = Ret (cs !!! i).
Proof.
  intros Hi. unfold read_ctrl. rewrite num_ctrl_nat, (rep_ctrl _ _ _ R), Nat2Z.id.
  rewrite (proj2 (Z.ltb_lt _ _)) by lia. cbn [require mbind exec_bind].
  pose proof (laid_out_lookup cs k (rep_size _ _ _ R) i 0 Hi ltac:(pose proof width_ge; lia)) as E.
  rewrite Nat.add_0_r in E. rewrite E. unfold byte_at, padding. rewrite Nat.add_0_r.
  rewrite (proj2 (Nat.leb_gt _ _)) by lia. rewrite andb_false_r. cbn [andb]. by rewrite Nat.mod_small.
Qed.

(** The groups of a probe, as the code walks them. *)
Definition at_probe (h : Z) (n : nat) : ProbeSeq :=
  {| pos := Z.of_nat (probe_pos cs h n); stride := Z.of_nat (W * n) |}.

Lemma probe_seq_spec h : (0 <= h)%Z -> probe_seq t h = at_probe h 0.
Proof.
  intros Hh. unfold probe_seq, at_probe. rewrite mask_Z, Nat.mul_0_r. f_equal.
  unfold h1, probe_pos, start_pos. cbn [tri]. rewrite Nat.mul_0_r, Nat.add_0_r.
  pose proof rep_size_bound. pose proof (Z.mod_pos_bound h (Z.of_nat B) ltac:(lia)).
  rewrite Nat.mod_small by lia. lia.
Qed.

Lemma probes_pos : 0 < probes cs.
Proof.
  unfold probes. destruct (Nat.ltb_spec B W); [lia|]. apply Nat.div_str_pos. pose proof width_ge. lia.
Qed.

Lemma move_next_spec h n : n < probes cs -> move_next (at_probe h n) (bucket_mask t) = Ret (at_probe h (S n)).
Proof.
  intros Hn. unfold move_next. cbn [at_probe stride pos]. rewrite (proj2 (Z.leb_le _ _)).
  - cbn [require mbind exec_bind]. unfold at_probe. f_equal. rewrite (probe_pos_S cs k (rep_size _ _ _ R)).
    replace (Z.of_nat (W * n) + Z.of_nat W)%Z with (Z.of_nat (W * S n)) by lia. f_equal.
    rewrite <- Nat2Z.inj_add. apply mask_nat.
  - rewrite (rep_mask _ _ _ R). pose proof rep_size_bound. unfold probes in Hn.
    destruct (Nat.ltb_spec B W); [assert (n = 0) as -> by lia; lia|].
    pose proof (Nat.Div0.mul_div_le B W). nia.
Qed.

Lemma probe_fuel_spec : probes cs <= probe_fuel t.
Proof.
  unfold probe_fuel, probes. rewrite buckets_nat, <- Nat2Z.inj_div, Nat2Z.id. destruct (B <? W); lia.
Qed.

(** All the bytes of a group are full, or none is empty. *)
Definition all_full (p : nat) : Prop := forall j, j < W -> is_full (byte_at cs p j) = true.
Definition none_empty (p : nat) : Prop := forall j, j < W -> byte_at cs p j <> EMPTY.

Lemma all_full_none_empty p : all_full p -> none_empty p.
Proof. intros Hf j Hj E. specialize (Hf j Hj). by rewrite E in Hf. Qed.

Definition special_at (i : nat) : Prop := i < B /\ is_full (cs !!! i) = false.

(** What [find_insert_slot] finds: a bucket that is free, in the first group of the
    probe that has one. *)
Definition insert_slot (h : Z) (i : nat) : Prop :=
  special_at i /\ exists n, sees cs h n i /\ forall m, m < n -> all_full (probe_pos cs h m).

Lemma special_bits p :
  p < B -> match_empty_or_deleted (group_at cs p)
           = mark BITMASK_STRIDE ((fun c => negb (is_full c)) <$> group_at cs p).
Proof.
  intros Hp. apply match_special_marks.
  - by apply (length_group_at cs k (rep_size _ _ _ R)).
  - apply group_at_ctrl, R.
Qed.

Lemma group_trues p (f : Z -> bool) j :
  p < B -> j ∈ trues (f <$> group_at cs p) <-> j < W /\ f (byte_at cs p j) = true.
Proof.
  intros Hp. rewrite elem_of_trues, list_lookup_fmap. split.
  - intros E. destruct (Nat.lt_ge_cases j W) as [Hj|Hj].
    + rewrite (group_at_lookup cs k (rep_size _ _ _ R)) in E by done. cbn in E. split; [done|congruence].
    + rewrite lookup_ge_None_2 in E; [done|]. rewrite (length_group_at cs k (rep_size _ _ _ R)) by done. done.
  - intros [Hj E]. rewrite (group_at_lookup cs k (rep_size _ _ _ R)) by done. cbn. by rewrite E.
Qed.

Lemma head_trues_min bs j : head (trues bs) = Some j -> bs !! j = Some true.
Proof. intros E. apply elem_of_trues. destruct (trues bs); [done|]. injection E as ->. by left. Qed.

Lemma byte_at_0 j : j < B -> byte_at cs 0 j = cs !!! j.
Proof.
  intros Hj. unfold byte_at, padding. rewrite Nat.add_0_l, (proj2 (Nat.leb_gt _ _)) by lia.
  rewrite andb_false_r. cbn [andb]. by rewrite Nat.mod_small.
Qed.

(** The free slot of the first group, in a table smaller than a group. *)
Lemma small_slot :
  B < W -> (exists i, special_at i) ->
  exists i, trailing_zeros (match_empty_or_deleted (group_at cs 0)) = Z.of_nat i /\ special_at i.
Proof.
  intros Hw [i [Hi Hs]]. pose proof rep_size_bound as [HB _]. rewrite special_bits by lia.
  rewrite trailing_zeros_mark by (rewrite length_fmap; apply (length_group_at cs k (rep_size _ _ _ R)); lia).
  set (bs := (fun c => negb (is_full c)) <$> group_at cs 0).
  assert (i ∈ trues bs) as Hin.
  { unfold bs. rewrite group_trues by lia. split; [lia|]. rewrite byte_at_0 by done. by rewrite Hs. }
  destruct (trues bs) as [|j js] eqn:E; [by apply elem_of_nil in Hin|]. cbn [head].
  exists j. split; [done|]. assert (j <= i) as Hle.
  { apply (trues_sorted bs j js i E). by rewrite E. }
  assert (j ∈ trues bs) as Hj by (rewrite E; by left). unfold bs in Hj.
  rewrite group_trues, byte_at_0 in Hj by lia. destruct Hj as [_ Hj]. split; [lia|].
  by destruct (is_full (cs !!! j)).
Qed.

Lemma insert_slot_loop_spec fuel h n :
  n < probes cs -> probes cs - n <= fuel ->
  (forall m, m < n -> all_full (probe_pos cs h m)) -> (exists i, special_at i) ->
  exists i, insert_slot_loop fuel t (at_probe h n) = Ret (Z.of_nat i) /\ insert_slot h i.
Proof.
  revert n. induction fuel as [|fuel IH]; intros n Hn Hf Hfull Hspec; [lia|]. cbn [insert_slot_loop].
  pose proof rep_size_bound as [HB _]. assert (probe_pos cs h n < B) as Hp by (exact (probe_pos_lt cs k (rep_size _ _ _ R) h n)).
  cbn [at_probe pos]. rewrite load_spec by done. cbn [mbind exec_bind].
  rewrite special_bits, lowest_set_bit_mark
    by (try done; rewrite length_fmap; by apply (length_group_at cs k (rep_size _ _ _ R))).
  destruct (trues _) as [|j js] eqn:E; cbn [head fmap option_fmap option_map].
  - assert (all_full (probe_pos cs h n)) as Hall.
    { intros j Hj. destruct (is_full (byte_at cs (probe_pos cs h n) j)) eqn:F; [done|]. exfalso.
      assert (j ∈ trues ((fun c => negb (is_full c)) <$> group_at cs (probe_pos cs h n))) as Hin
        by (rewrite group_trues by done; by rewrite F).
      rewrite E in Hin. by apply elem_of_nil in Hin. }
    change {| pos := _; stride := _ |} with (at_probe h n). rewrite move_next_spec by done. cbn [mbind exec_bind].
    apply IH; [|lia| |done].
    + destruct Hspec as [i [Hi Hs]]. destruct (probe_covers cs k (rep_size _ _ _ R) h i Hi) as (m & Hm & Hsee).
      destruct (sees_byte cs h m i Hsee) as (j & Hj & Ej). destruct (Nat.lt_ge_cases (S n) (probes cs)); [done|].
      exfalso. assert (all_full (probe_pos cs h m)) as Ha.
      { destruct (decide (m = n)) as [->|]; [done|]. apply Hfull. lia. }
      specialize (Ha j Hj). rewrite Ej, Hs in Ha. done.
    + intros m Hm. destruct (decide (m = n)) as [->|]; [done|]. apply Hfull. lia.
  - assert (j < W /\ is_full (byte_at cs (probe_pos cs h n) j) = false) as [Hj Hs].
    { assert (j ∈ trues ((fun c => negb (is_full c)) <$> group_at cs (probe_pos cs h n))) as Hin by (rewrite E; by left).
      rewrite group_trues in Hin by done. destruct Hin as [? Hin]. split; [done|]. by destruct (is_full _). }
    rewrite <- Nat2Z.inj_add, mask_nat. set (i := (probe_pos cs h n + j) mod B).
    assert (i < B) as Hi by (apply Nat.mod_upper_bound; lia). rewrite read_ctrl_spec by done. cbn [mbind exec_bind].
    destruct (padding B (probe_pos cs h n) j) eqn:P.
    + unfold padding in P. apply andb_prop in P as [P _]. apply andb_prop in P as [Hsmall%Nat.ltb_lt Hpad%Nat.leb_le].
      assert (n = 0) as -> by (unfold probes in Hn; rewrite (proj2 (Nat.ltb_lt _ _) Hsmall) in Hn; lia).
      assert (forall i, special_at i -> insert_slot h i) as Hslot.
      { intros i' Hi'. split; [done|]. exists 0. split; [|lia].
        destruct (probe_covers cs k (rep_size _ _ _ R) h i' (proj1 Hi')) as (m & Hm & Hsee).
        unfold probes in Hm. rewrite (proj2 (Nat.ltb_lt _ _) Hsmall) in Hm. by assert (m = 0) as -> by lia. }
      destruct (is_full (cs !!! i)) eqn:Hfi.
      * rewrite (rep_mask _ _ _ R). rewrite (proj2 (Z.ltb_lt _ _)) by lia. cbn [require mbind exec_bind].
        rewrite (proj2 (Z.eqb_neq _ _)).
        2:{ intros Hz. assert (probe_pos cs h 0 = 0) as Ep by lia. rewrite Ep in E, Hpad.
            destruct Hspec as [i0 [Hi0 Hs0]].
            assert (j <= i0); [|lia]. apply (trues_sorted _ j js i0 E). rewrite group_trues by lia.
            split; [lia|]. by rewrite byte_at_0, Hs0. }
        cbn [negb require mbind exec_bind]. change 0%Z with (Z.of_nat 0). rewrite (load_aligned_spec 0) by (lia || by apply Nat.Div0.mod_0_l).
        cbn [mbind exec_bind]. destruct (small_slot Hsmall Hspec) as (i' & -> & Hi'). eauto.
      * exists i. split; [done|]. by apply Hslot.
    + assert (is_full (cs !!! i) = false) as Hfi.
      { unfold byte_at in Hs. by rewrite P in Hs. }
      rewrite Hfi. exists i. split; [done|]. split; [done|]. exists n. split; [|done]. by exists j.
Qed.

Lemma find_insert_slot_spec h :
  (0 <= h)%Z -> (exists i, special_at i) ->
  exists i, find_insert_slot t h = Ret (Z.of_nat i) /\ insert_slot h i.
Proof.
  intros Hh Hs. unfold find_insert_slot. rewrite probe_seq_spec by done.
  apply insert_slot_loop_spec; [apply probes_pos|rewrite Nat.sub_0_r; apply probe_fuel_spec|lia|done].
Qed.

(** * The search *)
Section Find.
Context (eq : Z -> exec bool) (eqb : nat -> bool).
Context (Heq : forall i, i < B -> is_full (cs !!! i) = true -> eq (Z.of_nat i) = Ret (eqb i)).

Lemma full_byte p j : is_full (byte_at cs p j) = true -> byte_at cs p j = cs !!! ((p + j) mod B) /\ padding B p j = false.
Proof. unfold byte_at. by destruct (padding B p j). Qed.

Lemma find_bits_spec p js :
  Forall (fun j => is_full (byte_at cs p j) = true) js ->
  find_bits t (Z.of_nat p) eq (Z.of_nat <$> js)
  = Ret (Z.of_nat <$> List.find eqb ((fun j => (p + j) mod B) <$> js)).
Proof.
  induction js as [|j js IH]; intros Hf; [done|]. apply Forall_cons_1 in Hf as [Hj Hf].
  rewrite !fmap_cons. cbn [find_bits List.find]. rewrite <- Nat2Z.inj_add, mask_nat.
  destruct (full_byte p j Hj) as [E _]. rewrite E in Hj. pose proof rep_size_bound.
  rewrite Heq by (try done; apply Nat.mod_upper_bound; lia). cbn [mbind exec_bind].
  destruct (eqb _); [done|]. by apply IH.
Qed.

Lemma candidates b p :
  p < B -> (0 <= b < 128)%Z ->
  exists js, into_iter (match_byte (group_at cs p) b) = Z.of_nat <$> js
    /\ Forall (fun j => j < W /\ is_full (byte_at cs p j) = true) js
    /\ forall j, j < W -> byte_at cs p j = b -> j ∈ js.
Proof.
  intros Hp Hb. pose proof (length_group_at cs k (rep_size _ _ _ R) p Hp) as Hl.
  destruct (match_byte_marks (group_at cs p) b Hl) as (bs & -> & Hbl & Hbs);
    [apply group_at_ctrl, R|done|]. rewrite Hl in Hbl.
  exists (trues bs). rewrite into_iter_mark by done. split; [done|]. split.
  - apply list.Forall_forall. intros j Hj. pose proof (trues_bound bs Hbl j Hj) as Hlt. split; [done|].
    apply elem_of_trues in Hj. by apply (Hbs j _ (group_at_lookup cs k (rep_size _ _ _ R) p j Hp Hlt)).
  - intros j Hj E. apply elem_of_trues.
    by apply (Hbs j _ (group_at_lookup cs k (rep_size _ _ _ R) p j Hp Hj)).
Qed.

Lemma any_empty p : p < B -> any_bit_set (match_empty (group_at cs p)) = false <-> none_empty p.
Proof.
  intros Hp. pose proof (length_group_at cs k (rep_size _ _ _ R) p Hp) as Hl.
  rewrite match_empty_marks by (done || apply group_at_ctrl, R).
  rewrite any_bit_set_mark by (by rewrite length_fmap). rewrite bool_decide_eq_false. split.
  - intros E j Hj He. apply E. intros E'.
    assert (j ∈ trues ((fun c => c =? EMPTY)%Z <$> group_at cs p)) as Hin by (rewrite group_trues by done; by rewrite He).
    rewrite E' in Hin. by apply elem_of_nil in Hin.
  - intros Hne Ht. destruct (trues _) as [|j js'] eqn:E; [done|].
    assert (j ∈ trues ((fun c => c =? EMPTY)%Z <$> group_at cs p)) as Hin by (rewrite E; by left).
    rewrite group_trues in Hin by done. destruct Hin as [Hj He%Z.eqb_eq]. by apply (Hne j).
Qed.

(** A bucket with hash byte [b] that the probe for [h] reaches from its [n]th group
    on, before it sees an empty bucket. *)
Definition reached (h : Z) (n : nat) (i : nat) : Prop :=
  exists m, n <= m /\ sees cs h m i /\ forall m', n <= m' < m -> none_empty (probe_pos cs h m').

Lemma find_loop_spec fuel h b n :
  n < probes cs -> probes cs - n <= fuel -> (0 <= b < 128)%Z ->
  (exists i m, i < B /\ cs !!! i = EMPTY /\ sees cs h m i /\ n <= m < probes cs) ->
  exists r, find_loop fuel t b eq (at_probe h n) = Ret (Z.of_nat <$> r)
    /\ match r with
       | Some i => i < B /\ is_full (cs !!! i) = true /\ eqb i = true
       | None => forall i, reached h n i -> cs !!! i = b -> eqb i = false
       end.
Proof.
  revert n. induction fuel as [|fuel IH]; intros n Hn Hf Hb Hemp; [lia|]. cbn [find_loop].
  assert (probe_pos cs h n < B) as Hp by (exact (probe_pos_lt cs k (rep_size _ _ _ R) h n)).
  cbn [at_probe pos]. rewrite load_spec by done. cbn [mbind exec_bind].
  destruct (candidates b _ Hp Hb) as (js & -> & Hjs & Hall).
  rewrite find_bits_spec by (eapply list.Forall_impl; [exact Hjs|by intros ? []]). cbn [mbind exec_bind].
  destruct (List.find _ _) as [i|] eqn:F; cbn [fmap option_fmap option_map].
  - exists (Some i). split; [done|]. apply List.find_some in F as [Hin Hi].
    apply list_elem_of_In, list_elem_of_fmap in Hin as (j & -> & Hj).
    rewrite list.Forall_forall in Hjs. destruct (Hjs j Hj) as [_ Hfull]. destruct (full_byte _ _ Hfull) as [E _].
    rewrite <- E. pose proof rep_size_bound. split; [apply Nat.mod_upper_bound; lia|done].
  - assert (forall i, sees cs h n i -> cs !!! i = b -> eqb i = false) as Hnone.
    { intros i (j & Hj & Hpad & Ei) Ec. apply (List.find_none _ _ F i). apply list_elem_of_In, list_elem_of_fmap.
      exists j. split; [done|]. apply Hall; [done|]. unfold byte_at. by rewrite Hpad, Ei. }
    destruct (any_bit_set _) eqn:A.
    + exists None. split; [done|]. intros i (m & Hm & Hsee & Hbefore) Ec.
      destruct (decide (m = n)) as [->|]; [by apply Hnone|].
      exfalso. specialize (Hbefore n ltac:(lia)). apply any_empty in Hbefore; [congruence|done].
    + apply any_empty in A as Hne; [|done]. change {| pos := _; stride := _ |} with (at_probe h n).
      rewrite move_next_spec by done. cbn [mbind exec_bind].
      destruct Hemp as (i0 & m0 & Hi0 & He0 & Hsee0 & Hm0).
      assert (m0 <> n).
      { intros ->. destruct (sees_byte cs h n i0 Hsee0) as (j & Hj & Ej). apply (Hne j Hj). congruence. }
      destruct (IH (S n)) as (r & Er & Hr); [lia|lia|done|exists i0, m0; repeat split; (done || lia)|].
      exists r. split; [done|]. destruct r as [i|]; [done|]. intros i (m & Hm & Hsee & Hbefore) Ec.
      destruct (decide (m = n)) as [->|]; [by apply Hnone|]. apply Hr; [|done].
      exists m. split; [lia|]. split; [done|]. intros m' Hm'. apply Hbefore. lia.
Qed.

Lemma find_inner_spec h :
  (0 <= h)%Z -> (exists i, i < B /\ cs !!! i = EMPTY) ->
  exists r, find_inner t h eq = Ret (Z.of_nat <$> r)
    /\ match r with
       | Some i => i < B /\ is_full (cs !!! i) = true /\ eqb i = true
       | None => forall i, reached h 0 i -> cs !!! i = h2 h -> eqb i = false
       end.
Proof.
  intros Hh (i & Hi & He). unfold find_inner. rewrite probe_seq_spec by done. apply find_loop_spec.
  - apply probes_pos.
  - rewrite Nat.sub_0_r. apply probe_fuel_spec.
  - unfold h2. change 127%Z with (Z.ones 7). rewrite Z.land_ones by lia. apply Z.mod_pos_bound. lia.
  - destruct (probe_covers cs k (rep_size _ _ _ R) h i Hi) as (m & Hm & Hsee).
    exists i, m. repeat split; (done || lia).
Qed.
End Find.
End Repr.

(** * Coverage, on the code's own numbers *)

(** A probe sequence after [n] moves. *)
Fixpoint moves `{Group} (n : nat) (p : ProbeSeq) (mask : Z) : exec ProbeSeq :=
  match n with
  | O => Ret p
  | S n => p ← moves n p mask; move_next p mask
  end.

Definition some_table `{Group} (k : nat) : RawTable unit :=
  {| bucket_mask := Z.of_nat (2 ^ k) - 1; ctrl := laid_out (replicate (2 ^ k) EMPTY);
     data := replicate (2 ^ k) None; growth_left := 0; items := 0 |}.

Lemma some_table_repr `{GroupLaws} k : 2 <= k <= 62 -> Repr (some_table k) (replicate (2 ^ k) EMPTY) k.
Proof.
  intros Hk. split; cbn [bucket_mask ctrl data some_table]; rewrite ?length_replicate; try done.
  apply Forall_replicate. by left.
Qed.

(** In a table of [2 ^ k] buckets, a probe from any hash comes to every bucket: with
    fewer than [2 ^ k / WIDTH] moves (none, when the table is smaller than a group)
    [move_next] does not panic, and the group it stops at has the bucket. *)
Theorem probe_seq_covers `{GroupLaws} k h i :
  2 <= k <= 62 -> (0 <= h < 2 ^ 64)%Z -> (0 <= i < 2 ^ Z.of_nat k)%Z ->
  exists n p j, n < Nat.max 1 (2 ^ k / WIDTH)
    /\ moves n (probe_seq (some_table k) h) (2 ^ Z.of_nat k - 1) = Ret p
    /\ j < WIDTH /\ Z.land (pos p + Z.of_nat j) (2 ^ Z.of_nat k - 1) = i.
Proof.
  intros Hk Hh Hi. pose proof (some_table_repr k Hk) as R. set (cs := replicate (2 ^ k) EMPTY) in *.
  assert (length cs = 2 ^ k) as Hlen by apply length_replicate.
  assert (bucket_mask (some_table k) = 2 ^ Z.of_nat k - 1)%Z as Em.
  { cbn. by rewrite Nat2Z.inj_pow. }
  rewrite <- Em. assert (Z.to_nat i < length cs) as Hlt.
  { rewrite Hlen. apply Nat2Z.inj_lt. rewrite Nat2Z.inj_pow. change (Z.of_nat 2) with 2%Z. lia. }
  destruct (probe_covers cs k Hlen h (Z.to_nat i) Hlt) as (n & Hn & j & Hj & _ & Ei).
  exists n, (at_probe cs h n), j. split; [|split; [|split; [done|]]].
  - unfold probes in Hn. rewrite Hlen in Hn. destruct (_ <? _); lia.
  - rewrite (probe_seq_spec _ cs k R h ltac:(lia)). clear Ei. induction n as [|n IH]; [done|]. cbn [moves].
    rewrite IH by lia. cbn [mbind exec_bind]. apply (move_next_spec _ cs k R). lia.
  - cbn [pos at_probe]. rewrite <- Nat2Z.inj_add, (mask_nat _ cs k R), Ei. lia.
Qed.

Lemma probe_seq_covers_witness :
  exists n p j, n < Nat.max 1 (2 ^ 6 / WIDTH (Group := Sse2.group))
    /\ moves (H := Sse2.group) n (probe_seq (some_table (H := Sse2.group) 6) 1000) (2 ^ Z.of_nat 6 - 1) = Ret p
    /\ j < WIDTH (Group := Sse2.group) /\ Z.land (pos p + Z.of_nat j) (2 ^ Z.of_nat 6 - 1) = 5%Z.
Proof. apply (probe_seq_covers (H := Sse2.group) 6 1000 5); lia. Defined.

(** * Writing control bytes

    Writing control bytes.

    [set_ctrl] keeps the copies at the end of the control bytes in step; what
    [erase] writes is [EMPTY] only if no probe passes over the bucket. *)

Section Ctrl.
Context `{GroupLaws} {T : Type} (t : RawTable T) (cs : list Z) (k : nat) (R : Repr t cs k).
Local Notation W := WIDTH.
Local Notation B := (length cs).

(** The bucket a group's width before another. *)
Definition before (i : nat) : nat := (i + B * W - W) mod B.

Lemma index_before_spec i :
  Z.land (wrap 64 (Z.of_nat i - Z.of_nat W)) (bucket_mask t) = Z.of_nat (before i).
Proof.
  pose proof (rep_size_bound t cs k R) as [HB _]. rewrite (mask_Z t cs k R).
  assert (Z.of_nat B = 2 ^ Z.of_nat k)%Z as EB by (by rewrite (rep_size _ _ _ R), Nat2Z.inj_pow).
  pose proof (rep_k _ _ _ R). unfold wrap, before.
  rewrite EB, <- Znumtheory.Zmod_div_mod, <- EB; [|rewrite <- EB; lia|lia|].
  - rewrite Nat2Z.inj_mod. symmetry. replace (Z.of_nat (i + B * W - W))
      with (Z.of_nat i - Z.of_nat W + Z.of_nat W * Z.of_nat B)%Z by nia. apply Z_mod_plus_full.
  - exists (2 ^ (64 - Z.of_nat k))%Z. rewrite <- Z.pow_add_r by lia. f_equal. lia.
Qed.

Lemma before_lt i : before i < B.
Proof. pose proof (rep_size_bound t cs k R) as [HB _]. apply Nat.mod_upper_bound. lia. Qed.

Lemma before_small i : B < W -> i < B -> before i = i.
Proof.
  intros Hs Hi. assert (W mod B = 0) as Hm by (rewrite (rep_size _ _ _ R) in *; by apply pow2_small).
  apply Nat.Div0.mod_divides in Hm as [c Hc]. unfold before.
  replace (i + B * W - W) with (i + (W - c) * B) by nia. rewrite Nat.Div0.mod_add. by apply Nat.mod_small.
Qed.

Lemma before_large i : W <= B -> i < B -> before i = if i <? W then i + B - W else i - W.
Proof.
  intros Hs Hi. pose proof (rep_size_bound t cs k R) as [HB _]. pose proof width_ge. unfold before.
  destruct (Nat.ltb_spec i W).
  - replace (i + B * W - W) with (i + B - W + (W - 1) * B) by nia. rewrite Nat.Div0.mod_add. apply Nat.mod_small. lia.
  - replace (i + B * W - W) with (i - W + W * B) by nia. rewrite Nat.Div0.mod_add. apply Nat.mod_small. lia.
Qed.

Lemma laid_out_insert i c :
  i < B -> <[before i + W := c]> (<[i := c]> (laid_out cs)) = laid_out (<[i := c]> cs).
Proof.
  intros Hi. unfold laid_out. rewrite length_insert. destruct (Nat.ltb_spec B W) as [Hs|Hs].
  - rewrite before_small by done. rewrite insert_app_l by done.
    rewrite insert_app_r_alt by (rewrite length_insert; lia). f_equal.
    rewrite insert_app_r_alt by (rewrite length_insert, length_replicate; lia). do 2 f_equal.
    rewrite length_insert, length_replicate. lia.
  - rewrite before_large by done. rewrite insert_app_l by done. destruct (Nat.ltb_spec i W).
    + rewrite insert_app_r_alt by (rewrite length_insert; lia). f_equal. rewrite length_insert.
      rewrite take_insert_lt by lia. f_equal. lia.
    + rewrite Nat.sub_add by lia. rewrite insert_app_l by (rewrite length_insert; lia).
      rewrite list_insert_insert_eq. f_equal. by rewrite take_insert_ge.
Qed.

Lemma write_ctrl_spec (t' : RawTable T) i c :
  bucket_mask t' = bucket_mask t -> length (ctrl t') = B + W -> i < B + W ->
  write_ctrl t' (Z.of_nat i) c = Ret (with_ctrl t' (<[i := c]> (ctrl t'))).
Proof.
  intros Hm Hl Hi. unfold write_ctrl, num_ctrl_bytes, zlen. rewrite Hm, (rep_mask _ _ _ R), Hl, Nat2Z.id.
  rewrite !(proj2 (Z.ltb_lt _ _)) by lia. done.
Qed.

Lemma set_ctrl_eq i c :
  i < B -> set_ctrl t (Z.of_nat i) c = Ret (with_ctrl t (laid_out (<[i := c]> cs))).
Proof.
  intros Hi. unfold set_ctrl. rewrite index_before_spec.
  pose proof (length_laid_out cs k (rep_size _ _ _ R)) as Hl. rewrite <- (rep_ctrl _ _ _ R) in Hl.
  rewrite write_ctrl_spec by (done || lia). cbn [mbind exec_bind]. rewrite <- Nat2Z.inj_add.
  pose proof (before_lt i).
  rewrite write_ctrl_spec by (done || lia || (cbn; by rewrite length_insert)).
  cbn. by rewrite (rep_ctrl _ _ _ R), laid_out_insert.
Qed.

Lemma set_ctrl_repr i c :
  is_ctrl c -> Repr (with_ctrl t (laid_out (<[i := c]> cs))) (<[i := c]> cs) k.
Proof.
  intros Hc. destruct R as [E1 E2 E3 E4 E5 E6]. split; cbn; rewrite ?length_insert; try done.
  by apply Forall_insert.
Qed.

(** * Erasing *)

(** The bytes before the first and after the last that is marked. *)
Lemma head_false_ge bs n :
  length bs = W -> n <= W -> (forall j, j < n -> bs !! j <> Some true) ->
  n <= match head (trues bs) with Some i => i | None => W end.
Proof.
  intros Hl Hn Hf. destruct (trues bs) as [|i js] eqn:E; [done|]. cbn.
  destruct (Nat.lt_ge_cases i n) as [Hlt|]; [|done]. exfalso. apply (Hf i Hlt).
  apply elem_of_trues. rewrite E. by left.
Qed.

Lemma tail_false_ge bs n :
  n <= length bs -> (forall j, length bs - n <= j < length bs -> bs !! j <> Some true) ->
  n <= tail_false bs.
Proof.
  induction bs as [|b bs IH]; cbn [tail_false length]; [lia|]. intros Hn Hf. case_bool_decide as Ht.
  - destruct (decide (n = S (length bs))) as [->|].
    + specialize (Hf 0 ltac:(lia)). destruct b; [done|lia].
    + destruct b; lia.
  - assert (n <= length bs) as Hle.
    { destruct (decide (n = S (length bs))) as [->|]; [|lia]. exfalso. apply Ht.
      destruct (trues bs) as [|i js] eqn:E; [done|]. exfalso.
      assert (i ∈ trues bs) as Hi%elem_of_trues by (rewrite E; by left).
      apply (Hf (S i)); [|done]. pose proof (lookup_lt_Some _ _ _ Hi). lia. }
    apply IH; [done|]. intros j Hj. apply (Hf (S j)). lia.
Qed.

(** The empties a probe could stop at on either side of a bucket are so far apart
    that a group without empties could have it. *)
Definition spans (i : nat) : bool :=
  (Z.of_nat W <=? leading_zeros (match_empty (group_at cs (before i)))
                  + trailing_zeros (match_empty (group_at cs i)))%Z.

Lemma small_has_empty p : B < W -> p < B -> ~ none_empty cs p.
Proof.
  intros Hs Hp Hn. apply (Hn (B - p)); [lia|]. unfold byte_at, padding.
  rewrite (proj2 (Nat.ltb_lt _ _) Hs). replace (p + (B - p)) with B by lia.
  by rewrite Nat.leb_refl, (proj2 (Nat.ltb_lt _ _) Hs).
Qed.

Lemma spans_spec p j :
  p < B -> none_empty cs p -> j < W -> padding B p j = false -> spans ((p + j) mod B) = true.
Proof.
  intros Hp Hn Hj Hpad. destruct (Nat.lt_ge_cases B W) as [Hs|Hs]; [by apply small_has_empty in Hn|].
  pose proof (rep_size_bound t cs k R) as [HB _]. set (i := (p + j) mod B).
  assert (i < B) as Hi by (apply Nat.mod_upper_bound; lia). unfold spans.
  pose proof (before_lt i) as Hb. pose proof (rep_size _ _ _ R) as Hk. pose proof (rep_bytes _ _ _ R) as Hc.
  rewrite !match_empty_marks by (by apply (length_group_at cs k Hk) || by apply group_at_ctrl).
  rewrite leading_zeros_mark, trailing_zeros_mark by (rewrite length_fmap; by apply (length_group_at cs k Hk)).
  assert (forall q a, q < B -> a < W -> byte_at cs q a = cs !!! ((q + a) mod B)) as Hbyte.
  { intros q a _ _. unfold byte_at, padding. by rewrite (proj2 (Nat.ltb_ge _ _) Hs). }
  assert (forall q a, q < B -> a < W -> cs !!! ((q + a) mod B) <> EMPTY ->
    ((fun c => c =? EMPTY)%Z <$> group_at cs q) !! a <> Some true) as Hlook.
  { intros q a Hq Ha Hne. rewrite list_lookup_fmap, (group_at_lookup cs k Hk), Hbyte by done. cbn.
    intros [= E%Z.eqb_eq]. done. }
  assert (j <= tail_false ((fun c => c =? EMPTY)%Z <$> group_at cs (before i))) as H1.
  { apply tail_false_ge; rewrite length_fmap, (length_group_at cs k Hk) by done; [lia|].
    intros a Ha. apply Hlook; [done|lia|]. specialize (Hn (a - (W - j)) ltac:(lia)).
    rewrite Hbyte in Hn by lia. intros E. apply Hn. rewrite <- E. f_equal.
    unfold before, i. rewrite Nat.Div0.add_mod_idemp_l.
    assert (1 <= B) by lia.
    replace (((p + j) mod B + B * W - W + a)) with ((p + j) mod B + (B * W - W + a)) by nia.
    rewrite Nat.Div0.add_mod_idemp_l.
    replace (p + j + (B * W - W + a)) with (p + (a - (W - j)) + W * B) by nia. by rewrite Nat.Div0.mod_add. }
  assert (W - j <= match head (trues ((fun c => c =? EMPTY)%Z <$> group_at cs i)) with Some i => i | None => W end) as H2.
  { apply head_false_ge; [by rewrite length_fmap, (length_group_at cs k Hk)|lia|].
    intros a Ha. apply Hlook; [done|lia|]. specialize (Hn (j + a) ltac:(lia)).
    rewrite Hbyte in Hn by lia. intros E. apply Hn. rewrite <- E. f_equal.
    unfold i. rewrite Nat.Div0.add_mod_idemp_l. f_equal. lia. }
  apply Z.leb_le. destruct (head _); lia.
Qed.
End Ctrl.
