(* ===== verification/HashInv.v ===== *)
(** HashInv: the invariant of the hash table and the operations that do not grow it.

    [Table t l]: the table [t] holds the values of the list [l], in some order.  Its
    full buckets carry the byte of their value's hash and are reached by the probe
    for that hash before an empty bucket; [items] and [growth_left] count.  [find]
    finds what the table holds, inserting into a free slot adds a value, [erase]
    takes one away. *)
From Stdlib Require Import ZArith Lia.
From stdpp Require Import base numbers list option sets tactics.
From S2P Require Import Prelude HashGroup HashGroupLaws HashRaw HashProbe.
Local Open Scope nat_scope.

(** * What the buckets hold *)
Definition is_used (c : Z) : bool := negb (c =? EMPTY)%Z.

Section Held.
Context {T : Type} (f : Z -> bool).

(** The values of the buckets whose control byte satisfies [f]. *)
Definition slot (c : Z) (d : option T) : list T :=
  if f c then match d with Some x => [x] | None => [] end else [].
Fixpoint held (cs : list Z) (ds : list (option T)) : list T :=
  match cs, ds with
  | c :: cs, d :: ds => slot c d ++ held cs ds
  | _, _ => []
  end.

Lemma held_app cs1 cs2 ds1 ds2 :
  length cs1 = length ds1 -> held (cs1 ++ cs2) (ds1 ++ ds2) = held cs1 ds1 ++ held cs2 ds2.
Proof.
  revert ds1. induction cs1 as [|c cs1 IH]; intros [|d ds1]; cbn; try done.
  intros [= E]. by rewrite IH, app_assoc.
Qed.

(** Taking one bucket out. *)
Definition others (i : nat) (cs : list Z) (ds : list (option T)) : list T :=
  held (take i cs) (take i ds) ++ held (drop (S i) cs) (drop (S i) ds).

Lemma held_at i c d cs ds :
  length cs = length ds -> cs !! i = Some c -> ds !! i = Some d -> held cs ds ≡ₚ slot c d ++ others i cs ds.
Proof.
  intros Hl Hc Hd. rewrite <- (take_drop_middle cs i c Hc) at 1. rewrite <- (take_drop_middle ds i d Hd) at 1.
  rewrite held_app by (rewrite !length_take; lia). cbn [held]. unfold others. solve_Permutation.
Qed.

Lemma others_insert i cs ds c : others i (<[i := c]> cs) ds = others i cs ds.
Proof. unfold others. by rewrite take_insert_ge, drop_insert_lt by lia. Qed.

Lemma others_write i cs ds d : others i cs (<[i := d]> ds) = others i cs ds.
Proof. unfold others. by rewrite take_insert_ge, drop_insert_lt by lia. Qed.

Lemma elem_of_held cs ds x :
  x ∈ held cs ds <-> exists i c, cs !! i = Some c /\ f c = true /\ ds !! i = Some (Some x).
Proof.
  revert ds. induction cs as [|c cs IH]; intros ds.
  - split; [by intros ?%elem_of_nil|]. by intros (i & c & Hc & _).
  - destruct ds as [|d ds]; [split; [by intros ?%elem_of_nil|by intros ([|i] & c' & _ & _ & ?)]|].
    cbn [held]. rewrite elem_of_app, IH. unfold slot. split.
    + intros [Hx|(i & c' & Hi)]; [|by exists (S i), c'].
      destruct (f c) eqn:F; [|by apply elem_of_nil in Hx]. destruct d as [y|]; [|by apply elem_of_nil in Hx].
      apply list_elem_of_singleton in Hx as ->. by exists 0, c.
    + intros ([|i] & c' & Hc & Hf & Hd); cbn in Hc, Hd.
      * left. injection Hc as ->. injection Hd as ->. rewrite Hf. by left.
      * right. by exists i, c'.
Qed.

Lemma held_none cs ds : (forall c, c ∈ cs -> f c = false) -> held cs ds = [].
Proof.
  revert ds. induction cs as [|c cs IH]; intros [|d ds] Hf; cbn; try done. unfold slot.
  rewrite (Hf c) by (by left). cbn. apply IH. intros c' Hc'. apply Hf. by right.
Qed.

(** A count of control bytes. *)
Fixpoint count (cs : list Z) : nat :=
  match cs with [] => 0 | c :: cs => (if f c then 1 else 0) + count cs end.

Lemma count_insert i c c' cs :
  cs !! i = Some c ->
  count (<[i := c']> cs) + (if f c then 1 else 0) = count cs + (if f c' then 1 else 0).
Proof.
  revert i. induction cs as [|b cs IH]; intros [|i]; [done|done| |].
  - intros [= ->]. cbn. lia.
  - intros E. specialize (IH i E). change (<[S i:=c']> (b :: cs)) with (b :: <[i:=c']> cs). cbn [count]. lia.
Qed.

Lemma count_le cs : count cs <= length cs.
Proof. induction cs as [|c cs IH]; cbn; [done|]. destruct (f c); lia. Qed.

Lemma count_lt cs : count cs < length cs -> exists i c, cs !! i = Some c /\ f c = false.
Proof.
  induction cs as [|c cs IH]; cbn; [lia|]. destruct (f c) eqn:F; [|by exists 0, c].
  intros Hlt. destruct IH as (i & c' & Hi & Hc); [lia|]. by exists (S i), c'.
Qed.

Lemma count_held cs ds :
  length cs = length ds -> (forall i c, cs !! i = Some c -> f c = true -> exists x, ds !! i = Some (Some x)) ->
  length (held cs ds) = count cs.
Proof.
  revert ds. induction cs as [|c cs IH]; intros [|d ds]; cbn; try done. intros [= Hl] Hd.
  rewrite length_app, IH; [|done|intros i c' Hi; exact (Hd (S i) c' Hi)]. f_equal. unfold slot.
  destruct (f c) eqn:F; [|done]. destruct (Hd 0 c eq_refl F) as [x [= ->]]. done.
Qed.

Lemma count_replicate n c : f c = false -> count (replicate n c) = 0.
Proof. intros F. induction n as [|n IH]; cbn; [done|]. by rewrite F. Qed.

Lemma count_zero cs : count cs = 0 -> forall c, c ∈ cs -> f c = false.
Proof.
  induction cs as [|b cs IH]; cbn; intros E c Hc; [by apply elem_of_nil in Hc|].
  destruct (f b) eqn:F; [lia|]. apply elem_of_cons in Hc as [->|Hc]; [done|]. apply IH; [lia|done].
Qed.
End Held.

Lemma count_mono (f g : Z -> bool) cs : (forall c, f c = true -> g c = true) -> count f cs <= count g cs.
Proof.
  intros Hfg. induction cs as [|c cs IH]; cbn; [done|]. specialize (Hfg c). destruct (f c), (g c); try lia.
Qed.

(** * Capacity *)
Definition cap_of (k : nat) : nat := if k <=? 3 then 2 ^ k - 1 else 7 * 2 ^ (k - 3).

Lemma cap_of_spec k : 2 <= k -> bucket_mask_to_capacity (Z.of_nat (2 ^ k) - 1) = Z.of_nat (cap_of k).
Proof.
  intros Hk. unfold bucket_mask_to_capacity, cap_of. destruct (Nat.leb_spec k 3).
  - assert (k = 2 \/ k = 3) as [-> | ->] by lia; done.
  - replace k with (k - 3 + 3) by lia. set (q := k - 3). replace (q + 3 - 3) with q by lia.
    rewrite Nat.pow_add_r. change (2 ^ 3) with 8.
    assert (2 <= 2 ^ q) by (change 2 with (2 ^ 1) at 1; apply Nat.pow_le_mono_r; lia).
    rewrite (proj2 (Z.ltb_ge _ _)) by lia. rewrite Z.sub_add, Nat2Z.inj_mul, Z.div_mul by lia. lia.
Qed.

Lemma cap_of_lt k : cap_of k < 2 ^ k.
Proof.
  unfold cap_of. pose proof (Nat.pow_nonzero 2 k ltac:(lia)). destruct (Nat.leb_spec k 3); [lia|].
  replace k with (k - 3 + 3) at 2 by lia. rewrite Nat.pow_add_r. change (2 ^ 3) with 8.
  pose proof (Nat.pow_nonzero 2 (k - 3) ltac:(lia)). lia.
Qed.

(** * Control bytes after a write *)
Section Written.
Context `{GroupLaws} (cs : list Z) (i : nat) (c : Z) (Hi : i < length cs).
Local Notation W := WIDTH.
Local Notation B := (length cs).
Local Notation cs' := (<[i := c]> cs).

Lemma total_insert j : j < B -> cs' !!! j = if decide (j = i) then c else cs !!! j.
Proof.
  intros Hj. case_decide as E; [subst; by apply list_lookup_total_insert_eq|].
  by apply list_lookup_total_insert_ne.
Qed.

Lemma byte_at_written p j :
  byte_at cs' p j = if padding B p j then EMPTY else if decide ((p + j) mod B = i) then c else cs !!! ((p + j) mod B).
Proof.
  unfold byte_at. rewrite length_insert. destruct (padding B p j); [done|].
  apply total_insert, Nat.mod_upper_bound. lia.
Qed.

Lemma sees_written h n j : sees cs' h n j <-> sees cs h n j.
Proof. unfold sees, probe_pos, start_pos. by rewrite length_insert. Qed.

Lemma probe_pos_written h n : probe_pos cs' h n = probe_pos cs h n.
Proof. unfold probe_pos, start_pos. by rewrite length_insert. Qed.

Lemma none_empty_written p : c <> EMPTY -> none_empty cs p -> none_empty cs' p.
Proof.
  intros Hc Hn j Hj. rewrite byte_at_written. specialize (Hn j Hj). unfold byte_at in Hn.
  destruct (padding _ _ _); [done|]. by case_decide.
Qed.

Lemma all_full_written p :
  is_full c = true \/ is_full (cs !!! i) = false -> all_full cs p -> all_full cs' p.
Proof.
  intros Hc Hn j Hj. rewrite byte_at_written. specialize (Hn j Hj). unfold byte_at in Hn.
  destruct (padding _ _ _); [done|]. case_decide as E; [|done]. rewrite E in Hn. destruct Hc; congruence.
Qed.

Lemma reached_written h n j : c <> EMPTY -> reached cs h n j -> reached cs' h n j.
Proof.
  intros Hc (m & Hm & Hs & Hb). exists m. split; [done|]. rewrite sees_written. split; [done|].
  intros m' Hm'. rewrite probe_pos_written. by apply none_empty_written, Hb.
Qed.
End Written.

Lemma full_used c : is_full c = true -> is_used c = true.
Proof. unfold is_used. destruct (Z.eqb_spec c EMPTY) as [->|]; done. Qed.

Lemma h2_range h : (0 <= h2 h < 128)%Z.
Proof. unfold h2. change 127%Z with (Z.ones 7). rewrite Z.land_ones by lia. apply Z.mod_pos_bound. lia. Qed.

Lemma h2_full h : is_full (h2 h) = true.
Proof. apply is_full_small, h2_range. Qed.

Lemma h2_ctrl h : is_ctrl (h2 h).
Proof. right. right. apply h2_range. Qed.

(** * Buckets *)
Section Buckets.
Context `{GroupLaws} {T : Type} (t : RawTable T) (cs : list Z) (k : nat) (R : Repr t cs k).
Local Notation B := (length cs).

Lemma check_bucket_spec i : i < B -> check_bucket t (Z.of_nat i) = Ret tt.
Proof.
  intros Hi. unfold check_bucket, buckets. pose proof (rep_size_bound t cs k R).
  rewrite (rep_mask _ _ _ R). rewrite (proj2 (Z.eqb_neq _ _)), (proj2 (Z.ltb_lt _ _)) by lia. done.
Qed.

Lemma read_bucket_spec i x : i < B -> data t !! i = Some (Some x) -> read_bucket t (Z.of_nat i) = Ret x.
Proof. intros Hi E. unfold read_bucket. rewrite check_bucket_spec by done. cbn. by rewrite Nat2Z.id, E. Qed.

Lemma write_bucket_spec i x :
  i < B -> write_bucket t (Z.of_nat i) x = Ret (with_data t (<[i := Some x]> (data t))).
Proof.
  intros Hi. unfold write_bucket. rewrite check_bucket_spec by done. cbn. unfold zlen.
  rewrite (rep_data _ _ _ R), (proj2 (Z.ltb_lt _ _)), Nat2Z.id by lia. done.
Qed.

Lemma repr_write i x : Repr (with_data t (<[i := Some x]> (data t))) cs k.
Proof. destruct R. split; cbn; rewrite ?length_insert; done. Qed.

Lemma byte_ctrl i : i < B -> is_ctrl (cs !!! i).
Proof. intros Hi. eapply Forall_lookup_1; [apply R|]. by apply list_lookup_lookup_total_lt. Qed.

Lemma special_cases i : special_at cs i -> cs !!! i = EMPTY \/ cs !!! i = DELETED.
Proof.
  intros [Hi Hs]. destruct (byte_ctrl i Hi) as [|[|Hc]]; [by left|by right|].
  by rewrite is_full_small in Hs.
Qed.

Lemma cap_spec : bucket_mask_to_capacity (bucket_mask t) = Z.of_nat (cap_of k).
Proof. rewrite (rep_mask _ _ _ R), (rep_size _ _ _ R). apply cap_of_spec, R. Qed.

Lemma cap_bound : (Z.of_nat (cap_of k) < 2 ^ 62)%Z.
Proof.
  pose proof (cap_of_lt k). pose proof (rep_size_bound t cs k R) as [_ Hb]. rewrite (rep_size _ _ _ R) in Hb. lia.
Qed.
End Buckets.

(** * The invariant *)
Section Inv.
Context `{GroupLaws} {T : Type} (hasher : T -> Z).
Context (hasher_range : forall x, (0 <= hasher x)%Z).
Local Notation W := WIDTH.
Local Notation table := (RawTable T).

(** A value is where a search for it looks. *)
Definition placed_at (t : table) (cs : list Z) (i : nat) : Prop :=
  exists x, data t !! i = Some (Some x) /\ cs !!! i = h2 (hasher x) /\ reached cs (hasher x) 0 i.

Definition placed (t : table) (cs : list Z) : Prop :=
  forall i, i < length cs -> is_full (cs !!! i) = true -> placed_at t cs i.

Record Inv (t : table) (cs : list Z) (k : nat) : Prop := {
  inv_repr : Repr t cs k;
  inv_placed : placed t cs;
  inv_items : items t = Z.of_nat (count is_full cs);
  inv_growth : growth_left t = (Z.of_nat (cap_of k) - Z.of_nat (count is_used cs))%Z;
  inv_load : count is_used cs <= cap_of k
}.

Definition values (t : table) (cs : list Z) : list T := held is_full cs (data t).

(** The table holds the values of [l]. *)
Inductive Table (t : table) (l : list T) : Prop :=
| table_singleton : t = new_in -> l = [] -> Table t l
| table_buckets cs k : Inv t cs k -> l ≡ₚ values t cs -> Table t l.

#[export] Instance table_proper t : Proper ((≡ₚ) ==> iff) (Table t).
Proof.
  assert (forall l l', l ≡ₚ l' -> Table t l -> Table t l') as Himp.
  { intros l l' E [Ht Hl|cs k I Hl].
    - left; [done|]. subst l. by apply Permutation_nil.
    - eright; [done|]. by rewrite <- E. }
  intros l l' E. split; apply Himp; [done|by symmetry].
Qed.

(** ** Consequences *)
Section Facts.
Context (t : table) (cs : list Z) (k : nat) (I : Inv t cs k).
Local Notation B := (length cs).

Lemma free_empty : exists i, i < B /\ cs !!! i = EMPTY.
Proof.
  destruct (count_lt is_used cs) as (i & c & Hc & Hu).
  { pose proof (inv_load _ _ _ I). pose proof (cap_of_lt k). rewrite (rep_size _ _ _ (inv_repr _ _ _ I)). lia. }
  exists i. split; [by eapply lookup_lt_Some|]. rewrite (list_lookup_total_correct _ _ _ Hc).
  unfold is_used in Hu. by destruct (Z.eqb_spec c EMPTY).
Qed.

Lemma free_special : exists i, special_at cs i.
Proof. destruct free_empty as (i & Hi & E). exists i. split; [done|]. by rewrite E. Qed.

Lemma value_at i x :
  i < B -> is_full (cs !!! i) = true -> data t !! i = Some (Some x) -> x ∈ values t cs.
Proof.
  intros Hi Hf Hd. apply elem_of_held. exists i, (cs !!! i). split; [by apply list_lookup_lookup_total_lt|done].
Qed.

Lemma at_value x :
  x ∈ values t cs -> exists i, i < B /\ is_full (cs !!! i) = true /\ data t !! i = Some (Some x).
Proof.
  intros (i & c & Hc & Hf & Hd)%elem_of_held. exists i. rewrite (list_lookup_total_correct _ _ _ Hc).
  split; [by eapply lookup_lt_Some|done].
Qed.

Lemma length_values : length (values t cs) = count is_full cs.
Proof.
  apply count_held; [by rewrite (rep_data _ _ _ (inv_repr _ _ _ I))|]. intros i c Hc Hf.
  destruct (inv_placed _ _ _ I i) as (x & Hd & _); [by eapply lookup_lt_Some|by rewrite (list_lookup_total_correct _ _ _ Hc)|].
  by exists x.
Qed.

Lemma find_buckets h (eq : T -> bool) :
  (0 <= h)%Z -> (forall x, x ∈ values t cs -> eq x = true -> hasher x = h) ->
  exists r, find t h eq = Ret (Z.of_nat <$> r)
    /\ match r with
       | Some i => i < B /\ is_full (cs !!! i) = true /\ exists x, data t !! i = Some (Some x) /\ eq x = true
       | None => forall x, x ∈ values t cs -> eq x = false
       end.
Proof.
  intros Hh Heq. unfold find.
  set (eqb := fun i => match data t !! i with Some (Some x) => eq x | _ => false end).
  destruct (find_inner_spec t cs k (inv_repr _ _ _ I) (fun i => x ← read_bucket t i; Ret (eq x)) eqb)
    with (h := h) as (r & E & Hr).
  - intros i Hi Hf. destruct (inv_placed _ _ _ I i Hi Hf) as (x & Hd & _).
    rewrite (read_bucket_spec t cs k (inv_repr _ _ _ I) i x) by done. cbn. unfold eqb. by rewrite Hd.
  - done.
  - apply free_empty.
  - exists r. split; [done|]. destruct r as [i|].
    + destruct Hr as (Hi & Hf & He). split; [done|]. split; [done|]. unfold eqb in He.
      destruct (data t !! i) as [[x|]|] eqn:Hd; [|done..]. by exists x.
    + intros x Hx. destruct (at_value x Hx) as (i & Hi & Hf & Hd). destruct (eq x) eqn:He; [|done].
      destruct (inv_placed _ _ _ I i Hi Hf) as (y & Hd' & Hc & Hreach). assert (y = x) as -> by congruence.
      specialize (Heq x Hx He). rewrite Heq in *. specialize (Hr i Hreach Hc). unfold eqb in Hr. by rewrite Hd, He in Hr.
Qed.
End Facts.

(** ** Filling a free slot *)
Section Put.
Context (t : table) (cs : list Z) (k : nat) (R : Repr t cs k).
Context (x : T) (i : nat) (Hslot : insert_slot cs (hasher x) i).
Local Notation B := (length cs).
Local Notation c := (h2 (hasher x)).

Lemma slot_lookup : cs !! i = Some (cs !!! i).
Proof. apply list_lookup_lookup_total_lt. apply Hslot. Qed.

Lemma put_placed t' :
  placed t cs -> data t' = <[i := Some x]> (data t) -> placed t' (<[i := c]> cs).
Proof.
  intros Hp Ed j Hj Hf. rewrite length_insert in Hj. destruct Hslot as [[Hi Hs] (n & Hsee & Hfull)].
  unfold placed_at. rewrite Ed. rewrite (total_insert cs i c) in * by done. case_decide as E.
  - subst j. exists x. split; [apply list_lookup_insert_eq; by rewrite (rep_data _ _ _ R)|]. split; [done|].
    exists n. split; [lia|]. rewrite sees_written by done. split; [done|]. intros m Hm.
    rewrite probe_pos_written by done. apply all_full_none_empty, (all_full_written cs i c Hi); [left; apply h2_full|].
    apply Hfull. lia.
  - rewrite list_lookup_insert_ne by done. destruct (Hp j Hj Hf) as (y & Hd & Hc & Hr). exists y.
    split; [done|]. split; [done|]. apply reached_written; [done| |done]. pose proof (h2_range (hasher x)).
    unfold EMPTY. lia.
Qed.

Lemma put_values t' :
  data t' = <[i := Some x]> (data t) -> values t' (<[i := c]> cs) ≡ₚ x :: values t cs.
Proof.
  intros Ed. unfold values. rewrite Ed. destruct Hslot as [[Hi Hs] _].
  rewrite (held_at is_full i c (Some x)).
  - rewrite others_insert, others_write. destruct (lookup_lt_is_Some_2 (data t) i) as [d Hd];
      [by rewrite (rep_data _ _ _ R)|].
    rewrite (held_at is_full i (cs !!! i) d cs (data t)); [|by rewrite (rep_data _ _ _ R)|apply slot_lookup|done].
    unfold slot. by rewrite h2_full, Hs.
  - rewrite !length_insert. by rewrite (rep_data _ _ _ R).
  - by apply list_lookup_insert_eq.
  - apply list_lookup_insert_eq. by rewrite (rep_data _ _ _ R).
Qed.

Lemma put_full : count is_full (<[i := c]> cs) = S (count is_full cs).
Proof.
  pose proof (count_insert is_full i _ c cs slot_lookup) as E. rewrite h2_full in E.
  destruct Hslot as [[_ Hs] _]. rewrite Hs in E. lia.
Qed.

Lemma put_used :
  count is_used (<[i := c]> cs) = count is_used cs + (if (cs !!! i =? EMPTY)%Z then 1 else 0).
Proof.
  pose proof (count_insert is_used i _ c cs slot_lookup) as E.
  rewrite (full_used c) in E by apply h2_full. unfold is_used at 2 in E. destruct (_ =? EMPTY)%Z; cbn in E; lia.
Qed.
End Put.

Lemma insert_at_spec t cs k x i old :
  Inv t cs k -> insert_slot cs (hasher x) i -> is_special old = true ->
  special_is_empty old = (cs !!! i =? EMPTY)%Z -> (cs !!! i = EMPTY -> 0 < growth_left t)%Z ->
  exists t', (t ← record_item_insert_at t (Z.of_nat i) old (hasher x); write_bucket t (Z.of_nat i) x) = Ret t'
    /\ Inv t' (<[i := h2 (hasher x)]> cs) k /\ values t' (<[i := h2 (hasher x)]> cs) ≡ₚ x :: values t cs
    /\ data t' !! i = Some (Some x)
    /\ growth_left t' = (growth_left t - (if special_is_empty old then 1 else 0))%Z.
Proof.
  intros I Hslot Hold Hemp Hg. pose proof (inv_repr _ _ _ I) as R. assert (i < length cs) as Hi by apply Hslot.
  pose proof (inv_growth _ _ _ I) as Eg. pose proof (inv_items _ _ _ I) as Ei. pose proof (inv_load _ _ _ I).
  pose proof (cap_bound t cs k R). pose proof (count_mono is_full is_used cs full_used).
  pose proof (put_full cs x i Hslot) as Pf. pose proof (put_used cs x i Hslot) as Pu. rewrite <- Hemp in Pu.
  unfold record_item_insert_at, usub. rewrite Hold. cbn [require mbind exec_bind].
  assert (growth_left t <? (if special_is_empty old then 1 else 0) = false)%Z as ->.
  { apply Z.ltb_ge. destruct (Z.eqb_spec (cs !!! i) EMPTY); rewrite Hemp; lia. }
  cbn [mbind exec_bind]. unfold set_ctrl_h2.
  set (t1 := with_growth_left t _).
  assert (Repr t1 cs k) as R1 by (by destruct R; split).
  rewrite (set_ctrl_eq t1 cs k R1) by done. cbn [mbind exec_bind]. unfold uadd.
  assert (items t + 1 <=? usize_max = true)%Z as E1.
  { apply Z.leb_le. change usize_max with (2 ^ 64 - 1)%Z. lia. }
  cbn [items with_ctrl t1 with_growth_left]. rewrite E1. cbn [mbind exec_bind].
  set (t2 := with_items _ _). pose proof (set_ctrl_repr t1 cs k R1 i _ (h2_ctrl (hasher x))) as R2'.
  assert (Repr t2 (<[i := h2 (hasher x)]> cs) k) as R2 by (by destruct R2'; split).
  rewrite (write_bucket_spec t2 _ k R2) by (by rewrite length_insert). eexists. split; [done|]. split; [|split; [|split]].
  - split; cbn.
    + exact (repr_write t2 _ k R2 i x).
    + apply (put_placed t cs k R x i Hslot); [apply I|done].
    + lia.
    + rewrite Pu. destruct (special_is_empty old); lia.
    + rewrite Pu. destruct (special_is_empty old) eqn:E; [|lia]. symmetry in Hemp.
      apply Z.eqb_eq in Hemp. specialize (Hg Hemp). lia.
  - by apply (put_values t cs k R x i Hslot).
  - cbn. apply list_lookup_insert_eq. by rewrite (rep_data _ _ _ R).
  - done.
Qed.

(** ** Erasing *)
Section Erase.
Context (t : table) (cs : list Z) (k : nat) (I : Inv t cs k).
Context (x : T) (i : nat) (Hi : i < length cs) (Hf : is_full (cs !!! i) = true).
Context (Hd : data t !! i = Some (Some x)).
Local Notation c := (if spans cs i then DELETED else EMPTY).

Lemma erase_reached h j : reached cs h 0 j -> reached (<[i := c]> cs) h 0 j.
Proof.
  intros (m & Hm & Hs & Hb). exists m. split; [done|]. rewrite sees_written. split; [done|].
  intros m' Hm' a Ha. rewrite probe_pos_written, byte_at_written by done. specialize (Hb m' Hm').
  pose proof (Hb a Ha) as Hba. unfold byte_at in Hba. destruct (padding _ _ _) eqn:P; [done|].
  case_decide as E; [|done]. rewrite <- E.
  rewrite (spans_spec t cs k (inv_repr _ _ _ I) _ a (probe_pos_lt cs k (rep_size _ _ _ (inv_repr _ _ _ I)) h m') Hb Ha P).
  done.
Qed.

Lemma erase_ctrl : is_ctrl c /\ is_full c = false /\ is_used c = spans cs i.
Proof. destruct (spans cs i); (split; [unfold is_ctrl; auto|done]). Qed.

Lemma erase_spec :
  exists t', erase t (Z.of_nat i) = Ret t' /\ Inv t' (<[i := c]> cs) k
    /\ values t cs ≡ₚ x :: values t' (<[i := c]> cs) /\ data t' = data t.
Proof.
  pose proof (inv_repr _ _ _ I) as R. pose proof (inv_growth _ _ _ I) as Eg. pose proof (inv_items _ _ _ I) as Ei.
  pose proof (inv_load _ _ _ I) as Hl. pose proof (cap_bound t cs k R).
  assert (cs !! i = Some (cs !!! i)) as Hc by (by apply list_lookup_lookup_total_lt).
  destruct erase_ctrl as (C1 & C2 & C3).
  pose proof (count_insert is_full i _ c cs Hc) as Nf. rewrite Hf, C2 in Nf.
  pose proof (count_insert is_used i _ c cs Hc) as Nu. rewrite (full_used _ Hf), C3 in Nu.
  unfold erase. rewrite (read_ctrl_spec t cs k R) by done. cbn [mbind exec_bind]. rewrite Hf. cbn [require mbind exec_bind].
  rewrite (index_before_spec t cs k R), (load_spec t cs k R (before cs i) (before_lt t cs k R i)). cbn [mbind exec_bind].
  rewrite (load_spec t cs k R) by done. cbn [mbind exec_bind].
  change (Z.of_nat W <=? _)%Z with (spans cs i).
  set (g := (if spans cs i then growth_left t else growth_left t + 1)%Z).
  assert ((if spans cs i then Ret (growth_left t) else uadd (growth_left t) 1) = Ret g) as ->.
  { unfold g, uadd. destruct (spans cs i); [done|]. rewrite (proj2 (Z.leb_le _ _)); [done|].
    change usize_max with (2 ^ 64 - 1)%Z. lia. }
  cbn [mbind exec_bind]. set (t1 := with_growth_left t g).
  assert (Repr t1 cs k) as R1 by (by destruct R; split).
  rewrite (set_ctrl_eq t1 cs k R1) by done. cbn [mbind exec_bind]. unfold usub.
  cbn [items with_ctrl t1 with_growth_left]. rewrite (proj2 (Z.ltb_ge _ _)) by lia. cbn [mbind exec_bind].
  eexists. split; [done|]. pose proof (set_ctrl_repr t1 cs k R1 i c C1) as R2.
  split; [split; cbn|split; [|done]].
  - by destruct R2; split.
  - intros j Hj Hfj. rewrite length_insert in Hj. rewrite (total_insert cs i c) in * by done.
    case_decide as E; [congruence|]. destruct (inv_placed _ _ _ I j Hj Hfj) as (y & Hy & Hcy & Hr).
    exists y. split; [done|]. rewrite (total_insert cs i c), decide_False by done. split; [done|].
    by apply erase_reached.
  - lia.
  - unfold g. destruct (spans cs i); lia.
  - destruct (spans cs i); lia.
  - unfold values. cbn. rewrite (held_at is_full i _ _ cs _ (eq_sym (rep_data _ _ _ R)) Hc Hd).
    rewrite (held_at is_full i c (Some x) (<[i := c]> cs) (data t)).
    + unfold slot at 1 2. rewrite Hf, C2, others_insert. done.
    + rewrite length_insert. symmetry. apply R.
    + by apply list_lookup_insert_eq.
    + done.
Qed.
End Erase.

(** ** The empty singleton *)
Lemma singleton_load : load (new_in (T := T)) 0 = Ret (replicate W EMPTY).
Proof.
  unfold load, num_ctrl_bytes. cbn [new_in bucket_mask ctrl]. unfold zlen. rewrite length_replicate.
  rewrite (proj2 (Z.ltb_lt _ _)), (proj2 (Z.leb_le _ _)) by lia. cbn [require mbind exec_bind]. change (Z.to_nat 0) with 0. by rewrite drop_0, take_replicate, Nat.min_id.
Qed.

Lemma empty_ctrl n : Forall is_ctrl (replicate n EMPTY).
Proof. apply Forall_replicate. by left. Qed.

Lemma singleton_find h (eq : Z -> exec bool) : find_inner (new_in (T := T)) h eq = Ret None.
Proof.
  unfold find_inner, probe_fuel. cbn [find_loop]. unfold probe_seq. cbn [pos bucket_mask new_in].
  rewrite Z.land_0_r. change (bucket_mask _) with 0%Z. rewrite singleton_load. cbn [mbind exec_bind].
  destruct (match_byte_marks (replicate W EMPTY) (h2 h)) as (bs & -> & Hl & Hb);
    [by rewrite length_replicate|apply empty_ctrl|apply h2_range|]. rewrite length_replicate in Hl.
  assert (trues bs = []) as Et.
  { destruct (trues bs) as [|j js] eqn:E; [done|]. exfalso.
    assert (j ∈ trues bs) as Hj by (rewrite E; by left). pose proof (trues_bound bs Hl j Hj) as Hlt.
    apply elem_of_trues in Hj. destruct (Hb j EMPTY) as [_ Hx]; [by apply lookup_replicate|]. by specialize (Hx Hj). }
  rewrite into_iter_mark, Et by done. cbn [fmap list_fmap find_bits mbind exec_bind].
  rewrite match_empty_marks by (apply length_replicate || apply empty_ctrl).
  rewrite any_bit_set_mark by (rewrite length_fmap; apply length_replicate).
  rewrite bool_decide_true; [done|]. pose proof width_ge. destruct W as [|n]; [lia|]. done.
Qed.

Lemma singleton_slot h : find_insert_slot (new_in (T := T)) h = Ret 0%Z.
Proof.
  unfold find_insert_slot, probe_fuel. cbn [insert_slot_loop]. unfold probe_seq. cbn [pos bucket_mask new_in].
  rewrite Z.land_0_r. rewrite singleton_load. cbn [mbind exec_bind].
  rewrite match_special_marks by (apply length_replicate || apply empty_ctrl).
  rewrite lowest_set_bit_mark by (rewrite length_fmap; apply length_replicate). pose proof width_ge.
  destruct W as [|n] eqn:E; [lia|]. cbn [replicate fmap list_fmap trues negb is_full EMPTY].
  change (negb (is_full EMPTY)) with true. cbn [app head option_fmap option_map fmap]. rewrite Z.land_0_r.
  unfold read_ctrl, num_ctrl_bytes. cbn [bucket_mask new_in ctrl]. rewrite E. done.
Qed.

Lemma singleton_read : read_ctrl (new_in (T := T)) 0 = Ret EMPTY.
Proof.
  unfold read_ctrl, num_ctrl_bytes. cbn [bucket_mask new_in ctrl]. rewrite (proj2 (Z.ltb_lt _ _)) by lia. cbn.
  pose proof width_ge. destruct W as [|n]; [lia|done].
Qed.

(** ** Searching and removing *)
Lemma find_spec t l h eq :
  Table t l -> (0 <= h)%Z -> (forall x, x ∈ l -> eq x = true -> hasher x = h) ->
  exists r, find t h eq = Ret r
    /\ match r with
       | Some i => exists x, read_bucket t i = Ret x /\ x ∈ l /\ eq x = true
       | None => forall x, x ∈ l -> eq x = false
       end.
Proof.
  intros [-> ->|cs k I Hl] Hh Heq.
  - exists None. split; [apply singleton_find|]. intros x Hx. by apply elem_of_nil in Hx.
  - destruct (find_buckets t cs k I h eq Hh) as (r & -> & Hr); [intros x Hx; apply Heq; by rewrite Hl|].
    exists (Z.of_nat <$> r). split; [done|]. destruct r as [i|]; cbn.
    + destruct Hr as (Hi & Hf & x & Hd & He). exists x. split; [|split; [|done]].
      * by apply (read_bucket_spec t cs k (inv_repr _ _ _ I)).
      * rewrite Hl. by apply (value_at t cs i x).
    + intros x Hx. apply Hr. by rewrite <- Hl.
Qed.

Lemma get_spec t l h eq :
  Table t l -> (0 <= h)%Z -> (forall x, x ∈ l -> eq x = true -> hasher x = h) ->
  exists r, get t h eq = Ret r
    /\ match r with Some x => x ∈ l /\ eq x = true | None => forall x, x ∈ l -> eq x = false end.
Proof.
  intros Ht Hh Heq. destruct (find_spec t l h eq Ht Hh Heq) as (r & E & Hr). unfold get. rewrite E. cbn.
  destruct r as [i|]; [|by exists None]. destruct Hr as (x & Hx & Hin). rewrite Hx. by exists (Some x).
Qed.

Lemma remove_entry_spec t l h eq :
  Table t l -> (0 <= h)%Z -> (forall x, x ∈ l -> eq x = true -> hasher x = h) ->
  exists r t', remove_entry t h eq = Ret (r, t')
    /\ match r with
       | Some x => eq x = true /\ exists l', l ≡ₚ x :: l' /\ Table t' l'
       | None => t' = t /\ forall x, x ∈ l -> eq x = false
       end.
Proof.
  intros [-> ->|cs k I Hl] Hh Heq.
  - exists None, new_in. unfold remove_entry, find. rewrite singleton_find. split; [done|]. split; [done|].
    intros x Hx. by apply elem_of_nil in Hx.
  - destruct (find_buckets t cs k I h eq Hh) as (r & E & Hr); [intros x Hx; apply Heq; by rewrite Hl|].
    unfold remove_entry. rewrite E. destruct r as [i|]; cbn [fmap option_fmap option_map mbind exec_bind].
    + destruct Hr as (Hi & Hf & x & Hd & He). destruct (erase_spec t cs k I x i Hi Hf Hd) as (t' & Et & I' & Hv & Ed).
      unfold remove. rewrite Et. cbn [mbind exec_bind].
      rewrite (read_bucket_spec t' _ k (inv_repr _ _ _ I') i x) by (rewrite ?length_insert, ?Ed; done).
      exists (Some x), t'. split; [done|]. split; [done|]. eexists. split; [by rewrite Hl|]. by eright.
    + exists None, t. split; [done|]. split; [done|]. intros x Hx. apply Hr. by rewrite <- Hl.
Qed.

(** [get_mut], then writing through the reference. *)
Lemma write_found t l h eq i y :
  Table t l -> (0 <= h)%Z -> (forall x, x ∈ l -> eq x = true -> hasher x = h) ->
  find t h eq = Ret (Some i) -> (forall x, eq x = true -> hasher y = hasher x) ->
  exists x l' t', read_bucket t i = Ret x /\ eq x = true /\ l ≡ₚ x :: l'
    /\ write_bucket t i y = Ret t' /\ Table t' (y :: l').
Proof.
  intros [-> ->|cs k I Hl] Hh Heq Hfind Hy; [unfold find in Hfind; by rewrite singleton_find in Hfind|].
  destruct (find_buckets t cs k I h eq Hh) as (r & E & Hr); [intros x Hx; apply Heq; by rewrite Hl|].
  rewrite E in Hfind. destruct r as [n|]; [|done]. injection Hfind as <-. destruct Hr as (Hi & Hf & x & Hd & He).
  pose proof (inv_repr _ _ _ I) as R. assert (cs !! n = Some (cs !!! n)) as Hc by (by apply list_lookup_lookup_total_lt).
  pose proof (held_at is_full n _ _ cs _ (eq_sym (rep_data _ _ _ R)) Hc Hd) as Hv.
  unfold slot in Hv. rewrite Hf in Hv. exists x, (others is_full n cs (data t)). eexists.
  split; [by apply (read_bucket_spec t cs k R)|]. split; [done|]. split; [by rewrite Hl|].
  split; [by apply (write_bucket_spec t cs k R)|]. eright with (cs := cs) (k := k).
  - destruct I as [[? ? ? ? ? Hlen] Hp ? ? ?]. split; cbn; [by apply (repr_write t cs k R)| |done..].
    intros j Hj Hfj. destruct (decide (j = n)) as [->|Hne].
    + destruct (Hp n Hj Hfj) as (x' & Hd' & Hh2 & Hr). assert (x' = x) as -> by congruence. exists y. cbn.
      rewrite (Hy x He). split; [apply list_lookup_insert_eq; by rewrite Hlen|done].
    + destruct (Hp j Hj Hfj) as (x' & Hd' & Hh2). exists x'. cbn. by rewrite list_lookup_insert_ne.
  - unfold values. cbn.
    rewrite (held_at is_full n (cs !!! n) (Some y) cs (<[n := Some y]> (data t)));
      [|rewrite length_insert; symmetry; apply R|exact Hc|apply list_lookup_insert_eq; by rewrite (rep_data _ _ _ R)].
    unfold slot. by rewrite Hf, others_write.
Qed.

Lemma table_length t l : Table t l -> items t = Z.of_nat (length l).
Proof. intros [-> ->|cs k I Hl]; [done|]. rewrite Hl, (length_values t cs k I). apply I. Qed.

(** Clearing *)
Lemma replicate_laid_out n : laid_out (replicate n EMPTY) = replicate (n + W) EMPTY.
Proof.
  unfold laid_out. rewrite length_replicate. destruct (Nat.ltb_spec n W).
  - rewrite <- !replicate_add. f_equal. lia.
  - by rewrite take_replicate, Nat.min_l, <- replicate_add by lia.
Qed.

Lemma empty_inv (t : table) k :
  2 <= k <= 62 -> bucket_mask t = (Z.of_nat (2 ^ k) - 1)%Z -> ctrl t = replicate (2 ^ k + W) EMPTY ->
  length (data t) = 2 ^ k -> items t = 0%Z -> growth_left t = Z.of_nat (cap_of k) ->
  Inv t (replicate (2 ^ k) EMPTY) k /\ values t (replicate (2 ^ k) EMPTY) = [].
Proof.
  intros Hk Hm Hc Hd Hi Hg. split.
  - split; [split|..]; rewrite ?length_replicate, ?replicate_laid_out, ?count_replicate by done;
      try done; [apply empty_ctrl| |lia|lia].
    intros i Hlt Hf. rewrite length_replicate in Hlt. by rewrite lookup_total_replicate_2 in Hf.
  - apply held_none. intros c Hc'. by apply elem_of_replicate in Hc' as [-> _].
Qed.

Lemma clear_spec t l : Table t l -> exists t', clear t = Ret t' /\ Table t' [].
Proof.
  intros [-> ->|cs k I Hl].
  - exists new_in. split; [done|]. by left.
  - pose proof (inv_repr _ _ _ I) as R. pose proof (rep_size_bound t cs k R) as [HB _].
    unfold clear, clear_no_drop, is_empty_singleton, fill_empty.
    rewrite (num_ctrl_nat t cs k R), (rep_mask _ _ _ R), (rep_ctrl _ _ _ R). unfold zlen.
    rewrite (length_laid_out cs k (rep_size _ _ _ R)).
    rewrite (proj2 (Z.eqb_neq _ _)), (proj2 (Z.leb_le _ _)) by lia. cbn [mbind exec_bind].
    eexists. split; [done|]. match goal with |- Table ?u _ => destruct (empty_inv u k) as [I' E] end; [apply R|..].
    + cbn. by rewrite (rep_mask _ _ _ R), (rep_size _ _ _ R).
    + cbn. rewrite drop_ge by (rewrite (length_laid_out cs k (rep_size _ _ _ R)); lia).
      rewrite app_nil_r, (rep_size _ _ _ R). f_equal. lia.
    + cbn. by rewrite (rep_data _ _ _ R), (rep_size _ _ _ R).
    + done.
    + cbn. by rewrite ?(rep_mask _ _ _ R), <- (cap_spec t cs k R), ?(rep_mask _ _ _ R).
    + eright; [exact I'|]. by rewrite E.
Qed.
End Inv.
