(* ===== verification/HashGrow.v ===== *)
(** HashGrow: making, growing, rehashing and shrinking the hash table.

    How many buckets a capacity needs; fresh tables; [resize] into a new table;
    [rehash_in_place]; and with them [reserve], [try_reserve], [shrink_to] and
    [insert]. *)
From Stdlib Require Import ZArith Lia.
From stdpp Require Import base numbers list option sets tactics.
From S2P Require Import Prelude HashGroup HashGroupLaws HashRaw HashProbe HashInv.
Local Open Scope nat_scope.

(** An operation that may only fail for want of memory. *)
Definition ends {A} (m : exec A) (Q : A -> Prop) : Prop :=
  match m with
  | Ret a => Q a
  | Overflow | OutOfMem => True
  | Panicked | Undefined | Unended => False
  end.

Lemma ends_bind {A B} (m : exec A) (f : A -> exec B) Q P :
  ends m P -> (forall a, P a -> ends (f a) Q) -> ends (m ≫= f) Q.
Proof. destruct m; cbn; auto. Qed.

Lemma ends_impl {A} (m : exec A) (P Q : A -> Prop) : ends m P -> (forall a, P a -> Q a) -> ends m Q.
Proof. destruct m; cbn; auto. Qed.

(** * Sizes *)
Lemma cap_of_Z k : 4 <= k -> (8 * Z.of_nat (cap_of k) = 7 * 2 ^ Z.of_nat k)%Z.
Proof.
  intros Hk. unfold cap_of. destruct (Nat.leb_spec k 3); [lia|].
  rewrite Nat2Z.inj_mul, Nat2Z.inj_pow, Nat2Z.inj_sub by lia. change (Z.of_nat 2) with 2%Z.
  change (Z.of_nat 3) with 3%Z. change (Z.of_nat 7) with 7%Z.
  replace (Z.of_nat k) with (3 + (Z.of_nat k - 3))%Z at 2 by lia. rewrite Z.pow_add_r by lia. lia.
Qed.

Lemma pow2_buckets m : (4 <= m)%Z -> exists q, (2 ^ m = 8 * q)%Z.
Proof.
  intros Hm. exists (2 ^ (m - 3))%Z. replace m with (3 + (m - 3))%Z at 1 by lia. rewrite Z.pow_add_r by lia. done.
Qed.

Lemma capacity_to_buckets_spec cap :
  (0 < cap <= usize_max)%Z ->
  match capacity_to_buckets cap with
  | Ret (Some n) =>
      (8 * cap <= usize_max)%Z /\ exists k, n = Z.of_nat (2 ^ k) /\ 2 <= k <= 62 /\ (cap <= Z.of_nat (cap_of k))%Z
        /\ forall k', 2 <= k' -> (cap <= Z.of_nat (cap_of k'))%Z -> k <= k'
  | Ret None => (2 ^ 61 <= cap)%Z
  | _ => False
  end.
Proof.
  change usize_max with (2 ^ 64 - 1)%Z. intros Hc. unfold capacity_to_buckets.
  rewrite (proj2 (Z.eqb_neq _ _)) by lia. cbn [negb require mbind exec_bind]. destruct (Z.ltb_spec cap 8).
  - destruct (Z.ltb_spec cap 4).
    + split; [lia|]. exists 2. repeat split; try (cbn; lia).
    + split; [lia|]. exists 3. repeat split; try (cbn; lia). intros k' Hk' Hcap. destruct (decide (k' = 2)) as [->|]; [|lia].
      cbn in Hcap. lia.
  - unfold checked. change usize_max with (2 ^ 64 - 1)%Z. destruct (Z.leb_spec (cap * 8) (2 ^ 64 - 1)); [|lia].
    set (a := (cap * 8 / 7)%Z). assert (9 <= a)%Z as Ha by (apply Z.div_le_lower_bound; lia).
    assert (7 * a <= cap * 8 < 7 * a + 7)%Z as Hdiv by (unfold a; pose proof (Z.div_mod (cap * 8) 7 ltac:(lia));
      pose proof (Z.mod_pos_bound (cap * 8) 7 ltac:(lia)); lia).
    set (m := Z.log2_up a). pose proof (Z.log2_up_spec a ltac:(lia)) as [_ Hup]. fold m in Hup.
    assert (4 <= m)%Z as Hm4.
    { destruct (Z.le_gt_cases 4 m) as [|Hlt]; [done|]. assert (m <= 3)%Z as Hm3 by lia.
      apply Z.log2_up_le_pow2 in Hm3; [|lia]. cbn in Hm3. lia. }
    assert (m <= 62)%Z as Hm62 by (apply Z.log2_up_le_pow2; lia).
    unfold next_power_of_two. fold m. change usize_max with (2 ^ 64 - 1)%Z.
    rewrite (proj2 (Z.leb_le _ _)) by (pose proof (Z.pow_le_mono_r 2 m 62 ltac:(lia) Hm62); lia). cbn [mbind exec_bind].
    split; [lia|]. exists (Z.to_nat m). assert (Z.of_nat (Z.to_nat m) = m) as Em by lia. split; [|split; [lia|split]].
    + rewrite Nat2Z.inj_pow, Em. done.
    + pose proof (cap_of_Z (Z.to_nat m) ltac:(lia)) as E. rewrite Em in E.
      destruct (pow2_buckets m Hm4) as [q Eq]. lia.
    + intros k' Hk' Hcap. destruct (Nat.lt_ge_cases k' 4).
      { assert (k' = 2 \/ k' = 3) as [-> | ->] by lia; cbn in Hcap; lia. }
      pose proof (cap_of_Z k' ltac:(lia)) as E.
      assert (m <= Z.of_nat k')%Z; [|lia]. apply Z.log2_up_le_pow2; lia.
Qed.

(** * Fresh tables *)
Section Grow.
Context `{GroupLaws} {T : Type} (hasher : T -> Z).
Context (hasher_range : forall x, (0 <= hasher x)%Z).
Context (alloc : Z -> Z -> bool) (layout : Layout).
Local Notation W := WIDTH.
Local Notation table := (RawTable T).

Lemma pow2_is_power k : is_power_of_two (Z.of_nat (2 ^ k)) = true.
Proof.
  unfold is_power_of_two. apply bool_decide_eq_true. rewrite Nat2Z.inj_pow. change (Z.of_nat 2) with 2%Z.
  by rewrite Z.log2_pow2 by lia.
Qed.

(** A table of [2 ^ k] buckets without values. *)
Definition fresh (k : nat) (t : table) : Prop :=
  2 <= k <= 62 /\ Inv hasher t (replicate (2 ^ k) EMPTY) k.

Definition ok_or {A} (f : Fallibility) (Q : A -> Prop) (r : result TryReserveError A) : Prop :=
  match r with Ok a => Q a | Err _ => f = Fallible end.

Lemma fresh_values k (t : table) : values t (replicate (2 ^ k) EMPTY) = [].
Proof. apply held_none. intros c Hc. by apply elem_of_replicate in Hc as [-> _]. Qed.

Lemma fallible_with_capacity_spec cap f :
  (0 < cap <= usize_max)%Z ->
  ends (fallible_with_capacity alloc layout cap f)
    (ok_or f (fun t => exists k, fresh k t /\ (cap <= Z.of_nat (cap_of k))%Z)).
Proof.
  intros Hc. unfold fallible_with_capacity. rewrite (proj2 (Z.eqb_neq _ _)) by lia.
  pose proof (capacity_to_buckets_spec cap Hc) as Hb. destruct (capacity_to_buckets cap) as [[n|]| | | | |]; try done.
  2:{ by destruct f. }
  destruct Hb as (_ & k & -> & Hk & Hcap & _). cbn [mbind exec_bind]. unfold new_uninitialized.
  rewrite pow2_is_power. cbn [require mbind exec_bind]. unfold calculate_layout_for.
  rewrite pow2_is_power. cbn [require mbind exec_bind].
  destruct (match checked _ with Some _ => _ | None => _ end) as [[len off]|]; [|by destruct f].
  destruct (alloc _ _); cbn [negb]; [|by destruct f]. cbn [try_ mbind exec_bind].
  unfold fill_empty, num_ctrl_bytes. cbn [bucket_mask ctrl].
  unfold zlen. rewrite length_replicate, Nat2Z.id.
  rewrite (proj2 (Z.leb_le _ _)) by lia. cbn [mbind exec_bind ends ok_or]. exists k. split; [|done]. split; [done|].
  apply empty_inv; cbn; try done.
  - rewrite drop_ge by (rewrite length_replicate; lia). rewrite app_nil_r. f_equal. lia.
  - apply length_replicate.
  - rewrite <- (cap_of_spec k) by lia. done.
Qed.

Lemma with_capacity_spec cap :
  (0 <= cap <= usize_max)%Z ->
  ends (with_capacity_in alloc layout cap) (fun t => Table hasher t [] /\ (cap <= growth_left t)%Z).
Proof.
  intros Hc. unfold with_capacity_in, unwrap_unchecked. destruct (decide (cap = 0)%Z) as [->|].
  - cbn. split; [by left|lia].
  - eapply ends_bind; [apply fallible_with_capacity_spec; lia|]. intros [t|e]; cbn; [|done].
    intros (k & Hf & Hcap). destruct (Hf) as [_ I]. split.
    + eright; [apply Hf|]. by rewrite (fresh_values k t).
    + rewrite (inv_growth _ _ _ _ I), count_replicate by done. lia.
Qed.

(** * Resizing *)

Lemma clean_slot (t : table) cs k i :
  Repr t cs k -> count is_used cs = count is_full cs -> special_at cs i -> cs !!! i = EMPTY.
Proof.
  intros R Hclean Hs. destruct (special_cases t cs k R i Hs) as [|E]; [done|]. exfalso. destruct Hs as [Hi _].
  pose proof (list_lookup_lookup_total_lt cs i Hi) as Hc.
  pose proof (count_insert is_used i _ EMPTY cs Hc) as E1. pose proof (count_insert is_full i _ EMPTY cs Hc) as E2.
  rewrite E in E1, E2. change (is_used EMPTY) with false in E1. change (is_used DELETED) with true in E1.
  change (is_full EMPTY) with false in E2. change (is_full DELETED) with false in E2.
  pose proof (count_mono is_full is_used (<[i := EMPTY]> cs) full_used). cbv iota in E1, E2. lia.
Qed.

(** A table with no deleted bucket. *)
Definition Clean (t : table) (l : list T) : Prop :=
  exists cs k, Inv hasher t cs k /\ l ≡ₚ values t cs /\ count is_used cs = count is_full cs.

Lemma clean_table t l : Clean t l -> Table hasher t l.
Proof. intros (cs & k & I & Hl & _). by eright. Qed.

(** A table being filled: nothing has been deleted from it. *)
Record Filled (t : table) (cs : list Z) (k : nat) : Prop := {
  fil_repr : Repr t cs k;
  fil_placed : placed hasher t cs;
  fil_used : count is_used cs = count is_full cs
}.

Lemma fill_one t cs k x :
  Filled t cs k -> count is_full cs < cap_of k ->
  exists i old t1 t' cs', prepare_insert_slot t (hasher x) = Ret (i, old, t1) /\ write_bucket t1 i x = Ret t'
    /\ Filled t' cs' k /\ values t' cs' ≡ₚ x :: values t cs /\ count is_full cs' = S (count is_full cs)
    /\ items t' = items t /\ growth_left t' = growth_left t.
Proof.
  intros F Hlt. pose proof (fil_repr _ _ _ F) as R. pose proof (cap_of_lt k).
  destruct (count_lt is_used cs) as (j & c & Hc & Hu);
    [rewrite (fil_used _ _ _ F), (rep_size _ _ _ R); lia|].
  assert (special_at cs j) as Hj.
  { split; [by eapply lookup_lt_Some|]. rewrite (list_lookup_total_correct _ _ _ Hc).
    destruct (is_full c) eqn:E; [|done]. by rewrite (full_used c E) in Hu. }
  destruct (find_insert_slot_spec t cs k R (hasher x) (hasher_range x)) as (i & Ei & Hslot); [by exists j|].
  assert (i < length cs) as Hi by apply Hslot.
  pose proof (put_full hasher cs x i Hslot) as Pf. pose proof (put_used hasher cs x i Hslot) as Pu.
  pose proof (set_ctrl_repr t cs k R i _ (h2_ctrl (hasher x))) as R1.
  exists (Z.of_nat i), (cs !!! i). do 2 eexists. exists (<[i := h2 (hasher x)]> cs).
  split; [|split; [apply (write_bucket_spec _ _ k R1); by rewrite length_insert|split; [|split; [|split; [|done]]]]].
  - unfold prepare_insert_slot. rewrite Ei. cbn [mbind exec_bind]. rewrite (read_ctrl_spec t cs k R) by done.
    cbn [mbind exec_bind]. unfold set_ctrl_h2. by rewrite (set_ctrl_eq t cs k R).
  - split.
    + exact (repr_write _ _ k R1 i x).
    + by apply (put_placed hasher t cs k R x i Hslot); [apply F|].
    + rewrite Pf, Pu, (fil_used _ _ _ F), (clean_slot t cs k i R (fil_used _ _ _ F)) by apply Hslot. cbn. lia.
  - by apply (put_values hasher t cs k R x i Hslot).
  - done.
Qed.

Lemma resize_loop_spec t cs k n i new cs' k' :
  Repr t cs k -> placed hasher t cs -> i + n = length cs -> Filled new cs' k' ->
  count is_full cs' + count is_full (drop i cs) <= cap_of k' ->
  exists new' cs'', resize_loop hasher n (Z.of_nat i) t new = Ret new' /\ Filled new' cs'' k'
    /\ values new' cs'' ≡ₚ held is_full (drop i cs) (drop i (data t)) ++ values new cs'
    /\ count is_full cs'' = count is_full cs' + count is_full (drop i cs)
    /\ items new' = items new /\ growth_left new' = growth_left new.
Proof.
  intros R P. revert i new cs'. induction n as [|n IH]; intros i new cs' Hn F Hcap.
  - exists new, cs'. rewrite drop_ge by lia. split; [done|]. split; [done|]. split; [done|]. split; [cbn; lia|done].
  - assert (i < length cs) as Hi by lia. cbn [resize_loop]. rewrite (read_ctrl_spec t cs k R) by done.
    cbn [mbind exec_bind]. assert (cs !! i = Some (cs !!! i)) as Hc by (by apply list_lookup_lookup_total_lt).
    destruct (lookup_lt_is_Some_2 (data t) i) as [d Hd]; [by rewrite (rep_data _ _ _ R)|].
    rewrite (drop_S cs (cs !!! i) i Hc) in *. rewrite (drop_S (data t) d i Hd). cbn [held count] in *.
    replace (Z.of_nat i + 1)%Z with (Z.of_nat (S i)) by lia. destruct (is_full (cs !!! i)) eqn:Hf; cbn [negb].
    + destruct (P i Hi Hf) as (x & Hx & _). assert (d = Some x) as -> by congruence.
      rewrite (read_bucket_spec t cs k R i x) by done. cbn [mbind exec_bind].
      destruct (fill_one new cs' k' x F) as (j & old & t1 & t2 & cs2 & -> & Ew & F2 & Hv & Hcnt & Hit & Hgr); [lia|].
      cbn [mbind exec_bind]. rewrite Ew. cbn [mbind exec_bind].
      destruct (IH (S i) t2 cs2) as (new' & cs'' & E & F' & Hv' & Hc' & Hi' & Hg'); [lia|done|lia|].
      exists new', cs''. split; [done|]. split; [done|]. unfold slot. rewrite Hf. split; [|split; [lia|split; congruence]].
      rewrite Hv', Hv. solve_Permutation.
    + unfold slot. rewrite Hf. apply IH; [lia|done|done].
Qed.

Lemma usub_le a b : (b <= a)%Z -> usub a b = Ret (a - b)%Z.
Proof. intros Hle. unfold usub. by rewrite (proj2 (Z.ltb_ge _ _)). Qed.

Lemma resize_spec t cs k cap f :
  Inv hasher t cs k -> (items t <= cap <= usize_max)%Z -> (0 < cap)%Z ->
  ends (resize_inner alloc layout hasher t cap f)
    (ok_or f (fun t' => Clean t' (values t cs) /\ (cap - items t <= growth_left t')%Z)).
Proof.
  intros I Hc H0'. pose proof (inv_repr _ _ _ _ I) as R. unfold resize_inner, prepare_resize.
  rewrite (proj2 (Z.leb_le _ _)) by lia. cbn [require mbind exec_bind]. unfold try_.
  pose proof (fallible_with_capacity_spec cap f ltac:(lia)) as Hf.
  destruct (fallible_with_capacity alloc layout cap f) as [[new|e]| | | | |]; try done. cbn [mbind exec_bind].
  destruct Hf as (k' & Hfr & Hcap). pose proof Hfr as [Hk' I'].
  assert (growth_left new = Z.of_nat (cap_of k')) as Hg.
  { rewrite (inv_growth _ _ _ _ I'), count_replicate by done. lia. }
  rewrite usub_le by lia. cbn [mbind exec_bind].
  set (new0 := with_items _ _). assert (Filled new0 (replicate (2 ^ k') EMPTY) k') as F.
  { split; [by destruct (inv_repr _ _ _ _ I'); split|apply I'|by rewrite !count_replicate]. }
  pose proof (inv_items _ _ _ _ I) as Ei.
  rewrite (buckets_nat t cs k R), Nat2Z.id.
  destruct (resize_loop_spec t cs k (length cs) 0 new0 (replicate (2 ^ k') EMPTY) k') as
    (new' & cs'' & E & F' & Hv & Hcnt & Hit & Hgr); [done|apply I|lia|done| |].
  { rewrite count_replicate, drop_0 by done. lia. }
  change 0%Z with (Z.of_nat 0). rewrite E. cbn [mbind exec_bind ends ok_or].
  rewrite count_replicate, drop_0 in Hcnt by done. cbn in Hit, Hgr. split; [|lia].
  rewrite !drop_0 in Hv. exists cs'', k'. destruct F' as [F1 F2 F3]. split; [|split; [|done]].
  - split; [done|done|lia|lia|lia].
  - rewrite Hv. rewrite (fresh_values k' new0). by rewrite app_nil_r.
Qed.
End Grow.

(** * How much memory a table takes *)

(** The layout of a type: its alignment is a power of two. *)
Definition layout_ok (l : Layout) : Prop :=
  (0 <= l_size l)%Z /\ exists e, (l_align l = 2 ^ e /\ 0 <= e <= 63)%Z.

(** The values up to the next multiple of the alignment, then a control byte for each
    bucket and one group more; all in unbounded integers. *)
Definition table_bytes `{Group} (l : Layout) (n : Z) : Z :=
  ((l_size l * n + (ctrl_align l - 1)) / ctrl_align l * ctrl_align l + n + Z.of_nat WIDTH)%Z.

Lemma ctrl_align_pow `{GroupLaws} l : layout_ok l -> exists e, (ctrl_align l = 2 ^ e /\ 0 <= e <= 63)%Z.
Proof.
  intros (_ & e & He & Hr). destruct width_pos as (k & Hk & Hk'). unfold ctrl_align. rewrite He, Hk.
  destruct (Z.le_ge_cases e k).
  - exists k. rewrite Z.max_r by (apply Z.pow_le_mono_r; lia). lia.
  - exists e. rewrite Z.max_l by (apply Z.pow_le_mono_r; lia). lia.
Qed.

(** [s & !(a - 1)] rounds down to a multiple of [a]. *)
Lemma land_unot s e : (0 <= s < 2 ^ 64)%Z -> (0 <= e <= 63)%Z ->
  Z.land s (unot 64 (2 ^ e - 1)) = (s / 2 ^ e * 2 ^ e)%Z.
Proof.
  intros Hs He. unfold unot, umax.
  replace (2 ^ 64 - 1 - (2 ^ e - 1))%Z with (Z.shiftl (Z.ones (64 - e)) e).
  2:{ rewrite Z.shiftl_mul_pow2, Z.ones_equiv by lia. unfold Z.pred.
      rewrite Z.mul_add_distr_r, <- Z.pow_add_r by lia. replace (64 - e + e)%Z with 64%Z by lia. lia. }
  transitivity (Z.shiftl (Z.land (Z.shiftr s e) (Z.ones (64 - e))) e).
  - apply Z.bits_inj'. intros i Hi. rewrite Z.land_spec, !Z.shiftl_spec, Z.land_spec by lia.
    destruct (Z.lt_ge_cases i e); [by rewrite !(Z.testbit_neg_r _ (i - e)), andb_false_r by lia|].
    rewrite Z.shiftr_spec by lia. by replace (i - e + e)%Z with i by lia.
  - rewrite Z.land_ones, Z.shiftr_div_pow2, Z.shiftl_mul_pow2, Z.mod_small; [done| |lia..].
    split; [apply Z.div_pos; lia|]. apply Z.div_lt_upper_bound; [lia|].
    rewrite <- Z.pow_add_r by lia. replace (e + (64 - e))%Z with 64%Z by lia. lia.
Qed.

(** The sizes are computed without overflow exactly when the result is a [usize]. *)
Lemma calculate_layout_spec `{GroupLaws} l n : layout_ok l -> is_power_of_two n = true -> (0 < n)%Z ->
  exists off, calculate_layout_for l n
    = Ret (if (table_bytes l n <=? usize_max)%Z then Some (table_bytes l n, off) else None).
Proof.
  intros Hl Hn Hn0. destruct (ctrl_align_pow l Hl) as (e & Ea & He). destruct Hl as [Hsz _].
  unfold calculate_layout_for, table_bytes. rewrite Hn, Ea. cbn [require mbind exec_bind].
  exists ((l_size l * n + (2 ^ e - 1)) / 2 ^ e * 2 ^ e)%Z. f_equal. unfold checked.
  pose proof (Z.pow_pos_nonneg 2 e ltac:(lia) ltac:(lia)) as Hp.
  pose proof (Z.mul_nonneg_nonneg _ _ Hsz (Z.lt_le_incl _ _ Hn0)) as Hs.
  generalize dependent (l_size l * n)%Z. intros s Hs.
  set (q := ((s + (2 ^ e - 1)) / 2 ^ e)%Z).
  assert (s <= q * 2 ^ e <= s + (2 ^ e - 1))%Z as Hq.
  { unfold q. pose proof (Z.div_mod (s + (2 ^ e - 1)) (2 ^ e) ltac:(lia)).
    pose proof (Z.mod_pos_bound (s + (2 ^ e - 1)) (2 ^ e) ltac:(lia)). lia. }
  change usize_max with (2 ^ 64 - 1)%Z.
  destruct (Z.leb_spec s (2 ^ 64 - 1)); [|by rewrite (proj2 (Z.leb_gt _ _)) by lia].
  destruct (Z.leb_spec (s + (2 ^ e - 1)) (2 ^ 64 - 1)).
  - rewrite land_unot by lia. fold q. rewrite Z.add_assoc. by destruct (Z.leb_spec (q * 2 ^ e + n + Z.of_nat WIDTH) (2 ^ 64 - 1)).
  - assert (2 ^ (64 - e) <= q)%Z as Hq2.
    { unfold q. apply Z.div_le_lower_bound; [lia|]. rewrite <- Z.pow_add_r by lia.
      replace (e + (64 - e))%Z with 64%Z by lia. lia. }
    assert (2 ^ 64 <= q * 2 ^ e)%Z.
    { replace 64%Z with (64 - e + e)%Z by lia. rewrite Z.pow_add_r by lia. by apply Z.mul_le_mono_nonneg_r; [lia|]. }
    by rewrite (proj2 (Z.leb_gt _ _)) by lia.
Qed.

(** [2 ^ k] is the least number of buckets, from 4 on, with room for [cap] values. *)
Definition least_exponent (cap : Z) (k : nat) : Prop :=
  2 <= k /\ (cap <= Z.of_nat (cap_of k))%Z /\
  forall k', 2 <= k' -> (cap <= Z.of_nat (cap_of k'))%Z -> k <= k'.

Lemma least_exponent_unique cap k k' : least_exponent cap k -> least_exponent cap k' -> k = k'.
Proof. intros (H2 & Hc & Hl) (H2' & Hc' & Hl'). apply Nat.le_antisymm; auto. Qed.

(** A request that no table can serve: eight times [cap] is no [usize], or the table's
    bytes are not. *)
Definition too_large `{Group} (l : Layout) (cap : Z) : Prop :=
  (usize_max < 8 * cap)%Z \/
  exists k, least_exponent cap k /\ (usize_max < table_bytes l (2 ^ Z.of_nat k))%Z.

(** C21. What making a table for [cap] values comes to.  It is an overflow exactly if
    the request is too large: eight times [cap], or the exact number of bytes of the
    least table with room for [cap] values, exceeds a [usize].  Otherwise the allocator
    is asked for exactly those bytes; it refuses, and the failure names them, or there
    is a table of the least number of buckets, a power of two from 4 on, that has room
    for [cap] values.  Failures are returned to fallible callers only. *)
Theorem with_capacity_outcomes `{GroupLaws} {T : Type} alloc layout cap f :
  (0 < cap <= usize_max)%Z -> layout_ok layout ->
  let served (answer : bool) := ~ too_large layout cap /\ exists k, least_exponent cap k /\
    alloc (table_bytes layout (2 ^ Z.of_nat k)) (ctrl_align layout) = answer in
  match fallible_with_capacity (T := T) alloc layout cap f with
  | Ret (Ok t) => served true /\ exists k, least_exponent cap k /\ k <= 62
      /\ buckets t = (2 ^ Z.of_nat k)%Z /\ capacity t = Ret (Z.of_nat (cap_of k))
  | Ret (Err CapacityOverflow) => f = Fallible /\ too_large layout cap
  | Ret (Err (AllocError size align)) => f = Fallible /\ served false
      /\ (forall k, least_exponent cap k -> size = table_bytes layout (2 ^ Z.of_nat k))
      /\ align = ctrl_align layout
  | Overflow => f = Infallible /\ too_large layout cap
  | OutOfMem => f = Infallible /\ served false
  | Panicked | Undefined | Unended => False
  end.
Proof.
  intros Hc Hl served. unfold fallible_with_capacity. rewrite (proj2 (Z.eqb_neq _ _)) by lia.
  pose proof (capacity_to_buckets_spec cap Hc) as Hb. destruct (capacity_to_buckets cap) as [[n|]| | | | |]; try done.
  2:{ assert (too_large layout cap) by (left; change usize_max with (2 ^ 64 - 1)%Z; lia). by destruct f. }
  destruct Hb as (Hc8 & k & -> & Hk & Hcap & Hleast). cbn [mbind exec_bind]. unfold new_uninitialized.
  rewrite pow2_is_power. cbn [require mbind exec_bind].
  assert (Z.of_nat (2 ^ k) = 2 ^ Z.of_nat k)%Z as Ek by (by rewrite Nat2Z.inj_pow).
  destruct (calculate_layout_spec layout (Z.of_nat (2 ^ k)) Hl (pow2_is_power k)) as [off ->]; [lia|].
  assert (least_exponent cap k) as Hlk by (split_and!; [lia|done|done]).
  destruct (Z.leb_spec (table_bytes layout (Z.of_nat (2 ^ k))) usize_max) as [Hfit|Hbig]; cbn [mbind exec_bind].
  2:{ assert (too_large layout cap) by (right; exists k; split; [done|]; by rewrite <- Ek). by destruct f. }
  assert (~ too_large layout cap) as Hnot.
  { intros [?|(k' & Hk' & Hbig)]; [lia|]. rewrite (least_exponent_unique _ _ _ Hk' Hlk), <- Ek in Hbig. lia. }
  assert (forall b, alloc (table_bytes layout (Z.of_nat (2 ^ k))) (ctrl_align layout) = b -> served b) as Hserved.
  { intros b Hb. split; [done|]. exists k. by rewrite <- Ek. }
  destruct (alloc _ (ctrl_align layout)) eqn:Ea; cbn [negb].
  2:{ destruct f; cbn; [|by auto]. split_and!; auto.
      intros k' Hk'. by rewrite (least_exponent_unique _ _ _ Hk' Hlk), <- Ek. }
  cbn [try_ mbind exec_bind]. unfold fill_empty, num_ctrl_bytes. cbn [bucket_mask ctrl].
  unfold zlen. rewrite length_replicate, Nat2Z.id, (proj2 (Z.leb_le _ _)) by lia. cbn [mbind exec_bind].
  split; [auto|]. exists k.
  unfold buckets, capacity, uadd. cbn [bucket_mask with_ctrl items growth_left]. rewrite cap_of_spec by lia.
  split_and!; [done|lia|lia|].
  pose proof (cap_of_lt k). assert (Z.of_nat (2 ^ k) <= 2 ^ 62)%Z by (rewrite Ek; apply Z.pow_le_mono_r; lia).
  rewrite (proj2 (Z.leb_le _ _)); [done|]. change usize_max with (2 ^ 64 - 1)%Z. lia.
Qed.

Definition toy_layout : Layout := {| l_size := 8; l_align := 8 |}.

(** 28 values of eight bytes take 32 buckets and 304 bytes; of a type of [2 ^ 60] bytes
    they are too many. *)
Lemma with_capacity_outcomes_witness :
  (exists t : RawTable unit, fallible_with_capacity (H := Sse2.group) (fun n _ => (n =? 304)%Z) toy_layout 28 Fallible = Ret (Ok t)
    /\ exists k, least_exponent 28 k /\ k <= 62 /\ buckets t = (2 ^ Z.of_nat k)%Z
      /\ capacity t = Ret (Z.of_nat (cap_of k))) /\
  too_large (H := Sse2.group) {| l_size := 2 ^ 60; l_align := 8 |} 28.
Proof.
  split.
  - pose proof (with_capacity_outcomes (H := Sse2.group) (T := unit) (fun n _ => (n =? 304)%Z) toy_layout 28 Fallible) as Hw.
    destruct (fallible_with_capacity (H := Sse2.group) (T := unit) (fun n _ => (n =? 304)%Z) toy_layout 28 Fallible)
      as [[t|e]| | | | |] eqn:E; vm_compute in E; try discriminate E.
    exists t. split; [done|]. apply Hw; [vm_compute; split; [reflexivity|discriminate]|].
    split; [done|]. exists 3%Z. done.
  - pose proof (with_capacity_outcomes (H := Sse2.group) (T := unit) (fun n _ => true) {| l_size := 2 ^ 60; l_align := 8 |} 28 Infallible) as Hw.
    destruct (fallible_with_capacity (H := Sse2.group) (T := unit) (fun n _ => true) {| l_size := 2 ^ 60; l_align := 8 |} 28 Infallible)
      as [[t|e]| | | | |] eqn:E; vm_compute in E; try discriminate E.
    apply Hw; [vm_compute; split; [reflexivity|discriminate]|]. split; [done|]. exists 3%Z. done.
Defined.
