(* ===== verification/HashRehash.v ===== *)
(** HashRehash: [rehash_in_place].

    All full buckets are marked [DELETED] and all others [EMPTY]; then each marked
    bucket is given its place, swapping with what is there, until none is left.
    While this runs, a value that has its place has only full buckets before it. *)
From Stdlib Require Import ZArith Lia.
From stdpp Require Import base numbers list option sets tactics.
From S2P Require Import Prelude HashGroup HashGroupLaws HashRaw HashProbe HashInv HashGrow.
Local Open Scope nat_scope.

Definition conv (c : Z) : Z := if is_full c then DELETED else EMPTY.
Definition is_deleted (c : Z) : bool := (c =? DELETED)%Z.

(** * Lemmas on what the buckets hold *)
Section Held.
Context {T : Type} (f : Z -> bool) (cs : list Z) (ds : list (option T)) (Hl : length cs = length ds).

Lemma held_ctrl i c : i < length cs -> f c = f (cs !!! i) -> held f (<[i := c]> cs) ds ≡ₚ held f cs ds.
Proof.
  intros Hi Hf. destruct (lookup_lt_is_Some_2 ds i) as [d Hd]; [lia|].
  rewrite (held_at f i c d (<[i := c]> cs) ds); [|by rewrite length_insert|by apply list_lookup_insert_eq|done].
  rewrite (held_at f i (cs !!! i) d cs ds); [|done|by apply list_lookup_lookup_total_lt|done].
  unfold slot. by rewrite Hf, others_insert.
Qed.

Lemma held_put i c x :
  i < length cs -> f (cs !!! i) = false -> f c = true ->
  held f (<[i := c]> cs) (<[i := Some x]> ds) ≡ₚ x :: held f cs ds.
Proof.
  intros Hi Hf Hc. destruct (lookup_lt_is_Some_2 ds i) as [d Hd]; [lia|].
  rewrite (held_at f i c (Some x) (<[i := c]> cs) (<[i := Some x]> ds));
    [|by rewrite !length_insert|by apply list_lookup_insert_eq|apply list_lookup_insert_eq; lia].
  rewrite (held_at f i (cs !!! i) d cs ds); [|done|by apply list_lookup_lookup_total_lt|done].
  unfold slot. by rewrite Hf, Hc, others_insert, others_write.
Qed.

Lemma held_take i c x :
  i < length cs -> f (cs !!! i) = true -> ds !! i = Some (Some x) -> f c = false ->
  held f cs ds ≡ₚ x :: held f (<[i := c]> cs) ds.
Proof.
  intros Hi Hf Hd Hc.
  rewrite (held_at f i c (Some x) (<[i := c]> cs) ds); [|by rewrite length_insert|by apply list_lookup_insert_eq|done].
  rewrite (held_at f i (cs !!! i) (Some x) cs ds); [|done|by apply list_lookup_lookup_total_lt|done].
  unfold slot. by rewrite Hf, Hc, others_insert.
Qed.

Lemma held_write i x y :
  i < length cs -> f (cs !!! i) = true -> ds !! i = Some (Some x) ->
  x :: held f cs (<[i := Some y]> ds) ≡ₚ y :: held f cs ds.
Proof.
  intros Hi Hf Hd.
  rewrite (held_at f i (cs !!! i) (Some y) cs (<[i := Some y]> ds));
    [|by rewrite length_insert|by apply list_lookup_lookup_total_lt|apply list_lookup_insert_eq; lia].
  rewrite (held_at f i (cs !!! i) (Some x) cs ds); [|done|by apply list_lookup_lookup_total_lt|done].
  unfold slot. rewrite Hf, others_write. cbn. by rewrite Permutation_swap.
Qed.
End Held.

Lemma held_swap {T} (f : Z -> bool) cs (ds : list (option T)) i j x y :
  length cs = length ds -> i < length cs -> j < length cs -> i <> j ->
  f (cs !!! i) = true -> f (cs !!! j) = true -> ds !! i = Some (Some x) -> ds !! j = Some (Some y) ->
  held f cs (<[i := Some y]> (<[j := Some x]> ds)) ≡ₚ held f cs ds.
Proof.
  intros Hl Hi Hj Hne Fi Fj Di Dj. apply (Permutation_cons_inv (a := x)).
  rewrite (held_write f cs (<[j := Some x]> ds)); [|by rewrite length_insert|done|done|by rewrite list_lookup_insert_ne].
  by rewrite held_write.
Qed.

Lemma held_ext {T} (f g : Z -> bool) (h : Z -> Z) cs (ds : list (option T)) :
  (forall c, c ∈ cs -> f (h c) = g c) -> held f (h <$> cs) ds = held g cs ds.
Proof.
  revert ds. induction cs as [|c cs IH]; intros [|d ds] Hfg; cbn; try done. unfold slot.
  rewrite (Hfg c) by (by left). f_equal. apply IH. intros c' Hc'. apply Hfg. by right.
Qed.

Lemma count_ext (f g : Z -> bool) (h : Z -> Z) cs :
  (forall c, c ∈ cs -> f (h c) = g c) -> count f (h <$> cs) = count g cs.
Proof.
  induction cs as [|c cs IH]; intros Hfg; cbn; [done|]. rewrite (Hfg c) by (by left). f_equal.
  apply IH. intros c' Hc'. apply Hfg. by right.
Qed.

(** * Marking *)
Section Rehash.
Context `{GroupLaws} {T : Type} (hasher : T -> Z).
Context (hasher_range : forall x, (0 <= hasher x)%Z).
Local Notation W := WIDTH.
Local Notation table := (RawTable T).

Lemma convert_loop_spec n : forall (t : table) P M S,
  ctrl t = P ++ M ++ S -> length P mod W = 0 -> length M = n * W -> Forall is_ctrl M ->
  num_ctrl_bytes t = Z.of_nat (length (ctrl t)) ->
  convert_loop n (Z.of_nat (length P)) t = Ret (with_ctrl t (P ++ (conv <$> M) ++ S)).
Proof.
  pose proof width_ge as HW. induction n as [|n IH]; intros t P M S Hc HP HM Hctrl Hn; cbn [convert_loop].
  - apply nil_length_inv in HM as ->. cbn in *. rewrite <- Hc. by destruct t.
  - assert (length (take W M) = W) as H1 by (rewrite length_take; lia).
    assert (length (ctrl t) = length P + (length M + length S)) as HL by (rewrite Hc, !length_app; done).
    assert (load_aligned t (Z.of_nat (length P)) = Ret (take W M)) as ->.
    { unfold load_aligned, load. rewrite <- Nat2Z.inj_mod, HP, Hn. cbn [require mbind exec_bind Z.of_nat Z.eqb].
      rewrite (proj2 (Z.ltb_lt _ _)) by lia. cbn [require mbind exec_bind].
      unfold zlen. rewrite (proj2 (Z.leb_le _ _)) by lia. rewrite Nat2Z.id, Hc, drop_app_length.
      by rewrite take_app_le by lia. }
    cbn [mbind exec_bind]. rewrite convert_spec by (done || by apply Forall_take).
    change (fun c => if is_full c then DELETED else EMPTY) with conv.
    unfold store_aligned. rewrite <- Nat2Z.inj_mod, HP, Hn. cbn [require mbind exec_bind Z.of_nat Z.eqb].
    rewrite (proj2 (Z.ltb_lt _ _)) by lia. cbn [require mbind exec_bind].
    unfold zlen. rewrite (proj2 (Z.leb_le _ _)) by lia. cbn [mbind exec_bind].
    rewrite Nat2Z.id, Hc, take_app_length.
    rewrite <- drop_drop, drop_app_length, drop_app_le by lia.
    replace (Z.of_nat (length P) + Z.of_nat W)%Z with (Z.of_nat (length (P ++ (conv <$> take W M))))
      by (rewrite length_app, length_fmap, H1; lia).
    change (Z.of_nat 0 =? 0)%Z with true. cbn [require mbind exec_bind].
    rewrite (IH _ (P ++ (conv <$> take W M)) (drop W M) S).
    + replace (conv <$> M) with ((conv <$> take W M) ++ (conv <$> drop W M)) by (by rewrite <- fmap_app, take_drop).
      by rewrite <- !app_assoc.
    + cbn. by rewrite <- !app_assoc.
    + rewrite length_app, length_fmap, H1. rewrite <- Nat.Div0.add_mod_idemp_l, HP.
      by rewrite Nat.Div0.mod_same.
    + rewrite length_drop. lia.
    + by apply Forall_drop.
    + unfold num_ctrl_bytes in *. cbn [bucket_mask ctrl with_ctrl]. rewrite Hn, HL.
      rewrite !length_app, length_fmap, length_drop, H1. lia.
Qed.

Lemma conv_ctrl c : is_ctrl (conv c).
Proof. unfold conv, is_ctrl. destruct (is_full c); auto. Qed.

Lemma prepare_rehash_spec (t : table) cs k :
  Repr t cs k -> prepare_rehash_in_place t = Ret (with_ctrl t (laid_out (conv <$> cs))).
Proof.
  intros R. pose proof width_ge as HW. pose proof (rep_size_bound t cs k R) as [HB _].
  pose proof (length_laid_out cs k (rep_size _ _ _ R)) as HL.
  unfold prepare_rehash_in_place. rewrite (buckets_nat t cs k R).
  replace (Z.of_nat (length cs) + Z.of_nat W - 1)%Z with (Z.of_nat (length cs + W - 1)) by lia.
  rewrite <- Nat2Z.inj_div, Nat2Z.id. change 0%Z with (Z.of_nat (length (@nil Z))).
  assert (num_ctrl_bytes t = Z.of_nat (length (ctrl t))) as Hn.
  { rewrite (num_ctrl_nat t cs k R), (rep_ctrl _ _ _ R), HL. lia. }
  destruct (Nat.lt_ge_cases (length cs) W) as [Hs|Hs].
  - assert ((length cs + W - 1) / W = 1) as ->.
    { replace (length cs + W - 1) with (length cs - 1 + 1 * W) by lia. rewrite Nat.div_add, Nat.div_small by lia. done. }
    rewrite (convert_loop_spec 1 t [] (cs ++ replicate (W - length cs) EMPTY) cs); [|..|done].
    + cbn [mbind exec_bind]. unfold buckets. cbn [bucket_mask with_ctrl]. rewrite (rep_mask _ _ _ R).
      rewrite (proj2 (Z.ltb_lt _ _)) by lia. unfold copy_ctrl, num_ctrl_bytes. cbn [bucket_mask with_ctrl ctrl].
      rewrite (rep_mask _ _ _ R), (proj2 (Z.ltb_lt _ _)) by lia. cbn [require mbind exec_bind].
      unfold zlen. rewrite !length_app, !length_fmap, !length_app, !length_replicate, (proj2 (Z.leb_le _ _)) by (cbn; lia).
      f_equal. unfold with_ctrl. cbn [bucket_mask data growth_left items]. f_equal.
      unfold laid_out. rewrite length_fmap, (proj2 (Nat.ltb_lt _ _) Hs). cbn [app].
      rewrite Nat2Z.id. replace (Z.to_nat (Z.of_nat (length cs) - 1 + 1)) with (length cs) by lia.
      replace (Z.to_nat (Z.of_nat W + (Z.of_nat (length cs) - 1 + 1))) with (W + length cs) by lia.
      rewrite fmap_app, fmap_replicate. change (conv EMPTY) with EMPTY.
      rewrite <- app_assoc. rewrite (take_app_ge _ _ W) by (rewrite length_fmap; lia).
      rewrite length_fmap, (take_app_le _ _ (W - length cs)) by (rewrite length_replicate; lia).
      rewrite take_replicate, Nat.min_id, <- app_assoc. f_equal. f_equal.
      rewrite take_app_le, take_ge by (rewrite length_fmap; lia).
      rewrite drop_ge; [by rewrite app_nil_r|]. rewrite !length_app, length_fmap, length_replicate. lia.
    + rewrite (rep_ctrl _ _ _ R). unfold laid_out. rewrite (proj2 (Nat.ltb_lt _ _) Hs). by rewrite <- app_assoc.
    + apply Nat.Div0.mod_0_l.
    + rewrite length_app, length_replicate. lia.
    + apply Forall_app. split; [apply R|apply empty_ctrl].
  - destruct (pow2_large k) as [m Em]; [by rewrite <- (rep_size _ _ _ R)|]. rewrite <- (rep_size _ _ _ R) in Em.
    assert ((length cs + W - 1) / W = 2 ^ m) as ->.
    { rewrite Em. replace (W * 2 ^ m + W - 1) with (W - 1 + 2 ^ m * W) by lia.
      rewrite Nat.div_add, Nat.div_small by lia. done. }
    rewrite (convert_loop_spec (2 ^ m) t [] cs (take W cs)); [|..|done].
    + cbn [mbind exec_bind]. unfold buckets. cbn [bucket_mask with_ctrl]. rewrite (rep_mask _ _ _ R).
      rewrite (proj2 (Z.ltb_ge _ _)) by lia. unfold copy_ctrl, num_ctrl_bytes. cbn [bucket_mask with_ctrl ctrl].
      rewrite (rep_mask _ _ _ R), (proj2 (Z.ltb_lt _ _)) by lia. cbn [require mbind exec_bind].
      unfold zlen. rewrite !length_app, length_fmap, length_take, (proj2 (Z.leb_le _ _)) by (cbn; lia).
      f_equal. unfold with_ctrl. cbn [bucket_mask data growth_left items]. f_equal.
      unfold laid_out. rewrite length_fmap, (proj2 (Nat.ltb_ge _ _) Hs). cbn [app].
      rewrite Nat2Z.id. replace (Z.to_nat (Z.of_nat (length cs) - 1 + 1)) with (length cs) by lia.
      rewrite take_app_le, take_ge by (rewrite length_fmap; lia). f_equal.
      rewrite take_app_le by (rewrite length_fmap; lia). rewrite drop_ge; [by rewrite app_nil_r|].
      rewrite !length_app, length_fmap, length_take. lia.
    + rewrite (rep_ctrl _ _ _ R). unfold laid_out. by rewrite (proj2 (Nat.ltb_ge _ _) Hs).
    + apply Nat.Div0.mod_0_l.
    + lia.
    + apply R.
Qed.

(** * Placing *)

(** A value whose place is found: everything a search passes before it is full. *)
Definition settled_at (t : table) (cs : list Z) (i : nat) : Prop :=
  exists x, data t !! i = Some (Some x) /\ cs !!! i = h2 (hasher x)
    /\ exists n, sees cs (hasher x) n i /\ forall m, m < n -> all_full cs (probe_pos cs (hasher x) m).

Record Rehash (t : table) (cs : list Z) (k : nat) (l : list T) : Prop := {
  rh_repr : Repr t cs k;
  rh_data : forall i, i < length cs -> is_used (cs !!! i) = true -> exists x, data t !! i = Some (Some x);
  rh_settled : forall i, i < length cs -> is_full (cs !!! i) = true -> settled_at t cs i;
  rh_values : l ≡ₚ held is_used cs (data t)
}.

(** The same position of the probe, for two buckets. *)
Lemma same_group_spec (t : table) cs k h n i j :
  Repr t cs k -> (0 <= h)%Z -> i < length cs -> j < length cs -> sees cs h n j ->
  is_in_same_group t (Z.of_nat i) (Z.of_nat j) h = true ->
  exists n', n' <= n /\ sees cs h n' i.
Proof.
  intros R Hh Hi Hj Hsee. pose proof (rep_size _ _ _ R) as Hk. pose proof width_ge.
  destruct (Nat.lt_ge_cases (length cs) W) as [Hs|Hs].
  { intros _. exists 0. split; [lia|]. by apply (small_sees cs k Hk). }
  destruct (pow2_large k) as [m Em]; [by rewrite <- Hk|]. rewrite <- Hk in Em.
  assert (forall p, p < length cs ->
    (Z.land (wrap 64 (Z.of_nat p - pos (probe_seq t h))) (bucket_mask t) / Z.of_nat W)%Z
    = Z.of_nat (distance cs h p / W)) as Hidx.
  { intros p Hp. rewrite (probe_seq_spec t cs k R h Hh). cbn [at_probe pos]. rewrite (mask_Z t cs k R).
    rewrite Nat2Z.inj_div. f_equal. unfold probe_pos, distance. cbn [tri]. rewrite Nat.mul_0_r, Nat.add_0_r.
    pose proof (start_pos_lt cs k Hk h) as Hst. rewrite (Nat.mod_small (start_pos cs h)) by done.
    assert (Z.of_nat (length cs) = 2 ^ Z.of_nat k)%Z as EB by (by rewrite Hk, Nat2Z.inj_pow).
    pose proof (rep_k _ _ _ R). unfold wrap. rewrite EB, Z.mod_mod_divide, <- EB.
    - rewrite Nat2Z.inj_mod, Nat2Z.inj_sub, Nat2Z.inj_add by lia.
      replace (Z.of_nat p + Z.of_nat (length cs) - Z.of_nat (start_pos cs h))%Z
        with (Z.of_nat p - Z.of_nat (start_pos cs h) + 1 * Z.of_nat (length cs))%Z by lia.
      by rewrite Z_mod_plus_full.
    - exists (2 ^ (64 - Z.of_nat k))%Z. rewrite <- Z.pow_add_r by lia. f_equal. lia. }
  unfold is_in_same_group. rewrite !Hidx by done. intros E%Z.eqb_eq. apply Nat2Z.inj in E.
  apply (sees_distance cs k Hk m h n j Em Hj) in Hsee. exists n. split; [done|].
  apply (sees_distance cs k Hk m h n i Em Hi). congruence.
Qed.

Section Step.
Context (t : table) (cs : list Z) (k : nat) (l : list T) (RH : Rehash t cs k l).
Local Notation B := (length cs).

(** Control byte [c] written at [j], which was not full, and the data changed only
    where it was not full. *)
Lemma settled_written t' j c :
  j < B -> is_full c = true \/ is_full (cs !!! j) = false ->
  (forall i, i < B -> i <> j -> is_full (cs !!! i) = true -> data t' !! i = data t !! i) ->
  forall i, i < B -> i <> j -> is_full (cs !!! i) = true -> settled_at t' (<[j := c]> cs) i.
Proof.
  intros Hj Hc Hd i Hi Hne Hf. destruct (rh_settled _ _ _ _ RH i Hi Hf) as (x & Hx & Hh & n & Hs & Hb).
  exists x. rewrite Hd by done. split; [done|]. rewrite total_insert, decide_False by done. split; [done|].
  exists n. rewrite sees_written. split; [done|]. intros m Hm. rewrite probe_pos_written.
  by apply all_full_written; [..|apply Hb].
Qed.

Lemma settled_new t' x j :
  insert_slot cs (hasher x) j -> data t' !! j = Some (Some x) ->
  settled_at t' (<[j := h2 (hasher x)]> cs) j.
Proof.
  intros [[Hj Hs] (n & Hsee & Hb)] Hd. exists x. split; [done|]. rewrite total_insert, decide_True by done.
  split; [done|]. exists n. rewrite sees_written. split; [done|]. intros m Hm. rewrite probe_pos_written.
  apply all_full_written; [done|left; apply h2_full|by apply Hb].
Qed.

Context (i : nat) (Hi : i < B) (Hdel : cs !!! i = DELETED) (x : T) (Hx : data t !! i = Some (Some x)).
Local Notation h := (hasher x).
Local Notation c := (h2 (hasher x)).

(** The value stays. *)
Lemma stay_spec j :
  insert_slot cs h j -> is_in_same_group t (Z.of_nat i) (Z.of_nat j) h = true ->
  Rehash (with_ctrl t (laid_out (<[i := c]> cs))) (<[i := c]> cs) k l.
Proof.
  intros [[Hj Hs] (n & Hsee & Hb)] Hsame. pose proof (rh_repr _ _ _ _ RH) as R.
  destruct (same_group_spec t cs k h n i j R (hasher_range x) Hi Hj Hsee Hsame) as (n' & Hn' & Hsee').
  split.
  - apply (set_ctrl_repr t cs k R), h2_ctrl.
  - intros a Ha Hu. rewrite length_insert in Ha. rewrite total_insert in Hu by done. cbn.
    case_decide as E; [subst; by exists x|]. by apply (rh_data _ _ _ _ RH).
  - intros a Ha Hf. rewrite length_insert in Ha. destruct (decide (a = i)) as [->|Hne].
    + apply settled_new; [|done]. split; [by split; [|rewrite Hdel]|]. exists n'. split; [done|].
      intros m Hm. apply Hb. lia.
    + rewrite total_insert, decide_False in Hf by done. apply settled_written; (done || (left; apply h2_full)).
  - cbn. rewrite held_ctrl; [apply RH|by rewrite (rep_data _ _ _ R)|done|]. rewrite Hdel. apply full_used, h2_full.
Qed.

(** The value moves to an empty bucket. *)
Lemma move_spec j t' :
  insert_slot cs h j -> cs !!! j = EMPTY -> i <> j ->
  Repr t' (<[i := EMPTY]> (<[j := c]> cs)) k -> data t' = <[j := Some x]> (data t) ->
  Rehash t' (<[i := EMPTY]> (<[j := c]> cs)) k l.
Proof.
  intros Hslot He Hne R' Ed. pose proof (rh_repr _ _ _ _ RH) as R. assert (j < B) as Hj by apply Hslot.
  assert (forall a, a < B -> <[i := EMPTY]> (<[j := c]> cs) !!! a
    = if decide (a = i) then EMPTY else if decide (a = j) then c else cs !!! a) as Hat.
  { intros a Ha. rewrite total_insert by (by rewrite length_insert). case_decide; [done|]. by apply total_insert. }
  split; [done|..].
  - intros a Ha Hu. rewrite !length_insert in Ha. rewrite Hat in Hu by done. rewrite Ed. case_decide; [done|].
    case_decide as E; [subst a; exists x; apply list_lookup_insert_eq; by rewrite (rep_data _ _ _ R)|].
    rewrite list_lookup_insert_ne by done. by apply (rh_data _ _ _ _ RH).
  - intros a Ha Hf. rewrite !length_insert in Ha. rewrite Hat in Hf by done. case_decide as Ei; [done|].
    assert (settled_at t' (<[j := c]> cs) a) as (y & Hy & Hh & n & Hsee & Hb).
    { destruct (decide (a = j)) as [->|Hnj].
      - apply settled_new; [done|]. rewrite Ed. apply list_lookup_insert_eq. by rewrite (rep_data _ _ _ R).
      - apply settled_written; [done|left; apply h2_full| |done..]. intros b Hb Hnb _. rewrite Ed.
        by apply list_lookup_insert_ne. }
    exists y. split; [done|]. split; [by rewrite list_lookup_total_insert_ne|].
    exists n. rewrite sees_written. split; [done|]. intros m Hm. rewrite probe_pos_written.
    apply all_full_written; [by rewrite length_insert| |by apply Hb]. right.
    by rewrite list_lookup_total_insert_ne, Hdel by done.
  - rewrite Ed, list_insert_insert_ne by done.
    assert (length (<[i := EMPTY]> cs) = length (data t)) as Hlen by (by rewrite length_insert, (rep_data _ _ _ R)).
    rewrite held_put; [|done|by rewrite length_insert|by rewrite list_lookup_total_insert_ne, He|apply full_used, h2_full].
    rewrite <- held_take; [apply RH|by rewrite (rep_data _ _ _ R)|done|by rewrite Hdel|done|done].
Qed.

(** The value changes places with one that has none yet. *)
Lemma swap_spec j y t' :
  insert_slot cs h j -> cs !!! j = DELETED -> i <> j -> data t !! j = Some (Some y) ->
  Repr t' (<[j := c]> cs) k -> data t' = <[i := Some y]> (<[j := Some x]> (data t)) ->
  Rehash t' (<[j := c]> cs) k l.
Proof.
  intros Hslot He Hne Hy R' Ed. pose proof (rh_repr _ _ _ _ RH) as R. assert (j < B) as Hj by apply Hslot.
  pose proof (rep_data _ _ _ R) as Hlen. split; [done|..].
  - intros a Ha Hu. rewrite length_insert in Ha. rewrite total_insert in Hu by done. rewrite Ed.
    destruct (decide (a = i)) as [->|Ei]; [exists y; apply list_lookup_insert_eq; by rewrite length_insert, Hlen|].
    rewrite list_lookup_insert_ne by done.
    case_decide as E; [subst a; exists x; apply list_lookup_insert_eq; by rewrite Hlen|].
    rewrite list_lookup_insert_ne by done. by apply (rh_data _ _ _ _ RH).
  - intros a Ha Hf. rewrite length_insert in Ha. destruct (decide (a = j)) as [->|Hnj].
    + apply settled_new; [done|]. rewrite Ed, list_lookup_insert_ne by done.
      apply list_lookup_insert_eq. by rewrite Hlen.
    + rewrite total_insert, decide_False in Hf by done.
      assert (a <> i) by (intros ->; by rewrite Hdel in Hf).
      apply settled_written; [done|left; apply h2_full| |done..]. intros b Hb Hnb Hfb. rewrite Ed.
      assert (b <> i) by (intros ->; by rewrite Hdel in Hfb). by rewrite !list_lookup_insert_ne.
  - rewrite Ed, held_ctrl; [|by rewrite !length_insert, Hlen|done|rewrite He; apply full_used, h2_full].
    rewrite held_swap; [apply RH|by rewrite Hlen|done|done|done|by rewrite Hdel|by rewrite He|done|done].
Qed.
End Step.

(** What the loop keeps of the table. *)
Definition same_counts (t t' : table) : Prop := items t' = items t /\ bucket_mask t' = bucket_mask t.

Definition only_fewer (cs cs' : list Z) : Prop :=
  length cs' = length cs /\ forall j, j < length cs -> cs !!! j <> DELETED -> cs' !!! j <> DELETED.

Lemma fewer_insert cs j c : j < length cs -> c <> DELETED -> only_fewer cs (<[j := c]> cs).
Proof.
  intros Hj Hc. split; [apply length_insert|]. intros a Ha Hne. rewrite total_insert by done. by case_decide.
Qed.

Lemma fewer_trans cs1 cs2 cs3 : only_fewer cs1 cs2 -> only_fewer cs2 cs3 -> only_fewer cs1 cs3.
Proof. intros [E1 H1] [E2 H2]. split; [congruence|]. intros j Hj Hne. apply H2; [lia|]. by apply H1. Qed.

Lemma h2_not_deleted h : h2 h <> DELETED.
Proof. pose proof (h2_range h). unfold DELETED. lia. Qed.

Lemma empty_not_deleted : EMPTY <> DELETED.
Proof. unfold EMPTY, DELETED. lia. Qed.

Lemma rehash_bucket_spec fuel : forall t cs k l i,
  Rehash t cs k l -> i < length cs -> cs !!! i = DELETED -> count is_deleted cs <= fuel ->
  exists t' cs', rehash_bucket hasher fuel t (Z.of_nat i) = Ret t' /\ Rehash t' cs' k l
    /\ cs' !!! i <> DELETED /\ only_fewer cs cs' /\ same_counts t t'.
Proof.
  induction fuel as [|fuel IH]; intros t cs k l i RH Hi Hdel Hfuel.
  { exfalso. assert (is_deleted DELETED = false); [|done].
    apply (count_zero is_deleted cs); [lia|]. rewrite <- Hdel.
    eapply list_elem_of_lookup_2. by apply list_lookup_lookup_total_lt. }
  pose proof (rh_repr _ _ _ _ RH) as R. pose proof (rep_data _ _ _ R) as Hlen.
  destruct (rh_data _ _ _ _ RH i Hi) as [x Hx]; [by rewrite Hdel|]. cbn [rehash_bucket].
  rewrite (read_bucket_spec t cs k R i x) by done. cbn [mbind exec_bind].
  destruct (find_insert_slot_spec t cs k R (hasher x) (hasher_range x)) as (j & Ej & Hslot).
  { exists i. split; [done|]. by rewrite Hdel. }
  assert (j < length cs) as Hj by apply Hslot. rewrite Ej. cbn [mbind exec_bind].
  rewrite (check_bucket_spec t cs k R j Hj). cbn [mbind exec_bind].
  destruct (is_in_same_group t (Z.of_nat i) (Z.of_nat j) (hasher x)) eqn:Hsame.
  { unfold set_ctrl_h2. rewrite (set_ctrl_eq t cs k R) by done. do 2 eexists. split; [done|].
    split; [by apply (stay_spec t cs k l RH i Hi Hdel x Hx j)|].
    split; [rewrite list_lookup_total_insert_eq by done; apply h2_not_deleted|].
    split; [by apply fewer_insert; [|apply h2_not_deleted]|done]. }
  assert (i <> j) as Hne.
  { intros <-. unfold is_in_same_group in Hsame. by rewrite Z.eqb_refl in Hsame. }
  unfold replace_ctrl_h2. rewrite (read_ctrl_spec t cs k R) by done. cbn [mbind exec_bind].
  unfold set_ctrl_h2. rewrite (set_ctrl_eq t cs k R) by done. cbn [mbind exec_bind].
  pose proof (set_ctrl_repr t cs k R j _ (h2_ctrl (hasher x))) as R1. set (t1 := with_ctrl t _) in *.
  set (cs1 := <[j := h2 (hasher x)]> cs) in *. assert (length cs1 = length cs) as L1 by apply length_insert.
  destruct (special_cases t cs k R j) as [He | He]; [apply Hslot|..]; rewrite He.
  - change (EMPTY =? EMPTY)%Z with true. cbv iota. rewrite (set_ctrl_eq t1 cs1 k R1) by lia. cbn [mbind exec_bind].
    pose proof (set_ctrl_repr t1 cs1 k R1 i EMPTY ltac:(by left)) as R2. set (t2 := with_ctrl t1 _) in *.
    rewrite (write_bucket_spec t2 _ k R2) by (by rewrite length_insert, L1). do 2 eexists. split; [done|].
    split; [|split; [rewrite list_lookup_total_insert_eq; [apply empty_not_deleted|unfold cs1; by rewrite length_insert]|split; [|done]]].
    + eapply (move_spec t cs k l RH i Hi Hdel x Hx j); [done|done|done| |done].
      exact (repr_write t2 _ k R2 j x).
    + eapply fewer_trans; [apply (fewer_insert cs j (h2 (hasher x))); [done|apply h2_not_deleted]|].
      apply fewer_insert; [unfold cs1; by rewrite length_insert|apply empty_not_deleted].
  - change (DELETED =? EMPTY)%Z with false. change (DELETED =? DELETED)%Z with true. cbn [require mbind exec_bind].
    destruct (rh_data _ _ _ _ RH j Hj) as [y Hy]; [by rewrite He|].
    rewrite (read_bucket_spec t1 cs1 k R1 j y) by (done || lia). cbn [mbind exec_bind].
    rewrite (write_bucket_spec t1 cs1 k R1) by lia. cbn [mbind exec_bind]. set (t2 := with_data t1 _).
    assert (Repr t2 cs1 k) as R2 by (exact (repr_write t1 cs1 k R1 j x)).
    rewrite (write_bucket_spec t2 cs1 k R2) by lia. cbn [mbind exec_bind]. set (t3 := with_data t2 _).
    assert (Repr t3 cs1 k) as R3 by (exact (repr_write t2 cs1 k R2 i y)).
    assert (Rehash t3 cs1 k l) as RH3 by (by apply (swap_spec t cs k l RH i Hi Hdel x Hx j y)).
    assert (cs1 !!! i = DELETED) as Hdel1 by (unfold cs1; by rewrite list_lookup_total_insert_ne).
    pose proof (count_insert is_deleted j _ (h2 (hasher x)) cs (list_lookup_lookup_total_lt cs j Hj)) as Hcnt.
    rewrite He in Hcnt. change (is_deleted DELETED) with true in Hcnt. fold cs1 in Hcnt.
    rewrite (proj2 (Z.eqb_neq _ _) (h2_not_deleted (hasher x)) : is_deleted (h2 (hasher x)) = false) in Hcnt.
    cbv iota in Hcnt.
    destruct (IH t3 cs1 k l i RH3 ltac:(lia) Hdel1 ltac:(lia)) as (t' & cs' & E & RH' & Hn & Hfew & Hsc).
    exists t', cs'. split; [done|]. split; [done|]. split; [done|]. split; [|done].
    eapply fewer_trans; [apply (fewer_insert cs j (h2 (hasher x))); [done|apply h2_not_deleted]|done].
Qed.

Lemma rehash_loop_spec n : forall t cs k l i,
  Rehash t cs k l -> i + n = length cs -> (forall j, j < i -> cs !!! j <> DELETED) ->
  exists t' cs', rehash_loop hasher n (Z.of_nat i) t = Ret t' /\ Rehash t' cs' k l
    /\ (forall j, j < length cs' -> cs' !!! j <> DELETED) /\ same_counts t t'.
Proof.
  induction n as [|n IH]; intros t cs k l i RH Hn Hdone; cbn [rehash_loop].
  - exists t, cs. split; [done|]. split; [done|]. split; [|done]. intros j Hj. apply Hdone. lia.
  - pose proof (rh_repr _ _ _ _ RH) as R. rewrite (read_ctrl_spec t cs k R) by lia. cbn [mbind exec_bind].
    replace (Z.of_nat i + 1)%Z with (Z.of_nat (S i)) by lia. destruct (Z.eqb_spec (cs !!! i) DELETED) as [Hdel|Hdel]; cbn [negb].
    + rewrite (buckets_nat t cs k R), Nat2Z.id.
      destruct (rehash_bucket_spec (S (length cs)) t cs k l i RH ltac:(lia) Hdel) as (t1 & cs1 & -> & RH1 & Hn1 & [L1 Hf1] & Hs1).
      { pose proof (count_le is_deleted cs). lia. }
      cbn [mbind exec_bind]. destruct (IH t1 cs1 k l (S i) RH1) as (t' & cs' & E & RH' & Hd' & Hs'); [lia| |].
      { intros j Hj. destruct (decide (j = i)) as [->|]; [done|]. apply Hf1; [lia|]. apply Hdone. lia. }
      exists t', cs'. split; [done|]. split; [done|]. split; [done|].
      destruct Hs1, Hs'. split; congruence.
    + apply (IH t cs k l (S i)); [done|lia|]. intros j Hj. destruct (decide (j = i)) as [->|]; [done|]. apply Hdone. lia.
Qed.

(** Rehashing in place keeps the values and frees every deleted bucket. *)
Lemma rehash_in_place_spec t cs k :
  Inv hasher t cs k ->
  exists t', rehash_in_place hasher t = Ret t' /\ Clean hasher t' (values t cs)
    /\ items t' = items t /\ growth_left t' = (Z.of_nat (cap_of k) - items t)%Z.
Proof.
  intros I. pose proof (inv_repr _ _ _ _ I) as R. unfold rehash_in_place. rewrite (prepare_rehash_spec t cs k R).
  cbn [mbind exec_bind]. set (t0 := with_ctrl t _).
  assert (forall c, is_used (conv c) = is_full c) as Hused by (intros c; unfold conv; by destruct (is_full c)).
  assert (forall c, is_full (conv c) = false) as Hnfull by (intros c; unfold conv; by destruct (is_full c)).
  assert (forall i, i < length cs -> (conv <$> cs) !!! i = conv (cs !!! i)) as Hat.
  { intros i Hi. apply list_lookup_total_correct. by rewrite list_lookup_fmap, list_lookup_lookup_total_lt. }
  assert (Rehash t0 (conv <$> cs) k (values t cs)) as RH.
  { split.
    - destruct R. split; cbn; rewrite ?length_fmap; try done. apply Forall_fmap, Forall_true. intros c. apply conv_ctrl.
    - intros i Hi Hu. rewrite length_fmap in Hi. rewrite Hat, Hused in Hu by done.
      destruct (inv_placed _ _ _ _ I i Hi Hu) as (x & Hx & _). by exists x.
    - intros i Hi Hf. rewrite length_fmap in Hi. by rewrite Hat, Hnfull in Hf.
    - cbn. by rewrite (held_ext is_used is_full conv). }
  destruct (rehash_loop_spec (length cs) t0 (conv <$> cs) k (values t cs) 0 RH) as (t' & cs' & E & RH' & Hnd & Hit & Hm);
    [by rewrite length_fmap|lia|].
  unfold buckets. cbn [bucket_mask t0 with_ctrl]. rewrite (rep_mask _ _ _ R).
  replace (Z.to_nat (Z.of_nat (length cs) - 1 + 1)) with (length cs) by lia.
  change 0%Z with (Z.of_nat 0). rewrite E. cbn [mbind exec_bind].
  pose proof (rh_repr _ _ _ _ RH') as R'. rewrite (cap_spec t' cs' k R'), Hit. cbn [items t0 with_ctrl].
  pose proof (inv_load _ _ _ _ I) as Hl. pose proof (inv_items _ _ _ _ I) as Ei.
  pose proof (count_mono is_full is_used cs full_used). rewrite usub_le by lia. cbn [mbind exec_bind].
  eexists. split; [done|].
  assert (forall c, c ∈ cs' -> is_used c = is_full c) as Hsame.
  { intros c (j & Hc)%list_elem_of_lookup_1. pose proof (lookup_lt_Some _ _ _ Hc) as Hj. specialize (Hnd j Hj).
    rewrite (list_lookup_total_correct _ _ _ Hc) in Hnd. pose proof (byte_ctrl t' cs' k R' j Hj) as Hctrl.
    rewrite (list_lookup_total_correct _ _ _ Hc) in Hctrl. destruct Hctrl as [->|[->|Hr]]; [done|done|].
    rewrite is_full_small by done. by apply full_used, is_full_small. }
  assert (held is_used cs' (data t') = values t' cs') as Hv.
  { unfold values. rewrite <- (list_fmap_id cs') at 1. by apply (held_ext is_used is_full id). }
  assert (count is_used cs' = count is_full cs') as Hcu.
  { rewrite <- (list_fmap_id cs') at 1. by apply (count_ext is_used is_full id). }
  pose proof (rh_values _ _ _ _ RH') as Hperm. rewrite Hv in Hperm.
  assert (placed hasher t' cs') as Hp.
  { intros i Hi Hf. destruct (rh_settled _ _ _ _ RH' i Hi Hf) as (x & Hx & Hh & n & Hs & Hb). exists x.
    split; [done|]. split; [done|]. exists n. split; [lia|]. split; [done|].
    intros m Hm'. apply all_full_none_empty, Hb. lia. }
  assert (count is_full cs' = count is_full cs) as Hcnt.
  { rewrite <- (length_values hasher t cs k I), Hperm. unfold values. symmetry.
    apply count_held; [by rewrite (rep_data _ _ _ R')|]. intros i c Hc Hf.
    destruct (Hp i) as (x & Hx & _); [by eapply lookup_lt_Some|by rewrite (list_lookup_total_correct _ _ _ Hc)|].
    by exists x. }
  split; [|done]. exists cs', k. split; [|done].
  split; [by destruct R'; split|done|cbn; rewrite Hit; cbn; lia|cbn; lia|lia].
Qed.
End Rehash.

(** * The operations of the table

    The operations of [RawTable] keep its invariant and do what they say.

    [reserve], [try_reserve], [shrink_to] and [insert], with the capacity they
    promise; iteration, also while the items it has yielded are erased. *)

Section Ops.
Context `{GroupLaws} {T : Type} (hasher : T -> Z).
Context (hasher_range : forall x, (0 <= hasher x)%Z).
Context (alloc : Z -> Z -> bool) (layout : Layout).
Local Notation W := WIDTH.
Local Notation table := (RawTable T).

(** * Growing *)
Lemma resize_singleton cap f :
  (0 < cap <= usize_max)%Z ->
  ends (resize_inner alloc layout hasher new_in cap f)
    (ok_or f (fun t' => Clean hasher t' [] /\ (cap <= growth_left t')%Z)).
Proof.
  intros Hc. unfold resize_inner, prepare_resize. cbn [items new_in]. rewrite (proj2 (Z.leb_le _ _)) by lia.
  cbn [require mbind exec_bind]. unfold try_.
  pose proof (fallible_with_capacity_spec hasher alloc layout cap f Hc) as Hf.
  destruct (fallible_with_capacity alloc layout cap f) as [[new|e]| | | | |]; try done. cbn [mbind exec_bind].
  destruct Hf as (k & Hfr & Hcap). pose proof Hfr as [Hk I].
  assert (growth_left new = Z.of_nat (cap_of k)) as Hg.
  { rewrite (inv_growth _ _ _ _ I), count_replicate by done. lia. }
  rewrite usub_le by lia. cbn [mbind exec_bind]. change (Z.to_nat (buckets new_in)) with 1. cbn [resize_loop].
  rewrite singleton_read. cbn [mbind exec_bind]. change (negb (is_full EMPTY)) with true. cbn [mbind exec_bind ends ok_or].
  split; [|cbn; lia]. exists (replicate (2 ^ k) EMPTY), k. split; [|split].
  - destruct I as [I1 I2 I3 I4 I5]. split; [by destruct I1; split|done|..]; cbn; rewrite ?count_replicate in *; try done; lia.
  - by rewrite fresh_values.
  - by rewrite !count_replicate.
Qed.

Lemma reserve_rehash_spec t l additional f :
  Table hasher t l -> (growth_left t < additional)%Z ->
  ends (reserve_rehash alloc layout hasher t additional f)
    (ok_or f (fun t' => Clean hasher t' l /\ (additional <= growth_left t')%Z)).
Proof.
  intros Ht Hadd. pose proof (table_length hasher t l Ht) as Hn. unfold reserve_rehash, checked.
  destruct (Z.leb_spec (items t + additional) usize_max) as [Hmax|]; [|by destruct f].
  destruct Ht as [-> ->|cs k I Hl].
  - change (bucket_mask new_in) with 0%Z. change (bucket_mask_to_capacity 0) with 0%Z. cbn [items new_in growth_left] in *.
    rewrite (proj2 (Z.leb_gt _ _)) by (change (0 / 2)%Z with 0%Z; lia).
    eapply ends_impl; [apply resize_singleton; lia|]. intros [t'|e]; cbn; [|done]. intros [? ?]. split; [done|lia].
  - pose proof (inv_repr _ _ _ _ I) as R. rewrite (cap_spec t cs k R). pose proof (cap_bound t cs k R).
    pose proof (inv_growth _ _ _ _ I) as Hg. pose proof (inv_load _ _ _ _ I). pose proof (inv_items _ _ _ _ I).
    pose proof (count_mono is_full is_used cs full_used).
    destruct (Z.leb_spec (items t + additional) (Z.of_nat (cap_of k) / 2)) as [Hhalf|Hhalf].
    + destruct (rehash_in_place_spec hasher hasher_range t cs k I) as (t' & -> & Hc & Hi & Hgr).
      cbn [mbind exec_bind ends ok_or]. split; [|pose proof (Z.div_le_upper_bound (Z.of_nat (cap_of k)) 2 (Z.of_nat (cap_of k))); lia].
      destruct Hc as (cs' & k' & I' & Hv & Hc). exists cs', k'. split; [done|]. split; [by rewrite Hl|done].
    + eapply ends_impl; [apply (resize_spec hasher hasher_range alloc layout t cs k _ f I)|].
      * change usize_max with (2 ^ 64 - 1)%Z in *. lia.
      * lia.
      * intros [t'|e]; cbn; [|done]. intros [(cs' & k' & I' & Hv & Hc) Hgr]. split; [|lia].
        exists cs', k'. split; [done|]. split; [by rewrite Hl|done].
Qed.

(** [reserve]: the same values, and room for [additional] more. *)
Lemma reserve_spec t l additional :
  Table hasher t l ->
  ends (reserve alloc layout hasher t additional)
    (fun t' => Table hasher t' l /\ (additional <= growth_left t')%Z /\ ((growth_left t < additional)%Z -> Clean hasher t' l)).
Proof.
  intros Ht. unfold reserve. destruct (Z.ltb_spec (growth_left t) additional) as [Hlt|Hge].
  - unfold unwrap_unchecked. eapply ends_bind; [by apply (reserve_rehash_spec t l additional Infallible)|].
    intros [t'|e]; cbn; [|done]. intros [Hc Hg]. split; [by apply clean_table|done].
  - cbn. split; [done|]. split; [done|lia].
Qed.

Lemma try_reserve_spec t l additional :
  Table hasher t l ->
  ends (try_reserve alloc layout hasher t additional)
    (ok_or Fallible (fun t' => Table hasher t' l /\ (additional <= growth_left t')%Z)).
Proof.
  intros Ht. unfold try_reserve. destruct (Z.ltb_spec (growth_left t) additional) as [Hlt|Hge].
  - eapply ends_impl; [by apply (reserve_rehash_spec t l additional Fallible)|].
    intros [t'|e]; cbn; [|done]. intros [Hc Hg]. split; [by apply clean_table|done].
  - cbn. done.
Qed.

Lemma shrink_to_spec t l min_size :
  Table hasher t l -> (min_size <= usize_max)%Z ->
  ends (shrink_to alloc layout hasher t min_size) (fun t' => Table hasher t' l).
Proof.
  intros Ht Hmin. pose proof (table_length hasher t l Ht) as Hn. unfold shrink_to.
  assert (items t <= usize_max)%Z as Hi.
  { destruct Ht as [-> ->|cs k I Hl]; [done|]. pose proof (cap_bound t cs k (inv_repr _ _ _ _ I)).
    pose proof (inv_load _ _ _ _ I). pose proof (inv_items _ _ _ _ I). pose proof (count_mono is_full is_used cs full_used).
    change usize_max with (2 ^ 64 - 1)%Z. lia. }
  destruct (Z.eqb_spec (Z.max (items t) min_size) 0) as [E|E].
  { cbn. assert (l = []) as -> by (apply nil_length_inv; lia). by left. }
  pose proof (capacity_to_buckets_spec (Z.max (items t) min_size) ltac:(lia)) as Hb.
  destruct (capacity_to_buckets _) as [[n|]| | | | |]; try done. cbn [mbind exec_bind].
  destruct (n <? buckets t)%Z; [|done]. destruct (Z.eqb_spec (items t) 0) as [E0|E0].
  - assert (l = []) as -> by (apply nil_length_inv; lia).
    eapply ends_impl; [apply (with_capacity_spec hasher); lia|]. by intros t' [? _].
  - destruct Ht as [-> ->|cs k I Hl]; [done|]. unfold unwrap_unchecked.
    eapply ends_bind; [apply (resize_spec hasher hasher_range alloc layout t cs k _ Infallible I); lia|].
    intros [t'|e]; cbn; [|done]. intros [Hc _]. apply clean_table in Hc. by rewrite Hl.
Qed.

(** * Inserting *)
Lemma insert_spec t l x :
  Table hasher t l ->
  ends (insert alloc layout hasher t (hasher x) x)
    (fun '(i, t') => Table hasher t' (x :: l) /\ read_bucket t' i = Ret x /\ (growth_left t - 1 <= growth_left t')%Z).
Proof.
  intros Ht. unfold insert.
  (* inserting at a free slot *)
  assert (forall t cs k i old, Inv hasher t cs k -> insert_slot cs (hasher x) i -> is_special old = true ->
    special_is_empty old = (cs !!! i =? EMPTY)%Z -> (cs !!! i = EMPTY -> 0 < growth_left t)%Z -> l ≡ₚ values t cs ->
    ends (t ← record_item_insert_at t (Z.of_nat i) old (hasher x);
          t ← write_bucket t (Z.of_nat i) x; Ret (Z.of_nat i, t))
      (fun '(i, t') => Table hasher t' (x :: l) /\ read_bucket t' i = Ret x /\ (growth_left t - 1 <= growth_left t')%Z)) as Hput.
  { intros t0 cs k i old I Hslot Hold Hemp Hg Hl.
    destruct (insert_at_spec hasher t0 cs k x i old I Hslot Hold Hemp Hg) as (t' & E & I' & Hv & Hd & Hgr).
    destruct (record_item_insert_at t0 (Z.of_nat i) old (hasher x)) as [t1| | | | |]; try done. cbn [mbind exec_bind] in *.
    rewrite E. cbn [mbind exec_bind ends]. split; [|split].
    - eright; [done|]. by rewrite Hv, Hl.
    - apply (read_bucket_spec t' _ k (inv_repr _ _ _ _ I')); [|done]. rewrite length_insert. apply Hslot.
    - destruct (special_is_empty old); lia. }
  assert (forall t0 , Clean hasher t0 l -> (1 <= growth_left t0)%Z ->
    ends ('(index, t) ← (index ← find_insert_slot t0 (hasher x); Ret (index, t0));
          t ← record_item_insert_at t index EMPTY (hasher x); t ← write_bucket t index x; Ret (index, t))
      (fun '(i, t') => Table hasher t' (x :: l) /\ read_bucket t' i = Ret x /\ (0 <= growth_left t')%Z)) as Hclean.
  { intros t0 (cs & k & I & Hl & Hc) Hg. pose proof (inv_repr _ _ _ _ I) as R.
    destruct (find_insert_slot_spec t0 cs k R (hasher x) (hasher_range x)) as (i & -> & Hslot); [by apply (free_special hasher t0 cs k)|].
    cbn [mbind exec_bind]. assert (cs !!! i = EMPTY) as He by (apply (clean_slot t0 cs k i R Hc), Hslot).
    eapply ends_impl; [apply (Hput t0 cs k i EMPTY I Hslot); [done|by rewrite He|lia|done]|].
    intros [j t'] (? & ? & ?). split; [done|]. split; [done|lia]. }
  destruct Ht as [-> ->|cs k I Hl].
  - rewrite singleton_slot. cbn [mbind exec_bind]. rewrite singleton_read. cbn [mbind exec_bind].
    change ((growth_left new_in =? 0)%Z && special_is_empty EMPTY) with true. cbv iota.
    pose proof (reserve_spec new_in [] 1 ltac:(by left)) as Hr.
    destruct (reserve alloc layout hasher new_in 1) as [t0| | | | |]; try done.
    destruct Hr as (_ & Hg & Hc). specialize (Hc ltac:(cbn; lia)). cbn [mbind exec_bind].
    eapply ends_impl; [apply (Hclean t0 Hc Hg)|]. intros [j t'] (? & ? & ?). split; [done|]. split; [done|cbn; lia].
  - pose proof (inv_repr _ _ _ _ I) as R.
    destruct (find_insert_slot_spec t cs k R (hasher x) (hasher_range x)) as (i & -> & Hslot); [by apply (free_special hasher t cs k)|].
    cbn [mbind exec_bind]. assert (i < length cs) as Hi by apply Hslot.
    rewrite (read_ctrl_spec t cs k R) by done. cbn [mbind exec_bind].
    pose proof (inv_growth _ _ _ _ I) as Hg. pose proof (inv_load _ _ _ _ I).
    assert (special_is_empty (cs !!! i) = (cs !!! i =? EMPTY)%Z) as Hemp
      by (by destruct (special_cases t cs k R i (proj1 Hslot)) as [-> | ->]).
    assert (is_special (cs !!! i) = true) as Hsp
      by (by destruct (special_cases t cs k R i (proj1 Hslot)) as [-> | ->]).
    destruct ((growth_left t =? 0)%Z && special_is_empty (cs !!! i)) eqn:Full.
    + apply andb_prop in Full as [E0%Z.eqb_eq E1]. rewrite Hemp in E1. apply Z.eqb_eq in E1. rewrite E1.
      pose proof (reserve_spec t l 1 ltac:(by eright)) as Hr.
      destruct (reserve alloc layout hasher t 1) as [t0| | | | |]; try done.
      destruct Hr as (_ & Hg' & Hc). specialize (Hc ltac:(lia)). cbn [mbind exec_bind].
      eapply ends_impl; [apply (Hclean t0 Hc Hg')|]. intros [j t'] (? & ? & ?). split; [done|]. split; [done|lia].
    + cbn [mbind exec_bind]. apply (Hput t cs k i (cs !!! i)); [done|done|done|done| |done].
      intros E. rewrite Hemp, E, Z.eqb_refl, andb_true_r in Full. apply Z.eqb_neq in Full. lia.
Qed.

(** With room left, inserting cannot fail. *)
Lemma insert_room t l x :
  Table hasher t l -> (0 < growth_left t)%Z ->
  exists i t', insert alloc layout hasher t (hasher x) x = Ret (i, t').
Proof.
  intros Ht Hg. pose proof (insert_spec t l x Ht) as Hs. unfold insert in *.
  destruct Ht as [-> ->|cs k I Hl]; [cbn in Hg; lia|]. pose proof (inv_repr _ _ _ _ I) as R.
  destruct (find_insert_slot_spec t cs k R (hasher x) (hasher_range x)) as (i & E & Hslot); [by apply (free_special hasher t cs k)|].
  rewrite E in *. cbn [mbind exec_bind] in *. assert (i < length cs) as Hi by apply Hslot.
  rewrite (read_ctrl_spec t cs k R) in * by done. cbn [mbind exec_bind] in *.
  rewrite (proj2 (Z.eqb_neq (growth_left t) 0)) in * by lia. cbn [andb mbind exec_bind] in *.
  unfold record_item_insert_at, usub, uadd, set_ctrl_h2, set_ctrl, write_ctrl, write_bucket, check_bucket, require in *.
  repeat (case_match; cbn [mbind exec_bind ends] in *; try done; eauto).
Qed.
End Ops.
