(* ===== verification/HashIter.v ===== *)
(** HashIter: iterating over the hash table.

    The iterator yields every full bucket once, in order, and that also when the
    loop erases or changes the buckets it was given. *)
From Stdlib Require Import ZArith Lia.
From stdpp Require Import base numbers list option sets tactics.
From S2P Require Import Prelude HashGroup HashGroupLaws HashRaw HashProbe HashInv HashGrow HashRehash.
Local Open Scope nat_scope.

(** * The full buckets, from one on *)
Definition fulls_from (cs : list Z) (a : nat) : list nat :=
  (fun j => a + j) <$> trues (is_full <$> drop a cs).

Lemma trues_app bs bs' : trues (bs ++ bs') = trues bs ++ ((fun j => length bs + j) <$> trues bs').
Proof.
  induction bs as [|b bs IH]; cbn [app trues length].
  - cbn. rewrite <- (list_fmap_id (trues bs')) at 1. by apply list_fmap_ext.
  - rewrite IH, fmap_app, <- list_fmap_compose, app_assoc. done.
Qed.

Lemma trues_false bs : (forall b, b ∈ bs -> b = false) -> trues bs = [].
Proof.
  intros Hb. destruct (trues bs) as [|j js] eqn:E; [done|]. exfalso.
  assert (j ∈ trues bs) as Hj%elem_of_trues by (rewrite E; by left).
  by specialize (Hb _ (list_elem_of_lookup_2 _ _ _ Hj)).
Qed.

Lemma trues_nodup bs : NoDup (trues bs).
Proof.
  induction bs as [|b bs IH]; cbn [trues]; [constructor|]. apply list.NoDup_app. split; [|split].
  - destruct b; [apply NoDup_singleton|constructor].
  - intros j Hj (j' & -> & _)%list_elem_of_fmap. destruct b; [|by apply elem_of_nil in Hj].
    by apply list_elem_of_singleton in Hj.
  - apply NoDup_fmap_2; [intros ? ?; lia|done].
Qed.

Lemma length_fulls cs : length (fulls_from cs 0) = count is_full cs.
Proof.
  unfold fulls_from. rewrite length_fmap, drop_0. induction cs as [|c cs IH]; [done|]. cbn [fmap list_fmap trues count].
  rewrite length_app, length_fmap. change (list_fmap Z bool is_full cs) with (is_full <$> cs). rewrite IH.
  by destruct (is_full c).
Qed.

Lemma elem_of_fulls cs a i : i ∈ fulls_from cs a <-> a <= i < length cs /\ is_full (cs !!! i) = true.
Proof.
  unfold fulls_from. rewrite list_elem_of_fmap. setoid_rewrite elem_of_trues. setoid_rewrite list_lookup_fmap.
  setoid_rewrite lookup_drop. split.
  - intros (j & -> & E). destruct (cs !! (a + j)) as [c|] eqn:Hc; [|done]. injection E as E.
    rewrite (list_lookup_total_correct _ _ _ Hc). pose proof (lookup_lt_Some _ _ _ Hc). split; [lia|done].
  - intros [Hi Hf]. exists (i - a). split; [lia|]. replace (a + (i - a)) with i by lia.
    rewrite list_lookup_lookup_total_lt by lia. cbn. by rewrite Hf.
Qed.

(** The values of the full buckets. *)
Lemma held_fulls {T} (cs : list Z) (ds : list (option T)) :
  length cs = length ds -> held is_full cs ds = omap (fun i => match ds !! i with Some d => d | None => None end) (fulls_from cs 0).
Proof.
  unfold fulls_from. rewrite drop_0. intros Hl.
  assert ((fun j => 0 + j) <$> trues (is_full <$> cs) = trues (is_full <$> cs)) as ->
    by (rewrite <- (list_fmap_id (trues (is_full <$> cs))) at 2; by apply list_fmap_ext).
  revert ds Hl. induction cs as [|c cs IH]; intros [|d ds]; try done. cbn [length]. intros [= Hl].
  cbn [held fmap list_fmap trues]. change (list_fmap Z bool is_full cs) with (is_full <$> cs).
  rewrite omap_app. f_equal; [unfold slot; destruct (is_full c), d; done|].
  rewrite IH by done. clear IH Hl. induction (trues (is_full <$> cs)) as [|j js IHj]; [done|].
  change (S <$> j :: js) with (S j :: (S <$> js)). cbn [omap list_omap]. change ((d :: ds) !! S j) with (ds !! j).
  change (list_omap nat T (fun i => match (d :: ds) !! i with Some d => d | None => None end) (S <$> js))
    with (omap (fun i => match (d :: ds) !! i with Some d => d | None => None end) (S <$> js)).
  rewrite <- IHj. done.
Qed.

Section Iter.
Context `{GroupLaws} {T : Type}.
Local Notation W := WIDTH.
Local Notation table := (RawTable T).

(** * The iterator *)
Record IterAt (B : nat) (it : RawIter) (g : nat) (bs : list bool) : Prop := {
  ita_group : current_group it = mark BITMASK_STRIDE bs;
  ita_len : length bs = W;
  ita_data : it_data it = Z.of_nat (g * W);
  ita_next : next_ctrl it = Z.of_nat ((g + 1) * W);
  ita_end : it_end it = Z.of_nat B
}.

(** What it has not yielded yet. *)
Definition rest (cs : list Z) (g : nat) (bs : list bool) : list nat :=
  ((fun j => g * W + j) <$> trues bs) ++ fulls_from cs ((g + 1) * W).

Section At.
Context (t : table) (cs : list Z) (k : nat) (R : Repr t cs k).
Local Notation B := (length cs).

Lemma match_full_spec p :
  p < B -> match_full (group_at cs p) = mark BITMASK_STRIDE (is_full <$> group_at cs p).
Proof.
  intros Hp. pose proof (length_group_at cs k (rep_size _ _ _ R) p Hp) as Hl. unfold match_full.
  rewrite (special_bits t cs k R) by done. rewrite invert_mark by (by rewrite length_fmap).
  rewrite <- list_fmap_compose. f_equal. apply list_fmap_ext. intros _ c _. cbn. by rewrite negb_involutive.
Qed.

Lemma fulls_group g :
  g * W < B -> fulls_from cs (g * W) = rest cs g (is_full <$> group_at cs (g * W)).
Proof.
  intros Hg. pose proof width_ge. pose proof (rep_size _ _ _ R) as Hk. unfold rest, fulls_from.
  destruct (Nat.lt_ge_cases B W) as [Hs|Hs].
  - assert (g = 0) as -> by nia. cbn [Nat.mul Nat.add]. rewrite drop_0. unfold group_at, laid_out.
    rewrite (proj2 (Nat.ltb_lt _ _) Hs), drop_0. rewrite (drop_ge cs (W + 0)) by lia. rewrite app_nil_r. f_equal.
    rewrite take_app_ge by lia. rewrite take_app_le by (rewrite length_replicate; lia).
    rewrite fmap_app, trues_app.
    rewrite (trues_false (is_full <$> take (W - B) (replicate (W - B) EMPTY))); [by rewrite app_nil_r|].
    intros b (c & -> & Hc)%list_elem_of_fmap. rewrite take_replicate in Hc. by apply elem_of_replicate in Hc as [-> _].
  - destruct (pow2_large k) as [m Em]; [by rewrite <- Hk|]. rewrite <- Hk in Em.
    assert (g * W + W <= B) as Hle by (assert (g < 2 ^ m) by nia; nia).
    unfold group_at, laid_out. rewrite (proj2 (Nat.ltb_ge _ _) Hs). rewrite drop_app_le by lia.
    rewrite take_app_le by (rewrite length_drop; lia).
    rewrite <- (take_drop W (drop (g * W) cs)) at 1. rewrite fmap_app, trues_app, fmap_app. f_equal.
    rewrite drop_drop, length_fmap, length_take, length_drop, <- list_fmap_compose.
    replace (g * W + W) with ((g + 1) * W) by lia. apply list_fmap_ext. intros _ j _. cbn. lia.
Qed.

Lemma range_next_spec fuel : forall it g bs,
  IterAt B it g bs -> 0 < fuel -> B <= (g + fuel) * W ->
  match rest cs g bs with
  | [] => exists it', range_next fuel t it = Ret (None, it') /\ it_items it' = it_items it
  | i :: r => exists it' g' bs', range_next fuel t it = Ret (Some (Z.of_nat i), it') /\ IterAt B it' g' bs'
      /\ it_items it' = it_items it /\ rest cs g' bs' = r /\ i < (g' + 1) * W
  end.
Proof.
  pose proof width_ge. pose proof (rep_size _ _ _ R) as Hk. pose proof (rep_size_bound t cs k R) as [HB _].
  induction fuel as [|fuel IH]; intros it g bs I Hf HfB; [lia|]. destruct I as [E1 E2 E3 E4 E5].
  cbn [range_next]. rewrite E1, lowest_set_bit_mark by done. unfold rest. destruct (trues bs) as [|j js] eqn:Ht; cbn [head fmap option_fmap option_map].
  - cbn [fmap list_fmap app]. rewrite E4, E5. destruct (Z.leb_spec (Z.of_nat B) (Z.of_nat ((g + 1) * W))) as [Hend|Hend].
    + unfold fulls_from. rewrite drop_ge by lia. cbn. by exists it.
    + assert ((g + 1) * W < B) as Hlt by lia.
      rewrite (load_aligned_spec t cs k R) by (done || (rewrite Nat.mul_comm; apply Nat.Div0.mod_mul_r || (rewrite Nat.mul_comm; apply Nat.Div0.mod_mul))).
      cbn [mbind exec_bind]. rewrite match_full_spec by done.
      rewrite (fulls_group (g + 1)) by done.
      set (it1 := {| current_group := _ |}).
      apply (IH it1 (g + 1) (is_full <$> group_at cs ((g + 1) * W))); [|nia|nia].
      split; cbn; [done|rewrite length_fmap; by apply (length_group_at cs k Hk)|lia|lia|lia].
  - cbn [fmap list_fmap app]. rewrite E3. eexists _, g, (clear_first bs).
    assert (j ∈ trues bs) as Hj by (rewrite Ht; by left). pose proof (trues_bound bs E2 j Hj).
    split; [by rewrite <- Nat2Z.inj_add|]. split; [|split; [done|split; [|lia]]].
    + split; cbn; [by apply remove_lowest_bit_mark|by rewrite length_clear|done|done|done].
    + unfold rest. by rewrite trues_clear, Ht.
Qed.
End At.

Lemma iter_next_spec (t : table) cs k it g bs :
  Repr t cs k -> IterAt (length cs) it g bs -> it_items it = Z.of_nat (length (rest cs g bs)) ->
  match rest cs g bs with
  | [] => exists it', iter_next t it = Ret (None, it')
  | i :: r => exists it' g' bs', iter_next t it = Ret (Some (Z.of_nat i), it') /\ IterAt (length cs) it' g' bs'
      /\ it_items it' = Z.of_nat (length r) /\ rest cs g' bs' = r /\ i < (g' + 1) * W
  end.
Proof.
  intros R I Hn. pose proof width_ge. unfold iter_next.
  assert (length cs <= (g + probe_fuel t) * W) as Hf.
  { unfold probe_fuel. rewrite (buckets_nat t cs k R), <- Nat2Z.inj_div, Nat2Z.id.
    pose proof (Nat.div_mod_eq (length cs) W). pose proof (Nat.mod_upper_bound (length cs) W ltac:(lia)). nia. }
  pose proof (range_next_spec t cs k R (probe_fuel t) it g bs I ltac:(unfold probe_fuel; lia) Hf) as Hr.
  destruct (rest cs g bs) as [|i r] eqn:E.
  - destruct Hr as (it' & -> & Hi). cbn [mbind exec_bind]. rewrite Hi, Hn. by exists it'.
  - destruct Hr as (it' & g' & bs' & -> & I' & Hi & Hr & Hlt). cbn [mbind exec_bind]. rewrite Hi, Hn.
    rewrite usub_le by (cbn [length]; lia). cbn [mbind exec_bind]. eexists _, g', bs'. split; [done|].
    split; [by destruct I'; split|]. split; [cbn [length it_items]; lia|done].
Qed.

Lemma fulls_ext cs cs' a :
  length cs' = length cs -> (forall j, a <= j < length cs -> is_full (cs' !!! j) = is_full (cs !!! j)) ->
  fulls_from cs' a = fulls_from cs a.
Proof.
  intros Hl Hf. unfold fulls_from. do 2 f_equal. apply list_eq. intros j. rewrite !list_lookup_fmap, !lookup_drop.
  destruct (Nat.lt_ge_cases (a + j) (length cs)) as [Hj|Hj].
  - rewrite !list_lookup_lookup_total_lt by lia. cbn. f_equal. apply Hf. lia.
  - rewrite !lookup_ge_None_2 by lia. done.
Qed.

(** ** Loops *)
Section Loop.
Context {A : Type} (body : Z -> table -> A -> exec (table * A)) (k : nat).
Context (J : table -> list Z -> A -> list nat -> Prop).
Context (HJ : forall t cs a r, J t cs a r -> Repr t cs k).
Context (Hbody : forall t cs a i r, J t cs a (i :: r) ->
  exists t' cs' a', body (Z.of_nat i) t a = Ret (t', a') /\ J t' cs' a' r
    /\ forall j, i < j < length cs -> is_full (cs' !!! j) = is_full (cs !!! j)).

Lemma for_each_spec fuel : forall t cs a it g bs,
  IterAt (length cs) it g bs -> it_items it = Z.of_nat (length (rest cs g bs)) -> J t cs a (rest cs g bs) ->
  length (rest cs g bs) < fuel ->
  exists t' cs' a', for_each fuel body t it a = Ret (t', a') /\ J t' cs' a' [].
Proof.
  induction fuel as [|fuel IH]; intros t cs a it g bs I Hn Hj Hf; [lia|]. cbn [for_each].
  pose proof (HJ _ _ _ _ Hj) as R. pose proof (iter_next_spec t cs k it g bs R I Hn) as Hnext.
  destruct (rest cs g bs) as [|i r] eqn:E.
  - destruct Hnext as (it' & ->). cbn [mbind exec_bind]. by exists t, cs, a.
  - destruct Hnext as (it' & g' & bs' & -> & I' & Hi & Hr & Hlt). cbn [mbind exec_bind].
    destruct (Hbody t cs a i r Hj) as (t' & cs' & a' & -> & Hj' & Hsame). cbn [mbind exec_bind].
    assert (length cs' = length cs) as Hl.
    { rewrite (rep_size _ _ _ (HJ _ _ _ _ Hj')). symmetry. apply R. }
    assert (rest cs' g' bs' = r) as Er.
    { rewrite <- Hr. unfold rest. f_equal. apply fulls_ext; [done|]. intros j Hjj. apply Hsame. lia. }
    apply (IH t' cs' a' it' g' bs'); rewrite ?Er, ?Hl; [done|done|done|cbn [length] in Hf; lia].
Qed.

Lemma for_items_spec t cs a :
  items t = Z.of_nat (count is_full cs) -> J t cs a (fulls_from cs 0) ->
  exists t' cs' a', for_items body t a = Ret (t', a') /\ J t' cs' a' [].
Proof.
  intros Hi Hj. pose proof (HJ _ _ _ _ Hj) as R. pose proof (rep_size_bound t cs k R) as [HB _]. unfold for_items, iter.
  rewrite (buckets_nat t cs k R). rewrite (proj2 (Z.eqb_neq _ _)) by lia. cbn [negb require mbind exec_bind].
  change 0%Z with (Z.of_nat 0). rewrite (load_aligned_spec t cs k R 0) by (lia || apply Nat.Div0.mod_0_l).
  cbn [mbind exec_bind]. rewrite (match_full_spec t cs k R) by lia. rewrite Nat2Z.id.
  pose proof (fulls_group t cs k R 0 ltac:(lia)) as Eg. cbn [Nat.mul] in Eg.
  pose proof (length_fulls cs) as Hlen. rewrite Eg in Hlen, Hj. pose proof (count_le is_full cs).
  apply (for_each_spec _ t cs a _ 0 (is_full <$> group_at cs 0)); [|cbn [it_items]; lia|done|lia].
  split; cbn [current_group it_data next_ctrl it_end]; [done|rewrite length_fmap; apply (length_group_at cs k (rep_size _ _ _ R)); lia|lia|lia|done].
Qed.
End Loop.

Lemma for_items_ext {A} (f g : Z -> table -> A -> exec (table * A)) t a :
  (forall i t a, f i t a = g i t a) -> for_items f t a = for_items g t a.
Proof.
  intros E. unfold for_items. destruct (iter t) as [it| | | | |]; try done. cbn [mbind exec_bind].
  generalize (S (Z.to_nat (buckets t))). intros fuel. revert t it a.
  induction fuel as [|fuel IH]; intros t it a; [done|]. cbn [for_each].
  destruct (iter_next t it) as [[[i|] it']| | | | |]; try done. cbn [mbind exec_bind]. rewrite E.
  destruct (g i t a) as [[t' a']| | | | |]; try done. apply IH.
Qed.

Lemma for_items_singleton {A} body (a : A) : for_items body (new_in (T := T)) a = Ret (new_in, a).
Proof.
  unfold for_items, iter. change (buckets new_in) with 1%Z. cbn [Z.eqb negb require mbind exec_bind].
  unfold load_aligned. rewrite Zmod_0_l. cbn [Z.eqb require mbind exec_bind]. rewrite singleton_load. cbn [mbind exec_bind].
  change (Z.to_nat 1) with 1. cbn [for_each]. unfold iter_next, probe_fuel. cbn [range_next current_group].
  unfold match_full. rewrite match_special_marks by (apply length_replicate || apply empty_ctrl).
  rewrite invert_mark by (rewrite length_fmap; apply length_replicate).
  rewrite lowest_set_bit_mark by (rewrite !length_fmap; apply length_replicate).
  rewrite (trues_false (negb <$> _)).
  - cbn [head fmap option_fmap option_map it_end next_ctrl]. pose proof width_ge.
    rewrite (proj2 (Z.leb_le _ _)) by lia. done.
  - intros b (b' & -> & (c & -> & Hc)%list_elem_of_fmap)%list_elem_of_fmap. by apply elem_of_replicate in Hc as [-> _].
Qed.
End Iter.

(** * Reading all values *)
Section Values.
Context `{GroupLaws} {T : Type} (hasher : T -> Z).
Local Notation table := (RawTable T).

Definition datum (ds : list (option T)) (i : nat) : option T :=
  match ds !! i with Some d => d | None => None end.

Lemma iter_values_buckets (t : table) cs k :
  Inv hasher t cs k -> iter_values t = Ret (HashInv.values t cs).
Proof.
  intros I. pose proof (inv_repr _ _ _ _ I) as R. unfold iter_values.
  pose (J := fun (t0 : table) (cs0 : list Z) (a : list T) (r : list nat) =>
    t0 = t /\ cs0 = cs /\ a ++ omap (datum (data t)) r = HashInv.values t cs
    /\ forall i, i ∈ r -> i < length cs /\ is_full (cs !!! i) = true).
  destruct (for_items_spec (fun i t l => x ← read_bucket t i; Ret (t, l ++ [x])) k J) with (t := t) (cs := cs) (a := @nil T)
    as (t' & cs' & a' & E & -> & -> & Hv & _).
  - by intros t0 cs0 a r (-> & -> & _).
  - intros t0 cs0 a i r (-> & -> & Hv & Hr). destruct (Hr i) as [Hi Hf]; [by left|].
    destruct (inv_placed _ _ _ _ I i Hi Hf) as (x & Hx & _).
    rewrite (read_bucket_spec t cs k R i x) by done. cbn [mbind exec_bind]. exists t, cs, (a ++ [x]).
    split; [done|]. split; [|done]. split; [done|]. split; [done|]. split.
    + rewrite <- Hv, <- app_assoc. cbn [omap list_omap]. unfold datum at 2. by rewrite Hx.
    + intros j Hj. apply Hr. by right.
  - apply I.
  - split; [done|]. split; [done|]. split.
    + symmetry. apply (held_fulls cs (data t)). symmetry. apply R.
    + intros i [Hi Hf]%elem_of_fulls. split; [lia|done].
  - rewrite E. cbn [mbind exec_bind]. cbn in Hv. by rewrite app_nil_r in Hv; rewrite Hv.
Qed.

Lemma iter_values_spec (t : table) l :
  Table hasher t l -> exists l', iter_values t = Ret l' /\ l' ≡ₚ l.
Proof.
  intros [-> ->|cs k I Hl].
  - exists []. unfold iter_values. by rewrite for_items_singleton.
  - eexists. split; [by apply (iter_values_buckets t cs k)|]. by rewrite Hl.
Qed.

Lemma drain_spec (t : table) l :
  Table hasher t l -> exists l' t', drain t = Ret (l', t') /\ l' ≡ₚ l /\ Table hasher t' [].
Proof.
  intros Ht. destruct (iter_values_spec t l Ht) as (l' & E & Hl).
  destruct (clear_spec hasher t l Ht) as (t' & E' & Ht'). unfold drain. rewrite E. cbn [mbind exec_bind].
  unfold clear in E'. rewrite E'. by exists l', t'.
Qed.
End Values.

(** * Changing and removing while iterating *)
Section Visit.
Context `{GroupLaws} {T : Type} (hasher : T -> Z).
Local Notation table := (RawTable T).

(** Writing another value with the same hash into a full bucket. *)
Lemma write_inv (t : table) cs k i x y :
  Inv hasher t cs k -> i < length cs -> is_full (cs !!! i) = true -> data t !! i = Some (Some x) ->
  hasher y = hasher x ->
  exists t', write_bucket t (Z.of_nat i) y = Ret t' /\ Inv hasher t' cs k
    /\ x :: HashInv.values t' cs ≡ₚ y :: HashInv.values t cs /\ data t' = <[i := Some y]> (data t).
Proof.
  intros I Hi Hf Hd Hy. pose proof (inv_repr _ _ _ _ I) as R. eexists.
  split; [by apply (write_bucket_spec t cs k R)|]. split; [|split; [|done]].
  - destruct I as [_ Hp ? ? ?]. split; [by apply (repr_write t cs k R)| |done..].
    intros j Hj Hfj. destruct (Hp j Hj Hfj) as (x' & Hd' & Hh2 & Hr). unfold placed_at. cbn.
    destruct (decide (j = i)) as [->|Hne].
    + assert (x' = x) as -> by congruence. exists y. rewrite Hy.
      split; [apply list_lookup_insert_eq; by rewrite (rep_data _ _ _ R)|done].
    + exists x'. by rewrite list_lookup_insert_ne.
  - unfold HashInv.values. cbn. apply held_write; [symmetry; apply R|done|done|done].
Qed.

(** [f]: what a value becomes, and whether it stays. *)
Context (f : T -> T * bool) (Hf : forall x, hasher (f x).1 = hasher x).
Definition kept (x : T) : option T := if (f x).2 then Some (f x).1 else None.
Definition gone (x : T) : option T := if (f x).2 then None else Some (f x).1.

Definition visit_body (i : Z) (t : table) (removed : list T) : exec (table * list T) :=
  x ← read_bucket t i;
  t ← write_bucket t i (f x).1;
  if (f x).2 then Ret (t, removed) else '(y, t) ← remove t i; Ret (t, removed ++ [y]).

Lemma visit_spec (t : table) l :
  Table hasher t l ->
  exists t' removed, for_items visit_body t [] = Ret (t', removed)
    /\ Table hasher t' (omap kept l) /\ removed ≡ₚ omap gone l.
Proof.
  intros [-> ->|cs k I Hl].
  { exists new_in, []. rewrite for_items_singleton. split; [done|]. split; [by left|done]. }
  pose (J := fun (t0 : table) (cs0 : list Z) (a : list T) (r : list nat) =>
    Inv hasher t0 cs0 k /\ NoDup r
    /\ (forall i, i ∈ r -> i < length cs0 /\ is_full (cs0 !!! i) = true)
    /\ exists src, l ≡ₚ src ++ omap (datum (data t0)) r
       /\ HashInv.values t0 cs0 ≡ₚ omap kept src ++ omap (datum (data t0)) r /\ a ≡ₚ omap gone src).
  destruct (for_items_spec visit_body k J) with (t := t) (cs := cs) (a := @nil T)
    as (t' & cs' & a' & E & I' & _ & _ & src & Hsrc & Hv & Ha).
  - intros t0 cs0 a r [I0 _]. apply I0.
  - intros t0 cs0 a i r (I0 & Hnd & Hr & src & Hsrc & Hv & Ha). pose proof (inv_repr _ _ _ _ I0) as R0.
    destruct (Hr i) as [Hi Hfi]; [by left|]. apply list.NoDup_cons in Hnd as [Hni Hnd].
    destruct (inv_placed _ _ _ _ I0 i Hi Hfi) as (x & Hx & _). unfold visit_body.
    rewrite (read_bucket_spec t0 cs0 k R0 i x) by done. cbn [mbind exec_bind].
    destruct (write_inv t0 cs0 k i x (f x).1 I0 Hi Hfi Hx (Hf x)) as (t1 & -> & I1 & Hv1 & Hd1). cbn [mbind exec_bind].
    assert (omap (datum (data t0)) (i :: r) = x :: omap (datum (data t0)) r) as Epend.
    { cbn [omap list_omap]. unfold datum at 1. by rewrite Hx. }
    rewrite Epend in Hsrc, Hv.
    assert (omap (datum (data t1)) r = omap (datum (data t0)) r) as Esame.
    { rewrite Hd1. clear -Hni. induction r as [|j r IH]; [done|]. cbn [omap list_omap].
      rewrite IH by (intros ?; apply Hni; by right). unfold datum at 1 3.
      rewrite list_lookup_insert_ne by (intros ->; apply Hni; by left). done. }
    assert (HashInv.values t1 cs0 ≡ₚ (f x).1 :: omap kept src ++ omap (datum (data t0)) r) as Hv1'.
    { apply (Permutation_cons_inv (a := x)). rewrite Hv1, Hv. solve_Permutation. }
    destruct (f x).2 eqn:Hkeep.
    + exists t1, cs0, a. split; [done|]. split; [|done]. split; [done|]. split; [done|].
      split; [intros j Hj; apply Hr; by right|]. exists (src ++ [x]). rewrite Esame, !omap_app. cbn [omap list_omap].
      unfold kept at 2, gone at 2. rewrite Hkeep. split; [|split].
      * rewrite Hsrc. solve_Permutation.
      * rewrite Hv1'. solve_Permutation.
      * by rewrite app_nil_r.
    + assert (data t1 !! i = Some (Some (f x).1)) as Hx1.
      { rewrite Hd1. apply list_lookup_insert_eq. by rewrite (rep_data _ _ _ R0). }
      destruct (erase_spec hasher t1 cs0 k I1 (f x).1 i Hi Hfi Hx1) as (t2 & E2 & I2 & Hv2 & Hd2).
      unfold remove. rewrite E2. cbn [mbind exec_bind].
      rewrite (read_bucket_spec t2 _ k (inv_repr _ _ _ _ I2) i (f x).1) by (rewrite ?length_insert, ?Hd2; done).
      cbn [mbind exec_bind]. do 3 eexists. split; [done|]. split.
      * split; [exact I2|]. split; [done|]. split.
        { intros j Hj. rewrite length_insert. destruct (Hr j) as [Hj1 Hj2]; [by right|]. split; [done|].
          rewrite list_lookup_total_insert_ne; [done|]. intros ->. done. }
        exists (src ++ [x]). rewrite Hd2, Esame, !omap_app. cbn [omap list_omap].
        unfold kept at 2, gone at 2. rewrite Hkeep. split; [|split].
        -- rewrite Hsrc. solve_Permutation.
        -- apply (Permutation_cons_inv (a := (f x).1)). rewrite <- Hv2, Hv1', app_nil_r. done.
        -- by rewrite Ha.
      * intros j Hj. rewrite list_lookup_total_insert_ne by lia. done.
  - apply I.
  - split; [done|]. split.
    { unfold fulls_from. apply NoDup_fmap_2; [intros ? ?; lia|]. apply trues_nodup. }
    split; [intros i [Hi Hfi]%elem_of_fulls; split; [lia|done]|].
    exists []. cbn. assert (HashInv.values t cs = omap (datum (data t)) (fulls_from cs 0)) as Ev.
    { apply (held_fulls cs (data t)). symmetry. apply I. }
    rewrite <- Ev. done.
  - exists t', a'. split; [done|]. cbn in Hsrc, Hv. rewrite app_nil_r in Hsrc, Hv. split.
    + eright; [done|]. by rewrite Hsrc, Hv.
    + by rewrite Ha, Hsrc.
Qed.
End Visit.

(** * Cloning *)
Section Clone.
Context `{GroupLaws} {T : Type} (hasher : T -> Z) (clone_value : T -> T).
Context (Hclone : forall x, hasher (clone_value x) = hasher x).
Context (alloc : Z -> Z -> bool) (layout : Layout).
Local Notation W := WIDTH.
Local Notation table := (RawTable T).

(** What a table of the same size becomes. *)
Lemma clone_from_impl_spec (self t : table) cs k :
  Inv hasher t cs k -> bucket_mask self = bucket_mask t -> length (ctrl self) = length cs + W ->
  length (data self) = length cs ->
  exists t', clone_from_impl clone_value self t = Ret t' /\ Table hasher t' (clone_value <$> HashInv.values t cs).
Proof.
  intros I Hm Hc Hd. pose proof (inv_repr _ _ _ _ I) as R. pose proof (length_laid_out cs k (rep_size _ _ _ R)) as HL.
  unfold clone_from_impl, zlen. assert (num_ctrl_bytes self = Z.of_nat (length cs + W)) as ->.
  { unfold num_ctrl_bytes. rewrite Hm, (rep_mask _ _ _ R). lia. }
  rewrite (rep_ctrl _ _ _ R), HL, Hc, !(proj2 (Z.leb_le _ _)) by lia. cbn [andb mbind exec_bind]. rewrite Nat2Z.id.
  rewrite take_ge, drop_ge, app_nil_r by lia. set (self0 := with_ctrl self (laid_out cs)).
  assert (Repr self0 cs k) as R0.
  { split; [apply R|apply R|cbn; rewrite Hm; apply R|done|apply R|done]. }
  pose (J := fun (t0 : table) (cs0 : list Z) (a : table) (r : list nat) =>
    t0 = t /\ cs0 = cs /\ Repr a cs k
    /\ (forall i, i ∈ r -> i < length cs /\ is_full (cs !!! i) = true)
    /\ forall i x, i < length cs -> is_full (cs !!! i) = true -> data t !! i = Some (Some x) ->
       i ∉ r -> data a !! i = Some (Some (clone_value x))).
  destruct (for_items_spec (fun i source self => x ← read_bucket source i;
      self ← write_bucket self i (clone_value x); Ret (source, self)) k J) with (t := t) (cs := cs) (a := self0)
    as (t' & cs' & a & E & -> & -> & Ra & _ & Ha).
  - intros t0 cs0 a r (-> & -> & _). done.
  - intros t0 cs0 a i r (-> & -> & Ra & Hr & Ha). destruct (Hr i) as [Hi Hf]; [by left|].
    destruct (inv_placed _ _ _ _ I i Hi Hf) as (x & Hx & _). rewrite (read_bucket_spec t cs k R i x) by done.
    cbn [mbind exec_bind]. rewrite (write_bucket_spec a cs k Ra) by done. cbn [mbind exec_bind].
    do 3 eexists. split; [done|]. split; [|done]. split; [done|]. split; [done|]. split; [by apply (repr_write a cs k Ra)|].
    split; [intros j Hj; apply Hr; by right|]. intros j y Hj Hfj Hy Hnj. cbn.
    destruct (decide (j = i)) as [->|Hne].
    + assert (y = x) as -> by congruence. apply list_lookup_insert_eq. by rewrite (rep_data _ _ _ Ra).
    + rewrite list_lookup_insert_ne by done. apply Ha; [done..|]. by intros [?|?]%elem_of_cons.
  - apply I.
  - split; [done|]. split; [done|]. split; [done|]. split; [intros i [Hi Hf]%elem_of_fulls; split; [lia|done]|].
    intros i x Hi Hf Hx Hni. exfalso. apply Hni, elem_of_fulls. split; [lia|done].
  - rewrite E. cbn [mbind exec_bind]. eexists. split; [done|].
    assert (forall i x, i < length cs -> is_full (cs !!! i) = true -> data t !! i = Some (Some x) ->
      data a !! i = Some (Some (clone_value x))) as Hall by (intros; apply Ha; [done..|apply not_elem_of_nil]).
    apply (table_buckets hasher _ _ cs k).
    + destruct I as [_ Hp Hi Hg Hl]. split; cbn; [by destruct Ra; split| |done..]. intros i Hlt Hf.
      destruct (Hp i Hlt Hf) as (x & Hx & Hh & Hr). exists (clone_value x). cbn. rewrite Hclone.
      split; [by apply Hall|done].
    + unfold HashInv.values. cbn. rewrite (held_fulls cs (data t)), (held_fulls cs (data a))
        by (symmetry; first [apply R|apply Ra]).
      assert (forall i, i ∈ fulls_from cs 0 -> exists x, data t !! i = Some (Some x) /\ data a !! i = Some (Some (clone_value x))) as Hfull.
      { intros i [Hi Hf]%elem_of_fulls. destruct (inv_placed _ _ _ _ I i ltac:(lia) Hf) as (x & Hx & _).
        exists x. split; [done|]. by apply Hall; [lia|..]. }
      induction (fulls_from cs 0) as [|i r IH]; [done|]. destruct (Hfull i) as (x & Hx & Hx'); [by left|].
      cbn [omap list_omap]. rewrite Hx, Hx'. cbn [fmap list_fmap]. constructor. apply IH. intros j Hj. apply Hfull. by right.
Qed.

Lemma new_uninitialized_spec n k :
  n = Z.of_nat (2 ^ k) ->
  ends (new_uninitialized (T := T) alloc layout n Infallible) (ok_or Infallible (fun t =>
    bucket_mask t = (n - 1)%Z /\ length (ctrl t) = 2 ^ k + W /\ length (data t) = 2 ^ k)).
Proof.
  intros ->. unfold new_uninitialized. rewrite pow2_is_power. cbn [require mbind exec_bind]. unfold calculate_layout_for.
  rewrite pow2_is_power. cbn [require mbind exec_bind].
  destruct (match checked _ with Some _ => _ | None => _ end) as [[len' off]|]; [|done].
  destruct (alloc _ _); [|done]. cbn. rewrite !length_replicate, Nat2Z.id. done.
Qed.

Lemma clone_spec (t : table) l :
  Table hasher t l -> ends (clone alloc layout clone_value t) (fun t' => Table hasher t' (clone_value <$> l)).
Proof.
  intros [-> ->|cs k I Hl]; [by left|]. pose proof (inv_repr _ _ _ _ I) as R.
  pose proof (rep_size_bound t cs k R) as [HB _]. unfold clone, is_empty_singleton. rewrite (rep_mask _ _ _ R).
  rewrite (proj2 (Z.eqb_neq _ _)) by lia. unfold unwrap_unchecked.
  eapply ends_bind.
  { eapply ends_bind; [apply (new_uninitialized_spec _ k); by rewrite (buckets_nat t cs k R), (rep_size _ _ _ R)|].
    intros [n|e]; cbn; [|done]. intros Hn. exact Hn. }
  intros n (Hm & Hc & Hd). rewrite <- (rep_size _ _ _ R) in Hc, Hd.
  destruct (clone_from_impl_spec n t cs k I) as (t' & -> & Ht'); [|done|done|].
  - rewrite Hm, (buckets_nat t cs k R), (rep_mask _ _ _ R). lia.
  - cbn. by rewrite Hl.
Qed.

(** [clone_from], whatever the table held. *)
Lemma clone_from_spec (self t : table) l l' :
  Table hasher self l' -> Table hasher t l ->
  ends (clone_from alloc layout clone_value self t) (fun t' => Table hasher t' (clone_value <$> l)).
Proof.
  intros Hself [-> ->|cs k I Hl]; [by left|]. pose proof (inv_repr _ _ _ _ I) as R.
  pose proof (rep_size_bound t cs k R) as [HB _]. unfold clone_from, is_empty_singleton. rewrite (rep_mask _ _ _ R).
  rewrite (proj2 (Z.eqb_neq _ _)) by lia. rewrite (buckets_nat t cs k R).
  eapply (ends_bind _ _ _ (fun n => bucket_mask n = bucket_mask t /\ length (ctrl n) = length cs + W /\ length (data n) = length cs)).
  - destruct (Z.eqb_spec (buckets self) (Z.of_nat (length cs))) as [E|E]; cbn [negb].
    + cbn. destruct Hself as [-> ->|cs' k' I' _]; [change (buckets new_in) with 1%Z in E; lia|].
      pose proof (inv_repr _ _ _ _ I') as R'. rewrite (buckets_nat self cs' k' R') in E. apply Nat2Z.inj in E.
      rewrite (rep_mask _ _ _ R'), (rep_mask _ _ _ R), (rep_ctrl _ _ _ R'), (rep_data _ _ _ R').
      rewrite (length_laid_out cs' k' (rep_size _ _ _ R')). rewrite E. done.
    + unfold unwrap_unchecked. eapply ends_bind; [apply (new_uninitialized_spec _ k); by rewrite (rep_size _ _ _ R)|].
      intros [n|e]; cbn; [|done]. rewrite (rep_mask _ _ _ R), (rep_size _ _ _ R). done.
  - intros n (Hm & Hc & Hd). destruct (clone_from_impl_spec n t cs k I) as (t' & -> & Ht'); [done..|].
    cbn. by rewrite Hl.
Qed.
End Clone.

(** * What can be done to a bucket

    What can be done to a bucket that a search has found. *)

Section Bucket.
Context `{GroupLaws} {T : Type} (hasher : T -> Z).
Local Notation table := (RawTable T).

(** The bucket [i] of [t] has the value [x]; the other values are [l']. *)
Definition bucket_at (t : table) (i : Z) (x : T) (l' : list T) : Prop :=
  exists cs k n, i = Z.of_nat n /\ Inv hasher t cs k /\ n < length cs /\ is_full (cs !!! n) = true
    /\ data t !! n = Some (Some x) /\ HashInv.values t cs ≡ₚ x :: l'.

Lemma full_bucket t cs k n x :
  Inv hasher t cs k -> n < length cs -> is_full (cs !!! n) = true -> data t !! n = Some (Some x) ->
  exists l', bucket_at t (Z.of_nat n) x l' /\ HashInv.values t cs ≡ₚ x :: l'.
Proof.
  intros I Hn Hf Hd. pose proof (inv_repr _ _ _ _ I) as R.
  pose proof (held_at is_full n (cs !!! n) (Some x) cs (data t)) as Hv. unfold slot in Hv. rewrite Hf in Hv.
  exists (others is_full n cs (data t)).
  assert (HashInv.values t cs ≡ₚ x :: others is_full n cs (data t)) as Hp.
  { apply Hv; [symmetry; apply R|by apply list_lookup_lookup_total_lt|done]. }
  split; [|done]. by exists cs, k, n.
Qed.

Lemma find_bucket t l h eq :
  Table hasher t l -> (0 <= h)%Z -> (forall x, x ∈ l -> eq x = true -> hasher x = h) ->
  (find t h eq = Ret None /\ forall x, x ∈ l -> eq x = false)
  \/ exists i x l', find t h eq = Ret (Some i) /\ eq x = true /\ l ≡ₚ x :: l' /\ bucket_at t i x l'.
Proof.
  intros [-> ->|cs k I Hl] Hh Heq.
  - left. split; [apply singleton_find|]. intros x Hx. by apply elem_of_nil in Hx.
  - destruct (find_buckets hasher t cs k I h eq Hh) as (r & E & Hr); [intros x Hx; apply Heq; by rewrite Hl|].
    destruct r as [n|].
    + right. destruct Hr as (Hn & Hf & x & Hd & He). destruct (full_bucket t cs k n x I Hn Hf Hd) as (l' & Hb & Hp).
      exists (Z.of_nat n), x, l'. split; [done|]. split; [done|]. by rewrite Hl.
    + left. split; [done|]. intros x Hx. apply Hr. by rewrite <- Hl.
Qed.

Section At.
Context (t : table) (i : Z) (x : T) (l' : list T) (Hb : bucket_at t i x l').

Lemma bucket_read : read_bucket t i = Ret x.
Proof.
  destruct Hb as (cs & k & n & -> & I & Hn & Hf & Hd & _). by apply (read_bucket_spec t cs k (inv_repr _ _ _ _ I)).
Qed.

Lemma bucket_table : Table hasher t (x :: l').
Proof. destruct Hb as (cs & k & n & -> & I & Hn & Hf & Hd & Hv). by eright. Qed.

Lemma bucket_write y :
  hasher y = hasher x -> exists t', write_bucket t i y = Ret t' /\ bucket_at t' i y l'.
Proof.
  intros Hy. destruct Hb as (cs & k & n & -> & I & Hn & Hf & Hd & Hv).
  destruct (write_inv hasher t cs k n x y I Hn Hf Hd Hy) as (t' & -> & I' & Hv' & Hd'). exists t'. split; [done|].
  exists cs, k, n. split; [done|]. split; [done|]. split; [done|]. split; [done|]. split.
  - rewrite Hd'. apply list_lookup_insert_eq. by rewrite (rep_data _ _ _ (inv_repr _ _ _ _ I)).
  - apply (Permutation_cons_inv (a := x)). rewrite Hv', Hv. apply Permutation_swap.
Qed.

Lemma bucket_remove : exists t', remove t i = Ret (x, t') /\ Table hasher t' l'.
Proof.
  destruct Hb as (cs & k & n & -> & I & Hn & Hf & Hd & Hv).
  destruct (erase_spec hasher t cs k I x n Hn Hf Hd) as (t' & E & I' & Hv' & Hd').
  exists t'. unfold remove. rewrite E. cbn [mbind exec_bind].
  rewrite (read_bucket_spec t' _ k (inv_repr _ _ _ _ I') n x) by (rewrite ?length_insert, ?Hd'; done).
  split; [done|]. eright; [done|]. apply (Permutation_cons_inv (a := x)). by rewrite <- Hv, Hv'.
Qed.

Lemma table_eq (t1 t2 : table) :
  bucket_mask t1 = bucket_mask t2 -> ctrl t1 = ctrl t2 -> data t1 = data t2 ->
  growth_left t1 = growth_left t2 -> items t1 = items t2 -> t1 = t2.
Proof. destruct t1, t2. cbn. congruence. Qed.

(** [replace_bucket_with]: the value goes, or another one takes its place. *)
Lemma bucket_replace f :
  (forall y, f x = Some y -> hasher y = hasher x) ->
  exists t', replace_bucket_with t i f = Ret (match f x with Some _ => true | None => false end, t')
    /\ match f x with Some y => bucket_at t' i y l' | None => Table hasher t' l' end.
Proof.
  intros Hf. destruct bucket_remove as (t1 & E1 & Ht1). unfold replace_bucket_with. rewrite E1.
  destruct Hb as (cs & k & n & En & I & Hn & Hfull & Hd & Hv). pose proof (inv_repr _ _ _ _ I) as R.
  rewrite En in E1 |- *.
  rewrite (read_ctrl_spec t cs k R) by done. cbn [mbind exec_bind]. rewrite Hfull. cbn [require mbind exec_bind].
  destruct (f x) as [y|] eqn:Ef; [|by exists t1].
  destruct (erase_spec hasher t cs k I x n Hn Hfull Hd) as (t1' & E & I1 & Hv1 & Hd1).
  unfold remove in E1. rewrite E in E1. cbn [mbind exec_bind] in E1.
  destruct (read_bucket t1' (Z.of_nat n)) as [x'| | | | |]; try done. injection E1 as -> ->.
  pose proof (inv_repr _ _ _ _ I1) as R1. set (c := if spans cs n then DELETED else EMPTY) in *.
  set (t2 := with_growth_left t1 (growth_left t)). assert (Repr t2 (<[n := c]> cs) k) as R2 by (by destruct R1; split).
  rewrite (set_ctrl_eq t2 _ k R2) by (by rewrite length_insert). cbn [mbind exec_bind].
  rewrite list_insert_insert_eq, list_insert_id by (by apply list_lookup_lookup_total_lt).
  pose proof (count_insert is_full n (cs !!! n) c cs (list_lookup_lookup_total_lt cs n Hn)) as Hcnt.
  rewrite Hfull in Hcnt. assert (is_full c = false) as Hc by (unfold c; by destruct (spans cs n)). rewrite Hc in Hcnt.
  pose proof (inv_items _ _ _ _ I) as Hi. pose proof (inv_items _ _ _ _ I1) as Hi1.
  pose proof (cap_bound t cs k R). pose proof (inv_load _ _ _ _ I). pose proof (count_mono is_full is_used cs full_used).
  unfold uadd. cbn [items with_ctrl t2 with_growth_left].
  rewrite (proj2 (Z.leb_le _ _)) by (change usize_max with (2 ^ 64 - 1)%Z; lia). cbn [mbind exec_bind].
  assert (with_items (with_ctrl t2 (laid_out cs)) (items t1 + 1) = t) as ->.
  { apply table_eq; cbn; [|symmetry; apply R|done|done|lia].
    rewrite (rep_mask _ _ _ R), (rep_mask _ _ _ R1), length_insert. done. }
  destruct (bucket_write y) as (t' & E' & Hb'); [by apply Hf|]. rewrite <- En, E'. cbn [mbind exec_bind]. by exists t'.
Qed.
End At.
End Bucket.
