(* ===== verification/HashMapSpecs.v ===== *)
(** HashMapSpecs: the hash map is a finite map.

    [MapOf t m]: the table [t] stands for the map [m].  Each operation of HashMap
    returns what the finite map says and leaves a table that stands for the new map,
    or fails for want of memory; and so does every sequence of operations. *)
From Stdlib Require Import ZArith Lia.
From stdpp Require Import base numbers list option gmap sets tactics.
From S2P Require Import Prelude HashGroup HashGroupLaws HashRaw HashMap HashProbe HashInv HashGrow HashRehash HashIter.
Local Open Scope nat_scope.

Lemma omap_pointwise {A B} (f g : A -> option B) (l : list A) : (forall x, f x = g x) -> omap f l = omap g l.
Proof. intros E. induction l as [|x l IH]; [done|]. cbn. rewrite E. destruct (g x); by rewrite IH. Qed.

(** A map with some pairs changed and some removed. *)
Lemma map_to_list_imap `{Countable K} {V V'} (f : K -> V -> option V') (m : gmap K V) :
  map_to_list (map_imap f m) ≡ₚ omap (fun '(k, v) => pair k <$> f k v) (map_to_list m).
Proof.
  apply NoDup_Permutation.
  - apply NoDup_map_to_list.
  - pose proof (NoDup_fst_map_to_list m) as Hnd. revert Hnd. generalize (map_to_list m). intros l.
    induction l as [|[k v] l IH]; cbn; [constructor|]. intros [Hk Hnd]%list.NoDup_cons.
    destruct (f k v) as [v'|]; cbn; [|by apply IH]. apply list.NoDup_cons. split; [|by apply IH].
    intros ((k0 & v0) & Hin & E)%list_elem_of_omap. destruct (f k0 v0); [|done]. cbn in E. injection E as -> _.
    apply Hk, list_elem_of_fmap. by exists (k, v0).
  - intros [k v']. rewrite elem_of_map_to_list, map_lookup_imap, list_elem_of_omap. split.
    + intros (v & Hv & E)%bind_Some. exists (k, v). rewrite elem_of_map_to_list. by rewrite E.
    + intros ([k0 v] & Hin%elem_of_map_to_list & E). destruct (f k0 v) eqn:F; [|done]. injection E as -> ->.
      apply bind_Some. by exists v.
Qed.

Section Map.
Context `{GroupLaws} {K V : Type} `{Countable K} (hash_one : K -> Z).
Context (hash_range : forall k, (0 <= hash_one k)%Z).
Context (alloc : Z -> Z -> bool) (layout : Layout).
Local Notation map := (RawTable (K * V)).
Local Notation hasher := (make_hasher (V := V) hash_one).

Definition MapOf (t : map) (m : gmap K V) : Prop := Table hasher t (map_to_list m).

Lemma hasher_range x : (0 <= hasher x)%Z.
Proof. apply hash_range. Qed.

Lemma new_spec : MapOf with_hasher ∅.
Proof. left; [done|]. apply map_to_list_empty. Qed.

Lemma with_capacity_map n :
  (0 <= n <= usize_max)%Z ->
  ends (with_capacity_and_hasher alloc layout n) (fun t => MapOf t ∅ /\ (n <= growth_left t)%Z).
Proof.
  intros Hn. unfold MapOf. rewrite map_to_list_empty. by apply (with_capacity_spec hasher).
Qed.

Lemma len_spec t m : MapOf t m -> len t = Z.of_nat (size m).
Proof. intros Ht. unfold len. rewrite (table_length hasher t _ Ht). by rewrite length_map_to_list. Qed.

Lemma key_hash k m x : x ∈ map_to_list m -> equivalent_key k x = true -> hasher x = make_hash hash_one k.
Proof. intros _ ->%bool_decide_eq_true. done. Qed.

(** A search for a key. *)
Lemma find_key t m k :
  MapOf t m ->
  (m !! k = None /\ find t (make_hash hash_one k) (equivalent_key k) = Ret None)
  \/ exists i v, m !! k = Some v /\ find t (make_hash hash_one k) (equivalent_key k) = Ret (Some i)
       /\ bucket_at hasher t i (k, v) (map_to_list (delete k m)).
Proof.
  intros Ht. destruct (find_bucket hasher t _ (make_hash hash_one k) (equivalent_key k) Ht) as [[E Hn]|(i & [k' v] & l' & E & He & Hl & Hb)].
  - apply hash_range.
  - intros x. apply key_hash.
  - left. split; [|done]. destruct (m !! k) as [v|] eqn:F; [|done]. exfalso.
    specialize (Hn (k, v)). rewrite elem_of_map_to_list in Hn. specialize (Hn F).
    by apply bool_decide_eq_false in Hn.
  - right. apply bool_decide_eq_true in He. cbn in He. subst k'. exists i, v.
    assert (m !! k = Some v) as F.
    { apply elem_of_map_to_list. rewrite Hl. by left. }
    split; [done|]. split; [done|]. destruct Hb as (cs & kk & n & ? & I & ? & ? & ? & Hv). exists cs, kk, n.
    repeat (split; [done|]). rewrite Hv. apply (Permutation_cons_inv (a := (k, v))).
    rewrite map_to_list_delete by done. rewrite <- Hl. done.
Qed.

Lemma empty_lookup t m k : MapOf t m -> items t = 0%Z -> m !! k = None.
Proof.
  intros Ht E. pose proof (len_spec t m Ht) as Hs. unfold len in Hs.
  assert (size m = 0) as Hz by lia. apply map_size_empty_inv in Hz as ->. apply lookup_empty.
Qed.

Lemma get_inner_spec t m k : MapOf t m -> get_inner hash_one t k = Ret (pair k <$> m !! k).
Proof.
  intros Ht. unfold get_inner. destruct (Z.eqb_spec (items t) 0) as [E|E]; [by rewrite (empty_lookup t m k Ht E)|].
  unfold HashRaw.get. destruct (find_key t m k Ht) as [[-> ->]|(i & v & -> & -> & Hb)]; [done|].
  cbn [mbind exec_bind]. by rewrite (bucket_read hasher t i _ _ Hb).
Qed.

Lemma bucket_map t i k v m : bucket_at hasher t i (k, v) (map_to_list (delete k m)) -> MapOf t (<[k := v]> m).
Proof.
  intros Hb%bucket_table. unfold MapOf. rewrite <- insert_delete_eq. by rewrite map_to_list_insert by apply lookup_delete_eq.
Qed.

(** Changing the value of a key that was found. *)
Lemma set_found t m k i v w :
  bucket_at hasher t i (k, v) (map_to_list (delete k m)) ->
  exists t', write_bucket t i (k, w) = Ret t' /\ bucket_at hasher t' i (k, w) (map_to_list (delete k m)).
Proof. intros Hb. by apply (bucket_write hasher t i (k, v) _ Hb (k, w)). Qed.

(** Adding a key that was not found. *)
Lemma add_missing t m k v :
  MapOf t m -> m !! k = None ->
  ends (HashRaw.insert alloc layout hasher t (make_hash hash_one k) (k, v))
    (fun '(i, t') => MapOf t' (<[k := v]> m) /\ read_bucket t' i = Ret (k, v) /\ (growth_left t - 1 <= growth_left t')%Z).
Proof.
  intros Ht Hn. eapply ends_impl; [apply (insert_spec hasher hasher_range alloc layout t _ (k, v) Ht)|].
  intros [i t'] (Ht' & Hr & Hg). split; [|done]. unfold MapOf. by rewrite map_to_list_insert.
Qed.

Lemma insert_map t m k v :
  MapOf t m -> ends (insert hash_one alloc layout t k v) (fun '(r, t') => r = m !! k /\ MapOf t' (<[k := v]> m)).
Proof.
  intros Ht. unfold insert. destruct (find_key t m k Ht) as [[F ->]|(i & w & F & -> & Hb)]; cbn [mbind exec_bind]; rewrite F.
  - eapply ends_bind; [by apply add_missing|]. intros [i t'] (? & _). done.
  - rewrite (bucket_read hasher t i _ _ Hb). cbn [mbind exec_bind].
    destruct (set_found t m k i w v Hb) as (t' & -> & Hb'). cbn. split; [done|]. by eapply bucket_map.
Qed.

Lemma get_mut_map t m k f :
  MapOf t m -> exists t', get_mut hash_one t k f = Ret (m !! k, t') /\ MapOf t' (alter f k m).
Proof.
  intros Ht. unfold get_mut, get_inner_mut. rewrite alter_alt. destruct (Z.eqb_spec (items t) 0) as [E|E].
  { exists t. cbn. by rewrite (empty_lookup t m k Ht E). }
  destruct (find_key t m k Ht) as [[F ->]|(i & w & F & -> & Hb)]; cbn [mbind exec_bind]; rewrite F; [by exists t|].
  rewrite (bucket_read hasher t i _ _ Hb). cbn [mbind exec_bind].
  destruct (set_found t m k i w (f w) Hb) as (t' & -> & Hb'). exists t'. split; [done|]. by eapply bucket_map.
Qed.

Lemma remove_found t m k i v :
  bucket_at hasher t i (k, v) (map_to_list (delete k m)) ->
  exists t', HashRaw.remove t i = Ret ((k, v), t') /\ MapOf t' (delete k m).
Proof. intros Hb. apply (bucket_remove hasher t i _ _ Hb). Qed.

Lemma remove_entry_map t m k :
  MapOf t m -> exists t', remove_entry hash_one t k = Ret (pair k <$> m !! k, t') /\ MapOf t' (delete k m).
Proof.
  intros Ht. unfold remove_entry, HashRaw.remove_entry.
  destruct (find_key t m k Ht) as [[F ->]|(i & w & F & -> & Hb)]; cbn [mbind exec_bind]; rewrite F.
  - exists t. split; [done|]. by rewrite delete_id.
  - destruct (remove_found t m k i w Hb) as (t' & -> & Ht'). by exists t'.
Qed.

Lemma entry_map t m k :
  MapOf t m ->
  (m !! k = None /\ entry hash_one t k = Ret (Vacant (make_hash hash_one k) k))
  \/ exists i v, m !! k = Some v /\ entry hash_one t k = Ret (Occupied (make_hash hash_one k) (Some k) i)
       /\ bucket_at hasher t i (k, v) (map_to_list (delete k m)).
Proof.
  intros Ht. unfold entry. destruct (find_key t m k Ht) as [[F ->]|(i & w & F & -> & Hb)]; cbn.
  - by left.
  - right. by exists i, w.
Qed.

Lemma visit_map t m f :
  MapOf t m ->
  exists t' removed, visit f t = Ret (t', removed)
    /\ MapOf t' (map_imap (fun k v => if (f k v).2 then Some (f k v).1 else None) m)
    /\ removed ≡ₚ map_to_list (map_imap (fun k v => if (f k v).2 then None else Some (f k v).1) m).
Proof.
  intros Ht. pose (g := fun x : K * V => ((x.1, (f x.1 x.2).1), (f x.1 x.2).2)).
  destruct (visit_spec hasher g ltac:(done) t _ Ht) as (t' & removed & E & Ht' & Hr). exists t', removed.
  assert (visit f t = for_items (visit_body g) t []) as ->.
  { unfold visit. apply for_items_ext. intros i t0 a. unfold visit_body.
    destruct (read_bucket t0 i) as [[k v]| | | | |]; try done. cbn. by destruct (f k v). }
  split; [done|]. unfold MapOf. rewrite !map_to_list_imap.
  rewrite <- (omap_pointwise (kept g)) by (intros [k v]; unfold kept, g; cbn; by destruct (f k v).2).
  split; [done|]. rewrite Hr, (omap_pointwise (gone g) (fun '(k, v) => pair k <$> (if (f k v).2 then None else Some (f k v).1))); [done|].
  intros [k v]. unfold gone, g. cbn. by destruct (f k v).2.
Qed.

(** * Sequences of operations *)
Inductive op :=
| Insert (k : K) (v : V)
| Get (k : K)
| GetKeyValue (k : K)
| GetMut (k : K) (f : V -> V)
| ContainsKey (k : K)
| Remove (k : K)
| RemoveEntry (k : K)
| TryInsert (k : K) (v : V)
| EntryInsert (k : K) (v : V)
| EntryOrInsert (k : K) (default : K -> V)
| EntryModifyOrInsert (k : K) (f : V -> V) (v : V)
| EntryReplaceWith (k : K) (f : K -> V -> option V)
| EntryRemove (k : K)
| Retain (f : K -> V -> V * bool)
| DrainFilter (f : K -> V -> V * bool)
| Drain
| Iter
| Len
| Clear
| Reserve (n : Z)
| TryReserve (n : Z)
| ShrinkTo (n : Z)
| ShrinkToFit
| Extend (l : list (K * V)).

(** What an operation returns. *)
Inductive answer :=
| ANone
| AValue (v : option V)
| APair (x : option (K * V))
| ABool (b : bool)
| ALen (n : Z)
| AList (l : list (K * V))
| AReserved (r : result TryReserveError unit).

Definition step (t : map) (o : op) : exec (answer * map) :=
  match o with
  | Insert k v => '(r, t) ← insert hash_one alloc layout t k v; Ret (AValue r, t)
  | Get k => r ← get hash_one t k; Ret (AValue r, t)
  | GetKeyValue k => r ← get_key_value hash_one t k; Ret (APair r, t)
  | GetMut k f => '(r, t) ← get_mut hash_one t k f; Ret (AValue r, t)
  | ContainsKey k => r ← contains_key hash_one t k; Ret (ABool r, t)
  | Remove k => '(r, t) ← remove hash_one t k; Ret (AValue r, t)
  | RemoveEntry k => '(r, t) ← remove_entry hash_one t k; Ret (APair r, t)
  | TryInsert k v =>
      '(r, t) ← try_insert hash_one alloc layout t k v;
      Ret (ABool (match r with Ok _ => true | Err _ => false end), t)
  | EntryInsert k v =>
      e ← entry hash_one t k;
      '(_, t) ← entry_insert hash_one alloc layout t e v; Ret (ANone, t)
  | EntryOrInsert k default =>
      e ← entry hash_one t k;
      '(i, t) ← or_insert_with_key hash_one alloc layout t e default;
      x ← read_bucket t i; Ret (AValue (Some x.2), t)
  | EntryModifyOrInsert k f v =>
      e ← entry hash_one t k;
      '(e, t) ← and_modify t e f;
      '(i, t) ← or_insert hash_one alloc layout t e v;
      x ← read_bucket t i; Ret (AValue (Some x.2), t)
  | EntryReplaceWith k f =>
      e ← entry hash_one t k;
      '(e, t) ← and_replace_entry_with t e f; Ret (ABool (match e with Occupied _ _ _ => true | Vacant _ _ => false end), t)
  | EntryRemove k =>
      e ← entry hash_one t k;
      match e with
      | Occupied _ _ elem => '(v, t) ← occupied_remove t elem; Ret (AValue (Some v), t)
      | Vacant _ _ => Ret (AValue None, t)
      end
  | Retain f => t ← retain t f; Ret (ANone, t)
  | DrainFilter f => '(l, t) ← drain_filter t f; Ret (AList l, t)
  | Drain => '(l, t) ← drain t; Ret (AList l, t)
  | Iter => l ← iter_pairs t; Ret (AList l, t)
  | Len => Ret (ALen (len t), t)
  | Clear => t ← clear t; Ret (ANone, t)
  | Reserve n => t ← reserve hash_one alloc layout t n; Ret (ANone, t)
  | TryReserve n => '(r, t) ← try_reserve hash_one alloc layout t n; Ret (AReserved r, t)
  | ShrinkTo n => t ← shrink_to hash_one alloc layout t n; Ret (ANone, t)
  | ShrinkToFit => t ← shrink_to_fit hash_one alloc layout t; Ret (ANone, t)
  | Extend l => t ← extend hash_one alloc layout t (Z.of_nat (length l)) l; Ret (ANone, t)
  end.

Fixpoint run (t : map) (os : list op) : exec (list answer * map) :=
  match os with
  | [] => Ret ([], t)
  | o :: os => '(r, t) ← step t o; '(rs, t) ← run t os; Ret (r :: rs, t)
  end.

(** The finite map that an operation makes. *)
Definition after (m : gmap K V) (o : op) : gmap K V :=
  match o with
  | Insert k v | EntryInsert k v => <[k := v]> m
  | GetMut k f => alter f k m
  | Remove k | RemoveEntry k | EntryRemove k => delete k m
  | TryInsert k v => <[k := default v (m !! k)]> m
  | EntryOrInsert k f => <[k := default (f k) (m !! k)]> m
  | EntryModifyOrInsert k f v => <[k := from_option f v (m !! k)]> m
  | EntryReplaceWith k f =>
      match m !! k with Some v => match f k v with Some w => <[k := w]> m | None => delete k m end | None => m end
  | Retain f => map_imap (fun k v => if (f k v).2 then Some (f k v).1 else None) m
  | DrainFilter f => map_imap (fun k v => if (f k v).2 then None else Some (f k v).1) m
  | Drain | Clear => ∅
  | Extend l => foldl (fun m '(k, v) => <[k := v]> m) m l
  | _ => m
  end.

(** What it may answer. *)
Definition answers (m : gmap K V) (o : op) (r : answer) : Prop :=
  match o with
  | Insert k _ | Get k | GetMut k _ | Remove k | EntryRemove k => r = AValue (m !! k)
  | GetKeyValue k | RemoveEntry k => r = APair (pair k <$> m !! k)
  | ContainsKey k => r = ABool (bool_decide (is_Some (m !! k)))
  | TryInsert k _ => r = ABool (bool_decide (m !! k = None))
  | EntryOrInsert k f => r = AValue (Some (default (f k) (m !! k)))
  | EntryModifyOrInsert k f v => r = AValue (Some (from_option f v (m !! k)))
  | EntryReplaceWith k f => r = ABool (bool_decide (is_Some (after m o !! k)))
  | DrainFilter f =>
      exists l, r = AList l /\ l ≡ₚ map_to_list (map_imap (fun k v => if (f k v).2 then Some (f k v).1 else None) m)
  | Drain | Iter => exists l, r = AList l /\ l ≡ₚ map_to_list m
  | Len => r = ALen (Z.of_nat (size m))
  | TryReserve _ => exists e, r = AReserved e
  | _ => r = ANone
  end.

Fixpoint run_spec (m : gmap K V) (os : list op) (rs : list answer) (m' : gmap K V) : Prop :=
  match os, rs with
  | [], [] => m' = m
  | o :: os, r :: rs => answers m o r /\ run_spec (after m o) os rs m'
  | _, _ => False
  end.

(** Arguments that are [usize]. *)
Definition op_ok (o : op) : Prop :=
  match o with
  | Reserve n | TryReserve n | ShrinkTo n => (0 <= n <= usize_max)%Z
  | Extend l => (Z.of_nat (length l) < usize_max)%Z
  | _ => True
  end.

Lemma insert_all_map l : forall t m,
  MapOf t m -> ends (insert_all hash_one alloc layout t l) (fun t' => MapOf t' (foldl (fun m '(k, v) => <[k := v]> m) m l)).
Proof.
  induction l as [|[k v] l IH]; intros t m Ht; [done|]. cbn [insert_all foldl].
  eapply ends_bind; [by apply insert_map|]. intros [r t'] [_ Ht']. by apply IH.
Qed.

Lemma reserve_map t m n :
  MapOf t m -> ends (reserve hash_one alloc layout t n) (fun t' => MapOf t' m /\ (n <= growth_left t')%Z).
Proof.
  intros Ht. eapply ends_impl; [apply (reserve_spec hasher hasher_range alloc layout t _ n Ht)|].
  intros t' (? & ? & _). done.
Qed.

Lemma extend_map t m l :
  MapOf t m -> (Z.of_nat (length l) < usize_max)%Z ->
  ends (extend hash_one alloc layout t (Z.of_nat (length l)) l)
    (fun t' => MapOf t' (foldl (fun m '(k, v) => <[k := v]> m) m l)).
Proof.
  intros Ht Hl. unfold extend, uadd. rewrite (proj2 (Z.leb_le (Z.of_nat (length l) + 1) usize_max)) by lia.
  destruct (is_empty t); cbn [mbind exec_bind];
    (eapply ends_bind; [by apply reserve_map|]; intros t' [Ht' _]; by apply insert_all_map).
Qed.

(** Entries *)
Lemma entry_insert_map t m k v :
  MapOf t m ->
  ends (e ← entry hash_one t k; entry_insert hash_one alloc layout t e v) (fun '(_, t') => MapOf t' (<[k := v]> m)).
Proof.
  intros Ht. destruct (entry_map t m k Ht) as [[F ->]|(i & w & F & -> & Hb)]; cbn [mbind exec_bind entry_insert].
  - unfold vacant_insert_entry. eapply ends_bind; [by apply add_missing|]. by intros [i t'] [Ht' _].
  - unfold occupied_insert. rewrite (bucket_read hasher t i _ _ Hb). cbn [mbind exec_bind].
    destruct (set_found t m k i w v Hb) as (t' & -> & Hb'). cbn. by eapply bucket_map.
Qed.

Lemma or_insert_map t m k f :
  MapOf t m ->
  ends (e ← entry hash_one t k; or_insert_with_key hash_one alloc layout t e f)
    (fun '(i, t') => MapOf t' (<[k := default (f k) (m !! k)]> m)
       /\ read_bucket t' i = Ret (k, default (f k) (m !! k))).
Proof.
  intros Ht. destruct (entry_map t m k Ht) as [[F ->]|(i & w & F & -> & Hb)]; cbn [mbind exec_bind or_insert_with_key]; rewrite F.
  - eapply ends_impl; [by apply (add_missing t m k (f k))|]. by intros [i t'] (? & ? & _).
  - cbn. split; [by rewrite insert_id|]. apply (bucket_read hasher t i _ _ Hb).
Qed.

Lemma modify_or_insert_map t m k f v :
  MapOf t m ->
  ends (e ← entry hash_one t k; '(e, t) ← and_modify t e f; or_insert hash_one alloc layout t e v)
    (fun '(i, t') => MapOf t' (<[k := from_option f v (m !! k)]> m)
       /\ read_bucket t' i = Ret (k, from_option f v (m !! k))).
Proof.
  intros Ht. destruct (entry_map t m k Ht) as [[F ->]|(i & w & F & -> & Hb)]; cbn [mbind exec_bind and_modify]; rewrite F.
  - cbn [or_insert from_option]. eapply ends_impl; [by apply (add_missing t m k v)|]. by intros [i t'] (? & ? & _).
  - rewrite (bucket_read hasher t i _ _ Hb). cbn [mbind exec_bind fst snd].
    destruct (set_found t m k i w (f w) Hb) as (t' & -> & Hb'). cbn.
    split; [by eapply bucket_map|]. apply (bucket_read hasher t' i _ _ Hb').
Qed.

Lemma replace_with_map t m k f :
  MapOf t m ->
  exists e t', (e ← entry hash_one t k; and_replace_entry_with t e f) = Ret (e, t')
    /\ MapOf t' (after m (EntryReplaceWith k f))
    /\ (match e with Occupied _ _ _ => true | Vacant _ _ => false end) = bool_decide (is_Some (after m (EntryReplaceWith k f) !! k)).
Proof.
  intros Ht. cbn [after]. destruct (entry_map t m k Ht) as [[F ->]|(i & w & F & -> & Hb)]; cbn [mbind exec_bind and_replace_entry_with]; rewrite F.
  - do 2 eexists. split; [done|]. split; [done|]. rewrite F. done.
  - unfold occupied_replace_entry_with. rewrite (bucket_read hasher t i _ _ Hb). cbn [mbind exec_bind].
    set (g := fun '(k, v) => match f k v with Some v => Some (k, v) | None => None end).
    destruct (bucket_replace hasher t i _ _ Hb g) as (t' & -> & Hb').
    { intros [k' v']. unfold g. destruct (f k w); [|done]. by intros [= <- _]. }
    cbn [mbind exec_bind fst snd]. unfold g in Hb'. destruct (f k w) as [w'|] eqn:Fw; do 2 eexists; (split; [done|]).
    + split; [by eapply bucket_map|]. by rewrite lookup_insert_eq.
    + split; [done|]. by rewrite lookup_delete_eq.
Qed.

(** ** Each operation *)
Lemma step_spec t m o :
  MapOf t m -> op_ok o -> ends (step t o) (fun '(r, t') => answers m o r /\ MapOf t' (after m o)).
Proof.
  intros Ht Hok. destruct o; cbn [step answers after].
  - eapply ends_bind; [by apply insert_map|]. intros [r t'] [-> Ht']. done.
  - unfold get. rewrite (get_inner_spec t m k Ht). by destruct (m !! k).
  - unfold get_key_value. rewrite (get_inner_spec t m k Ht). by destruct (m !! k).
  - destruct (get_mut_map t m k f Ht) as (t' & -> & Ht'). done.
  - unfold contains_key. rewrite (get_inner_spec t m k Ht). by destruct (m !! k).
  - unfold remove. destruct (remove_entry_map t m k Ht) as (t' & -> & Ht'). cbn. by destruct (m !! k).
  - destruct (remove_entry_map t m k Ht) as (t' & -> & Ht'). done.
  - unfold try_insert. destruct (entry_map t m k Ht) as [[F ->]|(i & w & F & -> & Hb)]; cbn [mbind exec_bind]; rewrite F.
    + eapply ends_bind; [eapply ends_bind; [by apply (add_missing t m k v)|]|].
      * intros [i t'] (Ht' & _). instantiate (1 := fun '(r, t') => (exists i, r = Ok i) /\ MapOf t' (<[k := v]> m)).
        cbn. eauto.
      * intros [r t'] [[i ->] Ht']. done.
    + cbn. split; [done|]. by rewrite insert_id.
  - pose proof (entry_insert_map t m k v Ht) as He. destruct (entry hash_one t k) as [e| | | | |]; try done.
    cbn [mbind exec_bind] in *. eapply ends_bind; [exact He|]. by intros [e' t'] Ht'.
  - pose proof (or_insert_map t m k default Ht) as He. destruct (entry hash_one t k) as [e| | | | |]; try done.
    cbn [mbind exec_bind] in *. eapply ends_bind; [exact He|]. intros [i t'] [Ht' Hr]. rewrite Hr. done.
  - pose proof (modify_or_insert_map t m k f v Ht) as He. destruct (entry hash_one t k) as [e| | | | |]; try done.
    cbn [mbind exec_bind] in *. destruct (and_modify t e f) as [[e' t1]| | | | |]; try done. cbn [mbind exec_bind] in *.
    eapply ends_bind; [exact He|]. intros [i t'] [Ht' Hr]. rewrite Hr. done.
  - destruct (replace_with_map t m k f Ht) as (e & t' & E & Ht' & Hr).
    destruct (entry hash_one t k) as [e'| | | | |]; try done. cbn [mbind exec_bind] in *. rewrite E. cbn.
    split; [by rewrite Hr|done].
  - destruct (entry_map t m k Ht) as [[F ->]|(i & w & F & -> & Hb)]; cbn [mbind exec_bind]; rewrite F.
    + cbn. split; [done|]. by rewrite delete_id.
    + unfold occupied_remove, occupied_remove_entry. destruct (remove_found t m k i w Hb) as (t' & -> & Ht'). done.
  - unfold retain. destruct (visit_map t m f Ht) as (t' & l & -> & Ht' & _). done.
  - unfold drain_filter.
    destruct (visit_map t m (fun k v => let '(v, out) := f k v in (v, negb out)) Ht) as (t' & l & -> & Ht' & Hl).
    cbn. split; [exists l; split; [done|]; rewrite Hl|]; unfold MapOf in *.
    + rewrite !map_to_list_imap. erewrite omap_pointwise; [done|]. intros [k v]. by destruct (f k v) as [v' []].
    + rewrite map_to_list_imap in Ht' |- *. erewrite omap_pointwise; [exact Ht'|]. intros [k v]. by destruct (f k v) as [v' []].
  - destruct (drain_spec hasher t _ Ht) as (l & t' & E & Hl & Ht'). unfold HashMap.drain. rewrite E. cbn.
    split; [by exists l|]. unfold MapOf. by rewrite map_to_list_empty.
  - destruct (iter_values_spec hasher t _ Ht) as (l & E & Hl). unfold iter_pairs. rewrite E. cbn. split; [by exists l|done].
  - cbn. by rewrite (len_spec t m Ht).
  - destruct (clear_spec hasher t _ Ht) as (t' & E & Ht'). unfold HashMap.clear. rewrite E. cbn.
    split; [done|]. unfold MapOf. by rewrite map_to_list_empty.
  - eapply ends_bind; [by apply (reserve_map t m n)|]. by intros t' [Ht' _].
  - unfold try_reserve. eapply ends_bind; [eapply ends_bind; [by apply (try_reserve_spec hasher hasher_range alloc layout t (map_to_list m) n)|]|].
    + instantiate (1 := fun '(r, t') => MapOf t' m). intros [t'|e]; cbn; [by intros [? _]|done].
    + intros [r t'] Ht'. cbn. eauto.
  - eapply ends_bind; [apply (shrink_to_spec hasher hasher_range alloc layout t _ n Ht); cbn in Hok; lia|]. done.
  - eapply ends_bind; [apply (shrink_to_spec hasher hasher_range alloc layout t _ 0 Ht); done|]. done.
  - eapply ends_bind; [by apply (extend_map t m l)|]. done.
Qed.

Lemma run_map os : forall t m,
  MapOf t m -> Forall op_ok os -> ends (run t os) (fun '(rs, t') => exists m', run_spec m os rs m' /\ MapOf t' m').
Proof.
  induction os as [|o os IH]; intros t m Ht Hok; [by exists m|]. apply Forall_cons_1 in Hok as [Ho Hok]. cbn [run].
  eapply ends_bind; [by apply (step_spec t m o)|]. intros [r t'] [Hr Ht'].
  eapply ends_bind; [by apply (IH t' (after m o))|]. intros [rs t''] (m' & Hrun & Ht''). cbn. by exists m'.
Qed.

(** ** Capacity *)
Lemma write_growth (t : map) i x t' : write_bucket t i x = Ret t' -> growth_left t' = growth_left t.
Proof.
  unfold write_bucket. destruct (check_bucket t i); try done. cbn. destruct (_ <? _)%Z; [|done]. by intros [= <-].
Qed.

Lemma insert_in_room t m k v :
  MapOf t m -> (0 < growth_left t)%Z ->
  exists r t', insert hash_one alloc layout t k v = Ret (r, t') /\ MapOf t' (<[k := v]> m)
    /\ (growth_left t - 1 <= growth_left t')%Z.
Proof.
  intros Ht Hg. pose proof (insert_map t m k v Ht) as Hi. unfold insert in *.
  destruct (find_key t m k Ht) as [[F E]|(i & w & F & E & Hb)]; rewrite E in *; cbn [mbind exec_bind] in *.
  - destruct (insert_room hasher hasher_range alloc layout t _ (k, v) Ht Hg) as (i & t' & Er).
    pose proof (add_missing t m k v Ht F) as Ha. change (hasher (k, v)) with (make_hash hash_one k) in Er.
    rewrite Er in *. cbn [mbind exec_bind ends] in *. destruct Ha as (Ht' & _ & Hg').
    by exists None, t'.
  - rewrite (bucket_read hasher t i _ _ Hb) in *. cbn [mbind exec_bind] in *.
    destruct (set_found t m k i w v Hb) as (t' & Ew & _). rewrite Ew in *. cbn in Hi |- *. destruct Hi as [_ Hi].
    do 2 eexists. split; [done|]. split; [done|]. apply write_growth in Ew. lia.
Qed.

Lemma insert_all_in_room l : forall t m,
  MapOf t m -> (Z.of_nat (length l) <= growth_left t)%Z ->
  exists t', insert_all hash_one alloc layout t l = Ret t' /\ MapOf t' (foldl (fun m '(k, v) => <[k := v]> m) m l).
Proof.
  induction l as [|[k v] l IH]; intros t m Ht Hg; [by exists t|]. cbn [insert_all foldl length] in *.
  destruct (insert_in_room t m k v Ht ltac:(lia)) as (r & t' & -> & Ht' & Hg'). cbn [mbind exec_bind]. apply IH; [done|lia].
Qed.
End Map.

(** * The map *)

(** C19. Every sequence of operations on a new hash map answers what a finite map
    answers (lists in some order), and leaves a table that stands for the finite map
    the operations make; the only other outcome is a failure to allocate.  No panic,
    no access outside the table and no endless probe, whatever the hash function and
    for both implementations of a group. *)
Theorem hashmap_refines_map `{GroupLaws} {K V : Type} `{Countable K} (hash_one : K -> Z) alloc layout (os : list (@op K V)) :
  (forall k, (0 <= hash_one k < 2 ^ 64)%Z) -> Forall op_ok os ->
  match run hash_one alloc layout with_hasher os with
  | Ret (rs, t) => exists m, run_spec ∅ os rs m /\ MapOf hash_one t m
  | Overflow | OutOfMem => True
  | Panicked | Undefined | Unended => False
  end.
Proof.
  intros Hh Hok. pose proof (run_map hash_one (fun k => proj1 (Hh k)) alloc layout os with_hasher ∅ (new_spec hash_one) Hok) as Hr.
  destruct (run hash_one alloc layout with_hasher os) as [[rs t]| | | | |]; done.
Qed.

#[local] Existing Instance Sse2.group.
#[local] Existing Instance sse2_laws.

Definition example_ops : list (@op Z Z) :=
  [Insert 1 10; Insert 17 20; Insert 33 30; EntryOrInsert 5 (fun k => k + 1); Insert 17 21; Remove 1;
   Retain (fun k v => (v + 1, k <? 30)); Get 17; Get 33; Len]%Z.

Lemma hashmap_refines_map_witness :
  exists t m, run (fun k => k mod 2 ^ 64)%Z (fun _ _ => true) {| l_size := 16; l_align := 8 |} with_hasher example_ops
      = Ret ([AValue None; AValue None; AValue None; AValue (Some 6); AValue (Some 20); AValue (Some 10); ANone;
              AValue (Some 22); AValue None; ALen 2], t)%Z
    /\ run_spec ∅ example_ops [AValue None; AValue None; AValue None; AValue (Some 6); AValue (Some 20); AValue (Some 10);
              ANone; AValue (Some 22); AValue None; ALen 2]%Z m
    /\ MapOf (fun k => k mod 2 ^ 64)%Z t m.
Proof.
  pose proof (hashmap_refines_map (fun k => k mod 2 ^ 64)%Z (fun _ _ => true) {| l_size := 16; l_align := 8 |}
    example_ops) as Hr.
  assert (exists t, run (fun k => k mod 2 ^ 64)%Z (fun _ _ => true) {| l_size := 16; l_align := 8 |} with_hasher example_ops
    = Ret ([AValue None; AValue None; AValue None; AValue (Some 6); AValue (Some 20); AValue (Some 10); ANone;
              AValue (Some 22); AValue None; ALen 2], t)%Z) as [t E] by (eexists; vm_compute; reflexivity).
  rewrite E in Hr. destruct Hr as (m & Hm & Ht).
  - intros k. apply Z.mod_pos_bound. lia.
  - repeat constructor.
  - exists t, m. split; [exact E|]. split; [exact Hm|exact Ht].
Defined.

(** A map made with a capacity takes that many insertions without asking the
    allocator for anything, and holds what was inserted, the last value of each key. *)
Theorem hashmap_capacity `{GroupLaws} {K V : Type} `{Countable K} (hash_one : K -> Z) alloc layout n (l : list (K * V)) t :
  (forall k, (0 <= hash_one k < 2 ^ 64)%Z) -> (0 <= n <= usize_max)%Z ->
  with_capacity_and_hasher alloc layout n = Ret t -> (Z.of_nat (length l) <= n)%Z ->
  exists t', insert_all hash_one (fun _ _ => false) layout t l = Ret t'
    /\ MapOf hash_one t' (foldl (fun m '(k, v) => <[k := v]> m) ∅ l).
Proof.
  intros Hh Hn E Hl. pose proof (with_capacity_map hash_one alloc layout n Hn (V := V)) as Hc. rewrite E in Hc.
  destruct Hc as [Ht Hg]. apply (insert_all_in_room hash_one (fun k => proj1 (Hh k))); [done|lia].
Qed.

Lemma hashmap_capacity_witness :
  exists t t', with_capacity_and_hasher (fun _ _ => true) {| l_size := 16; l_align := 8 |} 2 = Ret t
    /\ insert_all (fun k => k mod 2 ^ 64)%Z (fun _ _ => false) {| l_size := 16; l_align := 8 |} t [(1, 2); (1, 3)]%Z = Ret t'
    /\ MapOf (fun k => k mod 2 ^ 64)%Z t' (foldl (fun m '(k, v) => <[k := v]> m) ∅ [(1, 2); (1, 3)]%Z).
Proof.
  assert (exists t : RawTable (Z * Z), with_capacity_and_hasher (fun _ _ => true) {| l_size := 16; l_align := 8 |} 2 = Ret t)
    as [t E] by (eexists; vm_compute; reflexivity).
  destruct (hashmap_capacity (fun k => k mod 2 ^ 64)%Z (fun _ _ => true) {| l_size := 16; l_align := 8 |} 2
    [(1, 2); (1, 3)]%Z t) as (t' & Hi & Ht').
  - intros k. apply Z.mod_pos_bound. lia.
  - vm_compute. split; discriminate.
  - exact E.
  - done.
  - exists t, t'. split; [exact E|]. split; [exact Hi|exact Ht'].
Defined.
