(* ===== verification/HashSetSpecs.v ===== *)
(** HashSetSpecs: the hash set is a finite set.

    [SetOf t s]: the table [t] stands for the set [s].  Membership, insertion and
    removal, and the operations on two sets, which may hash differently. *)
From Stdlib Require Import ZArith Lia.
From stdpp Require Import base numbers list option gmap sets fin_sets tactics.
From S2P Require Import Prelude HashGroup HashGroupLaws HashRaw HashMap HashSet HashInv HashGrow HashIter HashMapSpecs.
Local Open Scope nat_scope.

Section Set_.
Context `{GroupLaws} {T : Type} `{Countable T} (hash_one : T -> Z).
Context (hash_range : forall k, (0 <= hash_one k)%Z).
Local Notation set := (RawTable (T * unit)).

Definition SetOf (t : set) (s : gset T) : Prop := MapOf hash_one t (gset_to_gmap tt s).

Lemma set_lookup (s : gset T) k : gset_to_gmap tt s !! k = if bool_decide (k ∈ s) then Some tt else None.
Proof.
  destruct (bool_decide_reflect (k ∈ s)) as [Hk|Hk].
  - by apply lookup_gset_to_gmap_Some.
  - by apply lookup_gset_to_gmap_None.
Qed.

Lemma set_insert (s : gset T) k : <[k := tt]> (gset_to_gmap tt s) = gset_to_gmap tt ({[k]} ∪ s).
Proof. by rewrite gset_to_gmap_union_singleton. Qed.

Lemma set_delete (s : gset T) k : delete k (gset_to_gmap tt s) = gset_to_gmap tt (s ∖ {[k]}).
Proof. by rewrite gset_to_gmap_difference_singleton. Qed.

Lemma set_new : SetOf with_hasher ∅.
Proof. unfold SetOf. rewrite gset_to_gmap_empty. apply new_spec. Qed.

Lemma set_len t s : SetOf t s -> len t = Z.of_nat (size s).
Proof.
  intros Ht. unfold len. rewrite (len_spec hash_one t _ Ht). f_equal.
  rewrite <- (size_dom (D := gset T)). by rewrite dom_gset_to_gmap.
Qed.

Lemma set_contains t s k : SetOf t s -> contains hash_one t k = Ret (bool_decide (k ∈ s)).
Proof.
  intros Ht. unfold contains, contains_key. rewrite (get_inner_spec hash_one hash_range t _ k Ht). cbn.
  rewrite set_lookup. by case_bool_decide.
Qed.

Lemma keys_of_set (s : gset T) : (map_to_list (gset_to_gmap tt s)).*1 ≡ₚ elements s.
Proof.
  apply NoDup_Permutation; [apply NoDup_fst_map_to_list|apply NoDup_elements|]. intros k.
  rewrite elem_of_elements, list_elem_of_fmap. split.
  - intros ([k' []] & -> & Hk%elem_of_map_to_list). rewrite set_lookup in Hk. by case_bool_decide.
  - intros Hk. exists (k, tt). split; [done|]. apply elem_of_map_to_list. rewrite set_lookup. by case_bool_decide.
Qed.

Lemma set_iter t s : SetOf t s -> exists l, iter t = Ret l /\ l ≡ₚ elements s.
Proof.
  intros Ht. destruct (iter_values_spec (make_hasher hash_one) t _ Ht) as (l & E & Hl). exists (l.*1).
  unfold iter, keys, iter_pairs. rewrite E. split; [done|]. by rewrite Hl, keys_of_set.
Qed.

Context (alloc : Z -> Z -> bool) (layout : Layout).

Lemma set_insert_spec t s k :
  SetOf t s -> ends (insert hash_one alloc layout t k) (fun '(r, t') => r = bool_decide (k ∉ s) /\ SetOf t' ({[k]} ∪ s)).
Proof.
  intros Ht. unfold insert. eapply ends_bind; [by apply (insert_map hash_one hash_range alloc layout t (gset_to_gmap tt s) k tt)|].
  intros [r t'] [-> Ht']. rewrite set_insert in Ht'. cbn. split; [|done]. rewrite set_lookup.
  case_bool_decide; case_bool_decide; done.
Qed.

Lemma set_remove_spec t s k :
  SetOf t s -> exists t', remove hash_one t k = Ret (bool_decide (k ∈ s), t') /\ SetOf t' (s ∖ {[k]}).
Proof.
  intros Ht. unfold remove, HashMap.remove.
  destruct (remove_entry_map hash_one hash_range t _ k Ht) as (t' & -> & Ht'). exists t'. rewrite set_delete in Ht'.
  split; [|done]. cbn. rewrite set_lookup. by case_bool_decide.
Qed.

Lemma set_take_spec t s k :
  SetOf t s -> exists t', take hash_one t k = Ret ((if bool_decide (k ∈ s) then Some k else None), t') /\ SetOf t' (s ∖ {[k]}).
Proof.
  intros Ht. unfold take. destruct (remove_entry_map hash_one hash_range t _ k Ht) as (t' & -> & Ht'). exists t'.
  rewrite set_delete in Ht'. split; [|done]. cbn. rewrite set_lookup. by case_bool_decide.
Qed.

Lemma set_extend_map (l : list T) : forall s : gset T,
  foldl (fun m '(k, v) => <[k := v]> m) (gset_to_gmap tt s) ((fun k => (k, tt)) <$> l) = gset_to_gmap tt (s ∪ list_to_set l).
Proof.
  induction l as [|k l IH]; intros s.
  - cbn. f_equal. set_solver.
  - rewrite fmap_cons. cbn [foldl]. rewrite set_insert, IH. f_equal. cbn. set_solver.
Qed.

Lemma set_extend_spec t s l :
  SetOf t s -> (Z.of_nat (length l) < usize_max)%Z ->
  ends (extend hash_one alloc layout t (Z.of_nat (length l)) l) (fun t' => SetOf t' (s ∪ list_to_set l)).
Proof.
  intros Ht Hl. unfold extend, SetOf. rewrite <- set_extend_map. rewrite <- (length_fmap (fun k => (k, tt)) l) in Hl |- *.
  by apply (extend_map hash_one hash_range).
Qed.

Lemma set_from_iter l :
  (Z.of_nat (length l) < usize_max)%Z ->
  ends (from_iter hash_one alloc layout (Z.of_nat (length l)) l) (fun t => SetOf t (list_to_set l)).
Proof.
  intros Hl. unfold from_iter. eapply ends_impl; [apply (set_extend_spec _ _ l set_new Hl)|]. intros t.
  by rewrite union_empty_l_L.
Qed.
End Set_.

Lemma filter_by_spec {T} (p : T -> exec bool) (q : T -> bool) l :
  (forall x, p x = Ret (q x)) -> filter_by p l = Ret (filter (fun x => q x = true) l).
Proof.
  intros Hp. induction l as [|x l IH]; [done|]. cbn [filter_by]. rewrite Hp. cbn [mbind exec_bind]. rewrite IH.
  cbn [mbind exec_bind]. rewrite filter_cons. by destruct (q x).
Qed.

Lemma all_by_spec {T} (p : T -> exec bool) (q : T -> bool) l :
  (forall x, p x = Ret (q x)) -> all_by p l = Ret (bool_decide (Forall (fun x => q x = true) l)).
Proof.
  intros Hp. induction l as [|x l IH]; [done|]. cbn [all_by]. rewrite Hp. cbn [mbind exec_bind]. destruct (q x) eqn:E.
  - rewrite IH. f_equal. apply bool_decide_ext. split; [by constructor|]. by intros [_ ?]%Forall_cons_1.
  - rewrite bool_decide_false; [done|]. intros [? _]%Forall_cons_1. congruence.
Qed.

(** * Two sets *)
Section Two.
Context `{GroupLaws} {T : Type} `{Countable T} (hash_one hash_other : T -> Z).
Context (range_one : forall k, (0 <= hash_one k)%Z) (range_other : forall k, (0 <= hash_other k)%Z).
Context (t u : RawTable (T * unit)) (s r : gset T).
Context (Ht : SetOf hash_one t s) (Hu : SetOf hash_other u r).

(** Filtering the elements of a set. *)
Lemma filter_elements (s0 : gset T) l (q : T -> bool) (s1 : gset T) :
  l ≡ₚ elements s0 -> (forall x, x ∈ s1 <-> x ∈ s0 /\ q x = true) -> filter (fun x => q x = true) l ≡ₚ elements s1.
Proof.
  intros Hl Hq. apply NoDup_Permutation.
  - apply list.NoDup_filter. rewrite Hl. apply NoDup_elements.
  - apply NoDup_elements.
  - intros x. rewrite list_elem_of_filter, elem_of_elements, Hq, Hl, elem_of_elements. tauto.
Qed.

Lemma difference_spec : exists l, difference hash_other t u = Ret l /\ l ≡ₚ elements (s ∖ r).
Proof.
  destruct (set_iter hash_one t s Ht) as (l & E & Hl). unfold difference. rewrite E. cbn [mbind exec_bind].
  rewrite (filter_by_spec _ (fun x => negb (bool_decide (x ∈ r)))).
  - eexists. split; [done|]. apply (filter_elements s l); [done|]. intros x. rewrite elem_of_difference.
    case_bool_decide; cbn; split; intros [? ?]; split; done.
  - intros x. unfold negate. by rewrite (set_contains hash_other range_other u r x Hu).
Qed.

Lemma filter_contains : exists l, (l ← iter t; filter_by (fun elt => contains hash_other u elt) l) = Ret l /\ l ≡ₚ elements (s ∩ r).
Proof.
  destruct (set_iter hash_one t s Ht) as (l & E & Hl). rewrite E. cbn [mbind exec_bind].
  rewrite (filter_by_spec _ (fun x => bool_decide (x ∈ r))).
  - eexists. split; [done|]. apply (filter_elements s l); [done|]. intros x. by rewrite elem_of_intersection, bool_decide_eq_true.
  - intros x. by apply (set_contains hash_other).
Qed.

Lemma all_elements p q :
  (forall x, p x = Ret (q x)) -> exists l, l ≡ₚ elements s /\ (l ← iter t; all_by p l) = Ret (bool_decide (Forall (fun x => q x = true) l)).
Proof.
  intros Hp. destruct (set_iter hash_one t s Ht) as (l & E & Hl). exists l. split; [done|]. rewrite E. by apply all_by_spec.
Qed.

Lemma is_disjoint_spec : is_disjoint hash_other t u = Ret (bool_decide (s ## r)).
Proof.
  destruct (all_elements (fun v => negate (contains hash_other u v)) (fun x => negb (bool_decide (x ∈ r)))) as (l & Hl & E).
  { intros x. unfold negate. by rewrite (set_contains hash_other range_other u r x Hu). }
  unfold is_disjoint. rewrite E. f_equal. apply bool_decide_ext. rewrite Hl, list.Forall_forall. setoid_rewrite elem_of_elements. setoid_rewrite negb_true_iff. setoid_rewrite bool_decide_eq_false.
  set_solver.
Qed.

Lemma subset_all :
  exists b, (l ← iter t; all_by (fun v => contains hash_other u v) l) = Ret b /\ b = bool_decide (s ⊆ r).
Proof.
  destruct (all_elements (fun v => contains hash_other u v) (fun x => bool_decide (x ∈ r))) as (l & Hl & E).
  { intros x. by apply (set_contains hash_other). }
  eexists. split; [exact E|]. apply bool_decide_ext. rewrite Hl, list.Forall_forall.
  setoid_rewrite elem_of_elements. setoid_rewrite bool_decide_eq_true. set_solver.
Qed.

Lemma is_subset_spec : is_subset hash_other t u = Ret (bool_decide (s ⊆ r)).
Proof.
  unfold is_subset. rewrite (set_len hash_one t s Ht), (set_len hash_other u r Hu).
  destruct (Z.leb_spec (Z.of_nat (size s)) (Z.of_nat (size r))).
  - destruct subset_all as (b & -> & ->). done.
  - rewrite bool_decide_false; [done|]. intros Hs%subseteq_size. lia.
Qed.

Lemma eq_spec : eq hash_other t u = Ret (bool_decide (s = r)).
Proof.
  unfold eq. rewrite (set_len hash_one t s Ht), (set_len hash_other u r Hu).
  destruct (Z.eqb_spec (Z.of_nat (size s)) (Z.of_nat (size r))) as [E|E]; cbn [negb].
  - destruct subset_all as (b & -> & ->). f_equal. apply bool_decide_ext. split; [|by intros ->].
    intros Hs. apply set_subseteq_size_eq; [done|lia].
  - rewrite bool_decide_false; [done|]. intros ->. lia.
Qed.
End Two.

Section Both.
Context `{GroupLaws} {T : Type} `{Countable T} (hash_one hash_other : T -> Z).
Context (range_one : forall k, (0 <= hash_one k)%Z) (range_other : forall k, (0 <= hash_other k)%Z).
Context (t u : RawTable (T * unit)) (s r : gset T).
Context (Ht : SetOf hash_one t s) (Hu : SetOf hash_other u r).

Lemma elements_disjoint_app (l1 l2 : list T) (s1 s2 s3 : gset T) :
  l1 ≡ₚ elements s1 -> l2 ≡ₚ elements s2 -> s1 ## s2 -> s3 = s1 ∪ s2 -> l1 ++ l2 ≡ₚ elements s3.
Proof. intros -> -> Hd ->. by rewrite elements_disj_union. Qed.

Lemma union_spec : exists l, union hash_one hash_other t u = Ret l /\ l ≡ₚ elements (s ∪ r).
Proof.
  unfold union. destruct (len t <=? len u)%Z.
  - destruct (set_iter hash_other u r Hu) as (l & -> & Hl). cbn [mbind exec_bind].
    destruct (difference_spec hash_one hash_other range_other t u s r Ht Hu) as (l' & -> & Hl'). cbn [mbind exec_bind].
    eexists. split; [done|]. apply (elements_disjoint_app l l' r (s ∖ r)); [done|done|set_solver|].
    apply set_eq. intros x. destruct (decide (x ∈ r)); set_solver.
  - destruct (set_iter hash_one t s Ht) as (l & -> & Hl). cbn [mbind exec_bind].
    destruct (difference_spec hash_other hash_one range_one u t r s Hu Ht) as (l' & -> & Hl'). cbn [mbind exec_bind].
    eexists. split; [done|]. apply (elements_disjoint_app l l' s (r ∖ s)); [done|done|set_solver|].
    apply set_eq. intros x. destruct (decide (x ∈ s)); set_solver.
Qed.

Lemma intersection_spec : exists l, intersection hash_one hash_other t u = Ret l /\ l ≡ₚ elements (s ∩ r).
Proof.
  unfold intersection. destruct (len t <=? len u)%Z.
  - apply (filter_contains hash_one hash_other range_other t u s r Ht Hu).
  - destruct (filter_contains hash_other hash_one range_one u t r s Hu Ht) as (l & E & Hl).
    exists l. split; [done|]. by rewrite (intersection_comm_L s r).
Qed.

Lemma symmetric_difference_spec :
  exists l, symmetric_difference hash_one hash_other t u = Ret l /\ l ≡ₚ elements ((s ∖ r) ∪ (r ∖ s)).
Proof.
  unfold symmetric_difference.
  destruct (difference_spec hash_one hash_other range_other t u s r Ht Hu) as (l & -> & Hl). cbn [mbind exec_bind].
  destruct (difference_spec hash_other hash_one range_one u t r s Hu Ht) as (l' & -> & Hl'). cbn [mbind exec_bind].
  eexists. split; [done|]. by apply (elements_disjoint_app l l' (s ∖ r) (r ∖ s)); [..|set_solver|].
Qed.
End Both.

(** C20. Two sets collected from lists, each with its own hash function: [union],
    [intersection], [difference] and [symmetric_difference] yield every element of the
    set of that name once, and [is_subset], [is_superset], [is_disjoint] and [==]
    decide what they say. *)
Theorem hashset_algebra `{GroupLaws} {T : Type} `{Countable T} (hash_one hash_other : T -> Z) alloc layout (l1 l2 : list T) t u :
  (forall k, (0 <= hash_one k < 2 ^ 64)%Z) -> (forall k, (0 <= hash_other k < 2 ^ 64)%Z) ->
  (Z.of_nat (length l1) < usize_max)%Z -> (Z.of_nat (length l2) < usize_max)%Z ->
  from_iter hash_one alloc layout (Z.of_nat (length l1)) l1 = Ret t ->
  from_iter hash_other alloc layout (Z.of_nat (length l2)) l2 = Ret u ->
  let s : gset T := list_to_set l1 in
  let r : gset T := list_to_set l2 in
  (exists l, union hash_one hash_other t u = Ret l /\ l ≡ₚ elements (s ∪ r))
  /\ (exists l, intersection hash_one hash_other t u = Ret l /\ l ≡ₚ elements (s ∩ r))
  /\ (exists l, difference hash_other t u = Ret l /\ l ≡ₚ elements (s ∖ r))
  /\ (exists l, symmetric_difference hash_one hash_other t u = Ret l /\ l ≡ₚ elements ((s ∖ r) ∪ (r ∖ s)))
  /\ is_subset hash_other t u = Ret (bool_decide (s ⊆ r))
  /\ is_superset hash_one t u = Ret (bool_decide (r ⊆ s))
  /\ is_disjoint hash_other t u = Ret (bool_decide (s ## r))
  /\ eq hash_other t u = Ret (bool_decide (s = r)).
Proof.
  intros Hh Ho Hl1 Hl2 E1 E2 s r.
  pose proof (set_from_iter hash_one (fun k => proj1 (Hh k)) alloc layout l1 Hl1) as Ht. rewrite E1 in Ht.
  pose proof (set_from_iter hash_other (fun k => proj1 (Ho k)) alloc layout l2 Hl2) as Hu. rewrite E2 in Hu.
  cbn [ends] in Ht, Hu. fold s in Ht. fold r in Hu.
  assert (forall k, (0 <= hash_one k)%Z) as R1 by apply Hh. assert (forall k, (0 <= hash_other k)%Z) as R2 by apply Ho.
  split; [by apply union_spec|]. split; [by apply intersection_spec|].
  split; [by apply (difference_spec hash_one)|]. split; [by apply symmetric_difference_spec|].
  split; [by apply (is_subset_spec hash_one)|]. split; [by apply (is_subset_spec hash_other)|].
  split; [by apply (is_disjoint_spec hash_one)|by apply (eq_spec hash_one)].
Qed.

#[local] Existing Instance Sse2.group.
#[local] Existing Instance sse2_laws.
Definition small_layout : Layout := {| l_size := 8; l_align := 8 |}.
Definition low_hash (k : Z) : Z := (k mod 2 ^ 64)%Z.

Lemma hashset_algebra_witness :
  exists t u, from_iter low_hash (fun _ _ => true) small_layout 3 [1; 2; 2]%Z = Ret t
    /\ from_iter (fun _ => 0%Z) (fun _ _ => true) small_layout 2 [2; 5]%Z = Ret u
    /\ (exists l, union low_hash (fun _ => 0%Z) t u = Ret l /\ l ≡ₚ elements ({[1; 2]} ∪ {[2; 5]} : gset Z)%Z)
    /\ is_subset (fun _ => 0%Z) t u = Ret false.
Proof.
  assert (exists t, from_iter low_hash (fun _ _ => true) small_layout 3 [1; 2; 2]%Z = Ret t) as [t E1]
    by (eexists; vm_compute; reflexivity).
  assert (exists u, from_iter (fun _ => 0%Z) (fun _ _ => true) small_layout 2 [2; 5]%Z = Ret u) as [u E2]
    by (eexists; vm_compute; reflexivity).
  destruct (hashset_algebra low_hash (fun _ => 0%Z) (fun _ _ => true) small_layout [1; 2; 2]%Z [2; 5]%Z t u)
    as ((l & Hl & Hp) & _ & _ & _ & Hs & _).
  - intros k. apply Z.mod_pos_bound. lia.
  - lia.
  - reflexivity.
  - reflexivity.
  - exact E1.
  - exact E2.
  - exists t, u. split; [exact E1|]. split; [exact E2|]. split.
    + exists l. split; [exact Hl|]. etransitivity; [exact Hp|]. apply Permutation_refl'. vm_compute. reflexivity.
    + rewrite Hs. vm_compute. reflexivity.
Defined.

(** [get_or_insert_with] does not look at what [f] makes: a set with two equal
    elements. *)
Theorem get_or_insert_with_duplicates :
  exists t i t', from_iter low_hash (fun _ _ => true) small_layout 1 [1]%Z = Ret t
    /\ get_or_insert_with low_hash (fun _ _ => true) small_layout t 2%Z (fun _ => 1%Z) = Ret (i, t')
    /\ iter t' = Ret [1; 1]%Z /\ len t' = 2%Z.
Proof. do 3 eexists. split; [vm_compute; reflexivity|]. split; [vm_compute; reflexivity|]. split; vm_compute; reflexivity. Qed.
