(* ===== verification/NetIp.v ===== *)
(** NetIp: IP addresses, sgx_tstd/src/net/ip.rs.

    An [Ipv4Addr] is its [in_addr]: a [u32] whose bytes in memory are the four
    octets; an [Ipv6Addr] is the sixteen bytes of its [in6_addr].  The enclave is
    little endian, so [from_ne_bytes] and [transmute] read bytes with [le_val], and
    [to_be] and [from_be] swap them.

    [Display] is modelled down to the formatter: width, precision, fill and
    alignment, and the stack buffers of the padded path, whose [unwrap] is a
    possible [Panic].  What a formatter does with the text it is handed (its sink)
    is not modelled: [fmt] returns the text.  All text here is ASCII, one byte per
    character. *)
From Stdlib Require Import ZArith Lia Strings.Byte.
From stdpp Require Import base numbers list option tactics.
From S2P Require Import Prelude.

(** * Integers as bytes *)

(** [to_be_bytes] and [from_be_bytes] of an integer of [n] bytes *)
Definition be_bytes (n : nat) (z : Z) : list byte := reverse (le_bytes n z).
Definition be_val (bs : list byte) : Z := le_val (reverse bs).

(** [to_be] and [from_be]: on a little-endian machine both swap the bytes. *)
Definition swap_bytes (n : nat) (z : Z) : Z := be_val (le_bytes n z).
Definition to_be16 (z : Z) : Z := swap_bytes 2 z.
Definition from_be16 (z : Z) : Z := swap_bytes 2 z.
Definition from_be32 (z : Z) : Z := swap_bytes 4 z.

(** [transmute] between [[u16; 8]] and [[u8; 16]] *)
Definition transmute_to_u8 (l : list Z) : list byte := l ≫= le_bytes 2.
Fixpoint transmute_to_u16 (l : list byte) : list Z :=
  match l with
  | a :: b :: l => le_val [a; b] :: transmute_to_u16 l
  | _ => []
  end.

(** * Text *)

(** The ASCII characters that addresses are written with *)
Definition c_dot : byte := Byte.x2e.
Definition c_colon : byte := Byte.x3a.
Definition c_zero : byte := Byte.x30.
Definition c_percent : byte := Byte.x25.
Definition c_open : byte := Byte.x5b.
Definition c_close : byte := Byte.x5d.

(** [core::fmt] of an unsigned integer: the last digit is the remainder.  A number
    has at most as many digits as bits, which is the fuel. *)
Definition digit_char (d : Z) : byte := byte_of (if d <? 10 then 48 + d else 87 + d).
Fixpoint fmt_digits (fuel : nat) (radix z : Z) : list byte :=
  match fuel with
  | O => []
  | S fuel =>
      if z <? radix then [digit_char z]
      else fmt_digits fuel radix (z / radix) ++ [digit_char (z `mod` radix)]
  end.
Definition fmt_radix (radix z : Z) : list byte :=
  fmt_digits (S (Z.to_nat (Z.log2 z))) radix z.
Definition fmt_dec : Z -> list byte := fmt_radix 10.
Definition fmt_hex : Z -> list byte := fmt_radix 16.

(** [fmt::Formatter] and [Formatter::pad], for ASCII text *)
Inductive Alignment := ALeft | ARight | ACenter | AUnknown.

Record Formatter := {
  width : option nat;
  precision : option nat;
  fill : list byte;
  align : Alignment
}.

(** The formatter of a plain [{}] *)
Definition plain : Formatter :=
  {| width := None; precision := None; fill := [Byte.x20]; align := AUnknown |}.

Definition padding (f : Formatter) (n : nat) (s : list byte) : list byte :=
  let '(pre, post) :=
    match align f with
    | ALeft | AUnknown => (0, n)%nat
    | ARight => (n, 0)%nat
    | ACenter => (n / 2, (n + 1) / 2)%nat
    end in
  mjoin (replicate pre (fill f)) ++ s ++ mjoin (replicate post (fill f)).

Definition pad (f : Formatter) (s : list byte) : list byte :=
  let s := match precision f with Some max => take max s | None => s end in
  match width f with
  | None => s
  | Some w => if (w <=? length s)%nat then s else padding f (w - length s) s
  end.

(** [f.precision().is_none() && f.width().is_none()] *)
Definition no_alignment (f : Formatter) : bool :=
  match precision f, width f with None, None => true | _, _ => false end.

(** [write!(buf_slice, ..).unwrap()] into a buffer of [n] bytes, and the bytes
    written: what does not fit is an error of [write_all]. *)
Definition write_buf (n : nat) (text : list byte) : panics (list byte) :=
  if (length text <=? n)%nat then Done text else Panic.

(** * IPv4 *)
Record Ipv4Addr := { s_addr : Z }.

#[export] Instance Ipv4Addr_eq_dec : EqDecision Ipv4Addr.
Proof. solve_decision. Defined.

(** * IPv6 *)
Record Ipv6Addr := { s6_addr : list byte }.

#[export] Instance Ipv6Addr_eq_dec : EqDecision Ipv6Addr.
Proof. solve_decision. Defined.

Inductive IpAddr :=
| V4 (a : Ipv4Addr)
| V6 (a : Ipv6Addr).

#[export] Instance IpAddr_eq_dec : EqDecision IpAddr.
Proof. solve_decision. Defined.

Inductive Ipv6MulticastScope :=
| InterfaceLocal | LinkLocal | RealmLocal | AdminLocal | SiteLocal
| OrganizationLocal | Global.

#[export] Instance Ipv6MulticastScope_eq_dec : EqDecision Ipv6MulticastScope.
Proof. solve_decision. Defined.

(** The values of the types: what every constructor of the code makes *)
Definition ipv4_ok (a : Ipv4Addr) : Prop := 0 <= s_addr a < 2 ^ 32.
Definition ipv6_ok (a : Ipv6Addr) : Prop := length (s6_addr a) = 16%nat.
Definition ip_ok (a : IpAddr) : Prop :=
  match a with V4 a => ipv4_ok a | V6 a => ipv6_ok a end.

Module Ipv4.

Definition new (a b c d : byte) : Ipv4Addr := {| s_addr := le_val [a; b; c; d] |}.
Definition LOCALHOST : Ipv4Addr := new Byte.x7f Byte.x00 Byte.x00 Byte.x01.
Definition UNSPECIFIED : Ipv4Addr := new Byte.x00 Byte.x00 Byte.x00 Byte.x00.
Definition BROADCAST : Ipv4Addr := new Byte.xff Byte.xff Byte.xff Byte.xff.

Definition octets (a : Ipv4Addr) : list byte := le_bytes 4 (s_addr a).

(** [self.octets()[i]], as a number *)
Definition octet (i : nat) (a : Ipv4Addr) : Z := byte_val (octets a !!! i).

(** [From<[u8; 4]>], [From<Ipv4Addr> for u32] and [From<u32>] *)
Definition from_octets (l : list byte) : Ipv4Addr := new (l !!! 0%nat) (l !!! 1%nat) (l !!! 2%nat) (l !!! 3%nat).
Definition to_u32 (a : Ipv4Addr) : Z := be_val (octets a).
Definition from_u32 (z : Z) : Ipv4Addr := from_octets (be_bytes 4 z).

Definition is_unspecified (a : Ipv4Addr) : bool := s_addr a =? 0.
Definition is_loopback (a : Ipv4Addr) : bool := octet 0 a =? 127.
Definition is_private (a : Ipv4Addr) : bool :=
  if octet 0 a =? 10 then true
  else if (octet 0 a =? 172) && ((16 <=? octet 1 a) && (octet 1 a <=? 31)) then true
  else if (octet 0 a =? 192) && (octet 1 a =? 168) then true
  else false.
Definition is_link_local (a : Ipv4Addr) : bool := (octet 0 a =? 169) && (octet 1 a =? 254).
Definition is_shared (a : Ipv4Addr) : bool :=
  (octet 0 a =? 100) && (Z.land (octet 1 a) 192 =? 64).
Definition is_benchmarking (a : Ipv4Addr) : bool :=
  (octet 0 a =? 198) && (Z.land (octet 1 a) 254 =? 18).
Definition is_broadcast (a : Ipv4Addr) : bool :=
  be_val (octets a) =? be_val (octets BROADCAST).
Definition is_reserved (a : Ipv4Addr) : bool :=
  (Z.land (octet 0 a) 240 =? 240) && negb (is_broadcast a).
Definition is_multicast (a : Ipv4Addr) : bool := (224 <=? octet 0 a) && (octet 0 a <=? 239).
Definition is_documentation (a : Ipv4Addr) : bool :=
  ((octet 0 a =? 192) && (octet 1 a =? 0) && (octet 2 a =? 2))
  || ((octet 0 a =? 198) && (octet 1 a =? 51) && (octet 2 a =? 100))
  || ((octet 0 a =? 203) && (octet 1 a =? 0) && (octet 2 a =? 113)).
Definition is_global (a : Ipv4Addr) : bool :=
  if (be_val (octets a) =? 0xc0000009) || (be_val (octets a) =? 0xc000000a) then true
  else
    negb (is_private a) && negb (is_loopback a) && negb (is_link_local a)
    && negb (is_broadcast a) && negb (is_documentation a) && negb (is_shared a)
    && negb ((octet 0 a =? 192) && (octet 1 a =? 0) && (octet 2 a =? 0))
    && negb (is_reserved a) && negb (is_benchmarking a)
    && negb (octet 0 a =? 0).

Definition to_ipv6_compatible (a : Ipv4Addr) : Ipv6Addr :=
  {| s6_addr := zeros 12 ++ octets a |}.
Definition to_ipv6_mapped (a : Ipv4Addr) : Ipv6Addr :=
  {| s6_addr := zeros 10 ++ [Byte.xff; Byte.xff] ++ octets a |}.

(** [PartialEq] and [Ord] *)
Definition eq (a b : Ipv4Addr) : bool := s_addr a =? s_addr b.
Definition cmp (a b : Ipv4Addr) : comparison := from_be32 (s_addr a) ?= from_be32 (s_addr b).

(** [Display]: the text of [{}.{}.{}.{}] and its two paths *)
Definition text (a : Ipv4Addr) : list byte :=
  fmt_dec (octet 0 a) ++ [c_dot] ++ fmt_dec (octet 1 a) ++ [c_dot]
  ++ fmt_dec (octet 2 a) ++ [c_dot] ++ fmt_dec (octet 3 a).
Definition IPV4_BUF_LEN : nat := 15.
Definition fmt (f : Formatter) (a : Ipv4Addr) : panics (list byte) :=
  if no_alignment f then Done (text a)
  else panics_bind (write_buf IPV4_BUF_LEN (text a)) (fun buf => Done (pad f buf)).

End Ipv4.

Module Ipv6.

Definition new (a b c d e f g h : Z) : Ipv6Addr :=
  let addr16 := [to_be16 a; to_be16 b; to_be16 c; to_be16 d; to_be16 e; to_be16 f; to_be16 g; to_be16 h] in
  {| s6_addr := transmute_to_u8 addr16 |}.
Definition LOCALHOST : Ipv6Addr := new 0 0 0 0 0 0 0 1.
Definition UNSPECIFIED : Ipv6Addr := new 0 0 0 0 0 0 0 0.

Definition octets (a : Ipv6Addr) : list byte := s6_addr a.
Definition segments (a : Ipv6Addr) : list Z := from_be16 <$> transmute_to_u16 (s6_addr a).

(** [self.segments()[i]] *)
Definition segment (i : nat) (a : Ipv6Addr) : Z := segments a !!! i.

(** [From<[u8; 16]>], [From<[u16; 8]>], [From<Ipv6Addr> for u128], [From<u128>] *)
Definition from_octets (l : list byte) : Ipv6Addr := {| s6_addr := l |}.
Definition from_segments (l : list Z) : Ipv6Addr :=
  new (l !!! 0%nat) (l !!! 1%nat) (l !!! 2%nat) (l !!! 3%nat)
      (l !!! 4%nat) (l !!! 5%nat) (l !!! 6%nat) (l !!! 7%nat).
Definition to_u128 (a : Ipv6Addr) : Z := be_val (octets a).
Definition from_u128 (z : Z) : Ipv6Addr := from_octets (be_bytes 16 z).

Definition is_unspecified (a : Ipv6Addr) : bool :=
  be_val (octets a) =? be_val (octets UNSPECIFIED).
Definition is_loopback (a : Ipv6Addr) : bool :=
  be_val (octets a) =? be_val (octets LOCALHOST).
Definition is_unique_local (a : Ipv6Addr) : bool := Z.land (segment 0 a) 0xfe00 =? 0xfc00.
Definition is_multicast (a : Ipv6Addr) : bool := Z.land (segment 0 a) 0xff00 =? 0xff00.
Definition is_unicast (a : Ipv6Addr) : bool := negb (is_multicast a).
Definition is_unicast_link_local (a : Ipv6Addr) : bool :=
  Z.land (segment 0 a) 0xffc0 =? 0xfe80.
Definition is_documentation (a : Ipv6Addr) : bool :=
  (segment 0 a =? 0x2001) && (segment 1 a =? 0xdb8).
Definition is_benchmarking (a : Ipv6Addr) : bool :=
  (segment 0 a =? 0x2001) && (segment 1 a =? 0x2) && (segment 2 a =? 0).
Definition is_unicast_global (a : Ipv6Addr) : bool :=
  is_unicast a && negb (is_loopback a) && negb (is_unicast_link_local a)
  && negb (is_unique_local a) && negb (is_unspecified a) && negb (is_documentation a).
Definition multicast_scope (a : Ipv6Addr) : option Ipv6MulticastScope :=
  if is_multicast a then
    match Z.land (segment 0 a) 0x000f with
    | 1 => Some InterfaceLocal
    | 2 => Some LinkLocal
    | 3 => Some RealmLocal
    | 4 => Some AdminLocal
    | 5 => Some SiteLocal
    | 8 => Some OrganizationLocal
    | 14 => Some Global
    | _ => None
    end
  else None.
Definition is_global (a : Ipv6Addr) : bool :=
  match multicast_scope a with
  | Some Global => true
  | None => is_unicast_global a
  | _ => false
  end.

Definition to_ipv4_mapped (a : Ipv6Addr) : option Ipv4Addr :=
  match octets a with
  | [Byte.x00; Byte.x00; Byte.x00; Byte.x00; Byte.x00; Byte.x00; Byte.x00; Byte.x00;
     Byte.x00; Byte.x00; Byte.xff; Byte.xff; a; b; c; d] => Some (Ipv4.new a b c d)
  | _ => None
  end.
Definition to_ipv4 (a : Ipv6Addr) : option Ipv4Addr :=
  match segments a with
  | [0; 0; 0; 0; 0; x; ab; cd] =>
      if (x =? 0) || (x =? 0xffff) then
        let ab := be_bytes 2 ab in
        let cd := be_bytes 2 cd in
        Some (Ipv4.new (ab !!! 0%nat) (ab !!! 1%nat) (cd !!! 0%nat) (cd !!! 1%nat))
      else None
  | _ => None
  end.
Definition to_canonical (a : Ipv6Addr) : IpAddr :=
  match to_ipv4_mapped a with
  | Some mapped => V4 mapped
  | None => V6 a
  end.

(** [PartialEq] and [Ord]: slices are compared from the left. *)
Definition eq (a b : Ipv6Addr) : bool := bool_decide (s6_addr a = s6_addr b).
Fixpoint segments_cmp (k l : list Z) : comparison :=
  match k, l with
  | [], [] => Eq
  | [], _ => Lt
  | _, [] => Gt
  | a :: k, b :: l => match a ?= b with Eq => segments_cmp k l | o => o end
  end.
Definition cmp (a b : Ipv6Addr) : comparison := segments_cmp (segments a) (segments b).

(** [Display]: the longest run of zero segments *)
Record Span := { start : nat; len : nat }.
Definition no_span : Span := {| start := 0; len := 0 |}.
Fixpoint find_zeroes (i : nat) (segs : list Z) (longest current : Span) : Span :=
  match segs with
  | [] => longest
  | segment :: segs =>
      if segment =? 0 then
        let current :=
          {| start := if (len current =? 0)%nat then i else start current;
             len := S (len current) |} in
        let longest := if (len longest <? len current)%nat then current else longest in
        find_zeroes (S i) segs longest current
      else find_zeroes (S i) segs longest no_span
  end.
Definition zeroes (segs : list Z) : Span := find_zeroes 0 segs no_span no_span.

Definition fmt_subslice (chunk : list Z) : list byte :=
  match chunk with
  | first :: tail => fmt_hex first ++ (tail ≫= fun segment => c_colon :: fmt_hex segment)
  | [] => []
  end.

(** The text that the fast path writes *)
Definition text (a : Ipv6Addr) : panics (list byte) :=
  let segs := segments a in
  if is_unspecified a then Done [c_colon; c_colon]
  else if is_loopback a then Done [c_colon; c_colon; digit_char 1]
  else
    match to_ipv4 a with
    | Some ipv4 =>
        match segs !!! 5%nat with
        | 0 => Done ([c_colon; c_colon] ++ Ipv4.text ipv4)
        | 0xffff => Done ([c_colon; c_colon] ++ replicate 4 (digit_char 15) ++ [c_colon] ++ Ipv4.text ipv4)
        | _ => Panic
        end
    | None =>
        let z := zeroes segs in
        if (1 <? len z)%nat then
          Done (fmt_subslice (take (start z) segs) ++ [c_colon; c_colon]
                ++ fmt_subslice (drop (start z + len z) segs))
        else Done (fmt_subslice segs)
    end.
Definition IPV6_BUF_LEN : nat := 4 * 8 + 7.
Definition fmt (f : Formatter) (a : Ipv6Addr) : panics (list byte) :=
  if no_alignment f then text a
  else
    panics_bind (text a) (fun t =>
    panics_bind (write_buf IPV6_BUF_LEN t) (fun buf => Done (pad f buf))).

End Ipv6.

Module Ip.

Definition is_unspecified (a : IpAddr) : bool :=
  match a with V4 ip => Ipv4.is_unspecified ip | V6 ip => Ipv6.is_unspecified ip end.
Definition is_loopback (a : IpAddr) : bool :=
  match a with V4 ip => Ipv4.is_loopback ip | V6 ip => Ipv6.is_loopback ip end.
Definition is_global (a : IpAddr) : bool :=
  match a with V4 ip => Ipv4.is_global ip | V6 ip => Ipv6.is_global ip end.
Definition is_multicast (a : IpAddr) : bool :=
  match a with V4 ip => Ipv4.is_multicast ip | V6 ip => Ipv6.is_multicast ip end.
Definition is_documentation (a : IpAddr) : bool :=
  match a with V4 ip => Ipv4.is_documentation ip | V6 ip => Ipv6.is_documentation ip end.
Definition is_benchmarking (a : IpAddr) : bool :=
  match a with V4 ip => Ipv4.is_benchmarking ip | V6 ip => Ipv6.is_benchmarking ip end.
Definition is_ipv4 (a : IpAddr) : bool := match a with V4 _ => true | V6 _ => false end.
Definition is_ipv6 (a : IpAddr) : bool := match a with V6 _ => true | V4 _ => false end.
Definition to_canonical (a : IpAddr) : IpAddr :=
  match a with V4 _ => a | V6 v6 => Ipv6.to_canonical v6 end.

Definition fmt (f : Formatter) (a : IpAddr) : panics (list byte) :=
  match a with V4 ip => Ipv4.fmt f ip | V6 ip => Ipv6.fmt f ip end.

(** The derived [Ord], and the comparisons with an address of one family *)
Definition cmp (a b : IpAddr) : comparison :=
  match a, b with
  | V4 a, V4 b => Ipv4.cmp a b
  | V4 _, V6 _ => Lt
  | V6 _, V4 _ => Gt
  | V6 a, V6 b => Ipv6.cmp a b
  end.
Definition eq_v4 (a : IpAddr) (b : Ipv4Addr) : bool :=
  match a with V4 v4 => Ipv4.eq v4 b | V6 _ => false end.
Definition eq_v6 (a : IpAddr) (b : Ipv6Addr) : bool :=
  match a with V4 _ => false | V6 v6 => Ipv6.eq v6 b end.
Definition cmp_v4 (a : IpAddr) (b : Ipv4Addr) : comparison :=
  match a with V4 v4 => Ipv4.cmp v4 b | V6 _ => Gt end.
Definition cmp_v6 (a : IpAddr) (b : Ipv6Addr) : comparison :=
  match a with V4 _ => Lt | V6 v6 => Ipv6.cmp v6 b end.

End Ip.
