(* ===== verification/NetSock.v ===== *)
(** NetSock: socket addresses, sgx_tstd/src/net/addr.rs, and how a name becomes
    addresses (addr.rs, net/mod.rs, sys_common/net.rs).

    A socket address is the C structure it wraps, with the port in network byte
    order.  [getaddrinfo] is a parameter: the list of C addresses it yields for a
    host, or its error. *)
From Stdlib Require Import ZArith Lia Strings.Byte.
From stdpp Require Import base numbers list option tactics.
From S2P Require Import Prelude NetIp.

Definition AF_INET : Z := 2.
Definition AF_INET6 : Z := 10.

(** [c::sockaddr_in] and [c::sockaddr_in6] *)
Record SocketAddrV4 := {
  sin_family : Z;
  sin_port : Z;
  sin_addr : Ipv4Addr;
  sin_zero : list byte
}.
Record SocketAddrV6 := {
  sin6_family : Z;
  sin6_port : Z;
  sin6_flowinfo : Z;
  sin6_addr : Ipv6Addr;
  sin6_scope_id : Z
}.

Inductive SocketAddr :=
| SV4 (a : SocketAddrV4)
| SV6 (a : SocketAddrV6).

Definition htons (i : Z) : Z := to_be16 i.
Definition ntohs (i : Z) : Z := from_be16 i.

Module SockV4.

Definition new (ip : Ipv4Addr) (port : Z) : SocketAddrV4 :=
  {| sin_family := AF_INET; sin_port := htons port; sin_addr := ip; sin_zero := zeros 8 |}.
Definition ip (a : SocketAddrV4) : Ipv4Addr := sin_addr a.
Definition set_ip (new_ip : Ipv4Addr) (a : SocketAddrV4) : SocketAddrV4 :=
  {| sin_family := sin_family a; sin_port := sin_port a; sin_addr := new_ip; sin_zero := sin_zero a |}.
Definition port (a : SocketAddrV4) : Z := ntohs (sin_port a).
Definition set_port (new_port : Z) (a : SocketAddrV4) : SocketAddrV4 :=
  {| sin_family := sin_family a; sin_port := htons new_port; sin_addr := sin_addr a; sin_zero := sin_zero a |}.

Definition text (a : SocketAddrV4) : list byte :=
  Ipv4.text (ip a) ++ [c_colon] ++ fmt_dec (port a).
Definition IPV4_SOCKET_BUF_LEN : nat := 3 * 4 + 3 + 1 + 5.
Definition fmt (f : Formatter) (a : SocketAddrV4) : panics (list byte) :=
  if no_alignment f then Done (text a)
  else panics_bind (write_buf IPV4_SOCKET_BUF_LEN (text a)) (fun buf => Done (pad f buf)).

(** [PartialEq], [Ord], and what [Hash] feeds to the hasher *)
Definition eq (a b : SocketAddrV4) : bool :=
  (sin_port a =? sin_port b) && (s_addr (sin_addr a) =? s_addr (sin_addr b)).
Definition cmp (a b : SocketAddrV4) : comparison :=
  match Ipv4.cmp (ip a) (ip b) with Eq => port a ?= port b | o => o end.
Definition hash_key (a : SocketAddrV4) : Z * Z := (sin_port a, s_addr (sin_addr a)).

End SockV4.

Module SockV6.

Definition new (ip : Ipv6Addr) (port flowinfo scope_id : Z) : SocketAddrV6 :=
  {| sin6_family := AF_INET6; sin6_port := htons port; sin6_flowinfo := flowinfo;
     sin6_addr := ip; sin6_scope_id := scope_id |}.
Definition ip (a : SocketAddrV6) : Ipv6Addr := sin6_addr a.
Definition set_ip (new_ip : Ipv6Addr) (a : SocketAddrV6) : SocketAddrV6 :=
  {| sin6_family := sin6_family a; sin6_port := sin6_port a; sin6_flowinfo := sin6_flowinfo a;
     sin6_addr := new_ip; sin6_scope_id := sin6_scope_id a |}.
Definition port (a : SocketAddrV6) : Z := ntohs (sin6_port a).
Definition set_port (new_port : Z) (a : SocketAddrV6) : SocketAddrV6 :=
  {| sin6_family := sin6_family a; sin6_port := htons new_port; sin6_flowinfo := sin6_flowinfo a;
     sin6_addr := sin6_addr a; sin6_scope_id := sin6_scope_id a |}.
Definition flowinfo (a : SocketAddrV6) : Z := sin6_flowinfo a.
Definition set_flowinfo (v : Z) (a : SocketAddrV6) : SocketAddrV6 :=
  {| sin6_family := sin6_family a; sin6_port := sin6_port a; sin6_flowinfo := v;
     sin6_addr := sin6_addr a; sin6_scope_id := sin6_scope_id a |}.
Definition scope_id (a : SocketAddrV6) : Z := sin6_scope_id a.
Definition set_scope_id (v : Z) (a : SocketAddrV6) : SocketAddrV6 :=
  {| sin6_family := sin6_family a; sin6_port := sin6_port a; sin6_flowinfo := sin6_flowinfo a;
     sin6_addr := sin6_addr a; sin6_scope_id := v |}.

Definition text (a : SocketAddrV6) : panics (list byte) :=
  panics_bind (Ipv6.fmt plain (ip a)) (fun t =>
  match scope_id a with
  | 0 => Done ([c_open] ++ t ++ [c_close; c_colon] ++ fmt_dec (port a))
  | scope_id => Done ([c_open] ++ t ++ [c_percent] ++ fmt_dec scope_id ++ [c_close; c_colon] ++ fmt_dec (port a))
  end).
Definition IPV6_SOCKET_BUF_LEN : nat := 4 * 8 + 7 + 2 + 1 + 10 + 1 + 5.
Definition fmt (f : Formatter) (a : SocketAddrV6) : panics (list byte) :=
  if no_alignment f then text a
  else
    panics_bind (text a) (fun t =>
    panics_bind (write_buf IPV6_SOCKET_BUF_LEN t) (fun buf => Done (pad f buf))).

Definition eq (a b : SocketAddrV6) : bool :=
  (sin6_port a =? sin6_port b)
  && bool_decide (s6_addr (sin6_addr a) = s6_addr (sin6_addr b))
  && (sin6_flowinfo a =? sin6_flowinfo b)
  && (sin6_scope_id a =? sin6_scope_id b).
Definition cmp (a b : SocketAddrV6) : comparison :=
  match Ipv6.cmp (ip a) (ip b) with Eq => port a ?= port b | o => o end.
Definition hash_key (a : SocketAddrV6) : Z * list byte * Z * Z :=
  (sin6_port a, s6_addr (sin6_addr a), sin6_flowinfo a, sin6_scope_id a).

End SockV6.

Module Sock.

Definition new (ip : IpAddr) (port : Z) : SocketAddr :=
  match ip with
  | V4 a => SV4 (SockV4.new a port)
  | V6 a => SV6 (SockV6.new a port 0 0)
  end.
Definition ip (a : SocketAddr) : IpAddr :=
  match a with SV4 a => V4 (SockV4.ip a) | SV6 a => V6 (SockV6.ip a) end.
Definition port (a : SocketAddr) : Z :=
  match a with SV4 a => SockV4.port a | SV6 a => SockV6.port a end.
Definition set_ip (new_ip : IpAddr) (a : SocketAddr) : SocketAddr :=
  match a, new_ip with
  | SV4 a, V4 new_ip => SV4 (SockV4.set_ip new_ip a)
  | SV6 a, V6 new_ip => SV6 (SockV6.set_ip new_ip a)
  | self_, new_ip => new new_ip (port self_)
  end.
Definition set_port (new_port : Z) (a : SocketAddr) : SocketAddr :=
  match a with
  | SV4 a => SV4 (SockV4.set_port new_port a)
  | SV6 a => SV6 (SockV6.set_port new_port a)
  end.
Definition is_ipv4 (a : SocketAddr) : bool := match a with SV4 _ => true | SV6 _ => false end.
Definition is_ipv6 (a : SocketAddr) : bool := match a with SV6 _ => true | SV4 _ => false end.

Definition fmt (f : Formatter) (a : SocketAddr) : panics (list byte) :=
  match a with SV4 a => SockV4.fmt f a | SV6 a => SockV6.fmt f a end.

(** The derived [PartialEq] and [Ord] *)
Definition eq (a b : SocketAddr) : bool :=
  match a, b with
  | SV4 a, SV4 b => SockV4.eq a b
  | SV6 a, SV6 b => SockV6.eq a b
  | _, _ => false
  end.
Definition cmp (a b : SocketAddr) : comparison :=
  match a, b with
  | SV4 a, SV4 b => SockV4.cmp a b
  | SV4 _, SV6 _ => Lt
  | SV6 _, SV4 _ => Gt
  | SV6 a, SV6 b => SockV6.cmp a b
  end.

End Sock.
