(* ===== verification/NetParser.v ===== *)
(** NetParser: the parser of addresses, sgx_tstd/src/net/parser.rs.

    A [Parser] is the bytes that are left.  A parser returns an [Option] and
    changes the state also when it fails, except through [read_atomically], which
    restores it; the [let?] of this file is the code's [?]. *)
From Stdlib Require Import ZArith Lia Strings.Byte.
From stdpp Require Import base numbers list option tactics.
From S2P Require Import Prelude NetIp NetSock.

Definition parser (A : Type) : Type := ST (list byte) (option A).

Definition p_some {A} (a : A) : parser A := st_ret (Some a).
Definition p_none {A} : parser A := st_ret None.
Definition p_bind {A B} (m : parser A) (k : A -> parser B) : parser B :=
  st_bind m (fun o => match o with Some a => k a | None => p_none end).

Declare Scope parser_scope.
Notation "'let?' x := m 'in' k" := (p_bind m (fun x => k))
  (at level 10, x pattern, k at level 200) : parser_scope.
Local Open Scope parser_scope.

(** [AddrParseError(())] *)
Inductive AddrParseError := BadAddr.

(** [char::to_digit] for a radix of at most 36 *)
Definition to_digit (radix : Z) (c : byte) : option Z :=
  let z := byte_val c in
  let d :=
    if (48 <=? z) && (z <=? 57) then Some (z - 48)
    else if (97 <=? z) && (z <=? 122) then Some (z - 97 + 10)
    else if (65 <=? z) && (z <=? 90) then Some (z - 65 + 10)
    else None in
  match d with
  | Some d => if d <? radix then Some d else None
  | None => None
  end.

(** [ReadNumberHelper] of the unsigned type of width [w]: the other operand is a
    [u32] that is first converted. *)
Definition try_into (w z : Z) : option Z := if z <=? umax w then Some z else None.
Definition checked_mul (w x other : Z) : option Z := y ← try_into w other; try_into w (x * y).
Definition checked_add (w x other : Z) : option Z := y ← try_into w other; try_into w (x + y).

Definition read_atomically {A} (inner : parser A) : parser A := fun state =>
  match inner state with
  | (None, _) => (None, state)
  | r => r
  end.

Definition parse_with {A} (inner : parser A) (input : list byte) : result AddrParseError A :=
  let '(result, state) := inner input in
  match (if bool_decide (state = []) then result else None) with
  | Some a => Ok a
  | None => Err BadAddr
  end.

Definition peek_char : parser byte := fun state => (head state, state).
Definition read_char : parser byte := fun state =>
  match state with
  | b :: tail => (Some b, tail)
  | [] => (None, [])
  end.
Definition read_given_char (target : byte) : parser unit :=
  read_atomically (
    let? c := read_char in
    if decide (c = target) then p_some tt else p_none).

Definition read_separator {A} (sep : byte) (index : nat) (inner : parser A) : parser A :=
  read_atomically (
    let? _ := if (0 <? index)%nat then read_given_char sep else p_some tt in
    inner).

(** The loop of [read_number]: it goes on as long as the next character is a
    digit, which it takes.  It yields the number and the count of digits. *)
Fixpoint read_digits (w radix : Z) (max_digits : option nat)
    (result : Z) (digit_count : nat) (state : list byte) : option (Z * nat) * list byte :=
  match state with
  | [] => (Some (result, digit_count), [])
  | b :: tail =>
      match to_digit radix b with
      | None => (Some (result, digit_count), state)
      | Some digit =>
          match (r ← checked_mul w result radix; checked_add w r digit) with
          | None => (None, tail)
          | Some result =>
              let digit_count := S digit_count in
              match max_digits with
              | Some max =>
                  if (max <? digit_count)%nat then (None, tail)
                  else read_digits w radix max_digits result digit_count tail
              | None => read_digits w radix max_digits result digit_count tail
              end
          end
      end
  end.

Definition read_number (w radix : Z) (max_digits : option nat) (allow_zero_prefix : bool) : parser Z :=
  read_atomically (fun state =>
    let has_leading_zero := bool_decide ((peek_char state).1 = Some c_zero) in
    (let? (result, digit_count) := read_digits w radix max_digits 0 0 in
     if (digit_count =? 0)%nat then p_none
     else if negb allow_zero_prefix && has_leading_zero && (1 <? digit_count)%nat then p_none
     else p_some result) state).

(** The loop of [read_ipv4_addr]: [k] groups from index [i] on *)
Fixpoint read_octets (k i : nat) : parser (list Z) :=
  match k with
  | O => p_some []
  | S k =>
      let? slot := read_separator c_dot i (read_number 8 10 (Some 3%nat) false) in
      let? groups := read_octets k (S i) in
      p_some (slot :: groups)
  end.

Definition read_ipv4_addr : parser Ipv4Addr :=
  read_atomically (
    let? groups := read_octets 4 0 in
    p_some (Ipv4.from_octets (byte_of <$> groups))).

(** [read_groups]: what is left of the loop is [k] groups from index [i] on; the
    result is the groups, their number and whether an IPv4 address ended them. *)
Fixpoint read_groups_from (k i limit : nat) (groups : list Z)
    (state : list byte) : (list Z * (nat * bool)) * list byte :=
  match k with
  | O => ((groups, (length groups, false)), state)
  | S k =>
      let '(ipv4, state) :=
        if (i <? limit - 1)%nat then read_separator c_colon i read_ipv4_addr state
        else (None, state) in
      match ipv4 with
      | Some v4_addr =>
          let o := Ipv4.octets v4_addr in
          let groups := <[i := be_val [o !!! 0%nat; o !!! 1%nat]]> groups in
          let groups := <[S i := be_val [o !!! 2%nat; o !!! 3%nat]]> groups in
          ((groups, (i + 2, true)%nat), state)
      | None =>
          let '(group, state) := read_separator c_colon i (read_number 16 16 (Some 4%nat) true) state in
          match group with
          | Some g => read_groups_from k (S i) limit (<[i := g]> groups) state
          | None => ((groups, (i, false)), state)
          end
      end
  end.
Definition read_groups (groups : list Z) : ST (list byte) (list Z * (nat * bool)) :=
  let limit := length groups in read_groups_from limit 0 limit groups.

Definition read_ipv6_addr : parser Ipv6Addr :=
  read_atomically (
    let* (head, (head_size, head_ipv4)) := read_groups (replicate 8 0) in
    if (head_size =? 8)%nat then p_some (Ipv6.from_segments head)
    else if head_ipv4 then p_none
    else
      let? _ := read_given_char c_colon in
      let? _ := read_given_char c_colon in
      let limit := (8 - (head_size + 1))%nat in
      let* (tail, (tail_size, _)) := read_groups (take limit (replicate 7 0)) in
      let head := take (8 - tail_size) head ++ take tail_size tail in
      p_some (Ipv6.from_segments head)).

(** [self.a().map(f).or_else(|| self.b().map(g))] *)
Definition p_or {A B C} (f : A -> C) (a : parser A) (g : B -> C) (b : parser B) : parser C := fun state =>
  match a state with
  | (Some x, state) => (Some (f x), state)
  | (None, state) => let '(y, state) := b state in (g <$> y, state)
  end.

Definition read_ip_addr : parser IpAddr := p_or V4 read_ipv4_addr V6 read_ipv6_addr.

Definition read_port : parser Z :=
  read_atomically (
    let? _ := read_given_char c_colon in
    read_number 16 10 None true).

Definition read_scope_id : parser Z :=
  read_atomically (
    let? _ := read_given_char c_percent in
    read_number 32 10 None true).

Definition read_socket_addr_v4 : parser SocketAddrV4 :=
  read_atomically (
    let? ip := read_ipv4_addr in
    let? port := read_port in
    p_some (SockV4.new ip port)).

Definition read_socket_addr_v6 : parser SocketAddrV6 :=
  read_atomically (
    let? _ := read_given_char c_open in
    let? ip := read_ipv6_addr in
    let* scope_id := read_scope_id in
    let scope_id := default 0 scope_id in
    let? _ := read_given_char c_close in
    let? port := read_port in
    p_some (SockV6.new ip port 0 scope_id)).

Definition read_socket_addr : parser SocketAddr :=
  p_or SV4 read_socket_addr_v4 SV6 read_socket_addr_v6.

(** The six [FromStr] implementations *)
Definition ip_from_str : list byte -> result AddrParseError IpAddr := parse_with read_ip_addr.
Definition ipv4_from_str (s : list byte) : result AddrParseError Ipv4Addr :=
  if (15 <? length s)%nat then Err BadAddr else parse_with read_ipv4_addr s.
Definition ipv6_from_str : list byte -> result AddrParseError Ipv6Addr := parse_with read_ipv6_addr.
Definition sock4_from_str : list byte -> result AddrParseError SocketAddrV4 := parse_with read_socket_addr_v4.
Definition sock6_from_str : list byte -> result AddrParseError SocketAddrV6 := parse_with read_socket_addr_v6.
Definition sock_from_str : list byte -> result AddrParseError SocketAddr := parse_with read_socket_addr.
