(* ===== verification/NetText.v ===== *)
(** NetText: printed numbers and [read_number] are inverse to each other.

    A text of digits is [digit_char <$> ds] for a list of digit values [ds];
    [num] is the number it denotes.  [read_number_run] is the parser on such a
    text; [read_number_dec] is the converse for decimals: what it accepts without
    leading zeros is exactly what [fmt_dec] prints. *)
From Stdlib Require Import ZArith Lia Strings.Byte.
From stdpp Require Import base numbers list option tactics.
From S2P Require Import Prelude NetIp NetSock NetParser.

(** * Digits *)
Definition num (radix : Z) (acc : Z) (ds : list Z) : Z :=
  fold_left (fun a d => a * radix + d) ds acc.

Definition digits (radix : Z) (ds : list Z) : Prop := Forall (fun d => 0 <= d < radix) ds.

(** No leading zero *)
Definition canonical (ds : list Z) : Prop := ds = [0] \/ exists d ds', ds = d :: ds' /\ 0 < d.

(** The next character, if any, is not a digit. *)
Definition stops (radix : Z) (s : list byte) : Prop :=
  match s with [] => True | b :: _ => to_digit radix b = None end.

Lemma to_digit_char radix d : 0 <= d < radix -> radix <= 36 -> to_digit radix (digit_char d) = Some d.
Proof.
  intros Hd Hr. unfold to_digit, digit_char. rewrite byte_val_of.
  destruct (d <? 10) eqn:E; rewrite Z.mod_small by lia.
  - assert ((48 <=? 48 + d) = true) as -> by lia.
    assert ((48 + d <=? 57) = true) as -> by lia. simpl.
    assert ((48 + d - 48 <? radix) = true) as -> by lia. f_equal. lia.
  - assert ((48 <=? 87 + d) = true) as -> by lia.
    assert ((87 + d <=? 57) = false) as -> by lia.
    assert ((97 <=? 87 + d) = true) as -> by lia.
    assert ((87 + d <=? 122) = true) as -> by lia. simpl.
    assert ((87 + d - 97 + 10 <? radix) = true) as -> by lia. f_equal. lia.
Qed.

Lemma to_digit_dec_inv b d : to_digit 10 b = Some d -> 0 <= d < 10 /\ b = digit_char d.
Proof.
  unfold to_digit. intros H.
  destruct ((48 <=? byte_val b) && (byte_val b <=? 57)) eqn:E1.
  - apply andb_true_iff in E1 as [? ?].
    destruct (byte_val b - 48 <? 10) eqn:E; simplify_eq.
    split; [lia|]. apply byte_val_inj. unfold digit_char. rewrite E, byte_val_of.
    rewrite Z.mod_small; lia.
  - destruct (_ && _) eqn:E2 in H.
    + apply andb_true_iff in E2 as [? ?]. destruct (_ <? 10) eqn:E3 in H; [lia|done].
    + destruct (_ && _) eqn:E4 in H; [|done].
      apply andb_true_iff in E4 as [? ?]. destruct (_ <? 10) eqn:E3 in H; [lia|done].
Qed.

(** A decimal digit is a hexadecimal one. *)
Lemma stops_16_10 s : stops 16 s -> stops 10 s.
Proof.
  destruct s as [|b s]; simpl; [done|]. unfold to_digit.
  repeat destruct (_ && _); simpl; try done;
    destruct (_ <? 16) eqn:E1; try done; destruct (_ <? 10) eqn:E2; try done; lia.
Qed.

Lemma num_app radix acc ds ds' : num radix acc (ds ++ ds') = num radix (num radix acc ds) ds'.
Proof. apply fold_left_app. Qed.

Lemma num_ge radix acc ds : 1 <= radix -> 0 <= acc -> digits radix ds -> acc <= num radix acc ds.
Proof.
  intros Hr. revert acc. induction ds as [|d ds IH]; intros acc Ha Hds; simpl; [lia|].
  apply Forall_cons_1 in Hds as [Hd Hds].
  specialize (IH (acc * radix + d) ltac:(nia) Hds). unfold num in *. nia.
Qed.

(** * Printing *)
Fixpoint digits_of (fuel : nat) (radix z : Z) : list Z :=
  match fuel with
  | O => []
  | S fuel => if z <? radix then [z] else digits_of fuel radix (z / radix) ++ [z `mod` radix]
  end.

Lemma fmt_digits_of fuel radix z : fmt_digits fuel radix z = digit_char <$> digits_of fuel radix z.
Proof.
  revert z. induction fuel as [|fuel IH]; intros z; simpl; [done|].
  destruct (z <? radix); [done|]. by rewrite IH, fmap_app.
Qed.

Section digits_of.
Context (radix : Z) (Hr : 2 <= radix).

Lemma half_fuel fuel z : radix <= z < 2 ^ Z.of_nat (S fuel) -> 0 <= z / radix < 2 ^ Z.of_nat fuel.
Proof.
  replace (Z.of_nat (S fuel)) with (Z.succ (Z.of_nat fuel)) by lia.
  rewrite Z.pow_succ_r by lia. intros Hz. split; [apply Z.div_pos; lia|].
  apply Z.div_lt_upper_bound; [lia|].
  pose proof (Z.pow_pos_nonneg 2 (Z.of_nat fuel)). nia.
Qed.

Lemma digits_of_spec fuel z :
  0 <= z < 2 ^ Z.of_nat fuel ->
  (0 < fuel)%nat ->
  digits radix (digits_of fuel radix z) /\ num radix 0 (digits_of fuel radix z) = z /\
  canonical (digits_of fuel radix z).
Proof.
  revert z. induction fuel as [|fuel IH]; intros z Hz Hf; [lia|]. simpl.
  destruct (z <? radix) eqn:E.
  - split; [by repeat constructor; lia|]. split; [done|].
    destruct (decide (z = 0)) as [->|]; [by left|]. right. exists z, []. split; [done|lia].
  - pose proof (half_fuel fuel z ltac:(lia)) as Hh.
    assert (0 < fuel)%nat as Hf'.
    { destruct fuel; [|lia]. change (2 ^ Z.of_nat 1) with 2 in Hz. lia. }
    destruct (IH _ Hh Hf') as (Hd & Hn & Hc).
    pose proof (Z.mod_pos_bound z radix). split; [|split].
    + apply Forall_app. split; [done|]. repeat constructor; lia.
    + rewrite num_app, Hn. simpl. pose proof (Z.div_mod z radix). unfold num. simpl. lia.
    + right. destruct Hc as [Hc|(d & ds' & Hc & Hd0)].
      * rewrite Hc in Hn. simpl in Hn. symmetry in Hn. change (num radix 0 [0]) with 0 in Hn.
        apply Z.div_small_iff in Hn; lia.
      * rewrite Hc. exists d, (ds' ++ [z `mod` radix]). done.
Qed.

(** Digits without leading zeros are the printed ones. *)
Lemma canonical_digits fuel ds :
  digits radix ds -> canonical ds -> num radix 0 ds < 2 ^ Z.of_nat fuel -> (0 < fuel)%nat ->
  ds = digits_of fuel radix (num radix 0 ds).
Proof.
  revert fuel. induction ds as [|d ds IH] using rev_ind; intros fuel Hd Hc Hz Hf.
  { destruct Hc as [|(?&?&?&?)]; done. }
  apply Forall_app in Hd as [Hds Hd]. apply Forall_cons_1 in Hd as [Hd _].
  destruct fuel as [|fuel]; [lia|].
  pose proof (num_ge radix 0 ds ltac:(lia) ltac:(lia) Hds) as Hge.
  rewrite num_app in Hz |- *. set (n := num radix 0 ds) in *.
  change (num radix n [d]) with (n * radix + d) in *.
  destruct (decide (ds = [])) as [->|Hne].
  { cbn [app] in *. change n with 0. change (0 * radix + d) with d. cbn [digits_of].
    by assert ((d <? radix) = true) as -> by lia. }
  assert (canonical ds /\ 0 < n) as [Hc' Hn].
  { destruct Hc as [Hc|(d0 & ds' & Hc & Hd0)].
    - destruct ds as [|? [|]]; simpl in Hc; simplify_eq.
    - destruct ds as [|d1 ds1]; [done|]. simpl in Hc. simplify_eq.
      split; [right; eauto|]. apply Forall_cons_1 in Hds as [Hd1 Hds1].
      pose proof (num_ge radix d0 ds1 ltac:(lia) ltac:(lia) Hds1) as Hge1.
      subst n. unfold num in *. cbn [fold_left]. change (0 * radix + d0) with d0. lia. }
  simpl. assert ((n * radix + d <? radix) = false) as -> by nia.
  rewrite Z.div_add_l, (Z.div_small d), Z.add_0_r by lia.
  rewrite (Z.add_comm _ d), Z.mod_add, (Z.mod_small d) by lia.
  pose proof (half_fuel fuel (n * radix + d) ltac:(nia)) as Hh.
  rewrite Z.div_add_l, (Z.div_small d), Z.add_0_r in Hh by lia.
  f_equal. apply IH; [done..|lia|].
  destruct fuel; [|lia]. change (2 ^ Z.of_nat 0) with 1 in Hh. lia.
Qed.

(** The number of digits *)
Lemma length_canonical n ds :
  digits radix ds -> canonical ds -> num radix 0 ds < radix ^ Z.of_nat n -> (0 < n)%nat ->
  (length ds <= n)%nat.
Proof.
  revert n. induction ds as [|d ds IH] using rev_ind; intros n Hd Hc Hz Hn; [simpl; lia|].
  apply Forall_app in Hd as [Hds Hd]. apply Forall_cons_1 in Hd as [Hd _].
  pose proof (num_ge radix 0 ds ltac:(lia) ltac:(lia) Hds) as Hge.
  rewrite num_app in Hz. set (m := num radix 0 ds) in *.
  change (num radix m [d]) with (m * radix + d) in *.
  rewrite length_app. simpl. destruct n as [|n]; [lia|].
  replace (Z.of_nat (S n)) with (Z.succ (Z.of_nat n)) in Hz by lia.
  rewrite Z.pow_succ_r in Hz by lia.
  destruct ds as [|d0 ds0]; [simpl; lia|].
  assert (0 < d0) as Hd0.
  { destruct Hc as [Hc|(? & ? & Hc & ?)]; simpl in Hc; simplify_eq; [|lia].
    destruct ds0; simplify_eq. }
  assert (0 < m) as Hm.
  { apply Forall_cons_1 in Hds as [Hd1 Hds1].
    pose proof (num_ge radix d0 ds0 ltac:(lia) ltac:(lia) Hds1). subst m.
    unfold num in *. cbn [fold_left]. change (0 * radix + d0) with d0. lia. }
  assert (m < radix ^ Z.of_nat n) as Hmn by nia.
  assert (0 < n)%nat as Hn0.
  { destruct n; [|lia]. change (radix ^ Z.of_nat 0) with 1 in Hmn. lia. }
  specialize (IH n Hds ltac:(right; eauto) Hmn Hn0). simpl in *. lia.
Qed.
End digits_of.

Lemma log2_fuel z : 0 <= z -> 0 <= z < 2 ^ Z.of_nat (S (Z.to_nat (Z.log2 z))).
Proof.
  intros Hz. split; [done|]. pose proof (Z.log2_nonneg z).
  replace (Z.of_nat (S (Z.to_nat (Z.log2 z)))) with (Z.succ (Z.log2 z)) by lia.
  destruct (decide (z = 0)) as [->|]; [done|]. apply Z.log2_spec. lia.
Qed.

(** What the formatter prints: the digits without leading zeros. *)
Lemma fmt_radix_spec radix z : 2 <= radix -> 0 <= z ->
  exists ds, fmt_radix radix z = digit_char <$> ds /\ digits radix ds /\ num radix 0 ds = z /\
    canonical ds.
Proof.
  intros Hr Hz. unfold fmt_radix.
  destruct (digits_of_spec radix Hr _ z (log2_fuel z Hz) ltac:(lia)) as (Hd & Hn & Hc).
  eexists. split; [apply fmt_digits_of|]. done.
Qed.

Lemma fmt_radix_unique radix ds : 2 <= radix -> digits radix ds -> canonical ds ->
  digit_char <$> ds = fmt_radix radix (num radix 0 ds).
Proof.
  intros Hr Hd Hc. unfold fmt_radix. rewrite fmt_digits_of. f_equal.
  apply canonical_digits; [done..| |lia]. apply log2_fuel, num_ge; [lia|lia|done].
Qed.

Lemma length_fmt_radix radix z n : 2 <= radix -> 0 <= z < radix ^ Z.of_nat n -> (0 < n)%nat ->
  (1 <= length (fmt_radix radix z) <= n)%nat.
Proof.
  intros Hr Hz Hn. destruct (fmt_radix_spec radix z Hr ltac:(lia)) as (ds & -> & Hd & <- & Hc).
  rewrite length_fmap. split; [|apply (length_canonical radix); [lia|done..|lia|lia]].
  destruct Hc as [->|(? & ? & -> & _)]; simpl; lia.
Qed.

(** * Reading *)
Definition within (max : option nat) (n : nat) : Prop :=
  match max with Some m => (n <= m)%nat | None => True end.

Lemma read_digits_run w radix max acc c ds rest :
  2 <= radix <= 36 -> radix <= umax w -> 0 <= acc -> digits radix ds -> stops radix rest ->
  num radix acc ds <= umax w -> within max (c + length ds) ->
  read_digits w radix max acc c ((digit_char <$> ds) ++ rest) =
    (Some (num radix acc ds, (c + length ds)%nat), rest).
Proof.
  intros Hr Hw. revert acc c.
  induction ds as [|d ds IH]; intros acc c Ha Hds Hs Hn Hmax.
  - rewrite Nat.add_0_r. destruct rest as [|b rest]; simpl; [done|]. simpl in Hs. by rewrite Hs.
  - apply Forall_cons_1 in Hds as [Hd Hds]. rewrite fmap_cons, <- app_comm_cons.
    cbn [read_digits]. rewrite to_digit_char by lia.
    pose proof (num_ge radix (acc * radix + d) ds ltac:(lia) ltac:(nia) Hds) as Hge.
    change (num radix acc (d :: ds)) with (num radix (acc * radix + d) ds) in *.
    unfold checked_mul, checked_add, try_into.
    assert ((radix <=? umax w) = true) as -> by lia. cbn [mbind option_bind].
    assert ((acc * radix <=? umax w) = true) as -> by lia. cbn [mbind option_bind].
    assert ((d <=? umax w) = true) as -> by lia. cbn [mbind option_bind].
    assert ((acc * radix + d <=? umax w) = true) as -> by lia. cbn [mbind option_bind].
    assert (within max (S c + length ds)) as Hmax'.
    { destruct max; simpl in *; [lia|done]. }
    rewrite (IH _ (S c)) by (done || lia || nia).
    replace (c + length (d :: ds))%nat with (S c + length ds)%nat by (simpl; lia).
    destruct max as [m|]; [|done]. simpl in Hmax.
    by assert ((m <? S c)%nat = false) as -> by (apply Nat.ltb_ge; lia).
Qed.

(** [read_number] gives back a printed number, whatever follows it. *)
Lemma read_number_run w radix max allow z rest :
  2 <= radix <= 36 -> radix <= umax w -> 0 <= z <= umax w -> stops radix rest ->
  within max (length (fmt_radix radix z)) ->
  read_number w radix max allow (fmt_radix radix z ++ rest) = (Some z, rest).
Proof.
  intros Hr Hw Hz Hs Hmax.
  destruct (fmt_radix_spec radix z ltac:(lia) ltac:(lia)) as (ds & E & Hd & Hn & Hc).
  rewrite E in *. rewrite length_fmap in Hmax.
  unfold read_number, read_atomically, p_bind, st_bind, peek_char.
  rewrite read_digits_run by (done || lia). rewrite Hn. cbn [fst snd Nat.add].
  destruct (Nat.eqb_spec (length ds) 0) as [Hl|Hl].
  { destruct Hc as [->|(?&?&->&?)]; done. }
  destruct (negb allow && _ && _) eqn:Eb; [|done].
  apply andb_true_iff in Eb as [Eb Hlt]. apply andb_true_iff in Eb as [_ Eb].
  apply bool_decide_eq_true in Eb. apply Nat.ltb_lt in Hlt.
  destruct Hc as [->|(d & ds' & -> & Hd0)]; [simpl in Hlt; lia|].
  simpl in Eb. simplify_eq. apply Forall_cons_1 in Hd as [Hd _].
  apply (f_equal (to_digit radix)) in Eb. rewrite to_digit_char in Eb by lia.
  change c_zero with (digit_char 0) in Eb. rewrite to_digit_char in Eb by lia. naive_solver lia.
Qed.

Lemma read_number_stops w radix max allow s :
  stops radix s -> read_number w radix max allow s = (None, s).
Proof.
  intros Hs. unfold read_number, read_atomically, p_bind, st_bind.
  destruct s as [|b s]; simpl in *; [done|]. by rewrite Hs.
Qed.

Lemma try_into_Some w z y : try_into w z = Some y -> y = z.
Proof. unfold try_into. case_match; naive_solver. Qed.

(** The digits that were read, for a decimal *)
Lemma read_digits_inv w max acc c s r rest :
  read_digits w 10 max acc c s = (Some r, rest) ->
  exists ds, s = (digit_char <$> ds) ++ rest /\ digits 10 ds /\ stops 10 rest /\
    r = (num 10 acc ds, (c + length ds)%nat).
Proof.
  revert acc c. induction s as [|b s IH]; intros acc c H; simpl in H.
  { simplify_eq. exists []. rewrite Nat.add_0_r. repeat split; [constructor]. }
  destruct (to_digit 10 b) as [d|] eqn:Ed; [|simplify_eq].
  2: { exists []. rewrite Nat.add_0_r. repeat split; [constructor|done]. }
  destruct (to_digit_dec_inv _ _ Ed) as [Hd ->].
  destruct (_ ≫= _) as [acc'|] eqn:Ec in H; [|done].
  assert (acc' = acc * 10 + d) as ->.
  { apply bind_Some in Ec as (x & (y & ->%try_into_Some & ->%try_into_Some)%bind_Some & Ea).
    by apply bind_Some in Ea as (? & ->%try_into_Some & ->%try_into_Some). }
  assert (read_digits w 10 max (acc * 10 + d) (S c) s = (Some r, rest)) as H'.
  { destruct max as [m|]; [|done]. by destruct (m <? S c)%nat. }
  destruct (IH _ _ H') as (ds & -> & Hds & Hs & ->).
  exists (d :: ds). repeat split; [by constructor|done|]. simpl. f_equal. lia.
Qed.

(** [read_number] never hands back more than it was given. *)
Lemma read_digits_suffix w radix max acc c s r rest :
  read_digits w radix max acc c s = (r, rest) -> rest `suffix_of` s.
Proof.
  revert acc c. induction s as [|b s IH]; intros acc c H; simpl in H; [by simplify_eq|].
  assert (forall r : option (Z * nat), (r, s) = (r, rest) -> rest `suffix_of` b :: s) as Hs.
  { intros ? [= ->]. by apply suffix_cons_r. }
  repeat case_match; simplify_eq; try (by apply suffix_cons_r);
    try done; by apply suffix_cons_r; eapply IH.
Qed.

Lemma read_atomically_Some {A} (m : parser A) s a rest :
  read_atomically m s = (Some a, rest) <-> m s = (Some a, rest).
Proof. unfold read_atomically. destruct (m s) as [[?|] ?]; naive_solver. Qed.

Lemma read_atomically_None {A} (m : parser A) s :
  (m s).1 = None -> read_atomically m s = (None, s).
Proof. unfold read_atomically. destruct (m s) as [[?|] ?]; naive_solver. Qed.

Lemma p_bind_Some {A B} (m : parser A) (k : A -> parser B) s b rest :
  p_bind m k s = (Some b, rest) <-> exists a s', m s = (Some a, s') /\ k a s' = (Some b, rest).
Proof.
  unfold p_bind, st_bind. destruct (m s) as [[a|] s']; simpl; naive_solver.
Qed.

Lemma p_bind_run {A B} (m : parser A) (k : A -> parser B) s a s' :
  m s = (Some a, s') -> p_bind m k s = k a s'.
Proof. intros E. unfold p_bind, st_bind. by rewrite E. Qed.

Lemma p_bind_None {A B} (m : parser A) (k : A -> parser B) s s' :
  m s = (None, s') -> p_bind m k s = (None, s').
Proof. intros E. unfold p_bind, st_bind. by rewrite E. Qed.

Lemma read_number_suffix w radix max allow s a rest :
  read_number w radix max allow s = (Some a, rest) -> rest `suffix_of` s.
Proof.
  unfold read_number. rewrite read_atomically_Some, p_bind_Some.
  intros ([r n] & s' & E & H). apply read_digits_suffix in E.
  repeat case_match; simplify_eq. unfold p_some, st_ret in H. by simplify_eq.
Qed.

(** A number that is read fits its type. *)
Lemma read_digits_max w radix max acc c s r rest : acc <= umax w ->
  read_digits w radix max acc c s = (Some r, rest) -> r.1 <= umax w.
Proof.
  revert acc c. induction s as [|b s IH]; intros acc c Ha H; simpl in H; [by simplify_eq|].
  destruct (to_digit radix b) as [d|]; [|by simplify_eq].
  destruct (_ ≫= _) as [acc'|] eqn:Ec in H; [|done].
  assert (acc' <= umax w) as Ha'.
  { apply bind_Some in Ec as (x & _ & Ea). apply bind_Some in Ea as (y & _ & Ea).
    unfold try_into in Ea. destruct (_ <=? _) eqn:El in Ea; [simplify_eq; lia|done]. }
  destruct max as [m|]; [destruct (m <? S c)%nat; [done|]|]; eapply IH; eauto.
Qed.

Lemma read_number_max w radix max allow s z rest : 0 <= umax w ->
  read_number w radix max allow s = (Some z, rest) -> z <= umax w.
Proof.
  unfold read_number. rewrite read_atomically_Some, p_bind_Some.
  intros Hw ([r n] & s' & E & H). apply read_digits_max in E; [|done]. simpl in E.
  repeat case_match; simplify_eq. unfold p_some, st_ret in H. by simplify_eq.
Qed.

(** A decimal that is read with leading zeros refused is the printed number. *)
Lemma read_number_dec w max s z rest :
  read_number w 10 max false s = (Some z, rest) ->
  s = fmt_dec z ++ rest /\ stops 10 rest /\ 0 <= z.
Proof.
  unfold read_number. rewrite read_atomically_Some, p_bind_Some.
  intros ([r n] & s' & E & H). apply read_digits_inv in E as (ds & -> & Hd & Hs & [= -> ->]).
  destruct (Nat.eqb_spec (length ds) 0) as [|Hl]; [done|].
  destruct (negb false && _ && _) eqn:Eb; [done|].
  unfold p_some, st_ret in H. simplify_eq.
  assert (canonical ds) as Hc.
  { destruct ds as [|d ds]; [done|]. apply Forall_cons_1 in Hd as [Hd _].
    destruct (decide (d = 0)) as [->|]; [|right; exists d, ds; split; [done|lia]].
    left. destruct ds as [|d' ds]; [done|]. exfalso.
    change (digit_char <$> 0 :: d' :: ds) with (c_zero :: (digit_char <$> d' :: ds)) in Eb.
    simpl in Eb. done. }
  split; [|split; [done|by apply num_ge]].
  unfold fmt_dec. rewrite <- fmt_radix_unique by (done || lia). done.
Qed.

(** The text of a number starts with a digit of its radix. *)
Lemma fmt_radix_digits radix z b : 2 <= radix <= 36 -> 0 <= z ->
  b ∈ fmt_radix radix z -> exists d, 0 <= d < radix /\ b = digit_char d.
Proof.
  intros Hr Hz. destruct (fmt_radix_spec radix z ltac:(lia) Hz) as (ds & -> & Hd & _).
  intros (d & -> & Hin)%list_elem_of_fmap. exists d. split; [|done].
  eapply list.Forall_forall in Hd; eauto.
Qed.
