(* ===== verification/NetIpSpecs.v ===== *)
(** NetIpSpecs: the conversions of addresses, and the parser of addresses on the
    texts that [Display] writes. *)
From Stdlib Require Import ZArith Lia Strings.Byte.
From stdpp Require Import base numbers list option tactics sets.
From S2P Require Import Prelude NetIp NetSock NetParser NetText.

(** * Octets and segments *)

(** A list of known length is spelled out. *)
Ltac spell l H :=
  repeat (destruct l as [|? l]; simpl in H; [lia|]);
  destruct l as [|? l]; [clear H|simpl in H; lia].

Lemma le_val_2 a b : le_val [a; b] = byte_val a + 256 * byte_val b.
Proof. unfold le_val. lia. Qed.

Lemma le_bytes_2 a b : le_bytes 2 (le_val [a; b]) = [a; b].
Proof. apply (le_bytes_val [a; b]). Qed.

Lemma from_be16_val a b : from_be16 (le_val [a; b]) = be_val [a; b].
Proof. unfold from_be16, swap_bytes. by rewrite le_bytes_2. Qed.

Lemma le_bytes_to_be16 z : le_bytes 2 (to_be16 z) = be_bytes 2 z.
Proof.
  unfold to_be16, swap_bytes, be_val, be_bytes.
  assert (length (reverse (le_bytes 2 z)) = 2%nat) as Hl by (rewrite length_reverse; apply length_le_bytes).
  rewrite <- Hl at 1. apply le_bytes_val.
Qed.

Lemma be_bytes_2 a b : be_bytes 2 (be_val [a; b]) = [a; b].
Proof. unfold be_bytes, be_val. change (reverse [a; b]) with [b; a]. by rewrite le_bytes_2. Qed.

Lemma be_val_bytes_2 z : 0 <= z <= u16_max -> exists a b, be_bytes 2 z = [a; b] /\ be_val [a; b] = z.
Proof.
  intros Hz. exists (byte_of (z / 256)), (byte_of z). split; [done|].
  unfold be_val. change (reverse _) with (le_bytes 2 z). rewrite le_val_bytes.
  apply Z.mod_small. change (256 ^ Z.of_nat 2) with 65536. unfold u16_max in Hz. lia.
Qed.

Lemma be_val_16 a b : 0 <= be_val [a; b] <= u16_max.
Proof.
  pose proof (le_val_range (reverse [a; b])). unfold be_val, u16_max.
  change (256 ^ zlen (reverse [a; b])) with 65536 in H. lia.
Qed.

Lemma be_val_inj k l : length k = length l -> be_val k = be_val l -> k = l.
Proof.
  intros Hl E. unfold be_val in E. apply (inj reverse).
  rewrite <- (le_bytes_val (reverse k)), <- (le_bytes_val (reverse l)), E, !length_reverse. by rewrite Hl.
Qed.

Definition u16s (l : list Z) : Prop := Forall (fun z => 0 <= z <= u16_max) l.

(** The segments of an address: eight numbers of sixteen bits *)
Lemma segments_ok a : ipv6_ok a -> length (Ipv6.segments a) = 8%nat /\ u16s (Ipv6.segments a).
Proof.
  destruct a as [l]. unfold ipv6_ok, Ipv6.segments. cbn [s6_addr]. intros H. spell l H.
  cbn [transmute_to_u16 fmap list_fmap length]. rewrite !from_be16_val.
  split; [done|]. repeat constructor; apply be_val_16.
Qed.

(** [Ipv6Addr::from(a.segments())] is [a], and the other way round. *)
Lemma from_segments_segments a : ipv6_ok a -> Ipv6.from_segments (Ipv6.segments a) = a.
Proof.
  destruct a as [l]. unfold ipv6_ok, Ipv6.segments, Ipv6.from_segments, Ipv6.new.
  cbn [s6_addr]. intros H. spell l H.
  cbn [transmute_to_u16 fmap list_fmap lookup_total list_lookup_total].
  rewrite !from_be16_val. unfold transmute_to_u8. cbn [mbind list_bind].
  by rewrite !le_bytes_to_be16, !be_bytes_2.
Qed.

Lemma segments_from_segments l : length l = 8%nat -> u16s l -> Ipv6.segments (Ipv6.from_segments l) = l.
Proof.
  intros H Hu. spell l H. unfold u16s in Hu. rewrite !list.Forall_cons in Hu.
  destruct_and! Hu. unfold Ipv6.segments, Ipv6.from_segments, Ipv6.new, transmute_to_u8.
  cbn [s6_addr lookup_total list_lookup_total mbind list_bind]. rewrite !le_bytes_to_be16.
  repeat match goal with
  | |- context [be_bytes 2 ?z] =>
      let a := fresh in let b := fresh in
      destruct (be_val_bytes_2 z ltac:(lia)) as (a & b & -> & <-)
  end.
  cbn [app transmute_to_u16 fmap list_fmap]. by rewrite !from_be16_val.
Qed.

Lemma from_segments_ok l : length l = 8%nat -> ipv6_ok (Ipv6.from_segments l).
Proof. intros H. spell l H. reflexivity. Qed.

Lemma ipv4_octets_spelled a : exists x y z t, Ipv4.octets a = [x; y; z; t].
Proof.
  pose proof (length_le_bytes 4 (s_addr a)) as H. unfold Ipv4.octets.
  destruct (le_bytes 4 (s_addr a)) as [|x l]; [done|]. spell l H. eauto.
Qed.

Lemma ipv4_from_octets a : ipv4_ok a -> Ipv4.from_octets (Ipv4.octets a) = a.
Proof.
  destruct a as [z]. unfold ipv4_ok, Ipv4.from_octets, Ipv4.octets, Ipv4.new. cbn [s_addr].
  intros Hz. f_equal. transitivity (le_val (le_bytes 4 z)); [done|].
  rewrite le_val_bytes. apply Z.mod_small. exact Hz.
Qed.

Lemma ipv4_octets_from l : length l = 4%nat -> Ipv4.octets (Ipv4.from_octets l) = l.
Proof. intros H. spell l H. apply (le_bytes_val [_; _; _; _]). Qed.

Lemma ipv4_from_octets_ok l : length l = 4%nat -> ipv4_ok (Ipv4.from_octets l).
Proof.
  intros H. spell l H. unfold ipv4_ok, Ipv4.from_octets, Ipv4.new. cbn [s_addr lookup_total list_lookup_total].
  match goal with |- context [le_val ?l] => pose proof (le_val_range l) as Hr end. exact Hr.
Qed.

Lemma octet_range i a : 0 <= Ipv4.octet i a < 256.
Proof. apply byte_val_range. Qed.

(** * Reading characters *)
Lemma read_given_char_run c s : read_given_char c (c :: s) = (Some tt, s).
Proof.
  unfold read_given_char, read_atomically, p_bind, st_bind. simpl. by rewrite decide_True.
Qed.

Lemma read_given_char_fail c s : head s <> Some c -> read_given_char c s = (None, s).
Proof.
  intros H. unfold read_given_char, read_atomically, p_bind, st_bind.
  destruct s as [|b s]; simpl in *; [done|]. rewrite decide_False; [done|naive_solver].
Qed.

Lemma read_given_char_inv c s u rest : read_given_char c s = (Some u, rest) -> s = c :: rest.
Proof.
  unfold read_given_char. rewrite read_atomically_Some, p_bind_Some.
  intros (b & s' & E & H). destruct s as [|b' s]; simplify_eq/=.
  destruct (decide (b = c)) as [->|]; unfold p_some, p_none, st_ret in H; naive_solver.
Qed.

(** The separator that precedes group [i] *)
Definition sep (c : byte) (i : nat) : list byte := match i with O => [] | S _ => [c] end.

Lemma read_separator_run {A} c i (m : parser A) s a rest :
  m s = (Some a, rest) -> read_separator c i m (sep c i ++ s) = (Some a, rest).
Proof.
  intros E. unfold read_separator. apply read_atomically_Some.
  destruct i; simpl; erewrite p_bind_run; [exact E|done|exact E|apply read_given_char_run].
Qed.

Lemma read_separator_None {A} c i (m : parser A) s :
  (m s).1 = None -> read_separator c i m (sep c i ++ s) = (None, sep c i ++ s).
Proof.
  intros E. unfold read_separator. apply read_atomically_None.
  destruct i; simpl; erewrite p_bind_run; [exact E|done|exact E|apply read_given_char_run].
Qed.

Lemma read_separator_no_sep {A} c i (m : parser A) s :
  (0 < i)%nat -> head s <> Some c -> read_separator c i m s = (None, s).
Proof.
  intros Hi E. unfold read_separator. apply read_atomically_None.
  destruct i; [lia|]. simpl. by erewrite p_bind_None by by apply read_given_char_fail.
Qed.

Lemma read_separator_inv {A} c i (m : parser A) s a rest :
  read_separator c i m s = (Some a, rest) -> exists s', s = sep c i ++ s' /\ m s' = (Some a, rest).
Proof.
  unfold read_separator. rewrite read_atomically_Some, p_bind_Some.
  intros (u & s' & E & H). destruct i; simpl in *.
  - unfold p_some, st_ret in E. simplify_eq. by exists s'.
  - apply read_given_char_inv in E as ->. by exists s'.
Qed.

(** * IPv4 *)
Lemma fmt_dec_octet_len z : 0 <= z < 256 -> (1 <= length (fmt_dec z) <= 3)%nat.
Proof. intros. apply length_fmt_radix; [lia| |lia]. change (10 ^ Z.of_nat 3) with 1000. lia. Qed.

Lemma read_octet z rest : 0 <= z < 256 -> stops 10 rest ->
  read_number 8 10 (Some 3%nat) false (fmt_dec z ++ rest) = (Some z, rest).
Proof.
  intros Hz Hs. apply read_number_run; [lia|done|change (umax 8) with 255; lia|done|].
  by apply fmt_dec_octet_len.
Qed.

Lemma stops_dot radix s : radix <= 36 -> stops radix (c_dot :: s).
Proof. intros. done. Qed.
Lemma stops_colon radix s : stops radix (c_colon :: s).
Proof. done. Qed.
#[export] Hint Resolve stops_dot stops_colon : core.

(** The text of the octets, as the loop reads it *)
Fixpoint octets_text (i : nat) (l : list Z) : list byte :=
  match l with
  | [] => []
  | z :: l => sep c_dot i ++ fmt_dec z ++ octets_text (S i) l
  end.

Lemma octets_text_stops i l rest : stops 10 rest -> stops 10 (octets_text (S i) l ++ rest).
Proof. by destruct l. Qed.

Lemma read_octets_run l i rest : Forall (fun z => 0 <= z < 256) l -> stops 10 rest ->
  read_octets (length l) i (octets_text i l ++ rest) = (Some l, rest).
Proof.
  revert i. induction l as [|z l IH]; intros i Hl Hs; [done|].
  apply Forall_cons_1 in Hl as [Hz Hl]. cbn [length read_octets octets_text].
  rewrite <- !app_assoc. erewrite p_bind_run.
  2: { apply read_separator_run, read_octet; [done|]. by apply octets_text_stops. }
  erewrite p_bind_run by by apply IH. done.
Qed.

Lemma read_octets_inv k i s l rest : read_octets k i s = (Some l, rest) ->
  s = octets_text i l ++ rest /\ length l = k /\ Forall (fun z => 0 <= z < 256) l /\
  ((0 < k)%nat -> stops 10 rest).
Proof.
  revert i s l rest. induction k as [|k IH]; intros i s l rest H.
  { simpl in H. unfold p_some, st_ret in H. simplify_eq. repeat split; [constructor|lia]. }
  cbn [read_octets] in H. apply p_bind_Some in H as (z & s1 & (s0 & -> & Hn)%read_separator_inv & H).
  pose proof (read_number_dec _ _ _ _ _ Hn) as (-> & Hs1 & Hz0).
  apply p_bind_Some in H as (l' & s2 & (-> & Hl & Hf & Hs2)%IH & H).
  unfold p_some, st_ret in H. simplify_eq. cbn [octets_text]. rewrite <- !app_assoc.
  repeat split.
  - constructor; [|done]. split; [done|]. apply read_number_max in Hn; [|done].
    change (umax 8) with 255 in Hn. lia.
  - intros _. destruct l'; [exact Hs1|apply Hs2; simpl; lia].
Qed.

Lemma ipv4_text_octets a :
  Ipv4.text a = octets_text 0 (byte_val <$> Ipv4.octets a).
Proof.
  destruct (ipv4_octets_spelled a) as (x & y & z & t & E).
  unfold Ipv4.text, Ipv4.octet. rewrite E. cbn. by rewrite app_nil_r.
Qed.

Lemma byte_of_vals (l : list byte) : byte_of <$> (byte_val <$> l) = l.
Proof. induction l as [|b l IH]; [done|]. cbn. by rewrite byte_of_val, IH. Qed.

Lemma byte_val_ofs (l : list Z) : Forall (fun z => 0 <= z < 256) l -> byte_val <$> (byte_of <$> l) = l.
Proof.
  induction 1 as [|z l Hz Hl IH]; [done|]. cbn. rewrite byte_val_of, Z.mod_small by lia. by f_equal.
Qed.

Lemma byte_vals_range (l : list byte) : Forall (fun z => 0 <= z < 256) (byte_val <$> l).
Proof. apply Forall_fmap, Forall_true. intros b. apply byte_val_range. Qed.

(** The text of an address is read back, whatever follows it that is no digit. *)
Lemma read_ipv4_run a rest : ipv4_ok a -> stops 10 rest ->
  read_ipv4_addr (Ipv4.text a ++ rest) = (Some a, rest).
Proof.
  intros Ha Hs. unfold read_ipv4_addr. apply read_atomically_Some.
  assert (length (byte_val <$> Ipv4.octets a) = 4%nat) as Hl by (rewrite length_fmap; apply length_le_bytes).
  rewrite ipv4_text_octets, <- Hl at 1. erewrite p_bind_run.
  2: { apply (read_octets_run (byte_val <$> Ipv4.octets a)); [apply byte_vals_range|done]. }
  rewrite byte_of_vals, ipv4_from_octets by done. done.
Qed.

(** What is read as an address is its text. *)
Lemma read_ipv4_inv s a rest : read_ipv4_addr s = (Some a, rest) ->
  ipv4_ok a /\ s = Ipv4.text a ++ rest.
Proof.
  unfold read_ipv4_addr. rewrite read_atomically_Some, p_bind_Some.
  intros (l & s' & E & H). apply read_octets_inv in E as (-> & Hl & Hf & _).
  unfold p_some, st_ret in H. simplify_eq.
  assert (length (byte_of <$> l) = 4%nat) as Hl' by by rewrite length_fmap.
  split; [by apply ipv4_from_octets_ok|].
  rewrite ipv4_text_octets, ipv4_octets_from, byte_val_ofs by done. done.
Qed.

Lemma length_ipv4_text a : (7 <= length (Ipv4.text a) <= 15)%nat.
Proof.
  unfold Ipv4.text. rewrite !length_app. simpl.
  pose proof (fmt_dec_octet_len _ (octet_range 0 a)).
  pose proof (fmt_dec_octet_len _ (octet_range 1 a)).
  pose proof (fmt_dec_octet_len _ (octet_range 2 a)).
  pose proof (fmt_dec_octet_len _ (octet_range 3 a)). lia.
Qed.

(** Without a dot there is no IPv4 address. *)
Lemma read_ipv4_no_dot s : c_dot ∉ s -> read_ipv4_addr s = (None, s).
Proof.
  intros Hs. destruct (read_ipv4_addr s) as [[a|] rest] eqn:E.
  - apply read_ipv4_inv in E as [_ ->]. exfalso. apply Hs. unfold Ipv4.text. set_solver.
  - revert E. unfold read_ipv4_addr, read_atomically. case_match. case_match; naive_solver.
Qed.

Lemma read_ipv4_stops s : stops 10 s -> read_ipv4_addr s = (None, s).
Proof.
  intros Hs. unfold read_ipv4_addr. apply read_atomically_None.
  erewrite p_bind_None; [done|]. cbn [read_octets].
  eapply p_bind_None, (read_separator_None c_dot 0). by rewrite read_number_stops.
Qed.
