(* ===== verification/NetAddrSpecs.v ===== *)
(** NetAddrSpecs: what [Display] writes, [FromStr] reads back, for addresses and
    socket addresses; which texts are IPv4 addresses; and that the buffers of the
    padded path are large enough. *)
From Stdlib Require Import ZArith Lia Strings.Byte.
From stdpp Require Import base numbers list option tactics sets.
From S2P Require Import Prelude NetIp NetSock NetParser NetText NetIpSpecs.

(** * Groups of an IPv6 address *)
Fixpoint groups_text (i : nat) (l : list Z) : list byte :=
  match l with
  | [] => []
  | z :: l => sep c_colon i ++ fmt_hex z ++ groups_text (S i) l
  end.

Lemma fmt_subslice_groups l : Ipv6.fmt_subslice l = groups_text 0 l.
Proof.
  destruct l as [|z l]; [done|]. cbn. f_equal. generalize O. clear z.
  induction l as [|z l IH]; intros i; [done|]. cbn. f_equal. f_equal. apply IH.
Qed.

Lemma fmt_hex_len z : 0 <= z <= u16_max -> (1 <= length (fmt_hex z) <= 4)%nat.
Proof.
  intros. apply length_fmt_radix; [lia| |lia]. unfold u16_max in *.
  change (16 ^ Z.of_nat 4) with 65536. lia.
Qed.

Lemma read_hex_group z rest : 0 <= z <= u16_max -> stops 16 rest ->
  read_number 16 16 (Some 4%nat) true (fmt_hex z ++ rest) = (Some z, rest).
Proof.
  intros Hz Hs. apply read_number_run; [lia|done|exact Hz|done|]. by apply fmt_hex_len.
Qed.

(** No dot in the text of groups *)
Lemma fmt_radix_no_dot radix z : 2 <= radix <= 36 -> 0 <= z -> c_dot ∉ fmt_radix radix z.
Proof.
  intros Hr Hz (d & Hd & E)%fmt_radix_digits; [|done..].
  apply (f_equal (to_digit radix)) in E. rewrite to_digit_char in E by lia. done.
Qed.

Lemma groups_text_no_dot i l : u16s l -> c_dot ∉ groups_text i l.
Proof.
  intros Hl. revert i. induction Hl as [|z l Hz Hl IH]; intros i; cbn; [set_solver|].
  pose proof (fmt_radix_no_dot 16 z ltac:(lia) ltac:(lia)) as Hd. unfold fmt_hex.
  specialize (IH (S i)). destruct i; set_solver.
Qed.

(** No group starts at [rest] when [i] groups have been read. *)
Definition no_group (i : nat) (rest : list byte) : Prop :=
  read_separator c_colon i (read_number 16 16 (Some 4%nat) true) rest = (None, rest) /\
  read_separator c_colon i read_ipv4_addr rest = (None, rest).

Lemma groups_text_stops i l rest : stops 16 rest -> stops 16 (groups_text (S i) l ++ rest).
Proof. by destruct l. Qed.

Lemma read_separator_fail {A} c i (m : parser A) s :
  (forall s', s = sep c i ++ s' -> (m s').1 = None) -> read_separator c i m s = (None, s).
Proof.
  intros Hm. destruct i as [|i]; [by apply (read_separator_None c 0), Hm|].
  destruct (decide (head s = Some c)) as [E|E]; [|by apply read_separator_no_sep; [lia|]].
  destruct s as [|b s]; simplify_eq/=. by apply (read_separator_None c (S i)), Hm.
Qed.

(** The loop of [read_groups] reads the groups [l] from index [i] on. *)
Lemma read_groups_from_run l i limit groups rest :
  length groups = limit -> (i + length l <= limit)%nat -> u16s l ->
  stops 16 rest -> l = [] \/ c_dot ∉ rest ->
  ((i + length l < limit)%nat -> no_group (i + length l) rest) ->
  read_groups_from (limit - i) i limit groups (groups_text i l ++ rest) =
    ((take i groups ++ l ++ drop (i + length l) groups, ((i + length l)%nat, false)), rest).
Proof.
  revert i groups. induction l as [|z l IH]; intros i groups Hg Hi Hl Hs Hd Hng.
  - cbn [groups_text length app]. rewrite Nat.add_0_r in *. rewrite take_drop.
    destruct (limit - i)%nat as [|k] eqn:Ek; cbn [read_groups_from].
    { by replace i with (length groups) by lia. }
    destruct (Hng ltac:(lia)) as [H1 H2]. destruct (i <? limit - 1)%nat; rewrite ?H2; by rewrite H1.
  - destruct Hd as [Hd|Hd]; [done|].
    apply Forall_cons_1 in Hl as [Hz Hl]. simpl length in *. cbn [groups_text].
    rewrite <- !app_assoc. destruct (limit - i)%nat as [|k] eqn:Ek; [lia|].
    cbn [read_groups_from].
    assert (forall s, s = sep c_colon i ++ fmt_hex z ++ groups_text (S i) l ++ rest ->
      (if (i <? limit - 1)%nat then read_separator c_colon i read_ipv4_addr s else (None, s)) = (None, s)) as ->.
    { intros s ->. destruct (i <? limit - 1)%nat; [|done].
      apply read_separator_None. rewrite read_ipv4_no_dot; [done|].
      pose proof (groups_text_no_dot (S i) l Hl).
      pose proof (fmt_radix_no_dot 16 z ltac:(lia) ltac:(lia)). unfold fmt_hex. set_solver. }
    2: done.
    erewrite read_separator_run by (apply read_hex_group; [done|by apply groups_text_stops]).
    replace k with (limit - S i)%nat by lia.
    rewrite IH; [|by rewrite length_insert|lia|done|done|by right|by replace (S i + length l)%nat with (i + S (length l))%nat by lia].
    replace (S i + length l)%nat with (i + S (length l))%nat by lia.
    do 2 f_equal.
    rewrite (take_S_r _ i z) by (apply list_lookup_insert_eq; lia).
    rewrite take_insert_ge, drop_insert_lt, <- app_assoc by lia. done.
Qed.

Lemma read_groups_run limit l rest :
  (length l <= limit)%nat -> u16s l -> stops 16 rest -> l = [] \/ c_dot ∉ rest ->
  ((length l < limit)%nat -> no_group (length l) rest) ->
  read_groups (replicate limit 0) (Ipv6.fmt_subslice l ++ rest) =
    ((l ++ replicate (limit - length l) 0, (length l, false)), rest).
Proof.
  intros Hl Hu Hs Hd Hn. unfold read_groups. rewrite length_replicate, fmt_subslice_groups.
  replace limit with (limit - 0)%nat at 1 by lia.
  rewrite read_groups_from_run by (rewrite ?length_replicate; done).
  by rewrite drop_replicate.
Qed.

(** The ends of the groups: a [::], or what is neither a digit nor a colon *)
Lemma no_group_colons i rest : no_group i (c_colon :: c_colon :: rest).
Proof.
  split; apply read_separator_fail; intros s' E; destruct i; simplify_eq/=;
    by rewrite ?read_number_stops, ?read_ipv4_stops.
Qed.

Lemma no_group_end i rest : stops 16 rest -> head rest <> Some c_colon -> no_group i rest.
Proof.
  intros Hs Hh. split; apply read_separator_fail; intros s' E; destruct i; simplify_eq/=;
    first [by rewrite read_number_stops | by rewrite read_ipv4_stops by by apply stops_16_10].
Qed.

(** * The span of zeros *)
Definition zero_span (l : list Z) (s : Ipv6.Span) : Prop :=
  forall i, (Ipv6.start s <= i < Ipv6.start s + Ipv6.len s)%nat -> l !! i = Some 0.

Lemma zero_span_app l k s : zero_span l s -> zero_span (l ++ k) s.
Proof. intros H i Hi. by apply lookup_app_l_Some, H. Qed.

Lemma find_zeroes_spec segs pre longest current :
  zero_span pre longest -> zero_span pre current ->
  (Ipv6.len current = 0 \/ Ipv6.start current + Ipv6.len current = length pre)%nat ->
  zero_span (pre ++ segs) (Ipv6.find_zeroes (length pre) segs longest current).
Proof.
  revert pre longest current. induction segs as [|z segs IH]; intros pre longest current Hl Hc He.
  { by rewrite app_nil_r. }
  assert (S (length pre) = length (pre ++ [z])) as El by (rewrite length_app; simpl; lia).
  replace (pre ++ z :: segs) with ((pre ++ [z]) ++ segs) by by rewrite <- app_assoc.
  cbn [Ipv6.find_zeroes]. rewrite El. destruct (Z.eqb_spec z 0) as [->|Hz].
  - set (cur := {| Ipv6.start := _ |}).
    assert (zero_span (pre ++ [0]) cur /\ (Ipv6.start cur + Ipv6.len cur = length (pre ++ [0%Z]))%nat) as [Hcur Hce].
    { unfold cur, zero_span. cbn [Ipv6.start Ipv6.len].
      destruct (Nat.eqb_spec (Ipv6.len current) 0) as [E|E]; split; try lia; intros i Hi;
        (destruct (decide (i = length pre)) as [->|]; [by apply list_lookup_middle|]); [lia|].
      apply lookup_app_l_Some, Hc. lia. }
    apply IH; [|done|by right]. destruct (_ <? _)%nat; [done|by apply zero_span_app].
  - apply IH; [by apply zero_span_app| |by left]. intros i. simpl. lia.
Qed.

Lemma zeroes_split l : let z := Ipv6.zeroes l in (0 < Ipv6.len z)%nat ->
  l = take (Ipv6.start z) l ++ replicate (Ipv6.len z) 0 ++ drop (Ipv6.start z + Ipv6.len z) l /\
  (Ipv6.start z + Ipv6.len z <= length l)%nat.
Proof.
  intros z Hz. assert (zero_span l z) as H.
  { apply (find_zeroes_spec l []); [intros i; simpl; lia..|by left]. }
  assert (Ipv6.start z + Ipv6.len z <= length l)%nat as Hle.
  { specialize (H (Ipv6.start z + Ipv6.len z - 1)%nat ltac:(lia)). apply lookup_lt_Some in H. lia. }
  split; [|done]. rewrite <- (take_drop (Ipv6.start z) l) at 1. f_equal.
  rewrite <- (take_drop (Ipv6.len z) (drop (Ipv6.start z) l)) at 1. rewrite drop_drop. f_equal.
  apply list_eq_same_length with (Ipv6.len z); [by rewrite length_replicate| |].
  { rewrite length_take, length_drop. lia. }
  intros i x y Hi Hx Hy. rewrite lookup_take_lt, lookup_drop in Hx by lia.
  rewrite H in Hx by lia. apply lookup_replicate in Hy as [-> _]. congruence.
Qed.

(** * Reading an IPv6 address *)

(** What is read after [::] fills the end of the address. *)
Lemma read_ipv6_split l s tail n b rest :
  (length l <= 7)%nat -> u16s l -> l = [] \/ c_dot ∉ s ->
  read_groups (replicate (7 - length l) 0) s = ((tail, (n, b)), rest) ->
  (n <= 7 - length l)%nat ->
  read_ipv6_addr (Ipv6.fmt_subslice l ++ c_colon :: c_colon :: s) =
    (Some (Ipv6.from_segments (l ++ replicate (8 - n - length l) 0 ++ take n tail)), rest).
Proof.
  intros Hl Hu Hd Hr Hn. unfold read_ipv6_addr. apply read_atomically_Some.
  unfold st_bind at 1. rewrite read_groups_run; [|lia|done|done| |by intros; apply no_group_colons].
  2: { destruct Hd; [by left|right; set_solver]. }
  destruct (Nat.eqb_spec (length l) 8); [lia|].
  erewrite p_bind_run by apply read_given_char_run.
  erewrite p_bind_run by apply read_given_char_run.
  replace (8 - (length l + 1))%nat with (7 - length l)%nat by lia.
  rewrite take_replicate, Nat.min_l by lia. unfold st_bind. rewrite Hr.
  unfold p_some, st_ret. do 3 f_equal.
  rewrite take_app_ge, take_replicate, <- app_assoc by lia. do 3 f_equal. lia.
Qed.

Lemma read_ipv6_colons s tail n b rest :
  read_groups (replicate 7 0) s = ((tail, (n, b)), rest) -> (n <= 7)%nat ->
  read_ipv6_addr (c_colon :: c_colon :: s) =
    (Some (Ipv6.from_segments (replicate (8 - n) 0 ++ take n tail)), rest).
Proof.
  intros Hr Hn. pose proof (read_ipv6_split [] s tail n b rest ltac:(simpl; lia) (Forall_nil_2 _)
    (or_introl eq_refl) Hr Hn) as E. simpl in E. by rewrite Nat.sub_0_r in E.
Qed.

Lemma read_ipv6_full l rest :
  length l = 8%nat -> u16s l -> stops 16 rest -> c_dot ∉ rest ->
  read_ipv6_addr (Ipv6.fmt_subslice l ++ rest) = (Some (Ipv6.from_segments l), rest).
Proof.
  intros Hl Hu Hs Hd. unfold read_ipv6_addr. apply read_atomically_Some.
  unfold st_bind at 1. rewrite read_groups_run; [|lia|done|done|by right|lia].
  by rewrite Hl, app_nil_r.
Qed.

(** An IPv4 address at the end of an IPv6 address *)
Definition hi16 (v4 : Ipv4Addr) : Z := be_val [Ipv4.octets v4 !!! 0%nat; Ipv4.octets v4 !!! 1%nat].
Definition lo16 (v4 : Ipv4Addr) : Z := be_val [Ipv4.octets v4 !!! 2%nat; Ipv4.octets v4 !!! 3%nat].

Ltac use_sep H := let E := fresh in pose proof H as E; cbn [sep app] in E; rewrite E; clear E.

Lemma read_groups_compat v4 rest : ipv4_ok v4 -> stops 10 rest ->
  read_groups (replicate 7 0) (Ipv4.text v4 ++ rest) =
    (([hi16 v4; lo16 v4; 0; 0; 0; 0; 0], (2%nat, true)), rest).
Proof.
  intros Hv Hs. unfold read_groups. cbn [length replicate read_groups_from].
  change (0 <? 7 - 1)%nat with true. cbv iota.
  by use_sep (read_separator_run c_colon 0 _ _ _ _ (read_ipv4_run v4 rest Hv Hs)).
Qed.

Lemma read_groups_mapped v4 rest : ipv4_ok v4 -> stops 10 rest ->
  read_groups (replicate 7 0) (fmt_hex u16_max ++ c_colon :: Ipv4.text v4 ++ rest) =
    (([u16_max; hi16 v4; lo16 v4; 0; 0; 0; 0], (3%nat, true)), rest).
Proof.
  intros Hv Hs. unfold read_groups. cbn [length replicate read_groups_from].
  change (0 <? 7 - 1)%nat with true. cbv iota.
  set (tail := c_colon :: Ipv4.text v4 ++ rest).
  use_sep (read_separator_None c_colon 0 read_ipv4_addr (fmt_hex u16_max ++ tail)
    ltac:(by rewrite read_ipv4_stops)).
  use_sep (read_separator_run c_colon 0 _ _ _ _ (read_hex_group u16_max tail ltac:(done) (stops_colon _ _))).
  change (1 <? 7 - 1)%nat with true. subst tail. cbv iota.
  by use_sep (read_separator_run c_colon 1 _ _ _ _ (read_ipv4_run v4 rest Hv Hs)).
Qed.

(** [to_ipv4]: the two kinds of addresses that hold an IPv4 address *)
Lemma be_bytes_spelled z : exists a b, be_bytes 2 z = [a; b].
Proof. by exists (byte_of (z / 256)), (byte_of z). Qed.

Lemma to_ipv4_segments a v4 : ipv6_ok a -> Ipv6.to_ipv4 a = Some v4 ->
  exists x, (x = 0 \/ x = u16_max) /\ ipv4_ok v4 /\
    Ipv6.segments a = [0; 0; 0; 0; 0; x; hi16 v4; lo16 v4].
Proof.
  intros [Hl Hu]%segments_ok. unfold Ipv6.to_ipv4.
  destruct (Ipv6.segments a) as [|s0 l]; [done|]. spell l Hl.
  unfold u16s in Hu. rewrite !list.Forall_cons in Hu. destruct_and! Hu.
  repeat match goal with |- context [match ?z with 0 => _ | _ => _ end = _] => destruct z; try done end.
  destruct (_ || _) eqn:E; [|done].
  repeat match goal with
  | |- context [be_bytes 2 ?z] =>
      let a := fresh "p" in let b := fresh "q" in
      destruct (be_val_bytes_2 z ltac:(lia)) as (a & b & -> & <-)
  end.
  cbn [lookup_total list_lookup_total]. intros [= <-].
  match goal with |- context [Ipv4.new ?a ?b ?c ?d] =>
    change (Ipv4.new a b c d) with (Ipv4.from_octets [a; b; c; d]) end.
  eexists. split; [|split; [by apply ipv4_from_octets_ok|]].
  2: { unfold hi16, lo16. by rewrite ipv4_octets_from. }
  apply orb_true_iff in E as [E|E]; apply Z.eqb_eq in E; [left|right]; done.
Qed.

Lemma is_unspecified_segments a : ipv6_ok a -> Ipv6.is_unspecified a = true -> a = Ipv6.UNSPECIFIED.
Proof.
  destruct a as [l]. unfold ipv6_ok, Ipv6.is_unspecified, Ipv6.octets. cbn [s6_addr]. intros H E%Z.eqb_eq.
  apply be_val_inj in E; [|by rewrite H]. by rewrite E.
Qed.

Lemma is_loopback_segments a : ipv6_ok a -> Ipv6.is_loopback a = true -> a = Ipv6.LOCALHOST.
Proof.
  destruct a as [l]. unfold ipv6_ok, Ipv6.is_loopback, Ipv6.octets. cbn [s6_addr]. intros H E%Z.eqb_eq.
  apply be_val_inj in E; [|by rewrite H]. by rewrite E.
Qed.

(** * The text of an IPv6 address *)

(** The five shapes that the fast path writes *)
Inductive ipv6_shape (a : Ipv6Addr) : list byte -> Prop :=
| shape_unspecified : a = Ipv6.UNSPECIFIED -> ipv6_shape a [c_colon; c_colon]
| shape_loopback : a = Ipv6.LOCALHOST -> ipv6_shape a (c_colon :: c_colon :: fmt_hex 1)
| shape_compat v4 : ipv4_ok v4 -> Ipv6.segments a = [0; 0; 0; 0; 0; 0; hi16 v4; lo16 v4] ->
    ipv6_shape a (c_colon :: c_colon :: Ipv4.text v4)
| shape_mapped v4 : ipv4_ok v4 -> Ipv6.segments a = [0; 0; 0; 0; 0; u16_max; hi16 v4; lo16 v4] ->
    ipv6_shape a (c_colon :: c_colon :: fmt_hex u16_max ++ c_colon :: Ipv4.text v4)
| shape_span l n k : Ipv6.segments a = l ++ replicate n 0 ++ k -> (2 <= n)%nat ->
    ipv6_shape a (Ipv6.fmt_subslice l ++ c_colon :: c_colon :: Ipv6.fmt_subslice k)
| shape_full : ipv6_shape a (Ipv6.fmt_subslice (Ipv6.segments a)).

(** [Display] never reaches its [unreachable!]. *)
Lemma ipv6_text_shape a : ipv6_ok a -> exists t, Ipv6.text a = Done t /\ ipv6_shape a t.
Proof.
  intros Ha. unfold Ipv6.text.
  destruct (Ipv6.is_unspecified a) eqn:Eu.
  { eexists. split; [done|]. by apply shape_unspecified, is_unspecified_segments. }
  destruct (Ipv6.is_loopback a) eqn:El.
  { eexists. split; [done|]. by apply shape_loopback, is_loopback_segments. }
  destruct (Ipv6.to_ipv4 a) as [v4|] eqn:E4.
  { destruct (to_ipv4_segments a v4 Ha E4) as (x & Hx & Hv & E). rewrite E.
    cbn [lookup_total list_lookup_total].
    destruct Hx as [->| ->]; eexists; (split; [done|]); [by apply shape_compat|by apply shape_mapped]. }
  destruct (1 <? Ipv6.len (Ipv6.zeroes (Ipv6.segments a)))%nat eqn:Ez; eexists; (split; [done|]).
  - apply Nat.ltb_lt in Ez. destruct (zeroes_split (Ipv6.segments a)) as [E _]; [lia|].
    by eapply shape_span.
  - apply shape_full.
Qed.

Lemma ipv6_shape_run a t rest : ipv6_ok a -> ipv6_shape a t ->
  stops 16 rest -> c_dot ∉ rest -> head rest <> Some c_colon ->
  read_ipv6_addr (t ++ rest) = (Some a, rest).
Proof.
  intros Ha Ht Hs Hd Hh. rewrite <- (from_segments_segments a Ha).
  destruct (segments_ok a Ha) as [Hl Hu].
  assert (forall l, (length l <= 7)%nat -> u16s l ->
    read_groups (replicate 7 0) (Ipv6.fmt_subslice l ++ rest) =
      ((l ++ replicate (7 - length l) 0, (length l, false)), rest)) as Hg.
  { intros l Hl7 Hul. apply read_groups_run; auto. intros. by apply no_group_end. }
  pose proof (stops_16_10 _ Hs) as Hs10.
  destruct Ht as [-> | -> |v4 Hv E|v4 Hv E|l n k E Hn|].
  - rewrite <- app_comm_cons, <- app_comm_cons.
    erewrite read_ipv6_colons; [|apply (Hg []); [simpl; lia|constructor]|simpl; lia]. reflexivity.
  - rewrite <- app_comm_cons, <- app_comm_cons.
    erewrite read_ipv6_colons; [|apply (Hg [1]); [simpl; lia|by repeat constructor]|simpl; lia]. reflexivity.
  - rewrite <- app_comm_cons, <- app_comm_cons, E.
    erewrite read_ipv6_colons; [|by apply read_groups_compat|simpl; lia]. reflexivity.
  - rewrite <- app_comm_cons, <- app_comm_cons, <- app_assoc, <- app_comm_cons, E.
    erewrite read_ipv6_colons; [|by apply read_groups_mapped|simpl; lia]. reflexivity.
  - rewrite <- app_assoc, <- !app_comm_cons, E.
    rewrite E in Hl, Hu. unfold u16s in Hu. rewrite !list.Forall_app in Hu. destruct Hu as (Hul & _ & Huk).
    rewrite !length_app, length_replicate in Hl.
    erewrite read_ipv6_split; [|lia|done| |apply read_groups_run; auto with lia|lia].
    + rewrite take_app_length. by replace (8 - length k - length l)%nat with n by lia.
    + right. rewrite fmt_subslice_groups. pose proof (groups_text_no_dot 0 k Huk). set_solver.
    + intros. by apply no_group_end.
  - by apply read_ipv6_full.
Qed.

Lemma ipv6_text_run a rest : ipv6_ok a ->
  stops 16 rest -> c_dot ∉ rest -> head rest <> Some c_colon ->
  exists t, Ipv6.text a = Done t /\ read_ipv6_addr (t ++ rest) = (Some a, rest).
Proof.
  intros Ha Hs Hd Hh. destruct (ipv6_text_shape a Ha) as (t & E & Ht).
  exists t. split; [done|]. by apply ipv6_shape_run.
Qed.

(** The text of an IPv6 address does not start as one of an IPv4 address. *)
Lemma ipv6_shape_not_ipv4 a t : ipv6_ok a -> ipv6_shape a t -> read_ipv4_addr t = (None, t).
Proof.
  intros Ha Ht. destruct (segments_ok a Ha) as [_ Hu].
  destruct Ht as [_|_|v4 _ _|v4 _ _|l n k E _|]; try by apply read_ipv4_stops.
  - apply read_ipv4_no_dot. rewrite E in Hu. unfold u16s in Hu. rewrite !list.Forall_app in Hu.
    destruct Hu as (Hl & _ & Hk). rewrite !fmt_subslice_groups.
    pose proof (groups_text_no_dot 0 l Hl). pose proof (groups_text_no_dot 0 k Hk). set_solver.
  - apply read_ipv4_no_dot. rewrite fmt_subslice_groups. by apply groups_text_no_dot.
Qed.

(** * Ports and scopes *)
Lemma ntohs_htons p : 0 <= p <= u16_max -> ntohs (htons p) = p.
Proof.
  intros Hp. unfold ntohs, htons, from_be16, swap_bytes. rewrite le_bytes_to_be16.
  destruct (be_val_bytes_2 p Hp) as (a & b & -> & <-). done.
Qed.

Lemma read_port_run p : 0 <= p <= u16_max -> read_port (c_colon :: fmt_dec p) = (Some p, []).
Proof.
  intros Hp. unfold read_port. apply read_atomically_Some.
  erewrite p_bind_run by apply read_given_char_run. rewrite <- (app_nil_r (fmt_dec p)).
  apply read_number_run; [lia|done|exact Hp|done|done].
Qed.

Lemma read_scope_run z rest : 0 <= z <= u32_max -> stops 10 rest ->
  read_scope_id (c_percent :: fmt_dec z ++ rest) = (Some z, rest).
Proof.
  intros Hz Hs. unfold read_scope_id. apply read_atomically_Some.
  erewrite p_bind_run by apply read_given_char_run.
  apply read_number_run; [lia|done|exact Hz|done|done].
Qed.

Lemma read_scope_none rest : head rest <> Some c_percent -> read_scope_id rest = (None, rest).
Proof.
  intros H. unfold read_scope_id. apply read_atomically_None.
  by erewrite p_bind_None by by apply read_given_char_fail.
Qed.

(** * Socket addresses *)
Lemma sock4_run ip port : ipv4_ok ip -> 0 <= port <= u16_max ->
  read_socket_addr_v4 (SockV4.text (SockV4.new ip port)) = (Some (SockV4.new ip port), []).
Proof.
  intros Hi Hp. unfold read_socket_addr_v4, SockV4.text, SockV4.port, SockV4.ip.
  cbn [SockV4.new sin_port sin_addr]. rewrite ntohs_htons by done.
  apply read_atomically_Some. erewrite p_bind_run by by apply read_ipv4_run.
  by erewrite p_bind_run by by apply read_port_run.
Qed.

(** What follows the address in the brackets *)
Definition scope_text (z : Z) : list byte :=
  match z with 0 => [] | _ => c_percent :: fmt_dec z end.

Lemma sock6_text ip port flow scope t : 0 <= port <= u16_max -> Ipv6.text ip = Done t ->
  SockV6.text (SockV6.new ip port flow scope) =
    Done (c_open :: t ++ scope_text scope ++ c_close :: c_colon :: fmt_dec port).
Proof.
  intros Hp E. unfold SockV6.text, Ipv6.fmt, SockV6.port, SockV6.ip, SockV6.scope_id.
  cbn [no_alignment plain precision width SockV6.new sin6_port sin6_addr sin6_scope_id].
  rewrite E, ntohs_htons by done. by destruct scope.
Qed.

Lemma sock6_run ip port flow scope :
  ipv6_ok ip -> 0 <= port <= u16_max -> 0 <= scope <= u32_max ->
  exists t, SockV6.text (SockV6.new ip port flow scope) = Done (c_open :: t) /\
    read_socket_addr_v6 (c_open :: t) = (Some (SockV6.new ip port 0 scope), []).
Proof.
  intros Hi Hp Hs. set (rest := c_close :: c_colon :: fmt_dec port).
  destruct (ipv6_text_run ip (scope_text scope ++ rest) Hi) as (t & Et & Hr).
  { by destruct scope. }
  { pose proof (fmt_radix_no_dot 10 port ltac:(lia) ltac:(lia)).
    pose proof (fmt_radix_no_dot 10 scope ltac:(lia) ltac:(lia)).
    unfold rest, scope_text, fmt_dec. destruct scope; set_solver. }
  { by destruct scope. }
  eexists. split; [by apply sock6_text|]. fold rest.
  unfold read_socket_addr_v6. apply read_atomically_Some.
  erewrite p_bind_run by apply read_given_char_run. erewrite p_bind_run by exact Hr.
  unfold st_bind at 1.
  assert (exists o, read_scope_id (scope_text scope ++ rest) = (o, rest) /\ default 0 o = scope) as (o & -> & ->).
  { destruct (decide (scope = 0)) as [->|].
    - exists None. split; [by apply read_scope_none|done].
    - exists (Some scope). split; [|done]. rewrite <- (read_scope_run scope rest) by done.
      by destruct scope. }
  erewrite p_bind_run by apply read_given_char_run.
  by erewrite p_bind_run by by apply read_port_run.
Qed.

(** * The theorems *)
Lemma parse_with_run {A} (m : parser A) s a : m s = (Some a, []) -> parse_with m s = Ok a.
Proof. intros E. unfold parse_with. by rewrite E. Qed.

Lemma parse_with_Ok {A} (m : parser A) s a : parse_with m s = Ok a -> m s = (Some a, []).
Proof.
  unfold parse_with. destruct (m s) as [[b|] [|]]; intros; simplify_eq/=; done.
Qed.

(** C29. Every address, printed, parses back to itself, through the parser of its own
    family and through the parser of either family: IPv4 and IPv6 addresses (with
    [::], the longest run of zeros and the embedded IPv4 forms), and socket
    addresses with any port and scope.  The flow information of an IPv6 socket
    address is not printed, and comes back as zero. *)
Theorem net_addr_roundtrip :
  (forall a, ipv4_ok a -> exists t, Ipv4.fmt plain a = Done t /\
    ipv4_from_str t = Ok a /\ ip_from_str t = Ok (V4 a)) /\
  (forall a, ipv6_ok a -> exists t, Ipv6.fmt plain a = Done t /\
    ipv6_from_str t = Ok a /\ ip_from_str t = Ok (V6 a)) /\
  (forall ip port, ipv4_ok ip -> 0 <= port <= u16_max ->
    let a := SockV4.new ip port in
    exists t, SockV4.fmt plain a = Done t /\
      sock4_from_str t = Ok a /\ sock_from_str t = Ok (SV4 a)) /\
  (forall ip port flow scope, ipv6_ok ip -> 0 <= port <= u16_max -> 0 <= scope <= u32_max ->
    exists t, SockV6.fmt plain (SockV6.new ip port flow scope) = Done t /\
      sock6_from_str t = Ok (SockV6.new ip port 0 scope) /\
      sock_from_str t = Ok (SV6 (SockV6.new ip port 0 scope))).
Proof.
  split; [|split; [|split]].
  - intros a Ha. exists (Ipv4.text a). split; [done|].
    pose proof (read_ipv4_run a [] Ha I) as Hr. rewrite app_nil_r in Hr.
    unfold ipv4_from_str. pose proof (length_ipv4_text a).
    rewrite (proj2 (Nat.ltb_ge _ _)) by lia. split; apply parse_with_run; [done|].
    unfold read_ip_addr, p_or. by rewrite Hr.
  - intros a Ha. destruct (ipv6_text_shape a Ha) as (t & E & Ht). exists t. split; [done|].
    pose proof (ipv6_shape_run a t [] Ha Ht I (not_elem_of_nil _) ltac:(done)) as Hr.
    rewrite app_nil_r in Hr. split; apply parse_with_run; [done|].
    unfold read_ip_addr, p_or. by rewrite (ipv6_shape_not_ipv4 a t Ha Ht), Hr.
  - intros ip port Hi Hp a. exists (SockV4.text a). split; [done|].
    split; apply parse_with_run; [by apply sock4_run|].
    unfold read_socket_addr, p_or, a. by rewrite sock4_run.
  - intros ip port flow scope Hi Hp Hs.
    destruct (sock6_run ip port flow scope Hi Hp Hs) as (t & Et & Hr).
    exists (c_open :: t). split; [done|]. split; apply parse_with_run; [done|].
    unfold read_socket_addr, p_or.
    assert (read_socket_addr_v4 (c_open :: t) = (None, c_open :: t)) as ->; [|by rewrite Hr].
    apply read_atomically_None. erewrite p_bind_None; [done|]. by apply read_ipv4_stops.
Qed.

Lemma net_addr_roundtrip_witness :
  exists t, Ipv6.fmt plain Ipv6.LOCALHOST = Done t /\ ipv6_from_str t = Ok Ipv6.LOCALHOST /\
    ip_from_str t = Ok (V6 Ipv6.LOCALHOST).
Proof. apply (proj1 (proj2 net_addr_roundtrip) Ipv6.LOCALHOST). reflexivity. Defined.

(** C30. [Ipv4Addr::from_str] accepts exactly the texts that [Display] writes: four
    decimal numbers below 256, without leading zeros, with dots between them and
    nothing around.  So every address has one text and every text one address. *)
Theorem ipv4_from_str_iff s a : ipv4_from_str s = Ok a <-> ipv4_ok a /\ s = Ipv4.text a.
Proof.
  unfold ipv4_from_str. split.
  - destruct (15 <? length s)%nat; [done|]. intros H%parse_with_Ok.
    apply read_ipv4_inv in H as [Ha ->]. by rewrite app_nil_r.
  - intros [Ha ->]. pose proof (length_ipv4_text a). rewrite (proj2 (Nat.ltb_ge _ _)) by lia.
    apply parse_with_run. rewrite <- (app_nil_r (Ipv4.text a)). by apply read_ipv4_run.
Qed.

(** * Networks, orders and buffers

    The predicates on addresses are the networks that their
    documentation names, the orders are those of the numbers, and the buffers that
    [Display] formats into with a width or a precision are large enough. *)

(** * IPv4 networks *)

(** Address [a] is in the network [base/len]. *)
Definition in_net (base len : Z) (a : Ipv4Addr) : bool :=
  Ipv4.to_u32 a / 2 ^ (32 - len) =? base / 2 ^ (32 - len).

(** The number [a.b.c.d] *)
Definition quad (a b c d : Z) : Z := a * 2 ^ 24 + b * 2 ^ 16 + c * 2 ^ 8 + d.

Lemma to_u32_quad a :
  Ipv4.to_u32 a = quad (Ipv4.octet 0 a) (Ipv4.octet 1 a) (Ipv4.octet 2 a) (Ipv4.octet 3 a).
Proof.
  destruct (ipv4_octets_spelled a) as (x & y & z & t & E).
  unfold Ipv4.to_u32, Ipv4.octet, quad. rewrite E. unfold be_val.
  change (reverse [x; y; z; t]) with [t; z; y; x]. unfold le_val. cbn [lookup_total list_lookup_total]. lia.
Qed.

Lemma s_addr_zero a : ipv4_ok a -> s_addr a = 0 <-> Ipv4.to_u32 a = 0.
Proof.
  intros Ha. rewrite <- (ipv4_from_octets a Ha) at 1.
  destruct (ipv4_octets_spelled a) as (x & y & z & t & E).
  unfold Ipv4.to_u32, Ipv4.from_octets, Ipv4.new. rewrite E. unfold be_val.
  change (reverse [x; y; z; t]) with [t; z; y; x]. unfold le_val.
  cbn [lookup_total list_lookup_total s_addr].
  pose proof (byte_val_range x). pose proof (byte_val_range y).
  pose proof (byte_val_range z). pose proof (byte_val_range t). lia.
Qed.

(** The masks of the code are ranges of an octet. *)
Lemma octet_mask (f g : Z -> bool) i a :
  forallb (fun n => Bool.eqb (f (Z.of_nat n)) (g (Z.of_nat n))) (seq 0 256) = true ->
  f (Ipv4.octet i a) = g (Ipv4.octet i a).
Proof.
  intros H. rewrite forallb_forall in H. pose proof (octet_range i a).
  specialize (H (Z.to_nat (Ipv4.octet i a))). rewrite Z2Nat.id in H by lia.
  apply Bool.eqb_prop, H, list_elem_of_In, elem_of_seq. lia.
Qed.

(** A prefix, octet by octet *)
Ltac net_lemma a :=
  unfold in_net; rewrite to_u32_quad; unfold quad; simpl Z.pow;
  pose proof (octet_range 0 a); pose proof (octet_range 1 a);
  pose proof (octet_range 2 a); pose proof (octet_range 3 a);
  apply eq_bool_prop_intro; rewrite ?andb_True, !Is_true_true, !Z.eqb_eq;
  Z.to_euclidean_division_equations; lia.

Lemma net_4 a p : 0 <= p < 256 ->
  in_net (quad p 0 0 0) 4 a = (Ipv4.octet 0 a / 16 =? p / 16).
Proof. intros. net_lemma a. Qed.
Lemma net_8 a p : 0 <= p < 256 ->
  in_net (quad p 0 0 0) 8 a = (Ipv4.octet 0 a =? p).
Proof. intros. net_lemma a. Qed.
Lemma net_10 a p q : 0 <= p < 256 -> 0 <= q < 256 ->
  in_net (quad p q 0 0) 10 a = (Ipv4.octet 0 a =? p) && (Ipv4.octet 1 a / 64 =? q / 64).
Proof. intros. net_lemma a. Qed.
Lemma net_12 a p q : 0 <= p < 256 -> 0 <= q < 256 ->
  in_net (quad p q 0 0) 12 a = (Ipv4.octet 0 a =? p) && (Ipv4.octet 1 a / 16 =? q / 16).
Proof. intros. net_lemma a. Qed.
Lemma net_15 a p q : 0 <= p < 256 -> 0 <= q < 256 ->
  in_net (quad p q 0 0) 15 a = (Ipv4.octet 0 a =? p) && (Ipv4.octet 1 a / 2 =? q / 2).
Proof. intros. net_lemma a. Qed.
Lemma net_16 a p q : 0 <= p < 256 -> 0 <= q < 256 ->
  in_net (quad p q 0 0) 16 a = (Ipv4.octet 0 a =? p) && (Ipv4.octet 1 a =? q).
Proof. intros. net_lemma a. Qed.
Lemma net_24 a p q r : 0 <= p < 256 -> 0 <= q < 256 -> 0 <= r < 256 ->
  in_net (quad p q r 0) 24 a =
  (Ipv4.octet 0 a =? p) && (Ipv4.octet 1 a =? q) && (Ipv4.octet 2 a =? r).
Proof. intros. net_lemma a. Qed.
(** The predicates on IPv4 addresses decide the networks that their documentation
    names: 10.0.0.0/8, 172.16.0.0/12 and 192.168.0.0/16 are private, 127.0.0.0/8 is
    loopback, and so on; [is_reserved] leaves the broadcast address out. *)
Theorem ipv4_classes a : ipv4_ok a ->
  Ipv4.is_unspecified a = in_net (quad 0 0 0 0) 32 a /\
  Ipv4.is_loopback a = in_net (quad 127 0 0 0) 8 a /\
  Ipv4.is_private a =
    in_net (quad 10 0 0 0) 8 a || in_net (quad 172 16 0 0) 12 a || in_net (quad 192 168 0 0) 16 a /\
  Ipv4.is_link_local a = in_net (quad 169 254 0 0) 16 a /\
  Ipv4.is_shared a = in_net (quad 100 64 0 0) 10 a /\
  Ipv4.is_benchmarking a = in_net (quad 198 18 0 0) 15 a /\
  Ipv4.is_multicast a = in_net (quad 224 0 0 0) 4 a /\
  Ipv4.is_broadcast a = in_net (quad 255 255 255 255) 32 a /\
  Ipv4.is_documentation a =
    in_net (quad 192 0 2 0) 24 a || in_net (quad 198 51 100 0) 24 a || in_net (quad 203 0 113 0) 24 a /\
  Ipv4.is_reserved a = in_net (quad 240 0 0 0) 4 a && negb (in_net (quad 255 255 255 255) 32 a).
Proof.
  intros Ha.
  assert (Ipv4.is_broadcast a = in_net (quad 255 255 255 255) 32 a) as Hb.
  { unfold Ipv4.is_broadcast, in_net. by rewrite !Z.div_1_r. }
  rewrite net_4, !net_8, net_10, net_12, net_15, !net_16, !net_24, net_4 by lia.
  repeat split; try done.
  - unfold Ipv4.is_unspecified, in_net. rewrite !Z.div_1_r. apply eq_bool_prop_intro.
    rewrite !Is_true_true, !Z.eqb_eq. by apply s_addr_zero.
  - unfold Ipv4.is_private. rewrite (octet_mask (fun z => (16 <=? z) && (z <=? 31)) (fun z => z / 16 =? 1)) by reflexivity.
    change (16 / 16) with 1.
    by destruct (_ =? 10), ((_ =? 172) && _), ((_ =? 192) && (_ =? 168)).
  - unfold Ipv4.is_shared. f_equal. by apply (octet_mask (fun z => Z.land z 192 =? 64) (fun z => z / 64 =? 64 / 64)).
  - unfold Ipv4.is_benchmarking. f_equal. by apply (octet_mask (fun z => Z.land z 254 =? 18) (fun z => z / 2 =? 18 / 2)).
  - unfold Ipv4.is_multicast. by apply (octet_mask (fun z => (224 <=? z) && (z <=? 239)) (fun z => z / 16 =? 224 / 16)).
  - unfold Ipv4.is_reserved. rewrite Hb. f_equal. by apply (octet_mask (fun z => Z.land z 240 =? 240) (fun z => z / 16 =? 240 / 16)).
Qed.

Lemma ipv4_classes_witness :
  ipv4_ok Ipv4.LOCALHOST /\ Ipv4.is_loopback Ipv4.LOCALHOST = in_net (quad 127 0 0 0) 8 Ipv4.LOCALHOST.
Proof. split; [done|]. apply (ipv4_classes Ipv4.LOCALHOST). done. Defined.

(** The order is that of the addresses as numbers, and it agrees with equality. *)
Lemma ipv4_cmp_number a b : ipv4_ok a -> ipv4_ok b ->
  Ipv4.cmp a b = (Ipv4.to_u32 a ?= Ipv4.to_u32 b) /\ (Ipv4.cmp a b = Eq <-> Ipv4.eq a b = true).
Proof.
  intros Ha Hb. split; [done|]. unfold Ipv4.eq, Ipv4.cmp. rewrite Z.compare_eq_iff, Z.eqb_eq.
  split; [|by intros ->]. intros E%be_val_inj; [|by rewrite !length_le_bytes].
  rewrite <- (ipv4_from_octets a Ha), <- (ipv4_from_octets b Hb). unfold Ipv4.octets. by rewrite E.
Qed.

(** [Ord] of an IPv6 socket address looks at the address and the port, [PartialEq]
    also at the flow information and the scope: two addresses that differ in their
    scope are [Equal] but not [==], against the contract of [Ord]. *)
Theorem sock6_ord_disagrees_with_eq ip port :
  let a := SockV6.new ip port 0 1 in
  let b := SockV6.new ip port 0 2 in
  SockV6.cmp a b = Eq /\ SockV6.eq a b = false /\
  Sock.cmp (SV6 a) (SV6 b) = Eq /\ Sock.eq (SV6 a) (SV6 b) = false.
Proof.
  intros a b. assert (SockV6.cmp a b = Eq) as Hc.
  { unfold SockV6.cmp, a, b, SockV6.ip, SockV6.port. cbn [SockV6.new sin6_addr sin6_port].
    assert (Ipv6.cmp ip ip = Eq) as ->; [|apply Z.compare_refl].
    unfold Ipv6.cmp. induction (Ipv6.segments ip) as [|z l IH]; [done|]. cbn. by rewrite Z.compare_refl. }
  assert (SockV6.eq a b = false) as He.
  { unfold SockV6.eq, a, b. cbn [SockV6.new sin6_scope_id]. apply andb_false_r. }
  done.
Qed.

(** * The buffers of [Display] *)
Lemma length_groups_text i l : u16s l -> (length (groups_text (S i) l) <= 5 * length l)%nat.
Proof.
  intros Hl. revert i. induction Hl as [|z l Hz Hl IH]; intros i; [done|].
  cbn [groups_text sep]. rewrite !length_app. pose proof (fmt_hex_len z Hz). specialize (IH (S i)).
  simpl in *. lia.
Qed.

Lemma length_fmt_subslice l : u16s l -> (length (Ipv6.fmt_subslice l) <= 5 * length l - 1)%nat.
Proof.
  intros Hl. rewrite fmt_subslice_groups. destruct Hl as [|z l Hz Hl]; [done|].
  cbn [groups_text sep]. rewrite !length_app. pose proof (fmt_hex_len z Hz).
  pose proof (length_groups_text 0 l Hl). simpl in *. lia.
Qed.

Lemma length_ipv6_shape a t : ipv6_ok a -> ipv6_shape a t -> (length t <= 39)%nat.
Proof.
  intros Ha Ht. destruct (segments_ok a Ha) as [Hl Hu].
  destruct Ht as [_|_|v4 _ _|v4 _ _|l n k E Hn|].
  - simpl. lia.
  - change (fmt_hex 1) with [digit_char 1]. simpl. lia.
  - simpl. pose proof (length_ipv4_text v4). lia.
  - cbn [length]. rewrite length_app. change (length (fmt_hex u16_max)) with 4%nat. simpl.
    pose proof (length_ipv4_text v4). lia.
  - rewrite E in Hl, Hu. unfold u16s in Hu. rewrite !list.Forall_app in Hu. destruct Hu as (H1 & _ & H2).
    apply length_fmt_subslice in H1, H2. rewrite !length_app, length_replicate in Hl.
    rewrite length_app. simpl. lia.
  - apply length_fmt_subslice in Hu. lia.
Qed.

Lemma pad_plain f t : no_alignment f = true -> pad f t = t.
Proof. unfold no_alignment, pad. by destruct (precision f), (width f). Qed.

(** Text that fits the buffer goes through it unchanged. *)
Lemma fmt_through_buffer f n t : (length t <= n)%nat ->
  (if no_alignment f then Done t else panics_bind (write_buf n t) (fun buf => Done (pad f buf))) =
  Done (pad f t).
Proof.
  intros Hn. destruct (no_alignment f) eqn:E; [by rewrite pad_plain|].
  unfold write_buf. by rewrite (proj2 (Nat.leb_le _ _)).
Qed.

Lemma fmt_dec_len z n : 0 <= z < 10 ^ Z.of_nat n -> (0 < n)%nat -> (length (fmt_dec z) <= n)%nat.
Proof. intros. apply length_fmt_radix; [lia|done..]. Qed.

Lemma length_scope_text z : 0 <= z <= u32_max -> (length (scope_text z) <= 11)%nat.
Proof.
  intros Hz. assert (length (fmt_dec z) <= 10)%nat.
  { apply fmt_dec_len; [|lia]. change (10 ^ Z.of_nat 10) with 10000000000. unfold u32_max in Hz. lia. }
  destruct z; simpl in *; lia.
Qed.

(** [Display] of an address or a socket address never panics, whatever the width,
    precision, fill and alignment: the text always fits the stack buffer, so its
    [unwrap] never fails and [unreachable!] is not reached; and what comes out is the
    padded plain text. *)
Theorem addr_display_pads f :
  (forall a, ipv4_ok a -> exists t, Ipv4.fmt plain a = Done t /\ Ipv4.fmt f a = Done (pad f t)) /\
  (forall a, ipv6_ok a -> exists t, Ipv6.fmt plain a = Done t /\ Ipv6.fmt f a = Done (pad f t)) /\
  (forall ip port, ipv4_ok ip -> 0 <= port <= u16_max ->
    let a := SockV4.new ip port in
    exists t, SockV4.fmt plain a = Done t /\ SockV4.fmt f a = Done (pad f t)) /\
  (forall ip port flow scope, ipv6_ok ip -> 0 <= port <= u16_max -> 0 <= scope <= u32_max ->
    let a := SockV6.new ip port flow scope in
    exists t, SockV6.fmt plain a = Done t /\ SockV6.fmt f a = Done (pad f t)).
Proof.
  assert (forall port, 0 <= port <= u16_max -> (length (fmt_dec port) <= 5)%nat) as Hport.
  { intros port Hp. apply fmt_dec_len; [|lia]. change (10 ^ Z.of_nat 5) with 100000. unfold u16_max in Hp. lia. }
  split; [|split; [|split]].
  - intros a Ha. eexists. split; [done|]. apply fmt_through_buffer, length_ipv4_text.
  - intros a Ha. destruct (ipv6_text_shape a Ha) as (t & E & Ht). exists t. split; [done|].
    unfold Ipv6.fmt. rewrite E. by apply fmt_through_buffer, length_ipv6_shape with a.
  - intros ip port Hi Hp a. eexists. split; [done|]. apply fmt_through_buffer.
    unfold SockV4.text, a, SockV4.port. cbn [SockV4.new sin_port]. rewrite ntohs_htons by done.
    rewrite !length_app. pose proof (length_ipv4_text (SockV4.ip (SockV4.new ip port))).
    specialize (Hport port Hp). unfold SockV4.IPV4_SOCKET_BUF_LEN. simpl in *. lia.
  - intros ip port flow scope Hi Hp Hs a. destruct (ipv6_text_shape ip Hi) as (t & E & Ht).
    pose proof (sock6_text ip port flow scope t Hp E) as Et. eexists. split; [exact Et|].
    unfold SockV6.fmt, a. rewrite Et. apply fmt_through_buffer.
    apply length_ipv6_shape in Ht; [|done]. pose proof (length_scope_text scope Hs).
    specialize (Hport port Hp). cbn [length]. rewrite !length_app. cbn [length].
    unfold SockV6.IPV6_SOCKET_BUF_LEN. lia.
Qed.
