(* ===== verification/NetLookup.v ===== *)
(** NetLookup: socket addresses as C structures, and how a name becomes addresses:
    sys_common/net.rs ([sockaddr_to_addr], [LookupHost]), sys/net.rs
    ([cvt_gai]), net/addr.rs ([ToSocketAddrs]) and net/mod.rs ([each_addr]).

    The resolver is a parameter: [getaddrinfo] gives an error code, [errno] and the
    list of C addresses; [gai_strerror] gives the (UTF-8) text of a
    code.  The theorems hold
    for any resolver: a literal address never reaches it, and what it answers gets
    the caller's port. *)
From Stdlib Require Import ZArith Lia Strings.Byte Strings.String.
From stdpp Require Import base numbers list option tactics.
From S2P Require Import Prelude IoError NetIp NetSock NetParser NetText NetIpSpecs NetAddrSpecs.

(** * C addresses *)

(** The bytes of [sockaddr_in] and [sockaddr_in6], as [into_inner] hands them out:
    a pointer to the structure and its size *)
Definition sockaddr_bytes (a : SocketAddr) : list byte :=
  match a with
  | SV4 a =>
      le_bytes 2 (sin_family a) ++ le_bytes 2 (sin_port a) ++ le_bytes 4 (s_addr (sin_addr a)) ++ sin_zero a
  | SV6 a =>
      le_bytes 2 (sin6_family a) ++ le_bytes 2 (sin6_port a) ++ le_bytes 4 (sin6_flowinfo a)
      ++ s6_addr (sin6_addr a) ++ le_bytes 4 (sin6_scope_id a)
  end.

(** The [n] bytes at offset [i] *)
Definition field (i n : nat) (storage : list byte) : list byte := take n (drop i storage).
Definition num_field (i n : nat) (storage : list byte) : Z := le_val (field i n storage).

Definition as_sockaddr_in (storage : list byte) : SocketAddrV4 :=
  {| sin_family := num_field 0 2 storage; sin_port := num_field 2 2 storage;
     sin_addr := {| s_addr := num_field 4 4 storage |}; sin_zero := field 8 8 storage |}.
Definition as_sockaddr_in6 (storage : list byte) : SocketAddrV6 :=
  {| sin6_family := num_field 0 2 storage; sin6_port := num_field 2 2 storage;
     sin6_flowinfo := num_field 4 4 storage; sin6_addr := {| s6_addr := field 8 16 storage |};
     sin6_scope_id := num_field 24 4 storage |}.

Definition invalid_input (message : string) : io_error := SimpleMessage InvalidInput message.

(** A failed [assert!] is a [Panic]. *)
Definition sockaddr_to_addr (storage : list byte) (len : Z) : panics (result io_error SocketAddr) :=
  let family := num_field 0 2 storage in
  if family =? AF_INET then
    if 16 <=? len then Done (Ok (SV4 (as_sockaddr_in storage))) else Panic
  else if family =? AF_INET6 then
    if 28 <=? len then Done (Ok (SV6 (as_sockaddr_in6 storage))) else Panic
  else Done (Err (invalid_input "invalid argument")).

(** * Names *)
Record LookupHost := { cur : list (list byte * Z); lh_port : Z }.

(** [Iterator::next]: addresses of other families are skipped. *)
Fixpoint next_addr (cur : list (list byte * Z)) : panics (option SocketAddr * list (list byte * Z)) :=
  match cur with
  | [] => Done (None, [])
  | (ai_addr, ai_addrlen) :: cur =>
      panics_bind (sockaddr_to_addr ai_addr ai_addrlen) (fun r =>
      match r with
      | Ok addr => Done (Some addr, cur)
      | Err _ => next_addr cur
      end)
  end.
Definition next (lh : LookupHost) : panics (option SocketAddr * LookupHost) :=
  panics_bind (next_addr (cur lh)) (fun '(a, c) => Done (a, {| cur := c; lh_port := lh_port lh |})).

(** [s.rsplit_once(':')]: around the last colon *)
Fixpoint rsplit_once (c : byte) (s : list byte) : option (list byte * list byte) :=
  match s with
  | [] => None
  | b :: s =>
      match rsplit_once c s with
      | Some (l, r) => Some (b :: l, r)
      | None => if decide (b = c) then Some ([], s) else None
      end
  end.

(** [str::parse::<u16>()]: a sign [+] is allowed, a digit is needed. *)
Definition c_plus : byte := Byte.x2b.
Fixpoint parse_digits (w acc : Z) (s : list byte) : option Z :=
  match s with
  | [] => Some acc
  | b :: s =>
      digit ← to_digit 10 b;
      acc ← checked_mul w acc 10;
      acc ← checked_add w acc digit;
      parse_digits w acc s
  end.
Definition parse_u16 (s : list byte) : option Z :=
  match s with
  | [] => None
  | b :: tail =>
      let digits := if decide (b = c_plus) then tail else s in
      if bool_decide (digits = []) then None else parse_digits 16 0 digits
  end.

Section resolver.
Context (getaddrinfo : list byte -> Z * Z * list (list byte * Z)) (gai_strerror : Z -> option string).

Definition EAI_SYSTEM : Z := -11.
Definition ESGX : Z := 0x0000ffff.
Definition cvt_gai (err errno : Z) : result io_error unit :=
  if err =? 0 then Ok tt
  else if err =? EAI_SYSTEM then Err (Os errno)
  else
    match gai_strerror err with
    | None => Err (Os ESGX)
    | Some detail =>
        Err (Custom Uncategorized (String.append "failed to lookup address information: " detail))
    end.

(** [TryFrom<(&str, u16)>] and [TryFrom<&str>] of [LookupHost]; [CString::new]
    refuses a zero byte. *)
Definition lookup_host_port (host : list byte) (port : Z) : result io_error LookupHost :=
  if bool_decide (Byte.x00 ∈ host) then Err (invalid_input "data provided contains a nul byte")
  else
    let '(err, errno, res) := getaddrinfo host in
    result_map (fun _ => {| cur := res; lh_port := port |}) (cvt_gai err errno).
Definition lookup_host_str (s : list byte) : result io_error LookupHost :=
  match rsplit_once c_colon s with
  | None => Err (invalid_input "invalid socket address")
  | Some (host, port_str) =>
      match parse_u16 port_str with
      | None => Err (invalid_input "invalid port value")
      | Some port => lookup_host_port host port
      end
  end.

(** [lh.map(..).collect()]: the list shortens at every step. *)
Fixpoint collect (fuel : nat) (p : Z) (cur : list (list byte * Z)) : panics (list SocketAddr) :=
  match fuel with
  | O => Done []
  | S fuel =>
      panics_bind (next_addr cur) (fun '(a, cur) =>
      match a with
      | None => Done []
      | Some a => panics_bind (collect fuel p cur) (fun v => Done (Sock.set_port p a :: v))
      end)
  end.
Definition resolve_socket_addr (lh : LookupHost) : panics (result io_error (list SocketAddr)) :=
  panics_bind (collect (S (length (cur lh))) (lh_port lh) (cur lh)) (fun v => Done (Ok v)).

(** [to_socket_addrs] of a host with a port, and of a text (feature [net]) *)
Definition host_port_to_socket_addrs (host : list byte) (port : Z) : panics (result io_error (list SocketAddr)) :=
  match ipv4_from_str host with
  | Ok addr => Done (Ok [SV4 (SockV4.new addr port)])
  | Err _ =>
      match ipv6_from_str host with
      | Ok addr => Done (Ok [SV6 (SockV6.new addr port 0 0)])
      | Err _ =>
          match lookup_host_port host port with
          | Ok lh => resolve_socket_addr lh
          | Err e => Done (Err e)
          end
      end
  end.
Definition str_to_socket_addrs (s : list byte) : panics (result io_error (list SocketAddr)) :=
  match sock_from_str s with
  | Ok addr => Done (Ok [addr])
  | Err _ =>
      match lookup_host_str s with
      | Ok lh => resolve_socket_addr lh
      | Err e => Done (Err e)
      end
  end.

(** [each_addr]: the first address on which [f] succeeds, else the last error *)
Fixpoint try_addrs {A} (f : SocketAddr -> result io_error A) (addrs : list SocketAddr)
    (last_err : option io_error) : result io_error A :=
  match addrs with
  | [] =>
      Err (default (invalid_input "could not resolve to any addresses") last_err)
  | addr :: addrs =>
      match f addr with
      | Ok l => Ok l
      | Err e => try_addrs f addrs (Some e)
      end
  end.
Definition each_addr {A} (addrs : result io_error (list SocketAddr))
    (f : result io_error SocketAddr -> result io_error A) : result io_error A :=
  match addrs with
  | Err e => f (Err e)
  | Ok addrs => try_addrs (fun a => f (Ok a)) addrs None
  end.
End resolver.

(** * C addresses are read back *)
Definition sock_ok (a : SocketAddr) : Prop :=
  match a with
  | SV4 a => sin_family a = AF_INET /\ 0 <= sin_port a <= u16_max /\ ipv4_ok (sin_addr a) /\
      length (sin_zero a) = 8%nat
  | SV6 a => sin6_family a = AF_INET6 /\ 0 <= sin6_port a <= u16_max /\
      0 <= sin6_flowinfo a <= u32_max /\ ipv6_ok (sin6_addr a) /\ 0 <= sin6_scope_id a <= u32_max
  end.

(** A field at the front, and one further back *)
Lemma field_here bs rest n : length bs = n -> field 0 n (bs ++ rest) = bs.
Proof. intros <-. unfold field. by rewrite drop_0, take_app_length. Qed.

Lemma field_skip bs rest i n m : length bs = m -> (m <= i)%nat ->
  field i n (bs ++ rest) = field (i - m) n rest.
Proof. intros <- Hi. unfold field. by rewrite drop_app_ge. Qed.

Lemma num_field_here z rest n : 0 <= z < 256 ^ Z.of_nat n -> le_val (field 0 n (le_bytes n z ++ rest)) = z.
Proof.
  intros Hz. rewrite field_here by apply length_le_bytes.
  rewrite le_val_bytes. by apply Z.mod_small.
Qed.

(** Skips the fields before the one that is read. *)
Ltac skip_fields :=
  repeat match goal with
  | |- context [field ?i ?n (le_bytes ?m ?z ++ ?r)] =>
      lazymatch i with O => fail | _ =>
        rewrite (field_skip (le_bytes m z) r i n m) by (first [apply length_le_bytes | simpl; lia]);
        let i' := eval cbv in (i - m)%nat in change (i - m)%nat with i' end
  end.

(** What the code hands to C (a pointer to the structure, and its size), read back
    from a larger buffer of the C side, is the same address. *)
Theorem sockaddr_roundtrip a rest : sock_ok a ->
  sockaddr_to_addr (sockaddr_bytes a ++ rest) (zlen (sockaddr_bytes a)) = Done (Ok a).
Proof.
  unfold sock_ok, u16_max, u32_max. intros Ha.
  assert (zlen (sockaddr_bytes a) = match a with SV4 _ => 16 | SV6 _ => 28 end) as ->.
  { unfold zlen, sockaddr_bytes. destruct a; destruct_and! Ha; rewrite !length_app, !length_le_bytes;
      [|unfold ipv6_ok in *]; repeat match goal with H : length _ = _ |- _ => rewrite H; clear H end; done. }
  assert (forall z, 0 <= z <= 65535 -> 0 <= z < 256 ^ Z.of_nat 2) as H2 by (intros; simpl; lia).
  assert (forall z, 0 <= z <= 4294967295 -> 0 <= z < 256 ^ Z.of_nat 4) as H4 by (intros; simpl; lia).
  destruct a as [[fam port [ip] zero]|[fam port flow [ip] scope]]; cbn in Ha |- *; destruct_and! Ha.
  - unfold ipv4_ok in *. cbn in *. simplify_eq. rewrite <- !app_assoc.
    unfold sockaddr_to_addr, as_sockaddr_in, num_field. rewrite !num_field_here by done. cbn [Z.eqb Z.leb].
    skip_fields. rewrite !num_field_here by auto with lia. rewrite field_here by done. done.
  - unfold ipv6_ok in *. cbn in *. simplify_eq. rewrite <- !app_assoc.
    unfold sockaddr_to_addr, as_sockaddr_in6, num_field. rewrite !num_field_here by done. cbn [Z.eqb Z.leb].
    skip_fields. rewrite !num_field_here by auto with lia.
    rewrite (field_skip ip _ 16 4 16) by done. rewrite field_here by done.
    by rewrite num_field_here by auto with lia.
Qed.

(** * The resolver *)
Section specs.
Context (getaddrinfo : list byte -> Z * Z * list (list byte * Z)) (gai_strerror : Z -> option string).

(** The addresses of the families that the code knows *)
Definition decoded (x : list byte * Z) : option SocketAddr :=
  match sockaddr_to_addr x.1 x.2 with Done (Ok a) => Some a | _ => None end.

(** [LookupHost] yields every address of the answer that is IPv4 or IPv6, in order,
    with the caller's port; only an address that is shorter than its family says
    makes it panic. *)
Theorem resolve_socket_addr_spec lh :
  Forall (fun x => sockaddr_to_addr x.1 x.2 <> Panic) (cur lh) ->
  resolve_socket_addr lh = Done (Ok (Sock.set_port (lh_port lh) <$> omap decoded (cur lh))).
Proof.
  destruct lh as [l p]. cbn [cur lh_port]. intros Hl. unfold resolve_socket_addr. cbn [cur lh_port].
  enough (forall fuel, (length l < fuel)%nat ->
    collect fuel p l = Done (Sock.set_port p <$> omap decoded l)) as -> by (done || lia).
  induction Hl as [|[addr len] l Hx Hl IH]; intros fuel Hf; (destruct fuel as [|fuel]; [simpl in Hf; lia|]).
  { done. }
  cbn [collect next_addr]. unfold omap. cbn [list_omap]. unfold decoded at 1. cbn [fst snd] in *.
  destruct (sockaddr_to_addr addr len) as [[a|e]|] eqn:E; [| |done]; cbn [panics_bind].
  - rewrite IH by (simpl in Hf; lia). done.
  - specialize (IH (S fuel) ltac:(simpl in Hf; lia)). exact IH.
Qed.

(** A literal address is never looked up: as a host with a port or as a text with
    its port, it is its own only answer, whatever the resolver would say. *)
Theorem literal_addresses_not_resolved ip port :
  ip_ok ip -> 0 <= port <= u16_max ->
  (exists t, Ip.fmt plain ip = Done t /\
    host_port_to_socket_addrs getaddrinfo gai_strerror t port = Done (Ok [Sock.new ip port])) /\
  (exists t, Sock.fmt plain (Sock.new ip port) = Done t /\
    str_to_socket_addrs getaddrinfo gai_strerror t = Done (Ok [Sock.new ip port])).
Proof.
  intros Hi Hp. destruct ip as [a|a]; cbn in Hi.
  - assert (ipv4_from_str (Ipv4.text a) = Ok a) as E.
    { unfold ipv4_from_str. pose proof (length_ipv4_text a). rewrite (proj2 (Nat.ltb_ge _ _)) by lia.
      apply parse_with_run. rewrite <- (app_nil_r (Ipv4.text a)). by apply read_ipv4_run. }
    split; eexists; (split; [done|]).
    + unfold host_port_to_socket_addrs. by rewrite E.
    + unfold str_to_socket_addrs, sock_from_str.
      rewrite (parse_with_run _ _ (SV4 (SockV4.new a port))); [done|].
      unfold read_socket_addr, p_or. by rewrite sock4_run.
  - destruct (ipv6_text_shape a Hi) as (t & Et & Ht).
    pose proof (ipv6_shape_run a t [] Hi Ht I (not_elem_of_nil _) ltac:(done)) as Hr.
    rewrite app_nil_r in Hr. split.
    + exists t. split; [done|]. unfold host_port_to_socket_addrs, ipv6_from_str.
      rewrite (parse_with_run _ _ _ Hr). unfold ipv4_from_str, parse_with.
      rewrite (ipv6_shape_not_ipv4 a t Hi Ht). by repeat case_match.
    + destruct (sock6_run a port 0 0 Hi Hp ltac:(done)) as (t' & Et' & Hr').
      exists (c_open :: t'). split; [done|]. unfold str_to_socket_addrs, sock_from_str.
      rewrite (parse_with_run _ _ (SV6 (SockV6.new a port 0 0))); [done|].
      unfold read_socket_addr, p_or.
      assert (read_socket_addr_v4 (c_open :: t') = (None, c_open :: t')) as ->; [|by rewrite Hr'].
      apply read_atomically_None. erewrite p_bind_None; [done|]. by apply read_ipv4_stops.
Qed.
End specs.

(** [each_addr] stops at the first address that works, and otherwise reports the
    error of the last one tried. *)
Lemma try_addrs_spec {A} (f : SocketAddr -> result io_error A) pre a post b e :
  Forall (fun x => is_Ok (f x) = false) pre -> f a = Ok b -> try_addrs f (pre ++ a :: post) e = Ok b.
Proof.
  intros Hp Ha. revert e. induction Hp as [|x pre Hx Hp IH]; intros e; cbn; [by rewrite Ha|].
  destruct (f x); [done|]. apply IH.
Qed.

Lemma try_addrs_all_fail {A} (f : SocketAddr -> result io_error A) pre a e e' :
  Forall (fun x => is_Ok (f x) = false) pre -> f a = Err e' -> try_addrs f (pre ++ [a]) e = Err e'.
Proof.
  intros Hp Ha. revert e. induction Hp as [|x pre Hx Hp IH]; intros e; cbn; [by rewrite Ha|].
  destruct (f x); [done|]. apply IH.
Qed.
